(* ===== verification/_CoqProject ===== *)
-Q . S2P
Prelude.v
JsString.v
JsValue.v
Numerals.v
JsMap.v
Canonical.v
Sha256.v
JsonText.v
Backoff.v
Connection.v
Sequence.v
Channel.v
Journal.v
MutationHold.v
Base64.v
Stream.v
Envelope.v
ParseFrame.v
EntryPoint.v
Framing.v
Transaction.v
ProtocolStore.v
Identifiers.v
InvocationContext.v
Registry.v
Confirmation.v
BatchDispatch.v
Projection.v
Discovery.v
Serving.v
Effects.v
DispatchData.v
Dispatch.v
DispatchTraces.v
DispatchQueue.v
RecoveryData.v
Recovery.v
RecoveryMachine.v
RecoverySystem.v
RecoveryScenario.v
HistoryTree.v
Retention.v
Maintenance.v
RetentionStep.v
RetentionScenario.v
