(* ===== verification/Prelude.v ===== *)
(** * A verification of the Revit Bridge Protocol core

    revAgent drives Autodesk Revit from a remote gateway.  A gateway in the cloud
    and a bridge beside Revit speak RBP/1, a sequenced, resumable, at-most-once
    invocation protocol, and both ends are built on the same pure TypeScript
    state machines in src/packages/protocol/src.  This development models those
    state machines definition by definition, composes them over an unreliable
    network, and proves what makes the protocol safe: frames are delivered
    exactly once and in order, a mutation of a model is never run twice, and a
    mutation whose outcome is unknown blocks its scope until evidence clears it.
    Of the gateway itself (src/packages/gateway/src) it models the transactional
    store and, on top of its interface, the authorities that decide who may run
    what: identifiers, the context of an invocation, the confirmations a user
    gives for a mutation and what they run, the tools a session discovers; the
    owner that lets one gateway at a time use the stores; the dispatcher that takes
    one tool call through all of them to an executor and back; the authority that
    keeps windows, holds and pending dispatches durable across crashes; and what
    becomes of a session afterwards: its history as a tree of pages, its retention,
    and the maintenance that retires it.

    ** The parts and their files

    - Prelude (this file): the error monad of throwing code, stable sorting,
      searches and sets as the code uses arrays, shared automation.
    - JsString, JsValue: the language.  A string is its list of UTF-16 code
      units, with comparison, UTF-8 encoding and JSON quoting; a number is an
      exact integer, a decimal or a non-finite value; a value is JSON as
      JavaScript holds it, with [undefined] and the shapes of objects.
    - Numerals: the text of a finite number determines it.
    - JsMap: the insertion-ordered Map.
    - JsonText: JSON.parse, JSON.stringify and the UTF-8 decoder, executable, with
      what the code relies on of binary64 as a class.
    - Canonical (paramsDigest.ts): RFC 8785 serialisation and the digests made of
      it.  The hash is a parameter ([Hasher], node:crypto is not part of the
      repository); Sha256 gives it an executable instance that test vectors of
      the repository confirm.
    - Backoff (reconnectBackoff.ts): backoff limits and full jitter, with the
      rounding of binary64.
    - Connection (connectionState.ts): the lifecycle of a connection and of a
      session as transition functions on a state record.
    - Sequence (sequenceState.ts): queueing, cumulative acknowledgement,
      acceptance and retransmission of data envelopes for one session; the
      ledger of dispatch windows.
    - Channel: two endpoints of Sequence over a network that loses, repeats,
      delays and reorders frames, as a step relation.
    - Journal (journalState.ts): the journal record of an invocation, its
      redelivery, cancellation and unregistration, and the plans of batches.
    - MutationHold (mutationHold.ts): holds on uncertain mutations, evidence,
      resolution, and the authorisation of a dispatch.
    - Base64, Stream (streamAssembler.ts): reassembly of chunked results and
      artifacts.
    - Envelope (validateEnvelope.ts): the semantic checks on parsed envelopes.
      The schema validator (Ajv) is a parameter.
    - ParseFrame (parseFrame.ts): the parser of raw frames: spans of the parts of
      a text, repeated keys, byte limits, and the order of its refusals.
      EntryPoint (index.ts): versions and the idempotency key.
    - Framing (addin-loopback-fixture/src/framing.ts): length-prefixed frames on
      a TCP stream.
    - Transaction (addin-loopback-fixture/src/transactionGroup.ts): the
      transaction group that makes an atomic batch atomic.
    - ProtocolStore (gateway/src/store.ts, preProductionRuntimeAdapters.ts): the
      store contract as a class ([TransactionalStore] with the laws
      [TransactionalStoreOk]) and the pre-production store that implements it.  A
      transaction is cut into the parts that run in one turn of the event loop,
      which a step relation interleaves; so is the startup coordinator.
    - Identifiers (gateway/src/identifiers.ts): UUIDv7.
    - InvocationContext (gateway/src/invocationContext.ts): scopes of a request,
      the authority and the context of an invocation, dispatch proofs as objects
      whose identity counts.
    - Confirmation (gateway/src/confirmationAuthority.ts): tokens and pending
      actions, proved against the store's class; zod is a parameter.
    - Registry (gateway/src/registry.ts): tool records, the registry, its views.
      BatchDispatch (gateway/src/batchDispatch.ts): the authorisation of an atomic
      batch from invocations that were authorised one by one.
    - Projection (gateway/src/confirmation.ts): what a confirmed tool runs as its
      preview and as its commit, and the confirmation fields of a call.
    - Discovery (gateway/src/modeADiscovery.ts): search in a view of the registry
      and activation of schemas under a budget of bytes.
    - Serving (gateway/src/gatewayServingOwnership.ts): the owner of the stores, on
      the startup coordinator of ProtocolStore and among its other callers; its
      methods are cut at their awaits and a step relation interleaves them.
    - Effects: asynchronous code as programs over calls, runs against an
      environment that answers them in any way, and a weakest-precondition logic.
      DispatchData, Dispatch (gateway/src/dispatch.ts): the outcomes of a dispatch
      and the dispatcher's three ways (preview, mutation, read) as such programs,
      on InvocationContext, Registry, Projection and Journal; the recovery and
      confirmation authorities, the executors, the event sink and the clock are
      the environment.  DispatchTraces: what every run does.  DispatchQueue: any
      number of dispatches at once, over the shared queues of the routes.
    - RecoveryData, Recovery (gateway/src/recoveryAuthority.ts): the durable record of
      a session (window, holds, plan, pending dispatch, histories) with every check
      it is read under, and the operations of the authority as programs over their
      transaction, the clock and the ports of the bridge, on Journal, MutationHold,
      Envelope and Confirmation.  RecoveryMachine: the abstract machine, which steps
      of a record are permitted to whom, and that every operation stages only such
      steps.  RecoverySystem: any number of operations at once on a store that keeps
      the laws of [TransactionalStore].  RecoveryScenario: one session played on the
      pre-production store, step by step, at which the theorems are applied.
    - HistoryTree (gateway/src/sessionHistoryStore.ts): the entries of a session as
      leaves and branches of pages under content digests; planning, reading and
      capturing them.  Retention (gateway/src/sessionRetention.ts and the root of
      sessionHistoryStore.ts): when a session may be retired, the closure that
      records the plan and the claim on it, the bounded batches that delete its
      private objects and pages, and the retirement of its root.
    - Maintenance (gateway/src/gatewayMaintenance.ts, runMaintenanceStep of
      bridgeSession.ts): the coordinator of the passes, cut at its awaits, and the
      step it drives, as a program over its calls.  RetentionStep (the transaction of
      runMaintenanceStep): inventories, claim, takeover, deletion and final proof, on
      Retention.  RetentionScenario: one session retired on the pre-production
      store, at which the theorems of these files are applied.

    A file has a module of definitions with the names of the code (a record field
    carries a short prefix) and a module [...Facts] with its theory.  A function
    that throws returns [result js_error]; an optional or nullable field is an
    [option]; a copy with some fields replaced is a [with_...] function; a frozen
    clone of JSON is the value itself, since no operation mutates one.

    ** What the theorems show

    - Canonical: the serialiser is total on exactly the values RFC 8785 covers and
      equals a reference serialisation; a digest identifies a value up to the
      order of members, when the hash does not collide on the two texts.
    - Channel, Sequence: what was received is always a prefix of what was sent, no
      genuine frame is a fault, and from every reachable state retransmission
      delivers everything; acknowledgements release exact intervals; a reused
      number with other content is refused.
    - Journal: an invariant over every history of a record; a mutation is
      dispatched at most once, a read at most twice; outcomes are final; a foreign
      request is refused; batch plans exist, stop at the first failure and agree
      with the status validator; atomic batches run at most once.
    - MutationHold: an invariant over every ledger of every history, with the one way
      an id can come twice; a dispatch passes only holds
      that evidence and a matching clearance resolved for it; clearances are used
      once; what the code hands out as clearances suffices; installed holds block.
    - Stream, Base64, Envelope: memory stays within the limits, completed streams
      are the bytes that were sent, the envelope's checks accept exactly the
      values they describe and agree with the journal and the assembler.
    - Connection, Backoff: transitions never throw on sane timing, retry waits
      follow the capped doubling schedule, jitter stays in range, a session may
      dispatch only while registered.
    - JsonText, ParseFrame: printed values read back; on text JSON.parse accepts the
      parser of spans accepts exactly what repeats no key and places every part
      where it is read, so the byte limits are those of the parts; the refusals
      are exact.
    - ProtocolStore: an invariant over interleaved transactions; a commit applies
      all of its writes or none; an update that expects the version it read is
      never lost; startups are serialised.
    - InvocationContext: a request is admitted exactly when its actor, its route and
      its scope pass the tests of the code and agree; a context says only what was authenticated; proofs are those minted
      and their digests identify what they were minted for.
    - Confirmation: a token validates exactly for the request it was issued for;
      over every interleaving it is consumed at most once, leaves its audit
      record, and is refused as replayed ever after.
    - Registry, BatchDispatch: a view shows exactly what was asked for; a batch is
      authorised exactly when its steps belong together, and what dispatch
      authorised step by step passes ([dispatched_steps_batch]).
    - Projection: a preview never commits, and what is committed under its digest
      is what it announced; the control fields never reach a tool.
    - Discovery: the active schemas fit the budget and are a view's; activation
      succeeds exactly when the request fits, evicts the least recently used and no
      more than needed, and reports a change exactly when there is one; a search
      returns the best of the tools that have every term.
    - Serving: operations run only under the coordinator's only lease, closing
      drains them, gives the lease back and completes; objects read back as they
      were written.
    - Dispatch: whatever its collaborators answer or throw, an executor is reached
      only in the turn of the dispatch on its route and inside its durable window;
      a mutation is sent at most once, as it was made durable and after its
      approval was recorded; it is reported as done only on durable evidence; a
      request for confirmation is bound to the preview that ran; no success goes
      unrecorded; a read that reached its queue does not throw.  Dispatches of one
      route never overlap, and every interleaving of them completes.
    - Recovery: the record of a session follows the abstract machine whatever
      interleaves; its window is exclusive; a dispatch is admitted once; it goes past
      a hold only when conclusive evidence resolved the hold for it; a hold is
      cleared only by the dispatch it was resolved for, and an accepted mutation
      whose outcome is open is held; every operation answers, with a bounded number
      of transactions.
    - HistoryTree, Retention: a committed lane and a committed root read back, on any
      store that keeps its laws; a session is retired only long after everything about
      it has settled; a batch keeps to its claim, its closure and its budget, and when
      it reports the pages exhausted none is left; a retired session stays retired.
    - Maintenance, RetentionStep: a pass ends within its budgets, lanes that have
      nothing to do take turns, and a transaction reports exactly what it staged.
    - Framing, Transaction: decoding inverts encoding however the stream is cut;
      a group changes the model completely or not at all.

    Twelve theorems record defects: [late_read_redelivery_throws] (the late result of
    a read that became indeterminate can never be replayed),
    [reinstalled_hold_is_stuck] (a hold installed again under the id of a cleared
    one can never be resolved), [early_close_sticks] (a gateway closed before it was
    opened can never be closed again), [overtaken_open_sticks] (nor can one that
    was closed while it was opening), [undigestable_preview_escapes] (a call that
    needs confirmation, with arguments that have no digest, throws unrecorded),
    [no_send_strands_holds] (the holds a dispatch was prepared past block their scopes
    for ever when it turns out that it was never sent), [late_outcome_unheld] (such
    a dispatch, once lost and then accepted together with its late outcome, leaves its
    own mutations without a hold), [resting_session_ends_retention] (while the first
    session is live or retired, no other is ever retired), [later_tenants_unmaintained]
    (nor is any of a tenant but the first), [throwing_lane_starves_next] (a lane whose
    steps throw keeps the lane after it from running), [takeover_strands_object] (a
    claim taken over while a private object is being deleted can never be completed)
    and [branches_exceed_budget] (nor can one whose last leaves fill a batch that its
    branches then do not fit).  [collated_history_unreadable] shows why the keys of a
    lane have to be digits: the builder sorts by collation, the reader checks code
    units.  The steps of Serving allow [open] and [close] at any time; what the owner
    promises is proved of the histories in which neither is called while the other is
    under way ([orderly_step]), and the two theorems above say what happens otherwise.

    ** Bounds and assumptions

    Loops are structural recursions on the list they walk, with four exceptions.
    The frame decoder takes the length of its buffer as fuel; every round but the
    last consumes four bytes or more, and [drain_fuel] shows that more fuel
    changes nothing.  JSON.parse and the parser of spans take 2n + 2 for a text of
    n units: a call either consumes a unit or opens the one nested call that does,
    and the readers are proved complete for the texts they should accept.  Reading a
    tree of pages takes the height of the tree; a planned tree is at most four high,
    and the theorems hold for every fuel of four or more.
    Sequence numbers and sizes are integers with the code's own checks against
    [Number.MAX_SAFE_INTEGER].  Digest theorems assume only that the
    hash does not collide on the two texts at hand ([collision_free]), and their
    values to be [wire_value]s: JSON of finite numbers and well-formed strings, with
    distinct keys.  The invariant of MutationHold assumes that the hash gives no id to
    holds of different sessions or scopes ([no_collision]).  The law of zod
    ([ZodOk]) and the laws of the store are classes; the witnesses instantiate
    them, the store's with the pre-production store.  The stored form of a recovery
    record is a parameter of RecoverySystem ([decode], with records written as some
    JSON it reads back), and the other users of the store are taken to leave the records
    of the authority alone, which the gateway does but when it retires the source of a
    migration.  The read-back theorems of HistoryTree and Retention are for JSON whose
    numbers are safe integers.  A record deleted and made
    again restarts its versions, hence the hypothesis of [no_lost_update] that the
    record stayed; the confirmation authority never deletes.

    ** What is not modelled

    The JSON schemas and Ajv, which are a parameter of Envelope and of RecoveryData;
    that inputs of the recovery authority can be cloned; of sessionHistoryStore.ts the
    private blob store, the capacity plan of a migration and the audit; how a session
    record is loaded from its pages, which RetentionStep takes as a function; the rest
    of the gateway (the bridge sessions, which answer the ports of the recovery
    authority, its serving composition, identity, objects, HTTP and configuration); the bridge simulator, the gateway stub and the conformance runner, which wire the state
    machines to sockets and files; the installed runtime's MCP server and spatial
    tools;
    the documentation server, the dashboard and the C# add-in. *)

From stdpp Require Export base list strings sorting numbers sets.
From Stdlib Require Export ZArith Lia Bool.

#[global] Open Scope Z_scope.
#[global] Open Scope list_scope.

(** * Notations *)

Declare Scope ts_scope.
Delimit Scope ts_scope with ts.

(** TypeScript's [===] and [!==] on data whose equality is decidable. *)
Notation "x === y" := (bool_decide (x = y)) (at level 70, no associativity) : ts_scope.
Notation "x !== y" := (negb (bool_decide (x = y))) (at level 70, no associativity) : ts_scope.
#[global] Open Scope ts_scope.

(** * The error monad: a call returns a value or throws *)

Inductive result (E A : Type) : Type :=
| Ok (a : A)
| Throw (e : E).
Arguments Ok {E A} a.
Arguments Throw {E A} e.

Section result.
Context {E : Type}.

#[global] Instance result_ret : MRet (result E) := λ A a, Ok a.

#[global] Instance result_bind : MBind (result E) := λ A B k m,
  match m with Ok a => k a | Throw e => Throw e end.

(** [if (cond) throw e;] *)
Definition throw_if (cond : bool) (e : E) : result E unit :=
  if cond then Throw e else Ok tt.

(** [try { body } catch { fallback }] *)
Definition try_catch {A} (m : result E A) (fallback : A) : A :=
  match m with Ok a => a | Throw _ => fallback end.

Definition is_ok {A} (m : result E A) : bool :=
  match m with Ok _ => true | Throw _ => false end.

(** [xs.map(f)] for a callback that may throw. *)
Fixpoint map_result {A B} (f : A → result E B) (xs : list A) : result E (list B) :=
  match xs with
  | [] => Ok []
  | x :: xs => y ← f x; ys ← map_result f xs; Ok (y :: ys)
  end.

Lemma bind_ok {A B} (m : result E A) (k : A → result E B) b :
  (m ≫= k) = Ok b ↔ ∃ a, m = Ok a ∧ k a = Ok b.
Proof. destruct m; cbn; naive_solver. Qed.

Lemma throw_if_ok cond e u : throw_if cond e = Ok u ↔ cond = false.
Proof. destruct cond, u; cbn; naive_solver. Qed.

Lemma map_result_ok {A B} (f : A → result E B) xs ys :
  map_result f xs = Ok ys ↔ Forall2 (λ x y, f x = Ok y) xs ys.
Proof.
  revert ys. induction xs as [|x xs IH]; intros ys; cbn.
  - split; [intros [= <-]; constructor | intros H; by inversion H].
  - rewrite bind_ok. setoid_rewrite bind_ok. setoid_rewrite IH. split.
    + intros (y & Hy & ys' & Hys & [= <-]). by constructor.
    + intros H; inversion H; subst. eauto 7.
Qed.

Lemma map_result_ext {A B} (f g : A → result E B) xs :
  (∀ x, x ∈ xs → f x = g x) → map_result f xs = map_result g xs.
Proof.
  induction xs as [|x xs IH]; intros H; cbn; [done|].
  rewrite (H x) by set_solver. rewrite IH by set_solver. done.
Qed.

End result.
Arguments result_ret {E} A a /.
Arguments result_bind {E} A B k m /.

(** * Automation *)

Create HintDb rbp discriminated.

(** Turn boolean tests of the code into the propositions they decide. *)
Ltac bsimp :=
  repeat match goal with
  | H : Ok _ = Ok _ |- _ => injection H as H; try subst
  | H : Ok _ = Throw _ |- _ => discriminate H
  | H : Throw _ = Ok _ |- _ => discriminate H
  | H : _ && _ = true |- _ => apply andb_true_iff in H as [? ?]
  | H : _ || _ = false |- _ => apply orb_false_iff in H as [? ?]
  | H : negb _ = true |- _ => apply negb_true_iff in H
  | H : negb _ = false |- _ => apply negb_false_iff in H
  | H : bool_decide _ = true |- _ => apply bool_decide_eq_true in H
  | H : bool_decide _ = false |- _ => apply bool_decide_eq_false in H
  | H : Is_true _ |- _ => apply Is_true_true in H
  | H : (_ =? _) = true |- _ => apply Z.eqb_eq in H
  | H : (_ =? _) = false |- _ => apply Z.eqb_neq in H
  | H : (_ <=? _) = true |- _ => apply Z.leb_le in H
  | H : (_ <=? _) = false |- _ => apply Z.leb_gt in H
  | H : (_ <? _) = true |- _ => apply Z.ltb_lt in H
  | H : (_ <? _) = false |- _ => apply Z.ltb_ge in H
  end.

(** Peel the calls of a computation known to return. *)
Ltac ok_inv H :=
  repeat match type of H with
  | (_ ≫= _) = Ok _ =>
      let a := fresh "a" in let Ha := fresh "Hok" in
      apply bind_ok in H as (a & Ha & H);
      try (apply throw_if_ok in Ha; clear a)
  end; bsimp.

(** Case split on the outermost test of a hypothesis or the goal. *)
Ltac split_if :=
  match goal with
  | |- context [if ?b then _ else _] => let E := fresh "Hif" in destruct b eqn:E
  | H : context [if ?b then _ else _] |- _ => let E := fresh "Hif" in destruct b eqn:E
  end.

(** * Stable sorting, as [Array.prototype.sort] with a comparator *)

Section sort.
Context {A : Type} (leb : A → A → bool).

Fixpoint insert_by (x : A) (ys : list A) : list A :=
  match ys with
  | [] => [x]
  | y :: ys' => if leb x y then x :: ys else y :: insert_by x ys'
  end.

Fixpoint sort_by (xs : list A) : list A :=
  match xs with
  | [] => []
  | x :: xs => insert_by x (sort_by xs)
  end.

Lemma insert_by_perm x ys : insert_by x ys ≡ₚ x :: ys.
Proof.
  induction ys as [|y ys IH]; cbn; [done|].
  destruct (leb x y); [done|]. rewrite IH. constructor.
Qed.

Lemma sort_by_perm xs : sort_by xs ≡ₚ xs.
Proof. induction xs as [|x xs IH]; cbn; [done|]. by rewrite insert_by_perm, IH. Qed.

Lemma sort_by_elem x xs : x ∈ sort_by xs ↔ x ∈ xs.
Proof. by rewrite sort_by_perm. Qed.

Context (leb_total : ∀ x y, leb x y = true ∨ leb y x = true).
Context (leb_trans : ∀ x y z, leb x y = true → leb y z = true → leb x z = true).

Lemma insert_by_sorted x ys :
  StronglySorted (λ a b, leb a b = true) ys →
  StronglySorted (λ a b, leb a b = true) (insert_by x ys).
Proof.
  induction 1 as [|y ys Hs IH Hf]; cbn; [repeat constructor|].
  destruct (leb x y) eqn:E.
  - constructor; [by constructor|]. constructor; [done|].
    eapply Forall_impl; [exact Hf|]. cbn; eauto.
  - constructor; [done|]. rewrite insert_by_perm. constructor; [|done].
    destruct (leb_total x y); congruence.
Qed.

Lemma sort_by_sorted xs : StronglySorted (λ a b, leb a b = true) (sort_by xs).
Proof. induction xs; cbn; [constructor|]. by apply insert_by_sorted. Qed.

Lemma sort_by_sorted_id xs :
  StronglySorted (λ a b, leb a b = true) xs → sort_by xs = xs.
Proof.
  induction 1 as [|x xs Hs IH Hf]; cbn; [done|]. rewrite IH.
  destruct xs as [|y ys]; cbn; [done|]. inversion Hf; subst. by rewrite H1.
Qed.

End sort.

(** Two strongly sorted lists with the same elements coincide, when the order
    separates the elements that occur. *)
Lemma sorted_perm_unique {A} (R : A → A → Prop) (xs ys : list A) :
  (∀ x y, x ∈ xs → y ∈ xs → R x y → R y x → x = y) →
  StronglySorted R xs → StronglySorted R ys → xs ≡ₚ ys → xs = ys.
Proof.
  intros Hanti Hxs. revert ys Hanti.
  induction Hxs as [|x xs Hs IH Hf]; intros ys Hanti Hys Hp.
  { by apply Permutation_nil in Hp as ->. }
  destruct Hys as [|y ys Hs' Hf'].
  { symmetry in Hp. by apply Permutation_nil in Hp. }
  rewrite Forall_forall in Hf, Hf'.
  assert (x = y) as <-.
  { assert (x ∈ y :: ys) as Hx by (rewrite <- Hp; set_solver).
    assert (y ∈ x :: xs) as Hy by (rewrite Hp; set_solver).
    apply elem_of_cons in Hx as [->|Hx]; [done|].
    apply elem_of_cons in Hy as [->|Hy]; [done|].
    apply Hanti; [set_solver|set_solver|by apply Hf|by apply Hf']. }
  apply Permutation_cons_inv in Hp. f_equal.
  apply IH; [|done..]. intros a b Ha Hb. apply Hanti; set_solver.
Qed.

(** * List searches, as [Array.prototype.find], [some], [every], [findIndex] *)

Section search.
Context {A : Type}.

Definition find_first (p : A → bool) (xs : list A) : option A := List.find p xs.

Fixpoint find_index (p : A → bool) (xs : list A) : option nat :=
  match xs with
  | [] => None
  | x :: xs => if p x then Some 0%nat else S <$> find_index p xs
  end.

Lemma find_first_some p xs x : find_first p xs = Some x → x ∈ xs ∧ p x = true.
Proof. intros H%List.find_some. by rewrite list_elem_of_In. Qed.

Lemma find_first_none p xs : find_first p xs = None ↔ ∀ x, x ∈ xs → p x = false.
Proof.
  unfold find_first. induction xs as [|y ys IH]; cbn; [set_solver|].
  destruct (p y) eqn:E; split; [done| | |].
  - intros H. rewrite (H y) in E by set_solver. done.
  - intros H. pose proof (proj1 IH H). set_solver.
  - intros H. apply IH. set_solver.
Qed.

Lemma existsb_true p (xs : list A) : existsb p xs = true ↔ ∃ x, x ∈ xs ∧ p x = true.
Proof. rewrite existsb_exists. by setoid_rewrite list_elem_of_In. Qed.

Lemma existsb_false p (xs : list A) : existsb p xs = false ↔ ∀ x, x ∈ xs → p x = false.
Proof.
  rewrite <- not_true_iff_false, existsb_true. setoid_rewrite <- not_true_iff_false.
  naive_solver.
Qed.

Lemma forallb_true p (xs : list A) : forallb p xs = true ↔ ∀ x, x ∈ xs → p x = true.
Proof. rewrite forallb_forall. by setoid_rewrite list_elem_of_In. Qed.

Lemma find_index_some p (xs : list A) i :
  find_index p xs = Some i ↔
  (∃ x, xs !! i = Some x ∧ p x = true) ∧ ∀ j y, (j < i)%nat → xs !! j = Some y → p y = false.
Proof.
  revert i. induction xs as [|x xs IH]; intros i; cbn.
  { split; [done|]. by intros [(? & ? & _) _]. }
  destruct (p x) eqn:E.
  - split.
    + intros [= <-]. split; [eauto|]. lia.
    + intros [_ H]. destruct i as [|i]; [done|].
      specialize (H 0%nat x ltac:(lia) eq_refl). congruence.
  - destruct i as [|i]; cbn.
    + split; [destruct (find_index p xs); done|]. intros [(? & [= <-] & ?) _]. congruence.
    + rewrite fmap_Some. transitivity (find_index p xs = Some i).
      { split; [intros (? & ? & ?); congruence|eauto]. }
      rewrite IH. apply and_iff_compat_l. split.
      * intros H [|j] y ?; cbn; [naive_solver|]. intros; eapply H; [|done]; lia.
      * intros H j y ??. apply (H (S j)); [lia|done].
Qed.

Lemma find_index_none p (xs : list A) :
  find_index p xs = None ↔ ∀ x, x ∈ xs → p x = false.
Proof.
  induction xs as [|y ys IH]; cbn; [set_solver|].
  destruct (p y) eqn:E; split; [done| | |].
  - intros H. rewrite (H y) in E by set_solver. done.
  - intros H x Hx. destruct (find_index p ys); [done|]. set_solver.
  - intros H. rewrite (proj2 IH); [done|]. set_solver.
Qed.

End search.

Lemma filter_all {A} (p : A → bool) xs : (∀ x, x ∈ xs → p x = true) → List.filter p xs = xs.
Proof.
  induction xs as [|x xs IH]; cbn; intros H; [done|].
  rewrite (H x) by set_solver. f_equal. apply IH. set_solver.
Qed.

Lemma filter_none {A} (p : A → bool) xs : (∀ x, x ∈ xs → p x = false) → List.filter p xs = [].
Proof.
  induction xs as [|x xs IH]; cbn; intros H; [done|].
  rewrite (H x) by set_solver. apply IH. set_solver.
Qed.

Lemma elem_of_filter_bool {A} (p : A → bool) xs x : x ∈ List.filter p xs ↔ x ∈ xs ∧ p x = true.
Proof. by rewrite !list_elem_of_In, List.filter_In. Qed.

Lemma filter_nodup_map {A B} (f : A → B) (p : A → bool) l :
  NoDup (map f l) → NoDup (map f (List.filter p l)).
Proof.
  induction l as [|x l IH]; cbn; [done|]. intros Hnd. inversion_clear Hnd as [|?? Hx Hl].
  destruct (p x); cbn; [|by apply IH]. constructor; [|by apply IH].
  intros Hin. apply Hx. apply list_elem_of_fmap in Hin as (y & -> & [Hy _]%elem_of_filter_bool).
  apply list_elem_of_fmap; eauto.
Qed.

(** A function that tells more elements apart leaves them distinct. *)
Lemma nodup_map_finer {A B C} (f : A → B) (g : A → C) l :
  (∀ x y, x ∈ l → y ∈ l → g x = g y → f x = f y) → NoDup (map f l) → NoDup (map g l).
Proof.
  induction l as [|x l IH]; cbn; intros Hfg Hnd; [constructor|]. apply NoDup_cons in Hnd as [Hx Hnd]. constructor.
  - intros (y & E & Hy)%list_elem_of_fmap. apply Hx, list_elem_of_fmap. exists y. split; [|done].
    apply Hfg; [by left|by right|done].
  - apply IH; [|done]. intros a b Ha Hb. apply Hfg; by right.
Qed.

Lemma seqZ_snoc m n : 0 <= n → seqZ m n ++ [m + n] = seqZ m (n + 1).
Proof.
  intros Hn. rewrite (seqZ_app m n 1) by lia. done.
Qed.

(** * Option helpers: [x ?? d], and the [null]/[undefined] test *)

Definition nullish {A} (o : option A) (d : A) : A := default d o.
Definition is_null {A} (o : option A) : bool := match o with None => true | Some _ => false end.

Lemma is_null_true {A} (o : option A) : is_null o = true ↔ o = None.
Proof. destruct o; naive_solver. Qed.
Lemma is_null_false {A} (o : option A) : is_null o = false ↔ is_Some o.
Proof. destruct o; cbn; split; [eauto|done|done|]. intros []; done. Qed.

(** * [new Set(xs)]: the distinct elements in insertion order *)

Section unique.
Context {A : Type} `{EqDecision A}.

Fixpoint unique_from (seen : list A) (xs : list A) : list A :=
  match xs with
  | [] => []
  | x :: xs =>
      if bool_decide (x ∈ seen) then unique_from seen xs
      else x :: unique_from (x :: seen) xs
  end.

(** [[...new Set(xs)]] *)
Definition unique (xs : list A) : list A := unique_from [] xs.

Lemma unique_from_elem seen xs x : x ∈ unique_from seen xs ↔ x ∈ xs ∧ x ∉ seen.
Proof.
  revert seen. induction xs as [|y ys IH]; intros seen; cbn; [set_solver|].
  case_bool_decide; rewrite ?elem_of_cons, IH; [set_solver|].
  destruct (decide (x = y)); set_solver.
Qed.

Lemma unique_from_nodup seen xs : NoDup (unique_from seen xs).
Proof.
  revert seen. induction xs as [|y ys IH]; intros seen; cbn; [constructor|].
  case_bool_decide; [done|]. constructor; [|done]. rewrite unique_from_elem. set_solver.
Qed.

Lemma unique_elem xs x : x ∈ unique xs ↔ x ∈ xs.
Proof. unfold unique. rewrite unique_from_elem. set_solver. Qed.

Lemma unique_nodup xs : NoDup (unique xs).
Proof. apply unique_from_nodup. Qed.

Lemma unique_from_id seen xs :
  NoDup xs → (∀ x, x ∈ xs → x ∉ seen) → unique_from seen xs = xs.
Proof.
  intros Hnd. revert seen. induction Hnd as [|x xs Hx Hnd IH]; intros seen H; cbn; [done|].
  rewrite bool_decide_false by (apply H; set_solver). f_equal. apply IH. set_solver.
Qed.

(** [new Set(xs).size === xs.length] *)
Definition all_distinct (xs : list A) : bool := (length (unique xs) =? length xs)%nat.

Lemma unique_from_length seen xs : (length (unique_from seen xs) <= length xs)%nat.
Proof.
  revert seen. induction xs as [|y ys IH]; intros seen; cbn; [lia|].
  case_bool_decide; cbn; [etrans; [apply IH|lia]|]. specialize (IH (y :: seen)). lia.
Qed.

Lemma all_distinct_true xs : all_distinct xs = true ↔ NoDup xs.
Proof.
  unfold all_distinct. rewrite Nat.eqb_eq. split.
  - unfold unique. generalize (@nil A). induction xs as [|y ys IH]; intros seen; cbn; [constructor|].
    case_bool_decide as Hy; cbn; intros Hl.
    + pose proof (unique_from_length seen ys). lia.
    + constructor; [|eapply IH; injection Hl; done]. intros Hin.
      assert (∀ s zs, length (unique_from s zs) = length zs → ∀ z, z ∈ zs → z ∉ s) as Hgen.
      { clear. intros s zs. revert s. induction zs as [|z zs IH]; intros s; cbn; [set_solver|].
        case_bool_decide; cbn; intros Hl.
        - pose proof (unique_from_length s zs). lia.
        - injection Hl as Hl. specialize (IH _ Hl). set_solver. }
      injection Hl as Hl. specialize (Hgen _ _ Hl y Hin). set_solver.
  - intros Hnd. unfold unique. rewrite unique_from_id; set_solver.
Qed.

End unique.
