(* ===== verification/JsString.v ===== *)
(** JavaScript strings, as far as the protocol code observes them: a string is
    the list of its UTF-16 code units.  Holds literals, the code-unit order used
    by [<] and [Array.prototype.sort], surrogate checks, UTF-8 encoding, the
    escaping of [JSON.stringify] on strings, the two regular expressions the
    protocol uses on identifiers, and the JavaScript error values. *)

From stdpp Require Import pretty.
From Stdlib Require Import Ascii.
From S2P Require Import Prelude.

(** A string is the sequence of its UTF-16 code units. *)
Abbreviation jstr := (list Z).

(** A string literal of the source (all of them are ASCII). *)
Fixpoint js (s : string) : jstr :=
  match s with
  | EmptyString => []
  | String c s => Z.of_N (N_of_ascii c) :: js s
  end.

Lemma js_app s t : js (s +:+ t) = js s ++ js t.
Proof.
  induction s as [|c s IH]; [done|].
  change (js (String c s +:+ t)) with (Z.of_N (N_of_ascii c) :: js (s +:+ t)).
  rewrite IH. done.
Qed.

#[export] Instance js_inj : Inj (=) (=) js.
Proof.
  intros s. induction s as [|c s IH]; intros [|d t]; cbn; try done.
  intros [= H%(inj Z.of_N) Ht]. f_equal; [|by apply IH].
  by rewrite <- (ascii_N_embedding c), <- (ascii_N_embedding d), H.
Qed.

(** Decimal numerals, as template literals print them. *)
Definition dec (z : Z) : jstr := js (pretty z).

(** * Errors *)

Inductive error_class := TypeError | RangeError | PlainError.

Record js_error := JsError { err_class : error_class; err_message : jstr }.

Definition throw {A} (c : error_class) (msg : string) : result js_error A :=
  Throw (JsError c (js msg)).

(** [if (cond) throw new C(msg);] *)
Definition reject_if (cond : bool) (c : error_class) (msg : string) : result js_error unit :=
  throw_if cond (JsError c (js msg)).

Lemma reject_if_ok cond c msg u : reject_if cond c msg = Ok u ↔ cond = false.
Proof. apply throw_if_ok. Qed.

(** * The order of code units *)

Fixpoint str_ltb (a b : jstr) : bool :=
  match a, b with
  | _, [] => false
  | [], _ :: _ => true
  | x :: a, y :: b => (x <? y) || ((x =? y) && str_ltb a b)
  end.

Definition str_leb (a b : jstr) : bool := negb (str_ltb b a).

Section str_order.

Lemma str_ltb_irrefl a : str_ltb a a = false.
Proof. induction a as [|x a IH]; cbn; [done|]. rewrite IH, Z.ltb_irrefl. by rewrite andb_false_r. Qed.

Lemma str_ltb_cases a b : str_ltb a b = true ∨ a = b ∨ str_ltb b a = true.
Proof.
  revert b. induction a as [|x a IH]; intros [|y b]; cbn; auto.
  destruct (Z.lt_trichotomy x y) as [H|[->|H]].
  - left. by rewrite (proj2 (Z.ltb_lt x y) H).
  - rewrite Z.ltb_irrefl, Z.eqb_refl. cbn.
    destruct (IH b) as [?|[->|?]]; auto.
  - right; right. by rewrite (proj2 (Z.ltb_lt y x) H).
Qed.

Lemma str_ltb_trans a b c : str_ltb a b = true → str_ltb b c = true → str_ltb a c = true.
Proof.
  revert b c. induction a as [|x a IH]; intros [|y b] [|z c]; cbn; try done.
  rewrite !orb_true_iff, !andb_true_iff, !Z.ltb_lt, !Z.eqb_eq.
  intros [?|[-> ?]] [?|[-> ?]]; [left; lia..|right]; eauto.
Qed.

Lemma str_ltb_asym a b : str_ltb a b = true → str_ltb b a = false.
Proof.
  intros H. destruct (str_ltb b a) eqn:E; [|done].
  pose proof (str_ltb_trans _ _ _ H E). by rewrite str_ltb_irrefl in *.
Qed.

Lemma str_leb_total a b : str_leb a b = true ∨ str_leb b a = true.
Proof.
  unfold str_leb. destruct (str_ltb b a) eqn:E; cbn; [|auto].
  right. by rewrite (str_ltb_asym _ _ E).
Qed.

Lemma str_leb_trans a b c : str_leb a b = true → str_leb b c = true → str_leb a c = true.
Proof.
  unfold str_leb. rewrite !negb_true_iff. intros Hab Hbc.
  destruct (str_ltb c a) eqn:E; [|done].
  destruct (str_ltb_cases b c) as [H|[->|H]]; [|congruence|congruence].
  pose proof (str_ltb_trans _ _ _ H E). congruence.
Qed.

Lemma str_leb_antisym a b : str_leb a b = true → str_leb b a = true → a = b.
Proof.
  unfold str_leb. rewrite !negb_true_iff.
  destruct (str_ltb_cases a b) as [?|[?|?]]; congruence.
Qed.

Lemma str_ltb_leb a b : str_ltb a b = true → str_leb a b = true.
Proof. unfold str_leb. rewrite negb_true_iff. apply str_ltb_asym. Qed.

Lemma str_ltb_neq a b : str_ltb a b = true → a ≠ b.
Proof. intros H ->. by rewrite str_ltb_irrefl in H. Qed.

End str_order.

#[export] Hint Resolve str_leb_total str_leb_trans : rbp.

(** * String operations of the standard library *)

(** [s.startsWith(prefix)] *)
Fixpoint starts_with (prefix s : jstr) : bool :=
  match prefix, s with
  | [], _ => true
  | _ :: _, [] => false
  | x :: prefix, y :: s => (x =? y) && starts_with prefix s
  end.

Lemma starts_with_true p s : starts_with p s = true ↔ ∃ t, s = p ++ t.
Proof.
  revert s. induction p as [|x p IH]; intros [|y s]; cbn.
  - split; eauto.
  - split; eauto.
  - split; [done|]. by intros [].
  - rewrite andb_true_iff, IH, Z.eqb_eq. naive_solver.
Qed.

(** [s.endsWith(suffix)] *)
Definition ends_with (suffix s : jstr) : bool := starts_with (reverse suffix) (reverse s).

Lemma ends_with_true p s : ends_with p s = true ↔ ∃ t, s = t ++ p.
Proof.
  unfold ends_with. rewrite starts_with_true. split; intros [t Ht].
  - exists (reverse t). apply (f_equal reverse) in Ht.
    by rewrite reverse_involutive, reverse_app, reverse_involutive in Ht.
  - exists (reverse t). by rewrite Ht, reverse_app.
Qed.

(** [values.join(sep)] *)
Fixpoint join (sep : jstr) (xs : list jstr) : jstr :=
  match xs with
  | [] => []
  | [x] => x
  | x :: xs => x ++ sep ++ join sep xs
  end.

Lemma join_cons sep x xs :
  join sep (x :: xs) = x ++ match xs with [] => [] | _ => sep ++ join sep xs end.
Proof. destruct xs; cbn; [by rewrite app_nil_r|done]. Qed.

(** * Character classes and the identifier patterns *)

Definition is_digit (c : Z) : bool := (48 <=? c) && (c <=? 57).
Definition is_lower (c : Z) : bool := (97 <=? c) && (c <=? 122).
Definition is_upper (c : Z) : bool := (65 <=? c) && (c <=? 90).
Definition is_lower_hex (c : Z) : bool := is_digit c || ((97 <=? c) && (c <=? 102)).

(** [\s] in a pattern, and what [trim] removes. *)
Definition js_whitespace (c : Z) : bool :=
  ((9 <=? c) && (c <=? 13)) || (c =? 32) || (c =? 160) || (c =? 0x1680) ||
  ((0x2000 <=? c) && (c <=? 0x200a)) || (c =? 0x2028) || (c =? 0x2029) || (c =? 0x202f) ||
  (c =? 0x205f) || (c =? 0x3000) || (c =? 0xfeff).

Fixpoint trim_start (s : jstr) : jstr :=
  match s with
  | c :: s' => if js_whitespace c then trim_start s' else s
  | [] => []
  end.

(** [String.prototype.trim] *)
Definition trim (s : jstr) : jstr := reverse (trim_start (reverse (trim_start s))).

(** [/^sha256:[0-9a-f]{64}$/] *)
Definition sha256_pattern (s : jstr) : bool :=
  starts_with (js "sha256:") s &&
  (length s =? 71)%nat && forallb is_lower_hex (drop 7 s).

(** [/^[a-z][a-z0-9_]{0,63}$/] *)
Definition guarded_reason_pattern (s : jstr) : bool :=
  match s with
  | [] => false
  | c :: rest =>
      is_lower c && (length rest <=? 63)%nat &&
      forallb (λ d, is_lower d || is_digit d || (d =? 95)) rest
  end.

(** * Unicode *)

Definition is_high_surrogate (u : Z) : bool := (0xd800 <=? u) && (u <=? 0xdbff).
Definition is_low_surrogate (u : Z) : bool := (0xdc00 <=? u) && (u <=? 0xdfff).

(** Code points of a string; an unpaired surrogate decodes to U+FFFD, as the
    UTF-8 encoders of the platform replace it. *)
Fixpoint code_points (s : jstr) : list Z :=
  match s with
  | [] => []
  | u :: rest =>
      if is_high_surrogate u then
        match rest with
        | v :: rest' =>
            if is_low_surrogate v
            then (0x10000 + (u - 0xd800) * 0x400 + (v - 0xdc00)) :: code_points rest'
            else 0xfffd :: code_points rest
        | [] => [0xfffd]
        end
      else if is_low_surrogate u then 0xfffd :: code_points rest
      else u :: code_points rest
  end.

(** The UTF-8 bytes of one code point. *)
Definition utf8_point (c : Z) : list Z :=
  if c <? 0x80 then [c]
  else if c <? 0x800 then [0xc0 + c / 0x40; 0x80 + c mod 0x40]
  else if c <? 0x10000 then
    [0xe0 + c / 0x1000; 0x80 + c / 0x40 mod 0x40; 0x80 + c mod 0x40]
  else
    [0xf0 + c / 0x40000; 0x80 + c / 0x1000 mod 0x40;
     0x80 + c / 0x40 mod 0x40; 0x80 + c mod 0x40].

(** [Buffer.from(s, "utf8")] *)
Definition utf8_encode (s : jstr) : list Z := code_points s ≫= utf8_point.

(** * [JSON.stringify] on a string *)

Definition hex_digit (d : Z) : Z := if d <? 10 then 48 + d else 87 + d.

(** One code unit inside a JSON string literal. *)
Definition escape_unit (u : Z) : jstr :=
  if u =? 34 then [92; 34]
  else if u =? 92 then [92; 92]
  else if u =? 8 then [92; 98]
  else if u =? 9 then [92; 116]
  else if u =? 10 then [92; 110]
  else if u =? 12 then [92; 102]
  else if u =? 13 then [92; 114]
  else if u <? 32 then [92; 117; 48; 48; hex_digit (u / 16); hex_digit (u mod 16)]
  else [u].

(** The literal of a string without unpaired surrogates. *)
Definition json_string (s : jstr) : jstr := [34] ++ (s ≫= escape_unit) ++ [34].

(** * The encodings lose nothing *)

(** No unpaired surrogate. *)
Fixpoint well_formed (s : jstr) : bool :=
  match s with
  | [] => true
  | u :: rest =>
      if is_high_surrogate u then
        match rest with
        | v :: rest' => is_low_surrogate v && well_formed rest'
        | [] => false
        end
      else negb (is_low_surrogate u) && well_formed rest
  end.

(** Every element is a 16-bit code unit. *)
Definition is_units (s : jstr) : Prop := Forall (λ u, 0 <= u < 0x10000) s.

(** Induction following the pairs of surrogates. *)
Lemma well_formed_ind (P : jstr → Prop) :
  P [] →
  (∀ u v s, is_high_surrogate u = true → is_low_surrogate v = true →
     well_formed s = true → P s → P (u :: v :: s)) →
  (∀ u s, is_high_surrogate u = false → is_low_surrogate u = false →
     well_formed s = true → P s → P (u :: s)) →
  ∀ s, well_formed s = true → P s.
Proof.
  intros H0 H2 H1 s. remember (length s) as n eqn:Hn.
  revert s Hn. induction (Nat.lt_wf_0 n) as [n _ IH]. intros s -> Hwf.
  destruct s as [|u rest]; [done|]. cbn in Hwf.
  destruct (is_high_surrogate u) eqn:Hu.
  - destruct rest as [|v rest]; [done|]. bsimp.
    apply H2; [done..|]. eapply (IH (length rest)); cbn; [lia|done..].
  - bsimp. apply H1; [done..|]. eapply (IH (length rest)); cbn; [lia|done..].
Qed.

(** The UTF-16 code units of a code point. *)
Definition utf16_point (c : Z) : jstr :=
  if c <? 0x10000 then [c]
  else [0xd800 + (c - 0x10000) / 0x400; 0xdc00 + (c - 0x10000) mod 0x400].

Definition is_point (c : Z) : Prop := 0 <= c < 0x110000.

Lemma code_points_utf16 s :
  well_formed s = true → is_units s →
  code_points s ≫= utf16_point = s ∧ Forall is_point (code_points s).
Proof.
  intros Hwf. pattern s. revert s Hwf. apply well_formed_ind.
  - intros _. split; [done|constructor].
  - intros u v s Hu Hv _ IH Hs. inversion_clear Hs as [|?? Hu16 Hs'].
    inversion_clear Hs' as [|?? Hv16 Hs]. destruct (IH Hs) as [IH1 IH2].
    cbn [code_points]. rewrite Hu, Hv. unfold is_high_surrogate, is_low_surrogate in *. bsimp.
    set (c := 0x10000 + (u - 0xd800) * 0x400 + (v - 0xdc00)).
    split; [|constructor; [unfold is_point; lia|done]].
    rewrite bind_cons, IH1. unfold utf16_point.
    rewrite (proj2 (Z.ltb_ge c 0x10000)) by lia. cbn [app].
    f_equal; [|f_equal]; unfold c; Z.to_euclidean_division_equations; lia.
  - intros u s Hu Hl _ IH Hs. inversion_clear Hs as [|?? Hu16 Hs'].
    destruct (IH Hs') as [IH1 IH2]. cbn [code_points]. rewrite Hu, Hl.
    split; [|constructor; [unfold is_point; lia|done]].
    rewrite bind_cons, IH1. unfold utf16_point.
    by rewrite (proj2 (Z.ltb_lt u 0x10000)) by lia.
Qed.

(** Reads one code point off a UTF-8 byte sequence. *)
Definition utf8_uncons (bs : list Z) : option (Z * list Z) :=
  match bs with
  | [] => None
  | b0 :: r0 =>
      if b0 <? 0x80 then Some (b0, r0)
      else match r0 with
      | [] => None
      | b1 :: r1 =>
          if b0 <? 0xe0 then Some ((b0 - 0xc0) * 0x40 + (b1 - 0x80), r1)
          else match r1 with
          | [] => None
          | b2 :: r2 =>
              if b0 <? 0xf0
              then Some ((b0 - 0xe0) * 0x1000 + (b1 - 0x80) * 0x40 + (b2 - 0x80), r2)
              else match r2 with
              | [] => None
              | b3 :: r3 =>
                  Some ((b0 - 0xf0) * 0x40000 + (b1 - 0x80) * 0x1000 +
                        (b2 - 0x80) * 0x40 + (b3 - 0x80), r3)
              end
          end
      end
  end.

Ltac div_lia := Z.to_euclidean_division_equations; lia.

Lemma utf8_uncons_point c r : is_point c → utf8_uncons (utf8_point c ++ r) = Some (c, r).
Proof.
  unfold is_point, utf8_point. intros Hc.
  destruct (Z.ltb_spec c 0x80); [|destruct (Z.ltb_spec c 0x800); [|destruct (Z.ltb_spec c 0x10000)]];
    cbn [app utf8_uncons].
  - by rewrite (proj2 (Z.ltb_lt c 0x80)).
  - rewrite (proj2 (Z.ltb_ge _ 0x80)) by div_lia.
    rewrite (proj2 (Z.ltb_lt _ 0xe0)) by div_lia. do 2 f_equal. div_lia.
  - rewrite (proj2 (Z.ltb_ge _ 0x80)) by div_lia.
    rewrite (proj2 (Z.ltb_ge _ 0xe0)) by div_lia.
    rewrite (proj2 (Z.ltb_lt _ 0xf0)) by div_lia. do 2 f_equal. div_lia.
  - rewrite (proj2 (Z.ltb_ge _ 0x80)) by div_lia.
    rewrite (proj2 (Z.ltb_ge _ 0xe0)) by div_lia.
    rewrite (proj2 (Z.ltb_ge _ 0xf0)) by div_lia. do 2 f_equal. div_lia.
Qed.

Lemma utf8_point_nonempty c : utf8_point c ≠ [].
Proof. unfold utf8_point. by repeat case_match. Qed.

Lemma utf8_points_inj cs ds :
  Forall is_point cs → Forall is_point ds →
  cs ≫= utf8_point = ds ≫= utf8_point → cs = ds.
Proof.
  intros Hcs. revert ds. induction Hcs as [|c cs Hc _ IH]; intros ds Hds Heq.
  - destruct ds as [|d ds]; [done|]. rewrite bind_cons in Heq.
    symmetry in Heq. apply app_eq_nil in Heq as [Heq _]. by apply utf8_point_nonempty in Heq.
  - destruct Hds as [|d ds Hd Hds].
    { rewrite bind_cons in Heq. apply app_eq_nil in Heq as [Heq _].
      by apply utf8_point_nonempty in Heq. }
    rewrite !bind_cons in Heq. apply (f_equal utf8_uncons) in Heq.
    rewrite !utf8_uncons_point in Heq by done. simplify_eq. f_equal. by apply IH.
Qed.

(** UTF-8 encoding is injective on strings without unpaired surrogates. *)
Lemma utf8_encode_inj s t :
  well_formed s = true → is_units s → well_formed t = true → is_units t →
  utf8_encode s = utf8_encode t → s = t.
Proof.
  intros Hs Hus Ht Hut Heq.
  destruct (code_points_utf16 s Hs Hus) as [Es Ps].
  destruct (code_points_utf16 t Ht Hut) as [Et Pt].
  rewrite <- Es, <- Et. f_equal. by apply utf8_points_inj.
Qed.

(** Reads one escaped code unit of a JSON string literal. *)
Definition unhex (d : Z) : Z := if d <? 58 then d - 48 else d - 87.

Definition unescape (s : jstr) : option (Z * jstr) :=
  match s with
  | [] => None
  | c :: r =>
      if c =? 92 then
        match r with
        | 34 :: r => Some (34, r)
        | 92 :: r => Some (92, r)
        | 98 :: r => Some (8, r)
        | 116 :: r => Some (9, r)
        | 110 :: r => Some (10, r)
        | 102 :: r => Some (12, r)
        | 114 :: r => Some (13, r)
        | 117 :: _ :: _ :: a :: b :: r => Some (unhex a * 16 + unhex b, r)
        | _ => None
        end
      else if c =? 34 then None
      else Some (c, r)
  end.

Lemma unescape_escape u r : 0 <= u → unescape (escape_unit u ++ r) = Some (u, r).
Proof.
  intros Hu. unfold escape_unit.
  repeat match goal with |- context [if ?u =? ?k then _ else _] =>
    destruct (Z.eqb_spec u k); [by subst|] end.
  destruct (Z.ltb_spec u 32).
  - cbn [app unescape]. cbn. do 2 f_equal. unfold unhex, hex_digit.
    repeat split_if; bsimp; div_lia.
  - cbn [app unescape]. rewrite (proj2 (Z.eqb_neq u 92)), (proj2 (Z.eqb_neq u 34)) by done. done.
Qed.

Lemma unescape_quote r : unescape (34 :: r) = None.
Proof. done. Qed.

(** A string literal determines the string and where it ends. *)
Lemma escape_units_inj s t r1 r2 :
  Forall (λ u, 0 <= u) s → Forall (λ u, 0 <= u) t →
  (s ≫= escape_unit) ++ 34 :: r1 = (t ≫= escape_unit) ++ 34 :: r2 → s = t ∧ r1 = r2.
Proof.
  intros Hs. revert t. induction Hs as [|u s Hu _ IH]; intros t Ht Heq.
  - destruct Ht as [|v t Hv Ht]; [cbn in Heq; by simplify_eq|].
    rewrite bind_cons, <- app_assoc in Heq. apply (f_equal unescape) in Heq.
    by rewrite unescape_escape in Heq.
  - destruct Ht as [|v t Hv Ht].
    { rewrite bind_cons, <- app_assoc in Heq. apply (f_equal unescape) in Heq.
      by rewrite unescape_escape in Heq. }
    rewrite !bind_cons, <- !app_assoc in Heq. apply (f_equal unescape) in Heq.
    rewrite !unescape_escape in Heq by done. simplify_eq.
    edestruct IH as [-> ->]; done.
Qed.

Lemma json_string_inj s t r1 r2 :
  is_units s → is_units t → json_string s ++ r1 = json_string t ++ r2 → s = t ∧ r1 = r2.
Proof.
  intros Hs Ht. unfold json_string. cbn [app]. rewrite <- !app_assoc. cbn [app].
  intros [= Heq]. apply escape_units_inj in Heq; [done|..];
    (eapply Forall_impl; [eassumption|cbn; lia]).
Qed.

(** Every character of a decimal numeral is a digit or the minus sign. *)
Definition is_numeral_char (c : Z) : bool := is_digit c || (c =? 45).

Lemma pretty_N_go_chars x s :
  forallb is_numeral_char (js s) = true → forallb is_numeral_char (js (pretty_N_go x s)) = true.
Proof.
  revert s. induction (N.lt_wf_0 x) as [x _ IH]; intros s Hs.
  destruct (decide (x = 0)%N) as [->|Hx]; [done|].
  rewrite pretty_N_go_step by lia. apply IH; [apply N.div_lt; lia|].
  cbn. rewrite Hs, andb_true_r. unfold pretty_N_char. by repeat case_match.
Qed.

Lemma pretty_N_chars (x : N) : forallb is_numeral_char (js (pretty x)) = true.
Proof. unfold pretty, pretty_N. case_decide; [done|]. by apply pretty_N_go_chars. Qed.

Lemma dec_chars z : forallb is_numeral_char (dec z) = true.
Proof.
  unfold dec, pretty, pretty_Z. destruct z as [|p|p]; [done| |].
  - apply pretty_N_chars.
  - rewrite js_app. apply (pretty_N_chars (Npos p)).
Qed.

Lemma dec_inj z1 z2 : dec z1 = dec z2 → z1 = z2.
Proof. unfold dec. intros H%(inj js). by apply (inj pretty). Qed.

(** Texts are cut apart at the first separator. *)
Lemma split_at_first (c : Z) (a b x y : jstr) :
  c ∉ a → c ∉ b → a ++ c :: x = b ++ c :: y → a = b ∧ x = y.
Proof.
  revert b. induction a as [|d a IH]; intros [|e b] Ha Hb E; cbn in E; injection E; intros; subst.
  - done.
  - destruct Hb. by left.
  - destruct Ha. by left.
  - apply not_elem_of_cons in Ha as [_ Ha]. apply not_elem_of_cons in Hb as [_ Hb].
    by destruct (IH b Ha Hb) as [-> ->].
Qed.

Lemma dec_without c z : is_numeral_char c = false → c ∉ dec z.
Proof.
  intros Hc Hin. pose proof (dec_chars z) as Hd. rewrite forallb_true in Hd. specialize (Hd c Hin). congruence.
Qed.

Lemma dec_nonempty z : dec z ≠ [].
Proof.
  intros H. assert (dec z = js "") as H' by done. unfold dec in H'. apply (inj js) in H'.
  unfold pretty, pretty_Z in H'. destruct z as [|p|p]; [done| |done].
  assert (∀ x s, s ≠ "" → pretty_N_go x s ≠ "") as Hgo.
  { intros x. induction (N.lt_wf_0 x) as [x _ IH]; intros s Hs.
    destruct (decide (x = 0)%N) as [->|Hx]; [done|].
    rewrite pretty_N_go_step by lia. apply IH; [apply N.div_lt; lia|done]. }
  unfold pretty, pretty_positive, pretty, pretty_N in H'.
  rewrite decide_False in H' by done. rewrite pretty_N_go_step in H' by lia.
  by apply Hgo in H'.
Qed.

Lemma pretty_N_go_length k x s :
  (x < 10 ^ N.of_nat k)%N →
  (length (js (pretty_N_go x s)) <= k + length (js s))%nat.
Proof.
  revert x s. induction k as [|k IH]; intros x s Hx.
  { rewrite N.pow_0_r in Hx. assert (x = 0)%N as -> by lia. done. }
  destruct (decide (x = 0)%N) as [->|Hne]; [rewrite pretty_N_go_0; lia|].
  rewrite pretty_N_go_step by lia.
  etrans; [apply IH|cbn; lia].
  rewrite Nat2N.inj_succ, N.pow_succ_r' in Hx.
  apply N.Div0.div_lt_upper_bound. lia.
Qed.

Lemma dec_length z k : 0 <= z < 10 ^ Z.of_nat (S k) → (length (dec z) <= S k)%nat.
Proof.
  intros [H0 Hz]. unfold dec, pretty, pretty_Z. destruct z as [|p|p]; [cbn; lia| |lia].
  unfold pretty, pretty_positive, pretty, pretty_N. rewrite decide_False by done.
  etrans; [apply (pretty_N_go_length (S k))|cbn; lia].
  apply N2Z.inj_lt. rewrite N2Z.inj_pow. cbn [Z.of_N]. rewrite nat_N_Z. exact Hz.
Qed.

(** ** Well-formedness of composed strings *)

Lemma well_formed_app s t : well_formed s = true → well_formed t = true → well_formed (s ++ t) = true.
Proof.
  intros Hs Ht. pattern s. revert s Hs. apply well_formed_ind; cbn; [done| |].
  - intros u v s -> -> _ ->. done.
  - intros u s -> -> _ ->. done.
Qed.

Definition is_ascii (s : jstr) : bool := forallb (λ u, (0 <=? u) && (u <? 128)) s.

Lemma is_ascii_ok s : is_ascii s = true → well_formed s = true ∧ is_units s.
Proof.
  unfold is_ascii. induction s as [|u s IH]; cbn; [by repeat constructor|].
  intros Hu. bsimp. destruct IH as [IH1 IH2]; [done|].
  unfold is_high_surrogate, is_low_surrogate.
  rewrite (proj2 (Z.leb_gt 0xd800 u)), (proj2 (Z.leb_gt 0xdc00 u)) by lia.
  cbn. split; [done|]. constructor; [lia|done].
Qed.

Lemma escape_ascii u : 0 <= u < 32 ∨ u = 34 ∨ u = 92 → is_ascii (escape_unit u) = true.
Proof.
  intros Hu. unfold escape_unit.
  repeat (case_match; [done|]). case_match; bsimp; [|lia].
  cbn. unfold hex_digit. repeat case_match; bsimp;
    rewrite ?andb_true_iff, ?Z.leb_le, ?Z.ltb_lt; repeat split; div_lia.
Qed.

Lemma escape_plain u : 32 <= u → u ≠ 34 → u ≠ 92 → escape_unit u = [u].
Proof.
  intros. unfold escape_unit. repeat (rewrite (proj2 (Z.eqb_neq u _)) by lia).
  by rewrite (proj2 (Z.ltb_ge u 32)) by lia.
Qed.

Lemma escape_unit_ok u :
  0 <= u < 0x10000 → is_high_surrogate u = false → is_low_surrogate u = false →
  well_formed (escape_unit u) = true ∧ is_units (escape_unit u).
Proof.
  intros Hu Hh Hl. destruct (decide (0 <= u < 32 ∨ u = 34 ∨ u = 92)).
  - by apply is_ascii_ok, escape_ascii.
  - rewrite escape_plain by lia. cbn. rewrite Hh, Hl. split; [done|]. constructor; [done|constructor].
Qed.

Lemma escape_units_ok s :
  well_formed s = true → is_units s →
  well_formed (s ≫= escape_unit) = true ∧ is_units (s ≫= escape_unit).
Proof.
  intros Hs. pattern s. revert s Hs. apply well_formed_ind.
  - done.
  - intros u v s Hu Hv _ IH Hs. inversion_clear Hs as [|?? Hu16 Hs'].
    inversion_clear Hs' as [|?? Hv16 Hs]. destruct (IH Hs) as [IH1 IH2].
    rewrite !bind_cons.
    rewrite !escape_plain by (unfold is_high_surrogate, is_low_surrogate in *; bsimp; lia).
    cbn. rewrite Hu, Hv, IH1. split; [done|]. constructor; [done|]. by constructor.
  - intros u s Hu Hl _ IH Hs. inversion_clear Hs as [|?? Hu16 Hs'].
    destruct (IH Hs') as [IH1 IH2]. rewrite bind_cons.
    destruct (escape_unit_ok u Hu16 Hu Hl) as [H1 H2].
    split; [by apply well_formed_app|by apply Forall_app].
Qed.

(** Both properties together, closed under concatenation. *)
Definition wf_text (s : jstr) : Prop := well_formed s = true ∧ is_units s.

Lemma wf_text_app s t : wf_text s → wf_text t → wf_text (s ++ t).
Proof. intros [] []. split; [by apply well_formed_app|by apply Forall_app]. Qed.

Lemma wf_text_ascii s : is_ascii s = true → wf_text s.
Proof. apply is_ascii_ok. Qed.

Lemma wf_text_json_string s : wf_text s → wf_text (json_string s).
Proof.
  intros [H1 H2]. unfold json_string.
  apply wf_text_app; [by apply wf_text_ascii|].
  apply wf_text_app; [by apply escape_units_ok|by apply wf_text_ascii].
Qed.

Lemma wf_text_join sep xs : wf_text sep → Forall wf_text xs → wf_text (join sep xs).
Proof.
  intros Hsep. induction 1 as [|x xs Hx Hxs IH]; [by repeat constructor|].
  rewrite join_cons. apply wf_text_app; [done|].
  destruct xs; [by repeat constructor|]. by apply wf_text_app.
Qed.

Lemma numeral_ascii s : forallb is_numeral_char s = true → is_ascii s = true.
Proof.
  unfold is_ascii. rewrite !forallb_true. intros H u Hu. specialize (H u Hu).
  unfold is_numeral_char, is_digit in H.
  rewrite orb_true_iff, andb_true_iff, !Z.leb_le, Z.eqb_eq in H.
  rewrite andb_true_iff, Z.leb_le, Z.ltb_lt. lia.
Qed.

#[export] Hint Resolve wf_text_app wf_text_join wf_text_json_string wf_text_ascii : rbp.

(** * Splitting *)

(** [s.split(".")] *)
Fixpoint split_dot (s : jstr) : list jstr :=
  match s with
  | [] => [[]]
  | c :: s =>
      if c =? 46 then [] :: split_dot s
      else match split_dot s with [] => [[c]] | part :: parts => (c :: part) :: parts end
  end.

Lemma split_dot_app a s : 46 ∉ a → split_dot (a ++ 46 :: s) = a :: split_dot s.
Proof.
  induction a as [|c a IH]; intros Ha; [done|]. apply not_elem_of_cons in Ha as [Hc Ha]. cbn [app split_dot].
  destruct (Z.eqb_spec c 46); [by subst|]. by rewrite IH.
Qed.

Lemma split_dot_last a : 46 ∉ a → split_dot a = [a].
Proof.
  induction a as [|c a IH]; intros Ha; [done|]. apply not_elem_of_cons in Ha as [Hc Ha]. cbn [split_dot].
  destruct (Z.eqb_spec c 46); [by subst|]. by rewrite IH.
Qed.
