(* ===== verification/JsValue.v ===== *)
(** JavaScript numbers and values, as far as the protocol code inspects them.

    A finite number is represented by its shortest round-trip decimal, the one
    ECMAScript's [Number::toString] prints: [JInt z] when that decimal is an
    integer, [JDec m e] for [m * 10^-e] with [m] not divisible by ten otherwise.
    The representation is exact on the safe integers, and the order of two
    finite numbers is the order of their decimals.  Zero has one representative:
    nothing in the modelled code distinguishes [0] from [-0]. *)

From S2P Require Import Prelude JsString.

(** * Numbers *)

Inductive jsnum :=
| JInt (z : Z)
| JDec (m : Z) (e : positive)
| JInf (negative : bool)
| JNaN.

#[export] Instance jsnum_eq_dec : EqDecision jsnum.
Proof. solve_decision. Defined.

Definition MAX_SAFE_INTEGER : Z := 2 ^ 53 - 1.

(** [Number.isFinite] *)
Definition isFinite (n : jsnum) : bool :=
  match n with JInt _ | JDec _ _ => true | JInf _ | JNaN => false end.

(** [Number.isSafeInteger] *)
Definition isSafeInteger (n : jsnum) : bool :=
  match n with
  | JInt z => (- MAX_SAFE_INTEGER <=? z) && (z <=? MAX_SAFE_INTEGER)
  | _ => false
  end.

(** The integer a number that passed [Number.isSafeInteger] stands for. *)
Definition num_Z (n : jsnum) : Z := match n with JInt z => z | _ => 0 end.

(** [n >= k] for an integer constant [k]; false on [NaN]. *)
Definition num_geb (n : jsnum) (k : Z) : bool :=
  match n with
  | JInt z => k <=? z
  | JDec m e => k * 10 ^ Zpos e <=? m
  | JInf neg => negb neg
  | JNaN => false
  end.

(** [n <= k] and [n > k] for an integer [k]; both false on [NaN]. *)
Definition num_leb (n : jsnum) (k : Z) : bool :=
  match n with
  | JInt z => z <=? k
  | JDec m e => m <=? k * 10 ^ Zpos e
  | JInf neg => neg
  | JNaN => false
  end.

Definition num_gtb (n : jsnum) (k : Z) : bool :=
  match n with
  | JInt z => k <? z
  | JDec m e => k * 10 ^ Zpos e <? m
  | JInf neg => negb neg
  | JNaN => false
  end.

Lemma isSafeInteger_int n : isSafeInteger n = true → n = JInt (num_Z n).
Proof. by destruct n. Qed.

Lemma isSafeInteger_range n :
  isSafeInteger n = true → - MAX_SAFE_INTEGER <= num_Z n <= MAX_SAFE_INTEGER.
Proof. destruct n; cbn -[MAX_SAFE_INTEGER]; intros; bsimp; lia. Qed.

(** ** [Number::toString], radix ten *)

Definition zeros (n : nat) : jstr := replicate n 48.

(** Drops the trailing zeros of a digit string (kept reversed while working). *)
Fixpoint drop_zeros (rev_digits : jstr) : jstr :=
  match rev_digits with
  | 48 :: ds => drop_zeros ds
  | _ => rev_digits
  end.

Definition strip_zeros (digits : jstr) : jstr := reverse (drop_zeros (reverse digits)).

(** The value is [0.digits * 10^n]; [k] digits, no trailing zero. *)
Definition format_digits (digits : jstr) (n : Z) : jstr :=
  let k := Z.of_nat (length digits) in
  if (-5 <=? n) && (n <=? 21) then
    if k <=? n then digits ++ zeros (Z.to_nat (n - k))
    else if 0 <? n then take (Z.to_nat n) digits ++ js "." ++ drop (Z.to_nat n) digits
    else js "0." ++ zeros (Z.to_nat (- n)) ++ digits
  else
    let e := n - 1 in
    let mantissa :=
      if k =? 1 then digits else take 1 digits ++ js "." ++ drop 1 digits in
    mantissa ++ js "e" ++ (if e <? 0 then js "-" else js "+") ++ dec (Z.abs e).

Definition format_magnitude (m e : Z) : jstr :=
  let digits := dec m in
  format_digits (strip_zeros digits) (Z.of_nat (length digits) - e).

(** [JSON.stringify] on a finite number. *)
Definition num_to_string (n : jsnum) : jstr :=
  match n with
  | JInt z =>
      if z =? 0 then js "0"
      else (if z <? 0 then js "-" else []) ++ format_magnitude (Z.abs z) 0
  | JDec m e => (if m <? 0 then js "-" else []) ++ format_magnitude (Z.abs m) (Zpos e)
  | JInf true => js "-Infinity"
  | JInf false => js "Infinity"
  | JNaN => js "NaN"
  end.

(** * Values *)

(** What [canonicalizeJson] looks at on an object besides its members. *)
Record obj_shape := ObjShape {
  plain_prototype : bool;      (** [Object.prototype] or [null] *)
  has_symbol_keys : bool;
  has_non_enumerable : bool }.

Definition plain_shape : obj_shape := ObjShape true false false.

Inductive jsval :=
| VUndefined
| VNull
| VBool (b : bool)
| VNum (n : jsnum)
| VStr (s : jstr)
| VArr (items : list jsval)
| VObj (shape : obj_shape) (members : list (jstr * jsval))
| VOther (typeof : jstr).

(** An object literal. *)
Definition obj (members : list (jstr * jsval)) : jsval := VObj plain_shape members.

(** [x ?? null] for a string that may be [null] or [undefined]. *)
Definition opt_str (o : option jstr) : jsval :=
  match o with Some s => VStr s | None => VNull end.

Section jsval_ind.
Variable P : jsval → Prop.
Hypothesis Hundef : P VUndefined.
Hypothesis Hnull : P VNull.
Hypothesis Hbool : ∀ b, P (VBool b).
Hypothesis Hnum : ∀ n, P (VNum n).
Hypothesis Hstr : ∀ s, P (VStr s).
Hypothesis Harr : ∀ items, Forall P items → P (VArr items).
Hypothesis Hobj : ∀ shape members, Forall (λ km, P km.2) members → P (VObj shape members).
Hypothesis Hother : ∀ t, P (VOther t).

Fixpoint jsval_nested_ind (v : jsval) : P v :=
  match v with
  | VUndefined => Hundef
  | VNull => Hnull
  | VBool b => Hbool b
  | VNum n => Hnum n
  | VStr s => Hstr s
  | VArr items =>
      Harr items ((fix go xs : Forall P xs :=
        match xs with
        | [] => Forall_nil_2 _
        | x :: xs => Forall_cons_2 _ _ _ (jsval_nested_ind x) (go xs)
        end) items)
  | VObj shape members =>
      Hobj shape members ((fix go xs : Forall (λ km, P km.2) xs :=
        match xs with
        | [] => Forall_nil_2 _
        | x :: xs => Forall_cons_2 _ _ _ (jsval_nested_ind x.2) (go xs)
        end) members)
  | VOther t => Hother t
  end.
End jsval_ind.

#[export] Instance VStr_inj : Inj (=) (=) VStr.
Proof. by intros ?? [= ->]. Qed.

Lemma map_VStr_inj xs ys : map VStr xs = map VStr ys → xs = ys.
Proof. apply (inj (fmap VStr)). Qed.

(** * Integers print as their decimal numeral *)

Lemma drop_zeros_spec ds : ∃ n, ds = zeros n ++ drop_zeros ds.
Proof.
  induction ds as [|d ds [n IH]]; [by exists 0%nat|].
  destruct (decide (d = 48)) as [->|Hd].
  - exists (S n). exact (f_equal (cons 48) IH).
  - exists 0%nat. cbn. repeat case_match; done.
Qed.

Lemma strip_zeros_spec ds :
  strip_zeros ds ++ zeros (length ds - length (strip_zeros ds)) = ds.
Proof.
  unfold strip_zeros. destruct (drop_zeros_spec (reverse ds)) as [n Hn].
  assert (ds = reverse (drop_zeros (reverse ds)) ++ zeros n) as Hds.
  { rewrite <- (reverse_involutive ds) at 1. rewrite Hn at 1.
    rewrite reverse_app. f_equal. unfold zeros. apply reverse_replicate. }
  rewrite Hds at 4. f_equal. f_equal. rewrite Hds at 1.
  rewrite length_app. unfold zeros. rewrite length_replicate. lia.
Qed.

Lemma strip_zeros_length ds : (length (strip_zeros ds) <= length ds)%nat.
Proof. rewrite <- (strip_zeros_spec ds) at 2. rewrite length_app. lia. Qed.

Lemma dec_neg z : 0 < z → dec (- z) = 45 :: dec z.
Proof. by destruct z. Qed.

(** The integers [JSON.stringify] prints without an exponent. *)
Definition plain_int (z : Z) : Prop := (length (dec (Z.abs z)) <= 21)%nat.

Lemma num_to_string_int z : plain_int z → num_to_string (JInt z) = dec z.
Proof.
  intros Hz. unfold num_to_string. destruct (Z.eqb_spec z 0) as [->|Hne]; [done|].
  unfold plain_int in Hz.
  assert (format_magnitude (Z.abs z) 0 = dec (Z.abs z)) as ->.
  { unfold format_magnitude, format_digits.
    pose proof (strip_zeros_length (dec (Z.abs z))) as Hl.
    rewrite Z.sub_0_r. rewrite (proj2 (Z.leb_le (-5) _)) by lia.
    rewrite (proj2 (Z.leb_le _ 21)) by lia. cbn [andb].
    rewrite (proj2 (Z.leb_le _ _)) by lia.
    rewrite <- Nat2Z.inj_sub, Nat2Z.id by lia. apply strip_zeros_spec. }
  destruct (Z.ltb_spec z 0).
  - rewrite <- (Z.opp_involutive z) at 2. rewrite dec_neg by lia.
    by replace (- z) with (Z.abs z) by lia.
  - by replace (Z.abs z) with z by lia.
Qed.

Lemma safe_plain_int z : - MAX_SAFE_INTEGER <= z <= MAX_SAFE_INTEGER → plain_int z.
Proof.
  intros Hz. unfold plain_int. etrans; [apply (dec_length _ 15)|lia].
  assert (MAX_SAFE_INTEGER < 10 ^ Z.of_nat 16) by (vm_compute; done). lia.
Qed.
