(* ===== verification/Numerals.v ===== *)
(** How JavaScript prints numbers determines them: packages/protocol/src/paramsDigest.ts
    serialises a finite number by [JSON.stringify].

    [JsValue.num_to_string] prints a number in one of four forms (whole, with a
    point, below one, with an exponent); the form and the digits can be read back
    from the text, so two different finite numbers have different texts. *)

From stdpp Require Import pretty.
From S2P Require Import Prelude JsString JsValue.

Lemma pretty_go_app x s : js (pretty_N_go x s) = js (pretty_N_go x "") ++ js s.
Proof.
  revert s. induction (N.lt_wf_0 x) as [x _ IH]; intros s.
  destruct (decide (x = 0)%N) as [->|Hx]; [done|].
  rewrite !(pretty_N_go_step x) by lia. specialize (IH (x `div` 10)%N ltac:(apply N.div_lt; lia)).
  rewrite (IH (String _ s)), (IH (String _ "")). by rewrite <- app_assoc.
Qed.

Lemma dec_pos p : dec (Zpos p) = js (pretty_N_go (Npos p) "").
Proof. reflexivity. Qed.

(** The numeral of a number ends with its last digit. *)
Lemma dec_step m : 0 < m → dec m = (if m <? 10 then [] else dec (m / 10)) ++ [48 + m mod 10].
Proof.
  intros Hm. destruct m as [|p|p]; [lia| |lia]. rewrite dec_pos, pretty_N_go_step, pretty_go_app by lia. f_equal.
  - destruct (Z.ltb_spec (Zpos p) 10) as [Hlt|Hle].
    + rewrite N.div_small by lia. done.
    + assert (Zpos p / 10 = Z.of_N (Npos p `div` 10)) as -> by (rewrite N2Z.inj_div; done).
      assert (Npos p `div` 10 ≠ 0)%N as Hne. { intros E. apply N.div_small_iff in E; lia. }
      destruct (Npos p `div` 10)%N as [|q] eqn:E; [done|]. by rewrite <- dec_pos.
  - assert (Zpos p mod 10 = Z.of_N (Npos p `mod` 10)) as -> by (rewrite N2Z.inj_mod; done).
    pose proof (N.mod_lt (Npos p) 10 ltac:(lia)) as Hlt. set (d := (Npos p `mod` 10)%N) in *. clearbody d. clear -Hlt.
    assert (d = 0 ∨ d = 1 ∨ d = 2 ∨ d = 3 ∨ d = 4 ∨ d = 5 ∨ d = 6 ∨ d = 7 ∨ d = 8 ∨ d = 9)%N as Hd by lia.
    by repeat destruct Hd as [->|Hd]; subst.
Qed.

Lemma dec_first m : 0 < m → ∃ d q, dec m = d :: q ∧ d ≠ 48.
Proof.
  intros Hm. assert (0 <= m) as H0 by lia. revert Hm. pattern m. apply (Zlt_0_ind _); [|done]. clear m H0. intros m IH _ Hm.
  rewrite dec_step by done. destruct (Z.ltb_spec m 10) as [Hlt|Hle].
  - rewrite Z.mod_small by lia. cbn. exists (48 + m), []. split; [done|lia].
  - destruct (IH (m / 10)) as (d & q & -> & Hd); [split; [apply Z.div_pos; lia|apply Z.div_lt; lia]|apply Z.div_str_pos; lia|].
    by exists d, (q ++ [48 + m mod 10]).
Qed.

(** The digits of a nonzero number, without the zeros at the end. *)
Definition significant (ds : jstr) : Prop :=
  forallb is_digit ds = true ∧ (∃ d q, ds = d :: q ∧ d ≠ 48) ∧ ∃ p d, ds = p ++ [d] ∧ d ≠ 48.

Lemma drop_zeros_zeros n ds : drop_zeros (zeros n ++ ds) = drop_zeros ds.
Proof. by induction n. Qed.

Lemma drop_zeros_head d ds : d ≠ 48 → drop_zeros (d :: ds) = d :: ds.
Proof. intros Hd. cbn. repeat case_match; done. Qed.

(** The zeros at the end are dropped, and nothing else. *)
Lemma strip_zeros_app ds n : (∃ p d, ds = p ++ [d] ∧ d ≠ 48) → strip_zeros (ds ++ zeros n) = ds.
Proof.
  intros (p & d & -> & Hd). unfold strip_zeros, zeros. rewrite !reverse_app, reverse_replicate. cbn -[drop_zeros].
  change (replicate n 48) with (zeros n). rewrite drop_zeros_zeros. cbn -[drop_zeros]. rewrite drop_zeros_head by done.
  rewrite reverse_cons, reverse_involutive. done.
Qed.

Lemma dec_digits m : 0 <= m → forallb is_digit (dec m) = true.
Proof.
  intros H0. pattern m. apply (Zlt_0_ind _); [|done]. clear m H0. intros m IH Hm. destruct (decide (m = 0)) as [->|Hne]; [done|].
  rewrite dec_step, forallb_app by lia. pose proof (Z.mod_pos_bound m 10 ltac:(lia)) as Hd. apply andb_true_iff. split.
  - destruct (Z.ltb_spec m 10); [done|]. apply IH. split; [apply Z.div_pos; lia|apply Z.div_lt; lia].
  - cbn. unfold is_digit. rewrite andb_true_r. apply andb_true_iff. rewrite !Z.leb_le. lia.
Qed.

Lemma digits_of m : 0 < m → significant (strip_zeros (dec m)) ∧
  dec m = strip_zeros (dec m) ++ zeros (length (dec m) - length (strip_zeros (dec m))).
Proof.
  intros Hm. pose proof (strip_zeros_spec (dec m)) as E. split; [|done]. destruct (dec_first m Hm) as (d & q & Hd & Hne).
  pose proof (dec_digits m ltac:(lia)) as Hdig. rewrite <- E, forallb_app in Hdig. apply andb_true_iff in Hdig as [Hdig _].
  split; [done|]. assert (∃ d' q', strip_zeros (dec m) = d' :: q' ∧ d' ≠ 48) as Hhead.
  { destruct (strip_zeros (dec m)) as [|d' q'] eqn:Es.
    - exfalso. rewrite Hd in E. cbn in E. by injection E.
    - rewrite <- E in Hd. injection Hd as -> _. eauto. }
  split; [done|]. destruct Hhead as (d' & q' & Es & _). unfold strip_zeros in *.
  destruct (drop_zeros (reverse (dec m))) as [|c r] eqn:Ed; [by rewrite reverse_nil in Es|].
  exists (reverse r), c. rewrite reverse_cons. split; [done|]. intros ->.
  assert (∀ ds c r, drop_zeros ds = c :: r → c ≠ 48) as Hno; [|by eapply Hno].
  clear. induction ds as [|x ds IH]; intros c r; [done|]. destruct (decide (x = 48)) as [->|Hx]; [apply IH|].
  rewrite drop_zeros_head by done. congruence.
Qed.

(** ** The four forms of a numeral *)

Lemma digit_not c ds : forallb is_digit ds = true → is_digit c = false → c ∉ ds.
Proof. rewrite forallb_true. intros H Hc Hin. specialize (H c Hin). congruence. Qed.

(** The digits of a numeral, before the exponent and without the point. *)
Definition without_point (t : jstr) : jstr := List.filter (λ c, negb (c =? 46)) t.

Lemma without_point_app a b : without_point (a ++ b) = without_point a ++ without_point b.
Proof. apply List.filter_app. Qed.

Lemma without_point_digits ds : forallb is_digit ds = true → without_point ds = ds.
Proof.
  intros H. apply filter_all. rewrite forallb_true in H. intros c Hc. specialize (H c Hc).
  destruct (Z.eqb_spec c 46) as [->|]; [by vm_compute in H|done].
Qed.

Inductive numeral_form (ds : jstr) (n : Z) : jstr → Prop :=
| form_whole : Z.of_nat (length ds) <= n → numeral_form ds n (ds ++ zeros (Z.to_nat (n - Z.of_nat (length ds))))
| form_pointed : 0 < n < Z.of_nat (length ds) → numeral_form ds n (take (Z.to_nat n) ds ++ js "." ++ drop (Z.to_nat n) ds)
| form_small : n <= 0 → numeral_form ds n (js "0." ++ zeros (Z.to_nat (- n)) ++ ds)
| form_exponent mantissa : without_point mantissa = ds → 101 ∉ mantissa → head mantissa = head ds →
    numeral_form ds n (mantissa ++ js "e" ++ (if n - 1 <? 0 then js "-" else js "+") ++ dec (Z.abs (n - 1))).

Lemma format_form ds n : significant ds → numeral_form ds n (format_digits ds n).
Proof.
  intros (Hd & (d & q & -> & Hne) & _). unfold format_digits. destruct ((-5 <=? n) && (n <=? 21)) eqn:E; bsimp.
  - destruct (Z.leb_spec (Z.of_nat (length (d :: q))) n) as [?|?]; [by apply form_whole|].
    destruct (Z.ltb_spec 0 n); [by apply form_pointed|]. by apply form_small.
  - apply form_exponent.
    + case_match; [by apply without_point_digits|]. rewrite !without_point_app. cbn in Hd. apply andb_true_iff in Hd as [H1 H2].
      pose proof (without_point_digits [d]) as E1. pose proof (without_point_digits q H2) as E2. cbn [take drop]. cbn [forallb] in E1.
      rewrite H1 in E1. change (without_point [d] ++ without_point q = d :: q). by rewrite E2, E1.
    + assert (101 ∉ d :: q) as Hn by (by apply digit_not). case_match; [done|].
      cbn [take drop]. intros Hin. apply elem_of_app in Hin as [Hin|[Hin|Hin]%elem_of_app]; [set_solver| |set_solver].
      by apply list_elem_of_singleton in Hin.
    + by case_match.
Qed.

(** What tells the forms apart: an exponent, a point, a zero in front. *)
Definition marks (t : jstr) : bool * bool * bool := (bool_decide (101 ∈ t), bool_decide (46 ∈ t), bool_decide (head t = Some 48)).

Lemma head_significant ds t : significant ds → bool_decide (head (ds ++ t) = Some 48) = false.
Proof. intros (_ & (d & q & -> & Hd) & _). apply bool_decide_eq_false. cbn. congruence. Qed.

Lemma zeros_not c n : c ≠ 48 → c ∉ zeros n.
Proof. intros Hc [? _]%elem_of_replicate. done. Qed.

Lemma form_marks ds n t : significant ds → numeral_form ds n t →
  (t = ds ++ zeros (Z.to_nat (n - Z.of_nat (length ds))) ∧ Z.of_nat (length ds) <= n ∧ marks t = (false, false, false)) ∨
  (t = take (Z.to_nat n) ds ++ js "." ++ drop (Z.to_nat n) ds ∧ 0 < n < Z.of_nat (length ds) ∧ marks t = (false, true, false)) ∨
  (t = js "0." ++ zeros (Z.to_nat (- n)) ++ ds ∧ n <= 0 ∧ marks t = (false, true, true)) ∨
  (∃ m, t = m ++ 101 :: (if n - 1 <? 0 then js "-" else js "+") ++ dec (Z.abs (n - 1)) ∧ without_point m = ds ∧ 101 ∉ m ∧ (marks t).1.1 = true).
Proof.
  intros Hs Hf. pose proof Hs as (Hd & (d & q & Eds & Hne) & _).
  assert (∀ c, is_digit c = false → c ∉ ds) as Hno by (intros c; by apply digit_not).
  assert (101 ∉ ds ∧ 46 ∉ ds) as [H1 H2] by (split; by apply Hno). destruct Hf as [Hn|Hn|Hn|m Hm He Hh].
  - left. split; [done|]. split; [done|]. unfold marks. rewrite head_significant by done.
    rewrite !bool_decide_eq_false_2; [done|..]; (intros [?|?]%elem_of_app; [done|(eapply zeros_not; [|eassumption]; done)]).
  - right; left. split; [done|]. split; [done|]. unfold marks.
    assert (∀ c, c ∉ ds → c ∉ take (Z.to_nat n) ds ∧ c ∉ drop (Z.to_nat n) ds) as Hpart.
    { intros c Hc. rewrite <- (take_drop (Z.to_nat n) ds) in Hc. by apply not_elem_of_app in Hc. }
    rewrite (bool_decide_eq_false_2 (101 ∈ _)), (bool_decide_eq_true_2 (46 ∈ _)), (bool_decide_eq_false_2 (head _ = _)); [done|..].
    + rewrite Eds. destruct (Z.to_nat n) as [|k] eqn:Ek; [lia|]. cbn. congruence.
    + apply elem_of_app; right. by left.
    + destruct (Hpart 101 H1) as [P1 P2]. intros [Hin|[Hin|Hin]%elem_of_app]%elem_of_app; [done| |done].
      by apply list_elem_of_singleton in Hin.
  - right; right; left. split; [done|]. split; [done|]. unfold marks.
    rewrite (bool_decide_eq_false_2 (101 ∈ _)), (bool_decide_eq_true_2 (46 ∈ _)), (bool_decide_eq_true_2 (head _ = _)); [done|..].
    + done.
    + right. by left.
    + intros Hin. apply elem_of_app in Hin as [Hin|[Hin|Hin]%elem_of_app]; [|(eapply zeros_not; [|eassumption]; done)|done].
      apply elem_of_cons in Hin as [?|?%list_elem_of_singleton]; done.
  - right; right; right. exists m. split; [done|]. split; [done|]. split; [done|]. cbn. apply bool_decide_eq_true_2.
    apply elem_of_app; right. by left.
Qed.

Lemma whole_inj a b m n : significant a → significant b → a ++ zeros m = b ++ zeros n → a = b.
Proof.
  intros (_ & _ & Ha) (_ & _ & Hb) E. apply (f_equal strip_zeros) in E. by rewrite !strip_zeros_app in E.
Qed.

Lemma small_inj a b m n : significant a → significant b → zeros m ++ a = zeros n ++ b → a = b.
Proof.
  intros (_ & (d & q & -> & Hd) & _) (_ & (d' & q' & -> & Hd') & _) E. apply (f_equal drop_zeros) in E.
  by rewrite !drop_zeros_zeros, !drop_zeros_head in E.
Qed.

Lemma signed_inj a b : (if a <? 0 then js "-" else js "+") ++ dec (Z.abs a) = (if b <? 0 then js "-" else js "+") ++ dec (Z.abs b) → a = b.
Proof. destruct (Z.ltb_spec a 0), (Z.ltb_spec b 0); cbn; intros [= E%dec_inj]; lia. Qed.

Lemma form_inj a m b n t : significant a → significant b → numeral_form a m t → numeral_form b n t → a = b ∧ m = n.
Proof.
  intros Ha Hb H1%form_marks H2%form_marks; [|done..].
  destruct H1 as [(E1 & Hm & K1)|[(E1 & Hm & K1)|[(E1 & Hm & K1)|(x & E1 & Hx & Nx & K1)]]],
    H2 as [(E2 & Hn & K2)|[(E2 & Hn & K2)|[(E2 & Hn & K2)|(y & E2 & Hy & Ny & K2)]]];
    try (rewrite K1 in K2; done); try (rewrite K2 in K1; done); rewrite E1 in E2; clear E1 K1 K2.
  - pose proof (whole_inj _ _ _ _ Ha Hb E2) as <-. split; [done|]. apply (f_equal length) in E2. rewrite !length_app in E2.
    unfold zeros in E2. rewrite !length_replicate in E2. lia.
  - pose proof Ha as (Da & _). pose proof Hb as (Db & _).
    apply (split_at_first 46) in E2 as [E3 E4].
    + split; [by rewrite <- (take_drop (Z.to_nat m) a), E3, E4, take_drop|]. apply (f_equal length) in E3. rewrite !length_take in E3. lia.
    + intros Hin%subseteq_take. by apply (digit_not 46) in Hin.
    + intros Hin%subseteq_take. by apply (digit_not 46) in Hin.
  - rewrite !app_assoc in E2. cbn [js app] in E2. injection E2 as E2. pose proof (small_inj _ _ _ _ Ha Hb E2) as <-. split; [done|].
    apply (f_equal length) in E2. rewrite !length_app in E2. unfold zeros in E2. rewrite !length_replicate in E2. lia.
  - apply split_at_first in E2 as [-> E2%signed_inj]; [|done..]. split; [congruence|lia].
Qed.

(** A number in the form [jsnum] gives it: finite, and no decimal that ends with a zero. *)
Definition plain_number (n : jsnum) : bool :=
  match n with JInt _ => true | JDec m _ => negb (m mod 10 =? 0) | JInf _ | JNaN => false end.

Lemma dec_stripped m : 0 < m → m mod 10 ≠ 0 → strip_zeros (dec m) = dec m.
Proof.
  intros Hm H0. rewrite <- (app_nil_r (dec m)) at 1. change [] with (zeros 0). apply strip_zeros_app. rewrite dec_step by done.
  eexists _, _. split; [done|]. lia.
Qed.

(** The digits and the exponent a number is printed with. *)
Lemma magnitude_inj m e m' e' : 0 < m → 0 < m' → (e = 0 ∨ 0 < e ∧ m mod 10 ≠ 0) → (e' = 0 ∨ 0 < e' ∧ m' mod 10 ≠ 0) →
  format_magnitude m e = format_magnitude m' e' → m = m' ∧ e = e'.
Proof.
  intros Hm Hm' He He' E. unfold format_magnitude in E. destruct (digits_of m Hm) as [S1 D1], (digits_of m' Hm') as [S2 D2].
  pose proof (format_form _ (Z.of_nat (length (dec m)) - e) S1) as F1. pose proof (format_form _ (Z.of_nat (length (dec m')) - e') S2) as F2.
  rewrite E in F1. destruct (form_inj _ _ _ _ _ S1 S2 F1 F2) as [Ed En]. clear E F1 F2.
  pose proof (strip_zeros_length (dec m)). pose proof (strip_zeros_length (dec m')).
  destruct He as [->|[He He0]], He' as [->|[He' He0']].
  - split; [|done]. apply dec_inj. rewrite D1, D2, Ed. do 2 f_equal. lia.
  - rewrite (dec_stripped m' Hm' He0') in Ed. rewrite Ed in *. lia.
  - rewrite (dec_stripped m Hm He0) in Ed. rewrite <- Ed in *. lia.
  - rewrite !dec_stripped in Ed by done. apply dec_inj in Ed as ->. split; [done|lia].
Qed.

(** A numeral starts with a digit, and is no lone zero. *)
Lemma magnitude_head m e : 0 < m → (∃ c r, format_magnitude m e = c :: r ∧ is_digit c = true) ∧ format_magnitude m e ≠ js "0".
Proof.
  intros Hm. unfold format_magnitude. destruct (digits_of m Hm) as [S _]. pose proof (format_form _ (Z.of_nat (length (dec m)) - e) S) as F.
  set (t := format_digits _ _) in *. clearbody t. destruct S as (Hd & (d & q & Ed & Hne) & _). rewrite Ed in *. cbn in Hd.
  apply andb_true_iff in Hd as [Hd Hq]. destruct F as [Hn|Hn|Hn|x Hx He Hh].
  - split; [by exists d; eexists|]. intros E%(f_equal head). by injection E.
  - destruct (Z.to_nat _) as [|k] eqn:Ek; [lia|]. split; [by exists d; eexists|]. intros E%(f_equal head). by injection E.
  - split; [by exists 48; eexists|]. done.
  - destruct x as [|c x]; [done|]. injection Hh as ->. split; [by exists d; eexists|]. intros E%(f_equal head). by injection E.
Qed.

Lemma num_to_string_head n : plain_number n = true → ∃ c r, num_to_string n = c :: r ∧ is_numeral_char c = true.
Proof.
  assert (∀ m e, 0 < m → ∃ c r, format_magnitude m e = c :: r ∧ is_numeral_char c = true) as Hm.
  { intros m e H. destruct (magnitude_head m e H) as [(c & r & -> & Hc) _]. exists c, r. split; [done|]. unfold is_numeral_char. by rewrite Hc. }
  destruct n as [z|m e|b|]; [..|done|done]; cbn [plain_number num_to_string]; intros Hp.
  - destruct (Z.eqb_spec z 0) as [->|Hz]; [by eexists _, _|]. destruct (z <? 0); [by eexists _, _|]. apply Hm. lia.
  - bsimp. destruct (m <? 0); [by eexists _, _|]. apply Hm. destruct (Z.eq_dec m 0) as [->|]; [done|lia].
Qed.

Lemma negative_sign z : (z <? 0) = (Z.sgn z <? 0).
Proof. by destruct z. Qed.

(** Different numbers are printed differently. *)
Lemma num_to_string_inj a b : plain_number a = true → plain_number b = true → num_to_string a = num_to_string b → a = b.
Proof.
  (* a number as its sign, its magnitude and its exponent *)
  assert (∀ n, plain_number n = true → n = JInt 0 ∧ num_to_string n = js "0" ∨
    ∃ s m e, (s = -1 ∨ s = 1) ∧ 0 < m ∧ (e = 0 ∧ n = JInt (s * m) ∨ 0 < e ∧ m mod 10 ≠ 0 ∧ n = JDec (s * m) (Z.to_pos e)) ∧
      num_to_string n = (if s <? 0 then js "-" else []) ++ format_magnitude m e) as Hview.
  { intros [z|m e|neg|]; [..|done|done]; cbn [plain_number num_to_string]; intros Hp.
    - destruct (Z.eqb_spec z 0) as [->|Hz]; [by left|]. right. exists (Z.sgn z), (Z.abs z), 0. split; [lia|]. split; [lia|].
      split; [left; split; [done|f_equal; lia]|]. by rewrite (negative_sign z).
    - bsimp. assert (m ≠ 0) as Hz by (by intros ->). right. exists (Z.sgn m), (Z.abs m), (Zpos e). split; [lia|]. split; [lia|].
      split; [right; split; [lia|]; split; [|f_equal; lia]|].
      + intros E. apply Hp. apply Z.mod_divide; [lia|]. by apply Z.divide_abs_r, Z.mod_divide.
      + by rewrite (negative_sign m). }
  intros Ha Hb E. destruct (Hview a Ha) as [[-> Ea]|(s & m & e & Hs & Hm & Hn & Ea)], (Hview b Hb) as [[-> Eb]|(s' & m' & e' & Hs' & Hm' & Hn' & Eb)];
    rewrite Ea in E; try rewrite Eb in E.
  - done.
  - exfalso. destruct Hs' as [->| ->]; cbn in E; [by injection E|]. by destruct (magnitude_head m' e' Hm') as [_ []].
  - exfalso. destruct Hs as [->| ->]; cbn in E; [by injection E|]. by destruct (magnitude_head m e Hm) as [_ []].
  - destruct (magnitude_head m e Hm) as [(c & r & Ec & Dc) _], (magnitude_head m' e' Hm') as [(c' & r' & Ec' & Dc') _].
    assert (s = s' ∧ format_magnitude m e = format_magnitude m' e') as [-> E2].
    { destruct Hs as [->| ->], Hs' as [->| ->]; cbn in E; [by injection E| | |done]; exfalso.
      - rewrite Ec' in E. injection E as <- _. by vm_compute in Dc'.
      - rewrite Ec in E. injection E as -> _. by vm_compute in Dc. }
    apply magnitude_inj in E2 as [-> ->]; [|done|done|tauto|tauto].
    destruct Hn as [(-> & ->)|(He & _ & ->)], Hn' as [(? & ->)|(? & _ & ->)]; try done; lia.
Qed.

(** The characters of a numeral. *)
Definition is_number_char (c : Z) : bool := is_numeral_char c || bool_decide (c ∈ [43; 46; 101]).

Lemma digits_number ds : forallb is_digit ds = true → forallb is_number_char ds = true.
Proof.
  rewrite !forallb_true. intros H c Hc. unfold is_number_char, is_numeral_char. by rewrite (H c Hc).
Qed.

Lemma forallb_take {A} (p : A → bool) n l : forallb p l = true → forallb p (take n l) = true.
Proof. rewrite !forallb_true. intros H x Hx. apply H. by apply (subseteq_take n). Qed.

Lemma forallb_drop {A} (p : A → bool) n l : forallb p l = true → forallb p (drop n l) = true.
Proof. rewrite !forallb_true. intros H x Hx. apply H. by apply (subseteq_drop n). Qed.

Lemma zeros_number n : forallb is_number_char (zeros n) = true.
Proof. by induction n. Qed.

Lemma format_digits_chars ds n : forallb is_digit ds = true → forallb is_number_char (format_digits ds n) = true.
Proof.
  intros H%digits_number. pose proof (λ k, forallb_take _ k ds H) as Ht. pose proof (λ k, forallb_drop _ k ds H) as Hdr.
  pose proof (digits_number (dec (Z.abs (n - 1))) (dec_digits _ (Z.abs_nonneg _))) as He.
  unfold format_digits. repeat case_match; rewrite ?forallb_app, ?H, ?Ht, ?Hdr, ?zeros_number, ?He; done.
Qed.

Lemma magnitude_chars m e : 0 < m → forallb is_number_char (format_magnitude m e) = true.
Proof. intros Hm. apply format_digits_chars. by destruct (digits_of m Hm) as [[? _] _]. Qed.

Lemma num_to_string_chars n : plain_number n = true → forallb is_number_char (num_to_string n) = true.
Proof.
  destruct n as [z|m e|b|]; [..|done|done]; cbn [plain_number num_to_string]; intros Hp.
  - destruct (Z.eqb_spec z 0) as [->|Hz]; [done|]. rewrite forallb_app, magnitude_chars by lia. by case_match.
  - bsimp. rewrite forallb_app, magnitude_chars by (destruct (Z.eq_dec m 0) as [->|]; [done|lia]). by case_match.
Qed.

Lemma numeral_chars_ascii t : forallb is_number_char t = true → is_ascii t = true.
Proof.
  unfold is_ascii. rewrite !forallb_true. intros H u Hu. specialize (H u Hu). unfold is_number_char in H. apply orb_true_iff in H as [H|H].
  - assert (is_ascii [u] = true) as Ha by (apply numeral_ascii; cbn; by rewrite H). unfold is_ascii in Ha. cbn in Ha. by rewrite andb_true_r in Ha.
  - apply bool_decide_eq_true in H. rewrite !elem_of_cons in H. by destruct H as [->|[->|[->|H%not_elem_of_nil]]].
Qed.

Lemma dec_head z : ∃ c r, dec z = c :: r ∧ is_numeral_char c = true.
Proof.
  pose proof (dec_chars z) as H. pose proof (dec_nonempty z).
  destruct (dec z) as [|c r]; [done|]. cbn in H. bsimp. eauto.
Qed.
