(* ===== verification/JsMap.v ===== *)
(** [Map] objects whose order of insertion can be observed, as association lists.

    [Map.set] on a key that is present keeps its place, a new key goes last. *)

From S2P Require Import Prelude.

Module JsMap.
Section map.
Context {K A : Type} `{EqDecision K}.
Abbreviation jmap := (list (K * A)).

Fixpoint mget (m : jmap) (k : K) : option A :=
  match m with
  | [] => None
  | (k', v) :: m => if k' === k then Some v else mget m k
  end.

Fixpoint mset (m : jmap) (k : K) (v : A) : jmap :=
  match m with
  | [] => [(k, v)]
  | (k', v') :: m => if k' === k then (k', v) :: m else (k', v') :: mset m k v
  end.

Fixpoint mdel (m : jmap) (k : K) : jmap :=
  match m with
  | [] => []
  | (k', v') :: m => if k' === k then m else (k', v') :: mdel m k
  end.

Definition keys (m : jmap) : list K := map fst m.

Lemma mget_none m k : mget m k = None ↔ k ∉ keys m.
Proof.
  induction m as [|[k' v] m IH]; cbn; [split; [intros _; apply not_elem_of_nil|done]|].
  rewrite elem_of_cons. case_bool_decide; naive_solver.
Qed.

Lemma mget_keys m k v : mget m k = Some v → k ∈ keys m.
Proof. intros E. destruct (decide (k ∈ keys m)) as [|Hn]; [done|]. apply mget_none in Hn. congruence. Qed.

Lemma mget_elem m k v : mget m k = Some v → (k, v) ∈ m.
Proof.
  induction m as [|[k' v'] m IH]; cbn; [done|]. case_bool_decide as E; [|right; auto].
  intros [= ->]. subst. by left.
Qed.

Lemma elem_mget m k v : NoDup (keys m) → (k, v) ∈ m → mget m k = Some v.
Proof.
  induction m as [|[k' v'] m IH]; cbn; intros Hnd Hin; [by apply not_elem_of_nil in Hin|].
  apply NoDup_cons in Hnd as [Hk Hnd]. apply elem_of_cons in Hin as [[= -> ->]|Hin].
  - by rewrite bool_decide_eq_true_2.
  - rewrite bool_decide_eq_false_2; [by apply IH|]. intros ->. apply Hk. apply list_elem_of_fmap. by exists (k, v).
Qed.

(** A map around a key it has. *)
Lemma mget_split m k v : mget m k = Some v → ∃ l1 l2, m = l1 ++ (k, v) :: l2 ∧ k ∉ keys l1.
Proof.
  induction m as [|[k' v'] m IH]; cbn; [done|]. case_bool_decide as E.
  - intros [= ->]. subst. exists [], m. split; [done|]. apply not_elem_of_nil.
  - intros (l1 & l2 & -> & Hk)%IH. exists ((k', v') :: l1), l2. split; [done|]. cbn. apply not_elem_of_cons. naive_solver.
Qed.

Lemma mget_around (l1 l2 : jmap) k v : k ∉ keys l1 → mget (l1 ++ (k, v) :: l2) k = Some v.
Proof.
  induction l1 as [|[k' v'] l1 IH]; cbn; [by rewrite bool_decide_eq_true_2|].
  rewrite not_elem_of_cons. intros [Hne Hk]. rewrite bool_decide_eq_false_2 by congruence. auto.
Qed.

Lemma mset_new m k v : mget m k = None → mset m k v = m ++ [(k, v)].
Proof. induction m as [|[k' v'] m IH]; cbn; [done|]. case_bool_decide; [done|]. intros E. by rewrite IH. Qed.

Lemma mset_around (l1 l2 : jmap) k v v' : k ∉ keys l1 → mset (l1 ++ (k, v) :: l2) k v' = l1 ++ (k, v') :: l2.
Proof.
  induction l1 as [|[k' x] l1 IH]; cbn; [by rewrite bool_decide_eq_true_2|].
  rewrite not_elem_of_cons. intros [Hne Hk]. rewrite bool_decide_eq_false_2 by congruence. by rewrite IH.
Qed.

Lemma mdel_around (l1 l2 : jmap) k v : k ∉ keys l1 → mdel (l1 ++ (k, v) :: l2) k = l1 ++ l2.
Proof.
  induction l1 as [|[k' x] l1 IH]; cbn; [by rewrite bool_decide_eq_true_2|].
  rewrite not_elem_of_cons. intros [Hne Hk]. rewrite bool_decide_eq_false_2 by congruence. by rewrite IH.
Qed.

Lemma mdel_absent m k : mget m k = None → mdel m k = m.
Proof. induction m as [|[k' v'] m IH]; cbn; [done|]. case_bool_decide; [done|]. intros E. by rewrite IH. Qed.

Lemma mget_mset m k v k' : mget (mset m k v) k' = if k === k' then Some v else mget m k'.
Proof.
  induction m as [|[x y] m IH]; cbn; [by repeat case_bool_decide|].
  destruct (decide (x = k)) as [-> | Hx].
  - rewrite bool_decide_eq_true_2 by done. cbn. by repeat case_bool_decide.
  - rewrite (bool_decide_eq_false_2 (x = k)) by done. cbn. rewrite IH.
    destruct (decide (x = k')) as [-> | Hk]; [|by rewrite (bool_decide_eq_false_2 (x = k'))].
    rewrite !bool_decide_eq_true_2 by done. by rewrite bool_decide_eq_false_2 by congruence.
Qed.

Lemma mget_mdel m k k' : NoDup (keys m) → mget (mdel m k) k' = if k === k' then None else mget m k'.
Proof.
  induction m as [|[x y] m IH]; cbn; intros Hnd; [by case_bool_decide|]. apply NoDup_cons in Hnd as [Hx Hnd].
  destruct (decide (x = k)) as [-> | Hne].
  - rewrite bool_decide_eq_true_2 by done. case_bool_decide as E; [subst; by apply mget_none|done].
  - rewrite (bool_decide_eq_false_2 (x = k)) by done. cbn. rewrite IH by done.
    destruct (decide (x = k')) as [-> | Hk]; [|by rewrite (bool_decide_eq_false_2 (x = k'))].
    rewrite (bool_decide_eq_true_2 (k' = k')) by done. by rewrite bool_decide_eq_false_2 by congruence.
Qed.

Lemma keys_mset m k v : keys (mset m k v) = if bool_decide (k ∈ keys m) then keys m else keys m ++ [k].
Proof.
  unfold keys. induction m as [|[x y] m IH]; cbn; [by rewrite bool_decide_eq_false_2 by apply not_elem_of_nil|].
  destruct (decide (x = k)) as [-> | Hne].
  - rewrite bool_decide_eq_true_2 by done. by rewrite bool_decide_eq_true_2 by left.
  - rewrite (bool_decide_eq_false_2 (x = k)) by done. cbn. rewrite IH.
    destruct (decide (k ∈ map fst m)) as [Hi|Hi].
    + rewrite (bool_decide_eq_true_2 (k ∈ map fst m)), bool_decide_eq_true_2 by (by try right). done.
    + rewrite !bool_decide_eq_false_2; [done| |done]. intros [->|?]%elem_of_cons; [by apply Hne|by apply Hi].
Qed.

Lemma nodup_mset m k v : NoDup (keys m) → NoDup (keys (mset m k v)).
Proof.
  intros Hnd. rewrite keys_mset. case_bool_decide as Hk; [done|]. apply NoDup_app. split; [done|].
  split; [|apply NoDup_singleton]. by intros x Hx ->%list_elem_of_singleton.
Qed.

Lemma keys_mdel_sub m k x : x ∈ keys (mdel m k) → x ∈ keys m.
Proof.
  induction m as [|[y z] m IH]; cbn; [done|]. case_bool_decide; [by right|]. cbn. rewrite !elem_of_cons. naive_solver.
Qed.

Lemma nodup_mdel m k : NoDup (keys m) → NoDup (keys (mdel m k)).
Proof.
  induction m as [|[y z] m IH]; cbn; [done|]. intros [Hy Hnd]%NoDup_cons. case_bool_decide; [done|]. cbn.
  apply NoDup_cons. split; [|by apply IH]. by intros ?%keys_mdel_sub.
Qed.

Lemma mset_elem m k v p : p ∈ mset m k v → p = (k, v) ∨ p ∈ m.
Proof.
  induction m as [|[y z] m IH]; cbn; [intros ->%list_elem_of_singleton; by left|].
  case_bool_decide as E; rewrite !elem_of_cons; [subst|]; naive_solver.
Qed.

Lemma mdel_elem m k p : p ∈ mdel m k → p ∈ m.
Proof. induction m as [|[y z] m IH]; cbn; [done|]. case_bool_decide; rewrite ?elem_of_cons; naive_solver. Qed.

End map.
End JsMap.
