(* ===== verification/Canonical.v ===== *)
(** Canonical JSON and digests: packages/protocol/src/paramsDigest.ts.

    [canonicalizeJson] serialises a value by the RFC 8785 rules; every identity
    the protocol compares (journal bindings, envelopes, chunks, holds) is the
    SHA-256 of such a serialisation.  Module [Canonical] is the code;
    the lemmas show that serialisation depends on a value only up to the order
    of object members, and that it determines the value up to that order. *)

From S2P Require Import Prelude JsString JsValue Numerals.

(** [createHash("sha256").update(bytes).digest("hex")]: the platform's hash. *)
Class Hasher := sha256_hex : list Z → jstr.

(** What the code relies on: a digest is 64 lowercase hexadecimal characters. *)
Class HasherOk (H : Hasher) : Prop :=
  sha256_hex_shape bs : length (sha256_hex bs) = 64%nat ∧ forallb is_lower_hex (sha256_hex bs) = true.

Module Canonical.

(** ** The code *)

Fixpoint assertWellFormedUnicode (value : jstr) : result js_error unit :=
  match value with
  | [] => Ok tt
  | codeUnit :: rest =>
      if (0xd800 <=? codeUnit) && (codeUnit <=? 0xdbff) then
        match rest with
        | next :: rest' =>
            if (0xdc00 <=? next) && (next <=? 0xdfff)
            then assertWellFormedUnicode rest'
            else throw TypeError "RFC 8785 input contains an unpaired high surrogate"
        | [] => throw TypeError "RFC 8785 input contains an unpaired high surrogate"
        end
      else if (0xdc00 <=? codeUnit) && (codeUnit <=? 0xdfff)
      then throw TypeError "RFC 8785 input contains an unpaired low surrogate"
      else assertWellFormedUnicode rest
  end.

Definition quote (value : jstr) : result js_error jstr :=
  assertWellFormedUnicode value ;;
  Ok (json_string value).

(** The order [Object.keys(value).sort()] puts the members in. *)
Definition key_leb {A} (l r : jstr * A) : bool := str_leb l.1 r.1.

Definition is_undefined (v : jsval) : bool := match v with VUndefined => true | _ => false end.

(** [`${quote(key)}:${text}`] *)
Definition member_text (key : jstr) (text : result js_error jstr) : result js_error jstr :=
  k ← quote key; t ← text; Ok (k ++ js ":" ++ t).

(** The loop over the items of an array, from [index] on. *)
Definition canonical_items (canon : jsval → result js_error jstr) :=
  fix go (index : Z) (items : list jsval) : result js_error (list jstr) :=
    match items with
    | [] => Ok []
    | item :: items =>
        throw_if (is_undefined item)
          (JsError TypeError
             (js "RFC 8785 input contains an undefined array item at " ++ dec index)) ;;
        v ← canon item;
        vs ← go (index + 1) items;
        Ok (v :: vs)
    end.

Fixpoint canonicalizeJson (value : jsval) : result js_error jstr :=
  match value with
  | VNull => Ok (js "null")
  | VBool b => Ok (if b then js "true" else js "false")
  | VNum n =>
      reject_if (negb (isFinite n)) TypeError "RFC 8785 input numbers must be finite" ;;
      Ok (num_to_string n)
  | VStr s => quote s
  | VArr items =>
      values ← canonical_items canonicalizeJson 0 items;
      Ok (js "[" ++ join (js ",") values ++ js "]")
  | VObj shape members =>
      reject_if (negb (plain_prototype shape)) TypeError
        "RFC 8785 input must contain only JSON objects" ;;
      reject_if (has_symbol_keys shape) TypeError
        "RFC 8785 input cannot contain symbol-keyed members" ;;
      reject_if (has_non_enumerable shape) TypeError
        "RFC 8785 input cannot contain non-enumerable members" ;;
      let texts := map (λ km, (km.1,
        throw_if (is_undefined km.2)
          (JsError TypeError (js "RFC 8785 input contains undefined member " ++ km.1)) ;;
        member_text km.1 (canonicalizeJson km.2))) members in
      parts ← map_result snd (sort_by key_leb texts);
      Ok (js "{" ++ join (js ",") parts ++ js "}")
  | VUndefined => throw TypeError "RFC 8785 input cannot contain undefined"
  | VOther t => Throw (JsError TypeError (js "RFC 8785 input cannot contain " ++ t))
  end.

Section digests.
Context `{Hasher}.

Definition digest_of (canonical : jstr) : jstr := js "sha256:" ++ sha256_hex (utf8_encode canonical).

Definition makeJsonDigest (value : jsval) : result js_error jstr :=
  canonical ← canonicalizeJson value; Ok (digest_of canonical).

Definition makeParamsDigest (params : jsval) : result js_error jstr := makeJsonDigest params.

Record BatchDigestPolicy := {
  bdp_class : jstr; bdp_confirmation_id : option jstr; bdp_decision : jstr }.

Record BatchDigestStep := {
  bds_invocation_id : jstr;
  bds_method : jstr;
  bds_mutating : bool;
  bds_mutation_scope : jsval;
  bds_params_digest : jstr;
  bds_policy : BatchDigestPolicy }.

Record BatchDigestInput := {
  bdi_atomic : bool;
  bdi_batch_id : jstr;
  bdi_recovery_clearances : list jsval;
  bdi_steps : list BatchDigestStep;
  bdi_timeout_ms : jsnum }.

Definition batch_material (batch : BatchDigestInput) : jsval :=
  obj [(js "atomic", VBool (bdi_atomic batch));
       (js "batch_id", VStr (bdi_batch_id batch));
       (js "recovery_clearances", VArr (bdi_recovery_clearances batch));
       (js "steps", VArr (map (λ step,
          obj [(js "invocation_id", VStr (bds_invocation_id step));
               (js "method", VStr (bds_method step));
               (js "mutating", VBool (bds_mutating step));
               (js "mutation_scope", bds_mutation_scope step);
               (js "params_digest", VStr (bds_params_digest step));
               (js "policy",
                 obj [(js "class", VStr (bdp_class (bds_policy step)));
                      (js "confirmation_id", opt_str (bdp_confirmation_id (bds_policy step)));
                      (js "decision", VStr (bdp_decision (bds_policy step)))])])
          (bdi_steps batch)));
       (js "timeout_ms", VNum (bdi_timeout_ms batch))].

Definition makeBatchDigest (batch : BatchDigestInput) : result js_error jstr :=
  makeJsonDigest (batch_material batch).

End digests.
End Canonical.

(** * Facts *)

Module CanonicalFacts.
Import Canonical.

#[local] Arguments quote : simpl never.
#[local] Arguments member_text : simpl never.
#[local] Arguments json_string : simpl never.

(** ** Reference definition: normalise, then print *)

(** Objects with their members in key order, recursively. *)
Fixpoint normalize (v : jsval) : jsval :=
  match v with
  | VArr items => VArr (map normalize items)
  | VObj shape members =>
      VObj shape (sort_by key_leb (map (λ km, (km.1, normalize km.2)) members))
  | _ => v
  end.

(** Plain JSON printing, no sorting and no checks. *)
Fixpoint emit (v : jsval) : jstr :=
  match v with
  | VNull => js "null"
  | VBool b => if b then js "true" else js "false"
  | VNum n => num_to_string n
  | VStr s => json_string s
  | VArr items => js "[" ++ join (js ",") (map emit items) ++ js "]"
  | VObj _ members =>
      js "{" ++ join (js ",") (map (λ km, json_string km.1 ++ js ":" ++ emit km.2) members) ++ js "}"
  | VUndefined | VOther _ => []
  end.

(** The values RFC 8785 accepts. *)
Fixpoint jcs_ok (v : jsval) : bool :=
  match v with
  | VNull | VBool _ => true
  | VNum n => isFinite n
  | VStr s => well_formed s
  | VArr items => forallb jcs_ok items
  | VObj shape members =>
      plain_prototype shape && negb (has_symbol_keys shape) && negb (has_non_enumerable shape) &&
      forallb (λ km, well_formed km.1 && jcs_ok km.2) members
  | VUndefined | VOther _ => false
  end.

(** The values the protocol puts on the wire: accepted, 16-bit code units,
    finite numbers, distinct keys. *)
Definition units_ok (s : jstr) : bool := forallb (λ u, (0 <=? u) && (u <? 0x10000)) s.

Fixpoint wire_value (v : jsval) : bool :=
  match v with
  | VNull | VBool _ => true
  | VNum n => plain_number n
  | VStr s => units_ok s && well_formed s
  | VArr items => forallb wire_value items
  | VObj shape members =>
      plain_prototype shape && negb (has_symbol_keys shape) && negb (has_non_enumerable shape) &&
      forallb (λ km, units_ok km.1 && well_formed km.1 && wire_value km.2) members &&
      bool_decide (NoDup (map fst members))
  | VUndefined | VOther _ => false
  end.

Lemma units_ok_is_units s : units_ok s = true → is_units s.
Proof.
  unfold units_ok, is_units. rewrite forallb_true, Forall_forall.
  intros H u Hu. specialize (H u Hu). bsimp. lia.
Qed.

Lemma assertWellFormedUnicode_ok s : is_ok (assertWellFormedUnicode s) = well_formed s.
Proof.
  remember (length s) as n eqn:Hn. revert s Hn.
  induction (Nat.lt_wf_0 n) as [n _ IH]. intros [|u rest] ->; [done|].
  cbn. unfold is_high_surrogate, is_low_surrogate.
  destruct ((0xd800 <=? u) && (u <=? 0xdbff)).
  - destruct rest as [|v rest]; [done|]. unfold is_low_surrogate.
    destruct ((0xdc00 <=? v) && (v <=? 0xdfff)); [|done].
    cbn. eapply (IH (length rest)); cbn; [lia|done].
  - destruct ((0xdc00 <=? u) && (u <=? 0xdfff)); [done|]. cbn.
    eapply (IH (length rest)); cbn; [lia|done].
Qed.

Lemma quote_ok s : well_formed s = true → quote s = Ok (json_string s).
Proof.
  intros H. unfold quote. rewrite <- assertWellFormedUnicode_ok in H.
  by destruct (assertWellFormedUnicode s).
Qed.

Lemma quote_is_ok s : is_ok (quote s) = well_formed s.
Proof.
  unfold quote. rewrite <- assertWellFormedUnicode_ok.
  by destruct (assertWellFormedUnicode s).
Qed.

(** ** Sorting commutes with computing the members *)

Lemma insert_by_map {A B} (leA : A → A → bool) (leB : B → B → bool) (f : A → B) x ys :
  (∀ a b, leB (f a) (f b) = leA a b) →
  insert_by leB (f x) (map f ys) = map f (insert_by leA x ys).
Proof.
  intros H. induction ys as [|y ys IH]; cbn; [done|]. rewrite H.
  destruct (leA x y); cbn; [done|]. by rewrite IH.
Qed.

Lemma sort_by_map {A B} (leA : A → A → bool) (leB : B → B → bool) (f : A → B) xs :
  (∀ a b, leB (f a) (f b) = leA a b) → sort_by leB (map f xs) = map f (sort_by leA xs).
Proof.
  intros H. induction xs as [|x xs IH]; cbn; [done|].
  rewrite IH. by apply insert_by_map.
Qed.

Lemma sort_members_map {A B} (f : jstr * A → B) (ms : list (jstr * A)) :
  sort_by key_leb (map (λ km, (km.1, f km)) ms) = map (λ km, (km.1, f km)) (sort_by key_leb ms).
Proof. by apply sort_by_map. Qed.

Lemma key_leb_total {A} (x y : jstr * A) : key_leb x y = true ∨ key_leb y x = true.
Proof. apply str_leb_total. Qed.

Lemma key_leb_trans {A} (x y z : jstr * A) :
  key_leb x y = true → key_leb y z = true → key_leb x z = true.
Proof. apply str_leb_trans. Qed.

(** With distinct keys, sorting forgets the order of the members. *)
Lemma sort_members_perm {A} (ms1 ms2 : list (jstr * A)) :
  NoDup (map fst ms1) → ms1 ≡ₚ ms2 → sort_by key_leb ms1 = sort_by key_leb ms2.
Proof.
  intros Hnd Hp. apply (sorted_perm_unique (λ a b, key_leb a b = true)).
  - intros x y Hx Hy Hxy Hyx. rewrite sort_by_elem in Hx, Hy.
    assert (x.1 = y.1) as Hk by by apply str_leb_antisym.
    apply list_elem_of_lookup in Hx as [i Hi], Hy as [j Hj].
    assert (i = j) as ->; [|congruence].
    eapply (NoDup_lookup _ i j x.1 Hnd); rewrite list_lookup_fmap.
    + by rewrite Hi.
    + rewrite Hj. cbn. by rewrite Hk.
  - apply sort_by_sorted; [apply key_leb_total|apply key_leb_trans].
  - apply sort_by_sorted; [apply key_leb_total|apply key_leb_trans].
  - by rewrite !sort_by_perm.
Qed.

(** ** What is accepted, and what is printed *)

Lemma is_ok_bind {E A B} (m : result E A) (k : A → result E B) :
  is_ok (m ≫= k) = match m with Ok a => is_ok (k a) | Throw _ => false end.
Proof. by destruct m. Qed.

Lemma is_ok_map_snd {E A B} (xs : list (A * result E B)) :
  is_ok (map_result snd xs) = forallb (λ x, is_ok x.2) xs.
Proof.
  induction xs as [|[a [b|e]] xs IH]; cbn; [done| |done].
  rewrite <- IH. by destruct (map_result snd xs).
Qed.

Lemma forallb_perm {A} (p : A → bool) xs ys : xs ≡ₚ ys → forallb p xs = forallb p ys.
Proof.
  intros Hp. apply eq_true_iff_eq. rewrite !forallb_true. by setoid_rewrite Hp.
Qed.

Lemma canonical_items_is_ok items i :
  Forall (λ v, is_ok (canonicalizeJson v) = jcs_ok v) items →
  is_ok (canonical_items canonicalizeJson i items) = forallb jcs_ok items.
Proof.
  intros H. revert i. induction H as [|v items Hv _ IH]; intros i; [done|].
  cbn [canonical_items forallb]. rewrite <- Hv.
  destruct (is_undefined v) eqn:E; [by destruct v|]. cbn.
  destruct (canonicalizeJson v); cbn; [|done]. rewrite <- (IH (i + 1)).
  by destruct (canonical_items _ _ _).
Qed.

Lemma canonicalizeJson_is_ok v : is_ok (canonicalizeJson v) = jcs_ok v.
Proof.
  induction v as [| |b|n|s|items IH|shape members IH|t] using jsval_nested_ind; try done.
  - cbn. by destruct (isFinite n).
  - apply quote_is_ok.
  - cbn. rewrite <- (canonical_items_is_ok items 0 IH).
    by destruct (canonical_items _ _ _).
  - cbn. destruct (plain_prototype shape), (has_symbol_keys shape), (has_non_enumerable shape);
      try done. cbn -[sort_by map_result].
    set (texts := map _ members).
    assert (is_ok (map_result snd (sort_by key_leb texts)) =
            forallb (λ km, well_formed km.1 && jcs_ok km.2) members) as <-.
    { rewrite is_ok_map_snd, (forallb_perm _ _ _ (sort_by_perm key_leb texts)).
      unfold texts. induction IH as [|[k m] members Hm _ IHm]; cbn -[throw_if]; [done|].
      rewrite IHm. f_equal. cbn in Hm. rewrite <- Hm, <- quote_is_ok. unfold member_text.
      destruct (is_undefined m) eqn:E; [destruct m; try done; by rewrite andb_false_r|].
      cbn. destruct (quote k), (canonicalizeJson m); done. }
    by destruct (map_result _ _).
Qed.

Lemma canonical_items_emit items i :
  Forall (λ v, jcs_ok v = true → canonicalizeJson v = Ok (emit (normalize v))) items →
  forallb jcs_ok items = true →
  canonical_items canonicalizeJson i items = Ok (map emit (map normalize items)).
Proof.
  intros H. revert i. induction H as [|v items Hv _ IH]; intros i Hok; [done|].
  cbn in Hok. bsimp. cbn [canonical_items map].
  assert (is_undefined v = false) as -> by by destruct v.
  cbn. rewrite Hv by done. cbn. by rewrite IH.
Qed.

(** The computed text of one member, as the code evaluates it. *)
Definition member_result (km : jstr * jsval) : result js_error jstr :=
  throw_if (is_undefined km.2)
    (JsError TypeError (js "RFC 8785 input contains undefined member " ++ km.1)) ;;
  member_text km.1 (canonicalizeJson km.2).

Lemma member_results_emit ms :
  Forall (λ km, well_formed km.1 = true ∧ is_undefined km.2 = false ∧
                canonicalizeJson km.2 = Ok (emit (normalize km.2))) ms →
  map_result snd (map (λ km, (km.1, member_result km)) ms) =
  Ok (map (λ km, json_string km.1 ++ js ":" ++ emit km.2)
        (map (λ km, (km.1, normalize km.2)) ms)).
Proof.
  induction 1 as [|[k m] ms (Hk & Hu & Hm) _ IH]; [done|].
  cbn -[member_result]. rewrite IH. unfold member_result. cbn in *. rewrite Hu. cbn.
  unfold member_text. rewrite quote_ok, Hm by done. done.
Qed.

(** The code agrees with the reference definition. *)
Lemma canonicalizeJson_emit v :
  jcs_ok v = true → canonicalizeJson v = Ok (emit (normalize v)).
Proof.
  induction v as [| |b|n|s|items IH|shape members IH|t] using jsval_nested_ind; intros Hok; try done.
  - cbn in *. by rewrite Hok.
  - by apply quote_ok.
  - cbn. by rewrite (canonical_items_emit items 0 IH Hok).
  - cbn in Hok. rewrite !andb_true_iff, !negb_true_iff in Hok.
    destruct Hok as [[[Hp Hs] He] Hm]. cbn -[sort_by map_result].
    rewrite Hp, Hs, He. cbn -[sort_by map_result].
    rewrite (sort_members_map (λ km, normalize km.2)), (sort_members_map member_result).
    rewrite member_results_emit; [done|].
    rewrite Forall_forall in *. rewrite forallb_true in Hm.
    intros km Hkm%sort_by_elem. specialize (Hm km Hkm). bsimp.
    split; [done|]. split; [by destruct (km.2)|by apply IH].
Qed.

(** ** Printing is uniquely readable *)

Lemma wire_jcs v : wire_value v = true → jcs_ok v = true.
Proof.
  induction v as [| |b|n|s|items IH|shape members IH|t] using jsval_nested_ind; cbn; try done.
  - by destruct n.
  - intros; by bsimp.
  - rewrite !forallb_true. rewrite Forall_forall in IH. eauto.
  - rewrite !andb_true_iff, !forallb_true. rewrite Forall_forall in IH.
    intros ((((? & ?) & ?) & Hm) & _). repeat split; try done.
    intros km Hkm. specialize (Hm km Hkm). bsimp. apply andb_true_iff. eauto.
Qed.

(** What may follow a value inside a document. *)
Definition delimited (r : jstr) : Prop :=
  match r with [] => True | c :: _ => c = 44 ∨ c = 93 ∨ c = 125 end.

Lemma numeral_split (a b r1 r2 : jstr) :
  forallb is_number_char a = true → forallb is_number_char b = true →
  delimited r1 → delimited r2 → a ++ r1 = b ++ r2 → a = b ∧ r1 = r2.
Proof.
  assert (∀ c r, is_number_char c = true → ¬ delimited (c :: r)) as Hno by (by intros c r Hc [-> | [-> | ->]]).
  revert b. induction a as [|x a IH]; intros [|y b] Ha Hb H1 H2 Heq; cbn [forallb app] in *.
  - done.
  - subst r1. bsimp. by destruct (Hno y (b ++ r2)).
  - subst r2. bsimp. by destruct (Hno x (a ++ r1)).
  - bsimp. injection Heq as -> Heq. edestruct IH as [-> ->]; done.
Qed.

(** The first character of a printed value. *)
Definition value_head (c : Z) : bool :=
  is_numeral_char c || bool_decide (c ∈ [110; 116; 102; 34; 91; 123]).

Lemma emit_head v : wire_value v = true → ∃ c r, emit v = c :: r ∧ value_head c = true.
Proof.
  destruct v as [| |[]|n|s|items|shape members|t]; cbn -[dec json_string]; try done; intros Hw.
  1-3, 6-7: by eauto.
  - destruct (num_to_string_head n Hw) as (c & r & -> & Hn). exists c, r. split; [done|]. unfold value_head. by rewrite Hn.
  - unfold json_string. cbn. eauto.
Qed.

(** [f] prints the accepted elements in a uniquely readable way. *)
Definition readable {A} (f : A → jstr) (ok : A → bool) (x : A) : Prop :=
  ∀ y q1 q2, ok y = true → delimited q1 → delimited q2 →
    f x ++ q1 = f y ++ q2 → x = y ∧ q1 = q2.

Lemma join_tail_delimited {A} (f : A → jstr) (xs : list A) close r :
  close = 93 ∨ close = 125 →
  delimited (match map f xs with [] => [] | _ => js "," ++ join (js ",") (map f xs) end ++ close :: r).
Proof. destruct xs; cbn; tauto. Qed.

Lemma join_inj {A} (f : A → jstr) (ok : A → bool) close xs ys r1 r2 :
  close = 93 ∨ close = 125 →
  (∀ x, ok x = true → ∃ c r, f x = c :: r ∧ value_head c = true) →
  Forall (readable f ok) xs → forallb ok xs = true → forallb ok ys = true →
  join (js ",") (map f xs) ++ close :: r1 = join (js ",") (map f ys) ++ close :: r2 →
  xs = ys ∧ r1 = r2.
Proof.
  intros Hclose Hhead Hinj. revert ys.
  assert (∀ x t, ok x = true → f x ++ t = close :: r1 → False) as Hno1.
  { intros x t Hx. destruct (Hhead x Hx) as (c & r & -> & Hc). cbn. intros [= -> _].
    destruct Hclose as [-> | ->]; done. }
  assert (∀ x t, ok x = true → close :: r2 = f x ++ t → False) as Hno2.
  { intros x t Hx. destruct (Hhead x Hx) as (c & r & -> & Hc). cbn. intros [= <- _].
    destruct Hclose as [-> | ->]; done. }
  clear Hhead.
  induction Hinj as [|x xs Hx _ IH]; intros [|y ys] Hxs Hys Heq.
  - cbn in Heq. by injection Heq.
  - cbn in Hys. bsimp. cbn [map] in Heq. rewrite join_cons, <- app_assoc in Heq.
    symmetry in Heq. exfalso. eapply Hno1; [eassumption|exact Heq].
  - cbn in Hxs. bsimp. cbn [map] in Heq. rewrite join_cons, <- app_assoc in Heq.
    symmetry in Heq. exfalso. eapply Hno2; [eassumption|exact Heq].
  - cbn in Hxs, Hys. bsimp. cbn [map] in Heq. rewrite !join_cons, <- !app_assoc in Heq.
    apply Hx in Heq as [-> Heq]; [|done|by apply join_tail_delimited..].
    destruct xs as [|x' xs], ys as [|y' ys]; cbn [map] in Heq.
    + cbn in Heq. by injection Heq.
    + injection Heq as -> _. by destruct Hclose.
    + injection Heq as <- _. by destruct Hclose.
    + cbn [app js] in Heq. injection Heq as Heq.
      change (f x' :: map f xs) with (map f (x' :: xs)) in Heq.
      change (f y' :: map f ys) with (map f (y' :: ys)) in Heq.
      edestruct IH as [Heqs ->]; [done|done|exact Heq|]. by rewrite Heqs.
Qed.

Definition member_ok (km : jstr * jsval) : bool :=
  units_ok km.1 && well_formed km.1 && wire_value km.2.
Definition emit_member (km : jstr * jsval) : jstr := json_string km.1 ++ js ":" ++ emit km.2.

Lemma wire_shape shape :
  plain_prototype shape = true → has_symbol_keys shape = false → has_non_enumerable shape = false →
  shape = plain_shape.
Proof. destruct shape; cbn. by intros -> -> ->. Qed.

Lemma emit_readable_num n : wire_value (VNum n) = true → readable emit wire_value (VNum n).
Proof.
  intros Hw w q1 q2 Hw2 Hq1 Hq2 Heq. cbn [wire_value emit] in Hw, Heq.
  destruct w as [| |[]|n2|s|items|shape members|t]; try done;
    try (destruct (num_to_string_head n Hw) as (c & r & Hd & Hc); rewrite Hd in Heq; cbn in Heq; injection Heq as -> _; done).
  cbn [wire_value emit] in Hw2, Heq.
  apply numeral_split in Heq as [Hz ->]; [|by apply num_to_string_chars|by apply num_to_string_chars|done|done].
  by apply num_to_string_inj in Hz as ->.
Qed.

Lemma emit_readable_arr items :
  Forall (λ v, wire_value v = true → readable emit wire_value v) items →
  forallb wire_value items = true → ∀ items2 q1 q2, forallb wire_value items2 = true →
  emit (VArr items) ++ q1 = emit (VArr items2) ++ q2 → items = items2 ∧ q1 = q2.
Proof.
  intros IH Hw items2 q1 q2 Hw2. cbn [emit app js]. intros [= Heq].
  rewrite <- !app_assoc in Heq. cbn [app js] in Heq.
  eapply join_inj in Heq as [Heqs ->];
    [by rewrite Heqs|by left|apply emit_head| |exact Hw|exact Hw2].
  rewrite Forall_forall in *. rewrite forallb_true in Hw. eauto.
Qed.

Lemma emit_member_head km : member_ok km = true → ∃ c r, emit_member km = c :: r ∧ value_head c = true.
Proof. intros _. unfold emit_member, json_string. cbn. eauto. Qed.

Lemma emit_member_readable km :
  member_ok km = true → readable emit wire_value km.2 → readable emit_member member_ok km.
Proof.
  destruct km as [k1 v1]. unfold member_ok. cbn. intros Hk1 Hv1 [k2 v2] q1 q2 Hk2 Hq1 Hq2 Heq.
  cbn in Hk2. bsimp. unfold emit_member in Heq. cbn [fst snd] in Heq.
  rewrite <- !app_assoc in Heq.
  apply json_string_inj in Heq as [-> Heq]; [|by apply units_ok_is_units..].
  cbn [app js] in Heq. injection Heq as Heq.
  apply Hv1 in Heq as [-> ->]; done.
Qed.

Lemma emit_readable_obj members :
  Forall (λ km, wire_value km.2 = true → readable emit wire_value km.2) members →
  forallb member_ok members = true → ∀ members2 sh sh2 q1 q2, forallb member_ok members2 = true →
  emit (VObj sh members) ++ q1 = emit (VObj sh2 members2) ++ q2 → members = members2 ∧ q1 = q2.
Proof.
  intros IH Hw members2 sh sh2 q1 q2 Hw2. cbn [emit app js]. intros [= Heq].
  rewrite <- !app_assoc in Heq. cbn [app js] in Heq.
  eapply (join_inj emit_member) in Heq as [Heqs ->];
    [by rewrite Heqs|by right|apply emit_member_head| |exact Hw|exact Hw2].
  rewrite Forall_forall in *. rewrite forallb_true in Hw. intros km Hkm.
  apply emit_member_readable; [auto|]. apply IH; [done|].
  specialize (Hw km Hkm). unfold member_ok in Hw. by bsimp.
Qed.

Lemma wire_obj shape members :
  wire_value (VObj shape members) = true →
  shape = plain_shape ∧ forallb member_ok members = true ∧ NoDup (map fst members).
Proof.
  cbn. rewrite !andb_true_iff, !negb_true_iff, bool_decide_eq_true.
  intros ((((? & ?) & ?) & Hm) & Hnd). repeat split; [|exact Hm|done]. by apply wire_shape.
Qed.

(** A printed value determines the value and where it ends. *)
Lemma emit_readable v : wire_value v = true → readable emit wire_value v.
Proof.
  induction v as [| |b|n|s|items IH|shape members IH|t] using jsval_nested_ind; intros Hw; try done;
  intros w q1 q2 Hw2 Hq1 Hq2 Heq;
  (destruct w as [| |b2|n2|s2|items2|shape2 members2|t2];
   try done;
   try (by destruct (emit_readable_num n2 Hw2 _ q2 q1 Hw Hq2 Hq1 (eq_sym Heq)));
   try (cbn in Heq; by simplify_eq)).
  all: try (by apply (emit_readable_num n Hw)).
  all: try (destruct b; by simplify_eq).
  all: try (destruct b2; by simplify_eq).
  - destruct b, b2; cbn in Heq; by simplify_eq.
  - cbn in Hw, Hw2. bsimp. apply json_string_inj in Heq as [-> ->];
      [done|by apply units_ok_is_units..].
  - cbn in Hw, Hw2. eapply emit_readable_arr in Heq as [-> ->]; done.
  - apply wire_obj in Hw as (-> & Hm & _), Hw2 as (-> & Hm2 & _).
    eapply emit_readable_obj in Heq as [-> ->]; done.
Qed.

(** ** Identity of values is identity of their serialisations *)

Lemma normalize_keys ms :
  map fst (map (λ km : jstr * jsval, (km.1, normalize km.2)) ms) = map fst ms.
Proof. rewrite map_map. by apply map_ext. Qed.

(** Normal forms of two objects that agree, agree member by member; so equal digests
    of two materials mean equal fields. *)
Lemma normalize_member ms ns k v w :
  NoDup (map fst ns) → normalize (obj ms) = normalize (obj ns) → (k, v) ∈ ms → (k, w) ∈ ns → normalize v = normalize w.
Proof.
  unfold obj. cbn [normalize]. intros Hnd E Hv Hw. injection E as E.
  assert ((k, normalize v) ∈ map (λ km : jstr * jsval, (km.1, normalize km.2)) ns) as Hin.
  { apply (sort_by_elem key_leb). rewrite <- E. apply sort_by_elem, list_elem_of_fmap. by exists (k, v). }
  apply list_elem_of_fmap in Hin as ([k' w'] & [= -> ->] & Hw').
  apply list_elem_of_lookup in Hw as [i Hi], Hw' as [j Hj].
  assert (i = j) as ->; [|rewrite Hi in Hj; by injection Hj as ->].
  apply (NoDup_lookup (map fst ns) i j k' Hnd); [apply (list_lookup_fmap_Some_2 fst _ _ _ Hi)|apply (list_lookup_fmap_Some_2 fst _ _ _ Hj)].
Qed.

(** Read one member of two materials with equal normal forms. *)
Ltac member_eq E k :=
  let go := repeat (first [apply list_elem_of_here | apply list_elem_of_further]) in
  let F := fresh "F" in
  eassert (normalize _ = normalize _) as F by
    (eapply (normalize_member _ _ (js k)); [|exact E|go|go]; cbn [map fst]; refine (bool_decide_unpack _ _); vm_compute; exact I);
  try match type of F with
  | normalize (VStr _) = normalize (VStr _) => injection F as F
  | normalize (VNum _) = normalize (VNum _) => injection F as F
  end.

Lemma wire_normalize v : wire_value v = true → wire_value (normalize v) = true.
Proof.
  induction v as [| |b|n|s|items IH|shape members IH|t] using jsval_nested_ind; cbn; try done.
  - rewrite Forall_forall in IH. rewrite !forallb_true. intros Hw x Hx.
    apply list_elem_of_fmap in Hx as (y & -> & Hy). auto.
  - rewrite Forall_forall in IH.
    rewrite !andb_true_iff, !bool_decide_eq_true. intros [[Hs Hm] Hnd]. split; [split; [done|]|].
    + rewrite (forallb_perm _ _ _ (sort_by_perm _ _)). rewrite forallb_true in *.
      intros x Hx. apply list_elem_of_fmap in Hx as (km & -> & Hkm). cbn.
      specialize (Hm km Hkm). bsimp. rewrite IH by done.
      by repeat (apply andb_true_iff; split).
    + rewrite sort_by_perm, normalize_keys. done.
Qed.

Lemma wf_text_emit v : wire_value v = true → wf_text (emit v).
Proof.
  induction v as [| |b|n|s|items IH|shape members IH|t] using jsval_nested_ind; intros Hw; try done.
  - by apply wf_text_ascii.
  - by destruct b; apply wf_text_ascii.
  - by apply wf_text_ascii, numeral_chars_ascii, num_to_string_chars.
  - cbn in Hw. bsimp. apply wf_text_json_string. split; [done|by apply units_ok_is_units].
  - cbn [wire_value] in Hw. cbn [emit]. apply wf_text_app; [by apply wf_text_ascii|].
    apply wf_text_app; [|by apply wf_text_ascii].
    apply wf_text_join; [by apply wf_text_ascii|].
    rewrite Forall_forall in IH. apply Forall_forall. rewrite forallb_true in Hw.
    intros x Hx. apply list_elem_of_fmap in Hx as (y & -> & Hy). apply IH; auto.
  - apply wire_obj in Hw as (-> & Hm & _). cbn [emit].
    apply wf_text_app; [by apply wf_text_ascii|].
    apply wf_text_app; [|by apply wf_text_ascii].
    apply wf_text_join; [by apply wf_text_ascii|].
    rewrite Forall_forall in IH. apply Forall_forall. rewrite forallb_true in Hm.
    intros x Hx. apply list_elem_of_fmap in Hx as (km & -> & Hkm).
    specialize (Hm km Hkm). unfold member_ok in Hm. bsimp.
    apply wf_text_app; [apply wf_text_json_string; split; [done|by apply units_ok_is_units]|].
    apply wf_text_app; [by apply wf_text_ascii|auto].
Qed.

(** Equality up to the order of object members, at every depth. *)
Inductive same_json : jsval → jsval → Prop :=
| same_refl v : same_json v v
| same_arr xs ys : Forall2 same_json xs ys → same_json (VArr xs) (VArr ys)
| same_obj shape ms ms' ns :
    Forall2 (λ a b, a.1 = b.1 ∧ same_json a.2 b.2) ms ms' → ms' ≡ₚ ns →
    same_json (VObj shape ms) (VObj shape ns).

(** Every object inside has distinct keys, as JavaScript objects do. *)
Fixpoint distinct_keys (v : jsval) : Prop :=
  match v with
  | VArr items => (fix all xs := match xs with [] => True | x :: xs => distinct_keys x ∧ all xs end) items
  | VObj _ ms =>
      NoDup (map fst ms) ∧
      (fix all xs := match xs with [] => True | x :: xs => distinct_keys x.2 ∧ all xs end) ms
  | _ => True
  end.

Lemma distinct_keys_arr items : distinct_keys (VArr items) ↔ Forall distinct_keys items.
Proof.
  induction items as [|x xs IH]; [by split|]. rewrite Forall_cons, <- IH. done.
Qed.

Lemma distinct_keys_obj sh ms :
  distinct_keys (VObj sh ms) ↔ NoDup (map fst ms) ∧ Forall (λ km, distinct_keys km.2) ms.
Proof.
  cbn. apply and_iff_compat_l. induction ms as [|x xs IH]; [by split|].
  rewrite Forall_cons, <- IH. done.
Qed.

Lemma same_json_obj_texts ms ms' :
  Forall2 (λ a b : jstr * jsval, a.1 = b.1 ∧ canonicalizeJson a.2 = canonicalizeJson b.2 ∧
                                 is_undefined a.2 = is_undefined b.2) ms ms' →
  map (λ km, (km.1, member_result km)) ms = map (λ km, (km.1, member_result km)) ms'.
Proof.
  induction 1 as [|[k v] [k' v'] ms ms' (Hk & Hv & Hu) _ IH]; [done|].
  cbn in *. subst k'. unfold member_result at 1 3. cbn. by rewrite Hv, Hu, IH.
Qed.

Lemma same_json_undefined v w : same_json v w → is_undefined v = is_undefined w.
Proof. by inversion 1. Qed.

Lemma canonical_items_ext items1 items2 i :
  Forall2 (λ a b, canonicalizeJson a = canonicalizeJson b ∧ is_undefined a = is_undefined b) items1 items2 →
  canonical_items canonicalizeJson i items1 = canonical_items canonicalizeJson i items2.
Proof.
  intros H. revert i. induction H as [|a b xs ys [Hc Hu] _ IH]; intros i; [done|].
  cbn [canonical_items]. by rewrite Hc, Hu, IH.
Qed.

(** The serialisation (or the error) does not depend on the order of members. *)
Lemma canonicalizeJson_same v :
  distinct_keys v → ∀ w, same_json v w → canonicalizeJson v = canonicalizeJson w.
Proof.
  induction v as [| |b|n|s|items IH|shape members IH|t] using jsval_nested_ind;
    intros Hd w Hs; inversion Hs as [|xs ys H2|sh ms ms' ns H2 Hp]; subst; try done.
  - rewrite distinct_keys_arr in Hd. cbn. erewrite canonical_items_ext; [done|].
    clear Hs. induction H2 as [|a b xs ys Hab _ IH2]; [constructor|].
    inversion_clear IH as [|?? IHa IHxs]. inversion_clear Hd as [|?? Hda Hdxs].
    constructor; [|by apply IH2]. split; [by apply IHa|by apply same_json_undefined].
  - apply distinct_keys_obj in Hd as [Hnd Hd].
    assert (map fst members = map fst ms') as Hkeys.
    { clear -H2. induction H2 as [|a b ms ms' [Hk _] _ IH]; cbn; [done|]. by rewrite Hk, IH. }
    cbn -[sort_by map_result].
    change (map _ members) with (map (λ km, (km.1, member_result km)) members).
    change (map _ ns) with (map (λ km, (km.1, member_result km)) ns).
    rewrite (same_json_obj_texts members ms').
    2:{ clear -H2 IH Hd. induction H2 as [|a b ms ms' [Hk Hab] _ IH2]; [constructor|].
        inversion_clear IH as [|?? IHa IHms]. inversion_clear Hd as [|?? Hda Hdms].
        constructor; [|by apply IH2]. split; [done|].
        split; [by apply IHa|by apply same_json_undefined]. }
    rewrite (sort_members_perm (map _ ms') (map (λ km, (km.1, member_result km)) ns)); [done| |].
    + rewrite map_map. cbn. change (NoDup (map fst ms')). by rewrite <- Hkeys.
    + by apply Permutation_map.
Qed.

(** On wire values, equal serialisations mean equal values up to member order. *)
Lemma canonicalizeJson_inj v w :
  wire_value v = true → wire_value w = true →
  canonicalizeJson v = canonicalizeJson w → normalize v = normalize w.
Proof.
  intros Hv Hw. rewrite !canonicalizeJson_emit by by apply wire_jcs. intros [= Heq].
  apply wire_normalize in Hv, Hw.
  destruct (emit_readable (normalize v) Hv (normalize w) [] []) as [H _]; try done.
  by rewrite !app_nil_r.
Qed.

(** ** Digests *)

Section digest.
Context `{Hasher}.

(** The hash does not collide on the serialisations of two values. *)
Definition collision_free (v w : jsval) : Prop :=
  let bytes u := utf8_encode (emit (normalize u)) in
  sha256_hex (bytes v) = sha256_hex (bytes w) → bytes v = bytes w.

Lemma makeJsonDigest_ok v :
  jcs_ok v = true → makeJsonDigest v = Ok (digest_of (emit (normalize v))).
Proof. intros Hv. unfold makeJsonDigest. by rewrite canonicalizeJson_emit. Qed.

Lemma makeJsonDigest_is_ok v : is_ok (makeJsonDigest v) = jcs_ok v.
Proof.
  unfold makeJsonDigest. rewrite <- canonicalizeJson_is_ok. by destruct (canonicalizeJson v).
Qed.

Lemma makeJsonDigest_inj v w :
  wire_value v = true → wire_value w = true → collision_free v w →
  makeJsonDigest v = makeJsonDigest w → normalize v = normalize w.
Proof.
  intros Hv Hw Hcf. rewrite !makeJsonDigest_ok by by apply wire_jcs. intros [= Heq].
  apply Hcf in Heq. apply canonicalizeJson_inj; [done..|].
  rewrite !canonicalizeJson_emit by by apply wire_jcs. f_equal.
  apply wire_normalize in Hv, Hw. destruct (wf_text_emit _ Hv), (wf_text_emit _ Hw).
  by apply utf8_encode_inj.
Qed.

(** A digest the code produces has the form the code demands of digests. *)
Lemma makeJsonDigest_pattern `{!HasherOk H} v d :
  makeJsonDigest v = Ok d → sha256_pattern d = true.
Proof.
  unfold makeJsonDigest, digest_of. intros Hd. ok_inv Hd.
  destruct (sha256_hex_shape (utf8_encode a)) as [Hl Hh].
  unfold sha256_pattern. cbn [length]. rewrite Hl. exact Hh.
Qed.

(** C31: two JSON values (finite numbers of any size and precision, well-formed
    strings, plain objects with distinct keys) on which the hash does not collide have
    the same digest exactly when they are the same value up to the order of object
    members; and the digest is a well-formed one. *)
Theorem digest_identifies_value `{!HasherOk H} v w :
  wire_value v = true → wire_value w = true → collision_free v w →
  (makeJsonDigest v = makeJsonDigest w ↔ normalize v = normalize w) ∧
  ∃ d, makeJsonDigest v = Ok d ∧ sha256_pattern d = true.
Proof.
  intros Hv Hw Hcf. split; [split|].
  - by apply makeJsonDigest_inj.
  - intros E. by rewrite !makeJsonDigest_ok, E by by apply wire_jcs.
  - pose proof (makeJsonDigest_ok v (wire_jcs v Hv)) as E. eexists. split; [exact E|].
    by eapply makeJsonDigest_pattern.
Qed.
End digest.

(** [canonicalizeJson] returns a text exactly on the values RFC 8785 can
    serialise ([jcs_ok]: finite numbers, well-formed strings and keys, plain
    objects, no [undefined]), and the text is then the reference serialisation:
    members sorted by UTF-16 code units at every depth, no white space. *)
Theorem canonical_form v text :
  canonicalizeJson v = Ok text ↔ jcs_ok v = true ∧ text = emit (normalize v).
Proof.
  split.
  - intros E. assert (jcs_ok v = true) as Hv by by rewrite <- canonicalizeJson_is_ok, E.
    split; [done|]. rewrite canonicalizeJson_emit in E by done. by injection E as <-.
  - intros [Hv ->]. by apply canonicalizeJson_emit.
Qed.

(** The serialisation does not depend on the order in which object members
    were inserted, at any depth; errors included. *)
Theorem canonical_order_insensitive v w :
  distinct_keys v → same_json v w → canonicalizeJson v = canonicalizeJson w.
Proof. intros Hd Hs. by apply canonicalizeJson_same. Qed.

Lemma canonical_order_insensitive_witness :
  let v := obj [(js "b", VArr [VNull]); (js "a", VBool true)] in
  let w := obj [(js "a", VBool true); (js "b", VArr [VNull])] in
  v ≠ w ∧ canonicalizeJson v = canonicalizeJson w ∧
  canonicalizeJson v = Ok (js "{" ++ json_string (js "a") ++ js ":true," ++
                           json_string (js "b") ++ js ":[null]}").
Proof.
  intros v w. split; [by vm_compute|]. split; [|by vm_compute].
  apply (canonical_order_insensitive v w).
  - repeat split; try done. cbn. eapply bool_decide_unpack. by vm_compute.
  - eapply same_obj; [|apply perm_swap].
    repeat constructor.
Defined.

End CanonicalFacts.

#[global] Arguments js : simpl never.
