(* ===== verification/Sha256.v ===== *)
(** SHA-256 (FIPS 180-4), executable: the instance of [Hasher] the witnesses and
    the conformance vectors evaluate.  The development's theorems are stated for
    any [Hasher]; this file shows that the assumptions on it can hold, and ties
    the model to the digests recorded in
    packages/protocol/conformance/fixtures/params-digest.json. *)

From S2P Require Import Prelude JsString JsValue Canonical.

Module Sha256.

Definition mask32 : Z := 0xffffffff.
Definition add32 (a b : Z) : Z := Z.land (a + b) mask32.
Definition rotr (x n : Z) : Z :=
  Z.lor (Z.shiftr x n) (Z.land (Z.shiftl x (32 - n)) mask32).
Definition not32 (x : Z) : Z := Z.lxor x mask32.

Definition Ch (x y z : Z) : Z := Z.lxor (Z.land x y) (Z.land (not32 x) z).
Definition Maj (x y z : Z) : Z :=
  Z.lxor (Z.lxor (Z.land x y) (Z.land x z)) (Z.land y z).
Definition Sigma0 (x : Z) : Z := Z.lxor (Z.lxor (rotr x 2) (rotr x 13)) (rotr x 22).
Definition Sigma1 (x : Z) : Z := Z.lxor (Z.lxor (rotr x 6) (rotr x 11)) (rotr x 25).
Definition sigma0 (x : Z) : Z := Z.lxor (Z.lxor (rotr x 7) (rotr x 18)) (Z.shiftr x 3).
Definition sigma1 (x : Z) : Z := Z.lxor (Z.lxor (rotr x 17) (rotr x 19)) (Z.shiftr x 10).

(** The constants are the first 32 bits of the fractional parts of roots of the
    first primes, and are computed as such: cube roots for the rounds, square
    roots for the initial state. *)

Definition is_prime (n : nat) : bool :=
  forallb (λ d, negb (n mod d =? 0)%nat) (seq 2 (n - 2)).

Definition primes (below : nat) : list Z :=
  map Z.of_nat (List.filter is_prime (seq 2 (below - 2))).

(** The largest [root] with [root ^ 3 <= x], bit by bit from bit [n]. *)
Fixpoint cube_root (n : nat) (root x : Z) : Z :=
  match n with
  | O => root
  | S n =>
      let next := root + 2 ^ Z.of_nat n in
      cube_root n (if next ^ 3 <=? x then next else root) x
  end.

Definition K : list Z :=
  Eval vm_compute in map (λ p, Z.land (cube_root 36 0 (p * 2 ^ 96)) mask32) (primes 312).

Definition H0 : list Z :=
  Eval vm_compute in map (λ p, Z.land (Z.sqrt (p * 2 ^ 64)) mask32) (primes 20).

(** Big-endian bytes of a [n]-byte word. *)
Fixpoint be_bytes (n : nat) (x : Z) : list Z :=
  match n with
  | O => []
  | S n => Z.land (Z.shiftr x (8 * Z.of_nat n)) 255 :: be_bytes n x
  end.

(** The message, a one bit, zeros, and the 64-bit length. *)
Definition pad (msg : list Z) : list Z :=
  let n := Z.of_nat (length msg) in
  let fill := Z.to_nat ((55 - n) mod 64) in
  msg ++ [0x80] ++ replicate fill 0 ++ be_bytes 8 (8 * n).

Fixpoint words (n : nat) (bs : list Z) : list Z :=
  match n, bs with
  | S n, a :: b :: c :: d :: bs =>
      (Z.shiftl a 24 + Z.shiftl b 16 + Z.shiftl c 8 + d) :: words n bs
  | _, _ => []
  end.

(** The sixteen words of a block, then the rest of the message schedule; the
    last sixteen words are kept reversed in [recent]. *)
Fixpoint schedule (n : nat) (recent : list Z) : list Z :=
  match n with
  | O => []
  | S n =>
      let w := add32 (add32 (sigma1 (nth 1 recent 0)) (nth 6 recent 0))
                     (add32 (sigma0 (nth 14 recent 0)) (nth 15 recent 0)) in
      w :: schedule n (w :: take 15 recent)
  end.

Definition message_schedule (block : list Z) : list Z :=
  let w := words 16 block in w ++ schedule 48 (reverse w).

Definition round (st : list Z) (kw : Z * Z) : list Z :=
  match st with
  | [a; b; c; d; e; f; g; h] =>
      let t1 := add32 (add32 (add32 h (Sigma1 e)) (Ch e f g)) (add32 kw.1 kw.2) in
      let t2 := add32 (Sigma0 a) (Maj a b c) in
      [add32 t1 t2; a; b; c; add32 d t1; e; f; g]
  | _ => st
  end.

Definition compress (h : list Z) (block : list Z) : list Z :=
  zip_with add32 h (foldl round h (zip K (message_schedule block))).

Fixpoint blocks (n : nat) (h : list Z) (bs : list Z) : list Z :=
  match n with
  | O => h
  | S n => blocks n (compress h (take 64 bs)) (drop 64 bs)
  end.

Definition hash_words (msg : list Z) : list Z :=
  let padded := pad msg in
  blocks (Nat.div (length padded) 64) H0 padded.

Definition hex_byte (b : Z) : jstr :=
  [hex_digit (Z.land (Z.shiftr b 4) 15); hex_digit (Z.land b 15)].

Definition hex (msg : list Z) : jstr :=
  (hash_words msg ≫= be_bytes 4) ≫= hex_byte.

#[global] Instance sha256 : Hasher := hex.

(** ** A digest has the shape the code expects *)

Lemma hex_digit_lower d : 0 <= d < 16 → is_lower_hex (hex_digit d) = true.
Proof.
  intros Hd. unfold is_lower_hex, is_digit, hex_digit.
  destruct (Z.ltb_spec d 10); rewrite ?orb_true_iff, ?andb_true_iff, ?Z.leb_le; lia.
Qed.

Lemma nibble_range x : 0 <= Z.land x 15 < 16.
Proof.
  change 15 with (Z.ones 4). rewrite Z.land_ones by lia.
  apply Z.mod_pos_bound. lia.
Qed.

Lemma hex_bytes_shape bs :
  length (bs ≫= hex_byte) = (2 * length bs)%nat ∧
  forallb is_lower_hex (bs ≫= hex_byte) = true.
Proof.
  induction bs as [|b bs [IH1 IH2]]; [done|]. rewrite bind_cons. unfold hex_byte at 1 3.
  cbn [app length forallb]. rewrite IH1, IH2. split; [lia|].
  rewrite !hex_digit_lower by apply nibble_range. done.
Qed.

Lemma round_length st kw : length st = 8%nat → length (round st kw) = 8%nat.
Proof.
  destruct st as [|a [|b [|c [|d [|e [|f [|g [|h [|]]]]]]]]]; cbn; lia.
Qed.

Lemma compress_length h block : length h = 8%nat → length (compress h block) = 8%nat.
Proof.
  intros Hh. unfold compress. rewrite length_zip_with.
  assert (∀ l st, length st = 8%nat → length (foldl round st l) = 8%nat) as Hf.
  { induction l as [|kw l IH]; cbn; [done|]. intros st Hst. apply IH. by apply round_length. }
  rewrite Hf, Hh; done.
Qed.

Lemma blocks_length n h bs : length h = 8%nat → length (blocks n h bs) = 8%nat.
Proof.
  revert h bs. induction n as [|n IH]; cbn; [done|].
  intros h bs Hh. apply IH. by apply compress_length.
Qed.

Lemma words_bytes ws : length (ws ≫= be_bytes 4) = (4 * length ws)%nat.
Proof. induction ws as [|w ws IH]; [done|]. rewrite bind_cons, length_app, IH. cbn. lia. Qed.

#[global] Instance sha256_ok : HasherOk sha256.
Proof.
  intros bs. unfold sha256_hex, sha256, hex.
  destruct (hex_bytes_shape (hash_words bs ≫= be_bytes 4)) as [Hl Hf].
  split; [|done]. rewrite Hl, words_bytes. unfold hash_words. by rewrite blocks_length.
Qed.

(** ** The conformance vectors of params-digest.json *)

Section vectors.
Import Canonical CanonicalFacts.

Example vector_property_order :
  makeParamsDigest (obj [(js "b", VNum (JInt 1)); (js "a", VNum (JInt 2))]) =
  Ok (js "sha256:d3626ac30a87e6f7a6428233b3c68299976865fa5508e4267c5415c76af7a772").
Proof. vm_compute. reflexivity. Qed.

Example vector_number_formatting :
  makeParamsDigest (obj [(js "z", VNum (JInt 0)); (js "tiny", VNum (JDec 1 27));
                         (js "n", VNum (JInt (10 ^ 30))); (js "m", VNum (JDec 45 1))]) =
  Ok (js "sha256:230e6e89166cd51849b56b9dcfc833a402e443cea0d41a565c546af3871f2144").
Proof. vm_compute. reflexivity. Qed.

Example vector_unicode_order :
  makeParamsDigest (obj [([0x20ac], VStr (js "euro")); ([0xd83d; 0xde00], VStr (js "emoji"));
                         ([0xe9], VStr (js "composed")); ([0x65; 0x301], VStr (js "decomposed"))]) =
  Ok (js "sha256:2544793b7b356740ca0939db9439bf57bd73181e0f73005080bc36d359d53c77").
Proof. vm_compute. reflexivity. Qed.

Example vector_escapes :
  makeParamsDigest (obj [(js "string",
    VStr (js "line" ++ [10] ++ js "quote" ++ [34] ++ js "slash" ++ [92] ++
          js "solidus/control" ++ [15]))]) =
  Ok (js "sha256:1102141e04f079b89f7f43dee0ecf3bc4ec15ce8b5b33bf3424519acd5e145a5").
Proof. vm_compute. reflexivity. Qed.

Example vector_rfc8785 :
  makeParamsDigest (obj [
    (js "numbers", VArr [VNum (JDec 3333333333333333 7); VNum (JInt (10 ^ 30));
                         VNum (JDec 45 1); VNum (JDec 2 3); VNum (JDec 1 27)]);
    (js "string", VStr ([0x20ac] ++ js "$" ++ [15; 10] ++ js "A'B" ++ [34; 92; 92; 34] ++ js "/"));
    (js "literals", VArr [VNull; VBool true; VBool false])]) =
  Ok (js "sha256:2d5e01a318d0f0879ab568c4be289c8b1f64ef8921a53c6277d5e069978baacb").
Proof. vm_compute. reflexivity. Qed.

(** The [batch_digest] of the [invoke_batch] envelope in envelopes.json. *)
Example vector_batch_digest :
  makeBatchDigest {|
    bdi_atomic := false;
    bdi_batch_id := js "0197a3c2-0000-7000-8000-000000000020";
    bdi_recovery_clearances := [];
    bdi_steps := [{|
      bds_invocation_id := js "0197a3c2-0000-7000-8000-000000000021";
      bds_method := js "inspect_schedules";
      bds_mutating := false;
      bds_mutation_scope := VNull;
      bds_params_digest := js "sha256:44136fa355b3678a1146ad16f7e8649e94fb4fc21fe77e8310c060f61caaff8a";
      bds_policy := {| bdp_class := js "auto"; bdp_confirmation_id := None;
                       bdp_decision := js "auto" |} |}];
    bdi_timeout_ms := JInt 120000 |} =
  Ok (js "sha256:1fc2059e586e0c429fd0793b31ca910f4f4188d87813e7cce102f0a2882b48ac").
Proof. vm_compute. reflexivity. Qed.

(** Numbers as the conformance vectors have them. *)
Definition vector_numbers : jsval :=
  VArr (map VNum [JDec 3333333333333333 7; JInt (10 ^ 30); JDec 45 1; JDec 2 3; JDec 1 27]).

Example vector_numbers_text :
  canonicalizeJson vector_numbers = Ok (js "[333333333.3333333,1e+30,4.5,0.002,1e-27]").
Proof. vm_compute. reflexivity. Qed.

Lemma digest_identifies_value_witness :
  let v := obj [(js "b", vector_numbers); (js "a", VNum (JInt 2))] in
  let w := obj [(js "a", VNum (JInt 2)); (js "b", vector_numbers)] in
  let u := obj [(js "a", VNum (JInt 2)); (js "b", VNum (JDec 2 3))] in
  makeJsonDigest v = makeJsonDigest w ∧ makeJsonDigest v ≠ makeJsonDigest u ∧
  ∃ d, makeJsonDigest v = Ok d ∧ sha256_pattern d = true.
Proof.
  intros v w u.
  assert (collision_free v w) as Hcf by by (intros _; vm_compute).
  assert (collision_free v u) as Hcu.
  { intros Hx. exfalso. revert Hx. refine (proj1 (bool_decide_eq_false _) _). vm_compute. reflexivity. }
  destruct (digest_identifies_value v w) as [[_ Hsame] Hd]; [by vm_compute|by vm_compute|exact Hcf|].
  destruct (digest_identifies_value v u) as [[Hdiff _] _]; [by vm_compute|by vm_compute|exact Hcu|].
  split; [apply Hsame; vm_compute; reflexivity|]. split; [|exact Hd].
  intros Hx%Hdiff. revert Hx. vm_compute. discriminate.
Defined.

End vectors.
End Sha256.
