(* ===== verification/JsonText.v ===== *)
(** The parts of the platform that read text: [JSON.parse], the decoder of UTF-8,
    and the arithmetic of numbers they need.

    [JSON.parse] is a recursive descent parser on code units.  It first reads a
    raw value that keeps every member of an object, repeated keys too; of those
    [JSON.parse] keeps the last value. *)

From stdpp Require Import pretty.
From S2P Require Import Prelude JsString JsValue Numerals Canonical.

(** * Numbers *)

(** Rounding to binary64: the number nearest to [m * 10^e], and addition. *)
Class Float64 := { numeral_value : Z → Z → jsnum; num_add : jsnum → jsnum → jsnum }.

(** Both are exact on the safe integers. *)
Class Float64Ok (F : Float64) : Prop := {
  numeral_safe z : - MAX_SAFE_INTEGER <= z <= MAX_SAFE_INTEGER → numeral_value z 0 = JInt z;
  num_add_safe a b : - MAX_SAFE_INTEGER <= a <= MAX_SAFE_INTEGER → - MAX_SAFE_INTEGER <= b <= MAX_SAFE_INTEGER →
    - MAX_SAFE_INTEGER <= a + b <= MAX_SAFE_INTEGER → num_add (JInt a) (JInt b) = JInt (a + b) }.

Module JsonText.
Import Canonical.

(** ** Lexical parts *)

Definition json_ws (c : Z) : bool := (c =? 32) || (c =? 9) || (c =? 10) || (c =? 13).

Fixpoint skip (ws : Z → bool) (s : jstr) : jstr :=
  match s with
  | c :: s' => if ws c then skip ws s' else s
  | [] => []
  end.

Definition hex_value (c : Z) : option Z :=
  if is_digit c then Some (c - 48)
  else if (97 <=? c) && (c <=? 102) then Some (c - 87)
  else if (65 <=? c) && (c <=? 70) then Some (c - 55)
  else None.

(** The character after a backslash, [\u] apart. *)
Definition simple_escape (e : Z) : option Z :=
  if (e =? 34) || (e =? 92) || (e =? 47) then Some e
  else if e =? 98 then Some 8
  else if e =? 102 then Some 12
  else if e =? 110 then Some 10
  else if e =? 114 then Some 13
  else if e =? 116 then Some 9
  else None.

Definition hex4 (a b c d : Z) : option Z :=
  a ← hex_value a; b ← hex_value b; c ← hex_value c; d ← hex_value d;
  Some (a * 4096 + b * 256 + c * 16 + d).

(** The characters of a string literal up to and past the closing quote. *)
Fixpoint json_chars (s : jstr) : option (jstr * jstr) :=
  match s with
  | [] => None
  | c :: s =>
      if c =? 34 then Some ([], s)
      else if c =? 92 then
        match s with
        | [] => None
        | e :: s =>
            if e =? 117 then
              match s with
              | a :: b :: c :: d :: s =>
                  u ← hex4 a b c d; '(us, r) ← json_chars s; Some (u :: us, r)
              | _ => None
              end
            else u ← simple_escape e; '(us, r) ← json_chars s; Some (u :: us, r)
        end
      else if c <? 32 then None
      else '(us, r) ← json_chars s; Some (c :: us, r)
  end.

Fixpoint digits (s : jstr) : jstr * jstr :=
  match s with
  | c :: s' => if is_digit c then let '(ds, r) := digits s' in (c :: ds, r) else ([], s)
  | [] => ([], [])
  end.

Definition digits_value (ds : jstr) : Z := foldl (λ n d, 10 * n + (d - 48)) 0 ds.

Definition unsigned (s : jstr) : bool * jstr :=
  match s with
  | c :: s' => if c =? 45 then (true, s') else (false, s)
  | [] => (false, [])
  end.

(** [.digits], if any *)
Definition fraction (s : jstr) : option (jstr * jstr) :=
  match s with
  | c :: s' =>
      if c =? 46 then match digits s' with ([], _) => None | (ds, r) => Some (ds, r) end
      else Some ([], s)
  | [] => Some ([], [])
  end.

(** [e], a sign and digits, if any *)
Definition exponent (s : jstr) : option (Z * jstr) :=
  match s with
  | c :: s' =>
      if (c =? 101) || (c =? 69) then
        let '(neg, s'') :=
          match s' with
          | d :: s'' => if d =? 43 then (false, s'') else unsigned s'
          | [] => (false, [])
          end in
        match digits s'' with
        | ([], _) => None
        | (ds, r) => Some (if neg : bool then - digits_value ds else digits_value ds, r)
        end
      else Some (0, s)
  | [] => Some (0, [])
  end.

Section parse.
Context `{Float64}.

Definition json_number (s : jstr) : option (jsval * jstr) :=
  let '(neg, s1) := unsigned s in
  let '(whole, s2) := digits s1 in
  match whole with
  | [] => None
  | d :: more =>
      if (d =? 48) && negb (length more =? 0)%nat then None else
      '(frac, s3) ← fraction s2;
      '(e, s4) ← exponent s3;
      let m := digits_value (whole ++ frac) in
      Some (VNum (numeral_value (if neg : bool then - m else m) (e - Z.of_nat (length frac))), s4)
  end.

Definition json_scalar (s : jstr) : option (jsval * jstr) :=
  if starts_with (js "null") s then Some (VNull, drop 4 s)
  else if starts_with (js "true") s then Some (VBool true, drop 4 s)
  else if starts_with (js "false") s then Some (VBool false, drop 5 s)
  else json_number s.

(** ** Values *)

(** A value at the head of the text; the members of an object from a key on; the
    items of an array from a value on.  [fuel] bounds the calls. *)
Fixpoint json_value (fuel : nat) (s : jstr) : option (jsval * jstr) :=
  match fuel, s with
  | S fuel, c :: r =>
      if c =? 123 then
        match skip json_ws r with
        | [] => None
        | d :: r' =>
            if d =? 125 then Some (obj [], r')
            else '(ms, r'') ← json_members fuel (d :: r'); Some (obj ms, r'')
        end
      else if c =? 91 then
        match skip json_ws r with
        | [] => None
        | d :: r' =>
            if d =? 93 then Some (VArr [], r')
            else '(vs, r'') ← json_items fuel (d :: r'); Some (VArr vs, r'')
        end
      else if c =? 34 then '(us, r') ← json_chars r; Some (VStr us, r')
      else json_scalar s
  | _, _ => None
  end
with json_members (fuel : nat) (s : jstr) : option (list (jstr * jsval) * jstr) :=
  match fuel, s with
  | S fuel, c :: r =>
      if c =? 34 then
        '(key, r1) ← json_chars r;
        match skip json_ws r1 with
        | [] => None
        | d :: r2 =>
            if d =? 58 then
              '(v, r3) ← json_value fuel (skip json_ws r2);
              match skip json_ws r3 with
              | [] => None
              | d :: r4 =>
                  if d =? 125 then Some ([(key, v)], r4)
                  else if d =? 44
                  then '(ms, r5) ← json_members fuel (skip json_ws r4); Some ((key, v) :: ms, r5)
                  else None
              end
            else None
        end
      else None
  | _, _ => None
  end
with json_items (fuel : nat) (s : jstr) : option (list jsval * jstr) :=
  match fuel with
  | S fuel =>
      '(v, r3) ← json_value fuel s;
      match skip json_ws r3 with
      | [] => None
      | d :: r4 =>
          if d =? 93 then Some ([v], r4)
          else if d =? 44
          then '(vs, r5) ← json_items fuel (skip json_ws r4); Some (v :: vs, r5)
          else None
      end
  | O => None
  end.

(** Two calls per character are enough. *)
Definition json_fuel (s : jstr) : nat := S (S (2 * length s)).

(** The raw value of a whole text. *)
Definition json_raw (text : jstr) : option jsval :=
  '(v, r) ← json_value (json_fuel text) (skip json_ws text);
  if skip json_ws r === [] then Some v else None.

(** Of members with one key the object has the last value, at the first place. *)
Fixpoint set_member (ms : list (jstr * jsval)) (k : jstr) (v : jsval) : list (jstr * jsval) :=
  match ms with
  | [] => [(k, v)]
  | (k', v') :: ms => if k' === k then (k', v) :: ms else (k', v') :: set_member ms k v
  end.

Fixpoint last_members (v : jsval) : jsval :=
  match v with
  | VArr items => VArr (map last_members items)
  | VObj sh ms => VObj sh (foldl (λ acc m, set_member acc m.1 m.2) [] (map (λ m, (m.1, last_members m.2)) ms))
  | _ => v
  end.

(** [JSON.parse(text)]; [None] is a [SyntaxError]. *)
Definition json_parse (text : jstr) : option jsval := last_members <$> json_raw text.

End parse.

(** ** [JSON.stringify] *)

Definition escape_surrogate (u : Z) : jstr :=
  js "\u" ++ map hex_digit [u / 4096; u / 256 mod 16; u / 16 mod 16; u mod 16].

(** The characters of a string; a surrogate without its partner is escaped. *)
Fixpoint quote_units (s : jstr) : jstr :=
  match s with
  | [] => []
  | u :: s' =>
      if is_high_surrogate u then
        match s' with
        | v :: s'' =>
            if is_low_surrogate v then u :: v :: quote_units s'' else escape_surrogate u ++ quote_units s'
        | [] => escape_surrogate u
        end
      else if is_low_surrogate u then escape_surrogate u ++ quote_units s'
      else escape_unit u ++ quote_units s'
  end.

Definition stringify_text (s : jstr) : jstr := [34] ++ quote_units s ++ [34].

(** The text of null, booleans, finite numbers, strings and of arrays and plain
    objects of such values. *)
Fixpoint json_stringify (v : jsval) : jstr :=
  match v with
  | VNull => js "null"
  | VBool b => if b then js "true" else js "false"
  | VNum n => num_to_string n
  | VStr s => stringify_text s
  | VArr items => js "[" ++ join (js ",") (map json_stringify items) ++ js "]"
  | VObj _ members =>
      js "{" ++ join (js ",") (map (λ km, stringify_text km.1 ++ js ":" ++ json_stringify km.2) members) ++ js "}"
  | VUndefined | VOther _ => []
  end.

(** ** UTF-8 *)

(** [TextDecoder] with [fatal]: the code points must be the ones whose encoding
    was read (no overlong forms, no surrogates). *)
Fixpoint utf8_points (fuel : nat) (bs : list Z) : option (list Z) :=
  match bs, fuel with
  | [], _ => Some []
  | _ :: _, O => None
  | _ :: _, S fuel =>
      '(c, r) ← utf8_uncons bs;
      if (0 <=? c) && (c <? 0x110000) && negb ((0xd800 <=? c) && (c <=? 0xdfff)) &&
         (utf8_point c === take (length bs - length r) bs)
      then cs ← utf8_points fuel r; Some (c :: cs)
      else None
  end.

Definition utf8_decode (bs : list Z) : option jstr :=
  cs ← utf8_points (length bs) bs; Some (cs ≫= utf16_point).

End JsonText.

(** * Facts *)

Module JsonTextFacts.
Import Canonical CanonicalFacts JsonText.

(** ** Lexical parts consume text *)

Lemma skip_length ws s : (length (skip ws s) <= length s)%nat.
Proof. induction s as [|c s IH]; cbn; [done|]. destruct (ws c); cbn; lia. Qed.

Lemma skip_cons ws s c r : skip ws s = c :: r → (length r < length s)%nat.
Proof. intros E. pose proof (skip_length ws s) as Hl. rewrite E in Hl. cbn in Hl. lia. Qed.

(** One step of a string literal: a plain character or an escape. *)
Inductive literal_char : jstr → Z → jstr → Prop :=
| char_plain c s : c ≠ 34 → c ≠ 92 → 32 <= c → literal_char (c :: s) c s
| char_escape e s u : e ≠ 117 → simple_escape e = Some u → literal_char (92 :: e :: s) u s
| char_unicode a b c d s u : hex4 a b c d = Some u → literal_char (92 :: 117 :: a :: b :: c :: d :: s) u s.

Inductive literal_chars : jstr → jstr → jstr → Prop :=
| chars_end s : literal_chars (34 :: s) [] s
| chars_char s u s' us r : literal_char s u s' → literal_chars s' us r → literal_chars s (u :: us) r.

Lemma literal_char_length s u s' : literal_char s u s' → (length s' < length s)%nat.
Proof. by destruct 1; cbn; lia. Qed.

Lemma literal_chars_length s us r : literal_chars s us r → (length r < length s)%nat.
Proof. induction 1 as [s|s u s' us r Hc _ IH]; [cbn; lia|]. apply literal_char_length in Hc. lia. Qed.

Lemma json_chars_unfold s u s' : literal_char s u s' →
  json_chars s = '(us, r) ← json_chars s'; Some (u :: us, r).
Proof.
  destruct 1 as [c s H1 H2 H3|e s u H1 H2|a b c d s u H1]; cbn.
  - by rewrite (proj2 (Z.eqb_neq c 34)), (proj2 (Z.eqb_neq c 92)), (proj2 (Z.ltb_ge c 32)) by done.
  - by rewrite (proj2 (Z.eqb_neq e 117)), H2 by done.
  - by rewrite H1.
Qed.

Lemma json_chars_spec s us r : json_chars s = Some (us, r) ↔ literal_chars s us r.
Proof.
  split.
  - revert us. remember (length s) as n eqn:Hn. revert s Hn.
    induction (Nat.lt_wf_0 n) as [n _ IH]; intros s -> us.
    destruct s as [|c s]; [done|]. cbn [json_chars]. destruct (Z.eqb_spec c 34) as [-> | Hc34].
    { intros [= <- <-]. constructor. }
    destruct (Z.eqb_spec c 92) as [-> | Hc92].
    + destruct s as [|e s]; [done|]. destruct (Z.eqb_spec e 117) as [-> | He].
      * destruct s as [|a [|b [|c [|d s]]]]; try done. destruct (hex4 a b c d) as [u|] eqn:Eu; [|done]. cbn.
        destruct (json_chars s) as [[us' r']|] eqn:Er; [|done]. intros [= <- <-].
        econstructor; [by constructor|]. eapply IH; [|done|done]. cbn; lia.
      * destruct (simple_escape e) as [u|] eqn:Eu; [|done]. cbn.
        destruct (json_chars s) as [[us' r']|] eqn:Er; [|done]. intros [= <- <-].
        econstructor; [by constructor|]. eapply IH; [|done|done]. cbn; lia.
    + destruct (Z.ltb_spec c 32) as [|Hge]; [done|].
      destruct (json_chars s) as [[us' r']|] eqn:Er; [|done]. intros [= <- <-].
      econstructor; [by constructor|]. eapply IH; [|done|done]. cbn; lia.
  - induction 1 as [s|s u s' us r Hc _ IH]; [done|]. by rewrite (json_chars_unfold _ _ _ Hc), IH.
Qed.

(** Scalars are read by taking characters that end no token. *)
Definition token_char (c : Z) : bool := negb (js_whitespace c || (c =? 44) || (c =? 125) || (c =? 93)).

Lemma digits_spec s ds r : digits s = (ds, r) → s = ds ++ r ∧ forallb is_digit ds = true.
Proof.
  revert ds. induction s as [|c s IH]; intros ds; cbn; [by intros [= <- <-]|].
  destruct (is_digit c) eqn:Ec; [|by intros [= <- <-]].
  destruct (digits s) as [ds' r'] eqn:Ed. intros [= <- <-]. destruct (IH ds' eq_refl) as [-> Hd].
  cbn. by rewrite Ec, Hd.
Qed.

Lemma digit_token ds : forallb is_digit ds = true → forallb token_char ds = true.
Proof.
  rewrite !forallb_true. intros Hd x Hx. specialize (Hd x Hx). unfold is_digit in Hd. bsimp.
  unfold token_char, js_whitespace. apply negb_true_iff. rewrite !orb_false_iff, !andb_false_iff.
  rewrite !Z.eqb_neq, !Z.leb_gt. lia.
Qed.

(** A reader takes token characters off the text. *)
Definition takes (s r : jstr) : Prop := ∃ tok, s = tok ++ r ∧ forallb token_char tok = true.

Lemma takes_refl s : takes s s.
Proof. by exists []. Qed.

Lemma takes_app tok s r : forallb token_char tok = true → takes s r → takes (tok ++ s) r.
Proof.
  intros Ht (tok' & -> & Ht'). exists (tok ++ tok'). rewrite app_assoc, forallb_app, Ht, Ht'. done.
Qed.

Lemma takes_cons c s r : token_char c = true → takes s r → takes (c :: s) r.
Proof. intros Hc. apply (takes_app [c]). cbn. by rewrite Hc. Qed.

Lemma digits_takes s ds r : digits s = (ds, r) → takes s r.
Proof. intros (-> & Hd)%digits_spec. apply takes_app; [by apply digit_token|apply takes_refl]. Qed.

Lemma takes_trans s t r : takes s t → takes t r → takes s r.
Proof. intros (tok & -> & Ht) Htr. by apply takes_app. Qed.

Lemma unsigned_takes s b r : unsigned s = (b, r) → takes s r.
Proof.
  unfold unsigned. destruct s as [|c s]; [intros [= _ <-]; apply takes_refl|].
  destruct (Z.eqb_spec c 45) as [-> | Hc]; intros [= _ <-]; [|apply takes_refl].
  apply takes_cons; [done|apply takes_refl].
Qed.

Lemma fraction_takes s ds r : fraction s = Some (ds, r) → takes s r.
Proof.
  unfold fraction. destruct s as [|c s]; [intros [= _ <-]; apply takes_refl|].
  destruct (Z.eqb_spec c 46) as [-> | Hc]; [|intros [= _ <-]; apply takes_refl].
  destruct (digits s) as [[|d ds'] r'] eqn:Ed; [done|]. intros [= _ <-].
  apply takes_cons; [done|by eapply digits_takes].
Qed.

Lemma exponent_takes s e r : exponent s = Some (e, r) → takes s r.
Proof.
  unfold exponent. destruct s as [|c s]; [intros [= _ <-]; apply takes_refl|].
  destruct ((c =? 101) || (c =? 69)) eqn:Ec; [|intros [= _ <-]; apply takes_refl].
  destruct (match s with [] => _ | _ :: _ => _ end) as [neg s''] eqn:Es.
  destruct (digits s'') as [[|d ds'] r'] eqn:Ed; [done|]. intros [= _ <-].
  apply takes_cons; [apply orb_true_iff in Ec as [->%Z.eqb_eq | ->%Z.eqb_eq]; done|].
  eapply takes_trans; [|by eapply digits_takes].
  destruct s as [|d0 s0]; [injection Es as _ <-; apply takes_refl|].
  destruct (Z.eqb_spec d0 43) as [-> | ?]; [|by eapply unsigned_takes].
  injection Es as _ <-. apply takes_cons; [done|apply takes_refl].
Qed.

Section values.
Context `{Float64}.

Lemma json_number_takes s v r : json_number s = Some (v, r) → takes s r ∧ s ≠ r.
Proof.
  unfold json_number. destruct (unsigned s) as [neg s1] eqn:E1. destruct (digits s1) as [[|d more] s2] eqn:E2; [done|].
  destruct (_ && _); [done|]. destruct (fraction s2) as [[frac s3]|] eqn:E3; [|done]. cbn.
  destruct (exponent s3) as [[e s4]|] eqn:E4; [|done]. cbn. intros [= _ <-].
  pose proof (digits_spec _ _ _ E2) as [Es1 _]. apply unsigned_takes in E1. apply digits_takes in E2.
  apply fraction_takes in E3. apply exponent_takes in E4. split.
  { eapply takes_trans; [exact E1|]. eapply takes_trans; [exact E2|]. eapply takes_trans; [exact E3|exact E4]. }
  intros ->. destruct E1 as (t1 & Et1 & _), E3 as (t3 & Et3 & _), E4 as (t4 & Et4 & _).
  apply (f_equal length) in Es1, Et1, Et3, Et4. rewrite ?length_app in Es1, Et1, Et3, Et4. cbn in Es1. lia.
Qed.

(** What the scanner sees of a scalar: a token, then whatever follows. *)
Lemma json_scalar_takes s v r : json_scalar s = Some (v, r) → takes s r ∧ s ≠ r.
Proof.
  unfold json_scalar. repeat (destruct (starts_with _ s) eqn:E; [|clear E]); [..|apply json_number_takes];
    intros [= _ <-]; apply starts_with_true in E as [t ->];
    (split; [apply takes_app; [done|apply takes_refl]|intros E%(f_equal length); rewrite length_drop, length_app in E; cbn [length js] in E; set (n := length (js _)) in E; vm_compute in n; subst n; lia]).
Qed.

(** A scalar is neither an object nor an array. *)
Definition is_scalar (v : jsval) : bool :=
  match v with VArr _ | VObj _ _ | VUndefined | VOther _ => false | _ => true end.

Lemma json_number_value s v r : json_number s = Some (v, r) → is_scalar v = true ∧ distinct_keys v.
Proof.
  unfold json_number. destruct (unsigned s) as [neg s1]. destruct (digits s1) as [[|d more] s2]; [done|].
  destruct (_ && _); [done|]. destruct (fraction s2) as [[frac s3]|]; [|done]. cbn.
  destruct (exponent s3) as [[e s4]|]; [|done]. cbn. by intros [= <- _].
Qed.

Lemma json_scalar_value s v r : json_scalar s = Some (v, r) → is_scalar v = true ∧ distinct_keys v.
Proof.
  unfold json_scalar. repeat (destruct (starts_with _ s); [by intros [= <- _]|]). apply json_number_value.
Qed.

(** ** The grammar *)

(** [reads s v r]: the text [s] starts with the value [v], and [r] is left. *)
Inductive reads : jstr → jsval → jstr → Prop :=
| reads_empty_object r r' : skip json_ws r = 125 :: r' → reads (123 :: r) (obj []) r'
| reads_object r ms r' : reads_members (skip json_ws r) ms r' → reads (123 :: r) (obj ms) r'
| reads_empty_array r r' : skip json_ws r = 93 :: r' → reads (91 :: r) (VArr []) r'
| reads_array r vs r' :
    hd 0 (skip json_ws r) ≠ 93 → reads_items (skip json_ws r) vs r' → reads (91 :: r) (VArr vs) r'
| reads_string r us r' : json_chars r = Some (us, r') → reads (34 :: r) (VStr us) r'
| reads_scalar c s v r :
    c ≠ 123 → c ≠ 91 → c ≠ 34 → json_scalar (c :: s) = Some (v, r) → reads (c :: s) v r
with reads_members : jstr → list (jstr * jsval) → jstr → Prop :=
| reads_last_member r key r1 r2 v r3 r4 :
    json_chars r = Some (key, r1) → skip json_ws r1 = 58 :: r2 → reads (skip json_ws r2) v r3 →
    skip json_ws r3 = 125 :: r4 → reads_members (34 :: r) [(key, v)] r4
| reads_member r key r1 r2 v r3 r4 ms r5 :
    json_chars r = Some (key, r1) → skip json_ws r1 = 58 :: r2 → reads (skip json_ws r2) v r3 →
    skip json_ws r3 = 44 :: r4 → reads_members (skip json_ws r4) ms r5 →
    reads_members (34 :: r) ((key, v) :: ms) r5
with reads_items : jstr → list jsval → jstr → Prop :=
| reads_last_item s v r3 r4 : reads s v r3 → skip json_ws r3 = 93 :: r4 → reads_items s [v] r4
| reads_item s v r3 r4 vs r5 :
    reads s v r3 → skip json_ws r3 = 44 :: r4 → reads_items (skip json_ws r4) vs r5 →
    reads_items s (v :: vs) r5.

Scheme reads_ind' := Induction for reads Sort Prop
  with reads_members_ind' := Induction for reads_members Sort Prop
  with reads_items_ind' := Induction for reads_items Sort Prop.
Combined Scheme reads_mutind from reads_ind', reads_members_ind', reads_items_ind'.

(** ** The parser implements the grammar *)

Lemma parser_sound fuel :
  (∀ s v r, json_value fuel s = Some (v, r) → reads s v r) ∧
  (∀ s ms r, json_members fuel s = Some (ms, r) → reads_members s ms r) ∧
  (∀ s vs r, json_items fuel s = Some (vs, r) → reads_items s vs r).
Proof.
  induction fuel as [|fuel (IHv & IHm & IHi)]; [done|]. split; [|split].
  - intros [|c s] v r; [done|]. cbn [json_value].
    destruct (Z.eqb_spec c 123) as [-> | H1].
    { destruct (skip json_ws s) as [|d r'] eqn:Es; [done|]. destruct (Z.eqb_spec d 125) as [-> | Hd].
      - intros [= <- <-]. by constructor.
      - destruct (json_members fuel (d :: r')) as [[ms r'']|] eqn:Em; [|done]. intros [= <- <-].
        constructor. rewrite Es. by apply IHm. }
    destruct (Z.eqb_spec c 91) as [-> | H2].
    { destruct (skip json_ws s) as [|d r'] eqn:Es; [done|]. destruct (Z.eqb_spec d 93) as [-> | Hd].
      - intros [= <- <-]. by constructor.
      - destruct (json_items fuel (d :: r')) as [[vs r'']|] eqn:Em; [|done]. intros [= <- <-].
        constructor; rewrite Es; [done|by apply IHi]. }
    destruct (Z.eqb_spec c 34) as [-> | H3]; [|by constructor].
    destruct (json_chars s) as [[us r']|] eqn:Es; [|done]. intros [= <- <-]. by constructor.
  - intros [|c s] ms r; [done|]. cbn [json_members]. destruct (Z.eqb_spec c 34) as [-> | ?]; [|done].
    destruct (json_chars s) as [[key r1]|] eqn:E1; [|done]. cbn.
    destruct (skip json_ws r1) as [|d r2] eqn:E2; [done|]. destruct (Z.eqb_spec d 58) as [-> | ?]; [|done].
    destruct (json_value fuel (skip json_ws r2)) as [[v r3]|] eqn:E3; [|done]. cbn.
    destruct (skip json_ws r3) as [|d r4] eqn:E4; [done|]. destruct (Z.eqb_spec d 125) as [-> | ?].
    { intros [= <- <-]. econstructor; eauto. }
    destruct (Z.eqb_spec d 44) as [-> | ?]; [|done].
    destruct (json_members fuel (skip json_ws r4)) as [[ms' r5]|] eqn:E5; [|done]. intros [= <- <-].
    eapply reads_member; eauto.
  - intros s vs r. cbn [json_items]. destruct (json_value fuel s) as [[v r3]|] eqn:E3; [|done]. cbn.
    destruct (skip json_ws r3) as [|d r4] eqn:E4; [done|]. destruct (Z.eqb_spec d 93) as [-> | ?].
    { intros [= <- <-]. econstructor; eauto. }
    destruct (Z.eqb_spec d 44) as [-> | ?]; [|done].
    destruct (json_items fuel (skip json_ws r4)) as [[vs' r5]|] eqn:E5; [|done]. intros [= <- <-].
    eapply reads_item; eauto.
Qed.

(** Values and lists consume text. *)
Lemma reads_length :
  (∀ s v r, reads s v r → (length r < length s)%nat) ∧
  (∀ s ms r, reads_members s ms r → (length r < length s)%nat) ∧
  (∀ s vs r, reads_items s vs r → (length r < length s)%nat).
Proof.
  apply reads_mutind; intros;
    repeat match goal with
    | E : skip ?ws ?s = _ :: _ |- _ => apply skip_cons in E
    | E : json_chars ?s = Some _ |- _ => apply json_chars_spec, literal_chars_length in E
    | H : context [length (skip ?ws ?s)] |- _ =>
        lazymatch goal with
        | _ : (length (skip ws s) <= length s)%nat |- _ => fail
        | _ => pose proof (skip_length ws s)
        end
    end; cbn in *; try lia.
  match goal with E : json_scalar _ = Some _ |- _ => apply json_scalar_takes in E as [(tok & Et & _) Hne] end.
  destruct tok as [|x tok]; [done|]. apply (f_equal length) in Et. rewrite length_app in Et. cbn in Et. lia.
Qed.

(** With two calls per character the parser finds what the grammar allows. *)
Lemma parser_complete :
  (∀ s v r, reads s v r → ∀ g, (2 * length s + 1 <= g)%nat → json_value g s = Some (v, r)) ∧
  (∀ s ms r, reads_members s ms r → ∀ g, (2 * length s + 2 <= g)%nat → json_members g s = Some (ms, r)) ∧
  (∀ s vs r, reads_items s vs r → ∀ g, (2 * length s + 2 <= g)%nat → json_items g s = Some (vs, r)).
Proof.
  assert (∀ ws s c r, skip ws s = c :: r → (length (c :: r) <= length s)%nat) as Hskip.
  { intros ws s c r <-. apply skip_length. }
  apply reads_mutind.
  - intros r r' E g Hg. destruct g as [|g]; [lia|]. cbn [json_value]. by rewrite E.
  - intros r ms r' Hm IH g Hg. destruct g as [|g]; [lia|]. cbn [json_value].
    assert (∃ x, skip json_ws r = 34 :: x) as [x Ex] by (inversion Hm; eauto).
    pose proof (Hskip _ _ _ _ Ex) as Hl. rewrite Ex in *. cbn [Z.eqb].
    rewrite IH by (cbn in *; lia). done.
  - intros r r' E g Hg. destruct g as [|g]; [lia|]. cbn [json_value]. by rewrite E.
  - intros r vs r' Hd Hi IH g Hg. destruct g as [|g]; [lia|]. cbn [json_value].
    destruct (skip json_ws r) as [|d x] eqn:Ex.
    { inversion Hi; subst; match goal with Hr : reads [] _ _ |- _ => inversion Hr end. }
    pose proof (Hskip _ _ _ _ Ex) as Hl. cbn in Hd. rewrite (proj2 (Z.eqb_neq d 93)) by done.
    cbn [Z.eqb]. rewrite IH by (cbn in *; lia). done.
  - intros r us r' E g Hg. destruct g as [|g]; [lia|]. cbn. by rewrite E.
  - intros c s v r H1 H2 H3 E g Hg. destruct g as [|g]; [lia|]. cbn [json_value].
    by rewrite (proj2 (Z.eqb_neq c 123)), (proj2 (Z.eqb_neq c 91)), (proj2 (Z.eqb_neq c 34)) by done.
  - intros r key r1 r2 v r3 r4 E1 E2 Hv IH E4 g Hg. destruct g as [|g]; [lia|]. cbn [json_members Z.eqb].
    pose proof E1 as L1%json_chars_spec%literal_chars_length. pose proof (skip_cons _ _ _ _ E2) as L2.
    pose proof (skip_length json_ws r2) as L3. cbn in Hg.
    rewrite E1. cbn [mbind option_bind]. rewrite E2. cbn [Z.eqb]. rewrite IH by lia. cbn [mbind option_bind].
    by rewrite E4.
  - intros r key r1 r2 v r3 r4 ms r5 E1 E2 Hv IH E4 Hm IHm g Hg. destruct g as [|g]; [lia|]. cbn [json_members Z.eqb].
    pose proof E1 as L1%json_chars_spec%literal_chars_length. pose proof (skip_cons _ _ _ _ E2) as L2.
    pose proof (skip_length json_ws r2) as L3. pose proof (proj1 reads_length _ _ _ Hv) as L4.
    pose proof (skip_cons _ _ _ _ E4) as L5. pose proof (skip_length json_ws r4) as L6. cbn in Hg.
    rewrite E1. cbn [mbind option_bind]. rewrite E2. cbn [Z.eqb]. rewrite IH by lia. cbn [mbind option_bind].
    rewrite E4. cbn [Z.eqb]. by rewrite IHm by lia.
  - intros s v r3 r4 Hv IH E4 g Hg. destruct g as [|g]; [lia|]. cbn [json_items].
    rewrite IH by lia. cbn [mbind option_bind]. by rewrite E4.
  - intros s v r3 r4 vs r5 Hv IH E4 Hi IHi g Hg. destruct g as [|g]; [lia|]. cbn [json_items].
    pose proof (proj1 reads_length _ _ _ Hv) as L4. pose proof (skip_cons _ _ _ _ E4) as L5.
    pose proof (skip_length json_ws r4) as L6.
    rewrite IH by lia. cbn [mbind option_bind]. rewrite E4. cbn [Z.eqb]. by rewrite IHi by lia.
Qed.

(** The raw value of a text, by the grammar. *)
Lemma json_raw_spec text v :
  json_raw text = Some v ↔ ∃ r, reads (skip json_ws text) v r ∧ skip json_ws r = [].
Proof.
  unfold json_raw. split.
  - destruct (json_value _ _) as [[v' r]|] eqn:E; [|done]. cbn. destruct (bool_decide _) eqn:Er; [|done].
    intros [= <-]. bsimp. exists r. split; [by eapply parser_sound|done].
  - intros (r & Hr & E). rewrite (proj1 parser_complete _ _ _ Hr).
    + cbn. by rewrite E.
    + unfold json_fuel. pose proof (skip_length json_ws text). lia.
Qed.

(** ** Reading what was printed *)

Lemma digit_step n s : (n < 10)%N → js (String (pretty_N_char n) s) = (48 + Z.of_N n) :: js s.
Proof.
  intros Hn. destruct n as [|p]; [done|]. do 4 (try destruct p as [p|p|]); try done; lia.
Qed.

Lemma pretty_go_value x s :
  digits_value (js (pretty_N_go x s)) = foldl (λ n d, 10 * n + (d - 48)) (Z.of_N x) (js s).
Proof.
  revert s. induction (N.lt_wf_0 x) as [x _ IH]; intros s.
  destruct (decide (x = 0)%N) as [-> | Hx]; [done|]. rewrite pretty_N_go_step by lia.
  rewrite IH by (apply N.div_lt; lia). rewrite digit_step by (apply N.mod_lt; lia). cbn [foldl]. f_equal.
  pose proof (N.div_mod x 10) as E. lia.
Qed.

(** The digits of a positive number, the first of them not zero. *)
Lemma pretty_go_digits x s :
  forallb is_digit (js s) = true → (0 < x)%N →
  ∃ d ds, js (pretty_N_go x s) = d :: ds ∧ d ≠ 48 ∧ forallb is_digit (d :: ds) = true.
Proof.
  revert s. induction (N.lt_wf_0 x) as [x _ IH]; intros s Hs Hx. rewrite pretty_N_go_step by lia.
  assert (x `mod` 10 < 10)%N as Hm by (apply N.mod_lt; lia).
  assert (forallb is_digit (js (String (pretty_N_char (x `mod` 10)) s)) = true) as Hs'.
  { rewrite digit_step by done. cbn [forallb]. rewrite Hs, andb_true_r. unfold is_digit.
    revert Hm. generalize (x `mod` 10)%N. intros m Hm. apply andb_true_iff. rewrite !Z.leb_le. lia. }
  destruct (decide (x `div` 10 = 0)%N) as [E | E].
  - rewrite E, pretty_N_go_0. rewrite digit_step in * by done. eexists _, _. split; [done|]. split; [|done].
    assert (x `mod` 10 = x)%N as -> by (apply N.mod_small; by apply N.div_small_iff). lia.
  - apply IH; [apply N.div_lt; lia|done|by apply N.neq_0_lt_0].
Qed.

Definition plain_numeral (s : jstr) (n : Z) : Prop :=
  ∃ d ds, s = d :: ds ∧ forallb is_digit (d :: ds) = true ∧ digits_value s = n ∧
    (d =? 48) && negb (length ds =? 0)%nat = false.

Lemma dec_plain p : plain_numeral (dec (Zpos p)) (Zpos p).
Proof.
  change (dec (Zpos p)) with (js (pretty_N_go (Npos p) "")).
  destruct (pretty_go_digits (Npos p) "") as (d & ds & E & Hd & Hf); [done|lia|].
  exists d, ds. split; [done|]. split; [done|]. split.
  - apply (pretty_go_value (Npos p) "").
  - by rewrite (proj2 (Z.eqb_neq d 48)).
Qed.

Lemma digits_delimited ds r :
  forallb is_digit ds = true → delimited r → digits (ds ++ r) = (ds, r).
Proof.
  intros Hd Hr. induction ds as [|d ds IH]; cbn in *.
  - destruct r as [|c r]; [done|]. cbn in *. destruct Hr as [-> | [-> | ->]]; done.
  - bsimp. match goal with E : is_digit d = true |- _ => rewrite E end. by rewrite IH.
Qed.

Lemma delimited_number r : delimited r → fraction r = Some ([], r) ∧ exponent r = Some (0, r).
Proof. destruct r as [|c r]; [done|]. intros [-> | [-> | ->]]; done. Qed.

Lemma read_numeral (neg : bool) s n r :
  plain_numeral s n → delimited r →
  json_number ((if neg then [45] else []) ++ s ++ r) =
  Some (VNum (numeral_value (if neg then - n else n) 0), r).
Proof.
  intros (d & ds & -> & Hd & Hn & Hz) Hr. destruct (delimited_number r Hr) as [Ef Ee].
  unfold json_number. assert (unsigned ((if neg then [45] else []) ++ (d :: ds) ++ r) = (neg, (d :: ds) ++ r)) as ->.
  { destruct neg; [done|]. cbn in Hd |- *. bsimp. unfold is_digit in *. bsimp.
    by rewrite (proj2 (Z.eqb_neq d 45)) by lia. }
  rewrite digits_delimited by done. rewrite Hz, Ef. cbn [mbind option_bind]. rewrite Ee. cbn [mbind option_bind].
  rewrite app_nil_r, Hn. by destruct neg.
Qed.

Lemma read_int `{!Float64Ok H} z r :
  - MAX_SAFE_INTEGER <= z <= MAX_SAFE_INTEGER → delimited r →
  json_number (dec z ++ r) = Some (VNum (JInt z), r).
Proof.
  intros Hz Hr. rewrite <- (numeral_safe z Hz). destruct z as [|p|p].
  - apply (read_numeral false (js "0") 0); [|done]. by exists 48, [].
  - apply (read_numeral false (dec (Zpos p)) (Zpos p)); [apply dec_plain|done].
  - change (dec (Zneg p)) with (dec (- Zpos p)). rewrite dec_neg by lia.
    apply (read_numeral true (dec (Zpos p)) (Zpos p)); [apply dec_plain|done].
Qed.

(** A printed string reads back. *)
Lemma hex_value_digit d : 0 <= d < 16 → hex_value (hex_digit d) = Some d.
Proof.
  intros Hd. unfold hex_value, hex_digit, is_digit. destruct (Z.ltb_spec d 10).
  - rewrite (proj2 (andb_true_iff _ _)); [f_equal; lia|]. rewrite !Z.leb_le. lia.
  - assert ((48 <=? 87 + d) && (87 + d <=? 57) = false) as -> by (apply andb_false_iff; rewrite !Z.leb_gt; lia).
    rewrite (proj2 (andb_true_iff _ _)); [f_equal; lia|]. rewrite !Z.leb_le. lia.
Qed.

Lemma read_unit u s : 0 <= u → literal_char (escape_unit u ++ s) u s.
Proof.
  intros Hu. unfold escape_unit.
  repeat match goal with |- context [if ?u =? ?k then _ else _] =>
    destruct (Z.eqb_spec u k) as [-> | ?]; [by constructor|] end.
  destruct (Z.ltb_spec u 32); [|by constructor]. cbn [app]. constructor.
  unfold hex4. change (hex_value 48) with (Some 0). rewrite !hex_value_digit by div_lia. cbn. f_equal. div_lia.
Qed.

Lemma read_surrogate u s : 0 <= u < 0x10000 → literal_char (escape_surrogate u ++ s) u s.
Proof.
  intros Hu. unfold escape_surrogate. change (js "\u") with [92; 117]. cbn [map app]. constructor.
  unfold hex4. rewrite !hex_value_digit by div_lia. cbn. f_equal. div_lia.
Qed.

(** A surrogate that is not escaped is read as it is. *)
Lemma read_raw u s : is_high_surrogate u = true ∨ is_low_surrogate u = true → literal_char (u :: s) u s.
Proof. unfold is_high_surrogate, is_low_surrogate. intros Hu. constructor; destruct Hu; bsimp; lia. Qed.

Lemma read_string s r : is_units s → json_chars (quote_units s ++ 34 :: r) = Some (s, r).
Proof.
  intros Hs. apply json_chars_spec. remember (length s) as n eqn:En. assert (length s <= n)%nat as Hn by lia. clear En.
  revert s Hs Hn. induction n as [|n IH]; intros [|u s] Hs Hn; cbn in Hn; [by apply chars_end|lia|by apply chars_end|].
  apply Forall_cons in Hs as [Hu Hs]. cbn [quote_units]. destruct (is_high_surrogate u) eqn:Eh.
  - destruct s as [|v s]; [eapply chars_char; [by apply read_surrogate|apply chars_end]|].
    destruct (is_low_surrogate v) eqn:El.
    + apply Forall_cons in Hs as [Hv Hs]. cbn [app]. econstructor; [apply read_raw; auto|].
      econstructor; [apply read_raw; auto|]. apply IH; [done|cbn in Hn; lia].
    + rewrite <- app_assoc. econstructor; [by apply read_surrogate|]. apply IH; [done|cbn in *; lia].
  - destruct (is_low_surrogate u); rewrite <- app_assoc; (econstructor; [|apply IH; [done|lia]]);
      [by apply read_surrogate|apply read_unit; lia].
Qed.

(** Values of JSON that keep their identity on the way: safe integers, plain objects
    with distinct keys. *)
Fixpoint json_tree (v : jsval) : bool :=
  match v with
  | VNull | VBool _ => true
  | VNum n => isSafeInteger n
  | VStr s => units_ok s
  | VArr items => forallb json_tree items
  | VObj shape members =>
      plain_prototype shape && negb (has_symbol_keys shape) && negb (has_non_enumerable shape) &&
      forallb (λ m, units_ok m.1 && json_tree m.2) members && bool_decide (NoDup (map fst members))
  | VUndefined | VOther _ => false
  end.

(** Numbers of a value are safe integers. *)
Fixpoint safe_numbers (v : jsval) : bool :=
  match v with
  | VNum n => isSafeInteger n
  | VArr items => forallb safe_numbers items
  | VObj _ ms => forallb (λ m, safe_numbers m.2) ms
  | _ => true
  end.

Lemma wire_json_tree v : wire_value v = true → safe_numbers v = true → json_tree v = true.
Proof.
  induction v as [| |b|n|s|items IH|shape members IH|t] using jsval_nested_ind; try done.
  - cbn. by rewrite andb_true_iff; intros [? _].
  - cbn. rewrite !forallb_true, Forall_forall in *. auto.
  - cbn [wire_value safe_numbers json_tree]. rewrite Forall_forall in IH. intros Hw Hs. bsimp. rewrite forallb_true in *.
    rewrite !andb_true_iff, !negb_true_iff, bool_decide_eq_true, forallb_true. repeat split; try done.
    intros m Hm. match goal with Hall : ∀ x, x ∈ members → units_ok _ && _ && _ = true |- _ => specialize (Hall m Hm) end.
    bsimp. apply andb_true_iff. auto.
Qed.

Lemma value_head_no_ws c : value_head c = true → json_ws c = false ∧ c ≠ 93.
Proof.
  unfold value_head, is_numeral_char, is_digit. intros Hc. apply orb_true_iff in Hc as [Hc|Hc].
  - apply orb_true_iff in Hc as [Hc|Hc]; bsimp; (split; [|lia]);
      unfold json_ws; rewrite !orb_false_iff, !Z.eqb_neq; lia.
  - apply bool_decide_eq_true in Hc. repeat (apply elem_of_cons in Hc as [-> | Hc]; [done|]). by apply not_elem_of_nil in Hc.
Qed.

Lemma stringify_head v : json_tree v = true → ∃ c s, json_stringify v = c :: s ∧ value_head c = true.
Proof.
  destruct v as [| |[]|n|s|items|shape members|t]; cbn [json_tree]; try done; intros Hw; try (by eexists _, _).
  destruct n as [z| | |]; try done. cbn in Hw. bsimp. cbn [json_stringify].
  rewrite num_to_string_int by (by apply safe_plain_int). destruct (dec_head z) as (c & s & -> & Hc).
  exists c, s. split; [done|]. unfold value_head. by rewrite Hc.
Qed.

Lemma skip_value v r : json_tree v = true →
  skip json_ws (json_stringify v ++ r) = json_stringify v ++ r ∧ hd 0 (json_stringify v ++ r) ≠ 93.
Proof.
  intros (c & s & E & Hc)%stringify_head. apply value_head_no_ws in Hc as [Hc H93]. rewrite E. cbn. by rewrite Hc.
Qed.

(** What a value must be to read back from its printed form. *)
Definition reads_back (v : jsval) : Prop := ∀ r, delimited r → reads (json_stringify v ++ r) v r.

Lemma items_read_back v vs r :
  Forall (λ v, json_tree v = true ∧ reads_back v) (v :: vs) →
  reads_items (join (js ",") (map json_stringify (v :: vs)) ++ 93 :: r) (v :: vs) r.
Proof.
  revert v. induction vs as [|w vs IH]; intros v Hall; apply Forall_cons in Hall as [[Hw Hv] Hall].
  - cbn [map join]. eapply reads_last_item; [apply Hv; cbn; auto|done].
  - cbn [map]. rewrite join_cons, <- app_assoc.
    pose proof Hall as [[Hw' _] _]%Forall_cons. specialize (IH w Hall).
    eapply (reads_item _ _ _ (join (js ",") (map json_stringify (w :: vs)) ++ 93 :: r)); [apply Hv; by left|reflexivity|].
    cbn [map] in IH |- *. rewrite join_cons, <- app_assoc in IH |- *.
    by rewrite (proj1 (skip_value w _ Hw')).
Qed.

Definition print_member (km : jstr * jsval) : jstr := stringify_text km.1 ++ js ":" ++ json_stringify km.2.

Lemma member_text_split (km : jstr * jsval) r :
  print_member km ++ r = 34 :: quote_units km.1 ++ 34 :: 58 :: json_stringify km.2 ++ r.
Proof. unfold print_member, stringify_text. cbn. by rewrite <- !app_assoc. Qed.

Lemma members_read_back m ms r :
  Forall (λ m, is_units m.1 ∧ json_tree m.2 = true ∧ reads_back m.2) (m :: ms) →
  reads_members (join (js ",") (map print_member (m :: ms)) ++ 125 :: r) (m :: ms) r.
Proof.
  revert m. induction ms as [|n ms IH]; intros [k v] Hall; apply Forall_cons in Hall as [(Hk & Hw & Hv) Hall]; cbn in Hk, Hw, Hv.
  - cbn [map join]. rewrite member_text_split. cbn [fst snd].
    eapply (reads_last_member _ _ _ _ _ (125 :: r)); [by apply read_string|reflexivity| |reflexivity].
    rewrite (proj1 (skip_value v _ Hw)). apply Hv. cbn. auto.
  - specialize (IH n Hall). cbn [map] in IH |- *. rewrite join_cons, <- app_assoc, member_text_split. cbn [fst snd].
    set (tail := join (js ",") (print_member n :: map print_member ms) ++ 125 :: r) in *.
    eapply (reads_member _ _ _ _ _ (44 :: tail) tail);
      [by apply read_string|reflexivity| |reflexivity|].
    + rewrite (proj1 (skip_value v _ Hw)). apply Hv. by left.
    + unfold tail in *. rewrite join_cons, <- app_assoc, member_text_split in IH |- *. exact IH.
Qed.

Lemma value_reads_back `{!Float64Ok H} v : json_tree v = true → reads_back v.
Proof.
  induction v as [| |b|n|s|items IH|shape members IH|t] using jsval_nested_ind; intros Hw r Hr; try done.
  - by constructor.
  - destruct b; by constructor.
  - destruct n as [z| | |]; try done. cbn in Hw. bsimp.
    change (json_stringify (VNum (JInt z))) with (num_to_string (JInt z)). rewrite num_to_string_int by (by apply safe_plain_int).
    destruct (dec_head z) as (c & s & E & Hc). pose proof (read_int z r ltac:(lia) Hr) as Er. rewrite E in Er |- *.
    cbn [app] in *. unfold is_numeral_char, is_digit in Hc.
    assert (48 <= c <= 57 ∨ c = 45) as Hc' by (apply orb_true_iff in Hc as [Hc|Hc]; bsimp; lia).
    constructor; [lia..|]. unfold json_scalar.
    assert (∀ x t, x ≠ c → starts_with (x :: t) (c :: s ++ r) = false) as Hst.
    { intros x t Hx. cbn. by rewrite (proj2 (Z.eqb_neq x c)). }
    change (js "null") with [110; 117; 108; 108]. change (js "true") with [116; 114; 117; 101].
    change (js "false") with [102; 97; 108; 115; 101]. by rewrite !Hst by lia.
  - cbn in Hw. apply units_ok_is_units in Hw.
    cbn [json_stringify]. unfold stringify_text. cbn [app]. rewrite <- app_assoc. constructor. by apply read_string.
  - cbn in Hw. rewrite forallb_true in Hw. rewrite Forall_forall in IH.
    cbn [json_stringify]. rewrite <- !app_assoc. change (js "[" ++ ?x) with (91 :: x). destruct items as [|v vs].
    { by apply reads_empty_array. }
    pose proof (skip_value v) as Hsk. assert (json_tree v = true) as Hwv by (apply Hw; by left).
    assert (reads_items (join (js ",") (map json_stringify (v :: vs)) ++ 93 :: r) (v :: vs) r) as Hi.
    { apply items_read_back. rewrite Forall_forall. intros x Hx. split; [by apply Hw|]. apply IH; auto. }
    cbn [map] in Hi |- *. rewrite join_cons, <- app_assoc in Hi |- *. change (js "]" ++ r) with (93 :: r).
    apply reads_array; rewrite (proj1 (Hsk _ Hwv)); [by apply Hsk|done].
  - cbn in Hw. apply andb_true_iff in Hw as [Hw _]. apply andb_true_iff in Hw as [Hsh Hw].
    assert (shape = plain_shape) as -> by (bsimp; by apply wire_shape).
    rewrite forallb_true in Hw. rewrite Forall_forall in IH.
    cbn [json_stringify]. rewrite <- !app_assoc. change (js "{" ++ ?x) with (123 :: x). destruct members as [|m ms].
    { by apply reads_empty_object. }
    assert (reads_members (join (js ",") (map print_member (m :: ms)) ++ 125 :: r) (m :: ms) r) as Hi.
    { apply members_read_back. rewrite Forall_forall. intros x Hx. specialize (Hw x Hx). bsimp.
      split; [by apply units_ok_is_units|]. split; [done|]. apply IH; auto. }
    change (js "}" ++ r) with (125 :: r). apply reads_object.
    change (map (λ km, stringify_text km.1 ++ js ":" ++ json_stringify km.2) (m :: ms)) with (map print_member (m :: ms)).
    cbn [map] in Hi |- *. rewrite join_cons, <- app_assoc, member_text_split in Hi |- *. exact Hi.
Qed.

(** Strings without unpaired surrogates are printed as the canonical form prints them. *)
Lemma quote_well_formed s : well_formed s = true → quote_units s = s ≫= escape_unit.
Proof.
  assert (∀ u, 0xd800 <= u → escape_unit u = [u]) as Hesc.
  { intros u Hu. unfold escape_unit. rewrite !(proj2 (Z.eqb_neq u _)), (proj2 (Z.ltb_ge u 32)) by lia. done. }
  intros Hwf. pattern s. revert s Hwf. apply well_formed_ind; [done|..].
  - intros u v s Hu Hv _ IH. cbn [quote_units]. rewrite Hu, Hv, IH, !bind_cons.
    unfold is_high_surrogate, is_low_surrogate in *. bsimp. by rewrite !Hesc by lia.
  - intros u s Hu Hl _ IH. cbn [quote_units]. by rewrite Hu, Hl, IH, bind_cons.
Qed.

Lemma stringify_emit v : wire_value v = true → json_stringify v = emit v.
Proof.
  induction v as [| |b|n|s|items IH|shape members IH|t] using jsval_nested_ind; try done.
  - cbn. rewrite andb_true_iff. intros [_ Hs]. unfold stringify_text. by rewrite quote_well_formed.
  - cbn. rewrite forallb_true. intros Hw. rewrite Forall_forall in IH. do 3 f_equal. apply map_ext_in.
    intros x Hx%list_elem_of_In. auto.
  - cbn [wire_value json_stringify emit]. intros Hw. bsimp. rewrite Forall_forall in IH. rewrite forallb_true in *.
    do 3 f_equal. apply map_ext_in. intros x Hx%list_elem_of_In.
    match goal with Hall : ∀ x, x ∈ members → _ = true |- _ => specialize (Hall x Hx) end. bsimp.
    rewrite (IH x Hx) by done. unfold stringify_text. by rewrite quote_well_formed.
Qed.

(** ** Members *)

Lemma foldl_set_member acc ms :
  NoDup (map fst (acc ++ ms)) → foldl (λ acc m, set_member acc m.1 m.2) acc ms = acc ++ ms.
Proof.
  revert acc. induction ms as [|[k v] ms IH]; intros acc Hnd; cbn; [by rewrite app_nil_r|].
  assert (set_member acc k v = acc ++ [(k, v)]) as ->.
  { clear IH. rewrite map_app in Hnd. apply NoDup_app in Hnd as (_ & Hdis & _).
    induction acc as [|[k' v'] acc IHa]; [done|]. cbn.
    rewrite bool_decide_eq_false_2; [|intros ->; apply (Hdis k); by left].
    rewrite IHa; [done|]. intros x Hx. apply Hdis. by right. }
  rewrite IH; rewrite <- app_assoc; done.
Qed.

(** Where keys are distinct nothing is overwritten. *)
Lemma last_members_id v : distinct_keys v → last_members v = v.
Proof.
  induction v as [| |b|n|s|items IH|shape members IH|t] using jsval_nested_ind; try done.
  - rewrite distinct_keys_arr. intros Hd. cbn. f_equal. rewrite <- (map_id items) at 2. apply map_ext_in.
    intros x Hx%list_elem_of_In. rewrite Forall_forall in IH, Hd. by apply IH, Hd.
  - rewrite distinct_keys_obj. intros [Hnd Hd]. cbn [last_members]. f_equal.
    assert (map (λ m, (m.1, last_members m.2)) members = members) as ->.
    { rewrite <- (map_id members) at 2. apply map_ext_in. intros [k x] Hx%list_elem_of_In.
      rewrite Forall_forall in IH, Hd. cbn. f_equal. by apply (IH (k, x)), (Hd (k, x)). }
    by apply (foldl_set_member []).
Qed.

Lemma safe_normalize v : safe_numbers v = true → safe_numbers (normalize v) = true.
Proof.
  induction v as [| |b|n|s|items IH|shape members IH|t] using jsval_nested_ind; try done; cbn;
    rewrite !forallb_true, Forall_forall in *; intros Hs x Hx.
  - apply list_elem_of_fmap in Hx as (y & -> & Hy). auto.
  - apply sort_by_elem, list_elem_of_fmap in Hx as (y & -> & Hy). cbn. auto.
Qed.

Lemma json_tree_distinct v : json_tree v = true → distinct_keys v.
Proof.
  induction v as [| |b|n|s|items IH|shape members IH|t] using jsval_nested_ind; try done.
  - rewrite distinct_keys_arr. cbn. rewrite forallb_true, !Forall_forall in *. auto.
  - rewrite distinct_keys_obj. cbn [json_tree]. intros Hw. bsimp. split; [done|].
    rewrite Forall_forall in IH |- *. rewrite forallb_true in *. intros m Hm.
    match goal with Hall : ∀ x, x ∈ members → _ = true |- _ => specialize (Hall m Hm) end. bsimp. by apply IH.
Qed.

(** Printed values read back. *)
Lemma stringify_parses `{!Float64Ok H} v :
  json_tree v = true → json_raw (json_stringify v) = Some v ∧ json_parse (json_stringify v) = Some v.
Proof.
  intros Hw. assert (json_raw (json_stringify v) = Some v) as Er.
  { apply json_raw_spec. exists []. split; [|done]. pose proof (proj1 (skip_value _ [] Hw)) as Hsk.
    rewrite app_nil_r in Hsk. rewrite Hsk. pose proof (value_reads_back _ Hw [] I) as Hr.
    by rewrite app_nil_r in Hr. }
  split; [done|]. unfold json_parse. rewrite Er. cbn. f_equal. by apply last_members_id, json_tree_distinct.
Qed.

(** Canonical text reads back. [JSON.parse] of the canonical form of a wire
    value with safe numbers is that value with its members sorted, and no member
    of the text is lost on the way. *)
Theorem canonical_text_parses `{!Float64Ok H} v text :
  wire_value v = true → safe_numbers v = true → canonicalizeJson v = Ok text →
  json_raw text = Some (normalize v) ∧ json_parse text = Some (normalize v).
Proof.
  intros Hw Hs E. rewrite canonicalizeJson_emit in E by by apply wire_jcs. injection E as <-.
  apply wire_normalize in Hw. apply safe_normalize in Hs. rewrite <- stringify_emit by done.
  by apply stringify_parses, wire_json_tree.
Qed.

End values.

(** ** UTF-8 *)

(** A Unicode scalar value. *)
Definition is_scalar_point (c : Z) : bool :=
  (0 <=? c) && (c <? 0x110000) && negb ((0xd800 <=? c) && (c <=? 0xdfff)).

Lemma utf8_uncons_suffix bs c r : utf8_uncons bs = Some (c, r) → ∃ p, bs = p ++ r ∧ p ≠ [].
Proof.
  unfold utf8_uncons. destruct bs as [|b0 r0]; [done|].
  destruct (b0 <? 0x80); [intros [= _ <-]; by exists [b0]|].
  destruct r0 as [|b1 r1]; [done|]. destruct (b0 <? 0xe0); [intros [= _ <-]; by exists [b0; b1]|].
  destruct r1 as [|b2 r2]; [done|]. destruct (b0 <? 0xf0); [intros [= _ <-]; by exists [b0; b1; b2]|].
  destruct r2 as [|b3 r3]; [done|]. intros [= _ <-]; by exists [b0; b1; b2; b3].
Qed.

Lemma utf8_points_sound fuel bs cs :
  utf8_points fuel bs = Some cs → bs = cs ≫= utf8_point ∧ forallb is_scalar_point cs = true.
Proof.
  revert bs cs. induction fuel as [|fuel IH]; intros [|b bs] cs; cbn [utf8_points]; try (by intros [= <-]); try done.
  destruct (utf8_uncons (b :: bs)) as [[c r]|] eqn:Eu; [|done]. cbn [mbind option_bind].
  destruct (_ && _) eqn:Ec; [|done]. destruct (utf8_points fuel r) as [cs'|] eqn:Er; [|done]. intros [= <-].
  apply andb_true_iff in Ec as [Ec Et]. apply bool_decide_eq_true in Et.
  destruct (IH r cs' Er) as [-> Hcs]. apply utf8_uncons_suffix in Eu as (p & Ep & _).
  cbn [forallb]. split; [|by rewrite Hcs, andb_true_r].
  rewrite bind_cons, Et, Ep. rewrite length_app, Nat.add_sub, take_app_length. done.
Qed.

Lemma utf8_points_complete cs fuel :
  forallb is_scalar_point cs = true → (length (cs ≫= utf8_point) <= fuel)%nat →
  utf8_points fuel (cs ≫= utf8_point) = Some cs.
Proof.
  revert fuel. induction cs as [|c cs IH]; intros fuel Hcs Hl; [by destruct fuel|].
  cbn [forallb] in Hcs. apply andb_true_iff in Hcs as [Hc Hcs]. rewrite bind_cons, length_app in *.
  assert (is_point c) as Hp by (unfold is_scalar_point in Hc; bsimp; unfold is_point; lia).
  destruct (utf8_point c) as [|b bs] eqn:Eb; [by apply utf8_point_nonempty in Eb|].
  destruct fuel as [|fuel]; [cbn in Hl; lia|]. cbn [app utf8_points].
  change (b :: bs ++ (cs ≫= utf8_point)) with ((b :: bs) ++ (cs ≫= utf8_point)). rewrite <- Eb.
  rewrite utf8_uncons_point by done. cbn [mbind option_bind].
  rewrite length_app, Nat.add_sub, take_app_length. unfold is_scalar_point in Hc. rewrite Hc.
  rewrite bool_decide_eq_true_2 by done. cbn [andb]. rewrite IH; [done|done|cbn in Hl; lia].
Qed.

(** Scalar values and the strings without unpaired surrogates. *)
Lemma utf16_scalars cs :
  forallb is_scalar_point cs = true →
  well_formed (cs ≫= utf16_point) = true ∧ is_units (cs ≫= utf16_point) ∧ code_points (cs ≫= utf16_point) = cs.
Proof.
  induction cs as [|c cs IH]; [intros _; repeat split; constructor|]. cbn [forallb]. intros [Hc Hcs]%andb_true_iff.
  destruct (IH Hcs) as (IH1 & IH2 & IH3). rewrite bind_cons. unfold is_scalar_point in Hc. bsimp.
  match goal with Hs : _ && _ = false |- _ => apply andb_false_iff in Hs; rewrite !Z.leb_gt in Hs; rename Hs into Hns end.
  unfold utf16_point at 1 3 5. destruct (Z.ltb_spec c 0x10000).
  - assert (is_high_surrogate c = false ∧ is_low_surrogate c = false) as [Eh El].
    { unfold is_high_surrogate, is_low_surrogate. rewrite !andb_false_iff, !Z.leb_gt. lia. }
    cbn [app well_formed code_points]. rewrite Eh, El, IH1, IH3. split; [done|]. split; [|done].
    constructor; [lia|done].
  - set (u := 0xd800 + (c - 0x10000) / 0x400). set (v := 0xdc00 + (c - 0x10000) mod 0x400).
    assert (is_high_surrogate u = true ∧ is_low_surrogate v = true) as [Eh El].
    { unfold is_high_surrogate, is_low_surrogate, u, v. rewrite !andb_true_iff, !Z.leb_le. div_lia. }
    cbn [app well_formed code_points]. rewrite Eh, El, IH1, IH3. split; [done|]. split.
    + constructor; [unfold u; div_lia|]. constructor; [unfold v; div_lia|done].
    + f_equal. unfold u, v. div_lia.
Qed.

Lemma code_points_scalar s : well_formed s = true → is_units s → forallb is_scalar_point (code_points s) = true.
Proof.
  intros Hwf. pattern s. revert s Hwf. apply well_formed_ind; [done|..].
  - intros u v s Hu Hv _ IH Hs. apply Forall_cons in Hs as [_ Hs]. apply Forall_cons in Hs as [_ Hs].
    cbn [code_points]. rewrite Hu, Hv. cbn [forallb]. rewrite (IH Hs), andb_true_r.
    unfold is_high_surrogate, is_low_surrogate, is_scalar_point in *. bsimp.
    rewrite !andb_true_iff, negb_true_iff, andb_false_iff, !Z.leb_le, Z.ltb_lt, !Z.leb_gt. lia.
  - intros u s Hu Hl _ IH Hs. apply Forall_cons in Hs as [Hu16 Hs].
    cbn [code_points]. rewrite Hu, Hl. cbn [forallb]. rewrite (IH Hs), andb_true_r.
    unfold is_high_surrogate, is_low_surrogate, is_scalar_point in *.
    rewrite andb_false_iff, !Z.leb_gt in Hu, Hl.
    rewrite !andb_true_iff, negb_true_iff, andb_false_iff, !Z.leb_le, Z.ltb_lt, !Z.leb_gt. lia.
Qed.

(** The strict decoder inverts the encoder and accepts nothing else. *)
Lemma utf8_decode_spec bs s :
  utf8_decode bs = Some s ↔ well_formed s = true ∧ is_units s ∧ utf8_encode s = bs.
Proof.
  unfold utf8_decode, utf8_encode. split.
  - destruct (utf8_points _ bs) as [cs|] eqn:E; [|done]. intros [= <-].
    apply utf8_points_sound in E as [-> Hcs]. destruct (utf16_scalars cs Hcs) as (H1 & H2 & H3).
    split; [done|]. split; [done|]. by rewrite H3.
  - intros (Hwf & Hu & <-). rewrite utf8_points_complete by (try apply code_points_scalar; done).
    cbn. f_equal. by apply code_points_utf16.
Qed.
End JsonTextFacts.
