(* ===== verification/Backoff.v ===== *)
(** Reconnect backoff: packages/protocol/src/reconnectBackoff.ts.

    The delay drawn by [reconnectFullJitterDelayMs] is computed in binary64:
    a sample is a finite double [m * 2^e], and its product with the integer
    [limit + 1] is rounded to nearest, ties to even, before [Math.floor]. *)

From S2P Require Import Prelude JsString JsValue.

Module Backoff.

Definition RBP_RECONNECT_INITIAL_MS : Z := 1000.
Definition RBP_RECONNECT_FACTOR : Z := 2.
Definition RBP_RECONNECT_CAP_MS : Z := 60000.
Definition RBP_RECONNECT_RESET_AFTER_STEADY_MS : Z := 120000.

Definition reconnectBackoffLimitMs (attemptIndex : jsnum) : result js_error Z :=
  reject_if (negb (isSafeInteger attemptIndex) || negb (num_geb attemptIndex 0)) RangeError
    "attemptIndex must be a non-negative safe integer" ;;
  let attempt := num_Z attemptIndex in
  if 6 <=? attempt then Ok RBP_RECONNECT_CAP_MS
  else Ok (Z.min RBP_RECONNECT_CAP_MS (RBP_RECONNECT_INITIAL_MS * RBP_RECONNECT_FACTOR ^ attempt)).

(** ** Binary64 as far as the jitter needs it *)

Inductive binary64 :=
| B64 (m e : Z)     (** [m * 2^e], [|m| < 2^53], [-1074 <= e <= 971] *)
| B64_inf (negative : bool)
| B64_nan.

Definition b64_valid (x : binary64) : bool :=
  match x with
  | B64 m e => (Z.abs m <? 2 ^ 53) && (-1074 <=? e) && (e <=? 971)
  | _ => true
  end.

(** Rounds a non-negative integer to 53 significant bits, to nearest, ties to even. *)
Definition round53 (n : Z) : Z :=
  if n <? 2 ^ 53 then n
  else
    let s := Z.log2 n - 52 in
    let q := n / 2 ^ s in
    let r := n mod 2 ^ s in
    let half := 2 ^ (s - 1) in
    (if (r <? half) || ((r =? half) && Z.even q) then q else q + 1) * 2 ^ s.

(** [Math.floor(x * k)] for a finite [x >= 0] and an integer [0 < k < 2^53]. *)
Definition floor_mul (m e k : Z) : Z :=
  let p := round53 (m * k) in
  if 0 <=? e then p * 2 ^ e else p / 2 ^ (- e).

(** [x >= 1] *)
Definition b64_ge1 (m e : Z) : bool := if 0 <=? e then 1 <=? m * 2 ^ e else 2 ^ (- e) <=? m.

Definition reconnectFullJitterDelayMs (attemptIndex : jsnum) (random : binary64) : result js_error Z :=
  match random with
  | B64 m e =>
      reject_if ((m <? 0) || b64_ge1 m e) RangeError "random must return a finite value in [0, 1)" ;;
      limit ← reconnectBackoffLimitMs attemptIndex;
      Ok (floor_mul m e (limit + 1))
  | _ => throw RangeError "random must return a finite value in [0, 1)"
  end.

Definition shouldResetReconnectBackoff (steadyDurationMs : jsnum) : result js_error bool :=
  reject_if (negb (isFinite steadyDurationMs) || negb (num_geb steadyDurationMs 0)) RangeError
    "steadyDurationMs must be a non-negative finite number" ;;
  Ok (num_geb steadyDurationMs RBP_RECONNECT_RESET_AFTER_STEADY_MS).

(** ** Facts *)

(** The limit as the documentation of the schedule gives it. *)
Definition backoff_spec (attempt : Z) : Z := Z.min 60000 (1000 * 2 ^ attempt).

Lemma limit_eq attempt :
  0 <= attempt <= MAX_SAFE_INTEGER →
  reconnectBackoffLimitMs (JInt attempt) = Ok (backoff_spec attempt).
Proof.
  intros Ha. unfold reconnectBackoffLimitMs, reject_if, throw_if.
  assert (isSafeInteger (JInt attempt) = true) as ->.
  { cbn -[MAX_SAFE_INTEGER]. rewrite andb_true_iff, !Z.leb_le.
    unfold MAX_SAFE_INTEGER in *. lia. }
  cbn [num_geb negb orb]. rewrite (proj2 (Z.leb_le 0 attempt)) by lia. cbn -[Z.pow].
  destruct (Z.leb_spec 6 attempt) as [H6|H6]; [|done].
  unfold backoff_spec, RBP_RECONNECT_CAP_MS. rewrite Z.min_l; [done|].
  transitivity (1000 * 2 ^ 6); [lia|]. apply Z.mul_le_mono_nonneg_l; [lia|].
  apply Z.pow_le_mono_r; lia.
Qed.

Lemma backoff_spec_range attempt : 0 <= attempt → 1000 <= backoff_spec attempt <= 60000.
Proof.
  intros Ha. unfold backoff_spec.
  assert (0 < 2 ^ attempt) by (apply Z.pow_pos_nonneg; lia). lia.
Qed.

Lemma backoff_spec_mono a b : 0 <= a <= b → backoff_spec a <= backoff_spec b.
Proof.
  intros Hab. unfold backoff_spec. apply Z.min_le_compat_l.
  apply Z.mul_le_mono_nonneg_l; [lia|]. apply Z.pow_le_mono_r; lia.
Qed.

(** Rounding moves a product up by less than the multiplier. *)
Lemma round53_bound m k :
  0 <= m < 2 ^ 53 → 0 < k → 0 <= round53 (m * k) < m * k + k.
Proof.
  intros Hm Hk. unfold round53. destruct (Z.ltb_spec (m * k) (2 ^ 53)) as [Hlt|Hge]; [nia|].
  set (n := m * k) in *. set (s := Z.log2 n - 52).
  assert (0 < n) by lia.
  destruct (Z.log2_spec n) as [Hlo Hhi]; [lia|].
  assert (53 <= Z.log2 n) as Hlog.
  { apply Z.log2_le_pow2; lia. }
  assert (0 < 2 ^ (s - 1)) as Hhalf by (apply Z.pow_pos_nonneg; lia).
  assert (2 ^ s = 2 * 2 ^ (s - 1)) as Hs.
  { rewrite <- Z.pow_succ_r by lia. f_equal. lia. }
  assert (2 ^ (s - 1) < k) as Hsk.
  { assert (2 ^ Z.log2 n = 2 ^ 53 * 2 ^ (s - 1)) as E.
    { rewrite <- Z.pow_add_r by lia. f_equal. lia. }
    rewrite E in Hlo. nia. }
  pose proof (Z.div_mod n (2 ^ s) ltac:(lia)) as Hdm.
  pose proof (Z.mod_pos_bound n (2 ^ s) ltac:(lia)) as Hr.
  assert (0 <= n / 2 ^ s) by (apply Z.div_pos; lia).
  destruct ((_ <? _) || _) eqn:E.
  - split; [nia|]. nia.
  - apply orb_false_iff in E as [E1%Z.ltb_ge _]. split; [nia|]. nia.
Qed.

Lemma b64_below_one m e :
  b64_ge1 m e = false → 0 <= m → m < 2 ^ 53 →
  m = 0 ∨ (e < 0 ∧ m < 2 ^ (- e)).
Proof.
  unfold b64_ge1. destruct (Z.leb_spec 0 e); intros H1 H2 H3; bsimp; [left|right; lia].
  assert (0 < 2 ^ e) by (apply Z.pow_pos_nonneg; lia). nia.
Qed.

Lemma floor_mul_range m e k :
  0 <= m < 2 ^ 53 → b64_ge1 m e = false → 0 < k → 0 <= floor_mul m e k < k.
Proof.
  intros Hm Hlt Hk. pose proof (round53_bound m k Hm Hk) as Hr. unfold floor_mul.
  destruct (b64_below_one m e Hlt) as [->|[He Hme]]; [lia..| |].
  - unfold round53. rewrite Z.mul_0_l. cbn -[Z.pow Z.div].
    destruct (Z.leb_spec 0 e); [nia|]. rewrite Z.div_0_l; [lia|].
    assert (0 < 2 ^ (- e)) by (apply Z.pow_pos_nonneg; lia). lia.
  - rewrite (proj2 (Z.leb_gt 0 e)) by lia.
    assert (0 < 2 ^ (- e)) by (apply Z.pow_pos_nonneg; lia).
    split; [apply Z.div_pos; lia|]. apply Z.div_lt_upper_bound; [lia|]. nia.
Qed.

Lemma limit_cases attemptIndex :
  reconnectBackoffLimitMs attemptIndex =
  if isSafeInteger attemptIndex && num_geb attemptIndex 0
  then Ok (backoff_spec (num_Z attemptIndex))
  else throw RangeError "attemptIndex must be a non-negative safe integer".
Proof.
  destruct (isSafeInteger attemptIndex) eqn:Hs; [|unfold reconnectBackoffLimitMs; by rewrite Hs].
  destruct (num_geb attemptIndex 0) eqn:Hg;
    [|unfold reconnectBackoffLimitMs; by rewrite Hs, Hg].
  pose proof (isSafeInteger_range _ Hs) as Hr. rewrite (isSafeInteger_int _ Hs) in Hg |- *.
  cbn [num_geb] in Hg. bsimp. cbn [andb]. apply (limit_eq (num_Z attemptIndex)). lia.
Qed.

(** ** Properties *)

(** For every non-negative safe attempt index the backoff limit is
    [min(60000, 1000 * 2^index)] milliseconds; indices that are negative,
    fractional, unsafe or not finite are refused. *)
Theorem backoff_limit attemptIndex :
  reconnectBackoffLimitMs attemptIndex =
  if isSafeInteger attemptIndex && num_geb attemptIndex 0
  then Ok (backoff_spec (num_Z attemptIndex))
  else throw RangeError "attemptIndex must be a non-negative safe integer".
Proof. apply limit_cases. Qed.

(** The full-jitter delay, computed with the rounding of binary64
    multiplication, is an integer between zero and the backoff limit inclusive,
    for every sample the generator may return. *)
Theorem jitter_in_range attemptIndex random delay :
  b64_valid random = true → reconnectFullJitterDelayMs attemptIndex random = Ok delay →
  ∃ limit, reconnectBackoffLimitMs attemptIndex = Ok limit ∧ 0 <= delay <= limit ∧ limit <= 60000.
Proof.
  destruct random as [m e| |]; [|done|done]. cbn -[Z.pow reconnectBackoffLimitMs b64_ge1 floor_mul]. intros Hv H.
  apply bind_ok in H as (? & Hc & H). apply reject_if_ok in Hc. bsimp.
  apply bind_ok in H as (limit & Hl & [= <-]). exists limit. split; [done|].
  rewrite limit_cases in Hl. destruct (_ && _) eqn:E in Hl; [|discriminate Hl]. bsimp.
  assert (0 <= num_Z attemptIndex).
  { destruct attemptIndex; try done. cbn in *. by bsimp. }
  pose proof (backoff_spec_range (num_Z attemptIndex) ltac:(done)).
  destruct (floor_mul_range m e (backoff_spec (num_Z attemptIndex) + 1)); [lia|done|lia|lia].
Qed.

Lemma jitter_in_range_witness :
  ∃ limit, reconnectBackoffLimitMs (JInt 6) = Ok limit ∧ 0 <= 60000 <= limit ∧ limit <= 60000.
Proof.
  apply (jitter_in_range (JInt 6) (B64 (2 ^ 53 - 1) (-53)) 60000); vm_compute; reflexivity.
Defined.

End Backoff.
