(* ===== verification/Connection.v ===== *)
(** Connection and session lifecycles: packages/protocol/src/connectionState.ts.

    Two state machines.  [transitionConnection] is the Bridge's connection to the
    Gateway (opening handshake, heartbeat, backoff, paused retries, shutdown);
    [transitionSession] is one Revit session on that connection.  Both are
    functions from a state and an event; reachability is the closure of the
    transitions they accept. *)

From S2P Require Import Prelude JsString JsValue Backoff.

Module Connection.
Import Backoff.

Definition RBP_HEARTBEAT_DEGRADED_AFTER_MS : Z := 35000.
Definition RBP_HEARTBEAT_DISCONNECTED_AFTER_MS : Z := 65000.

(** ** The connection *)

Inductive ConnectionPhase :=
| idle | connecting | authenticating | hello_exchange | steady | degraded
| resuming | re_enrolling | backoff | disconnected | retry_paused | shutdown.

#[global] Instance ConnectionPhase_eq_dec : EqDecision ConnectionPhase.
Proof. solve_decision. Defined.

Inductive RetryPauseReason := pause_auth | pause_version_update | pause_trust | pause_auth_revoked.

#[global] Instance RetryPauseReason_eq_dec : EqDecision RetryPauseReason.
Proof. solve_decision. Defined.

Inductive RetryAction := act_backoff | act_pause | act_stop.

Record RetryDecision := {
  rd_action : RetryAction;
  rd_waitAttemptIndex : option Z;
  rd_jitterLimitMs : option Z;
  rd_retryAfterFloorMs : jsnum;
  rd_resetApplied : bool;
  rd_pauseReason : option RetryPauseReason }.

Record ConnectionLifecycleState := {
  cs_phase : ConnectionPhase;
  cs_nextAttemptIndex : Z;
  cs_selectedProtocol : option Z;
  cs_grantedCapabilities : list jstr;
  cs_retryPauseReason : option RetryPauseReason;
  cs_lastRetryDecision : option RetryDecision }.

Inductive OpeningFailureClass :=
| fail_environment | fail_protocol | fail_auth | fail_version | fail_trust.

Inductive GoodbyeReason :=
| bye_shutdown | bye_update | bye_server_draining | bye_protocol_error | bye_auth_revoked.

Inductive ConnectionEvent :=
| start
| transport_opened
| authentication_accepted
| hello_accepted (selectedProtocol : jsnum) (grantedCapabilities : list jstr)
| begin_resume
| resume_complete
| begin_re_enrollment
| re_enrollment_complete
| heartbeat_silence (silenceMs : jsnum) (continuousSteadyMs : option jsnum)
| connection_failed (failure : OpeningFailureClass) (continuousSteadyMs retryAfterMs : option jsnum)
| retry_timer_elapsed
| retry_condition_changed
| goodbye (reason : GoodbyeReason) (retryAfterMs continuousSteadyMs : option jsnum)
| shutdown_requested
| service_started.

(** The code keeps only the [type] of a refused event. *)
Inductive ConnectionTransition :=
| transitioned (state : ConnectionLifecycleState)
| invalid_transition (state : ConnectionLifecycleState) (event : ConnectionEvent).

Definition isNonNegativeFinite (value : jsnum) : bool := isFinite value && num_geb value 0.

Definition invalidConnection (state : ConnectionLifecycleState) (event : ConnectionEvent)
  : result js_error ConnectionTransition :=
  Ok (invalid_transition state event).

(** [{...state, phase}] *)
Definition with_phase (phase : ConnectionPhase) (s : ConnectionLifecycleState) := {|
  cs_phase := phase;
  cs_nextAttemptIndex := cs_nextAttemptIndex s;
  cs_selectedProtocol := cs_selectedProtocol s;
  cs_grantedCapabilities := cs_grantedCapabilities s;
  cs_retryPauseReason := cs_retryPauseReason s;
  cs_lastRetryDecision := cs_lastRetryDecision s |}.

(** [{...state, phase, retryPauseReason, lastRetryDecision}] *)
Definition with_retry (phase : ConnectionPhase) (reason : option RetryPauseReason)
  (decision : option RetryDecision) (s : ConnectionLifecycleState) := {|
  cs_phase := phase;
  cs_nextAttemptIndex := cs_nextAttemptIndex s;
  cs_selectedProtocol := cs_selectedProtocol s;
  cs_grantedCapabilities := cs_grantedCapabilities s;
  cs_retryPauseReason := reason;
  cs_lastRetryDecision := decision |}.

Definition scheduleBackoff (state : ConnectionLifecycleState) (continuousSteadyMs retryAfterMs : jsnum)
  : result js_error ConnectionLifecycleState :=
  reject_if (negb (isNonNegativeFinite continuousSteadyMs) || negb (isNonNegativeFinite retryAfterMs))
    RangeError "retry timing inputs must be non-negative finite numbers" ;;
  let resetApplied := num_geb continuousSteadyMs RBP_RECONNECT_RESET_AFTER_STEADY_MS in
  let waitAttemptIndex := if resetApplied then 0 else cs_nextAttemptIndex state in
  limit ← reconnectBackoffLimitMs (JInt waitAttemptIndex);
  Ok {|
    cs_phase := backoff;
    cs_nextAttemptIndex := Z.min (waitAttemptIndex + 1) MAX_SAFE_INTEGER;
    cs_selectedProtocol := cs_selectedProtocol state;
    cs_grantedCapabilities := cs_grantedCapabilities state;
    cs_retryPauseReason := None;
    cs_lastRetryDecision := Some {|
      rd_action := act_backoff;
      rd_waitAttemptIndex := Some waitAttemptIndex;
      rd_jitterLimitMs := Some limit;
      rd_retryAfterFloorMs := retryAfterMs;
      rd_resetApplied := resetApplied;
      rd_pauseReason := None |} |}.

Definition pauseRetry (state : ConnectionLifecycleState) (pauseReason : RetryPauseReason) :=
  with_retry retry_paused (Some pauseReason) (Some {|
    rd_action := act_pause;
    rd_waitAttemptIndex := None;
    rd_jitterLimitMs := None;
    rd_retryAfterFloorMs := JInt 0;
    rd_resetApplied := false;
    rd_pauseReason := Some pauseReason |}) state.

(** The decision both shutdown paths record. *)
Definition stop_decision : RetryDecision := {|
  rd_action := act_stop;
  rd_waitAttemptIndex := None;
  rd_jitterLimitMs := None;
  rd_retryAfterFloorMs := JInt 0;
  rd_resetApplied := false;
  rd_pauseReason := None |}.

Definition enter_shutdown (state : ConnectionLifecycleState) :=
  with_retry shutdown (cs_retryPauseReason state) (Some stop_decision) state.

Definition createConnectionLifecycle : ConnectionLifecycleState := {|
  cs_phase := idle;
  cs_nextAttemptIndex := 0;
  cs_selectedProtocol := None;
  cs_grantedCapabilities := [];
  cs_retryPauseReason := None;
  cs_lastRetryDecision := None |}.

(** [x ?? 0] *)
Definition or_zero (x : option jsnum) : jsnum := default (JInt 0) x.

Definition move (state : ConnectionLifecycleState) : result js_error ConnectionTransition :=
  Ok (transitioned state).

Definition on_hello_accepted (state : ConnectionLifecycleState) (event : ConnectionEvent)
  (selectedProtocol : jsnum) (grantedCapabilities : list jstr) :=
  if (cs_phase state !== hello_exchange) || negb (isSafeInteger selectedProtocol) ||
     negb (num_geb selectedProtocol 1)
  then invalidConnection state event
  else
    let capabilities := sort_by str_leb (unique grantedCapabilities) in
    move {|
      cs_phase := steady;
      cs_nextAttemptIndex := cs_nextAttemptIndex state;
      cs_selectedProtocol := Some (num_Z selectedProtocol);
      cs_grantedCapabilities := capabilities;
      cs_retryPauseReason := None;
      cs_lastRetryDecision := cs_lastRetryDecision state |}.

Definition on_heartbeat_silence (state : ConnectionLifecycleState) (event : ConnectionEvent)
  (silenceMs : jsnum) (continuousSteadyMs : option jsnum) :=
  if ((cs_phase state !== steady) && (cs_phase state !== degraded)) ||
     negb (isNonNegativeFinite silenceMs)
  then invalidConnection state event
  else if num_geb silenceMs RBP_HEARTBEAT_DISCONNECTED_AFTER_MS
  then s ← scheduleBackoff state (or_zero continuousSteadyMs) (JInt 0); move s
  else move (with_phase
    (if num_geb silenceMs RBP_HEARTBEAT_DEGRADED_AFTER_MS then degraded else steady) state).

Definition on_connection_failed (state : ConnectionLifecycleState) (event : ConnectionEvent)
  (failure : OpeningFailureClass) (continuousSteadyMs retryAfterMs : option jsnum) :=
  if (cs_phase state === idle) || (cs_phase state === backoff) ||
     (cs_phase state === retry_paused) || (cs_phase state === shutdown)
  then invalidConnection state event
  else match failure with
  | fail_auth => move (pauseRetry state pause_auth)
  | fail_version => move (pauseRetry state pause_version_update)
  | fail_trust => move (pauseRetry state pause_trust)
  | fail_environment | fail_protocol =>
      s ← scheduleBackoff state (or_zero continuousSteadyMs) (or_zero retryAfterMs); move s
  end.

Definition on_goodbye (state : ConnectionLifecycleState) (event : ConnectionEvent)
  (reason : GoodbyeReason) (retryAfterMs continuousSteadyMs : option jsnum) :=
  if (cs_phase state !== steady) && (cs_phase state !== degraded) &&
     (cs_phase state !== resuming) && (cs_phase state !== re_enrolling)
  then invalidConnection state event
  else match reason with
  | bye_shutdown => move (enter_shutdown state)
  | bye_auth_revoked => move (pauseRetry state pause_auth_revoked)
  | bye_update | bye_server_draining | bye_protocol_error =>
      s ← scheduleBackoff state (or_zero continuousSteadyMs) (or_zero retryAfterMs); move s
  end.

Definition transitionConnection (state : ConnectionLifecycleState) (event : ConnectionEvent)
  : result js_error ConnectionTransition :=
  match event with
  | start =>
      if (cs_phase state === idle) || (cs_phase state === disconnected)
      then move (with_phase connecting state) else invalidConnection state event
  | transport_opened =>
      if cs_phase state === connecting
      then move (with_phase authenticating state) else invalidConnection state event
  | authentication_accepted =>
      if cs_phase state === authenticating
      then move (with_phase hello_exchange state) else invalidConnection state event
  | hello_accepted selectedProtocol grantedCapabilities =>
      on_hello_accepted state event selectedProtocol grantedCapabilities
  | begin_resume =>
      if (cs_phase state === steady) || (cs_phase state === degraded)
      then move (with_phase resuming state) else invalidConnection state event
  | resume_complete =>
      if cs_phase state === resuming
      then move (with_phase steady state) else invalidConnection state event
  | begin_re_enrollment =>
      if (cs_phase state === resuming) || (cs_phase state === steady) || (cs_phase state === degraded)
      then move (with_phase re_enrolling state) else invalidConnection state event
  | re_enrollment_complete =>
      if cs_phase state === re_enrolling
      then move (with_phase steady state) else invalidConnection state event
  | heartbeat_silence silenceMs continuousSteadyMs =>
      on_heartbeat_silence state event silenceMs continuousSteadyMs
  | connection_failed failure continuousSteadyMs retryAfterMs =>
      on_connection_failed state event failure continuousSteadyMs retryAfterMs
  | retry_timer_elapsed =>
      if cs_phase state === backoff
      then move (with_phase connecting state) else invalidConnection state event
  | retry_condition_changed =>
      if cs_phase state === retry_paused
      then move (with_retry idle None None state) else invalidConnection state event
  | goodbye reason retryAfterMs continuousSteadyMs =>
      on_goodbye state event reason retryAfterMs continuousSteadyMs
  | shutdown_requested => move (enter_shutdown state)
  | service_started =>
      if cs_phase state === shutdown
      then move (with_retry idle None None state) else invalidConnection state event
  end.

(** ** A session *)

Inductive SessionPhase :=
| s_discovered | s_registering | s_registered | s_disconnected | s_resuming
| s_re_enrolling | s_unregistered.

#[global] Instance SessionPhase_eq_dec : EqDecision SessionPhase.
Proof. solve_decision. Defined.

Inductive UnregisterReason :=
| revit_exited | bridge_shutdown | session_replaced | operator_requested.

Record SessionLifecycleState := {
  ss_localSessionKey : jstr;
  ss_rsid : option jstr;
  ss_phase : SessionPhase;
  ss_resumeAllowed : bool;
  ss_dispatchAllowed : bool;
  ss_unregisterReason : option UnregisterReason }.

Inductive SessionEvent :=
| register_requested
| registered (rsid : jstr)
| connection_lost
| resume_requested
| resumed
| resume_rejected
| re_enrolled (rsid : jstr)
| unregister (reason : UnregisterReason).

Inductive SessionTransition :=
| session_transitioned (state : SessionLifecycleState)
| session_invalid (state : SessionLifecycleState) (event : SessionEvent).

Definition createSessionLifecycle (localSessionKey : jstr) : result js_error SessionLifecycleState :=
  reject_if (localSessionKey === []) TypeError "localSessionKey must not be empty" ;;
  Ok {|
    ss_localSessionKey := localSessionKey;
    ss_rsid := None;
    ss_phase := s_discovered;
    ss_resumeAllowed := false;
    ss_dispatchAllowed := false;
    ss_unregisterReason := None |}.

Definition invalidSession (state : SessionLifecycleState) (event : SessionEvent) : SessionTransition :=
  session_invalid state event.

(** [{...state, rsid, phase, resumeAllowed, dispatchAllowed, unregisterReason}] *)
Definition session_with (s : SessionLifecycleState) (rsid : option jstr) (phase : SessionPhase)
  (resumeAllowed dispatchAllowed : bool) (reason : option UnregisterReason) : SessionLifecycleState := {|
  ss_localSessionKey := ss_localSessionKey s;
  ss_rsid := rsid;
  ss_phase := phase;
  ss_resumeAllowed := resumeAllowed;
  ss_dispatchAllowed := dispatchAllowed;
  ss_unregisterReason := reason |}.

Definition transitionSession (state : SessionLifecycleState) (event : SessionEvent) : SessionTransition :=
  let rsid := ss_rsid state in
  let resumeAllowed := ss_resumeAllowed state in
  let reason := ss_unregisterReason state in
  match event with
  | unregister r =>
      session_transitioned (session_with state rsid s_unregistered false false (Some r))
  | register_requested =>
      if (ss_phase state === s_discovered) || (ss_phase state === s_re_enrolling)
      then session_transitioned (session_with state rsid s_registering resumeAllowed false reason)
      else invalidSession state event
  | registered r =>
      if (ss_phase state === s_registering) && (r !== [])
      then session_transitioned (session_with state (Some r) s_registered true true None)
      else invalidSession state event
  | connection_lost =>
      if ss_phase state === s_registered
      then session_transitioned (session_with state rsid s_disconnected resumeAllowed false reason)
      else invalidSession state event
  | resume_requested =>
      if (ss_phase state === s_disconnected) && resumeAllowed
      then session_transitioned (session_with state rsid s_resuming resumeAllowed false reason)
      else invalidSession state event
  | resumed =>
      if ss_phase state === s_resuming
      then session_transitioned (session_with state rsid s_registered resumeAllowed true reason)
      else invalidSession state event
  | resume_rejected =>
      if ss_phase state === s_resuming
      then session_transitioned (session_with state None s_re_enrolling false false reason)
      else invalidSession state event
  | re_enrolled r =>
      if (ss_phase state === s_re_enrolling) && (r !== [])
      then session_transitioned (session_with state (Some r) s_registered true true reason)
      else invalidSession state event
  end.

End Connection.

(** * Facts *)

Module ConnectionFacts.
Import Backoff Connection.

(** States the transitions can reach from a fresh lifecycle. *)
Inductive conn_reachable : ConnectionLifecycleState → Prop :=
| conn_init : conn_reachable createConnectionLifecycle
| conn_step s e s' :
    conn_reachable s → transitionConnection s e = Ok (transitioned s') → conn_reachable s'.

(** The phases in which the handshake has completed. *)
Definition established (p : ConnectionPhase) : bool :=
  bool_decide (p ∈ [steady; degraded; resuming; re_enrolling]).

Definition decision_consistent (s : ConnectionLifecycleState) : Prop :=
  match cs_phase s with
  | retry_paused =>
      ∃ r d, cs_retryPauseReason s = Some r ∧ cs_lastRetryDecision s = Some d ∧
             rd_action d = act_pause ∧ rd_pauseReason d = Some r
  | shutdown => cs_lastRetryDecision s = Some stop_decision
  | backoff =>
      cs_retryPauseReason s = None ∧
      ∃ w d, cs_lastRetryDecision s = Some d ∧ rd_action d = act_backoff ∧
             rd_waitAttemptIndex d = Some w ∧ rd_jitterLimitMs d = Some (backoff_spec w) ∧
             0 <= w ∧ cs_nextAttemptIndex s = Z.min (w + 1) MAX_SAFE_INTEGER
  | _ => cs_retryPauseReason s = None
  end.

(** What every reachable connection state satisfies. *)
Record conn_inv (s : ConnectionLifecycleState) : Prop := {
  ci_index : 0 <= cs_nextAttemptIndex s <= MAX_SAFE_INTEGER;
  ci_phase : cs_phase s ≠ disconnected;
  ci_protocol : established (cs_phase s) = true →
    ∃ p, cs_selectedProtocol s = Some p ∧ 1 <= p <= MAX_SAFE_INTEGER;
  ci_capabilities : StronglySorted (λ a b, str_ltb a b = true) (cs_grantedCapabilities s);
  ci_decision : decision_consistent s }.

Lemma scheduleBackoff_ok s steady_ms retry_ms s' :
  conn_inv s → scheduleBackoff s steady_ms retry_ms = Ok s' → conn_inv s'.
Proof.
  intros [Hi _ _ Hc _] H. unfold scheduleBackoff in H.
  apply bind_ok in H as (? & _ & H).
  set (w := if num_geb steady_ms _ then 0 else cs_nextAttemptIndex s) in H.
  assert (0 <= w <= MAX_SAFE_INTEGER) as Hw.
  { unfold w. destruct (num_geb _ _); [unfold MAX_SAFE_INTEGER; lia|done]. }
  rewrite limit_eq in H by done. cbn in H. injection H as <-.
  constructor; cbn; [lia|done|done|done|]. split; [done|]. eexists w, _. repeat split; lia || done.
Qed.

Lemma scheduleBackoff_total s steady_ms retry_ms :
  0 <= cs_nextAttemptIndex s <= MAX_SAFE_INTEGER →
  isNonNegativeFinite steady_ms = true → isNonNegativeFinite retry_ms = true →
  ∃ s', scheduleBackoff s steady_ms retry_ms = Ok s'.
Proof.
  intros Hi H1 H2. unfold scheduleBackoff. rewrite H1, H2. cbn -[reconnectBackoffLimitMs].
  rewrite limit_eq; [cbn; eauto|].
  destruct (num_geb _ _); [unfold MAX_SAFE_INTEGER; lia|done].
Qed.

Lemma capabilities_sorted caps :
  StronglySorted (λ a b, str_ltb a b = true) (sort_by str_leb (unique caps)).
Proof.
  pose proof (sort_by_sorted str_leb str_leb_total str_leb_trans (unique caps)) as Hs.
  assert (NoDup (sort_by str_leb (unique caps))) as Hnd
    by (rewrite sort_by_perm; apply unique_nodup).
  induction Hs as [|x xs Hs IH Hf]; [constructor|].
  inversion_clear Hnd as [|?? Hx Hnd']. constructor; [by apply IH|].
  rewrite Forall_forall in *. intros y Hy. specialize (Hf y Hy).
  destruct (str_ltb_cases x y) as [?|[->|Hyx]]; [done|done|].
  unfold str_leb in Hf. by rewrite Hyx in Hf.
Qed.

Ltac conn_cases H :=
  repeat match type of H with
  | (if ?b then _ else _) = _ => let E := fresh "Hif" in destruct b eqn:E
  end;
  try discriminate H.

(** The phase test a transition passed. *)
Ltac phase_cases s :=
  repeat match goal with
  | H : _ || _ = true |- _ => apply orb_true_iff in H as [?|?]
  | H : _ && _ = false |- _ => apply andb_false_iff in H as [?|?]
  | H : bool_decide (cs_phase s = _) = true |- _ => apply bool_decide_eq_true in H
  | H : negb (bool_decide (cs_phase s = _)) = false |- _ =>
      apply negb_false_iff, bool_decide_eq_true in H
  end.

Lemma conn_inv_plain s p :
  conn_inv s → p ∉ [disconnected; backoff; retry_paused; shutdown] →
  cs_retryPauseReason s = None → (established p = true → established (cs_phase s) = true) →
  conn_inv (with_phase p s).
Proof.
  intros [Hi Hp Hs Hc Hd] Hpp Hr He. constructor; cbn; [done|set_solver|auto|done|].
  unfold decision_consistent. cbn. destruct p; try done; exfalso; set_solver.
Qed.

Lemma inv_no_reason s :
  conn_inv s → cs_phase s ∉ [retry_paused; shutdown] → cs_retryPauseReason s = None.
Proof.
  intros [_ _ _ _ Hd] Hp. unfold decision_consistent in Hd.
  destruct (cs_phase s); try done; try (exfalso; set_solver). by destruct Hd.
Qed.

Lemma pauseRetry_inv s r : conn_inv s → conn_inv (pauseRetry s r).
Proof.
  intros [Hi _ _ Hc _]. constructor; cbn; try done. unfold decision_consistent. cbn. eauto 10.
Qed.

Lemma enter_shutdown_inv s : conn_inv s → conn_inv (enter_shutdown s).
Proof. intros [Hi _ _ Hc _]. by constructor. Qed.

Lemma reset_idle_inv s : conn_inv s → conn_inv (with_retry idle None None s).
Proof. intros [Hi _ _ Hc _]. by constructor. Qed.

Lemma hello_inv s e p caps s' :
  conn_inv s → on_hello_accepted s e p caps = Ok (transitioned s') → conn_inv s'.
Proof.
  intros [Hi _ _ _ _] H. unfold on_hello_accepted in H. conn_cases H. injection H as <-.
  apply orb_false_iff in Hif as [Hif Hge]. bsimp.
  pose proof (isSafeInteger_range p ltac:(done)).
  assert (1 <= num_Z p).
  { destruct p; try done. cbn in Hge. by bsimp. }
  constructor; cbn; [done|done|intros _; eexists; split; [done|lia]| |done].
  apply capabilities_sorted.
Qed.

Ltac plain_phase s :=
  apply conn_inv_plain;
    [done | set_solver
    | apply inv_no_reason; [done|]; match goal with E : cs_phase s = _ |- _ => rewrite E end; set_solver
    | match goal with E : cs_phase s = _ |- _ => rewrite E end; done ].

Ltac keep_phase s H := conn_cases H; injection H as <-; phase_cases s; plain_phase s.

Lemma transition_inv s e s' :
  conn_inv s → transitionConnection s e = Ok (transitioned s') → conn_inv s'.
Proof.
  intros Hinv H. destruct e; cbn [transitionConnection] in H.
  all: try (keep_phase s H; fail).
  - by eapply hello_inv.
  - unfold on_heartbeat_silence in H. conn_cases H.
    + apply bind_ok in H as (s1 & Hs & [= <-]). by eapply scheduleBackoff_ok.
    + injection H as <-. apply orb_false_iff in Hif as [Hif _].
      destruct (num_geb _ RBP_HEARTBEAT_DEGRADED_AFTER_MS); phase_cases s; plain_phase s.
  - unfold on_connection_failed in H. conn_cases H.
    destruct failure; try (injection H as <-; by apply pauseRetry_inv);
      apply bind_ok in H as (s1 & Hs & [= <-]); by eapply scheduleBackoff_ok.
  - conn_cases H. injection H as <-. by apply reset_idle_inv.
  - unfold on_goodbye in H. conn_cases H.
    destruct reason; try (injection H as <-; by apply pauseRetry_inv || by apply enter_shutdown_inv);
      apply bind_ok in H as (s1 & Hs & [= <-]); by eapply scheduleBackoff_ok.
  - injection H as <-. by apply enter_shutdown_inv.
  - conn_cases H. injection H as <-. by apply reset_idle_inv.
Qed.

Lemma init_inv : conn_inv createConnectionLifecycle.
Proof.
  constructor; [|done|done|constructor|done].
  cbn [cs_nextAttemptIndex createConnectionLifecycle]. unfold MAX_SAFE_INTEGER. lia.
Qed.

Lemma reachable_inv s : conn_reachable s → conn_inv s.
Proof. induction 1; [apply init_inv|by eapply transition_inv]. Qed.

(** The timing inputs an event carries are non-negative finite numbers. *)
Definition timing_ok (e : ConnectionEvent) : bool :=
  match e with
  | heartbeat_silence _ c => isNonNegativeFinite (or_zero c)
  | connection_failed _ c r | goodbye _ r c =>
      isNonNegativeFinite (or_zero c) && isNonNegativeFinite (or_zero r)
  | _ => true
  end.

Lemma transition_total s e :
  conn_inv s → timing_ok e = true → ∃ t, transitionConnection s e = Ok t.
Proof.
  intros [Hi _ _ _ _] Ht.
  destruct e; cbn in Ht |- *; unfold on_hello_accepted, on_heartbeat_silence, on_connection_failed,
    on_goodbye, invalidConnection, move; repeat case_match; eauto; bsimp;
    edestruct (scheduleBackoff_total s) as [s' ->]; eauto; done.
Qed.

(** Feeding a sequence of events; an invalid one leaves the state as it is. *)
Fixpoint run (s : ConnectionLifecycleState) (es : list ConnectionEvent)
  : result js_error ConnectionLifecycleState :=
  match es with
  | [] => Ok s
  | e :: es =>
      t ← transitionConnection s e;
      match t with transitioned s' => run s' es | invalid_transition s' _ => run s' es end
  end.

Definition wakes (e : ConnectionEvent) : bool :=
  match e with retry_condition_changed | shutdown_requested => true | _ => false end.

Lemma paused_step s e :
  cs_phase s = retry_paused → wakes e = false →
  transitionConnection s e = Ok (invalid_transition s e).
Proof.
  intros Hp Hw. destruct e; try done; cbn; unfold on_hello_accepted, on_heartbeat_silence,
    on_connection_failed, on_goodbye; rewrite Hp; done.
Qed.

(** [n] rounds of a failed attempt and its retry timer: the jitter limits waited. *)
Fixpoint retry_waits (n : nat) (s : ConnectionLifecycleState) : result js_error (list Z) :=
  match n with
  | O => Ok []
  | S n =>
      s1 ← run s [connection_failed fail_environment None None];
      s2 ← run s1 [retry_timer_elapsed];
      ws ← retry_waits n s2;
      Ok (default 0 (d ← cs_lastRetryDecision s1; rd_jitterLimitMs d) :: ws)
  end.

Lemma retry_waits_eq n s :
  cs_phase s = connecting → 0 <= cs_nextAttemptIndex s →
  cs_nextAttemptIndex s + Z.of_nat n <= MAX_SAFE_INTEGER →
  retry_waits n s = Ok (map backoff_spec (seqZ (cs_nextAttemptIndex s) (Z.of_nat n))).
Proof.
  revert s. induction n as [|n IH]; intros s Hp H0 Hn; [done|].
  assert (scheduleBackoff s (JInt 0) (JInt 0) = Ok {|
    cs_phase := backoff;
    cs_nextAttemptIndex := cs_nextAttemptIndex s + 1;
    cs_selectedProtocol := cs_selectedProtocol s;
    cs_grantedCapabilities := cs_grantedCapabilities s;
    cs_retryPauseReason := None;
    cs_lastRetryDecision := Some {|
      rd_action := act_backoff;
      rd_waitAttemptIndex := Some (cs_nextAttemptIndex s);
      rd_jitterLimitMs := Some (backoff_spec (cs_nextAttemptIndex s));
      rd_retryAfterFloorMs := JInt 0;
      rd_resetApplied := false;
      rd_pauseReason := None |} |}) as Hs.
  { unfold scheduleBackoff. cbn -[reconnectBackoffLimitMs MAX_SAFE_INTEGER].
    rewrite limit_eq by lia. cbn -[MAX_SAFE_INTEGER]. do 2 f_equal. lia. }
  cbn [retry_waits run transitionConnection]. unfold on_connection_failed. rewrite Hp.
  cbn [or_zero default]. rewrite bool_decide_false, !bool_decide_false by done. cbn [orb].
  unfold or_zero. cbn [default]. rewrite Hs. cbn -[seqZ Z.of_nat].
  rewrite bool_decide_true by done. cbn -[seqZ Z.of_nat]. rewrite IH; cbn -[seqZ Z.of_nat]; [|done|lia|lia].
  rewrite Nat2Z.inj_succ, (seqZ_cons (cs_nextAttemptIndex s)) by lia. cbn -[seqZ Z.of_nat Z.succ Z.pred].
  by rewrite Z.pred_succ.
Qed.

(** ** Sessions *)

Inductive sess_reachable (key : jstr) : SessionLifecycleState → Prop :=
| sess_init s : createSessionLifecycle key = Ok s → sess_reachable key s
| sess_step s e s' :
    sess_reachable key s → transitionSession s e = session_transitioned s' → sess_reachable key s'.

(** Dispatch is allowed exactly while registered, resume exactly while there is
    something to resume, and those phases carry a session id. *)
Record sess_inv (key : jstr) (s : SessionLifecycleState) : Prop := {
  si_key : ss_localSessionKey s = key ∧ key ≠ [];
  si_dispatch : ss_dispatchAllowed s = true ↔ ss_phase s = s_registered;
  si_resume : ss_resumeAllowed s = true ↔ ss_phase s ∈ [s_registered; s_disconnected; s_resuming];
  si_rsid : ss_resumeAllowed s = true → ∃ r, ss_rsid s = Some r ∧ r ≠ [];
  si_fresh : ss_phase s ∈ [s_discovered; s_registering; s_re_enrolling] → ss_rsid s = None;
  si_reason : ss_phase s = s_unregistered ↔ is_Some (ss_unregisterReason s) }.

Lemma sess_inv_init key s : createSessionLifecycle key = Ok s → sess_inv key s.
Proof.
  unfold createSessionLifecycle. intros H. apply bind_ok in H as (? & Hk & [= <-]).
  apply reject_if_ok in Hk. bsimp. constructor; cbn; try done; split; try done; try set_solver.
Qed.

Lemma sess_inv_step key s e s' :
  sess_inv key s → transitionSession s e = session_transitioned s' → sess_inv key s'.
Proof.
  intros [Hk Hd Hr Hid Hf Hu] H.
  assert (∀ x, ss_phase s = x → x ≠ s_unregistered → ss_unregisterReason s = None) as Hnone.
  { intros x Hx Hne. destruct (ss_unregisterReason s) eqn:E; [|done].
    exfalso. apply Hne. rewrite <- Hx. apply Hu. eauto. }
  destruct e; cbn in H; unfold invalidSession in H;
    repeat match type of H with (if ?b then _ else _) = _ => destruct b eqn:?; [|discriminate H] end;
    injection H as <-; bsimp;
    repeat match goal with H : _ || _ = true |- _ => apply orb_true_iff in H as [?|?]; bsimp end;
    constructor; cbn; try done;
    repeat match goal with H : ss_phase s = _ |- _ => rewrite H in *; clear H end;
    try (erewrite Hnone by done); try (split; [done|set_solver]); try set_solver; eauto.
Qed.

Lemma sess_reachable_inv key s : sess_reachable key s → sess_inv key s.
Proof. induction 1; [by apply sess_inv_init|by eapply sess_inv_step]. Qed.

(** ** Properties *)

(** Every state a connection can reach keeps its retry index a safe
    integer, is never [disconnected], has a negotiated protocol whenever the
    handshake is complete, holds a strictly sorted capability list, and carries
    a retry decision that matches its phase (the pause reason while paused, a
    stop decision after shutdown, in backoff the capped exponential limit of the
    attempt it waits for, with the next index one further). *)
Theorem connection_invariant s : conn_reachable s → conn_inv s.
Proof. apply reachable_inv. Qed.

Definition demo_open : list ConnectionEvent :=
  [start; transport_opened; authentication_accepted;
   hello_accepted (JInt 1) [js "b"; js "a"; js "b"];
   heartbeat_silence (JInt 70000) None].

Lemma run_reachable s es s' : conn_reachable s → run s es = Ok s' → conn_reachable s'.
Proof.
  revert s. induction es as [|e es IH]; cbn; intros s Hr H; [by bsimp|].
  apply bind_ok in H as ([s1|s1 e1] & Ht & H).
  - eapply IH; [|done]. by eapply conn_step.
  - eapply IH; [|done]. assert (s1 = s) as ->; [|done].
    clear H. destruct e; cbn in Ht; unfold on_hello_accepted, on_heartbeat_silence,
      on_connection_failed, on_goodbye, invalidConnection, move in Ht;
      repeat (case_match; cbn in Ht); simplify_eq; try done;
      apply bind_ok in Ht as (? & _ & ?); done.
Qed.

Lemma connection_invariant_witness :
  ∃ s, run createConnectionLifecycle demo_open = Ok s ∧ cs_phase s = backoff ∧ conn_inv s.
Proof.
  destruct (run createConnectionLifecycle demo_open) as [s|] eqn:E; [|by vm_compute in E].
  exists s. split; [done|]. split; [vm_compute in E; by injection E as <-|].
  apply connection_invariant. eapply run_reachable; [constructor|exact E].
Defined.

(** In every reachable state, every event whose timing inputs are
    non-negative finite numbers is answered with a transition or a refusal: the
    lifecycle never throws. *)
Theorem connection_never_throws s e :
  conn_reachable s → timing_ok e = true → ∃ t, transitionConnection s e = Ok t.
Proof. intros. apply transition_total; [by apply reachable_inv|done]. Qed.

Lemma connection_never_throws_witness :
  ∃ t, transitionConnection createConnectionLifecycle
         (goodbye bye_update (Some (JDec 15 1)) None) = Ok t.
Proof. apply connection_never_throws; [constructor|reflexivity]. Defined.

(** A connection whose retry is paused (credentials, version or trust were
    refused, or revoked) stays exactly as it is through any sequence of events
    that contains neither a changed retry condition nor a shutdown request: it
    never reconnects by itself. *)
Theorem paused_connection_stays s es :
  cs_phase s = retry_paused → forallb (λ e, negb (wakes e)) es = true → run s es = Ok s.
Proof.
  intros Hp. induction es as [|e es IH]; cbn; intros Hw; [done|]. bsimp.
  rewrite paused_step by done. cbn. by apply IH.
Qed.

Lemma paused_connection_stays_witness :
  run (pauseRetry createConnectionLifecycle pause_auth)
      [start; retry_timer_elapsed; connection_failed fail_environment None None; service_started] =
  Ok (pauseRetry createConnectionLifecycle pause_auth).
Proof. apply paused_connection_stays; reflexivity. Defined.

(** [n] consecutive failed attempts, each followed by its retry timer, wait
    for jitter limits [min(60000, 1000 * 2^k)] with [k] counting up from the
    current attempt index. *)
Theorem retry_schedule n s :
  cs_phase s = connecting → 0 <= cs_nextAttemptIndex s →
  cs_nextAttemptIndex s + Z.of_nat n <= MAX_SAFE_INTEGER →
  retry_waits n s = Ok (map backoff_spec (seqZ (cs_nextAttemptIndex s) (Z.of_nat n))).
Proof. apply retry_waits_eq. Qed.

Lemma retry_schedule_witness :
  retry_waits 8 (with_phase connecting createConnectionLifecycle) =
  Ok [1000; 2000; 4000; 8000; 16000; 32000; 60000; 60000].
Proof. rewrite retry_schedule; [reflexivity|reflexivity|vm_compute; done|vm_compute; done]. Defined.

(** A session may dispatch exactly while it is registered, may be resumed
    exactly while it is registered, disconnected or resuming, then holds a
    non-empty session id, and has no id before registration or after a rejected
    resume; it carries an unregister reason exactly when it is unregistered. *)
Theorem session_invariant key s : sess_reachable key s → sess_inv key s.
Proof. apply sess_reachable_inv. Qed.

Lemma session_invariant_witness :
  ∃ s, sess_inv (js "local") s ∧ ss_phase s = s_registered ∧ ss_rsid s = Some (js "rs-1").
Proof.
  pose (s0 := {| ss_localSessionKey := js "local"; ss_rsid := None; ss_phase := s_discovered;
                 ss_resumeAllowed := false; ss_dispatchAllowed := false;
                 ss_unregisterReason := None |}).
  pose (s1 := session_with s0 None s_registering false false None).
  exists (session_with s1 (Some (js "rs-1")) s_registered true true None).
  split; [apply session_invariant|by split].
  apply (sess_step _ s1 (registered (js "rs-1"))); [|reflexivity].
  apply (sess_step _ s0 register_requested); [|reflexivity]. by apply sess_init.
Defined.

(** Unregistration is final: every further event but another unregistration
    is refused, so the session id is never used for dispatch again. *)
Theorem session_unregistered_final s e s' :
  ss_phase s = s_unregistered → transitionSession s e = session_transitioned s' →
  (∃ r, e = unregister r) ∧ ss_phase s' = s_unregistered ∧ ss_dispatchAllowed s' = false.
Proof.
  intros Hp H. destruct e; cbn in H; try rewrite Hp in H; cbn in H; try discriminate H.
  injection H as <-. eauto.
Qed.

Lemma session_unregistered_final_witness :
  let s := {| ss_localSessionKey := js "k"; ss_rsid := Some (js "rs-1"); ss_phase := s_unregistered;
              ss_resumeAllowed := false; ss_dispatchAllowed := false;
              ss_unregisterReason := Some revit_exited |} in
  ∃ s', transitionSession s (unregister bridge_shutdown) = session_transitioned s' ∧
        ss_dispatchAllowed s' = false.
Proof.
  intros s. eexists. split; [reflexivity|].
  apply (session_unregistered_final s (unregister bridge_shutdown)); reflexivity.
Defined.

End ConnectionFacts.
