(* ===== verification/Sequence.v ===== *)
(** Per-session sequence numbers and acknowledgements:
    packages/protocol/src/sequenceState.ts.

    One [RbpSequenceState] is one endpoint's view of a session: what it has sent
    and not yet seen acknowledged (the outbox), and what it has accepted.  The
    file also models the dispatch window, which admits one invocation per
    session at a time. *)

From S2P Require Import Prelude JsString JsValue Canonical Sha256.

Module Sequence.
Import Canonical.

Definition RBP_MAX_SAFE_SEQUENCE : Z := MAX_SAFE_INTEGER.

Record DataEnvelopeSnapshot := {
  de_v : jsnum;
  de_type : jstr;
  de_id : jstr;
  de_rsid : jstr;
  de_seq : jsnum;
  de_ack : option jsnum;
  de_ts : option jstr;
  de_payload : jsval }.

Record OutboundDataDraft := {
  od_v : option jsnum;
  od_type : jstr;
  od_id : jstr;
  od_ack : option jsnum;
  od_ts : option jstr;
  od_payload : jsval }.

Record RetainedOutboundData := {
  ro_immutableDigest : jstr;
  ro_envelope : DataEnvelopeSnapshot }.

Record AcceptedInboundData := {
  ai_seq : Z;
  ai_immutableDigest : jstr }.

Record RbpSequenceState := {
  rs_rsid : jstr;
  rs_nextTxSeq : option Z;
  rs_highestTxSeq : Z;
  rs_lastRxSeq : Z;
  rs_lastPeerAck : Z;
  rs_outbox : list RetainedOutboundData;
  rs_acceptedInbound : list AcceptedInboundData }.

Inductive QueueOutboundResult :=
| queued (state : RbpSequenceState) (envelope : DataEnvelopeSnapshot) (renewalRequired : bool)
| renewal_required (state : RbpSequenceState) (outboxDrained : bool).

Inductive AckFault := unsafe_ack | ack_beyond_sent.

Inductive AckResult :=
| ack_advanced (state : RbpSequenceState) (acknowledgedSeqs : list jsnum)
| ack_duplicate (state : RbpSequenceState)
| ack_stale (state : RbpSequenceState)
| ack_fault (state : RbpSequenceState) (reason : AckFault).

Inductive InboundFault :=
| wrong_rsid
| unsafe_sequence
| bad_ack (reason : AckFault)
| sequence_exhausted
| duplicate_identity_mismatch.

Inductive InboundDataResult :=
| in_accepted (state : RbpSequenceState) (ack : Z)
| in_duplicate (state : RbpSequenceState) (ack : Z)
| in_gap (state : RbpSequenceState) (ack : Z) (expectedSeq : Z) (receivedSeq : Z)
| in_fault (state : RbpSequenceState) (ack : Z) (reason : InboundFault).

Definition assertNonEmpty (value : jstr) (name : string) : result js_error unit :=
  throw_if (value === []) (JsError TypeError (js name ++ js " must not be empty")).

Definition isSafeSequence (value : jsnum) (allowZero : bool) : bool :=
  isSafeInteger value && num_geb value (if allowZero then 0 else 1) &&
  num_leb value RBP_MAX_SAFE_SEQUENCE.

(** [structuredClone] of a JSON payload is the payload. *)
Definition snapshotEnvelope (e : DataEnvelopeSnapshot) : DataEnvelopeSnapshot := {|
  de_v := JInt 1;
  de_type := de_type e;
  de_id := de_id e;
  de_rsid := de_rsid e;
  de_seq := de_seq e;
  de_ack := de_ack e;
  de_ts := de_ts e;
  de_payload := de_payload e |}.

Definition envelope_material (e : DataEnvelopeSnapshot) : jsval :=
  obj [(js "id", VStr (de_id e));
       (js "payload", de_payload e);
       (js "rsid", VStr (de_rsid e));
       (js "seq", VNum (de_seq e));
       (js "type", VStr (de_type e));
       (js "v", VNum (de_v e))].

Definition createRbpSequenceState (rsid : jstr) : result js_error RbpSequenceState :=
  assertNonEmpty rsid "rsid" ;;
  Ok {|
    rs_rsid := rsid;
    rs_nextTxSeq := Some 1;
    rs_highestTxSeq := 0;
    rs_lastRxSeq := 0;
    rs_lastPeerAck := 0;
    rs_outbox := [];
    rs_acceptedInbound := [] |}.

Definition with_tx (s : RbpSequenceState) (next : option Z) (highest : Z)
  (outbox : list RetainedOutboundData) : RbpSequenceState := {|
  rs_rsid := rs_rsid s;
  rs_nextTxSeq := next;
  rs_highestTxSeq := highest;
  rs_lastRxSeq := rs_lastRxSeq s;
  rs_lastPeerAck := rs_lastPeerAck s;
  rs_outbox := outbox;
  rs_acceptedInbound := rs_acceptedInbound s |}.

Definition with_acked (s : RbpSequenceState) (ack : Z) (outbox : list RetainedOutboundData)
  : RbpSequenceState := {|
  rs_rsid := rs_rsid s;
  rs_nextTxSeq := rs_nextTxSeq s;
  rs_highestTxSeq := rs_highestTxSeq s;
  rs_lastRxSeq := rs_lastRxSeq s;
  rs_lastPeerAck := ack;
  rs_outbox := outbox;
  rs_acceptedInbound := rs_acceptedInbound s |}.

Definition with_rx (s : RbpSequenceState) (last : Z) (accepted : list AcceptedInboundData)
  : RbpSequenceState := {|
  rs_rsid := rs_rsid s;
  rs_nextTxSeq := rs_nextTxSeq s;
  rs_highestTxSeq := rs_highestTxSeq s;
  rs_lastRxSeq := last;
  rs_lastPeerAck := rs_lastPeerAck s;
  rs_outbox := rs_outbox s;
  rs_acceptedInbound := accepted |}.

(** [ack !== undefined && test(ack)] *)
Definition ack_test (test : jsnum → bool) (ack : option jsnum) : bool :=
  match ack with None => false | Some a => test a end.

Section operations.
Context `{Hasher}.

Definition dataEnvelopeImmutableDigest (envelope : DataEnvelopeSnapshot) : result js_error jstr :=
  makeJsonDigest (envelope_material envelope).

Definition queueOutboundData (state : RbpSequenceState) (draft : OutboundDataDraft)
  : result js_error QueueOutboundResult :=
  assertNonEmpty (od_type draft) "type" ;;
  assertNonEmpty (od_id draft) "id" ;;
  reject_if (ack_test (λ v, v !== JInt 1) (od_v draft)) RangeError
    "RBP/1 outbound data must use v=1" ;;
  reject_if (ack_test (λ a, negb (isSafeSequence a true)) (od_ack draft)) RangeError
    "ack must be a JSON-safe non-negative integer" ;;
  reject_if (ack_test (λ a, num_gtb a (rs_lastRxSeq state)) (od_ack draft)) RangeError
    "outbound ack cannot exceed lastRxSeq" ;;
  match rs_nextTxSeq state with
  | None => Ok (renewal_required state (bool_decide (length (rs_outbox state) = 0%nat)))
  | Some seq =>
      let envelope := snapshotEnvelope {|
        de_v := JInt 1;
        de_type := od_type draft;
        de_id := od_id draft;
        de_rsid := rs_rsid state;
        de_seq := JInt seq;
        de_ack := od_ack draft;
        de_ts := od_ts draft;
        de_payload := od_payload draft |} in
      immutableDigest ← dataEnvelopeImmutableDigest envelope;
      let retained := {| ro_immutableDigest := immutableDigest; ro_envelope := envelope |} in
      let nextTxSeq := if seq === RBP_MAX_SAFE_SEQUENCE then None else Some (seq + 1) in
      Ok (queued (with_tx state nextTxSeq seq (rs_outbox state ++ [retained]))
                 (snapshotEnvelope envelope) (is_null nextTxSeq))
  end.

Definition applyCumulativeAck (state : RbpSequenceState) (ack : jsnum) : AckResult :=
  if negb (isSafeSequence ack true) then ack_fault state unsafe_ack
  else
    let a := num_Z ack in
    if rs_highestTxSeq state <? a then ack_fault state ack_beyond_sent
    else if a <? rs_lastPeerAck state then ack_stale state
    else if a =? rs_lastPeerAck state then ack_duplicate state
    else
      let acknowledgedSeqs :=
        map (λ entry, de_seq (ro_envelope entry))
          (List.filter (λ entry, num_leb (de_seq (ro_envelope entry)) a) (rs_outbox state)) in
      ack_advanced
        (with_acked state a
           (List.filter (λ entry, num_gtb (de_seq (ro_envelope entry)) a) (rs_outbox state)))
        acknowledgedSeqs.

(** The part of [acceptInboundData] after the piggybacked acknowledgement. *)
Definition accept_after_ack (stateAfterAck : RbpSequenceState) (incoming : DataEnvelopeSnapshot)
  : result js_error InboundDataResult :=
  let lastRx := rs_lastRxSeq stateAfterAck in
  if negb (isSafeSequence (de_seq incoming) false)
  then Ok (in_fault stateAfterAck lastRx unsafe_sequence)
  else
    let seq := num_Z (de_seq incoming) in
    digest ← dataEnvelopeImmutableDigest incoming;
    if seq <=? lastRx then
      match find_first (λ entry, ai_seq entry =? seq) (rs_acceptedInbound stateAfterAck) with
      | Some retained =>
          if ai_immutableDigest retained === digest
          then Ok (in_duplicate stateAfterAck lastRx)
          else Ok (in_fault stateAfterAck lastRx duplicate_identity_mismatch)
      | None => Ok (in_fault stateAfterAck lastRx duplicate_identity_mismatch)
      end
    else if lastRx =? RBP_MAX_SAFE_SEQUENCE
    then Ok (in_fault stateAfterAck lastRx sequence_exhausted)
    else
      let expectedSeq := lastRx + 1 in
      if negb (seq =? expectedSeq)
      then Ok (in_gap stateAfterAck lastRx expectedSeq seq)
      else
        Ok (in_accepted
              (with_rx stateAfterAck seq
                 (rs_acceptedInbound stateAfterAck ++
                  [{| ai_seq := seq; ai_immutableDigest := digest |}]))
              seq).

Definition acceptInboundData (state : RbpSequenceState) (incoming : DataEnvelopeSnapshot)
  : result js_error InboundDataResult :=
  if de_rsid incoming !== rs_rsid state
  then Ok (in_fault state (rs_lastRxSeq state) wrong_rsid)
  else match de_ack incoming with
  | None => accept_after_ack state incoming
  | Some ack =>
      match applyCumulativeAck state ack with
      | ack_fault _ reason => Ok (in_fault state (rs_lastRxSeq state) (bad_ack reason))
      | ack_advanced s _ | ack_duplicate s | ack_stale s => accept_after_ack s incoming
      end
  end.

End operations.

(** The [refresh] argument of a retransmission. *)
Record Refresh := { rf_ack : option jsnum; rf_ts : option jstr }.

Definition retransmitOutbox (state : RbpSequenceState) (refresh : Refresh)
  : result js_error (list DataEnvelopeSnapshot) :=
  reject_if (ack_test (λ a, negb (isSafeSequence a true)) (rf_ack refresh)) RangeError
    "ack must be a JSON-safe non-negative integer" ;;
  reject_if (ack_test (λ a, num_gtb a (rs_lastRxSeq state)) (rf_ack refresh)) RangeError
    "retransmission ack cannot exceed lastRxSeq" ;;
  Ok (map (λ entry,
        let e := ro_envelope entry in
        snapshotEnvelope {|
          de_v := de_v e;
          de_type := de_type e;
          de_id := de_id e;
          de_rsid := de_rsid e;
          de_seq := de_seq e;
          de_ack := match rf_ack refresh with Some a => Some a | None => de_ack e end;
          de_ts := match rf_ts refresh with Some t => Some t | None => de_ts e end;
          de_payload := de_payload e |})
      (sort_by (λ l r, num_Z (de_seq (ro_envelope l)) <=? num_Z (de_seq (ro_envelope r)))
         (rs_outbox state))).

Inductive RenewalStatus := not_required | drain_required | ready_for_new_rsid.

Definition sequenceRenewalStatus (state : RbpSequenceState) : RenewalStatus :=
  match rs_nextTxSeq state with
  | Some _ => not_required
  | None => if bool_decide (length (rs_outbox state) = 0%nat) then ready_for_new_rsid else drain_required
  end.

(** ** The dispatch window *)

Inductive DispatchKind := dispatch_invoke | dispatch_invoke_batch.

Record DispatchWindowEntry := {
  dw_rsid : jstr;
  dw_invocationId : jstr;
  dw_kind : DispatchKind }.

Definition DispatchWindowLedger := list DispatchWindowEntry.

Inductive OpenDispatchWindowResult :=
| dw_opened (ledger : DispatchWindowLedger)
| dw_fault (ledger : DispatchWindowLedger) (active : DispatchWindowEntry).

Definition createDispatchWindowLedger : DispatchWindowLedger := [].

Definition openDispatchWindow (ledger : DispatchWindowLedger) (entry : DispatchWindowEntry)
  : result js_error OpenDispatchWindowResult :=
  assertNonEmpty (dw_rsid entry) "rsid" ;;
  assertNonEmpty (dw_invocationId entry) "invocationId" ;;
  match find_first (λ candidate, dw_rsid candidate === dw_rsid entry) ledger with
  | Some active => Ok (dw_fault ledger active)
  | None => Ok (dw_opened (ledger ++ [entry]))
  end.

Definition closeDispatchWindow (ledger : DispatchWindowLedger) (rsid invocationId : jstr)
  : result js_error DispatchWindowLedger :=
  match find_first (λ candidate, dw_rsid candidate === rsid) ledger with
  | None => Throw (JsError PlainError (js "no active dispatch window for " ++ rsid))
  | Some active =>
      throw_if (dw_invocationId active !== invocationId)
        (JsError PlainError
           (js "dispatch window for " ++ rsid ++ js " belongs to " ++ dw_invocationId active)) ;;
      Ok (List.filter (λ candidate, dw_rsid candidate !== rsid) ledger)
  end.

End Sequence.

(** * Facts *)

Module SequenceFacts.
Import Canonical CanonicalFacts Sequence.

Section facts.
Context `{Hasher}.

Definition outbox_seqs (s : RbpSequenceState) : list jsnum :=
  map (λ r, de_seq (ro_envelope r)) (rs_outbox s).

(** A retained envelope carries its digest and belongs to the session. *)
Definition retained_ok (rsid : jstr) (r : RetainedOutboundData) : Prop :=
  dataEnvelopeImmutableDigest (ro_envelope r) = Ok (ro_immutableDigest r) ∧
  de_rsid (ro_envelope r) = rsid ∧ de_v (ro_envelope r) = JInt 1.

(** The outbox is the unacknowledged interval, the accepted log the received
    one, and the next number is the successor of the highest, or absent at the
    last safe integer. *)
Record seq_inv (s : RbpSequenceState) : Prop := {
  sq_rsid : rs_rsid s ≠ [];
  sq_tx : 0 <= rs_lastPeerAck s <= rs_highestTxSeq s;
  sq_max : rs_highestTxSeq s <= RBP_MAX_SAFE_SEQUENCE;
  sq_next : rs_nextTxSeq s =
    if rs_highestTxSeq s =? RBP_MAX_SAFE_SEQUENCE then None else Some (rs_highestTxSeq s + 1);
  sq_outbox : outbox_seqs s =
    map JInt (seqZ (rs_lastPeerAck s + 1) (rs_highestTxSeq s - rs_lastPeerAck s));
  sq_retained : Forall (retained_ok (rs_rsid s)) (rs_outbox s);
  sq_rx : 0 <= rs_lastRxSeq s <= RBP_MAX_SAFE_SEQUENCE;
  sq_accepted : map ai_seq (rs_acceptedInbound s) = seqZ 1 (rs_lastRxSeq s) }.

Lemma filter_seqZ_le m n a :
  m - 1 <= a <= m + n - 1 → List.filter (λ z, z <=? a) (seqZ m n) = seqZ m (a - m + 1).
Proof.
  intros Ha. replace n with ((a - m + 1) + (m + n - 1 - a)) by lia.
  rewrite seqZ_app, List.filter_app by lia.
  rewrite (filter_all _ (seqZ m _)), filter_none, app_nil_r; [done|..]; intros z Hz%elem_of_seqZ.
  - apply Z.leb_gt. lia.
  - apply Z.leb_le. lia.
Qed.

Lemma filter_seqZ_gt m n a :
  m - 1 <= a <= m + n - 1 → List.filter (λ z, a <? z) (seqZ m n) = seqZ (a + 1) (m + n - 1 - a).
Proof.
  intros Ha. replace n with ((a - m + 1) + (m + n - 1 - a)) at 1 by lia.
  rewrite seqZ_app, List.filter_app by lia.
  rewrite (filter_none _ (seqZ m _)), filter_all, app_nil_l; [f_equal; lia|..]; intros z Hz%elem_of_seqZ.
  - apply Z.ltb_lt. lia.
  - apply Z.ltb_ge. lia.
Qed.

(** Filtering commutes with projecting the sequence number. *)
Lemma filter_outbox (p : jsnum → bool) (q : Z → bool) rs zs :
  (∀ z, p (JInt z) = q z) →
  map (λ r, de_seq (ro_envelope r)) rs = map JInt zs →
  map (λ r, de_seq (ro_envelope r)) (List.filter (λ r, p (de_seq (ro_envelope r))) rs) =
  map JInt (List.filter q zs).
Proof.
  intros Hpq. revert zs. induction rs as [|r rs IH]; intros [|z zs] Heq; try done.
  cbn in Heq. injection Heq as Hz Heq. cbn. rewrite Hz, Hpq.
  destruct (q z); cbn; [rewrite Hz; f_equal|]; by apply IH.
Qed.

Lemma isSafeSequence_spec n z0 :
  isSafeSequence n z0 = true →
  n = JInt (num_Z n) ∧ (if z0 then 0 else 1) <= num_Z n <= RBP_MAX_SAFE_SEQUENCE.
Proof.
  unfold isSafeSequence. intros Hs. bsimp. destruct n as [z| | |]; try done.
  cbn in *. bsimp. unfold RBP_MAX_SAFE_SEQUENCE in *. destruct z0; split; try done; lia.
Qed.

Lemma isSafeSequence_int z (z0 : bool) :
  (if z0 then 0 else 1) <= z <= RBP_MAX_SAFE_SEQUENCE → isSafeSequence (JInt z) z0 = true.
Proof.
  intros Hz. unfold isSafeSequence. cbn -[RBP_MAX_SAFE_SEQUENCE MAX_SAFE_INTEGER].
  unfold RBP_MAX_SAFE_SEQUENCE in *. destruct z0; rewrite !andb_true_iff, !Z.leb_le;
    unfold MAX_SAFE_INTEGER in *; lia.
Qed.

Lemma create_sequence_inv rsid s : createRbpSequenceState rsid = Ok s → seq_inv s.
Proof.
  unfold createRbpSequenceState, assertNonEmpty. intros Hc. ok_inv Hc.
  constructor; cbn -[RBP_MAX_SAFE_SEQUENCE]; try done; unfold RBP_MAX_SAFE_SEQUENCE, MAX_SAFE_INTEGER; lia.
Qed.

(** ** Queueing *)

(** What a queued draft becomes on the wire. *)
Definition draft_envelope (s : RbpSequenceState) (d : OutboundDataDraft) (seq : Z) : DataEnvelopeSnapshot := {|
  de_v := JInt 1; de_type := od_type d; de_id := od_id d; de_rsid := rs_rsid s;
  de_seq := JInt seq; de_ack := od_ack d; de_ts := od_ts d; de_payload := od_payload d |}.

Lemma queue_spec s d s' e r :
  seq_inv s → queueOutboundData s d = Ok (queued s' e r) →
  let seq := rs_highestTxSeq s + 1 in
  seq <= RBP_MAX_SAFE_SEQUENCE ∧ e = draft_envelope s d seq ∧
  r = (seq =? RBP_MAX_SAFE_SEQUENCE) ∧
  (∃ digest, dataEnvelopeImmutableDigest e = Ok digest ∧
     s' = with_tx s (if seq =? RBP_MAX_SAFE_SEQUENCE then None else Some (seq + 1)) seq
            (rs_outbox s ++ [{| ro_immutableDigest := digest; ro_envelope := e |}])) ∧
  (∀ a, od_ack d = Some a → a = JInt (num_Z a) ∧ 0 <= num_Z a <= rs_lastRxSeq s).
Proof.
  intros Hinv Hq. unfold queueOutboundData, assertNonEmpty in Hq.
  apply bind_ok in Hq as (? & _ & Hq). apply bind_ok in Hq as (? & _ & Hq).
  apply bind_ok in Hq as (? & _ & Hq).
  apply bind_ok in Hq as (? & Hsafe & Hq). apply bind_ok in Hq as (? & Hle & Hq).
  apply reject_if_ok in Hsafe, Hle. rewrite (sq_next _ Hinv) in Hq.
  destruct (Z.eqb_spec (rs_highestTxSeq s) RBP_MAX_SAFE_SEQUENCE) as [|Hne]; [discriminate Hq|].
  apply bind_ok in Hq as (digest & Hd & Hq). injection Hq as <- <- <-.
  pose proof (sq_max _ Hinv). cbn zeta. split; [lia|]. split; [done|].
  assert (bool_decide (rs_highestTxSeq s + 1 = RBP_MAX_SAFE_SEQUENCE) =
          (rs_highestTxSeq s + 1 =? RBP_MAX_SAFE_SEQUENCE)) as ->.
  { destruct (Z.eqb_spec (rs_highestTxSeq s + 1) RBP_MAX_SAFE_SEQUENCE); case_bool_decide; lia || done. }
  split; [by destruct (_ =? _)|]. split; [eexists; split; [exact Hd|done]|].
  intros a Ha. rewrite Ha in Hsafe, Hle. cbn in Hsafe, Hle. bsimp.
  apply isSafeSequence_spec in Hsafe as [Ha' Hr]. split; [done|].
  rewrite Ha' in Hle. cbn [num_gtb] in Hle. bsimp. cbn [num_Z] in Hle. lia.
Qed.

Lemma queue_inv s d s' e r :
  seq_inv s → queueOutboundData s d = Ok (queued s' e r) → seq_inv s'.
Proof.
  intros Hinv Hq. destruct (queue_spec _ _ _ _ _ Hinv Hq) as (Hmax & -> & _ & (dg & Hd & ->) & _).
  destruct Hinv as [I1 I2 I3 I4 I5 I6 I7 I8].
  constructor; cbn -[RBP_MAX_SAFE_SEQUENCE]; try done; [lia| |].
  - unfold outbox_seqs in *. cbn. rewrite map_app, I5. cbn.
    replace (rs_highestTxSeq s + 1 - rs_lastPeerAck s)
      with (rs_highestTxSeq s - rs_lastPeerAck s + 1) by lia.
    rewrite <- (seqZ_snoc (rs_lastPeerAck s + 1)) by lia.
    rewrite map_app. cbn. do 3 f_equal. lia.
  - apply Forall_app. split; [done|]. by repeat constructor.
Qed.

(** ** Acknowledgements *)

Lemma ack_spec s a :
  seq_inv s → isSafeSequence a true = true →
  match applyCumulativeAck s a with
  | ack_advanced s' seqs =>
      rs_lastPeerAck s < num_Z a <= rs_highestTxSeq s ∧
      seqs = map JInt (seqZ (rs_lastPeerAck s + 1) (num_Z a - rs_lastPeerAck s)) ∧
      ∃ ob, s' = with_acked s (num_Z a) ob ∧ ob ⊆ rs_outbox s ∧ seq_inv s'
  | ack_duplicate s' => s' = s ∧ num_Z a = rs_lastPeerAck s
  | ack_stale s' => s' = s ∧ num_Z a < rs_lastPeerAck s
  | ack_fault s' reason => s' = s ∧ reason = ack_beyond_sent ∧ rs_highestTxSeq s < num_Z a
  end.
Proof.
  intros Hinv Ha. unfold applyCumulativeAck. rewrite Ha. cbn [negb].
  destruct (Z.ltb_spec (rs_highestTxSeq s) (num_Z a)); [done|].
  destruct (Z.ltb_spec (num_Z a) (rs_lastPeerAck s)); [done|].
  destruct (Z.eqb_spec (num_Z a) (rs_lastPeerAck s)); [done|].
  destruct Hinv as [I1 I2 I3 I4 I5 I6 I7 I8].
  split; [lia|]. split.
  - unfold outbox_seqs in I5.
    rewrite (filter_outbox (λ n, num_leb n (num_Z a)) (λ z, z <=? num_Z a) _ _ ltac:(done) I5).
    rewrite filter_seqZ_le by lia. do 2 f_equal. lia.
  - eexists. split; [done|]. split.
    + by intros r [Hr _]%elem_of_filter_bool.
    + constructor; cbn -[RBP_MAX_SAFE_SEQUENCE]; try done; [lia| |].
      * unfold outbox_seqs in *. cbn.
        rewrite (filter_outbox (λ n, num_gtb n (num_Z a)) (λ z, num_Z a <? z) _ _ ltac:(done) I5).
        rewrite filter_seqZ_gt by lia. do 2 f_equal. lia.
      * rewrite Forall_forall in *. intros r [Hr _]%elem_of_filter_bool. by apply I6.
Qed.

Lemma ack_unsafe s a : isSafeSequence a true = false → applyCumulativeAck s a = ack_fault s unsafe_ack.
Proof. intros Ha. unfold applyCumulativeAck. by rewrite Ha. Qed.

(** The state an acknowledgement result carries. *)
Definition ack_state (r : AckResult) : RbpSequenceState :=
  match r with ack_advanced s _ | ack_duplicate s | ack_stale s | ack_fault s _ => s end.

Lemma ack_inv s a : seq_inv s → seq_inv (ack_state (applyCumulativeAck s a)).
Proof.
  intros Hinv. destruct (isSafeSequence a true) eqn:Ha.
  - pose proof (ack_spec s a Hinv Ha) as Hs. destruct (applyCumulativeAck s a); cbn.
    + by destruct Hs as (_ & _ & ob & _ & _ & ?).
    + by destruct Hs as [-> _].
    + by destruct Hs as [-> _].
    + by destruct Hs as [-> _].
  - by rewrite ack_unsafe.
Qed.

(** ** Accepting *)

Definition in_state (r : InboundDataResult) : RbpSequenceState :=
  match r with in_accepted s _ | in_duplicate s _ | in_gap s _ _ _ | in_fault s _ _ => s end.

Lemma accepted_lookup s n :
  seq_inv s → 1 <= n <= rs_lastRxSeq s →
  ∃ entry, find_first (λ entry, ai_seq entry =? n) (rs_acceptedInbound s) = Some entry ∧
           ai_seq entry = n ∧ rs_acceptedInbound s !! Z.to_nat (n - 1) = Some entry.
Proof.
  intros Hinv Hn. pose proof (sq_accepted _ Hinv) as Hacc. revert Hacc.
  assert (∀ l m k, map ai_seq l = seqZ m k → m <= n < m + k →
    ∃ entry, find_first (λ entry, ai_seq entry =? n) l = Some entry ∧ ai_seq entry = n ∧
             l !! Z.to_nat (n - m) = Some entry) as Hgen.
  { induction l as [|a l IH]; intros m k Hl Hm.
    - rewrite seqZ_cons in Hl by lia. done.
    - rewrite seqZ_cons in Hl by lia. cbn in Hl. injection Hl as Ha Hl. unfold find_first. cbn.
      destruct (Z.eqb_spec (ai_seq a) n) as [E|E].
      + exists a. rewrite <- E, Ha, Z.sub_diag. done.
      + destruct (IH (Z.succ m) (Z.pred k) Hl) as (entry & ? & ? & Hlk); [lia|].
        exists entry. split; [done|]. split; [done|].
        replace (Z.to_nat (n - m)) with (S (Z.to_nat (n - Z.succ m))) by lia. done. }
  intros Hacc. eapply Hgen in Hacc; [|lia]. done.
Qed.

Lemma accept_after_ack_spec s e r :
  seq_inv s → accept_after_ack s e = Ok r →
  match r with
  | in_accepted s' ack =>
      ack = rs_lastRxSeq s + 1 ∧ de_seq e = JInt ack ∧ ack <= RBP_MAX_SAFE_SEQUENCE ∧
      ∃ dg, dataEnvelopeImmutableDigest e = Ok dg ∧
        s' = with_rx s ack (rs_acceptedInbound s ++ [{| ai_seq := ack; ai_immutableDigest := dg |}])
  | in_duplicate s' ack =>
      s' = s ∧ ack = rs_lastRxSeq s ∧
      ∃ n entry, de_seq e = JInt n ∧ 1 <= n <= ack ∧
        rs_acceptedInbound s !! Z.to_nat (n - 1) = Some entry ∧
        dataEnvelopeImmutableDigest e = Ok (ai_immutableDigest entry)
  | in_gap s' ack expected received =>
      s' = s ∧ ack = rs_lastRxSeq s ∧ expected = ack + 1 ∧ expected < received ∧ de_seq e = JInt received
  | in_fault s' ack reason =>
      s' = s ∧ ack = rs_lastRxSeq s ∧
      (reason = unsafe_sequence ∧ isSafeSequence (de_seq e) false = false ∨
       reason = duplicate_identity_mismatch ∧
       ∃ n entry dg, de_seq e = JInt n ∧ 1 <= n <= ack ∧
         rs_acceptedInbound s !! Z.to_nat (n - 1) = Some entry ∧
         dataEnvelopeImmutableDigest e = Ok dg ∧ dg ≠ ai_immutableDigest entry)
  end.
Proof.
  intros Hinv Hr. unfold accept_after_ack in Hr.
  destruct (isSafeSequence (de_seq e) false) eqn:Hsafe; cbn [negb] in Hr.
  2: { injection Hr as <-. auto. }
  apply isSafeSequence_spec in Hsafe as [Hseq Hrange]. set (n := num_Z (de_seq e)) in *.
  apply bind_ok in Hr as (dg & Hdg & Hr).
  destruct (Z.leb_spec n (rs_lastRxSeq s)).
  - destruct (accepted_lookup s n Hinv) as (entry & Hf & Hen & Hlk); [lia|]. rewrite Hf in Hr.
    case_bool_decide as Hd; injection Hr as <-.
    + repeat split; try done. exists n, entry. rewrite Hdg, Hd. repeat split; lia || done.
    + repeat split; try done. right. split; [done|]. exists n, entry, dg. repeat split; lia || done.
  - destruct (Z.eqb_spec (rs_lastRxSeq s) RBP_MAX_SAFE_SEQUENCE); [lia|].
    destruct (Z.eqb_spec n (rs_lastRxSeq s + 1)) as [E|E]; cbn [negb] in Hr; injection Hr as <-.
    + rewrite <- E. repeat split; [done|lia|]. exists dg. done.
    + repeat split; lia || done.
Qed.

Lemma accept_after_ack_inv s e r :
  seq_inv s → accept_after_ack s e = Ok r → seq_inv (in_state r).
Proof.
  intros Hinv Hr. pose proof (accept_after_ack_spec _ _ _ Hinv Hr) as Hs.
  destruct r as [s' ack|s' ack|s' ack ex re|s' ack reason]; cbn.
  - destruct Hs as (-> & _ & Hmax & dg & _ & ->).
    destruct Hinv as [J1 J2 J3 J4 J5 J6 J7 J8].
    constructor; cbn -[RBP_MAX_SAFE_SEQUENCE]; try done; [lia|].
    rewrite map_app, J8. cbn. rewrite <- (seqZ_snoc 1) by lia. do 2 f_equal. lia.
  - by destruct Hs as [-> _].
  - by destruct Hs as [-> _].
  - by destruct Hs as [-> _].
Qed.

(** The acknowledgement an envelope carries, applied. *)
Definition after_piggyback (s : RbpSequenceState) (e : DataEnvelopeSnapshot) : RbpSequenceState :=
  match de_ack e with
  | None => s
  | Some a => ack_state (applyCumulativeAck s a)
  end.

Lemma accept_cases s e r :
  acceptInboundData s e = Ok r →
  (de_rsid e ≠ rs_rsid s ∧ r = in_fault s (rs_lastRxSeq s) wrong_rsid) ∨
  (de_rsid e = rs_rsid s ∧ ∃ a reason, de_ack e = Some a ∧ applyCumulativeAck s a = ack_fault s reason ∧
     r = in_fault s (rs_lastRxSeq s) (bad_ack reason)) ∨
  (de_rsid e = rs_rsid s ∧ accept_after_ack (after_piggyback s e) e = Ok r ∧
     ∀ a, de_ack e = Some a → ∀ s1 reason, applyCumulativeAck s a ≠ ack_fault s1 reason).
Proof.
  unfold acceptInboundData, after_piggyback. case_bool_decide as Hrs; cbn [negb].
  2: { intros [= <-]. by left. }
  destruct (de_ack e) as [a|]; [|by eauto 8].
  destruct (applyCumulativeAck s a) as [s1 l|s1|s1|s1 reason] eqn:Ha; cbn; intros Hr; right.
  1-3: right; repeat split; try done; intros a' [= <-]; by rewrite Ha.
  left. split; [done|]. injection Hr as <-. exists a, reason. split; [done|]. split; [|done].
  rewrite Ha. unfold applyCumulativeAck in Ha. repeat case_match; by simplify_eq.
Qed.

Lemma accept_inv s e r : seq_inv s → acceptInboundData s e = Ok r → seq_inv (in_state r).
Proof.
  intros Hinv Hr. apply accept_cases in Hr as [[_ ->]|[(_ & a & reason & _ & _ & ->)|(_ & Hr & _)]]; [done|done|].
  eapply accept_after_ack_inv; [|done]. unfold after_piggyback.
  destruct (de_ack e); [by apply ack_inv|done].
Qed.

(** States of an endpoint that only ever uses the operations of the module. *)
Inductive seq_reachable (rsid : jstr) : RbpSequenceState → Prop :=
| reach_create s : createRbpSequenceState rsid = Ok s → seq_reachable rsid s
| reach_queue s d s' e r :
    seq_reachable rsid s → queueOutboundData s d = Ok (queued s' e r) → seq_reachable rsid s'
| reach_ack s a : seq_reachable rsid s → seq_reachable rsid (ack_state (applyCumulativeAck s a))
| reach_accept s e r :
    seq_reachable rsid s → acceptInboundData s e = Ok r → seq_reachable rsid (in_state r).

Lemma reachable_seq_inv rsid s : seq_reachable rsid s → seq_inv s.
Proof.
  induction 1; [by eapply create_sequence_inv|by eapply queue_inv|by apply ack_inv|by eapply accept_inv].
Qed.

(** ** Redelivery *)

Lemma ack_again s a :
  seq_inv s → (∀ s1 reason, applyCumulativeAck s a ≠ ack_fault s1 reason) →
  let s' := ack_state (applyCumulativeAck s a) in
  rs_lastRxSeq s' = rs_lastRxSeq s ∧ rs_acceptedInbound s' = rs_acceptedInbound s ∧
  rs_rsid s' = rs_rsid s ∧
  (applyCumulativeAck s' a = ack_duplicate s' ∨ applyCumulativeAck s' a = ack_stale s').
Proof.
  intros Hinv Hnf. destruct (isSafeSequence a true) eqn:Ha.
  2: { rewrite ack_unsafe in Hnf by done. by destruct (Hnf s unsafe_ack). }
  pose proof (ack_spec s a Hinv Ha) as Hs.
  destruct (applyCumulativeAck s a) as [s1 l|s1|s1|s1 reason] eqn:Heq; cbn.
  - destruct Hs as (Hr & _ & ob & -> & _ & Hinv'). cbn. repeat split. left.
    unfold applyCumulativeAck. rewrite Ha. cbn -[Z.ltb Z.eqb].
    rewrite (proj2 (Z.ltb_ge _ _)), Z.ltb_irrefl, Z.eqb_refl by lia. done.
  - destruct Hs as [-> _]. auto.
  - destruct Hs as [-> _]. auto.
  - by destruct (Hnf s1 reason).
Qed.

(** Accepting does not look at the sending half of the state. *)
Lemma with_rx_ack s n acc a :
  applyCumulativeAck (with_rx s n acc) a =
  match applyCumulativeAck s a with
  | ack_advanced s' l => ack_advanced (with_rx s' n acc) l
  | ack_duplicate s' => ack_duplicate (with_rx s' n acc)
  | ack_stale s' => ack_stale (with_rx s' n acc)
  | ack_fault s' r => ack_fault (with_rx s' n acc) r
  end.
Proof. unfold applyCumulativeAck. cbn. by repeat case_match. Qed.

Lemma accept_after_ack_dup s e n entry :
  seq_inv s → de_seq e = JInt n → 1 <= n <= rs_lastRxSeq s →
  rs_acceptedInbound s !! Z.to_nat (n - 1) = Some entry →
  dataEnvelopeImmutableDigest e = Ok (ai_immutableDigest entry) →
  accept_after_ack s e = Ok (in_duplicate s (rs_lastRxSeq s)).
Proof.
  intros Hinv Hseq Hn Hlk Hdg. unfold accept_after_ack. rewrite Hseq.
  pose proof (sq_rx _ Hinv). rewrite isSafeSequence_int by lia. cbn [negb num_Z].
  rewrite Hdg. cbn -[Z.leb]. rewrite (proj2 (Z.leb_le n _)) by lia.
  destruct (accepted_lookup s n Hinv Hn) as (entry' & -> & _ & Hlk'). simplify_eq.
  by rewrite bool_decide_true.
Qed.

Lemma redeliver s e s' ack :
  seq_inv s → acceptInboundData s e = Ok (in_accepted s' ack) →
  acceptInboundData s' e = Ok (in_duplicate s' ack).
Proof.
  intros Hinv Hacc.
  assert (seq_inv s') as Hinv' by exact (accept_inv _ _ _ Hinv Hacc).
  apply accept_cases in Hacc as [[_ ?]|[(_ & a & reason & _ & _ & ?)|(Hrs & Hacc & Hnf)]]; [done|done|].
  assert (seq_inv (after_piggyback s e)) as Hp.
  { unfold after_piggyback. destruct (de_ack e); [by apply ack_inv|done]. }
  pose proof (accept_after_ack_spec _ _ _ Hp Hacc) as (-> & Hseq & Hmax & dg & Hdg & ->).
  set (s1 := after_piggyback s e) in *. set (n := rs_lastRxSeq s1 + 1) in *.
  pose proof (sq_rx _ Hp). pose proof (sq_accepted _ Hp) as Hlen.
  apply (f_equal length) in Hlen. rewrite length_map, length_seqZ in Hlen.
  set (s2 := with_rx s1 n (rs_acceptedInbound s1 ++ [{| ai_seq := n; ai_immutableDigest := dg |}])) in *.
  assert (accept_after_ack s2 e = Ok (in_duplicate s2 (rs_lastRxSeq s2))) as Hdup.
  { apply (accept_after_ack_dup _ _ n {| ai_seq := n; ai_immutableDigest := dg |});
      [done|done|cbn; lia| |exact Hdg].
    unfold s2. cbn [rs_acceptedInbound with_rx]. rewrite lookup_app_r by lia.
    replace (_ - _)%nat with 0%nat by lia. done. }
  unfold acceptInboundData.
  assert (rs_rsid s2 = rs_rsid s) as ->.
  { change (rs_rsid s1 = rs_rsid s). unfold s1, after_piggyback.
    destruct (de_ack e) as [a|] eqn:Ea; [|done].
    destruct (ack_again s a Hinv) as (_ & _ & ? & _); [by apply Hnf|done]. }
  rewrite bool_decide_true by done. cbn [negb].
  destruct (de_ack e) as [a|] eqn:Ea; [|exact Hdup].
  destruct (ack_again s a Hinv) as (_ & _ & _ & Hagain); [by apply Hnf|].
  assert (s1 = ack_state (applyCumulativeAck s a)) as Hs1.
  { unfold s1, after_piggyback. by rewrite Ea. }
  unfold s2 at 1. rewrite with_rx_ack. rewrite <- Hs1 in Hagain.
  destruct Hagain as [-> | ->]; exact Hdup.
Qed.

(** ** Retransmission *)

Definition refreshed (rf : Refresh) (e : DataEnvelopeSnapshot) : DataEnvelopeSnapshot := {|
  de_v := JInt 1; de_type := de_type e; de_id := de_id e; de_rsid := de_rsid e; de_seq := de_seq e;
  de_ack := match rf_ack rf with Some a => Some a | None => de_ack e end;
  de_ts := match rf_ts rf with Some t => Some t | None => de_ts e end;
  de_payload := de_payload e |}.

Lemma outbox_sorted s :
  seq_inv s →
  StronglySorted (λ l r, (num_Z (de_seq (ro_envelope l)) <=? num_Z (de_seq (ro_envelope r))) = true)
    (rs_outbox s).
Proof.
  intros Hinv. pose proof (sq_outbox _ Hinv) as Ho. unfold outbox_seqs in Ho. revert Ho.
  generalize (rs_lastPeerAck s + 1) as m. generalize (rs_highestTxSeq s - rs_lastPeerAck s) as n.
  induction (rs_outbox s) as [|r rs IH]; intros n m Ho; [constructor|].
  destruct (decide (0 < n)) as [Hn|Hn]; [|rewrite (seqZ_nil m n) in Ho by lia; done].
  rewrite seqZ_cons in Ho by lia. cbn in Ho. injection Ho as Hr Ho.
  constructor; [by eapply IH|]. rewrite Forall_forall. intros r' Hr'.
  assert (de_seq (ro_envelope r') ∈ map JInt (seqZ (Z.succ m) (Z.pred n))) as Hin.
  { rewrite <- Ho. apply list_elem_of_fmap; eauto. }
  apply list_elem_of_fmap in Hin as (z & Hz & Hzs). apply elem_of_seqZ in Hzs.
  rewrite Hr, Hz. cbn. apply Z.leb_le. lia.
Qed.

Lemma retransmit_spec s rf es :
  seq_inv s → retransmitOutbox s rf = Ok es →
  es = map (λ r, refreshed rf (ro_envelope r)) (rs_outbox s) ∧
  (∀ a, rf_ack rf = Some a → a = JInt (num_Z a) ∧ 0 <= num_Z a <= rs_lastRxSeq s).
Proof.
  intros Hinv Hr. unfold retransmitOutbox in Hr.
  apply bind_ok in Hr as (? & Hsafe & Hr). apply bind_ok in Hr as (? & Hle & Hr).
  apply reject_if_ok in Hsafe, Hle. rewrite sort_by_sorted_id in Hr by by apply outbox_sorted.
  injection Hr as <-. split; [done|]. intros a Ha. rewrite Ha in Hsafe, Hle. cbn in Hsafe, Hle. bsimp.
  apply isSafeSequence_spec in Hsafe as [Ha' Hrange]. split; [done|].
  rewrite Ha' in Hle. cbn [num_gtb] in Hle. bsimp. cbn [num_Z] in Hle. lia.
Qed.

Lemma refreshed_digest rf e :
  de_v e = JInt 1 → dataEnvelopeImmutableDigest (refreshed rf e) = dataEnvelopeImmutableDigest e.
Proof.
  intros Hv. unfold dataEnvelopeImmutableDigest, envelope_material. cbn. by rewrite Hv.
Qed.

(** ** The dispatch window *)

Inductive dw_reachable : DispatchWindowLedger → Prop :=
| dw_create : dw_reachable createDispatchWindowLedger
| dw_open l entry l' : dw_reachable l → openDispatchWindow l entry = Ok (dw_opened l') → dw_reachable l'
| dw_close l rsid inv l' : dw_reachable l → closeDispatchWindow l rsid inv = Ok l' → dw_reachable l'.

Lemma open_spec l entry l' :
  openDispatchWindow l entry = Ok (dw_opened l') →
  l' = l ++ [entry] ∧ dw_rsid entry ∉ map dw_rsid l.
Proof.
  unfold openDispatchWindow, assertNonEmpty. intros Ho.
  apply bind_ok in Ho as (? & _ & Ho). apply bind_ok in Ho as (? & _ & Ho).
  destruct (find_first _ l) eqn:Hf; [discriminate Ho|]. injection Ho as <-. split; [done|].
  intros Hin. apply list_elem_of_fmap in Hin as (c & Hc & Hcl).
  apply (proj1 (find_first_none _ _) Hf) in Hcl. by bsimp.
Qed.

Lemma close_spec l rsid inv l' :
  closeDispatchWindow l rsid inv = Ok l' →
  l' = List.filter (λ c, dw_rsid c !== rsid) l ∧
  ∃ active, active ∈ l ∧ dw_rsid active = rsid ∧ dw_invocationId active = inv.
Proof.
  unfold closeDispatchWindow. destruct (find_first _ l) as [active|] eqn:Hf; [|done].
  intros Hc. apply bind_ok in Hc as (? & Ht & [= <-]). apply throw_if_ok in Ht.
  apply find_first_some in Hf as [Hin Hrs]. bsimp. eauto.
Qed.

Lemma dw_inv l : dw_reachable l → NoDup (map dw_rsid l).
Proof.
  induction 1 as [|l entry l' _ IH Ho|l rsid inv l' _ IH Hc]; [constructor| |].
  - apply open_spec in Ho as [-> Hni]. rewrite map_app. apply NoDup_app.
    repeat split; [done| |by repeat constructor; set_solver].
    intros x Hx Hx'. apply list_elem_of_singleton in Hx'. by subst x.
  - apply close_spec in Hc as [-> _]. by apply filter_nodup_map.
Qed.

(** ** Properties *)

(** Whatever sequence of queueing, acknowledging and accepting an endpoint
    goes through, its outbox holds exactly the numbers between the last
    acknowledgement and the highest one sent, in ascending order and each with
    the digest of its envelope; the accepted log holds exactly the numbers up to
    the last one received; all of them are safe integers, and the next number is
    absent exactly when the last safe integer has been used. *)
Theorem sequence_invariant rsid s : seq_reachable rsid s → seq_inv s.
Proof. apply reachable_seq_inv. Qed.

(** A cumulative acknowledgement releases exactly the numbers after the last
    acknowledgement up to and including it, and leaves the outbox invariant;
    repeated and stale acknowledgements change nothing, and one beyond what was
    sent, or one that is not a safe non-negative integer, is a fault that
    changes nothing. *)
Theorem cumulative_ack_exact s a :
  seq_inv s →
  match applyCumulativeAck s a with
  | ack_advanced s' seqs =>
      rs_lastPeerAck s < num_Z a <= rs_highestTxSeq s ∧ rs_lastPeerAck s' = num_Z a ∧
      seqs = map JInt (seqZ (rs_lastPeerAck s + 1) (num_Z a - rs_lastPeerAck s)) ∧ seq_inv s'
  | ack_duplicate s' => s' = s ∧ num_Z a = rs_lastPeerAck s
  | ack_stale s' => s' = s ∧ num_Z a < rs_lastPeerAck s
  | ack_fault s' unsafe_ack => s' = s ∧ isSafeSequence a true = false
  | ack_fault s' ack_beyond_sent => s' = s ∧ rs_highestTxSeq s < num_Z a
  end.
Proof.
  intros Hinv. destruct (isSafeSequence a true) eqn:Ha; [|by rewrite ack_unsafe].
  pose proof (ack_spec s a Hinv Ha) as Hs.
  destruct (applyCumulativeAck s a) as [s' seqs|s'|s'|s' reason]; [|done|done|].
  - destruct Hs as (? & -> & ob & -> & _ & ?). done.
  - by destruct Hs as (-> & -> & ?).
Qed.

(** Delivering an accepted envelope once more, whatever acknowledgement it
    carries, is recognised as a duplicate and leaves the state as it is. *)
Theorem redelivery_is_duplicate s e s' ack :
  seq_inv s → acceptInboundData s e = Ok (in_accepted s' ack) →
  acceptInboundData s' e = Ok (in_duplicate s' ack).
Proof. apply redeliver. Qed.

(** An envelope that reuses an accepted number with different content is a
    protocol fault and changes nothing, as long as the hash does not collide on
    the two contents. *)
Theorem conflicting_redelivery_faults s e s' ack e' :
  seq_inv s → acceptInboundData s e = Ok (in_accepted s' ack) →
  de_rsid e' = de_rsid e → de_seq e' = de_seq e → de_ack e' = None →
  wire_value (envelope_material e) = true → wire_value (envelope_material e') = true →
  normalize (envelope_material e) ≠ normalize (envelope_material e') →
  collision_free (envelope_material e) (envelope_material e') →
  acceptInboundData s' e' = Ok (in_fault s' ack duplicate_identity_mismatch).
Proof.
  intros Hinv Hacc Hrs Hseq Hack Hw Hw' Hne Hcf.
  pose proof (accept_inv _ _ _ Hinv Hacc) as Hinv'. cbn in Hinv'.
  pose proof (redeliver _ _ _ _ Hinv Hacc) as Hre.
  apply accept_cases in Hre as [[_ ?]|[(_ & a & reason & _ & _ & ?)|(Hrs' & Hdup & _)]]; [done|done|].
  assert (seq_inv (after_piggyback s' e)) as Hp.
  { unfold after_piggyback. destruct (de_ack e); [by apply ack_inv|done]. }
  pose proof (accept_after_ack_spec _ _ _ Hp Hdup) as (<- & -> & n & entry & Hn & Hr & Hlk & Hdg).
  assert (jcs_ok (envelope_material e') = true) as Hj by by apply wire_jcs.
  destruct (dataEnvelopeImmutableDigest e') as [dg|] eqn:Hdg'.
  2: { pose proof (makeJsonDigest_is_ok (envelope_material e')) as Hx.
       unfold dataEnvelopeImmutableDigest in Hdg'. rewrite Hdg', Hj in Hx. done. }
  assert (dg ≠ ai_immutableDigest entry) as Hdne.
  { intros ->. apply Hne. apply makeJsonDigest_inj; [done..|].
    unfold dataEnvelopeImmutableDigest in *. congruence. }
  unfold acceptInboundData. rewrite Hrs, Hrs', bool_decide_true, Hack by done. cbn [negb].
  unfold accept_after_ack. rewrite Hseq, Hn. pose proof (sq_rx _ Hinv').
  rewrite isSafeSequence_int by lia. cbn [negb num_Z]. rewrite Hdg'. cbn -[Z.leb].
  rewrite (proj2 (Z.leb_le n _)) by lia.
  destruct (accepted_lookup s' n Hinv' Hr) as (entry' & -> & _ & Hlk'). simplify_eq.
  by rewrite bool_decide_false.
Qed.

(** A retransmission sends the whole unacknowledged interval in ascending
    order; only the acknowledgement and the timestamp of an envelope may differ
    from the original, so its digest is the one retained. *)
Theorem retransmission_exact s rf es :
  seq_inv s → retransmitOutbox s rf = Ok es →
  map de_seq es = map JInt (seqZ (rs_lastPeerAck s + 1) (rs_highestTxSeq s - rs_lastPeerAck s)) ∧
  Forall2 (λ e r, dataEnvelopeImmutableDigest e = Ok (ro_immutableDigest r) ∧
                  de_type e = de_type (ro_envelope r) ∧ de_id e = de_id (ro_envelope r) ∧
                  de_payload e = de_payload (ro_envelope r)) es (rs_outbox s).
Proof.
  intros Hinv Hr. apply retransmit_spec in Hr as [-> _]; [|done]. split.
  - rewrite map_map. cbn. apply (sq_outbox _ Hinv).
  - apply Forall2_fmap_l, Forall_Forall2_diag.
    eapply Forall_impl; [exact (sq_retained _ Hinv)|]. intros r (Hd & _ & Hv).
    split; [by rewrite refreshed_digest|done].
Qed.

(** At most one invocation per session is in the dispatch window, whatever
    sequence of openings and closings happened; a second opening for a session
    that has one is refused with the entry that blocks it, and closing with the
    right invocation frees the session. *)
Theorem dispatch_window_exclusive l :
  dw_reachable l →
  NoDup (map dw_rsid l) ∧
  (∀ entry active, active ∈ l → dw_rsid active = dw_rsid entry → dw_rsid entry ≠ [] →
     dw_invocationId entry ≠ [] → openDispatchWindow l entry = Ok (dw_fault l active)) ∧
  (∀ active, active ∈ l → ∃ l', closeDispatchWindow l (dw_rsid active) (dw_invocationId active) = Ok l' ∧
     dw_rsid active ∉ map dw_rsid l' ∧
     ∀ other, other ∈ l → dw_rsid other ≠ dw_rsid active → other ∈ l').
Proof.
  intros Hr. pose proof (dw_inv l Hr) as Hnd. split; [done|].
  assert (∀ active rsid, active ∈ l → dw_rsid active = rsid →
            find_first (λ c, dw_rsid c === rsid) l = Some active) as Hfind.
  { intros active rsid Hin <-. destruct (find_first _ l) as [c|] eqn:Hf.
    - apply find_first_some in Hf as [Hc Hrs]. bsimp.
      apply list_elem_of_lookup in Hin as [i Hi], Hc as [j Hj].
      assert (i = j) as ->; [|congruence].
      eapply (NoDup_lookup _ i j _ Hnd); rewrite list_lookup_fmap, ?Hi, ?Hj; cbn; [done|by rewrite Hrs].
    - apply (proj1 (find_first_none _ _) Hf) in Hin. by bsimp. }
  split.
  - intros entry active Hin Hrs Hne1 Hne2. unfold openDispatchWindow, assertNonEmpty.
    rewrite !bool_decide_false by done. cbn. by rewrite (Hfind _ _ Hin Hrs).
  - intros active Hin. unfold closeDispatchWindow. rewrite (Hfind _ _ Hin eq_refl).
    rewrite bool_decide_true by done. cbn. eexists. split; [done|]. split.
    + intros Hin'. apply list_elem_of_fmap in Hin' as (c & Hc & [_ Hf]%elem_of_filter_bool). by bsimp.
    + intros other Ho Hne. apply elem_of_filter_bool. by rewrite bool_decide_false.
Qed.

End facts.

(** ** Witnesses *)

Section witnesses.
Import Sha256.

Definition demo_state : RbpSequenceState := {|
  rs_rsid := js "rs-a"; rs_nextTxSeq := Some 1; rs_highestTxSeq := 0; rs_lastRxSeq := 0;
  rs_lastPeerAck := 0; rs_outbox := []; rs_acceptedInbound := [] |}.

Definition demo_draft : OutboundDataDraft := {|
  od_v := None; od_type := js "invoke"; od_id := js "id-1"; od_ack := None; od_ts := None;
  od_payload := obj [(js "value", VNum (JInt 7))] |}.

Definition demo_envelope (value : Z) : DataEnvelopeSnapshot := {|
  de_v := JInt 1; de_type := js "invoke"; de_id := js "id-1"; de_rsid := js "rs-a";
  de_seq := JInt 1; de_ack := None; de_ts := None;
  de_payload := obj [(js "value", VNum (JInt value))] |}.

Lemma demo_inv : seq_inv demo_state.
Proof. by apply (create_sequence_inv (js "rs-a")). Qed.

Lemma sequence_invariant_witness :
  ∃ s e r, queueOutboundData demo_state demo_draft = Ok (queued s e r) ∧
           rs_highestTxSeq s = 1 ∧ seq_inv s.
Proof.
  destruct (queueOutboundData demo_state demo_draft) as [[s e r|]|] eqn:E; try (by vm_compute in E).
  exists s, e, r. split; [done|]. split; [vm_compute in E; by injection E as <-|].
  apply (sequence_invariant (js "rs-a")). eapply reach_queue; [by apply reach_create|exact E].
Defined.

Lemma cumulative_ack_exact_witness :
  applyCumulativeAck demo_state (JInt 5) = ack_fault demo_state ack_beyond_sent ∧
  rs_highestTxSeq demo_state < 5.
Proof.
  split; [reflexivity|]. apply (cumulative_ack_exact demo_state (JInt 5) demo_inv).
Defined.

Lemma redelivery_is_duplicate_witness :
  ∃ s', acceptInboundData demo_state (demo_envelope 7) = Ok (in_accepted s' 1) ∧
        acceptInboundData s' (demo_envelope 7) = Ok (in_duplicate s' 1).
Proof.
  destruct (acceptInboundData demo_state (demo_envelope 7)) as [[s' ack| | |]|] eqn:E;
    try (by vm_compute in E).
  assert (ack = 1) as -> by (vm_compute in E; by injection E).
  exists s'. split; [done|]. exact (redelivery_is_duplicate demo_state (demo_envelope 7) s' 1 demo_inv E).
Defined.

Lemma conflicting_redelivery_faults_witness :
  ∃ s', acceptInboundData demo_state (demo_envelope 7) = Ok (in_accepted s' 1) ∧
        acceptInboundData s' (demo_envelope 8) = Ok (in_fault s' 1 duplicate_identity_mismatch).
Proof.
  destruct (acceptInboundData demo_state (demo_envelope 7)) as [[s' ack| | |]|] eqn:E;
    try (by vm_compute in E).
  assert (ack = 1) as -> by (vm_compute in E; by injection E).
  exists s'. split; [done|].
  apply (conflicting_redelivery_faults demo_state (demo_envelope 7) s' 1 (demo_envelope 8) demo_inv E);
    try reflexivity; vm_compute; intros Hx; discriminate Hx.
Defined.

Lemma retransmission_exact_witness :
  ∃ s e r, queueOutboundData demo_state demo_draft = Ok (queued s e r) ∧
    ∃ es, retransmitOutbox s {| rf_ack := Some (JInt 0); rf_ts := None |} = Ok es ∧
          map de_seq es = map JInt (seqZ (rs_lastPeerAck s + 1) (rs_highestTxSeq s - rs_lastPeerAck s)).
Proof.
  destruct (queueOutboundData demo_state demo_draft) as [[s e r|]|] eqn:E; try (by vm_compute in E).
  exists s, e, r. split; [done|].
  destruct (retransmitOutbox s {| rf_ack := Some (JInt 0); rf_ts := None |}) as [es|] eqn:R.
  - exists es. split; [done|].
    exact (proj1 (retransmission_exact s _ es (queue_inv _ _ _ _ _ demo_inv E) R)).
  - exfalso. vm_compute in E. injection E as <- _ _. by vm_compute in R.
Defined.

Lemma dispatch_window_exclusive_witness :
  let e := {| dw_rsid := js "rs-a"; dw_invocationId := js "i-1"; dw_kind := dispatch_invoke |} in
  let e' := {| dw_rsid := js "rs-a"; dw_invocationId := js "i-2"; dw_kind := dispatch_invoke_batch |} in
  openDispatchWindow [e] e' = Ok (dw_fault [e] e).
Proof.
  intros e e'. apply dispatch_window_exclusive; [|set_solver|reflexivity|discriminate|discriminate].
  eapply (dw_open [] e); [constructor|reflexivity].
Defined.

End witnesses.
End SequenceFacts.
