(* ===== verification/Channel.v ===== *)
(** Two endpoints of a session over an unreliable network.

    The sequence state machine of packages/protocol/src/sequenceState.ts exists
    so that a session survives frames that are lost, repeated, delayed or
    reordered, and connections that are cut and resumed.  This file closes two
    endpoints, each running the operations of [Sequence], over a network that
    may do all of that to the frames, and shows what the operations promise
    together: delivery is in order and exactly once, no legitimate frame is ever
    a protocol fault, and after any history retransmission completes delivery. *)

From S2P Require Import Prelude JsString JsValue Canonical Sha256 Sequence.

Module Channel.
Import Canonical CanonicalFacts Sequence SequenceFacts.

(** What an application hands over and gets: type, id and payload. *)
Definition content : Type := jstr * jstr * jsval.

Definition content_of (e : DataEnvelopeSnapshot) : content := (de_type e, de_id e, de_payload e).

Record endpoint := {
  ep_seq : RbpSequenceState;
  ep_sent : list content;      (** everything queued, in order *)
  ep_got : list content }.     (** everything accepted, in order *)

(** Frames and acknowledgements stay deliverable until the network loses them:
    delivering does not consume them, so repetition and delay come for free. *)
Record sys := {
  near : endpoint;
  far : endpoint;
  near_far : list DataEnvelopeSnapshot;
  far_near : list DataEnvelopeSnapshot;
  acks_near : list jsnum;      (** on their way to [near] *)
  acks_far : list jsnum }.

Definition swap (s : sys) : sys := {|
  near := far s; far := near s; near_far := far_near s; far_near := near_far s;
  acks_near := acks_far s; acks_far := acks_near s |}.

Section system.
Context `{Hasher}.

Inductive near_step : sys → sys → Prop :=
| step_send A B ab ba ka kb d s' e r :
    queueOutboundData (ep_seq A) d = Ok (queued s' e r) →
    near_step
      {| near := A; far := B; near_far := ab; far_near := ba; acks_near := ka; acks_far := kb |}
      {| near := {| ep_seq := s'; ep_sent := ep_sent A ++ [content_of e]; ep_got := ep_got A |};
         far := B; near_far := e :: ab; far_near := ba; acks_near := ka; acks_far := kb |}
| step_retransmit A B ab ba ka kb rf es :
    retransmitOutbox (ep_seq A) rf = Ok es →
    near_step
      {| near := A; far := B; near_far := ab; far_near := ba; acks_near := ka; acks_far := kb |}
      {| near := A; far := B; near_far := es ++ ab; far_near := ba; acks_near := ka; acks_far := kb |}
| step_deliver A B ab ba ka kb e r :
    e ∈ ab → acceptInboundData (ep_seq B) e = Ok r →
    near_step
      {| near := A; far := B; near_far := ab; far_near := ba; acks_near := ka; acks_far := kb |}
      {| near := A;
         far := {| ep_seq := in_state r; ep_sent := ep_sent B;
                   ep_got := match r with
                             | in_accepted _ _ => ep_got B ++ [content_of e]
                             | _ => ep_got B
                             end |};
         near_far := ab; far_near := ba; acks_near := ka; acks_far := kb |}
| step_announce A B ab ba ka kb :
    near_step
      {| near := A; far := B; near_far := ab; far_near := ba; acks_near := ka; acks_far := kb |}
      {| near := A; far := B; near_far := ab; far_near := ba;
         acks_near := JInt (rs_lastRxSeq (ep_seq B)) :: ka; acks_far := kb |}
| step_acknowledged A B ab ba ka kb a :
    a ∈ ka →
    near_step
      {| near := A; far := B; near_far := ab; far_near := ba; acks_near := ka; acks_far := kb |}
      {| near := {| ep_seq := ack_state (applyCumulativeAck (ep_seq A) a);
                    ep_sent := ep_sent A; ep_got := ep_got A |};
         far := B; near_far := ab; far_near := ba; acks_near := ka; acks_far := kb |}
| step_lose A B ab ba ka kb ab' ka' :
    ab' ⊆ ab → ka' ⊆ ka →
    near_step
      {| near := A; far := B; near_far := ab; far_near := ba; acks_near := ka; acks_far := kb |}
      {| near := A; far := B; near_far := ab'; far_near := ba; acks_near := ka'; acks_far := kb |}.

Definition step (s s' : sys) : Prop := near_step s s' ∨ near_step (swap s) (swap s').

Inductive reachable (rsid : jstr) : sys → Prop :=
| reachable_init q :
    createRbpSequenceState rsid = Ok q →
    let ep := {| ep_seq := q; ep_sent := []; ep_got := [] |} in
    reachable rsid {| near := ep; far := ep; near_far := []; far_near := [];
                      acks_near := []; acks_far := [] |}
| reachable_step s s' : reachable rsid s → step s s' → reachable rsid s'.

Inductive steps : sys → sys → Prop :=
| steps_refl s : steps s s
| steps_cons s1 s2 s3 : step s1 s2 → steps s2 s3 → steps s1 s3.

(** ** The invariant of one direction *)

(** The digest a frame number [n] of the session has, whatever copy of it. *)
Definition content_digest (rsid : jstr) (n : Z) (c : content) : result js_error jstr :=
  dataEnvelopeImmutableDigest {|
    de_v := JInt 1; de_type := c.1.1; de_id := c.1.2; de_rsid := rsid; de_seq := JInt n;
    de_ack := None; de_ts := None; de_payload := c.2 |}.

Definition ack_bounded (k : Z) (a : jsnum) : Prop := a = JInt (num_Z a) ∧ 0 <= num_Z a <= k.

(** A frame that really is frame [n] of what [A] sent. *)
Definition frame_ok (A : endpoint) (e : DataEnvelopeSnapshot) : Prop :=
  ∃ n dg, de_seq e = JInt n ∧ 1 <= n <= rs_highestTxSeq (ep_seq A) ∧
    ep_sent A !! Z.to_nat (n - 1) = Some (content_of e) ∧
    de_rsid e = rs_rsid (ep_seq A) ∧ de_v e = JInt 1 ∧
    content_digest (rs_rsid (ep_seq A)) n (content_of e) = Ok dg ∧
    ∀ a, de_ack e = Some a → ack_bounded (rs_lastRxSeq (ep_seq A)) a.

Record dir_inv (A B : endpoint) (ab : list DataEnvelopeSnapshot) (ka : list jsnum) : Prop := {
  di_seq : seq_inv (ep_seq A);
  di_rsid : rs_rsid (ep_seq A) = rs_rsid (ep_seq B);
  di_len : Z.of_nat (length (ep_sent A)) = rs_highestTxSeq (ep_seq A);
  di_frames : Forall (frame_ok A) ab;
  di_outbox : Forall (λ r, frame_ok A (ro_envelope r)) (rs_outbox (ep_seq A));
  di_rx : rs_lastRxSeq (ep_seq B) <= rs_highestTxSeq (ep_seq A);
  di_got : ep_got B = take (Z.to_nat (rs_lastRxSeq (ep_seq B))) (ep_sent A);
  di_log : ∀ i entry, rs_acceptedInbound (ep_seq B) !! i = Some entry →
    ∃ c, ep_sent A !! i = Some c ∧
      content_digest (rs_rsid (ep_seq A)) (Z.of_nat i + 1) c = Ok (ai_immutableDigest entry);
  di_ack : rs_lastPeerAck (ep_seq A) <= rs_lastRxSeq (ep_seq B);
  di_acks : Forall (ack_bounded (rs_lastRxSeq (ep_seq B))) ka }.

Definition sys_inv (s : sys) : Prop :=
  dir_inv (near s) (far s) (near_far s) (acks_near s) ∧
  dir_inv (far s) (near s) (far_near s) (acks_far s).

Lemma sys_inv_swap s : sys_inv s → sys_inv (swap s).
Proof. by intros []. Qed.

Lemma frame_digest A e n :
  de_seq e = JInt n → de_rsid e = rs_rsid (ep_seq A) → de_v e = JInt 1 →
  dataEnvelopeImmutableDigest e = content_digest (rs_rsid (ep_seq A)) n (content_of e).
Proof.
  intros Hs Hr Hv. unfold content_digest, dataEnvelopeImmutableDigest, envelope_material. cbn.
  by rewrite Hs, Hr, Hv.
Qed.

Lemma ack_bounded_mono k k' a : k <= k' → ack_bounded k a → ack_bounded k' a.
Proof. intros ? []. split; [done|lia]. Qed.

(** A frame stays a frame when the sender sends, receives or is acknowledged. *)
Lemma frame_ok_mono A A' e :
  rs_rsid (ep_seq A') = rs_rsid (ep_seq A) →
  rs_highestTxSeq (ep_seq A) <= rs_highestTxSeq (ep_seq A') →
  rs_lastRxSeq (ep_seq A) <= rs_lastRxSeq (ep_seq A') →
  (∃ more, ep_sent A' = ep_sent A ++ more) →
  frame_ok A e → frame_ok A' e.
Proof.
  intros Hrs Hhi Hrx [more Hsent] (n & dg & Hn & Hr & Hc & Hrsid & Hv & Hd & Ha).
  exists n, dg. rewrite Hrs, Hsent. repeat split; try done; try lia.
  - by apply lookup_app_l_Some.
  - by apply Ha.
  - by apply Ha.
  - destruct (Ha a ltac:(done)). lia.
Qed.

(** ** Each step keeps the invariant *)

(** The receiving half of [B] is all this direction sees of it. *)
Lemma dir_inv_far A B B' ab ka :
  rs_rsid (ep_seq B') = rs_rsid (ep_seq B) → rs_lastRxSeq (ep_seq B') = rs_lastRxSeq (ep_seq B) →
  rs_acceptedInbound (ep_seq B') = rs_acceptedInbound (ep_seq B) → ep_got B' = ep_got B →
  dir_inv A B ab ka → dir_inv A B' ab ka.
Proof.
  intros E1 E2 E3 E4 [J1 J2 J3 J4 J5 J6 J7 J8 J9 J10].
  constructor; rewrite ?E1, ?E2, ?E3, ?E4; done.
Qed.

(** The sender's receiving half may move forward. *)
Lemma dir_inv_near_rx A A' B ab ka :
  seq_inv (ep_seq A') → rs_rsid (ep_seq A') = rs_rsid (ep_seq A) →
  rs_highestTxSeq (ep_seq A') = rs_highestTxSeq (ep_seq A) →
  rs_lastPeerAck (ep_seq A') = rs_lastPeerAck (ep_seq A) →
  rs_outbox (ep_seq A') = rs_outbox (ep_seq A) → ep_sent A' = ep_sent A →
  rs_lastRxSeq (ep_seq A) <= rs_lastRxSeq (ep_seq A') →
  dir_inv A B ab ka → dir_inv A' B ab ka.
Proof.
  intros Hs E1 E2 E3 E4 E5 Hle [J1 J2 J3 J4 J5 J6 J7 J8 J9 J10].
  assert (∀ e, frame_ok A e → frame_ok A' e) as Hf.
  { intros e. apply frame_ok_mono; [done|lia|done|]. exists []. by rewrite app_nil_r. }
  constructor; rewrite ?E1, ?E2, ?E3, ?E4, ?E5; try done.
  - by eapply Forall_impl.
  - eapply Forall_impl; [exact J5|]. cbn. auto.
Qed.

(** An acknowledgement the receiver can have issued advances the sender. *)
Lemma dir_inv_ack A B ab ka a :
  dir_inv A B ab ka → ack_bounded (rs_lastRxSeq (ep_seq B)) a →
  (∀ s1 reason, applyCumulativeAck (ep_seq A) a ≠ ack_fault s1 reason) ∧
  dir_inv {| ep_seq := ack_state (applyCumulativeAck (ep_seq A) a);
             ep_sent := ep_sent A; ep_got := ep_got A |} B ab ka.
Proof.
  intros Hd [Ha Hr]. pose proof (di_seq _ _ _ _ Hd) as Hinv. pose proof (di_rx _ _ _ _ Hd).
  assert (isSafeSequence a true = true) as Hsafe.
  { rewrite Ha. apply isSafeSequence_int. pose proof (sq_max _ Hinv). lia. }
  pose proof (ack_spec _ _ Hinv Hsafe) as Hs.
  destruct (applyCumulativeAck (ep_seq A) a) as [s' l|s'|s'|s' reason]; cbn.
  - destruct Hs as (Hrange & _ & ob & -> & Hob & Hinv'). split; [done|].
    destruct Hd as [J1 J2 J3 J4 J5 J6 J7 J8 J9 J10].
    constructor; cbn; try done; [|lia].
    rewrite Forall_forall in *. intros x Hx. apply (J5 x). by apply Hob.
  - destruct Hs as [-> _]. split; [done|]. by destruct A.
  - destruct Hs as [-> _]. split; [done|]. by destruct A.
  - destruct Hs as (_ & _ & ?). lia.
Qed.

Lemma dir_inv_send A B ab ka d s' e r :
  dir_inv A B ab ka → queueOutboundData (ep_seq A) d = Ok (queued s' e r) →
  dir_inv {| ep_seq := s'; ep_sent := ep_sent A ++ [content_of e]; ep_got := ep_got A |} B (e :: ab) ka.
Proof.
  intros Hd Hq. pose proof (di_seq _ _ _ _ Hd) as Hinv.
  pose proof (queue_inv _ _ _ _ _ Hinv Hq) as Hinv'.
  destruct (queue_spec _ _ _ _ _ Hinv Hq) as (Hmax & He & _ & (dg & Hdg & ->) & Hack).
  destruct Hd as [J1 J2 J3 J4 J5 J6 J7 J8 J9 J10]. cbn in Hack.
  pose proof (sq_tx _ Hinv).
  set (A' := {| ep_seq := _; ep_sent := _; ep_got := _ |}).
  assert (∀ x, frame_ok A x → frame_ok A' x) as Hf.
  { intros x. apply frame_ok_mono; cbn; [done|lia|done|by eexists]. }
  assert (frame_ok A' e) as Hfe.
  { exists (rs_highestTxSeq (ep_seq A) + 1), dg. subst e. repeat split; cbn; try lia; try done.
    - rewrite lookup_app_r by lia.
      replace (_ - _)%nat with 0%nat by lia. done.
    - by apply Hack.
    - by apply Hack.
    - by apply Hack. }
  constructor; unfold A'; cbn; try done.
  - rewrite length_app. cbn. lia.
  - constructor; [done|]. by eapply Forall_impl.
  - apply Forall_app. split; [eapply Forall_impl; [exact J5|]; cbn; auto|]. by constructor.
  - lia.
  - rewrite take_app_le by lia. done.
  - intros i entry Hi. destruct (J8 i entry Hi) as (c & Hc & Hcd). exists c. split; [|done].
    by apply lookup_app_l_Some.
Qed.

Lemma dir_inv_retransmit A B ab ka rf es :
  dir_inv A B ab ka → retransmitOutbox (ep_seq A) rf = Ok es → dir_inv A B (es ++ ab) ka.
Proof.
  intros Hd Hr. pose proof (di_seq _ _ _ _ Hd) as Hinv.
  apply retransmit_spec in Hr as [-> Hack]; [|done].
  destruct Hd as [J1 J2 J3 J4 J5 J6 J7 J8 J9 J10]. constructor; try done.
  apply Forall_app. split; [|done]. apply Forall_fmap. eapply Forall_impl; [exact J5|].
  intros r (n & dg & Hn & Hrange & Hc & Hrsid & Hv & Hdg & Ha).
  exists n, dg. cbn. repeat split; try done; try lia; intros; destruct (rf_ack rf) eqn:E; simplify_eq;
    (by apply Hack) || (by apply Ha).
Qed.

(** What accepting frame [n] does, case by case. *)
Lemma deliver_cases A B ab ka ba kb e :
  dir_inv A B ab ka → dir_inv B A ba kb → e ∈ ab →
  ∃ s1 r, acceptInboundData (ep_seq B) e = Ok r ∧
    dir_inv {| ep_seq := s1; ep_sent := ep_sent B; ep_got := ep_got B |} A ba kb ∧
    rs_rsid s1 = rs_rsid (ep_seq B) ∧ rs_lastRxSeq s1 = rs_lastRxSeq (ep_seq B) ∧
    rs_acceptedInbound s1 = rs_acceptedInbound (ep_seq B) ∧
    accept_after_ack s1 e = Ok r.
Proof.
  intros Hd Hd' He. pose proof (di_frames _ _ _ _ Hd) as Hfr. rewrite Forall_forall in Hfr.
  destruct (Hfr e He) as (n & dg & Hn & Hr & Hc & Hrsid & Hv & Hdg & Ha).
  assert (∃ s1, (∀ r, accept_after_ack s1 e = Ok r → acceptInboundData (ep_seq B) e = Ok r) ∧
    dir_inv {| ep_seq := s1; ep_sent := ep_sent B; ep_got := ep_got B |} A ba kb ∧
    rs_rsid s1 = rs_rsid (ep_seq B) ∧ rs_lastRxSeq s1 = rs_lastRxSeq (ep_seq B) ∧
    rs_acceptedInbound s1 = rs_acceptedInbound (ep_seq B)) as (s1 & Hacc & Hd1 & E1 & E2 & E3).
  { unfold acceptInboundData. rewrite Hrsid, (di_rsid _ _ _ _ Hd), bool_decide_true by done.
    cbn [negb]. destruct (de_ack e) as [a|]; [|exists (ep_seq B); split; [done|]; split; [by destruct B|done]].
    destruct (dir_inv_ack _ _ _ _ a Hd' (Ha a eq_refl)) as [Hnf Hd1].
    destruct (ack_again _ a (di_seq _ _ _ _ Hd') Hnf) as (E2 & E3 & E1 & _).
    exists (ack_state (applyCumulativeAck (ep_seq B) a)). split; [|done].
    destruct (applyCumulativeAck (ep_seq B) a) as [| | |s2 reason] eqn:Eq; cbn; try done.
    by destruct (Hnf s2 reason). }
  pose proof (di_seq _ _ _ _ Hd1) as Hinv1. cbn in Hinv1. pose proof (sq_rx _ Hinv1) as Hrx.
  assert (∃ r, accept_after_ack s1 e = Ok r) as [r Hok].
  { unfold accept_after_ack. pose proof (sq_max _ (di_seq _ _ _ _ Hd)).
    rewrite Hn, isSafeSequence_int by lia. cbn [negb num_Z].
    rewrite (frame_digest A e n), Hdg by done. cbn -[Z.leb Z.eqb]. repeat case_match; eauto. }
  exists s1, r. split; [by apply Hacc|]. done.
Qed.

(** Delivering a frame of [A] to [B]: next frame, repetition or gap, never a fault. *)
Lemma deliver_spec A B ab ka ba kb e :
  dir_inv A B ab ka → dir_inv B A ba kb → e ∈ ab →
  ∃ r, acceptInboundData (ep_seq B) e = Ok r ∧
    let B' got := {| ep_seq := in_state r; ep_sent := ep_sent B; ep_got := got |} in
    match r with
    | in_accepted s' ack =>
        de_seq e = JInt ack ∧ ack = rs_lastRxSeq (ep_seq B) + 1 ∧ rs_lastRxSeq s' = ack ∧
        dir_inv A (B' (ep_got B ++ [content_of e])) ab ka ∧
        dir_inv (B' (ep_got B ++ [content_of e])) A ba kb
    | in_duplicate s' _ | in_gap s' _ _ _ =>
        de_seq e ≠ JInt (rs_lastRxSeq (ep_seq B) + 1) ∧
        dir_inv A (B' (ep_got B)) ab ka ∧ dir_inv (B' (ep_got B)) A ba kb
    | in_fault _ _ _ => False
    end.
Proof.
  intros Hd Hd' He.
  destruct (deliver_cases _ _ _ _ _ _ _ Hd Hd' He) as (s1 & r & Hr & Hd1 & E1 & E2 & E3 & Hacc).
  pose proof (di_seq _ _ _ _ Hd1) as Hinv1. cbn in Hinv1.
  pose proof (di_frames _ _ _ _ Hd) as Hfr. rewrite Forall_forall in Hfr.
  destruct (Hfr e He) as (n & dg & Hn & Hrange & Hc & Hrsid & Hv & Hdg & Ha).
  pose proof (frame_digest A e n Hn Hrsid Hv) as Hdig. rewrite Hdg in Hdig.
  pose proof (accept_after_ack_spec _ _ _ Hinv1 Hacc) as Hs.
  pose proof (accept_after_ack_inv _ _ _ Hinv1 Hacc) as Hinv2.
  exists r. split; [done|]. cbn zeta.
  destruct r as [s' ack|s' ack|s' ack ex re|s' ack reason]; cbn in Hinv2 |- *.
  - destruct Hs as (-> & Hseq & Hmax & dg' & Hdg' & ->). rewrite E2 in *.
    rewrite Hdig in Hdg'. injection Hdg' as <-.
    assert (n = rs_lastRxSeq (ep_seq B) + 1) as En by congruence.
    split; [done|]. split; [done|]. split; [done|]. split.
    + destruct Hd as [J1 J2 J3 J4 J5 J6 J7 J8 J9 J10]. pose proof (sq_rx _ Hinv1).
      constructor; cbn; try done; [by rewrite E1|lia| | |lia|].
      * rewrite J7. replace (Z.to_nat (rs_lastRxSeq (ep_seq B) + 1))
          with (S (Z.to_nat (rs_lastRxSeq (ep_seq B)))) by lia.
        symmetry. apply take_S_r. rewrite <- Hc. f_equal. lia.
      * intros i entry Hi. rewrite E3 in Hi. apply lookup_app_Some in Hi as [Hi|[Hle Hi]]; [by apply J8|].
        assert (length (rs_acceptedInbound (ep_seq B)) = Z.to_nat (rs_lastRxSeq (ep_seq B))) as Hlen.
        { pose proof (sq_accepted _ Hinv1) as Hl. rewrite E3, E2 in Hl.
          apply (f_equal length) in Hl. by rewrite length_map, length_seqZ in Hl. }
        apply list_lookup_singleton_Some in Hi as [Hi <-]. cbn.
        assert (i = Z.to_nat (n - 1)) as -> by lia. exists (content_of e). split; [done|].
        rewrite Z2Nat.id by lia. by replace (n - 1 + 1) with n by lia.
      * eapply Forall_impl; [exact J10|]. intros a. apply ack_bounded_mono. lia.
    + eapply dir_inv_near_rx; [..|exact Hd1]; cbn; try done. lia.
  - destruct Hs as (-> & -> & m & entry & Hm & Hmr & _). split; [rewrite Hm; intros [=]; lia|].
    split; [|done]. by eapply dir_inv_far; [..|exact Hd].
  - destruct Hs as (-> & -> & -> & Hlt & Hm). split; [rewrite Hm; intros [=]; lia|].
    split; [|done]. by eapply dir_inv_far; [..|exact Hd].
  - destruct Hs as (-> & -> & [[_ Hunsafe]|(_ & m & entry & dg' & Hm & Hmr & Hlk & Hdg' & Hne)]).
    + pose proof (sq_max _ (di_seq _ _ _ _ Hd)). rewrite Hn, isSafeSequence_int in Hunsafe by lia. done.
    + assert (m = n) as -> by congruence. rewrite E3 in Hlk.
      destruct (di_log _ _ _ _ Hd _ _ Hlk) as (c & Hc' & Hcd).
      rewrite Hc in Hc'. injection Hc' as <-.
      rewrite Z2Nat.id in Hcd by lia. replace (n - 1 + 1) with n in Hcd by lia. congruence.
Qed.

Lemma near_step_inv s s' : sys_inv s → near_step s s' → sys_inv s'.
Proof.
  intros [Hd Hd'] Hst. destruct Hst; cbn in Hd, Hd'; split; cbn.
  - by eapply dir_inv_send.
  - destruct (queue_spec _ _ _ _ _ (di_seq _ _ _ _ Hd) H0) as (_ & _ & _ & (dg & _ & ->) & _).
    by eapply dir_inv_far; [..|exact Hd'].
  - by eapply dir_inv_retransmit.
  - done.
  - destruct (deliver_spec _ _ _ _ _ _ _ Hd Hd' H0) as (r' & Hr' & Hs).
    assert (r' = r) as -> by congruence. by destruct r; cbn in Hs |- *; destruct_and? Hs.
  - destruct (deliver_spec _ _ _ _ _ _ _ Hd Hd' H0) as (r' & Hr' & Hs).
    assert (r' = r) as -> by congruence. by destruct r; cbn in Hs |- *; destruct_and? Hs.
  - destruct Hd as [J1 J2 J3 J4 J5 J6 J7 J8 J9 J10]. constructor; try done.
    constructor; [|done]. split; [done|]. cbn. pose proof (sq_rx _ (di_seq _ _ _ _ Hd')). lia.
  - done.
  - pose proof (di_acks _ _ _ _ Hd) as Hk. rewrite Forall_forall in Hk.
    by apply dir_inv_ack; [|apply Hk].
  - pose proof (di_acks _ _ _ _ Hd) as Hk. rewrite Forall_forall in Hk.
    destruct (dir_inv_ack _ _ _ _ a Hd (Hk a H0)) as [Hnf _].
    destruct (ack_again _ a (di_seq _ _ _ _ Hd) Hnf) as (? & ? & ? & _).
    by eapply dir_inv_far; [..|exact Hd'].
  - destruct Hd as [J1 J2 J3 J4 J5 J6 J7 J8 J9 J10]. constructor; try done.
    + rewrite Forall_forall in *. eauto.
    + rewrite Forall_forall in *. eauto.
  - done.
Qed.

Lemma step_inv s s' : sys_inv s → step s s' → sys_inv s'.
Proof.
  intros Hs [Hst|Hst]; [by eapply near_step_inv|].
  apply sys_inv_swap in Hs. eapply near_step_inv in Hst; [|done].
  apply sys_inv_swap in Hst. by destruct s'.
Qed.

Lemma init_dir_inv rsid q :
  createRbpSequenceState rsid = Ok q →
  let ep := {| ep_seq := q; ep_sent := []; ep_got := [] |} in dir_inv ep ep [] [].
Proof.
  intros Hq. pose proof (create_sequence_inv _ _ Hq) as Hinv. unfold createRbpSequenceState, assertNonEmpty in Hq.
  apply bind_ok in Hq as (? & _ & [= <-]). constructor; cbn; try done.
Qed.

Lemma reachable_sys_inv rsid s : reachable rsid s → sys_inv s.
Proof.
  induction 1 as [q Hq ep|]; [|by eapply step_inv].
  split; cbn; by eapply init_dir_inv.
Qed.

Lemma steps_trans s1 s2 s3 : steps s1 s2 → steps s2 s3 → steps s1 s3.
Proof. induction 1; [done|]. intros. econstructor; eauto. Qed.

Lemma steps_one s s' : near_step s s' → steps s s'.
Proof. intros. econstructor; [by left|constructor]. Qed.

(** ** Recovery *)

Lemma outbox_covers s n :
  seq_inv s → rs_lastPeerAck s < n <= rs_highestTxSeq s →
  ∃ r, r ∈ rs_outbox s ∧ de_seq (ro_envelope r) = JInt n.
Proof.
  intros Hinv Hn. assert (JInt n ∈ outbox_seqs s) as Hin.
  { rewrite (sq_outbox _ Hinv). apply list_elem_of_fmap. exists n. split; [done|].
    apply elem_of_seqZ. lia. }
  unfold outbox_seqs in Hin. apply list_elem_of_fmap in Hin as (r & -> & Hr). by exists r.
Qed.

(** Everything is on the wire that the receiver still lacks. *)
Definition covered (s : sys) : Prop :=
  ∀ n, rs_lastRxSeq (ep_seq (far s)) < n <= rs_highestTxSeq (ep_seq (near s)) →
       ∃ e, e ∈ near_far s ∧ de_seq e = JInt n.

Lemma deliver_all (k : nat) s :
  sys_inv s → covered s →
  rs_highestTxSeq (ep_seq (near s)) - rs_lastRxSeq (ep_seq (far s)) = Z.of_nat k →
  ∃ s', steps s s' ∧ sys_inv s' ∧ near s' = near s ∧ ep_sent (far s') = ep_sent (far s) ∧
        rs_lastRxSeq (ep_seq (far s')) = rs_highestTxSeq (ep_seq (near s)).
Proof.
  revert s. induction k as [|k IH]; intros s Hinv Hc Hk.
  { exists s. repeat split; try apply Hinv; [constructor|lia]. }
  destruct (Hc (rs_lastRxSeq (ep_seq (far s)) + 1) ltac:(lia)) as (e & He & Hseq).
  destruct s as [A B ab ba ka kb]. cbn in *.
  destruct (deliver_spec A B ab ka ba kb e (proj1 Hinv) (proj2 Hinv) He) as (r & Hr & Hs).
  cbn zeta in Hs. destruct r as [s1 ack|s1 ack|s1 ack ex re|s1 ack reason];
    [|by destruct (proj1 Hs)|by destruct (proj1 Hs)|done].
  destruct Hs as (_ & -> & Hrx & Hd & Hd').
  assert (steps {| near := A; far := B; near_far := ab; far_near := ba; acks_near := ka; acks_far := kb |} _)
    as Hst by (apply steps_one; by eapply step_deliver).
  destruct (IH _ (conj Hd Hd' : sys_inv {| near := A; far := _; near_far := ab; far_near := ba;
    acks_near := ka; acks_far := kb |})) as (s' & Hss & Hinv' & E1 & E2 & E3); cbn in *.
  - intros n Hn. cbn in Hn, Hrx. apply Hc. cbn. lia.
  - cbn in Hrx. lia.
  - exists s'. split; [|done]. by eapply steps_trans.
Qed.

Lemma acknowledge_all s :
  sys_inv s → rs_lastRxSeq (ep_seq (far s)) = rs_highestTxSeq (ep_seq (near s)) →
  ∃ s', steps s s' ∧ sys_inv s' ∧ ep_sent (near s') = ep_sent (near s) ∧ far s' = far s ∧
        rs_outbox (ep_seq (near s')) = [].
Proof.
  destruct s as [A B ab ba ka kb]. cbn. intros Hinv Hrx. set (a := JInt (rs_lastRxSeq (ep_seq B))).
  set (s' := {| near := {| ep_seq := ack_state (applyCumulativeAck (ep_seq A) a);
                           ep_sent := ep_sent A; ep_got := ep_got A |};
                far := B; near_far := ab; far_near := ba; acks_near := a :: ka; acks_far := kb |}).
  assert (steps {| near := A; far := B; near_far := ab; far_near := ba; acks_near := ka; acks_far := kb |}
    s') as Hst.
  { eapply steps_cons; [left; apply step_announce|]. apply steps_one. apply step_acknowledged.
    set_solver. }
  exists s'. split; [exact Hst|]. assert (sys_inv s') as Hinv'; [|split; [exact Hinv'|]; cbn].
  { eapply near_step_inv; [eapply near_step_inv; [exact Hinv|apply step_announce]|].
    apply step_acknowledged. set_solver. }
  split; [done|]. split; [done|].
  destruct Hinv as [Hd Hd'], Hinv' as [Hd1 _]. cbn in Hd, Hd', Hd1.
  pose proof (di_seq _ _ _ _ Hd) as Hi. pose proof (sq_tx _ Hi). pose proof (sq_max _ Hi).
  pose proof (di_seq _ _ _ _ Hd1) as Hi1. cbn in Hi1. pose proof (sq_outbox _ Hi1) as Hob.
  assert (rs_highestTxSeq (ack_state (applyCumulativeAck (ep_seq A) a)) =
          rs_lastPeerAck (ack_state (applyCumulativeAck (ep_seq A) a))) as E.
  { assert (isSafeSequence a true = true) as Hsafe by (apply isSafeSequence_int; lia).
    pose proof (ack_spec _ a Hi Hsafe) as Hs.
    destruct (applyCumulativeAck (ep_seq A) a); cbn in Hs |- *;
      [destruct Hs as (_ & _ & ? & -> & _)|destruct Hs as [-> ?]..|]; cbn; lia. }
  rewrite E, Z.sub_diag in Hob. by apply map_eq_nil in Hob.
Qed.

(** ** What the two endpoints promise together *)

(** C1: in every state two endpoints reach over a network that loses, repeats,
    delays and reorders frames and acknowledgements, what each side has accepted
    is a prefix of what the other side queued: nothing is lost from the middle,
    duplicated, reordered or made up. *)
Theorem exactly_once_in_order rsid s :
  reachable rsid s →
  ep_got (far s) `prefix_of` ep_sent (near s) ∧ ep_got (near s) `prefix_of` ep_sent (far s).
Proof.
  intros [Hd Hd']%reachable_sys_inv.
  split; [rewrite (di_got _ _ _ _ Hd)|rewrite (di_got _ _ _ _ Hd')]; apply prefix_take.
Qed.

(** No frame that a peer really sent is ever a protocol fault, however late
    or often the network delivers it: [acceptInboundData] returns accepted,
    duplicate or gap, and accepts exactly the next frame. *)
Theorem legitimate_frames_never_fault rsid s e :
  reachable rsid s → e ∈ near_far s →
  ∃ r, acceptInboundData (ep_seq (far s)) e = Ok r ∧
    (∀ s' ack reason, r ≠ in_fault s' ack reason) ∧
    ((∃ s' ack, r = in_accepted s' ack) ↔ de_seq e = JInt (rs_lastRxSeq (ep_seq (far s)) + 1)).
Proof.
  intros [Hd Hd']%reachable_sys_inv He.
  destruct (deliver_spec _ _ _ _ _ _ _ Hd Hd' He) as (r & Hr & Hs). exists r. split; [done|].
  destruct r; cbn in Hs; [..|done]; (split; [done|]).
  - destruct Hs as (-> & -> & _). split; [done|]. intros _. by eexists _, _.
  - destruct Hs as (Hne & _). split; [by intros (? & ? & ?)|done].
  - destruct Hs as (Hne & _). split; [by intros (? & ? & ?)|done].
Qed.

(** C33: recovery. From every reachable state, whatever the network has lost,
    retransmitting the outbox, delivering its frames and one acknowledgement
    bring the receiver everything that was queued and empty the outbox. *)
Theorem retransmission_completes_delivery rsid s :
  reachable rsid s →
  ∃ s', steps s s' ∧ ep_sent (near s') = ep_sent (near s) ∧
        ep_got (far s') = ep_sent (near s) ∧ rs_outbox (ep_seq (near s')) = [].
Proof.
  intros Hinv%reachable_sys_inv. pose proof (proj1 Hinv) as Hd. pose proof (di_seq _ _ _ _ Hd) as Hi.
  destruct (retransmitOutbox (ep_seq (near s)) {| rf_ack := None; rf_ts := None |}) as [es|] eqn:Hes;
    [|by unfold retransmitOutbox in Hes].
  set (s1 := {| near := near s; far := far s; near_far := es ++ near_far s; far_near := far_near s;
                acks_near := acks_near s; acks_far := acks_far s |}).
  assert (near_step s s1) as Hst by (destruct s; by eapply step_retransmit).
  assert (covered s1) as Hc.
  { intros n Hn. cbn in Hn. pose proof (di_ack _ _ _ _ Hd).
    destruct (outbox_covers _ n Hi ltac:(lia)) as (r & Hr & Hseq).
    apply retransmit_spec in Hes as [-> _]; [|done].
    exists (refreshed {| rf_ack := None; rf_ts := None |} (ro_envelope r)). split; [|exact Hseq].
    apply elem_of_app. left. apply list_elem_of_fmap. by exists r. }
  pose proof (di_rx _ _ _ _ Hd).
  destruct (deliver_all (Z.to_nat (rs_highestTxSeq (ep_seq (near s)) - rs_lastRxSeq (ep_seq (far s)))) s1)
    as (s2 & Hs2 & Hinv2 & E1 & E2 & E3); [by eapply near_step_inv|done|cbn; lia|]. cbn in E1, E2, E3.
  destruct (acknowledge_all s2 Hinv2) as (s3 & Hs3 & Hinv3 & F1 & F2 & F3); [by rewrite E1, E3|].
  exists s3. split; [eapply steps_trans; [by apply steps_one|by eapply steps_trans]|].
  rewrite F1, E1. split; [done|]. split; [|done].
  rewrite F2, (di_got _ _ _ _ (proj1 Hinv2)), E1, E3. apply take_ge.
  pose proof (di_len _ _ _ _ Hd). lia.
Qed.

End system.

Section witnesses.
Import Sha256.

(** One frame was queued and the network lost it. *)
Definition demo_ep (q : RbpSequenceState) (sent : list content) : endpoint :=
  {| ep_seq := q; ep_sent := sent; ep_got := [] |}.

Definition demo_sys (q : RbpSequenceState) (sent : list content) (ab : list DataEnvelopeSnapshot) : sys :=
  {| near := demo_ep q sent; far := demo_ep demo_state []; near_far := ab; far_near := [];
     acks_near := []; acks_far := [] |}.

Lemma demo_reachable q e r :
  queueOutboundData demo_state demo_draft = Ok (queued q e r) →
  reachable (js "rs-a") (demo_sys q [content_of e] [e]).
Proof.
  intros E. eapply reachable_step; [by apply (reachable_init _ demo_state)|].
  left. by eapply (step_send (demo_ep demo_state []) _ _ _ _ _ demo_draft).
Qed.

Lemma exactly_once_in_order_witness :
  ∃ q e r, queueOutboundData demo_state demo_draft = Ok (queued q e r) ∧
    ep_got (far (demo_sys q [content_of e] [e])) `prefix_of` [content_of e].
Proof.
  destruct (queueOutboundData demo_state demo_draft) as [[q e r|]|] eqn:E; try (by vm_compute in E).
  exists q, e, r. split; [done|]. exact (proj1 (exactly_once_in_order _ _ (demo_reachable _ _ _ E))).
Defined.

Lemma legitimate_frames_never_fault_witness :
  ∃ q e r, queueOutboundData demo_state demo_draft = Ok (queued q e r) ∧
    ∃ res, acceptInboundData demo_state e = Ok res ∧ ∀ s' ack reason, res ≠ in_fault s' ack reason.
Proof.
  destruct (queueOutboundData demo_state demo_draft) as [[q e r|]|] eqn:E; try (by vm_compute in E).
  exists q, e, r. split; [done|].
  destruct (legitimate_frames_never_fault _ _ e (demo_reachable _ _ _ E)) as (res & Hr & Hf & _).
  { cbn. set_solver. }
  exists res. by split.
Defined.

Lemma retransmission_completes_delivery_witness :
  ∃ q e r, queueOutboundData demo_state demo_draft = Ok (queued q e r) ∧
    ∃ s', steps (demo_sys q [content_of e] []) s' ∧ ep_got (far s') = [content_of e].
Proof.
  destruct (queueOutboundData demo_state demo_draft) as [[q e r|]|] eqn:E; try (by vm_compute in E).
  exists q, e, r. split; [done|].
  destruct (retransmission_completes_delivery (js "rs-a") (demo_sys q [content_of e] []))
    as (s' & Hst & _ & Hgot & _); [|by exists s'].
  eapply reachable_step; [by eapply demo_reachable|]. left. apply step_lose; set_solver.
Defined.

End witnesses.
End Channel.
