(* ===== verification/Journal.v ===== *)
(** The invocation journal: packages/protocol/src/journalState.ts.

    One [InvocationJournalRecord] remembers one invocation: the request it is
    bound to, how far it got and its outcome.  The functions decide what a
    redelivered request may do, so that a mutation is never executed twice and a
    recorded outcome never changes; batches build their redelivery plans from
    the records of their steps. *)

From stdpp Require Import gmap.
From S2P Require Import Prelude JsString JsValue Canonical Sha256.

Module Journal.
Import Canonical.

(** ** Data (with the wire types of generated/envelope.ts it refers to) *)

Inductive MutationScope :=
| scope_session
| scope_document (document_id : jstr).

#[export] Instance MutationScope_eq_dec : EqDecision MutationScope.
Proof. solve_decision. Defined.

Inductive EvidenceBasis := verification_read | late_terminal.
Inductive HoldResolutionDecision := non_execution_proven | postcondition_verified.

#[export] Instance EvidenceBasis_eq_dec : EqDecision EvidenceBasis.
Proof. solve_decision. Defined.
#[export] Instance HoldResolutionDecision_eq_dec : EqDecision HoldResolutionDecision.
Proof. solve_decision. Defined.

Record Verification := {
  vf_hold_id : jstr;
  vf_mutation_scope : MutationScope;
  vf_purpose : jstr }.

Record RecoveryClearance := {
  rc_hold_id : jstr;
  rc_mutation_scope : MutationScope;
  rc_resolution_id : jstr;
  rc_basis : EvidenceBasis;
  rc_verification_invocation_id : option jstr;
  rc_evidence_digest : jstr;
  rc_decision : HoldResolutionDecision;
  rc_audit_id : jstr }.

Inductive KnownTerminalJournalState := completed | failed | guarded | cancelled.

(** [KnownTerminalJournalState] is [InvocationJournalState] less three states. *)
Inductive InvocationJournalState :=
| received
| executing
| known (status : KnownTerminalJournalState)
| indeterminate.

#[export] Instance KnownTerminalJournalState_eq_dec : EqDecision KnownTerminalJournalState.
Proof. solve_decision. Defined.
#[export] Instance InvocationJournalState_eq_dec : EqDecision InvocationJournalState.
Proof. solve_decision. Defined.

Inductive PolicyClass := class_auto | class_confirm | class_gated.
Inductive PolicyDecision := decision_auto | decision_confirmed | decision_gated_approved.

Record JournalPolicyBinding := {
  pb_class : PolicyClass;
  pb_decision : PolicyDecision;
  pb_confirmation_id : option jstr }.

Record InvocationJournalBinding := {
  jb_rsid : jstr;
  jb_invocationId : jstr;
  jb_method : jstr;
  jb_mutating : bool;
  jb_mutationScope : option MutationScope;
  jb_paramsDigest : jstr;
  jb_policy : JournalPolicyBinding;
  jb_verification : option Verification;
  jb_recoveryClearances : option (list RecoveryClearance);
  jb_batchId : option jstr;
  jb_batchIndex : option jsnum;
  jb_batchDigest : option jstr }.

(** [to_payload] is [Some v] when the object has a [payload] key of its own; the
    value [VUndefined] under the key is still a key. *)
Record TerminalJournalOutcome := {
  to_status : KnownTerminalJournalState;
  to_resultDigest : option jstr;
  to_guardedReason : option jstr;
  to_payloadRetained : bool;
  to_payload : option jsval }.

Record InvocationJournalRecord := {
  jr_binding : InvocationJournalBinding;
  jr_bindingDigest : jstr;
  jr_state : InvocationJournalState;
  jr_dispatchMayHaveStarted : bool;
  jr_readRecoveryConsumed : bool;
  jr_abandoned : bool;
  jr_terminalOutcome : option TerminalJournalOutcome;
  jr_terminalOutcomeDigest : option jstr;
  jr_lateTerminalOutcome : option TerminalJournalOutcome;
  jr_lateTerminalOutcomeDigest : option jstr;
  jr_verificationHoldId : option jstr }.

Inductive RedeliveryFault := binding_mismatch | journal_integrity_mismatch.

Inductive JournalRedeliveryDecision :=
| redelivery_protocol_fault (record : InvocationJournalRecord) (reason : RedeliveryFault)
| replay_terminal (record : InvocationJournalRecord) (outcome : TerminalJournalOutcome)
| replay_late_terminal (record : InvocationJournalRecord) (outcome : TerminalJournalOutcome)
    (verificationHoldId : jstr)
| return_indeterminate (record : InvocationJournalRecord) (verificationHoldId : option jstr)
| reexecute_read (record : InvocationJournalRecord)
| read_recovery_already_consumed (record : InvocationJournalRecord)
| promote_mutation_indeterminate (record : InvocationJournalRecord).

Inductive CancellationDecision :=
| cancelled_before_dispatch (record : InvocationJournalRecord)
| await_real_outcome (record : InvocationJournalRecord)
| already_terminal (record : InvocationJournalRecord).

Inductive UnregisterJournalDecision :=
| unchanged_terminal (record : InvocationJournalRecord)
| known_addin_unreachable (record : InvocationJournalRecord)
| mutation_indeterminate (record : InvocationJournalRecord).

(** A step of a batch ends like an invocation, or was never started. *)
Inductive BatchStepStatus :=
| step_known (status : KnownTerminalJournalState)
| step_indeterminate
| step_not_started.

#[export] Instance BatchStepStatus_eq_dec : EqDecision BatchStepStatus.
Proof. solve_decision. Defined.

Inductive PlanAction := do_replay | do_execute_read | do_return_indeterminate | do_wait | do_not_start.

Record AtomicFalseBatchPlanStep := {
  ps_index : nat;
  ps_invocationId : jstr;
  ps_action : PlanAction;
  ps_status : option BatchStepStatus }.   (** [None] is ["pending"] *)

Inductive AtomicFalseBatchPlanResult :=
| batch_planned (steps : list AtomicFalseBatchPlanStep) (failedStepIndex : option nat)
    (replayed : bool) (records : list InvocationJournalRecord)
| batch_identity_fault (records : list InvocationJournalRecord).

Record AtomicBatchBinding := {
  ab_batchId : jstr;
  ab_batchDigest : jstr;
  ab_orderedStepBindingDigests : list jstr }.

Inductive AtomicBatchState := ab_received | ab_dispatched | ab_terminal | ab_indeterminate.

#[export] Instance AtomicBatchState_eq_dec : EqDecision AtomicBatchState.
Proof. solve_decision. Defined.

Record AtomicBatchJournalRecord := {
  abr_binding : AtomicBatchBinding;
  abr_state : AtomicBatchState;
  abr_dispatchMayHaveStarted : bool;
  abr_terminalDigest : option jstr }.

Inductive AtomicBatchRedeliveryDecision :=
| atomic_replay_terminal (record : AtomicBatchJournalRecord)
| execute_atomic (record : AtomicBatchJournalRecord)
| atomic_return_indeterminate (record : AtomicBatchJournalRecord)
| atomic_protocol_fault (record : AtomicBatchJournalRecord).

(** ** Texts of the enumerations *)

Definition status_text (s : KnownTerminalJournalState) : jstr :=
  match s with
  | completed => js "completed" | failed => js "failed"
  | guarded => js "guarded" | cancelled => js "cancelled"
  end.

Definition state_text (s : InvocationJournalState) : jstr :=
  match s with
  | received => js "received" | executing => js "executing"
  | known s => status_text s | indeterminate => js "indeterminate"
  end.

Definition class_text (c : PolicyClass) : jstr :=
  match c with class_auto => js "auto" | class_confirm => js "confirm" | class_gated => js "gated" end.

Definition policy_decision_text (d : PolicyDecision) : jstr :=
  match d with
  | decision_auto => js "auto" | decision_confirmed => js "confirmed"
  | decision_gated_approved => js "gated_approved"
  end.

Definition basis_text (b : EvidenceBasis) : jstr :=
  match b with verification_read => js "verification_read" | late_terminal => js "late_terminal" end.

Definition resolution_text (d : HoldResolutionDecision) : jstr :=
  match d with
  | non_execution_proven => js "non_execution_proven"
  | postcondition_verified => js "postcondition_verified"
  end.

(** ** The binding and its digest *)

Definition normalizeScope (scope : option MutationScope) : jsval :=
  match scope with
  | None => VNull
  | Some scope_session => obj [(js "kind", VStr (js "session"))]
  | Some (scope_document d) => obj [(js "document_id", VStr d); (js "kind", VStr (js "document"))]
  end.

Definition normalizeClearance (c : RecoveryClearance) : jsval :=
  obj [(js "audit_id", VStr (rc_audit_id c));
       (js "basis", VStr (basis_text (rc_basis c)));
       (js "decision", VStr (resolution_text (rc_decision c)));
       (js "evidence_digest", VStr (rc_evidence_digest c));
       (js "hold_id", VStr (rc_hold_id c));
       (js "mutation_scope", normalizeScope (Some (rc_mutation_scope c)));
       (js "resolution_id", VStr (rc_resolution_id c));
       (js "verification_invocation_id", opt_str (rc_verification_invocation_id c))].

Definition normalizedBinding (b : InvocationJournalBinding) : jsval :=
  obj [(js "batch_digest", opt_str (jb_batchDigest b));
       (js "batch_id", opt_str (jb_batchId b));
       (js "batch_index", match jb_batchIndex b with Some n => VNum n | None => VNull end);
       (js "invocation_id", VStr (jb_invocationId b));
       (js "method", VStr (jb_method b));
       (js "mutating", VBool (jb_mutating b));
       (js "mutation_scope", normalizeScope (jb_mutationScope b));
       (js "params_digest", VStr (jb_paramsDigest b));
       (js "policy", obj [(js "class", VStr (class_text (pb_class (jb_policy b))));
                          (js "confirmation_id", opt_str (pb_confirmation_id (jb_policy b)));
                          (js "decision", VStr (policy_decision_text (pb_decision (jb_policy b))))]);
       (js "recovery_clearances", VArr (map normalizeClearance (nullish (jb_recoveryClearances b) [])));
       (js "rsid", VStr (jb_rsid b));
       (js "verification",
        match jb_verification b with
        | None => VNull
        | Some v => obj [(js "hold_id", VStr (vf_hold_id v));
                         (js "mutation_scope", normalizeScope (Some (vf_mutation_scope v)));
                         (js "purpose", VStr (vf_purpose v))]
        end)].

Definition assertBinding (b : InvocationJournalBinding) : result js_error unit :=
  reject_if ((jb_rsid b === []) || (jb_invocationId b === []) || (jb_method b === [])) TypeError
    "rsid, invocationId, and method are required" ;;
  reject_if (jb_mutating b !== negb (is_null (jb_mutationScope b))) TypeError
    "mutationScope must be non-null exactly when mutating is true" ;;
  reject_if (jb_mutating b && negb (is_null (jb_verification b))) TypeError
    "a mutating invocation cannot carry verification correlation" ;;
  reject_if (negb (jb_mutating b) && negb (nullish (length <$> jb_recoveryClearances b) 0%nat =? 0)%nat)
    TypeError "a read invocation cannot carry recovery clearances" ;;
  match jb_verification b with
  | Some v =>
      reject_if ((vf_hold_id v === []) || (vf_purpose v !== js "resolve_indeterminate")) TypeError
        "verification correlation is incomplete"
  | None => Ok tt
  end ;;
  match jb_batchIndex b with
  | Some n => reject_if (negb (isSafeInteger n) || negb (num_geb n 0)) RangeError
                "batchIndex must be a non-negative safe integer"
  | None => Ok tt
  end.

(** ** Record updates: [{ ...record, state, ... }] *)

Definition with_executing (r : InvocationJournalRecord) (consumed : bool) : InvocationJournalRecord := {|
  jr_binding := jr_binding r; jr_bindingDigest := jr_bindingDigest r;
  jr_state := executing; jr_dispatchMayHaveStarted := true; jr_readRecoveryConsumed := consumed;
  jr_abandoned := jr_abandoned r;
  jr_terminalOutcome := jr_terminalOutcome r; jr_terminalOutcomeDigest := jr_terminalOutcomeDigest r;
  jr_lateTerminalOutcome := jr_lateTerminalOutcome r;
  jr_lateTerminalOutcomeDigest := jr_lateTerminalOutcomeDigest r;
  jr_verificationHoldId := jr_verificationHoldId r |}.

Definition with_terminal (r : InvocationJournalRecord) (o : TerminalJournalOutcome) (d : jstr)
  : InvocationJournalRecord := {|
  jr_binding := jr_binding r; jr_bindingDigest := jr_bindingDigest r;
  jr_state := known (to_status o); jr_dispatchMayHaveStarted := jr_dispatchMayHaveStarted r;
  jr_readRecoveryConsumed := jr_readRecoveryConsumed r; jr_abandoned := jr_abandoned r;
  jr_terminalOutcome := Some o; jr_terminalOutcomeDigest := Some d;
  jr_lateTerminalOutcome := jr_lateTerminalOutcome r;
  jr_lateTerminalOutcomeDigest := jr_lateTerminalOutcomeDigest r;
  jr_verificationHoldId := jr_verificationHoldId r |}.

Definition with_late_terminal (r : InvocationJournalRecord) (o : TerminalJournalOutcome) (d : jstr)
  : InvocationJournalRecord := {|
  jr_binding := jr_binding r; jr_bindingDigest := jr_bindingDigest r;
  jr_state := jr_state r; jr_dispatchMayHaveStarted := jr_dispatchMayHaveStarted r;
  jr_readRecoveryConsumed := jr_readRecoveryConsumed r; jr_abandoned := jr_abandoned r;
  jr_terminalOutcome := jr_terminalOutcome r; jr_terminalOutcomeDigest := jr_terminalOutcomeDigest r;
  jr_lateTerminalOutcome := Some o; jr_lateTerminalOutcomeDigest := Some d;
  jr_verificationHoldId := jr_verificationHoldId r |}.

Definition with_indeterminate (r : InvocationJournalRecord) (hold : option jstr)
  : InvocationJournalRecord := {|
  jr_binding := jr_binding r; jr_bindingDigest := jr_bindingDigest r;
  jr_state := indeterminate; jr_dispatchMayHaveStarted := jr_dispatchMayHaveStarted r;
  jr_readRecoveryConsumed := jr_readRecoveryConsumed r; jr_abandoned := jr_abandoned r;
  jr_terminalOutcome := jr_terminalOutcome r; jr_terminalOutcomeDigest := jr_terminalOutcomeDigest r;
  jr_lateTerminalOutcome := jr_lateTerminalOutcome r;
  jr_lateTerminalOutcomeDigest := jr_lateTerminalOutcomeDigest r;
  jr_verificationHoldId := hold |}.

Definition with_abandoned (r : InvocationJournalRecord) : InvocationJournalRecord := {|
  jr_binding := jr_binding r; jr_bindingDigest := jr_bindingDigest r;
  jr_state := jr_state r; jr_dispatchMayHaveStarted := jr_dispatchMayHaveStarted r;
  jr_readRecoveryConsumed := jr_readRecoveryConsumed r; jr_abandoned := true;
  jr_terminalOutcome := jr_terminalOutcome r; jr_terminalOutcomeDigest := jr_terminalOutcomeDigest r;
  jr_lateTerminalOutcome := jr_lateTerminalOutcome r;
  jr_lateTerminalOutcomeDigest := jr_lateTerminalOutcomeDigest r;
  jr_verificationHoldId := jr_verificationHoldId r |}.

Section operations.
Context `{Hasher}.

(** [createHash("sha256").update(canonicalizeJson(...), "utf8").digest("hex")] *)
Definition makeJournalBindingDigest (b : InvocationJournalBinding) : result js_error jstr :=
  makeJsonDigest (normalizedBinding b).

Definition createReceivedJournalRecord (b : InvocationJournalBinding)
  : result js_error InvocationJournalRecord :=
  assertBinding b ;;
  d ← makeJournalBindingDigest b;
  Ok {| jr_binding := b; jr_bindingDigest := d; jr_state := received;
        jr_dispatchMayHaveStarted := false; jr_readRecoveryConsumed := false; jr_abandoned := false;
        jr_terminalOutcome := None; jr_terminalOutcomeDigest := None;
        jr_lateTerminalOutcome := None; jr_lateTerminalOutcomeDigest := None;
        jr_verificationHoldId := None |}.

Definition markJournalExecuting (r : InvocationJournalRecord)
  : result js_error InvocationJournalRecord :=
  throw_if (jr_state r !== received)
    (JsError PlainError (js "cannot start invocation from " ++ state_text (jr_state r))) ;;
  Ok (with_executing r (jr_readRecoveryConsumed r)).

Definition validateTerminalOutcome (o : TerminalJournalOutcome) : result js_error unit :=
  (if to_status o === guarded
   then reject_if (match to_guardedReason o with
                   | None => true
                   | Some reason => negb (guarded_reason_pattern reason)
                   end) TypeError "guarded terminal outcome requires a valid guardedReason"
   else reject_if (negb (is_null (to_guardedReason o))) TypeError
          "guardedReason is legal only for a guarded outcome") ;;
  let hasPayload := negb (is_null (to_payload o)) in
  reject_if (to_payloadRetained o &&
             (negb hasPayload || match to_payload o with Some v => is_undefined v | None => true end))
    TypeError "a retained terminal payload must be present" ;;
  reject_if (negb (to_payloadRetained o) && hasPayload) TypeError
    "an omitted terminal payload cannot retain payload bytes" ;;
  reject_if (negb (to_payloadRetained o) && is_null (to_resultDigest o)) TypeError
    "an omitted terminal payload requires resultDigest" ;;
  reject_if (match to_resultDigest o with Some d => negb (sha256_pattern d) | None => false end)
    TypeError "resultDigest must be sha256 plus 64 lowercase hexadecimal characters".

Definition outcome_material (o : TerminalJournalOutcome) : jsval :=
  obj [(js "guarded_reason", opt_str (to_guardedReason o));
       (js "payload", match to_payload o with
                      | Some v => if is_undefined v then VNull else v
                      | None => VNull
                      end);
       (js "payload_present", VBool (negb (is_null (to_payload o))));
       (js "payload_retained", VBool (to_payloadRetained o));
       (js "result_digest", opt_str (to_resultDigest o));
       (js "status", VStr (status_text (to_status o)))].

Definition terminalOutcomeIdentity (o : TerminalJournalOutcome) : result js_error jstr :=
  canonicalizeJson (outcome_material o).

Definition makeJournalTerminalOutcomeDigest (o : TerminalJournalOutcome) : result js_error jstr :=
  canonical ← terminalOutcomeIdentity o; Ok (digest_of canonical).

Definition isVerification (r : InvocationJournalRecord) : bool :=
  negb (is_null (jb_verification (jr_binding r))).

(** The body of the [try] block: [false] is an early return. *)
Definition intact_body (r : InvocationJournalRecord) : result js_error bool :=
  d ← makeJournalBindingDigest (jr_binding r);
  if d !== jr_bindingDigest r then Ok false else
  terminal_ok ←
    match jr_terminalOutcome r with
    | None => Ok (is_null (jr_terminalOutcomeDigest r))
    | Some o =>
        validateTerminalOutcome o ;;
        if jr_state r !== known (to_status o) then Ok false else
        d ← makeJournalTerminalOutcomeDigest o;
        Ok (negb ((jr_terminalOutcomeDigest r !== Some d) ||
                  negb (is_null (jr_lateTerminalOutcome r)) ||
                  negb (is_null (jr_lateTerminalOutcomeDigest r)) ||
                  (isVerification r && is_null (to_resultDigest o))))
    end;
  if negb terminal_ok then Ok false else
  late_ok ←
    match jr_lateTerminalOutcome r with
    | None => Ok (is_null (jr_lateTerminalOutcomeDigest r))
    | Some o =>
        validateTerminalOutcome o ;;
        if (jr_state r !== indeterminate) || negb (is_null (jr_terminalOutcome r)) ||
           negb (is_null (jr_terminalOutcomeDigest r)) || is_null (to_resultDigest o)
        then Ok false else
        d ← makeJournalTerminalOutcomeDigest o;
        Ok (jr_lateTerminalOutcomeDigest r === Some d)
    end;
  if negb late_ok then Ok false else
  let terminalState := match jr_state r with known _ => true | _ => false end in
  Ok (negb terminalState || negb (is_null (jr_terminalOutcome r))).

Definition journalRecordIsIntact (r : InvocationJournalRecord) : bool :=
  try_catch (intact_body r) false.

Definition digestTerminalPayload (payload : jsval) : result js_error jstr := makeJsonDigest payload.

Definition recordJournalTerminal (r : InvocationJournalRecord) (o : TerminalJournalOutcome)
  : result js_error InvocationJournalRecord :=
  reject_if (negb (journalRecordIsIntact r)) PlainError "journal integrity mismatch" ;;
  validateTerminalOutcome o ;;
  reject_if (isVerification r && is_null (to_resultDigest o)) TypeError
    "a hold-correlated verification terminal requires resultDigest" ;;
  snapshotDigest ← makeJournalTerminalOutcomeDigest o;
  if jr_state r === indeterminate then
    reject_if (is_null (to_resultDigest o)) TypeError
      "a late-after-indeterminate outcome requires resultDigest" ;;
    match jr_lateTerminalOutcome r with
    | Some late =>
        lateDigest ← makeJournalTerminalOutcomeDigest late;
        reject_if (jr_lateTerminalOutcomeDigest r !== Some lateDigest) PlainError
          "late terminal journal integrity mismatch" ;;
        reject_if (jr_lateTerminalOutcomeDigest r !== Some snapshotDigest) PlainError
          "conflicting late terminal outcome" ;;
        Ok r
    | None => Ok (with_late_terminal r o snapshotDigest)
    end
  else
  match jr_terminalOutcome r with
  | Some recorded =>
      recordedDigest ← makeJournalTerminalOutcomeDigest recorded;
      reject_if (jr_terminalOutcomeDigest r !== Some recordedDigest) PlainError
        "terminal journal integrity mismatch" ;;
      reject_if (jr_terminalOutcomeDigest r !== Some snapshotDigest) PlainError
        "conflicting terminal outcome" ;;
      Ok r
  | None =>
      reject_if (negb (is_null (jr_lateTerminalOutcome r))) PlainError
        "journal already has late terminal evidence" ;;
      throw_if ((jr_state r !== received) && (jr_state r !== executing))
        (JsError PlainError (js "cannot record a terminal outcome from " ++ state_text (jr_state r))) ;;
      Ok (with_terminal r o snapshotDigest)
  end.

Definition markJournalIndeterminate (r : InvocationJournalRecord) (verificationHoldId : option jstr)
  : result js_error InvocationJournalRecord :=
  throw_if ((jr_state r !== received) && (jr_state r !== executing))
    (JsError PlainError (js "cannot mark " ++ state_text (jr_state r) ++ js " indeterminate")) ;;
  reject_if (jb_mutating (jr_binding r) && is_null verificationHoldId) TypeError
    "a mutating indeterminate row requires verificationHoldId" ;;
  reject_if (negb (jb_mutating (jr_binding r)) && negb (is_null verificationHoldId)) TypeError
    "a non-mutating indeterminate row cannot carry verificationHoldId" ;;
  Ok (with_indeterminate r verificationHoldId).

Definition decideJournalRedelivery (r : InvocationJournalRecord) (incoming : InvocationJournalBinding)
  (holdForPromotion : option jstr) : result js_error JournalRedeliveryDecision :=
  assertBinding incoming ;;
  if negb (journalRecordIsIntact r)
  then Ok (redelivery_protocol_fault r journal_integrity_mismatch) else
  d ← makeJournalBindingDigest incoming;
  if d !== jr_bindingDigest r then Ok (redelivery_protocol_fault r binding_mismatch) else
  match jr_terminalOutcome r with
  | Some o => Ok (replay_terminal r o)
  | None =>
  match jr_lateTerminalOutcome r with
  | Some o =>
      match jr_verificationHoldId r with
      | None => throw PlainError "late terminal evidence is missing its verification hold id"
      | Some h => Ok (replay_late_terminal r o h)
      end
  | None =>
  if jr_state r === indeterminate then Ok (return_indeterminate r (jr_verificationHoldId r)) else
  if jb_mutating (jr_binding r) then
    reject_if (is_null holdForPromotion) TypeError
      "mutating redelivery promotion requires a verification hold id" ;;
    promoted ← markJournalIndeterminate r holdForPromotion;
    Ok (promote_mutation_indeterminate promoted)
  else
  if jr_readRecoveryConsumed r then Ok (read_recovery_already_consumed r) else
  Ok (reexecute_read (with_executing r true))
  end
  end.

(** The outcome the journal writes itself, with a digest for a verification read. *)
Definition self_outcome (r : InvocationJournalRecord) (status : KnownTerminalJournalState)
  (payload : jsval) : result js_error TerminalJournalOutcome :=
  digest ← (if isVerification r then d ← digestTerminalPayload payload; Ok (Some d) else Ok None);
  Ok {| to_status := status; to_resultDigest := digest; to_guardedReason := None;
        to_payloadRetained := true; to_payload := Some payload |}.

Definition requestJournalCancellation (r : InvocationJournalRecord)
  : result js_error CancellationDecision :=
  if negb (is_null (jr_terminalOutcome r)) || (jr_state r === indeterminate)
  then Ok (already_terminal r) else
  if (jr_state r === received) && negb (jr_dispatchMayHaveStarted r) then
    o ← self_outcome r cancelled (obj [(js "cancellation", VStr (js "before_dispatch"))]);
    r' ← recordJournalTerminal r o;
    Ok (cancelled_before_dispatch r')
  else Ok (await_real_outcome (with_abandoned r)).

Definition handleJournalSessionUnregister (r : InvocationJournalRecord) (nonExecutionProven : bool)
  (verificationHoldId : option jstr) : result js_error UnregisterJournalDecision :=
  if negb (is_null (jr_terminalOutcome r)) || (jr_state r === indeterminate)
  then Ok (unchanged_terminal r) else
  if jb_mutating (jr_binding r) && negb nonExecutionProven then
    reject_if (is_null verificationHoldId) TypeError
      "uncertain mutating unregistration requires a verification hold id" ;;
    r' ← markJournalIndeterminate r verificationHoldId;
    Ok (mutation_indeterminate r')
  else
    o ← self_outcome r failed
          (obj [(js "fault_class", VStr (js "addin_unreachable"));
                (js "non_execution_proven", VBool nonExecutionProven)]);
    r' ← recordJournalTerminal r o;
    Ok (known_addin_unreachable r').

(** ** Batches with [atomic: false] *)

Definition recordTerminalStatus (r : InvocationJournalRecord) : option BatchStepStatus :=
  match jr_terminalOutcome r with
  | Some o => Some (step_known (to_status o))
  | None =>
      match jr_lateTerminalOutcome r with
      | Some o => Some (step_known (to_status o))
      | None => if jr_state r === indeterminate then Some step_indeterminate else None
      end
  end.

Definition in_batch (b first : InvocationJournalBinding) (index : nat) : bool :=
  (jb_batchId b === jb_batchId first) && (jb_batchDigest b === jb_batchDigest first) &&
  (jb_batchIndex b === Some (JInt (Z.of_nat index))) && (jb_rsid b === jb_rsid first).

Fixpoint batch_order_loop (first : InvocationJournalBinding) (index : nat) (seen : list jstr)
  (records : list InvocationJournalRecord) (incoming : list InvocationJournalBinding)
  : result js_error bool :=
  match records, incoming with
  | r :: records, b :: incoming =>
      if negb (in_batch b first index) || negb (in_batch (jr_binding r) first index) ||
         negb (journalRecordIsIntact r)
      then Ok false else
      d ← makeJournalBindingDigest b;
      if (jr_bindingDigest r !== d) || bool_decide (jb_invocationId b ∈ seen) then Ok false else
      batch_order_loop first (S index) (jb_invocationId b :: seen) records incoming
  | [], _ => Ok true
  | _ :: _, [] => Ok false
  end.

Definition validBatchRecordOrder (records : list InvocationJournalRecord)
  (incoming : list InvocationJournalBinding) : result js_error bool :=
  if (length records =? 0)%nat || negb (length records =? length incoming)%nat then Ok false else
  match incoming with
  | [] => Ok false
  | first :: _ =>
      if is_null (jb_batchId first) || is_null (jb_batchDigest first) then Ok false
      else batch_order_loop first 0 [] records incoming
  end.

(** The variables of the planning loop. *)
Record PlanState := {
  pl_steps : list AtomicFalseBatchPlanStep;
  pl_failed : option nat;
  pl_stopped : bool;
  pl_executed : bool;
  pl_records : list InvocationJournalRecord }.

Definition push_step (s : PlanState) (index : nat) (r r' : InvocationJournalRecord)
  (action : PlanAction) (status : option BatchStepStatus) (fails stops executes : bool) : PlanState := {|
  pl_steps := pl_steps s ++ [{| ps_index := index; ps_invocationId := jb_invocationId (jr_binding r);
                                ps_action := action; ps_status := status |}];
  pl_failed := if fails then Some index else pl_failed s;
  pl_stopped := if stops then true else pl_stopped s;
  pl_executed := if executes then true else pl_executed s;
  pl_records := pl_records s ++ [r'] |}.

(** One round of the loop. *)
Definition plan_step (holds : gmap jstr jstr) (s : PlanState) (index : nat) (r : InvocationJournalRecord)
  : result js_error PlanState :=
  if pl_stopped s
  then Ok (push_step s index r r do_not_start (Some step_not_started) false false false) else
  match recordTerminalStatus r with
  | Some status =>
      let bad := status !== step_known completed in
      Ok (push_step s index r r do_replay (Some status) bad bad false)
  | None =>
      decision ← decideJournalRedelivery r (jr_binding r) (holds !! jb_invocationId (jr_binding r));
      match decision with
      | reexecute_read r' => Ok (push_step s index r r' do_execute_read None false true true)
      | promote_mutation_indeterminate r' =>
          Ok (push_step s index r r' do_return_indeterminate (Some step_indeterminate) true true false)
      | read_recovery_already_consumed _ => Ok (push_step s index r r do_wait None false true false)
      | return_indeterminate _ _ =>
          Ok (push_step s index r r do_return_indeterminate (Some step_indeterminate) true true false)
      | redelivery_protocol_fault _ _ => throw PlainError "unexpected batch redelivery decision protocol_fault"
      | replay_terminal _ _ => throw PlainError "unexpected batch redelivery decision replay_terminal"
      | replay_late_terminal _ _ _ =>
          throw PlainError "unexpected batch redelivery decision replay_late_terminal"
      end
  end.

Fixpoint plan_loop (holds : gmap jstr jstr) (s : PlanState) (index : nat)
  (records : list InvocationJournalRecord) : result js_error PlanState :=
  match records with
  | [] => Ok s
  | r :: records => s' ← plan_step holds s index r; plan_loop holds s' (S index) records
  end.

Definition planAtomicFalseBatchRedelivery (records : list InvocationJournalRecord)
  (incoming : list InvocationJournalBinding) (holds : gmap jstr jstr)
  : result js_error AtomicFalseBatchPlanResult :=
  valid ← validBatchRecordOrder records incoming;
  if negb valid then Ok (batch_identity_fault records) else
  s ← plan_loop holds {| pl_steps := []; pl_failed := None; pl_stopped := false; pl_executed := false;
                         pl_records := [] |} 0 records;
  Ok (batch_planned (pl_steps s) (pl_failed s) (negb (pl_executed s)) (pl_records s)).

(** [None] is [{ valid: false }], [Some f] is [{ valid: true, failedStepIndex: f }]. *)
Definition validateAtomicFalseBatchStatuses (statuses : list BatchStepStatus) : option (option nat) :=
  match find_index (λ s, s !== step_known completed) statuses with
  | None => Some None
  | Some firstNonSuccess =>
      if bool_decide (statuses !! firstNonSuccess = Some step_not_started) then None
      else if forallb (λ s, s === step_not_started) (drop (S firstNonSuccess) statuses)
      then Some (Some firstNonSuccess) else None
  end.

(** ** Atomic batches *)

Definition atomic_identity (b : AtomicBatchBinding) : result js_error jstr :=
  canonicalizeJson (obj [
    (js "batch_digest", VStr (ab_batchDigest b));
    (js "batch_id", VStr (ab_batchId b));
    (js "ordered_step_binding_digests", VArr (map VStr (ab_orderedStepBindingDigests b)))]).

Definition decideAtomicBatchRedelivery (r : AtomicBatchJournalRecord) (incoming : AtomicBatchBinding)
  : result js_error AtomicBatchRedeliveryDecision :=
  recordIdentity ← atomic_identity (abr_binding r);
  incomingIdentity ← atomic_identity incoming;
  if recordIdentity !== incomingIdentity then Ok (atomic_protocol_fault r) else
  if abr_state r === ab_terminal then
    reject_if (is_null (abr_terminalDigest r)) PlainError
      "terminal atomic batch is missing terminalDigest" ;;
    Ok (atomic_replay_terminal r)
  else
  if (abr_state r === ab_received) && negb (abr_dispatchMayHaveStarted r)
  then Ok (execute_atomic {| abr_binding := abr_binding r; abr_state := ab_dispatched;
                             abr_dispatchMayHaveStarted := true;
                             abr_terminalDigest := abr_terminalDigest r |})
  else Ok (atomic_return_indeterminate {| abr_binding := abr_binding r; abr_state := ab_indeterminate;
             abr_dispatchMayHaveStarted := abr_dispatchMayHaveStarted r;
             abr_terminalDigest := None |}).

End operations.
End Journal.

Module JournalFacts.
Import Canonical CanonicalFacts Journal.

#[local] Arguments makeJournalTerminalOutcomeDigest : simpl never.
#[local] Arguments makeJournalBindingDigest : simpl never.
#[local] Arguments validateTerminalOutcome : simpl never.
#[local] Arguments recordJournalTerminal : simpl never.
#[local] Arguments self_outcome : simpl never.
#[local] Arguments assertBinding : simpl never.
#[local] Arguments canonicalizeJson : simpl never.

Section facts.
Context `{Hasher}.

(** ** What a record looks like in each state *)

(** A recorded outcome with its digest. *)
Definition outcome_ok (o : TerminalJournalOutcome) (d : option jstr) : Prop :=
  validateTerminalOutcome o = Ok tt ∧ ∃ d', d = Some d' ∧ makeJournalTerminalOutcomeDigest o = Ok d'.

Definition state_inv (r : InvocationJournalRecord) : Prop :=
  match jr_state r with
  | received | executing =>
      jr_terminalOutcome r = None ∧ jr_terminalOutcomeDigest r = None ∧
      jr_lateTerminalOutcome r = None ∧ jr_lateTerminalOutcomeDigest r = None ∧
      jr_verificationHoldId r = None
  | known status =>
      ∃ o, jr_terminalOutcome r = Some o ∧ to_status o = status ∧
           outcome_ok o (jr_terminalOutcomeDigest r) ∧
           jr_lateTerminalOutcome r = None ∧ jr_lateTerminalOutcomeDigest r = None ∧
           jr_verificationHoldId r = None ∧
           (isVerification r = true → is_Some (to_resultDigest o))
  | indeterminate =>
      jr_terminalOutcome r = None ∧ jr_terminalOutcomeDigest r = None ∧
      (is_Some (jr_verificationHoldId r) ↔ jb_mutating (jr_binding r) = true) ∧
      match jr_lateTerminalOutcome r with
      | None => jr_lateTerminalOutcomeDigest r = None
      | Some o => outcome_ok o (jr_lateTerminalOutcomeDigest r) ∧ is_Some (to_resultDigest o)
      end
  end.

Record journal_inv (r : InvocationJournalRecord) : Prop := {
  jv_binding : assertBinding (jr_binding r) = Ok tt;
  jv_digest : makeJournalBindingDigest (jr_binding r) = Ok (jr_bindingDigest r);
  jv_state : state_inv r;
  jv_received : jr_state r = received → jr_dispatchMayHaveStarted r = false;
  jv_executing : jr_state r = executing → jr_dispatchMayHaveStarted r = true;
  jv_consumed : jr_readRecoveryConsumed r = true →
    jb_mutating (jr_binding r) = false ∧ jr_dispatchMayHaveStarted r = true }.

Lemma is_Some_null {A} (o : option A) : is_Some o → is_null o = false.
Proof. by intros [? ->]. Qed.

Lemma outcome_digest_eq o : makeJournalTerminalOutcomeDigest o = makeJsonDigest (outcome_material o).
Proof. done. Qed.

(** The integrity check accepts every record in order. *)
Lemma journal_inv_intact r : journal_inv r → journalRecordIsIntact r = true.
Proof.
  intros [_ Hd Hs _ _ _]. unfold journalRecordIsIntact, intact_body. rewrite Hd. cbn [mbind result_bind].
  rewrite bool_decide_true by done. cbn [negb]. unfold state_inv in Hs.
  destruct (jr_state r) as [| |s|].
  1, 2: destruct Hs as (-> & -> & -> & -> & _); done.
  - destruct Hs as (o & -> & <- & (Hv & d & Ed & Hod) & -> & -> & _ & Hver). rewrite Ed. cbn [mbind result_bind].
    rewrite Hv. cbn [mbind result_bind]. rewrite bool_decide_true by done. cbn [negb].
    rewrite Hod. cbn [mbind result_bind]. rewrite bool_decide_true by done. cbn [negb orb is_null].
    destruct (isVerification r); [|done]. by rewrite (is_Some_null _ (Hver eq_refl)).
  - destruct Hs as (-> & -> & _ & Hl). cbn. destruct (jr_lateTerminalOutcome r) as [o|].
    + destruct Hl as ((Hv & d & -> & Hod) & Hr). rewrite Hv. cbn.
      rewrite (is_Some_null _ Hr). cbn -[makeJournalTerminalOutcomeDigest]. rewrite Hod. cbn.
      by rewrite !bool_decide_true by done.
    + by rewrite Hl.
Qed.

(** ** Every operation keeps the invariant *)

Lemma create_record_inv b r : createReceivedJournalRecord b = Ok r → journal_inv r ∧ jr_binding r = b.
Proof.
  unfold createReceivedJournalRecord. intros Hc. apply bind_ok in Hc as ([] & Hb & Hc).
  apply bind_ok in Hc as (d & Hd & [= <-]). split; [|done]. by constructor.
Qed.

Lemma executing_inv r r' :
  journal_inv r → markJournalExecuting r = Ok r' →
  journal_inv r' ∧ jr_state r = received ∧ r' = with_executing r (jr_readRecoveryConsumed r).
Proof.
  intros [J1 J2 J3 J4 J5 J6] Hm. unfold markJournalExecuting in Hm. ok_inv Hm. split; [|done].
  unfold state_inv in J3. rewrite Hok in J3. constructor; cbn; try done.
  intros Hc. by apply J6 in Hc as [? _].
Qed.

Lemma indeterminate_inv r h r' :
  journal_inv r → markJournalIndeterminate r h = Ok r' →
  journal_inv r' ∧ r' = with_indeterminate r h ∧ (jr_state r = received ∨ jr_state r = executing).
Proof.
  intros [J1 J2 J3 J4 J5 J6] Hm. unfold markJournalIndeterminate in Hm.
  apply bind_ok in Hm as (? & Hst & Hm). apply throw_if_ok in Hst.
  apply bind_ok in Hm as (? & H1 & Hm). apply reject_if_ok in H1.
  apply bind_ok in Hm as (? & H2 & Hm). apply reject_if_ok in H2. injection Hm as <-.
  assert (jr_state r = received ∨ jr_state r = executing) as Hst'.
  { apply andb_false_iff in Hst as [E|E]; bsimp; auto. }
  split; [|done]. constructor; cbn; try done.
  unfold state_inv in J3 |- *. cbn.
  assert (jr_terminalOutcome r = None ∧ jr_terminalOutcomeDigest r = None ∧
      jr_lateTerminalOutcome r = None ∧ jr_lateTerminalOutcomeDigest r = None) as (E1 & E2 & E3 & E4).
  { destruct Hst' as [E|E]; rewrite E in J3; by destruct J3 as (? & ? & ? & ? & _). }
  rewrite E1, E2, E3, E4. split; [done|]. split; [done|]. split; [|done].
  destruct h, (jb_mutating (jr_binding r)); cbn in *; try done; split; intros; eauto.
Qed.

Lemma with_terminal_inv r o d :
  journal_inv r → jr_state r = received ∨ jr_state r = executing →
  validateTerminalOutcome o = Ok tt → makeJournalTerminalOutcomeDigest o = Ok d →
  isVerification r && is_null (to_resultDigest o) = false → journal_inv (with_terminal r o d).
Proof.
  intros [J1 J2 J3 J4 J5 J6] Hst Hv Hd Hver. constructor; cbn; try done.
  unfold state_inv in *. cbn. exists o. split; [done|]. split; [done|]. split; [by split; [|exists d]|].
  destruct Hst as [E|E]; rewrite E in J3; destruct J3 as (_ & _ & ? & ? & ?);
    (repeat split; try done); intros Hiv; change (isVerification r = true) in Hiv; rewrite Hiv in Hver;
    by apply is_null_false.
Qed.

(** What recording an outcome does: repetition, late evidence or the terminal state. *)
Lemma record_cases r o r' :
  journal_inv r → recordJournalTerminal r o = Ok r' →
  journal_inv r' ∧ validateTerminalOutcome o = Ok tt ∧ ∃ d, makeJournalTerminalOutcomeDigest o = Ok d ∧
  ((r' = r ∧ (jr_terminalOutcomeDigest r = Some d ∨ jr_lateTerminalOutcomeDigest r = Some d)) ∨
   (r' = with_late_terminal r o d ∧ jr_state r = indeterminate ∧ jr_lateTerminalOutcome r = None) ∨
   (r' = with_terminal r o d ∧ (jr_state r = received ∨ jr_state r = executing))).
Proof.
  intros Hinv Hr. unfold recordJournalTerminal in Hr. rewrite journal_inv_intact in Hr by done.
  cbn [negb reject_if throw_if] in Hr. apply bind_ok in Hr as (? & _ & Hr).
  apply bind_ok in Hr as ([] & Hv & Hr). apply bind_ok in Hr as ([] & Hver & Hr).
  apply reject_if_ok in Hver. apply bind_ok in Hr as (d & Hd & Hr).
  pose proof Hinv as [J1 J2 J3 J4 J5 J6]. unfold state_inv in J3.
  destruct (jr_state r) as [| |s|] eqn:Est.
  1, 2: rewrite bool_decide_false in Hr by done; destruct J3 as (E1 & E2 & E3 & E4 & E5);
    rewrite E1, E3 in Hr; apply bind_ok in Hr as (? & _ & Hr); apply bind_ok in Hr as (? & _ & [= <-]);
    (split; [apply with_terminal_inv; auto|split; [done|exists d; split; [done|]]]; right; right; auto).
  - rewrite bool_decide_false in Hr by done. destruct J3 as (o' & E1 & E2 & (_ & d' & E3 & E4) & _).
    rewrite E1, E3, E4 in Hr. apply bind_ok in Hr as (? & _ & Hr). apply bind_ok in Hr as (? & _ & Hr).
    apply bind_ok in Hr as (? & Hsame & [= <-]). apply reject_if_ok in Hsame. bsimp.
    split; [done|]. split; [done|]. exists d. split; [done|]. left. split; [done|]. left. congruence.
  - rewrite bool_decide_true in Hr by done. apply bind_ok in Hr as (? & Hrd & Hr). apply reject_if_ok in Hrd.
    destruct J3 as (E1 & E2 & E3 & E4). destruct (jr_lateTerminalOutcome r) as [o'|] eqn:El.
    + destruct E4 as ((_ & d' & E4 & E5) & _). rewrite E4, E5 in Hr.
      apply bind_ok in Hr as (? & _ & Hr). apply bind_ok in Hr as (? & _ & Hr).
      apply bind_ok in Hr as (? & Hsame & [= <-]). apply reject_if_ok in Hsame. bsimp.
      split; [done|]. split; [done|]. exists d. split; [done|]. left. split; [done|]. right. congruence.
    + injection Hr as <-. split; [|split; [done|exists d; split; [done|auto]]].
      constructor; cbn; rewrite ?Est; try done. unfold state_inv. cbn. rewrite Est.
      repeat split; try done; try apply E3; [by exists d|]. by apply is_null_false.
Qed.

Definition decision_record (d : JournalRedeliveryDecision) : InvocationJournalRecord :=
  match d with
  | redelivery_protocol_fault r _ | replay_terminal r _ | replay_late_terminal r _ _
  | return_indeterminate r _ | reexecute_read r | read_recovery_already_consumed r
  | promote_mutation_indeterminate r => r
  end.

Definition is_reexecution (d : JournalRedeliveryDecision) : bool :=
  match d with reexecute_read _ => true | _ => false end.

(** What a redelivery does, branch by branch. *)
Lemma redelivery_cases r b h d :
  journal_inv r → decideJournalRedelivery r b h = Ok d →
  match d with
  | redelivery_protocol_fault r' reason =>
      r' = r ∧ reason = binding_mismatch ∧ makeJournalBindingDigest b ≠ Ok (jr_bindingDigest r)
  | replay_terminal r' o => r' = r ∧ jr_terminalOutcome r = Some o
  | replay_late_terminal r' o hold =>
      r' = r ∧ jr_lateTerminalOutcome r = Some o ∧ jr_verificationHoldId r = Some hold
  | return_indeterminate r' hold =>
      r' = r ∧ jr_state r = indeterminate ∧ jr_lateTerminalOutcome r = None ∧
      hold = jr_verificationHoldId r
  | reexecute_read r' =>
      r' = with_executing r true ∧ jb_mutating (jr_binding r) = false ∧
      (jr_state r = received ∨ jr_state r = executing) ∧ jr_readRecoveryConsumed r = false
  | read_recovery_already_consumed r' =>
      r' = r ∧ jb_mutating (jr_binding r) = false ∧ jr_readRecoveryConsumed r = true
  | promote_mutation_indeterminate r' =>
      jb_mutating (jr_binding r) = true ∧ markJournalIndeterminate r h = Ok r'
  end.
Proof.
  intros Hinv Hr. unfold decideJournalRedelivery in Hr. apply bind_ok in Hr as ([] & _ & Hr).
  rewrite journal_inv_intact in Hr by done. cbn [negb] in Hr. apply bind_ok in Hr as (bd & Hbd & Hr).
  destruct (bool_decide (bd = jr_bindingDigest r)) eqn:Ebd; cbn [negb] in Hr; bsimp.
  2: { split; [done|]. split; [done|]. congruence. }
  pose proof (jv_state _ Hinv) as Hs. unfold state_inv in Hs.
  destruct (jr_terminalOutcome r) as [o|] eqn:Et; [by injection Hr as <-|].
  destruct (jr_lateTerminalOutcome r) as [o|] eqn:El.
  { destruct (jr_verificationHoldId r) eqn:Eh; [|done]. by injection Hr as <-. }
  destruct (bool_decide (jr_state r = indeterminate)) eqn:Ei; bsimp; [done|].
  assert (jr_state r = received ∨ jr_state r = executing) as Hst.
  { destruct (jr_state r); auto; [|done]. by destruct Hs as (? & ? & _). }
  destruct (jb_mutating (jr_binding r)) eqn:Em.
  - apply bind_ok in Hr as (? & _ & Hr). apply bind_ok in Hr as (r' & Hr' & [= <-]). done.
  - destruct (jr_readRecoveryConsumed r) eqn:Ec; by injection Hr as <-.
Qed.

Lemma reexecute_inv r :
  journal_inv r → jb_mutating (jr_binding r) = false →
  jr_state r = received ∨ jr_state r = executing → journal_inv (with_executing r true).
Proof.
  intros [J1 J2 J3 J4 J5 J6] Hm Hst. constructor; cbn; try done.
  unfold state_inv in *. cbn. by destruct Hst as [E|E]; rewrite E in J3.
Qed.

Lemma redelivery_inv r b h d :
  journal_inv r → decideJournalRedelivery r b h = Ok d → journal_inv (decision_record d).
Proof.
  intros Hinv Hd. pose proof (redelivery_cases _ _ _ _ Hinv Hd) as Hc.
  destruct d; cbn in *; try (by destruct Hc as [-> _]).
  - destruct Hc as (-> & ? & ? & _). by apply reexecute_inv.
  - destruct Hc as [_ Hm]. by eapply indeterminate_inv.
Qed.

Definition cancellation_record (d : CancellationDecision) : InvocationJournalRecord :=
  match d with cancelled_before_dispatch r | await_real_outcome r | already_terminal r => r end.

Lemma abandoned_inv r : journal_inv r → journal_inv (with_abandoned r).
Proof. intros []. by constructor. Qed.

Lemma cancellation_cases r d :
  journal_inv r → requestJournalCancellation r = Ok d →
  match d with
  | cancelled_before_dispatch r' =>
      jr_dispatchMayHaveStarted r = false ∧ ∃ o, to_status o = cancelled ∧ recordJournalTerminal r o = Ok r'
  | await_real_outcome r' => r' = with_abandoned r ∧ jr_state r = executing
  | already_terminal r' => r' = r ∧ jr_state r ≠ received ∧ jr_state r ≠ executing
  end.
Proof.
  intros Hinv Hd. unfold requestJournalCancellation in Hd.
  pose proof (jv_state _ Hinv) as Hs. unfold state_inv in Hs.
  destruct (jr_state r) as [| |s|] eqn:Est.
  - destruct Hs as (E1 & _). rewrite E1, (jv_received _ Hinv Est) in Hd. cbn -[self_outcome recordJournalTerminal] in Hd.
    apply bind_ok in Hd as (o & Ho & Hd). apply bind_ok in Hd as (r' & Hr' & [= <-]).
    split; [by apply (jv_received _ Hinv)|]. exists o. split; [|done]. unfold self_outcome in Ho. by ok_inv Ho.
  - destruct Hs as (E1 & _). rewrite E1 in Hd. cbn in Hd. by injection Hd as <-.
  - destruct Hs as (o & E1 & _). rewrite E1 in Hd. cbn in Hd. by injection Hd as <-.
  - destruct Hs as (E1 & _). rewrite E1 in Hd. cbn in Hd. by injection Hd as <-.
Qed.

Lemma cancellation_inv r d :
  journal_inv r → requestJournalCancellation r = Ok d → journal_inv (cancellation_record d).
Proof.
  intros Hinv Hd. pose proof (cancellation_cases _ _ Hinv Hd) as Hc. destruct d; cbn in *.
  - destruct Hc as (_ & o & _ & Ho). by eapply record_cases.
  - destruct Hc as [-> _]. by apply abandoned_inv.
  - by destruct Hc as [-> _].
Qed.

Definition unregister_record (d : UnregisterJournalDecision) : InvocationJournalRecord :=
  match d with unchanged_terminal r | known_addin_unreachable r | mutation_indeterminate r => r end.

Lemma unregister_cases r p h d :
  journal_inv r → handleJournalSessionUnregister r p h = Ok d →
  match d with
  | unchanged_terminal r' => r' = r ∧ jr_state r ≠ received ∧ jr_state r ≠ executing
  | known_addin_unreachable r' =>
      (jb_mutating (jr_binding r) = true → p = true) ∧
      ∃ o, to_status o = failed ∧ recordJournalTerminal r o = Ok r'
  | mutation_indeterminate r' =>
      jb_mutating (jr_binding r) = true ∧ p = false ∧ markJournalIndeterminate r h = Ok r'
  end.
Proof.
  intros Hinv Hd. unfold handleJournalSessionUnregister in Hd.
  destruct (_ || _) eqn:Eterm in Hd.
  { injection Hd as <-. split; [done|]. pose proof (jv_state _ Hinv) as Hs. unfold state_inv in Hs.
    apply orb_true_iff in Eterm as [E|E]; bsimp; [|by rewrite E].
    apply is_null_false in E as [o E]. destruct (jr_state r); try done; by destruct Hs as (? & _); simplify_eq. }
  destruct (jb_mutating (jr_binding r)) eqn:Em, p; cbn [andb negb] in Hd.
  2: { apply bind_ok in Hd as (? & _ & Hd). by apply bind_ok in Hd as (r' & Hr & [= <-]). }
  all: apply bind_ok in Hd as (o & Ho & Hd); apply bind_ok in Hd as (r' & Hr' & [= <-]);
    (split; [done|]); exists o; (split; [|done]); unfold self_outcome in Ho; by ok_inv Ho.
Qed.

Lemma unregister_inv r p h d :
  journal_inv r → handleJournalSessionUnregister r p h = Ok d → journal_inv (unregister_record d).
Proof.
  intros Hinv Hd. pose proof (unregister_cases _ _ _ _ Hinv Hd) as Hc. destruct d; cbn in *.
  - by destruct Hc as [-> _].
  - destruct Hc as (_ & o & _ & Ho). by eapply record_cases.
  - destruct Hc as (_ & _ & Hm). by eapply indeterminate_inv.
Qed.

(** ** Histories of one invocation *)

(** One operation on a record; the flag says that the request goes to the add-in. *)
Inductive journal_step (r : InvocationJournalRecord) : bool → InvocationJournalRecord → Prop :=
| js_start r' : markJournalExecuting r = Ok r' → journal_step r true r'
| js_terminal o r' : recordJournalTerminal r o = Ok r' → journal_step r false r'
| js_indeterminate h r' : markJournalIndeterminate r h = Ok r' → journal_step r false r'
| js_redeliver b h d :
    decideJournalRedelivery r b h = Ok d → journal_step r (is_reexecution d) (decision_record d)
| js_cancel d : requestJournalCancellation r = Ok d → journal_step r false (cancellation_record d)
| js_unregister p h d :
    handleJournalSessionUnregister r p h = Ok d → journal_step r false (unregister_record d).

(** [journal_run b n r]: a history of the request [b] with [n] dispatches leads to [r]. *)
Inductive journal_run (b : InvocationJournalBinding) : nat → InvocationJournalRecord → Prop :=
| run_create r : createReceivedJournalRecord b = Ok r → journal_run b 0 r
| run_step n r e r' :
    journal_run b n r → journal_step r e r' → journal_run b (if e then S n else n) r'.

(** Bookkeeping of one operation: what it may change besides state and outcome. *)
Definition step_effect (r : InvocationJournalRecord) (e : bool) (r' : InvocationJournalRecord) : Prop :=
  jr_binding r' = jr_binding r ∧
  if e then
    jr_dispatchMayHaveStarted r' = true ∧
    ((jr_state r = received ∧ jr_readRecoveryConsumed r' = jr_readRecoveryConsumed r) ∨
     (jb_mutating (jr_binding r) = false ∧ jr_readRecoveryConsumed r = false ∧
      jr_readRecoveryConsumed r' = true))
  else
    jr_dispatchMayHaveStarted r' = jr_dispatchMayHaveStarted r ∧
    jr_readRecoveryConsumed r' = jr_readRecoveryConsumed r.

(** A recorded outcome freezes the record. *)
Definition settled (r : InvocationJournalRecord) : Prop :=
  is_Some (jr_terminalOutcome r) ∨ is_Some (jr_lateTerminalOutcome r).

Lemma settled_pending r :
  journal_inv r → settled r → jr_state r ≠ received ∧ jr_state r ≠ executing.
Proof.
  intros Hinv Hs. pose proof (jv_state _ Hinv) as J. unfold state_inv in J.
  destruct (jr_state r); try done; destruct J as (E1 & _ & E2 & _);
    destruct Hs as [Hs|Hs]; rewrite ?E1, ?E2 in Hs; by destruct Hs.
Qed.

Lemma record_effect r o r' :
  journal_inv r → recordJournalTerminal r o = Ok r' →
  journal_inv r' ∧ step_effect r false r' ∧ (settled r → r' = r).
Proof.
  intros Hinv Hr. destruct (record_cases _ _ _ Hinv Hr) as (Hinv' & _ & d & _ & Hc).
  split; [done|].
  destruct Hc as [[-> _]|[(-> & Hst & Hl)|(-> & Hst)]]; (split; [done|]); [done| |].
  - intros [[o' Ho]|[o' Ho]]; [|congruence]. pose proof (jv_state _ Hinv) as J.
    unfold state_inv in J. rewrite Hst in J. destruct J as (E & _). congruence.
  - intros Hs. destruct (settled_pending _ Hinv Hs). by destruct Hst.
Qed.

Lemma indeterminate_effect r h r' :
  journal_inv r → markJournalIndeterminate r h = Ok r' →
  journal_inv r' ∧ step_effect r false r' ∧ (settled r → r' = r).
Proof.
  intros Hinv Hr. destruct (indeterminate_inv _ _ _ Hinv Hr) as (Hinv' & -> & Hst).
  split; [done|]. split; [done|]. intros Hs. destruct (settled_pending _ Hinv Hs). by destruct Hst.
Qed.

Lemma journal_step_effect r e r' :
  journal_inv r → journal_step r e r' →
  journal_inv r' ∧ step_effect r e r' ∧ (settled r → r' = r ∧ e = false).
Proof.
  intros Hinv Hst. destruct Hst as [r' Hr|o r' Hr|h r' Hr|b h d Hd|d Hd|p h d Hd].
  - destruct (executing_inv _ _ Hinv Hr) as (Hinv' & Hrec & ->). split; [done|].
    split; [unfold step_effect; cbn; auto|]. intros Hs. by destruct (settled_pending _ Hinv Hs).
  - destruct (record_effect _ _ _ Hinv Hr) as (? & ? & ?). auto.
  - destruct (indeterminate_effect _ _ _ Hinv Hr) as (? & ? & ?). auto.
  - pose proof (redelivery_inv _ _ _ _ Hinv Hd) as Hinv'. split; [done|].
    pose proof (redelivery_cases _ _ _ _ Hinv Hd) as Hc. destruct d; cbn in Hc |- *;
      try (destruct Hc as [-> _]; by split).
    + destruct Hc as (-> & Hm & Hp & Hc). split; [unfold step_effect; cbn; auto 7|].
      intros Hs. destruct (settled_pending _ Hinv Hs). by destruct Hp.
    + destruct Hc as [_ Hm]. destruct (indeterminate_effect _ _ _ Hinv Hm) as (? & ? & ?). auto.
  - pose proof (cancellation_inv _ _ Hinv Hd) as Hinv'. split; [done|].
    pose proof (cancellation_cases _ _ Hinv Hd) as Hc. destruct d; cbn in Hc |- *.
    + destruct Hc as (_ & o & _ & Ho). destruct (record_effect _ _ _ Hinv Ho) as (? & ? & ?). auto.
    + destruct Hc as [-> Hex]. split; [done|]. intros Hs. by destruct (settled_pending _ Hinv Hs).
    + destruct Hc as [-> _]. by split.
  - pose proof (unregister_inv _ _ _ _ Hinv Hd) as Hinv'. split; [done|].
    pose proof (unregister_cases _ _ _ _ Hinv Hd) as Hc. destruct d; cbn in Hc |- *.
    + destruct Hc as [-> _]. by split.
    + destruct Hc as (_ & o & _ & Ho). destruct (record_effect _ _ _ Hinv Ho) as (? & ? & ?). auto.
    + destruct Hc as (_ & _ & Hm). destruct (indeterminate_effect _ _ _ Hinv Hm) as (? & ? & ?). auto.
Qed.

Lemma record_run_inv b n r :
  journal_run b n r →
  journal_inv r ∧ jr_binding r = b ∧ (jr_dispatchMayHaveStarted r = true ↔ (1 <= n)%nat) ∧
  (n <= (if jr_readRecoveryConsumed r then 2 else 1))%nat.
Proof.
  induction 1 as [r Hc|n r e r' _ (Hinv & Hb & Hn & Hmax) Hst].
  - destruct (create_record_inv _ _ Hc) as [Hinv Hb]. split; [done|]. split; [done|].
    unfold createReceivedJournalRecord in Hc. ok_inv Hc. cbn. split; [|lia]. split; [done|lia].
  - destruct (journal_step_effect _ _ _ Hinv Hst) as (Hinv' & [Eb He] & _).
    split; [done|]. split; [congruence|]. destruct e.
    + destruct He as [-> Hor]. split; [split; [lia|done]|].
      destruct Hor as [[Hrec ->]|(_ & Hf & ->)].
      * rewrite (jv_received _ Hinv Hrec) in Hn. destruct (jr_readRecoveryConsumed r); [lia|].
        assert (¬ (1 <= n)%nat) by by rewrite <- Hn. lia.
      * rewrite Hf in Hmax. lia.
    + by destruct He as [-> ->].
Qed.

(** ** The identity of a request *)

(** Absent clearances are no clearances: the only two bindings with one identity. *)
Definition canonical_binding (b : InvocationJournalBinding) : InvocationJournalBinding := {|
  jb_rsid := jb_rsid b; jb_invocationId := jb_invocationId b; jb_method := jb_method b;
  jb_mutating := jb_mutating b; jb_mutationScope := jb_mutationScope b;
  jb_paramsDigest := jb_paramsDigest b; jb_policy := jb_policy b;
  jb_verification := jb_verification b;
  jb_recoveryClearances := Some (nullish (jb_recoveryClearances b) []);
  jb_batchId := jb_batchId b; jb_batchIndex := jb_batchIndex b; jb_batchDigest := jb_batchDigest b |}.

Definition members (v : jsval) : list jsval :=
  match v with VObj _ ms => map snd ms | _ => [] end.

Lemma normalize_obj_sorted ms :
  StronglySorted (λ a b, key_leb a b = true) (map (λ km, (km.1, normalize km.2)) ms) →
  normalize (obj ms) = obj (map (λ km, (km.1, normalize km.2)) ms).
Proof. intros Hs. cbn. by rewrite sort_by_sorted_id. Qed.

Lemma normalizeScope_normal s : normalize (normalizeScope s) = normalizeScope s.
Proof. by destruct s as [[|d]|]. Qed.

Lemma opt_str_normal o : normalize (opt_str o) = opt_str o.
Proof. by destruct o. Qed.

Lemma normalizeClearance_normal c : normalize (normalizeClearance c) = normalizeClearance c.
Proof.
  unfold normalizeClearance. cbn -[normalizeScope opt_str]. rewrite normalizeScope_normal, opt_str_normal. done.
Qed.

Lemma normalizedBinding_normal b : normalize (normalizedBinding b) = normalizedBinding b.
Proof.
  unfold normalizedBinding. cbn -[normalizeScope opt_str normalizeClearance].
  rewrite normalizeScope_normal, !opt_str_normal, map_map.
  rewrite (map_ext _ normalizeClearance) by apply normalizeClearance_normal.
  destruct (jb_verification b) as [v|]; cbn -[normalizeScope opt_str normalizeClearance];
    rewrite ?normalizeScope_normal; by destruct (jb_batchIndex b).
Qed.

#[local] Instance opt_str_inj : Inj (=) (=) opt_str.
Proof. intros [?|] [?|] E; try done. by injection E as ->. Qed.

#[local] Instance normalizeScope_inj : Inj (=) (=) normalizeScope.
Proof.
  intros [[|d]|] [[|d']|] E; try done. apply (f_equal members) in E. cbn in E. by injection E as ->.
Qed.

#[local] Instance basis_text_inj : Inj (=) (=) basis_text.
Proof. by intros [] []. Qed.
#[local] Instance resolution_text_inj : Inj (=) (=) resolution_text.
Proof. by intros [] []. Qed.
#[local] Instance class_text_inj : Inj (=) (=) class_text.
Proof. by intros [] []. Qed.
#[local] Instance policy_decision_text_inj : Inj (=) (=) policy_decision_text.
Proof. by intros [] []. Qed.
#[local] Instance status_text_inj : Inj (=) (=) status_text.
Proof. by intros [] []. Qed.

#[local] Opaque normalizeScope opt_str.

#[local] Instance normalizeClearance_inj : Inj (=) (=) normalizeClearance.
Proof.
  intros [] [] E. unfold normalizeClearance in E. apply (f_equal members) in E. cbn in E. by simplify_eq.
Qed.

#[local] Opaque normalizeClearance.

Definition verification_value (v : option Verification) : jsval :=
  match v with
  | None => VNull
  | Some v => obj [(js "hold_id", VStr (vf_hold_id v));
                   (js "mutation_scope", normalizeScope (Some (vf_mutation_scope v)));
                   (js "purpose", VStr (vf_purpose v))]
  end.

#[local] Instance verification_value_inj : Inj (=) (=) verification_value.
Proof.
  intros [[]|] [[]|] E; try done. apply (f_equal members) in E. cbn in E. by simplify_eq.
Qed.

#[local] Opaque verification_value.

Lemma normalizedBinding_inj b1 b2 :
  normalizedBinding b1 = normalizedBinding b2 ↔ canonical_binding b1 = canonical_binding b2.
Proof.
  split.
  - intros E. apply (f_equal members) in E. unfold normalizedBinding in E. cbn in E.
    injection E as E1 E2 E3 E4 E5 E6 E7 E8 E9 E10 E11 E12 E13 E14.
    change (verification_value (jb_verification b1) = verification_value (jb_verification b2)) in E14.
    unfold canonical_binding. destruct b1 as [??????[]], b2 as [??????[]]; cbn in *.
    simplify_eq. f_equal; [by f_equal|]. by destruct jb_batchIndex0, jb_batchIndex1; simplify_eq.
  - intros E. transitivity (normalizedBinding (canonical_binding b1)); [done|]. by rewrite E.
Qed.

#[local] Transparent normalizeScope opt_str normalizeClearance verification_value.

(** Redelivered requests are told apart exactly by their content. *)
Lemma binding_digest_iff b1 b2 :
  wire_value (normalizedBinding b1) = true → wire_value (normalizedBinding b2) = true →
  collision_free (normalizedBinding b1) (normalizedBinding b2) →
  makeJournalBindingDigest b1 = makeJournalBindingDigest b2 ↔
  canonical_binding b1 = canonical_binding b2.
Proof.
  intros H1 H2 Hcf. rewrite <- normalizedBinding_inj. split.
  - intros E. apply makeJsonDigest_inj in E; [|done..]. by rewrite !normalizedBinding_normal in E.
  - intros E. unfold makeJournalBindingDigest. by rewrite E.
Qed.

(** ** Batches *)

Definition replayed_ok (s : AtomicFalseBatchPlanStep) : Prop :=
  ps_action s = do_replay ∧ ps_status s = Some (step_known completed).
Definition never_started (s : AtomicFalseBatchPlanStep) : Prop :=
  ps_action s = do_not_start ∧ ps_status s = Some step_not_started.

(** The step that stops the plan: [failed] when it is a known failure. *)
Definition decisive (s : AtomicFalseBatchPlanStep) (failed executed : bool) : Prop :=
  match ps_action s with
  | do_replay => ∃ status, ps_status s = Some status ∧ status ≠ step_known completed ∧
                   status ≠ step_not_started ∧ failed = true ∧ executed = false
  | do_return_indeterminate => ps_status s = Some step_indeterminate ∧ failed = true ∧ executed = false
  | do_execute_read => ps_status s = None ∧ failed = false ∧ executed = true
  | do_wait => ps_status s = None ∧ failed = false ∧ executed = false
  | do_not_start => False
  end.

(** Replayed successes, then at most one decisive step, then nothing started. *)
Definition plan_shape (steps : list AtomicFalseBatchPlanStep) (failed : option nat) (executed : bool) : Prop :=
  (Forall replayed_ok steps ∧ failed = None ∧ executed = false) ∨
  ∃ pre s post fails, steps = pre ++ s :: post ∧ Forall replayed_ok pre ∧ Forall never_started post ∧
    decisive s fails executed ∧ failed = (if fails then Some (length pre) else None).

Definition plan_inv (s : PlanState) : Prop :=
  plan_shape (pl_steps s) (pl_failed s) (pl_executed s) ∧
  (pl_stopped s = false → Forall replayed_ok (pl_steps s) ∧ pl_failed s = None ∧ pl_executed s = false) ∧
  (pl_stopped s = true → ¬ Forall replayed_ok (pl_steps s)) ∧
  map ps_index (pl_steps s) = seq 0 (length (pl_steps s)).

Lemma decisive_not_ok s f x : decisive s f x → ¬ replayed_ok s.
Proof. unfold decisive. intros Hd [E1 E2]. rewrite E1 in Hd. destruct Hd as (? & ? & ? & _). congruence. Qed.

Lemma seq_snoc n : seq 0 (S n) = seq 0 n ++ [n].
Proof. by rewrite seq_S. Qed.

Lemma push_index s r r' a st f sp x :
  map ps_index (pl_steps s) = seq 0 (length (pl_steps s)) →
  let s' := push_step s (length (pl_steps s)) r r' a st f sp x in
  map ps_index (pl_steps s') = seq 0 (length (pl_steps s')).
Proof.
  intros E. cbn. rewrite map_app, E, length_app. cbn. by rewrite Nat.add_1_r, seq_snoc.
Qed.

Lemma push_decisive s r r' a st f x :
  plan_inv s → pl_stopped s = false →
  decisive {| ps_index := length (pl_steps s); ps_invocationId := jb_invocationId (jr_binding r);
              ps_action := a; ps_status := st |} f x →
  plan_inv (push_step s (length (pl_steps s)) r r' a st f true x).
Proof.
  intros (_ & Ho & _ & Hix) Hstop Hd. destruct (Ho Hstop) as (Hpre & Hf & Hx).
  split; [|split; [done|split; [|by apply push_index]]]; cbn.
  - right. rewrite Hf, Hx. eexists (pl_steps s), _, [], f. repeat split; try done.
    by destruct x.
  - intros _ [_ Hlast]%Forall_app. inversion_clear Hlast. by eapply decisive_not_ok.
Qed.

Lemma plan_step_inv holds s r s' :
  plan_inv s → plan_step holds s (length (pl_steps s)) r = Ok s' →
  plan_inv s' ∧ length (pl_steps s') = S (length (pl_steps s)).
Proof.
  intros Hinv Hs. unfold plan_step in Hs. destruct (pl_stopped s) eqn:Hstop.
  { injection Hs as <-. destruct Hinv as (Hsh & _ & Hstp & Hix). split; [|cbn; rewrite length_app; cbn; lia].
    split; [|split; [cbn; by rewrite Hstop|split; [|by apply push_index]]]; cbn.
    - destruct Hsh as [[Hall _]|(pre & d & post & f & E & Hpre & Hpost & Hd & Hf)]; [by destruct (Hstp Hstop)|].
      right. rewrite E, <- app_assoc. eexists pre, d, (post ++ _), f. split; [done|]. split; [done|].
      split; [|done]. apply Forall_app. split; [done|]. by constructor.
    - intros _ [Hall _]%Forall_app. by apply Hstp. }
  assert (∀ a st f x r', decisive {| ps_index := length (pl_steps s);
      ps_invocationId := jb_invocationId (jr_binding r); ps_action := a; ps_status := st |} f x →
    plan_inv (push_step s (length (pl_steps s)) r r' a st f true x) ∧
    length (pl_steps (push_step s (length (pl_steps s)) r r' a st f true x)) = S (length (pl_steps s))) as Hpush.
  { intros a st f x r' Hd. split; [by apply push_decisive|]. cbn. rewrite length_app. cbn. lia. }
  destruct (recordTerminalStatus r) as [status|] eqn:Est.
  - injection Hs as <-. destruct (bool_decide (status = step_known completed)) eqn:Ec; cbn [negb].
    + apply bool_decide_eq_true in Ec as ->. split; [|cbn; rewrite length_app; cbn; lia].
      destruct Hinv as (_ & Ho & _ & Hix). destruct (Ho Hstop) as (Hpre & Hf & Hx).
      assert (Forall replayed_ok (pl_steps (push_step s (length (pl_steps s)) r r do_replay
        (Some (step_known completed)) false false false))) as Hall.
      { cbn. apply Forall_app. split; [done|]. by constructor. }
      split; [left; auto|]. split; [auto|]. split; [cbn; by rewrite Hstop|]. by apply push_index.
    + apply bool_decide_eq_false in Ec. apply Hpush. exists status. repeat split; try done.
      unfold recordTerminalStatus in Est. repeat case_match; by simplify_eq.
  - apply bind_ok in Hs as (d & _ & Hs). destruct d; try done; injection Hs as <-; by apply Hpush.
Qed.

Lemma plan_loop_inv holds s rs s' :
  plan_inv s → plan_loop holds s (length (pl_steps s)) rs = Ok s' →
  plan_inv s' ∧ length (pl_steps s') = (length (pl_steps s) + length rs)%nat.
Proof.
  revert s. induction rs as [|r rs IH]; intros s Hinv Hl; cbn in Hl.
  { injection Hl as <-. split; [done|cbn; lia]. }
  apply bind_ok in Hl as (s1 & Hs1 & Hl). destruct (plan_step_inv _ _ _ _ Hinv Hs1) as [Hinv1 Hlen].
  rewrite <- Hlen in Hl. destruct (IH _ Hinv1 Hl) as [? Hlen']. split; [done|cbn; lia].
Qed.

Lemma plan_inv_init :
  plan_inv {| pl_steps := []; pl_failed := None; pl_stopped := false; pl_executed := false; pl_records := [] |}.
Proof. repeat split; try done; by left. Qed.

(** ** The status validator *)

(** Successes, then either nothing or one failure and steps never started. *)
Definition stops_at_first_failure (ss : list BatchStepStatus) (failed : option nat) : Prop :=
  match failed with
  | None => ss = replicate (length ss) (step_known completed)
  | Some k => ∃ s m, ss = replicate k (step_known completed) ++ s :: replicate m step_not_started ∧
                s ≠ step_known completed ∧ s ≠ step_not_started
  end.

Lemma forall_replicate {A} (x : A) xs : (∀ y, y ∈ xs → y = x) → xs = replicate (length xs) x.
Proof.
  induction xs as [|y ys IH]; cbn; intros Hx; [done|].
  rewrite (Hx y), <- IH by set_solver. done.
Qed.

(** The first failure of a list is determined by it. *)
Lemma replicate_split {A} (x : A) (a b : nat) u v us vs :
  replicate a x ++ u :: us = replicate b x ++ v :: vs → u ≠ x → v ≠ x → a = b.
Proof.
  revert b u v us vs. induction a as [|a IH]; intros [|b] u v us vs E Hu Hv; cbn in E; simplify_eq; try done.
  f_equal. by eapply IH.
Qed.

(** Everything before the index found is a completed step. *)
Lemma completed_prefix ss k s :
  ss !! k = Some s →
  (∀ j y, (j < k)%nat → ss !! j = Some y → (y !== step_known completed) = false) →
  ss = replicate k (step_known completed) ++ s :: drop (S k) ss.
Proof.
  intros Hs Hlt. rewrite <- (take_drop_middle ss k s Hs) at 1. f_equal.
  assert (length (take k ss) = k) as Hl by (apply lookup_lt_Some in Hs; rewrite length_take; lia).
  rewrite <- Hl at 2. apply forall_replicate. intros y Hy.
  apply list_elem_of_lookup in Hy as [j Hj]. apply lookup_take_Some in Hj as [Hj Hjk].
  specialize (Hlt j y Hjk Hj). by bsimp.
Qed.

Lemma validate_spec ss failed :
  validateAtomicFalseBatchStatuses ss = Some failed ↔ stops_at_first_failure ss failed.
Proof.
  unfold validateAtomicFalseBatchStatuses.
  destruct (find_index _ ss) as [k|] eqn:Ef.
  - apply find_index_some in Ef as [(s & Hs & Hne) Hlt]. bsimp.
    pose proof (completed_prefix ss k s Hs Hlt) as Hsplit. symmetry in Hsplit.
    assert (failed = Some k ∨ ∀ f, failed = f → ¬ stops_at_first_failure ss f) as Hk.
    { destruct failed as [k'|]; [destruct (decide (k' = k)) as [->|Hkk]; [by left|]|]; right; intros f <-; cbn.
      - intros (s' & m & E & H1 & H2). apply Hkk.
        symmetry. eapply (replicate_split (step_known completed)); [|exact Hne|exact H1]. by rewrite Hsplit, <- E.
      - intros E. rewrite E in Hs. apply lookup_replicate in Hs as [-> _]. done. }
    rewrite Hs. case_bool_decide as Hns.
    { injection Hns as ->. split; [done|]. intros Hsp. destruct Hk as [->|Hk]; [|by destruct (Hk _ eq_refl)].
      destruct Hsp as (s' & m & E & H1 & H2). rewrite <- Hsplit in E.
      apply app_inv_head in E. congruence. }
    destruct (forallb _ (drop (S k) ss)) eqn:Eall.
    + split.
      * intros [= <-]. exists s, (length (drop (S k) ss)). rewrite forallb_true in Eall.
        rewrite <- (forall_replicate step_not_started) by (intros y Hy%Eall; by bsimp).
        repeat split; [by rewrite Hsplit|done|congruence].
      * intros Hsp. destruct Hk as [->|Hk]; [done|by destruct (Hk _ eq_refl)].
    + split; [done|]. intros Hsp. destruct Hk as [->|Hk]; [|by destruct (Hk _ eq_refl)].
      destruct Hsp as (s' & m & E & H1 & H2). rewrite <- Hsplit in E. apply app_inv_head in E.
      injection E as _ E. rewrite E in Eall. apply not_true_iff_false in Eall. destruct Eall.
      apply forallb_true. intros y Hy%elem_of_replicate. destruct Hy as [-> _]. by apply bool_decide_eq_true.
  - rewrite find_index_none in Ef.
    assert (ss = replicate (length ss) (step_known completed)) as E.
    { apply forall_replicate. intros y Hy%Ef. by bsimp. }
    split.
    + by intros [= <-].
    + destruct failed as [k|]; [|done]. intros (s & m & E' & Hne & _).
      assert (s ∈ ss) as Hin by (rewrite E'; set_solver). apply Ef in Hin. by bsimp.
Qed.

Lemma shape_validates steps failed x ss :
  plan_shape steps failed x → map ps_status steps = map Some ss → stops_at_first_failure ss failed.
Proof.
  intros Hsh E.
  assert (∀ pre ss, Forall replayed_ok pre → map ps_status pre = map Some ss →
            ss = replicate (length pre) (step_known completed)) as Hok.
  { intros pre. induction pre as [|s pre IH]; intros [|z zs] Hf Hm; try done.
    inversion_clear Hf as [|?? [_ Hs] Hf']. cbn in Hm. rewrite Hs in Hm. injection Hm as <- Hm.
    cbn. f_equal. by apply IH. }
  assert (∀ post ss, Forall never_started post → map ps_status post = map Some ss →
            ss = replicate (length post) step_not_started) as Hns.
  { intros post. induction post as [|s post IH]; intros [|z zs] Hf Hm; try done.
    inversion_clear Hf as [|?? [_ Hs] Hf']. cbn in Hm. rewrite Hs in Hm. injection Hm as <- Hm.
    cbn. f_equal. by apply IH. }
  destruct Hsh as [(Hall & -> & _)|(pre & s & post & fails & -> & Hpre & Hpost & Hd & ->)].
  - pose proof (Hok _ _ Hall E) as Hss. cbn. rewrite Hss at 1. rewrite Hss. by rewrite length_replicate.
  - rewrite map_app in E. symmetry in E. apply map_eq_app in E as (s1 & s2 & -> & E1 & E2).
    cbn in E2. destruct s2 as [|z s2]; [done|]. injection E2 as Ez E2.
    rewrite (Hok pre s1), (Hns post s2) by done.
    unfold decisive in Hd. destruct (ps_action s); try done.
    + destruct Hd as (st & Hst & Hne1 & Hne2 & -> & _). rewrite Hst in Ez. injection Ez as ->.
      exists st, (length post). done.
    + destruct Hd as (Hst & _). congruence.
    + destruct Hd as (Hst & -> & _). rewrite Hst in Ez. injection Ez as ->.
      exists step_indeterminate, (length post). done.
    + destruct Hd as (Hst & _). congruence.
Qed.

(** Redelivering the very request a record is bound to. *)
Lemma own_redelivery r h :
  journal_inv r → (jb_mutating (jr_binding r) = true → is_Some h) →
  (is_Some (jr_lateTerminalOutcome r) → jb_mutating (jr_binding r) = true) →
  ∃ d, decideJournalRedelivery r (jr_binding r) h = Ok d ∧
       ∀ r' reason, d ≠ redelivery_protocol_fault r' reason.
Proof.
  intros Hinv Hh Hlate. unfold decideJournalRedelivery.
  rewrite (jv_binding _ Hinv), journal_inv_intact, (jv_digest _ Hinv) by done. cbn -[bool_decide].
  rewrite bool_decide_true by done. cbn -[bool_decide].
  pose proof (jv_state _ Hinv) as Hs. unfold state_inv in Hs.
  destruct (jr_terminalOutcome r) as [o|] eqn:Et; [eauto|].
  destruct (jr_lateTerminalOutcome r) as [o|] eqn:El.
  { specialize (Hlate ltac:(eauto)). destruct (jr_state r); try naive_solver.
    destruct Hs as (_ & _ & Hold & _). apply Hold in Hlate as [x ->]. eauto. }
  destruct (jr_state r) eqn:Est;
    [rewrite bool_decide_false by done..|rewrite bool_decide_true by done; eauto];
    [| |by destruct Hs as (? & ? & _)].
  all: destruct (jb_mutating (jr_binding r)) eqn:Em; [|destruct (jr_readRecoveryConsumed r); eauto];
    destruct (Hh eq_refl) as [x ->]; cbn; unfold markJournalIndeterminate; rewrite Est, Em; cbn; eauto.
Qed.

Lemma plan_step_records holds s i r s' :
  plan_step holds s i r = Ok s' →
  ∃ r', pl_records s' = pl_records s ++ [r'] ∧
    (r' = r ∨ ∃ d, decideJournalRedelivery r (jr_binding r) (holds !! jb_invocationId (jr_binding r)) = Ok d ∧
                   r' = decision_record d).
Proof.
  unfold plan_step. intros Hs. destruct (pl_stopped s); [injection Hs as <-; eauto|].
  destruct (recordTerminalStatus r); [injection Hs as <-; eauto|].
  apply bind_ok in Hs as (d & Hd & Hs).
  destruct d; try done; injection Hs as <-; cbn; eauto 6.
Qed.

Lemma plan_loop_records holds s i rs s' :
  plan_loop holds s i rs = Ok s' →
  ∃ rs', pl_records s' = pl_records s ++ rs' ∧
    Forall2 (λ r r', r' = r ∨ ∃ d, decideJournalRedelivery r (jr_binding r)
      (holds !! jb_invocationId (jr_binding r)) = Ok d ∧ r' = decision_record d) rs rs'.
Proof.
  revert s i. induction rs as [|r rs IH]; intros s i Hl; cbn in Hl.
  { injection Hl as <-. exists []. by rewrite app_nil_r. }
  apply bind_ok in Hl as (s1 & Hs1 & Hl). apply plan_step_records in Hs1 as (r' & E & Hr).
  destruct (IH _ _ Hl) as (rs' & E' & Hrs). exists (r' :: rs'). rewrite E', E, <- app_assoc. split; [done|].
  by constructor.
Qed.

Lemma plan_loop_total holds s i rs :
  Forall (λ r, journal_inv r ∧
    (jb_mutating (jr_binding r) = true → is_Some (holds !! jb_invocationId (jr_binding r)))) rs →
  ∃ s', plan_loop holds s i rs = Ok s'.
Proof.
  intros Hall. revert s i. induction Hall as [|r rs [Hinv Hh] _ IH]; intros s i; cbn; [eauto|].
  assert (∃ s1, plan_step holds s i r = Ok s1) as [s1 ->]; [|apply IH].
  unfold plan_step. destruct (pl_stopped s); [eauto|].
  destruct (recordTerminalStatus r) eqn:Ets; [eauto|]. unfold recordTerminalStatus in Ets.
  destruct (jr_terminalOutcome r) eqn:Et; [done|]. destruct (jr_lateTerminalOutcome r) eqn:El; [done|].
  destruct (own_redelivery r _ Hinv Hh) as (d & Hd & Hnf); [rewrite El; by intros []|].
  rewrite Hd. pose proof (redelivery_cases _ _ _ _ Hinv Hd) as Hc.
  destruct d; cbn; eauto; [by destruct (Hnf record reason)| |]; naive_solver.
Qed.

(** ** Atomic batches *)

Definition atomic_record (d : AtomicBatchRedeliveryDecision) : AtomicBatchJournalRecord :=
  match d with
  | atomic_replay_terminal r | execute_atomic r | atomic_return_indeterminate r | atomic_protocol_fault r => r
  end.

Definition is_execution (d : AtomicBatchRedeliveryDecision) : bool :=
  match d with execute_atomic _ => true | _ => false end.

(** A sequence of redeliveries and what was decided each time. *)
Inductive atomic_run : AtomicBatchJournalRecord → list AtomicBatchRedeliveryDecision → Prop :=
| atomic_nil r : atomic_run r []
| atomic_cons r incoming d ds :
    decideAtomicBatchRedelivery r incoming = Ok d → atomic_run (atomic_record d) ds →
    atomic_run r (d :: ds).

Lemma atomic_cases r incoming d :
  decideAtomicBatchRedelivery r incoming = Ok d →
  if is_execution d
  then abr_dispatchMayHaveStarted r = false ∧ abr_dispatchMayHaveStarted (atomic_record d) = true
  else abr_dispatchMayHaveStarted (atomic_record d) = abr_dispatchMayHaveStarted r.
Proof.
  unfold decideAtomicBatchRedelivery. intros Hd. apply bind_ok in Hd as (? & _ & Hd).
  apply bind_ok in Hd as (? & _ & Hd). destruct (negb _) in Hd; [by injection Hd as <-|].
  destruct (bool_decide (abr_state r = ab_terminal)).
  { apply bind_ok in Hd as (? & _ & [= <-]). done. }
  destruct (_ && _) eqn:E in Hd; injection Hd as <-; [|done]. bsimp. done.
Qed.

Lemma atomic_started r ds :
  atomic_run r ds → abr_dispatchMayHaveStarted r = true → List.filter is_execution ds = [].
Proof.
  induction 1 as [|r inc d ds Hd _ IH]; intros Hst; [done|]. apply atomic_cases in Hd. cbn.
  destruct (is_execution d); [destruct Hd; congruence|]. apply IH. congruence.
Qed.

Definition atomic_material (b : AtomicBatchBinding) : jsval :=
  obj [(js "batch_digest", VStr (ab_batchDigest b));
       (js "batch_id", VStr (ab_batchId b));
       (js "ordered_step_binding_digests", VArr (map VStr (ab_orderedStepBindingDigests b)))].

Lemma atomic_material_normal b : normalize (atomic_material b) = atomic_material b.
Proof. unfold atomic_material. cbn. by rewrite map_map. Qed.

Lemma atomic_identity_iff b1 b2 :
  wire_value (atomic_material b1) = true → wire_value (atomic_material b2) = true →
  atomic_identity b1 = atomic_identity b2 ↔ b1 = b2.
Proof.
  intros H1 H2. split; [|by intros ->]. intros E.
  apply (canonicalizeJson_inj (atomic_material b1) (atomic_material b2)) in E; [|done..].
  rewrite !atomic_material_normal in E. apply (f_equal members) in E. cbn in E.
  injection E as E1 E2 E3. apply map_VStr_inj in E3. by destruct b1, b2; cbn in *; subst.
Qed.

(** ** What the journal promises *)

(** Every record a history of journal operations can produce satisfies the
    journal invariant (the fields fit the state, outcomes carry their digests, an
    indeterminate row has a hold id exactly when it mutates), the integrity check
    accepts it, and it stays bound to the request it was created for. *)
Theorem journal_invariant b n r :
  journal_run b n r → journal_inv r ∧ journalRecordIsIntact r = true ∧ jr_binding r = b.
Proof.
  intros (Hinv & Hb & _)%record_run_inv. split; [done|]. split; [by apply journal_inv_intact|done].
Qed.

(** C2: at most once. In every history of one request, with redeliveries,
    cancellations, late results and unregistrations in any order, a mutation is
    dispatched to the add-in at most once and a read at most twice, the second
    time only by the one recovery the journal grants. *)
Theorem dispatched_at_most_once b n r :
  journal_run b n r →
  (n <= if jb_mutating b then 1 else 2)%nat ∧
  (jr_readRecoveryConsumed r = false → (n <= 1)%nat) ∧
  (jr_dispatchMayHaveStarted r = true ↔ (1 <= n)%nat).
Proof.
  intros (Hinv & <- & Hn & Hmax)%record_run_inv. pose proof (jv_consumed _ Hinv) as Hc.
  destruct (jr_readRecoveryConsumed r).
  - destruct (Hc eq_refl) as [-> _]. by repeat split; try apply Hn.
  - repeat split; try apply Hn; [|done]. destruct (jb_mutating _); lia.
Qed.

(** A recorded outcome is final. Once a terminal outcome, or a late one after
    the invocation became indeterminate, is in the journal, no operation changes
    the record in any way or dispatches the request again. *)
Theorem outcome_is_final b n r e r' :
  journal_run b n r → is_Some (jr_terminalOutcome r) ∨ is_Some (jr_lateTerminalOutcome r) →
  journal_step r e r' → r' = r ∧ e = false.
Proof. intros (Hinv & _)%record_run_inv Hs Hst. by apply (journal_step_effect _ _ _ Hinv Hst). Qed.

(** Redelivering a mutating request never runs it: the journal replays the
    recorded (or late) outcome, reports the indeterminate row with its hold, or
    promotes the row to indeterminate under the hold id supplied. *)
Theorem redelivered_mutation_never_runs b n r h :
  journal_run b n r → jb_mutating b = true →
  ∃ d, decideJournalRedelivery r b (Some h) = Ok d ∧
    match d with
    | replay_terminal r' o => r' = r ∧ jr_terminalOutcome r = Some o
    | replay_late_terminal r' o hold =>
        r' = r ∧ jr_lateTerminalOutcome r = Some o ∧ jr_verificationHoldId r = Some hold
    | return_indeterminate r' hold => r' = r ∧ jr_state r = indeterminate ∧ is_Some hold
    | promote_mutation_indeterminate r' => r' = with_indeterminate r (Some h)
    | _ => False
    end.
Proof.
  intros (Hinv & <- & _)%record_run_inv Hm. destruct (own_redelivery r (Some h) Hinv) as (d & Hd & Hnf); [eauto..|].
  exists d. split; [done|]. pose proof (redelivery_cases _ _ _ _ Hinv Hd) as Hc.
  destruct d; try done; try (destruct_and? Hc; congruence).
  - destruct Hc as (-> & Hst & _ & ->). repeat split; [done|]. pose proof (jv_state _ Hinv) as J.
    unfold state_inv in J. rewrite Hst in J. by apply J.
  - destruct Hc as [_ Hc]. by apply indeterminate_inv in Hc as (_ & -> & _).
Qed.

(** A request that reuses an invocation for something else is refused.
    Redelivery is answered with a [binding_mismatch] fault, and the record left
    alone, exactly when the incoming request differs in any field from the one
    the record is bound to. *)
Theorem foreign_request_refused b n r b' h d :
  journal_run b n r → decideJournalRedelivery r b' h = Ok d →
  wire_value (normalizedBinding b) = true → wire_value (normalizedBinding b') = true →
  collision_free (normalizedBinding b) (normalizedBinding b') →
  d = redelivery_protocol_fault r binding_mismatch ↔ canonical_binding b ≠ canonical_binding b'.
Proof.
  intros (Hinv & <- & _)%record_run_inv Hd H1 H2 Hcf. rewrite <- binding_digest_iff, (jv_digest _ Hinv) by done.
  pose proof (redelivery_cases _ _ _ _ Hinv Hd) as Hc. split.
  - intros ->. by destruct Hc as (_ & _ & Hne).
  - intros Hne. unfold decideJournalRedelivery in Hd. apply bind_ok in Hd as ([] & _ & Hd).
    rewrite journal_inv_intact in Hd by done. cbn [negb] in Hd. apply bind_ok in Hd as (bd & Hbd & Hd).
    rewrite bool_decide_false in Hd by congruence. by injection Hd as <-.
Qed.

(** A read that became indeterminate and then received its late result can
    not be redelivered: the record has no hold id (none is allowed for a read),
    and [decideJournalRedelivery] throws instead of replaying the result. *)
Theorem late_read_redelivery_throws b n r o h :
  journal_run b n r → jb_mutating b = false → jr_lateTerminalOutcome r = Some o →
  decideJournalRedelivery r b h = throw PlainError "late terminal evidence is missing its verification hold id".
Proof.
  intros (Hinv & <- & _)%record_run_inv Hm Hl. unfold decideJournalRedelivery.
  rewrite (jv_binding _ Hinv), journal_inv_intact, (jv_digest _ Hinv) by done. cbn -[bool_decide].
  rewrite bool_decide_true by done. cbn -[bool_decide]. rewrite Hl.
  pose proof (jv_state _ Hinv) as J. unfold state_inv in J.
  destruct (jr_state r); try (destruct_and? J; congruence); [destruct J as (? & _ & _ & _ & ? & _); congruence|].
  destruct J as (-> & _ & Hh & _). rewrite Hm in Hh.
  destruct (jr_verificationHoldId r) as [x|]; [|done]. discriminate (proj1 Hh (mk_is_Some _ x eq_refl)).
Qed.

(** A redelivery plan of a non-atomic batch replays the completed steps in
    order up to the first other step, does the one safe thing there (replay the
    failure, report indeterminate, run or await the read) and starts nothing
    after it; the records it returns are those the redelivery decisions give, and
    a plan without a pending step passes the status validator with the same
    failed step. *)
Theorem batch_plan_stops records incoming holds steps failed replayed records' :
  planAtomicFalseBatchRedelivery records incoming holds = Ok (batch_planned steps failed replayed records') →
  plan_shape steps failed (negb replayed) ∧
  map ps_index steps = seq 0 (length records) ∧
  Forall2 (λ r r', r' = r ∨ ∃ d, decideJournalRedelivery r (jr_binding r)
    (holds !! jb_invocationId (jr_binding r)) = Ok d ∧ r' = decision_record d) records records' ∧
  (∀ ss, map ps_status steps = map Some ss → validateAtomicFalseBatchStatuses ss = Some failed).
Proof.
  unfold planAtomicFalseBatchRedelivery. intros Hp. apply bind_ok in Hp as ([] & _ & Hp); [|done].
  cbn [negb] in Hp. apply bind_ok in Hp as (s & Hs & [= <- <- <- <-]).
  pose proof (plan_loop_records _ _ _ _ _ Hs) as (rs & -> & Hrs).
  apply (plan_loop_inv _ _ _ _ plan_inv_init) in Hs as [(Hsh & _ & _ & Hix) Hlen].
  rewrite negb_involutive. cbn in Hlen. rewrite Hlen in Hix.
  repeat split; try done. intros ss Hss. apply validate_spec. by eapply shape_validates.
Qed.

(** Planning never fails on real journal rows: when the rows match the batch
    and a hold id is supplied for every mutating step, a plan is returned. *)
Theorem batch_plan_total records incoming holds :
  Forall (λ r, (∃ b n, journal_run b n r) ∧
    (jb_mutating (jr_binding r) = true → is_Some (holds !! jb_invocationId (jr_binding r)))) records →
  validBatchRecordOrder records incoming = Ok true →
  ∃ steps failed replayed records',
    planAtomicFalseBatchRedelivery records incoming holds = Ok (batch_planned steps failed replayed records').
Proof.
  intros Hall Hv. unfold planAtomicFalseBatchRedelivery. rewrite Hv. cbn -[plan_loop].
  set (s0 := {| pl_steps := _ |}).
  destruct (plan_loop_total holds s0 0 records) as [s ->].
  - eapply Forall_impl; [exact Hall|]. cbn. intros r [(b & n & Hr) Hh]. split; [by eapply record_run_inv|done].
  - by eexists _, _, _, _.
Qed.

(** The status validator accepts exactly the lists of completed steps
    followed by nothing, or by one step that ended otherwise (and did start) and
    steps never started, and reports that step. *)
Theorem batch_statuses_validated ss failed :
  validateAtomicFalseBatchStatuses ss = Some failed ↔ stops_at_first_failure ss failed.
Proof. apply validate_spec. Qed.

(** However often an atomic batch is redelivered, it is executed at most
    once, and never when a dispatch may already have started; a redelivery whose
    identity differs is a fault exactly when the batch binding differs. *)
Theorem atomic_batch_runs_once r ds :
  atomic_run r ds →
  (length (List.filter is_execution ds) <= (if abr_dispatchMayHaveStarted r then 0 else 1))%nat ∧
  ∀ incoming d, wire_value (atomic_material (abr_binding r)) = true →
    wire_value (atomic_material incoming) = true → decideAtomicBatchRedelivery r incoming = Ok d →
    d = atomic_protocol_fault r ↔ abr_binding r ≠ incoming.
Proof.
  intros Hr. split.
  - destruct (abr_dispatchMayHaveStarted r) eqn:E; [by rewrite (atomic_started r) by done|].
    induction Hr as [|r inc d ds Hd Hr IH]; [cbn; lia|]. apply atomic_cases in Hd. cbn.
    destruct (is_execution d); cbn; [rewrite (atomic_started _ ds Hr) by apply Hd; cbn; lia|].
    apply IH. congruence.
  - intros incoming d H1 H2 Hd. unfold decideAtomicBatchRedelivery in Hd.
    apply bind_ok in Hd as (i1 & E1 & Hd). apply bind_ok in Hd as (i2 & E2 & Hd).
    rewrite <- atomic_identity_iff, E1, E2 by done.
    destruct (bool_decide (i1 = i2)) eqn:E; bsimp.
    + subst i2. split; [|done]. intros ->. cbn [negb] in Hd.
      destruct (bool_decide (abr_state r = ab_terminal)); [by apply bind_ok in Hd as (? & _ & Hd)|].
      by destruct (_ && _) in Hd.
    + cbn in Hd. injection Hd as <-. split; [|done]. intros _ [=]. done.
Qed.

End facts.

(** ** Witnesses *)

Section witnesses.
Import Sha256.

Definition demo_binding (mutating : bool) : InvocationJournalBinding := {|
  jb_rsid := js "rs-a"; jb_invocationId := js "inv-1"; jb_method := js "create_wall";
  jb_mutating := mutating;
  jb_mutationScope := if mutating then Some (scope_document (js "doc-1")) else None;
  jb_paramsDigest := js "sha256:00";
  jb_policy := {| pb_class := class_auto; pb_decision := decision_auto; pb_confirmation_id := None |};
  jb_verification := None; jb_recoveryClearances := None;
  jb_batchId := Some (js "b-1"); jb_batchIndex := Some (JInt 0); jb_batchDigest := Some (js "sha256:01") |}.

Definition demo_outcome : TerminalJournalOutcome := {|
  to_status := completed;
  to_resultDigest := Some (js "sha256:0000000000000000000000000000000000000000000000000000000000000000");
  to_guardedReason := None; to_payloadRetained := false; to_payload := None |}.

Definition get {A} (d : A) (m : result js_error A) : A := try_catch m d.

Definition blank (b : InvocationJournalBinding) : InvocationJournalRecord := {|
  jr_binding := b; jr_bindingDigest := []; jr_state := received;
  jr_dispatchMayHaveStarted := false; jr_readRecoveryConsumed := false; jr_abandoned := false;
  jr_terminalOutcome := None; jr_terminalOutcomeDigest := None;
  jr_lateTerminalOutcome := None; jr_lateTerminalOutcomeDigest := None;
  jr_verificationHoldId := None |}.

(** Received; dispatched; completed; and, for a read, given up and answered late. *)
Definition demo_received (m : bool) := get (blank (demo_binding m)) (createReceivedJournalRecord (demo_binding m)).
Definition demo_executing (m : bool) := get (demo_received m) (markJournalExecuting (demo_received m)).
Definition demo_completed := get (demo_executing true) (recordJournalTerminal (demo_executing true) demo_outcome).
Definition demo_given_up := get (demo_executing false) (markJournalIndeterminate (demo_executing false) None).
Definition demo_late := get demo_given_up (recordJournalTerminal demo_given_up demo_outcome).

Lemma demo_run_received m : journal_run (demo_binding m) 0 (demo_received m).
Proof. apply run_create. by destruct m; vm_compute. Qed.

Lemma demo_run_executing m : journal_run (demo_binding m) 1 (demo_executing m).
Proof.
  eapply (run_step _ 0 _ true); [apply (demo_run_received m)|]. apply js_start. by destruct m; vm_compute.
Qed.

Lemma demo_run_completed : journal_run (demo_binding true) 1 demo_completed.
Proof.
  eapply (run_step _ 1 _ false); [apply (demo_run_executing true)|].
  apply (js_terminal _ demo_outcome). by vm_compute.
Qed.

Lemma demo_run_late : journal_run (demo_binding false) 1 demo_late.
Proof.
  eapply (run_step _ 1 _ false); [eapply (run_step _ 1 _ false)|].
  - apply (demo_run_executing false).
  - apply (js_indeterminate _ None). by vm_compute.
  - apply (js_terminal _ demo_outcome). by vm_compute.
Qed.

Lemma journal_invariant_witness : journalRecordIsIntact demo_completed = true.
Proof. apply (journal_invariant _ _ _ demo_run_completed). Defined.

Lemma dispatched_at_most_once_witness :
  jr_dispatchMayHaveStarted (demo_executing true) = true ∧
  ∀ r', journal_step (demo_executing true) true r' → False.
Proof.
  split; [vm_compute; reflexivity|].
  intros r' Hst. pose proof (run_step _ _ _ _ _ (demo_run_executing true) Hst) as Hr.
  destruct (dispatched_at_most_once _ _ _ Hr) as [Hn _]. cbn in Hn. lia.
Defined.

Lemma outcome_is_final_witness :
  recordJournalTerminal demo_completed demo_outcome = Ok demo_completed ∧
  ∀ e r', journal_step demo_completed e r' → r' = demo_completed ∧ e = false.
Proof.
  split; [by vm_compute|]. intros e r' Hst.
  apply (outcome_is_final _ _ _ _ _ demo_run_completed); [left; vm_compute; eauto|exact Hst].
Defined.

Lemma redelivered_mutation_never_runs_witness :
  ∃ d, decideJournalRedelivery (demo_executing true) (demo_binding true) (Some (js "vh:1")) = Ok d ∧
       is_reexecution d = false.
Proof.
  destruct (redelivered_mutation_never_runs _ _ _ (js "vh:1") (demo_run_executing true) eq_refl)
    as (d & Hd & Hc).
  exists d. split; [exact Hd|]. clear Hd. destruct d; first [reflexivity | destruct Hc].
Defined.

Lemma foreign_request_refused_witness :
  decideJournalRedelivery (demo_executing true) (demo_binding false) None =
  Ok (redelivery_protocol_fault (demo_executing true) binding_mismatch).
Proof.
  destruct (decideJournalRedelivery (demo_executing true) (demo_binding false) None) as [d|] eqn:E.
  2: { exfalso. by vm_compute in E. }
  f_equal. apply (foreign_request_refused _ _ _ _ _ _ (demo_run_executing true) E); by vm_compute.
Defined.

Lemma late_read_redelivery_throws_witness :
  decideJournalRedelivery demo_late (demo_binding false) None =
  throw PlainError "late terminal evidence is missing its verification hold id".
Proof.
  apply (late_read_redelivery_throws _ _ _ demo_outcome _ demo_run_late); by vm_compute.
Defined.

Definition plan_summary (m : result js_error AtomicFalseBatchPlanResult) : option (option nat * bool) :=
  match m with Ok (batch_planned _ f r _) => Some (f, r) | _ => None end.

Lemma demo_plan_summary :
  plan_summary (planAtomicFalseBatchRedelivery [demo_executing false] [demo_binding false] ∅) =
  Some (None, false).
Proof. vm_compute. reflexivity. Qed.

Lemma batch_plan_stops_witness :
  ∃ steps records',
    planAtomicFalseBatchRedelivery [demo_executing false] [demo_binding false] ∅ =
      Ok (batch_planned steps None false records') ∧ plan_shape steps None true.
Proof.
  pose proof demo_plan_summary as Hs.
  destruct (planAtomicFalseBatchRedelivery [demo_executing false] [demo_binding false] ∅)
    as [[steps failed replayed records'|]|] eqn:E; try discriminate Hs. injection Hs as -> ->.
  exists steps, records'. split; [reflexivity|]. exact (proj1 (batch_plan_stops _ _ _ _ _ _ _ E)).
Defined.

Lemma batch_plan_total_witness :
  ∃ steps failed replayed records',
    planAtomicFalseBatchRedelivery [demo_executing false] [demo_binding false] ∅ =
      Ok (batch_planned steps failed replayed records').
Proof.
  apply batch_plan_total; [|by vm_compute]. constructor; [|constructor].
  split; [eexists _, _; apply (demo_run_executing false)|]. intros Hx. by vm_compute in Hx.
Defined.

Lemma atomic_batch_runs_once_witness :
  let b := {| ab_batchId := js "b"; ab_batchDigest := js "d"; ab_orderedStepBindingDigests := [js "s"] |} in
  let r := {| abr_binding := b; abr_state := ab_received; abr_dispatchMayHaveStarted := false;
              abr_terminalDigest := None |} in
  ∃ d1 d2, decideAtomicBatchRedelivery r b = Ok d1 ∧
    decideAtomicBatchRedelivery (atomic_record d1) b = Ok d2 ∧
    is_execution d1 = true ∧ is_execution d2 = false.
Proof.
  intros b r.
  destruct (decideAtomicBatchRedelivery r b) as [d1|] eqn:E1; [|by vm_compute in E1].
  assert (is_execution d1 = true) as X1 by (vm_compute in E1; by injection E1 as <-).
  destruct (decideAtomicBatchRedelivery (atomic_record d1) b) as [d2|] eqn:E2.
  2: { exfalso. vm_compute in E1. injection E1 as <-. by vm_compute in E2. }
  exists d1, d2. repeat split; try done.
  destruct (atomic_batch_runs_once r [d1; d2]) as [Hn _].
  { eapply atomic_cons; [exact E1|]. eapply atomic_cons; [exact E2|]. constructor. }
  cbn in Hn. rewrite X1 in Hn. destruct (is_execution d2); [cbn in Hn; lia|done].
Defined.

End witnesses.
End JournalFacts.
