(* ===== verification/MutationHold.v ===== *)
(** Mutation holds: packages/protocol/src/mutationHold.ts.

    When the outcome of a mutation is unknown, a hold blocks further mutations of
    the scope it may have touched.  A hold goes away only through evidence that
    an intact journal record attests, a resolution of that evidence, and the one
    dispatch the resolution authorises, which presents a matching clearance. *)

From S2P Require Import Prelude JsString JsValue Canonical Sha256 Journal.

Module MutationHold.
Import Canonical Journal.

(** ** Data *)

Inductive MutationHoldState := hold_active | hold_evidence_recorded | hold_resolved_pending_bridge | hold_cleared.

#[export] Instance MutationHoldState_eq_dec : EqDecision MutationHoldState.
Proof. solve_decision. Defined.

(** [HoldEvidenceConclusion] extends [HoldResolutionDecision]. *)
Inductive HoldEvidenceConclusion :=
| conclusive_evidence (decision : HoldResolutionDecision)
| inconclusive_evidence_of
| failed_evidence
| omitted_evidence
| ambiguous_evidence.

#[export] Instance HoldEvidenceConclusion_eq_dec : EqDecision HoldEvidenceConclusion.
Proof. solve_decision. Defined.

Inductive TerminalKind := kind_terminal | kind_late_terminal.

#[export] Instance TerminalKind_eq_dec : EqDecision TerminalKind.
Proof. solve_decision. Defined.

Record HoldEvidenceAttempt := {
  ea_basis : EvidenceBasis;
  ea_verificationInvocationId : option jstr;
  ea_originIdempotencyKey : option jstr;
  ea_evidenceDigest : jstr;
  ea_conclusion : HoldEvidenceConclusion;
  ea_journalBindingDigest : jstr;
  ea_journalOutcomeDigest : jstr;
  ea_terminalKind : TerminalKind;
  ea_terminalStatus : KnownTerminalJournalState }.

Record HoldResolution := {
  hr_resolutionId : jstr;
  hr_basis : EvidenceBasis;
  hr_verificationInvocationId : option jstr;
  hr_evidenceDigest : jstr;
  hr_decision : HoldResolutionDecision;
  hr_auditId : jstr;
  hr_authorizedDispatchIdentity : jstr;
  hr_journalBindingDigest : jstr;
  hr_journalOutcomeDigest : jstr;
  hr_terminalKind : TerminalKind;
  hr_terminalStatus : KnownTerminalJournalState }.

Record MutationHold := {
  mh_rsid : jstr;
  mh_mutationScope : MutationScope;
  mh_scopeKey : jstr;
  mh_holdId : jstr;
  mh_originIdempotencyKeys : list jstr;
  mh_state : MutationHoldState;
  mh_evidenceAttempts : list HoldEvidenceAttempt;
  mh_selectedEvidence : option HoldEvidenceAttempt;
  mh_resolution : option HoldResolution;
  mh_clearedBy : option jstr }.

(** A [MutationHoldLedger] is its list of holds. *)
Abbreviation MutationHoldLedger := (list MutationHold).

Record UncertainMutation := {
  um_originIdempotencyKey : jstr;
  um_mutationScope : MutationScope }.

Inductive InstallMutationHoldsResult :=
| holds_installed (ledger : MutationHoldLedger) (holds : list MutationHold)
| holds_already_present (ledger : MutationHoldLedger) (holds : list MutationHold)
| install_blocked (ledger : MutationHoldLedger) (conflictingHolds : list MutationHold).

Inductive EvidenceRejection :=
| foreign_hold | scope_mismatch | origin_mismatch | evidence_invalid_state
| journal_binding_mismatch | evidence_journal_integrity | journal_state_mismatch
| evidence_digest_mismatch.

Inductive RecordHoldEvidenceResult :=
| evidence_recorded (ledger : MutationHoldLedger) (hold : MutationHold)
| inconclusive_recorded (ledger : MutationHoldLedger) (hold : MutationHold)
| evidence_rejected (ledger : MutationHoldLedger) (reason : EvidenceRejection).

Inductive ResolveRejection := resolve_foreign_hold | resolve_invalid_state | evidence_mismatch | inconclusive_evidence.

Inductive ResolveMutationHoldResult :=
| hold_resolved (ledger : MutationHoldLedger) (hold : MutationHold)
| resolve_rejected (ledger : MutationHoldLedger) (reason : ResolveRejection).

Inductive AuthorizeFault :=
| foreign_clearance | missing_clearance | unsorted_clearances | clearance_mismatch | clearance_not_ready.

Inductive AuthorizeMutationResult :=
| mutation_allowed (ledger : MutationHoldLedger) (clearedHoldIds : list jstr)
| mutation_blocked (ledger : MutationHoldLedger) (conflictingHolds : list MutationHold)
| authorize_fault (ledger : MutationHoldLedger) (reason : AuthorizeFault).

(** ** Scopes and identifiers *)

Definition normalizedScope (scope : MutationScope) : jsval := normalizeScope (Some scope).

Definition mutationScopeKey (scope : MutationScope) : result js_error jstr :=
  reject_if (match scope with scope_document d => d === [] | scope_session => false end) TypeError
    "document mutation scope requires document_id" ;;
  canonicalizeJson (normalizedScope scope).

Definition mutationScopesConflict (left right : MutationScope) : bool :=
  match left, right with
  | scope_session, _ | _, scope_session => true
  | scope_document l, scope_document r => l === r
  end.

Definition holdId_leb (l r : MutationHold) : bool := str_leb (mh_holdId l) (mh_holdId r).

Definition isUncleared (hold : MutationHold) : bool := mh_state hold !== hold_cleared.

Definition createMutationHoldLedger : MutationHoldLedger := [].

Definition conflictingMutationHolds (ledger : MutationHoldLedger) (rsid : jstr)
  (mutationScopes : list MutationScope) : list MutationHold :=
  sort_by holdId_leb (List.filter (λ hold,
    isUncleared hold && (mh_rsid hold === rsid) &&
    existsb (λ scope, mutationScopesConflict (mh_mutationScope hold) scope) mutationScopes) ledger).

(** [new Map(entries)]: the last value wins, at the place of the first. *)
Fixpoint map_set (m : list (jstr * MutationHold)) (k : jstr) (v : MutationHold) : list (jstr * MutationHold) :=
  match m with
  | [] => [(k, v)]
  | (k', v') :: m => if k' === k then (k', v) :: m else (k', v') :: map_set m k v
  end.

Definition unique_by_hold_id (holds : list MutationHold) : list MutationHold :=
  map snd (foldl (λ m h, map_set m (mh_holdId h) h) [] holds).

Section operations.
Context `{Hasher}.

Definition hold_id_material (rsid : jstr) (scope : MutationScope) (origins : list jstr) : jsval :=
  obj [(js "mutation_scope", normalizedScope scope);
       (js "origin_idempotency_keys", VArr (map VStr origins));
       (js "rsid", VStr rsid)].

Definition makeMutationHoldId (rsid : jstr) (mutationScope : MutationScope)
  (originIdempotencyKeys : list jstr) : result js_error jstr :=
  reject_if ((rsid === []) || (originIdempotencyKeys === [])) TypeError
    "rsid and at least one origin idempotency key are required" ;;
  reject_if (negb (all_distinct originIdempotencyKeys)) TypeError
    "origin idempotency keys must be unique and ordered" ;;
  reject_if (existsb (λ key, negb (starts_with (rsid ++ js "/") key) ||
                             (length key =? length rsid + 1)%nat) originIdempotencyKeys) TypeError
    "origin idempotency key must use the exact rsid/invocation_id form" ;;
  material ← canonicalizeJson (hold_id_material rsid mutationScope originIdempotencyKeys);
  Ok (js "vh:" ++ sha256_hex (utf8_encode material)).

(** ** Installation *)

Fixpoint add_to_groups (key : jstr) (entry : UncertainMutation)
  (groups : list (MutationScope * list jstr)) : result js_error (list (MutationScope * list jstr)) :=
  match groups with
  | [] => Ok [(um_mutationScope entry, [um_originIdempotencyKey entry])]
  | (scope, origins) :: groups =>
      k ← mutationScopeKey scope;
      if k === key then Ok ((scope, origins ++ [um_originIdempotencyKey entry]) :: groups)
      else groups' ← add_to_groups key entry groups; Ok ((scope, origins) :: groups')
  end.

Fixpoint group_by_scope (groups : list (MutationScope * list jstr)) (uncertain : list UncertainMutation)
  : result js_error (list (MutationScope * list jstr)) :=
  match uncertain with
  | [] => Ok groups
  | entry :: uncertain =>
      key ← mutationScopeKey (um_mutationScope entry);
      groups' ← add_to_groups key entry groups;
      group_by_scope groups' uncertain
  end.

Definition new_hold (rsid : jstr) (group : MutationScope * list jstr) : result js_error MutationHold :=
  scopeKey ← mutationScopeKey group.1;
  holdId ← makeMutationHoldId rsid group.1 group.2;
  Ok {| mh_rsid := rsid; mh_mutationScope := group.1; mh_scopeKey := scopeKey; mh_holdId := holdId;
        mh_originIdempotencyKeys := group.2; mh_state := hold_active; mh_evidenceAttempts := [];
        mh_selectedEvidence := None; mh_resolution := None; mh_clearedBy := None |}.

Definition candidateHolds (rsid : jstr) (uncertain : list UncertainMutation)
  : result js_error (list MutationHold) :=
  reject_if (length uncertain =? 0)%nat TypeError "at least one uncertain mutation is required" ;;
  let origins := map um_originIdempotencyKey uncertain in
  reject_if (negb (all_distinct origins)) TypeError "uncertain mutation origin keys must be unique" ;;
  scopesWithOrigins ←
    (if existsb (λ entry, um_mutationScope entry === scope_session) uncertain
     then Ok [(scope_session, origins)]
     else group_by_scope [] uncertain);
  map_result (new_hold rsid) scopesWithOrigins.

Definition installMutationHolds (ledger : MutationHoldLedger) (rsid : jstr)
  (uncertain : list UncertainMutation) : result js_error InstallMutationHoldsResult :=
  candidates ← candidateHolds rsid uncertain;
  let exactExisting := map (λ candidate,
    find_first (λ hold, isUncleared hold && (mh_holdId hold === mh_holdId candidate) &&
                        (mh_scopeKey hold === mh_scopeKey candidate)) ledger) candidates in
  if forallb (λ found, negb (is_null found)) exactExisting
  then Ok (holds_already_present ledger (omap id exactExisting)) else
  let conflicts := flat_map (λ candidate,
    conflictingMutationHolds ledger rsid [mh_mutationScope candidate]) candidates in
  let uniqueConflicts := unique_by_hold_id conflicts in
  if negb (length uniqueConflicts =? 0)%nat then Ok (install_blocked ledger uniqueConflicts) else
  Ok (holds_installed (sort_by holdId_leb (ledger ++ candidates)) candidates).

(** ** Updates of one hold *)

Definition updateHold (ledger : MutationHoldLedger) (updated : MutationHold) : MutationHoldLedger :=
  map (λ hold, if mh_holdId hold === mh_holdId updated then updated else hold) ledger.

Definition findExactHold (ledger : MutationHoldLedger) (rsid holdId : jstr) : option MutationHold :=
  find_first (λ hold, (mh_rsid hold === rsid) && (mh_holdId hold === holdId)) ledger.

Definition assertEvidenceDigest (evidenceDigest : jstr) : result js_error unit :=
  reject_if (negb (sha256_pattern evidenceDigest)) TypeError
    "evidenceDigest must be sha256 plus 64 lowercase hexadecimal characters".

Record AttestedOutcome := { at_status : KnownTerminalJournalState; at_resultDigest : jstr; at_outcomeDigest : jstr }.

Definition attestedTerminalOutcome (r : InvocationJournalRecord) : option AttestedOutcome :=
  outcome ← jr_terminalOutcome r;
  if negb (is_null (jr_lateTerminalOutcome r)) || (jr_state r !== known (to_status outcome)) then None else
  outcomeDigest ← jr_terminalOutcomeDigest r;
  resultDigest ← to_resultDigest outcome;
  if negb (sha256_pattern resultDigest) then None else
  Some {| at_status := to_status outcome; at_resultDigest := resultDigest; at_outcomeDigest := outcomeDigest |}.

Definition attestedLateTerminalOutcome (r : InvocationJournalRecord) : option AttestedOutcome :=
  outcome ← jr_lateTerminalOutcome r;
  if negb (is_null (jr_terminalOutcome r)) || (jr_state r !== indeterminate) then None else
  outcomeDigest ← jr_lateTerminalOutcomeDigest r;
  resultDigest ← to_resultDigest outcome;
  if negb (sha256_pattern resultDigest) then None else
  Some {| at_status := to_status outcome; at_resultDigest := resultDigest; at_outcomeDigest := outcomeDigest |}.

(** The end of both evidence functions: append the attempt, select it when conclusive. *)
Definition add_evidence (ledger : MutationHoldLedger) (hold : MutationHold) (attempt : HoldEvidenceAttempt)
  : RecordHoldEvidenceResult :=
  let conclusive := match ea_conclusion attempt with conclusive_evidence _ => true | _ => false end in
  let updated := {|
    mh_rsid := mh_rsid hold; mh_mutationScope := mh_mutationScope hold; mh_scopeKey := mh_scopeKey hold;
    mh_holdId := mh_holdId hold; mh_originIdempotencyKeys := mh_originIdempotencyKeys hold;
    mh_state := if conclusive then hold_evidence_recorded else mh_state hold;
    mh_evidenceAttempts := mh_evidenceAttempts hold ++ [attempt];
    mh_selectedEvidence := if conclusive then Some attempt else mh_selectedEvidence hold;
    mh_resolution := mh_resolution hold; mh_clearedBy := mh_clearedBy hold |} in
  let next := updateHold ledger updated in
  if conclusive then evidence_recorded next updated else inconclusive_recorded next updated.

Record VerificationEvidenceInput := {
  ve_rsid : jstr;
  ve_holdId : jstr;
  ve_mutationScope : MutationScope;
  ve_verificationInvocationId : jstr;
  ve_evidenceDigest : jstr;
  ve_conclusion : HoldEvidenceConclusion;
  ve_journalRecord : InvocationJournalRecord }.

Definition takes_no_evidence (hold : MutationHold) : bool :=
  (mh_state hold === hold_resolved_pending_bridge) || (mh_state hold === hold_cleared).

Definition recordVerificationEvidence (ledger : MutationHoldLedger) (input : VerificationEvidenceInput)
  : result js_error RecordHoldEvidenceResult :=
  assertEvidenceDigest (ve_evidenceDigest input) ;;
  reject_if (ve_verificationInvocationId input === []) TypeError
    "verificationInvocationId must not be empty" ;;
  match findExactHold ledger (ve_rsid input) (ve_holdId input) with
  | None => Ok (evidence_rejected ledger foreign_hold)
  | Some hold =>
  inputKey ← mutationScopeKey (ve_mutationScope input);
  if mh_scopeKey hold !== inputKey then Ok (evidence_rejected ledger scope_mismatch) else
  if takes_no_evidence hold then Ok (evidence_rejected ledger evidence_invalid_state) else
  let journal := ve_journalRecord input in
  if negb (journalRecordIsIntact journal) then Ok (evidence_rejected ledger evidence_journal_integrity) else
  match jb_verification (jr_binding journal) with
  | None => Ok (evidence_rejected ledger journal_binding_mismatch)
  | Some verification =>
  if (jb_rsid (jr_binding journal) !== ve_rsid input) ||
     (jb_invocationId (jr_binding journal) !== ve_verificationInvocationId input) ||
     jb_mutating (jr_binding journal) ||
     negb (is_null (jb_mutationScope (jr_binding journal))) ||
     negb (is_null (jr_verificationHoldId journal)) ||
     (vf_hold_id verification !== ve_holdId input) ||
     (vf_purpose verification !== js "resolve_indeterminate")
  then Ok (evidence_rejected ledger journal_binding_mismatch) else
  verificationKey ← mutationScopeKey (vf_mutation_scope verification);
  if verificationKey !== mh_scopeKey hold then Ok (evidence_rejected ledger scope_mismatch) else
  match attestedTerminalOutcome journal with
  | None => Ok (evidence_rejected ledger journal_state_mismatch)
  | Some terminal =>
  if at_resultDigest terminal !== ve_evidenceDigest input
  then Ok (evidence_rejected ledger evidence_digest_mismatch) else
  Ok (add_evidence ledger hold {|
        ea_basis := verification_read;
        ea_verificationInvocationId := Some (jb_invocationId (jr_binding journal));
        ea_originIdempotencyKey := None;
        ea_evidenceDigest := at_resultDigest terminal;
        ea_conclusion := ve_conclusion input;
        ea_journalBindingDigest := jr_bindingDigest journal;
        ea_journalOutcomeDigest := at_outcomeDigest terminal;
        ea_terminalKind := kind_terminal;
        ea_terminalStatus := at_status terminal |})
  end
  end
  end.

Record LateEvidenceInput := {
  le_rsid : jstr;
  le_holdId : jstr;
  le_originIdempotencyKey : jstr;
  le_evidenceDigest : jstr;
  le_conclusion : HoldEvidenceConclusion;
  le_journalRecord : InvocationJournalRecord }.

Definition recordLateTerminalEvidence (ledger : MutationHoldLedger) (input : LateEvidenceInput)
  : result js_error RecordHoldEvidenceResult :=
  assertEvidenceDigest (le_evidenceDigest input) ;;
  match findExactHold ledger (le_rsid input) (le_holdId input) with
  | None => Ok (evidence_rejected ledger foreign_hold)
  | Some hold =>
  if negb (bool_decide (le_originIdempotencyKey input ∈ mh_originIdempotencyKeys hold))
  then Ok (evidence_rejected ledger origin_mismatch) else
  if takes_no_evidence hold then Ok (evidence_rejected ledger evidence_invalid_state) else
  let journal := le_journalRecord input in
  if negb (journalRecordIsIntact journal) then Ok (evidence_rejected ledger evidence_journal_integrity) else
  let journalOriginKey := jb_rsid (jr_binding journal) ++ js "/" ++ jb_invocationId (jr_binding journal) in
  match jb_mutationScope (jr_binding journal) with
  | None => Ok (evidence_rejected ledger journal_binding_mismatch)
  | Some scope =>
  if (jb_rsid (jr_binding journal) !== le_rsid input) ||
     (journalOriginKey !== le_originIdempotencyKey input) ||
     negb (jb_mutating (jr_binding journal)) ||
     negb (is_null (jb_verification (jr_binding journal))) ||
     (jr_verificationHoldId journal !== Some (le_holdId input))
  then Ok (evidence_rejected ledger journal_binding_mismatch) else
  journalKey ← mutationScopeKey scope;
  if journalKey !== mh_scopeKey hold then Ok (evidence_rejected ledger scope_mismatch) else
  match attestedLateTerminalOutcome journal with
  | None => Ok (evidence_rejected ledger journal_state_mismatch)
  | Some terminal =>
  if at_resultDigest terminal !== le_evidenceDigest input
  then Ok (evidence_rejected ledger evidence_digest_mismatch) else
  Ok (add_evidence ledger hold {|
        ea_basis := late_terminal;
        ea_verificationInvocationId := None;
        ea_originIdempotencyKey := Some journalOriginKey;
        ea_evidenceDigest := at_resultDigest terminal;
        ea_conclusion := le_conclusion input;
        ea_journalBindingDigest := jr_bindingDigest journal;
        ea_journalOutcomeDigest := at_outcomeDigest terminal;
        ea_terminalKind := kind_late_terminal;
        ea_terminalStatus := at_status terminal |})
  end
  end
  end.

(** ** Resolution *)

Record ResolveInput := {
  ri_rsid : jstr;
  ri_holdId : jstr;
  ri_basis : EvidenceBasis;
  ri_verificationInvocationId : option jstr;
  ri_evidenceDigest : jstr;
  ri_decision : HoldResolutionDecision;
  ri_resolutionId : jstr;
  ri_auditId : jstr;
  ri_authorizedDispatchIdentity : jstr }.

Definition with_resolution (hold : MutationHold) (resolution : HoldResolution) : MutationHold := {|
  mh_rsid := mh_rsid hold; mh_mutationScope := mh_mutationScope hold; mh_scopeKey := mh_scopeKey hold;
  mh_holdId := mh_holdId hold; mh_originIdempotencyKeys := mh_originIdempotencyKeys hold;
  mh_state := hold_resolved_pending_bridge; mh_evidenceAttempts := mh_evidenceAttempts hold;
  mh_selectedEvidence := mh_selectedEvidence hold; mh_resolution := Some resolution;
  mh_clearedBy := mh_clearedBy hold |}.

Definition resolveMutationHold (ledger : MutationHoldLedger) (input : ResolveInput)
  : result js_error ResolveMutationHoldResult :=
  reject_if (ri_authorizedDispatchIdentity input === []) TypeError
    "authorizedDispatchIdentity must not be empty" ;;
  match findExactHold ledger (ri_rsid input) (ri_holdId input) with
  | None => Ok (resolve_rejected ledger resolve_foreign_hold)
  | Some hold =>
  match mh_selectedEvidence hold with
  | None => Ok (resolve_rejected ledger resolve_invalid_state)
  | Some evidence =>
  if mh_state hold !== hold_evidence_recorded
  then Ok (resolve_rejected ledger
         (if ea_conclusion evidence === inconclusive_evidence_of then inconclusive_evidence
          else resolve_invalid_state)) else
  if (ea_basis evidence !== ri_basis input) ||
     (ea_verificationInvocationId evidence !== ri_verificationInvocationId input) ||
     (ea_evidenceDigest evidence !== ri_evidenceDigest input) ||
     (ea_conclusion evidence !== conclusive_evidence (ri_decision input))
  then Ok (resolve_rejected ledger evidence_mismatch) else
  let updated := with_resolution hold {|
    hr_resolutionId := ri_resolutionId input;
    hr_basis := ea_basis evidence;
    hr_verificationInvocationId := ea_verificationInvocationId evidence;
    hr_evidenceDigest := ea_evidenceDigest evidence;
    hr_decision := ri_decision input;
    hr_auditId := ri_auditId input;
    hr_authorizedDispatchIdentity := ri_authorizedDispatchIdentity input;
    hr_journalBindingDigest := ea_journalBindingDigest evidence;
    hr_journalOutcomeDigest := ea_journalOutcomeDigest evidence;
    hr_terminalKind := ea_terminalKind evidence;
    hr_terminalStatus := ea_terminalStatus evidence |} in
  Ok (hold_resolved (updateHold ledger updated) updated)
  end
  end.

Definition resolutionMatchesSelectedEvidence (hold : MutationHold) : bool :=
  match mh_resolution hold, mh_selectedEvidence hold with
  | Some resolution, Some evidence =>
      (ea_basis evidence === hr_basis resolution) &&
      (ea_verificationInvocationId evidence === hr_verificationInvocationId resolution) &&
      (ea_evidenceDigest evidence === hr_evidenceDigest resolution) &&
      (ea_conclusion evidence === conclusive_evidence (hr_decision resolution)) &&
      (ea_journalBindingDigest evidence === hr_journalBindingDigest resolution) &&
      (ea_journalOutcomeDigest evidence === hr_journalOutcomeDigest resolution) &&
      (ea_terminalKind evidence === hr_terminalKind resolution) &&
      (ea_terminalStatus evidence === hr_terminalStatus resolution)
  | _, _ => false
  end.

Definition recoveryClearanceForHold (hold : MutationHold) : result js_error RecoveryClearance :=
  match mh_resolution hold, mh_selectedEvidence hold with
  | Some resolution, Some evidence =>
      reject_if (mh_state hold !== hold_resolved_pending_bridge) PlainError
        "hold is not ready for bridge clearance" ;;
      reject_if (negb (resolutionMatchesSelectedEvidence hold)) PlainError
        "hold resolution is not bound to its journal-attested evidence" ;;
      Ok {| rc_hold_id := mh_holdId hold;
            rc_mutation_scope := mh_mutationScope hold;
            rc_resolution_id := hr_resolutionId resolution;
            rc_basis := ea_basis evidence;
            rc_verification_invocation_id := ea_verificationInvocationId evidence;
            rc_evidence_digest := ea_evidenceDigest evidence;
            rc_decision := hr_decision resolution;
            rc_audit_id := hr_auditId resolution |}
  | _, _ => throw PlainError "hold is not ready for bridge clearance"
  end.

Definition clearanceMatches (hold : MutationHold) (clearance : RecoveryClearance) : result js_error bool :=
  match mh_resolution hold with
  | None => Ok false
  | Some resolution =>
      if negb (resolutionMatchesSelectedEvidence hold) then Ok false else
      if rc_hold_id clearance !== mh_holdId hold then Ok false else
      key ← mutationScopeKey (rc_mutation_scope clearance);
      Ok ((key === mh_scopeKey hold) &&
          (rc_resolution_id clearance === hr_resolutionId resolution) &&
          (rc_basis clearance === hr_basis resolution) &&
          (rc_verification_invocation_id clearance === hr_verificationInvocationId resolution) &&
          (rc_evidence_digest clearance === hr_evidenceDigest resolution) &&
          (rc_decision clearance === hr_decision resolution) &&
          (rc_audit_id clearance === hr_auditId resolution))
  end.

(** ** Authorisation of a dispatch *)

Record AuthorizeInput := {
  ai_rsid : jstr;
  ai_mutationScopes : list MutationScope;
  ai_recoveryClearances : list RecoveryClearance;
  ai_dispatchIdentity : jstr }.

Fixpoint unsorted_ids (ids : list jstr) : bool :=
  match ids with
  | a :: (b :: _) as rest => str_leb b a || unsorted_ids rest
  | _ => false
  end.

(** [ledger.holds.find(...)] with a test that may throw. *)
Fixpoint find_cleared (input : AuthorizeInput) (clearance : RecoveryClearance) (ledger : MutationHoldLedger)
  : result js_error (option MutationHold) :=
  match ledger with
  | [] => Ok None
  | hold :: ledger =>
      matches ←
        (if (mh_state hold === hold_cleared) && (mh_rsid hold === ai_rsid input) &&
            (mh_holdId hold === rc_hold_id clearance) &&
            (mh_clearedBy hold === Some (ai_dispatchIdentity input)) &&
            existsb (λ scope, mutationScopesConflict (mh_mutationScope hold) scope) (ai_mutationScopes input)
         then clearanceMatches hold clearance else Ok false);
      if (matches : bool) then Ok (Some hold) else find_cleared input clearance ledger
  end.

(** The loop over the conflicting holds and their clearances: all match? *)
Fixpoint clearances_match (dispatchIdentity : jstr) (conflicts : list MutationHold)
  (clearances : list RecoveryClearance) : result js_error bool :=
  match conflicts, clearances with
  | [], _ => Ok true
  | hold :: conflicts, clearance :: clearances =>
      if (hr_authorizedDispatchIdentity <$> mh_resolution hold) !== Some dispatchIdentity then Ok false else
      matches ← clearanceMatches hold clearance;
      if negb matches then Ok false else clearances_match dispatchIdentity conflicts clearances
  | _ :: _, [] => Ok false
  end.

Definition clear_hold (dispatchIdentity : jstr) (hold : MutationHold) : MutationHold := {|
  mh_rsid := mh_rsid hold; mh_mutationScope := mh_mutationScope hold; mh_scopeKey := mh_scopeKey hold;
  mh_holdId := mh_holdId hold; mh_originIdempotencyKeys := mh_originIdempotencyKeys hold;
  mh_state := hold_cleared; mh_evidenceAttempts := mh_evidenceAttempts hold;
  mh_selectedEvidence := mh_selectedEvidence hold; mh_resolution := mh_resolution hold;
  mh_clearedBy := Some dispatchIdentity |}.

Definition authorizeMutationDispatch (ledger : MutationHoldLedger) (input : AuthorizeInput)
  : result js_error AuthorizeMutationResult :=
  reject_if ((length (ai_mutationScopes input) =? 0)%nat || (ai_dispatchIdentity input === [])) TypeError
    "mutationScopes and dispatchIdentity are required" ;;
  map_result mutationScopeKey (ai_mutationScopes input) ;;
  if unsorted_ids (map rc_hold_id (ai_recoveryClearances input))
  then Ok (authorize_fault ledger unsorted_clearances) else
  let conflicts := conflictingMutationHolds ledger (ai_rsid input) (ai_mutationScopes input) in
  if (length conflicts =? 0)%nat then
    if (length (ai_recoveryClearances input) =? 0)%nat then Ok (mutation_allowed ledger []) else
    duplicateHolds ← map_result (λ clearance, find_cleared input clearance ledger) (ai_recoveryClearances input);
    if forallb (λ found, negb (is_null found)) duplicateHolds
    then Ok (mutation_allowed ledger
           (map (λ found, nullish (mh_holdId <$> found) (js "")) duplicateHolds))
    else Ok (authorize_fault ledger foreign_clearance)
  else
  if (length (ai_recoveryClearances input) =? 0)%nat then Ok (mutation_blocked ledger conflicts) else
  if negb (length (ai_recoveryClearances input) =? length conflicts)%nat
  then Ok (authorize_fault ledger missing_clearance) else
  if existsb (λ hold, mh_state hold !== hold_resolved_pending_bridge) conflicts
  then Ok (authorize_fault ledger clearance_not_ready) else
  matched ← clearances_match (ai_dispatchIdentity input) conflicts (ai_recoveryClearances input);
  if negb matched then Ok (authorize_fault ledger clearance_mismatch) else
  let clearedIds := unique (map mh_holdId conflicts) in
  Ok (mutation_allowed
        (map (λ hold, if bool_decide (mh_holdId hold ∈ clearedIds)
                      then clear_hold (ai_dispatchIdentity input) hold else hold) ledger)
        clearedIds).

Definition isOriginRedeliveryExempt (ledger : MutationHoldLedger) (rsid idempotencyKey : jstr) : bool :=
  existsb (λ hold, (mh_rsid hold === rsid) && isUncleared hold &&
                   bool_decide (idempotencyKey ∈ mh_originIdempotencyKeys hold)) ledger.

End operations.
End MutationHold.

Module MutationHoldFacts.
Import Canonical CanonicalFacts Journal MutationHold.

#[local] Arguments journalRecordIsIntact : simpl never.
#[local] Arguments mutationScopeKey : simpl never.
#[local] Arguments makeMutationHoldId : simpl never.

Section facts.
Context `{Hasher}.

(** ** The invariant of the ledger *)

(** The journal record behind a piece of evidence. *)
Definition attested (h : MutationHold) (e : HoldEvidenceAttempt) : Prop :=
  ∃ j o, journalRecordIsIntact j = true ∧ jb_rsid (jr_binding j) = mh_rsid h ∧
    jr_bindingDigest j = ea_journalBindingDigest e ∧
    to_status o = ea_terminalStatus e ∧ to_resultDigest o = Some (ea_evidenceDigest e) ∧
    match ea_basis e with
    | verification_read =>
        jr_terminalOutcome j = Some o ∧ jr_terminalOutcomeDigest j = Some (ea_journalOutcomeDigest e) ∧
        jb_mutating (jr_binding j) = false ∧
        ea_verificationInvocationId e = Some (jb_invocationId (jr_binding j)) ∧
        ∃ v, jb_verification (jr_binding j) = Some v ∧ vf_hold_id v = mh_holdId h ∧
             mutationScopeKey (vf_mutation_scope v) = Ok (mh_scopeKey h)
    | late_terminal =>
        jr_lateTerminalOutcome j = Some o ∧ jr_lateTerminalOutcomeDigest j = Some (ea_journalOutcomeDigest e) ∧
        jb_mutating (jr_binding j) = true ∧ ea_verificationInvocationId e = None ∧
        jr_verificationHoldId j = Some (mh_holdId h) ∧
        jb_rsid (jr_binding j) ++ js "/" ++ jb_invocationId (jr_binding j) ∈ mh_originIdempotencyKeys h
    end.

Record hold_ok (h : MutationHold) : Prop := {
  ho_key : mutationScopeKey (mh_mutationScope h) = Ok (mh_scopeKey h);
  ho_id : makeMutationHoldId (mh_rsid h) (mh_mutationScope h) (mh_originIdempotencyKeys h) = Ok (mh_holdId h);
  ho_attempts : Forall (attested h) (mh_evidenceAttempts h);
  ho_selected : ∀ e, mh_selectedEvidence h = Some e →
    e ∈ mh_evidenceAttempts h ∧ ∃ d, ea_conclusion e = conclusive_evidence d;
  ho_state :
    match mh_state h with
    | hold_active => mh_selectedEvidence h = None ∧ mh_resolution h = None ∧ mh_clearedBy h = None
    | hold_evidence_recorded =>
        is_Some (mh_selectedEvidence h) ∧ mh_resolution h = None ∧ mh_clearedBy h = None
    | hold_resolved_pending_bridge =>
        resolutionMatchesSelectedEvidence h = true ∧ mh_clearedBy h = None
    | hold_cleared =>
        resolutionMatchesSelectedEvidence h = true ∧ is_Some (mh_clearedBy h) ∧
        mh_clearedBy h = hr_authorizedDispatchIdentity <$> mh_resolution h
    end }.

(** Holds that are not cleared exclude each other. *)
Definition disjoint_holds (l : MutationHoldLedger) : Prop :=
  ∀ h1 h2, h1 ∈ l → h2 ∈ l → isUncleared h1 = true → isUncleared h2 = true →
    mh_rsid h1 = mh_rsid h2 → mutationScopesConflict (mh_mutationScope h1) (mh_mutationScope h2) = true →
    h1 = h2.

(** The holds that have an id, in the order of the ledger. *)
Definition of_id (id : jstr) (l : MutationHoldLedger) : list MutationHold := List.filter (λ h, mh_holdId h === id) l.

(** An id has one hold, unless it was installed again after the hold was cleared:
    then the cleared one comes first and the new one is never touched. *)
Definition one_or_reinstalled (hs : list MutationHold) : Prop :=
  match hs with
  | [] | [_] => True
  | [old; new] => mh_state old = hold_cleared ∧ mh_state new = hold_active
  | _ => False
  end.

Record ledger_inv (l : MutationHoldLedger) : Prop := {
  li_holds : Forall hold_ok l;
  li_ids : ∀ id, one_or_reinstalled (of_id id l);
  li_disjoint : disjoint_holds l;
  li_sorted : StronglySorted (λ a b, holdId_leb a b = true) l }.

(** Hold ids are digests of the session, the scope and the origins of a hold:
    two holds with one id are of one session and one scope. *)
Definition no_collision (l : MutationHoldLedger) : Prop :=
  ∀ h1 h2, h1 ∈ l → h2 ∈ l → mh_holdId h1 = mh_holdId h2 →
    mh_rsid h1 = mh_rsid h2 ∧ mh_mutationScope h1 = mh_mutationScope h2.

Lemma holdId_leb_total x y : holdId_leb x y = true ∨ holdId_leb y x = true.
Proof. apply str_leb_total. Qed.
Lemma holdId_leb_trans x y z : holdId_leb x y = true → holdId_leb y z = true → holdId_leb x z = true.
Proof. apply str_leb_trans. Qed.

Lemma scopes_conflict_sym s t : mutationScopesConflict s t = mutationScopesConflict t s.
Proof. destruct s, t; cbn; try done. apply bool_decide_ext. by split. Qed.

(** ** The holds of an id *)

Lemma of_id_elem id l h : h ∈ of_id id l ↔ h ∈ l ∧ mh_holdId h = id.
Proof. unfold of_id. by rewrite elem_of_filter_bool, bool_decide_eq_true. Qed.

Lemma of_id_app id l l' : of_id id (l ++ l') = of_id id l ++ of_id id l'.
Proof. apply List.filter_app. Qed.

Lemma of_id_map id f l : (∀ h, h ∈ l → mh_holdId (f h) = mh_holdId h) → of_id id (map f l) = map f (of_id id l).
Proof.
  intros Hf. unfold of_id. induction l as [|h l IH]; [done|]. cbn -[bool_decide]. rewrite Hf by (by left).
  rewrite IH by (intros x Hx; apply Hf; by right). by destruct (bool_decide _).
Qed.

(** Sorting keeps the order of the holds of an id. *)
Lemma of_id_insert id x ys : of_id id (insert_by holdId_leb x ys) = of_id id (x :: ys).
Proof.
  unfold of_id. induction ys as [|y ys IH]; [done|]. cbn -[bool_decide]. destruct (holdId_leb x y) eqn:E; [done|].
  cbn -[bool_decide] in IH |- *. rewrite IH.
  destruct (bool_decide (mh_holdId x = id)) eqn:Ex, (bool_decide (mh_holdId y = id)) eqn:Ey; try done. bsimp.
  unfold holdId_leb in E. rewrite Ex, Ey in E.
  by destruct (str_leb_total id id); congruence.
Qed.

Lemma of_id_sort id l : of_id id (sort_by holdId_leb l) = of_id id l.
Proof. induction l as [|x l IH]; [done|]. cbn [sort_by]. rewrite of_id_insert. unfold of_id in *. cbn. by rewrite IH. Qed.

Lemma of_id_nodup id l : NoDup (map mh_holdId l) → of_id id l = [] ∨ ∃ h, of_id id l = [h].
Proof.
  intros Hnd%(filter_nodup_map _ (λ h, mh_holdId h === id)). change (NoDup (map mh_holdId (of_id id l))) in Hnd.
  pose proof (of_id_elem id l) as Hin. destruct (of_id id l) as [|h1 [|h2 hs]]; [by left|by right; exists h1|exfalso].
  apply NoDup_cons in Hnd as [Hnd _]. apply Hnd. cbn.
  destruct (proj1 (Hin h1)) as [_ ->]; [by left|]. destruct (proj1 (Hin h2)) as [_ ->]; [by right; left|]. by left.
Qed.

Lemma find_exact_of_id l rsid id : findExactHold l rsid id = findExactHold (of_id id l) rsid id.
Proof.
  unfold findExactHold, find_first, of_id. induction l as [|x l IH]; [done|]. cbn -[bool_decide].
  destruct (bool_decide (mh_holdId x = id)) eqn:E.
  - rewrite andb_true_r. cbn -[bool_decide]. rewrite E, andb_true_r. by destruct (bool_decide (mh_rsid x = rsid)).
  - by rewrite andb_false_r.
Qed.

(** Two holds of a ledger with one id are one hold. *)
Lemma same_id l h1 h2 :
  NoDup (map mh_holdId l) → h1 ∈ l → h2 ∈ l → mh_holdId h1 = mh_holdId h2 → h1 = h2.
Proof.
  intros Hnd H1 H2 E. apply list_elem_of_lookup in H1 as [i Hi], H2 as [j Hj].
  assert (i = j) as ->; [|congruence].
  eapply (NoDup_lookup _ i j (mh_holdId h1) Hnd); rewrite list_lookup_fmap, ?Hi, ?Hj; cbn; congruence.
Qed.

(** A change that keeps the identity of holds and revives none keeps the invariant. *)
Definition keeps_identity (h h' : MutationHold) : Prop :=
  mh_holdId h' = mh_holdId h ∧ mh_rsid h' = mh_rsid h ∧ mh_mutationScope h' = mh_mutationScope h ∧
  (isUncleared h' = true → isUncleared h = true).

(** A hold that is the only one of its id. *)
Definition alone (l : MutationHoldLedger) (h : MutationHold) : Prop := of_id (mh_holdId h) l = [h].

Lemma ledger_map f l :
  ledger_inv l → (∀ h, h ∈ l → hold_ok (f h) ∧ keeps_identity h (f h)) →
  (∀ h, h ∈ l → f h = h ∨ alone l h) → ledger_inv (map f l).
Proof.
  intros [J1 J2 J3 J4] Hf Halone. constructor.
  - apply Forall_forall. intros h' Hh. apply list_elem_of_fmap in Hh as (h & -> & Hh). by apply Hf.
  - intros id. rewrite of_id_map by (intros h Hh; apply (Hf h Hh)). specialize (J2 id).
    pose proof (of_id_elem id l) as Hin. destruct (of_id id l) as [|old [|new [|? ?]]] eqn:E; try done.
    assert (∀ h, h ∈ [old; new] → f h = h) as Hsame.
    { intros h Hh. apply Hin in Hh as [Hh Hid]. destruct (Halone h Hh) as [|Ha]; [done|]. unfold alone in Ha. congruence. }
    cbn. by rewrite !Hsame by set_solver.
  - intros h1' h2' H1 H2. apply list_elem_of_fmap in H1 as (h1 & -> & H1), H2 as (h2 & -> & H2).
    destruct (Hf h1 H1) as (_ & _ & -> & -> & Hu1), (Hf h2 H2) as (_ & _ & -> & -> & Hu2).
    intros U1 U2 Hr Hc. by rewrite (J3 h1 h2 H1 H2 (Hu1 U1) (Hu2 U2) Hr Hc).
  - clear -J4 Hf. induction J4 as [|h l Hs IH Hall]; cbn; [constructor|].
    constructor; [apply IH; intros x Hx; apply Hf; by right|]. apply Forall_forall. intros x Hx.
    apply list_elem_of_fmap in Hx as (y & -> & Hy). rewrite Forall_forall in Hall. specialize (Hall y Hy).
    unfold holdId_leb in *. destruct (Hf h) as (_ & -> & _); [by left|].
    by destruct (Hf y) as (_ & -> & _); [by right|].
Qed.

Lemma find_exact_spec l rsid id h :
  findExactHold l rsid id = Some h → h ∈ l ∧ mh_rsid h = rsid ∧ mh_holdId h = id.
Proof. intros Hf%find_first_some. destruct Hf as [? Hf]. by bsimp. Qed.

(** The hold that is found, when it is not a cleared one, is alone. *)
Lemma found_alone l rsid id h :
  ledger_inv l → no_collision l → findExactHold l rsid id = Some h → mh_state h ≠ hold_cleared → alone l h.
Proof.
  intros Hl Hnc Hf Hst. pose proof (find_exact_spec _ _ _ _ Hf) as (Hin & Hr & Hid). unfold alone. rewrite Hid.
  pose proof (li_ids _ Hl id) as Hone. pose proof (of_id_elem id l) as Hof. rewrite find_exact_of_id in Hf.
  destruct (of_id id l) as [|old [|new [|? ?]]]; try done.
  - apply find_exact_spec in Hf as (Hx & _). by apply list_elem_of_singleton in Hx as ->.
  - destruct Hone as [Hc _]. destruct (proj1 (Hof old)) as [Hold Eold]; [by left|].
    destruct (Hnc old h Hold Hin) as [Er _]; [congruence|]. unfold findExactHold, find_first in Hf. cbn in Hf.
    rewrite !bool_decide_true in Hf by congruence. injection Hf as ->. done.
Qed.

Lemma update_inv l h h' :
  ledger_inv l → alone l h → hold_ok h' → keeps_identity h h' → ledger_inv (updateHold l h').
Proof.
  intros Hl Ha Hok (Eid & Hk). pose proof (of_id_elem (mh_holdId h) l) as Hof. unfold alone in Ha. rewrite Ha in Hof.
  assert (∀ x, x ∈ l → mh_holdId x = mh_holdId h' → x = h) as Hx.
  { intros x Hx E. apply list_elem_of_singleton, Hof. split; [done|congruence]. }
  pose proof (li_holds _ Hl) as Hall. rewrite Forall_forall in Hall.
  apply ledger_map; [done|..]; intros x Hin; destruct (bool_decide (mh_holdId x = mh_holdId h')) eqn:E; bsimp.
  - rewrite (Hx x Hin E). by split; [|split].
  - split; [by apply Hall|done].
  - right. by rewrite (Hx x Hin E).
  - by left.
Qed.

(** ** Evidence and resolution *)

Definition evidence_ledger (r : RecordHoldEvidenceResult) : MutationHoldLedger :=
  match r with evidence_recorded l _ | inconclusive_recorded l _ | evidence_rejected l _ => l end.

(** [attested] only looks at the identity of the hold. *)
Lemma attested_ext h h' e :
  mh_rsid h' = mh_rsid h → mh_holdId h' = mh_holdId h → mh_scopeKey h' = mh_scopeKey h →
  mh_originIdempotencyKeys h' = mh_originIdempotencyKeys h → attested h e → attested h' e.
Proof.
  intros E1 E2 E3 E4 (j & o & Hj). exists j, o. by rewrite E1, E2, E3, E4.
Qed.

Lemma add_evidence_inv l h e :
  ledger_inv l → h ∈ l → alone l h → takes_no_evidence h = false → attested h e →
  ledger_inv (evidence_ledger (add_evidence l h e)).
Proof.
  intros Hl Hin Ha Hst He. pose proof (li_holds _ Hl) as Hall. rewrite Forall_forall in Hall.
  destruct (Hall h Hin) as [K1 K2 K3 K4 K5]. unfold takes_no_evidence in Hst. bsimp.
  unfold add_evidence. set (c := match ea_conclusion e with conclusive_evidence _ => true | _ => false end).
  match goal with |- context [updateHold l ?x] => set (h' := x) end.
  assert (evidence_ledger (if c then evidence_recorded (updateHold l h') h'
                           else inconclusive_recorded (updateHold l h') h') = updateHold l h') as -> by by destruct c.
  assert (isUncleared h = true) as Hu by (unfold isUncleared; by rewrite bool_decide_false).
  apply (update_inv l h); [done|done| |by repeat split].
  constructor; cbn; try done.
  - apply Forall_app. split; [|constructor; [|done]].
    + eapply Forall_impl; [exact K3|]. intros e'. by apply attested_ext.
    + by eapply attested_ext.
  - intros e'. destruct c eqn:Ec.
    + intros [= <-]. split; [apply elem_of_app; right; by constructor|]. unfold c in Ec. destruct (ea_conclusion e); try done. eauto.
    + intros He'. destruct (K4 e' He') as [? ?]. split; [apply elem_of_app; by left|done].
  - destruct c; [|by destruct (mh_state h)].
    destruct (mh_state h); try done; destruct K5 as (? & ? & ?); by repeat split.
Qed.

Lemma found_evidence_inv l rsid id h e :
  ledger_inv l → no_collision l → findExactHold l rsid id = Some h → takes_no_evidence h = false → attested h e →
  ledger_inv (evidence_ledger (add_evidence l h e)).
Proof.
  intros Hl Hnc Hf Ht He. apply find_exact_spec in Hf as Hspec. destruct Hspec as [Hin _].
  apply add_evidence_inv; [done|done| |done|done]. eapply found_alone; [done|done|done|].
  intros E. unfold takes_no_evidence in Ht. by rewrite E in Ht.
Qed.

Lemma attested_terminal j a :
  attestedTerminalOutcome j = Some a →
  ∃ o, jr_terminalOutcome j = Some o ∧ to_status o = at_status a ∧
       to_resultDigest o = Some (at_resultDigest a) ∧ jr_terminalOutcomeDigest j = Some (at_outcomeDigest a).
Proof.
  unfold attestedTerminalOutcome. intros Ha. apply bind_Some in Ha as (o & Ho & Ha).
  destruct (_ || _) in Ha; [done|]. apply bind_Some in Ha as (d & Hd & Ha).
  apply bind_Some in Ha as (r & Hr & Ha). destruct (negb _) in Ha; [done|]. injection Ha as <-. by exists o.
Qed.

Lemma attested_late j a :
  attestedLateTerminalOutcome j = Some a →
  ∃ o, jr_lateTerminalOutcome j = Some o ∧ to_status o = at_status a ∧
       to_resultDigest o = Some (at_resultDigest a) ∧ jr_lateTerminalOutcomeDigest j = Some (at_outcomeDigest a).
Proof.
  unfold attestedLateTerminalOutcome. intros Ha. apply bind_Some in Ha as (o & Ho & Ha).
  destruct (_ || _) in Ha; [done|]. apply bind_Some in Ha as (d & Hd & Ha).
  apply bind_Some in Ha as (r & Hr & Ha). destruct (negb _) in Ha; [done|]. injection Ha as <-. by exists o.
Qed.

(** Either the ledger is untouched or attested evidence was added to the hold named. *)
Lemma verification_cases l input r :
  recordVerificationEvidence l input = Ok r →
  (∃ reason, r = evidence_rejected l reason) ∨
  ∃ h e, findExactHold l (ve_rsid input) (ve_holdId input) = Some h ∧ takes_no_evidence h = false ∧
         attested h e ∧ ea_basis e = verification_read ∧ ea_evidenceDigest e = ve_evidenceDigest input ∧
         ea_conclusion e = ve_conclusion input ∧ r = add_evidence l h e.
Proof.
  unfold recordVerificationEvidence. intros Hr. apply bind_ok in Hr as (? & _ & Hr).
  apply bind_ok in Hr as (? & _ & Hr). destruct (findExactHold _ _ _) as [h|] eqn:Hf; [|left; by bsimp; eauto].
  apply find_exact_spec in Hf as Hspec. destruct Hspec as (_ & Hrs & Hid).
  apply bind_ok in Hr as (key & _ & Hr). split_if; [left; bsimp; eauto|].
  split_if; [left; bsimp; eauto|]. split_if; [left; bsimp; eauto|].
  destruct (jb_verification _) as [v|] eqn:Hv; [|left; by bsimp; eauto].
  split_if; [left; bsimp; eauto|]. apply bind_ok in Hr as (vkey & Hvkey & Hr).
  split_if; [left; bsimp; eauto|]. destruct (attestedTerminalOutcome _) as [a|] eqn:Ha; [|left; by bsimp; eauto].
  split_if; [left; bsimp; eauto|]. right. injection Hr as <-. bsimp.
  apply attested_terminal in Ha as (o & Ho & Hst & Hrd & Hod).
  eexists h, _. split; [done|]. split; [done|].
  split; [|split; [|split; [|split; [|reflexivity]]]]; [|done..].
  exists (ve_journalRecord input), o. cbn. rewrite Hrs, Hid. repeat split; try done.
  exists v. repeat split; congruence.
Qed.

Lemma late_cases l input r :
  recordLateTerminalEvidence l input = Ok r →
  (∃ reason, r = evidence_rejected l reason) ∨
  ∃ h e, findExactHold l (le_rsid input) (le_holdId input) = Some h ∧ takes_no_evidence h = false ∧
         attested h e ∧ ea_basis e = late_terminal ∧ ea_evidenceDigest e = le_evidenceDigest input ∧
         ea_conclusion e = le_conclusion input ∧ r = add_evidence l h e.
Proof.
  unfold recordLateTerminalEvidence. intros Hr. apply bind_ok in Hr as (? & _ & Hr).
  destruct (findExactHold _ _ _) as [h|] eqn:Hf; [|left; by bsimp; eauto].
  apply find_exact_spec in Hf as Hspec. destruct Hspec as (_ & Hrs & Hid).
  split_if; [left; bsimp; eauto|]. split_if; [left; bsimp; eauto|]. split_if; [left; bsimp; eauto|].
  destruct (jb_mutationScope _) as [s|] eqn:Hsc; [|left; by bsimp; eauto].
  split_if; [left; bsimp; eauto|]. apply bind_ok in Hr as (vkey & Hvkey & Hr).
  split_if; [left; bsimp; eauto|]. destruct (attestedLateTerminalOutcome _) as [a|] eqn:Ha; [|left; by bsimp; eauto].
  split_if; [left; bsimp; eauto|]. right. injection Hr as <-. bsimp.
  apply attested_late in Ha as (o & Ho & Hst & Hrd & Hod).
  eexists h, _. split; [done|]. split; [done|].
  split; [|split; [|split; [|split; [|reflexivity]]]]; [|done..].
  exists (le_journalRecord input), o. cbn. rewrite Hrs, Hid. repeat split; try done. congruence.
Qed.

Definition resolve_ledger (r : ResolveMutationHoldResult) : MutationHoldLedger :=
  match r with hold_resolved l _ | resolve_rejected l _ => l end.

(** A hold is resolved only from recorded, conclusive evidence, and bound to it. *)
Lemma resolve_cases l input r :
  resolveMutationHold l input = Ok r →
  (∃ reason, r = resolve_rejected l reason) ∨
  ∃ h res, findExactHold l (ri_rsid input) (ri_holdId input) = Some h ∧
    mh_state h = hold_evidence_recorded ∧ resolutionMatchesSelectedEvidence (with_resolution h res) = true ∧
    hr_authorizedDispatchIdentity res = ri_authorizedDispatchIdentity input ∧
    hr_evidenceDigest res = ri_evidenceDigest input ∧ hr_decision res = ri_decision input ∧
    r = hold_resolved (updateHold l (with_resolution h res)) (with_resolution h res).
Proof.
  unfold resolveMutationHold. intros Hr. apply bind_ok in Hr as (? & _ & Hr).
  destruct (findExactHold _ _ _) as [h|] eqn:Hf; [|left; by bsimp; eauto].
  destruct (mh_selectedEvidence h) as [e|] eqn:He; [|left; by bsimp; eauto].
  destruct (negb _) eqn:Hst in Hr; [left; by injection Hr as <-; eauto|].
  destruct (_ || _) eqn:Hm in Hr; [left; by injection Hr as <-; eauto|].
  right. injection Hr as <-. bsimp. eexists h, _. split; [done|]. split; [done|].
  split; [|split; [|split; [|split; [|reflexivity]]]]; [|done..].
  unfold resolutionMatchesSelectedEvidence. cbn. rewrite He.
  repeat (apply andb_true_iff; split); by apply bool_decide_eq_true.
Qed.

Lemma resolve_inv l input r :
  ledger_inv l → no_collision l → resolveMutationHold l input = Ok r → ledger_inv (resolve_ledger r).
Proof.
  intros Hl Hnc Hr. destruct (resolve_cases _ _ _ Hr) as [[? ->]|(h & res & Hf & Hst & Hm & _ & _ & _ & ->)]; [done|].
  pose proof (found_alone _ _ _ _ Hl Hnc Hf ltac:(congruence)) as Ha. apply find_exact_spec in Hf as (Hin & _ & _). pose proof (li_holds _ Hl) as Hall. rewrite Forall_forall in Hall.
  destruct (Hall h Hin) as [K1 K2 K3 K4 K5]. cbn. apply (update_inv l h); [done|done| |].
  - rewrite Hst in K5. constructor; cbn; try done. by destruct K5 as (_ & _ & ?).
  - repeat split. intros _. unfold isUncleared. by rewrite Hst.
Qed.

(** ** Installation *)

Lemma new_hold_spec rsid g h :
  new_hold rsid g = Ok h →
  hold_ok h ∧ mh_rsid h = rsid ∧ mh_mutationScope h = g.1 ∧ mh_originIdempotencyKeys h = g.2 ∧
  mh_state h = hold_active.
Proof.
  unfold new_hold. intros Hh. apply bind_ok in Hh as (k & Hk & Hh). apply bind_ok in Hh as (i & Hi & [= <-]).
  split; [|done]. by constructor.
Qed.

Lemma add_to_groups_spec key entry gs gs' :
  add_to_groups key entry gs = Ok gs' →
  (∃ pre s os post, gs = pre ++ (s, os) :: post ∧ mutationScopeKey s = Ok key ∧
     gs' = pre ++ (s, os ++ [um_originIdempotencyKey entry]) :: post) ∨
  (gs' = gs ++ [(um_mutationScope entry, [um_originIdempotencyKey entry])] ∧
   Forall (λ g, mutationScopeKey g.1 ≠ Ok key) gs).
Proof.
  revert gs'. induction gs as [|[s os] gs IH]; intros gs' Ha; cbn in Ha.
  { injection Ha as <-. right. by split. }
  apply bind_ok in Ha as (k & Hk & Ha). destruct (bool_decide (k = key)) eqn:E; bsimp.
  - subst k. left. by exists [], s, os, gs.
  - apply bind_ok in Ha as (gs1 & Hgs & [= <-]). destruct (IH _ Hgs) as
      [(pre & s' & os' & post & -> & Hs & ->)|[-> Hne]].
    + left. by exists ((s, os) :: pre), s', os', post.
    + right. split; [done|]. constructor; [cbn; congruence|done].
Qed.

Definition grouped (gs : list (MutationScope * list jstr)) (entry : UncertainMutation) : Prop :=
  ∃ g, g ∈ gs ∧ um_originIdempotencyKey entry ∈ g.2 ∧
       mutationScopeKey g.1 = mutationScopeKey (um_mutationScope entry).

Lemma group_by_scope_spec gs unc gs' :
  group_by_scope gs unc = Ok gs' → NoDup (map fst gs) →
  NoDup (map fst gs') ∧
  (∀ s, s ∈ map fst gs' → s ∈ map fst gs ∨ s ∈ map um_mutationScope unc) ∧
  (∀ entry, grouped gs entry ∨ entry ∈ unc → grouped gs' entry).
Proof.
  revert gs. induction unc as [|e unc IH]; intros gs Hg Hnd; cbn in Hg.
  { injection Hg as <-. split; [done|]. split; [auto|]. intros entry [?|Hin]; [done|]. by inversion Hin. }
  apply bind_ok in Hg as (key & Hkey & Hg). apply bind_ok in Hg as (gs1 & Hadd & Hg).
  assert (NoDup (map fst gs1) ∧ (∀ s, s ∈ map fst gs1 → s ∈ map fst gs ∨ s = um_mutationScope e) ∧
          (∀ entry, grouped gs entry ∨ entry = e → grouped gs1 entry)) as (H1 & H2 & H3).
  { destruct (add_to_groups_spec _ _ _ _ Hadd) as [(pre & s & os & post & -> & Hs & ->)|[-> Hne]].
    - rewrite !map_app in *. cbn in *. split; [done|]. split; [auto|]. intros entry [(g & Hin & Ho & Hk)| ->].
      + apply elem_of_app in Hin as [Hin|Hin]; [exists g; set_solver|].
        apply elem_of_cons in Hin as [-> | Hin]; [|exists g; set_solver].
        exists (s, os ++ [um_originIdempotencyKey e]). cbn in *. set_solver.
      + exists (s, os ++ [um_originIdempotencyKey e]). cbn. split; [set_solver|]. split; [set_solver|congruence].
    - rewrite !map_app. cbn. split; [|split].
      + apply NoDup_app. split; [done|]. split; [|apply NoDup_singleton]. intros s Hs Hs'.
        apply list_elem_of_singleton in Hs' as ->. apply list_elem_of_fmap in Hs as (g & Eg & Hg').
        rewrite Forall_forall in Hne. apply (Hne g Hg'). by rewrite <- Eg.
      + set_solver.
      + intros entry [(g & Hin & Ho & Hk)| ->]; [exists g; set_solver|].
        exists (um_mutationScope e, [um_originIdempotencyKey e]). cbn. set_solver. }
  destruct (IH _ Hg H1) as (J1 & J2 & J3). split; [done|]. split.
  - intros x Hx. apply J2 in Hx as [Hx|Hx]; [apply H2 in Hx as [? | ->]; [by left|right; by left]|right; by right].
  - intros entry [Hx|Hx]; [apply J3; left; apply H3; by left|].
    apply elem_of_cons in Hx as [-> | Hx]; apply J3; [left; apply H3; by right|by right].
Qed.

Definition scope_wire (s : MutationScope) : Prop := wire_value (normalizedScope s) = true.

Lemma scope_key_inj s t k :
  scope_wire s → scope_wire t → mutationScopeKey s = Ok k → mutationScopeKey t = Ok k → s = t.
Proof.
  unfold mutationScopeKey. intros Hs Ht Es Et.
  apply bind_ok in Es as (? & _ & Es). apply bind_ok in Et as (? & _ & Et).
  assert (normalizedScope s = normalizedScope t) as E.
  { assert (normalize (normalizedScope s) = normalizedScope s ∧ normalize (normalizedScope t) = normalizedScope t)
      as [<- <-] by by destruct s, t.
    apply canonicalizeJson_inj; congruence. }
  destruct s, t; try done. apply (f_equal (λ v, match v with VObj _ ms => map snd ms | _ => [] end)) in E.
  cbn in E. by injection E as ->.
Qed.

Lemma scopes_conflict_refl s : mutationScopesConflict s s = true.
Proof. destruct s; cbn; [done|]. by apply bool_decide_eq_true. Qed.

(** The groups the origins of uncertain mutations fall into. *)
Definition scope_groups (unc : list UncertainMutation) : result js_error (list (MutationScope * list jstr)) :=
  if existsb (λ entry, um_mutationScope entry === scope_session) unc
  then Ok [(scope_session, map um_originIdempotencyKey unc)]
  else group_by_scope [] unc.

(** Distinct groups do not conflict. *)
Lemma scope_groups_disjoint unc gs :
  scope_groups unc = Ok gs →
  NoDup (map fst gs) ∧
  ∀ s t, s ∈ map fst gs → t ∈ map fst gs → mutationScopesConflict s t = true → s = t.
Proof.
  unfold scope_groups. intros Hgs. destruct (existsb _ unc) eqn:Es in Hgs.
  - injection Hgs as <-. cbn. split; [apply NoDup_singleton|]. set_solver.
  - rewrite existsb_false in Es. apply group_by_scope_spec in Hgs as (Hnd & Hfrom & _); [|constructor].
    split; [done|]. intros s t Hs Ht.
    assert (∀ sc, sc ∈ map fst gs → sc ≠ scope_session) as Hdoc.
    { intros sc Hx. apply Hfrom in Hx as [Hx|Hx]; [by inversion Hx|].
      apply list_elem_of_fmap in Hx as (u & -> & Hu). specialize (Es u Hu). by bsimp. }
    specialize (Hdoc s Hs) as Hs'. specialize (Hdoc t Ht) as Ht'.
    destruct s, t; cbn; try done. intros; bsimp; congruence.
Qed.

(** Each uncertain mutation is in a group whose scope conflicts with its own. *)
Lemma scope_groups_cover unc gs u :
  scope_groups unc = Ok gs → Forall (λ u, scope_wire (um_mutationScope u)) unc → u ∈ unc →
  (∀ g, g ∈ gs → is_ok (mutationScopeKey g.1) = true) →
  ∃ g, g ∈ gs ∧ um_originIdempotencyKey u ∈ g.2 ∧ mutationScopesConflict g.1 (um_mutationScope u) = true.
Proof.
  unfold scope_groups. intros Hgs Hw Hu Hok. destruct (existsb _ unc) eqn:Es in Hgs.
  - injection Hgs as <-. eexists. split; [by left|]. split; [|done]. apply list_elem_of_fmap. eauto.
  - apply group_by_scope_spec in Hgs as (_ & Hfrom & Hcov); [|constructor].
    destruct (Hcov u (or_intror Hu)) as (g & Hg & Ho & Hk). exists g. split; [done|]. split; [done|].
    rewrite Forall_forall in Hw.
    assert (g.1 ∈ map fst gs) as Hgc by (apply list_elem_of_fmap; eauto).
    apply Hfrom in Hgc as [Hx|Hx]; [by inversion Hx|]. apply list_elem_of_fmap in Hx as (u' & Eu & Hu').
    specialize (Hok g Hg). rewrite Hk in Hok.
    destruct (mutationScopeKey (um_mutationScope u)) as [k|] eqn:Eku; [|done].
    rewrite (scope_key_inj g.1 (um_mutationScope u) k); [apply scopes_conflict_refl| |by apply Hw|done|done].
    rewrite Eu. by apply Hw.
Qed.

(** The holds made of the groups, one each. *)
Lemma new_holds_spec rsid gs cs :
  Forall2 (λ g c, new_hold rsid g = Ok c) gs cs →
  map mh_mutationScope cs = map fst gs ∧ map mh_originIdempotencyKeys cs = map snd gs ∧
  Forall (λ c, hold_ok c ∧ mh_rsid c = rsid ∧ mh_state c = hold_active) cs ∧
  ∀ g, g ∈ gs → is_ok (mutationScopeKey g.1) = true.
Proof.
  induction 1 as [|g c gs cs Hgc _ (IH1 & IH2 & IH3 & IH4)].
  { split; [done|]. split; [done|]. split; [constructor|]. intros g Hg. by inversion Hg. }
  assert (is_ok (mutationScopeKey g.1) = true) as Hk.
  { unfold new_hold in Hgc. by destruct (mutationScopeKey g.1). }
  apply new_hold_spec in Hgc as (Hok & Hr & Hs & Ho & Hst). cbn. rewrite IH1, IH2, Hs, Ho.
  split; [done|]. split; [done|]. split; [by constructor|].
  intros g' Hg'. apply elem_of_cons in Hg' as [-> | Hg']; [done|by apply IH4].
Qed.

Lemma candidates_nodup rsid unc cs : candidateHolds rsid unc = Ok cs → NoDup (map mh_mutationScope cs).
Proof.
  unfold candidateHolds. intros Hc. apply bind_ok in Hc as (? & _ & Hc). apply bind_ok in Hc as (? & _ & Hc).
  apply bind_ok in Hc as (gs & Hgs & Hc). apply map_result_ok, new_holds_spec in Hc as (-> & _).
  by destruct (scope_groups_disjoint unc gs Hgs).
Qed.

Lemma candidates_spec rsid unc cs :
  candidateHolds rsid unc = Ok cs →
  Forall (λ c, hold_ok c ∧ mh_rsid c = rsid ∧ mh_state c = hold_active) cs ∧
  (∀ c1 c2, c1 ∈ cs → c2 ∈ cs →
     mutationScopesConflict (mh_mutationScope c1) (mh_mutationScope c2) = true → c1 = c2) ∧
  (Forall (λ u, scope_wire (um_mutationScope u)) unc → ∀ u, u ∈ unc → ∃ c, c ∈ cs ∧
     um_originIdempotencyKey u ∈ mh_originIdempotencyKeys c ∧
     mutationScopesConflict (mh_mutationScope c) (um_mutationScope u) = true).
Proof.
  unfold candidateHolds. intros Hc. apply bind_ok in Hc as (? & _ & Hc). apply bind_ok in Hc as (? & _ & Hc).
  apply bind_ok in Hc as (gs & Hgs & Hc). apply map_result_ok, new_holds_spec in Hc as (Hscopes & Horigins & Hall & Hok).
  change (scope_groups unc = Ok gs) in Hgs. split; [done|]. split.
  - destruct (scope_groups_disjoint unc gs Hgs) as [Hnd Hconf]. rewrite <- Hscopes in Hnd, Hconf.
    intros c1 c2 H1 H2 Hcc. pose proof H1 as [i Hi]%list_elem_of_lookup. pose proof H2 as [j Hj]%list_elem_of_lookup.
    assert (mh_mutationScope c1 = mh_mutationScope c2) as E.
    { apply Hconf; [..|done]; apply list_elem_of_fmap; eauto. }
    assert (i = j) as ->; [|congruence].
    eapply (NoDup_lookup _ i j (mh_mutationScope c1) Hnd); rewrite list_lookup_fmap, ?Hi, ?Hj; cbn; congruence.
  - intros Hw u Hu. destruct (scope_groups_cover unc gs u Hgs Hw Hu Hok) as (g & [i Hi]%list_elem_of_lookup & Ho & Hc).
    apply (f_equal (.!! i)) in Hscopes, Horigins. rewrite !list_lookup_fmap, Hi in Hscopes.
    rewrite !list_lookup_fmap, Hi in Horigins.
    destruct (cs !! i) as [c|] eqn:Ec; [|done]. cbn in Hscopes, Horigins. injection Hscopes as Es. injection Horigins as Eo.
    exists c. split; [by eapply list_elem_of_lookup_2|]. by rewrite Es, Eo.
Qed.

Lemma map_set_nonempty m k v : map_set m k v ≠ [].
Proof. destruct m as [|[k' v'] m]; cbn; [done|]. by case_bool_decide. Qed.

Lemma unique_by_hold_id_nil hs : unique_by_hold_id hs = [] → hs = [].
Proof.
  unfold unique_by_hold_id. destruct hs as [|h hs]; [done|]. intros E%map_eq_nil. exfalso.
  assert (∀ m, m ≠ [] → foldl (λ m h, map_set m (mh_holdId h) h) m hs ≠ []) as Hne.
  { clear. induction hs as [|h hs IH]; intros m Hm; cbn; [done|]. apply IH, map_set_nonempty. }
  eapply Hne; [|exact E]. apply map_set_nonempty.
Qed.

Lemma conflicting_elem l rsid scopes h :
  h ∈ conflictingMutationHolds l rsid scopes ↔
  h ∈ l ∧ isUncleared h = true ∧ mh_rsid h = rsid ∧
  ∃ s, s ∈ scopes ∧ mutationScopesConflict (mh_mutationScope h) s = true.
Proof.
  unfold conflictingMutationHolds. rewrite sort_by_elem, elem_of_filter_bool, !andb_true_iff, existsb_true,
    bool_decide_eq_true. naive_solver.
Qed.

Lemma length_zero {A} (xs : list A) : (length xs =? 0)%nat = true ↔ xs = [].
Proof. destruct xs; cbn; naive_solver. Qed.

Lemma install_cases l rsid unc r :
  installMutationHolds l rsid unc = Ok r →
  ∃ cs, candidateHolds rsid unc = Ok cs ∧
  match r with
  | holds_installed l' holds =>
      holds = cs ∧ l' = sort_by holdId_leb (l ++ cs) ∧
      ∀ c, c ∈ cs → conflictingMutationHolds l rsid [mh_mutationScope c] = []
  | holds_already_present l' holds =>
      l' = l ∧ Forall (λ c, ∃ h, h ∈ l ∧ isUncleared h = true ∧ mh_holdId h = mh_holdId c ∧
                               mh_scopeKey h = mh_scopeKey c) cs
  | install_blocked l' conflicts => l' = l ∧ conflicts ≠ []
  end.
Proof.
  unfold installMutationHolds. intros Hr. apply bind_ok in Hr as (cs & Hcs & Hr). exists cs. split; [done|].
  destruct (forallb _ _) eqn:Eall in Hr.
  { injection Hr as <-. split; [done|]. apply Forall_forall. intros c Hc. rewrite forallb_true in Eall.
    specialize (Eall _ (list_elem_of_fmap_2 _ _ _ Hc)). apply negb_true_iff, is_null_false in Eall as [h Hh].
    apply find_first_some in Hh as [Hin Hh]. bsimp. eauto. }
  destruct (negb _) eqn:Elen in Hr; injection Hr as <-; bsimp.
  - split; [done|]. intros E. rewrite E in Elen. done.
  - apply length_zero, unique_by_hold_id_nil in Elen. split; [done|]. split; [done|]. intros c Hc.
    destruct (conflictingMutationHolds l rsid [mh_mutationScope c]) as [|h hs] eqn:E; [done|].
    assert (h ∈ flat_map (λ c, conflictingMutationHolds l rsid [mh_mutationScope c]) cs) as Hin.
    { apply list_elem_of_In, in_flat_map. exists c. rewrite E. split; [by apply list_elem_of_In|by left]. }
    rewrite Elen in Hin. by inversion Hin.
Qed.

Definition install_ledger (r : InstallMutationHoldsResult) : MutationHoldLedger :=
  match r with holds_installed l _ | holds_already_present l _ | install_blocked l _ => l end.

(** Installing puts no hold in the way of an uncleared one. *)
Lemma installed_unopposed l rsid cs :
  Forall (λ c, hold_ok c ∧ mh_rsid c = rsid ∧ mh_state c = hold_active) cs →
  (∀ c, c ∈ cs → conflictingMutationHolds l rsid [mh_mutationScope c] = []) →
  ∀ h c, h ∈ l → c ∈ cs → isUncleared h = true → mh_rsid h = mh_rsid c →
    mutationScopesConflict (mh_mutationScope h) (mh_mutationScope c) = true → False.
Proof.
  rewrite Forall_forall. intros Hok Hfree h c Hh Hc Hu Hrs Hconf. specialize (Hfree c Hc).
  assert (h ∈ conflictingMutationHolds l rsid [mh_mutationScope c]) as Hin.
  { apply conflicting_elem. destruct (Hok c Hc) as (_ & E & _). repeat split; try done; [congruence|].
    exists (mh_mutationScope c). split; [by left|done]. }
  rewrite Hfree in Hin. by inversion Hin.
Qed.

(** An id is installed a second time only after its hold was cleared. *)
Lemma installed_ids l cs :
  (∀ id, one_or_reinstalled (of_id id l)) → NoDup (map mh_mutationScope cs) →
  Forall (λ c, mh_state c = hold_active) cs → no_collision (l ++ cs) →
  (∀ h c, h ∈ l → c ∈ cs → isUncleared h = true → mh_rsid h = mh_rsid c →
     mutationScopesConflict (mh_mutationScope h) (mh_mutationScope c) = true → False) →
  ∀ id, one_or_reinstalled (of_id id (l ++ cs)).
Proof.
  intros Hids Hnd Hact Hnc Hno id. rewrite of_id_app. rewrite Forall_forall in Hact. specialize (Hids id).
  assert (∀ h c, h ∈ of_id id l → c ∈ cs → mh_holdId c = id → mh_state h = hold_cleared) as Hcleared.
  { intros h c [Hh Eh]%of_id_elem Hc Ec. destruct (Hnc h c) as [Er Es]; [by apply elem_of_app; left|by apply elem_of_app; right|congruence|].
    destruct (isUncleared h) eqn:U; [|unfold isUncleared in U; by bsimp].
    destruct (Hno h c Hh Hc U Er). rewrite Es. apply scopes_conflict_refl. }
  assert (NoDup (map mh_holdId cs)) as Hndi.
  { apply (nodup_map_finer mh_mutationScope); [|done]. intros x y Hx Hy E.
    destruct (Hnc x y) as [_ Es]; [apply elem_of_app; by right..|done|done]. }
  destruct (of_id_nodup id cs Hndi) as [-> | [c E]]; [by rewrite app_nil_r|]. rewrite E.
  assert (c ∈ cs ∧ mh_holdId c = id) as [Hc Ec] by (apply of_id_elem; rewrite E; by left).
  specialize (λ h Hh, Hcleared h c Hh Hc Ec).
  destruct (of_id id l) as [|old [|new [|? ?]]] eqn:El; try done.
  - cbn. split; [apply Hcleared; by left|by apply Hact].
  - destruct Hids as [_ Hnew]. rewrite Hcleared in Hnew; [done|by right; left].
Qed.

Lemma install_inv l rsid unc r :
  ledger_inv l → installMutationHolds l rsid unc = Ok r →
  no_collision (install_ledger r) → ledger_inv (install_ledger r).
Proof.
  intros Hl Hr Hnc. destruct (install_cases _ _ _ _ Hr) as (cs & Hcs & Hc).
  destruct r as [l' holds|l' holds|l' holds]; cbn in *; [|by destruct Hc as [-> _]..].
  destruct Hc as (-> & -> & Hfree). destruct (candidates_spec _ _ _ Hcs) as (Hok & Hdis & _).
  pose proof (installed_unopposed l rsid cs Hok Hfree) as Hno. destruct Hl as [J1 J2 J3 J4].
  constructor; [| | |by apply sort_by_sorted; [apply holdId_leb_total|apply holdId_leb_trans]].
  - rewrite sort_by_perm. apply Forall_app. split; [done|]. eapply Forall_impl; [exact Hok|]. by intros c [? _].
  - intros id. rewrite of_id_sort. revert id. apply installed_ids; [done|by eapply candidates_nodup| | |done].
    + eapply Forall_impl; [exact Hok|]. by intros c (_ & _ & ?).
    + intros h1 h2 H1 H2. apply Hnc; by rewrite sort_by_elem.
  - intros h1 h2 H1 H2 U1 U2 Hrs Hconf. rewrite sort_by_elem, elem_of_app in H1, H2.
    destruct H1 as [H1|H1], H2 as [H2|H2].
    + by apply J3.
    + by destruct (Hno h1 h2).
    + rewrite scopes_conflict_sym in Hconf. by destruct (Hno h2 h1).
    + by apply Hdis.
Qed.

(** ** Authorisation *)

(** The hold is resolved for this very dispatch and the clearance is the one for it. *)
Definition cleared_for (did : jstr) (h : MutationHold) (c : RecoveryClearance) : Prop :=
  hr_authorizedDispatchIdentity <$> mh_resolution h = Some did ∧ clearanceMatches h c = Ok true.

Lemma clearances_match_spec did hs cls :
  clearances_match did hs cls = Ok true → length cls = length hs → Forall2 (cleared_for did) hs cls.
Proof.
  revert cls. induction hs as [|h hs IH]; intros [|c cls] Hm Hlen; cbn in *; try done.
  destruct (negb _) eqn:E in Hm; [done|]. apply bind_ok in Hm as (m & Hc & Hm).
  destruct m; [|done]. cbn in Hm. bsimp. constructor; [done|]. apply IH; [done|lia].
Qed.

Definition clear_all (did : jstr) (ids : list jstr) (l : MutationHoldLedger) : MutationHoldLedger :=
  map (λ hold, if bool_decide (mh_holdId hold ∈ ids) then clear_hold did hold else hold) l.

(** The two ways to be allowed: nothing in the way, or everything in the way cleared now. *)
Lemma authorize_cases l input l' ids :
  authorizeMutationDispatch l input = Ok (mutation_allowed l' ids) →
  let cs := conflictingMutationHolds l (ai_rsid input) (ai_mutationScopes input) in
  let cls := ai_recoveryClearances input in
  unsorted_ids (map rc_hold_id cls) = false ∧ ai_mutationScopes input ≠ [] ∧ ai_dispatchIdentity input ≠ [] ∧
  is_ok (map_result mutationScopeKey (ai_mutationScopes input)) = true ∧
  ((cs = [] ∧ l' = l ∧ ∃ found, map_result (λ c, find_cleared input c l) cls = Ok (map Some found) ∧
      ids = map mh_holdId found) ∨
   (cs ≠ [] ∧ Forall (λ h, mh_state h = hold_resolved_pending_bridge) cs ∧
    Forall2 (cleared_for (ai_dispatchIdentity input)) cs cls ∧
    ids = unique (map mh_holdId cs) ∧ l' = clear_all (ai_dispatchIdentity input) ids l)).
Proof.
  unfold authorizeMutationDispatch. intros Ha. apply bind_ok in Ha as (? & Hreq & Ha).
  apply reject_if_ok in Hreq. apply bind_ok in Ha as (? & Hkeys & Ha). cbn zeta.
  destruct (unsorted_ids _) eqn:Es; [done|]. apply orb_false_iff in Hreq as [Hne1 Hne2].
  split; [done|]. split; [by intros E; rewrite E in Hne1|]. split; [by bsimp|].
  split; [by rewrite Hkeys|].
  destruct (length (conflictingMutationHolds l (ai_rsid input) (ai_mutationScopes input)) =? 0)%nat eqn:Ec.
  - left. apply length_zero in Ec. split; [done|].
    destruct (length (ai_recoveryClearances input) =? 0)%nat eqn:El.
    + injection Ha as <- <-. split; [done|]. apply length_zero in El. rewrite El. by exists [].
    + apply bind_ok in Ha as (dup & Hdup & Ha). destruct (forallb _ dup) eqn:Eall; [|done].
      injection Ha as <- <-. split; [done|]. rewrite Hdup. clear -Eall.
      induction dup as [|[h|] dup IH]; cbn in Eall; [by exists []| |done].
      destruct (IH Eall) as (found & E1 & E2). injection E1 as ->. exists (h :: found). cbn. by rewrite <- E2.
  - right. destruct (length (ai_recoveryClearances input) =? 0)%nat; [done|].
    destruct (negb _) eqn:El in Ha; [done|]. destruct (existsb _ _) eqn:Ee in Ha; [done|].
    apply bind_ok in Ha as (m & Hm & Ha). destruct m; [|done]. cbn [negb] in Ha. injection Ha as <- <-.
    split; [by intros E; rewrite E in Ec|]. split; [|split; [|done]].
    + apply Forall_forall. intros h Hh. rewrite existsb_false in Ee. specialize (Ee h Hh). by bsimp.
    + apply clearances_match_spec; [done|]. bsimp. by apply Nat.eqb_eq in El.
Qed.

(** Clearing exactly the conflicting holds leaves none. *)
Lemma clear_all_conflicts l did rsid scopes :
  let cs := conflictingMutationHolds l rsid scopes in
  conflictingMutationHolds (clear_all did (unique (map mh_holdId cs)) l) rsid scopes = [].
Proof.
  intros cs. destruct (conflictingMutationHolds (clear_all _ _ _) _ _) as [|x xs] eqn:E; [done|].
  assert (x ∈ conflictingMutationHolds (clear_all did (unique (map mh_holdId cs)) l) rsid scopes) as Hx
    by (rewrite E; by left).
  apply conflicting_elem in Hx as (Hin & Hu & Hrs & Hs).
  apply list_elem_of_fmap in Hin as (h & -> & Hh). case_bool_decide as Hid; [done|].
  destruct Hid. apply unique_elem, list_elem_of_fmap. exists h. split; [done|]. by apply conflicting_elem.
Qed.

(** A hold that is resolved and not yet cleared is alone. *)
Lemma resolved_alone l h : ledger_inv l → h ∈ l → mh_state h = hold_resolved_pending_bridge → alone l h.
Proof.
  intros Hl Hh Hst. unfold alone. pose proof (li_ids _ Hl (mh_holdId h)) as Hone.
  assert (h ∈ of_id (mh_holdId h) l) as Hx by (by apply of_id_elem).
  destruct (of_id (mh_holdId h) l) as [|old [|new [|? ?]]]; try done.
  - by apply not_elem_of_nil in Hx.
  - by apply list_elem_of_singleton in Hx as ->.
  - destruct Hone as [H1 H2]. apply elem_of_cons in Hx as [->|Hx%list_elem_of_singleton]; congruence.
Qed.

Lemma clear_all_inv l did cs :
  ledger_inv l → cs ⊆ l → Forall (λ h, mh_state h = hold_resolved_pending_bridge) cs →
  Forall (λ h, hr_authorizedDispatchIdentity <$> mh_resolution h = Some did) cs →
  ledger_inv (clear_all did (unique (map mh_holdId cs)) l).
Proof.
  intros Hl Hsub Hst Hres. pose proof (li_holds _ Hl) as Hok. rewrite Forall_forall in Hok, Hst, Hres.
  assert (∀ h, h ∈ l → mh_holdId h ∈ unique (map mh_holdId cs) → alone l h ∧ h ∈ cs) as Halone.
  { intros h Hh (h' & Eid & Hh')%unique_elem%list_elem_of_fmap.
    assert (alone l h') as Ha by (apply resolved_alone; auto).
    assert (h ∈ of_id (mh_holdId h') l) as Hx by (by apply of_id_elem). unfold alone in *. rewrite Ha in Hx.
    by apply list_elem_of_singleton in Hx as ->. }
  apply ledger_map; [done|..]; intros h Hh; case_bool_decide as Hid; [|split; [by apply Hok|done]|right; by apply Halone|by left].
  destruct (Halone h Hh Hid) as [_ Hcs]. destruct (Hok h Hh) as [K1 K2 K3 K4 K5]. rewrite (Hst h Hcs) in K5.
  split; [|by repeat split]. constructor; cbn; try done. rewrite (Hres h Hcs). by destruct K5 as [? _].
Qed.

Definition authorize_ledger (r : AuthorizeMutationResult) : MutationHoldLedger :=
  match r with mutation_allowed l _ | mutation_blocked l _ | authorize_fault l _ => l end.

Lemma conflicting_subset l rsid scopes : conflictingMutationHolds l rsid scopes ⊆ l.
Proof. intros h Hh. by apply conflicting_elem in Hh as [? _]. Qed.

Lemma cleared_for_resolved did cs cls :
  Forall2 (cleared_for did) cs cls →
  Forall (λ h, hr_authorizedDispatchIdentity <$> mh_resolution h = Some did) cs.
Proof. induction 1 as [|h c hs cls [? _] _ IH]; constructor; done. Qed.

Lemma refused_unchanged l input r :
  authorizeMutationDispatch l input = Ok r →
  (∃ l' ids, r = mutation_allowed l' ids) ∨ authorize_ledger r = l.
Proof.
  destruct r as [l' ids|l' cs|l' reason]; [eauto| |]; intros Ha; right; cbn;
    unfold authorizeMutationDispatch in Ha;
    apply bind_ok in Ha as (? & _ & Ha); apply bind_ok in Ha as (? & _ & Ha);
    repeat first
      [ match type of Ha with (if ?b then _ else _) = _ => destruct b; try (by injection Ha) end
      | apply bind_ok in Ha as (? & _ & Ha) ].
Qed.

Lemma authorize_inv l input r :
  ledger_inv l → authorizeMutationDispatch l input = Ok r → ledger_inv (authorize_ledger r).
Proof.
  intros Hl Ha. destruct (refused_unchanged _ _ _ Ha) as [(l' & ids & ->)|E]; [|by rewrite E].
  apply authorize_cases in Ha as (_ & _ & _ & _ & [(_ & -> & _)|(_ & Hst & Hm & -> & ->)]); [done|]. cbn.
  apply clear_all_inv; [done|apply conflicting_subset|done|by eapply cleared_for_resolved].
Qed.

(** ** Histories of a ledger *)

Inductive ledger_step (l : MutationHoldLedger) : MutationHoldLedger → Prop :=
| ls_install rsid unc r : installMutationHolds l rsid unc = Ok r → ledger_step l (install_ledger r)
| ls_verification input r :
    recordVerificationEvidence l input = Ok r → ledger_step l (evidence_ledger r)
| ls_late input r :
    recordLateTerminalEvidence l input = Ok r → ledger_step l (evidence_ledger r)
| ls_resolve input r : resolveMutationHold l input = Ok r → ledger_step l (resolve_ledger r)
| ls_authorize input r :
    authorizeMutationDispatch l input = Ok r → ledger_step l (authorize_ledger r).

(** The ledgers of a history, the newest first. *)
Inductive ledger_run : list MutationHoldLedger → Prop :=
| lr_create : ledger_run [createMutationHoldLedger]
| lr_step l l' ls : ledger_run (l :: ls) → ledger_step l l' → ledger_run (l' :: l :: ls).

Lemma ledger_step_inv l l' :
  ledger_inv l → no_collision l → no_collision l' → ledger_step l l' → ledger_inv l'.
Proof.
  intros Hl Hnc Hnc' Hst. destruct Hst as [rsid unc r Hr|input r Hr|input r Hr|input r Hr|input r Hr].
  - by eapply install_inv.
  - apply verification_cases in Hr as [[? ->]|(h & e & Hf & Ht & He & _ & _ & _ & ->)]; [done|]. by eapply found_evidence_inv.
  - apply late_cases in Hr as [[? ->]|(h & e & Hf & Ht & He & _ & _ & _ & ->)]; [done|]. by eapply found_evidence_inv.
  - by eapply resolve_inv.
  - by eapply authorize_inv.
Qed.

Lemma ledger_run_inv ls : ledger_run ls → Forall no_collision ls → Forall ledger_inv ls.
Proof.
  induction 1 as [|l l' ls _ IH Hst]; intros Hnc.
  - constructor; [|constructor]. constructor; try constructor. intros ?? Hx. by inversion Hx.
  - apply Forall_cons in Hnc as [Hnc' Hnc]. pose proof (IH Hnc) as Hinv. constructor; [|done].
    apply Forall_cons in Hnc as [Hnc _], Hinv as [Hl _]. by eapply ledger_step_inv.
Qed.

(** ** Replaying and reusing clearances *)

Lemma clearance_names_hold h c : clearanceMatches h c = Ok true → rc_hold_id c = mh_holdId h.
Proof.
  unfold clearanceMatches. destruct (mh_resolution h); [|done]. destruct (negb _); [done|].
  destruct (negb (bool_decide _)) eqn:E; [done|]. by bsimp.
Qed.

(** What [find_cleared] looks for. *)
Definition consumed_by (input : AuthorizeInput) (h : MutationHold) : Prop :=
  mh_state h = hold_cleared ∧ mh_rsid h = ai_rsid input ∧ mh_clearedBy h = Some (ai_dispatchIdentity input) ∧
  existsb (λ s, mutationScopesConflict (mh_mutationScope h) s) (ai_mutationScopes input) = true.

Lemma find_cleared_some input c l h :
  find_cleared input c l = Ok (Some h) → h ∈ l ∧ consumed_by input h ∧ clearanceMatches h c = Ok true.
Proof.
  induction l as [|x l IH]; cbn; [done|]. intros Hf. apply bind_ok in Hf as (m & Hm & Hf). destruct m.
  - injection Hf as ->. destruct (_ && _) eqn:E in Hm; [|done]. bsimp. split; [by left|]. by repeat split.
  - destruct (IH Hf) as (? & ? & ?). split; [by right|done].
Qed.

Lemma find_cleared_unique input c l h :
  NoDup (map mh_holdId l) → h ∈ l → consumed_by input h → clearanceMatches h c = Ok true →
  find_cleared input c l = Ok (Some h).
Proof.
  intros Hnd Hin (E1 & E2 & E3 & E4) Hm. pose proof (clearance_names_hold _ _ Hm) as Hid.
  induction l as [|x l IH]; [by inversion Hin|]. cbn in Hnd |- *. inversion_clear Hnd as [|?? Hx Hl].
  apply elem_of_cons in Hin as [-> | Hin].
  - rewrite E4, E3, E2, E1, !bool_decide_true by done. cbn. rewrite Hm. done.
  - rewrite (bool_decide_false (mh_holdId x = _)); [|intros E; apply Hx, list_elem_of_fmap; exists h; split; congruence].
    rewrite andb_false_r. cbn. by apply IH.
Qed.

Lemma find_cleared_none input c l :
  (∀ h, h ∈ l → mh_holdId h = rc_hold_id c → mh_clearedBy h ≠ Some (ai_dispatchIdentity input)) →
  find_cleared input c l = Ok None.
Proof.
  intros Hno. induction l as [|x l IH]; cbn; [done|].
  destruct (bool_decide (mh_holdId x = rc_hold_id c)) eqn:Ei; bsimp.
  - rewrite (bool_decide_false (mh_clearedBy x = _)) by (apply Hno; [by left|done]).
    rewrite andb_false_r. cbn. apply IH. intros h Hh. apply Hno. by right.
  - rewrite andb_false_r. cbn. apply IH. intros h Hh. apply Hno. by right.
Qed.

Definition with_identity (input : AuthorizeInput) (did : jstr) : AuthorizeInput := {|
  ai_rsid := ai_rsid input; ai_mutationScopes := ai_mutationScopes input;
  ai_recoveryClearances := ai_recoveryClearances input; ai_dispatchIdentity := did |}.

(** Every clearance was consumed for this dispatch by a hold of the ledger. *)
Definition consumed (l : MutationHoldLedger) (input : AuthorizeInput) (ids : list jstr) : Prop :=
  conflictingMutationHolds l (ai_rsid input) (ai_mutationScopes input) = [] ∧
  ids = map rc_hold_id (ai_recoveryClearances input) ∧
  Forall (λ c, ∃ h, h ∈ l ∧ consumed_by input h ∧ clearanceMatches h c = Ok true) (ai_recoveryClearances input).

Lemma conflicting_nodup l rsid scopes :
  NoDup (map mh_holdId l) → NoDup (map mh_holdId (conflictingMutationHolds l rsid scopes)).
Proof.
  intros Hnd. unfold conflictingMutationHolds. rewrite sort_by_perm. by apply filter_nodup_map.
Qed.

Lemma unique_id {A} `{EqDecision A} (xs : list A) : NoDup xs → unique xs = xs.
Proof. intros Hnd. apply unique_from_id; [done|]. intros x _ Hx. by inversion Hx. Qed.

Lemma clear_all_ids did ids l : map mh_holdId (clear_all did ids l) = map mh_holdId l.
Proof. unfold clear_all. rewrite map_map. apply map_ext. intros h. by destruct (bool_decide _). Qed.

Lemma allowed_consumed l input l' ids :
  NoDup (map mh_holdId l) → authorizeMutationDispatch l input = Ok (mutation_allowed l' ids) →
  NoDup (map mh_holdId l') ∧ consumed l' input ids.
Proof.
  intros Hl Ha. apply authorize_cases in Ha as (_ & _ & _ & _ & [(Hcs & -> & found & Hf & ->)|(Hcs & Hst & Hm & -> & ->)]); (split; [by rewrite ?clear_all_ids|]).
  - split; [done|]. apply map_result_ok in Hf. clear -Hf. split.
    + remember (map Some found) as fs. revert found Heqfs.
      induction Hf as [|c o cls fs Hc _ IH]; intros [|h found] E; try done.
      injection E as -> ->. cbn. rewrite <- (IH found eq_refl). f_equal.
      apply find_cleared_some in Hc as (_ & _ & Hm). by rewrite (clearance_names_hold _ _ Hm).
    + remember (map Some found) as fs. revert found Heqfs.
      induction Hf as [|c o cls fs Hc _ IH]; intros [|h found] E; try done.
      injection E as -> ->. constructor; [|by eapply IH]. apply find_cleared_some in Hc. eauto.
  - set (cs := conflictingMutationHolds l (ai_rsid input) (ai_mutationScopes input)) in *.
    split; [apply clear_all_conflicts|]. split.
    + rewrite unique_id by by apply conflicting_nodup. clear -Hm.
      induction Hm as [|h c cs cls [_ Hc] _ IH]; cbn; [done|]. by rewrite IH, (clearance_names_hold _ _ Hc).
    + apply Forall_forall. intros c Hc. apply list_elem_of_lookup in Hc as [i Hi].
      destruct (Forall2_lookup_r _ _ _ _ _ Hm Hi) as (h & Hh & [_ Hmatch]).
      apply list_elem_of_lookup_2 in Hh. apply conflicting_elem in Hh as Hconf.
      destruct Hconf as (Hin & _ & Hrs & s & Hs & Hconf).
      exists (clear_hold (ai_dispatchIdentity input) h). split; [|split; [|done]].
      * apply list_elem_of_fmap. exists h. split; [|done]. rewrite bool_decide_true; [done|].
        apply unique_elem, list_elem_of_fmap. eauto.
      * repeat split; [done|]. apply existsb_true. eauto.
Qed.

(** Presenting consumed clearances again. *)
Lemma consumed_again l input ids :
  NoDup (map mh_holdId l) → consumed l input ids →
  is_ok (map_result mutationScopeKey (ai_mutationScopes input)) = true →
  ai_mutationScopes input ≠ [] → unsorted_ids (map rc_hold_id (ai_recoveryClearances input)) = false →
  (ai_dispatchIdentity input ≠ [] → authorizeMutationDispatch l input = Ok (mutation_allowed l ids)) ∧
  ∀ did, did ≠ [] → did ≠ ai_dispatchIdentity input → ai_recoveryClearances input ≠ [] →
    authorizeMutationDispatch l (with_identity input did) = Ok (authorize_fault l foreign_clearance).
Proof.
  intros Hnd (Hcs & -> & Hall) Hk Hne Hs. destruct (map_result mutationScopeKey _) as [ks|] eqn:Eks in Hk; [|done].
  assert ((length (ai_mutationScopes input) =? 0)%nat = false) as Hlen by by destruct (ai_mutationScopes input).
  split.
  - intros Hdid. unfold authorizeMutationDispatch. rewrite Hlen, Eks, bool_decide_false by done. cbn -[map_result].
    rewrite Hs, Hcs. cbn -[map_result]. destruct (ai_recoveryClearances input) as [|c0 cls0] eqn:Ec; [done|].
    rewrite <- Ec in *. replace (length (ai_recoveryClearances input) =? 0)%nat with false by by rewrite Ec.
    assert (∃ found, map_result (λ c, find_cleared input c l) (ai_recoveryClearances input) = Ok (map Some found) ∧
              map mh_holdId found = map rc_hold_id (ai_recoveryClearances input)) as (found & Hf & Hids).
    { clear -Hall Hnd. induction Hall as [|c cls (h & Hin & Hc & Hm) _ IH]; [by exists []|].
      destruct IH as (found & IH1 & IH2). exists (h :: found). cbn.
      rewrite (find_cleared_unique _ _ _ h) by done. cbn. rewrite IH1. cbn.
      split; [done|]. f_equal; [|done]. by rewrite (clearance_names_hold _ _ Hm). }
    rewrite Hf. cbn.
    assert (forallb (λ found : option MutationHold, negb (is_null found)) (map Some found) = true) as ->.
    { apply forallb_true. intros o Ho. by apply list_elem_of_fmap in Ho as (h & -> & _). }
    do 2 f_equal. rewrite <- Hids, map_map. done.
  - intros did Hd1 Hd2 Hc. unfold authorizeMutationDispatch. cbn -[map_result].
    rewrite Hlen, Eks, bool_decide_false by done. cbn -[map_result]. rewrite Hs, Hcs. cbn -[map_result].
    destruct (ai_recoveryClearances input) as [|c0 cls0] eqn:Ec; [done|]. rewrite <- Ec in *.
    replace (length (ai_recoveryClearances input) =? 0)%nat with false by by rewrite Ec.
    assert (map_result (λ c, find_cleared (with_identity input did) c l) (ai_recoveryClearances input) =
            Ok (map (λ _, None) (ai_recoveryClearances input))) as ->; [|by rewrite Ec].
    { clear -Hall Hnd Hd2. induction Hall as [|c cls (h & Hin & (_ & _ & Hby & _) & Hm) _ IH]; [done|]. cbn.
      rewrite find_cleared_none; [cbn; by rewrite IH|]. cbn. intros h' Hh' Hid Hby'.
      rewrite (clearance_names_hold _ _ Hm) in Hid.
      assert (h' = h) as -> by by eapply same_id. congruence. }
Qed.

(** ** Complete sets of clearances *)

Lemma clearance_exists h :
  hold_ok h → mh_state h = hold_resolved_pending_bridge →
  ∃ c, recoveryClearanceForHold h = Ok c ∧ rc_hold_id c = mh_holdId h ∧ clearanceMatches h c = Ok true.
Proof.
  intros [K1 K2 K3 K4 K5] Hst. rewrite Hst in K5. destruct K5 as [Hm _].
  unfold recoveryClearanceForHold, clearanceMatches. pose proof Hm as Hm'.
  unfold resolutionMatchesSelectedEvidence in Hm'.
  destruct (mh_resolution h) as [res|]; [|done]. destruct (mh_selectedEvidence h) as [e|]; [|done].
  rewrite Hst, Hm, bool_decide_true by done. cbn. eexists. split; [reflexivity|]. split; [done|]. cbn.
  bsimp. rewrite bool_decide_true by done. cbn. rewrite K1. cbn.
  rewrite !bool_decide_true by done. done.
Qed.

Lemma clearances_complete did cs :
  Forall (λ h, hold_ok h ∧ mh_state h = hold_resolved_pending_bridge ∧
    hr_authorizedDispatchIdentity <$> mh_resolution h = Some did) cs →
  ∃ cls, map_result recoveryClearanceForHold cs = Ok cls ∧ map rc_hold_id cls = map mh_holdId cs ∧
    clearances_match did cs cls = Ok true.
Proof.
  induction 1 as [|h cs (Hok & Hst & Hdid) _ IH]; [by exists []|].
  destruct IH as (cls & E1 & E2 & E3). destruct (clearance_exists h Hok Hst) as (c & Hc & Hid & Hm).
  exists (c :: cls). cbn. rewrite Hc, E1. cbn. split; [done|]. split; [congruence|].
  rewrite Hdid, bool_decide_true by done. cbn. by rewrite Hm.
Qed.

Lemma sorted_ids_ok hs :
  StronglySorted (λ a b, holdId_leb a b = true) hs → NoDup (map mh_holdId hs) →
  unsorted_ids (map mh_holdId hs) = false.
Proof.
  induction 1 as [|h hs Hs IH Hall]; [done|]. cbn. intros Hnd. inversion_clear Hnd as [|?? Hh Hl].
  destruct hs as [|h2 hs]; [done|]. apply orb_false_iff. split; [|by apply IH].
  inversion_clear Hall as [|?? H1 _]. unfold holdId_leb in H1. cbn in Hh.
  destruct (str_leb (mh_holdId h2) (mh_holdId h)) eqn:E; [|done]. destruct Hh.
  rewrite (str_leb_antisym _ _ H1 E). by left.
Qed.

(** ** A hold id that comes back *)

Lemma find_exact_installed l cs rsid k h :
  findExactHold l rsid k = Some h → findExactHold (sort_by holdId_leb (l ++ cs)) rsid k = Some h.
Proof.
  intros Hf. rewrite find_exact_of_id, of_id_sort, <- find_exact_of_id.
  unfold findExactHold, find_first in *. clear -Hf. induction l as [|x l IH]; cbn in *; [done|].
  destruct (_ && _); [done|]. by apply IH.
Qed.

Lemma cleared_takes_no_evidence l rsid id h :
  findExactHold l rsid id = Some h → mh_state h = hold_cleared →
  (∀ input r, ve_rsid input = rsid → ve_holdId input = id →
     recordVerificationEvidence l input = Ok r → ∃ reason, r = evidence_rejected l reason) ∧
  (∀ input r, le_rsid input = rsid → le_holdId input = id →
     recordLateTerminalEvidence l input = Ok r → ∃ reason, r = evidence_rejected l reason) ∧
  (∀ input r, ri_rsid input = rsid → ri_holdId input = id →
     resolveMutationHold l input = Ok r → ∃ reason, r = resolve_rejected l reason).
Proof.
  intros Hf Hst. assert (takes_no_evidence h = true) as Ht.
  { unfold takes_no_evidence. rewrite Hst. done. }
  split; [|split]; intros input r E1 E2 Hr; subst.
  - apply verification_cases in Hr as [?|(h' & e & Hf' & Ht' & _)]; [done|congruence].
  - apply late_cases in Hr as [?|(h' & e & Hf' & Ht' & _)]; [done|congruence].
  - apply resolve_cases in Hr as [?|(h' & res & Hf' & Hst' & _)]; [done|congruence].
Qed.

(** ** What the holds promise *)

(** C37: in every ledger of every history of the operations, each hold fits its
    state (selected evidence is conclusive and among the attempts, every attempt is
    attested by an intact journal record, a resolution repeats its evidence, a
    cleared hold names the dispatch it was resolved for), the ids are sorted, no
    two uncleared holds of a session have overlapping scopes, and an id has one
    hold, or two when it was installed again after its hold was cleared: then the
    cleared one comes first and the new one stays active. The hash is assumed not
    to give one id to holds of different sessions or scopes. *)
Theorem hold_ledger_invariant ls : ledger_run ls → Forall no_collision ls → Forall ledger_inv ls.
Proof. apply ledger_run_inv. Qed.

(** C3: a mutation is let through only past holds that are gone or cleared for it:
    every conflicting hold was resolved for exactly this dispatch and matched,
    in order, by one of its clearances, and no conflict remains afterwards. With
    a conflicting hold and no clearance the dispatch is blocked. *)
Theorem authorized_only_with_clearance l input :
  (∀ l' ids, authorizeMutationDispatch l input = Ok (mutation_allowed l' ids) →
     conflictingMutationHolds l' (ai_rsid input) (ai_mutationScopes input) = [] ∧
     let cs := conflictingMutationHolds l (ai_rsid input) (ai_mutationScopes input) in
     (cs = [] ∧ l' = l ∨
      Forall2 (λ h c, mh_state h = hold_resolved_pending_bridge ∧
                      cleared_for (ai_dispatchIdentity input) h c) cs (ai_recoveryClearances input))) ∧
  (ai_recoveryClearances input = [] →
   conflictingMutationHolds l (ai_rsid input) (ai_mutationScopes input) ≠ [] →
   ∀ r, authorizeMutationDispatch l input = Ok r →
     r = mutation_blocked l (conflictingMutationHolds l (ai_rsid input) (ai_mutationScopes input))).
Proof.
  split.
  - intros l' ids Ha. apply authorize_cases in Ha as (_ & _ & _ & _ & [(Hcs & -> & _)|(_ & Hst & Hm & -> & ->)]).
    + split; [done|]. left. done.
    + split; [apply clear_all_conflicts|]. right. clear -Hst Hm.
      induction Hm as [|h c hs cls Hc _ IH]; constructor; inversion_clear Hst; auto.
  - intros Hcl Hcs r Ha. unfold authorizeMutationDispatch in Ha. rewrite Hcl in Ha.
    apply bind_ok in Ha as (? & _ & Ha). apply bind_ok in Ha as (? & _ & Ha). cbn in Ha.
    destruct (length (conflictingMutationHolds _ _ _) =? 0)%nat eqn:E; [by apply length_zero in E|].
    by injection Ha as <-.
Qed.

(** Clearances are used once, in a ledger whose ids are distinct. After a dispatch was allowed, the same dispatch
    is allowed again without any effect (its redelivery is idempotent), and any
    other dispatch that presents the same clearances is refused as foreign. *)
Theorem clearance_used_once l input l' ids :
  NoDup (map mh_holdId l) → authorizeMutationDispatch l input = Ok (mutation_allowed l' ids) →
  authorizeMutationDispatch l' input = Ok (mutation_allowed l' ids) ∧
  ∀ did, did ≠ [] → did ≠ ai_dispatchIdentity input → ai_recoveryClearances input ≠ [] →
    authorizeMutationDispatch l' (with_identity input did) = Ok (authorize_fault l' foreign_clearance).
Proof.
  intros Hl Ha. destruct (allowed_consumed _ _ _ _ Hl Ha) as [Hl' Hc].
  apply authorize_cases in Ha as (Hs & Hne & Hid & Hk & _).
  destruct (consumed_again l' input ids Hl' Hc Hk Hne Hs) as [Hsame Hother]. auto.
Qed.

(** Recovery is possible. When every hold in the way of a dispatch is
    resolved for it, the clearances the code derives from those holds, in order,
    make the dispatch allowed and clear exactly those holds. *)
Theorem clearances_suffice l rsid scopes did :
  ledger_inv l → NoDup (map mh_holdId l) → scopes ≠ [] → did ≠ [] → is_ok (map_result mutationScopeKey scopes) = true →
  let cs := conflictingMutationHolds l rsid scopes in
  cs ≠ [] → Forall (λ h, mh_state h = hold_resolved_pending_bridge ∧
    hr_authorizedDispatchIdentity <$> mh_resolution h = Some did) cs →
  ∃ cls, map_result recoveryClearanceForHold cs = Ok cls ∧
    authorizeMutationDispatch l {| ai_rsid := rsid; ai_mutationScopes := scopes;
      ai_recoveryClearances := cls; ai_dispatchIdentity := did |} =
    Ok (mutation_allowed (clear_all did (map mh_holdId cs) l) (map mh_holdId cs)).
Proof.
  intros Hl Hids Hne Hdid Hk cs Hcs Hall.
  assert (NoDup (map mh_holdId cs)) as Hnd by by apply conflicting_nodup.
  destruct (clearances_complete did cs) as (cls & Hcls & Hcids & Hm).
  { apply Forall_forall. intros h Hh. rewrite Forall_forall in Hall. split; [|by apply Hall].
    pose proof (li_holds _ Hl) as Hok. rewrite Forall_forall in Hok. by apply Hok, (conflicting_subset _ _ _ _ Hh). }
  exists cls. split; [done|]. unfold authorizeMutationDispatch. cbn -[map_result].
  destruct (map_result mutationScopeKey scopes) eqn:Ek; [|done].
  replace (length scopes =? 0)%nat with false by by destruct scopes.
  rewrite bool_decide_false by done. cbn. fold cs.
  assert (length cls = length cs) as Hlen by by rewrite <- (length_map rc_hold_id), Hcids, length_map.
  rewrite Hcids, sorted_ids_ok; [|apply sort_by_sorted; [apply holdId_leb_total|apply holdId_leb_trans]|done].
  rewrite Hlen, Nat.eqb_refl. replace (length cs =? 0)%nat with false by by destruct cs. cbn.
  assert (existsb (λ hold, mh_state hold !== hold_resolved_pending_bridge) cs = false) as ->.
  { apply existsb_false. intros h Hh. rewrite Forall_forall in Hall. apply negb_false_iff, bool_decide_eq_true.
    by apply Hall. }
  rewrite Hm. cbn. by rewrite (unique_id _ Hnd).
Qed.

(** Installing holds for uncertain mutations blocks them: afterwards the
    scope of each of them meets an uncleared hold of the session that carries its
    origin key, while redelivery of the origin itself is exempt. *)
Theorem installed_holds_block l rsid unc l' holds :
  installMutationHolds l rsid unc = Ok (holds_installed l' holds) →
  Forall (λ u, scope_wire (um_mutationScope u)) unc →
  ∀ u, u ∈ unc →
    (∃ h, h ∈ conflictingMutationHolds l' rsid [um_mutationScope u] ∧ h ∈ holds ∧
          um_originIdempotencyKey u ∈ mh_originIdempotencyKeys h) ∧
    isOriginRedeliveryExempt l' rsid (um_originIdempotencyKey u) = true.
Proof.
  intros Hi Hw u Hu. apply install_cases in Hi as (cs & Hcs & -> & -> & _).
  destruct (candidates_spec _ _ _ Hcs) as (Hok & _ & Hcov). rewrite Forall_forall in Hok.
  destruct (Hcov Hw u Hu) as (c & Hc & Ho & Hconf). destruct (Hok c Hc) as (_ & Hrs & Hst).
  assert (c ∈ sort_by holdId_leb (l ++ cs)) as Hin by (apply sort_by_elem, elem_of_app; by right).
  assert (isUncleared c = true) as Hun by (unfold isUncleared; by rewrite Hst).
  split.
  - exists c. split; [|done]. apply conflicting_elem. repeat split; try done.
    exists (um_mutationScope u). split; [by left|done].
  - unfold isOriginRedeliveryExempt. apply existsb_true. exists c. split; [done|].
    by rewrite Hrs, Hun, !bool_decide_true.
Qed.

(** A hold disappears only through evidence. Every cleared hold of a
    reachable ledger has a conclusive attempt, attested by an intact journal
    record of its session, whose conclusion and digest are those of the
    resolution, and was cleared by the dispatch the resolution authorises. *)
Theorem cleared_hold_has_evidence l h :
  ledger_inv l → h ∈ l → mh_state h = hold_cleared →
  ∃ e res, e ∈ mh_evidenceAttempts h ∧ attested h e ∧ mh_resolution h = Some res ∧
    ea_conclusion e = conclusive_evidence (hr_decision res) ∧
    ea_evidenceDigest e = hr_evidenceDigest res ∧
    mh_clearedBy h = Some (hr_authorizedDispatchIdentity res).
Proof.
  intros Hl Hin Hst. pose proof (li_holds _ Hl) as Hall. rewrite Forall_forall in Hall.
  destruct (Hall h Hin) as [_ _ K3 K4 K5]. rewrite Hst in K5. destruct K5 as (Hm & _ & Hby).
  unfold resolutionMatchesSelectedEvidence in Hm.
  destruct (mh_resolution h) as [res|] eqn:Er; [|done]. destruct (mh_selectedEvidence h) as [e|] eqn:Ee; [|done].
  destruct (K4 e eq_refl) as [Hine _]. rewrite Forall_forall in K3. bsimp.
  exists e, res. repeat split; try done. by apply K3.
Qed.

(** A hold id determines the session, the scope and the ordered origin keys
    it was made for, when the hash does not collide on the two materials. *)
Theorem hold_id_identifies rsid1 s1 os1 rsid2 s2 os2 i :
  makeMutationHoldId rsid1 s1 os1 = Ok i → makeMutationHoldId rsid2 s2 os2 = Ok i →
  wire_value (hold_id_material rsid1 s1 os1) = true → wire_value (hold_id_material rsid2 s2 os2) = true →
  collision_free (hold_id_material rsid1 s1 os1) (hold_id_material rsid2 s2 os2) →
  rsid1 = rsid2 ∧ s1 = s2 ∧ os1 = os2.
Proof.
  intros H1 H2 Hw1 Hw2 Hcf.
  assert (makeJsonDigest (hold_id_material rsid1 s1 os1) = makeJsonDigest (hold_id_material rsid2 s2 os2)) as E.
  { unfold makeMutationHoldId in H1, H2.
    do 3 (apply bind_ok in H1 as (? & _ & H1); apply bind_ok in H2 as (? & _ & H2)).
    apply bind_ok in H1 as (t1 & E1 & H1). apply bind_ok in H2 as (t2 & E2 & H2).
    unfold makeJsonDigest. rewrite E1, E2. cbn. unfold digest_of. do 2 f_equal.
    apply (app_inv_head (js "vh:")). congruence. }
  apply makeJsonDigest_inj in E; [|done..].
  assert (∀ r s os, normalize (hold_id_material r s os) = hold_id_material r s os) as Hn.
  { intros r s os. unfold hold_id_material. cbn. rewrite map_map. by destruct s. }
  rewrite !Hn in E. apply (f_equal (λ v, match v with VObj _ ms => map snd ms | _ => [] end)) in E.
  cbn [map snd hold_id_material obj] in E. injection E as Es Eo ->. split; [done|]. split.
  - destruct s1, s2; try done. apply (f_equal (λ v, match v with VObj _ ms => map snd ms | _ => [] end)) in Es.
    cbn in Es. by injection Es as ->.
  - by apply map_VStr_inj.
Qed.

(** A hold id that comes back is stuck. Hold ids are derived from their
    origin keys, and [installMutationHolds] only looks for the id among uncleared
    holds; when a cleared hold of the session already has the id, the new hold is
    installed and blocks its scope, but [findExactHold] keeps finding the cleared
    one, so no evidence or resolution is ever accepted for it. *)
Theorem reinstalled_hold_is_stuck l rsid unc l' holds c h :
  installMutationHolds l rsid unc = Ok (holds_installed l' holds) → c ∈ holds →
  findExactHold l rsid (mh_holdId c) = Some h → mh_state h = hold_cleared →
  c ∈ conflictingMutationHolds l' rsid [mh_mutationScope c] ∧
  (∀ input r, ve_rsid input = rsid → ve_holdId input = mh_holdId c →
     recordVerificationEvidence l' input = Ok r → ∃ reason, r = evidence_rejected l' reason) ∧
  (∀ input r, le_rsid input = rsid → le_holdId input = mh_holdId c →
     recordLateTerminalEvidence l' input = Ok r → ∃ reason, r = evidence_rejected l' reason) ∧
  (∀ input r, ri_rsid input = rsid → ri_holdId input = mh_holdId c →
     resolveMutationHold l' input = Ok r → ∃ reason, r = resolve_rejected l' reason).
Proof.
  intros Hi Hc Hf Hst. apply install_cases in Hi as (cs & Hcs & -> & -> & _).
  destruct (candidates_spec _ _ _ Hcs) as (Hok & _ & _). rewrite Forall_forall in Hok.
  destruct (Hok c Hc) as (_ & Hrs & Hact). split.
  - apply conflicting_elem. split; [apply sort_by_elem, elem_of_app; by right|].
    split; [unfold isUncleared; by rewrite Hact|]. split; [done|].
    exists (mh_mutationScope c). split; [by left|apply scopes_conflict_refl].
  - eapply cleared_takes_no_evidence; [by eapply find_exact_installed|done].
Qed.

End facts.
(** ** Witnesses *)

Section witnesses.
Import Sha256 JournalFacts.

(** A mutation of [doc-1] is lost, a verification read proves it did not run, the
    hold is resolved for the dispatch [rs-a/inv-2] and that dispatch clears it. *)

Definition demo_scope : MutationScope := scope_document (js "doc-1").
Definition demo_uncertain : list UncertainMutation :=
  [{| um_originIdempotencyKey := js "rs-a/inv-1"; um_mutationScope := demo_scope |}].
Definition demo_digest : jstr :=
  js "sha256:0000000000000000000000000000000000000000000000000000000000000000".

Definition demo_install (l : MutationHoldLedger) : InstallMutationHoldsResult :=
  get (install_blocked l []) (installMutationHolds l (js "rs-a") demo_uncertain).
Definition demo_l1 : MutationHoldLedger := install_ledger (demo_install []).
Definition demo_hold_id : jstr := match demo_l1 with h :: _ => mh_holdId h | [] => [] end.

Definition demo_read : InvocationJournalBinding := {|
  jb_rsid := js "rs-a"; jb_invocationId := js "inv-v"; jb_method := js "inspect";
  jb_mutating := false; jb_mutationScope := None; jb_paramsDigest := js "sha256:00";
  jb_policy := {| pb_class := class_auto; pb_decision := decision_auto; pb_confirmation_id := None |};
  jb_verification := Some {| vf_hold_id := demo_hold_id; vf_mutation_scope := demo_scope;
                             vf_purpose := js "resolve_indeterminate" |};
  jb_recoveryClearances := None; jb_batchId := None; jb_batchIndex := None; jb_batchDigest := None |}.

Definition demo_record : InvocationJournalRecord :=
  get (blank demo_read) (r ← createReceivedJournalRecord demo_read; recordJournalTerminal r demo_outcome).

Definition demo_evidence : VerificationEvidenceInput := {|
  ve_rsid := js "rs-a"; ve_holdId := demo_hold_id; ve_mutationScope := demo_scope;
  ve_verificationInvocationId := js "inv-v"; ve_evidenceDigest := demo_digest;
  ve_conclusion := conclusive_evidence non_execution_proven; ve_journalRecord := demo_record |}.

Definition demo_evidence_result : RecordHoldEvidenceResult :=
  get (evidence_rejected [] foreign_hold) (recordVerificationEvidence demo_l1 demo_evidence).
Definition demo_l2 : MutationHoldLedger := evidence_ledger demo_evidence_result.

Definition demo_resolve : ResolveInput := {|
  ri_rsid := js "rs-a"; ri_holdId := demo_hold_id; ri_basis := verification_read;
  ri_verificationInvocationId := Some (js "inv-v"); ri_evidenceDigest := demo_digest;
  ri_decision := non_execution_proven; ri_resolutionId := js "res-1"; ri_auditId := js "audit-1";
  ri_authorizedDispatchIdentity := js "rs-a/inv-2" |}.

Definition demo_resolve_result : ResolveMutationHoldResult :=
  get (resolve_rejected [] resolve_foreign_hold) (resolveMutationHold demo_l2 demo_resolve).
Definition demo_l3 : MutationHoldLedger := resolve_ledger demo_resolve_result.

Definition demo_authorize : AuthorizeInput := {|
  ai_rsid := js "rs-a"; ai_mutationScopes := [demo_scope];
  ai_recoveryClearances := get [] (map_result recoveryClearanceForHold demo_l3);
  ai_dispatchIdentity := js "rs-a/inv-2" |}.

Definition demo_authorize_result : AuthorizeMutationResult :=
  get (authorize_fault [] foreign_clearance) (authorizeMutationDispatch demo_l3 demo_authorize).
Definition demo_l4 : MutationHoldLedger := authorize_ledger demo_authorize_result.

Lemma demo_run3 : ledger_run [demo_l3; demo_l2; demo_l1; createMutationHoldLedger].
Proof.
  apply lr_step; [apply lr_step; [apply lr_step; [apply lr_create|]|]|].
  - apply (ls_install _ (js "rs-a") demo_uncertain (demo_install [])). vm_compute. reflexivity.
  - apply (ls_verification _ demo_evidence demo_evidence_result). vm_compute. reflexivity.
  - apply (ls_resolve _ demo_resolve demo_resolve_result). vm_compute. reflexivity.
Qed.

Lemma demo_allowed :
  authorizeMutationDispatch demo_l3 demo_authorize = Ok (mutation_allowed demo_l4 [demo_hold_id]).
Proof. vm_compute. reflexivity. Qed.

(** The lost mutation is reported uncertain again after its hold was cleared. *)
Definition demo_reinstall : MutationHoldLedger := install_ledger (demo_install demo_l4).

Lemma demo_reinstalled :
  installMutationHolds demo_l4 (js "rs-a") demo_uncertain = Ok (holds_installed demo_reinstall demo_l1).
Proof. vm_compute. reflexivity. Qed.

Definition demo_history : list MutationHoldLedger :=
  [demo_reinstall; demo_l4; demo_l3; demo_l2; demo_l1; createMutationHoldLedger].

Lemma demo_run5 : ledger_run demo_history.
Proof.
  apply lr_step; [apply lr_step; [apply demo_run3|]|].
  - exact (ls_authorize _ demo_authorize _ demo_allowed).
  - exact (ls_install _ (js "rs-a") demo_uncertain _ demo_reinstalled).
Qed.

Lemma no_collision_check l :
  forallb (λ h1, forallb (λ h2, (mh_holdId h1 !== mh_holdId h2) ||
    (mh_rsid h1 === mh_rsid h2) && (mh_mutationScope h1 === mh_mutationScope h2)) l) l = true → no_collision l.
Proof.
  rewrite forallb_true. intros H h1 h2 H1 H2 E. specialize (H h1 H1). rewrite forallb_true in H. specialize (H h2 H2). bsimp.
  apply orb_true_iff in H as [H|H]; bsimp; done.
Qed.

Lemma demo_no_collision : Forall no_collision demo_history.
Proof.
  unfold demo_history. repeat apply Forall_cons_2; try (apply no_collision_check; vm_compute; reflexivity). constructor.
Qed.

Lemma demo_history_inv : Forall ledger_inv demo_history.
Proof. apply ledger_run_inv; [apply demo_run5|apply demo_no_collision]. Qed.

Lemma demo_inv3 : ledger_inv demo_l3.
Proof. apply (proj1 (Forall_forall _ _) demo_history_inv). right; right; by left. Qed.

Lemma demo_inv4 : ledger_inv demo_l4.
Proof. apply (proj1 (Forall_forall _ _) demo_history_inv). right; by left. Qed.

Lemma demo_ids : NoDup (map mh_holdId demo_l3).
Proof. eapply bool_decide_unpack. vm_compute. exact I. Qed.

(** The history ends with two holds of one id. *)
Lemma hold_ledger_invariant_witness :
  Forall ledger_inv demo_history ∧
  map mh_state (of_id demo_hold_id demo_reinstall) = [hold_cleared; hold_active].
Proof. split; [exact (hold_ledger_invariant _ demo_run5 demo_no_collision)|vm_compute; reflexivity]. Defined.

Lemma authorized_only_with_clearance_witness :
  conflictingMutationHolds demo_l4 (js "rs-a") [demo_scope] = [].
Proof. exact (proj1 (proj1 (authorized_only_with_clearance demo_l3 demo_authorize) _ _ demo_allowed)). Defined.

Lemma clearance_used_once_witness :
  authorizeMutationDispatch demo_l4 (with_identity demo_authorize (js "rs-a/inv-3")) =
  Ok (authorize_fault demo_l4 foreign_clearance).
Proof.
  apply (proj2 (clearance_used_once _ _ _ _ demo_ids demo_allowed));
    [discriminate|discriminate|vm_compute; discriminate].
Defined.

Lemma clearances_suffice_witness :
  ∃ cls, map_result recoveryClearanceForHold (conflictingMutationHolds demo_l3 (js "rs-a") [demo_scope]) = Ok cls.
Proof.
  destruct (clearances_suffice demo_l3 (js "rs-a") [demo_scope] (js "rs-a/inv-2") demo_inv3 demo_ids) as (cls & Hc & _).
  - discriminate.
  - discriminate.
  - vm_compute. reflexivity.
  - vm_compute. discriminate.
  - vm_compute. repeat constructor.
  - exists cls. exact Hc.
Defined.

Lemma demo_installed : installMutationHolds [] (js "rs-a") demo_uncertain = Ok (holds_installed demo_l1 demo_l1).
Proof. vm_compute. reflexivity. Qed.

Lemma installed_holds_block_witness :
  isOriginRedeliveryExempt demo_l1 (js "rs-a") (js "rs-a/inv-1") = true.
Proof.
  apply (installed_holds_block _ _ _ _ _ demo_installed) with
    (u := {| um_originIdempotencyKey := js "rs-a/inv-1"; um_mutationScope := demo_scope |}); [|by left].
  repeat constructor.
Defined.

Definition blank_hold : MutationHold := {|
  mh_rsid := []; mh_mutationScope := demo_scope; mh_scopeKey := []; mh_holdId := [];
  mh_originIdempotencyKeys := []; mh_state := hold_active; mh_evidenceAttempts := [];
  mh_selectedEvidence := None; mh_resolution := None; mh_clearedBy := None |}.
Definition demo_cleared : MutationHold := hd blank_hold demo_l4.

Lemma demo_l4_cleared : demo_l4 = [demo_cleared].
Proof. vm_compute. reflexivity. Qed.

Lemma cleared_hold_has_evidence_witness : ∃ e, e ∈ mh_evidenceAttempts demo_cleared ∧ attested demo_cleared e.
Proof.
  destruct (cleared_hold_has_evidence demo_l4 demo_cleared demo_inv4) as (e & res & He & Ha & _).
  - rewrite demo_l4_cleared. by left.
  - vm_compute. reflexivity.
  - by exists e.
Defined.

Lemma hold_id_identifies_witness :
  ∃ i, makeMutationHoldId (js "rs-a") demo_scope [js "rs-a/inv-1"] = Ok i ∧
       makeMutationHoldId (js "rs-a") scope_session [js "rs-a/inv-1"] ≠ Ok i.
Proof.
  exists demo_hold_id. split; [vm_compute; reflexivity|]. intros E.
  destruct (hold_id_identifies (js "rs-a") demo_scope [js "rs-a/inv-1"] (js "rs-a") scope_session
              [js "rs-a/inv-1"] demo_hold_id) as (_ & Hs & _); try (vm_compute; reflexivity); [exact E| |].
  - intros Hx. exfalso. vm_compute in Hx. discriminate Hx.
  - discriminate Hs.
Defined.

Lemma reinstalled_hold_is_stuck_witness :
  mh_state demo_cleared = hold_cleared ∧
  ∀ r, resolveMutationHold demo_reinstall demo_resolve = Ok r → ∃ reason, r = resolve_rejected demo_reinstall reason.
Proof.
  split; [vm_compute; reflexivity|]. intros r Hr.
  assert (∃ c, demo_l1 = [c] ∧ mh_holdId c = demo_hold_id) as (c & Ec & Hid)
    by (eexists; split; vm_compute; reflexivity).
  destruct (reinstalled_hold_is_stuck _ _ _ _ _ c demo_cleared demo_reinstalled) as (_ & _ & _ & Hres).
  - rewrite Ec. by left.
  - rewrite Hid. vm_compute. reflexivity.
  - vm_compute. reflexivity.
  - apply (Hres demo_resolve r); [reflexivity|by rewrite Hid|exact Hr].
Defined.

End witnesses.
End MutationHoldFacts.
