(* ===== verification/Base64.v ===== *)
(** Base64 as packages/protocol/src/streamAssembler.ts uses it on chunk data.

    [base64Pattern] and the round trip through Node's [Buffer] admit exactly the
    canonical encodings: padding is complete and the unused bits are zero. *)

From S2P Require Import Prelude JsString.

(** * The alphabet *)

Definition b64_char (v : Z) : Z :=
  if v <? 26 then 65 + v            (** A-Z *)
  else if v <? 52 then 71 + v       (** a-z *)
  else if v <? 62 then v - 4        (** 0-9 *)
  else if v =? 62 then 43           (** + *)
  else 47.                          (** / *)

(** The value of a character of [[A-Za-z0-9+/]]. *)
Definition b64_value (c : Z) : option Z :=
  if (65 <=? c) && (c <=? 90) then Some (c - 65)
  else if (97 <=? c) && (c <=? 122) then Some (c - 71)
  else if (48 <=? c) && (c <=? 57) then Some (c + 4)
  else if c =? 43 then Some 62
  else if c =? 47 then Some 63
  else None.

Definition is_b64 (c : Z) : bool := negb (is_null (b64_value c)).
Definition b64_val (c : Z) : Z := nullish (b64_value c) 0.

Definition pad : Z := 61.

(** [base64Pattern]: groups of four, the last one possibly padded. *)
Fixpoint base64Pattern (s : jstr) : bool :=
  match s with
  | [] => true
  | a :: b :: c :: d :: rest =>
      (is_b64 a && is_b64 b && is_b64 c && is_b64 d && base64Pattern rest) ||
      ((rest === []) && is_b64 a && is_b64 b && (d =? pad) && ((c =? pad) || is_b64 c))
  | _ => false
  end.

(** * [Buffer.prototype.toString("base64")] *)

Definition b64_group (x y z : Z) : Z := x * 65536 + y * 256 + z.

Fixpoint base64_encode (bytes : list Z) : jstr :=
  match bytes with
  | [] => []
  | [x] =>
      let n := b64_group x 0 0 in
      [b64_char (n / 262144); b64_char (n / 4096 mod 64); pad; pad]
  | [x; y] =>
      let n := b64_group x y 0 in
      [b64_char (n / 262144); b64_char (n / 4096 mod 64); b64_char (n / 64 mod 64); pad]
  | x :: y :: z :: rest =>
      let n := b64_group x y z in
      b64_char (n / 262144) :: b64_char (n / 4096 mod 64) :: b64_char (n / 64 mod 64) ::
      b64_char (n mod 64) :: base64_encode rest
  end.

(** * [Buffer.from(data, "base64")], on data that [base64Pattern] admits *)

Fixpoint base64_decode (s : jstr) : list Z :=
  match s with
  | a :: b :: c :: d :: rest =>
      let n := b64_val a * 262144 + b64_val b * 4096 + b64_val c * 64 + b64_val d in
      if c =? pad then [n / 65536]
      else if d =? pad then [n / 65536; n / 256 mod 256]
      else n / 65536 :: n / 256 mod 256 :: n mod 256 :: base64_decode rest
  | _ => []
  end.

Definition decodeCanonicalBase64 (data : jstr) : option (list Z) :=
  if (length data <? 4)%nat || negb (base64Pattern data) then None else
  let decoded := base64_decode data in
  if base64_encode decoded !== data then None else Some decoded.

(** * Facts *)

Definition is_byte (b : Z) : Prop := 0 <= b < 256.

Lemma b64_char_value v : 0 <= v < 64 → b64_value (b64_char v) = Some v ∧ b64_char v ≠ pad.
Proof.
  intros Hv. assert (∃ n : nat, v = Z.of_nat n ∧ (n < 64)%nat) as (n & -> & Hn) by (exists (Z.to_nat v); lia).
  clear Hv. do 64 (destruct n as [|n]; [by vm_compute|]). lia.
Qed.

Lemma b64_val_char v : 0 <= v < 64 → b64_val (b64_char v) = v.
Proof. intros Hv. unfold b64_val. by rewrite (proj1 (b64_char_value v Hv)). Qed.

Lemma is_b64_char v : 0 <= v < 64 → is_b64 (b64_char v) = true.
Proof. intros Hv. unfold is_b64. by rewrite (proj1 (b64_char_value v Hv)). Qed.

Lemma b64_char_eqb v : 0 <= v < 64 → (b64_char v =? pad) = false.
Proof. intros Hv. apply Z.eqb_neq. by apply b64_char_value. Qed.

Lemma b64_val_pad : b64_val pad = 0.
Proof. done. Qed.

Lemma sextets x y z :
  is_byte x → is_byte y → is_byte z →
  let n := b64_group x y z in
  (0 <= n / 262144 < 64) ∧ (0 <= n / 4096 mod 64 < 64) ∧ (0 <= n / 64 mod 64 < 64) ∧ (0 <= n mod 64 < 64) ∧
  n / 262144 * 262144 + n / 4096 mod 64 * 4096 + n / 64 mod 64 * 64 + n mod 64 = n.
Proof.
  unfold is_byte, b64_group. intros Hx Hy Hz. cbn zeta.
  repeat split; try (apply Z.mod_pos_bound; lia);
    Z.to_euclidean_division_equations; lia.
Qed.

Lemma octets x y z :
  is_byte x → is_byte y → is_byte z →
  let n := b64_group x y z in n / 65536 = x ∧ n / 256 mod 256 = y ∧ n mod 256 = z.
Proof.
  unfold is_byte, b64_group. intros Hx Hy Hz. cbn zeta.
  repeat split; Z.to_euclidean_division_equations; lia.
Qed.

Lemma list_ind3 {A} (P : list A → Prop) :
  P [] → (∀ x, P [x]) → (∀ x y, P [x; y]) →
  (∀ x y z rest, P rest → P (x :: y :: z :: rest)) → ∀ l, P l.
Proof.
  intros H0 H1 H2 H3. fix IH 1. intros [|x [|y [|z rest]]]; [done|done|done|]. apply H3, IH.
Qed.

(** Encoding yields what the pattern admits and decoding returns the bytes. *)
Lemma encode_decode bytes :
  Forall is_byte bytes →
  base64Pattern (base64_encode bytes) = true ∧ base64_decode (base64_encode bytes) = bytes.
Proof.
  induction bytes as [|x|x y|x y z rest IH] using list_ind3; intros Hb.
  - done.
  - rewrite Forall_singleton in Hb.
    destruct (sextets x 0 0) as (A & B & C & D & E); [done|split; lia..|].
    destruct (octets x 0 0) as (O1 & O2 & O3); [done|split; lia..|].
    set (n := b64_group x 0 0) in *. assert (n / 64 mod 64 = 0 ∧ n mod 64 = 0) as [Z1 Z2].
    { unfold n, b64_group, is_byte in *. split; Z.to_euclidean_division_equations; lia. }
    rewrite Z1, Z2 in E. cbn -[b64_group b64_char b64_val is_b64 Z.div Z.modulo Z.mul Z.add]. fold n.
    rewrite !is_b64_char, !b64_val_char by done. rewrite !b64_val_pad. cbn -[Z.div Z.modulo Z.mul Z.add].
    split; [by rewrite ?orb_true_r|]. f_equal. by rewrite E.
  - apply Forall_cons in Hb as [Hx Hb]. rewrite Forall_singleton in Hb.
    destruct (sextets x y 0) as (A & B & C & D & E); [done|done|split; lia|].
    destruct (octets x y 0) as (O1 & O2 & O3); [done|done|split; lia|].
    set (n := b64_group x y 0) in *. assert (n mod 64 = 0) as Z2.
    { unfold n, b64_group, is_byte in *. Z.to_euclidean_division_equations; lia. }
    rewrite Z2 in E. cbn -[b64_group b64_char b64_val is_b64 Z.div Z.modulo Z.mul Z.add]. fold n.
    rewrite !is_b64_char, !b64_val_char, b64_char_eqb by done. rewrite !b64_val_pad.
    cbn -[Z.div Z.modulo Z.mul Z.add]. split; [by rewrite ?orb_true_r|]. by rewrite E, O1, O2.
  - apply Forall_cons in Hb as [Hx Hb]. apply Forall_cons in Hb as [Hy Hb]. apply Forall_cons in Hb as [Hz Hb].
    destruct (IH Hb) as [IH1 IH2].
    destruct (sextets x y z) as (A & B & C & D & E); [done..|].
    destruct (octets x y z) as (O1 & O2 & O3); [done..|].
    set (n := b64_group x y z) in *.
    cbn -[b64_group b64_char b64_val is_b64 Z.div Z.modulo Z.mul Z.add]. fold n.
    rewrite !is_b64_char, !b64_val_char, !b64_char_eqb by done.
    rewrite IH1, IH2. split; [done|]. by rewrite E, O1, O2, O3.
Qed.

Lemma b64_val_range c : 0 <= b64_val c < 64.
Proof.
  unfold b64_val, b64_value. repeat (case_match; bsimp; cbn; try lia).
Qed.

Lemma decode_bytes s : Forall is_byte (base64_decode s).
Proof.
  revert s. fix IH 1. intros [|a [|b [|c [|d rest]]]]; try constructor.
  cbn -[Z.div Z.modulo Z.mul Z.add].
  pose proof (b64_val_range a). pose proof (b64_val_range b).
  pose proof (b64_val_range c). pose proof (b64_val_range d).
  set (n := b64_val a * 262144 + b64_val b * 4096 + b64_val c * 64 + b64_val d).
  assert (is_byte (n / 65536)) as B1.
  { unfold is_byte. subst n. split; [apply Z.div_pos; lia|apply Z.div_lt_upper_bound; lia]. }
  assert (is_byte (n / 256 mod 256)) as B2 by (unfold is_byte; apply Z.mod_pos_bound; lia).
  assert (is_byte (n mod 256)) as B3 by (unfold is_byte; apply Z.mod_pos_bound; lia).
  destruct (c =? pad); [|destruct (d =? pad)]; rewrite ?Forall_cons, ?Forall_nil; auto.
Qed.

Lemma encode_length bytes : bytes ≠ [] → (4 <= length (base64_encode bytes))%nat.
Proof. destruct bytes as [|x [|y [|z rest]]]; cbn; [done|lia..]. Qed.

(** Chunk data is accepted exactly when it is the encoding of at least one byte. *)
Lemma decodeCanonicalBase64_spec data bytes :
  decodeCanonicalBase64 data = Some bytes ↔
  Forall is_byte bytes ∧ bytes ≠ [] ∧ data = base64_encode bytes.
Proof.
  unfold decodeCanonicalBase64. split.
  - destruct (_ || _) eqn:E1; [done|]. case_bool_decide as E2; cbn; [|done]. intros [= <-]. bsimp.
    split; [apply decode_bytes|]. split; [|done]. intros E. rewrite E in E2. by destruct data.
  - intros (Hb & Hne & ->). destruct (encode_decode bytes Hb) as [Hp Hd].
    rewrite Hp, Hd, bool_decide_true by done.
    assert ((length (base64_encode bytes) <? 4)%nat = false) as ->.
    { apply Nat.ltb_ge. by apply encode_length. }
    done.
Qed.

(** Chunk data is accepted exactly when it is the canonical Base64 encoding
    of at least one byte, and decodes to those bytes: there is one encoding per
    content, so identities of chunks are identities of contents. *)
Theorem chunk_data_canonical data bytes :
  decodeCanonicalBase64 data = Some bytes ↔
  Forall is_byte bytes ∧ bytes ≠ [] ∧ data = base64_encode bytes.
Proof. apply decodeCanonicalBase64_spec. Qed.
