(* ===== verification/Stream.v ===== *)
(** Reassembly of chunked results and artifacts:
    packages/protocol/src/streamAssembler.ts.

    A result too large for one frame arrives as chunks of one or more streams.
    The assembler retains each stream's chunks in order within byte and artifact
    limits; the terminal manifest then completes every stream or names what is
    wrong. *)

From S2P Require Import Prelude JsString JsValue Canonical Sha256 Base64.

Module Stream.
Import Canonical.

Definition RBP_MAX_DECODED_CHUNK_BYTES : Z := 1048576.
Definition RBP_MAX_RECONSTRUCTED_INVOCATION_BYTES : Z := 33554432.
Definition RBP_MAX_ARTIFACTS_PER_INVOCATION : Z := 16.

(** ** Data *)

Record RbpStreamChunk := {
  ck_invocation_id : jstr;
  ck_stream_id : jstr;
  ck_artifact_id : option jstr;
  ck_artifact_index : option jsnum;
  ck_chunk_index : jsnum;
  ck_encoding : jstr;
  ck_content_type : jstr;
  ck_data : jstr }.

Record RetainedStreamChunk := {
  rt_chunkIndex : Z;
  rt_identityDigest : jstr;
  rt_bytes : list Z }.

Record StreamAssembly := {
  sa_streamId : jstr;
  sa_contentType : jstr;
  sa_artifactId : option jstr;
  sa_artifactIndex : option jsnum;
  sa_chunks : list RetainedStreamChunk;
  sa_decodedBytes : Z }.

Record StreamLimits := { sl_maxChunkBytes : Z; sl_maxInvocationBytes : Z; sl_maxArtifacts : Z }.

Record StreamAssemblerState := {
  ss_invocationId : jstr;
  ss_streams : list StreamAssembly;
  ss_decodedBytes : Z;
  ss_limits : StreamLimits }.

Inductive ChunkFault :=
| wrong_invocation | invalid_chunk_index | invalid_base64 | chunk_too_large
| chunk_invocation_too_large | invalid_stream_identity | artifact_identity_collision
| too_many_artifacts | content_type_mismatch | chunk_duplicate_mismatch.

Inductive AppendStreamChunkResult :=
| chunk_appended (state : StreamAssemblerState)
| chunk_duplicate (state : StreamAssemblerState)
| chunk_gap (state : StreamAssemblerState) (streamId : jstr) (expectedChunkIndex receivedChunkIndex : Z)
| chunk_fault (state : StreamAssemblerState) (reason : ChunkFault)
| chunk_oversize (state : StreamAssemblerState) (reason : ChunkFault).

Record ArtifactReference := { ar_artifact_id : jstr; ar_artifact_index : jsnum }.

(** [ResultStreamDescriptor] or, with an artifact, [ArtifactDescriptor]. *)
Record ArtifactPart := { ap_artifact_id : jstr; ap_artifact_index : jsnum; ap_filename : jstr }.

Record StreamDescriptor := {
  sd_stream_id : jstr;
  sd_content_type : jstr;
  sd_total_chunks : jsnum;
  sd_total_size : jsnum;
  sd_sha256 : jstr }.

Inductive TerminalStreamManifest :=
| chunked_result (descriptor : StreamDescriptor)
| artifact_result (artifactReferences : list ArtifactReference)
    (descriptors : list (ArtifactPart * StreamDescriptor)).

Record CompletedStream := {
  cs_streamId : jstr;
  cs_contentType : jstr;
  cs_artifactId : option jstr;
  cs_artifactIndex : option jsnum;
  cs_totalChunks : Z;
  cs_totalSize : Z;
  cs_sha256 : jstr;
  cs_bytes : list Z }.

Inductive FinalizeReason :=
| missing_stream | unexpected_stream | descriptor_count | descriptor_order | descriptor_identity
| descriptor_filename | descriptor_content_type | descriptor_chunk_count | descriptor_size
| descriptor_digest | artifact_mapping | finalize_invocation_too_large.

Inductive FinalizeStreamsResult :=
| streams_complete (state : StreamAssemblerState) (streams : list CompletedStream)
| finalize_fault (state : StreamAssemblerState) (reason : FinalizeReason)
| finalize_incomplete (state : StreamAssemblerState) (reason : FinalizeReason)
| finalize_oversize (state : StreamAssemblerState) (reason : FinalizeReason).

(** ** Helpers *)

Definition isSafeNonNegativeInteger (value : jsnum) : bool := isSafeInteger value && num_geb value 0.

Definition byteLength (bytes : list Z) : Z := Z.of_nat (length bytes).

Definition chunk_material (chunk : RbpStreamChunk) : jsval :=
  obj [(js "artifact_id", opt_str (ck_artifact_id chunk));
       (js "artifact_index", match ck_artifact_index chunk with Some n => VNum n | None => VNull end);
       (js "chunk_index", VNum (ck_chunk_index chunk));
       (js "content_type", VStr (ck_content_type chunk));
       (js "data", VStr (ck_data chunk));
       (js "encoding", VStr (ck_encoding chunk));
       (js "invocation_id", VStr (ck_invocation_id chunk));
       (js "stream_id", VStr (ck_stream_id chunk))].

(** [None] is the [null] answer; [Some None] the result stream; [Some (Some (id, index))] an artifact. *)
Definition streamIdentity (chunk : RbpStreamChunk) : option (option (jstr * jsnum)) :=
  if ck_stream_id chunk === js "result" then
    if is_null (ck_artifact_id chunk) && is_null (ck_artifact_index chunk) then Some None else None
  else
  match ck_artifact_id chunk, ck_artifact_index chunk with
  | Some id, Some index =>
      if (ck_stream_id chunk !== js "artifact:" ++ id) || negb (isSafeNonNegativeInteger index)
      then None else Some (Some (id, index))
  | _, _ => None
  end.

Record RequestedLimits := {
  rl_maxChunkBytes : option jsnum; rl_maxInvocationBytes : option jsnum; rl_maxArtifacts : option jsnum }.

Definition positive_limit (n : jsnum) : bool := isSafeInteger n && num_geb n 1.

Definition createStreamAssembler (invocationId : jstr) (limits : RequestedLimits)
  : result js_error StreamAssemblerState :=
  reject_if (invocationId === []) TypeError "invocationId must not be empty" ;;
  let maxChunkBytes := nullish (rl_maxChunkBytes limits) (JInt RBP_MAX_DECODED_CHUNK_BYTES) in
  let maxInvocationBytes :=
    nullish (rl_maxInvocationBytes limits) (JInt RBP_MAX_RECONSTRUCTED_INVOCATION_BYTES) in
  let maxArtifacts := nullish (rl_maxArtifacts limits) (JInt RBP_MAX_ARTIFACTS_PER_INVOCATION) in
  reject_if (negb (positive_limit maxChunkBytes) || negb (positive_limit maxInvocationBytes) ||
             negb (positive_limit maxArtifacts)) RangeError
    "stream limits must be positive safe integers" ;;
  Ok {| ss_invocationId := invocationId; ss_streams := []; ss_decodedBytes := 0;
        ss_limits := {|
          sl_maxChunkBytes := Z.min (num_Z maxChunkBytes) RBP_MAX_DECODED_CHUNK_BYTES;
          sl_maxInvocationBytes :=
            Z.min (num_Z maxInvocationBytes) RBP_MAX_RECONSTRUCTED_INVOCATION_BYTES;
          sl_maxArtifacts := Z.min (num_Z maxArtifacts) RBP_MAX_ARTIFACTS_PER_INVOCATION |} |}.

(** [output.set(chunk.bytes, offset)] for each chunk, into a buffer of the total size. *)
Fixpoint set_chunks (output : list Z) (offset : nat) (chunks : list RetainedStreamChunk) : list Z :=
  match chunks with
  | [] => output
  | chunk :: chunks =>
      set_chunks (list_inserts offset (rt_bytes chunk) output) (offset + length (rt_bytes chunk)) chunks
  end.

Definition concatenateChunks (chunks : list RetainedStreamChunk) : list Z :=
  let total := foldl (λ sum chunk, (sum + length (rt_bytes chunk))%nat) 0%nat chunks in
  set_chunks (replicate total 0) 0 chunks.

(** ** Artifact file names *)

(** [filename.split(".", 1)[0]] *)
Fixpoint before_dot (s : jstr) : jstr :=
  match s with
  | [] => []
  | c :: s => if c =? 46 then [] else c :: before_dot s
  end.

(** [toUpperCase], on the characters whose upper case is an ASCII letter (the
    long s and the dotless i among them). The characters left alone have upper
    cases that contain none of the reserved names. *)
Definition upper_unit (c : Z) : Z :=
  if (97 <=? c) && (c <=? 122) then c - 32
  else if c =? 0x131 then 73
  else if c =? 0x17f then 83
  else c.

(** [/i] without [u] only folds ASCII letters. *)
Definition lower_ascii (c : Z) : Z := if (65 <=? c) && (c <=? 90) then c + 32 else c.

Fixpoint includes_dots (s : jstr) : bool :=
  match s with
  | 46 :: (46 :: _) as rest => true
  | _ :: rest => includes_dots rest
  | [] => false
  end.

Definition forbidden_unit (c : Z) : bool :=
  (c =? 92) || (c =? 47) || (c =? 58) || (c =? 60) || (c =? 62) || (c =? 34) || (c =? 124) ||
  (c =? 63) || (c =? 42) || ((0 <=? c) && (c <=? 0x1f)) || (c =? 0x7f).

(** [/^(?:CON|PRN|AUX|NUL|CLOCK\$|CONIN\$|CONOUT\$|COM[1-9]|LPT[1-9])$/] *)
Definition reserved_device (stem : jstr) : bool :=
  bool_decide (stem ∈ map js ["CON"; "PRN"; "AUX"; "NUL"; "CLOCK$"; "CONIN$"; "CONOUT$"]%string) ||
  match stem with
  | [a; b; c; d] =>
      (([a; b; c] === js "COM") || ([a; b; c] === js "LPT")) && (49 <=? d) && (d <=? 57)
  | _ => false
  end.

Definition validFilename (filename : jstr) : bool :=
  if (length filename <? 1)%nat || (255 <? length filename)%nat || (filename !== trim filename) ||
     starts_with (js ".") filename || includes_dots filename ||
     existsb forbidden_unit filename ||
     ends_with (js ".") filename || ends_with (js " ") filename
  then false else
  if reserved_device (map upper_unit (before_dot filename)) then false else
  let folded := map lower_ascii filename in
  negb (ends_with (js ".lnk") folded || ends_with (js ".url") folded || ends_with (js ".symlink") folded).

Section operations.
Context `{Hasher}.

Definition chunkIdentity (chunk : RbpStreamChunk) : result js_error jstr :=
  makeJsonDigest (chunk_material chunk).

Definition digestBytes (bytes : list Z) : jstr := js "sha256:" ++ sha256_hex bytes.

(** ** Appending a chunk *)

(** The stream with the new chunk, and the list with it in place. *)
Definition store_chunk (state : StreamAssemblerState) (chunk : RbpStreamChunk)
  (identity : option (jstr * jsnum)) (existing : option StreamAssembly) (retained : RetainedStreamChunk)
  : StreamAssemblerState :=
  let size := byteLength (rt_bytes retained) in
  let streams :=
    match existing with
    | None =>
        ss_streams state ++
          [{| sa_streamId := ck_stream_id chunk; sa_contentType := ck_content_type chunk;
              sa_artifactId := fst <$> identity; sa_artifactIndex := snd <$> identity;
              sa_chunks := [retained]; sa_decodedBytes := size |}]
    | Some s =>
        let updated := {| sa_streamId := sa_streamId s; sa_contentType := sa_contentType s;
                          sa_artifactId := sa_artifactId s; sa_artifactIndex := sa_artifactIndex s;
                          sa_chunks := sa_chunks s ++ [retained];
                          sa_decodedBytes := sa_decodedBytes s + size |} in
        map (λ stream, if sa_streamId stream === sa_streamId updated then updated else stream)
          (ss_streams state)
    end in
  {| ss_invocationId := ss_invocationId state; ss_streams := streams;
     ss_decodedBytes := ss_decodedBytes state + size; ss_limits := ss_limits state |}.

(** The part of [appendStreamChunk] after the position of the chunk is settled. *)
Definition append_checked (state : StreamAssemblerState) (chunk : RbpStreamChunk)
  (identity : option (jstr * jsnum)) (bytes : list Z) (existing : option StreamAssembly)
  : result js_error AppendStreamChunkResult :=
  let collision :=
    match identity with
    | None => false
    | Some (id, index) =>
        existsb (λ stream,
          negb (is_null (sa_artifactId stream)) &&
          ((sa_artifactId stream === Some id) || (sa_artifactIndex stream === Some index)) &&
          (sa_streamId stream !== ck_stream_id chunk)) (ss_streams state)
    end in
  if collision then Ok (chunk_fault state artifact_identity_collision) else
  let artifactCount :=
    Z.of_nat (length (List.filter (λ stream, negb (is_null (sa_artifactId stream))) (ss_streams state))) in
  if negb (is_null identity) && is_null existing && (sl_maxArtifacts (ss_limits state) <=? artifactCount)
  then Ok (chunk_fault state too_many_artifacts) else
  if sl_maxInvocationBytes (ss_limits state) <? ss_decodedBytes state + byteLength bytes
  then Ok (chunk_oversize state chunk_invocation_too_large) else
  digest ← chunkIdentity chunk;
  Ok (chunk_appended (store_chunk state chunk identity existing
        {| rt_chunkIndex := num_Z (ck_chunk_index chunk); rt_identityDigest := digest; rt_bytes := bytes |})).

Definition appendStreamChunk (state : StreamAssemblerState) (chunk : RbpStreamChunk)
  : result js_error AppendStreamChunkResult :=
  if ck_invocation_id chunk !== ss_invocationId state then Ok (chunk_fault state wrong_invocation) else
  if negb (isSafeNonNegativeInteger (ck_chunk_index chunk)) then Ok (chunk_fault state invalid_chunk_index) else
  match streamIdentity chunk with
  | None => Ok (chunk_fault state invalid_stream_identity)
  | Some identity =>
  match decodeCanonicalBase64 (ck_data chunk) with
  | None => Ok (chunk_fault state invalid_base64)
  | Some bytes =>
  if sl_maxChunkBytes (ss_limits state) <? byteLength bytes then Ok (chunk_oversize state chunk_too_large) else
  let index := num_Z (ck_chunk_index chunk) in
  match find_first (λ stream, sa_streamId stream === ck_stream_id chunk) (ss_streams state) with
  | Some existing =>
      let count := Z.of_nat (length (sa_chunks existing)) in
      if sa_contentType existing !== ck_content_type chunk
      then Ok (chunk_fault state content_type_mismatch) else
      if (sa_artifactId existing !== fst <$> identity) || (sa_artifactIndex existing !== snd <$> identity)
      then Ok (chunk_fault state artifact_identity_collision) else
      if index <? count then
        digest ← chunkIdentity chunk;
        Ok (if (rt_identityDigest <$> (sa_chunks existing !! Z.to_nat index)) === Some digest
            then chunk_duplicate state else chunk_fault state chunk_duplicate_mismatch)
      else
      if count <? index then Ok (chunk_gap state (ck_stream_id chunk) count index) else
      append_checked state chunk identity bytes (Some existing)
  | None =>
      if negb (index =? 0) then Ok (chunk_gap state (ck_stream_id chunk) 0 index) else
      append_checked state chunk identity bytes None
  end
  end
  end.

(** ** Completion *)

Definition completeStream (state : StreamAssemblerState) (artifact : option ArtifactPart)
  (descriptor : StreamDescriptor) : CompletedStream + FinalizeStreamsResult :=
  if negb (isSafeNonNegativeInteger (sd_total_chunks descriptor)) ||
     negb (isSafeNonNegativeInteger (sd_total_size descriptor)) ||
     negb (sha256_pattern (sd_sha256 descriptor))
  then inr (finalize_fault state descriptor_identity) else
  match find_first (λ candidate, sa_streamId candidate === sd_stream_id descriptor) (ss_streams state) with
  | None =>
      if (sd_total_chunks descriptor === JInt 0) && (sd_total_size descriptor === JInt 0) then
        if digestBytes [] !== sd_sha256 descriptor then inr (finalize_fault state descriptor_digest) else
        inl {| cs_streamId := sd_stream_id descriptor; cs_contentType := sd_content_type descriptor;
               cs_artifactId := ap_artifact_id <$> artifact;
               cs_artifactIndex := ap_artifact_index <$> artifact;
               cs_totalChunks := 0; cs_totalSize := 0; cs_sha256 := sd_sha256 descriptor; cs_bytes := [] |}
      else inr (finalize_incomplete state missing_stream)
  | Some stream =>
      if sa_contentType stream !== sd_content_type descriptor
      then inr (finalize_fault state descriptor_content_type) else
      if JInt (Z.of_nat (length (sa_chunks stream))) !== sd_total_chunks descriptor
      then inr (finalize_incomplete state descriptor_chunk_count) else
      if JInt (sa_decodedBytes stream) !== sd_total_size descriptor
      then inr (finalize_fault state descriptor_size) else
      let bytes := concatenateChunks (sa_chunks stream) in
      let sha256 := digestBytes bytes in
      if sha256 !== sd_sha256 descriptor then inr (finalize_fault state descriptor_digest) else
      inl {| cs_streamId := sa_streamId stream; cs_contentType := sa_contentType stream;
             cs_artifactId := sa_artifactId stream; cs_artifactIndex := sa_artifactIndex stream;
             cs_totalChunks := Z.of_nat (length (sa_chunks stream)); cs_totalSize := byteLength bytes;
             cs_sha256 := sha256; cs_bytes := bytes |}
  end.

(** The loop over the artifact descriptors, from position [index]. *)
Fixpoint complete_artifacts (state : StreamAssemblerState) (index : nat) (ids streamIds : list jstr)
  (completed : list CompletedStream) (descriptors : list (ArtifactPart * StreamDescriptor))
  : (list jstr * list CompletedStream) + FinalizeStreamsResult :=
  match descriptors with
  | [] => inl (streamIds, completed)
  | (artifact, descriptor) :: descriptors =>
      if ap_artifact_index artifact !== JInt (Z.of_nat index)
      then inr (finalize_fault state descriptor_order) else
      if (sd_stream_id descriptor !== js "artifact:" ++ ap_artifact_id artifact) ||
         bool_decide (ap_artifact_id artifact ∈ ids) || bool_decide (sd_stream_id descriptor ∈ streamIds)
      then inr (finalize_fault state descriptor_identity) else
      if negb (validFilename (ap_filename artifact)) then inr (finalize_fault state descriptor_filename) else
      match completeStream state (Some artifact) descriptor with
      | inr failure => inr failure
      | inl stream =>
          if (cs_artifactId stream !== Some (ap_artifact_id artifact)) ||
             (cs_artifactIndex stream !== Some (JInt (Z.of_nat index)))
          then inr (finalize_fault state descriptor_identity) else
          complete_artifacts state (S index) (ap_artifact_id artifact :: ids)
            (sd_stream_id descriptor :: streamIds) (completed ++ [stream]) descriptors
      end
  end.

Definition references_match (references : list ArtifactReference)
  (descriptors : list (ArtifactPart * StreamDescriptor)) : bool :=
  (length references =? length descriptors)%nat &&
  forallb (λ '(index, reference),
    (((ap_artifact_id ∘ fst) <$> (descriptors !! index)) === Some (ar_artifact_id reference)) &&
    (ar_artifact_index reference === JInt (Z.of_nat index)))
    (imap pair references).

Definition finalizeStreams (state : StreamAssemblerState) (manifest : TerminalStreamManifest)
  : FinalizeStreamsResult :=
  match manifest with
  | chunked_result descriptor =>
      if existsb (λ stream, sa_streamId stream !== js "result") (ss_streams state)
      then finalize_fault state unexpected_stream else
      match completeStream state None descriptor with
      | inr failure => failure
      | inl completed => streams_complete state [completed]
      end
  | artifact_result references descriptors =>
      if (length descriptors <? 1)%nat ||
         (sl_maxArtifacts (ss_limits state) <? Z.of_nat (length descriptors))
      then finalize_fault state descriptor_count else
      if existsb (λ stream, sa_streamId stream === js "result") (ss_streams state)
      then finalize_fault state unexpected_stream else
      match complete_artifacts state 0 [] [] [] descriptors with
      | inr failure => failure
      | inl (streamIds, completed) =>
          if existsb (λ stream, negb (bool_decide (sa_streamId stream ∈ streamIds))) (ss_streams state)
          then finalize_fault state unexpected_stream else
          if negb (references_match references descriptors)
          then finalize_fault state artifact_mapping else
          let totalBytes := foldl (λ sum stream, sum + cs_totalSize stream) 0 completed in
          if sl_maxInvocationBytes (ss_limits state) <? totalBytes
          then finalize_oversize state finalize_invocation_too_large
          else streams_complete state completed
      end
  end.

End operations.
End Stream.

Module StreamFacts.
Import Canonical CanonicalFacts Stream.

#[local] Arguments decodeCanonicalBase64 : simpl never.
#[local] Arguments chunkIdentity : simpl never.

Section facts.
Context `{Hasher}.

(** ** Concatenation *)

Lemma inserts_fill (pre k : list Z) n :
  list_inserts (length pre) k (pre ++ replicate (length k + n) 0) = pre ++ k ++ replicate n 0.
Proof.
  revert pre. induction k as [|x k IH]; intros pre; [done|]. cbn.
  assert (pre ++ 0 :: replicate (length k + n) 0 = (pre ++ [0]) ++ replicate (length k + n) 0) as ->
    by by rewrite <- app_assoc.
  assert (S (length pre) = length (pre ++ [0])) as -> by (rewrite length_app; cbn; lia).
  rewrite IH, <- app_assoc. rewrite <- (Nat.add_0_r (length pre)), insert_app_r. done.
Qed.

Definition chunk_bytes (chunks : list RetainedStreamChunk) : list Z := concat (map rt_bytes chunks).

#[local] Arguments chunk_bytes : simpl never.
#[local] Arguments byteLength : simpl never.

Lemma total_length chunks n :
  foldl (λ sum chunk, (sum + length (rt_bytes chunk))%nat) n chunks = (n + length (chunk_bytes chunks))%nat.
Proof.
  revert n. induction chunks as [|c cs IH]; intros n; cbn; [unfold chunk_bytes; cbn; lia|].
  rewrite IH. unfold chunk_bytes. cbn. rewrite length_app. lia.
Qed.

(** The buffer filled chunk by chunk is the concatenation. *)
Lemma concatenateChunks_eq chunks : concatenateChunks chunks = chunk_bytes chunks.
Proof.
  unfold concatenateChunks. rewrite total_length. cbn.
  assert (∀ pre, set_chunks (pre ++ replicate (length (chunk_bytes chunks)) 0) (length pre) chunks =
                 pre ++ chunk_bytes chunks) as Hgen; [|exact (Hgen [])].
  induction chunks as [|c cs IH]; intros pre; cbn; [done|]. unfold chunk_bytes. cbn.
  rewrite length_app, inserts_fill, app_assoc.
  replace (length pre + length (rt_bytes c))%nat with (length (pre ++ rt_bytes c)) by by rewrite length_app.
  rewrite IH. by rewrite <- app_assoc.
Qed.

(** ** Histories *)

Definition payload (c : RbpStreamChunk) : list Z := nullish (decodeCanonicalBase64 (ck_data c)) [].

(** What a history of accepted chunks holds of one stream. *)
Definition chunks_of (id : jstr) (hs : list RbpStreamChunk) : list RbpStreamChunk :=
  List.filter (λ c, ck_stream_id c === id) hs.

Definition retains (c : RbpStreamChunk) (r : RetainedStreamChunk) : Prop :=
  rt_bytes r = payload c ∧ chunkIdentity c = Ok (rt_identityDigest r) ∧ ck_chunk_index c = JInt (rt_chunkIndex r).

Record stream_ok (lim : StreamLimits) (hs : list RbpStreamChunk) (s : StreamAssembly) : Prop := {
  so_history : Forall2 retains (chunks_of (sa_streamId s) hs) (sa_chunks s);
  so_index : map rt_chunkIndex (sa_chunks s) = seqZ 0 (Z.of_nat (length (sa_chunks s)));
  so_size : sa_decodedBytes s = byteLength (chunk_bytes (sa_chunks s));
  so_chunks : Forall (λ r, byteLength (rt_bytes r) <= sl_maxChunkBytes lim) (sa_chunks s);
  so_artifact :
    (sa_streamId s = js "result" ∧ sa_artifactId s = None ∧ sa_artifactIndex s = None) ∨
    (∃ id ix, sa_artifactId s = Some id ∧ sa_artifactIndex s = Some ix ∧ sa_streamId s = js "artifact:" ++ id) }.

Definition is_artifact (s : StreamAssembly) : bool := negb (is_null (sa_artifactId s)).

Record assembler_inv (hs : list RbpStreamChunk) (st : StreamAssemblerState) : Prop := {
  av_limits : 1 <= sl_maxChunkBytes (ss_limits st) <= RBP_MAX_DECODED_CHUNK_BYTES ∧
              1 <= sl_maxInvocationBytes (ss_limits st) <= RBP_MAX_RECONSTRUCTED_INVOCATION_BYTES ∧
              1 <= sl_maxArtifacts (ss_limits st) <= RBP_MAX_ARTIFACTS_PER_INVOCATION;
  av_streams : Forall (stream_ok (ss_limits st) hs) (ss_streams st);
  av_ids : NoDup (map sa_streamId (ss_streams st));
  av_known : ∀ c, c ∈ hs → ck_stream_id c ∈ map sa_streamId (ss_streams st);
  av_total : ss_decodedBytes st = foldr Z.add 0 (map sa_decodedBytes (ss_streams st));
  av_bound : ss_decodedBytes st <= sl_maxInvocationBytes (ss_limits st);
  av_artifacts : Z.of_nat (length (List.filter is_artifact (ss_streams st))) <= sl_maxArtifacts (ss_limits st);
  av_indexes : ∀ s1 s2 ix, s1 ∈ ss_streams st → s2 ∈ ss_streams st →
    sa_artifactIndex s1 = Some ix → sa_artifactIndex s2 = Some ix → sa_streamId s1 = sa_streamId s2 }.

Inductive stream_run (invocation : jstr) (limits : RequestedLimits)
  : list RbpStreamChunk → StreamAssemblerState → Prop :=
| sr_create st : createStreamAssembler invocation limits = Ok st → stream_run invocation limits [] st
| sr_append hs st c st' :
    stream_run invocation limits hs st → appendStreamChunk st c = Ok (chunk_appended st') →
    stream_run invocation limits (hs ++ [c]) st'.

Lemma positive_limit_spec n : positive_limit n = true → 1 <= num_Z n.
Proof. unfold positive_limit. destruct n; cbn; try done. intros; bsimp. lia. Qed.

Lemma create_assembler_inv invocation limits st :
  createStreamAssembler invocation limits = Ok st → assembler_inv [] st.
Proof.
  unfold createStreamAssembler. intros Hc. apply bind_ok in Hc as (? & _ & Hc).
  apply bind_ok in Hc as (? & Hl & [= <-]). apply reject_if_ok in Hl. bsimp.
  repeat match goal with Hp : positive_limit _ = true |- _ => apply positive_limit_spec in Hp end.
  unfold RBP_MAX_DECODED_CHUNK_BYTES, RBP_MAX_RECONSTRUCTED_INVOCATION_BYTES, RBP_MAX_ARTIFACTS_PER_INVOCATION in *.
  constructor; cbn; try lia; try done.
  - unfold RBP_MAX_DECODED_CHUNK_BYTES, RBP_MAX_RECONSTRUCTED_INVOCATION_BYTES,
      RBP_MAX_ARTIFACTS_PER_INVOCATION. lia.
  - constructor.
  - intros ? Hx. by inversion Hx.
  - intros ??? Hx. by inversion Hx.
Qed.

(** What an accepted chunk passed, and what the state became. *)
Lemma append_cases st c st' :
  appendStreamChunk st c = Ok (chunk_appended st') →
  ∃ identity bytes digest,
    ck_invocation_id c = ss_invocationId st ∧ isSafeNonNegativeInteger (ck_chunk_index c) = true ∧
    streamIdentity c = Some identity ∧ decodeCanonicalBase64 (ck_data c) = Some bytes ∧
    byteLength bytes <= sl_maxChunkBytes (ss_limits st) ∧
    ss_decodedBytes st + byteLength bytes <= sl_maxInvocationBytes (ss_limits st) ∧
    chunkIdentity c = Ok digest ∧
    (∀ id ix, identity = Some (id, ix) → ∀ s, s ∈ ss_streams st → is_artifact s = true →
       sa_streamId s ≠ ck_stream_id c → sa_artifactId s ≠ Some id ∧ sa_artifactIndex s ≠ Some ix) ∧
    let existing := find_first (λ s, sa_streamId s === ck_stream_id c) (ss_streams st) in
    match existing with
    | Some s => sa_contentType s = ck_content_type c ∧ sa_artifactId s = fst <$> identity ∧
                sa_artifactIndex s = snd <$> identity ∧
                num_Z (ck_chunk_index c) = Z.of_nat (length (sa_chunks s))
    | None => num_Z (ck_chunk_index c) = 0 ∧
              (identity ≠ None → Z.of_nat (length (List.filter is_artifact (ss_streams st))) <
                                 sl_maxArtifacts (ss_limits st))
    end ∧
    st' = store_chunk st c identity existing
            {| rt_chunkIndex := num_Z (ck_chunk_index c); rt_identityDigest := digest; rt_bytes := bytes |}.
Proof.
  unfold appendStreamChunk. intros Ha. split_if; [done|]. split_if; [done|].
  destruct (streamIdentity c) as [identity|] eqn:Eid; [|done].
  destruct (decodeCanonicalBase64 (ck_data c)) as [bytes|] eqn:Eb; [|done].
  split_if; [done|]. bsimp. exists identity, bytes.
  assert (∀ existing, append_checked st c identity bytes existing = Ok (chunk_appended st') →
    ∃ digest, ss_decodedBytes st + byteLength bytes <= sl_maxInvocationBytes (ss_limits st) ∧
      chunkIdentity c = Ok digest ∧
      (∀ id ix, identity = Some (id, ix) → ∀ s, s ∈ ss_streams st → is_artifact s = true →
         sa_streamId s ≠ ck_stream_id c → sa_artifactId s ≠ Some id ∧ sa_artifactIndex s ≠ Some ix) ∧
      (existing = None → identity ≠ None → Z.of_nat (length (List.filter is_artifact (ss_streams st))) <
                                 sl_maxArtifacts (ss_limits st)) ∧
      st' = store_chunk st c identity existing
            {| rt_chunkIndex := num_Z (ck_chunk_index c); rt_identityDigest := digest; rt_bytes := bytes |}) as Hchk.
  { clear Ha. intros existing Ha. unfold append_checked in Ha. split_if; [done|]. split_if; [done|].
    split_if; [done|]. apply bind_ok in Ha as (digest & Hd & [= <-]). exists digest. bsimp.
    split; [done|]. split; [done|]. split; [|split; [|done]].
    - intros id ix -> s Hs Hart Hne. rewrite existsb_false in Hif2. specialize (Hif2 s Hs).
      change (negb (is_null (sa_artifactId s))) with (is_artifact s) in Hif2.
      rewrite Hart, (bool_decide_false (sa_streamId s = _)), andb_true_r in Hif2 by done. cbn in Hif2. by bsimp.
    - intros -> Hne. destruct identity; [|done]. cbn -[List.filter] in Hif3. bsimp. done. }
  destruct (find_first _ (ss_streams st)) as [s|] eqn:Ef.
  - split_if; [done|]. split_if; [done|]. split_if.
    { apply bind_ok in Ha as (? & _ & Ha). injection Ha as Ha. by case_bool_decide. }
    split_if; [done|]. bsimp. destruct (Hchk _ Ha) as (digest & J1 & J2 & J3 & J4 & J5).
    exists digest. repeat split; try done; try lia; try (by eapply J3).
  - split_if; [done|]. bsimp. destruct (Hchk _ Ha) as (digest & J1 & J2 & J3 & J4 & J5).
    exists digest. repeat split; try done; try (by eapply J3). auto.
Qed.

Lemma chunks_of_app id hs c :
  chunks_of id (hs ++ [c]) = chunks_of id hs ++ (if ck_stream_id c === id then [c] else []).
Proof. unfold chunks_of. rewrite List.filter_app. cbn. by case_bool_decide. Qed.

Lemma stream_ok_other lim hs c s :
  ck_stream_id c ≠ sa_streamId s → stream_ok lim hs s → stream_ok lim (hs ++ [c]) s.
Proof.
  intros Hne []. constructor; try done. by rewrite chunks_of_app, bool_decide_false, app_nil_r.
Qed.

Lemma find_stream_spec id l s :
  find_first (λ s, sa_streamId s === id) l = Some s → s ∈ l ∧ sa_streamId s = id.
Proof. intros Hf%find_first_some. destruct Hf. by bsimp. Qed.

(** Replacing the stream with the same id changes one place of the list. *)
Lemma update_split l s u :
  NoDup (map sa_streamId l) → s ∈ l → sa_streamId u = sa_streamId s →
  ∃ l1 l2, l = l1 ++ s :: l2 ∧ (∀ x, x ∈ l1 ++ l2 → sa_streamId x ≠ sa_streamId s) ∧
    map (λ x, if sa_streamId x === sa_streamId u then u else x) l = l1 ++ u :: l2.
Proof.
  intros Hnd Hin Hid. apply list_elem_of_split in Hin as (l1 & l2 & ->). exists l1, l2. split; [done|].
  rewrite map_app in Hnd. cbn in Hnd. apply NoDup_app in Hnd as (_ & Hd & Hnd).
  inversion_clear Hnd as [|?? Hs _].
  assert (∀ x, x ∈ l1 ++ l2 → sa_streamId x ≠ sa_streamId s) as Hne.
  { intros x Hx E. apply elem_of_app in Hx as [Hx|Hx].
    - apply (Hd (sa_streamId s)); [apply list_elem_of_fmap; eauto|by left].
    - apply Hs, list_elem_of_fmap. eauto. }
  split; [done|]. rewrite map_app. cbn. rewrite bool_decide_true by done.
  assert (∀ l', l' ⊆ l1 ++ l2 → map (λ x, if sa_streamId x === sa_streamId u then u else x) l' = l') as Hmap.
  { intros l' Hsub. rewrite <- (map_id l') at 2. apply map_ext_in. intros x Hx%list_elem_of_In.
    rewrite bool_decide_false; [done|]. rewrite Hid. by apply Hne, Hsub. }
  rewrite !Hmap; [done|set_solver|set_solver].
Qed.

Lemma sum_app (xs ys : list Z) : foldr Z.add 0 (xs ++ ys) = foldr Z.add 0 xs + foldr Z.add 0 ys.
Proof. induction xs as [|x xs IH]; cbn; [lia|]. rewrite IH. lia. Qed.

Lemma chunk_bytes_snoc cs r : chunk_bytes (cs ++ [r]) = chunk_bytes cs ++ rt_bytes r.
Proof. unfold chunk_bytes. rewrite map_app, concat_app. cbn. by rewrite app_nil_r. Qed.

Lemma byteLength_app xs ys : byteLength (xs ++ ys) = byteLength xs + byteLength ys.
Proof. unfold byteLength. rewrite length_app. lia. Qed.

(** The stream with one more chunk is in order. *)
Lemma grown_ok lim hs c s digest bytes :
  stream_ok lim hs s → sa_streamId s = ck_stream_id c → chunkIdentity c = Ok digest →
  payload c = bytes → ck_chunk_index c = JInt (Z.of_nat (length (sa_chunks s))) →
  byteLength bytes <= sl_maxChunkBytes lim →
  stream_ok lim (hs ++ [c]) {| sa_streamId := sa_streamId s; sa_contentType := sa_contentType s;
    sa_artifactId := sa_artifactId s; sa_artifactIndex := sa_artifactIndex s;
    sa_chunks := sa_chunks s ++ [{| rt_chunkIndex := Z.of_nat (length (sa_chunks s));
                                    rt_identityDigest := digest; rt_bytes := bytes |}];
    sa_decodedBytes := sa_decodedBytes s + byteLength bytes |}.
Proof.
  intros [J1 J2 J3 J4 J5] Hid Hdig Hpay Hix Hmax. constructor; cbn; try done.
  - rewrite chunks_of_app, bool_decide_true by done. apply Forall2_app; [done|]. by repeat constructor.
  - rewrite map_app, J2, length_app. cbn. rewrite Nat2Z.inj_add. cbn.
    by rewrite <- seqZ_snoc, Z.add_0_l by lia.
  - rewrite chunk_bytes_snoc, byteLength_app, J3. done.
  - apply Forall_app. split; [done|]. by constructor.
Qed.

Lemma safe_index n : isSafeNonNegativeInteger n = true → n = JInt (num_Z n) ∧ 0 <= num_Z n.
Proof.
  unfold isSafeNonNegativeInteger. destruct n; cbn; try done. intros; bsimp. split; [done|lia].
Qed.

Lemma identity_of_chunk c identity :
  streamIdentity c = Some identity →
  (ck_stream_id c = js "result" ∧ identity = None) ∨
  ∃ id ix, identity = Some (id, ix) ∧ ck_stream_id c = js "artifact:" ++ id.
Proof.
  unfold streamIdentity. intros Hi. destruct (bool_decide _) eqn:E; bsimp.
  - left. split; [done|]. by destruct (_ && _); simplify_eq.
  - right. destruct (ck_artifact_id c) as [id|], (ck_artifact_index c) as [ix|]; try done.
    destruct (_ || _) eqn:E2 in Hi; [done|]. bsimp. injection Hi as <-. eauto.
Qed.

(** What [append_cases] says of an accepted chunk, for the two lemmas below. *)
Definition fits (st : StreamAssemblerState) (c : RbpStreamChunk) (bytes : list Z) (digest : jstr) : Prop :=
  payload c = bytes ∧ chunkIdentity c = Ok digest ∧ ck_chunk_index c = JInt (num_Z (ck_chunk_index c)) ∧
  byteLength bytes <= sl_maxChunkBytes (ss_limits st) ∧
  ss_decodedBytes st + byteLength bytes <= sl_maxInvocationBytes (ss_limits st).

Lemma store_existing_inv hs st c identity bytes digest s :
  assembler_inv hs st → fits st c bytes digest → s ∈ ss_streams st → sa_streamId s = ck_stream_id c →
  num_Z (ck_chunk_index c) = Z.of_nat (length (sa_chunks s)) →
  assembler_inv (hs ++ [c]) (store_chunk st c identity (Some s)
    {| rt_chunkIndex := num_Z (ck_chunk_index c); rt_identityDigest := digest; rt_bytes := bytes |}).
Proof.
  intros [V1 V2 V3 V4 V5 V6 V7 V8] (Hpay & Hdig & Eix & Hmax & Htot) Hin Esid Elen.
  rewrite Forall_forall in V2. unfold store_chunk. cbn -[map].
  set (u := {| sa_streamId := sa_streamId s; sa_chunks := _ |}).
  destruct (update_split (ss_streams st) s u V3 Hin eq_refl) as (l1 & l2 & El & Hne & Emap).
  change (sa_streamId u) with (sa_streamId s) in Emap. rewrite Emap.
  assert (stream_ok (ss_limits st) (hs ++ [c]) u) as Hu.
  { unfold u. rewrite Elen. apply grown_ok; try done; [by apply V2|by rewrite <- Elen]. }
  assert (∀ x, x ∈ l1 ++ l2 → stream_ok (ss_limits st) (hs ++ [c]) x) as Hrest.
  { intros x Hx. apply stream_ok_other; [rewrite <- Esid; apply not_eq_sym; by apply Hne|].
    apply V2. rewrite El. apply elem_of_app. apply elem_of_app in Hx as [?|?]; [by left|right; by right]. }
  constructor; cbn -[u]; try done.
  - rewrite Forall_app, Forall_cons, !Forall_forall.
    split; [|split; [done|]]; intros; apply Hrest, elem_of_app; auto.
  - rewrite El in V3. rewrite map_app in V3 |- *. done.
  - intros c' Hc'. rewrite map_app. cbn. apply elem_of_app in Hc' as [Hc'|Hc'].
    + apply V4 in Hc'. rewrite El, map_app in Hc'. done.
    + apply list_elem_of_singleton in Hc' as ->. rewrite <- Esid. apply elem_of_app. right. by left.
  - rewrite V5, El, !map_app, !sum_app. cbn. lia.
  - rewrite El in V7. rewrite List.filter_app, length_app in V7 |- *.
    cbn in V7 |- *. change (is_artifact u) with (is_artifact s). by destruct (is_artifact s).
  - assert (∀ x, x ∈ l1 ++ u :: l2 → ∃ y, y ∈ ss_streams st ∧ sa_streamId y = sa_streamId x ∧
              sa_artifactIndex y = sa_artifactIndex x) as Hold.
    { intros x Hx. rewrite El. apply elem_of_app in Hx as [Hx|Hx]; [|apply elem_of_cons in Hx as [-> | Hx]].
      - exists x. split; [apply elem_of_app; by left|done].
      - exists s. split; [apply elem_of_app; right; by left|done].
      - exists x. split; [apply elem_of_app; right; by right|done]. }
    intros s1 s2 ix H1 H2 E1 E2. apply Hold in H1 as (y1 & Y1 & <- & A1), H2 as (y2 & Y2 & <- & A2).
    apply (V8 y1 y2 ix); congruence.
Qed.

Lemma store_new_inv hs st c identity bytes digest :
  assembler_inv hs st → fits st c bytes digest → streamIdentity c = Some identity →
  ck_stream_id c ∉ map sa_streamId (ss_streams st) → num_Z (ck_chunk_index c) = 0 →
  (identity ≠ None → Z.of_nat (length (List.filter is_artifact (ss_streams st))) <
                     sl_maxArtifacts (ss_limits st)) →
  (∀ id ix s, identity = Some (id, ix) → s ∈ ss_streams st → sa_artifactIndex s ≠ Some ix) →
  assembler_inv (hs ++ [c]) (store_chunk st c identity None
    {| rt_chunkIndex := num_Z (ck_chunk_index c); rt_identityDigest := digest; rt_bytes := bytes |}).
Proof.
  intros [V1 V2 V3 V4 V5 V6 V7 V8] (Hpay & Hdig & Eix & Hmax & Htot) Hid Hnew E0 Hcount Hfresh.
  assert (chunks_of (ck_stream_id c) hs = []) as Hempty.
  { unfold chunks_of. apply filter_none. intros c' Hc'. apply bool_decide_eq_false. intros E.
    apply Hnew. rewrite <- E. by apply V4. }
  unfold store_chunk. constructor; cbn; try done.
  - apply Forall_app. split.
    + rewrite Forall_forall in V2. apply Forall_forall. intros x Hx. apply stream_ok_other; [|by apply V2].
      intros E. apply Hnew. rewrite E. apply list_elem_of_fmap. eauto.
    + constructor; [|constructor]. constructor; cbn.
      * rewrite chunks_of_app, Hempty, bool_decide_true by done. by repeat constructor.
      * by rewrite E0.
      * unfold chunk_bytes. cbn. by rewrite app_nil_r.
      * by constructor.
      * destruct (identity_of_chunk _ _ Hid) as [[? ->]|(id & ix & -> & ?)]; cbn; [by left|right; eauto].
  - rewrite map_app. apply NoDup_app. split; [done|]. split; [|apply NoDup_singleton].
    intros x Hx Hx'. apply list_elem_of_singleton in Hx' as ->. done.
  - intros c' Hc'. rewrite map_app. cbn. apply elem_of_app in Hc' as [Hc'|Hc'].
    + apply elem_of_app. left. by apply V4.
    + apply list_elem_of_singleton in Hc' as ->. apply elem_of_app. right. by left.
  - rewrite V5, map_app, sum_app. cbn. lia.
  - rewrite List.filter_app, length_app. cbn. destruct identity as [[id ix]|]; cbn; [|lia].
    specialize (Hcount ltac:(done)). lia.
  - intros s1 s2 ix H1 H2 E1 E2. apply elem_of_app in H1 as [H1|H1], H2 as [H2|H2].
    + by apply (V8 s1 s2 ix).
    + apply list_elem_of_singleton in H2 as ->. cbn in E2. destruct identity as [[id ix']|]; [|done].
      injection E2 as ->. by destruct (Hfresh _ _ s1 eq_refl H1).
    + apply list_elem_of_singleton in H1 as ->. cbn in E1. destruct identity as [[id ix']|]; [|done].
      injection E1 as ->. by destruct (Hfresh _ _ s2 eq_refl H2).
    + apply list_elem_of_singleton in H1 as ->. apply list_elem_of_singleton in H2 as ->. done.
Qed.

Lemma append_inv hs st c st' :
  assembler_inv hs st → appendStreamChunk st c = Ok (chunk_appended st') → assembler_inv (hs ++ [c]) st'.
Proof.
  intros Hinv Ha. destruct (append_cases _ _ _ Ha)
    as (identity & bytes & digest & _ & Hsafe & Hid & Hb & Hmax & Htot & Hdig & Hcoll & Hex & ->).
  apply safe_index in Hsafe as [Eix _].
  assert (fits st c bytes digest) as Hfits by (repeat split; try done; unfold payload; by rewrite Hb).
  destruct (find_first _ (ss_streams st)) as [s|] eqn:Hf.
  - apply find_stream_spec in Hf as [Hin Esid]. destruct Hex as (_ & _ & _ & Elen). by apply store_existing_inv.
  - rewrite find_first_none in Hf. destruct Hex as [E0 Hcount].
    assert (∀ x, x ∈ ss_streams st → sa_streamId x ≠ ck_stream_id c) as Hne.
    { intros x Hx. specialize (Hf x Hx). by bsimp. }
    apply store_new_inv; try done.
    + intros Hx. apply list_elem_of_fmap in Hx as (x & E & Hx). by destruct (Hne x Hx).
    + intros id ix s -> Hs Hix. pose proof (av_streams _ _ Hinv) as Hall. rewrite Forall_forall in Hall.
      destruct (so_artifact _ _ _ (Hall s Hs)) as [(_ & _ & Hn)|(id' & ? & Ha' & _)]; [congruence|].
      assert (is_artifact s = true) as Hart by (unfold is_artifact; by rewrite Ha').
      by destruct (Hcoll _ _ eq_refl s Hs Hart (Hne s Hs)).
Qed.

Lemma assembler_run_inv invocation limits hs st : stream_run invocation limits hs st → assembler_inv hs st.
Proof. induction 1 as [st Hc|hs st c st' _ IH Ha]; [by eapply create_assembler_inv|by eapply append_inv]. Qed.

(** ** Redelivery of chunks *)

Definition append_state (r : AppendStreamChunkResult) : StreamAssemblerState :=
  match r with
  | chunk_appended st | chunk_duplicate st | chunk_gap st _ _ _ | chunk_fault st _ | chunk_oversize st _ => st
  end.

Lemma not_appended_unchanged st c r :
  appendStreamChunk st c = Ok r → (∀ st', r ≠ chunk_appended st') → append_state r = st.
Proof.
  unfold appendStreamChunk, append_checked. intros Ha Hna.
  repeat first
    [ by simplify_eq
    | match type of Ha with
      | (if ?b then _ else _) = _ => destruct b
      | (match ?m with _ => _ end) = _ => destruct m
      end
    | apply bind_ok in Ha as (? & _ & Ha) ]; try (by injection Ha as <-).
  all: try (injection Ha as <-; by destruct (bool_decide _)).
  all: try (injection Ha as <-; by edestruct Hna).
Qed.

(** Where the new chunk is found again. *)
Lemma stored_found hs st c identity existing r :
  assembler_inv hs st →
  existing = find_first (λ s, sa_streamId s === ck_stream_id c) (ss_streams st) →
  (∀ s, existing = Some s → sa_contentType s = ck_content_type c ∧ sa_artifactId s = fst <$> identity ∧
                            sa_artifactIndex s = snd <$> identity) →
  ∃ s', find_first (λ s, sa_streamId s === ck_stream_id c)
          (ss_streams (store_chunk st c identity existing r)) = Some s' ∧
    sa_contentType s' = ck_content_type c ∧ sa_artifactId s' = fst <$> identity ∧
    sa_artifactIndex s' = snd <$> identity ∧
    sa_chunks s' = match existing with Some s => sa_chunks s | None => [] end ++ [r].
Proof.
  intros Hinv Hex Hsame. destruct existing as [s|].
  - symmetry in Hex. apply find_stream_spec in Hex as [Hin Esid]. destruct (Hsame s eq_refl) as (E1 & E2 & E3).
    unfold store_chunk. cbn -[map]. set (u := {| sa_streamId := sa_streamId s; sa_chunks := _ |}).
    destruct (update_split (ss_streams st) s u (av_ids _ _ Hinv) Hin eq_refl) as (l1 & l2 & El & Hne & Emap).
    change (sa_streamId u) with (sa_streamId s) in Emap. rewrite Emap.
    exists u. split; [|done]. clear -Hne Esid.
    induction l1 as [|x l1 IH]; cbn -[u].
    + by rewrite bool_decide_true.
    + rewrite bool_decide_false; [apply IH; intros y Hy; apply Hne; by right|].
      rewrite <- Esid. apply Hne. by left.
  - symmetry in Hex. rewrite find_first_none in Hex. unfold store_chunk. cbn -[app].
    match goal with |- context [ss_streams st ++ [?x]] => exists x end. split; [|done]. clear Hinv.
    induction (ss_streams st) as [|x l IH]; cbn; [by rewrite bool_decide_true|].
    rewrite (Hex x) by by left. apply IH. intros y Hy. apply Hex. by right.
Qed.

(** ** Completion *)

Definition describes (d : StreamDescriptor) (c : CompletedStream) : Prop :=
  cs_streamId c = sd_stream_id d ∧ cs_contentType c = sd_content_type d ∧
  sd_total_chunks d = JInt (cs_totalChunks c) ∧ sd_total_size d = JInt (cs_totalSize c) ∧
  sd_sha256 d = cs_sha256 c.

Definition reassembled (hs : list RbpStreamChunk) (c : CompletedStream) : Prop :=
  cs_bytes c = concat (map payload (chunks_of (cs_streamId c) hs)) ∧
  cs_sha256 c = digestBytes (cs_bytes c) ∧ cs_totalSize c = byteLength (cs_bytes c) ∧
  cs_totalChunks c = Z.of_nat (length (chunks_of (cs_streamId c) hs)).

Lemma retained_bytes hs s lim :
  stream_ok lim hs s → chunk_bytes (sa_chunks s) = concat (map payload (chunks_of (sa_streamId s) hs)).
Proof.
  intros [J1 _ _ _ _]. unfold chunk_bytes. f_equal.
  induction J1 as [|c r cs rs (Hb & _ & _) _ IH]; cbn; [done|]. by rewrite Hb, IH.
Qed.

Lemma complete_spec hs st a d c :
  assembler_inv hs st → completeStream st a d = inl c →
  describes d c ∧ reassembled hs c ∧ cs_streamId c = sd_stream_id d.
Proof.
  intros Hinv Hc. unfold completeStream in Hc. destruct (_ || _) in Hc; [done|].
  destruct (find_first _ (ss_streams st)) as [s|] eqn:Hf.
  - apply find_stream_spec in Hf as [Hin Esid].
    pose proof (av_streams _ _ Hinv) as Hall. rewrite Forall_forall in Hall. pose proof (Hall s Hin) as Hs.
    repeat (case_bool_decide; cbn [negb] in Hc; [|done]). injection Hc as <-.
    rewrite concatenateChunks_eq in *. pose proof (so_size _ _ _ Hs) as Hsize.
    split; [|split; [|done]]; repeat split; cbn; try done; try congruence.
    + by eapply retained_bytes.
    + by rewrite (Forall2_length _ _ _ (so_history _ _ _ Hs)).
  - destruct (_ && _) eqn:E0 in Hc; [|done]. case_bool_decide as Hd; cbn [negb] in Hc; [|done].
    injection Hc as <-. bsimp. rewrite find_first_none in Hf.
    assert (chunks_of (sd_stream_id d) hs = []) as Hempty.
    { unfold chunks_of. apply filter_none. intros c' Hc'. apply bool_decide_eq_false. intros E.
      apply (av_known _ _ Hinv) in Hc'. apply list_elem_of_fmap in Hc' as (s & Es & Hs).
      specialize (Hf s Hs). bsimp. congruence. }
    split; [|split; [|done]]; repeat split; cbn; rewrite ?Hempty; try done.
Qed.

Lemma complete_artifacts_spec hs st i ids sids done ds sids' cs :
  assembler_inv hs st → complete_artifacts st i ids sids done ds = inl (sids', cs) →
  ∃ new, cs = done ++ new ∧ Forall2 (λ d c, describes d.2 c ∧ reassembled hs c) ds new ∧
    (∀ id, id ∈ sids' → id ∈ sids ∨ id ∈ map cs_streamId new).
Proof.
  intros Hinv. revert i ids sids done. induction ds as [|[a d] ds IH]; intros i ids sids dn Hc; cbn in Hc.
  { injection Hc as <- <-. exists []. rewrite app_nil_r. split; [done|]. split; [constructor|auto]. }
  destruct (negb _) in Hc; [done|]. destruct (_ || _) in Hc; [done|]. destruct (negb _) in Hc; [done|].
  destruct (completeStream st (Some a) d) as [c|] eqn:Ec; [|done]. destruct (_ || _) in Hc; [done|].
  destruct (IH _ _ _ _ Hc) as (new & -> & Hall & Hids).
  destruct (complete_spec _ _ _ _ _ Hinv Ec) as (Hdesc & Hre & Hid).
  exists (c :: new). rewrite <- app_assoc. split; [done|]. split; [by constructor|].
  intros id Hin. apply Hids in Hin as [Hin|Hin]; [|right; by right].
  apply elem_of_cons in Hin as [-> | Hin]; [right; rewrite <- Hid; by left|by left].
Qed.

Definition manifest_descriptors (m : TerminalStreamManifest) : list StreamDescriptor :=
  match m with chunked_result d => [d] | artifact_result _ ds => map snd ds end.

(** Failures are never completions. *)
Lemma complete_failure st a d f st' cs : completeStream st a d = inr f → f ≠ streams_complete st' cs.
Proof.
  unfold completeStream. intros Hc.
  repeat match type of Hc with
  | (if ?b then _ else _) = _ => destruct b
  | (match ?m with _ => _ end) = _ => destruct m
  end; by simplify_eq.
Qed.

Lemma complete_artifacts_failure st i ids sids dn ds f st' cs :
  complete_artifacts st i ids sids dn ds = inr f → f ≠ streams_complete st' cs.
Proof.
  revert i ids sids dn. induction ds as [|[a d] ds IH]; intros i ids sids dn Hc; cbn in Hc; [done|].
  destruct (negb _) in Hc; [by simplify_eq|]. destruct (_ || _) in Hc; [by simplify_eq|].
  destruct (negb _) in Hc; [by simplify_eq|].
  destruct (completeStream st (Some a) d) as [c|f'] eqn:Ec; [|injection Hc as <-; by eapply complete_failure].
  destruct (_ || _) in Hc; [by simplify_eq|]. by eapply IH.
Qed.

(** A result descriptor names the result stream (a literal type in the source). *)
Definition result_descriptor (m : TerminalStreamManifest) : Prop :=
  match m with chunked_result d => sd_stream_id d = js "result" | artifact_result _ _ => True end.

Lemma stream_size_bound hs st s :
  assembler_inv hs st → s ∈ ss_streams st → sa_decodedBytes s <= ss_decodedBytes st.
Proof.
  intros Hinv Hin. rewrite (av_total _ _ Hinv). pose proof (av_streams _ _ Hinv) as Hall.
  induction (ss_streams st) as [|x l IH]; [by inversion Hin|]. cbn.
  inversion_clear Hall as [|?? Hx Hl]. pose proof (so_size _ _ _ Hx) as Hsx.
  assert (0 <= foldr Z.add 0 (map sa_decodedBytes l)).
  { clear -Hl. induction Hl as [|y l Hy _ IHl]; cbn; [lia|]. rewrite (so_size _ _ _ Hy).
    unfold byteLength. lia. }
  unfold byteLength in Hsx. apply elem_of_cons in Hin as [-> | Hin]; [lia|]. specialize (IH Hin Hl). lia.
Qed.

Lemma finalize_result_spec hs st d st' cs :
  assembler_inv hs st → sd_stream_id d = js "result" →
  finalizeStreams st (chunked_result d) = streams_complete st' cs →
  ∃ c, cs = [c] ∧ describes d c ∧ reassembled hs c ∧
    (∀ s, s ∈ ss_streams st → sa_streamId s = cs_streamId c) ∧
    cs_totalSize c <= sl_maxInvocationBytes (ss_limits st).
Proof.
  intros Hinv Hres Hf. cbn -[completeStream] in Hf. destruct (existsb _ _) eqn:Ee; [done|].
  destruct (completeStream st None d) as [c|f] eqn:Ec; [|by eapply complete_failure in Ec].
  injection Hf as <- <-. destruct (complete_spec _ _ _ _ _ Hinv Ec) as (Hdesc & Hre & Hid).
  rewrite existsb_false in Ee. exists c. split; [done|]. split; [done|]. split; [done|]. split.
  - intros s Hs. specialize (Ee s Hs). bsimp. congruence.
  - unfold completeStream in Ec. destruct (_ || _) in Ec; [done|]. pose proof (av_limits _ _ Hinv).
    destruct (find_first _ (ss_streams st)) as [s|] eqn:Hfs.
    + apply find_stream_spec in Hfs as [Hin _]. repeat (case_bool_decide; cbn [negb] in Ec; [|done]).
      injection Ec as <-. cbn. rewrite concatenateChunks_eq.
      pose proof (av_streams _ _ Hinv) as Hall. rewrite Forall_forall in Hall.
      rewrite <- (so_size _ _ _ (Hall s Hin)). pose proof (stream_size_bound _ _ _ Hinv Hin).
      pose proof (av_bound _ _ Hinv). lia.
    + destruct (_ && _) in Ec; [|done]. case_bool_decide; cbn [negb] in Ec; [|done]. injection Ec as <-. cbn. lia.
Qed.

Lemma foldl_sum (cs : list CompletedStream) n :
  foldl (λ sum stream, sum + cs_totalSize stream) n cs = n + foldr Z.add 0 (map cs_totalSize cs).
Proof. revert n. induction cs as [|c cs IH]; intros n; cbn; [lia|]. rewrite IH. lia. Qed.

Lemma finalize_spec hs st m st' cs :
  assembler_inv hs st → result_descriptor m → finalizeStreams st m = streams_complete st' cs →
  Forall2 (λ d c, describes d c ∧ reassembled hs c) (manifest_descriptors m) cs ∧
  (∀ s, s ∈ ss_streams st → sa_streamId s ∈ map cs_streamId cs) ∧
  foldr Z.add 0 (map cs_totalSize cs) <= sl_maxInvocationBytes (ss_limits st).
Proof.
  intros Hinv Hm Hf. destruct m as [d|refs ds].
  - destruct (finalize_result_spec _ _ _ _ _ Hinv Hm Hf) as (c & -> & Hd & Hr & Hs & Hb). cbn.
    split; [by apply Forall2_cons; split|]. split; [|lia]. intros s Hin. rewrite (Hs s Hin). by left.
  - cbn -[complete_artifacts] in Hf. destruct (_ || _) in Hf; [done|]. destruct (existsb _ _) in Hf; [done|].
    destruct (complete_artifacts _ _ _ _ _ _) as [[sids dn]|f] eqn:Ec; [|by eapply complete_artifacts_failure in Ec].
    destruct (existsb _ _) eqn:Ee in Hf; [done|]. destruct (negb _) in Hf; [done|].
    destruct (_ <? _) eqn:Eb in Hf; [done|]. injection Hf as <- <-. bsimp.
    destruct (complete_artifacts_spec _ _ _ _ _ _ _ _ _ Hinv Ec) as (new & -> & Hall & Hids).
    rewrite foldl_sum in Eb. cbn [app manifest_descriptors] in *. split; [|split; [|lia]].
    + clear -Hall. induction Hall; constructor; auto.
    + intros s Hs. rewrite existsb_false in Ee. specialize (Ee s Hs). bsimp.
      apply Hids in Ee as [Hx|Hx]; [by inversion Hx|done].
Qed.

(** ** What the assembler promises *)

(** Whatever chunks were accepted, memory stays bounded: no chunk exceeds the
    chunk limit, all retained bytes together stay within the invocation limit,
    and there are at most as many artifacts as allowed, none of which exceed the
    protocol maxima of 1 MiB, 32 MiB and 16; stream ids and artifact positions
    are unique and the byte counters are exact. *)
Theorem assembler_stays_bounded invocation limits hs st :
  stream_run invocation limits hs st →
  ss_decodedBytes st = foldr Z.add 0 (map (λ s, byteLength (concat (map rt_bytes (sa_chunks s)))) (ss_streams st)) ∧
  ss_decodedBytes st <= sl_maxInvocationBytes (ss_limits st) <= RBP_MAX_RECONSTRUCTED_INVOCATION_BYTES ∧
  Forall (λ s, Forall (λ r, byteLength (rt_bytes r) <= RBP_MAX_DECODED_CHUNK_BYTES) (sa_chunks s)) (ss_streams st) ∧
  Z.of_nat (length (List.filter is_artifact (ss_streams st))) <= RBP_MAX_ARTIFACTS_PER_INVOCATION ∧
  NoDup (map sa_streamId (ss_streams st)) ∧
  (∀ s1 s2 ix, s1 ∈ ss_streams st → s2 ∈ ss_streams st →
     sa_artifactIndex s1 = Some ix → sa_artifactIndex s2 = Some ix → s1 = s2).
Proof.
  intros Hinv%assembler_run_inv. destruct Hinv as [(L1 & L2 & L3) V2 V3 V4 V5 V6 V7 V8].
  split; [|split; [lia|split; [|split; [lia|split; [done|]]]]].
  - rewrite V5. f_equal. apply map_ext_in. intros s Hs%list_elem_of_In. rewrite Forall_forall in V2.
    exact (so_size _ _ _ (V2 s Hs)).
  - eapply Forall_impl; [exact V2|]. intros s Hs. eapply Forall_impl; [exact (so_chunks _ _ _ Hs)|]. cbn. lia.
  - intros s1 s2 ix H1 H2 E1 E2. pose proof (V8 s1 s2 ix H1 H2 E1 E2) as E.
    apply list_elem_of_lookup in H1 as [i Hi], H2 as [j Hj]. assert (i = j) as ->; [|congruence].
    eapply (NoDup_lookup _ i j (sa_streamId s1) V3); rewrite list_lookup_fmap, ?Hi, ?Hj; cbn; congruence.
Qed.

(** C24: completed streams are exactly what was sent. When the manifest completes,
    each stream it names, in its order, consists of the decoded data of the
    chunks accepted for it, in the order of their indexes and however they were
    interleaved with other streams; counts, sizes and the SHA-256 of the whole
    agree with the descriptor, no accepted chunk is left out, and the total size
    is within the limit. *)
Theorem streams_reassembled invocation limits hs st m st' cs :
  stream_run invocation limits hs st → result_descriptor m →
  finalizeStreams st m = streams_complete st' cs →
  Forall2 (λ d c, describes d c ∧ reassembled hs c) (manifest_descriptors m) cs ∧
  (∀ c, c ∈ hs → ck_stream_id c ∈ map cs_streamId cs) ∧
  foldr Z.add 0 (map cs_totalSize cs) <= sl_maxInvocationBytes (ss_limits st).
Proof.
  intros Hinv%assembler_run_inv Hm Hf. destruct (finalize_spec _ _ _ _ _ Hinv Hm Hf) as (H1 & H2 & H3).
  split; [done|]. split; [|done]. intros c Hc. apply (av_known _ _ Hinv) in Hc.
  apply list_elem_of_fmap in Hc as (s & -> & Hs). auto.
Qed.

Definition members (v : jsval) : list jsval :=
  match v with VObj _ ms => map snd ms | _ => [] end.

Lemma chunk_material_inj c c' : chunk_material c = chunk_material c' → c = c'.
Proof.
  intros E. apply (f_equal members) in E. destruct c as [??[?|][?|]????], c' as [??[?|][?|]????];
    cbn in E; by simplify_eq.
Qed.

Lemma chunk_identity_inj c c' :
  wire_value (chunk_material c) = true → wire_value (chunk_material c') = true →
  collision_free (chunk_material c) (chunk_material c') → chunkIdentity c = chunkIdentity c' → c = c'.
Proof.
  intros H1 H2 Hcf E. apply makeJsonDigest_inj in E; [|done..]. apply chunk_material_inj.
  assert (∀ x, normalize (chunk_material x) = chunk_material x) as Hn.
  { intros [??[?|][?|]????]; reflexivity. }
  by rewrite !Hn in E.
Qed.

(** Chunks may be redelivered. A chunk that was accepted is a duplicate when
    it arrives again; a different chunk under the same stream and index, on which
    the hash does not collide, is a fault; and no answer but acceptance changes
    the state. *)
Theorem chunk_redelivery invocation limits hs st c st' :
  stream_run invocation limits hs st → appendStreamChunk st c = Ok (chunk_appended st') →
  appendStreamChunk st' c = Ok (chunk_duplicate st') ∧
  ∀ c' r, ck_stream_id c' = ck_stream_id c → ck_chunk_index c' = ck_chunk_index c →
    c' ≠ c → wire_value (chunk_material c') = true → wire_value (chunk_material c) = true →
    collision_free (chunk_material c') (chunk_material c) →
    appendStreamChunk st' c' = Ok r → append_state r = st' ∧ ∃ reason,
      r = chunk_fault st' reason ∨ r = chunk_oversize st' reason.
Proof.
  intros Hinv%assembler_run_inv Ha. destruct (append_cases _ _ _ Ha)
    as (identity & bytes & digest & Hinvo & Hsafe & Hid & Hb & Hmax & Htot & Hdig & Hcoll & Hex & Est).
  destruct (stored_found _ _ c identity _
    {| rt_chunkIndex := num_Z (ck_chunk_index c); rt_identityDigest := digest; rt_bytes := bytes |} Hinv eq_refl)
    as (s & Hf & E1 & E2 & E3 & Ech).
  { intros s Es. rewrite Es in Hex. by destruct Hex as (? & ? & ? & _). }
  rewrite <- Est in Hf.
  assert (ss_invocationId st' = ss_invocationId st ∧ ss_limits st' = ss_limits st) as [I1 I2] by by rewrite Est.
  assert (num_Z (ck_chunk_index c) = Z.of_nat (length (sa_chunks s)) - 1) as Hlen.
  { rewrite Ech, length_app. cbn. destruct (find_first _ _); [destruct Hex as (_ & _ & _ & ->)|destruct Hex as [-> _]]; cbn; lia. }
  assert (0 <= num_Z (ck_chunk_index c)) as Hpos by by apply safe_index.
  assert (sa_chunks s !! Z.to_nat (num_Z (ck_chunk_index c)) =
    Some {| rt_chunkIndex := num_Z (ck_chunk_index c); rt_identityDigest := digest; rt_bytes := bytes |}) as Hlk.
  { rewrite Ech in Hlen |- *. rewrite length_app in Hlen. cbn in Hlen. rewrite lookup_app_r by lia.
    replace (_ - _)%nat with 0%nat by lia. done. }
  split.
  - unfold appendStreamChunk. rewrite Hinvo, I1, I2, Hsafe, Hid, Hb, Hf, E1, E2, E3, !bool_decide_true by done.
    cbn -[Z.ltb]. rewrite (proj2 (Z.ltb_ge _ _)) by lia. rewrite (proj2 (Z.ltb_lt _ _)) by lia.
    rewrite Hdig. cbn. rewrite Hlk. cbn. by rewrite bool_decide_true.
  - intros c' r Esid Eix Hne Hw1 Hw2 Hcf Hr. rewrite <- Esid in Hf. unfold appendStreamChunk in Hr. rewrite Hf, Eix in Hr.
    repeat first
      [ match type of Hr with
        | (if ?b then Ok (chunk_fault _ _) else _) = _ => destruct b; [injection Hr as <-; eauto|]
        | (if ?b then Ok (chunk_oversize _ _) else _) = _ => destruct b; [injection Hr as <-; eauto|]
        | (match ?m with Some _ => _ | None => Ok (chunk_fault _ _) end) = _ => destruct m; [|injection Hr as <-; eauto]
        end ].
    rewrite (proj2 (Z.ltb_lt _ _)) in Hr by lia. apply bind_ok in Hr as (digest' & Hdig' & Hr).
    rewrite Hlk in Hr. cbn in Hr. rewrite bool_decide_false in Hr; [injection Hr as <-; eauto|].
    intros [= ->]. apply Hne, chunk_identity_inj; [done..|congruence].
Qed.

Lemma includes_dots_true pre post : includes_dots (pre ++ js ".." ++ post) = true.
Proof.
  induction pre as [|c pre IH]; [done|]. cbn [app]. 
  assert (∀ x xs, includes_dots xs = true → includes_dots (x :: xs) = true) as Hcons.
  { intros x xs Hx. cbn. repeat case_match; done. }
  by apply Hcons.
Qed.

Lemma ends_with_last x s : ends_with [x] s = false → last s ≠ Some x.
Proof.
  unfold ends_with. intros He [l ->]%last_Some. rewrite reverse_app in He. cbn in He.
  by rewrite Z.eqb_refl in He.
Qed.

(** An artifact file name that passes is a plain name: nothing in it separates
    path components or drives, it is neither hidden nor a parent reference, no
    control character or trailing dot or blank survives, and it is not a Windows
    device in any letter case. *)
Theorem artifact_filename_is_plain name :
  validFilename name = true →
  (∀ c, c ∈ name → c ∉ [47; 92; 58; 34; 42; 60; 62; 63; 124; 127] ∧ ¬ (0 <= c <= 31)) ∧
  name ≠ [] ∧ (length name <= 255)%nat ∧ hd 0 name ≠ 46 ∧ (∀ pre post, name ≠ pre ++ js ".." ++ post) ∧
  last name ≠ Some 46 ∧ last name ≠ Some 32 ∧
  map upper_unit (before_dot name) ∉ map js ["CON"; "PRN"; "AUX"; "NUL"; "CLOCK$"; "CONIN$"; "CONOUT$"]%string.
Proof.
  unfold validFilename. destruct (_ || _) eqn:E; [done|]. destruct (reserved_device _) eqn:Ed; [done|].
  intros _. bsimp. unfold reserved_device in Ed. bsimp.
  split; [|split; [|split; [|split; [|split; [|split; [|split; [|done]]]]]]].
  - intros c Hc. match goal with Hx : existsb forbidden_unit name = false |- _ =>
      rewrite existsb_false in Hx; specialize (Hx c Hc); unfold forbidden_unit in Hx end.
    bsimp. split.
    + intros Hin. repeat (apply elem_of_cons in Hin as [-> | Hin]; [done|]). by inversion Hin.
    + intros Hr. repeat match goal with Hx : _ && _ = false |- _ => apply andb_false_iff in Hx as [Hx|Hx] end; bsimp; lia.
  - by destruct name.
  - match goal with Hx : (255 <? length name)%nat = false |- _ => apply Nat.ltb_ge in Hx end. done.
  - destruct name as [|c name]; [done|]. cbn. intros ->. done.
  - intros pre post ->. by rewrite includes_dots_true in *.
  - by apply ends_with_last.
  - by apply ends_with_last.
Qed.

End facts.
(** ** Witnesses *)

Section witnesses.
Import Sha256.

Definition no_limits : RequestedLimits :=
  {| rl_maxChunkBytes := None; rl_maxInvocationBytes := None; rl_maxArtifacts := None |}.

Definition demo_chunk (index : Z) (data : string) : RbpStreamChunk := {|
  ck_invocation_id := js "inv-1"; ck_stream_id := js "result"; ck_artifact_id := None;
  ck_artifact_index := None; ck_chunk_index := JInt index; ck_encoding := js "base64";
  ck_content_type := js "application/json"; ck_data := js data |}.

Definition demo_state0 : StreamAssemblerState := {|
  ss_invocationId := js "inv-1"; ss_streams := []; ss_decodedBytes := 0;
  ss_limits := {| sl_maxChunkBytes := RBP_MAX_DECODED_CHUNK_BYTES;
                  sl_maxInvocationBytes := RBP_MAX_RECONSTRUCTED_INVOCATION_BYTES;
                  sl_maxArtifacts := RBP_MAX_ARTIFACTS_PER_INVOCATION |} |}.

Definition appended (st : StreamAssemblerState) (c : RbpStreamChunk) : StreamAssemblerState :=
  append_state (try_catch (appendStreamChunk st c) (chunk_duplicate st)).

(** The bytes 1 to 6 in two chunks. *)
Definition demo_state1 := appended demo_state0 (demo_chunk 0 "AQID").
Definition demo_state2 := appended demo_state1 (demo_chunk 1 "BAUG").

Lemma demo_append1 : appendStreamChunk demo_state0 (demo_chunk 0 "AQID") = Ok (chunk_appended demo_state1).
Proof. vm_compute. reflexivity. Qed.
Lemma demo_append2 : appendStreamChunk demo_state1 (demo_chunk 1 "BAUG") = Ok (chunk_appended demo_state2).
Proof. vm_compute. reflexivity. Qed.

Lemma stream_demo_run1 : stream_run (js "inv-1") no_limits [demo_chunk 0 "AQID"] demo_state1.
Proof. apply (sr_append _ _ [] demo_state0); [apply sr_create; reflexivity|apply demo_append1]. Qed.

Lemma stream_demo_run2 :
  stream_run (js "inv-1") no_limits [demo_chunk 0 "AQID"; demo_chunk 1 "BAUG"] demo_state2.
Proof. apply (sr_append _ _ [_] demo_state1 _ _ stream_demo_run1 demo_append2). Qed.

Definition demo_manifest : TerminalStreamManifest := chunked_result {|
  sd_stream_id := js "result"; sd_content_type := js "application/json"; sd_total_chunks := JInt 2;
  sd_total_size := JInt 6; sd_sha256 := digestBytes [1; 2; 3; 4; 5; 6] |}.

Definition completed_streams (r : FinalizeStreamsResult) : list CompletedStream :=
  match r with streams_complete _ cs => cs | _ => [] end.

Lemma demo_complete :
  finalizeStreams demo_state2 demo_manifest =
  streams_complete demo_state2 (completed_streams (finalizeStreams demo_state2 demo_manifest)).
Proof. vm_compute. reflexivity. Qed.

Lemma assembler_stays_bounded_witness : ss_decodedBytes demo_state2 <= RBP_MAX_RECONSTRUCTED_INVOCATION_BYTES.
Proof. destruct (assembler_stays_bounded _ _ _ _ stream_demo_run2) as (_ & Hb & _). lia. Defined.

Lemma streams_reassembled_witness :
  Forall (reassembled [demo_chunk 0 "AQID"; demo_chunk 1 "BAUG"])
    (completed_streams (finalizeStreams demo_state2 demo_manifest)).
Proof.
  destruct (streams_reassembled _ _ _ _ demo_manifest _ _ stream_demo_run2 eq_refl demo_complete) as (Hall & _ & _).
  apply Forall_forall. intros c Hc. apply list_elem_of_lookup in Hc as [i Hi].
  destruct (Forall2_lookup_r _ _ _ _ _ Hall Hi) as (d & _ & _ & Hre). exact Hre.
Defined.

Lemma chunk_redelivery_witness :
  appendStreamChunk demo_state1 (demo_chunk 0 "AQID") = Ok (chunk_duplicate demo_state1).
Proof.
  apply (chunk_redelivery (js "inv-1") no_limits [] demo_state0 _ demo_state1);
    [apply sr_create; reflexivity|exact demo_append1].
Defined.

Lemma artifact_filename_is_plain_witness : last (js "plan.dwg") ≠ Some 46.
Proof. apply (artifact_filename_is_plain (js "plan.dwg")). vm_compute. reflexivity. Defined.

End witnesses.
End StreamFacts.
