(* ===== verification/Envelope.v ===== *)
(** The semantic checks on envelopes: packages/protocol/src/validateEnvelope.ts.

    After the JSON schema has accepted a value, [validateRbpEnvelope] checks what
    the schema cannot say: digests that must be recomputed, clearances in order,
    artifact descriptors that agree with their position, batch results whose
    parts tell one story.  The schema validator (Ajv, compiled from the JSON
    schemas) is a parameter: it refuses a value with its errors or presents it as
    a typed envelope. *)

From S2P Require Import Prelude JsString JsValue Canonical Sha256 Journal MutationHold Base64 Stream.

Module Envelope.
Import Canonical Journal.

(** ** Data: the parts of an envelope that the checks read *)

Record ErrorObject := {
  eo_instancePath : jstr;
  eo_schemaPath : jstr;
  eo_keyword : jstr;
  eo_params : jsval;
  eo_message : option jstr }.

(** A clearance, with the JSON object it arrived as (the digest covers all of it). *)
Record WireClearance := { wc_clearance : RecoveryClearance; wc_value : jsval }.

Record BatchStep := {
  bst_invocation_id : jstr;
  bst_method : jstr;
  bst_params : jsval;
  bst_policy : BatchDigestPolicy;
  bst_mutating : bool;
  bst_mutation_scope : jsval;
  bst_params_digest : jstr }.

Record InvokeBatch := {
  ib_batch_id : jstr;
  ib_atomic : bool;
  ib_timeout_ms : jsnum;
  ib_recovery_clearances : list WireClearance;
  ib_steps : list BatchStep;
  ib_batch_digest : jstr }.

(** [total_size] and the two indices are safe integers by the schema. *)
Record ArtifactDescriptor := {
  ad_artifact_id : jstr;
  ad_artifact_index : Z;
  ad_stream_id : jstr;
  ad_total_size : Z }.

Inductive FaultClass :=
| fc_protocol | fc_auth | fc_policy | fc_unsupported | fc_parameter | fc_environment | fc_revit_busy
| fc_revit_timeout | fc_revit_api | fc_addin_unreachable | fc_oversize | fc_cancelled
| fc_journal_indeterminate.

#[export] Instance FaultClass_eq_dec : EqDecision FaultClass.
Proof. solve_decision. Defined.

Inductive ErrorOutcome := outcome_known | outcome_indeterminate.

#[export] Instance ErrorOutcome_eq_dec : EqDecision ErrorOutcome.
Proof. solve_decision. Defined.

Record ErrorDetail := {
  ed_fault_class : FaultClass;
  ed_retryable : bool;
  ed_outcome : option ErrorOutcome;
  ed_verification_required : option bool;
  ed_replayed : option bool;
  ed_late_after_indeterminate : option bool;
  ed_verification_hold_id : option jstr;
  ed_mutation_scope : option MutationScope;
  ed_result_digest : option jstr }.

Record BatchStepResult := {
  bsr_index : Z;
  bsr_invocation_id : jstr;
  bsr_status : BatchStepStatus;
  bsr_replayed : bool;
  bsr_late_after_indeterminate : option bool;
  bsr_verification_hold_id : option jstr;
  bsr_result_digest : option jstr;
  bsr_error : option ErrorDetail }.

Inductive TransactionState := ts_committed | ts_rolled_back | ts_not_applicable | ts_indeterminate.

#[export] Instance TransactionState_eq_dec : EqDecision TransactionState.
Proof. solve_decision. Defined.

(** The status of a batch is one of the statuses of a step; the schema excludes
    [not_started]. *)
Record BatchResult := {
  br_atomic : bool;
  br_status : BatchStepStatus;
  br_transaction_state : TransactionState;
  br_failed_step_index : option Z;
  br_steps : list BatchStepResult;
  br_replayed : bool }.

Inductive Partial :=
| partial_chunk (stream_id : jstr) (artifact_id : option jstr) (data : jstr)
| partial_progress.

Inductive Result :=
| invocation_result (artifacts : option (list ArtifactDescriptor))
| batch_result (payload : BatchResult).

Inductive RbpEnvelope :=
| invoke_batch_envelope (payload : InvokeBatch)
| invoke_envelope (recovery_clearances : list WireClearance)
| partial_envelope (payload : Partial)
| result_envelope (payload : Result)
| other_envelope (type : jstr).

(** ** The checks *)

Definition semanticError (instancePath message : jstr) : ErrorObject := {|
  eo_instancePath := instancePath;
  eo_schemaPath := js "#/rbpSemantic";
  eo_keyword := js "rbpSemantic";
  eo_params := obj [];
  eo_message := Some message |}.

(** [if (cond) errors.push(semanticError(path, message))] *)
Definition report (cond : bool) (path message : jstr) : list ErrorObject :=
  if cond then [semanticError path message] else [].

Definition pos (index : nat) : jstr := dec (Z.of_nat index).

(** The loop over [ids.entries()] from [index] on, with the ids [seen] so far. *)
Fixpoint duplicate_id_errors (path : jstr) (seen : list jstr) (index : nat) (ids : list jstr)
  : list ErrorObject :=
  match ids with
  | [] => []
  | id :: ids =>
      report (bool_decide (id ∈ seen)) (path ++ js "/" ++ pos index ++ js "/invocation_id")
        (js "batch step invocation_id values must be unique") ++
      duplicate_id_errors path (id :: seen) (S index) ids
  end.

Definition duplicateInvocationIdErrors (invocation_ids : list jstr) (path : jstr) : list ErrorObject :=
  duplicate_id_errors path [] 0 invocation_ids.

(** [(value.length / 4) * 3 - padding], four times over: the division by four is
    exact in binary64, and the comparison of the caller is scaled with it. *)
Definition decodedBase64Size_x4 (value : jstr) : Z :=
  let padding := if ends_with (js "==") value then 2 else if ends_with (js "=") value then 1 else 0 in
  Z.of_nat (length value) * 3 - 4 * padding.

(** The loop over [holdIds.entries()]; the break ends it. *)
Fixpoint clearance_errors (path : jstr) (holdIds : list jstr) (index : nat) (rest : list jstr)
  : list ErrorObject :=
  match rest with
  | [] => []
  | holdId :: rest =>
      report (find_index (λ h, h === holdId) holdIds !== Some index)
        (path ++ js "/" ++ pos index ++ js "/hold_id")
        (js "recovery clearance hold_id values must be unique") ++
      if (0 <? index)%nat && str_ltb holdId (nullish (holdIds !! pred index) [])
      then [semanticError path (js "recovery clearances must be sorted by hold_id ascending")]
      else clearance_errors path holdIds (S index) rest
  end.

Definition recoveryClearanceErrors (clearances : list WireClearance) (path : jstr) : list ErrorObject :=
  let holdIds := map (λ c, rc_hold_id (wc_clearance c)) clearances in
  clearance_errors path holdIds 0 holdIds.

Section operations.
Context `{Hasher}.

Definition step_digest_errors (index : nat) (step : BatchStep) : list ErrorObject :=
  match makeParamsDigest (bst_params step) with
  | Ok expected =>
      report (bst_params_digest step !== expected)
        (js "/payload/steps/" ++ pos index ++ js "/params_digest")
        (js "params_digest must equal the RFC 8785 digest of step params (" ++ expected ++ js ")")
  | Throw error =>
      [semanticError (js "/payload/steps/" ++ pos index ++ js "/params")
         (js "step params are not RFC 8785 JSON: " ++ err_message error)]
  end.

Definition batch_digest_input (payload : InvokeBatch) : BatchDigestInput := {|
  bdi_atomic := ib_atomic payload;
  bdi_batch_id := ib_batch_id payload;
  bdi_recovery_clearances := map wc_value (ib_recovery_clearances payload);
  bdi_steps := map (λ step, {|
    bds_invocation_id := bst_invocation_id step;
    bds_method := bst_method step;
    bds_mutating := bst_mutating step;
    bds_mutation_scope := bst_mutation_scope step;
    bds_params_digest := bst_params_digest step;
    bds_policy := {|
      bdp_class := bdp_class (bst_policy step);
      bdp_confirmation_id := bdp_confirmation_id (bst_policy step);
      bdp_decision := bdp_decision (bst_policy step) |} |}) (ib_steps payload);
  bdi_timeout_ms := ib_timeout_ms payload |}.

Definition invokeBatchErrors (payload : InvokeBatch) : list ErrorObject :=
  duplicateInvocationIdErrors (map bst_invocation_id (ib_steps payload)) (js "/payload/steps") ++
  recoveryClearanceErrors (ib_recovery_clearances payload) (js "/payload/recovery_clearances") ++
  concat (imap step_digest_errors (ib_steps payload)) ++
  match makeBatchDigest (batch_digest_input payload) with
  | Ok expected =>
      report (ib_batch_digest payload !== expected) (js "/payload/batch_digest")
        (js "batch_digest must equal the RFC 8785 digest of batch semantics (" ++ expected ++ js ")")
  | Throw error =>
      [semanticError (js "/payload/batch_digest")
         (js "batch digest material is not RFC 8785 JSON: " ++ err_message error)]
  end.

End operations.

(** The loop over the artifact descriptors, with the ids [artifactIds] so far. *)
Fixpoint artifact_errors (artifactIds : list jstr) (position : nat) (artifacts : list ArtifactDescriptor)
  : list ErrorObject :=
  match artifacts with
  | [] => []
  | artifact :: artifacts =>
      let path := js "/payload/artifacts/" ++ pos position in
      report (ad_artifact_index artifact !== Z.of_nat position) (path ++ js "/artifact_index")
        (js "artifact_index must equal its zero-based descriptor position (" ++ pos position ++ js ")") ++
      report (bool_decide (ad_artifact_id artifact ∈ artifactIds)) (path ++ js "/artifact_id")
        (js "artifact_id values must be unique within an invocation") ++
      report (ad_stream_id artifact !== js "artifact:" ++ ad_artifact_id artifact) (path ++ js "/stream_id")
        (js "artifact stream_id must be artifact:<artifact_id>") ++
      artifact_errors (ad_artifact_id artifact :: artifactIds) (S position) artifacts
  end.

Definition combinedSize (artifacts : list ArtifactDescriptor) : Z :=
  foldl (λ size artifact, size + ad_total_size artifact) 0 artifacts.

Definition invocationResultErrors (artifacts : option (list ArtifactDescriptor)) : list ErrorObject :=
  match artifacts with
  | None => []
  | Some artifacts =>
      artifact_errors [] 0 artifacts ++
      report (33554432 <? combinedSize artifacts) (js "/payload/artifacts")
        (js "combined artifact descriptor total_size must not exceed 32 MiB")
  end.

(** ** Batch results *)

Definition known_retryable (error : ErrorDetail) : bool :=
  (ed_fault_class error === fc_environment) && (ed_retryable error === true) &&
  (ed_outcome error === Some outcome_known) && (ed_verification_required error === Some false).

(** The callback of [allowsAllReadMissingCarrierFailures]. *)
Definition read_missing_carrier (step : BatchStepResult) : bool :=
  (bsr_status step === step_known failed) &&
  match bsr_error step with Some error => known_retryable error | None => false end.

Definition allowsAllReadMissingCarrierFailures (payload : BatchResult) : bool :=
  br_atomic payload && (br_status payload === step_known failed) &&
  (br_transaction_state payload === ts_rolled_back) &&
  (0 <? length (br_steps payload))%nat && forallb read_missing_carrier (br_steps payload).

Definition allowsMultipleNonSuccessSteps (payload : BatchResult) : bool :=
  allowsAllReadMissingCarrierFailures payload ||
  (br_atomic payload && (br_status payload === step_indeterminate) &&
   (br_transaction_state payload === ts_indeterminate)).

Definition fault_class_is (error : option ErrorDetail) (c : FaultClass) : bool :=
  (ed_fault_class <$> error) === Some c.

(** The status of a step against its error. *)
Definition step_error_errors (path : jstr) (step : BatchStepResult) : list ErrorObject :=
  let error := bsr_error step in
  if bsr_status step === step_indeterminate then
    report (negb (fault_class_is error fc_journal_indeterminate) ||
            ((ed_retryable <$> error) !== Some false) ||
            ((error ≫= ed_outcome) !== Some outcome_indeterminate) ||
            ((error ≫= ed_verification_required) !== Some true) ||
            is_null (error ≫= ed_verification_hold_id) ||
            is_null (error ≫= ed_mutation_scope)) (path ++ js "/error")
      (js "an indeterminate step requires the journal_indeterminate unknown-outcome contract")
  else if (bsr_status step === step_known failed) && fault_class_is error fc_cancelled then
    [semanticError (path ++ js "/error/fault_class") (js "step status:failed excludes fault_class:cancelled")]
  else if (bsr_status step === step_known cancelled) && negb (fault_class_is error fc_cancelled) then
    [semanticError (path ++ js "/error/fault_class") (js "step status:cancelled requires fault_class:cancelled")]
  else
    report (((bsr_status step === step_known failed) || (bsr_status step === step_known cancelled)) &&
            fault_class_is error fc_journal_indeterminate) (path ++ js "/error/fault_class")
      (js "journal_indeterminate requires step status:indeterminate").

Definition replay_errors (path : jstr) (step : BatchStepResult) : list ErrorObject :=
  match bsr_error step with
  | None => []
  | Some nestedError =>
      if (ed_replayed nestedError === Some true) && (bsr_replayed step === false) then
        [semanticError (path ++ js "/error/replayed")
           (js "nested error.replayed:true requires enclosing step.replayed:true")]
      else
        report ((bsr_replayed step === false) && (ed_replayed nestedError !== Some false))
          (path ++ js "/error/replayed")
          (js "a fresh batch step requires nested error.replayed:false")
  end.

Definition late_errors (path : jstr) (step : BatchStepResult) : list ErrorObject :=
  let stepIsLate := bsr_late_after_indeterminate step === Some true in
  match bsr_error step with
  | None => []
  | Some nestedError =>
      let errorIsLate := ed_late_after_indeterminate nestedError === Some true in
      report (negb (Bool.eqb stepIsLate errorIsLate)) (path ++ js "/late_after_indeterminate")
        (js "a terminal error and its enclosing step must agree on late_after_indeterminate") ++
      report (errorIsLate &&
              ((bsr_verification_hold_id step !== ed_verification_hold_id nestedError) ||
               (bsr_result_digest step !== ed_result_digest nestedError)))
        (path ++ js "/verification_hold_id")
        (js "a late terminal error and its enclosing step must carry identical hold and result digests")
  end.

(** The body of the loop over the steps. *)
Definition step_errors (allowsMultiple : bool) (firstNonSuccess : option nat) (position : nat)
  (step : BatchStepResult) : list ErrorObject :=
  let path := js "/payload/steps/" ++ pos position in
  report (bsr_index step !== Z.of_nat position) (path ++ js "/index")
    (js "batch step index must equal its zero-based position (" ++ pos position ++ js ")") ++
  report (negb allowsMultiple &&
          match firstNonSuccess with Some first => (first <? position)%nat | None => false end &&
          (bsr_status step !== step_not_started)) (path ++ js "/status")
    (js "steps after the first non-success terminal step must be not_started") ++
  step_error_errors path step ++ replay_errors path step ++ late_errors path step.

Definition known_text (s : KnownTerminalJournalState) : jstr :=
  match s with
  | completed => js "completed" | failed => js "failed"
  | guarded => js "guarded" | cancelled => js "cancelled"
  end.

Definition status_text (s : BatchStepStatus) : jstr :=
  match s with
  | step_known s => known_text s
  | step_indeterminate => js "indeterminate"
  | step_not_started => js "not_started"
  end.

Definition tx_text (s : TransactionState) : jstr :=
  match s with
  | ts_committed => js "committed" | ts_rolled_back => js "rolled_back"
  | ts_not_applicable => js "not_applicable" | ts_indeterminate => js "indeterminate"
  end.

(** [slice.every(...)], where [step.error.fault_class] throws without an error. *)
Fixpoint every_read_missing_carrier (steps : list BatchStepResult) : result js_error bool :=
  match steps with
  | [] => Ok true
  | step :: steps =>
      if bsr_status step !== step_known failed then Ok false else
      match bsr_error step with
      | None => throw TypeError "Cannot read properties of undefined (reading 'fault_class')"
      | Some error => if known_retryable error then every_read_missing_carrier steps else Ok false
      end
  end.

Definition hasExactUnknownCarrierReadPrefix (payload : BatchResult) (firstNonSuccess : option nat)
  : result js_error bool :=
  let firstIndeterminate := find_index (λ step, bsr_status step === step_indeterminate) (br_steps payload) in
  if br_atomic payload && (br_status payload === step_indeterminate) &&
     (br_transaction_state payload === ts_indeterminate) then
    match firstNonSuccess, firstIndeterminate with
    | Some first, Some last =>
        if (first <? last)%nat
        then every_read_missing_carrier (drop first (take last (br_steps payload)))
        else Ok false
    | _, _ => Ok false
    end
  else Ok false.

Definition expectedTransactionStates (payload : BatchResult) : list TransactionState :=
  if negb (br_atomic payload) then [ts_not_applicable] else
  if br_status payload === step_known completed then [ts_committed] else
  if br_status payload === step_indeterminate then [ts_indeterminate] else
  if br_status payload === step_known cancelled then [ts_committed; ts_rolled_back] else [ts_rolled_back].

Definition batchResultErrors (payload : BatchResult) : result js_error (list ErrorObject) :=
  let steps := br_steps payload in
  let firstNonSuccess := find_index (λ step, bsr_status step !== step_known completed) steps in
  let expectedFailureIndex := Z.of_nat <$> firstNonSuccess in
  let allowsMultiple := allowsMultipleNonSuccessSteps payload in
  prefix ← hasExactUnknownCarrierReadPrefix payload firstNonSuccess;
  let expectedStatus :=
    if (prefix : bool) then Some step_indeterminate
    else match firstNonSuccess with
         | None => Some (step_known completed)
         | Some first => bsr_status <$> steps !! first
         end in
  Ok (duplicateInvocationIdErrors (map bsr_invocation_id steps) (js "/payload/steps") ++
      concat (imap (step_errors allowsMultiple firstNonSuccess) steps) ++
      report (br_failed_step_index payload !== expectedFailureIndex) (js "/payload/failed_step_index")
        (js "failed_step_index must be " ++
         match expectedFailureIndex with None => js "null" | Some i => dec i end) ++
      report (Some (br_status payload) !== expectedStatus) (js "/payload/status")
        (js "batch status must match the first non-success step (" ++
         match expectedStatus with None => js "undefined" | Some s => status_text s end ++ js ")") ++
      report (negb (bool_decide (br_transaction_state payload ∈ expectedTransactionStates payload)))
        (js "/payload/transaction_state")
        (js "atomic:" ++ (if br_atomic payload then js "true" else js "false") ++ js " status:" ++
         status_text (br_status payload) ++ js " requires transaction_state:" ++
         join (js "|") (map tx_text (expectedTransactionStates payload))) ++
      report (br_replayed payload &&
              existsb (λ step, (bsr_status step !== step_not_started) && negb (bsr_replayed step)) steps)
        (js "/payload/replayed")
        (js "batch replayed:true requires every returned terminal step to be replayed")).

(** ** The entry points *)

Section envelope.
Context `{Hasher}.

Definition semanticEnvelopeErrors (value : RbpEnvelope) : result js_error (list ErrorObject) :=
  match value with
  | invoke_batch_envelope payload => Ok (invokeBatchErrors payload)
  | invoke_envelope clearances => Ok (recoveryClearanceErrors clearances (js "/payload/recovery_clearances"))
  | partial_envelope (partial_chunk stream_id artifact_id data) =>
      if 4 * 1048576 <? decodedBase64Size_x4 data then
        Ok [semanticError (js "/payload/data") (js "decoded partial chunk data must not exceed 1 MiB")]
      else Ok (report (match artifact_id with
                       | None => false
                       | Some id => stream_id !== js "artifact:" ++ id
                       end) (js "/payload/stream_id")
                 (js "artifact chunk stream_id must be artifact:<artifact_id>"))
  | partial_envelope partial_progress => Ok []
  | result_envelope (batch_result payload) => batchResultErrors payload
  | result_envelope (invocation_result artifacts) => Ok (invocationResultErrors artifacts)
  | other_envelope _ => Ok []
  end.

(** The module's variable [lastErrors] is the state; [validateSchema] is Ajv's. *)
Context {unknown : Type} (validateSchema : unknown → list ErrorObject + RbpEnvelope).

Definition validateRbpEnvelope (lastErrors : list ErrorObject) (value : unknown)
  : list ErrorObject * result js_error bool :=
  match validateSchema value with
  | inl errors => (errors, Ok false)
  | inr envelope =>
      match semanticEnvelopeErrors envelope with
      | Ok errors => (errors, Ok (length errors =? 0)%nat)
      | Throw e => (lastErrors, Throw e)
      end
  end.

Definition rbpEnvelopeErrors (lastErrors : list ErrorObject) : list ErrorObject := lastErrors.

End envelope.
End Envelope.

(** * Facts *)

Module EnvelopeFacts.
Import Canonical CanonicalFacts Journal JournalFacts MutationHold Envelope.

#[local] Arguments report : simpl never.
#[local] Arguments js : simpl never.

(** ** Reports *)

Lemma report_nil c p m : report c p m = [] ↔ c = false.
Proof. by destruct c. Qed.

Lemma concat_imap_nil {A B} (f : nat → A → list B) xs :
  concat (imap f xs) = [] ↔ ∀ i x, xs !! i = Some x → f i x = [].
Proof.
  revert f. induction xs as [|x xs IH]; intros f; cbn; [naive_solver|].
  rewrite app_nil, IH. split.
  - intros [Hx Hxs] [|i] y; cbn; [by intros [= <-]|apply Hxs].
  - intros Hall. split; [by apply (Hall 0%nat)|]. intros i y. apply (Hall (S i)).
Qed.

Lemma duplicate_id_errors_nil path seen index ids :
  duplicate_id_errors path seen index ids = [] ↔ NoDup ids ∧ ∀ x, x ∈ ids → x ∉ seen.
Proof.
  revert seen index. induction ids as [|id ids IH]; intros seen index; cbn [duplicate_id_errors].
  { split; [|done]. intros _. split; [constructor|]. intros x Hx. by apply not_elem_of_nil in Hx. }
  rewrite app_nil, report_nil, IH, bool_decide_eq_false, NoDup_cons.
  setoid_rewrite elem_of_cons. split.
  - intros (Hid & Hnd & Hs). split; [split; [|done]|].
    + intros Hin. apply (Hs id Hin). by left.
    + intros x [-> | Hx]; [done|]. intros Hx'. apply (Hs x Hx). by right.
  - intros ((Hid & Hnd) & Hs). split; [by apply Hs; left|]. split; [done|].
    intros x Hx [-> | Hx']; [done|]. apply (Hs x); [by right|done].
Qed.

(** ** Clearances *)

(** Each id is below the next one. *)
Definition ascending (ids : list jstr) : Prop :=
  ∀ i a b, ids !! i = Some a → ids !! S i = Some b → str_ltb a b = true.

Lemma unsorted_ids_false ids : unsorted_ids ids = false ↔ ascending ids.
Proof.
  induction ids as [|a ids IH]; [split; [by intros _ i|done]|].
  destruct ids as [|b ids]; [split; [by intros _ [|i]|done]|].
  change (unsorted_ids (a :: b :: ids)) with (str_leb b a || unsorted_ids (b :: ids)).
  rewrite orb_false_iff, IH. unfold str_leb at 1. rewrite negb_false_iff. split.
  - intros [Hab Hs] [|i] x y; cbn; [by intros [= <-] [= <-]|]. apply Hs.
  - intros Hs. split; [by apply (Hs 0%nat)|]. intros i. apply (Hs (S i)).
Qed.

Lemma ascending_lt ids i j a b :
  ascending ids → (i < j)%nat → ids !! i = Some a → ids !! j = Some b → str_ltb a b = true.
Proof.
  intros Hs Hij. revert b. induction Hij as [|j Hij IH]; intros b Ha Hb; [by eapply Hs|].
  assert (is_Some (ids !! j)) as [c Hc].
  { apply lookup_lt_is_Some. apply lookup_lt_Some in Hb. lia. }
  eapply str_ltb_trans; [by apply (IH c)|by eapply Hs].
Qed.

(** The report of one position of the loop. *)
Lemma clearance_errors_nil path all index rest :
  rest = drop index all →
  clearance_errors path all index rest = [] ↔
  ∀ i h, (index <= i)%nat → all !! i = Some h →
    find_index (λ x, x === h) all = Some i ∧
    ((0 < i)%nat → str_ltb h (nullish (all !! pred i) []) = false).
Proof.
  revert index. induction rest as [|h rest IH]; intros index Hr; cbn [clearance_errors].
  { split; [|done]. intros _ i h Hi Hh. apply lookup_lt_Some in Hh.
    apply (f_equal length) in Hr. rewrite length_drop in Hr. cbn in Hr. lia. }
  assert (all !! index = Some h) as Hh.
  { replace index with (index + 0)%nat by lia. by rewrite <- lookup_drop, <- Hr. }
  assert (rest = drop (S index) all) as Hr'.
  { by rewrite <- (drop_drop all index 1), <- Hr, Nat.add_1_r || (rewrite <- Nat.add_1_r, <- drop_drop, <- Hr; done). }
  rewrite app_nil, report_nil, negb_false_iff, bool_decide_eq_true.
  destruct ((0 <? index)%nat && _) eqn:E.
  - split; [by intros [_ ?]|]. intros Hall. apply andb_true_iff in E as [E1 E2]. apply Nat.ltb_lt in E1.
    destruct (Hall index h) as [_ H2]; [lia|done|]. rewrite H2 in E2 by done. done.
  - rewrite (IH _ Hr'). split.
    + intros [H1 H2] i x Hi Hx. destruct (decide (i = index)) as [-> | Hne]; [|by apply H2; [lia|]].
      simplify_eq. split; [done|]. intros H0. apply andb_false_iff in E as [E|E]; [|done].
      apply Nat.ltb_ge in E. lia.
    + intros Hall. split; [by apply Hall|]. intros i x Hi. apply Hall. lia.
Qed.

Lemma recoveryClearanceErrors_nil cs path :
  recoveryClearanceErrors cs path = [] ↔
  unsorted_ids (map (λ c, rc_hold_id (wc_clearance c)) cs) = false.
Proof.
  unfold recoveryClearanceErrors. rewrite clearance_errors_nil by done. rewrite unsorted_ids_false.
  set (ids := map _ cs). split.
  - intros Hall i a b Ha Hb. destruct (Hall (S i) b) as [Hf Hlt]; [lia|done|].
    rewrite Ha in Hlt || (cbn in Hlt; rewrite Ha in Hlt). cbn in Hlt.
    apply find_index_some in Hf as [_ Hf]. specialize (Hf i a ltac:(lia) Ha). bsimp.
    destruct (str_ltb_cases a b) as [?|[?|Hba]]; [done..|]. rewrite Hlt in Hba by lia. done.
  - intros Hs i h _ Hh. split.
    + apply find_index_some. split; [exists h; split; [done|by apply bool_decide_eq_true]|].
      intros j y Hj Hy. apply bool_decide_eq_false. apply str_ltb_neq. by eapply ascending_lt.
    + intros Hi. destruct i as [|i]; [lia|]. cbn [pred].
      assert (is_Some (ids !! i)) as [a Ha] by (apply lookup_lt_is_Some; apply lookup_lt_Some in Hh; lia).
      rewrite Ha. cbn. apply str_ltb_asym. by eapply Hs.
Qed.

(** ** Chunk sizes *)

Lemma starts_with_app p s t : (length p <= length s)%nat → starts_with p (s ++ t) = starts_with p s.
Proof.
  revert s. induction p as [|x p IH]; intros [|y s] Hl; cbn in *; try done; try lia.
  by rewrite IH by lia.
Qed.

Lemma ends_with_app p s t : (length p <= length s)%nat → ends_with p (t ++ s) = ends_with p s.
Proof. intros Hl. unfold ends_with. rewrite reverse_app. apply starts_with_app. by rewrite !length_reverse. Qed.

Lemma ends_with_cons4 p s a b c d :
  (length p <= length s)%nat → ends_with p (a :: b :: c :: d :: s) = ends_with p s.
Proof. apply (ends_with_app p s [a; b; c; d]). Qed.

(** The padding of a last group of four. *)
Lemma ends_with_group c d a b x y :
  ends_with [c; d] [a; b; x; y] = (d =? y) && (c =? x) ∧ ends_with [d] [a; b; x; y] = (d =? y).
Proof. unfold ends_with. cbn. by rewrite !andb_true_r. Qed.

Lemma encoded_size bytes :
  Forall is_byte bytes → decodedBase64Size_x4 (base64_encode bytes) = 4 * Z.of_nat (length bytes).
Proof.
  assert (js "==" = [pad; pad]) as E2 by done. assert (js "=" = [pad]) as E1 by done.
  unfold decodedBase64Size_x4. rewrite E1, E2. clear E1 E2.
  induction bytes as [|x|x y|x y z rest IH] using list_ind3; intros Hb.
  - done.
  - done.
  - apply Forall_cons in Hb as [Hx Hb]. rewrite Forall_singleton in Hb.
    destruct (sextets x y 0) as (A & B & C & D & E); [done|done|unfold is_byte; lia|].
    cbn [base64_encode]. set (n := b64_group x y 0) in *.
    rewrite !(proj1 (ends_with_group _ _ _ _ _ _)), !(proj2 (ends_with_group pad _ _ _ _ _)).
    rewrite (Z.eqb_sym pad (b64_char _)), b64_char_eqb by done. done.
  - apply Forall_cons in Hb as [Hx Hb]. apply Forall_cons in Hb as [Hy Hb]. apply Forall_cons in Hb as [Hz Hb].
    specialize (IH Hb). destruct (sextets x y z) as (A & B & C & D & E); [done..|].
    cbn [base64_encode]. set (n := b64_group x y z) in *.
    destruct (decide (rest = [])) as [-> | Hne].
    + cbn [base64_encode].
      rewrite !(proj1 (ends_with_group _ _ _ _ _ _)), !(proj2 (ends_with_group pad _ _ _ _ _)).
      rewrite (Z.eqb_sym pad (b64_char (n mod 64))), b64_char_eqb by done. done.
    + pose proof (encode_length rest Hne) as Hl.
      rewrite !ends_with_cons4 by (cbn; lia). cbn [length]. lia.
Qed.

(** ** Batches *)

Section batches.
Context `{Hasher}.

Lemma digest_report_nil (computed : result js_error jstr) (claimed p : jstr) m p' m' :
  match computed with
  | Ok expected => report (claimed !== expected) p (m expected)
  | Throw error => [semanticError p' (m' error)]
  end = [] ↔ computed = Ok claimed.
Proof.
  destruct computed; [|done]. rewrite report_nil, negb_false_iff, bool_decide_eq_true. naive_solver.
Qed.

Lemma invokeBatchErrors_nil p :
  invokeBatchErrors p = [] ↔
  NoDup (map bst_invocation_id (ib_steps p)) ∧
  unsorted_ids (map (λ c, rc_hold_id (wc_clearance c)) (ib_recovery_clearances p)) = false ∧
  Forall (λ step, makeParamsDigest (bst_params step) = Ok (bst_params_digest step)) (ib_steps p) ∧
  makeBatchDigest (batch_digest_input p) = Ok (ib_batch_digest p).
Proof.
  unfold invokeBatchErrors, duplicateInvocationIdErrors.
  rewrite !app_nil, duplicate_id_errors_nil, recoveryClearanceErrors_nil, concat_imap_nil.
  rewrite (digest_report_nil (makeBatchDigest _) _ _ (λ e, _ ++ e ++ _) _ (λ e, _ ++ err_message e)).
  assert ((∀ i step, ib_steps p !! i = Some step → step_digest_errors i step = []) ↔
          Forall (λ step, makeParamsDigest (bst_params step) = Ok (bst_params_digest step)) (ib_steps p)) as ->.
  { rewrite Forall_lookup. unfold step_digest_errors.
    by setoid_rewrite (λ s i, digest_report_nil (makeParamsDigest (bst_params s)) (bst_params_digest s)
                         (js "/payload/steps/" ++ pos i ++ js "/params_digest") (λ e, _ ++ e ++ _)
                         (js "/payload/steps/" ++ pos i ++ js "/params") (λ e, _ ++ err_message e)). }
  split; [intros ((? & ?) & ?); auto|]. intros (Hnd & ?). split; [|done]. split; [done|].
  intros x _. apply not_elem_of_nil.
Qed.

(** ** The material of a batch digest *)

(** What a step contributes to the digest. *)
Definition step_semantics (step : BatchStep) :=
  (bst_invocation_id step, bst_method step, bst_mutating step, bst_params_digest step,
   (bdp_class (bst_policy step), bdp_confirmation_id (bst_policy step), bdp_decision (bst_policy step)),
   normalize (bst_mutation_scope step)).

Definition members_of (v : jsval) : list jsval := match v with VObj _ ms => map snd ms | _ => [] end.
Definition items_of (v : jsval) : list jsval := match v with VArr xs => xs | _ => [] end.

Lemma opt_str_inj a b : opt_str a = opt_str b → a = b.
Proof. destruct a, b; cbn; congruence. Qed.

Definition step_value (step : BatchStep) : jsval :=
  obj [(js "invocation_id", VStr (bst_invocation_id step));
       (js "method", VStr (bst_method step));
       (js "mutating", VBool (bst_mutating step));
       (js "mutation_scope", bst_mutation_scope step);
       (js "params_digest", VStr (bst_params_digest step));
       (js "policy",
         obj [(js "class", VStr (bdp_class (bst_policy step)));
              (js "confirmation_id", opt_str (bdp_confirmation_id (bst_policy step)));
              (js "decision", VStr (bdp_decision (bst_policy step)))])].

Lemma normalize_opt_str o : normalize (opt_str o) = opt_str o.
Proof. by destruct o. Qed.

Lemma step_value_inj s t : normalize (step_value s) = normalize (step_value t) → step_semantics s = step_semantics t.
Proof.
  intros E. apply (f_equal members_of) in E. unfold step_value in E. cbn in E.
  rewrite !normalize_opt_str in E. injection E as E1 E2 E3 E4 E5 E6 E7%opt_str_inj E8.
  unfold step_semantics. by rewrite E1, E2, E3, E4, E5, E6, E7, E8.
Qed.

Lemma batch_material_members p :
  members_of (normalize (batch_material (batch_digest_input p))) =
  [VBool (ib_atomic p); VStr (ib_batch_id p);
   VArr (map normalize (map wc_value (ib_recovery_clearances p)));
   VArr (map normalize (map step_value (ib_steps p))); VNum (ib_timeout_ms p)].
Proof. unfold batch_material, batch_digest_input. cbn. by rewrite !map_map. Qed.

Lemma map_map_inj {A B C} (f : B → A) (g : A → A) (h : B → C) (xs ys : list B) :
  (∀ x y, g (f x) = g (f y) → h x = h y) → map g (map f xs) = map g (map f ys) → map h xs = map h ys.
Proof.
  intros Hinj. revert ys. induction xs as [|x xs IH]; intros [|y ys] E; cbn in *; try done.
  injection E as E1 E2. f_equal; auto.
Qed.

End batches.

(** ** Batch results *)

Lemma find_index_map {A B} (f : A → B) (p : B → bool) xs :
  find_index p (map f xs) = find_index (λ x, p (f x)) xs.
Proof. induction xs as [|x xs IH]; cbn; [done|]. by rewrite IH. Qed.

Definition firstNonSuccess (p : BatchResult) : option nat :=
  find_index (λ step, bsr_status step !== step_known completed) (br_steps p).

(** What the batch as a whole is held to, [prefix] being the reading of an
    indeterminate atomic batch whose first steps are known read failures. *)
Record batch_accepted (p : BatchResult) (prefix : bool) : Prop := {
  ba_prefix : hasExactUnknownCarrierReadPrefix p (firstNonSuccess p) = Ok prefix;
  ba_ids : NoDup (map bsr_invocation_id (br_steps p));
  ba_steps : ∀ i step, br_steps p !! i = Some step →
    step_errors (allowsMultipleNonSuccessSteps p) (firstNonSuccess p) i step = [];
  ba_failed : br_failed_step_index p = Z.of_nat <$> firstNonSuccess p;
  ba_status : Some (br_status p) =
    if prefix then Some step_indeterminate
    else match firstNonSuccess p with
         | None => Some (step_known completed)
         | Some first => bsr_status <$> br_steps p !! first
         end;
  ba_tx : br_transaction_state p ∈ expectedTransactionStates p;
  ba_replayed : br_replayed p = true → ∀ step, step ∈ br_steps p →
    bsr_status step ≠ step_not_started → bsr_replayed step = true }.

Lemma batchResultErrors_nil p : batchResultErrors p = Ok [] ↔ ∃ prefix, batch_accepted p prefix.
Proof.
  unfold batchResultErrors. fold (firstNonSuccess p). rewrite bind_ok. split.
  - intros (prefix & Hp & E). exists prefix. injection E as E.
    rewrite !app_nil, !report_nil in E. unfold duplicateInvocationIdErrors in E.
    rewrite duplicate_id_errors_nil, concat_imap_nil in E.
    destruct E as ((Hnd & _) & Hsteps & Hf & Hst & Htx & Hre). bsimp. split; try done.
    intros Hr step Hin Hns. rewrite Hr in Hre. cbn in Hre. rewrite existsb_false in Hre.
    specialize (Hre step Hin). apply andb_false_iff in Hre as [Hre|Hre]; bsimp; done.
  - intros [prefix [Hp Hnd Hsteps Hf Hst Htx Hre]]. exists prefix. split; [done|]. f_equal.
    unfold duplicateInvocationIdErrors.
    rewrite !app_nil, !report_nil, duplicate_id_errors_nil, concat_imap_nil.
    rewrite !negb_false_iff, !bool_decide_eq_true. repeat split; try done.
    + intros x _. apply not_elem_of_nil.
    + apply andb_false_iff. destruct (br_replayed p); [right|by left].
      apply existsb_false. intros step Hin. specialize (Hre eq_refl step Hin).
      destruct (decide (bsr_status step = step_not_started)) as [-> | Hne]; [done|].
      rewrite (Hre Hne). by rewrite andb_false_r.
Qed.

(** A step that is not the first failure of its batch was never started. *)
Lemma step_errors_later am first i step f :
  step_errors am first i step = [] → am = false → first = Some f → (f < i)%nat →
  bsr_status step = step_not_started.
Proof.
  unfold step_errors. rewrite !app_nil, !report_nil. intros (_ & Hs & _) -> -> Hlt%Nat.ltb_lt.
  rewrite Hlt in Hs. cbn in Hs. by bsimp.
Qed.

(** The contract of an indeterminate step's error. *)
Definition unknown_outcome (step : BatchStepResult) : Prop :=
  ∃ e hold scope, bsr_error step = Some e ∧ ed_fault_class e = fc_journal_indeterminate ∧
    ed_retryable e = false ∧ ed_outcome e = Some outcome_indeterminate ∧
    ed_verification_required e = Some true ∧ ed_verification_hold_id e = Some hold ∧
    ed_mutation_scope e = Some scope.

Lemma step_errors_indeterminate am first i step :
  step_errors am first i step = [] → bsr_status step = step_indeterminate → unknown_outcome step.
Proof.
  unfold step_errors, step_error_errors. rewrite !app_nil. intros (_ & _ & Hs & _) Hst.
  rewrite bool_decide_eq_true_2, report_nil in Hs by done. unfold fault_class_is in Hs. bsimp.
  destruct (bsr_error step) as [e|] eqn:Ee; [|done]. cbn in *. simplify_eq.
  destruct (ed_verification_hold_id e) as [hold|] eqn:Eh; [|done].
  destruct (ed_mutation_scope e) as [scope|] eqn:Es; [|done].
  exists e, hold, scope. by repeat split.
Qed.

Lemma allows_multiple_atomic p : br_atomic p = false → allowsMultipleNonSuccessSteps p = false.
Proof.
  intros Ha. unfold allowsMultipleNonSuccessSteps, allowsAllReadMissingCarrierFailures. by rewrite Ha.
Qed.

Lemma prefix_atomic p first : br_atomic p = false → hasExactUnknownCarrierReadPrefix p first = Ok false.
Proof. intros Ha. unfold hasExactUnknownCarrierReadPrefix. by rewrite Ha. Qed.

(** The exceptional prefix is a batch whose status says so. *)
Lemma prefix_true p first :
  hasExactUnknownCarrierReadPrefix p first = Ok true →
  ∃ step, step ∈ br_steps p ∧ bsr_status step = step_indeterminate.
Proof.
  unfold hasExactUnknownCarrierReadPrefix. destruct (_ && _); [|done].
  destruct first as [f|]; [|done]. destruct (find_index _ _) as [k|] eqn:Ek; [|done].
  intros _. apply find_index_some in Ek as [(step & Hs & He) _]. bsimp. exists step.
  split; [by eapply list_elem_of_lookup_2|done].
Qed.

(** Where several steps may fail, an unknown outcome is the status of the batch. *)
Lemma allows_multiple_indeterminate p step :
  allowsMultipleNonSuccessSteps p = true → step ∈ br_steps p → bsr_status step = step_indeterminate →
  br_status p = step_indeterminate.
Proof.
  unfold allowsMultipleNonSuccessSteps, allowsAllReadMissingCarrierFailures. intros Ha Hin Hs.
  apply orb_true_iff in Ha as [Ha|Ha]; bsimp; [|done].
  match goal with H : forallb _ _ = true |- _ => rewrite forallb_true in H; specialize (H step Hin) end.
  unfold read_missing_carrier in *. bsimp. congruence.
Qed.

Lemma every_read_missing_carrier_ok steps :
  (∀ step, step ∈ steps → bsr_status step = step_known failed → is_Some (bsr_error step)) →
  ∃ b, every_read_missing_carrier steps = Ok b.
Proof.
  induction steps as [|step steps IH]; intros Hs; cbn [every_read_missing_carrier]; [by eexists|].
  destruct (bool_decide _) eqn:E; cbn; [|by eexists]. bsimp.
  destruct (Hs step) as [e He]; [by left|done|]. rewrite He.
  destruct (known_retryable e); [|by eexists]. apply IH. intros s Hin. apply Hs. by right.
Qed.

(** The schema's demand on the steps of a batch result. *)
Definition failures_explained (p : BatchResult) : Prop :=
  ∀ step, step ∈ br_steps p → bsr_status step = step_known failed → is_Some (bsr_error step).

Lemma batchResultErrors_total p : failures_explained p → ∃ errors, batchResultErrors p = Ok errors.
Proof.
  intros Hf. unfold batchResultErrors. fold (firstNonSuccess p).
  assert (∃ b, hasExactUnknownCarrierReadPrefix p (firstNonSuccess p) = Ok b) as [b Hb].
  { unfold hasExactUnknownCarrierReadPrefix. destruct (_ && _); [|by eexists].
    destruct (firstNonSuccess p) as [f|]; [|by eexists]. destruct (find_index _ _) as [k|]; [|by eexists].
    destruct (f <? k)%nat; [|by eexists]. apply every_read_missing_carrier_ok.
    intros step Hin. apply Hf. eapply subseteq_take, subseteq_drop, Hin. }
  rewrite Hb. by eexists.
Qed.

Lemma ok_nil (xs : list ErrorObject) : (Ok xs : result js_error _) = Ok [] ↔ xs = [].
Proof. split; [by intros [= ->]|by intros ->]. Qed.

(** ** The properties *)

Section properties.
Context `{Hasher}.

(** An [invoke_batch] passes exactly when its invocation ids are distinct, its
    clearances are in the order the dispatch authorisation demands, every step
    carries the digest of its own parameters and the batch carries the digest of
    its own semantics. *)
Theorem invoke_batch_accepted p :
  semanticEnvelopeErrors (invoke_batch_envelope p) = Ok [] ↔
  NoDup (map bst_invocation_id (ib_steps p)) ∧
  unsorted_ids (map (λ c, rc_hold_id (wc_clearance c)) (ib_recovery_clearances p)) = false ∧
  Forall (λ step, makeParamsDigest (bst_params step) = Ok (bst_params_digest step)) (ib_steps p) ∧
  makeBatchDigest (batch_digest_input p) = Ok (ib_batch_digest p).
Proof. rewrite <- invokeBatchErrors_nil. apply ok_nil. Qed.

(** The batch digest binds the batch. Two accepted batches with one digest,
    on whose materials the hash does not collide, agree on the batch id, on
    atomicity, on the timeout and step by step on invocation, method, policy,
    scope and parameters (the values, up to the order of members). *)
Theorem batch_digest_binds p q :
  semanticEnvelopeErrors (invoke_batch_envelope p) = Ok [] →
  semanticEnvelopeErrors (invoke_batch_envelope q) = Ok [] →
  ib_batch_digest p = ib_batch_digest q →
  wire_value (batch_material (batch_digest_input p)) = true →
  wire_value (batch_material (batch_digest_input q)) = true →
  collision_free (batch_material (batch_digest_input p)) (batch_material (batch_digest_input q)) →
  Forall (λ s, wire_value (bst_params s) = true) (ib_steps p ++ ib_steps q) →
  (∀ s t, s ∈ ib_steps p → t ∈ ib_steps q → collision_free (bst_params s) (bst_params t)) →
  ib_atomic p = ib_atomic q ∧ ib_batch_id p = ib_batch_id q ∧ ib_timeout_ms p = ib_timeout_ms q ∧
  map step_semantics (ib_steps p) = map step_semantics (ib_steps q) ∧
  map (λ s, normalize (bst_params s)) (ib_steps p) = map (λ s, normalize (bst_params s)) (ib_steps q).
Proof.
  intros (_ & _ & Hp & Hdp)%ok_nil%invokeBatchErrors_nil (_ & _ & Hq & Hdq)%ok_nil%invokeBatchErrors_nil.
  intros Hd Hwp Hwq Hcf Hw Hcfs.
  assert (normalize (batch_material (batch_digest_input p)) = normalize (batch_material (batch_digest_input q))) as E.
  { apply makeJsonDigest_inj; [exact Hwp|exact Hwq|exact Hcf|]. unfold makeBatchDigest in *. congruence. }
  apply (f_equal members_of) in E. rewrite !batch_material_members in E. injection E as Ea Eb _ Es Et.
  apply (map_map_inj _ _ step_semantics) in Es; [|apply step_value_inj].
  repeat (split; [done|]). apply Forall_app in Hw as [Hwp' Hwq'].
  clear - Hp Hq Es Hwp' Hwq' Hcfs. revert Es Hcfs Hq Hwq'. generalize (ib_steps q) as ts.
  induction (ib_steps p) as [|s ss IH]; intros [|t ts] Es Hcfs Hq Hwq; cbn in *; try done.
  injection Es as Eid Em Emu Edg Epo Esc Es. apply Forall_cons in Hp as [Hs Hp], Hq as [Ht Hq].
  apply Forall_cons in Hwp' as [Hws Hwp'], Hwq as [Hwt Hwq]. f_equal.
  - apply makeJsonDigest_inj; [done..|apply Hcfs; by left|]. unfold makeParamsDigest in *. congruence.
  - apply IH; try done. intros s' t' Hs' Ht'. apply Hcfs; by right.
Qed.

(** The size check on a chunk agrees with the assembler. For data that is
    canonical Base64, a partial passes exactly when the bytes it decodes to are
    within the chunk limit and an artifact chunk names its artifact's stream. *)
Theorem chunk_check_exact sid aid data bytes :
  decodeCanonicalBase64 data = Some bytes →
  semanticEnvelopeErrors (partial_envelope (partial_chunk sid aid data)) = Ok [] ↔
  Z.of_nat (length bytes) <= Stream.RBP_MAX_DECODED_CHUNK_BYTES ∧
  ∀ id, aid = Some id → sid = js "artifact:" ++ id.
Proof.
  intros (Hb & _ & ->)%decodeCanonicalBase64_spec.
  unfold semanticEnvelopeErrors. rewrite encoded_size by done.
  change (4 * 1048576) with 4194304. unfold Stream.RBP_MAX_DECODED_CHUNK_BYTES.
  destruct (4194304 <? _) eqn:E; bsimp.
  - split; [done|]. lia.
  - rewrite ok_nil, report_nil. destruct aid as [id|].
    + rewrite negb_false_iff, bool_decide_eq_true. split; [|naive_solver].
      intros ->. split; [lia|]. naive_solver.
    + split; [|done]. split; [lia|done].
Qed.

End properties.

(** An accepted result of a non-atomic batch has the shape the journal's
    validator demands (successes, then at most one failure and steps never
    started), and names that failure. *)
Theorem accepted_batch_matches_journal p :
  batchResultErrors p = Ok [] → br_atomic p = false → br_status p ≠ step_not_started →
  ∃ failed, validateAtomicFalseBatchStatuses (map bsr_status (br_steps p)) = Some failed ∧
            br_failed_step_index p = Z.of_nat <$> failed.
Proof.
  intros [prefix Hba]%batchResultErrors_nil Ha Hst. exists (firstNonSuccess p).
  split; [|apply (ba_failed _ _ Hba)]. pose proof (ba_prefix _ _ Hba) as Hp. pose proof (ba_status _ _ Hba) as Hs.
  rewrite prefix_atomic in Hp by done. injection Hp as <-.
  unfold validateAtomicFalseBatchStatuses. rewrite find_index_map. fold (firstNonSuccess p).
  destruct (firstNonSuccess p) as [f|] eqn:Ef; [|done].
  rewrite list_lookup_fmap, <- Hs, bool_decide_eq_false_2 by naive_solver.
  rewrite (proj2 (forallb_true _ _)); [done|]. intros s Hin. apply bool_decide_eq_true.
  apply list_elem_of_lookup in Hin as [i Hi]. rewrite lookup_drop, list_lookup_fmap in Hi.
  apply fmap_Some in Hi as (step & Hi & ->). eapply step_errors_later; [by apply (ba_steps _ _ Hba)| |done|lia].
  by apply allows_multiple_atomic.
Qed.

(** C30: no accepted batch result hides an unknown outcome: its status is
    [indeterminate] exactly when one of its steps is, and each such step names
    the hold that guards it and the scope it may have changed. *)
Theorem unknown_outcome_never_hidden p :
  batchResultErrors p = Ok [] →
  (br_status p = step_indeterminate ↔ ∃ step, step ∈ br_steps p ∧ bsr_status step = step_indeterminate) ∧
  ∀ step, step ∈ br_steps p → bsr_status step = step_indeterminate → unknown_outcome step.
Proof.
  intros [prefix Hba]%batchResultErrors_nil. pose proof (ba_status _ _ Hba) as Hs. split; [split|].
  - intros E. rewrite E in Hs. destruct prefix; [eapply prefix_true, (ba_prefix _ _ Hba)|].
    destruct (firstNonSuccess p) as [f|]; [|done]. symmetry in Hs. apply fmap_Some in Hs as (step & Hi & Hst).
    exists step. split; [by eapply list_elem_of_lookup_2|done].
  - intros (step & Hin & Hst). destruct (allowsMultipleNonSuccessSteps p) eqn:Eam.
    { by eapply allows_multiple_indeterminate. }
    pose proof Hin as [k Hk]%list_elem_of_lookup. destruct (firstNonSuccess p) as [f|] eqn:Ef.
    + assert (f = k) as ->.
      { pose proof Ef as [_ Hmin]%find_index_some. destruct (lt_eq_lt_dec f k) as [[Hlt|Heq]|Hgt]; [|done|].
        - pose proof (step_errors_later _ _ _ _ _ (ba_steps _ _ Hba k step Hk) Eam Ef Hlt). congruence.
        - specialize (Hmin k step Hgt Hk). bsimp. congruence. }
      rewrite Hk in Hs. cbn in Hs. rewrite Hst in Hs. destruct prefix; congruence.
    + apply find_index_none with (x := step) in Ef; [|done]. bsimp. congruence.
  - intros step Hin Hst. apply list_elem_of_lookup in Hin as [i Hi].
    eapply step_errors_indeterminate; [by apply (ba_steps _ _ Hba)|done].
Qed.

(** Validation always answers. When the schema lets a failed batch step
    through only with its error, [validateRbpEnvelope] returns on every value
    whatever was validated before, and it returns true exactly when
    [rbpEnvelopeErrors] is then empty, the schema having accepted. *)
Theorem validation_total `{Hasher} {unknown} (validateSchema : unknown → list ErrorObject + RbpEnvelope) last v :
  (∀ v p, validateSchema v = inr (result_envelope (batch_result p)) → failures_explained p) →
  ∃ errors valid, validateRbpEnvelope validateSchema last v = (errors, Ok valid) ∧
    (valid = true ↔ is_Some (match validateSchema v with inr e => Some e | inl _ => None end) ∧
                    rbpEnvelopeErrors errors = []).
Proof.
  intros Hschema. unfold validateRbpEnvelope, rbpEnvelopeErrors. specialize (Hschema v).
  destruct (validateSchema v) as [es|e].
  { exists es, false. split; [done|]. split; [done|]. by intros [[? ?] _]. }
  assert (∃ errors, semanticEnvelopeErrors e = Ok errors) as [errors ->].
  { destruct e as [|?|[? ? ?|]|[?|p]|?]; cbn; eauto; [case_match; eauto|].
    by apply batchResultErrors_total, Hschema. }
  eexists _, _. split; [done|]. rewrite Nat.eqb_eq, length_zero_iff_nil. naive_solver.
Qed.

(** ** Witnesses *)

Definition demo_step (params : jsval) : BatchStep := {|
  bst_invocation_id := js "0197a3c2-0000-7000-8000-000000000021";
  bst_method := js "inspect_schedules";
  bst_params := params;
  bst_policy := {| bdp_class := js "auto"; bdp_confirmation_id := None; bdp_decision := js "auto" |};
  bst_mutating := false;
  bst_mutation_scope := VNull;
  bst_params_digest := try_catch (makeParamsDigest params) [] |}.

Definition demo_batch (params : jsval) (batch_digest : jstr) : InvokeBatch := {|
  ib_batch_id := js "0197a3c2-0000-7000-8000-000000000020";
  ib_atomic := false;
  ib_timeout_ms := JInt 120000;
  ib_recovery_clearances := [];
  ib_steps := [demo_step params];
  ib_batch_digest := batch_digest |}.

Definition demo_signed (params : jsval) : InvokeBatch :=
  demo_batch params (try_catch (makeBatchDigest (batch_digest_input (demo_batch params []))) []).

(** One parameter object, sent with its members in two orders. *)
Definition demo_params1 : jsval := obj [(js "b", VNum (JInt 1)); (js "a", VNum (JInt 2))].
Definition demo_params2 : jsval := obj [(js "a", VNum (JInt 2)); (js "b", VNum (JInt 1))].

Lemma demo_same_material :
  normalize (batch_material (batch_digest_input (demo_signed demo_params1))) =
  normalize (batch_material (batch_digest_input (demo_signed demo_params2))).
Proof. vm_compute. reflexivity. Qed.

Lemma batch_digest_binds_witness :
  map step_semantics (ib_steps (demo_signed demo_params1)) = map step_semantics (ib_steps (demo_signed demo_params2)) ∧
  demo_params1 ≠ demo_params2.
Proof.
  split; [|discriminate].
  destruct (batch_digest_binds (demo_signed demo_params1) (demo_signed demo_params2))
    as (_ & _ & _ & Hs & _).
  1-5: vm_compute; reflexivity.
  - intros _. by rewrite demo_same_material.
  - eapply Forall_cons; split; [vm_compute; reflexivity|].
    eapply Forall_cons; split; [vm_compute; reflexivity|constructor].
  - intros s t ->%list_elem_of_singleton ->%list_elem_of_singleton _. vm_compute. reflexivity.
  - exact Hs.
Defined.

Lemma chunk_check_exact_witness :
  semanticEnvelopeErrors (partial_envelope (partial_chunk (js "artifact:a1") (Some (js "a1")) (js "aGk="))) = Ok [].
Proof.
  apply (chunk_check_exact (js "artifact:a1") (Some (js "a1")) (js "aGk=") [104; 105]).
  - vm_compute. reflexivity.
  - split; [vm_compute; discriminate|]. by intros id [= <-].
Defined.

Definition demo_result_step (index : Z) (id : jstr) (status : BatchStepStatus) (error : option ErrorDetail)
  : BatchStepResult := {|
  bsr_index := index; bsr_invocation_id := id; bsr_status := status; bsr_replayed := false;
  bsr_late_after_indeterminate := None; bsr_verification_hold_id := None; bsr_result_digest := None;
  bsr_error := error |}.

Definition demo_unknown : ErrorDetail := {|
  ed_fault_class := fc_journal_indeterminate; ed_retryable := false;
  ed_outcome := Some outcome_indeterminate; ed_verification_required := Some true;
  ed_replayed := Some false; ed_late_after_indeterminate := None;
  ed_verification_hold_id := Some (js "vh:1"); ed_mutation_scope := Some scope_session;
  ed_result_digest := None |}.

(** A batch whose second step was lost in flight and whose third never started. *)
Definition demo_result : BatchResult := {|
  br_atomic := false; br_status := step_indeterminate; br_transaction_state := ts_not_applicable;
  br_failed_step_index := Some 1;
  br_steps := [demo_result_step 0 (js "i0") (step_known completed) None;
               demo_result_step 1 (js "i1") step_indeterminate (Some demo_unknown);
               demo_result_step 2 (js "i2") step_not_started None];
  br_replayed := false |}.

Lemma demo_result_accepted : batchResultErrors demo_result = Ok [].
Proof. vm_compute. reflexivity. Qed.

Lemma accepted_batch_matches_journal_witness :
  ∃ failed, validateAtomicFalseBatchStatuses (map bsr_status (br_steps demo_result)) = Some failed ∧
            Some 1 = Z.of_nat <$> failed.
Proof. apply (accepted_batch_matches_journal demo_result demo_result_accepted); [reflexivity|discriminate]. Defined.

Lemma unknown_outcome_never_hidden_witness :
  unknown_outcome (demo_result_step 1 (js "i1") step_indeterminate (Some demo_unknown)).
Proof.
  apply (unknown_outcome_never_hidden demo_result demo_result_accepted).
  - right. left.
  - reflexivity.
Defined.

(** A schema that accepts this one result and refuses everything else. *)
Definition demo_schema (b : bool) : list ErrorObject + RbpEnvelope :=
  if b then inr (result_envelope (batch_result demo_result)) else inl [].

Lemma validation_total_witness :
  ∃ errors valid, validateRbpEnvelope demo_schema [] true = (errors, Ok valid) ∧
    (valid = true ↔ is_Some (Some (result_envelope (batch_result demo_result))) ∧ rbpEnvelopeErrors errors = []).
Proof.
  apply (validation_total demo_schema [] true). intros [|] p Hp; cbn in Hp; [|discriminate].
  injection Hp as <-. intros step Hin. cbn in Hin.
  repeat (apply elem_of_cons in Hin as [-> | Hin]; [discriminate|]). by apply not_elem_of_nil in Hin.
Defined.
End EnvelopeFacts.
