(* ===== verification/ParseFrame.v ===== *)
(** The wire boundary: packages/protocol/src/parseFrame.ts.

    A raw frame must be UTF-8 without a byte order mark, JSON without repeated
    keys, within byte limits that are measured on the raw text of its parts, and
    a valid envelope.  [JSON.parse] neither reports repeated keys nor where a part
    was, so the code scans the accepted text a second time with a parser of
    spans. *)

From S2P Require Import Prelude JsString JsValue Canonical Sha256 JsonText Envelope.

Module ParseFrame.
Import Canonical JsonText Envelope.

Definition RBP_MAX_INVOCATION_PARAMS_BYTES : Z := 4 * 1024 * 1024.
Definition RBP_MAX_INLINE_RESULT_BYTES : Z := 32 * 1024 * 1024.
Definition RBP_MAX_CONTROL_FRAME_BYTES : Z := 64 * 1024.
Definition RBP_MAX_DOC_CONTEXT_FRAME_BYTES : Z := 256 * 1024.

(** ** Errors *)

Inductive RbpFrameErrorCode :=
| invalid_utf8 | utf8_bom | invalid_json | duplicate_key | invalid_envelope | frame_too_large.

Record FrameErrorOptions := {
  fo_path : option jstr;
  fo_actualBytes : option jsnum;
  fo_limitBytes : option Z;
  fo_validationErrors : option (list ErrorObject) }.

Definition no_options : FrameErrorOptions := {|
  fo_path := None; fo_actualBytes := None; fo_limitBytes := None; fo_validationErrors := None |}.

Record RbpFrameError := {
  fe_code : RbpFrameErrorCode; fe_message : jstr; fe_options : FrameErrorOptions }.

(** What a call may throw: a frame error, or an error of the validator's own. *)
Abbreviation thrown := (RbpFrameError + js_error)%type.

Definition frame_error {A} (code : RbpFrameErrorCode) (message : jstr) (options : FrameErrorOptions)
  : result thrown A :=
  Throw (inl {| fe_code := code; fe_message := message; fe_options := options |}).

(** [path.split("/").filter(Boolean).length] *)
Fixpoint path_depth (in_segment : bool) (path : jstr) : Z :=
  match path with
  | [] => 0
  | c :: path =>
      if c =? 47 then path_depth false path
      else (if in_segment then 0 else 1) + path_depth true path
  end.

Definition validationErrorSpecificity (error : ErrorObject) : Z :=
  let pathDepth := path_depth false (eo_instancePath error) in
  let keyword := eo_keyword error in
  if keyword === js "rbpSemantic" then 10000 + pathDepth else
  if bool_decide (keyword ∈ map js ["pattern"; "format"; "enum"; "maximum"; "minimum"; "maxLength"; "minLength";
                                    "maxItems"; "minItems"; "additionalProperties"]%string)
  then 1000 + pathDepth else
  if bool_decide (keyword ∈ map js ["not"; "oneOf"; "anyOf"; "allOf"; "if"; "const"]%string)
  then pathDepth else 100 + pathDepth.

Definition most_specific (best : option ErrorObject) (candidate : ErrorObject) : option ErrorObject :=
  match best with
  | None => Some candidate
  | Some b =>
      if validationErrorSpecificity b <? validationErrorSpecificity candidate then Some candidate else Some b
  end.

(** [text.length === 0 ? d : text] *)
Definition or_text (text : jstr) (d : string) : jstr := if (length text =? 0)%nat then js d else text.

Definition envelopeValidationMessage (errors : list ErrorObject) : jstr :=
  match foldl most_specific None errors with
  | None => js "RBP envelope validation failed"
  | Some selected =>
      take 512 (js "RBP envelope validation failed at " ++ or_text (eo_instancePath selected) "/" ++ js " (" ++
        or_text (eo_keyword selected) "schema" ++ js "; " ++ or_text (eo_schemaPath selected) "#" ++ js "): " ++
        nullish (eo_message selected) (js "invalid value"))
  end.

(** ** The parser of spans *)

(** [start] and [end] are positions in the text; a property map keeps its keys in
    the order of insertion. *)
Inductive JsonSpan :=
| object_span (start stop : nat) (properties : list (jstr * JsonSpan))
| array_span (start stop : nat) (items : list JsonSpan)
| scalar_span (start stop : nat).

Definition span_start (s : JsonSpan) : nat :=
  match s with object_span a _ _ | array_span a _ _ | scalar_span a _ => a end.
Definition span_stop (s : JsonSpan) : nat :=
  match s with object_span _ b _ | array_span _ b _ | scalar_span _ b => b end.

Inductive SpanError :=
| DuplicateKeyError (key : jstr)
| SpanSyntaxError (message : string).

(** The parser's index is kept as the text that is left; [total] is the length of
    the text, and [at_] the index. *)
Definition at_ (total : nat) (rest : jstr) : nat := total - length rest.

(** The loop over the characters of a string after its opening quote; [seen] holds
    the characters passed, last first, the quote included. *)
Fixpoint scan_string (seen : jstr) (rest : jstr) : result SpanError (jstr * jstr) :=
  match rest with
  | [] => Throw (SpanSyntaxError "unterminated JSON string")
  | c :: rest =>
      if c =? 34 then
        (** [JSON.parse] of the literal *)
        match json_chars (drop 1 (reverse (c :: seen))) with
        | Some (us, []) => Ok (us, rest)
        | _ => Throw (SpanSyntaxError "JSON.parse of a string")
        end
      else if c =? 92 then
        match rest with
        | [] => Throw (SpanSyntaxError "unterminated JSON string")
        | d :: rest => scan_string (d :: c :: seen) rest
        end
      else scan_string (c :: seen) rest
  end.

Definition parseString (rest : jstr) : result SpanError (jstr * jstr) :=
  match rest with
  | c :: rest => if c =? 34 then scan_string [34] rest else Throw (SpanSyntaxError "expected JSON string")
  | [] => Throw (SpanSyntaxError "expected JSON string")
  end.

Definition skipWhitespace (rest : jstr) : jstr := skip js_whitespace rest.

(** [/[\s,}\]]/] *)
Definition ends_scalar (c : Z) : bool := js_whitespace c || (c =? 44) || (c =? 125) || (c =? 93).

(** [parseValue], the loop of [parseObject] and the loop of [parseArray]; [fuel]
    bounds the calls. *)
Fixpoint parseValue (total fuel : nat) (rest : jstr) : result SpanError (JsonSpan * jstr) :=
  match fuel with
  | O => Throw (SpanSyntaxError "out of fuel")
  | S fuel =>
      let start := at_ total rest in
      match rest with
      | [] => Ok (scalar_span start start, [])
      | c :: r =>
          if c =? 123 then
            match skipWhitespace r with
            | d :: r' =>
                if d =? 125 then Ok (object_span start (at_ total r') [], r') else
                '(properties, r'') ← object_loop total fuel [] (d :: r');
                Ok (object_span start (at_ total r'') properties, r'')
            | [] => Throw (SpanSyntaxError "unterminated JSON object")
            end
          else if c =? 91 then
            match skipWhitespace r with
            | d :: r' =>
                if d =? 93 then Ok (array_span start (at_ total r') [], r') else
                '(items, r'') ← array_loop total fuel [] (d :: r');
                Ok (array_span start (at_ total r'') items, r'')
            | [] => Throw (SpanSyntaxError "unterminated JSON array")
            end
          else if c =? 34 then
            '(_, r') ← parseString rest;
            Ok (scalar_span start (at_ total r'), r')
          else
            let r' := skip (λ c, negb (ends_scalar c)) rest in
            Ok (scalar_span start (at_ total r'), r')
      end
  end
with object_loop (total fuel : nat) (properties : list (jstr * JsonSpan)) (rest : jstr)
  : result SpanError (list (jstr * JsonSpan) * jstr) :=
  match fuel, rest with
  | O, _ => Throw (SpanSyntaxError "out of fuel")
  | S _, [] => Throw (SpanSyntaxError "unterminated JSON object")
  | S fuel, _ :: _ =>
      '(key, r1) ← parseString rest;
      if bool_decide (key ∈ map fst properties) then Throw (DuplicateKeyError key) else
      match skipWhitespace r1 with
      | d :: r2 =>
          if d =? 58 then
            '(value, r3) ← parseValue total fuel (skipWhitespace r2);
            let properties := properties ++ [(key, value)] in
            match skipWhitespace r3 with
            | d :: r4 =>
                if d =? 125 then Ok (properties, r4)
                else if d =? 44 then object_loop total fuel properties (skipWhitespace r4)
                else Throw (SpanSyntaxError "expected JSON object separator")
            | [] => Throw (SpanSyntaxError "expected JSON object separator")
            end
          else Throw (SpanSyntaxError "expected JSON object colon")
      | [] => Throw (SpanSyntaxError "expected JSON object colon")
      end
  end
with array_loop (total fuel : nat) (items : list JsonSpan) (rest : jstr)
  : result SpanError (list JsonSpan * jstr) :=
  match fuel, rest with
  | O, _ => Throw (SpanSyntaxError "out of fuel")
  | S _, [] => Throw (SpanSyntaxError "unterminated JSON array")
  | S fuel, _ :: _ =>
      '(value, r3) ← parseValue total fuel rest;
      let items := items ++ [value] in
      match skipWhitespace r3 with
      | d :: r4 =>
          if d =? 93 then Ok (items, r4)
          else if d =? 44 then array_loop total fuel items (skipWhitespace r4)
          else Throw (SpanSyntaxError "expected JSON array separator")
      | [] => Throw (SpanSyntaxError "expected JSON array separator")
      end
  end.

(** [new JsonSpanParser(text).parse()]; two calls per character are enough. *)
Definition parse_spans (text : jstr) : result SpanError JsonSpan :=
  '(span, r) ← parseValue (length text) (json_fuel text) (skipWhitespace text);
  if skipWhitespace r === [] then Ok span else Throw (SpanSyntaxError "unexpected trailing JSON text").

(** ** Byte limits *)

Definition objectProperty (span : option JsonSpan) (name : jstr) : option JsonSpan :=
  match span with
  | Some (object_span _ _ properties) => snd <$> find_first (λ p, p.1 === name) properties
  | _ => None
  end.

(** [text.slice(span.start, span.end)] *)
Definition slice (text : jstr) (span : JsonSpan) : jstr :=
  take (span_stop span - span_start span) (drop (span_start span) text).

Definition spanByteLength (text : jstr) (span : JsonSpan) : Z :=
  Z.of_nat (length (utf8_encode (slice text span))).

Definition too_large (path message : jstr) (actualBytes : jsnum) (limitBytes : Z) : result thrown unit :=
  frame_error frame_too_large message
    {| fo_path := Some path; fo_actualBytes := Some actualBytes; fo_limitBytes := Some limitBytes;
       fo_validationErrors := None |}.

Definition assertByteLimit (text : jstr) (span : JsonSpan) (path : jstr) (limitBytes : Z) : result thrown unit :=
  let actualBytes := spanByteLength text span in
  if limitBytes <? actualBytes
  then too_large path (path ++ js " is " ++ dec actualBytes ++ js " UTF-8 bytes; limit is " ++ dec limitBytes)
         (JInt actualBytes) limitBytes
  else Ok tt.

(** [value.name], [undefined] apart; only plain objects are looked into. *)
Definition get (value : jsval) (name : string) : option jsval :=
  match value with
  | VObj _ members => snd <$> find_first (λ m, m.1 === js name) members
  | _ => None
  end.

Definition type_is (envelope : jsval) (type : string) : bool :=
  match get envelope "type" with Some (VStr s) => s === js type | _ => false end.

(** [for (const [index, step] of steps.items.entries())] with one property checked. *)
Fixpoint check_steps (text : jstr) (name : string) (limitBytes : Z) (index : nat) (steps : list JsonSpan)
  : result thrown unit :=
  match steps with
  | [] => Ok tt
  | step :: steps =>
      match objectProperty (Some step) (js name) with
      | None => Ok tt
      | Some part => assertByteLimit text part (js "/payload/steps/" ++ pos index ++ js "/" ++ js name) limitBytes
      end ;;
      check_steps text name limitBytes (S index) steps
  end.

Definition enforceInvocationParams (text : jstr) (root : JsonSpan) (envelope : jsval) : result thrown unit :=
  let payloadSpan := objectProperty (Some root) (js "payload") in
  if type_is envelope "invoke" then
    match objectProperty payloadSpan (js "params") with
    | None => Ok tt
    | Some params => assertByteLimit text params (js "/payload/params") RBP_MAX_INVOCATION_PARAMS_BYTES
    end
  else if type_is envelope "invoke_batch" then
    match objectProperty payloadSpan (js "steps") with
    | Some (array_span _ _ items) => check_steps text "params" RBP_MAX_INVOCATION_PARAMS_BYTES 0 items
    | _ => Ok tt
    end
  else Ok tt.

Section limits.
Context `{Float64}.

Definition artifact_size (artifact : jsval) : jsnum :=
  match get artifact "total_size" with Some (VNum n) => n | _ => JInt 0 end.

Definition enforceInlineResults (text : jstr) (root : JsonSpan) (envelope : jsval) : result thrown unit :=
  if negb (type_is envelope "result") then Ok tt else
  match objectProperty (Some root) (js "payload") with
  | Some (object_span a b properties) =>
      let payloadSpan := Some (object_span a b properties) in
      match get envelope "payload" with
      | Some payload =>
          match get payload "kind" with
          | None => Ok tt
          | Some kind =>
              if (match kind with VStr s => s === js "invocation" | _ => false end) then
                match objectProperty payloadSpan (js "result") with
                | None => Ok tt
                | Some result =>
                    let artifacts := match get payload "artifacts" with Some (VArr items) => items | _ => [] end in
                    let artifactBytes := foldl (λ total artifact, num_add total (artifact_size artifact)) (JInt 0) artifacts in
                    let actualBytes := num_add (JInt (spanByteLength text result)) artifactBytes in
                    if num_gtb actualBytes RBP_MAX_INLINE_RESULT_BYTES
                    then too_large (js "/payload/result")
                           (js "combined invocation result is " ++ num_to_string actualBytes ++
                            js " bytes; limit is " ++ dec RBP_MAX_INLINE_RESULT_BYTES)
                           actualBytes RBP_MAX_INLINE_RESULT_BYTES
                    else Ok tt
                end
              else
                match objectProperty payloadSpan (js "steps") with
                | Some (array_span _ _ items) => check_steps text "result" RBP_MAX_INLINE_RESULT_BYTES 0 items
                | _ => Ok tt
                end
          end
      | None => Ok tt
      end
  | _ => Ok tt
  end.

Definition controlTypes : list string :=
  ["hello"; "hello_ack"; "session_register"; "session_registered"; "session_resume"; "resume_ack";
   "session_unregister"; "heartbeat"; "heartbeat_ack"; "manifest_check"; "manifest_info"; "goodbye"]%string.

Definition isControl (envelope : jsval) : bool :=
  existsb (type_is envelope) controlTypes ||
  (type_is envelope "error" && is_null (get envelope "rsid")).

Definition enforceFrameLimits (frameBytes : Z) (text : jstr) (root : JsonSpan) (envelope : jsval)
  : result thrown unit :=
  (if isControl envelope && (RBP_MAX_CONTROL_FRAME_BYTES <? frameBytes)
   then too_large (js "/") (js "control frame is " ++ dec frameBytes ++ js " UTF-8 bytes; limit is " ++
                            dec RBP_MAX_CONTROL_FRAME_BYTES) (JInt frameBytes) RBP_MAX_CONTROL_FRAME_BYTES
   else Ok tt) ;;
  (if type_is envelope "doc_context_update" && (RBP_MAX_DOC_CONTEXT_FRAME_BYTES <? frameBytes)
   then too_large (js "/") (js "doc_context_update frame is " ++ dec frameBytes ++ js " UTF-8 bytes; limit is " ++
                            dec RBP_MAX_DOC_CONTEXT_FRAME_BYTES) (JInt frameBytes) RBP_MAX_DOC_CONTEXT_FRAME_BYTES
   else Ok tt) ;;
  enforceInvocationParams text root envelope ;;
  enforceInlineResults text root envelope.

(** ** The boundary *)

(** Only a frame that is an object has limits of its own; any other value is left to
    the validator. *)
Definition limits_checked (frame : list Z) (text : jstr) (root : JsonSpan) (value : jsval) : result thrown unit :=
  match value with
  | VObj _ _ => enforceFrameLimits (Z.of_nat (length frame)) text root value
  | _ => Ok tt
  end.

Context `{Hasher} (validateSchema : jsval → list ErrorObject + RbpEnvelope).

(** The frame is a byte array.  The result comes with the new [lastErrors] of the
    validator, which only a call that reaches the validator changes. *)
Definition parseRbpFrame (lastErrors : list ErrorObject) (frame : list Z)
  : list ErrorObject * result thrown jsval :=
  if starts_with [0xef; 0xbb; 0xbf] frame
  then (lastErrors, frame_error utf8_bom (js "RBP JSON must be UTF-8 without BOM") no_options) else
  match utf8_decode frame with
  | None => (lastErrors, frame_error invalid_utf8 (js "RBP frame is not valid UTF-8") no_options)
  | Some text =>
  match json_parse text with
  | None => (lastErrors, frame_error invalid_json (js "RBP frame is not valid JSON") no_options)
  | Some value =>
  match parse_spans text with
  | Throw (DuplicateKeyError key) =>
      (lastErrors, frame_error duplicate_key (js "duplicate JSON object key: " ++ key) no_options)
  | Throw (SpanSyntaxError _) =>
      (lastErrors, frame_error invalid_json (js "RBP frame is not valid JSON") no_options)
  | Ok root =>
  match limits_checked frame text root value with
  | Throw e => (lastErrors, Throw e)
  | Ok tt =>
  match validateRbpEnvelope validateSchema lastErrors value with
  | (errors, Throw e) => (errors, Throw (inr e))
  | (errors, Ok false) =>
      let validationErrors := rbpEnvelopeErrors errors in
      (errors, frame_error invalid_envelope (envelopeValidationMessage validationErrors)
        {| fo_path := None; fo_actualBytes := None; fo_limitBytes := None;
           fo_validationErrors := Some validationErrors |})
  | (errors, Ok true) => (errors, Ok value)
  end
  end
  end
  end
  end.

End limits.
End ParseFrame.

(** * Facts *)

Module ParseFrameFacts.
Import Canonical CanonicalFacts JsonText JsonTextFacts Envelope ParseFrame.

Section spans.
Context `{Float64}.

(** ** Text that is left is a suffix of the text *)

Lemma skip_suffix ws s : skip ws s `suffix_of` s.
Proof.
  induction s as [|c s IH]; cbn; [done|]. destruct (ws c); [|done]. by apply suffix_cons_r.
Qed.

Lemma skip_cons_suffix ws s c r : skip ws s = c :: r → r `suffix_of` s.
Proof. intros E. trans (c :: r); [by apply suffix_cons_r|]. rewrite <- E. apply skip_suffix. Qed.

Lemma chars_suffix s us r : literal_chars s us r → r `suffix_of` s.
Proof.
  induction 1 as [s|s u s' us r Hc _ IH]; [by apply suffix_cons_r|].
  trans s'; [done|]. destruct Hc; repeat apply suffix_cons_r; done.
Qed.

Lemma reads_suffix :
  (∀ s v r, reads s v r → r `suffix_of` s) ∧
  (∀ s ms r, reads_members s ms r → r `suffix_of` s) ∧
  (∀ s vs r, reads_items s vs r → r `suffix_of` s).
Proof.
  apply reads_mutind.
  - intros r r' E. apply suffix_cons_r. by eapply skip_cons_suffix.
  - intros r ms r' _ IH. apply suffix_cons_r. by trans (skip json_ws r); [|apply skip_suffix].
  - intros r r' E. apply suffix_cons_r. by eapply skip_cons_suffix.
  - intros r ms r' _ _ IH. apply suffix_cons_r. by trans (skip json_ws r); [|apply skip_suffix].
  - intros r us r' E%json_chars_spec%chars_suffix. by apply suffix_cons_r.
  - intros c s v r _ _ _ [(tok & -> & _) _]%json_scalar_takes. by apply suffix_app_r.
  - intros r key r1 r2 v r3 r4 E1%json_chars_spec%chars_suffix E2%skip_cons_suffix _ IH E4%skip_cons_suffix.
    apply suffix_cons_r. trans r3; [done|]. trans (skip json_ws r2); [done|]. trans r2; [apply skip_suffix|]. by trans r1.
  - intros r key r1 r2 v r3 r4 ms r5 E1%json_chars_spec%chars_suffix E2%skip_cons_suffix _ IH E4%skip_cons_suffix _ IHm.
    apply suffix_cons_r. trans (skip json_ws r4); [done|]. trans r4; [apply skip_suffix|].
    trans r3; [done|]. trans (skip json_ws r2); [done|]. trans r2; [apply skip_suffix|]. by trans r1.
  - intros s v r3 r4 _ IH E4%skip_cons_suffix. by trans r3.
  - intros s v r3 r4 vs r5 _ IH E4%skip_cons_suffix _ IHi. trans (skip json_ws r4); [done|].
    trans r4; [apply skip_suffix|]. by trans r3.
Qed.

Lemma drop_at text s : s `suffix_of` text → drop (at_ (length text) s) text = s.
Proof.
  intros [p ->]. unfold at_. rewrite length_app, Nat.add_sub. apply drop_app_length.
Qed.

(** ** The scanner and the grammar *)

Lemma json_ws_js c : json_ws c = true → js_whitespace c = true.
Proof.
  unfold json_ws. rewrite !orb_true_iff, !Z.eqb_eq. by intros [[[-> | ->] | ->] | ->].
Qed.

(** Where the next character is no white space both skip alike. *)
Lemma skip_agree s c r : skip json_ws s = c :: r → js_whitespace c = false → skipWhitespace s = c :: r.
Proof.
  unfold skipWhitespace. induction s as [|x s IH]; cbn; [done|]. destruct (json_ws x) eqn:Ex.
  - rewrite (json_ws_js _ Ex). auto.
  - by intros [= -> ->] ->.
Qed.

Lemma skip_agree_nil s : skip json_ws s = [] → skipWhitespace s = [].
Proof.
  unfold skipWhitespace. induction s as [|x s IH]; cbn; [done|]. destruct (json_ws x) eqn:Ex; [|done].
  rewrite (json_ws_js _ Ex). auto.
Qed.

Lemma hex_plain c u : hex_value c = Some u → (c =? 34) = false ∧ (c =? 92) = false.
Proof. intros Hc. rewrite !Z.eqb_neq. split; intros ->; discriminate Hc. Qed.

Lemma hex4_plain a b c d u : hex4 a b c d = Some u →
  Forall (λ x, (x =? 34) = false ∧ (x =? 92) = false) [a; b; c; d].
Proof.
  unfold hex4. destruct (hex_value a) eqn:Ea; [|done]. destruct (hex_value b) eqn:Eb; [|done].
  destruct (hex_value c) eqn:Ec; [|done]. destruct (hex_value d) eqn:Ed; [|done]. intros _.
  apply hex_plain in Ea, Eb, Ec, Ed. do 4 (apply Forall_cons_2; [assumption|]). apply Forall_nil_2.
Qed.

(** The scanner passes over the characters of a literal and parses them again. *)
Lemma scan_string_spec s us r :
  literal_chars s us r →
  ∃ lit, s = lit ++ r ∧ literal_chars lit us [] ∧
    ∀ seen, scan_string seen s =
      match json_chars (drop 1 (reverse seen ++ lit)) with
      | Some (us', []) => Ok (us', r)
      | _ => Throw (SpanSyntaxError "JSON.parse of a string")
      end.
Proof.
  induction 1 as [s|s u s' us r Hc _ (lit & -> & Hlit & Hscan)].
  { exists [34]. split; [done|]. split; [constructor|]. intros seen. cbn [scan_string Z.eqb]. by rewrite reverse_cons. }
  inversion Hc as [c t H1 H2 H3|e t u' H1 H2|a b c d t u' Hu]; subst.
  - exists (u :: lit). split; [done|]. split; [econstructor; [by constructor|done]|]. intros seen. cbn [scan_string app].
    rewrite (proj2 (Z.eqb_neq u 34)), (proj2 (Z.eqb_neq u 92)), Hscan, reverse_cons, <- app_assoc by done. done.
  - exists (92 :: e :: lit). split; [done|]. split; [econstructor; [by constructor|done]|]. intros seen.
    cbn [scan_string app Z.eqb]. by rewrite Hscan, !reverse_cons, <- !app_assoc.
  - exists (92 :: 117 :: a :: b :: c :: d :: lit). split; [done|]. split; [econstructor; [by constructor|done]|].
    intros seen. cbn [scan_string app Z.eqb]. pose proof (hex4_plain _ _ _ _ _ Hu) as Hp.
    repeat match goal with Hf : Forall _ (_ :: _) |- _ => apply Forall_cons in Hf as [[? ?] Hf] end.
    repeat match goal with E : (?x =? ?k) = false |- _ => rewrite E; clear E end.
    by rewrite Hscan, !reverse_cons, <- !app_assoc.
Qed.

Lemma parseString_spec r us r' : json_chars r = Some (us, r') → parseString (34 :: r) = Ok (us, r').
Proof.
  intros (lit & -> & Hlit%json_chars_spec & Hscan)%json_chars_spec%scan_string_spec.
  unfold parseString. rewrite Z.eqb_refl, Hscan. change (drop 1 (reverse [34] ++ lit)) with lit. by rewrite Hlit.
Qed.

(** A scalar ends where a separator, a bracket or white space follows. *)
Definition boundary (r : jstr) : Prop := match r with [] => True | c :: _ => ends_scalar c = true end.

Lemma boundary_skip r c r' : skip json_ws r = c :: r' → ends_scalar c = true → boundary r.
Proof.
  destruct r as [|x r]; [done|]. cbn. destruct (json_ws x) eqn:Ex; [|by intros [= -> _]].
  intros _ _. unfold ends_scalar. by rewrite (json_ws_js _ Ex).
Qed.

Lemma boundary_nil r : skip json_ws r = [] → boundary r.
Proof.
  destruct r as [|x r]; [done|]. cbn. destruct (json_ws x) eqn:Ex; [|done].
  intros _. unfold ends_scalar. by rewrite (json_ws_js _ Ex).
Qed.

Lemma scan_scalar tok r :
  forallb token_char tok = true → boundary r → skip (λ c, negb (ends_scalar c)) (tok ++ r) = r.
Proof.
  intros Ht Hr. induction tok as [|c tok IH]; cbn in *.
  - destruct r as [|c r]; [done|]. cbn in *. by rewrite Hr.
  - apply andb_true_iff in Ht as [Hc Ht]. change (token_char c) with (negb (ends_scalar c)) in Hc.
    rewrite Hc. auto.
Qed.

(** A value starts with no white space. *)
Lemma reads_head s v r : reads s v r → ∃ c s', s = c :: s' ∧ js_whitespace c = false.
Proof.
  destruct 1 as [| | | | |c s v r _ _ _ Hsc]; eauto. eexists _, _. split; [done|].
  apply json_scalar_takes in Hsc as [(tok & E & Ht) Hne]. destruct tok as [|x tok]; [done|].
  injection E as -> _. cbn in Ht. apply andb_true_iff in Ht as [Ht _]. unfold token_char in Ht. by bsimp.
Qed.

(** ** Spans agree with the value that was read *)

(** The value was read between two positions of the text. *)
Definition read_at (text : jstr) (start stop : nat) (v : jsval) : Prop :=
  (start <= stop <= length text)%nat ∧ reads (drop start text) v (drop stop text).

(** A span has the shape of a value, and each part of it is where that part of
    the value was read. *)
Inductive located (text : jstr) : JsonSpan → jsval → Prop :=
| located_object start stop properties ms :
    read_at text start stop (obj ms) →
    Forall2 (λ p m, p.1 = m.1 ∧ located text p.2 m.2) properties ms →
    located text (object_span start stop properties) (obj ms)
| located_array start stop items vs :
    read_at text start stop (VArr vs) → Forall2 (located text) items vs →
    located text (array_span start stop items) (VArr vs)
| located_scalar start stop v :
    read_at text start stop v → is_scalar v = true → located text (scalar_span start stop) v.

Definition named (text : jstr) (p : jstr * JsonSpan) (m : jstr * jsval) : Prop :=
  p.1 = m.1 ∧ located text p.2 m.2.

Lemma named_keys text ps ms : Forall2 (named text) ps ms → map fst ps = map fst ms.
Proof. induction 1 as [|p m ps ms [E _] _ IH]; cbn; [done|]. by rewrite E, IH. Qed.

(** A scan leaves [r] and returns what [ok] says, or it meets a repeated key. *)
Definition agrees {A} (res : result SpanError (A * jstr)) (r : jstr) (ok : A → Prop) (distinct : Prop) : Prop :=
  match res with
  | Ok (a, r') => r' = r ∧ ok a ∧ distinct
  | Throw (DuplicateKeyError _) => ¬ distinct
  | Throw (SpanSyntaxError _) => False
  end.

Lemma agrees_bind {A B} (x : result SpanError (A * jstr)) (f : A * jstr → result SpanError (B * jstr))
    r r' P Q (D E : Prop) :
  agrees x r P D → (E → D) → (∀ a, P a → D → agrees (f (a, r)) r' Q E) → agrees (x ≫= f) r' Q E.
Proof.
  intros Hx HE Hf. destruct x as [[a r1]|[]]; cbn in *; [|tauto|done].
  destruct Hx as (-> & HP & HD). auto.
Qed.

Lemma read_between text s v r :
  s `suffix_of` text → reads s v r → read_at text (at_ (length text) s) (at_ (length text) r) v.
Proof.
  intros Hs Hr. pose proof (proj1 reads_suffix _ _ _ Hr) as Hsr.
  assert (r `suffix_of` text) as Hrt by (by trans s).
  split; [|by rewrite !drop_at].
  apply suffix_length in Hs, Hsr, Hrt. unfold at_. lia.
Qed.

Section agreement.
Context (text : jstr).
Abbreviation total := (length text).

Definition value_agrees (s : jstr) (v : jsval) (r : jstr) : Prop :=
  s `suffix_of` text → boundary r → ∀ g, (2 * length s + 1 <= g)%nat →
  agrees (parseValue total g s) r (λ sp, located text sp v) (distinct_keys v).

Definition members_agree (s : jstr) (ms : list (jstr * jsval)) (r : jstr) : Prop :=
  s `suffix_of` text → ∀ g props, (2 * length s + 2 <= g)%nat → NoDup (map fst props) →
  agrees (object_loop total g props s) r (λ ps, ∃ new, ps = props ++ new ∧ Forall2 (named text) new ms)
    (NoDup (map fst props ++ map fst ms) ∧ Forall (λ m, distinct_keys m.2) ms).

Definition items_agree (s : jstr) (vs : list jsval) (r : jstr) : Prop :=
  s `suffix_of` text → ∀ g items, (2 * length s + 2 <= g)%nat →
  agrees (array_loop total g items s) r (λ sps, ∃ new, sps = items ++ new ∧ Forall2 (located text) new vs)
    (Forall distinct_keys vs).

Lemma skip_reads s v r : reads (skip json_ws s) v r → skipWhitespace s = skip json_ws s.
Proof. intros (c & s' & E & Hc)%reads_head. rewrite E. by apply skip_agree. Qed.

Lemma skip_members s ms r : reads_members (skip json_ws s) ms r → skipWhitespace s = skip json_ws s.
Proof. remember (skip json_ws s) as t eqn:E. destruct 1; symmetry in E; by apply skip_agree. Qed.

Lemma skip_items s vs r : reads_items (skip json_ws s) vs r → skipWhitespace s = skip json_ws s.
Proof. remember (skip json_ws s) as t eqn:E. destruct 1; subst; by eapply skip_reads. Qed.

Lemma skip_fuel s c r : skip json_ws s = c :: r → (S (length r) <= length s)%nat.
Proof. intros E. pose proof (skip_length json_ws s) as Hl. by rewrite E in Hl. Qed.

Lemma chars_length s us r : json_chars s = Some (us, r) → (length r < length s)%nat.
Proof. intros E. by apply json_chars_spec, literal_chars_length in E. Qed.

Lemma suffix_skip s : s `suffix_of` text → skip json_ws s `suffix_of` text.
Proof. intros Hs. trans s; [apply skip_suffix|done]. Qed.

Lemma suffix_skip_cons s c r : s `suffix_of` text → skip json_ws s = c :: r → r `suffix_of` text.
Proof. intros Hs E. trans s; [by eapply skip_cons_suffix|done]. Qed.

Lemma suffix_tail c (r : jstr) : c :: r `suffix_of` text → r `suffix_of` text.
Proof. intros Hs. trans (c :: r); [by apply suffix_cons_r|done]. Qed.

Lemma suffix_chars s us r : s `suffix_of` text → json_chars s = Some (us, r) → r `suffix_of` text.
Proof. intros Hs E%json_chars_spec%chars_suffix. by trans s. Qed.

(** One member: what is left to show is the rest of the loop. *)
Lemma member_step r key r1 r2 v r3 d r4 props g ms r5 :
  json_chars r = Some (key, r1) → skip json_ws r1 = 58 :: r2 → reads (skip json_ws r2) v r3 →
  value_agrees (skip json_ws r2) v r3 → skip json_ws r3 = d :: r4 → d = 125 ∨ d = 44 →
  34 :: r `suffix_of` text → (2 * length r + 3 <= g)%nat → NoDup (map fst props) →
  let D := NoDup (map fst props ++ key :: map fst ms) ∧ Forall (λ m, distinct_keys m.2) ((key, v) :: ms) in
  let ok ps := ∃ new, ps = props ++ new ∧ Forall2 (named text) new ((key, v) :: ms) in
  (∀ sp, located text sp v → distinct_keys v → NoDup (map fst (props ++ [(key, sp)])) → r3 `suffix_of` text →
    agrees (if d =? 125 then Ok (props ++ [(key, sp)], r4)
            else object_loop total g (props ++ [(key, sp)]) (skipWhitespace r4)) r5 ok D) →
  agrees (object_loop total (S g) props (34 :: r)) r5 ok D.
Proof.
  intros E1 E2 Hr IH E4 Hd Hs Hg Hnd D ok Hrest. cbn [object_loop]. rewrite (parseString_spec _ _ _ E1). cbn [mbind result_bind].
  destruct (bool_decide _) eqn:Ek; bsimp.
  { cbn. intros [Hn _]. apply NoDup_app in Hn as (_ & Hn & _). eapply Hn; [done|]. by left. }
  rewrite (skip_agree _ _ _ E2) by done. rewrite Z.eqb_refl, (skip_reads _ _ _ Hr).
  pose proof (suffix_chars _ _ _ (suffix_tail _ _ Hs) E1) as Hs1. pose proof (suffix_skip_cons _ _ _ Hs1 E2) as Hs2.
  pose proof (proj1 reads_suffix _ _ _ Hr) as Hs3.
  eapply agrees_bind.
  - apply IH; [by apply suffix_skip| |].
    + eapply boundary_skip; [done|]. by destruct Hd as [-> | ->].
    + apply chars_length in E1. apply skip_fuel in E2. pose proof (skip_length json_ws r2). lia.
  - intros [_ Hall]. by apply Forall_cons in Hall as [? _].
  - intros sp Hsp Hv. rewrite (skip_agree _ _ _ E4) by (by destruct Hd as [-> | ->]).
    specialize (Hrest sp Hsp Hv). rewrite map_app in Hrest. cbn [map fst] in Hrest.
    assert (NoDup (map fst props ++ [key])) as Hnd'.
    { apply NoDup_app. split; [done|]. split; [|apply NoDup_singleton]. by intros k Hk ->%list_elem_of_singleton. }
    assert (r3 `suffix_of` text) as Hs4 by (trans (skip json_ws r2); [done|by apply suffix_skip]).
    specialize (Hrest Hnd' Hs4). destruct Hd as [-> | ->]; exact Hrest.
Qed.

(** One item of an array. *)
Lemma item_step s v r3 d r4 items g vs r5 :
  reads s v r3 → value_agrees s v r3 → skip json_ws r3 = d :: r4 → d = 93 ∨ d = 44 →
  s `suffix_of` text → (2 * length s + 1 <= g)%nat →
  let ok sps := ∃ new, sps = items ++ new ∧ Forall2 (located text) new (v :: vs) in
  (∀ sp, located text sp v → distinct_keys v → r3 `suffix_of` text →
    agrees (if d =? 93 then Ok (items ++ [sp], r4)
            else array_loop total g (items ++ [sp]) (skipWhitespace r4)) r5 ok (Forall distinct_keys (v :: vs))) →
  agrees (array_loop total (S g) items s) r5 ok (Forall distinct_keys (v :: vs)).
Proof.
  intros Hr IH E4 Hd Hs Hg ok Hrest. cbn [array_loop].
  destruct (reads_head _ _ _ Hr) as (c & s' & Es & _). rewrite Es. rewrite <- Es.
  eapply agrees_bind.
  - apply IH; [done| |done]. eapply boundary_skip; [done|]. by destruct Hd as [-> | ->].
  - by intros [? _]%Forall_cons.
  - intros sp Hsp Hv. rewrite (skip_agree _ _ _ E4) by (by destruct Hd as [-> | ->]).
    specialize (Hrest sp Hsp Hv). pose proof (proj1 reads_suffix _ _ _ Hr) as Hs3.
    specialize (Hrest ltac:(by trans s)). destruct Hd as [-> | ->]; exact Hrest.
Qed.

(** An object or an array once its loop has run. *)
Lemma object_agrees r ms r' :
  reads_members (skip json_ws r) ms r' → members_agree (skip json_ws r) ms r' →
  value_agrees (123 :: r) (obj ms) r'.
Proof.
  intros Hr IH Hs _ g' Hg. destruct g' as [|g']; [lia|]. cbn [parseValue Z.eqb Pos.eqb length] in *.
  rewrite (skip_members _ _ _ Hr). assert (∃ s', skip json_ws r = 34 :: s') as [s' E] by (inversion Hr; eauto).
  rewrite E. cbn [Z.eqb Pos.eqb]. rewrite <- E.
  eapply (agrees_bind _ _ r' r' _ _ (NoDup ([] ++ map fst ms) ∧ Forall (λ m, distinct_keys m.2) ms)).
  - apply (IH (suffix_skip _ (suffix_tail _ _ Hs)) g' []); [|constructor]. pose proof (skip_length json_ws r). lia.
  - intros Hd. by apply distinct_keys_obj in Hd.
  - intros ps (new & -> & Hall) Hd. split; [done|]. split; [|by apply distinct_keys_obj].
    constructor; [|done]. apply read_between; [done|]. by constructor.
Qed.

Lemma array_agrees r vs r' :
  hd 0 (skip json_ws r) ≠ 93 → reads_items (skip json_ws r) vs r' → items_agree (skip json_ws r) vs r' →
  value_agrees (91 :: r) (VArr vs) r'.
Proof.
  intros Hne Hr IH Hs _ g' Hg. destruct g' as [|g']; [lia|]. cbn [parseValue Z.eqb Pos.eqb length] in *.
  rewrite (skip_items _ _ _ Hr). assert (∃ c s', skip json_ws r = c :: s') as (c & s' & E).
  { inversion Hr; subst; match goal with Hv : reads _ _ _ |- _ => apply reads_head in Hv as (? & ? & ? & ?) end; eauto. }
  rewrite E in Hne |- *. rewrite (proj2 (Z.eqb_neq c 93)) by done. rewrite <- E.
  eapply (agrees_bind _ _ r' r' _ _ (Forall distinct_keys vs)).
  - apply (IH (suffix_skip _ (suffix_tail _ _ Hs)) g' []). pose proof (skip_length json_ws r). lia.
  - intros Hd. by apply distinct_keys_arr in Hd.
  - intros ps (new & -> & Hall) Hd. split; [done|]. split; [|by apply distinct_keys_arr].
    constructor; [|done]. apply read_between; [done|]. rewrite <- E in Hne. by constructor.
Qed.

Lemma string_agrees r us r' : json_chars r = Some (us, r') → value_agrees (34 :: r) (VStr us) r'.
Proof.
  intros E Hs _ g Hg. destruct g as [|g]; [lia|]. cbn [parseValue Z.eqb Pos.eqb].
  rewrite (parseString_spec _ _ _ E). cbn [mbind result_bind agrees]. split; [done|]. split; [|done].
  constructor; [|done]. apply read_between; [done|]. by constructor.
Qed.

Lemma scalar_agrees c s v r :
  c ≠ 123 → c ≠ 91 → c ≠ 34 → json_scalar (c :: s) = Some (v, r) → value_agrees (c :: s) v r.
Proof.
  intros H1 H2 H3 E Hs Hb g Hg. destruct g as [|g]; [lia|]. cbn [parseValue].
  rewrite !(proj2 (Z.eqb_neq c _)) by done. destruct (json_scalar_value _ _ _ E) as [Hv Hd].
  destruct (json_scalar_takes _ _ _ E) as [(tok & Et & Ht) _].
  assert (skip (λ c, negb (ends_scalar c)) (c :: s) = r) as ->.
  { rewrite Et. by apply scan_scalar. }
  cbn [agrees]. split; [done|]. split; [|done].
  constructor; [|done]. apply read_between; [done|]. by constructor.
Qed.

Lemma empty_object_agrees r r' : skip json_ws r = 125 :: r' → value_agrees (123 :: r) (obj []) r'.
Proof.
  intros E Hs _ g Hg. destruct g as [|g]; [lia|]. cbn [parseValue Z.eqb Pos.eqb].
  rewrite (skip_agree _ _ _ E) by done. cbn [Z.eqb Pos.eqb agrees]. split; [done|].
  split; [|apply distinct_keys_obj; split; constructor].
  constructor; [|constructor]. apply read_between; [done|]. by constructor.
Qed.

Lemma empty_array_agrees r r' : skip json_ws r = 93 :: r' → value_agrees (91 :: r) (VArr []) r'.
Proof.
  intros E Hs _ g Hg. destruct g as [|g]; [lia|]. cbn [parseValue Z.eqb Pos.eqb].
  rewrite (skip_agree _ _ _ E) by done. cbn [Z.eqb Pos.eqb agrees]. split; [done|]. split; [|done].
  constructor; [|constructor]. apply read_between; [done|]. by constructor.
Qed.

Lemma last_member_agrees r key r1 r2 v r3 r4 :
  json_chars r = Some (key, r1) → skip json_ws r1 = 58 :: r2 → reads (skip json_ws r2) v r3 →
  value_agrees (skip json_ws r2) v r3 → skip json_ws r3 = 125 :: r4 → members_agree (34 :: r) [(key, v)] r4.
Proof.
  intros E1 E2 Hr IH E4 Hs g props Hg Hnd. destruct g as [|g]; [lia|].
  eapply (member_step _ _ _ _ _ _ 125 _ _ _ []); [done..|by left|done|cbn in Hg; lia|done|].
  intros sp Hsp Hv Hnd' _. split; [done|]. split; [|by rewrite map_app in Hnd'; auto].
  exists [(key, sp)]. split; [done|]. by repeat constructor.
Qed.

Lemma next_member_agrees r key r1 r2 v r3 r4 ms r5 :
  json_chars r = Some (key, r1) → skip json_ws r1 = 58 :: r2 → reads (skip json_ws r2) v r3 →
  value_agrees (skip json_ws r2) v r3 → skip json_ws r3 = 44 :: r4 →
  reads_members (skip json_ws r4) ms r5 → members_agree (skip json_ws r4) ms r5 →
  members_agree (34 :: r) ((key, v) :: ms) r5.
Proof.
  intros E1 E2 Hr IH E4 Hms IHm Hs g props Hg Hnd. destruct g as [|g]; [lia|].
  eapply (member_step _ _ _ _ _ _ 44 _ _ _ ms); [done..|by right|done|cbn in Hg; lia|done|].
  intros sp Hsp Hv Hnd' Hs3. rewrite (skip_members _ _ _ Hms). cbn [Z.eqb Pos.eqb].
  pose proof (suffix_skip_cons _ _ _ Hs3 E4) as Hs4. apply suffix_skip in Hs4.
  specialize (IHm Hs4 g (props ++ [(key, sp)])). rewrite map_app, <- app_assoc in IHm. cbn [map fst app] in IHm.
  rewrite map_app in Hnd'. cbn [map fst] in Hnd'.
  assert (2 * length (skip json_ws r4) + 2 <= g)%nat as Hg'.
  { apply chars_length in E1. apply skip_fuel in E2, E4. apply (proj1 reads_length) in Hr.
    pose proof (skip_length json_ws r4). pose proof (skip_length json_ws r2). cbn [length] in Hg. lia. }
  specialize (IHm Hg' Hnd'). unfold agrees in *.
  destruct (object_loop _ _ _ _) as [[ps r']|[]]; [|intros [Hn Hall]; apply IHm; split; [done|]; by apply Forall_cons in Hall as [_ ?]|done].
  destruct IHm as (-> & (new & -> & Hnew) & Hn & Hall). split; [done|]. split; [|split; [done|by constructor]].
  exists ((key, sp) :: new). rewrite <- app_assoc. split; [done|]. by repeat constructor.
Qed.

Lemma last_item_agrees s v r3 r4 :
  reads s v r3 → value_agrees s v r3 → skip json_ws r3 = 93 :: r4 → items_agree s [v] r4.
Proof.
  intros Hr IH E4 Hs g items Hg. destruct g as [|g]; [lia|].
  eapply (item_step _ _ _ 93 _ _ _ []); [done..|by left|done|lia|].
  intros sp Hsp Hv _. split; [done|]. split; [|by repeat constructor].
  exists [sp]. split; [done|]. by repeat constructor.
Qed.

Lemma next_item_agrees s v r3 r4 vs r5 :
  reads s v r3 → value_agrees s v r3 → skip json_ws r3 = 44 :: r4 →
  reads_items (skip json_ws r4) vs r5 → items_agree (skip json_ws r4) vs r5 → items_agree s (v :: vs) r5.
Proof.
  intros Hr IH E4 Hvs IHi Hs g items Hg. destruct g as [|g]; [lia|].
  eapply (item_step _ _ _ 44 _ _ _ vs); [done..|by right|done|lia|].
  intros sp Hsp Hv Hs3. rewrite (skip_items _ _ _ Hvs). cbn [Z.eqb Pos.eqb].
  pose proof (suffix_skip_cons _ _ _ Hs3 E4) as Hs4. apply suffix_skip in Hs4.
  assert (2 * length (skip json_ws r4) + 2 <= g)%nat as Hg'.
  { apply skip_fuel in E4. apply (proj1 reads_length) in Hr. pose proof (skip_length json_ws r4). lia. }
  specialize (IHi Hs4 g (items ++ [sp]) Hg'). unfold agrees in *.
  destruct (array_loop _ _ _ _) as [[ps r']|[]]; [|intros Hall; apply IHi; by apply Forall_cons in Hall as [_ ?]|done].
  destruct IHi as (-> & (new & -> & Hnew) & Hall). split; [done|]. split; [|by constructor].
  exists (sp :: new). rewrite <- app_assoc. split; [done|]. by constructor.
Qed.

(** The scan of a value that [JSON.parse] reads. *)
Lemma spans_agree :
  (∀ s v r, reads s v r → value_agrees s v r) ∧
  (∀ s ms r, reads_members s ms r → members_agree s ms r) ∧
  (∀ s vs r, reads_items s vs r → items_agree s vs r).
Proof.
  apply reads_mutind.
  - exact empty_object_agrees.
  - exact object_agrees.
  - exact empty_array_agrees.
  - exact array_agrees.
  - exact string_agrees.
  - exact scalar_agrees.
  - exact last_member_agrees.
  - exact next_member_agrees.
  - exact last_item_agrees.
  - exact next_item_agrees.
Qed.
End agreement.

(** ** The parser of spans *)

(** What the scan says of a text that is JSON; it accepts and places it, or it
    reports a key that occurs twice. *)
Lemma parse_spans_spec text t :
  json_raw text = Some t →
  match parse_spans text with
  | Ok root => distinct_keys t ∧ located text root t
  | Throw (DuplicateKeyError _) => ¬ distinct_keys t
  | Throw (SpanSyntaxError _) => False
  end.
Proof.
  intros (r & Hr & E)%json_raw_spec. unfold parse_spans. rewrite (skip_reads _ _ _ Hr).
  pose proof (proj1 (spans_agree text) _ _ _ Hr (skip_suffix _ _) (boundary_nil _ E) (json_fuel text)) as Ha.
  specialize (Ha ltac:(unfold json_fuel; pose proof (skip_length json_ws text); lia)).
  unfold agrees in Ha. destruct (parseValue _ _ _) as [[sp r']|[]]; cbn; [|done..].
  destruct Ha as (-> & Hl & Hd). rewrite (skip_agree_nil _ E). done.
Qed.

(** C29: the second scan of a frame is right about the text [JSON.parse] accepted.
    On such a text it never reports a syntax error; it returns spans exactly when no
    object of the text, at any depth, repeats a key, and every span then covers the
    part of the text from which that part of the value is read. *)
Theorem span_parser_locates text t :
  json_raw text = Some t →
  (distinct_keys t ↔ ∃ root, parse_spans text = Ok root) ∧
  (¬ distinct_keys t ↔ ∃ key, parse_spans text = Throw (DuplicateKeyError key)) ∧
  (∀ root, parse_spans text = Ok root → located text root t).
Proof.
  intros Hs%parse_spans_spec. destruct (parse_spans text) as [root|[key|]]; [destruct Hs|..]; naive_solver.
Qed.

(** ** Parts *)

(** [map.get] and member access agree on a located object. *)
Lemma located_property text root v name x :
  located text root v → get v name = Some x → ∃ sp, objectProperty (Some root) (js name) = Some sp ∧ located text sp x.
Proof.
  destruct 1 as [a b ps ms _ Hall| |]; [|done|by destruct v]. cbn.
  induction Hall as [|p m ps ms [E Hl] _ IH]; [done|]. cbn. rewrite E.
  destruct (bool_decide (m.1 = js name)); [|done]. intros [= <-]. eauto.
Qed.

Lemma located_steps text sp vs v name x :
  located text sp (VArr vs) → v ∈ vs → get v name = Some x →
  ∃ a b items step part, sp = array_span a b items ∧ step ∈ items ∧
    objectProperty (Some step) (js name) = Some part ∧ located text part x.
Proof.
  intros Hl Hv Hx. inversion Hl as [|a b items vs' _ Hall|a b v' Hr Hsc]; subst; [|done].
  apply list_elem_of_lookup in Hv as [i Hi].
  destruct (Forall2_lookup_r _ _ _ _ _ Hall Hi) as (step & Hstep & Hs).
  destruct (located_property _ _ _ _ _ Hs Hx) as (part & Hp & Hpl).
  exists a, b, items, step, part. split; [done|]. split; [by eapply list_elem_of_lookup_2|done].
Qed.

Lemma assertByteLimit_ok text sp path limit :
  assertByteLimit text sp path limit = Ok tt → spanByteLength text sp <= limit.
Proof. unfold assertByteLimit. destruct (Z.ltb_spec limit (spanByteLength text sp)); [done|lia]. Qed.

Lemma check_steps_ok text name limit i items step part :
  check_steps text name limit i items = Ok tt → step ∈ items →
  objectProperty (Some step) (js name) = Some part → spanByteLength text part <= limit.
Proof.
  revert i. induction items as [|s items IH]; intros i Hok Hin Hp; [by apply not_elem_of_nil in Hin|].
  cbn [check_steps] in Hok. apply elem_of_cons in Hin as [<- | Hin].
  - rewrite Hp in Hok. destruct (assertByteLimit _ _ _ _) as [[]|] eqn:E; [|done]. by apply assertByteLimit_ok in E.
  - destruct (match objectProperty _ _ with None => _ | _ => _ end) as [[]|]; [|done]. by eapply IH.
Qed.

(** ** Frames *)

Context `{Hasher} (validateSchema : jsval → list ErrorObject + RbpEnvelope).
Abbreviation parse := (parseRbpFrame validateSchema).

(** A frame is accepted only past every step of the boundary. *)
Lemma parse_accepts last frame errors value :
  parse last frame = (errors, Ok value) →
  ∃ text root, starts_with [0xef; 0xbb; 0xbf] frame = false ∧ utf8_decode frame = Some text ∧
    json_raw text = Some value ∧ distinct_keys value ∧ parse_spans text = Ok root ∧ located text root value ∧
    limits_checked frame text root value = Ok tt ∧
    validateRbpEnvelope validateSchema last value = (errors, Ok true).
Proof.
  unfold parseRbpFrame. destruct (starts_with _ frame) eqn:Eb; [by intros [=]|].
  destruct (utf8_decode frame) as [text|] eqn:Eu; [|by intros [=]].
  unfold json_parse. destruct (json_raw text) as [t|] eqn:Ej; [|by intros [=]]. cbn [fmap option_fmap option_map].
  pose proof (parse_spans_spec _ _ Ej) as Hs. destruct (parse_spans text) as [root|[key|]] eqn:Es; [|discriminate|destruct Hs].
  destruct Hs as [Hd Hl]. rewrite (last_members_id t Hd).
  destruct (limits_checked _ _ _ _) as [[]|e] eqn:El; [|by intros [=]].
  destruct (validateRbpEnvelope _ _ _) as [es [[]|]] eqn:Ev; intros [= <- <-]. exists text, root. repeat (split; [done|]). done.
Qed.

(** What a caller of the boundary may rely on. An accepted frame is the UTF-8
    encoding, without a byte order mark, of a JSON text; no object in it repeats a
    key, so the returned value is the whole of the text; and the schema and the
    semantic checks accepted that value. *)
Theorem accepted_frame last frame errors value :
  parse last frame = (errors, Ok value) →
  ∃ text, utf8_encode text = frame ∧ well_formed text = true ∧
    starts_with [0xef; 0xbb; 0xbf] frame = false ∧
    json_raw text = Some value ∧ distinct_keys value ∧
    validateRbpEnvelope validateSchema last value = (errors, Ok true).
Proof.
  intros (text & root & Hb & (Hw & _ & He)%utf8_decode_spec & Hj & Hd & _ & _ & _ & Hv)%parse_accepts.
  by exists text.
Qed.

(** The codes of a rejected frame. *)
Definition rejected (code : RbpFrameErrorCode) (res : list ErrorObject * result thrown jsval) : Prop :=
  match res.2 with Throw (inl e) => fe_code e = code | _ => False end.

(** The checks of sizes throw nothing else. *)
Definition size_check (r : result thrown unit) : Prop :=
  match r with Ok tt => True | Throw (inl e) => fe_code e = frame_too_large | Throw (inr _) => False end.

Lemma size_check_then r k : size_check r → size_check k → size_check (r ;; k).
Proof. by destruct r as [[]|[]]. Qed.

Lemma size_check_if (b : bool) r k : size_check r → size_check k → size_check (if b then r else k).
Proof. by destruct b. Qed.

Lemma size_check_assert text sp path limit : size_check (assertByteLimit text sp path limit).
Proof. by apply size_check_if. Qed.

Lemma size_check_part (part : option JsonSpan) f : (∀ sp, size_check (f sp)) → size_check (match part with None => Ok tt | Some sp => f sp end).
Proof. by destruct part. Qed.

Lemma size_check_steps text name limit i items : size_check (check_steps text name limit i items).
Proof.
  revert i. induction items as [|s items IH]; intros i; [done|]. apply size_check_then; [|apply IH].
  apply size_check_part. intros. apply size_check_assert.
Qed.

Lemma size_check_limits frame text root value : size_check (limits_checked frame text root value).
Proof.
  assert (size_check (enforceFrameLimits (Z.of_nat (length frame)) text root value)); [|by destruct value].
  repeat apply size_check_then; [by apply size_check_if..| |].
  - apply size_check_if; [apply size_check_part; intros; apply size_check_assert|].
    apply size_check_if; [|done]. destruct (objectProperty _ _) as [[]|]; try done. apply size_check_steps.
  - apply size_check_if; [done|]. destruct (objectProperty _ _) as [[a b ps| |]|]; try done.
    destruct (get value "payload") as [payload|]; [|done]. destruct (get payload "kind") as [kind|]; [|done].
    apply size_check_if.
    + apply size_check_part. intros. by apply size_check_if.
    + destruct (objectProperty _ _) as [[]|]; try done. apply size_check_steps.
Qed.

#[local] Ltac rejection := unfold rejected, frame_error; cbn [fst snd fe_code]; naive_solver.

(** The order of the boundary's checks decides the code. A byte order mark, then
    an encoding error, then a syntax error, then a repeated key are each reported
    exactly when that is the first thing wrong with the frame; past these only the
    size limits and the validator can refuse it. The parser of spans never turns a
    JSON text into a syntax error, and a frame refused before the validator leaves
    the validator's last errors alone. *)
Theorem frame_rejections last frame :
  let res := parse last frame in
  (rejected utf8_bom res ↔ starts_with [0xef; 0xbb; 0xbf] frame = true) ∧
  (rejected invalid_utf8 res ↔ starts_with [0xef; 0xbb; 0xbf] frame = false ∧ utf8_decode frame = None) ∧
  (rejected invalid_json res ↔
    starts_with [0xef; 0xbb; 0xbf] frame = false ∧ ∃ text, utf8_decode frame = Some text ∧ json_raw text = None) ∧
  (rejected duplicate_key res ↔
    starts_with [0xef; 0xbb; 0xbf] frame = false ∧
    ∃ text t, utf8_decode frame = Some text ∧ json_raw text = Some t ∧ ¬ distinct_keys t) ∧
  (¬ rejected invalid_envelope res → (∀ v, res.2 ≠ Ok v) → (∀ e, res.2 ≠ Throw (inr e)) → res.1 = last).
Proof.
  cbn zeta. unfold parseRbpFrame. destruct (starts_with _ frame) eqn:Eb; [rejection|].
  destruct (utf8_decode frame) as [text|] eqn:Eu; [|rejection].
  unfold json_parse. destruct (json_raw text) as [t|] eqn:Ej; [|rejection].
  cbn [fmap option_fmap option_map].
  pose proof (parse_spans_spec _ _ Ej) as Hs. destruct (parse_spans text) as [root|[key|]] eqn:Es;
    [|rejection|destruct Hs].
  destruct Hs as [Hd Hl]. rewrite (last_members_id t Hd).
  pose proof (size_check_limits frame text root t) as Hc. destruct (limits_checked _ _ _ _) as [[]|[e|e]]; cbn in Hc.
  - destruct (validateRbpEnvelope _ _ _) as [es [[]|]]; rejection.
  - unfold rejected; cbn [fst snd]. rewrite Hc. naive_solver.
  - destruct Hc.
Qed.

(** ** Limits on the parts of an accepted frame *)

(** The part [x] of the frame is covered by the span [part], which is short enough. *)
Definition part_within (text : jstr) (part : option JsonSpan) (x : jsval) (limit : Z) : Prop :=
  ∃ sp, part = Some sp ∧ located text sp x ∧ spanByteLength text sp <= limit.

(** Every step of a batch that has the part. *)
Definition steps_within (text : jstr) (steps : option JsonSpan) (payload : jsval) (name : string) (limit : Z) : Prop :=
  ∀ vs v x, get payload "steps" = Some (VArr vs) → v ∈ vs → get v name = Some x →
    ∃ a b items step, steps = Some (array_span a b items) ∧ step ∈ items ∧
      part_within text (objectProperty (Some step) (js name)) x limit.

Lemma located_get text root v name1 x name2 y :
  located text root v → get v name1 = Some x → get x name2 = Some y →
  ∃ sp, objectProperty (objectProperty (Some root) (js name1)) (js name2) = Some sp ∧ located text sp y.
Proof.
  intros Hl Hx Hy. destruct (located_property _ _ _ _ _ Hl Hx) as (sp & -> & Hs).
  by apply (located_property _ _ _ _ _ Hs).
Qed.

Lemma steps_checked text root value payload name limit :
  located text root value → get value "payload" = Some payload →
  let steps := objectProperty (objectProperty (Some root) (js "payload")) (js "steps") in
  (match steps with Some (array_span _ _ items) => check_steps text name limit 0 items | _ => Ok tt end) = Ok tt →
  steps_within text steps payload name limit.
Proof.
  intros Hl Hp steps Hok vs v x Hvs Hv Hx. destruct (located_get _ _ _ _ _ _ _ Hl Hp Hvs) as (sp & Esp & Hsp).
  destruct (located_steps _ _ _ _ _ _ Hsp Hv Hx) as (a & b & items & step & part & -> & Hin & Epart & Hpart).
  subst steps. rewrite Esp in Hok |- *. exists a, b, items, step. split; [done|]. split; [done|].
  exists part. split; [done|]. split; [done|]. by eapply check_steps_ok.
Qed.

Lemma params_checked text root value payload :
  located text root value → get value "payload" = Some payload → enforceInvocationParams text root value = Ok tt →
  let at_payload := objectProperty (Some root) (js "payload") in
  (type_is value "invoke" = true → ∀ x, get payload "params" = Some x →
    part_within text (objectProperty at_payload (js "params")) x RBP_MAX_INVOCATION_PARAMS_BYTES) ∧
  (type_is value "invoke" = false → type_is value "invoke_batch" = true →
    steps_within text (objectProperty at_payload (js "steps")) payload "params" RBP_MAX_INVOCATION_PARAMS_BYTES).
Proof.
  intros Hl Hp Hok at_payload. unfold enforceInvocationParams in Hok. split.
  - intros Et x Hx. rewrite Et in Hok. destruct (located_get _ _ _ _ _ _ _ Hl Hp Hx) as (sp & Esp & Hsp).
    subst at_payload. rewrite Esp in Hok |- *. exists sp. split; [done|]. split; [done|]. by eapply assertByteLimit_ok.
  - intros Et Eb. rewrite Et, Eb in Hok. by apply (steps_checked _ _ _ _ _ _ Hl Hp).
Qed.

(** The sizes the invocation's artifacts declare. *)
Definition artifact_total (payload : jsval) : jsnum :=
  foldl (λ total artifact, num_add total (artifact_size artifact)) (JInt 0)
    (match get payload "artifacts" with Some (VArr items) => items | _ => [] end).

Lemma results_checked text root value payload kind :
  located text root value → get value "payload" = Some payload → get payload "kind" = Some kind →
  type_is value "result" = true → enforceInlineResults text root value = Ok tt →
  let at_payload := objectProperty (Some root) (js "payload") in
  (kind = VStr (js "invocation") → ∀ x, get payload "result" = Some x →
    ∃ sp, objectProperty at_payload (js "result") = Some sp ∧ located text sp x ∧
      num_gtb (num_add (JInt (spanByteLength text sp)) (artifact_total payload)) RBP_MAX_INLINE_RESULT_BYTES = false) ∧
  (kind ≠ VStr (js "invocation") →
    steps_within text (objectProperty at_payload (js "steps")) payload "result" RBP_MAX_INLINE_RESULT_BYTES).
Proof.
  intros Hl Hp Hk Et Hok at_payload. unfold enforceInlineResults in Hok. rewrite Et in Hok. cbn [negb] in Hok.
  destruct (located_property _ _ _ _ _ Hl Hp) as (psp & Epsp & Hpsp).
  assert (∃ a b ps, psp = object_span a b ps) as (a & b & ps & ->) by (destruct Hpsp as [| |? ? []]; eauto; done).
  rewrite Epsp, Hp, Hk in Hok. split.
  - intros -> x Hx. destruct (located_property _ _ _ _ _ Hpsp Hx) as (sp & Esp & Hsp). subst at_payload.
    rewrite bool_decide_eq_true_2 in Hok by done. rewrite Esp in Hok. rewrite Epsp, Esp.
    exists sp. split; [done|]. split; [done|]. unfold artifact_total. by destruct (num_gtb _ _).
  - intros Hne. subst at_payload. apply (steps_checked _ _ _ _ _ _ Hl Hp). rewrite Epsp.
    destruct (match kind with VStr s => _ | _ => _ end) eqn:Ek; [|done].
    destruct kind as [| | | |s| | |]; try done. bsimp. by subst.
Qed.

(** C28: an accepted frame respects the protocol's byte limits, measured on its own
    text. Control and document frames as a whole, the parameters of an invocation or
    of each step of a batch, and an inline result together with the sizes its
    artifacts declare (or the result of each step) are within their limits, where
    the part measured is the text from which that part of the value was read. *)
Theorem accepted_frame_limits last frame errors value :
  parse last frame = (errors, Ok value) →
  ∃ text root, utf8_decode frame = Some text ∧ located text root value ∧
    let at_payload := objectProperty (Some root) (js "payload") in
    (isControl value = true → Z.of_nat (length frame) <= RBP_MAX_CONTROL_FRAME_BYTES) ∧
    (type_is value "doc_context_update" = true → Z.of_nat (length frame) <= RBP_MAX_DOC_CONTEXT_FRAME_BYTES) ∧
    ∀ payload, get value "payload" = Some payload →
      (type_is value "invoke" = true → ∀ x, get payload "params" = Some x →
        part_within text (objectProperty at_payload (js "params")) x RBP_MAX_INVOCATION_PARAMS_BYTES) ∧
      (type_is value "invoke" = false → type_is value "invoke_batch" = true →
        steps_within text (objectProperty at_payload (js "steps")) payload "params" RBP_MAX_INVOCATION_PARAMS_BYTES) ∧
      ∀ kind, type_is value "result" = true → get payload "kind" = Some kind →
        (kind = VStr (js "invocation") → ∀ x, get payload "result" = Some x →
          ∃ sp, objectProperty at_payload (js "result") = Some sp ∧ located text sp x ∧
            num_gtb (num_add (JInt (spanByteLength text sp)) (artifact_total payload)) RBP_MAX_INLINE_RESULT_BYTES = false) ∧
        (kind ≠ VStr (js "invocation") →
          steps_within text (objectProperty at_payload (js "steps")) payload "result" RBP_MAX_INLINE_RESULT_BYTES).
Proof.
  intros (text & root & _ & Hu & _ & _ & _ & Hl & Hc & _)%parse_accepts. exists text, root.
  split; [done|]. split; [done|]. destruct value as [| | | | | |shape ms|]; try (split; [done|]; split; [done|]; discriminate).
  cbn [limits_checked] in Hc. set (value := VObj shape ms) in *. clearbody value. unfold enforceFrameLimits in Hc.
  destruct (isControl value && _) eqn:E1; [done|]. cbn [mbind result_bind] in Hc.
  destruct (type_is value "doc_context_update" && _) eqn:E2; [done|]. cbn [mbind result_bind] in Hc.
  destruct (enforceInvocationParams text root value) as [[]|] eqn:E3; [|done]. cbn [mbind result_bind] in Hc.
  split; [intros E; rewrite E in E1; cbn in E1; by apply Z.ltb_ge|].
  split; [intros E; rewrite E in E2; cbn in E2; by apply Z.ltb_ge|].
  intros payload Hp. destruct (params_checked _ _ _ _ Hl Hp E3) as [H1 H2].
  split; [done|]. split; [done|]. intros kind Et Hk. by apply (results_checked text root value).
Qed.

End spans.

(** ** The message of an invalid envelope *)

Lemma most_specific_fold best errors :
  ∃ e, foldl most_specific best errors = e ∧
    (best = None ∧ errors = [] ∧ e = None ∨
     ∃ s, e = Some s ∧ (best = Some s ∨ s ∈ errors) ∧
       (∀ x, best = Some x ∨ x ∈ errors → validationErrorSpecificity x <= validationErrorSpecificity s)).
Proof.
  revert best. induction errors as [|x errors IH]; intros best.
  - exists best. split; [done|]. destruct best as [b|]; [right|by left].
    exists b. split; [done|]. split; [by left|]. intros y [[= <-]|Hy%not_elem_of_nil]; [lia|done].
  - cbn [foldl]. destruct (IH (most_specific best x)) as (e & -> & Hc). exists e. split; [done|]. right.
    destruct Hc as [(Hn & _)|(s & -> & Hs & Hmax)].
    { unfold most_specific in Hn. by repeat case_match. }
    exists s. split; [done|]. unfold most_specific in *. destruct best as [b|].
    + destruct (Z.ltb_spec (validationErrorSpecificity b) (validationErrorSpecificity x));
        (split; [rewrite elem_of_cons; naive_solver|]); intros y [[= <-]|[-> | Hy]%elem_of_cons];
        try (by apply Hmax; auto); pose proof (Hmax _ (or_introl eq_refl)); lia.
    + split; [rewrite elem_of_cons; naive_solver|]. intros y [[=]|[-> | Hy]%elem_of_cons]; apply Hmax; auto.
Qed.

(** The text of a report names an error of the highest specificity and stays short. *)
Theorem validation_message errors :
  (length (envelopeValidationMessage errors) <= 512)%nat ∧
  (errors ≠ [] → ∃ s, s ∈ errors ∧ foldl most_specific None errors = Some s ∧
    ∀ x, x ∈ errors → validationErrorSpecificity x <= validationErrorSpecificity s).
Proof.
  unfold envelopeValidationMessage. destruct (most_specific_fold None errors) as (e & -> & Hc). split.
  - destruct e; [rewrite length_take; lia|]. vm_compute. lia.
  - intros Hne. destruct Hc as [(_ & ? & _)|(s & -> & [[=]|Hs] & Hmax)]; [done|]. exists s. naive_solver.
Qed.

(** ** Witnesses *)

(** An arithmetic that is exact on integers, and a text with ' for the quote. *)
#[local] Instance demo_float : Float64 := {|
  numeral_value m e := if e =? 0 then JInt m else JNaN;
  num_add a b := match a, b with JInt a, JInt b => JInt (a + b) | _, _ => JNaN end |}.

#[local] Instance demo_float_ok : Float64Ok demo_float.
Proof. split; done. Qed.

Definition quoted (s : string) : jstr := map (λ c, if c =? 39 then 34 else c) (js s).

Definition demo_nested : jsval :=
  obj [(js "a", VArr [VNum (JInt 1); VBool true]); (js "b", obj [(js "a", VNull)])].

Lemma span_parser_locates_witness :
  parse_spans (quoted " {'a': [1, true], 'b': {'a':null}}") =
    Ok (object_span 1 34 [(js "a", array_span 7 16 [scalar_span 8 9; scalar_span 11 15]);
                          (js "b", object_span 23 33 [(js "a", scalar_span 28 32)])]) ∧
  ∃ root, parse_spans (quoted " {'a': [1, true], 'b': {'a':null}}") = Ok root ∧
    located (quoted " {'a': [1, true], 'b': {'a':null}}") root demo_nested.
Proof.
  split; [vm_compute; reflexivity|].
  destruct (span_parser_locates (quoted " {'a': [1, true], 'b': {'a':null}}") demo_nested) as (_ & _ & Hl).
  { vm_compute. reflexivity. }
  eexists. split; [vm_compute; reflexivity|]. apply Hl. vm_compute. reflexivity.
Defined.

(** A schema that admits objects. *)
Definition demo_frame_schema (v : jsval) : list ErrorObject + RbpEnvelope :=
  match v with VObj _ _ => inr (other_envelope (js "heartbeat")) | _ => inl [] end.

Definition demo_frame : list Z := quoted "{'type':'invoke','payload':{'params':{'x':[1,2]}}}".
Definition demo_frame_value : jsval :=
  obj [(js "type", VStr (js "invoke"));
       (js "payload", obj [(js "params", obj [(js "x", VArr [VNum (JInt 1); VNum (JInt 2)])])])].

Lemma accepted_frame_witness :
  ∃ text, utf8_encode text = demo_frame ∧ well_formed text = true ∧
    starts_with [0xef; 0xbb; 0xbf] demo_frame = false ∧ json_raw text = Some demo_frame_value ∧
    distinct_keys demo_frame_value ∧
    validateRbpEnvelope demo_frame_schema [] demo_frame_value = ([], Ok true).
Proof. apply (accepted_frame demo_frame_schema [] demo_frame [] demo_frame_value). vm_compute. reflexivity. Defined.

Lemma accepted_frame_limits_witness :
  ∃ text sp, utf8_decode demo_frame = Some text ∧
    located text sp (obj [(js "x", VArr [VNum (JInt 1); VNum (JInt 2)])]) ∧
    spanByteLength text sp <= RBP_MAX_INVOCATION_PARAMS_BYTES.
Proof.
  destruct (accepted_frame_limits demo_frame_schema [] demo_frame [] demo_frame_value) as (text & root & Hu & _ & _ & _ & Hp).
  { vm_compute. reflexivity. }
  destruct (Hp _ eq_refl) as [Hi _]. destruct (Hi eq_refl _ eq_refl) as (sp & _ & Hl & Hb).
  exists text, sp. split; [exact Hu|]. split; [exact Hl|exact Hb].
Defined.

Lemma frame_rejections_witness :
  rejected duplicate_key (parseRbpFrame demo_frame_schema [] (quoted "{'a':[{'b':1,'b':1}]}")) ∧
  rejected invalid_json (parseRbpFrame demo_frame_schema [] (quoted "{'a':01}")) ∧
  (parseRbpFrame demo_frame_schema [] [0xc0; 0x80]).1 = [].
Proof.
  split; [|split].
  - destruct (frame_rejections demo_frame_schema [] (quoted "{'a':[{'b':1,'b':1}]}")) as (_ & _ & _ & Hd & _).
    apply Hd. clear Hd. split; [vm_compute; reflexivity|]. eexists _, _. split; [vm_compute; reflexivity|]. split; [vm_compute; reflexivity|].
    intros [_ Hd]%distinct_keys_obj. apply Forall_cons in Hd as [Hd _]. apply distinct_keys_arr, Forall_cons in Hd as [Hd _].
    apply distinct_keys_obj in Hd as [Hd _]. apply NoDup_cons in Hd as [Hd _]. apply Hd. left.
  - destruct (frame_rejections demo_frame_schema [] (quoted "{'a':01}")) as (_ & _ & Hj & _).
    apply Hj. clear Hj. split; [vm_compute; reflexivity|]. eexists. split; vm_compute; reflexivity.
  - destruct (frame_rejections demo_frame_schema [] [0xc0; 0x80]) as (_ & _ & _ & _ & Hl).
    apply Hl; clear Hl; vm_compute; [intros [=]|discriminate|discriminate].
Defined.

Lemma canonical_text_parses_witness :
  json_parse (quoted "{'a':[true,'x'],'b':-7}") =
    Some (obj [(js "a", VArr [VBool true; VStr (js "x")]); (js "b", VNum (JInt (-7)))]).
Proof.
  destruct (canonical_text_parses (obj [(js "b", VNum (JInt (-7))); (js "a", VArr [VBool true; VStr (js "x")])])
              (quoted "{'a':[true,'x'],'b':-7}")) as [_ E]; [vm_compute; reflexivity..|]. exact E.
Defined.
End ParseFrameFacts.
