(* ===== verification/EntryPoint.v ===== *)
(** The entry point of the protocol package: packages/protocol/src/index.ts.

    Beside the re-exports it has the versions and the idempotency key under which
    journals file an invocation. *)

From S2P Require Import Prelude JsString.

Module EntryPoint.

Definition RBP_PROTOCOL_VERSION : Z := 1.
Definition RBP_SPEC_VERSION : jstr := js "1.0".

Definition makeIdempotencyKey (rsid invocationId : jstr) : result js_error jstr :=
  reject_if ((length rsid =? 0)%nat || (length invocationId =? 0)%nat) PlainError
    "rsid and invocationId are required" ;;
  Ok (rsid ++ js "/" ++ invocationId).

End EntryPoint.

Module EntryPointFacts.
Import EntryPoint.

(** The form the schema gives invocation ids has no slash. *)
Definition no_slash (s : jstr) : bool := forallb (λ c, negb (c =? 47)) s.

Lemma split_at_last_slash (a b x y : jstr) :
  no_slash x = true → no_slash y = true → a ++ 47 :: x = b ++ 47 :: y → a = b ∧ x = y.
Proof.
  assert (∀ (a : jstr) x y, no_slash x = true → a ++ 47 :: x ≠ y ∨ no_slash y = false) as Hno.
  { intros a' x' y' Hx. destruct (no_slash y') eqn:E; [left|by right]. intros <-.
    unfold no_slash in E. rewrite forallb_app in E. cbn in E. by rewrite andb_false_r in E. }
  revert b. induction a as [|c a IH]; intros [|d b] Hx Hy E; cbn in E.
  - by injection E.
  - injection E as _ E. destruct (Hno b y x Hy) as [Hn|Hn]; [by destruct Hn|congruence].
  - injection E as _ E. destruct (Hno a x y Hx) as [Hn|Hn]; [done|congruence].
  - injection E as <- E. by destruct (IH b Hx Hy E) as [-> ->].
Qed.

(** An idempotency key names one invocation of one session. Keys of invocation
    ids of the schema's form, which has no slash, are equal only when both the
    session and the invocation are, whatever characters a session id has. *)
Theorem idempotency_key_identifies rsid1 rsid2 id1 id2 key :
  no_slash id1 = true → no_slash id2 = true →
  makeIdempotencyKey rsid1 id1 = Ok key → makeIdempotencyKey rsid2 id2 = Ok key →
  rsid1 = rsid2 ∧ id1 = id2.
Proof.
  intros H1 H2. unfold makeIdempotencyKey, reject_if. destruct (_ || _); [done|]. destruct (_ || _); [done|].
  intros [= <-] [= E]. by destruct (split_at_last_slash _ _ _ _ H2 H1 E) as [-> ->].
Qed.

Lemma idempotency_key_identifies_witness :
  makeIdempotencyKey (js "s/1") (js "i1") = Ok (js "s/1/i1") ∧ js "s/1" = js "s/1" ∧ js "i1" = js "i1".
Proof.
  split; [reflexivity|].
  apply (idempotency_key_identifies (js "s/1") (js "s/1") (js "i1") (js "i1") (js "s/1/i1")); vm_compute; reflexivity.
Defined.
End EntryPointFacts.
