(* ===== verification/Framing.v ===== *)
(** Length-prefixed frames on a byte stream:
    packages/addin-loopback-fixture/src/framing.ts.

    A frame is a four byte big-endian length and that many payload bytes. TCP
    delivers the stream in arbitrary pieces, and the decoder must find the same
    frames however it is cut, refuse frames over its cap and stay closed then. *)

From S2P Require Import Prelude JsString JsValue.

Module Framing.

Definition FRAME_HEADER_BYTES : nat := 4.

(** [readUInt32BE] and [writeUInt32BE] *)
Definition readUInt32BE (b0 b1 b2 b3 : Z) : Z := b0 * 16777216 + b1 * 65536 + b2 * 256 + b3.
Definition writeUInt32BE (n : Z) : list Z :=
  [n / 16777216; n / 65536 mod 256; n / 256 mod 256; n mod 256].

(** [PayloadLimitError], with the frames completed before it. *)
Record PayloadLimitError := {
  pl_advertisedBytes : Z; pl_maxPayloadBytes : Z; pl_completedFrames : list (list Z) }.

Definition encodeFrame (payload : list Z) (maxPayloadBytes : Z) : result PayloadLimitError (list Z) :=
  let byteLength := Z.of_nat (length payload) in
  throw_if ((maxPayloadBytes <? byteLength) || (0xffffffff <? byteLength))
    {| pl_advertisedBytes := byteLength; pl_maxPayloadBytes := Z.min maxPayloadBytes 0xffffffff;
       pl_completedFrames := [] |} ;;
  Ok (writeUInt32BE byteLength ++ payload).

(** ** The decoder *)

Record FrameDecoder := { fd_maxPayloadBytes : Z; fd_buffer : list Z; fd_closed : bool }.

Definition newFrameDecoder (maxPayloadBytes : jsnum) : result js_error FrameDecoder :=
  reject_if (negb (isSafeInteger maxPayloadBytes) || negb (num_geb maxPayloadBytes 0)) RangeError
    "maxPayloadBytes must be a non-negative safe integer" ;;
  Ok {| fd_maxPayloadBytes := num_Z maxPayloadBytes; fd_buffer := []; fd_closed := false |}.

(** How the loop ends: with bytes left over, or on a frame over the cap. *)
Inductive drained := leftover (buffer : list Z) | over_cap (payloadLength : Z).

(** The [while] loop; [fuel] bounds the rounds, and the length of the buffer is enough. *)
Fixpoint drain (fuel : nat) (max : Z) (buffer : list Z) : list (list Z) * drained :=
  match fuel, buffer with
  | S fuel, b0 :: b1 :: b2 :: b3 :: rest =>
      let payloadLength := readUInt32BE b0 b1 b2 b3 in
      if max <? payloadLength then ([], over_cap payloadLength) else
      let n := Z.to_nat payloadLength in
      if (length rest <? n)%nat then ([], leftover buffer) else
      let '(frames, d) := drain fuel max (drop n rest) in (take n rest :: frames, d)
  | _, _ => ([], leftover buffer)
  end.

Inductive push_result :=
| push_frames (frames : list (list Z))
| push_limit_error (error : PayloadLimitError)
| push_closed_error.

(** [push] mutates the decoder also when it throws. *)
Definition push (d : FrameDecoder) (chunk : list Z) : FrameDecoder * push_result :=
  if fd_closed d then (d, push_closed_error) else
  let buffer := fd_buffer d ++ chunk in
  match drain (length buffer) (fd_maxPayloadBytes d) buffer with
  | (frames, leftover rest) =>
      ({| fd_maxPayloadBytes := fd_maxPayloadBytes d; fd_buffer := rest; fd_closed := false |}, push_frames frames)
  | (frames, over_cap n) =>
      ({| fd_maxPayloadBytes := fd_maxPayloadBytes d; fd_buffer := []; fd_closed := true |},
       push_limit_error {| pl_advertisedBytes := n; pl_maxPayloadBytes := fd_maxPayloadBytes d;
                           pl_completedFrames := frames |})
  end.

End Framing.

Module FramingFacts.
Import Framing.

(** Feed the pieces one by one; collect frames up to the first error. *)
Fixpoint feed (d : FrameDecoder) (chunks : list (list Z)) : FrameDecoder * list (list Z) * bool :=
  match chunks with
  | [] => (d, [], false)
  | chunk :: chunks =>
      match push d chunk with
      | (d', push_frames frames) =>
          let '(d'', more, failed) := feed d' chunks in (d'', frames ++ more, failed)
      | (d', push_limit_error e) => (d', pl_completedFrames e, true)
      | (d', push_closed_error) => (d', [], true)
      end
  end.

(** The reference: decode the whole stream at once. *)
Definition decode_stream (max : Z) (bytes : list Z) : FrameDecoder * list (list Z) * bool :=
  match drain (length bytes) max bytes with
  | (frames, leftover rest) =>
      ({| fd_maxPayloadBytes := max; fd_buffer := rest; fd_closed := false |}, frames, false)
  | (frames, over_cap _) =>
      ({| fd_maxPayloadBytes := max; fd_buffer := []; fd_closed := true |}, frames, true)
  end.

(** ** The loop *)

Lemma drain_fuel f1 f2 max buf :
  (length buf <= f1)%nat → (length buf <= f2)%nat → drain f1 max buf = drain f2 max buf.
Proof.
  revert f2 buf. induction f1 as [|f1 IH]; intros f2 buf H1 H2.
  { destruct buf; [|cbn in H1; lia]. by destruct f2. }
  destruct buf as [|b0 [|b1 [|b2 [|b3 rest]]]]; try (by destruct f2).
  destruct f2 as [|f2]; [cbn in H2; lia|]. cbn -[readUInt32BE Z.ltb Nat.ltb].
  repeat (split_if; [done|]). cbn in H1, H2.
  rewrite (IH f2); [done|..]; rewrite length_drop; lia.
Qed.

Lemma drain_rest fuel max buf frames rest :
  drain fuel max buf = (frames, leftover rest) → (length rest <= length buf)%nat.
Proof.
  revert buf frames. induction fuel as [|fuel IH]; intros buf frames Hd; [by injection Hd as _ <-|].
  destruct buf as [|b0 [|b1 [|b2 [|b3 buf]]]]; try (by injection Hd as _ <-).
  cbn -[readUInt32BE Z.ltb Nat.ltb] in Hd. split_if; [done|]. split_if; [by injection Hd as _ <-|].
  destruct (drain fuel max _) as [fs d] eqn:E. injection Hd as _ ->. apply IH in E.
  rewrite length_drop in E. cbn. lia.
Qed.

(** What was decoded stays decoded when more bytes arrive. *)
Lemma drain_app fuel max buf more :
  (length buf <= fuel)%nat →
  match drain fuel max buf with
  | (frames, leftover rest) =>
      ∀ f, (length (buf ++ more) <= f)%nat →
      drain f max (buf ++ more) =
        let '(frames', d) := drain f max (rest ++ more) in (frames ++ frames', d)
  | (frames, over_cap n) =>
      ∀ f, (length (buf ++ more) <= f)%nat → drain f max (buf ++ more) = (frames, over_cap n)
  end.
Proof.
  revert buf. induction fuel as [|fuel IH]; intros buf Hlen.
  { destruct buf; [|cbn in Hlen; lia]. cbn. intros f _. by destruct (drain f max more). }
  destruct buf as [|b0 [|b1 [|b2 [|b3 rest]]]]; try (cbn; intros f _; by destruct (drain f max _)).
  cbn -[readUInt32BE Z.ltb Nat.ltb]. cbn in Hlen.
  set (n := readUInt32BE b0 b1 b2 b3). destruct (max <? n) eqn:Emax.
  { intros [|f] Hf; [cbn in Hf; lia|]. cbn -[readUInt32BE Z.ltb Nat.ltb]. fold n. by rewrite Emax. }
  destruct (length rest <? Z.to_nat n)%nat eqn:Eshort.
  { intros f _. by destruct (drain f max _). }
  apply Nat.ltb_ge in Eshort.
  assert (∀ f, (length ((b0 :: b1 :: b2 :: b3 :: rest) ++ more) <= S f)%nat →
    drain (S f) max ((b0 :: b1 :: b2 :: b3 :: rest) ++ more) =
    let '(frames, d) := drain f max (drop (Z.to_nat n) rest ++ more) in
    (take (Z.to_nat n) rest :: frames, d)) as Hstep.
  { intros f Hf. cbn -[readUInt32BE Z.ltb Nat.ltb]. fold n. rewrite Emax, length_app.
    rewrite (proj2 (Nat.ltb_ge _ _)) by lia. by rewrite drop_app_le, take_app_le by lia. }
  specialize (IH (drop (Z.to_nat n) rest) ltac:(rewrite length_drop; lia)).
  destruct (drain fuel max (drop (Z.to_nat n) rest)) as [frames [left|k]] eqn:Ed; cbn [fst snd].
  - pose proof (drain_rest _ _ _ _ _ Ed) as Hleft. rewrite length_drop in Hleft.
    intros [|f] Hf; [cbn in Hf; lia|]. rewrite Hstep by done. cbn in Hf. rewrite length_app in Hf.
    rewrite IH by (rewrite length_app, length_drop; lia).
    rewrite (drain_fuel (S f) f max (left ++ more)) by (rewrite length_app; lia).
    by destruct (drain f max (left ++ more)).
  - intros [|f] Hf; [cbn in Hf; lia|]. rewrite Hstep by done. cbn in Hf. rewrite length_app in Hf.
    rewrite IH; [done|]. rewrite length_app, length_drop. lia.
Qed.

(** Nothing is left to decode in what is left over. *)
Lemma drain_again fuel max buf frames rest f :
  drain fuel max buf = (frames, leftover rest) → (length buf <= fuel)%nat → drain f max rest = ([], leftover rest).
Proof.
  revert buf frames. induction fuel as [|fuel IH]; intros buf frames Hd Hlen.
  { destruct buf; [|cbn in Hlen; lia]. injection Hd as _ <-. by destruct f. }
  destruct buf as [|b0 [|b1 [|b2 [|b3 buf]]]]; try (injection Hd as _ <-; by destruct f).
  cbn -[readUInt32BE Z.ltb Nat.ltb] in Hd. cbn in Hlen. destruct (max <? _) eqn:Emax; [done|].
  destruct (_ <? _)%nat eqn:Eshort.
  { injection Hd as _ <-. destruct f as [|f]; [done|]. cbn -[readUInt32BE Z.ltb Nat.ltb].
    by rewrite Emax, Eshort. }
  destruct (drain fuel max _) as [fs d] eqn:E. injection Hd as _ ->. eapply IH; [exact E|].
  rewrite length_drop. lia.
Qed.

(** ** The decoder finds the frames of the stream, however it is cut *)

Definition open_decoder (max : Z) (buffer : list Z) : FrameDecoder :=
  {| fd_maxPayloadBytes := max; fd_buffer := buffer; fd_closed := false |}.

Lemma feed_spec max buffer chunks :
  (∀ f, drain f max buffer = ([], leftover buffer)) →
  feed (open_decoder max buffer) chunks = decode_stream max (buffer ++ concat chunks).
Proof.
  revert buffer. induction chunks as [|chunk chunks IH]; intros buffer Hst; cbn [feed concat].
  { unfold decode_stream. by rewrite app_nil_r, Hst. }
  unfold push. cbn [fd_closed fd_buffer fd_maxPayloadBytes open_decoder].
  pose proof (drain_app (length (buffer ++ chunk)) max (buffer ++ chunk) (concat chunks) (Nat.le_refl _)) as Happ.
  destruct (drain (length (buffer ++ chunk)) max (buffer ++ chunk)) as [frames [rest|n]] eqn:Ed.
  - change {| fd_maxPayloadBytes := max; fd_buffer := rest; fd_closed := false |} with (open_decoder max rest).
    rewrite IH by (intros f; by eapply drain_again).
    pose proof (drain_rest _ _ _ _ _ Ed) as Hl. unfold decode_stream. rewrite <- app_assoc in Happ.
    rewrite app_assoc in Happ |- *. rewrite Happ by done.
    rewrite (drain_fuel _ (length ((buffer ++ chunk) ++ concat chunks)) max (rest ++ concat chunks))
      by (rewrite ?length_app in *; lia).
    by destruct (drain _ max (rest ++ concat chunks)) as [more [rest'|n]].
  - unfold decode_stream. rewrite app_assoc, Happ by done. done.
Qed.

Definition payload_ok (max : Z) (p : list Z) : Prop := Z.of_nat (length p) <= Z.min max 0xffffffff.

Lemma uint32_roundtrip n :
  0 <= n <= 0xffffffff →
  readUInt32BE (n / 16777216) (n / 65536 mod 256) (n / 256 mod 256) (n mod 256) = n.
Proof. intros Hn. unfold readUInt32BE. Z.to_euclidean_division_equations. lia. Qed.

Lemma drain_encoded max p rest f :
  payload_ok max p → (length (writeUInt32BE (Z.of_nat (length p)) ++ p ++ rest) <= f)%nat →
  drain f max (writeUInt32BE (Z.of_nat (length p)) ++ p ++ rest) =
  let '(frames, d) := drain f max rest in (p :: frames, d).
Proof.
  unfold payload_ok. intros Hp Hf. destruct f as [|f]; [cbn in Hf; lia|].
  cbn -[readUInt32BE Z.ltb Nat.ltb Z.div Z.modulo]. rewrite uint32_roundtrip by lia.
  rewrite (proj2 (Z.ltb_ge _ _)) by lia. rewrite Nat2Z.id, length_app.
  rewrite (proj2 (Nat.ltb_ge _ _)) by lia.
  rewrite take_app_length, drop_app_length. rewrite (drain_fuel f (S f) max rest); [done|..];
    cbn in Hf; rewrite length_app in Hf; lia.
Qed.

Lemma decode_encoded max ps :
  Forall (payload_ok max) ps →
  ∀ f, (length (concat (map (λ p, writeUInt32BE (Z.of_nat (length p)) ++ p) ps)) <= f)%nat →
  drain f max (concat (map (λ p, writeUInt32BE (Z.of_nat (length p)) ++ p) ps)) = (ps, leftover []).
Proof.
  induction 1 as [|p ps Hp _ IH]; intros f Hf; cbn [map concat] in *; [by destruct f|].
  rewrite <- app_assoc in Hf |- *. rewrite drain_encoded by done.
  rewrite !length_app in Hf. rewrite IH by lia. done.
Qed.

Lemma encodeFrame_ok p max wire :
  encodeFrame p max = Ok wire →
  payload_ok max p ∧ wire = writeUInt32BE (Z.of_nat (length p)) ++ p.
Proof.
  unfold encodeFrame. intros He. apply bind_ok in He as (? & Ht & [= <-]). apply throw_if_ok in Ht.
  bsimp. split; [|done]. unfold payload_ok. lia.
Qed.

(** The decoder does not depend on how the stream is cut: fed any pieces, it
    ends in the state, and has delivered the frames, of decoding the whole
    stream at once, errors included. *)
Theorem decoding_ignores_chunking max d chunks :
  newFrameDecoder max = Ok d → feed d chunks = decode_stream (fd_maxPayloadBytes d) (concat chunks).
Proof.
  unfold newFrameDecoder. intros Hn. apply bind_ok in Hn as (? & _ & [= <-]). cbn.
  apply (feed_spec _ []). by intros [].
Qed.

(** Frames round trip. Whatever payloads are encoded under the decoder's cap
    and however their bytes are cut into reads, the decoder delivers exactly
    those payloads, in order, keeps nothing and does not fail. *)
Theorem frames_roundtrip max d ps wires chunks :
  newFrameDecoder max = Ok d → Forall2 (λ p w, encodeFrame p (fd_maxPayloadBytes d) = Ok w) ps wires →
  concat chunks = concat wires →
  feed d chunks = (d, ps, false).
Proof.
  intros Hn Hps Hcut. unfold newFrameDecoder in Hn. apply bind_ok in Hn as (? & _ & [= <-]).
  cbn in Hps. etrans; [apply (feed_spec _ [] chunks); by intros []|]. cbn. rewrite Hcut.
  assert (concat wires = concat (map (λ p, writeUInt32BE (Z.of_nat (length p)) ++ p) ps) ∧
          Forall (payload_ok (num_Z max)) ps) as [-> Hok].
  { clear -Hps. induction Hps as [|p w ps ws Hp _ [IH1 IH2]]; [done|].
    apply encodeFrame_ok in Hp as [? ->]. cbn. rewrite IH1. split; [done|by constructor]. }
  unfold decode_stream. by rewrite decode_encoded.
Qed.

Lemma drain_over_cap fuel max buf frames n : drain fuel max buf = (frames, over_cap n) → max < n.
Proof.
  revert buf frames. induction fuel as [|fuel IH]; intros buf frames Hd; [done|].
  destruct buf as [|b0 [|b1 [|b2 [|b3 buf]]]]; try done. cbn -[readUInt32BE Z.ltb Nat.ltb] in Hd.
  split_if; [injection Hd as _ <-; by bsimp|]. split_if; [done|].
  destruct (drain fuel _ _) as [fs d0] eqn:E. injection Hd as _ ->. by eapply IH.
Qed.

(** What is left over is less than a header or less than the frame it announces. *)
Lemma drain_leftover fuel max buf frames rest :
  0 <= max → (length buf <= fuel)%nat → drain fuel max buf = (frames, leftover rest) →
  Z.of_nat (length rest) < 4 + max.
Proof.
  intros Hmax. revert buf frames. induction fuel as [|fuel IH]; intros buf frames Hlen Hd.
  { destruct buf; [|cbn in Hlen; lia]. injection Hd as _ <-. cbn. lia. }
  destruct buf as [|b0 [|b1 [|b2 [|b3 buf]]]]; try (injection Hd as _ <-; cbn; lia).
  cbn -[readUInt32BE Z.ltb Nat.ltb] in Hd. cbn in Hlen. split_if; [done|]. split_if.
  - injection Hd as _ <-. apply Nat.ltb_lt in Hif0. bsimp. cbn [length]. lia.
  - destruct (drain fuel _ _) as [fs d0] eqn:E. injection Hd as _ ->. eapply IH; [|exact E].
    rewrite length_drop. lia.
Qed.

(** What a push does. A frame over the cap closes the decoder for good: the
    frames completed before it are handed over with the error, nothing is kept,
    and every later push is refused. An open decoder buffers less than the
    largest frame it accepts. *)
Theorem push_outcomes d chunk :
  match push d chunk with
  | (d', push_frames _) =>
      fd_closed d' = false ∧ fd_maxPayloadBytes d' = fd_maxPayloadBytes d ∧
      (0 <= fd_maxPayloadBytes d → Z.of_nat (length (fd_buffer d')) < 4 + fd_maxPayloadBytes d)
  | (d', push_limit_error e) =>
      fd_closed d' = true ∧ fd_buffer d' = [] ∧ fd_maxPayloadBytes d < pl_advertisedBytes e ∧
      (∀ more, push d' more = (d', push_closed_error))
  | (d', push_closed_error) => d' = d ∧ fd_closed d = true
  end.
Proof.
  unfold push. destruct (fd_closed d) eqn:Ec; [done|].
  destruct (drain _ _ _) as [frames [rest|n]] eqn:Ed; cbn.
  - split; [done|]. split; [done|]. intros Hmax. by eapply drain_leftover in Ed.
  - repeat split; try done. by eapply drain_over_cap.
Qed.

(** ** Witnesses *)

Lemma decoding_ignores_chunking_witness :
  feed (open_decoder 8 []) [[0; 0]; [0; 1; 7]] = decode_stream 8 [0; 0; 0; 1; 7].
Proof. apply (decoding_ignores_chunking (JInt 8) (open_decoder 8 [])). reflexivity. Defined.

Lemma frames_roundtrip_witness :
  feed (open_decoder 8 []) [[0; 0]; [0; 1; 7; 0; 0; 0]; [0]] = (open_decoder 8 [], [[7]; []], false).
Proof.
  apply (frames_roundtrip (JInt 8) (open_decoder 8 []) [[7]; []] [[0; 0; 0; 1; 7]; [0; 0; 0; 0]]);
    [reflexivity|repeat constructor|reflexivity].
Defined.

End FramingFacts.
