(* ===== verification/Transaction.v ===== *)
(** The add-in's transaction group:
    packages/addin-loopback-fixture/src/transactionGroup.ts.

    Writes of an atomic batch are staged and reach the shared model only when
    the group is assimilated.  The model is the one [Map] object the fixture
    shares with every group, so operations are functions on the model and the
    group together; a method that throws still returns both, since [rollback]
    changes its state before it throws. *)

From stdpp Require Import gmap.
From S2P Require Import Prelude JsString JsValue.

Module Transaction.

Inductive TransactionGroupState := not_started | started | assimilated | rolled_back | rollback_failed.

#[export] Instance TransactionGroupState_eq_dec : EqDecision TransactionGroupState.
Proof. solve_decision. Defined.

Record StagedMutation := { sm_key : jstr; sm_value : jsval }.

Record TestTransactionGroup := {
  tg_staged : list StagedMutation;
  tg_failRollback : bool;
  tg_state : TransactionGroupState }.

(** The shared [Map<string, JsonValue>]. *)
Abbreviation model := (gmap jstr jsval).

(** The store a method sees and changes. *)
Record world := { w_model : model; w_group : TestTransactionGroup }.

Definition state_text (s : TransactionGroupState) : jstr :=
  match s with
  | not_started => js "not_started" | started => js "started" | assimilated => js "assimilated"
  | rolled_back => js "rolled_back" | rollback_failed => js "rollback_failed"
  end.

Definition newTransactionGroup (m : model) (failRollback : bool) : world :=
  {| w_model := m;
     w_group := {| tg_staged := []; tg_failRollback := failRollback; tg_state := not_started |} |}.

Definition set_group (w : world) (staged : list StagedMutation) (s : TransactionGroupState) : world :=
  {| w_model := w_model w;
     w_group := {| tg_staged := staged; tg_failRollback := tg_failRollback (w_group w); tg_state := s |} |}.

Definition fails {A} (w : world) (message : jstr) : world * result js_error A :=
  (w, Throw (JsError PlainError message)).

Definition start (w : world) : world * result js_error unit :=
  if tg_state (w_group w) !== not_started
  then fails w (js "TransactionGroup cannot start from " ++ state_text (tg_state (w_group w)))
  else (set_group w (tg_staged (w_group w)) started, Ok tt).

Definition stage (w : world) (key : jstr) (value : jsval) : world * result js_error unit :=
  if tg_state (w_group w) !== started then fails w (js "Mutation requires a started TransactionGroup") else
  if key === [] then fails w (js "Mutation key must not be empty") else
  (set_group w (tg_staged (w_group w) ++ [{| sm_key := key; sm_value := value |}]) (tg_state (w_group w)), Ok tt).

(** Search the staged mutations from the last to the first, then the model. *)
Definition read (w : world) (key : jstr) : option jsval :=
  match find_first (λ m, sm_key m === key) (reverse (tg_staged (w_group w))) with
  | Some m => Some (sm_value m)
  | None => w_model w !! key
  end.

Definition assimilate (w : world) : world * result js_error unit :=
  if tg_state (w_group w) !== started
  then fails w (js "TransactionGroup cannot assimilate from " ++ state_text (tg_state (w_group w)))
  else ({| w_model := foldl (λ m mutation, <[sm_key mutation := sm_value mutation]> m) (w_model w)
                        (tg_staged (w_group w));
           w_group := {| tg_staged := []; tg_failRollback := tg_failRollback (w_group w);
                         tg_state := assimilated |} |}, Ok tt).

Definition rollback (w : world) : world * result js_error unit :=
  if tg_state (w_group w) !== started
  then fails w (js "TransactionGroup cannot roll back from " ++ state_text (tg_state (w_group w)))
  else
  if tg_failRollback (w_group w)
  then fails (set_group w (tg_staged (w_group w)) rollback_failed) (js "Injected TransactionGroup rollback failure")
  else (set_group w [] rolled_back, Ok tt).

End Transaction.

Module TransactionFacts.
Import Transaction.

(** One call on the group; what it returns is not looked at. *)
Inductive call := call_start | call_stage (key : jstr) (value : jsval) | call_assimilate | call_rollback.

Definition run_call (w : world) (c : call) : world :=
  match c with
  | call_start => (start w).1
  | call_stage key value => (stage w key value).1
  | call_assimilate => (assimilate w).1
  | call_rollback => (rollback w).1
  end.

Definition run_calls (w : world) (cs : list call) : world := foldl run_call w cs.

(** The model as it would be with the staged mutations applied. *)
Definition applied (w : world) : model :=
  foldl (λ m mutation, <[sm_key mutation := sm_value mutation]> m) (w_model w) (tg_staged (w_group w)).

Lemma read_applied w key : read w key = applied w !! key.
Proof.
  unfold read, applied. generalize (tg_staged (w_group w)) as ms. intros ms.
  induction ms as [|m ms IH] using rev_ind; [done|].
  rewrite reverse_snoc, foldl_snoc. cbn. case_bool_decide as E.
  - subst key. by rewrite lookup_insert_eq.
  - by rewrite lookup_insert_ne.
Qed.

(** What is true of every group: nothing staged before the start or after the end
    (a failed rollback keeps its mutations but can not apply them), and the model
    is the initial one unless the group was assimilated. *)
Definition group_inv (m0 : model) (w : world) : Prop :=
  match tg_state (w_group w) with
  | not_started | rolled_back => tg_staged (w_group w) = [] ∧ w_model w = m0
  | started | rollback_failed => w_model w = m0
  | assimilated => tg_staged (w_group w) = []
  end.

Lemma call_inv m0 w c : group_inv m0 w → group_inv m0 (run_call w c).
Proof.
  unfold group_inv. intros Hw. destruct c as [|key value| |]; cbn.
  - unfold start. case_bool_decide as E; cbn; [|done]. rewrite E in Hw. by destruct Hw.
  - unfold stage. case_bool_decide as E; cbn; [|done]. case_bool_decide; cbn; [done|]. by rewrite E in Hw |- *.
  - unfold assimilate. case_bool_decide as E; cbn; done.
  - unfold rollback. case_bool_decide as E; cbn; [|done]. rewrite E in Hw. by destruct (tg_failRollback _).
Qed.

Definition ended (s : TransactionGroupState) : Prop := s = assimilated ∨ s = rolled_back ∨ s = rollback_failed.

Lemma ended_frozen w c : ended (tg_state (w_group w)) → run_call w c = w.
Proof.
  intros He. destruct c as [|key value| |]; cbn.
  - unfold start. rewrite bool_decide_false; [done|]. destruct He as [-> | [-> | ->]]; done.
  - unfold stage. rewrite bool_decide_false; [done|]. destruct He as [-> | [-> | ->]]; done.
  - unfold assimilate. rewrite bool_decide_false; [done|]. destruct He as [-> | [-> | ->]]; done.
  - unfold rollback. rewrite bool_decide_false; [done|]. destruct He as [-> | [-> | ->]]; done.
Qed.

Lemma run_inv m0 w cs : group_inv m0 w → group_inv m0 (run_calls w cs).
Proof.
  revert w. induction cs as [|c cs IH]; intros w Hw; [done|]. cbn. by apply IH, call_inv.
Qed.

(** All or nothing. Whatever is called on a new group, in any order, the
    shared model is the initial one in every state but [assimilated]; and the
    call that assimilates makes the model exactly what reading through the group
    showed just before. *)
Theorem transaction_all_or_nothing m0 f cs :
  let w := run_calls (newTransactionGroup m0 f) cs in
  (tg_state (w_group w) ≠ assimilated → w_model w = m0) ∧
  (tg_state (w_group w) = started →
     ∀ key, w_model (run_call w call_assimilate) !! key = read w key).
Proof.
  intros w. assert (group_inv m0 w) as Hw by by apply run_inv. split.
  - intros Hne. unfold group_inv in Hw. destruct (tg_state (w_group w)); naive_solver.
  - intros Hs key. rewrite read_applied. cbn. unfold assimilate. rewrite Hs, bool_decide_true by done. done.
Qed.

(** A group ends once. After assimilation, rollback or a failed rollback no
    call changes the group or the model, and after a rollback, failed or not, the
    model never changes through this group. *)
Theorem transaction_ends_once m0 f cs cs' :
  let w := run_calls (newTransactionGroup m0 f) cs in
  ended (tg_state (w_group w)) → run_calls w cs' = w ∧
  (tg_state (w_group w) ≠ assimilated → w_model (run_calls w cs') = m0).
Proof.
  intros w He. assert (run_calls w cs' = w) as E.
  { clearbody w. induction cs' as [|c cs' IH]; [done|]. cbn. by rewrite ended_frozen. }
  split; [done|]. rewrite E. intros Hne. assert (group_inv m0 w) as Hw by by apply run_inv.
  unfold group_inv in Hw. destruct (tg_state (w_group w)); naive_solver.
Qed.

Lemma transaction_all_or_nothing_witness :
  let w := run_calls (newTransactionGroup ∅ false) [call_start; call_stage (js "k") VNull] in
  w_model w = ∅ ∧ w_model (run_call w call_assimilate) !! js "k" = Some VNull.
Proof.
  intros w. destruct (transaction_all_or_nothing ∅ false [call_start; call_stage (js "k") VNull]) as [H1 H2].
  split; [apply H1; discriminate|]. unfold w. rewrite H2; reflexivity.
Defined.

Lemma transaction_ends_once_witness :
  let w := run_calls (newTransactionGroup ∅ true) [call_start; call_stage (js "k") VNull; call_rollback] in
  run_calls w [call_assimilate] = w ∧ w_model (run_calls w [call_assimilate]) = ∅.
Proof.
  intros w. destruct (transaction_ends_once ∅ true [call_start; call_stage (js "k") VNull; call_rollback]
    [call_assimilate]) as [H1 H2]; [right; right; reflexivity|].
  split; [exact H1|]. apply H2. discriminate.
Defined.

End TransactionFacts.
