(* ===== verification/ProtocolStore.v ===== *)
(** The gateway's protocol store: packages/gateway/src/store.ts (the contract) and
    the store of packages/gateway/src/preProductionRuntimeAdapters.ts.

    A transaction runs its callback over several turns of the event loop: it is
    begun, its callback reads and stages writes while others do the same, and it is
    finished in one turn.  [begin_transact], [tx_read], [tx_list], [tx_stage] and
    [finish_transact] are these parts of [transact]; [store_step] lets them
    interleave freely. *)

From stdpp Require Import relations.
From S2P Require Import Prelude JsString JsValue JsMap Canonical JsonText.

Module ProtocolStore.
Import Canonical JsonText JsonTextFacts JsMap.

(** ** The contract *)

Inductive StoreErrorCode :=
| conflict | tenant_isolation_violation | durability_uncertain | invalid_record | not_implemented | unavailable.

Inductive StoreExpectation :=
| expect_absent
| expect_version (version : jsnum)
| expect_any.

Inductive StoreOutcome (T : Type) :=
| store_ok (value : T)
| store_refused (code : StoreErrorCode) (message : jstr).
Arguments store_ok {T} value.
Arguments store_refused {T} code message.

Record StoredRecord := {
  sr_namespace : jstr; sr_tenantId : jstr; sr_key : jstr;
  sr_value : jsval; sr_version : Z; sr_updatedAtMs : Z }.

(** A staged write; [None] deletes. *)
Record StoreWrite := {
  sw_namespace : jstr; sw_key : jstr; sw_value : option jsval; sw_expect : StoreExpectation }.

(** [createUnavailableProtocolStore]: every operation gives this refusal. *)
Definition refusal {T} : StoreOutcome T :=
  store_refused not_implemented
    (js "protocol_store port is not implemented in Phase 1: no durable store is configured").

(** What a client of [transact] may rely on: the records a transaction reads, and
    what a transaction that succeeded with these staged writes did. *)
Class TransactionalStore := {
  ts_state : Type;
  ts_inv : ts_state → Prop;
  ts_find : ts_state → jstr → jstr → jstr → option StoredRecord;
  ts_commit : ts_state → jstr → list StoreWrite → ts_state → Prop }.

Definition meets (expect : StoreExpectation) (found : option StoredRecord) : Prop :=
  match expect with
  | expect_absent => found = None
  | expect_version v => ∃ r, found = Some r ∧ v = JInt (sr_version r)
  | expect_any => True
  end.

Class TransactionalStoreOk (S : TransactionalStore) : Prop := {
  ts_commit_inv s t ws s' : ts_inv s → ts_commit s t ws s' → ts_inv s';
  ts_find_names s t n k r : ts_inv s → ts_find s t n k = Some r → sr_tenantId r = t ∧ sr_namespace r = n ∧ sr_key r = k;
  ts_commit_expect s t ws s' w : ts_inv s → ts_commit s t ws s' → w ∈ ws →
    meets (sw_expect w) (ts_find s t (sw_namespace w) (sw_key w));
  ts_commit_write s t ws s' w : ts_inv s → ts_commit s t ws s' → w ∈ ws →
    match sw_value w with
    | None => ts_find s' t (sw_namespace w) (sw_key w) = None
    | Some v => ∃ r, ts_find s' t (sw_namespace w) (sw_key w) = Some r ∧
        sr_version r = nullish (sr_version <$> ts_find s t (sw_namespace w) (sw_key w)) 0 + 1 ∧
        (json_tree v = true → sr_value r = v)
    end;
  ts_commit_frame s t ws s' t' n k : ts_inv s → ts_commit s t ws s' →
    t' ≠ t ∨ (∀ w, w ∈ ws → (n, k) ≠ (sw_namespace w, sw_key w)) → ts_find s' t' n k = ts_find s t' n k }.

(** ** The store *)

Definition MAX_JSON_DEPTH : Z := 64.
Definition MAX_JSON_NODES : Z := 100000.
Definition STORE_UNAVAILABLE_MESSAGE : jstr := js "pre-production protocol store is unavailable".
Definition STORE_INVALID_MESSAGE : jstr := js "pre-production protocol store rejected an invalid transaction".
Definition STORE_CONFLICT_MESSAGE : jstr := js "pre-production protocol store transaction conflicted".
Definition STORE_TENANT_MESSAGE : jstr := js "pre-production protocol store rejected the tenant scope".

(** The options, as numbers a caller may give, and the limits checked from them. *)
Record PreProductionProtocolStoreOptions := {
  o_maxIdentifierBytes : option jsnum;
  o_maxRecords : option jsnum;
  o_maxRecordValueBytes : option jsnum;
  o_maxTotalRecordValueBytes : option jsnum;
  o_maxTransactionWrites : option jsnum;
  o_maxConcurrentTransactions : option jsnum }.

Record Limits := {
  maxIdentifierBytes : Z;
  maxRecords : Z;
  maxRecordValueBytes : Z;
  maxTotalRecordValueBytes : Z;
  maxTransactionWrites : Z;
  maxConcurrentTransactions : Z }.

Definition PRE_PRODUCTION_RUNTIME_DEFAULT_LIMITS : Limits := {|
  maxIdentifierBytes := 512;
  maxRecords := 1024;
  maxRecordValueBytes := 2 * 1024 * 1024;
  maxTotalRecordValueBytes := 64 * 1024 * 1024;
  maxTransactionWrites := 128;
  maxConcurrentTransactions := 32 |}.

Record InternalStoredRecord := {
  ir_namespace : jstr; ir_tenantId : jstr; ir_key : jstr;
  ir_serializedValue : jstr; ir_valueBytes : Z; ir_version : Z; ir_updatedAtMs : Z }.

Record StagedWrite := {
  st_namespace : jstr; st_key : jstr; st_serializedValue : option jstr; st_valueBytes : Z;
  st_expect : StoreExpectation }.

Record JsonSnapshot := { js_value : jsval; js_serialized : jstr; js_bytes : Z }.

Definition positiveSafeInteger (name : string) (value : jsnum) : result js_error Z :=
  throw_if (negb (isSafeInteger value) || (num_Z value <? 1))
    (JsError RangeError (js name ++ js " must be a positive safe integer")) ;;
  Ok (num_Z value).

(** [Buffer.byteLength(value, 'utf8')] *)
Definition byteLength (value : jstr) : Z := Z.of_nat (length (utf8_encode value)).

Definition boundedIdentifier (value : jstr) (maxBytes : Z) : bool :=
  negb (length value =? 0)%nat && negb (bool_decide (0 ∈ value)) && (byteLength value <=? maxBytes).

(** [isJsonValue] with the node count threaded through; the values are trees, so the
    set of the objects on the path is never met again. *)
Fixpoint isJsonValue (value : jsval) (nodes depth : Z) : bool * Z :=
  let every := fix every (items : list jsval) (nodes : Z) : bool * Z :=
    match items with
    | [] => (true, nodes)
    | item :: items =>
        match isJsonValue item nodes (depth + 1) with
        | (true, nodes) => every items nodes
        | (false, nodes) => (false, nodes)
        end
    end in
  let everyValue := fix everyValue (members : list (jstr * jsval)) (nodes : Z) : bool * Z :=
    match members with
    | [] => (true, nodes)
    | (_, item) :: members =>
        match isJsonValue item nodes (depth + 1) with
        | (true, nodes) => everyValue members nodes
        | (false, nodes) => (false, nodes)
        end
    end in
  let nodes := nodes + 1 in
  if (MAX_JSON_NODES <? nodes) || (MAX_JSON_DEPTH <? depth) then (false, nodes) else
  match value with
  | VNull | VStr _ | VBool _ => (true, nodes)
  | VNum n => (isFinite n, nodes)
  | VArr items => every items nodes
  | VObj shape members => if plain_prototype shape then everyValue members nodes else (false, nodes)
  | VUndefined | VOther _ => (false, nodes)
  end.

Section store.
Context `{Float64}.

Definition jsonSnapshot (value : jsval) (maxBytes : Z) : option JsonSnapshot :=
  if negb (isJsonValue value 0 0).1 then None else
  let serialized := json_stringify value in
  if maxBytes <? byteLength serialized then None else
  parsed ← json_parse serialized;
  Some {| js_value := parsed; js_serialized := serialized; js_bytes := byteLength serialized |}.

(** The closure's variables. *)
Abbreviation records_map := (list (jstr * InternalStoredRecord)).
Abbreviation tenants_map := (list (jstr * list (jstr * list (jstr * InternalStoredRecord)))).

Record Store := {
  s_limits : Limits;
  s_tenants : tenants_map;
  s_opened : bool;
  s_activeTransactions : Z;
  s_nextVersion : Z;
  s_recordCount : Z;
  s_totalValueBytes : Z }.

Definition createPreProductionProtocolStore (options : PreProductionProtocolStoreOptions) : result js_error Store :=
  let d := PRE_PRODUCTION_RUNTIME_DEFAULT_LIMITS in
  identifier ← positiveSafeInteger "maxIdentifierBytes" (nullish (o_maxIdentifierBytes options) (JInt (maxIdentifierBytes d)));
  records ← positiveSafeInteger "maxRecords" (nullish (o_maxRecords options) (JInt (maxRecords d)));
  recordBytes ← positiveSafeInteger "maxRecordValueBytes"
    (nullish (o_maxRecordValueBytes options) (JInt (maxRecordValueBytes d)));
  totalBytes ← positiveSafeInteger "maxTotalRecordValueBytes"
    (nullish (o_maxTotalRecordValueBytes options) (JInt (maxTotalRecordValueBytes d)));
  writes ← positiveSafeInteger "maxTransactionWrites"
    (nullish (o_maxTransactionWrites options) (JInt (maxTransactionWrites d)));
  transactions ← positiveSafeInteger "maxConcurrentTransactions"
    (nullish (o_maxConcurrentTransactions options) (JInt (maxConcurrentTransactions d)));
  reject_if (totalBytes <? recordBytes) RangeError
    "maxRecordValueBytes must not exceed maxTotalRecordValueBytes" ;;
  Ok {| s_limits := {| maxIdentifierBytes := identifier; maxRecords := records; maxRecordValueBytes := recordBytes;
                       maxTotalRecordValueBytes := totalBytes; maxTransactionWrites := writes;
                       maxConcurrentTransactions := transactions |};
        s_tenants := []; s_opened := false; s_activeTransactions := 0; s_nextVersion := 0;
        s_recordCount := 0; s_totalValueBytes := 0 |}.

(** *** The maps *)

Definition recordFor (tenants : tenants_map) (tenantId namespace key : jstr) : option InternalStoredRecord :=
  namespaces ← mget tenants tenantId; records ← mget namespaces namespace; mget records key.

Definition put (tenants : tenants_map) (r : InternalStoredRecord) : tenants_map :=
  let namespaces := nullish (mget tenants (ir_tenantId r)) [] in
  let records := nullish (mget namespaces (ir_namespace r)) [] in
  mset tenants (ir_tenantId r) (mset namespaces (ir_namespace r) (mset records (ir_key r) r)).

(** Maps that become empty are removed. *)
Definition remove (tenants : tenants_map) (tenantId namespace key : jstr) : tenants_map :=
  match mget tenants tenantId with
  | None => tenants
  | Some namespaces =>
      let namespaces' :=
        match mget namespaces namespace with
        | None => namespaces
        | Some records =>
            match mdel records key with
            | [] => mdel namespaces namespace
            | records' => mset namespaces namespace records'
            end
        end in
      match namespaces' with
      | [] => mdel tenants tenantId
      | _ => mset tenants tenantId namespaces'
      end
  end.

(** [String.prototype.localeCompare] is the platform's collation. *)
Context (localeCompare : jstr → jstr → Z).

Definition listFor (tenants : tenants_map) (tenantId namespace : jstr) : list InternalStoredRecord :=
  sort_by (λ left right, localeCompare (ir_key left) (ir_key right) <=? 0)
    (map snd (nullish (mget (nullish (mget tenants tenantId) []) namespace) [])).

(** [JSON.parse] of what [JSON.stringify] printed does not fail. *)
Definition publicRecord (r : InternalStoredRecord) : StoredRecord := {|
  sr_namespace := ir_namespace r; sr_tenantId := ir_tenantId r; sr_key := ir_key r;
  sr_value := nullish (json_parse (ir_serializedValue r)) VUndefined;
  sr_version := ir_version r; sr_updatedAtMs := ir_updatedAtMs r |}.

(** *** Inventory *)

Definition valid_inventory_limit (limit : jsnum) : bool :=
  isSafeInteger limit && (1 <=? num_Z limit) && (num_Z limit <=? 10000).

Definition listTenantIds (st : Store) (limit : jsnum) : StoreOutcome (list jstr) :=
  if negb (s_opened st) || negb (valid_inventory_limit limit)
  then store_refused unavailable STORE_UNAVAILABLE_MESSAGE else
  let ids := sort_by str_leb (keys (s_tenants st)) in
  if num_Z limit <? Z.of_nat (length ids) then store_refused invalid_record STORE_INVALID_MESSAGE
  else store_ok ids.

Definition listKeys (st : Store) (tenantId namespace : jstr) (limit : jsnum) : StoreOutcome (list jstr) :=
  let bounded s := boundedIdentifier s (maxIdentifierBytes (s_limits st)) in
  if negb (s_opened st) || negb (valid_inventory_limit limit) || negb (bounded tenantId) || negb (bounded namespace)
  then store_refused unavailable STORE_UNAVAILABLE_MESSAGE else
  let ids := map ir_key (listFor (s_tenants st) tenantId namespace) in
  if num_Z limit <? Z.of_nat (length ids) then store_refused invalid_record STORE_INVALID_MESSAGE
  else store_ok ids.

(** *** Transactions *)

Definition set_opened (st : Store) (opened : bool) : Store := {|
  s_limits := s_limits st; s_tenants := s_tenants st; s_opened := opened;
  s_activeTransactions := s_activeTransactions st; s_nextVersion := s_nextVersion st;
  s_recordCount := s_recordCount st; s_totalValueBytes := s_totalValueBytes st |}.

Definition set_active (st : Store) (active : Z) : Store := {|
  s_limits := s_limits st; s_tenants := s_tenants st; s_opened := s_opened st;
  s_activeTransactions := active; s_nextVersion := s_nextVersion st;
  s_recordCount := s_recordCount st; s_totalValueBytes := s_totalValueBytes st |}.

Definition open_store (st : Store) : Store * StoreOutcome unit := (set_opened st true, store_ok tt).
Definition close_store (st : Store) : Store * StoreOutcome unit := (set_opened st false, store_ok tt).

(** The variables of one call of [transact]. *)
Record Tx := {
  tx_tenantId : jstr;
  tx_staged : list StagedWrite;
  tx_stagedTargets : list jstr;
  tx_invalid : bool }.

Definition mark_invalid (tx : Tx) : Tx := {|
  tx_tenantId := tx_tenantId tx; tx_staged := tx_staged tx; tx_stagedTargets := tx_stagedTargets tx;
  tx_invalid := true |}.

Definition begin_transact (st : Store) (tenantId : jstr) : Store * StoreOutcome Tx :=
  if negb (s_opened st) || (maxConcurrentTransactions (s_limits st) <=? s_activeTransactions st)
  then (st, store_refused unavailable STORE_UNAVAILABLE_MESSAGE) else
  if negb (boundedIdentifier tenantId (maxIdentifierBytes (s_limits st)))
  then (st, store_refused tenant_isolation_violation STORE_TENANT_MESSAGE) else
  (set_active st (s_activeTransactions st + 1),
   store_ok {| tx_tenantId := tenantId; tx_staged := []; tx_stagedTargets := []; tx_invalid := false |}).

Definition tx_read (st : Store) (tx : Tx) (namespace key : jstr) : Tx * option StoredRecord :=
  let bounded s := boundedIdentifier s (maxIdentifierBytes (s_limits st)) in
  if negb (bounded namespace) || negb (bounded key) then (mark_invalid tx, None) else
  (tx, publicRecord <$> recordFor (s_tenants st) (tx_tenantId tx) namespace key).

Definition tx_list (st : Store) (tx : Tx) (namespace : jstr) : Tx * list StoredRecord :=
  if negb (boundedIdentifier namespace (maxIdentifierBytes (s_limits st))) then (mark_invalid tx, []) else
  (tx, map publicRecord (listFor (s_tenants st) (tx_tenantId tx) namespace)).

Definition target (namespace key : jstr) : jstr :=
  dec (Z.of_nat (length namespace)) ++ js ":" ++ namespace ++ key.

Definition bad_expectation (expect : StoreExpectation) : bool :=
  match expect with
  | expect_version v => negb (isSafeInteger v) || (num_Z v <? 1)
  | _ => false
  end.

(** [value] is [null] in the code where it is [None] here: a deletion.  [Some VNull] is
    not a write the code can make. *)
Definition tx_stage (limits : Limits) (tx : Tx) (write : StoreWrite) : Tx :=
  let bounded s := boundedIdentifier s (maxIdentifierBytes limits) in
  if maxTransactionWrites limits <=? Z.of_nat (length (tx_staged tx)) then mark_invalid tx else
  if negb (bounded (sw_namespace write)) || negb (bounded (sw_key write)) || bad_expectation (sw_expect write)
  then mark_invalid tx else
  let t := target (sw_namespace write) (sw_key write) in
  if bool_decide (t ∈ tx_stagedTargets tx) then mark_invalid tx else
  let snapshot := value ← sw_value write; jsonSnapshot value (maxRecordValueBytes limits) in
  if negb (is_null (sw_value write)) && is_null snapshot then mark_invalid tx else
  {| tx_tenantId := tx_tenantId tx;
     tx_staged := tx_staged tx ++
       [{| st_namespace := sw_namespace write; st_key := sw_key write;
           st_serializedValue := js_serialized <$> snapshot;
           st_valueBytes := nullish (js_bytes <$> snapshot) 0;
           st_expect := sw_expect write |}];
     tx_stagedTargets := tx_stagedTargets tx ++ [t];
     tx_invalid := tx_invalid tx |}.

Definition expectation_fails (expect : StoreExpectation) (existing : option InternalStoredRecord) : bool :=
  match expect with
  | expect_absent => negb (is_null existing)
  | expect_version v => match existing with None => true | Some r => negb (JInt (ir_version r) === v) end
  | expect_any => false
  end.

(** The loop that projects the counters; [None] is the refusal at the last version. *)
Fixpoint project (tenants : tenants_map) (tenantId : jstr) (staged : list StagedWrite) (count bytes : Z)
  : option (Z * Z) :=
  match staged with
  | [] => Some (count, bytes)
  | write :: staged =>
      let existing := recordFor tenants tenantId (st_namespace write) (st_key write) in
      match st_serializedValue write with
      | None =>
          match existing with
          | Some r => project tenants tenantId staged (count - 1) (bytes - ir_valueBytes r)
          | None => project tenants tenantId staged count bytes
          end
      | Some _ =>
          match existing with
          | Some r =>
              if ir_version r =? MAX_SAFE_INTEGER then None
              else project tenants tenantId staged count (bytes - ir_valueBytes r + st_valueBytes write)
          | None => project tenants tenantId staged (count + 1) (bytes + st_valueBytes write)
          end
      end
  end.

(** The loop that applies the writes. *)
Fixpoint apply_staged (tenants : tenants_map) (nextVersion : Z) (tenantId : jstr) (updatedAtMs : Z)
    (staged : list StagedWrite) : tenants_map * Z :=
  match staged with
  | [] => (tenants, nextVersion)
  | write :: staged =>
      match st_serializedValue write with
      | None => apply_staged (remove tenants tenantId (st_namespace write) (st_key write)) nextVersion tenantId updatedAtMs staged
      | Some serializedValue =>
          let existing := recordFor tenants tenantId (st_namespace write) (st_key write) in
          let nextVersion := if nextVersion <? MAX_SAFE_INTEGER then nextVersion + 1 else nextVersion in
          apply_staged
            (put tenants {| ir_namespace := st_namespace write; ir_tenantId := tenantId; ir_key := st_key write;
                            ir_serializedValue := serializedValue; ir_valueBytes := st_valueBytes write;
                            ir_version := nullish (ir_version <$> existing) 0 + 1; ir_updatedAtMs := updatedAtMs |})
            nextVersion tenantId updatedAtMs staged
      end
  end.

(** What [transact] does after its callback, before the [finally]; [returned] is
    [None] when the callback threw. *)
Definition commit {T} (st : Store) (tx : Tx) (returned : option T) (clock : jsnum) : Store * StoreOutcome T :=
  match returned with
  | None => (st, store_refused invalid_record STORE_INVALID_MESSAGE)
  | Some value =>
      if negb (s_opened st) then (st, store_refused unavailable STORE_UNAVAILABLE_MESSAGE) else
      if tx_invalid tx then (st, store_refused invalid_record STORE_INVALID_MESSAGE) else
      if existsb (λ write, expectation_fails (st_expect write)
                    (recordFor (s_tenants st) (tx_tenantId tx) (st_namespace write) (st_key write))) (tx_staged tx)
      then (st, store_refused conflict STORE_CONFLICT_MESSAGE) else
      match project (s_tenants st) (tx_tenantId tx) (tx_staged tx) (s_recordCount st) (s_totalValueBytes st) with
      | None => (st, store_refused invalid_record STORE_INVALID_MESSAGE)
      | Some (count, bytes) =>
          if (maxRecords (s_limits st) <? count) || (maxTotalRecordValueBytes (s_limits st) <? bytes)
          then (st, store_refused invalid_record STORE_INVALID_MESSAGE) else
          if negb (isSafeInteger clock) || (num_Z clock <? 0)
          then (st, store_refused invalid_record STORE_INVALID_MESSAGE) else
          let '(tenants, nextVersion) :=
            apply_staged (s_tenants st) (s_nextVersion st) (tx_tenantId tx) (num_Z clock) (tx_staged tx) in
          ({| s_limits := s_limits st; s_tenants := tenants; s_opened := s_opened st;
              s_activeTransactions := s_activeTransactions st; s_nextVersion := nextVersion;
              s_recordCount := count; s_totalValueBytes := bytes |}, store_ok value)
      end
  end.

(** [finally { activeTransactions -= 1; }] *)
Definition finish_transact {T} (st : Store) (tx : Tx) (returned : option T) (clock : jsnum) : Store * StoreOutcome T :=
  let '(st, outcome) := commit st tx returned clock in
  (set_active st (s_activeTransactions st - 1), outcome).

End store.

(** *** Startup *)

(** [runExclusive] chains its callers on promises, numbered in the order they are
    made; 0 is the one the store starts with.  A caller waits for the promise before
    its own and resolves its own in the [finally].  A lease is its holder's promise and
    its epoch, and is current while it is in [su_leases]. *)
Record Startup := {
  su_tail : Z; su_resolved : list Z; su_epoch : Z; su_waiting : list (Z * Z); su_leases : list (Z * Z) }.

Definition new_startup : Startup :=
  {| su_tail := 0; su_resolved := [0]; su_epoch := 0; su_waiting := []; su_leases := [] |}.

(** Up to [await prior]. *)
Definition run_enter (st : Startup) : Startup := {|
  su_tail := su_tail st + 1; su_resolved := su_resolved st; su_epoch := su_epoch st;
  su_waiting := su_waiting st ++ [(su_tail st + 1, su_tail st)]; su_leases := su_leases st |}.

(** From there to the call of [work]. *)
Definition run_resume (st : Startup) (caller : Z * Z) : option Startup :=
  if bool_decide (caller ∈ su_waiting st) && bool_decide (caller.2 ∈ su_resolved st) then Some {|
    su_tail := su_tail st; su_resolved := su_resolved st; su_epoch := su_epoch st + 1;
    su_waiting := List.filter (λ c, c !== caller) (su_waiting st);
    su_leases := (caller.1, su_epoch st + 1) :: su_leases st |}
  else None.

(** The [finally]. *)
Definition run_leave (st : Startup) (lease : Z * Z) : option Startup :=
  if bool_decide (lease ∈ su_leases st) then Some {|
    su_tail := su_tail st; su_resolved := lease.1 :: su_resolved st; su_epoch := su_epoch st;
    su_waiting := su_waiting st; su_leases := List.filter (λ l, l !== lease) (su_leases st) |}
  else None.

Definition isCurrent (st : Startup) (lease : Z * Z) : bool := bool_decide (lease ∈ su_leases st).

End ProtocolStore.

(** * Facts *)

Module ProtocolStoreFacts.
Import Canonical JsonText JsonTextFacts JsMap ProtocolStore.

(** ** One level of maps *)

Section flat.
Context {K A B : Type} `{EqDecision K} (f : A → list B).

Definition flat (m : list (K * A)) : list B := m ≫= λ p, f p.2.

Lemma flat_app m1 m2 : flat (m1 ++ m2) = flat m1 ++ flat m2.
Proof. apply bind_app. Qed.

Lemma flat_cons k v m : flat ((k, v) :: m) = f v ++ flat m.
Proof. done. Qed.

Lemma flat_new m k v : mget m k = None → flat (mset m k v) ≡ₚ f v ++ flat m.
Proof.
  intros E. rewrite mset_new by done. rewrite flat_app, flat_cons. change (flat []) with (@nil B).
  rewrite app_nil_r. apply Permutation_app_comm.
Qed.

Lemma flat_old m k v : mget m k = Some v →
  ∃ rest, flat m ≡ₚ f v ++ rest ∧ flat (mdel m k) ≡ₚ rest ∧ ∀ v', flat (mset m k v') ≡ₚ f v' ++ rest.
Proof.
  intros (l1 & l2 & -> & Hk)%mget_split. exists (flat l1 ++ flat l2). split; [|split].
  - rewrite flat_app, flat_cons. apply Permutation_app_swap_app.
  - by rewrite mdel_around, flat_app.
  - intros v'. rewrite mset_around, flat_app, flat_cons by done. apply Permutation_app_swap_app.
Qed.

(** A map around the value a key has, or would have. *)
Lemma flat_at m k d : f d = [] →
  ∃ rest, flat m ≡ₚ f (nullish (mget m k) d) ++ rest ∧ ∀ v, flat (mset m k v) ≡ₚ f v ++ rest.
Proof.
  intros Hd. destruct (mget m k) as [v|] eqn:E; cbn.
  - destruct (flat_old _ _ _ E) as (rest & E1 & _ & E2). eauto.
  - exists (flat m). rewrite Hd. split; [done|]. intros v. by apply flat_new.
Qed.
End flat.

(** The value of a key is replaced, or the key dropped when nothing is left. *)
Definition set_or_drop {K A} `{EqDecision K} (m : list (K * list A)) (k : K) (v : list A) : list (K * list A) :=
  match v with [] => mdel m k | _ => mset m k v end.

Section set_or_drop.
Context {K A B : Type} `{EqDecision K} (f : list A → list B) (f_nil : f [] = []).
Implicit Types m : list (K * list A).

Lemma flat_set_or_drop m k v : mget m k = Some v →
  ∃ rest, flat f m ≡ₚ f v ++ rest ∧ ∀ v', flat f (set_or_drop m k v') ≡ₚ f v' ++ rest.
Proof.
  intros E. destruct (flat_old f _ _ _ E) as (rest & E1 & E2 & E3). exists rest. split; [done|].
  intros [|x v']; cbn [set_or_drop]; [by rewrite f_nil|done].
Qed.

Lemma mget_set_or_drop m k v k' : NoDup (keys m) →
  nullish (mget (set_or_drop m k v) k') [] = if k === k' then v else nullish (mget m k') [].
Proof.
  intros Hnd. destruct v as [|x v]; cbn [set_or_drop]; [rewrite mget_mdel by done|rewrite mget_mset]; by case_bool_decide.
Qed.

Lemma nodup_set_or_drop m k v : NoDup (keys m) → NoDup (keys (set_or_drop m k v)).
Proof. destruct v; [apply nodup_mdel|apply nodup_mset]. Qed.

Lemma set_or_drop_elem m k v p : p ∈ set_or_drop m k v → (p = (k, v) ∧ v ≠ []) ∨ p ∈ m.
Proof. destruct v as [|x v]; cbn; [intros ?%mdel_elem; by right|]. intros [->|?]%mset_elem; [by left|by right]. Qed.
End set_or_drop.

Lemma mset_same {K A} `{EqDecision K} (m : list (K * A)) k v : mget m k = Some v → mset m k v = m.
Proof. intros (l1 & l2 & -> & Hk)%mget_split. by apply mset_around. Qed.

Lemma mset_nonempty {K A} `{EqDecision K} (m : list (K * A)) k v : mset m k v ≠ [].
Proof. destruct m as [|[k' v'] m]; cbn; [done|]. by case_bool_decide. Qed.

(** ** The three levels *)

Abbreviation records_map := (list (jstr * InternalStoredRecord)).
Abbreviation namespaces_map := (list (jstr * list (jstr * InternalStoredRecord))).
Abbreviation tenants_map := (list (jstr * list (jstr * list (jstr * InternalStoredRecord)))).

(** Every record of the store. *)
Definition in_records : records_map → list InternalStoredRecord := flat (λ r, [r]).
Definition in_namespaces : namespaces_map → list InternalStoredRecord := flat in_records.
Definition all_records : tenants_map → list InternalStoredRecord := flat in_namespaces.

(** Each map has distinct keys, inner maps are not empty, and a record is filed
    under its own names. *)
Definition records_wf (tenantId namespace : jstr) (m : records_map) : Prop :=
  m ≠ [] ∧ NoDup (keys m) ∧
  ∀ k r, (k, r) ∈ m → ir_key r = k ∧ ir_namespace r = namespace ∧ ir_tenantId r = tenantId.

Definition namespaces_wf (tenantId : jstr) (m : namespaces_map) : Prop :=
  m ≠ [] ∧ NoDup (keys m) ∧ ∀ n rs, (n, rs) ∈ m → records_wf tenantId n rs.

Definition tenants_wf (m : tenants_map) : Prop :=
  NoDup (keys m) ∧ ∀ t ns, (t, ns) ∈ m → namespaces_wf t ns.

Lemma recordFor_put ts r t n k :
  recordFor (put ts r) t n k =
    if (ir_tenantId r, ir_namespace r, ir_key r) === (t, n, k) then Some r else recordFor ts t n k.
Proof.
  unfold recordFor, put. rewrite mget_mset. destruct (decide (ir_tenantId r = t)) as [<-|Ht].
  2: { rewrite !bool_decide_eq_false_2 by congruence. done. }
  rewrite (bool_decide_eq_true_2 (ir_tenantId r = _)) by done. cbn [mbind option_bind]. rewrite mget_mset.
  destruct (decide (ir_namespace r = n)) as [<-|Hn].
  2: { rewrite !bool_decide_eq_false_2 by congruence. by destruct (mget ts (ir_tenantId r)). }
  rewrite (bool_decide_eq_true_2 (ir_namespace r = _)) by done. cbn [mbind option_bind]. rewrite mget_mset.
  destruct (decide (ir_key r = k)) as [<-|Hk]; [by rewrite !bool_decide_eq_true_2|].
  rewrite !bool_decide_eq_false_2 by congruence.
  destruct (mget ts (ir_tenantId r)) as [ns|]; cbn; [|done]. by destruct (mget ns (ir_namespace r)).
Qed.

Lemma put_wf ts r : tenants_wf ts → tenants_wf (put ts r).
Proof.
  intros [Hnd Hts]. unfold put. split; [by apply nodup_mset|]. intros t ns [[= -> ->]|Hin]%mset_elem; [|auto].
  set (ns0 := nullish (mget ts (ir_tenantId r)) []).
  assert (NoDup (keys ns0) ∧ ∀ n rs, (n, rs) ∈ ns0 → records_wf (ir_tenantId r) n rs) as [Hnd0 Hns0].
  { unfold ns0. destruct (mget ts (ir_tenantId r)) as [ns|] eqn:E; cbn.
    - apply mget_elem, Hts in E as (_ & ? & ?). done.
    - split; [constructor|]. by intros n rs ?%not_elem_of_nil. }
  split; [apply mset_nonempty|]. split; [by apply nodup_mset|].
  intros n rs [[= -> ->]|Hin]%mset_elem; [|auto].
  set (rs0 := nullish (mget ns0 (ir_namespace r)) []).
  assert (NoDup (keys rs0) ∧ ∀ k r', (k, r') ∈ rs0 →
            ir_key r' = k ∧ ir_namespace r' = ir_namespace r ∧ ir_tenantId r' = ir_tenantId r) as [Hnd1 Hrs].
  { unfold rs0. destruct (mget ns0 (ir_namespace r)) as [rs|] eqn:E; cbn.
    - apply mget_elem, Hns0 in E as (_ & ? & ?). done.
    - split; [constructor|]. by intros k r' ?%not_elem_of_nil. }
  split; [apply mset_nonempty|]. split; [by apply nodup_mset|]. intros k r' [[= -> ->]|Hin]%mset_elem; auto.
Qed.

(** The maps a record is or would be in. *)
Abbreviation at_tenant ts t := (nullish (mget ts t) []).
Abbreviation at_namespace ts t n := (nullish (mget (at_tenant ts t) n) []).

Lemma recordFor_at (ts : tenants_map) t n k : recordFor ts t n k = mget (at_namespace ts t n) k.
Proof. unfold recordFor. destruct (mget ts t) as [ns|]; cbn; [|done]. by destruct (mget ns n). Qed.

Lemma in_records_at (m : records_map) k :
  ∃ rest, in_records m ≡ₚ option_list (mget m k) ++ rest ∧ ∀ r, in_records (mset m k r) ≡ₚ r :: rest.
Proof.
  unfold in_records. destruct (mget m k) as [r|] eqn:E; cbn.
  - destruct (flat_old (λ r, [r]) _ _ _ E) as (rest & E1 & _ & E2). exists rest. split; [done|]. intros r'. by rewrite E2.
  - exists (flat (λ r, [r]) m). split; [done|]. intros r. by rewrite flat_new.
Qed.

(** What [put] does to the records: the one under the same names, if any, goes and
    the new one comes. *)
Lemma put_records ts r :
  ∃ rest, all_records ts ≡ₚ option_list (recordFor ts (ir_tenantId r) (ir_namespace r) (ir_key r)) ++ rest ∧
    all_records (put ts r) ≡ₚ r :: rest.
Proof.
  rewrite recordFor_at. unfold put, all_records.
  destruct (flat_at in_namespaces ts (ir_tenantId r) [] eq_refl) as (rest1 & E1 & S1).
  destruct (flat_at in_records (at_tenant ts (ir_tenantId r)) (ir_namespace r) [] eq_refl) as (rest2 & E2 & S2).
  destruct (in_records_at (at_namespace ts (ir_tenantId r) (ir_namespace r)) (ir_key r)) as (rest3 & E3 & S3).
  exists (rest3 ++ rest2 ++ rest1). unfold in_namespaces in *. rewrite E1, S1, E2, S2, E3, S3. by rewrite <- !app_assoc.
Qed.

Lemma remove_unfold ts t n k :
  remove ts t n k =
    if is_null (mget ts t) then ts else
    set_or_drop ts t (if is_null (mget (at_tenant ts t) n) then at_tenant ts t
                      else set_or_drop (at_tenant ts t) n (mdel (at_namespace ts t n) k)).
Proof.
  unfold remove, set_or_drop. destruct (mget ts t) as [ns|]; cbn; [|done].
  destruct (mget ns n) as [rs|]; cbn; [|done]. by destruct (mdel rs k).
Qed.

Lemma at_tenant_wf ts t : tenants_wf ts →
  NoDup (keys (at_tenant ts t)) ∧ ∀ n rs, (n, rs) ∈ at_tenant ts t → records_wf t n rs.
Proof.
  intros [_ Hts]. destruct (mget ts t) as [ns|] eqn:E; cbn.
  - apply mget_elem, Hts in E as (_ & ? & ?). done.
  - split; [constructor|]. by intros n rs ?%not_elem_of_nil.
Qed.

Lemma at_namespace_wf ts t n : tenants_wf ts →
  NoDup (keys (at_namespace ts t n)) ∧
  ∀ k r, (k, r) ∈ at_namespace ts t n → ir_key r = k ∧ ir_namespace r = n ∧ ir_tenantId r = t.
Proof.
  intros [_ Hns]%(at_tenant_wf _ t). destruct (mget (at_tenant ts t) n) as [rs|] eqn:E; cbn.
  - apply mget_elem, Hns in E as (_ & ? & ?). done.
  - split; [constructor|]. by intros k r ?%not_elem_of_nil.
Qed.

(** A record is found under its own names. *)
Lemma recordFor_names ts t n k r : tenants_wf ts → recordFor ts t n k = Some r →
  ir_tenantId r = t ∧ ir_namespace r = n ∧ ir_key r = k.
Proof.
  intros Hwf. rewrite recordFor_at. intros E%mget_elem. by apply (at_namespace_wf _ t n Hwf) in E as (? & ? & ?).
Qed.

Lemma recordFor_remove ts t n k t' n' k' : tenants_wf ts →
  recordFor (remove ts t n k) t' n' k' = if (t, n, k) === (t', n', k') then None else recordFor ts t' n' k'.
Proof.
  intros Hwf. pose proof (at_tenant_wf _ t Hwf) as [Hnd _]. pose proof (at_namespace_wf _ t n Hwf) as [Hnd' _].
  rewrite remove_unfold, !recordFor_at. destruct (mget ts t) as [ns|] eqn:Et; cbn [is_null].
  2: { case_bool_decide as E; [|done]. injection E as <- <- <-. by rewrite Et. }
  rewrite mget_set_or_drop by apply Hwf. destruct (decide (t = t')) as [<-|Ht].
  2: { rewrite !bool_decide_eq_false_2 by congruence. done. }
  rewrite (bool_decide_eq_true_2 (t = t)), Et by done. cbn [nullish default from_option id] in *.
  destruct (mget ns n) as [rs|] eqn:En; cbn [is_null].
  2: { case_bool_decide as E; [|done]. injection E as <- <-. by rewrite En. }
  rewrite mget_set_or_drop by done. destruct (decide (n = n')) as [<-|Hn].
  2: { rewrite !bool_decide_eq_false_2 by congruence. done. }
  rewrite (bool_decide_eq_true_2 (n = n)), En by done. cbn [nullish default from_option id] in *.
  rewrite mget_mdel by done. by repeat case_bool_decide; simplify_eq.
Qed.

Lemma remove_records ts t n k :
  all_records ts ≡ₚ option_list (recordFor ts t n k) ++ all_records (remove ts t n k).
Proof.
  rewrite remove_unfold, recordFor_at. unfold all_records. destruct (mget ts t) as [ns|] eqn:Et; cbn [is_null]; [|done].
  destruct (flat_set_or_drop in_namespaces eq_refl _ _ _ Et) as (rest1 & E1 & S1). rewrite E1, S1. cbn [nullish default from_option id].
  destruct (mget ns n) as [rs|] eqn:En; cbn [is_null]; [|done]. cbn [nullish default from_option id].
  destruct (flat_set_or_drop in_records eq_refl _ _ _ En) as (rest2 & E2 & S2). unfold in_namespaces. rewrite E2, S2, !app_assoc.
  do 2 apply Permutation_app_tail. destruct (mget rs k) as [r|] eqn:Ek; cbn.
  - unfold in_records. destruct (flat_old (λ r, [r]) _ _ _ Ek) as (rest3 & E3 & S3 & _). by rewrite E3, S3.
  - by rewrite mdel_absent.
Qed.

Lemma remove_wf ts t n k : tenants_wf ts → tenants_wf (remove ts t n k).
Proof.
  intros Hwf. pose proof (at_tenant_wf _ t Hwf) as [Hnd Hns]. pose proof (at_namespace_wf _ t n Hwf) as [Hnd' Hrs].
  rewrite remove_unfold. destruct (mget ts t) as [ns|] eqn:Et; cbn [is_null]; [|done].
  destruct Hwf as [Hnd0 Hts]. split; [by apply nodup_set_or_drop|].
  intros t' ns' [[[= -> ->] Hne]|Hin]%set_or_drop_elem; [|auto]. split; [done|]. cbn [nullish default from_option id] in *.
  destruct (mget ns n) as [rs|] eqn:En; cbn [is_null] in *; [|done]. split; [by apply nodup_set_or_drop|].
  intros n' rs' [[[= -> ->] Hne']|Hin]%set_or_drop_elem; [|auto]. cbn [nullish default from_option id] in *.
  split; [done|]. split; [by apply nodup_mdel|]. intros k' r' ?%mdel_elem. auto.
Qed.

(** ** Staged writes *)

Definition slot (w : StagedWrite) : jstr * jstr := (st_namespace w, st_key w).

Lemma target_inj n k n' k' : target n k = target n' k' → n = n' ∧ k = k'.
Proof.
  unfold target. change (js ":" ++ ?x) with (58 :: x). intros E.
  apply split_at_first in E as [El E]; [|by apply dec_without..].
  apply dec_inj in El. apply app_inj_1 in E; [done|lia].
Qed.

(** The record a write leaves, [None] for a deletion. *)
Definition written (ts : tenants_map) (tenantId : jstr) (now : Z) (w : StagedWrite) : option InternalStoredRecord :=
  serializedValue ← st_serializedValue w;
  Some {| ir_namespace := st_namespace w; ir_tenantId := tenantId; ir_key := st_key w;
          ir_serializedValue := serializedValue; ir_valueBytes := st_valueBytes w;
          ir_version := nullish (ir_version <$> recordFor ts tenantId (st_namespace w) (st_key w)) 0 + 1;
          ir_updatedAtMs := now |}.

Definition write_for (staged : list StagedWrite) (n k : jstr) : option StagedWrite :=
  find_first (λ w, slot w === (n, k)) staged.

Lemma write_for_none staged n k : write_for staged n k = None ↔ (n, k) ∉ map slot staged.
Proof.
  unfold write_for. rewrite find_first_none. split.
  - intros Hn (w & E & Hw)%list_elem_of_fmap. specialize (Hn w Hw). apply bool_decide_eq_false in Hn. congruence.
  - intros Hn w Hw. apply bool_decide_eq_false. intros E. apply Hn. rewrite <- E. apply list_elem_of_fmap. eauto.
Qed.

Lemma write_for_some staged n k w : write_for staged n k = Some w → w ∈ staged ∧ st_namespace w = n ∧ st_key w = k.
Proof. intros [Hw E]%find_first_some. apply bool_decide_eq_true in E. by injection E as <- <-. Qed.

Lemma write_for_elem staged w : NoDup (map slot staged) → w ∈ staged →
  write_for staged (st_namespace w) (st_key w) = Some w.
Proof.
  unfold write_for. induction staged as [|x staged IH]; cbn; intros Hnd Hin; [by apply not_elem_of_nil in Hin|].
  apply NoDup_cons in Hnd as [Hx Hnd]. apply elem_of_cons in Hin as [-> | Hin]; [by rewrite bool_decide_eq_true_2|].
  rewrite bool_decide_eq_false_2; [by apply IH|]. intros E. apply Hx. rewrite E. apply list_elem_of_fmap. by exists w.
Qed.

(** One write of a commit. *)
Definition apply_one (ts : tenants_map) (tenantId : jstr) (now : Z) (w : StagedWrite) : tenants_map :=
  match written ts tenantId now w with
  | None => remove ts tenantId (st_namespace w) (st_key w)
  | Some r => put ts r
  end.

Lemma apply_staged_fold ts nv tenantId now staged :
  (apply_staged ts nv tenantId now staged).1 = foldl (λ ts w, apply_one ts tenantId now w) ts staged.
Proof.
  revert ts nv. induction staged as [|w staged IH]; intros ts nv; [done|]. cbn [apply_staged foldl].
  unfold apply_one at 2, written. by destruct (st_serializedValue w); cbn; rewrite IH.
Qed.

Lemma apply_one_wf ts tenantId now w : tenants_wf ts → tenants_wf (apply_one ts tenantId now w).
Proof. intros. unfold apply_one. destruct (written _ _ _ _); [by apply put_wf|by apply remove_wf]. Qed.

Lemma recordFor_apply_one ts tenantId now w t n k : tenants_wf ts →
  recordFor (apply_one ts tenantId now w) t n k =
    if (tenantId, slot w) === (t, (n, k)) then written ts tenantId now w else recordFor ts t n k.
Proof.
  intros Hwf. unfold apply_one. destruct (written ts tenantId now w) as [r|] eqn:E.
  - rewrite recordFor_put. unfold written in E. destruct (st_serializedValue w); [|done]. injection E as <-. cbn.
    unfold slot. by repeat case_bool_decide; simplify_eq.
  - rewrite recordFor_remove by done. unfold slot. by repeat case_bool_decide; simplify_eq.
Qed.

Lemma written_ext ts ts' tenantId now w :
  recordFor ts tenantId (st_namespace w) (st_key w) = recordFor ts' tenantId (st_namespace w) (st_key w) →
  written ts tenantId now w = written ts' tenantId now w.
Proof. intros E. unfold written. by rewrite E. Qed.

(** What a commit leaves under every name. *)
Lemma recordFor_apply ts tenantId now staged t n k :
  tenants_wf ts → NoDup (map slot staged) →
  let ts' := foldl (λ ts w, apply_one ts tenantId now w) ts staged in
  tenants_wf ts' ∧
  recordFor ts' t n k =
    match (if tenantId === t then write_for staged n k else None) with
    | Some w => written ts tenantId now w
    | None => recordFor ts t n k
    end.
Proof.
  revert ts. induction staged as [|w staged IH]; intros ts Hwf Hnd; cbn [foldl].
  { split; [done|]. by case_bool_decide. }
  cbn [map] in Hnd. apply NoDup_cons in Hnd as [Hw Hnd].
  destruct (IH (apply_one ts tenantId now w) (apply_one_wf _ _ _ _ Hwf) Hnd) as [Hwf' ->]. split; [done|].
  destruct (decide (tenantId = t)) as [<-|Ht].
  2: { rewrite !(bool_decide_eq_false_2 (tenantId = t)) by done. rewrite recordFor_apply_one by done.
       by rewrite bool_decide_eq_false_2 by congruence. }
  rewrite !(bool_decide_eq_true_2 (tenantId = tenantId)) by done. unfold write_for. cbn [find_first List.find].
  destruct (decide (slot w = (n, k))) as [E|Hne].
  - rewrite bool_decide_eq_true_2 by done.
    assert (write_for staged n k = None) as Hn by (apply write_for_none; by rewrite <- E).
    unfold write_for, find_first in Hn. unfold find_first. rewrite Hn. rewrite recordFor_apply_one by done.
    by rewrite bool_decide_eq_true_2 by congruence.
  - rewrite (bool_decide_eq_false_2 (slot w = (n, k))) by done. unfold find_first.
    destruct (List.find _ staged) as [w'|] eqn:Ew.
    + apply find_first_some in Ew as [Hin Ew]. apply bool_decide_eq_true in Ew. apply written_ext.
      rewrite recordFor_apply_one, bool_decide_eq_false_2; [done| |done]. intros E'; injection E' as E1 E2.
      apply Hw. unfold slot. rewrite E1, E2. apply list_elem_of_fmap. by exists w'.
    + rewrite recordFor_apply_one by done. by rewrite bool_decide_eq_false_2 by congruence.
Qed.

(** ** The counters *)

Definition total_bytes (rs : list InternalStoredRecord) : Z := foldr (λ r sum, ir_valueBytes r + sum) 0 rs.

#[global] Instance total_bytes_perm : Proper ((≡ₚ) ==> (=)) total_bytes.
Proof. intros rs rs' Hp. unfold total_bytes. induction Hp; cbn; lia. Qed.

Lemma total_bytes_app rs rs' : total_bytes (rs ++ rs') = total_bytes rs + total_bytes rs'.
Proof.
  induction rs as [|r rs IH]; [done|]. change (total_bytes ((r :: rs) ++ rs')) with (ir_valueBytes r + total_bytes (rs ++ rs')).
  change (total_bytes (r :: rs)) with (ir_valueBytes r + total_bytes rs). lia.
Qed.

(** How a write changes the number and the size of the records. *)
Lemma apply_one_counts ts tenantId now w : tenants_wf ts →
  let old := option_list (recordFor ts tenantId (st_namespace w) (st_key w)) in
  let new := option_list (written ts tenantId now w) in
  let ts' := apply_one ts tenantId now w in
  (length (all_records ts') + length old = length (all_records ts) + length new)%nat ∧
  total_bytes (all_records ts') + total_bytes old = total_bytes (all_records ts) + total_bytes new.
Proof.
  intros Hwf. cbv zeta. unfold apply_one. destruct (written ts tenantId now w) as [r|] eqn:E.
  - unfold written in E. destruct (st_serializedValue w); [|done].
    assert (ir_tenantId r = tenantId ∧ ir_namespace r = st_namespace w ∧ ir_key r = st_key w) as (<- & <- & <-)
      by (by injection E as <-).
    destruct (put_records ts r) as (rest & E1 & E2). rewrite E1, E2, !total_bytes_app, !length_app. change (option_list (Some r)) with [r].
    unfold total_bytes. cbn [length foldr]. lia.
  - change (option_list None) with (@nil InternalStoredRecord).
    pose proof (remove_records ts tenantId (st_namespace w) (st_key w)) as E1.
    pose proof (Permutation_length E1) as El. pose proof (total_bytes_perm _ _ E1) as Eb.
    rewrite length_app in El. rewrite total_bytes_app in Eb. unfold total_bytes at 4. cbn [length foldr]. lia.
Qed.

Lemma project_ext ts ts' tenantId staged c b :
  (∀ w, w ∈ staged → recordFor ts tenantId (st_namespace w) (st_key w) = recordFor ts' tenantId (st_namespace w) (st_key w)) →
  project ts tenantId staged c b = project ts' tenantId staged c b.
Proof.
  revert c b. induction staged as [|w staged IH]; intros c b Hext; [done|]. cbn [project].
  rewrite <- (Hext w) by by left.
  destruct (st_serializedValue w), (recordFor ts tenantId _ _); try destruct (_ =? _); try done; apply IH; intros; apply Hext; by right.
Qed.

(** The projected counters are the counters of the state that is reached. *)
Lemma project_counts ts tenantId now staged c b c' b' :
  tenants_wf ts → NoDup (map slot staged) → project ts tenantId staged c b = Some (c', b') →
  let ts' := foldl (λ ts w, apply_one ts tenantId now w) ts staged in
  c' - Z.of_nat (length (all_records ts')) = c - Z.of_nat (length (all_records ts)) ∧
  b' - total_bytes (all_records ts') = b - total_bytes (all_records ts).
Proof.
  revert ts c b. induction staged as [|w staged IH]; intros ts c b Hwf Hnd Hp; cbn [foldl project] in *.
  { injection Hp as <- <-. done. }
  cbn [map] in Hnd. apply NoDup_cons in Hnd as [Hw Hnd].
  assert (∀ w', w' ∈ staged → recordFor ts tenantId (st_namespace w') (st_key w') =
            recordFor (apply_one ts tenantId now w) tenantId (st_namespace w') (st_key w')) as Hext.
  { intros w' Hw'. rewrite recordFor_apply_one by done. rewrite bool_decide_eq_false_2; [done|].
    intros E; injection E as E1 E2. apply Hw. unfold slot. rewrite E1, E2. apply list_elem_of_fmap. by exists w'. }
  pose proof (apply_one_counts ts tenantId now w Hwf) as Hc.
  specialize (λ c b, IH (apply_one ts tenantId now w) c b (apply_one_wf _ _ _ _ Hwf) Hnd).
  unfold written in Hc. destruct (st_serializedValue w) as [s|], (recordFor ts tenantId _ _) as [r|]; cbn in Hc;
    [destruct (_ =? _); [done|]| | |];
    rewrite (project_ext _ _ _ _ _ _ Hext) in Hp; specialize (IH _ _ Hp); cbn in IH; lia.
Qed.

(** No record that is overwritten is at its last version. *)
Lemma project_versions ts tenantId staged c b w r :
  is_Some (project ts tenantId staged c b) → w ∈ staged → is_Some (st_serializedValue w) →
  recordFor ts tenantId (st_namespace w) (st_key w) = Some r → ir_version r ≠ MAX_SAFE_INTEGER.
Proof.
  revert c b. induction staged as [|x staged IH]; intros c b Hp Hin Hs Hr; [by apply not_elem_of_nil in Hin|].
  cbn [project] in Hp. apply elem_of_cons in Hin as [-> | Hin].
  - destruct Hs as [s Es]. rewrite Es, Hr in Hp. destruct (Z.eqb_spec (ir_version r) MAX_SAFE_INTEGER); [|done]. by destruct Hp.
  - destruct (st_serializedValue x), (recordFor ts tenantId (st_namespace x) (st_key x));
      try (destruct (_ =? _); [by destruct Hp|]); by eapply IH.
Qed.

Lemma flat_elem {K A B} (f : A → list B) (m : list (K * A)) x : x ∈ flat f m ↔ ∃ k v, (k, v) ∈ m ∧ x ∈ f v.
Proof. unfold flat. rewrite list_elem_of_bind. split; [intros ([k v] & ? & ?)|intros (k & v & ? & ?)]; eauto; by exists (k, v). Qed.

Lemma all_records_elem ts r : tenants_wf ts →
  r ∈ all_records ts ↔ recordFor ts (ir_tenantId r) (ir_namespace r) (ir_key r) = Some r.
Proof.
  intros Hwf. pose proof Hwf as [Hnd Hts]. unfold all_records. rewrite flat_elem. split.
  - intros (t & ns & Ht & (n & rs & Hn & (k & r' & Hk & ->%list_elem_of_singleton)%flat_elem)%flat_elem).
    destruct (Hts t ns Ht) as (_ & Hnd1 & Hns). destruct (Hns n rs Hn) as (_ & Hnd2 & Hrs).
    destruct (Hrs k r' Hk) as (-> & -> & ->). unfold recordFor.
    rewrite (elem_mget _ _ _ Hnd Ht). cbn. rewrite (elem_mget _ _ _ Hnd1 Hn). cbn. by apply elem_mget.
  - unfold recordFor. intros E. destruct (mget ts (ir_tenantId r)) as [ns|] eqn:Et; [|done]. cbn in E.
    destruct (mget ns (ir_namespace r)) as [rs|] eqn:En; [|done]. cbn in E.
    apply mget_elem in Et, En, E. exists (ir_tenantId r), ns. split; [done|]. apply flat_elem. exists (ir_namespace r), rs.
    split; [done|]. apply flat_elem. exists (ir_key r), r. split; [done|]. by apply list_elem_of_singleton.
Qed.

Section store.
Context `{Float64}.

(** ** Invariants *)

Definition bounded (limits : Limits) (s : jstr) : Prop := boundedIdentifier s (maxIdentifierBytes limits) = true.

Definition value_ok (limits : Limits) (serialized : jstr) (bytes : Z) : Prop :=
  bytes = byteLength serialized ∧ bytes <= maxRecordValueBytes limits ∧ is_Some (json_parse serialized).

Record record_ok (limits : Limits) (r : InternalStoredRecord) : Prop := {
  ro_tenant : bounded limits (ir_tenantId r);
  ro_namespace : bounded limits (ir_namespace r);
  ro_key : bounded limits (ir_key r);
  ro_value : value_ok limits (ir_serializedValue r) (ir_valueBytes r);
  ro_version : 1 <= ir_version r <= MAX_SAFE_INTEGER;
  ro_updated : 0 <= ir_updatedAtMs r <= MAX_SAFE_INTEGER }.

(** The counters are exact and within the limits. *)
Record store_inv (st : Store) : Prop := {
  si_wf : tenants_wf (s_tenants st);
  si_count : s_recordCount st = Z.of_nat (length (all_records (s_tenants st)));
  si_bytes : s_totalValueBytes st = total_bytes (all_records (s_tenants st));
  si_maxRecords : s_recordCount st <= maxRecords (s_limits st);
  si_maxBytes : s_totalValueBytes st <= maxTotalRecordValueBytes (s_limits st);
  si_records : ∀ t n k r, recordFor (s_tenants st) t n k = Some r → record_ok (s_limits st) r }.

Record write_ok (limits : Limits) (w : StagedWrite) : Prop := {
  wo_namespace : bounded limits (st_namespace w);
  wo_key : bounded limits (st_key w);
  wo_value : match st_serializedValue w with
             | Some s => value_ok limits s (st_valueBytes w)
             | None => st_valueBytes w = 0
             end }.

Record tx_inv (limits : Limits) (tx : Tx) : Prop := {
  ti_tenant : bounded limits (tx_tenantId tx);
  ti_targets : tx_stagedTargets tx = map (λ w, target (st_namespace w) (st_key w)) (tx_staged tx);
  ti_slots : NoDup (map slot (tx_staged tx));
  ti_length : Z.of_nat (length (tx_staged tx)) <= maxTransactionWrites limits;
  ti_writes : Forall (write_ok limits) (tx_staged tx) }.

Lemma jsonSnapshot_ok v limits snap : jsonSnapshot v (maxRecordValueBytes limits) = Some snap →
  value_ok limits (js_serialized snap) (js_bytes snap).
Proof.
  unfold jsonSnapshot. destruct (negb _); [done|]. destruct (Z.ltb_spec (maxRecordValueBytes limits) (byteLength (json_stringify v))); [done|].
  destruct (json_parse (json_stringify v)) as [p|] eqn:E; [|done]. intros [= <-]. cbn. split; [done|]. split; [done|]. eauto.
Qed.

Lemma mark_invalid_inv limits tx : tx_inv limits tx → tx_inv limits (mark_invalid tx).
Proof. intros []. by split. Qed.

Lemma tx_stage_inv limits tx w : tx_inv limits tx → tx_inv limits (tx_stage limits tx w).
Proof.
  intros Hi. unfold tx_stage.
  destruct (Z.leb_spec (maxTransactionWrites limits) (Z.of_nat (length (tx_staged tx)))); [by apply mark_invalid_inv|].
  destruct (_ || _) eqn:Eb; [by apply mark_invalid_inv|]. bsimp.
  destruct (bool_decide (_ ∈ _)) eqn:Et; [by apply mark_invalid_inv|]. bsimp.
  destruct (_ && _) eqn:Es; [by apply mark_invalid_inv|]. destruct Hi as [I1 I2 I3 I4 I5]. split; cbn; [done|..].
  - by rewrite I2, map_app.
  - rewrite map_app. apply NoDup_app. split; [done|]. split; [|apply NoDup_singleton].
    intros p Hp ->%list_elem_of_singleton. apply Et. rewrite I2. apply list_elem_of_fmap in Hp as (w' & E & Hw').
    apply list_elem_of_fmap. exists w'. split; [|done]. unfold slot in E. cbn in E. by injection E as -> ->.
  - rewrite length_app. cbn. lia.
  - apply Forall_app. split; [done|]. apply Forall_singleton. split; [done|done|]. cbn.
    destruct (sw_value w) as [v|]; cbn in *; [|done].
    destruct (jsonSnapshot v _) as [snap|] eqn:Ej; [|done]. cbn. by eapply jsonSnapshot_ok.
Qed.

(** ** Commits *)

Definition expectations_hold (st : Store) (tx : Tx) : Prop :=
  ∀ w, w ∈ tx_staged tx →
    expectation_fails (st_expect w) (recordFor (s_tenants st) (tx_tenantId tx) (st_namespace w) (st_key w)) = false.

(** A commit refuses and changes nothing, or it does all of this. *)
Lemma commit_cases {T} (st st' : Store) (tx : Tx) (returned : option T) clock outcome :
  commit st tx returned clock = (st', outcome) →
  (st' = st ∧ ∃ code message, outcome = store_refused code message) ∨
  (∃ value now, returned = Some value ∧ outcome = store_ok value ∧ clock = JInt now ∧ 0 <= now <= MAX_SAFE_INTEGER ∧
    s_opened st = true ∧ tx_invalid tx = false ∧ expectations_hold st tx ∧
    project (s_tenants st) (tx_tenantId tx) (tx_staged tx) (s_recordCount st) (s_totalValueBytes st) =
      Some (s_recordCount st', s_totalValueBytes st') ∧
    s_recordCount st' <= maxRecords (s_limits st) ∧ s_totalValueBytes st' <= maxTotalRecordValueBytes (s_limits st) ∧
    s_tenants st' = foldl (λ ts w, apply_one ts (tx_tenantId tx) now w) (s_tenants st) (tx_staged tx) ∧
    s_limits st' = s_limits st ∧ s_opened st' = s_opened st ∧ s_activeTransactions st' = s_activeTransactions st).
Proof.
  unfold commit. destruct returned as [value|]; [|intros [= <- <-]; left; eauto].
  destruct (s_opened st) eqn:Eo; cbn [negb]; [|intros [= <- <-]; left; eauto].
  destruct (tx_invalid tx) eqn:Ei; [intros [= <- <-]; left; eauto|].
  destruct (existsb _ _) eqn:Ee; [intros [= <- <-]; left; eauto|].
  destruct (project _ _ _ _ _) as [[count bytes]|] eqn:Ep; [|intros [= <- <-]; left; eauto].
  destruct (_ || _) eqn:El; [intros [= <- <-]; left; eauto|].
  destruct (negb (isSafeInteger clock) || _) eqn:Ec; [intros [= <- <-]; left; eauto|].
  destruct (apply_staged _ _ _ _ _) as [tenants nv] eqn:Ea. intros [= <- <-]. right.
  bsimp. pose proof (isSafeInteger_range clock ltac:(done)). pose proof (isSafeInteger_int clock ltac:(done)) as Ecl.
  exists value, (num_Z clock). cbn.
  pose proof (apply_staged_fold (s_tenants st) (s_nextVersion st) (tx_tenantId tx) (num_Z clock) (tx_staged tx)) as Ef.
  rewrite Ea in Ef. cbn in Ef. unfold expectations_hold. rewrite existsb_false in Ee.
  repeat split; try done; try lia.
Qed.

Lemma written_some ts tenantId now w r : written ts tenantId now w = Some r →
  ∃ s, st_serializedValue w = Some s ∧ ir_serializedValue r = s ∧ ir_valueBytes r = st_valueBytes w ∧
    ir_tenantId r = tenantId ∧ ir_namespace r = st_namespace w ∧ ir_key r = st_key w ∧ ir_updatedAtMs r = now ∧
    ir_version r = nullish (ir_version <$> recordFor ts tenantId (st_namespace w) (st_key w)) 0 + 1.
Proof. unfold written. destruct (st_serializedValue w) as [s|]; [|done]. intros [= <-]. by exists s. Qed.

Lemma commit_inv {T} st st' tx (returned : option T) clock outcome :
  store_inv st → tx_inv (s_limits st) tx → commit st tx returned clock = (st', outcome) →
  store_inv st' ∧ s_limits st' = s_limits st ∧ s_activeTransactions st' = s_activeTransactions st.
Proof.
  intros [S1 S2 S3 S4 S5 S6] Ht [[-> _]|(value & now & -> & -> & -> & Hnow & _ & _ & _ & Ep & Ec & Eb & Es & El & _ & Eact)]%commit_cases;
    [done|].
  split; [|done].
  destruct (project_counts _ _ now _ _ _ _ _ S1 (ti_slots _ _ Ht) Ep) as [Hc Hb].
  pose proof (λ t n k, recordFor_apply (s_tenants st) (tx_tenantId tx) now (tx_staged tx) t n k S1 (ti_slots _ _ Ht)) as Hl.
  cbv zeta in *. rewrite <- Es in Hc, Hb. rewrite <- Es in Hl. split; rewrite ?El; try done.
  - by apply (Hl [] [] []).
  - lia.
  - lia.
  - intros t n k r Hr. rewrite (proj2 (Hl t n k)) in Hr.
    destruct (bool_decide (tx_tenantId tx = t)); [|by eapply S6].
    destruct (write_for (tx_staged tx) n k) as [w|] eqn:Ew; [|by eapply S6].
    apply write_for_some in Ew as (Hin & _ & _). pose proof (ti_writes _ _ Ht) as Hws. rewrite Forall_forall in Hws.
    destruct (Hws w Hin) as [W1 W2 W3]. destruct (written_some _ _ _ _ _ Hr) as (s & Hs & E1 & E2 & E3 & E4 & E5 & E6 & E7).
    rewrite Hs in W3. split; rewrite ?E1, ?E2, ?E3, ?E4, ?E5, ?E6, ?E7; try done; [apply Ht|].
    destruct (recordFor (s_tenants st) (tx_tenantId tx) (st_namespace w) (st_key w)) as [old|] eqn:Eold; cbn; [|unfold MAX_SAFE_INTEGER; lia].
    pose proof (ro_version _ _ (S6 _ _ _ _ Eold)).
    assert (ir_version old ≠ MAX_SAFE_INTEGER) by (eapply project_versions; [by eexists|done|by eexists|done]). lia.
Qed.

(** ** Interleaved transactions *)

(** A store and the transactions whose callbacks are running. *)
Record World := { w_store : Store; w_running : list Tx }.

Context (localeCompare : jstr → jstr → Z).

(** One turn of the event loop: opening and closing, the start of a call, one
    operation of a running callback, or the end of a callback with its commit. *)
Inductive store_step : World → World → Prop :=
| step_open st txs : store_step {| w_store := st; w_running := txs |} {| w_store := (open_store st).1; w_running := txs |}
| step_close st txs : store_step {| w_store := st; w_running := txs |} {| w_store := (close_store st).1; w_running := txs |}
| step_begin st txs tenantId st' tx :
    begin_transact st tenantId = (st', store_ok tx) →
    store_step {| w_store := st; w_running := txs |} {| w_store := st'; w_running := txs ++ [tx] |}
| step_read st txs1 tx txs2 namespace key :
    store_step {| w_store := st; w_running := txs1 ++ tx :: txs2 |}
               {| w_store := st; w_running := txs1 ++ (tx_read st tx namespace key).1 :: txs2 |}
| step_list st txs1 tx txs2 namespace :
    store_step {| w_store := st; w_running := txs1 ++ tx :: txs2 |}
               {| w_store := st; w_running := txs1 ++ (tx_list localeCompare st tx namespace).1 :: txs2 |}
| step_stage st txs1 tx txs2 write :
    store_step {| w_store := st; w_running := txs1 ++ tx :: txs2 |}
               {| w_store := st; w_running := txs1 ++ tx_stage (s_limits st) tx write :: txs2 |}
| step_finish st txs1 tx txs2 (returned : option unit) clock :
    store_step {| w_store := st; w_running := txs1 ++ tx :: txs2 |}
               {| w_store := (finish_transact st tx returned clock).1; w_running := txs1 ++ txs2 |}.

Definition world_inv (w : World) : Prop :=
  store_inv (w_store w) ∧ Forall (tx_inv (s_limits (w_store w))) (w_running w) ∧
  s_activeTransactions (w_store w) = Z.of_nat (length (w_running w)) ∧
  s_activeTransactions (w_store w) <= maxConcurrentTransactions (s_limits (w_store w)) ∧
  0 <= maxTransactionWrites (s_limits (w_store w)).

Lemma store_inv_ext st st' :
  s_limits st' = s_limits st → s_tenants st' = s_tenants st → s_recordCount st' = s_recordCount st →
  s_totalValueBytes st' = s_totalValueBytes st → store_inv st → store_inv st'.
Proof. intros El Et Ec Eb []. by split; rewrite ?El, ?Et, ?Ec, ?Eb. Qed.

Lemma create_inv options st : createPreProductionProtocolStore options = Ok st →
  world_inv {| w_store := st; w_running := [] |}.
Proof.
  unfold createPreProductionProtocolStore. intros E.
  assert (∀ name v z, positiveSafeInteger name v = Ok z → 1 <= z) as Hp.
  { intros name v z Hz. unfold positiveSafeInteger in Hz. ok_inv Hz. lia. }
  repeat (apply bind_ok in E as (? & ?%Hp & E)). apply bind_ok in E as (? & _ & E). injection E as <-.
  split; [|split; [constructor|]; cbn; lia].
  split; cbn; try lia; [|done]. split; [constructor|]. by intros t ns ?%not_elem_of_nil.
Qed.

Lemma store_step_inv w w' : world_inv w → store_step w w' → world_inv w'.
Proof.
  assert (∀ l txs1 tx tx' txs2, (tx_inv l tx → tx_inv l tx') → Forall (tx_inv l) (txs1 ++ tx :: txs2) →
            Forall (tx_inv l) (txs1 ++ tx' :: txs2)) as Hrep.
  { intros l txs1 tx tx' txs2 Htx. rewrite !Forall_app, !Forall_cons. naive_solver. }
  unfold world_inv. intros (Hs & Ht & Ha & Hm & Hw). destruct 1 as [| |st txs tenantId st' tx Eb| | | |st txs1 tx txs2 returned clock]; cbn in *.
  - split; [|done]. by refine (store_inv_ext _ _ _ _ _ _ Hs).
  - split; [|done]. by refine (store_inv_ext _ _ _ _ _ _ Hs).
  - unfold begin_transact in Eb. destruct (_ || _) eqn:E1; [done|]. destruct (boundedIdentifier _ _) eqn:E2; [|done].
    injection Eb as <- <-. bsimp. split; [by refine (store_inv_ext _ _ _ _ _ _ Hs)|]. cbn. split; [|rewrite length_app; cbn; lia].
    apply Forall_app. split; [done|]. apply Forall_singleton. split; try done; constructor.
  - rewrite length_app in *. cbn [length] in *. split; [done|]. split; [|lia]. eapply Hrep; [|exact Ht]. intros. unfold tx_read.
    destruct (_ || _); [by apply mark_invalid_inv|done].
  - rewrite length_app in *. cbn [length] in *. split; [done|]. split; [|lia]. eapply Hrep; [|exact Ht]. intros. unfold tx_list.
    destruct (negb _); [by apply mark_invalid_inv|done].
  - rewrite length_app in *. cbn [length] in *. split; [done|]. split; [|lia]. eapply Hrep; [|exact Ht]. apply tx_stage_inv.
  - unfold finish_transact. destruct (commit st tx returned clock) as [st' outcome] eqn:Ec. cbn.
    apply Forall_app in Ht as [Ht1 Ht]. apply Forall_cons in Ht as [Htx Ht2].
    destruct (commit_inv _ _ _ _ _ _ Hs Htx Ec) as (Hs' & El & Eact).
    rewrite length_app in *. cbn [length] in Ha. rewrite El. split; [by refine (store_inv_ext _ _ _ _ _ _ Hs')|].
    split; [by apply Forall_app|]. lia.
Qed.

(** C32: the bookkeeping of the store is exact whatever transactions interleave. In
    every state it reaches, the record and byte counters are those of the records it
    holds and within the limits, every record is found under its own bounded names
    with the size and text it was staged with and a version from 1 to the largest
    safe integer, and the running transactions are counted and never exceed their
    limit. *)
Theorem protocol_store_invariant options st w :
  createPreProductionProtocolStore options = Ok st →
  rtc store_step {| w_store := st; w_running := [] |} w → world_inv w.
Proof. intros Hc%create_inv Hr. induction Hr as [|w1 w2 w3 Hs _ IH]; [done|]. apply IH. by eapply store_step_inv. Qed.

(** A commit is atomic. When it succeeds, every expectation held at that moment,
    every staged write is in effect with the next version of its record, and every
    other record, in particular every record of another tenant, is as before. When it
    is refused, no record changed. *)
Theorem commit_atomic {T} st st' tx (returned : option T) clock outcome :
  store_inv st → tx_inv (s_limits st) tx → finish_transact st tx returned clock = (st', outcome) →
  match outcome with
  | store_refused _ _ => s_tenants st' = s_tenants st
  | store_ok value =>
      returned = Some value ∧ expectations_hold st tx ∧
      (∀ w, w ∈ tx_staged tx →
        recordFor (s_tenants st') (tx_tenantId tx) (st_namespace w) (st_key w) =
          written (s_tenants st) (tx_tenantId tx) (num_Z clock) w) ∧
      (∀ t n k, t ≠ tx_tenantId tx ∨ (n, k) ∉ map slot (tx_staged tx) →
        recordFor (s_tenants st') t n k = recordFor (s_tenants st) t n k)
  end.
Proof.
  intros Hs Ht. unfold finish_transact. destruct (commit st tx returned clock) as [st1 out] eqn:Ec. intros [= <- <-].
  apply commit_cases in Ec as [[-> (code & message & ->)]|(value & now & -> & -> & -> & _ & _ & _ & He & _ & _ & _ & Et & _)]; [done|].
  split; [done|]. split; [done|]. cbn [set_active s_tenants num_Z]. rewrite Et.
  pose proof (λ t n k, proj2 (recordFor_apply (s_tenants st) (tx_tenantId tx) now (tx_staged tx) t n k (si_wf _ Hs) (ti_slots _ _ Ht))) as Hl.
  cbv zeta in Hl. split.
  - intros w Hw. rewrite Hl, bool_decide_eq_true_2 by done. by rewrite (write_for_elem _ _ (ti_slots _ _ Ht) Hw).
  - intros t n k Hne. rewrite Hl. case_bool_decide as E; [|done].
    destruct Hne as [|Hne%write_for_none]; [congruence|]. by rewrite Hne.
Qed.

(** ** Versions *)

Abbreviation record_in w t n k := (recordFor (s_tenants (w_store w)) t n k).

(** One turn leaves a record alone, moves it to its next version, removes it, or
    creates it at version 1. *)
Lemma step_version w w' t n k : world_inv w → store_step w w' →
  record_in w' t n k = record_in w t n k ∨ record_in w' t n k = None ∨
  ∃ r', record_in w' t n k = Some r' ∧ ir_version r' = nullish (ir_version <$> record_in w t n k) 0 + 1.
Proof.
  intros (Hs & Ht & _) Hstep. destruct Hstep as [| |st txs tenantId st' tx Eb| | | |st txs1 tx txs2 returned clock]; try by left.
  - left. unfold begin_transact in Eb. destruct (_ || _); [done|]. destruct (boundedIdentifier _ _); [|done].
    by injection Eb as <- <-.
  - cbn [w_store w_running] in *. unfold finish_transact. destruct (commit st tx returned clock) as [st' outcome] eqn:Ec.
    cbn [fst set_active s_tenants].
    apply Forall_app in Ht as [_ Ht]. apply Forall_cons in Ht as [Htx _].
    apply commit_cases in Ec as [[-> _]|(value & now & _ & _ & _ & _ & _ & _ & _ & _ & _ & _ & Et & _)]; [by left|].
    pose proof (proj2 (recordFor_apply (s_tenants st) (tx_tenantId tx) now _ t n k (si_wf _ Hs) (ti_slots _ _ Htx))) as El.
    cbv zeta in El. rewrite <- Et in El. rewrite El.
    case_bool_decide as E; [subst t|by left]. destruct (write_for (tx_staged tx) n k) as [wr|] eqn:Ew; [|by left].
    right. apply write_for_some in Ew as (_ & <- & <-).
    destruct (written _ _ _ wr) as [r'|] eqn:Ewr; [right|by left]. apply written_some in Ewr as (s & _ & _ & _ & _ & _ & _ & _ & Ev).
    eauto.
Qed.

(** A run during which the record is never absent. *)
Definition present_step (t n k : jstr) (w w' : World) : Prop := store_step w w' ∧ is_Some (record_in w' t n k).

Lemma present_run w w' t n k r : world_inv w → rtc (present_step t n k) w w' → record_in w t n k = Some r →
  world_inv w' ∧ ∃ r', record_in w' t n k = Some r' ∧ (r' = r ∨ ir_version r < ir_version r').
Proof.
  intros Hi Hrun. revert r Hi. induction Hrun as [w|w1 w2 w3 [Hs [r2 Hp]] _ IH]; intros r Hi Hr; [eauto|].
  destruct (IH r2 (store_step_inv _ _ Hi Hs) Hp) as (Hi3 & r3 & Hr3 & Hc). split; [done|]. exists r3. split; [done|].
  assert (r2 = r ∨ ir_version r < ir_version r2) as Hc2.
  { destruct (step_version _ _ t n k Hi Hs) as [E|[E|(r' & E & Ev)]]; rewrite Hp in E; [left; congruence|done|].
    injection E as <-. rewrite Hr in Ev. cbn in Ev. right. lia. }
  destruct Hc as [-> | Hc], Hc2 as [-> | Hc2]; auto; right; lia.
Qed.

(** C26: no update is lost. Suppose a callback read a record, stages a write that
    expects the version it read, and commits; if the record was not deleted meanwhile,
    then whatever other transactions committed in between, the record is at that
    moment exactly the one that was read, and its next version is the write. *)
Theorem no_lost_update w1 w2 txs1 tx txs2 returned clock st' t n k r wr u :
  world_inv w1 → record_in w1 t n k = Some r → rtc (present_step t n k) w1 w2 →
  w_running w2 = txs1 ++ tx :: txs2 → tx_tenantId tx = t → wr ∈ tx_staged tx → slot wr = (n, k) →
  st_expect wr = expect_version (JInt (ir_version r)) →
  finish_transact (w_store w2) tx returned clock = (st', store_ok (T := unit) u) →
  record_in w2 t n k = Some r ∧
  ∀ s, st_serializedValue wr = Some s →
    ∃ r', recordFor (s_tenants st') t n k = Some r' ∧ ir_serializedValue r' = s ∧ ir_version r' = ir_version r + 1.
Proof.
  intros Hi Hr Hrun Ew <- Hwr Hslot Hexp Hfin. destruct (present_run _ _ _ _ _ _ Hi Hrun Hr) as ((Hs & Ht & _) & r2 & Hr2 & Hc).
  injection Hslot as <- <-. rewrite Ew in Ht. apply Forall_app in Ht as [_ Ht]. apply Forall_cons in Ht as [Htx _].
  unfold finish_transact in Hfin. destruct (commit (w_store w2) tx returned clock) as [st1 out] eqn:Ec. injection Hfin as <- ->.
  apply commit_cases in Ec as [[_ (? & ? & [=])]|(value & now & _ & _ & _ & _ & _ & _ & He & _ & _ & _ & Et & _)].
  specialize (He wr Hwr). rewrite Hexp, Hr2 in He. cbn in He. bsimp.
  assert (r2 = r) as -> by (destruct Hc as [|Hc]; [done|]; match goal with E : JInt _ = JInt _ |- _ => injection E as E end; lia).
  split; [done|]. intros s Hser. cbn [set_active s_tenants]. rewrite Et.
  pose proof (proj2 (recordFor_apply (s_tenants (w_store w2)) (tx_tenantId tx) now _ (tx_tenantId tx) (st_namespace wr) (st_key wr)
                       (si_wf _ Hs) (ti_slots _ _ Htx))) as El.
  cbv zeta in El. rewrite El. rewrite bool_decide_eq_true_2, (write_for_elem _ _ (ti_slots _ _ Htx) Hwr) by done.
  unfold written. rewrite Hser. cbn. eexists. split; [reflexivity|]. cbn. rewrite Hr2. done.
Qed.
End store.

(** ** The store as its clients see it *)

Section interface.
Context `{Float64}.

Definition new_tx (tenantId : jstr) : Tx :=
  {| tx_tenantId := tenantId; tx_staged := []; tx_stagedTargets := []; tx_invalid := false |}.

Definition staged_as (w : StoreWrite) (s : StagedWrite) : Prop :=
  st_namespace s = sw_namespace w ∧ st_key s = sw_key w ∧ st_expect s = sw_expect w ∧
  st_serializedValue s = json_stringify <$> sw_value w.

Lemma stage_valid limits tx w : tx_invalid (tx_stage limits tx w) = false →
  tx_invalid tx = false ∧ tx_tenantId (tx_stage limits tx w) = tx_tenantId tx ∧
  ∃ s, tx_staged (tx_stage limits tx w) = tx_staged tx ++ [s] ∧ staged_as w s.
Proof.
  unfold tx_stage. destruct (_ <=? _); [done|]. destruct (_ || _); [done|]. destruct (bool_decide _); [done|].
  destruct (sw_value w) as [v|] eqn:Ev; cbn.
  - unfold jsonSnapshot. destruct (negb _); [done|]. destruct (_ <? _); [done|].
    destruct (json_parse _); [|done]. cbn. intros E. split; [done|]. split; [done|]. eexists. split; [done|]. unfold staged_as. by rewrite Ev.
  - intros E. split; [done|]. split; [done|]. eexists. split; [done|]. unfold staged_as. by rewrite Ev.
Qed.

Lemma stage_all limits tx ws : tx_invalid (foldl (tx_stage limits) tx ws) = false →
  tx_invalid tx = false ∧ tx_tenantId (foldl (tx_stage limits) tx ws) = tx_tenantId tx ∧
  ∃ new, tx_staged (foldl (tx_stage limits) tx ws) = tx_staged tx ++ new ∧ Forall2 staged_as ws new.
Proof.
  revert tx. induction ws as [|w ws IH]; intros tx Hv; cbn [foldl] in *.
  { split; [done|]. split; [done|]. exists []. rewrite app_nil_r. by split. }
  destruct (IH _ Hv) as (Hw & Et & new & En & Hall). apply stage_valid in Hw as (Hi & Et' & s & Es & Hs).
  split; [done|]. split; [congruence|]. exists (s :: new). rewrite En, Es, <- app_assoc. split; [done|by constructor].
Qed.

Lemma stage_all_inv limits tx ws : tx_inv limits tx → tx_inv limits (foldl (tx_stage limits) tx ws).
Proof. revert tx. induction ws as [|w ws IH]; intros tx Hi; [done|]. by apply IH, tx_stage_inv. Qed.

(** A successful call of [transact] whose callback staged these writes. *)
Definition commits (st : Store) (tenantId : jstr) (ws : list StoreWrite) (st' : Store) : Prop :=
  ∃ clock u, bounded (s_limits st) tenantId ∧
    finish_transact st (foldl (tx_stage (s_limits st)) (new_tx tenantId) ws) (Some u) clock = (st', store_ok (T := unit) u).

Definition find_record (st : Store) (t n k : jstr) : option StoredRecord := publicRecord <$> recordFor (s_tenants st) t n k.

#[export] Instance preproduction_store : TransactionalStore := {|
  ts_state := Store;
  ts_inv st := store_inv st ∧ 0 <= maxTransactionWrites (s_limits st);
  ts_find := find_record;
  ts_commit := commits |}.

(** What a commit did, in terms of the writes the callback staged. *)
Lemma commits_spec st t ws st' : store_inv st → 0 <= maxTransactionWrites (s_limits st) → commits st t ws st' →
  store_inv st' ∧ s_limits st' = s_limits st ∧
  ∃ now staged, Forall2 staged_as ws staged ∧ NoDup (map slot staged) ∧
    (∀ s, s ∈ staged → expectation_fails (st_expect s) (recordFor (s_tenants st) t (st_namespace s) (st_key s)) = false) ∧
    (∀ s, s ∈ staged → recordFor (s_tenants st') t (st_namespace s) (st_key s) = written (s_tenants st) t now s) ∧
    (∀ t' n k, t' ≠ t ∨ (n, k) ∉ map slot staged → recordFor (s_tenants st') t' n k = recordFor (s_tenants st) t' n k).
Proof.
  intros Hs Hmax (clock & u & Hb & Hf). set (tx := foldl (tx_stage (s_limits st)) (new_tx t) ws) in *.
  assert (tx_inv (s_limits st) tx) as Htx by (apply stage_all_inv; split; [done|done|constructor|cbn; lia|constructor]).
  unfold finish_transact in Hf. destruct (commit st tx (Some u) clock) as [st1 out] eqn:Ec. injection Hf as <- ->.
  destruct (commit_inv _ _ _ _ _ _ Hs Htx Ec) as (Hs' & El & _).
  split; [by refine (store_inv_ext _ _ _ _ _ _ Hs')|]. split; [done|].
  apply commit_cases in Ec as [[_ (? & ? & [=])]|(value & now & _ & _ & _ & _ & _ & Hinv & He & _ & _ & _ & Et & _)].
  destruct (stage_all (s_limits st) (new_tx t) ws Hinv) as (_ & Etn & staged & Est & Hall). cbn [new_tx tx_tenantId tx_staged app] in Etn, Est.
  fold tx in Etn, Est. pose proof (ti_slots _ _ Htx) as Hnd. rewrite Est in Hnd. unfold expectations_hold in He. rewrite Est, Etn in *.
  exists now, staged. pose proof (λ t' n k, proj2 (recordFor_apply (s_tenants st) t now staged t' n k (si_wf _ Hs) Hnd)) as Hl.
  cbv zeta in Hl. cbn [set_active s_tenants]. rewrite Et. split; [done|]. split; [done|]. split; [done|]. split.
  - intros s Hin. rewrite Hl, bool_decide_eq_true_2 by done. by rewrite (write_for_elem _ _ Hnd Hin).
  - intros t' n k Hne. rewrite Hl. case_bool_decide as E; [|done].
    destruct Hne as [|Hne%write_for_none]; [congruence|]. by rewrite Hne.
Qed.

#[export] Instance preproduction_store_ok `{!Float64Ok H} : TransactionalStoreOk preproduction_store.
Proof.
  split.
  - intros s t ws s' [Hs Hmax] Hc. destruct (commits_spec _ _ _ _ Hs Hmax Hc) as (Hs' & El & _). split; [done|].
    cbn in *. by rewrite El.
  - intros s t n k r [Hs _]. cbn. unfold find_record. intros (i & Hi & ->)%fmap_Some. by apply (recordFor_names _ _ _ _ _ (si_wf _ Hs)) in Hi.
  - intros s t ws s' w [Hs Hmax] Hc Hw. destruct (commits_spec _ _ _ _ Hs Hmax Hc) as (_ & _ & now & staged & Hall & _ & He & _).
    apply list_elem_of_lookup in Hw as [i Hi]. destruct (Forall2_lookup_l _ _ _ _ _ Hall Hi) as (sg & Hsg & En & Ek & Ex & _).
    apply list_elem_of_lookup_2, He in Hsg. rewrite En, Ek, Ex in Hsg. unfold ts_find, preproduction_store, find_record.
    destruct (sw_expect w), (recordFor _ _ _ _) as [r|]; try done. cbn in Hsg |- *. bsimp. eexists. split; [done|]. by subst.
  - intros s t ws s' w [Hs Hmax] Hc Hw. destruct (commits_spec _ _ _ _ Hs Hmax Hc) as (_ & _ & now & staged & Hall & _ & _ & Hwr & _).
    apply list_elem_of_lookup in Hw as [i Hi]. destruct (Forall2_lookup_l _ _ _ _ _ Hall Hi) as (sg & Hsg & En & Ek & Ex & Ev).
    apply list_elem_of_lookup_2, Hwr in Hsg. rewrite En, Ek in Hsg. unfold ts_find, preproduction_store, find_record.
    rewrite Hsg. unfold written. rewrite Ev, En, Ek. destruct (sw_value w) as [v|]; cbn [fmap option_fmap option_map mbind option_bind]; [|done].
    eexists. split; [done|]. cbn [publicRecord sr_version sr_value ir_version ir_serializedValue].
    split; [destruct (recordFor (s_tenants s) t (sw_namespace w) (sw_key w)); reflexivity|].
    intros Hj. by rewrite (proj2 (stringify_parses v Hj)).
  - intros s t ws s' t' n k [Hs Hmax] Hc Hne. destruct (commits_spec _ _ _ _ Hs Hmax Hc) as (_ & _ & now & staged & Hall & _ & _ & _ & Hfr).
    unfold ts_find, preproduction_store, find_record. rewrite Hfr; [done|]. destruct Hne as [|Hne]; [by left|right].
    intros (sg & E & Hsg)%list_elem_of_fmap. apply list_elem_of_lookup in Hsg as [i Hi].
    destruct (Forall2_lookup_r _ _ _ _ _ Hall Hi) as (w & Hw & En & Ek & _). apply (Hne w); [by eapply list_elem_of_lookup_2|].
    unfold slot in E. by rewrite E, En, Ek.
Qed.

(** ** Startup *)

Inductive startup_step : Startup → Startup → Prop :=
| startup_enter st : startup_step st (run_enter st)
| startup_resume st caller st' : run_resume st caller = Some st' → startup_step st st'
| startup_leave st lease st' : run_leave st lease = Some st' → startup_step st st'.

(** The callers that wait behind promise [n]. *)
Definition queue_from (n tail : Z) : list (Z * Z) := map (λ i, (i, i - 1)) (seqZ (n + 1) (tail - n)).

(** The first [m] promises are resolved; the next caller may hold the lease. *)
Definition startup_inv (st : Startup) : Prop :=
  ∃ m, (∀ p, p ∈ su_resolved st ↔ 0 <= p <= m) ∧ 0 <= m <= su_tail st ∧
    ((su_leases st = [] ∧ su_waiting st = queue_from m (su_tail st)) ∨
     (m < su_tail st ∧ su_leases st = [(m + 1, su_epoch st)] ∧ su_waiting st = queue_from (m + 1) (su_tail st))).

Lemma queue_snoc n tail : n <= tail → queue_from n tail ++ [(tail + 1, tail)] = queue_from n (tail + 1).
Proof.
  intros Hn. unfold queue_from. replace (tail + 1 - n) with ((tail - n) + 1) by lia. rewrite <- seqZ_snoc by lia.
  rewrite map_app. cbn [map]. do 3 f_equal; lia.
Qed.

Lemma queue_elem n tail c : c ∈ queue_from n tail ↔ n < c.1 <= tail ∧ c.2 = c.1 - 1.
Proof.
  unfold queue_from. rewrite list_elem_of_fmap. setoid_rewrite elem_of_seqZ. split.
  - intros (i & -> & Hi). cbn. lia.
  - destruct c as [i j]. cbn. intros [Hi ->]. exists i. split; [done|lia].
Qed.

Lemma queue_cons n tail : n < tail → queue_from n tail = (n + 1, n) :: queue_from (n + 1) tail.
Proof.
  intros Hn. unfold queue_from. rewrite (seqZ_cons (n + 1)) by lia. cbn [map]. f_equal; [f_equal; lia|].
  f_equal. f_equal; lia.
Qed.

Lemma filter_leases (l : Z * Z) : List.filter (λ l', l' !== l) [l] = [].
Proof. cbn. by rewrite bool_decide_eq_true_2. Qed.

Lemma startup_step_inv st st' : startup_inv st → startup_step st st' → startup_inv st'.
Proof.
  intros (m & Hr & Hm & Hq) Hs. destruct Hs as [st|st c st' E|st l st' E].
  - exists m. cbn. split; [done|]. split; [lia|]. destruct Hq as [[El ->]|(Hlt & El & ->)]; [left|right].
    + by rewrite queue_snoc by lia.
    + rewrite queue_snoc by lia. split; [lia|done].
  - unfold run_resume in E. destruct (_ && _) eqn:Ec; [|done]. injection E as <-.
    apply andb_true_iff in Ec as [Hw%bool_decide_eq_true Hp%bool_decide_eq_true]. exists m. cbn. split; [done|]. split; [done|]. right.
    apply Hr in Hp.
    destruct Hq as [[-> Eq]|(Hlt & El & Eq)]; rewrite Eq in Hw |- *; apply queue_elem in Hw as [Hc1 Hc2]; [|lia].
    assert (c = (m + 1, m)) as -> by (destruct c as [i j]; cbn in *; f_equal; lia). split; [lia|]. split; [done|].
    rewrite queue_cons by lia. cbn [List.filter]. rewrite bool_decide_eq_true_2 by done. cbn [negb].
    apply filter_all. intros c' [Hc' _]%queue_elem. apply negb_true_iff, bool_decide_eq_false. intros ->. cbn in Hc'. lia.
  - unfold run_leave in E. destruct (bool_decide _) eqn:Ec; [|done]. bsimp. injection E as <-.
    destruct Hq as [[El _]|(Hlt & El & Eq)]; [rewrite El in Ec; by apply not_elem_of_nil in Ec|].
    rewrite El in Ec. apply list_elem_of_singleton in Ec as ->. exists (m + 1). cbn. split; [|split; [lia|]].
    + intros p. rewrite elem_of_cons, Hr. lia.
    + left. rewrite El, filter_leases. done.
Qed.

(** Startups are serialised. At most one caller of [runExclusive] holds a lease, its
    lease is the newest, and when none does, the first caller in the queue may go on. *)
Theorem startup_exclusive st :
  rtc startup_step new_startup st →
  (∀ l, isCurrent st l = true → su_leases st = [l] ∧ l.2 = su_epoch st) ∧
  (su_leases st = [] → ∀ c rest, su_waiting st = c :: rest →
   ∃ st', run_resume st c = Some st' ∧ isCurrent st' (c.1, su_epoch st + 1) = true).
Proof.
  intros Hrun.
  assert (startup_inv new_startup) as Hi.
  { exists 0. cbn. split; [|split; [lia|by left]]. intros p. rewrite list_elem_of_singleton. lia. }
  assert (startup_inv st) as (m & Hr & Hm & Hq).
  { revert Hi. induction Hrun as [|w1 w2 w3 Hs _ IH]; [done|]. intros Hi. by eapply IH, startup_step_inv. }
  split.
  - intros l. unfold isCurrent. rewrite bool_decide_eq_true. destruct Hq as [[-> _]|(_ & -> & _)]; [by intros ?%not_elem_of_nil|].
    by intros ->%list_elem_of_singleton.
  - intros El c rest Ew. destruct Hq as [[_ Eq]|(_ & El' & _)]; [|by rewrite El in El'].
    assert (c ∈ su_waiting st) as Hc by (rewrite Ew; by left). pose proof Hc as Hc'. rewrite Eq in Hc'.
    apply queue_elem in Hc' as [Hc1 Hc2]. rewrite Eq in Ew.
    assert (m < su_tail st) as Hlt by lia. rewrite queue_cons in Ew by lia. injection Ew as <- _.
    unfold run_resume. rewrite !bool_decide_eq_true_2; [|by apply Hr; cbn; lia|done]. cbn. eexists. split; [done|].
    unfold isCurrent. apply bool_decide_eq_true. by left.
Qed.
End interface.

(** ** Witnesses *)

#[local] Instance demo_float : Float64 := {|
  numeral_value m e := if e =? 0 then JInt m else JNaN;
  num_add a b := match a, b with JInt a, JInt b => JInt (a + b) | _, _ => JNaN end |}.

Definition demo_options : PreProductionProtocolStoreOptions := {|
  o_maxIdentifierBytes := None; o_maxRecords := Some (JInt 2); o_maxRecordValueBytes := None;
  o_maxTotalRecordValueBytes := None; o_maxTransactionWrites := None; o_maxConcurrentTransactions := None |}.

Definition demo_store0 : Store := {|
  s_limits := {| maxIdentifierBytes := 512; maxRecords := 2; maxRecordValueBytes := 2 * 1024 * 1024;
                 maxTotalRecordValueBytes := 64 * 1024 * 1024; maxTransactionWrites := 128; maxConcurrentTransactions := 32 |};
  s_tenants := []; s_opened := false; s_activeTransactions := 0; s_nextVersion := 0; s_recordCount := 0; s_totalValueBytes := 0 |}.

Definition demo_store1 : Store := (open_store demo_store0).1.
Definition demo_store2 : Store := (begin_transact demo_store1 (js "t")).1.

(** A transaction that writes one record, and one that updates it. *)
Definition demo_write (v : jsval) (expect : StoreExpectation) : StoreWrite :=
  {| sw_namespace := js "n"; sw_key := js "k"; sw_value := Some v; sw_expect := expect |}.
Definition demo_tx1 : Tx := tx_stage (s_limits demo_store2) (new_tx (js "t")) (demo_write VNull expect_absent).
Definition demo_store3 : Store := (finish_transact demo_store2 demo_tx1 (Some tt) (JInt 5)).1.
Definition demo_store4 : Store := (begin_transact demo_store3 (js "t")).1.
Definition demo_tx2 : Tx :=
  tx_stage (s_limits demo_store4) (new_tx (js "t")) (demo_write (VBool true) (expect_version (JInt 1))).

Definition demo_world (st : Store) (txs : list Tx) : World := {| w_store := st; w_running := txs |}.

Definition no_collation (a b : jstr) : Z := 0.

Lemma demo_run : rtc (store_step no_collation) (demo_world demo_store0 []) (demo_world demo_store4 [demo_tx2]).
Proof.
  eapply rtc_l; [apply step_open|]. eapply rtc_l; [apply (step_begin no_collation demo_store1 [] (js "t") demo_store2 (new_tx (js "t"))); vm_compute; reflexivity|].
  eapply rtc_l; [apply (step_stage no_collation demo_store2 [] (new_tx (js "t")) [] (demo_write VNull expect_absent))|].
  eapply rtc_l; [apply (step_finish no_collation demo_store2 [] demo_tx1 [] (Some tt) (JInt 5))|].
  eapply rtc_l; [apply (step_begin no_collation demo_store3 [] (js "t") demo_store4 (new_tx (js "t"))); vm_compute; reflexivity|].
  eapply rtc_l; [apply (step_stage no_collation demo_store4 [] (new_tx (js "t")) [] (demo_write (VBool true) (expect_version (JInt 1))))|].
  apply rtc_refl.
Qed.

Lemma protocol_store_invariant_witness : world_inv (demo_world demo_store4 [demo_tx2]).
Proof.
  apply (protocol_store_invariant no_collation demo_options demo_store0); [vm_compute; reflexivity|exact demo_run].
Defined.

(** The invariant without the theorem, for the other witnesses. *)
Lemma demo_world_inv : world_inv (demo_world demo_store4 [demo_tx2]).
Proof.
  assert (world_inv (demo_world demo_store0 [])) as Hi by (apply (create_inv demo_options); vm_compute; reflexivity).
  pose proof demo_run as Hr. revert Hi. induction Hr as [|w1 w2 w3 Hs _ IH]; [done|]. intros Hi. apply IH. by eapply store_step_inv.
Qed.

Definition demo_staged : StagedWrite := {|
  st_namespace := js "n"; st_key := js "k"; st_serializedValue := Some (js "true"); st_valueBytes := 4;
  st_expect := expect_version (JInt 1) |}.

Lemma commit_atomic_witness :
  recordFor (s_tenants (finish_transact demo_store4 demo_tx2 (Some tt) (JInt 9)).1) (js "t") (js "n") (js "k") =
    Some {| ir_namespace := js "n"; ir_tenantId := js "t"; ir_key := js "k"; ir_serializedValue := js "true";
            ir_valueBytes := 4; ir_version := 2; ir_updatedAtMs := 9 |}.
Proof.
  destruct demo_world_inv as (Hs & Ht & _). apply Forall_cons in Ht as [Ht _].
  destruct (commit_atomic demo_store4 (finish_transact demo_store4 demo_tx2 (Some tt) (JInt 9)).1 demo_tx2 (Some tt) (JInt 9)
              (store_ok tt) Hs Ht) as (_ & _ & Hw & _); [vm_compute; reflexivity|].
  etrans; [exact (Hw demo_staged ltac:(apply list_elem_of_singleton; vm_compute; reflexivity))|]. vm_compute. reflexivity.
Defined.

Definition demo_record : InternalStoredRecord := {|
  ir_namespace := js "n"; ir_tenantId := js "t"; ir_key := js "k"; ir_serializedValue := js "null";
  ir_valueBytes := 4; ir_version := 1; ir_updatedAtMs := 5 |}.

Lemma no_lost_update_witness :
  recordFor (s_tenants demo_store4) (js "t") (js "n") (js "k") = Some demo_record.
Proof.
  destruct (no_lost_update no_collation (demo_world demo_store4 [demo_tx2]) (demo_world demo_store4 [demo_tx2]) [] demo_tx2 []
              (Some tt) (JInt 9) (finish_transact demo_store4 demo_tx2 (Some tt) (JInt 9)).1 (js "t") (js "n") (js "k") demo_record
              demo_staged tt) as [Hr _].
  - exact demo_world_inv.
  - vm_compute. reflexivity.
  - apply rtc_refl.
  - reflexivity.
  - vm_compute. reflexivity.
  - apply list_elem_of_singleton. vm_compute. reflexivity.
  - reflexivity.
  - reflexivity.
  - vm_compute. reflexivity.
  - exact Hr.
Defined.

Lemma startup_exclusive_witness :
  su_leases (default new_startup (run_resume (run_enter (run_enter new_startup)) (1, 0))) = [(1, 1)].
Proof.
  refine (proj1 (proj1 (startup_exclusive (default new_startup (run_resume (run_enter (run_enter new_startup)) (1, 0))) _) (1, 1) _)).
  - eapply rtc_l; [apply startup_enter|]. eapply rtc_l; [apply startup_enter|].
    eapply rtc_l; [apply (startup_resume _ (1, 0)); reflexivity|]. apply rtc_refl.
  - reflexivity.
Defined.
End ProtocolStoreFacts.
