(* ===== verification/Identifiers.v ===== *)
(** Identifiers of invocations, events and confirmations:
    packages/gateway/src/identifiers.ts.

    The random bytes of a new identifier are an argument. *)

From S2P Require Import Prelude JsString JsValue.

Module Identifiers.

(** [/^[0-9a-f]{8}-[0-9a-f]{4}-7[0-9a-f]{3}-[89ab][0-9a-f]{3}-[0-9a-f]{12}$/], one
    test per character. *)
Definition hex_class (c : Z) : bool := is_lower_hex c.
Definition variant_class (c : Z) : bool := (c =? 56) || (c =? 57) || (c =? 97) || (c =? 98).

Definition UUID_V7_PATTERN : list (Z → bool) :=
  replicate 8 hex_class ++ [Z.eqb 45] ++ replicate 4 hex_class ++ [Z.eqb 45] ++
  [Z.eqb 55] ++ replicate 3 hex_class ++ [Z.eqb 45] ++
  [variant_class] ++ replicate 3 hex_class ++ [Z.eqb 45] ++ replicate 12 hex_class.

Fixpoint matches (pattern : list (Z → bool)) (value : jstr) : bool :=
  match pattern, value with
  | [], [] => true
  | p :: pattern, c :: value => p c && matches pattern value
  | _, _ => false
  end.

Definition isGatewayUuidV7 (value : jstr) : bool := matches UUID_V7_PATTERN value.

(** [bytes.toString("hex")] *)
Definition byte_hex (b : Z) : jstr := [hex_digit (b / 16); hex_digit (b mod 16)].
Definition toHex (bytes : list Z) : jstr := bytes ≫= byte_hex.

(** [bytes.writeUIntBE(timestampMs, 0, 6)] writes the first six bytes. *)
Definition timestamp_bytes (t : Z) : list Z :=
  [t / 2 ^ 40; t / 2 ^ 32 mod 256; t / 2 ^ 24 mod 256; t / 2 ^ 16 mod 256; t / 2 ^ 8 mod 256; t mod 256].

Definition set_byte (bytes : list Z) (i : nat) (f : Z → Z) : list Z :=
  match bytes !! i with Some b => <[i := f b]> bytes | None => bytes end.

Definition gatewayUuidV7 (randomBytes : list Z) (timestampMs : jsnum) : result js_error jstr :=
  reject_if (negb (isSafeInteger timestampMs) || (num_Z timestampMs <? 0) || (2 ^ 48 <=? num_Z timestampMs)) TypeError
    "UUIDv7 timestamp must be a non-negative 48-bit integer" ;;
  let bytes := timestamp_bytes (num_Z timestampMs) ++ drop 6 randomBytes in
  let bytes := set_byte bytes 6 (λ b, Z.lor (Z.land b 0x0f) 0x70) in
  let bytes := set_byte bytes 8 (λ b, Z.lor (Z.land b 0x3f) 0x80) in
  let hex := toHex bytes in
  Ok (take 8 hex ++ js "-" ++ take 4 (drop 8 hex) ++ js "-" ++ take 4 (drop 12 hex) ++ js "-" ++
      take 4 (drop 16 hex) ++ js "-" ++ drop 20 hex).
End Identifiers.

(** * Facts *)

Module IdentifiersFacts.
Import Identifiers.

Definition is_byte (b : Z) : Prop := 0 <= b < 256.

Lemma hex_digit_class d : 0 <= d < 16 → hex_class (hex_digit d) = true.
Proof.
  intros Hd. unfold hex_class, is_lower_hex, is_digit, hex_digit. destruct (Z.ltb_spec d 10).
  - apply orb_true_iff. left. rewrite andb_true_iff, !Z.leb_le. lia.
  - apply orb_true_iff. right. rewrite andb_true_iff, !Z.leb_le. lia.
Qed.

Lemma byte_digits b : is_byte b → hex_class (hex_digit (b / 16)) = true ∧ hex_class (hex_digit (b mod 16)) = true.
Proof. unfold is_byte. intros Hb. split; apply hex_digit_class; div_lia. Qed.

(** A property of bytes checked on all of them. *)
Lemma all_bytes (p : Z → bool) : forallb p (seqZ 0 256) = true → ∀ b, is_byte b → p b = true.
Proof. rewrite forallb_true. intros Hp b Hb. apply Hp, elem_of_seqZ. unfold is_byte in Hb. lia. Qed.

Lemma version_byte b : is_byte b →
  hex_digit (Z.lor (Z.land b 0x0f) 0x70 / 16) = 55 ∧ is_byte (Z.lor (Z.land b 0x0f) 0x70).
Proof.
  intros Hb. pose proof (all_bytes (λ b, let v := Z.lor (Z.land b 0x0f) 0x70 in
    (hex_digit (v / 16) =? 55) && (0 <=? v) && (v <? 256)) ltac:(vm_compute; reflexivity) b Hb) as E.
  cbv beta zeta in E. unfold is_byte. bsimp. split; [done|lia].
Qed.

Lemma variant_byte b : is_byte b →
  variant_class (hex_digit (Z.lor (Z.land b 0x3f) 0x80 / 16)) = true ∧ is_byte (Z.lor (Z.land b 0x3f) 0x80).
Proof.
  intros Hb. pose proof (all_bytes (λ b, let v := Z.lor (Z.land b 0x3f) 0x80 in
    variant_class (hex_digit (v / 16)) && (0 <=? v) && (v <? 256)) ltac:(vm_compute; reflexivity) b Hb) as E.
  cbv beta zeta in E. unfold is_byte. bsimp. split; [done|lia].
Qed.

(** The sixteen bytes of an identifier. *)
Lemma uuid_bytes r t : 0 <= t < 2 ^ 48 → length r = 16%nat → Forall is_byte r →
  ∃ b6 b7 b8 b9 b10 b11 b12 b13 b14 b15, Forall is_byte [b6; b7; b8; b9; b10; b11; b12; b13; b14; b15] ∧
    hex_digit (b6 / 16) = 55 ∧ variant_class (hex_digit (b8 / 16)) = true ∧
    let hi := toHex (take 4 (timestamp_bytes t)) in
    let lo := toHex (drop 4 (timestamp_bytes t)) in
    gatewayUuidV7 r (JInt t) =
      Ok (hi ++ 45 :: lo ++ 45 :: toHex [b6; b7] ++ 45 :: toHex [b8; b9] ++
          45 :: toHex [b10; b11; b12; b13; b14; b15]).
Proof.
  intros Ht Hl Hb.
  destruct r as [|r0 [|r1 [|r2 [|r3 [|r4 [|r5 [|r6 [|r7 [|r8 [|r9 [|r10 [|r11 [|r12 [|r13 [|r14 [|r15 [|]]]]]]]]]]]]]]]]]; try done.
  repeat match goal with Hf : Forall is_byte (_ :: _) |- _ => apply Forall_cons in Hf as [? Hf] end.
  destruct (version_byte r6) as [V6 B6]; [done|]. destruct (variant_byte r8) as [V8 B8]; [done|].
  exists (Z.lor (Z.land r6 0x0f) 0x70), r7, (Z.lor (Z.land r8 0x3f) 0x80), r9, r10, r11, r12, r13, r14, r15.
  split; [repeat (apply Forall_cons_2; [assumption|]); constructor|]. split; [exact V6|]. split; [exact V8|]. cbv zeta.
  unfold gatewayUuidV7. assert (negb (isSafeInteger (JInt t)) || (num_Z (JInt t) <? 0) || (2 ^ 48 <=? num_Z (JInt t)) = false) as ->.
  { unfold isSafeInteger, MAX_SAFE_INTEGER. cbn [num_Z]. rewrite !orb_false_iff, negb_false_iff, andb_true_iff, !Z.leb_le, Z.ltb_ge, Z.leb_gt. lia. }
  reflexivity.
Qed.

(** A generated identifier has the form every consumer tests for. *)
Theorem uuid_v7_wellformed r t :
  0 <= t < 2 ^ 48 → length r = 16%nat → Forall is_byte r →
  ∃ id, gatewayUuidV7 r (JInt t) = Ok id ∧ isGatewayUuidV7 id = true.
Proof.
  intros Ht Hl Hb. destruct (uuid_bytes r t Ht Hl Hb)
    as (b6 & b7 & b8 & b9 & b10 & b11 & b12 & b13 & b14 & b15 & Hbs & H6 & H8 & E).
  cbv zeta in E. rewrite E. eexists. split; [reflexivity|].
  assert (Forall is_byte (timestamp_bytes t)) as Hts by (unfold timestamp_bytes, is_byte; repeat constructor; div_lia).
  unfold timestamp_bytes in *.
  repeat match goal with Hf : Forall is_byte (_ :: _) |- _ =>
    let Hx := fresh in apply Forall_cons in Hf as [Hx%byte_digits Hf]; destruct Hx end.
  cbn [toHex mbind list_bind take drop byte_hex app]. unfold isGatewayUuidV7, UUID_V7_PATTERN.
  cbn [replicate app matches]. rewrite H6, H8.
  repeat match goal with Hx : hex_class _ = true |- _ => rewrite Hx; clear Hx end. reflexivity.
Qed.

(** ** Order *)

Lemma str_ltb_same x a b : str_ltb (x ++ a) (x ++ b) = str_ltb a b.
Proof. induction x as [|c x IH]; cbn; [done|]. by rewrite Z.ltb_irrefl, Z.eqb_refl. Qed.

Lemma str_ltb_prefix x y a b : length x = length y → str_ltb x y = true → str_ltb (x ++ a) (y ++ b) = true.
Proof.
  revert y. induction x as [|c x IH]; intros [|d y]; cbn; try done. intros [= Hl].
  rewrite !orb_true_iff, !andb_true_iff. intros [?|[? ?]]; auto.
Qed.

Definition big_endian (bs : list Z) : Z := foldl (λ n b, n * 256 + b) 0 bs.

Lemma big_endian_snoc bs b : big_endian (bs ++ [b]) = big_endian bs * 256 + b.
Proof. unfold big_endian. by rewrite foldl_app. Qed.

Lemma hex_digit_mono d e : 0 <= d < 16 → 0 <= e < 16 → d < e → hex_digit d < hex_digit e.
Proof. unfold hex_digit. destruct (Z.ltb_spec d 10), (Z.ltb_spec e 10); lia. Qed.

Lemma byte_hex_mono a b : is_byte a → is_byte b → a < b → str_ltb (byte_hex a) (byte_hex b) = true.
Proof.
  unfold is_byte. intros Ha Hb Hlt. cbn. rewrite orb_true_iff, andb_true_iff, Z.ltb_lt, Z.eqb_eq.
  destruct (Z.lt_ge_cases (a / 16) (b / 16)) as [H|H]; [left; apply hex_digit_mono; div_lia|].
  assert (a / 16 = b / 16) as -> by div_lia. right. split; [done|]. rewrite orb_true_iff, Z.ltb_lt. left. apply hex_digit_mono; div_lia.
Qed.

Lemma toHex_length zs : length (toHex zs) = (2 * length zs)%nat.
Proof. unfold toHex. induction zs as [|z zs IH]; [done|]. rewrite bind_cons, length_app, IH. cbn. lia. Qed.

Lemma big_endian_inj xs ys : length xs = length ys → Forall is_byte xs → Forall is_byte ys →
  big_endian xs = big_endian ys → xs = ys.
Proof.
  revert ys. induction xs as [|a xs IH] using rev_ind; intros ys El Hxs Hys Eb; [by destruct ys|].
  destruct ys as [|b ys _] using rev_ind; [rewrite length_app in El; cbn in El; lia|].
  rewrite !length_app in El. cbn in El. rewrite !big_endian_snoc in Eb.
  apply Forall_app in Hxs as [Hxs Ha], Hys as [Hys Hb]. apply Forall_cons in Ha as [Ha _], Hb as [Hb _]. unfold is_byte in *.
  assert (big_endian xs = big_endian ys ∧ a = b) as [E ->] by lia. rewrite (IH ys); [done|lia|done..].
Qed.

(** Hexadecimal text of as many bytes is ordered as the numbers are. *)
Lemma toHex_mono xs ys : length xs = length ys → Forall is_byte xs → Forall is_byte ys →
  big_endian xs < big_endian ys → str_ltb (toHex xs) (toHex ys) = true.
Proof.
  revert ys. induction xs as [|x xs IH] using rev_ind; intros ys Hl Hx Hy Hlt.
  { destruct ys; [unfold big_endian in Hlt; cbn in Hlt; lia|done]. }
  destruct ys as [|y ys _] using rev_ind; [rewrite length_app in Hl; cbn in Hl; lia|].
  rewrite !length_app in Hl. cbn in Hl. rewrite !big_endian_snoc in Hlt.
  apply Forall_app in Hx as [Hxs Hx], Hy as [Hys Hy]. apply Forall_cons in Hx as [Hx _], Hy as [Hy _].
  unfold toHex. rewrite !bind_app. fold (toHex xs) (toHex ys).
  destruct (Z.lt_ge_cases (big_endian xs) (big_endian ys)) as [Hb|Hb].
  - apply str_ltb_prefix; [|apply IH; try done; lia].
    rewrite !toHex_length. lia.
  - assert (big_endian xs = big_endian ys) as Eb by (unfold is_byte in *; lia).
    assert (xs = ys) as -> by (apply big_endian_inj; try done; lia).
    rewrite str_ltb_same. cbn [mbind list_bind]. rewrite !app_nil_r. apply byte_hex_mono; try done. unfold is_byte in *. lia.
Qed.

Lemma Ok_inj {E A} (a b : A) : Ok (E := E) a = Ok b → a = b.
Proof. by intros [= ->]. Qed.

(** Identifiers sort by the time they were made, whatever their random bytes. *)
Theorem uuid_v7_orders_by_time r1 r2 t1 t2 id1 id2 :
  length r1 = 16%nat → Forall is_byte r1 → length r2 = 16%nat → Forall is_byte r2 →
  0 <= t1 → t1 < t2 → t2 < 2 ^ 48 →
  gatewayUuidV7 r1 (JInt t1) = Ok id1 → gatewayUuidV7 r2 (JInt t2) = Ok id2 → str_ltb id1 id2 = true.
Proof.
  intros Hl1 Hb1 Hl2 Hb2 H0 Hlt Ht E1 E2.
  destruct (uuid_bytes r1 t1) as (? & ? & ? & ? & ? & ? & ? & ? & ? & ? & _ & _ & _ & F1); [lia|done..|].
  destruct (uuid_bytes r2 t2) as (? & ? & ? & ? & ? & ? & ? & ? & ? & ? & _ & _ & _ & F2); [lia|done..|].
  cbv zeta in F1, F2. rewrite F1 in E1. rewrite F2 in E2. apply Ok_inj in E1 as <-, E2 as <-. clear F1 F2.
  assert (∀ t, 0 <= t < 2 ^ 48 → Forall is_byte (timestamp_bytes t) ∧
            big_endian (take 4 (timestamp_bytes t)) = t / 2 ^ 16 ∧ big_endian (drop 4 (timestamp_bytes t)) = t mod 2 ^ 16) as Hts.
  { intros t Hr. unfold timestamp_bytes, big_endian, is_byte. cbn [take drop foldl]. split; [repeat constructor; div_lia|]. div_lia. }
  destruct (Hts t1) as (B1 & Hi1 & Lo1); [lia|]. destruct (Hts t2) as (B2 & Hi2 & Lo2); [lia|].
  destruct (Z.lt_ge_cases (t1 / 2 ^ 16) (t2 / 2 ^ 16)) as [Hh|Hh].
  - apply str_ltb_prefix; [done|]. apply toHex_mono; [done|by apply Forall_take..|lia].
  - assert (t1 / 2 ^ 16 = t2 / 2 ^ 16) as Eh by div_lia.
    assert (take 4 (timestamp_bytes t1) = take 4 (timestamp_bytes t2)) as ->.
    { apply big_endian_inj; [done|by apply Forall_take..|lia]. }
    rewrite str_ltb_same. cbn [str_ltb]. rewrite Z.ltb_irrefl, Z.eqb_refl. cbn [orb andb].
    apply str_ltb_prefix; [done|]. apply toHex_mono; [done|by apply Forall_drop..|]. rewrite Lo1, Lo2. div_lia.
Qed.

Definition demo_random : list Z := replicate 16 171.

Lemma uuid_v7_wellformed_witness :
  ∃ id, gatewayUuidV7 demo_random (JInt 1700000000000) = Ok id ∧ isGatewayUuidV7 id = true.
Proof.
  apply (uuid_v7_wellformed demo_random 1700000000000); [lia|reflexivity|].
  unfold is_byte. repeat constructor; lia.
Defined.

Lemma uuid_v7_orders_by_time_witness :
  str_ltb (js "018bcfe5-6800-7bab-abab-abababababab") (js "018bcfe5-6801-7bab-abab-abababababab") = true.
Proof.
  apply (uuid_v7_orders_by_time demo_random demo_random 1700000000000 1700000000001);
    try (unfold is_byte; repeat constructor; lia); vm_compute; reflexivity.
Defined.
End IdentifiersFacts.
