(* ===== verification/InvocationContext.v ===== *)
(** The authority under which the gateway runs an invocation:
    packages/gateway/src/invocationContext.ts, with the identity types of
    authContext.ts and the policy types of registry.ts.

    Scopes and dispatch proofs are objects whose identity counts, so both carry the
    address of the object. *)

From stdpp Require Import gmap.
From S2P Require Import Prelude JsString JsValue Canonical Sha256 Identifiers.

Module InvocationContext.
Import Canonical Identifiers.

(** ** Data *)

Inductive GatewayRole := role_user | role_tenant_admin | role_vendor_admin.
Inductive GatewayClientType := client_web | client_mcp | client_bridge.

#[export] Instance GatewayClientType_eq_dec : EqDecision GatewayClientType.
Proof. solve_decision. Defined.

Record AuthActor := {
  ac_type : jstr; ac_tenantId : jstr; ac_userId : jstr; ac_role : GatewayRole;
  ac_oidcIssuer : jstr; ac_oidcSubject : jstr }.

Record AuthSession := {
  as_sessionId : jstr; as_clientType : GatewayClientType;
  as_mcpSessionId : option jstr; as_oauthClientId : option jstr }.

Record AuthContext := {
  au_contractVersion : jstr; au_actor : AuthActor; au_session : AuthSession;
  au_principalKey : jstr; au_issuedAtMs : Z; au_expiresAtMs : option Z }.

Definition GATEWAY_AUTH_CONTRACT_VERSION : jstr := js "revagent.auth-context/v1".

Inductive GatewayPolicyClass := class_auto | class_confirm | class_gated.
Inductive GatewayMutationScopePolicy := policy_none | policy_document | policy_session.
Inductive GatewayExecutorBinding := executor_bridge | executor_internal_mcp | executor_aps.
Inductive PolicyDecision := decided_auto | decided_preview | decided_confirmed | decided_gated_approved | decided_denied.

#[export] Instance GatewayPolicyClass_eq_dec : EqDecision GatewayPolicyClass.
Proof. solve_decision. Defined.
#[export] Instance GatewayMutationScopePolicy_eq_dec : EqDecision GatewayMutationScopePolicy.
Proof. solve_decision. Defined.
#[export] Instance PolicyDecision_eq_dec : EqDecision PolicyDecision.
Proof. solve_decision. Defined.

Record EffectiveMcpRequestScopeV1 := {
  es_object : Z;
  es_frozen : bool;
  es_contractVersion : jstr;
  es_principalKey : jstr;
  es_effectiveMcpSessionId : jstr;
  es_transportMcpSessionId : option jstr;
  es_identityMcpSessionId : option jstr }.

Definition SCOPE_CONTRACT_VERSION : jstr := js "revagent.effective-mcp-request-scope/v1".

(** [unknown_document] is a value of no kind the type admits. *)
Inductive GatewayDocumentIdentity :=
| live_document (session_document_id : jstr)
| published_document (acc_project_id item_urn version_urn : jstr) (version_number : jsnum)
| unknown_document (kind : jstr).

Inductive GatewayMutationScope :=
| session_scope
| document_scope (document_id : jstr).

#[export] Instance GatewayMutationScope_eq_dec : EqDecision GatewayMutationScope.
Proof. solve_decision. Defined.

Record GatewayInvocationRoute := {
  ro_tenantId : jstr; ro_principalKey : jstr; ro_mcpSessionId : jstr;
  ro_scope : EffectiveMcpRequestScopeV1; ro_rsid : jstr; ro_documentIdentity : GatewayDocumentIdentity }.

Record GatewayInvocationContext := {
  ic_invocationId : jstr; ic_idempotencyKey : jstr; ic_principalKey : jstr;
  ic_tenantId : jstr; ic_userId : jstr; ic_role : GatewayRole;
  ic_gatewaySessionId : jstr; ic_oauthClientId : jstr; ic_mcpSessionId : jstr;
  ic_scope : EffectiveMcpRequestScopeV1; ic_rsid : jstr; ic_toolName : jstr; ic_toolVersion : jstr;
  ic_policyClass : GatewayPolicyClass; ic_policyDecision : PolicyDecision;
  ic_confirmationId : option jstr; ic_originatingPreviewInvocationId : option jstr;
  ic_mutationScopePolicy : GatewayMutationScopePolicy; ic_mutating : bool;
  ic_executor : GatewayExecutorBinding; ic_documentIdentity : GatewayDocumentIdentity;
  ic_paramsDigest : jstr; ic_mutationScope : option GatewayMutationScope; ic_startedAtMs : Z }.

(** ** Errors *)

Inductive GatewayInvocationContextErrorCode :=
| document_scope_mismatch | expired_auth_context | invalid_auth_context | invalid_document_identity
| mcp_session_binding_mismatch | invalid_invocation_route | mutation_scope_policy_unsupported
| session_binding_mismatch | tenant_binding_mismatch.

#[export] Instance GatewayInvocationContextErrorCode_eq_dec : EqDecision GatewayInvocationContextErrorCode.
Proof. solve_decision. Defined.

(** An error of this module, or one thrown by the digest or the identifier. *)
Inductive context_error :=
| GatewayInvocationContextError (code : GatewayInvocationContextErrorCode) (message : jstr)
| other_error (e : js_error).

Definition refuse_if (cond : bool) (code : GatewayInvocationContextErrorCode) (message : string)
  : result context_error unit :=
  throw_if cond (GatewayInvocationContextError code (js message)).

Definition rethrow {A} (r : result js_error A) : result context_error A :=
  match r with Ok a => Ok a | Throw e => Throw (other_error e) end.

(** ** Scopes *)

Definition requireBoundedString (value : jstr) (name : string) (code : GatewayInvocationContextErrorCode)
    (maxLength : Z) : result context_error unit :=
  let n := Z.of_nat (length value) in
  throw_if ((n <? 1) || (maxLength <? n) || (trim value !== value))
    (GatewayInvocationContextError code
       (js name ++ js " must be a non-empty, trimmed string of at most " ++ dec maxLength ++ js " characters")).

Definition requireOptional (value : option jstr) (name : string) (code : GatewayInvocationContextErrorCode)
  : result context_error unit :=
  match value with None => Ok tt | Some s => requireBoundedString s name code 512 end.

Definition sessions_conflict (transport identity : option jstr) : bool :=
  match transport, identity with Some t, Some i => t !== i | _, _ => false end.

Definition assertEffectiveMcpRequestScopeV1 (scope : EffectiveMcpRequestScopeV1) (auth : AuthContext)
    (mcpSessionId : jstr) : result context_error unit :=
  refuse_if (negb (es_frozen scope) || (es_contractVersion scope !== SCOPE_CONTRACT_VERSION)) invalid_invocation_route
    "effective MCP request scope must be a frozen v1 authority object" ;;
  requireBoundedString (es_principalKey scope) "effective scope principalKey" invalid_auth_context 512 ;;
  requireBoundedString (es_effectiveMcpSessionId scope) "effective MCP sessionId" invalid_invocation_route 512 ;;
  requireOptional (es_transportMcpSessionId scope) "effective transport MCP sessionId" invalid_invocation_route ;;
  requireOptional (es_identityMcpSessionId scope) "effective identity MCP sessionId" invalid_invocation_route ;;
  refuse_if ((es_principalKey scope !== au_principalKey auth) || (mcpSessionId !== es_effectiveMcpSessionId scope))
    mcp_session_binding_mismatch "dispatch MCP authority does not match the effective ingress scope" ;;
  refuse_if (sessions_conflict (es_transportMcpSessionId scope) (es_identityMcpSessionId scope))
    mcp_session_binding_mismatch "effective MCP scope has conflicting transport and identity sessions".

(** The new object has a new address; the random bytes are those of the identifier. *)
Definition createEffectiveMcpRequestScopeV1 (address : Z) (randomBytes : list Z) (principalKey : jstr)
    (transportMcpSessionId identityMcpSessionId : option jstr) (nowMs : jsnum)
  : result context_error EffectiveMcpRequestScopeV1 :=
  requireBoundedString principalKey "principalKey" invalid_auth_context 512 ;;
  requireOptional transportMcpSessionId "transport MCP sessionId" invalid_invocation_route ;;
  requireOptional identityMcpSessionId "identity MCP sessionId" invalid_invocation_route ;;
  refuse_if (sessions_conflict transportMcpSessionId identityMcpSessionId) mcp_session_binding_mismatch
    "transport MCP session does not match the authenticated identity session" ;;
  refuse_if (negb (isSafeInteger nowMs) || (num_Z nowMs <? 0)) invalid_invocation_route
    "effective MCP scope clock must return a non-negative safe integer" ;;
  effective ← match transportMcpSessionId, identityMcpSessionId with
              | Some t, _ => Ok t
              | None, Some i => Ok i
              | None, None =>
                  id ← rethrow (gatewayUuidV7 randomBytes nowMs); Ok (js "stateless-request:" ++ id)
              end;
  Ok {| es_object := address; es_frozen := true; es_contractVersion := SCOPE_CONTRACT_VERSION;
        es_principalKey := principalKey; es_effectiveMcpSessionId := effective;
        es_transportMcpSessionId := transportMcpSessionId; es_identityMcpSessionId := identityMcpSessionId |}.

(** ** Invocations *)

Definition validateDocumentIdentity (identity : GatewayDocumentIdentity) : result context_error GatewayDocumentIdentity :=
  match identity with
  | live_document id =>
      requireBoundedString id "session_document_id" invalid_document_identity 512 ;; Ok identity
  | unknown_document _ =>
      Throw (GatewayInvocationContextError invalid_document_identity (js "document identity kind must be live or published"))
  | published_document project item version number =>
      requireBoundedString project "acc_project_id" invalid_document_identity 512 ;;
      requireBoundedString item "item_urn" invalid_document_identity 2048 ;;
      requireBoundedString version "version_urn" invalid_document_identity 2048 ;;
      refuse_if (negb (isSafeInteger number) || (num_Z number <? 1)) invalid_document_identity
        "version_number must be a positive safe integer" ;;
      Ok identity
  end.

Record GatewayInvocationAuthority := {
  ga_documentIdentity : GatewayDocumentIdentity;
  ga_mutationScopePolicy : GatewayMutationScopePolicy;
  ga_mutating : bool;
  ga_mutationScope : option GatewayMutationScope }.

Definition mutation_scope (policy : GatewayMutationScopePolicy) (identity : GatewayDocumentIdentity)
  : option GatewayMutationScope :=
  match policy with
  | policy_none => None
  | policy_session => Some session_scope
  | policy_document => match identity with live_document id => Some (document_scope id) | _ => None end
  end.

Definition expired (auth : AuthContext) (startedAtMs : Z) : bool :=
  match au_expiresAtMs auth with Some t => t <=? startedAtMs | None => false end.

Definition deriveGatewayInvocationAuthority (auth : AuthContext) (route : GatewayInvocationRoute) (mcpSessionId : jstr)
    (scope : EffectiveMcpRequestScopeV1) (policy : GatewayMutationScopePolicy) (startedAtMs : Z)
  : result context_error GatewayInvocationAuthority :=
  assertEffectiveMcpRequestScopeV1 scope auth mcpSessionId ;;
  refuse_if (negb (es_object (ro_scope route) =? es_object scope)) mcp_session_binding_mismatch
    "invocation route did not retain the ingress effective MCP scope" ;;
  refuse_if ((ac_type (au_actor auth) !== js "user") || (as_clientType (au_session auth) !== client_mcp)) invalid_auth_context
    "Gateway invocation requires a north MCP user AuthContext" ;;
  refuse_if (expired auth startedAtMs) expired_auth_context "Gateway invocation AuthContext has expired" ;;
  refuse_if (is_null (as_oauthClientId (au_session auth))) invalid_auth_context
    "Gateway invocation AuthContext is missing oauthClientId" ;;
  requireBoundedString (au_principalKey auth) "principalKey" invalid_auth_context 512 ;;
  requireBoundedString (ac_tenantId (au_actor auth)) "actor tenantId" invalid_auth_context 512 ;;
  requireBoundedString (ac_userId (au_actor auth)) "actor userId" invalid_auth_context 512 ;;
  requireBoundedString (as_sessionId (au_session auth)) "Gateway sessionId" invalid_auth_context 512 ;;
  requireBoundedString (ro_tenantId route) "route tenantId" invalid_invocation_route 512 ;;
  requireBoundedString (ro_principalKey route) "route principalKey" invalid_invocation_route 512 ;;
  requireBoundedString mcpSessionId "MCP sessionId" invalid_invocation_route 512 ;;
  requireBoundedString (ro_mcpSessionId route) "route mcpSessionId" invalid_invocation_route 512 ;;
  requireBoundedString (ro_rsid route) "route rsid" invalid_invocation_route 512 ;;
  refuse_if (ro_tenantId route !== ac_tenantId (au_actor auth)) tenant_binding_mismatch
    "invocation route tenant does not match the authenticated actor" ;;
  refuse_if (ro_principalKey route !== au_principalKey auth) session_binding_mismatch
    "invocation route principal does not match the authenticated actor" ;;
  refuse_if (ro_mcpSessionId route !== mcpSessionId) session_binding_mismatch
    "invocation route MCP session does not match the active MCP session" ;;
  refuse_if (match as_mcpSessionId (au_session auth) with Some id => mcpSessionId !== id | None => false end)
    session_binding_mismatch "invocation route MCP session does not match the authenticated session" ;;
  documentIdentity ← validateDocumentIdentity (ro_documentIdentity route);
  let mutationScope := mutation_scope policy documentIdentity in
  refuse_if ((policy === policy_document) && is_null mutationScope) mutation_scope_policy_unsupported
    "document-scoped mutation requires one exact live session document" ;;
  Ok {| ga_documentIdentity := documentIdentity; ga_mutationScopePolicy := policy;
        ga_mutating := negb (is_null mutationScope); ga_mutationScope := mutationScope |}.

(** The other fields of the input of [createGatewayInvocationContext]. *)
Record InvocationInput := {
  in_invocationId : jstr; in_toolName : jstr; in_toolVersion : jstr;
  in_policyClass : GatewayPolicyClass; in_policyDecision : option PolicyDecision;
  in_confirmationId : option jstr; in_originatingPreviewInvocationId : option jstr;
  in_mutationScopePolicy : GatewayMutationScopePolicy; in_executor : GatewayExecutorBinding;
  in_args : jsval; in_startedAtMs : Z }.

Definition default_decision (c : GatewayPolicyClass) : PolicyDecision :=
  match c with class_auto => decided_auto | class_confirm => decided_preview | class_gated => decided_denied end.

Definition decision_mismatch (d : PolicyDecision) (c : GatewayPolicyClass) : bool :=
  match d with
  | decided_auto => c !== class_auto
  | decided_preview | decided_confirmed => c !== class_confirm
  | decided_gated_approved => c !== class_gated
  | decided_denied => false
  end.

(** The tests of the confirmation identities. *)
Definition confirmation_identities (d : PolicyDecision) (confirmationId preview : option jstr)
  : result context_error unit :=
  if d === decided_confirmed then
    match confirmationId, preview with
    | Some c, Some p =>
        requireBoundedString c "confirmationId" invalid_invocation_route 512 ;;
        requireBoundedString p "originatingPreviewInvocationId" invalid_invocation_route 512
    | _, _ => refuse_if true invalid_invocation_route "confirmed policy requires confirmation and preview identities"
    end
  else
    refuse_if (negb (is_null confirmationId) || negb (is_null preview)) invalid_invocation_route
      "only a confirmed policy may carry confirmation identities".

Section context.
Context `{Hasher}.

Definition canonicalParamsDigest (value : jsval) : result js_error jstr := makeParamsDigest value.

Definition createGatewayInvocationContext (auth : AuthContext) (route : GatewayInvocationRoute) (mcpSessionId : jstr)
    (scope : EffectiveMcpRequestScopeV1) (input : InvocationInput) : result context_error GatewayInvocationContext :=
  assertEffectiveMcpRequestScopeV1 scope auth mcpSessionId ;;
  requireBoundedString (in_invocationId input) "invocationId" invalid_invocation_route 512 ;;
  authority ← deriveGatewayInvocationAuthority auth route mcpSessionId scope (in_mutationScopePolicy input) (in_startedAtMs input);
  let policyDecision := nullish (in_policyDecision input) (default_decision (in_policyClass input)) in
  refuse_if (decision_mismatch policyDecision (in_policyClass input)) invalid_invocation_route
    "policy decision does not match the registry policy class" ;;
  confirmation_identities policyDecision (in_confirmationId input) (in_originatingPreviewInvocationId input) ;;
  match as_oauthClientId (au_session auth) with
  | None => Throw (GatewayInvocationContextError invalid_auth_context (js "Gateway invocation AuthContext is missing oauthClientId"))
  | Some oauthClientId =>
      digest ← rethrow (canonicalParamsDigest (in_args input));
      Ok {| ic_invocationId := in_invocationId input;
            ic_idempotencyKey := ro_rsid route ++ js "/" ++ in_invocationId input;
            ic_principalKey := au_principalKey auth;
            ic_tenantId := ac_tenantId (au_actor auth); ic_userId := ac_userId (au_actor auth); ic_role := ac_role (au_actor auth);
            ic_gatewaySessionId := as_sessionId (au_session auth); ic_oauthClientId := oauthClientId;
            ic_mcpSessionId := mcpSessionId; ic_scope := scope; ic_rsid := ro_rsid route;
            ic_toolName := in_toolName input; ic_toolVersion := in_toolVersion input;
            ic_policyClass := in_policyClass input; ic_policyDecision := policyDecision;
            ic_confirmationId := in_confirmationId input;
            ic_originatingPreviewInvocationId := in_originatingPreviewInvocationId input;
            ic_mutationScopePolicy := in_mutationScopePolicy input; ic_mutating := ga_mutating authority;
            ic_executor := in_executor input; ic_documentIdentity := ga_documentIdentity authority;
            ic_paramsDigest := digest; ic_mutationScope := ga_mutationScope authority;
            ic_startedAtMs := in_startedAtMs input |}
  end.

(** ** Dispatch proofs *)

Record GatewayDispatchProofMaterial := {
  dp_tenantId : jstr; dp_rsid : jstr; dp_effectiveMcpSessionId : jstr; dp_sessionBindingId : jstr;
  dp_connectionId : jstr; dp_routeSnapshot : jsval; dp_documentHash : jstr; dp_documentSequence : Z;
  dp_documentAck : Z; dp_gatewayProcessEpoch : jstr; dp_gatewayProcessOrdinal : Z; dp_effectiveScope : jsval;
  dp_invocationId : jstr; dp_correlationId : jstr; dp_envelopeDigest : jstr; dp_toolName : jstr;
  dp_toolVersion : jstr; dp_argsDigest : jstr; dp_policy : jsval; dp_confirmationId : option jstr }.

Record ProofRecord := { pr_digest : jstr; pr_routeSnapshotDigest : jstr }.

(** One authority: the objects it issued with their records, and the address of the
    next object. *)
Record ProofAuthority := { pa_records : gmap Z ProofRecord; pa_next : Z }.

Definition createGatewayDispatchProofAuthority : ProofAuthority := {| pa_records := ∅; pa_next := 0 |}.

Definition route_material (m : GatewayDispatchProofMaterial) : jsval :=
  obj [(js "domain", VStr (js "revagent.gateway.dispatch-proof-route/v1")); (js "route", dp_routeSnapshot m)].

Definition proof_material (m : GatewayDispatchProofMaterial) (routeSnapshotDigest : jstr) : jsval :=
  obj [(js "domain", VStr (js "revagent.gateway.dispatch-proof/v1"));
       (js "tenant", VStr (dp_tenantId m));
       (js "rsid", VStr (dp_rsid m));
       (js "mcp_session", VStr (dp_effectiveMcpSessionId m));
       (js "session_binding", VStr (dp_sessionBindingId m));
       (js "connection", VStr (dp_connectionId m));
       (js "route_snapshot_digest", VStr routeSnapshotDigest);
       (js "document", obj [(js "hash", VStr (dp_documentHash m)); (js "sequence", VNum (JInt (dp_documentSequence m)));
                            (js "ack", VNum (JInt (dp_documentAck m)))]);
       (js "gateway", obj [(js "epoch", VStr (dp_gatewayProcessEpoch m)); (js "ordinal", VNum (JInt (dp_gatewayProcessOrdinal m)))]);
       (js "effective_scope", dp_effectiveScope m);
       (js "invocation", VStr (dp_invocationId m));
       (js "correlation", VStr (dp_correlationId m));
       (js "envelope_digest", VStr (dp_envelopeDigest m));
       (js "tool", obj [(js "name", VStr (dp_toolName m)); (js "version", VStr (dp_toolVersion m));
                        (js "args_digest", VStr (dp_argsDigest m))]);
       (js "policy", dp_policy m);
       (js "confirmation_id", opt_str (dp_confirmationId m))].

Definition mint (a : ProofAuthority) (m : GatewayDispatchProofMaterial) : result js_error (ProofAuthority * Z) :=
  routeSnapshotDigest ← makeParamsDigest (route_material m);
  proofDigest ← makeParamsDigest (proof_material m routeSnapshotDigest);
  Ok ({| pa_records := <[pa_next a := {| pr_digest := proofDigest; pr_routeSnapshotDigest := routeSnapshotDigest |}]> (pa_records a);
         pa_next := pa_next a + 1 |}, pa_next a).

Definition read_proof (a : ProofAuthority) (proof : Z) : result context_error ProofRecord :=
  match pa_records a !! proof with
  | Some r => Ok r
  | None => Throw (GatewayInvocationContextError invalid_invocation_route
                     (js "dispatch proof is not owned by this Gateway instance"))
  end.

Definition proof_digest (a : ProofAuthority) (proof : Z) : result context_error jstr :=
  r ← read_proof a proof; Ok (pr_digest r).
Definition proof_routeSnapshotDigest (a : ProofAuthority) (proof : Z) : result context_error jstr :=
  r ← read_proof a proof; Ok (pr_routeSnapshotDigest r).
Definition assert_proof (a : ProofAuthority) (proof : Z) : result context_error unit :=
  read_proof a proof ;; Ok tt.

End context.
End InvocationContext.

(** * Facts *)

Module InvocationContextFacts.
Import Canonical CanonicalFacts Identifiers InvocationContext.

(** ** What is admitted, stated without the order of the tests *)

Definition bounded_text (n : Z) (s : jstr) : Prop := 1 <= Z.of_nat (length s) <= n ∧ trim s = s.

Definition optional_text (o : option jstr) : Prop := ∀ s, o = Some s → bounded_text 512 s.

Definition no_conflict (a b : option jstr) : Prop := ∀ s t, a = Some s → b = Some t → s = t.

(** A scope that may speak for the principal in the session. *)
Record scope_speaks (scope : EffectiveMcpRequestScopeV1) (principal session : jstr) : Prop := {
  ss_frozen : es_frozen scope = true;
  ss_contract : es_contractVersion scope = SCOPE_CONTRACT_VERSION;
  ss_principal : es_principalKey scope = principal;
  ss_session : es_effectiveMcpSessionId scope = session;
  ss_principal_text : bounded_text 512 principal;
  ss_session_text : bounded_text 512 session;
  ss_transport_text : optional_text (es_transportMcpSessionId scope);
  ss_identity_text : optional_text (es_identityMcpSessionId scope);
  ss_agree : no_conflict (es_transportMcpSessionId scope) (es_identityMcpSessionId scope) }.

Definition document_ok (d : GatewayDocumentIdentity) : Prop :=
  match d with
  | live_document id => bounded_text 512 id
  | published_document project item version number =>
      bounded_text 512 project ∧ bounded_text 2048 item ∧ bounded_text 2048 version ∧
      ∃ z, number = JInt z ∧ 1 <= z <= MAX_SAFE_INTEGER
  | unknown_document _ => False
  end.

(** The actor, the route and the scope belong together at that time. *)
Record authorised (auth : AuthContext) (route : GatewayInvocationRoute) (session : jstr)
    (scope : EffectiveMcpRequestScopeV1) (policy : GatewayMutationScopePolicy) (now : Z) : Prop := {
  az_scope : scope_speaks scope (au_principalKey auth) session;
  az_retained : es_object (ro_scope route) = es_object scope;
  az_user : ac_type (au_actor auth) = js "user";
  az_client : as_clientType (au_session auth) = client_mcp;
  az_fresh : ∀ t, au_expiresAtMs auth = Some t → now < t;
  az_oauth : is_Some (as_oauthClientId (au_session auth));
  az_tenant_text : bounded_text 512 (ac_tenantId (au_actor auth));
  az_user_text : bounded_text 512 (ac_userId (au_actor auth));
  az_session_text : bounded_text 512 (as_sessionId (au_session auth));
  az_rsid_text : bounded_text 512 (ro_rsid route);
  az_tenant : ro_tenantId route = ac_tenantId (au_actor auth);
  az_principal : ro_principalKey route = au_principalKey auth;
  az_session : ro_mcpSessionId route = session;
  az_authenticated : ∀ id, as_mcpSessionId (au_session auth) = Some id → id = session;
  az_document : document_ok (ro_documentIdentity route);
  az_live : policy = policy_document → ∃ id, ro_documentIdentity route = live_document id }.

Definition decision_of (input : InvocationInput) : PolicyDecision :=
  nullish (in_policyDecision input) (default_decision (in_policyClass input)).

(** A decision the registry's policy class allows. *)
Inductive decided : GatewayPolicyClass → PolicyDecision → Prop :=
| decided_by_auto : decided class_auto decided_auto
| decided_by_preview : decided class_confirm decided_preview
| decided_by_confirmation : decided class_confirm decided_confirmed
| decided_by_approval : decided class_gated decided_gated_approved
| decided_no c : decided c decided_denied.

Definition identities_ok (d : PolicyDecision) (confirmation preview : option jstr) : Prop :=
  (d = decided_confirmed ∧ ∃ c p, confirmation = Some c ∧ preview = Some p ∧ bounded_text 512 c ∧ bounded_text 512 p) ∨
  (d ≠ decided_confirmed ∧ confirmation = None ∧ preview = None).

(** ** The tests decide it *)

Lemma requireBoundedString_ok s name code n u :
  requireBoundedString s name code n = Ok u ↔ bounded_text n s.
Proof.
  unfold requireBoundedString, bounded_text. rewrite throw_if_ok, !orb_false_iff, negb_false_iff, bool_decide_eq_true, !Z.ltb_ge.
  tauto.
Qed.

Lemma requireOptional_ok o name code u : requireOptional o name code = Ok u ↔ optional_text o.
Proof.
  unfold optional_text. destruct o as [s|]; cbn.
  - rewrite requireBoundedString_ok. naive_solver.
  - destruct u. naive_solver.
Qed.

Lemma refuse_if_ok cond code msg u : refuse_if cond code msg = Ok u ↔ cond = false.
Proof. apply throw_if_ok. Qed.

Lemma sessions_conflict_false a b : sessions_conflict a b = false ↔ no_conflict a b.
Proof.
  unfold no_conflict. destruct a as [s|], b as [t|]; cbn; try naive_solver.
  rewrite negb_false_iff, bool_decide_eq_true. naive_solver.
Qed.

Lemma seq_ok {E A B} (m : result E A) (k : result E B) b : (m ;; k) = Ok b ↔ is_ok m = true ∧ k = Ok b.
Proof. destruct m; cbn; naive_solver. Qed.

Lemma is_ok_unit {E} (m : result E unit) : is_ok m = true ↔ m = Ok tt.
Proof. destruct m as [[]|]; cbn; naive_solver. Qed.

Lemma assert_scope_ok scope auth session u :
  assertEffectiveMcpRequestScopeV1 scope auth session = Ok u ↔ scope_speaks scope (au_principalKey auth) session.
Proof.
  unfold assertEffectiveMcpRequestScopeV1.
  rewrite !seq_ok, !is_ok_unit, !refuse_if_ok, !requireBoundedString_ok, !requireOptional_ok, sessions_conflict_false.
  rewrite !orb_false_iff, !negb_false_iff, !bool_decide_eq_true. split.
  - intros ([Hf Hv] & Hp & Hs & Ht & Hi & [Ep Es] & Hc). subst session. rewrite Ep in Hp. by split.
  - intros [Hf Hv Hp Hs Hpt Hst Ht Hi Hc]. subst session. rewrite Hp. split; [by split|]. do 4 (split; [done|]). by split.
Qed.

Lemma validateDocumentIdentity_ok d d' : validateDocumentIdentity d = Ok d' ↔ document_ok d ∧ d' = d.
Proof.
  destruct d as [id|project item version number|kind]; cbn [validateDocumentIdentity document_ok].
  - rewrite seq_ok, is_ok_unit, requireBoundedString_ok. naive_solver.
  - rewrite !seq_ok, !is_ok_unit, !requireBoundedString_ok, refuse_if_ok, orb_false_iff, negb_false_iff, Z.ltb_ge. split.
    + intros (Hp & Hi & Hv & [Hs H1] & [= <-]). split; [|done]. do 3 (split; [done|]).
      exists (num_Z number). split; [by apply isSafeInteger_int|]. apply isSafeInteger_range in Hs. lia.
    + intros ((Hp & Hi & Hv & z & -> & Hz) & ->). do 3 (split; [done|]). split; [|done].
      split; [|cbn; lia]. unfold isSafeInteger. rewrite andb_true_iff, !Z.leb_le. lia.
  - split; [done|naive_solver].
Qed.

Definition authority_of (route : GatewayInvocationRoute) (policy : GatewayMutationScopePolicy) : GatewayInvocationAuthority :=
  let scope := mutation_scope policy (ro_documentIdentity route) in
  {| ga_documentIdentity := ro_documentIdentity route; ga_mutationScopePolicy := policy;
     ga_mutating := negb (is_null scope); ga_mutationScope := scope |}.

Lemma expired_false auth now : expired auth now = false ↔ ∀ t, au_expiresAtMs auth = Some t → now < t.
Proof. unfold expired. destruct (au_expiresAtMs auth) as [t|]; [rewrite Z.leb_gt|]; naive_solver. Qed.

Lemma session_mismatch_false (o : option jstr) session :
  match o with Some id => session !== id | None => false end = false ↔ ∀ id, o = Some id → id = session.
Proof. destruct o as [id|]; [rewrite negb_false_iff, bool_decide_eq_true|]; naive_solver. Qed.

Lemma document_policy_false policy d :
  (policy === policy_document) && is_null (mutation_scope policy d) = false ↔
  (policy = policy_document → ∃ id, d = live_document id).
Proof. destruct policy, d; cbn; naive_solver. Qed.

Lemma derive_ok auth route session scope policy now g :
  deriveGatewayInvocationAuthority auth route session scope policy now = Ok g ↔
  authorised auth route session scope policy now ∧ g = authority_of route policy.
Proof.
  unfold deriveGatewayInvocationAuthority.
  rewrite !seq_ok, !is_ok_unit, assert_scope_ok, !refuse_if_ok, !requireBoundedString_ok, bind_ok.
  setoid_rewrite validateDocumentIdentity_ok.
  rewrite expired_false, session_mismatch_false, !negb_false_iff, is_null_false, !bool_decide_eq_true, Z.eqb_eq.
  rewrite orb_false_iff, !negb_false_iff, !bool_decide_eq_true. split.
  - intros (Hsc & Hret & [Hu Hcl] & Hex & Ho & Hp & Ht & Hus & Hse & Hrt & Hrp & Hm & Hrm & Hrs & Et & Ep & Es & Ha & d & [Hd ->] & H).
    apply seq_ok in H as [Hl H]. apply is_ok_unit in Hl. rewrite refuse_if_ok, document_policy_false in Hl. injection H as <-. by split.
  - intros [[Hsc Hret Hu Hcl Hex Ho Ht Hus Hse Hrs Et Ep Es Ha Hd Hl] ->]. pose proof Hsc as [_ _ _ _ Hpt Hst _ _ _].
    rewrite Et, Ep, Es. do 2 (split; [done|]). split; [by split|]. do 15 (split; [done|]).
    exists (ro_documentIdentity route). split; [by split|].
    apply seq_ok. split; [|done]. by apply is_ok_unit, refuse_if_ok, document_policy_false.
Qed.

Lemma decision_mismatch_false d c : decision_mismatch d c = false ↔ decided c d.
Proof.
  destruct d; cbn; rewrite ?negb_false_iff, ?bool_decide_eq_true;
    (split; [intros; subst; constructor|by inversion 1]).
Qed.

Lemma confirmation_identities_ok d c p u : confirmation_identities d c p = Ok u ↔ identities_ok d c p.
Proof.
  unfold confirmation_identities, identities_ok. case_bool_decide as Ed.
  - destruct c as [c|], p as [p|]; cbn; [|naive_solver..].
    rewrite seq_ok, is_ok_unit, !requireBoundedString_ok. naive_solver.
  - rewrite refuse_if_ok, orb_false_iff, !negb_false_iff, !is_null_true. naive_solver.
Qed.

Section context.
Context `{Hasher}.

Lemma rethrow_ok {A} (r : result js_error A) a : rethrow r = Ok a ↔ r = Ok a.
Proof. destruct r; cbn; naive_solver. Qed.

(** The context of an admitted request. *)
Definition context_of (auth : AuthContext) (route : GatewayInvocationRoute) (session : jstr) (scope : EffectiveMcpRequestScopeV1)
    (input : InvocationInput) (client digest : jstr) : GatewayInvocationContext :=
  let authority := authority_of route (in_mutationScopePolicy input) in {|
  ic_invocationId := in_invocationId input; ic_idempotencyKey := ro_rsid route ++ js "/" ++ in_invocationId input;
  ic_principalKey := au_principalKey auth; ic_tenantId := ac_tenantId (au_actor auth); ic_userId := ac_userId (au_actor auth);
  ic_role := ac_role (au_actor auth); ic_gatewaySessionId := as_sessionId (au_session auth); ic_oauthClientId := client;
  ic_mcpSessionId := session; ic_scope := scope; ic_rsid := ro_rsid route; ic_toolName := in_toolName input;
  ic_toolVersion := in_toolVersion input; ic_policyClass := in_policyClass input; ic_policyDecision := decision_of input;
  ic_confirmationId := in_confirmationId input; ic_originatingPreviewInvocationId := in_originatingPreviewInvocationId input;
  ic_mutationScopePolicy := in_mutationScopePolicy input; ic_mutating := ga_mutating authority; ic_executor := in_executor input;
  ic_documentIdentity := ga_documentIdentity authority; ic_paramsDigest := digest; ic_mutationScope := ga_mutationScope authority;
  ic_startedAtMs := in_startedAtMs input |}.

Lemma create_ok auth route session scope input context :
  createGatewayInvocationContext auth route session scope input = Ok context ↔
  authorised auth route session scope (in_mutationScopePolicy input) (in_startedAtMs input) ∧
  bounded_text 512 (in_invocationId input) ∧ decided (in_policyClass input) (decision_of input) ∧
  identities_ok (decision_of input) (in_confirmationId input) (in_originatingPreviewInvocationId input) ∧
  ∃ client digest, as_oauthClientId (au_session auth) = Some client ∧ makeParamsDigest (in_args input) = Ok digest ∧
    context = context_of auth route session scope input client digest.
Proof.
  unfold createGatewayInvocationContext. split.
  - intros Hx. apply seq_ok in Hx as [_ Hx]. apply seq_ok in Hx as [Hi%is_ok_unit%requireBoundedString_ok Hx].
    apply bind_ok in Hx as (g & [Ha ->]%derive_ok & Hx). apply seq_ok in Hx as [Hd%is_ok_unit%refuse_if_ok%decision_mismatch_false Hx].
    apply seq_ok in Hx as [Hc%is_ok_unit%confirmation_identities_ok Hx]. do 4 (split; [done|]).
    destruct (as_oauthClientId _) as [client|]; [|done]. apply bind_ok in Hx as (d & Hdig%rethrow_ok & Hx).
    injection Hx as <-. by exists client, d.
  - intros (Ha & Hi & Hd & Hc & client & d & Hcl & Hdig & ->).
    apply seq_ok. split; [by eapply is_ok_unit, assert_scope_ok, az_scope|].
    apply seq_ok. split; [by apply is_ok_unit, requireBoundedString_ok|].
    apply bind_ok. eexists. split; [apply derive_ok; by split|].
    apply seq_ok. split; [by apply is_ok_unit, refuse_if_ok, decision_mismatch_false|].
    apply seq_ok. split; [by apply is_ok_unit, confirmation_identities_ok|].
    rewrite Hcl. unfold canonicalParamsDigest. rewrite Hdig. reflexivity.
Qed.

(** A mutation scope is there exactly when the policy asks for one. *)
Lemma mutation_scope_none auth route session scope policy now : authorised auth route session scope policy now →
  mutation_scope policy (ro_documentIdentity route) = None ↔ policy = policy_none.
Proof.
  intros Ha. destruct policy; cbn; try naive_solver. destruct (az_live _ _ _ _ _ _ Ha eq_refl) as [id ->]. naive_solver.
Qed.

(** C27: a request is admitted exactly when all of this holds. Its ingress scope is
    frozen, of the right contract, the object the route retained, and its principal is
    the actor's and its session the request's; the sessions of the transport and of the
    identity, where the scope has them, agree. The actor is a user behind an MCP client
    with an OAuth client id, and the authentication has not expired. The route has the
    tenant and the principal of the actor and the MCP session of the request, which is
    that of the authenticated session where it has one. The identities of the
    actor, the session, the route, the scope and the invocation are trimmed texts of 1
    to 512 characters. The document of the route is a live one with such an id, or, when
    the mutation scope is not the document, a published one with bounded fields and a
    positive version. The policy decision is one of the tool's class, a confirmation
    and a preview id (bounded texts) are there exactly when it is confirmed, and the
    arguments have a canonical digest. *)
Theorem invocation_admission auth route session scope input :
  (∃ context, createGatewayInvocationContext auth route session scope input = Ok context) ↔
  authorised auth route session scope (in_mutationScopePolicy input) (in_startedAtMs input) ∧
  bounded_text 512 (in_invocationId input) ∧
  decided (in_policyClass input) (decision_of input) ∧
  identities_ok (decision_of input) (in_confirmationId input) (in_originatingPreviewInvocationId input) ∧
  jcs_ok (in_args input) = true.
Proof.
  split.
  - intros [x (Ha & Hi & Hd & Hc & client & d & _ & Hdig & _)%create_ok]. do 4 (split; [done|]).
    unfold makeParamsDigest in Hdig. by rewrite <- makeJsonDigest_is_ok, Hdig.
  - intros (Ha & Hi & Hd & Hc & Hj). pose proof (az_oauth _ _ _ _ _ _ Ha) as [client Hcl]. eexists. apply create_ok.
    do 4 (split; [done|]). exists client. eexists. split; [done|]. split; [exact (makeJsonDigest_ok _ Hj)|reflexivity].
Qed.

(** An invocation context says only what was authenticated: the tenant, the
    principal and the session are those of the actor, of the route and of the ingress
    scope; a mutation scope is there exactly when the tool's policy asks for one, and a
    document's scope is that of the live document of the route. *)
Theorem invocation_context_bound auth route session scope input context :
  createGatewayInvocationContext auth route session scope input = Ok context →
  (ic_tenantId context = ac_tenantId (au_actor auth) ∧ ic_tenantId context = ro_tenantId route) ∧
  (ic_principalKey context = es_principalKey scope ∧ ic_principalKey context = ro_principalKey route ∧
   ic_principalKey context = au_principalKey auth) ∧
  (ic_mcpSessionId context = es_effectiveMcpSessionId scope ∧ ic_mcpSessionId context = ro_mcpSessionId route ∧
   ∀ id, as_mcpSessionId (au_session auth) = Some id → ic_mcpSessionId context = id) ∧
  as_oauthClientId (au_session auth) = Some (ic_oauthClientId context) ∧
  (∀ t, au_expiresAtMs auth = Some t → ic_startedAtMs context < t) ∧
  ic_idempotencyKey context = ro_rsid route ++ js "/" ++ ic_invocationId context ∧
  makeParamsDigest (in_args input) = Ok (ic_paramsDigest context) ∧
  (ic_mutating context = true ↔ in_mutationScopePolicy input ≠ policy_none) ∧
  (ic_mutationScope context = None ↔ ic_mutating context = false) ∧
  (∀ d, ic_mutationScope context = Some (document_scope d) ↔
        in_mutationScopePolicy input = policy_document ∧ ro_documentIdentity route = live_document d) ∧
  (ic_policyDecision context = decided_confirmed ↔ is_Some (ic_confirmationId context)).
Proof.
  intros (Ha & _ & _ & Hc & client & d & Hcl & Hdig & ->)%create_ok. cbn. pose proof (mutation_scope_none _ _ _ _ _ _ Ha) as Hm.
  destruct Ha as [[_ _ Hp Hs _ _ _ _ _] _ _ _ Hfr _ _ _ _ _ Et Ep Es Hau _ _].
  split; [by split|]. split; [by split|]. split; [split; [done|split; [done|naive_solver]]|].
  do 4 (split; [done|]). split; [|split; [|split]].
  - rewrite negb_true_iff, is_null_false, <- not_eq_None_Some, Hm. done.
  - rewrite negb_false_iff, is_null_true. done.
  - intros id. destruct (in_mutationScopePolicy input), (ro_documentIdentity route); cbn; naive_solver.
  - destruct Hc as [(-> & c & p & -> & _)|(Hne & -> & _)]; [naive_solver|]. split; [done|by intros [? ?]].
Qed.

(** ** Scopes that are created *)

(** A scope made at the ingress speaks for its principal in the one session it
    resolved: the transport's or the identity's, which must not disagree, or a fresh
    stateless one. *)
Theorem created_scope_speaks address random principal transport identity now scope :
  createEffectiveMcpRequestScopeV1 address random principal transport identity now = Ok scope →
  optional_text transport ∧ optional_text identity ∧ no_conflict transport identity ∧
  (∀ s, transport = Some s ∨ identity = Some s → es_effectiveMcpSessionId scope = s) ∧
  (transport = None → identity = None →
   ∃ id, gatewayUuidV7 random now = Ok id ∧ es_effectiveMcpSessionId scope = js "stateless-request:" ++ id) ∧
  ((transport = None → identity = None → bounded_text 512 (es_effectiveMcpSessionId scope)) →
   scope_speaks scope principal (es_effectiveMcpSessionId scope)).
Proof.
  unfold createEffectiveMcpRequestScopeV1. rewrite !seq_ok, !is_ok_unit, requireBoundedString_ok, !requireOptional_ok,
    !refuse_if_ok, sessions_conflict_false.
  intros (Hp & Ht & Hi & Hc & _ & Hx). do 3 (split; [done|]). apply bind_ok in Hx as (effective & He & Hx).
  injection Hx as <-. cbn. unfold no_conflict, optional_text in *.
  destruct transport as [t|], identity as [i|].
  - injection He as <-. pose proof (Hc _ _ eq_refl eq_refl). split; [naive_solver|]. split; [done|]. intros _. split; try done; naive_solver.
  - injection He as <-. split; [naive_solver|]. split; [done|]. intros _. split; try done; naive_solver.
  - injection He as <-. split; [naive_solver|]. split; [done|]. intros _. split; try done; naive_solver.
  - apply bind_ok in He as (id & Hid%rethrow_ok & [= <-]). split; [naive_solver|]. split; [by eauto|]. intros Hb.
    split; try done; naive_solver.
Qed.

(** ** Dispatch proofs *)

(** The history of an authority: the materials it minted proofs for, in order. *)
Fixpoint mint_all (a : ProofAuthority) (ms : list GatewayDispatchProofMaterial) : result js_error (ProofAuthority * list Z) :=
  match ms with
  | [] => Ok (a, [])
  | m :: ms => ap ← mint a m; aps ← mint_all ap.1 ms; Ok (aps.1, ap.2 :: aps.2)
  end.

Definition record_of (m : GatewayDispatchProofMaterial) (r : ProofRecord) : Prop :=
  makeParamsDigest (route_material m) = Ok (pr_routeSnapshotDigest r) ∧
  makeParamsDigest (proof_material m (pr_routeSnapshotDigest r)) = Ok (pr_digest r).

Lemma mint_ok a m a' p : mint a m = Ok (a', p) →
  p = pa_next a ∧ pa_next a' = p + 1 ∧ ∃ r, record_of m r ∧ pa_records a' = <[p := r]> (pa_records a).
Proof.
  unfold mint, record_of. rewrite bind_ok. intros (rd & Hr & Hx). apply bind_ok in Hx as (pd & Hp & Hx). injection Hx as <- <-.
  split; [done|]. split; [done|]. exists {| pr_digest := pd; pr_routeSnapshotDigest := rd |}. done.
Qed.

Definition fresh_from (a : ProofAuthority) : Prop := ∀ p, pa_next a <= p → pa_records a !! p = None.

Lemma mint_all_ok a ms a' ps : fresh_from a → mint_all a ms = Ok (a', ps) →
  ps = seqZ (pa_next a) (Z.of_nat (length ms)) ∧
  (∀ i m p, ms !! i = Some m → ps !! i = Some p → ∃ r, record_of m r ∧ pa_records a' !! p = Some r) ∧
  (∀ p, p ∉ ps → pa_records a' !! p = pa_records a !! p).
Proof.
  revert a ps. induction ms as [|m ms IH]; intros a ps Hf; cbn [mint_all].
  { intros [= <- <-]. split; [done|]. split; [|done]. intros i m p Hi. by rewrite lookup_nil in Hi. }
  rewrite bind_ok. intros ([a1 p1] & Hm & Hx). apply bind_ok in Hx as ([a2 ps2] & Hms & Hx). injection Hx as <- <-.
  apply mint_ok in Hm as (-> & En & r & Hr & Er). cbn [fst snd] in *.
  assert (fresh_from a1) as Hf1.
  { intros p Hp. rewrite Er, lookup_insert_ne by lia. apply Hf. lia. }
  destruct (IH a1 ps2 Hf1 Hms) as (-> & Hget & Hold). rewrite En in *.
  assert (pa_next a ∉ seqZ (pa_next a + 1) (Z.of_nat (length ms))) as Hnew by (rewrite elem_of_seqZ; lia).
  split; [|split].
  - rewrite (seqZ_cons (pa_next a)) by (cbn; lia). f_equal. f_equal; cbn; lia.
  - intros [|i] m' p Hi Hp; cbn in Hi, Hp; [|by eauto]. injection Hi as <-. injection Hp as <-.
    exists r. split; [done|]. rewrite Hold, Er by done. by rewrite lookup_insert_eq.
  - intros p [Hne Hni]%not_elem_of_cons. rewrite Hold, Er by done. by rewrite lookup_insert_ne.
Qed.

(** The proofs of one gateway instance are exactly those it minted. Each mint gives
    a new object, that object keeps the digest of the material it was minted for however
    many are minted after it, and any other object is refused. *)
Theorem dispatch_proofs_nominal ms a proofs :
  mint_all createGatewayDispatchProofAuthority ms = Ok (a, proofs) →
  length proofs = length ms ∧ NoDup proofs ∧
  (∀ i m p, ms !! i = Some m → proofs !! i = Some p →
     assert_proof a p = Ok tt ∧
     ∃ r, record_of m r ∧ proof_digest a p = Ok (pr_digest r) ∧ proof_routeSnapshotDigest a p = Ok (pr_routeSnapshotDigest r)) ∧
  (∀ p, p ∉ proofs → assert_proof a p = Throw (GatewayInvocationContextError invalid_invocation_route
                                              (js "dispatch proof is not owned by this Gateway instance"))).
Proof.
  intros Hm. destruct (mint_all_ok _ _ _ _ (λ p _, lookup_empty p) Hm) as (-> & Hget & Hold).
  split; [rewrite length_seqZ; lia|]. split; [apply NoDup_seqZ|]. split.
  - intros i m p Hi Hp. destruct (Hget i m p Hi Hp) as (r & Hr & E).
    unfold assert_proof, proof_digest, proof_routeSnapshotDigest, read_proof. rewrite E. split; [done|]. by exists r.
  - intros p Hp. unfold assert_proof, read_proof. rewrite Hold by done. reflexivity.
Qed.

Lemma record_of_same m1 m2 r1 r2 :
  record_of m1 r1 → record_of m2 r2 → pr_digest r1 = pr_digest r2 →
  wire_value (proof_material m1 (pr_routeSnapshotDigest r1)) = true →
  wire_value (proof_material m2 (pr_routeSnapshotDigest r2)) = true →
  collision_free (proof_material m1 (pr_routeSnapshotDigest r1)) (proof_material m2 (pr_routeSnapshotDigest r2)) →
  normalize (proof_material m1 (pr_routeSnapshotDigest r1)) = normalize (proof_material m2 (pr_routeSnapshotDigest r2)).
Proof. intros [_ H1] [_ H2] E Hw1 Hw2 Hcf. apply makeJsonDigest_inj; [done..|]. unfold makeParamsDigest in *. congruence. Qed.

Record same_material (m1 m2 : GatewayDispatchProofMaterial) : Prop := {
  sm_tenant : dp_tenantId m1 = dp_tenantId m2;
  sm_rsid : dp_rsid m1 = dp_rsid m2;
  sm_session : dp_effectiveMcpSessionId m1 = dp_effectiveMcpSessionId m2;
  sm_binding : dp_sessionBindingId m1 = dp_sessionBindingId m2;
  sm_connection : dp_connectionId m1 = dp_connectionId m2;
  sm_route : normalize (dp_routeSnapshot m1) = normalize (dp_routeSnapshot m2);
  sm_document : dp_documentHash m1 = dp_documentHash m2 ∧ dp_documentSequence m1 = dp_documentSequence m2 ∧
                dp_documentAck m1 = dp_documentAck m2;
  sm_gateway : dp_gatewayProcessEpoch m1 = dp_gatewayProcessEpoch m2 ∧
               dp_gatewayProcessOrdinal m1 = dp_gatewayProcessOrdinal m2;
  sm_scope : normalize (dp_effectiveScope m1) = normalize (dp_effectiveScope m2);
  sm_invocation : dp_invocationId m1 = dp_invocationId m2 ∧ dp_correlationId m1 = dp_correlationId m2;
  sm_envelope : dp_envelopeDigest m1 = dp_envelopeDigest m2;
  sm_tool : dp_toolName m1 = dp_toolName m2 ∧ dp_toolVersion m1 = dp_toolVersion m2 ∧ dp_argsDigest m1 = dp_argsDigest m2;
  sm_policy : normalize (dp_policy m1) = normalize (dp_policy m2);
  sm_confirmation : dp_confirmationId m1 = dp_confirmationId m2 }.

Lemma opt_str_normal_inj a b : normalize (opt_str a) = normalize (opt_str b) → a = b.
Proof. destruct a, b; cbn; congruence. Qed.

(** Equal digests mean one dispatch: two proofs whose digests agree were minted for
    the same tenant, session, connection, route, document state, gateway process, tool
    call, policy and confirmation, where the hash does not collide on their materials. *)
Theorem dispatch_proof_identifies m1 m2 r1 r2 :
  record_of m1 r1 → record_of m2 r2 → pr_digest r1 = pr_digest r2 →
  wire_value (route_material m1) = true → wire_value (route_material m2) = true →
  collision_free (route_material m1) (route_material m2) →
  wire_value (proof_material m1 (pr_routeSnapshotDigest r1)) = true →
  wire_value (proof_material m2 (pr_routeSnapshotDigest r2)) = true →
  collision_free (proof_material m1 (pr_routeSnapshotDigest r1)) (proof_material m2 (pr_routeSnapshotDigest r2)) →
  same_material m1 m2.
Proof.
  intros H1 H2 E Hr1 Hr2 Hrc Hw1 Hw2 Hcf. pose proof (record_of_same _ _ _ _ H1 H2 E Hw1 Hw2 Hcf) as En.
  unfold proof_material in En.
  member_eq En "route_snapshot_digest"%string.
  assert (normalize (route_material m1) = normalize (route_material m2)) as Er.
  { apply makeJsonDigest_inj; [assumption..|]. destruct H1 as [H1 _], H2 as [H2 _]. unfold makeParamsDigest in *. congruence. }
  unfold route_material in Er. member_eq Er "route"%string.
  member_eq En "document"%string. member_eq En "gateway"%string. member_eq En "tool"%string.
  repeat match goal with D : normalize (obj _) = normalize (obj _) |- _ =>
    first [ member_eq D "hash"%string; member_eq D "sequence"%string; member_eq D "ack"%string
          | member_eq D "epoch"%string; member_eq D "ordinal"%string
          | member_eq D "version"%string; member_eq D "args_digest"%string; member_eq D "name"%string ]; clear D end.
  member_eq En "tenant"%string. member_eq En "rsid"%string. member_eq En "mcp_session"%string. member_eq En "session_binding"%string.
  member_eq En "connection"%string. member_eq En "effective_scope"%string. member_eq En "invocation"%string.
  member_eq En "correlation"%string. member_eq En "envelope_digest"%string. member_eq En "policy"%string.
  member_eq En "confirmation_id"%string. 
  split; repeat (match goal with |- _ ∧ _ => split end); first [assumption | by apply opt_str_normal_inj].
Qed.
End context.

(** ** Witnesses *)

Section witness.
Import Sha256.

Definition demo_scope : EffectiveMcpRequestScopeV1 := {|
  es_object := 7; es_frozen := true; es_contractVersion := SCOPE_CONTRACT_VERSION; es_principalKey := js "acme/ada";
  es_effectiveMcpSessionId := js "mcp-1"; es_transportMcpSessionId := Some (js "mcp-1"); es_identityMcpSessionId := None |}.

Definition demo_auth : AuthContext := {|
  au_contractVersion := GATEWAY_AUTH_CONTRACT_VERSION;
  au_actor := {| ac_type := js "user"; ac_tenantId := js "acme"; ac_userId := js "ada"; ac_role := role_user;
                 ac_oidcIssuer := js "issuer"; ac_oidcSubject := js "ada" |};
  au_session := {| as_sessionId := js "gs-1"; as_clientType := client_mcp; as_mcpSessionId := None;
                   as_oauthClientId := Some (js "client") |};
  au_principalKey := js "acme/ada"; au_issuedAtMs := 0; au_expiresAtMs := Some 100 |}.

Definition demo_route : GatewayInvocationRoute := {|
  ro_tenantId := js "acme"; ro_principalKey := js "acme/ada"; ro_mcpSessionId := js "mcp-1"; ro_scope := demo_scope;
  ro_rsid := js "rsid-1"; ro_documentIdentity := live_document (js "doc-1") |}.

Definition demo_input : InvocationInput := {|
  in_invocationId := js "inv-1"; in_toolName := js "set_parameters"; in_toolVersion := js "1";
  in_policyClass := class_confirm; in_policyDecision := None; in_confirmationId := None;
  in_originatingPreviewInvocationId := None; in_mutationScopePolicy := policy_document; in_executor := executor_bridge;
  in_args := obj []; in_startedAtMs := 50 |}.

Lemma demo_authorised : authorised demo_auth demo_route (js "mcp-1") demo_scope policy_document 50.
Proof.
  destruct (deriveGatewayInvocationAuthority demo_auth demo_route (js "mcp-1") demo_scope policy_document 50) as [a|e] eqn:E;
    [|exfalso; revert E; vm_compute; discriminate].
  by apply derive_ok in E as [Ha _].
Qed.

Lemma invocation_admission_witness :
  (∃ context, createGatewayInvocationContext demo_auth demo_route (js "mcp-1") demo_scope demo_input = Ok context) ∧
  ¬ ∃ context, createGatewayInvocationContext demo_auth demo_route (js "mcp-2") demo_scope demo_input = Ok context.
Proof.
  split.
  - apply (invocation_admission demo_auth demo_route (js "mcp-1") demo_scope demo_input). split; [exact demo_authorised|].
    split; [refine (proj1 (requireBoundedString_ok _ "invocationId" invalid_invocation_route 512 tt) _); vm_compute; reflexivity|].
    split; [apply decision_mismatch_false; vm_compute; reflexivity|].
    split; [|vm_compute; reflexivity]. right. split; [discriminate|done].
  - intros Hx%(invocation_admission demo_auth demo_route (js "mcp-2") demo_scope demo_input). destruct Hx as [Ha _].
    pose proof (az_scope _ _ _ _ _ _ Ha) as Hs. destruct Hs. discriminate.
Defined.

Lemma invocation_context_bound_witness :
  ∃ context, createGatewayInvocationContext demo_auth demo_route (js "mcp-1") demo_scope demo_input = Ok context ∧
    ic_mutationScope context = Some (document_scope (js "doc-1")).
Proof.
  destruct (createGatewayInvocationContext demo_auth demo_route (js "mcp-1") demo_scope demo_input) as [c|e] eqn:E;
    [|exfalso; revert E; vm_compute; discriminate].
  exists c. split; [reflexivity|].
  destruct (invocation_context_bound demo_auth demo_route (js "mcp-1") demo_scope demo_input c E)
    as (_ & _ & _ & _ & _ & _ & _ & _ & _ & Hd & _).
  apply Hd. split; reflexivity.
Defined.

Lemma created_scope_speaks_witness :
  scope_speaks demo_scope (js "acme/ada") (js "mcp-1").
Proof.
  destruct (created_scope_speaks 7 [] (js "acme/ada") (Some (js "mcp-1")) None (JInt 0) demo_scope) as (_ & _ & _ & _ & _ & Hs);
    [vm_compute; reflexivity|].
  apply Hs. discriminate.
Defined.

Definition demo_material (invocation : jstr) : GatewayDispatchProofMaterial := {|
  dp_tenantId := js "acme"; dp_rsid := js "rsid-1"; dp_effectiveMcpSessionId := js "mcp-1"; dp_sessionBindingId := js "b";
  dp_connectionId := js "c"; dp_routeSnapshot := VNull; dp_documentHash := js "h"; dp_documentSequence := 1;
  dp_documentAck := 0; dp_gatewayProcessEpoch := js "e"; dp_gatewayProcessOrdinal := 1; dp_effectiveScope := VNull;
  dp_invocationId := invocation; dp_correlationId := js "k"; dp_envelopeDigest := js "d"; dp_toolName := js "t";
  dp_toolVersion := js "1"; dp_argsDigest := js "a"; dp_policy := VNull; dp_confirmationId := None |}.

Lemma dispatch_proofs_nominal_witness :
  ∃ a, mint_all createGatewayDispatchProofAuthority [demo_material (js "i"); demo_material (js "i")] = Ok (a, [0; 1]) ∧
    assert_proof a 0 = Ok tt ∧ is_ok (assert_proof a 2) = false.
Proof.
  destruct (mint_all createGatewayDispatchProofAuthority [demo_material (js "i"); demo_material (js "i")]) as [[a ps]|e] eqn:E;
    [|exfalso; revert E; vm_compute; discriminate].
  assert (ps = [0; 1]) as -> by (revert E; vm_compute; congruence).
  exists a. split; [reflexivity|].
  destruct (dispatch_proofs_nominal _ _ _ E) as (_ & _ & Hin & Hout). split.
  - exact (proj1 (Hin 0%nat _ 0 eq_refl eq_refl)).
  - rewrite (Hout 2); [reflexivity|]. refine (bool_decide_unpack _ _). exact I.
Defined.

Lemma dispatch_proof_identifies_witness :
  same_material (demo_material (js "i")) (demo_material (js "i")).
Proof.
  destruct (mint createGatewayDispatchProofAuthority (demo_material (js "i"))) as [[a p]|e] eqn:E;
    [|exfalso; revert E; vm_compute; discriminate].
  destruct (mint_ok _ _ _ _ E) as (_ & _ & r & Hr & _).
  assert (wire_value (proof_material (demo_material (js "i")) (pr_routeSnapshotDigest r)) = true) as Hw.
  { pose proof Hr as [Hd _].
    let v := eval vm_compute in (makeParamsDigest (route_material (demo_material (js "i")))) in
      assert (makeParamsDigest (route_material (demo_material (js "i"))) = v) as Ev by (vm_compute; reflexivity).
    rewrite Ev in Hd. apply IdentifiersFacts.Ok_inj in Hd. rewrite <- Hd. vm_compute. reflexivity. }
  assert (wire_value (route_material (demo_material (js "i"))) = true) as Hv by (vm_compute; reflexivity).
  exact (dispatch_proof_identifies _ _ r r Hr Hr eq_refl Hv Hv (λ _, eq_refl) Hw Hw (λ _, eq_refl)).
Defined.
End witness.
End InvocationContextFacts.
