(* ===== verification/Registry.v ===== *)
(** The registry of tools and its views: packages/gateway/src/registry.ts.

    A zod type is an abstract value; [z.toJSONSchema] of a strict object is a
    parameter.  Records are objects whose identity the views compare, so a record
    carries its address. *)

From S2P Require Import Prelude JsString JsValue JsMap Canonical JsonText InvocationContext.

Module Registry.
Import Canonical JsonText JsMap InvocationContext.

Definition JSON_SCHEMA_2020_12_URI : jstr := js "https://json-schema.org/draft/2020-12/schema".

(** ** Patterns *)

(** A segment: a lower-case letter, then letters, digits and underscores. *)
Definition name_segment (s : jstr) : bool :=
  match s with [] => false | c :: s => is_lower c && forallb (λ d, is_lower d || is_digit d || (d =? 95)) s end.

(** Two segments or more, separated by dots. *)
Definition TOOL_NAME_PATTERN (s : jstr) : bool :=
  (2 <=? length (split_dot s))%nat && forallb name_segment (split_dot s).

(** Three numbers separated by dots. *)
Definition VERSION_PATTERN (s : jstr) : bool :=
  (length (split_dot s) =? 3)%nat && forallb (λ part, negb (length part =? 0)%nat && forallb is_digit part) (split_dot s).

Definition GATEWAY_RESERVED_INPUT_FIELDS : list jstr := [js "confirm_token"; js "originating_preview_invocation_id"].

(** ** JSON schemas *)

Definition isPlainRecord (value : jsval) : bool :=
  match value with VObj shape _ => plain_prototype shape | _ => false end.

Definition type_error {A} (message : jstr) : result js_error A := Throw (JsError TypeError message).

(** Values are trees, so the ancestors are never met again.  [Object.keys] lists the
    members in the order of the list. *)
Fixpoint cloneJsonValue (value : jsval) (path : jstr) : result js_error jsval :=
  match value with
  | VNull | VStr _ | VBool _ => Ok value
  | VNum n => if isFinite n then Ok value else type_error (path ++ js " must contain only finite JSON numbers")
  | VUndefined | VOther _ => type_error (path ++ js " must contain only JSON values")
  | VArr items =>
      clones ← (fix each (index : Z) (items : list jsval) : result js_error (list jsval) :=
                  match items with
                  | [] => Ok []
                  | item :: items =>
                      clone ← cloneJsonValue item (path ++ js "[" ++ dec index ++ js "]");
                      clones ← each (index + 1) items;
                      Ok (clone :: clones)
                  end) 0 items;
      Ok (VArr clones)
  | VObj shape members =>
      if negb (plain_prototype shape) then type_error (path ++ js " must contain only plain JSON objects") else
      clones ← map_result snd (sort_by key_leb (map (λ km,
        (km.1, clone ← cloneJsonValue km.2 (path ++ js "." ++ km.1); Ok (km.1, clone))) members));
      Ok (obj clones)
  end.

Definition property (value : jsval) (key : string) : jsval :=
  match value with VObj _ members => nullish (mget members (js key)) VUndefined | _ => VUndefined end.

Definition object_keys (value : jsval) : list jstr := match value with VObj _ members => keys members | _ => [] end.

Definition is_str (value : jsval) (s : jstr) : bool := match value with VStr t => t === s | _ => false end.
Definition is_false (value : jsval) : bool := match value with VBool b => negb b | _ => false end.

(** ** Records *)

Section registry.
Context {ZodType : Type} (toJSONSchema : list (jstr * ZodType) → jsval).

(** A field of the input schema is [None] when its value is not a zod type;
    [tr_plainSchema] is [isPlainRecord(record.inputSchema)]. *)
Record GatewayToolRecord := {
  tr_object : Z;
  tr_name : jstr; tr_summary : jstr; tr_namespace : jstr; tr_version : jstr;
  tr_policyClass : GatewayPolicyClass; tr_mutationScopePolicy : GatewayMutationScopePolicy;
  tr_executor : GatewayExecutorBinding; tr_executorMethod : jstr;
  tr_plainSchema : bool; tr_inputSchema : list (jstr * option ZodType); tr_inputJsonSchema : jsval }.

Definition normalizeInputJsonSchema (record : GatewayToolRecord) : result js_error jsval :=
  let name := tr_name record in
  throw_if (negb (isPlainRecord (tr_inputJsonSchema record)))
    (JsError TypeError (name ++ js ".inputJsonSchema must be a plain JSON object")) ;;
  normalized ← cloneJsonValue (tr_inputJsonSchema record) (name ++ js ".inputJsonSchema");
  throw_if (negb (is_str (property normalized "type") (js "object")))
    (JsError TypeError (name ++ js ".inputJsonSchema.type must be object")) ;;
  throw_if (negb (is_false (property normalized "additionalProperties")))
    (JsError TypeError (name ++ js ".inputJsonSchema.additionalProperties must be false")) ;;
  throw_if (negb (isPlainRecord (property normalized "properties")))
    (JsError TypeError (name ++ js ".inputJsonSchema.properties must be a plain object")) ;;
  throw_if (negb (is_str (property normalized "$schema") JSON_SCHEMA_2020_12_URI))
    (JsError TypeError (name ++ js ".inputJsonSchema.$schema must select JSON Schema 2020-12")) ;;
  let zodFields := sort_by str_leb (keys (tr_inputSchema record)) in
  let jsonFields := sort_by str_leb (object_keys (property normalized "properties")) in
  throw_if (zodFields !== jsonFields)
    (JsError TypeError (name ++ js ".inputJsonSchema properties must match inputSchema fields")) ;;
  Ok normalized.

(** The fields that are zod types. *)
Definition zod_fields (fields : list (jstr * option ZodType)) : list (jstr * ZodType) :=
  omap (λ f, z ← f.2; Some (f.1, z)) fields.

Definition canonicalInputJsonSchema (record : GatewayToolRecord) : result js_error jsval :=
  cloneJsonValue (toJSONSchema (zod_fields (tr_inputSchema record))) (tr_name record ++ js ".canonicalInputJsonSchema").

Definition assertCanonicalInputJsonSchema (record : GatewayToolRecord) : result js_error unit :=
  supplied ← normalizeInputJsonSchema record;
  canonical ← canonicalInputJsonSchema record;
  throw_if (json_stringify supplied !== json_stringify canonical)
    (JsError TypeError (tr_name record ++ js ".inputJsonSchema must match the canonical executable schema")).

Definition boundedSingleLine (value label : jstr) (maximumLength : Z) : result js_error unit :=
  let n := Z.of_nat (length value) in
  throw_if ((n <? 1) || (maximumLength <? n) || existsb (λ c, (c =? 13) || (c =? 10)) value)
    (JsError TypeError (label ++ js " must be a non-empty single-line string no longer than " ++ dec maximumLength ++ js " characters")).

Fixpoint check_fields (name : jstr) (fields : list (jstr * option ZodType)) : result js_error unit :=
  match fields with
  | [] => Ok tt
  | (fieldName, fieldSchema) :: fields =>
      throw_if (bool_decide (fieldName ∈ GATEWAY_RESERVED_INPUT_FIELDS))
        (JsError TypeError (name ++ js ".inputSchema." ++ fieldName ++ js " is reserved for Gateway policy control")) ;;
      throw_if (is_null fieldSchema)
        (JsError TypeError (name ++ js ".inputSchema." ++ fieldName ++ js " must be a Zod schema")) ;;
      check_fields name fields
  end.

(** The executor, the policy class and the scope policy are values of their types, so
    the tests against their lists always pass. *)
Definition validateRecord (record : GatewayToolRecord) : result js_error unit :=
  let name := tr_name record in
  throw_if (negb (TOOL_NAME_PATTERN name)) (JsError TypeError (js "invalid Gateway tool name: " ++ name)) ;;
  boundedSingleLine (tr_summary record) (name ++ js ".summary") 240 ;;
  boundedSingleLine (tr_namespace record) (name ++ js ".namespace") 80 ;;
  boundedSingleLine (tr_executorMethod record) (name ++ js ".executorMethod") 160 ;;
  throw_if (Some (tr_namespace record) !== head (split_dot name))
    (JsError TypeError (name ++ js ".namespace must match the first tool-name segment")) ;;
  throw_if (negb (VERSION_PATTERN (tr_version record))) (JsError TypeError (name ++ js ".version must use major.minor.patch")) ;;
  throw_if (negb (tr_plainSchema record)) (JsError TypeError (name ++ js ".inputSchema must be a Zod raw shape")) ;;
  check_fields name (tr_inputSchema record) ;;
  assertCanonicalInputJsonSchema record.

(** ** The capability index *)

Record CapabilityIndexTool := {
  ct_name : jstr; ct_summary : jstr; ct_namespace : jstr; ct_version : jstr;
  ct_policyClass : GatewayPolicyClass; ct_executor : GatewayExecutorBinding }.

Definition capabilityIndexFor (records : list GatewayToolRecord) : list CapabilityIndexTool :=
  map (λ r, {| ct_name := tr_name r; ct_summary := tr_summary r; ct_namespace := tr_namespace r; ct_version := tr_version r;
               ct_policyClass := tr_policyClass r; ct_executor := tr_executor r |}) records.

Definition class_name (c : GatewayPolicyClass) : jstr :=
  match c with class_auto => js "auto" | class_confirm => js "confirm" | class_gated => js "gated" end.
Definition executor_name (e : GatewayExecutorBinding) : jstr :=
  match e with executor_bridge => js "bridge" | executor_internal_mcp => js "internal_mcp" | executor_aps => js "aps" end.

Definition index_value (tools : list CapabilityIndexTool) : jsval :=
  obj [(js "schemaVersion", VStr (js "revagent-capability-index/v1"));
       (js "tools", VArr (map (λ t, obj [
          (js "name", VStr (ct_name t)); (js "summary", VStr (ct_summary t)); (js "namespace", VStr (ct_namespace t));
          (js "version", VStr (ct_version t)); (js "policyClass", VStr (class_name (ct_policyClass t)));
          (js "executor", VStr (executor_name (ct_executor t))); (js "schema", VStr (js "deferred"))]) tools))].

(** ** Views and the registry *)

Record GatewayRegistryView := {
  vw_records : list GatewayToolRecord; vw_byName : list (jstr * GatewayToolRecord);
  vw_index : list CapabilityIndexTool; vw_indexBytes : jstr }.

Definition name_leb (l r : GatewayToolRecord) : bool := str_leb (tr_name l) (tr_name r).

(** [previous] is the record before in the sorted list. *)
Fixpoint check_view (get : jstr → option GatewayToolRecord) (previous : option GatewayToolRecord)
    (records : list GatewayToolRecord) : result js_error unit :=
  match records with
  | [] => Ok tt
  | record :: records =>
      throw_if ((tr_object <$> get (tr_name record)) !== Some (tr_object record))
        (JsError TypeError (js "Gateway registry view records must originate from its registry")) ;;
      throw_if ((tr_name <$> previous) === Some (tr_name record))
        (JsError TypeError (js "Gateway registry view contains a duplicate tool")) ;;
      check_view get (Some record) records
  end.

(** [new Map(records.map((record) => [record.name, record]))] *)
Definition by_name (records : list GatewayToolRecord) : list (jstr * GatewayToolRecord) :=
  foldl (λ m r, mset m (tr_name r) r) [] records.

Definition newRegistryView (get : jstr → option GatewayToolRecord) (records : list GatewayToolRecord)
  : result js_error GatewayRegistryView :=
  let sorted := sort_by name_leb records in
  check_view get None sorted ;;
  let index := capabilityIndexFor sorted in
  Ok {| vw_records := sorted; vw_byName := by_name sorted; vw_index := index;
        vw_indexBytes := json_stringify (index_value index) ++ [10] |}.

Definition view_get (v : GatewayRegistryView) (name : jstr) : option GatewayToolRecord := mget (vw_byName v) name.

Definition view_require (v : GatewayRegistryView) (name : jstr) : result js_error GatewayToolRecord :=
  match view_get v name with
  | Some record => Ok record
  | None => throw RangeError "unknown or unentitled Gateway tool"
  end.

Record GatewayToolRegistry := {
  rg_records : list GatewayToolRecord; rg_byName : list (jstr * GatewayToolRecord); rg_fullView : GatewayRegistryView }.

(** The frozen copy of a record at a new address. *)
Definition frozen_record (address : Z) (record : GatewayToolRecord) (schema : jsval) : GatewayToolRecord := {|
  tr_object := address; tr_name := tr_name record; tr_summary := tr_summary record; tr_namespace := tr_namespace record;
  tr_version := tr_version record; tr_policyClass := tr_policyClass record;
  tr_mutationScopePolicy := tr_mutationScopePolicy record; tr_executor := tr_executor record;
  tr_executorMethod := tr_executorMethod record; tr_plainSchema := true; tr_inputSchema := tr_inputSchema record;
  tr_inputJsonSchema := schema |}.

Fixpoint freeze_records (address : Z) (records : list GatewayToolRecord) : result js_error (list GatewayToolRecord) :=
  match records with
  | [] => Ok []
  | record :: records =>
      schema ← normalizeInputJsonSchema record;
      frozen ← freeze_records (address + 1) records;
      Ok (frozen_record address record schema :: frozen)
  end.

Fixpoint fill_by_name (byName : list (jstr * GatewayToolRecord)) (records : list GatewayToolRecord)
  : result js_error (list (jstr * GatewayToolRecord)) :=
  match records with
  | [] => Ok byName
  | record :: records =>
      throw_if (negb (is_null (mget byName (tr_name record))))
        (JsError TypeError (js "duplicate Gateway tool name: " ++ tr_name record)) ;;
      fill_by_name (mset byName (tr_name record) record) records
  end.

(** [address] is the first of the new objects. *)
Definition newToolRegistry (address : Z) (records : list GatewayToolRecord) : result js_error GatewayToolRegistry :=
  map_result validateRecord records ;;
  frozen ← freeze_records address records;
  let sorted := sort_by name_leb frozen in
  byName ← fill_by_name [] sorted;
  fullView ← newRegistryView (mget byName) sorted;
  Ok {| rg_records := sorted; rg_byName := byName; rg_fullView := fullView |}.

Definition registry_get (g : GatewayToolRegistry) (name : jstr) : option GatewayToolRecord := mget (rg_byName g) name.

Definition registry_require (g : GatewayToolRegistry) (name : jstr) : result js_error GatewayToolRecord :=
  match registry_get g name with
  | Some record => Ok record
  | None => Throw (JsError RangeError (js "unknown Gateway tool: " ++ name))
  end.

Definition registry_view (g : GatewayToolRegistry) (visibleToolNames : list jstr) : result js_error GatewayRegistryView :=
  visible ← map_result (λ name,
    match registry_get g name with
    | Some record => Ok record
    | None => Throw (JsError RangeError (js "unknown Gateway tool in registry view: " ++ name))
    end) (unique visibleToolNames);
  newRegistryView (registry_get g) (sort_by name_leb visible).

Definition registry_capabilityIndex (g : GatewayToolRegistry) : list CapabilityIndexTool := vw_index (rg_fullView g).
Definition registry_capabilityIndexBytes (g : GatewayToolRegistry) : jstr := vw_indexBytes (rg_fullView g).

End registry.
Arguments GatewayToolRecord : clear implicits.
Arguments GatewayRegistryView : clear implicits.
Arguments GatewayToolRegistry : clear implicits.
End Registry.

(** * Facts *)

Module RegistryFacts.
Import Canonical CanonicalFacts JsMap InvocationContext InvocationContextFacts Registry.

Section registry.
Context {ZodType : Type} (toJSONSchema : list (jstr * ZodType) → jsval).
Abbreviation record := (GatewayToolRecord ZodType).
Implicit Types (r : record) (rs : list record).

(** ** Names and maps *)

Definition named (rs : list record) : list (jstr * record) := map (λ r, (tr_name r, r)) rs.

Lemma named_names rs : keys (named rs) = map tr_name rs.
Proof. unfold keys, named. rewrite map_map. by apply map_ext. Qed.

Lemma named_get rs n r : NoDup (map tr_name rs) → mget (named rs) n = Some r ↔ r ∈ rs ∧ tr_name r = n.
Proof.
  intros Hnd. split.
  - intros E%mget_elem. apply list_elem_of_fmap in E as (r' & [= -> ->] & Hr). done.
  - intros [Hr <-]. apply elem_mget; [by rewrite named_names|]. apply list_elem_of_fmap. by exists r.
Qed.

Lemma foldl_named m rs : NoDup (map tr_name rs) → (∀ r, r ∈ rs → mget m (tr_name r) = None) →
  foldl (λ m r, mset m (tr_name r) r) m rs = m ++ named rs.
Proof.
  revert m. induction rs as [|r rs IH]; intros m Hnd Hnew; cbn [foldl map named]; [by rewrite app_nil_r|].
  apply NoDup_cons in Hnd as [Hr Hnd]. rewrite (mset_new m) by (apply Hnew; by left). rewrite IH; [|done|].
  - rewrite <- app_assoc. done.
  - intros r' Hr'. apply mget_none. rewrite <- (mset_new m) by (apply Hnew; by left). rewrite keys_mset.
    assert (tr_name r' ≠ tr_name r) by (intros E; apply Hr; rewrite <- E; apply list_elem_of_fmap; by exists r').
    pose proof (proj1 (mget_none _ _) (Hnew r' (list_elem_of_further _ _ _ Hr'))).
    case_bool_decide; [done|]. rewrite not_elem_of_app, list_elem_of_singleton. done.
Qed.

Lemma by_name_named rs : NoDup (map tr_name rs) → by_name rs = named rs.
Proof. intros Hnd. unfold by_name. by rewrite (foldl_named [] rs Hnd). Qed.

Lemma fill_by_name_ok m rs m' : fill_by_name m rs = Ok m' ↔
  (NoDup (map tr_name rs) ∧ ∀ r, r ∈ rs → mget m (tr_name r) = None) ∧ m' = foldl (λ m r, mset m (tr_name r) r) m rs.
Proof.
  revert m. induction rs as [|r rs IH]; intros m; cbn [fill_by_name foldl map].
  { split; [intros [= ->]|intros [_ ->]; done]. split; [|done]. split; [constructor|]. by intros r ?%not_elem_of_nil. }
  rewrite seq_ok, is_ok_unit, throw_if_ok, negb_false_iff, is_null_true, IH, NoDup_cons. split.
  - intros (Hr & [Hnd Hnew] & ->). split; [|done].
    assert (tr_name r ∉ map tr_name rs) as Hni.
    { intros (r' & E & Hr')%list_elem_of_fmap. specialize (Hnew r' Hr'). rewrite mget_mset, <- E, bool_decide_eq_true_2 in Hnew by done. done. }
    split; [done|]. intros r' [->|Hr']%elem_of_cons; [done|]. specialize (Hnew r' Hr'). rewrite mget_mset in Hnew. by case_bool_decide.
  - intros ([[Hni Hnd] Hnew] & ->). split; [by apply Hnew; left|]. split; [|done]. split; [done|].
    intros r' Hr'. rewrite mget_mset, bool_decide_eq_false_2; [by apply Hnew; right|].
    intros E. apply Hni. rewrite E. apply list_elem_of_fmap. by exists r'.
Qed.

Lemma name_sorted rs : StronglySorted (λ a b, name_leb a b = true) (sort_by name_leb rs).
Proof.
  apply sort_by_sorted.
  - intros a b. apply str_leb_total.
  - intros a b c. apply str_leb_trans.
Qed.

Lemma sorted_names rs : map tr_name (sort_by name_leb rs) ≡ₚ map tr_name rs.
Proof. apply Permutation_map, sort_by_perm. Qed.

(** ** Views *)

Lemma check_view_ok get prev rs :
  (∀ r, r ∈ rs → tr_object <$> get (tr_name r) = Some (tr_object r)) → NoDup (map tr_name (option_list prev ++ rs)) →
  check_view get prev rs = Ok tt.
Proof.
  revert prev. induction rs as [|r rs IH]; intros prev Hg Hnd; [done|]. cbn [check_view].
  rewrite (bool_decide_eq_true_2 (_ <$> get _ = _)) by (apply Hg; by left). cbn [negb].
  rewrite (bool_decide_eq_false_2 (tr_name <$> prev = _)).
  2:{ destruct prev as [p|]; [|done]. cbn in Hnd |- *. apply NoDup_cons in Hnd as [Hp _]. intros [= E]. apply Hp. rewrite E. by left. }
  cbn. apply IH; [intros r' Hr'; apply Hg; by right|].
  destruct prev; cbn in Hnd |- *; [by apply NoDup_cons in Hnd as [_ ?]|done].
Qed.

Lemma check_view_origin get prev rs : check_view get prev rs = Ok tt →
  ∀ r, r ∈ rs → tr_object <$> get (tr_name r) = Some (tr_object r).
Proof.
  revert prev. induction rs as [|r rs IH]; intros prev; cbn [check_view]; [by intros _ r ?%not_elem_of_nil|].
  rewrite !seq_ok, !is_ok_unit, !throw_if_ok, negb_false_iff, bool_decide_eq_true. intros (Hg & _ & Hrest) r' [->|Hr']%elem_of_cons; [done|].
  by eapply IH.
Qed.

(** A view of distinct records of its registry. *)
Lemma new_view_ok get rs :
  (∀ r, r ∈ rs → tr_object <$> get (tr_name r) = Some (tr_object r)) → NoDup (map tr_name rs) →
  ∃ v, newRegistryView get rs = Ok v ∧ vw_records v = sort_by name_leb rs ∧ vw_byName v = named (sort_by name_leb rs) ∧
       vw_index v = capabilityIndexFor (sort_by name_leb rs).
Proof.
  intros Hg Hnd. unfold newRegistryView.
  assert (NoDup (map tr_name (sort_by name_leb rs))) as Hnd' by by rewrite sorted_names.
  rewrite check_view_ok; [|intros r Hr; apply Hg; by rewrite sort_by_elem in Hr|done]. eexists. split; [reflexivity|]. cbn.
  by rewrite by_name_named.
Qed.

(** ** The registry *)

Lemma validate_normalizes r : validateRecord toJSONSchema r = Ok tt → ∃ s, normalizeInputJsonSchema r = Ok s.
Proof.
  unfold validateRecord, assertCanonicalInputJsonSchema. rewrite !seq_ok. intros (_ & _ & _ & _ & _ & _ & _ & _ & E).
  apply bind_ok in E as (s & E & _). eauto.
Qed.

(** The copy the registry keeps. *)
Definition frozen_copy (r c : record) : Prop :=
  ∃ address s, normalizeInputJsonSchema r = Ok s ∧ c = frozen_record address r s.

Lemma freeze_ok address rs cs : freeze_records address rs = Ok cs →
  Forall2 frozen_copy rs cs ∧ map tr_object cs = seqZ address (Z.of_nat (length cs)) ∧ map tr_name cs = map tr_name rs.
Proof.
  revert address cs. induction rs as [|r rs IH]; intros address cs; cbn [freeze_records].
  { intros [= <-]. split_and!; [constructor|done..]. }
  rewrite bind_ok. intros (s & Hs & E). apply bind_ok in E as (cs' & Hcs & E). injection E as <-.
  destruct (IH _ _ Hcs) as (Hall & Ho & Hn). split; [|split].
  - constructor; [by exists address, s|done].
  - cbn [map frozen_record tr_object length]. rewrite Ho, (seqZ_cons address) by lia. do 2 f_equal; lia.
  - cbn [map frozen_record tr_name]. by rewrite Hn.
Qed.

Lemma freeze_total address rs : Forall (λ r, validateRecord toJSONSchema r = Ok tt) rs → ∃ cs, freeze_records address rs = Ok cs.
Proof.
  intros Hv. revert address. induction Hv as [|r rs Hr _ IH]; intros address; cbn [freeze_records]; [by eexists|].
  apply validate_normalizes in Hr as [s ->]. destruct (IH (address + 1)) as [cs ->]. by eexists.
Qed.

Lemma get_self rs r : NoDup (map tr_name rs) → r ∈ rs → tr_object <$> mget (named rs) (tr_name r) = Some (tr_object r).
Proof. intros Hnd Hr. by rewrite (proj2 (named_get rs _ r Hnd) (conj Hr eq_refl)). Qed.

Lemma validate_all rs us : map_result (validateRecord toJSONSchema) rs = Ok us →
  Forall (λ r, validateRecord toJSONSchema r = Ok tt) rs.
Proof. intros E%map_result_ok. induction E as [|r [] rs us Hr _ IH]; constructor; done. Qed.

Lemma validate_all_ok rs : Forall (λ r, validateRecord toJSONSchema r = Ok tt) rs →
  ∃ us, map_result (validateRecord toJSONSchema) rs = Ok us.
Proof. induction 1 as [|r rs Hr _ [us IH]]; cbn; [by eexists|]. rewrite Hr, IH. by eexists. Qed.

(** What a registry holds. *)
Record registry_ok (rs : list record) (g : GatewayToolRegistry ZodType) : Prop := {
  rk_copies : ∃ cs, Forall2 frozen_copy rs cs ∧ rg_records g = sort_by name_leb cs;
  rk_names : NoDup (map tr_name (rg_records g));
  rk_byName : rg_byName g = named (rg_records g);
  rk_view : vw_byName (rg_fullView g) = named (rg_records g) ∧ vw_index (rg_fullView g) = capabilityIndexFor (rg_records g) }.

Lemma sort_sorted rs : sort_by name_leb (sort_by name_leb rs) = sort_by name_leb rs.
Proof. apply sort_by_sorted_id, name_sorted. Qed.

Lemma new_registry_ok address rs g : newToolRegistry toJSONSchema address rs = Ok g →
  Forall (λ r, validateRecord toJSONSchema r = Ok tt) rs ∧ NoDup (map tr_name rs) ∧ registry_ok rs g.
Proof.
  unfold newToolRegistry. rewrite bind_ok. intros (us & Hv%validate_all & E). apply bind_ok in E as (cs & Hcs & E).
  apply bind_ok in E as (m & Hm & E). apply bind_ok in E as (v & Hview & E). injection E as <-.
  apply fill_by_name_ok in Hm as [[Hnd _] Em]. destruct (freeze_ok _ _ _ Hcs) as (Hall & Ho & Hn).
  rewrite (foldl_named [] _ Hnd) in Em; [|done]. cbn [app] in Em. subst m.
  destruct (new_view_ok (mget (named (sort_by name_leb cs))) (sort_by name_leb cs)) as (v' & Ev & Er & Eb & Ei); [by intros r; apply get_self|done|].
  rewrite Hview in Ev. injection Ev as <-. rewrite sort_sorted in Er, Eb, Ei.
  split; [done|]. split; [by rewrite <- Hn, <- sorted_names|]. split; cbn; try done. by exists cs.
Qed.

(** A registry is built from exactly the lists of valid records with distinct names,
    and holds a frozen copy of each, in the order of the names, found by its name; the
    capability index lists the same tools. *)
Theorem registry_exact address rs :
  ((∃ g, newToolRegistry toJSONSchema address rs = Ok g) ↔
   Forall (λ r, validateRecord toJSONSchema r = Ok tt) rs ∧ NoDup (map tr_name rs)) ∧
  ∀ g, newToolRegistry toJSONSchema address rs = Ok g →
    StronglySorted (λ a b, name_leb a b = true) (rg_records g) ∧
    (∀ n c, registry_get g n = Some c ↔ tr_name c = n ∧ c ∈ rg_records g) ∧
    (∀ c, c ∈ rg_records g → ∃ r, r ∈ rs ∧ frozen_copy r c) ∧
    (∀ r, r ∈ rs → ∃ c, registry_get g (tr_name r) = Some c ∧ frozen_copy r c) ∧
    registry_capabilityIndex g = capabilityIndexFor (rg_records g).
Proof.
  split; [split|].
  - intros [g Hg]. by destruct (new_registry_ok _ _ _ Hg) as (Hv & Hnd & _).
  - intros [Hv Hnd]. unfold newToolRegistry. destruct (validate_all_ok _ Hv) as [us ->]. cbn [mbind result_bind].
    destruct (freeze_total address _ Hv) as [cs Hcs]. rewrite Hcs. cbn [mbind result_bind].
    destruct (freeze_ok _ _ _ Hcs) as (_ & _ & Hn).
    assert (NoDup (map tr_name (sort_by name_leb cs))) as Hnd' by (rewrite sorted_names, Hn; done).
    rewrite (proj2 (fill_by_name_ok [] (sort_by name_leb cs) _) (conj (conj Hnd' (λ _ _, eq_refl)) eq_refl)). cbn [mbind result_bind].
    rewrite (foldl_named [] _ Hnd') by done. cbn [app].
    destruct (new_view_ok (mget (named (sort_by name_leb cs))) (sort_by name_leb cs)) as (v & -> & _); [by intros r; apply get_self|done|].
    by eexists.
  - intros g Hg. destruct (new_registry_ok _ _ _ Hg) as (_ & _ & [(cs & Hall & Er) Hnd Eb [_ Ei]]).
    unfold registry_get. rewrite Eb. split; [rewrite Er; apply name_sorted|]. split; [intros n c; rewrite named_get by done; tauto|].
    split; [|split; [|done]].
    + intros c Hc. rewrite Er, sort_by_elem in Hc.
      apply list_elem_of_lookup in Hc as [i Hi]. destruct (Forall2_lookup_r _ _ _ _ _ Hall Hi) as (r & Hr & Hf).
      exists r. split; [by eapply list_elem_of_lookup_2|done].
    + intros r Hr. apply list_elem_of_lookup in Hr as [i Hi]. destruct (Forall2_lookup_l _ _ _ _ _ Hall Hi) as (c & Hc & Hf).
      exists c. split; [|done]. apply named_get; [done|]. split; [rewrite Er, sort_by_elem; by eapply list_elem_of_lookup_2|].
      by destruct Hf as (? & ? & _ & ->).
Qed.

Lemma visible_records (g : GatewayToolRegistry ZodType) names visible :
  map_result (λ name, match registry_get g name with
                      | Some record => Ok record
                      | None => Throw (JsError RangeError (js "unknown Gateway tool in registry view: " ++ name))
                      end) names = Ok visible ↔
  Forall2 (λ n c, registry_get g n = Some c) names visible.
Proof.
  rewrite map_result_ok. split; intros E; (eapply Forall2_impl; [exact E|]); intros n c; cbn.
  - destruct (registry_get g n); [by intros [= ->]|done].
  - by intros ->.
Qed.

Lemma visible_names rs (g : GatewayToolRegistry ZodType) names visible : registry_ok rs g → Forall2 (λ n c, registry_get g n = Some c) names visible →
  map tr_name visible = names.
Proof.
  intros [_ Hnd Eb _] Hf. induction Hf as [|n c names visible Hc _ IH]; [done|]. cbn. f_equal; [|done].
  unfold registry_get in Hc. rewrite Eb in Hc. by apply named_get in Hc as [_ ?].
Qed.

(** The view of the records found for a list of names. *)
Lemma visible_view rs (g : GatewayToolRegistry ZodType) names visible : registry_ok rs g →
  Forall2 (λ n c, registry_get g n = Some c) (unique names) visible →
  let sorted := sort_by name_leb visible in
  ∃ v, newRegistryView (registry_get g) sorted = Ok v ∧ vw_records v = sorted ∧ vw_byName v = named sorted ∧
       vw_index v = capabilityIndexFor sorted ∧ NoDup (map tr_name sorted).
Proof.
  intros Hok Hf sorted. pose proof Hok as [_ Hnd Eb _]. pose proof (visible_names _ _ _ _ Hok Hf) as En.
  assert (NoDup (map tr_name sorted)) as Hnd' by (unfold sorted; rewrite sorted_names, En; apply unique_nodup).
  destruct (new_view_ok (registry_get g) sorted) as (v & Ev & Er & Evb & Evi); [|done|].
  - intros r Hr. unfold sorted in Hr. rewrite sort_by_elem in Hr. apply list_elem_of_lookup in Hr as [i Hi].
    destruct (Forall2_lookup_r _ _ _ _ _ Hf Hi) as (n & _ & Hr). unfold registry_get in Hr |- *. rewrite Eb in Hr |- *.
    apply named_get in Hr as [Hr _]; [|done]. by apply get_self.
  - unfold sorted in Er, Evb, Evi. rewrite sort_sorted in Er, Evb, Evi. eauto 10.
Qed.

(** A view keeps its records under their names, in the order of the names. *)
Lemma registry_view_named address rs (g : GatewayToolRegistry ZodType) names v :
  newToolRegistry toJSONSchema address rs = Ok g → registry_view g names = Ok v →
  vw_byName v = named (vw_records v) ∧ NoDup (map tr_name (vw_records v)) ∧
  StronglySorted (λ a b, name_leb a b = true) (vw_records v).
Proof.
  intros (_ & _ & Hok)%new_registry_ok Hv. unfold registry_view in Hv. apply bind_ok in Hv as (visible & Hf%visible_records & Hv).
  destruct (visible_view _ _ _ _ Hok Hf) as (v' & Ev & Er & Evb & _ & Hnd). rewrite Hv in Ev. injection Ev as <-.
  rewrite Er. split; [done|]. split; [done|]. apply name_sorted.
Qed.

(** A view shows exactly the tools it was asked for. It exists when the registry
    knows every name; then a lookup gives the registry's record for a name that was
    asked for and nothing for any other, and the capability index lists each of them
    once, by name. *)
Theorem registry_view_exact address rs (g : GatewayToolRegistry ZodType) names :
  newToolRegistry toJSONSchema address rs = Ok g →
  ((∃ v, registry_view g names = Ok v) ↔ ∀ n, n ∈ names → is_Some (registry_get g n)) ∧
  ∀ v, registry_view g names = Ok v →
    (∀ n, view_get v n = if bool_decide (n ∈ names) then registry_get g n else None) ∧
    map ct_name (vw_index v) = sort_by str_leb (unique names).
Proof.
  intros Hg. destruct (new_registry_ok _ _ _ Hg) as (_ & _ & Hok). pose proof Hok as [_ Hnd Eb _].
  pose proof (λ visible, visible_view _ _ names visible Hok) as Hview. cbv zeta in Hview.
  split; [split|].
  - intros [v Hv] n Hn. unfold registry_view in Hv. apply bind_ok in Hv as (visible & Hf%visible_records & _).
    apply (unique_elem names) in Hn. apply list_elem_of_lookup in Hn as [i Hi].
    destruct (Forall2_lookup_l _ _ _ _ _ Hf Hi) as (c & _ & ->). by eexists.
  - intros Hall. assert (∃ visible, Forall2 (λ n c, registry_get g n = Some c) (unique names) visible) as [visible Hf].
    { assert (∀ n, n ∈ unique names → is_Some (registry_get g n)) as Hu by (intros n Hn; by apply Hall, unique_elem).
      clear Hview. induction (unique names) as [|n ns IH]; [by exists []|]. destruct (Hu n (list_elem_of_here _ _)) as [c Hc].
      destruct IH as [cs Hcs]; [intros; apply Hu; by right|]. exists (c :: cs). by constructor. }
    destruct (Hview visible Hf) as (v & Ev & _). exists v. unfold registry_view. by rewrite (proj2 (visible_records _ _ _) Hf).
  - intros v Hv. unfold registry_view in Hv. apply bind_ok in Hv as (visible & Hf%visible_records & Hv).
    destruct (Hview visible Hf) as (v' & Ev & _ & Evb & Evi & Hnd'). rewrite Hv in Ev. injection Ev as <-.
    pose proof (visible_names _ _ _ _ Hok Hf) as En. split.
    + intros n. unfold view_get. rewrite Evb. case_bool_decide as Hn.
      * apply (unique_elem names) in Hn. apply list_elem_of_lookup in Hn as [i Hi].
        destruct (Forall2_lookup_l _ _ _ _ _ Hf Hi) as (c & Hc & E). rewrite E.
        apply named_get; [done|]. rewrite sort_by_elem. split; [by eapply list_elem_of_lookup_2|].
        unfold registry_get in E. rewrite Eb in E. by apply named_get in E as [_ ?].
      * apply mget_none. rewrite named_names, sorted_names, En. by rewrite unique_elem.
    + rewrite Evi. unfold capabilityIndexFor. rewrite map_map. cbn.
      apply (sorted_perm_unique (λ a b, str_leb a b = true)).
      * intros a b ? ? H1 H2. by apply str_leb_antisym.
      * clear. pose proof (name_sorted visible) as Hs. induction Hs as [|r l _ IH Hr]; cbn; constructor; [done|].
        apply Forall_map. exact Hr.
      * apply sort_by_sorted; [apply str_leb_total|apply str_leb_trans].
      * change (map (λ r, tr_name r) ?l) with (map tr_name l). rewrite sorted_names, En. by rewrite sort_by_perm.
Qed.
End registry.

(** ** Witnesses *)

(** The schema of a tool without input. *)
Definition empty_schema : jsval := obj [
  (js "$schema", VStr JSON_SCHEMA_2020_12_URI); (js "additionalProperties", VBool false); (js "properties", obj []);
  (js "type", VStr (js "object"))].

Definition demo_tool (name : jstr) : GatewayToolRecord unit := {|
  tr_object := 0; tr_name := name; tr_summary := js "Read the current Revit user-interface state."; tr_namespace := js "core";
  tr_version := js "1.0.0"; tr_policyClass := class_auto; tr_mutationScopePolicy := policy_none; tr_executor := executor_bridge;
  tr_executorMethod := js "get_ui_state"; tr_plainSchema := true; tr_inputSchema := []; tr_inputJsonSchema := empty_schema |}.

Definition demo_tools : list (GatewayToolRecord unit) := [demo_tool (js "core.ui.state"); demo_tool (js "core.ping")].

Lemma registry_view_exact_witness :
  ∃ g v, newToolRegistry (λ _, empty_schema) 10 demo_tools = Ok g ∧ registry_view g [js "core.ping"] = Ok v ∧
    view_get v (js "core.ui.state") = None.
Proof.
  destruct (newToolRegistry (λ _, empty_schema) 10 demo_tools) as [g|e] eqn:Eg; [|exfalso; revert Eg; vm_compute; discriminate].
  destruct (registry_view_exact (λ _, empty_schema) 10 demo_tools g [js "core.ping"] Eg) as [[_ Hv] Hspec].
  destruct Hv as [v Ev].
  { intros n ->%list_elem_of_singleton. revert Eg. vm_compute. intros [= <-]. by eexists. }
  exists g, v. split; [reflexivity|]. split; [exact Ev|].
  rewrite (proj1 (Hspec v Ev)). vm_compute. reflexivity.
Defined.
End RegistryFacts.
