(* ===== verification/Confirmation.v ===== *)
(** Confirmation of a mutation by its user: packages/gateway/src/confirmationAuthority.ts.

    A preview issues a token bound to one actor, session, route, tool call and
    document; the commit presents it, and a transaction of the protocol store
    validates and consumes it.  [createPendingAction] is cut at its call of
    [transact] ([issue_prepare], [issue_finish]); an operation inside a transaction
    takes the transaction's reads and returns the writes it staged.

    The schemas are the source's; zod, which runs them, is a parameter ([Zod]) with
    its documented meaning as a law ([ZodOk]). *)

From stdpp Require Import relations.
From S2P Require Import Prelude JsString JsValue JsMap Canonical Sha256 JsonText ProtocolStore Identifiers InvocationContext.

Import JsMap.

(** ** Schemas *)

(** The combinators the source uses. *)
Inductive zschema :=
| z_string (min max : Z)
| z_regex (pattern : jstr → bool)
| z_literal (value : jstr)
| z_enum (values : list jstr)
| z_safe_nonnegative
| z_nullable (inner : zschema)
| z_strict_object (fields : list (jstr * zschema))
| z_union (options : list zschema).

(** What the documentation says a schema accepts. *)
Fixpoint conforms (schema : zschema) (v : jsval) {struct schema} : bool :=
  match schema with
  | z_string min max =>
      match v with VStr s => (min <=? Z.of_nat (length s)) && (Z.of_nat (length s) <=? max) | _ => false end
  | z_regex pattern => match v with VStr s => pattern s | _ => false end
  | z_literal value => match v with VStr s => s === value | _ => false end
  | z_enum values => match v with VStr s => bool_decide (s ∈ values) | _ => false end
  | z_safe_nonnegative => match v with VNum n => isSafeInteger n && (0 <=? num_Z n) | _ => false end
  | z_nullable inner => match v with VNull => true | _ => conforms inner v end
  | z_strict_object fields =>
      match v with
      | VObj _ members =>
          forallb (λ m, bool_decide (m.1 ∈ map fst fields)) members &&
          (fix each (fields : list (jstr * zschema)) : bool :=
             match fields with
             | [] => true
             | (k, field) :: fields =>
                 match mget members k with Some x => conforms field x | None => false end && each fields
             end) fields
      | _ => false
      end
  | z_union options =>
      (fix some (options : list zschema) : bool :=
         match options with [] => false | o :: options => conforms o v || some options end) options
  end.

Class Zod := safeParse : zschema → jsval → bool.
Class ZodOk (zod : Zod) : Prop := safeParse_conforms schema v : safeParse schema v = conforms schema v.

Module Confirmation.
Import Canonical JsonText ProtocolStore Identifiers InvocationContext.

(** ** Constants and schemas *)

Definition GATEWAY_CONFIRMATION_NAMESPACE : jstr := js "gateway.confirmation-authority/v1".
Definition GATEWAY_CONFIRMATION_AUDIT_NAMESPACE : jstr := js "gateway.confirmation-approval-audit/v1".
Definition GATEWAY_CONFIRMATION_CONTRACT_VERSION : jstr := js "revagent.gateway-confirmation/v1".
Definition GATEWAY_CONFIRMATION_AUDIT_CONTRACT_VERSION : jstr := js "revagent.gateway-confirmation-approval-audit/v1".
Definition GATEWAY_CONFIRMATION_TTL_MS : Z := 10 * 60 * 1000.

Definition TOKEN_PREFIX : jstr := js "rvc2".

Definition TOKEN_SECRET_PATTERN (s : jstr) : bool :=
  (43 <=? length s)%nat && (length s <=? 128)%nat &&
  forallb (λ c, is_upper c || is_lower c || is_digit c || (c =? 95) || (c =? 45)) s.

Definition DIGEST_PATTERN : jstr → bool := sha256_pattern.
Definition DIGEST_HEX_PATTERN (s : jstr) : bool := (length s =? 64)%nat && forallb is_lower_hex s.

Definition mutationScopeSchema : zschema := z_union [
  z_strict_object [(js "kind", z_literal (js "session"))];
  z_strict_object [(js "kind", z_literal (js "document")); (js "document_id", z_string 1 4096)]].

Definition pendingActionSchema : zschema := z_strict_object [
  (js "contractVersion", z_literal GATEWAY_CONFIRMATION_CONTRACT_VERSION);
  (js "state", z_enum [js "pending"; js "consumed"; js "expired"]);
  (js "confirmationId", z_string 1 512);
  (js "tokenDigest", z_regex DIGEST_PATTERN);
  (js "tenantId", z_string 1 512);
  (js "principalKey", z_string 1 512);
  (js "principalKeyHash", z_regex DIGEST_PATTERN);
  (js "userId", z_string 1 512);
  (js "gatewaySessionId", z_string 1 512);
  (js "confirmationSessionId", z_string 1 512);
  (js "effectiveMcpSessionIdHash", z_regex DIGEST_PATTERN);
  (js "oauthClientId", z_nullable (z_string 1 512));
  (js "rsid", z_string 1 512);
  (js "toolName", z_string 1 512);
  (js "toolVersion", z_string 1 128);
  (js "commitArgsDigest", z_regex DIGEST_PATTERN);
  (js "mutationScope", mutationScopeSchema);
  (js "mutationScopeDigest", z_regex DIGEST_PATTERN);
  (js "documentIdentityDigest", z_regex DIGEST_PATTERN);
  (js "originatingPreviewInvocationId", z_string 1 512);
  (js "previewDigest", z_regex DIGEST_PATTERN);
  (js "previewRef", z_string 1 2048);
  (js "issuedAtMs", z_safe_nonnegative);
  (js "expiresAtMs", z_safe_nonnegative);
  (js "consumedAtMs", z_nullable z_safe_nonnegative);
  (js "commitInvocationId", z_nullable (z_string 1 512))].

Definition approvalAuditSchema : zschema := z_strict_object [
  (js "contractVersion", z_literal GATEWAY_CONFIRMATION_AUDIT_CONTRACT_VERSION);
  (js "state", z_literal (js "approved"));
  (js "confirmationId", z_string 1 512);
  (js "tenantId", z_string 1 512);
  (js "principalKey", z_string 1 512);
  (js "principalKeyHash", z_regex DIGEST_PATTERN);
  (js "userId", z_string 1 512);
  (js "gatewaySessionId", z_string 1 512);
  (js "confirmationSessionId", z_string 1 512);
  (js "effectiveMcpSessionIdHash", z_regex DIGEST_PATTERN);
  (js "oauthClientId", z_nullable (z_string 1 512));
  (js "rsid", z_string 1 512);
  (js "toolName", z_string 1 512);
  (js "toolVersion", z_string 1 128);
  (js "commitArgsDigest", z_regex DIGEST_PATTERN);
  (js "originatingPreviewInvocationId", z_string 1 512);
  (js "commitInvocationId", z_string 1 512);
  (js "approvedAtMs", z_safe_nonnegative)].

(** ** Data *)

Inductive action_state := state_pending | state_consumed | state_expired.

#[export] Instance action_state_eq_dec : EqDecision action_state.
Proof. solve_decision. Defined.

Record GatewayPendingActionRecord := {
  cf_contractVersion : jstr; cf_state : action_state; cf_confirmationId : jstr; cf_tokenDigest : jstr;
  cf_tenantId : jstr; cf_principalKey : jstr; cf_principalKeyHash : jstr; cf_userId : jstr;
  cf_gatewaySessionId : jstr; cf_confirmationSessionId : jstr; cf_effectiveMcpSessionIdHash : jstr;
  cf_oauthClientId : option jstr; cf_rsid : jstr; cf_toolName : jstr; cf_toolVersion : jstr;
  cf_commitArgsDigest : jstr; cf_mutationScope : GatewayMutationScope; cf_mutationScopeDigest : jstr;
  cf_documentIdentityDigest : jstr; cf_originatingPreviewInvocationId : jstr; cf_previewDigest : jstr;
  cf_previewRef : jstr; cf_issuedAtMs : jsnum; cf_expiresAtMs : jsnum; cf_consumedAtMs : option jsnum;
  cf_commitInvocationId : option jstr }.

Record GatewayConfirmationApprovalAuditRecord := {
  aa_confirmationId : jstr; aa_tenantId : jstr; aa_principalKey : jstr; aa_principalKeyHash : jstr; aa_userId : jstr;
  aa_gatewaySessionId : jstr; aa_confirmationSessionId : jstr; aa_effectiveMcpSessionIdHash : jstr;
  aa_oauthClientId : option jstr; aa_rsid : jstr; aa_toolName : jstr; aa_toolVersion : jstr; aa_commitArgsDigest : jstr;
  aa_originatingPreviewInvocationId : jstr; aa_commitInvocationId : jstr; aa_approvedAtMs : jsnum }.

Record GatewayPendingActionBinding := {
  pb_tenantId : jstr; pb_principalKey : jstr; pb_userId : jstr; pb_gatewaySessionId : jstr;
  pb_confirmationSessionId : jstr; pb_oauthClientId : option jstr; pb_rsid : jstr; pb_toolName : jstr;
  pb_toolVersion : jstr; pb_commitArgsDigest : jstr; pb_mutationScope : GatewayMutationScope;
  pb_documentIdentity : GatewayDocumentIdentity }.

Record GatewayPendingActionIssueInput := {
  ii_binding : GatewayPendingActionBinding; ii_scope : EffectiveMcpRequestScopeV1;
  ii_originatingPreviewInvocationId : jstr; ii_previewDigest : jstr; ii_previewRef : jstr }.

Record GatewayConfirmationProof := {
  cp_confirmToken : jstr; cp_originatingPreviewInvocationId : jstr; cp_commitInvocationId : jstr;
  cp_binding : GatewayPendingActionBinding; cp_scope : EffectiveMcpRequestScopeV1 }.

Inductive GatewayConfirmationRefusalReason :=
| malformed_token | not_found | replayed | confirmation_expired | foreign_tenant | foreign_actor | foreign_session
| route_mismatch | tool_mismatch | tool_version_mismatch | args_mismatch | scope_mismatch | document_mismatch
| preview_mismatch.

Record GatewayConfirmationStoreFailure := { sf_code : StoreErrorCode; sf_message : jstr }.

Inductive GatewayPendingActionIssueResult :=
| issued (confirmToken : jstr) (pendingAction : GatewayPendingActionRecord)
| issue_unavailable (failure : GatewayConfirmationStoreFailure).

Inductive GatewayConfirmationValidationResult :=
| validated (pendingAction : GatewayPendingActionRecord) (storedVersion : Z) (recordKey : jstr)
| rejected (reason : GatewayConfirmationRefusalReason) (confirmationId : option jstr)
           (pendingAction : option GatewayPendingActionRecord).

(** ** Values *)

Definition state_name (s : action_state) : jstr :=
  match s with state_pending => js "pending" | state_consumed => js "consumed" | state_expired => js "expired" end.

Definition scope_value (s : GatewayMutationScope) : jsval :=
  match s with
  | session_scope => obj [(js "kind", VStr (js "session"))]
  | document_scope id => obj [(js "kind", VStr (js "document")); (js "document_id", VStr id)]
  end.

Definition document_value (d : GatewayDocumentIdentity) : jsval :=
  match d with
  | live_document id => obj [(js "kind", VStr (js "live")); (js "session_document_id", VStr id)]
  | published_document project item version number =>
      obj [(js "kind", VStr (js "published")); (js "acc_project_id", VStr project); (js "item_urn", VStr item);
           (js "version_urn", VStr version); (js "version_number", VNum number)]
  | unknown_document kind => obj [(js "kind", VStr kind)]
  end.

Definition opt_num (o : option jsnum) : jsval := match o with None => VNull | Some n => VNum n end.

Definition action_value (r : GatewayPendingActionRecord) : jsval := obj [
  (js "contractVersion", VStr (cf_contractVersion r)); (js "state", VStr (state_name (cf_state r)));
  (js "confirmationId", VStr (cf_confirmationId r)); (js "tokenDigest", VStr (cf_tokenDigest r));
  (js "tenantId", VStr (cf_tenantId r)); (js "principalKey", VStr (cf_principalKey r));
  (js "principalKeyHash", VStr (cf_principalKeyHash r)); (js "userId", VStr (cf_userId r));
  (js "gatewaySessionId", VStr (cf_gatewaySessionId r)); (js "confirmationSessionId", VStr (cf_confirmationSessionId r));
  (js "effectiveMcpSessionIdHash", VStr (cf_effectiveMcpSessionIdHash r)); (js "oauthClientId", opt_str (cf_oauthClientId r));
  (js "rsid", VStr (cf_rsid r)); (js "toolName", VStr (cf_toolName r)); (js "toolVersion", VStr (cf_toolVersion r));
  (js "commitArgsDigest", VStr (cf_commitArgsDigest r)); (js "mutationScope", scope_value (cf_mutationScope r));
  (js "mutationScopeDigest", VStr (cf_mutationScopeDigest r)); (js "documentIdentityDigest", VStr (cf_documentIdentityDigest r));
  (js "originatingPreviewInvocationId", VStr (cf_originatingPreviewInvocationId r));
  (js "previewDigest", VStr (cf_previewDigest r)); (js "previewRef", VStr (cf_previewRef r));
  (js "issuedAtMs", VNum (cf_issuedAtMs r)); (js "expiresAtMs", VNum (cf_expiresAtMs r));
  (js "consumedAtMs", opt_num (cf_consumedAtMs r)); (js "commitInvocationId", opt_str (cf_commitInvocationId r))].

Definition audit_value (a : GatewayConfirmationApprovalAuditRecord) : jsval := obj [
  (js "contractVersion", VStr GATEWAY_CONFIRMATION_AUDIT_CONTRACT_VERSION); (js "state", VStr (js "approved"));
  (js "confirmationId", VStr (aa_confirmationId a)); (js "tenantId", VStr (aa_tenantId a));
  (js "principalKey", VStr (aa_principalKey a)); (js "principalKeyHash", VStr (aa_principalKeyHash a));
  (js "userId", VStr (aa_userId a)); (js "gatewaySessionId", VStr (aa_gatewaySessionId a));
  (js "confirmationSessionId", VStr (aa_confirmationSessionId a));
  (js "effectiveMcpSessionIdHash", VStr (aa_effectiveMcpSessionIdHash a)); (js "oauthClientId", opt_str (aa_oauthClientId a));
  (js "rsid", VStr (aa_rsid a)); (js "toolName", VStr (aa_toolName a)); (js "toolVersion", VStr (aa_toolVersion a));
  (js "commitArgsDigest", VStr (aa_commitArgsDigest a));
  (js "originatingPreviewInvocationId", VStr (aa_originatingPreviewInvocationId a));
  (js "commitInvocationId", VStr (aa_commitInvocationId a)); (js "approvedAtMs", VNum (aa_approvedAtMs a))].

(** The fields of a value, read at the type its schema has checked. *)
Definition member (v : jsval) (k : string) : jsval :=
  match v with VObj _ members => nullish (mget members (js k)) VUndefined | _ => VUndefined end.
Definition str_of (v : jsval) : jstr := match v with VStr s => s | _ => [] end.
Definition opt_str_of (v : jsval) : option jstr := match v with VStr s => Some s | _ => None end.
Definition num_of (v : jsval) : jsnum := match v with VNum n => n | _ => JNaN end.
Definition opt_num_of (v : jsval) : option jsnum := match v with VNum n => Some n | _ => None end.
Definition state_of (s : jstr) : action_state :=
  if s === js "consumed" then state_consumed else if s === js "expired" then state_expired else state_pending.
Definition scope_of (v : jsval) : GatewayMutationScope :=
  if str_of (member v "kind") === js "session" then session_scope else document_scope (str_of (member v "document_id")).

Definition action_of (v : jsval) : GatewayPendingActionRecord := {|
  cf_contractVersion := str_of (member v "contractVersion"); cf_state := state_of (str_of (member v "state"));
  cf_confirmationId := str_of (member v "confirmationId"); cf_tokenDigest := str_of (member v "tokenDigest");
  cf_tenantId := str_of (member v "tenantId"); cf_principalKey := str_of (member v "principalKey");
  cf_principalKeyHash := str_of (member v "principalKeyHash"); cf_userId := str_of (member v "userId");
  cf_gatewaySessionId := str_of (member v "gatewaySessionId");
  cf_confirmationSessionId := str_of (member v "confirmationSessionId");
  cf_effectiveMcpSessionIdHash := str_of (member v "effectiveMcpSessionIdHash");
  cf_oauthClientId := opt_str_of (member v "oauthClientId"); cf_rsid := str_of (member v "rsid");
  cf_toolName := str_of (member v "toolName"); cf_toolVersion := str_of (member v "toolVersion");
  cf_commitArgsDigest := str_of (member v "commitArgsDigest"); cf_mutationScope := scope_of (member v "mutationScope");
  cf_mutationScopeDigest := str_of (member v "mutationScopeDigest");
  cf_documentIdentityDigest := str_of (member v "documentIdentityDigest");
  cf_originatingPreviewInvocationId := str_of (member v "originatingPreviewInvocationId");
  cf_previewDigest := str_of (member v "previewDigest"); cf_previewRef := str_of (member v "previewRef");
  cf_issuedAtMs := num_of (member v "issuedAtMs"); cf_expiresAtMs := num_of (member v "expiresAtMs");
  cf_consumedAtMs := opt_num_of (member v "consumedAtMs");
  cf_commitInvocationId := opt_str_of (member v "commitInvocationId") |}.

(** ** Tokens and keys *)

Section authority.
Context `{Hasher} `{Float64} `{Zod}.

Definition sha256_text (value : jstr) : jstr := js "sha256:" ++ sha256_hex (utf8_encode value).

Definition valueDigest (value : jsval) : result js_error jstr := makeParamsDigest value.

Definition digestHex (digest : jstr) : jstr := drop 7 digest.

(** Equal lengths and equal bytes. *)
Definition constantTimeEqual (left right : jstr) : bool := utf8_encode left === utf8_encode right.

Record TokenParts := {
  tp_confirmationId : jstr; tp_principalKeyHash : jstr; tp_effectiveMcpSessionIdHash : jstr; tp_tokenDigest : jstr }.

Definition tokenParts (token : jstr) : option TokenParts :=
  if (512 <? length token)%nat then None else
  match split_dot token with
  | [prefix; confirmationId; principalKeyHashHex; effectiveMcpSessionIdHashHex; secret] =>
      if (prefix !== TOKEN_PREFIX) || negb (isGatewayUuidV7 confirmationId) ||
         negb (DIGEST_HEX_PATTERN principalKeyHashHex) || negb (DIGEST_HEX_PATTERN effectiveMcpSessionIdHashHex) ||
         negb (TOKEN_SECRET_PATTERN secret)
      then None
      else Some {| tp_confirmationId := confirmationId;
                   tp_principalKeyHash := js "sha256:" ++ principalKeyHashHex;
                   tp_effectiveMcpSessionIdHash := js "sha256:" ++ effectiveMcpSessionIdHashHex;
                   tp_tokenDigest := sha256_text token |}
  | _ => None
  end.

Definition confirmationIdFromToken (token : jstr) : option jstr := tp_confirmationId <$> tokenParts token.

Definition recordKey (principalKeyHash effectiveMcpSessionIdHash rsid tokenDigest : jstr) : jstr :=
  principalKeyHash ++ js "/" ++ effectiveMcpSessionIdHash ++ js "/" ++ rsid ++ js "/" ++ digestHex tokenDigest.

Definition auditKey (principalKeyHash effectiveMcpSessionIdHash confirmationId : jstr) : jstr :=
  principalKeyHash ++ js "/" ++ effectiveMcpSessionIdHash ++ js "/" ++ confirmationId.

(** ** Records *)

(** The tests after the schema. *)
Definition violates_state (r : GatewayPendingActionRecord) : bool :=
  negb (isGatewayUuidV7 (cf_confirmationId r)) ||
  negb (isGatewayUuidV7 (cf_originatingPreviewInvocationId r)) ||
  (cf_expiresAtMs r !== num_add (cf_issuedAtMs r) (JInt GATEWAY_CONFIRMATION_TTL_MS)) ||
  ((cf_state r === state_pending) && (negb (is_null (cf_consumedAtMs r)) || negb (is_null (cf_commitInvocationId r)))) ||
  ((cf_state r === state_consumed) &&
   (is_null (cf_consumedAtMs r) ||
    match cf_commitInvocationId r with None => true | Some id => negb (isGatewayUuidV7 id) end)) ||
  ((cf_state r === state_expired) && negb (is_null (cf_commitInvocationId r))).

Definition decodePendingAction (value : jsval) : result js_error GatewayPendingActionRecord :=
  reject_if (negb (safeParse pendingActionSchema value)) TypeError
    "persisted pending action has an invalid contract shape" ;;
  reject_if (violates_state (action_of value)) TypeError "persisted pending action violates state invariants" ;;
  Ok (action_of value).

Definition rejection (reason : GatewayConfirmationRefusalReason) (confirmationId : option jstr)
    (pendingAction : option GatewayPendingActionRecord) : GatewayConfirmationValidationResult :=
  rejected reason confirmationId pendingAction.

Definition validateBinding (record : GatewayPendingActionRecord) (proof : GatewayConfirmationProof)
  : result js_error (option GatewayConfirmationRefusalReason) :=
  let binding := cp_binding proof in
  if cf_tenantId record !== pb_tenantId binding then Ok (Some foreign_tenant) else
  if (cf_principalKey record !== pb_principalKey binding) || (cf_userId record !== pb_userId binding)
  then Ok (Some foreign_actor) else
  if (cf_gatewaySessionId record !== pb_gatewaySessionId binding) ||
     (cf_confirmationSessionId record !== pb_confirmationSessionId binding) ||
     (cf_oauthClientId record !== pb_oauthClientId binding)
  then Ok (Some foreign_session) else
  if cf_rsid record !== pb_rsid binding then Ok (Some route_mismatch) else
  if cf_toolName record !== pb_toolName binding then Ok (Some tool_mismatch) else
  if cf_toolVersion record !== pb_toolVersion binding then Ok (Some tool_version_mismatch) else
  if cf_commitArgsDigest record !== pb_commitArgsDigest binding then Ok (Some args_mismatch) else
  scopeDigest ← valueDigest (scope_value (pb_mutationScope binding));
  if cf_mutationScopeDigest record !== scopeDigest then Ok (Some scope_mismatch) else
  documentDigest ← valueDigest (document_value (pb_documentIdentity binding));
  if cf_documentIdentityDigest record !== documentDigest then Ok (Some document_mismatch) else
  if cf_originatingPreviewInvocationId record !== cp_originatingPreviewInvocationId proof
  then Ok (Some preview_mismatch)
  else Ok None.

(** The AuthContext the authority makes up for the scope's own check. *)
Definition confirmation_auth (binding : GatewayPendingActionBinding) (scope : EffectiveMcpRequestScopeV1) (principalKey : jstr)
  : AuthContext := {|
  au_contractVersion := GATEWAY_AUTH_CONTRACT_VERSION;
  au_actor := {| ac_type := js "user"; ac_tenantId := pb_tenantId binding; ac_userId := pb_userId binding;
                 ac_role := role_user; ac_oidcIssuer := js "confirmation-authority"; ac_oidcSubject := pb_userId binding |};
  au_session := {| as_sessionId := pb_gatewaySessionId binding; as_clientType := client_mcp;
                   as_mcpSessionId := Some (es_effectiveMcpSessionId scope); as_oauthClientId := pb_oauthClientId binding |};
  au_principalKey := principalKey; au_issuedAtMs := 0; au_expiresAtMs := None |}.

Definition validateProofScope (proof : GatewayConfirmationProof) : option GatewayConfirmationRefusalReason :=
  let scope := cp_scope proof in
  match assertEffectiveMcpRequestScopeV1 scope (confirmation_auth (cp_binding proof) scope (es_principalKey scope))
          (es_effectiveMcpSessionId scope) with
  | Throw _ => Some scope_mismatch
  | Ok _ =>
      if es_principalKey scope !== pb_principalKey (cp_binding proof) then Some foreign_actor else
      if es_effectiveMcpSessionId scope !== pb_confirmationSessionId (cp_binding proof) then Some foreign_session else
      None
  end.

Definition confirmationSessionIdFor (auth : AuthContext) (dispatchMcpSessionId : jstr) : jstr :=
  nullish (as_mcpSessionId (au_session auth)) dispatchMcpSessionId.

(** ** Issuing *)

Definition error_message (e : context_error) : jstr :=
  match e with GatewayInvocationContextError _ message => message | other_error e => err_message e end.

Definition pending_action (input : GatewayPendingActionIssueInput) (nowMs : jsnum)
    (confirmationId principalKeyHash effectiveMcpSessionIdHash tokenDigest scopeDigest documentDigest : jstr)
  : GatewayPendingActionRecord :=
  let binding := ii_binding input in {|
  cf_contractVersion := GATEWAY_CONFIRMATION_CONTRACT_VERSION; cf_state := state_pending;
  cf_confirmationId := confirmationId; cf_tokenDigest := tokenDigest; cf_tenantId := pb_tenantId binding;
  cf_principalKey := pb_principalKey binding; cf_principalKeyHash := principalKeyHash; cf_userId := pb_userId binding;
  cf_gatewaySessionId := pb_gatewaySessionId binding; cf_confirmationSessionId := pb_confirmationSessionId binding;
  cf_effectiveMcpSessionIdHash := effectiveMcpSessionIdHash; cf_oauthClientId := pb_oauthClientId binding;
  cf_rsid := pb_rsid binding; cf_toolName := pb_toolName binding; cf_toolVersion := pb_toolVersion binding;
  cf_commitArgsDigest := pb_commitArgsDigest binding; cf_mutationScope := pb_mutationScope binding;
  cf_mutationScopeDigest := scopeDigest; cf_documentIdentityDigest := documentDigest;
  cf_originatingPreviewInvocationId := ii_originatingPreviewInvocationId input;
  cf_previewDigest := ii_previewDigest input; cf_previewRef := ii_previewRef input; cf_issuedAtMs := nowMs;
  cf_expiresAtMs := num_add nowMs (JInt GATEWAY_CONFIRMATION_TTL_MS); cf_consumedAtMs := None;
  cf_commitInvocationId := None |}.

Definition storeFailure (code : StoreErrorCode) (message : jstr) : GatewayConfirmationStoreFailure :=
  {| sf_code := code; sf_message := message |}.

(** What [createPendingAction] hands to its transaction. *)
Record Issue := { is_token : jstr; is_action : GatewayPendingActionRecord; is_tenantId : jstr; is_write : StoreWrite }.

(** Up to the call of [transact]; [nowMs] is the clock's value, [newConfirmationId] and
    [secret] come from the options. *)
Definition issue_prepare (newConfirmationId : jsnum → result js_error jstr) (input : GatewayPendingActionIssueInput)
    (nowMs : jsnum) (secret : jstr) : result js_error (GatewayConfirmationStoreFailure + Issue) :=
  let binding := ii_binding input in
  match assertEffectiveMcpRequestScopeV1 (ii_scope input) (confirmation_auth binding (ii_scope input) (pb_principalKey binding))
          (pb_confirmationSessionId binding) with
  | Throw e => Ok (inl (storeFailure invalid_record (error_message e)))
  | Ok _ =>
      confirmationId ← newConfirmationId nowMs;
      if negb (isGatewayUuidV7 confirmationId) || negb (isGatewayUuidV7 (ii_originatingPreviewInvocationId input)) ||
         negb (TOKEN_SECRET_PATTERN secret)
      then Ok (inl (storeFailure invalid_record (js "confirmation authority generated an invalid identifier"))) else
      let principalKeyHash := sha256_text (es_principalKey (ii_scope input)) in
      let effectiveMcpSessionIdHash := sha256_text (es_effectiveMcpSessionId (ii_scope input)) in
      let confirmToken := TOKEN_PREFIX ++ js "." ++ confirmationId ++ js "." ++ digestHex principalKeyHash ++ js "." ++
                          digestHex effectiveMcpSessionIdHash ++ js "." ++ secret in
      let tokenDigest := sha256_text confirmToken in
      scopeDigest ← valueDigest (scope_value (pb_mutationScope binding));
      documentDigest ← valueDigest (document_value (pb_documentIdentity binding));
      let action := pending_action input nowMs confirmationId principalKeyHash effectiveMcpSessionIdHash tokenDigest
                      scopeDigest documentDigest in
      match decodePendingAction (action_value action) with
      | Throw e => Ok (inl (storeFailure unavailable (err_message e)))
      | Ok _ => Ok (inr {|
          is_token := confirmToken; is_action := action; is_tenantId := pb_tenantId binding;
          is_write := {| sw_namespace := GATEWAY_CONFIRMATION_NAMESPACE;
                         sw_key := recordKey principalKeyHash effectiveMcpSessionIdHash (pb_rsid binding) tokenDigest;
                         sw_value := Some (action_value action); sw_expect := expect_absent |} |})
      end
  end.

(** From the outcome of [transact], or its rejection. *)
Definition issue_finish (issue : Issue) (outcome : result js_error (StoreOutcome unit)) : GatewayPendingActionIssueResult :=
  match outcome with
  | Ok (store_ok _) => issued (is_token issue) (is_action issue)
  | Ok (store_refused code message) => issue_unavailable (storeFailure code message)
  | Throw e => issue_unavailable (storeFailure unavailable (err_message e))
  end.

(** ** Validation and consumption *)

Definition with_expired (r : GatewayPendingActionRecord) (nowMs : jsnum) : GatewayPendingActionRecord := {|
  cf_contractVersion := cf_contractVersion r; cf_state := state_expired; cf_confirmationId := cf_confirmationId r;
  cf_tokenDigest := cf_tokenDigest r; cf_tenantId := cf_tenantId r; cf_principalKey := cf_principalKey r;
  cf_principalKeyHash := cf_principalKeyHash r; cf_userId := cf_userId r; cf_gatewaySessionId := cf_gatewaySessionId r;
  cf_confirmationSessionId := cf_confirmationSessionId r; cf_effectiveMcpSessionIdHash := cf_effectiveMcpSessionIdHash r;
  cf_oauthClientId := cf_oauthClientId r; cf_rsid := cf_rsid r; cf_toolName := cf_toolName r;
  cf_toolVersion := cf_toolVersion r; cf_commitArgsDigest := cf_commitArgsDigest r;
  cf_mutationScope := cf_mutationScope r; cf_mutationScopeDigest := cf_mutationScopeDigest r;
  cf_documentIdentityDigest := cf_documentIdentityDigest r;
  cf_originatingPreviewInvocationId := cf_originatingPreviewInvocationId r; cf_previewDigest := cf_previewDigest r;
  cf_previewRef := cf_previewRef r; cf_issuedAtMs := cf_issuedAtMs r; cf_expiresAtMs := cf_expiresAtMs r;
  cf_consumedAtMs := Some nowMs; cf_commitInvocationId := cf_commitInvocationId r |}.

Definition with_consumed (r : GatewayPendingActionRecord) (commitInvocationId : jstr) (consumedAtMs : jsnum)
  : GatewayPendingActionRecord := {|
  cf_contractVersion := cf_contractVersion r; cf_state := state_consumed; cf_confirmationId := cf_confirmationId r;
  cf_tokenDigest := cf_tokenDigest r; cf_tenantId := cf_tenantId r; cf_principalKey := cf_principalKey r;
  cf_principalKeyHash := cf_principalKeyHash r; cf_userId := cf_userId r; cf_gatewaySessionId := cf_gatewaySessionId r;
  cf_confirmationSessionId := cf_confirmationSessionId r; cf_effectiveMcpSessionIdHash := cf_effectiveMcpSessionIdHash r;
  cf_oauthClientId := cf_oauthClientId r; cf_rsid := cf_rsid r; cf_toolName := cf_toolName r;
  cf_toolVersion := cf_toolVersion r; cf_commitArgsDigest := cf_commitArgsDigest r;
  cf_mutationScope := cf_mutationScope r; cf_mutationScopeDigest := cf_mutationScopeDigest r;
  cf_documentIdentityDigest := cf_documentIdentityDigest r;
  cf_originatingPreviewInvocationId := cf_originatingPreviewInvocationId r; cf_previewDigest := cf_previewDigest r;
  cf_previewRef := cf_previewRef r; cf_issuedAtMs := cf_issuedAtMs r; cf_expiresAtMs := cf_expiresAtMs r;
  cf_consumedAtMs := Some consumedAtMs; cf_commitInvocationId := Some commitInvocationId |}.

Definition validatePendingAction (read : jstr → jstr → option StoredRecord) (proof : GatewayConfirmationProof) (nowMs : jsnum)
  : result js_error (GatewayConfirmationValidationResult * list StoreWrite) :=
  match tokenParts (cp_confirmToken proof) with
  | None => Ok (rejection malformed_token None None, [])
  | Some parts =>
      let id := Some (tp_confirmationId parts) in
      match validateProofScope proof with
      | Some scopeError => Ok (rejection scopeError id None, [])
      | None =>
          let expectedPrincipalKeyHash := sha256_text (es_principalKey (cp_scope proof)) in
          if negb (constantTimeEqual (tp_principalKeyHash parts) expectedPrincipalKeyHash)
          then Ok (rejection foreign_actor id None, []) else
          let expectedSessionHash := sha256_text (es_effectiveMcpSessionId (cp_scope proof)) in
          if negb (constantTimeEqual (tp_effectiveMcpSessionIdHash parts) expectedSessionHash)
          then Ok (rejection foreign_session id None, []) else
          let key := recordKey expectedPrincipalKeyHash expectedSessionHash (pb_rsid (cp_binding proof)) (tp_tokenDigest parts) in
          match read GATEWAY_CONFIRMATION_NAMESPACE key with
          | None => Ok (rejection not_found id None, [])
          | Some stored =>
              record ← decodePendingAction (sr_value stored);
              if negb (constantTimeEqual (cf_confirmationId record) (tp_confirmationId parts)) ||
                 negb (constantTimeEqual (cf_tokenDigest record) (tp_tokenDigest parts)) ||
                 negb (constantTimeEqual (cf_principalKeyHash record) (tp_principalKeyHash parts)) ||
                 negb (constantTimeEqual (cf_effectiveMcpSessionIdHash record) (tp_effectiveMcpSessionIdHash parts))
              then Ok (rejection not_found id None, []) else
              let id := Some (cf_confirmationId record) in
              if cf_state record === state_consumed then Ok (rejection replayed id (Some record), []) else
              if (cf_state record === state_expired) || num_geb nowMs (num_Z (cf_expiresAtMs record)) then
                Ok (rejection confirmation_expired id (Some record),
                    if cf_state record === state_pending
                    then [{| sw_namespace := GATEWAY_CONFIRMATION_NAMESPACE; sw_key := key;
                             sw_value := Some (action_value (with_expired record nowMs));
                             sw_expect := expect_version (JInt (sr_version stored)) |}]
                    else [])
              else
              bindingError ← validateBinding record proof;
              match bindingError with
              | Some reason => Ok (rejection reason id (Some record), [])
              | None => Ok (validated record (sr_version stored) key, [])
              end
          end
      end
  end.

Definition approval_audit (consumed : GatewayPendingActionRecord) (commitInvocationId : jstr) (consumedAtMs : jsnum)
  : GatewayConfirmationApprovalAuditRecord := {|
  aa_confirmationId := cf_confirmationId consumed; aa_tenantId := cf_tenantId consumed;
  aa_principalKey := cf_principalKey consumed; aa_principalKeyHash := cf_principalKeyHash consumed;
  aa_userId := cf_userId consumed; aa_gatewaySessionId := cf_gatewaySessionId consumed;
  aa_confirmationSessionId := cf_confirmationSessionId consumed;
  aa_effectiveMcpSessionIdHash := cf_effectiveMcpSessionIdHash consumed; aa_oauthClientId := cf_oauthClientId consumed;
  aa_rsid := cf_rsid consumed; aa_toolName := cf_toolName consumed; aa_toolVersion := cf_toolVersion consumed;
  aa_commitArgsDigest := cf_commitArgsDigest consumed;
  aa_originatingPreviewInvocationId := cf_originatingPreviewInvocationId consumed;
  aa_commitInvocationId := commitInvocationId; aa_approvedAtMs := consumedAtMs |}.

(** The record, the version and the key are those of a validation.  The text of the
    schema's error is zod's own. *)
Definition stageConsumption (pendingAction : GatewayPendingActionRecord) (storedVersion : Z) (key : jstr)
    (commitInvocationId : jstr) (consumedAtMs : jsnum)
  : result js_error (GatewayPendingActionRecord * list StoreWrite) :=
  reject_if (negb (isGatewayUuidV7 commitInvocationId)) TypeError "commit invocation id must be UUIDv7" ;;
  let consumed := with_consumed pendingAction commitInvocationId consumedAtMs in
  let approvalAudit := approval_audit consumed commitInvocationId consumedAtMs in
  reject_if (negb (safeParse approvalAuditSchema (audit_value approvalAudit))) PlainError "ZodError" ;;
  Ok (consumed,
      [{| sw_namespace := GATEWAY_CONFIRMATION_NAMESPACE; sw_key := key; sw_value := Some (action_value consumed);
          sw_expect := expect_version (JInt storedVersion) |};
       {| sw_namespace := GATEWAY_CONFIRMATION_AUDIT_NAMESPACE;
          sw_key := auditKey (cf_principalKeyHash consumed) (cf_effectiveMcpSessionIdHash consumed) (cf_confirmationId consumed);
          sw_value := Some (audit_value approvalAudit); sw_expect := expect_absent |}]).

End authority.
End Confirmation.

(** * Facts *)

Module ConfirmationFacts.
Import Canonical CanonicalFacts JsonText JsonTextFacts ProtocolStore ProtocolStoreFacts Identifiers InvocationContext
  InvocationContextFacts Confirmation.

(** ** Schemas *)

(** Every field of a strict object is there and conforms. *)
Definition fields_conform (members : list (jstr * jsval)) : list (jstr * zschema) → bool :=
  fix each fields :=
    match fields with
    | [] => true
    | (k, field) :: fields =>
        match mget members k with Some x => conforms field x | None => false end && each fields
    end.

Lemma fields_conform_aligned pre fields members :
  map fst fields = map fst members → NoDup (map fst (pre ++ members)) →
  fields_conform (pre ++ members) fields = true ↔ Forall2 (λ f m, conforms f.2 m.2 = true) fields members.
Proof.
  revert pre members. induction fields as [|[k f] fields IH]; intros pre [|[k' x] members] Ek Hnd; try done.
  cbn [map fst] in Ek. injection Ek as -> Ek. cbn [fields_conform]. fold (fields_conform (pre ++ (k', x) :: members)).
  rewrite mget_around by (rewrite map_app in Hnd; apply NoDup_app in Hnd as (_ & Hd & _); intros Hin; eapply Hd; [exact Hin|by left]).
  rewrite andb_true_iff, Forall2_cons. cbn [snd]. apply and_iff_compat_l.
  rewrite (cons_middle (k', x)), app_assoc in Hnd |- *. by apply IH.
Qed.

(** An object with exactly the schema's keys, in its order. *)
Lemma conforms_strict fields shape members :
  map fst fields = map fst members → NoDup (map fst members) →
  conforms (z_strict_object fields) (VObj shape members) = true ↔ Forall2 (λ f m, conforms f.2 m.2 = true) fields members.
Proof.
  intros Ek Hnd. transitivity (fields_conform members fields = true); [|by apply (fields_conform_aligned [])].
  cbn [conforms]. rewrite andb_true_iff. split; [by intros [_ ?]|]. intros Hf. split; [|done].
  apply forallb_true. intros m Hm. apply bool_decide_eq_true. rewrite Ek. apply list_elem_of_fmap. by exists m.
Qed.

Section authority.
Context `{Hasher} `{Float64} `{Zod}.
Context `{!HasherOk H, !Float64Ok H0, !ZodOk H1}.

(** ** Records *)

Definition action_fields : list (jstr * zschema) := match pendingActionSchema with z_strict_object fs => fs | _ => [] end.
Definition action_members (r : GatewayPendingActionRecord) : list (jstr * jsval) :=
  match action_value r with VObj _ ms => ms | _ => [] end.

(** Reading the fields of a record's own value gives the record. *)
Lemma action_of_value r : action_of (action_value r) = r.
Proof. destruct r as [? [] ? ? ? ? ? ? ? ? ? [] ? ? ? ? [] ? ? ? ? ? ? ? [] []]; reflexivity. Qed.

Lemma action_conforms r :
  safeParse pendingActionSchema (action_value r) = true ↔
  Forall2 (λ f m, conforms f.2 m.2 = true) action_fields (action_members r).
Proof.
  rewrite safeParse_conforms. apply (conforms_strict action_fields plain_shape (action_members r)); [reflexivity|].
  refine (bool_decide_unpack _ _). vm_compute. exact I.
Qed.

Definition action_valid (r : GatewayPendingActionRecord) : Prop :=
  Forall2 (λ f m, conforms f.2 m.2 = true) action_fields (action_members r) ∧ violates_state r = false.

Lemma decode_value r r' : decodePendingAction (action_value r) = Ok r' ↔ action_valid r ∧ r' = r.
Proof.
  unfold decodePendingAction, action_valid. rewrite !seq_ok, !is_ok_unit, !reject_if_ok, negb_false_iff, action_conforms, action_of_value.
  naive_solver.
Qed.

Lemma decode_ok v r : decodePendingAction v = Ok r ↔
  conforms pendingActionSchema v = true ∧ violates_state r = false ∧ r = action_of v.
Proof.
  unfold decodePendingAction. rewrite !seq_ok, !is_ok_unit, !reject_if_ok, negb_false_iff, safeParse_conforms. naive_solver.
Qed.

(** ** Tokens *)

Lemma forallb_without (p : Z → bool) c (s : jstr) : p c = false → forallb p s = true → c ∉ s.
Proof. rewrite forallb_true. intros Hp Hs Hc. apply Hs in Hc. congruence. Qed.

Lemma matches_without c pattern s : Forall (λ p : Z → bool, p c = false) pattern → matches pattern s = true → c ∉ s.
Proof.
  intros Hp. revert s. induction Hp as [|p pattern Hpc _ IH]; intros [|d s]; cbn; try done; [set_solver|].
  rewrite andb_true_iff. intros [Hd Hs] [->|Hin]%elem_of_cons; [congruence|]. by eapply IH.
Qed.

Lemma uuid_without_dot id : isGatewayUuidV7 id = true → 46 ∉ id.
Proof. apply matches_without. unfold UUID_V7_PATTERN. cbn [replicate app]. repeat constructor. Qed.

Lemma matches_length pattern s : matches pattern s = true → length s = length pattern.
Proof. revert s. induction pattern as [|p pattern IH]; intros [|c s]; cbn; try done. rewrite andb_true_iff. intros [_ ?]. f_equal. auto. Qed.

Lemma digestHex_sha256 s : digestHex (sha256_text s) = sha256_hex (utf8_encode s).
Proof. reflexivity. Qed.

Lemma sha256_hex_pattern bs : DIGEST_HEX_PATTERN (sha256_hex bs) = true.
Proof. destruct (sha256_hex_shape bs) as [Hl Hh]. unfold DIGEST_HEX_PATTERN. by rewrite Hl, Hh. Qed.

(** The token [issue_prepare] makes. *)
Definition make_token (id principalHash sessionHash secret : jstr) : jstr :=
  TOKEN_PREFIX ++ js "." ++ id ++ js "." ++ principalHash ++ js "." ++ sessionHash ++ js "." ++ secret.

Lemma token_parts id ph sh secret :
  isGatewayUuidV7 id = true → DIGEST_HEX_PATTERN ph = true → DIGEST_HEX_PATTERN sh = true → TOKEN_SECRET_PATTERN secret = true →
  tokenParts (make_token id ph sh secret) =
    Some {| tp_confirmationId := id; tp_principalKeyHash := js "sha256:" ++ ph;
            tp_effectiveMcpSessionIdHash := js "sha256:" ++ sh; tp_tokenDigest := sha256_text (make_token id ph sh secret) |}.
Proof.
  intros Hid Hph Hsh Hs. unfold tokenParts.
  assert (length (make_token id ph sh secret) ≤ 512)%nat as Hl.
  { pose proof (matches_length _ _ Hid) as L1. change (length UUID_V7_PATTERN) with 36%nat in L1. unfold DIGEST_HEX_PATTERN, TOKEN_SECRET_PATTERN in *. bsimp.
    repeat match goal with E : (_ =? _)%nat = true |- _ => apply Nat.eqb_eq in E | E : (_ <=? _)%nat = true |- _ => apply Nat.leb_le in E end.
    unfold make_token. rewrite !length_app, L1. change (length TOKEN_PREFIX) with 4%nat. change (length (js ".")) with 1%nat. lia. }
  rewrite (proj2 (Nat.ltb_ge _ _) Hl).
  assert (split_dot (make_token id ph sh secret) = [TOKEN_PREFIX; id; ph; sh; secret]) as ->.
  { unfold make_token. change (js ".") with [46]. cbn [app].
    unfold DIGEST_HEX_PATTERN, TOKEN_SECRET_PATTERN in *. bsimp.
    rewrite !split_dot_app; [rewrite split_dot_last; [done|]|..].
    - by eapply (forallb_without _ 46); [|eassumption].
    - by eapply (forallb_without _ 46); [|eassumption].
    - by eapply (forallb_without _ 46); [|eassumption].
    - by apply uuid_without_dot.
    - refine (bool_decide_unpack _ _). vm_compute. exact I. }
  cbv zeta. rewrite Hid, Hph, Hsh, Hs. reflexivity.
Qed.

(** ** Digests are compared exactly *)

Lemma hex_ascii s : forallb is_lower_hex s = true → is_ascii s = true.
Proof.
  unfold is_ascii. rewrite !forallb_true. intros Hs c Hc. specialize (Hs c Hc). unfold is_lower_hex, is_digit in Hs.
  rewrite andb_true_iff, Z.leb_le, Z.ltb_lt. apply orb_true_iff in Hs as [Hs|Hs]; bsimp; lia.
Qed.

Lemma ascii_app s t : is_ascii (s ++ t) = is_ascii s && is_ascii t.
Proof. apply forallb_app. Qed.

Lemma pattern_ascii d : DIGEST_PATTERN d = true → is_ascii d = true.
Proof.
  unfold DIGEST_PATTERN, sha256_pattern. intros Hd. bsimp. match goal with E : starts_with _ _ = true |- _ => apply starts_with_true in E as [t ->] end.
  rewrite ascii_app. apply andb_true_iff. split; [reflexivity|]. by apply hex_ascii.
Qed.

Lemma matches_ascii pattern s : Forall (λ p : Z → bool, ∀ c, p c = true → 0 <= c < 128) pattern →
  matches pattern s = true → is_ascii s = true.
Proof.
  intros Hp. revert s. induction Hp as [|p pattern Hpc _ IH]; intros [|c s]; cbn; try done.
  rewrite !andb_true_iff, Z.leb_le, Z.ltb_lt. intros [Hc Hs]. split; [by apply Hpc|by apply IH].
Qed.

Lemma uuid_ascii id : isGatewayUuidV7 id = true → is_ascii id = true.
Proof.
  apply matches_ascii. unfold UUID_V7_PATTERN.
  assert (∀ c, hex_class c = true → 0 <= c < 128) as Hh.
  { intros c Hc. pose proof (hex_ascii [c]) as Ha. cbn in Ha. unfold hex_class in Hc. rewrite Hc in Ha. specialize (Ha eq_refl). bsimp. lia. }
  assert (∀ k c, 0 <= k < 128 → Z.eqb k c = true → 0 <= c < 128) as He by (intros; bsimp; lia).
  assert (∀ c, variant_class c = true → 0 <= c < 128) as Hv.
  { intros c. unfold variant_class. rewrite !orb_true_iff, !Z.eqb_eq. lia. }
  cbn [replicate app]. repeat (constructor; [first [exact Hh | exact Hv | intros c; by apply He]|]). constructor.
Qed.

Lemma constantTimeEqual_ascii a b : is_ascii a = true → is_ascii b = true → constantTimeEqual a b = true ↔ a = b.
Proof.
  intros [Ha1 Ha2]%is_ascii_ok [Hb1 Hb2]%is_ascii_ok. unfold constantTimeEqual. rewrite bool_decide_eq_true.
  split; [by apply utf8_encode_inj|by intros ->].
Qed.

Lemma sha256_text_ascii s : is_ascii (sha256_text s) = true.
Proof. unfold sha256_text. rewrite ascii_app. cbn. apply hex_ascii. by destruct (sha256_hex_shape (utf8_encode s)). Qed.

(** ** Validation *)

(** The record was issued for this proof. *)
Record binds (r : GatewayPendingActionRecord) (proof : GatewayConfirmationProof) : Prop := {
  bi_tenant : cf_tenantId r = pb_tenantId (cp_binding proof);
  bi_principal : cf_principalKey r = pb_principalKey (cp_binding proof);
  bi_user : cf_userId r = pb_userId (cp_binding proof);
  bi_gateway_session : cf_gatewaySessionId r = pb_gatewaySessionId (cp_binding proof);
  bi_session : cf_confirmationSessionId r = pb_confirmationSessionId (cp_binding proof);
  bi_client : cf_oauthClientId r = pb_oauthClientId (cp_binding proof);
  bi_rsid : cf_rsid r = pb_rsid (cp_binding proof);
  bi_tool : cf_toolName r = pb_toolName (cp_binding proof);
  bi_version : cf_toolVersion r = pb_toolVersion (cp_binding proof);
  bi_args : cf_commitArgsDigest r = pb_commitArgsDigest (cp_binding proof);
  bi_scope : makeParamsDigest (scope_value (pb_mutationScope (cp_binding proof))) = Ok (cf_mutationScopeDigest r);
  bi_document : makeParamsDigest (document_value (pb_documentIdentity (cp_binding proof))) = Ok (cf_documentIdentityDigest r);
  bi_preview : cf_originatingPreviewInvocationId r = cp_originatingPreviewInvocationId proof }.

Lemma validateBinding_ok r proof : validateBinding r proof = Ok None ↔ binds r proof.
Proof.
  unfold validateBinding, valueDigest. split.
  - intros E. repeat match type of E with (if ?c then _ else _) = _ => destruct c eqn:?; [discriminate|] end.
    apply bind_ok in E as (sd & Hs & E). destruct (bool_decide (cf_mutationScopeDigest r = sd)) eqn:?; [|discriminate].
    cbn [negb] in E. apply bind_ok in E as (dd & Hd & E).
    repeat match type of E with (if ?c then _ else _) = _ => destruct c eqn:?; [discriminate|] end.
    bsimp. subst sd dd. by split.
  - intros []. rewrite !bool_decide_eq_true_2 by done. cbn [negb orb].
    rewrite bi_scope0. cbn [mbind result_bind]. rewrite bool_decide_eq_true_2 by done. cbn [negb].
    rewrite bi_document0. cbn [mbind result_bind]. rewrite !bool_decide_eq_true_2 by done. reflexivity.
Qed.

Lemma validateProofScope_ok proof :
  validateProofScope proof = None ↔
  scope_speaks (cp_scope proof) (pb_principalKey (cp_binding proof)) (pb_confirmationSessionId (cp_binding proof)).
Proof.
  unfold validateProofScope. destruct (assertEffectiveMcpRequestScopeV1 _ _ _) as [[]|e] eqn:E.
  - apply assert_scope_ok in E. cbn [confirmation_auth au_principalKey] in E.
    case_bool_decide as Ep; cbn [negb]; [case_bool_decide as Es; cbn [negb]|].
    + rewrite Ep, Es in E. done.
    + split; [done|]. intros [_ _ _ Es' _ _ _ _ _]. done.
    + split; [done|]. intros [_ _ Ep' _ _ _ _ _ _]. done.
  - split; [done|]. intros Hs. exfalso.
    assert (assertEffectiveMcpRequestScopeV1 (cp_scope proof)
              (confirmation_auth (cp_binding proof) (cp_scope proof) (es_principalKey (cp_scope proof)))
              (es_effectiveMcpSessionId (cp_scope proof)) = Ok tt) as E'; [|congruence].
    apply assert_scope_ok. cbn [confirmation_auth au_principalKey]. by rewrite (ss_principal _ _ _ Hs), (ss_session _ _ _ Hs).
Qed.

Lemma tokenParts_ok token parts : tokenParts token = Some parts →
  isGatewayUuidV7 (tp_confirmationId parts) = true ∧ is_ascii (tp_principalKeyHash parts) = true ∧
  is_ascii (tp_effectiveMcpSessionIdHash parts) = true ∧ tp_tokenDigest parts = sha256_text token.
Proof.
  unfold tokenParts. destruct (_ <? _)%nat; [done|].
  destruct (split_dot token) as [|p [|id [|ph [|sh [|secret [|]]]]]]; try done.
  destruct (_ || _) eqn:E; [done|]. intros <-%(inj Some). cbn [tp_confirmationId tp_principalKeyHash tp_effectiveMcpSessionIdHash tp_tokenDigest].
  unfold DIGEST_HEX_PATTERN in E. bsimp. rewrite !ascii_app. rewrite (hex_ascii ph), (hex_ascii sh) by assumption. split; [assumption|]. split; [reflexivity|]. split; reflexivity.
Qed.

(** Digests and identifiers of a decoded record are plain text. *)
Lemma decoded_fields v r : decodePendingAction v = Ok r →
  isGatewayUuidV7 (cf_confirmationId r) = true ∧ DIGEST_PATTERN (cf_tokenDigest r) = true ∧
  DIGEST_PATTERN (cf_principalKeyHash r) = true ∧ DIGEST_PATTERN (cf_effectiveMcpSessionIdHash r) = true.
Proof.
  rewrite decode_ok. intros (Hc & Hv & Er). split; [unfold violates_state in Hv; bsimp; done|].
  destruct v as [| | | | | |shape ms|]; try discriminate Hc. unfold pendingActionSchema in Hc. cbn [conforms] in Hc.
  apply andb_true_iff in Hc as [_ Hc]. fold (fields_conform ms) in Hc.
  assert (∀ k, (js k, z_regex DIGEST_PATTERN) ∈ action_fields → DIGEST_PATTERN (str_of (member (VObj shape ms) k)) = true) as Hf.
  { intros k Hk. change (fields_conform ms action_fields = true) in Hc. revert Hc Hk. generalize action_fields. intros fs.
    induction fs as [|[k' f] fs IH]; intros Hc Hk; [by apply not_elem_of_nil in Hk|]. cbn [fields_conform] in Hc.
    fold (fields_conform ms) in Hc. apply andb_true_iff in Hc as [Hx Hc]. apply elem_of_cons in Hk as [Hk|Hk]; [|by apply IH].
    injection Hk as <- <-. cbn [member]. destruct (mget ms (js k)) as [x|]; [|done]. cbn. destruct x; done. }
  subst r. cbn [action_of cf_tokenDigest cf_principalKeyHash cf_effectiveMcpSessionIdHash].
  split; [|split]; apply Hf; unfold action_fields, pendingActionSchema; repeat (first [apply list_elem_of_here|apply list_elem_of_further]).
Qed.

(** The record is the one of this token. *)
Definition names_token (r : GatewayPendingActionRecord) (parts : TokenParts) : Prop :=
  cf_confirmationId r = tp_confirmationId parts ∧ cf_tokenDigest r = tp_tokenDigest parts ∧
  cf_principalKeyHash r = tp_principalKeyHash parts ∧ cf_effectiveMcpSessionIdHash r = tp_effectiveMcpSessionIdHash parts.

(** The key a proof addresses. *)
Definition proof_key (proof : GatewayConfirmationProof) : jstr :=
  recordKey (sha256_text (pb_principalKey (cp_binding proof))) (sha256_text (pb_confirmationSessionId (cp_binding proof)))
    (pb_rsid (cp_binding proof)) (sha256_text (cp_confirmToken proof)).

(** The record a well-formed proof of the right actor and session reads. *)
Definition addresses (read : jstr → jstr → option StoredRecord) (proof : GatewayConfirmationProof) (parts : TokenParts)
    (stored : StoredRecord) (r : GatewayPendingActionRecord) : Prop :=
  tokenParts (cp_confirmToken proof) = Some parts ∧
  scope_speaks (cp_scope proof) (pb_principalKey (cp_binding proof)) (pb_confirmationSessionId (cp_binding proof)) ∧
  tp_principalKeyHash parts = sha256_text (pb_principalKey (cp_binding proof)) ∧
  tp_effectiveMcpSessionIdHash parts = sha256_text (pb_confirmationSessionId (cp_binding proof)) ∧
  read GATEWAY_CONFIRMATION_NAMESPACE (proof_key proof) = Some stored ∧
  decodePendingAction (sr_value stored) = Ok r ∧ names_token r parts.

(** What is decided once the record is known. *)
Definition decide_action (proof : GatewayConfirmationProof) (nowMs : jsnum) (stored : StoredRecord) (r : GatewayPendingActionRecord)
  : result js_error (GatewayConfirmationValidationResult * list StoreWrite) :=
  let id := Some (cf_confirmationId r) in
  if cf_state r === state_consumed then Ok (rejection replayed id (Some r), []) else
  if (cf_state r === state_expired) || num_geb nowMs (num_Z (cf_expiresAtMs r)) then
    Ok (rejection confirmation_expired id (Some r),
        if cf_state r === state_pending
        then [{| sw_namespace := GATEWAY_CONFIRMATION_NAMESPACE; sw_key := proof_key proof;
                 sw_value := Some (action_value (with_expired r nowMs));
                 sw_expect := expect_version (JInt (sr_version stored)) |}]
        else [])
  else
  bindingError ← validateBinding r proof;
  match bindingError with
  | Some reason => Ok (rejection reason id (Some r), [])
  | None => Ok (validated r (sr_version stored) (proof_key proof), [])
  end.

Lemma names_token_tests v r token parts :
  decodePendingAction v = Ok r → tokenParts token = Some parts →
  negb (constantTimeEqual (cf_confirmationId r) (tp_confirmationId parts)) ||
  negb (constantTimeEqual (cf_tokenDigest r) (tp_tokenDigest parts)) ||
  negb (constantTimeEqual (cf_principalKeyHash r) (tp_principalKeyHash parts)) ||
  negb (constantTimeEqual (cf_effectiveMcpSessionIdHash r) (tp_effectiveMcpSessionIdHash parts)) = false ↔ names_token r parts.
Proof.
  intros (H1' & H2' & H3' & H4')%decoded_fields (T1 & T2 & T3 & T4)%tokenParts_ok. apply uuid_ascii in H1', T1.
  apply pattern_ascii in H2', H3', H4'. unfold names_token. rewrite !orb_false_iff, !negb_false_iff, T4.
  rewrite !constantTimeEqual_ascii by (assumption || apply sha256_text_ascii). tauto.
Qed.

Lemma hash_test token parts s :
  tokenParts token = Some parts →
  (constantTimeEqual (tp_principalKeyHash parts) (sha256_text s) = true ↔ tp_principalKeyHash parts = sha256_text s) ∧
  (constantTimeEqual (tp_effectiveMcpSessionIdHash parts) (sha256_text s) = true ↔ tp_effectiveMcpSessionIdHash parts = sha256_text s).
Proof.
  intros (_ & T2 & T3 & _)%tokenParts_ok. pose proof (sha256_text_ascii s). split; by apply constantTimeEqual_ascii.
Qed.

Lemma proof_key_eq proof parts :
  tokenParts (cp_confirmToken proof) = Some parts →
  scope_speaks (cp_scope proof) (pb_principalKey (cp_binding proof)) (pb_confirmationSessionId (cp_binding proof)) →
  recordKey (sha256_text (es_principalKey (cp_scope proof))) (sha256_text (es_effectiveMcpSessionId (cp_scope proof)))
    (pb_rsid (cp_binding proof)) (tp_tokenDigest parts) = proof_key proof.
Proof. intros (_ & _ & _ & ->)%tokenParts_ok [_ _ -> -> _ _ _ _ _]. reflexivity. Qed.

Lemma validate_addressed read proof now parts stored r :
  addresses read proof parts stored r → validatePendingAction read proof now = decide_action proof now stored r.
Proof.
  intros (Hp & Hs & H1' & H2' & Hr & Hd & Hn). unfold validatePendingAction. rewrite Hp, (proj2 (validateProofScope_ok proof) Hs).
  rewrite (proof_key_eq _ _ Hp Hs), Hr, (ss_principal _ _ _ Hs), (ss_session _ _ _ Hs). cbv zeta.
  rewrite (proj2 (proj1 (hash_test _ _ _ Hp)) H1'), (proj2 (proj2 (hash_test _ _ _ Hp)) H2'). cbn [negb].
  rewrite Hd. cbn [mbind result_bind]. rewrite (proj2 (names_token_tests _ _ _ _ Hd Hp) Hn). reflexivity.
Qed.

(** Every outcome that depends on a record comes from the addressed one. *)
Lemma validate_cases read proof now res ws :
  validatePendingAction read proof now = Ok (res, ws) →
  (∃ parts stored r, addresses read proof parts stored r ∧ decide_action proof now stored r = Ok (res, ws)) ∨
  (ws = [] ∧ ∃ reason id, res = rejected reason id None).
Proof.
  intros E. pose proof E as E0. unfold validatePendingAction in E.
  destruct (tokenParts (cp_confirmToken proof)) as [parts|] eqn:Hp; [|injection E as <- <-; by eauto].
  destruct (validateProofScope proof) eqn:Hs; [injection E as <- <-; by eauto|]. apply validateProofScope_ok in Hs.
  cbv zeta in E. rewrite (proof_key_eq _ _ Hp Hs), (ss_principal _ _ _ Hs), (ss_session _ _ _ Hs) in E.
  destruct (constantTimeEqual (tp_principalKeyHash parts) _) eqn:H1'; cbn [negb] in E; [|injection E as <- <-; by eauto].
  destruct (constantTimeEqual (tp_effectiveMcpSessionIdHash parts) _) eqn:H2'; cbn [negb] in E; [|injection E as <- <-; by eauto].
  destruct (read _ _) as [stored|] eqn:Hr; [|injection E as <- <-; by eauto].
  apply bind_ok in E as (r & Hd & E). destruct (_ || _) eqn:Hn in E; [injection E as <- <-; by eauto|].
  left. exists parts, stored, r.
  assert (addresses read proof parts stored r) as Ha.
  { split; [done|]. split; [done|]. split; [by apply (hash_test _ _ _ Hp)|]. split; [by apply (hash_test _ _ _ Hp)|].
    split; [done|]. split; [done|]. by apply (names_token_tests _ _ _ _ Hd Hp). }
  split; [done|]. by rewrite <- (validate_addressed _ _ now _ _ _ Ha).
Qed.

Lemma decide_validated proof now stored r r' v key ws :
  decide_action proof now stored r = Ok (validated r' v key, ws) ↔
  r' = r ∧ v = sr_version stored ∧ key = proof_key proof ∧ ws = [] ∧
  cf_state r = state_pending ∧ num_geb now (num_Z (cf_expiresAtMs r)) = false ∧ binds r proof.
Proof.
  unfold decide_action. rewrite <- validateBinding_ok.
  destruct (cf_state r); repeat (rewrite bool_decide_eq_true_2 by done); repeat (rewrite bool_decide_eq_false_2 by done);
    cbn [orb]; try naive_solver.
  destruct (num_geb now _); [naive_solver|]. destruct (validateBinding r proof) as [[reason|]|e]; cbn; naive_solver.
Qed.

(** A write staged by a validation marks a pending record expired. *)
Lemma decide_write proof now stored r res ws w :
  decide_action proof now stored r = Ok (res, ws) → w ∈ ws →
  cf_state r = state_pending ∧ num_geb now (num_Z (cf_expiresAtMs r)) = true ∧
  ws = [w] ∧ w = {| sw_namespace := GATEWAY_CONFIRMATION_NAMESPACE; sw_key := proof_key proof;
                    sw_value := Some (action_value (with_expired r now));
                    sw_expect := expect_version (JInt (sr_version stored)) |}.
Proof.
  unfold decide_action. destruct (cf_state r); repeat (rewrite bool_decide_eq_true_2 by done); repeat (rewrite bool_decide_eq_false_2 by done);
    cbn [orb].
  - destruct (num_geb now _).
    + intros [= _ <-] Hw. apply list_elem_of_singleton in Hw as ->. done.
    + rewrite bind_ok. intros (o & _ & E). destruct o; injection E as _ <-; intros Hw; by apply not_elem_of_nil in Hw.
  - intros [= _ <-] Hw. by apply not_elem_of_nil in Hw.
  - intros [= _ <-] Hw. by apply not_elem_of_nil in Hw.
Qed.

(** ** Issuing *)

Lemma issue_prepare_ok newId input now secret issue :
  issue_prepare newId input now secret = Ok (inr issue) →
  let b := ii_binding input in
  ∃ id sd dd,
    scope_speaks (ii_scope input) (pb_principalKey b) (pb_confirmationSessionId b) ∧
    isGatewayUuidV7 id = true ∧ TOKEN_SECRET_PATTERN secret = true ∧
    makeParamsDigest (scope_value (pb_mutationScope b)) = Ok sd ∧
    makeParamsDigest (document_value (pb_documentIdentity b)) = Ok dd ∧
    let ph := sha256_text (pb_principalKey b) in
    let sh := sha256_text (pb_confirmationSessionId b) in
    let token := make_token id (digestHex ph) (digestHex sh) secret in
    let action := pending_action input now id ph sh (sha256_text token) sd dd in
    action_valid action ∧
    issue = {| is_token := token; is_action := action; is_tenantId := pb_tenantId b;
               is_write := {| sw_namespace := GATEWAY_CONFIRMATION_NAMESPACE;
                              sw_key := recordKey ph sh (pb_rsid b) (sha256_text token);
                              sw_value := Some (action_value action); sw_expect := expect_absent |} |}.
Proof.
  cbv zeta. unfold issue_prepare. destruct (assertEffectiveMcpRequestScopeV1 _ _ _) as [[]|e] eqn:Hs; [|discriminate].
  apply assert_scope_ok in Hs. cbn [confirmation_auth au_principalKey] in Hs. rewrite bind_ok. intros (id & _ & E).
  destruct (_ || _) eqn:Hc in E; [discriminate|]. bsimp. cbv zeta in E.
  rewrite (ss_principal _ _ _ Hs), (ss_session _ _ _ Hs) in E.
  apply bind_ok in E as (sd & Hsd & E). apply bind_ok in E as (dd & Hdd & E). exists id, sd, dd.
  do 5 (split; [assumption|]).
  match type of E with (match decodePendingAction (action_value ?a) with _ => _ end) = _ =>
    destruct (decodePendingAction (action_value a)) as [r|] eqn:Hd; [|discriminate] end.
  apply decode_value in Hd as [Hv ->]. split; [exact Hv|]. by injection E as <-.
Qed.

(** Scopes and documents are determined by their digests. *)
Lemma scope_value_inj a b : normalize (scope_value a) = normalize (scope_value b) → a = b.
Proof.
  destruct a, b; intros E; [done|exfalso; revert E; vm_compute; discriminate..|].
  unfold scope_value in E. member_eq E "document_id"%string. by f_equal.
Qed.

Lemma document_value_inj a b : document_ok a → document_ok b → normalize (document_value a) = normalize (document_value b) → a = b.
Proof.
  intros Ha Hb E. destruct a, b; cbn [document_ok] in Ha, Hb; try contradiction.
  - unfold document_value in E. member_eq E "session_document_id"%string. by f_equal.
  - exfalso. apply (f_equal (λ v, match v with VObj _ ms => length ms | _ => O end)) in E. vm_compute in E. discriminate E.
  - exfalso. apply (f_equal (λ v, match v with VObj _ ms => length ms | _ => O end)) in E. vm_compute in E. discriminate E.
  - unfold document_value in E. member_eq E "acc_project_id"%string. member_eq E "item_urn"%string.
    member_eq E "version_urn"%string. member_eq E "version_number"%string. by f_equal.
Qed.

Lemma digest_inj v w d : wire_value v = true → wire_value w = true → collision_free v w →
  makeParamsDigest v = Ok d → makeParamsDigest w = Ok d → normalize v = normalize w.
Proof. unfold makeParamsDigest. intros Hv Hw Hc E1 E2. apply makeJsonDigest_inj; [assumption..|]. congruence. Qed.

(** The digests of the two bindings do not collide. *)
Definition digests_distinguish (b1 b2 : GatewayPendingActionBinding) : Prop :=
  let s1 := scope_value (pb_mutationScope b1) in let s2 := scope_value (pb_mutationScope b2) in
  let d1 := document_value (pb_documentIdentity b1) in let d2 := document_value (pb_documentIdentity b2) in
  (wire_value s1 = true ∧ wire_value s2 = true ∧ collision_free s1 s2) ∧
  (document_ok (pb_documentIdentity b1) ∧ document_ok (pb_documentIdentity b2) ∧
   wire_value d1 = true ∧ wire_value d2 = true ∧ collision_free d1 d2).

Lemma issued_binds input now id ph sh td sd dd proof :
  let b := ii_binding input in
  makeParamsDigest (scope_value (pb_mutationScope b)) = Ok sd →
  makeParamsDigest (document_value (pb_documentIdentity b)) = Ok dd →
  digests_distinguish b (cp_binding proof) →
  binds (pending_action input now id ph sh td sd dd) proof ↔
  cp_binding proof = b ∧ cp_originatingPreviewInvocationId proof = ii_originatingPreviewInvocationId input.
Proof.
  cbv zeta. intros Hsd Hdd ((S1 & S2 & Sc) & D1 & D2 & W1 & W2 & Dc). split.
  - intros []. cbn in *. pose proof (scope_value_inj _ _ (digest_inj _ _ _ S1 S2 Sc Hsd bi_scope0)) as Es.
    pose proof (document_value_inj _ _ D1 D2 (digest_inj _ _ _ W1 W2 Dc Hdd bi_document0)) as Ed.
    split; [|done]. destruct (ii_binding input), (cp_binding proof). cbn in *. by f_equal.
  - intros [Eb Ep]. split; cbn; rewrite ?Eb, ?Ep; done.
Qed.

(** ** Through the store *)

Section store.
Context `{S : TransactionalStore} `{!TransactionalStoreOk S}.

(** C25: a token works for exactly the request it was issued for. After the issue has
    committed, presenting the token validates if and only if the scope speaks for the
    same principal and session, every field of the binding and the preview are those it
    was issued with, and it is not yet ten minutes old. *)
Theorem issued_token_exact newId input z secret issue s s' proof now :
  issue_prepare newId input (JInt z) secret = Ok (inr issue) →
  0 <= z <= MAX_SAFE_INTEGER - GATEWAY_CONFIRMATION_TTL_MS →
  json_tree (action_value (is_action issue)) = true →
  ts_inv s → ts_commit s (is_tenantId issue) [is_write issue] s' →
  cp_confirmToken proof = is_token issue → digests_distinguish (ii_binding input) (cp_binding proof) →
  validatePendingAction (ts_find s' (is_tenantId issue)) proof now =
    Ok (validated (is_action issue) 1 (sw_key (is_write issue)), []) ↔
  scope_speaks (cp_scope proof) (pb_principalKey (ii_binding input)) (pb_confirmationSessionId (ii_binding input)) ∧
  cp_binding proof = ii_binding input ∧
  cp_originatingPreviewInvocationId proof = ii_originatingPreviewInvocationId input ∧
  num_geb now (z + GATEWAY_CONFIRMATION_TTL_MS) = false.
Proof.
  intros Hi Hz Ht Hs Hc Htok Hdd. apply issue_prepare_ok in Hi as (id & sd & dd & Hsp & Hid & Hsec & Hsd & Hdig & Hv & ->).
  cbn [is_token is_action is_tenantId is_write sw_key] in *.
  pose proof (ts_commit_write _ _ _ _ _ Hs Hc (list_elem_of_here _ _)) as Hw. cbn [sw_value sw_namespace sw_key] in Hw.
  destruct Hw as (rec & Hf & Hver & Hval). specialize (Hval Ht).
  pose proof (ts_commit_expect _ _ _ _ _ Hs Hc (list_elem_of_here _ _)) as Hn. cbn [sw_expect meets sw_namespace sw_key] in Hn.
  rewrite Hn in Hver. cbn in Hver. clear Hn Ht.
  assert (cf_expiresAtMs (pending_action input (JInt z) id (sha256_text (pb_principalKey (ii_binding input)))
            (sha256_text (pb_confirmationSessionId (ii_binding input)))
            (sha256_text (make_token id (digestHex (sha256_text (pb_principalKey (ii_binding input))))
               (digestHex (sha256_text (pb_confirmationSessionId (ii_binding input)))) secret)) sd dd) =
          JInt (z + GATEWAY_CONFIRMATION_TTL_MS)) as Hex.
  { cbn [pending_action cf_expiresAtMs]. apply num_add_safe; unfold GATEWAY_CONFIRMATION_TTL_MS, MAX_SAFE_INTEGER in *; lia. }
  split.
  - intros [(parts & stored & r & Ha & Hd)|(_ & ? & ? & ?)]%validate_cases; [|discriminate].
    apply decide_validated in Hd as (<- & _ & _ & _ & _ & Hex' & Hb). rewrite Hex in Hex'.
    apply issued_binds in Hb as [Eb Ep]; [|assumption..]. destruct Ha as (_ & Hsc & _). rewrite Eb in Hsc. done.
  - intros (Hsc & Eb & Ep & Hnow).
    assert (proof_key proof = recordKey (sha256_text (pb_principalKey (ii_binding input)))
              (sha256_text (pb_confirmationSessionId (ii_binding input))) (pb_rsid (ii_binding input))
              (sha256_text (cp_confirmToken proof))) as Hk by (unfold proof_key; by rewrite Eb).
    rewrite Htok in Hk.
    erewrite validate_addressed.
    2:{ split; [rewrite Htok; apply token_parts; try assumption; apply sha256_hex_pattern|]. rewrite Eb.
        split; [done|]. split; [reflexivity|]. split; [reflexivity|]. rewrite Hk. split; [exact Hf|].
        rewrite Hval. split; [by apply decode_value|]. split_and!; reflexivity. }
    apply decide_validated. rewrite Hex. cbn [num_Z]. do 2 (split; [done|]). split; [done|]. do 2 (split; [done|]). split; [done|].
    apply issued_binds; [assumption..|]. done.
Qed.

(** ** Histories *)

(** What a transaction under way has seen: a validation it will consume, or the
    expiry it will record. *)
Inductive in_flight :=
| confirming (tenant : jstr) (r : GatewayPendingActionRecord) (version : Z) (key : jstr)
| expiring (tenant : jstr) (w : StoreWrite).

Record consumption := { co_tenant : jstr; co_key : jstr; co_action : GatewayPendingActionRecord; co_invocation : jstr; co_at : jsnum }.

Record world := { cw_store : ts_state; cw_flight : list in_flight; cw_log : list consumption }.

Definition foreign (ws : list StoreWrite) : Prop :=
  ∀ w, w ∈ ws → sw_namespace w ≠ GATEWAY_CONFIRMATION_NAMESPACE ∧ sw_namespace w ≠ GATEWAY_CONFIRMATION_AUDIT_NAMESPACE.

Definition clock_value (n : jsnum) : Prop := isSafeInteger n = true ∧ 0 <= num_Z n.

(** Issues, validations, commits of what a validation staged and commits of other
    components, in any order; a validation may be used long after it was made, and
    again. *)
Inductive confirm_step : world → world → Prop :=
| step_issue s s' flight log newId input now secret issue :
    issue_prepare newId input now secret = Ok (inr issue) → json_tree (action_value (is_action issue)) = true →
    ts_commit s (is_tenantId issue) [is_write issue] s' →
    confirm_step {| cw_store := s; cw_flight := flight; cw_log := log |} {| cw_store := s'; cw_flight := flight; cw_log := log |}
| step_validate s flight log tenant proof now r v key :
    validatePendingAction (ts_find s tenant) proof now = Ok (validated r v key, []) →
    confirm_step {| cw_store := s; cw_flight := flight; cw_log := log |}
                 {| cw_store := s; cw_flight := confirming tenant r v key :: flight; cw_log := log |}
| step_expire s flight log tenant proof now res w :
    validatePendingAction (ts_find s tenant) proof now = Ok (res, [w]) → clock_value now →
    confirm_step {| cw_store := s; cw_flight := flight; cw_log := log |}
                 {| cw_store := s; cw_flight := expiring tenant w :: flight; cw_log := log |}
| step_expired s s' flight log tenant w others :
    expiring tenant w ∈ flight → foreign others → ts_commit s tenant (w :: others) s' →
    confirm_step {| cw_store := s; cw_flight := flight; cw_log := log |} {| cw_store := s'; cw_flight := flight; cw_log := log |}
| step_consume s s' flight log tenant r v key id at_ms consumed ws others :
    confirming tenant r v key ∈ flight → stageConsumption r v key id at_ms = Ok (consumed, ws) → foreign others →
    ts_commit s tenant (ws ++ others) s' →
    confirm_step {| cw_store := s; cw_flight := flight; cw_log := log |}
                 {| cw_store := s'; cw_flight := flight;
                    cw_log := {| co_tenant := tenant; co_key := key; co_action := r; co_invocation := id; co_at := at_ms |} :: log |}
| step_foreign s s' flight log tenant ws :
    foreign ws → ts_commit s tenant ws s' →
    confirm_step {| cw_store := s; cw_flight := flight; cw_log := log |} {| cw_store := s'; cw_flight := flight; cw_log := log |}.

(** ** The invariant *)

(** A record the authority wrote. *)
Definition stored_action (rec : StoredRecord) (r : GatewayPendingActionRecord) : Prop :=
  sr_value rec = action_value r ∧ json_tree (action_value r) = true ∧ action_valid r.

(** A pending record was seen at this version. *)
Definition seen (s : ts_state) (t k : jstr) (v : Z) (r : GatewayPendingActionRecord) : Prop :=
  cf_state r = state_pending ∧ json_tree (action_value r) = true ∧ action_valid r ∧
  ∃ rec, ts_find s t GATEWAY_CONFIRMATION_NAMESPACE k = Some rec ∧ v <= sr_version rec ∧
         (sr_version rec = v → sr_value rec = action_value r).

Definition flight_ok (s : ts_state) (f : in_flight) : Prop :=
  match f with
  | confirming t r v k => seen s t k v r
  | expiring t w => ∃ k v r now, seen s t k v r ∧ clock_value now ∧
      w = {| sw_namespace := GATEWAY_CONFIRMATION_NAMESPACE; sw_key := k; sw_value := Some (action_value (with_expired r now));
             sw_expect := expect_version (JInt v) |}
  end.

(** The approval of a consumption, where it is kept. *)
Definition audited (s : ts_state) (c : consumption) : Prop :=
  let consumed := with_consumed (co_action c) (co_invocation c) (co_at c) in
  ∃ rec, ts_find s (co_tenant c) GATEWAY_CONFIRMATION_AUDIT_NAMESPACE
           (auditKey (cf_principalKeyHash consumed) (cf_effectiveMcpSessionIdHash consumed) (cf_confirmationId consumed)) = Some rec ∧
         sr_value rec = audit_value (approval_audit consumed (co_invocation c) (co_at c)).

Definition consumed_in (s : ts_state) (c : consumption) : Prop :=
  ∃ rec, ts_find s (co_tenant c) GATEWAY_CONFIRMATION_NAMESPACE (co_key c) = Some rec ∧
         stored_action rec (with_consumed (co_action c) (co_invocation c) (co_at c)).

Record confirm_inv (w : world) : Prop := {
  ci_store : ts_inv (cw_store w);
  ci_records t k rec : ts_find (cw_store w) t GATEWAY_CONFIRMATION_NAMESPACE k = Some rec → ∃ r, stored_action rec r;
  ci_flight : Forall (flight_ok (cw_store w)) (cw_flight w);
  ci_log : Forall (λ c, consumed_in (cw_store w) c ∧ audited (cw_store w) c) (cw_log w);
  ci_once : NoDup (map (λ c, (co_tenant c, co_key c)) (cw_log w)) }.

(** *** One commit *)

(** What a transaction of the authority may write to its namespace. *)
Definition update_ok (s : ts_state) (t : jstr) (w : StoreWrite) : Prop :=
  ∃ r', sw_value w = Some (action_value r') ∧ json_tree (action_value r') = true ∧ action_valid r' ∧
    (sw_expect w = expect_absent ∨ ∃ v r, sw_expect w = expect_version (JInt v) ∧ seen s t (sw_key w) v r).

Definition updates_ok (s : ts_state) (t : jstr) (ws : list StoreWrite) : Prop :=
  ∀ w, w ∈ ws → sw_namespace w = GATEWAY_CONFIRMATION_NAMESPACE → update_ok s t w.

Lemma slot_dec (ws : list StoreWrite) n k :
  (∃ w, w ∈ ws ∧ sw_namespace w = n ∧ sw_key w = k) ∨ (∀ w, w ∈ ws → (n, k) ≠ (sw_namespace w, sw_key w)).
Proof.
  destruct (existsb (λ w, (sw_namespace w === n) && (sw_key w === k)) ws) eqn:E.
  - apply existsb_true in E as (w & Hw & E). bsimp. left. eauto.
  - right. intros w Hw [= -> ->]. apply (proj1 (existsb_false _ _) E) in Hw. by rewrite !bool_decide_eq_true_2 in Hw.
Qed.

(** A record of the namespace is left alone, or it is new, or it was pending. *)
Lemma record_after s t ws s' t' k : ts_inv s → ts_commit s t ws s' → updates_ok s t ws →
  ts_find s' t' GATEWAY_CONFIRMATION_NAMESPACE k = ts_find s t' GATEWAY_CONFIRMATION_NAMESPACE k ∨
  ∃ rec r', ts_find s' t' GATEWAY_CONFIRMATION_NAMESPACE k = Some rec ∧ stored_action rec r' ∧
    match ts_find s t' GATEWAY_CONFIRMATION_NAMESPACE k with
    | None => True
    | Some old => sr_version rec = sr_version old + 1 ∧ ∃ r, cf_state r = state_pending ∧ sr_value old = action_value r
    end.
Proof.
  intros Hs Hc Hu. destruct (decide (t' = t)) as [->|Hne]; [|left; apply (ts_commit_frame _ _ _ _ _ _ _ Hs Hc); by left].
  destruct (slot_dec ws GATEWAY_CONFIRMATION_NAMESPACE k) as [(w & Hw & En & <-)|Hno];
    [|left; apply (ts_commit_frame _ _ _ _ _ _ _ Hs Hc); by right].
  right. destruct (Hu w Hw En) as (r' & Hval & Htree & Hvalid & Hexp).
  pose proof (ts_commit_write _ _ _ _ _ Hs Hc Hw) as Hwr. rewrite Hval, En in Hwr. destruct Hwr as (rec & Hf & Hver & Hv).
  exists rec, r'. split; [done|]. split; [split; [by apply Hv|done]|].
  pose proof (ts_commit_expect _ _ _ _ _ Hs Hc Hw) as Hm. rewrite En in Hm.
  destruct (ts_find s t GATEWAY_CONFIRMATION_NAMESPACE (sw_key w)) as [old|] eqn:Eold; [|done].
  split; [exact Hver|]. destruct Hexp as [E|(v & r & E & Hst & _ & _ & rec' & Hf' & _ & Hsame)]; rewrite E in Hm; [done|].
  destruct Hm as (old' & [= <-] & [= ->]). rewrite Eold in Hf'. injection Hf' as <-. eauto.
Qed.

Lemma seen_after s t ws s' t' k v r : ts_inv s → ts_commit s t ws s' → updates_ok s t ws →
  seen s t' k v r → seen s' t' k v r.
Proof.
  intros Hs Hc Hu (Hst & Htr & Hv & rec & Hf & Hle & Hsame). do 3 (split; [done|]).
  destruct (record_after _ _ _ _ t' k Hs Hc Hu) as [E|(rec' & r' & Hf' & _ & Hold)].
  - exists rec. by rewrite E.
  - rewrite Hf in Hold. destruct Hold as [Hver _]. exists rec'. split; [done|]. split; [lia|]. lia.
Qed.

Lemma flight_after s t ws s' f : ts_inv s → ts_commit s t ws s' → updates_ok s t ws → flight_ok s f → flight_ok s' f.
Proof.
  intros Hs Hc Hu. destruct f as [t' r v k|t' w]; cbn; [by eapply seen_after|].
  intros (k & v & r & now & Hseen & Hrest). exists k, v, r, now. split; [by eapply seen_after|done].
Qed.

Lemma consumed_after s t ws s' c : ts_inv s → ts_commit s t ws s' → updates_ok s t ws → consumed_in s c → consumed_in s' c.
Proof.
  intros Hs Hc Hu (rec & Hf & Hsa). destruct (record_after _ _ _ _ (co_tenant c) (co_key c) Hs Hc Hu) as [E|(rec' & r' & _ & _ & Hold)].
  - exists rec. by rewrite E.
  - rewrite Hf in Hold. destruct Hold as (_ & r & Hst & Hv). destruct Hsa as [Hv' _]. rewrite Hv in Hv'.
    apply (f_equal action_of) in Hv'. rewrite !action_of_value in Hv'. subst r. discriminate Hst.
Qed.

(** Audit records are only ever created. *)
Lemma audited_after s t ws s' c : ts_inv s → ts_commit s t ws s' →
  (∀ w, w ∈ ws → sw_namespace w = GATEWAY_CONFIRMATION_AUDIT_NAMESPACE → sw_expect w = expect_absent) →
  audited s c → audited s' c.
Proof.
  intros Hs Hc Hab (rec & Hf & Hv). exists rec. split; [|done]. rewrite <- Hf.
  destruct (decide (co_tenant c = t)) as [Et|Hne]; [|apply (ts_commit_frame _ _ _ _ _ _ _ Hs Hc); by left].
  edestruct (slot_dec ws GATEWAY_CONFIRMATION_AUDIT_NAMESPACE) as [(w & Hw & En & Ek)|Hno];
    [|apply (ts_commit_frame _ _ _ _ _ _ _ Hs Hc); right; exact Hno].
  exfalso. pose proof (ts_commit_expect _ _ _ _ _ Hs Hc Hw) as Hm. rewrite (Hab _ Hw En), En, Ek, <- Et in Hm. cbn [meets] in Hm. congruence.
Qed.

(** *** What the authority writes *)

Lemma tree_members r : json_tree (action_value r) = true ↔ Forall (λ m, json_tree m.2 = true) (action_members r).
Proof.
  change (action_value r) with (VObj plain_shape (action_members r)). cbn [json_tree plain_shape plain_prototype has_symbol_keys has_non_enumerable negb andb].
  rewrite andb_true_iff, forallb_true, Forall_forall.
  assert (bool_decide (NoDup (map fst (action_members r))) = true) as -> by (vm_compute; reflexivity).
  split.
  - intros [Hall _] m Hm. specialize (Hall m Hm). by apply andb_true_iff in Hall as [_ ?].
  - intros Hall. split; [|done]. intros m Hm. apply andb_true_iff. split; [|by apply Hall].
    apply (forallb_true (λ m, units_ok m) (map fst (action_members r))); [vm_compute; reflexivity|]. apply list_elem_of_fmap. by exists m.
Qed.

Lemma ascii_units s : is_ascii s = true → units_ok s = true.
Proof.
  unfold is_ascii, units_ok. rewrite !forallb_true. intros Hs u Hu. specialize (Hs u Hu). bsimp.
  rewrite andb_true_iff, Z.leb_le, Z.ltb_lt. lia.
Qed.

(** Replacing the state and the two fields of its end. *)
Lemma with_consumed_ok r id at_ms : cf_state r = state_pending → json_tree (action_value r) = true → action_valid r →
  isGatewayUuidV7 id = true → clock_value at_ms →
  json_tree (action_value (with_consumed r id at_ms)) = true ∧ action_valid (with_consumed r id at_ms).
Proof.
  rewrite !tree_members. intros Hst Ht [Hf Hv] Hid [Hat Hat0]. split; [|split].
  - unfold action_members, action_value, obj in Ht |- *. cbn [with_consumed opt_str opt_num cf_consumedAtMs cf_commitInvocationId] in *.
    repeat (apply Forall_cons in Ht as [? Ht]). repeat (apply Forall_cons; split); try assumption; try exact Hat; try reflexivity;
      exact (ascii_units _ (uuid_ascii _ Hid)).
  - unfold action_fields, pendingActionSchema, action_members, action_value, obj in Hf |- *.
    cbn [with_consumed opt_str opt_num cf_consumedAtMs cf_commitInvocationId] in *.
    repeat (apply Forall2_cons in Hf as [? Hf]). repeat (apply Forall2_cons; split); try assumption; try reflexivity.
    + cbn [snd conforms]. by rewrite Hat, (proj2 (Z.leb_le _ _) Hat0).
    + cbn [snd conforms]. rewrite (matches_length _ _ Hid). reflexivity.
  - unfold violates_state in Hv |- *. cbn [with_consumed cf_state cf_confirmationId cf_originatingPreviewInvocationId cf_expiresAtMs
      cf_issuedAtMs cf_consumedAtMs cf_commitInvocationId]. rewrite Hst in Hv. bsimp. rewrite Hid.
    rewrite !orb_false_iff, !negb_false_iff, bool_decide_eq_true. done.
Qed.

Lemma with_expired_ok r now : cf_state r = state_pending → json_tree (action_value r) = true → action_valid r → clock_value now →
  json_tree (action_value (with_expired r now)) = true ∧ action_valid (with_expired r now).
Proof.
  rewrite !tree_members. intros Hst Ht [Hf Hv] [Hat Hat0]. split; [|split].
  - unfold action_members, action_value, obj in Ht |- *. cbn [with_expired opt_num cf_consumedAtMs] in *.
    repeat (apply Forall_cons in Ht as [? Ht]). repeat (apply Forall_cons; split); try assumption; try exact Hat; try reflexivity.
  - unfold action_fields, pendingActionSchema, action_members, action_value, obj in Hf |- *. cbn [with_expired opt_num cf_consumedAtMs] in *.
    repeat (apply Forall2_cons in Hf as [? Hf]). repeat (apply Forall2_cons; split); try assumption; try reflexivity.
    cbn [snd conforms]. by rewrite Hat, (proj2 (Z.leb_le _ _) Hat0).
  - unfold violates_state in Hv |- *. cbn [with_expired cf_state cf_confirmationId cf_originatingPreviewInvocationId cf_expiresAtMs
      cf_issuedAtMs cf_consumedAtMs cf_commitInvocationId]. rewrite Hst in Hv. bsimp.
    destruct (cf_commitInvocationId r), (cf_consumedAtMs r); try discriminate.
    rewrite !orb_false_iff, !negb_false_iff, bool_decide_eq_true. done.
Qed.

Definition audit_members (a : GatewayConfirmationApprovalAuditRecord) : list (jstr * jsval) :=
  match audit_value a with VObj _ ms => ms | _ => [] end.

Lemma stageConsumption_ok r v key id at_ms consumed ws : stageConsumption r v key id at_ms = Ok (consumed, ws) →
  consumed = with_consumed r id at_ms ∧ isGatewayUuidV7 id = true ∧ clock_value at_ms ∧
  ws = [{| sw_namespace := GATEWAY_CONFIRMATION_NAMESPACE; sw_key := key; sw_value := Some (action_value consumed);
           sw_expect := expect_version (JInt v) |};
        {| sw_namespace := GATEWAY_CONFIRMATION_AUDIT_NAMESPACE;
           sw_key := auditKey (cf_principalKeyHash consumed) (cf_effectiveMcpSessionIdHash consumed) (cf_confirmationId consumed);
           sw_value := Some (audit_value (approval_audit consumed id at_ms)); sw_expect := expect_absent |}].
Proof.
  unfold stageConsumption. rewrite !seq_ok, !is_ok_unit, !reject_if_ok, !negb_false_iff, safeParse_conforms.
  intros (Hid & Ha & E). injection E as <- <-. split; [done|]. split; [done|]. split; [|done].
  set (a := approval_audit _ _ _) in Ha.
  apply (conforms_strict (match approvalAuditSchema with z_strict_object fs => fs | _ => [] end) plain_shape (audit_members a)) in Ha;
    [|reflexivity|refine (bool_decide_unpack _ _); vm_compute; exact I].
  unfold approvalAuditSchema, audit_members, audit_value, obj in Ha. repeat (apply Forall2_cons in Ha as [? Ha]).
  match goal with E : conforms (js "approvedAtMs", _).2 _ = true |- _ => cbn [snd conforms] in E; bsimp; by split end.
Qed.

(** The approval's value is plain JSON, as the consumed record's is. *)
Lemma audit_tree r id at_ms : json_tree (action_value r) = true → isGatewayUuidV7 id = true → clock_value at_ms →
  json_tree (audit_value (approval_audit (with_consumed r id at_ms) id at_ms)) = true.
Proof.
  intros Ht Hid [Hat _]. apply tree_members in Ht. unfold action_members, action_value, obj in Ht.
  repeat (apply Forall_cons in Ht as [? Ht]). cbn [snd json_tree] in *.
  unfold audit_value, obj, approval_audit, with_consumed. cbn [json_tree plain_shape plain_prototype has_symbol_keys has_non_enumerable negb andb].
  apply andb_true_iff. split; [|vm_compute; reflexivity].
  cbn [forallb fst snd json_tree aa_confirmationId aa_tenantId aa_principalKey aa_principalKeyHash aa_userId aa_gatewaySessionId
       aa_confirmationSessionId aa_effectiveMcpSessionIdHash aa_oauthClientId aa_rsid aa_toolName aa_toolVersion
       aa_commitArgsDigest aa_originatingPreviewInvocationId aa_commitInvocationId aa_approvedAtMs
       cf_confirmationId cf_tenantId cf_principalKey cf_principalKeyHash cf_userId cf_gatewaySessionId cf_confirmationSessionId
       cf_effectiveMcpSessionIdHash cf_oauthClientId cf_rsid cf_toolName cf_toolVersion cf_commitArgsDigest
       cf_originatingPreviewInvocationId].
  rewrite !andb_true_iff. split_and?; try assumption; try exact Hat; try exact (ascii_units _ (uuid_ascii _ Hid)); reflexivity.
Qed.

(** *** Steps *)

Lemma foreign_updates s t ws others : foreign others → updates_ok s t ws → updates_ok s t (ws ++ others).
Proof. intros Hf Hu w [Hw|Hw]%elem_of_app En; [by apply Hu|]. by destruct (Hf w Hw). Qed.

Lemma commit_preserves s flight log t ws s' :
  confirm_inv {| cw_store := s; cw_flight := flight; cw_log := log |} → ts_commit s t ws s' → updates_ok s t ws →
  (∀ w, w ∈ ws → sw_namespace w = GATEWAY_CONFIRMATION_AUDIT_NAMESPACE → sw_expect w = expect_absent) →
  confirm_inv {| cw_store := s'; cw_flight := flight; cw_log := log |}.
Proof.
  intros [Hs Hr Hfl Hlog Honce] Hc Hu Hab. split; cbn [cw_store cw_flight cw_log] in *.
  - by eapply ts_commit_inv.
  - intros t' k rec Hf. destruct (record_after _ _ _ _ t' k Hs Hc Hu) as [E|(rec' & r' & E & Hsa & _)]; rewrite Hf in E.
    + symmetry in E. by eapply Hr.
    + injection E as ->. eauto.
  - eapply Forall_impl; [exact Hfl|]. intros f. by eapply flight_after.
  - eapply Forall_impl; [exact Hlog|]. intros c [H1' H2']. split; [by eapply consumed_after|by eapply audited_after].
  - done.
Qed.

(** What a validation has read is in the store. *)
Lemma addressed_seen s flight log t proof parts stored r :
  confirm_inv {| cw_store := s; cw_flight := flight; cw_log := log |} →
  addresses (ts_find s t) proof parts stored r → cf_state r = state_pending → seen s t (proof_key proof) (sr_version stored) r.
Proof.
  intros [_ Hr _ _ _] (_ & _ & _ & _ & Hf & Hd & _) Hst. cbn [cw_store] in Hr.
  destruct (Hr _ _ _ Hf) as (r' & Hv & Htr & Hval). rewrite Hv in Hd. apply decode_value in Hd as [_ ->].
  do 3 (split; [done|]). exists stored. done.
Qed.

Lemma consume_commit s flight log t r v key id at_ms consumed ws others s' :
  confirm_inv {| cw_store := s; cw_flight := flight; cw_log := log |} → seen s t key v r →
  stageConsumption r v key id at_ms = Ok (consumed, ws) → foreign others → ts_commit s t (ws ++ others) s' →
  confirm_inv {| cw_store := s'; cw_flight := flight;
                 cw_log := {| co_tenant := t; co_key := key; co_action := r; co_invocation := id; co_at := at_ms |} :: log |}.
Proof.
  intros Hi Hseen (-> & Hid & Hat & ->)%stageConsumption_ok Hfo Hc. pose proof Hseen as (Hst & Htr & Hval & rec & Hf & _ & Hsame).
  destruct (with_consumed_ok r id at_ms Hst Htr Hval Hid Hat) as [Htr' Hval'].
  assert (confirm_inv {| cw_store := s'; cw_flight := flight; cw_log := log |}) as [Hs' Hr' Hfl' Hlog' Honce'].
  { eapply commit_preserves; [exact Hi|exact Hc| |].
    - apply foreign_updates; [done|]. intros w [-> | [->|[]%not_elem_of_nil]%elem_of_cons]%elem_of_cons En; [|discriminate En].
      exists (with_consumed r id at_ms). split; [done|]. split; [done|]. split; [done|]. right. by exists v, r.
    - intros w [[->|[->|[]%not_elem_of_nil]%elem_of_cons]%elem_of_cons|Hw]%elem_of_app En; [discriminate En|done|].
      by destruct (Hfo w Hw). }
  cbn [cw_store cw_flight cw_log] in *. pose proof (ci_store _ Hi) as Hs. cbn [cw_store] in Hs.
  split; cbn [cw_store cw_flight cw_log]; try assumption.
  - apply Forall_cons. split; [|done]. split.
    + pose proof (ts_commit_write _ _ _ _ _ Hs Hc (list_elem_of_here _ _)) as Hw. cbn [sw_value sw_namespace sw_key] in Hw.
      destruct Hw as (rec' & Hf' & _ & Hv'). exists rec'. split; [exact Hf'|]. split; [by apply Hv'|done].
    + pose proof (ts_commit_write _ _ _ _ _ Hs Hc (list_elem_of_further _ _ _ (list_elem_of_here _ _))) as Hw.
      cbn [sw_value sw_namespace sw_key] in Hw. destruct Hw as (rec' & Hf' & _ & Hv'). exists rec'. split; [exact Hf'|].
      by apply Hv', audit_tree.
  - cbn [map]. apply NoDup_cons. split; [|done]. intros (c & [= Et Ek] & Hin)%list_elem_of_fmap.
    destruct (proj1 (Forall_forall _ _) (ci_log _ Hi) c Hin) as [(rec' & Hf' & Hv' & _) _]. cbn [cw_store co_tenant co_key] in *.
    rewrite <- Et, <- Ek, Hf in Hf'. injection Hf' as <-.
    pose proof (ts_commit_expect _ _ _ _ _ Hs Hc (list_elem_of_here _ _)) as Hm. cbn [sw_expect meets sw_namespace sw_key] in Hm.
    destruct Hm as (rec'' & Hf'' & [= Hver]). rewrite Hf in Hf''. injection Hf'' as <-.
    rewrite (Hsame (eq_sym Hver)) in Hv'. apply (f_equal action_of) in Hv'. rewrite !action_of_value in Hv'.
    rewrite Hv' in Hst. discriminate Hst.
Qed.

Lemma confirm_step_inv w w' : confirm_inv w → confirm_step w w' → confirm_inv w'.
Proof.
  intros Hi Hstep. destruct Hstep as
    [s s' flight log newId input now secret issue Hp Ht Hc|s flight log t proof now r v key Hv|s flight log t proof now res w Hv Hnow
    |s s' flight log t w others Hin Hfo Hc|s s' flight log t r v key id at_ms consumed ws others Hin Hst Hfo Hc|s s' flight log t ws Hfo Hc].
  - eapply commit_preserves; [exact Hi|exact Hc| |].
    + intros w ->%list_elem_of_singleton _. apply issue_prepare_ok in Hp as (id & sd & dd & _ & _ & _ & _ & _ & Hval & ->).
      eexists. split; [reflexivity|]. split; [exact Ht|]. split; [exact Hval|by left].
    + intros w ->%list_elem_of_singleton En. apply issue_prepare_ok in Hp as (id & sd & dd & _ & _ & _ & _ & _ & _ & ->). discriminate En.
  - apply validate_cases in Hv as [(parts & stored & r' & Ha & Hd)|(_ & ? & ? & ?)]; [|discriminate].
    apply decide_validated in Hd as (-> & -> & -> & _ & Hst & _). pose proof (addressed_seen _ _ _ _ _ _ _ _ Hi Ha Hst) as Hseen.
    destruct Hi as [Hs Hr Hfl Hlog Honce]. split; cbn in *; try done. by apply Forall_cons.
  - apply validate_cases in Hv as [(parts & stored & r & Ha & Hd)|(? & _)]; [|discriminate].
    apply (decide_write _ _ _ _ _ _ w) in Hd as (Hst & _ & _ & ->); [|by left].
    pose proof (addressed_seen _ _ _ _ _ _ _ _ Hi Ha Hst) as Hseen.
    destruct Hi as [Hs Hr Hfl Hlog Honce]. split; cbn [cw_store cw_flight cw_log] in *; try done. apply Forall_cons. split; [|done].
    by exists (proof_key proof), (sr_version stored), r, now.
  - pose proof (proj1 (Forall_forall _ _) (ci_flight _ Hi) _ Hin) as (k & v & r & now & Hseen & Hnow & ->). cbn [cw_store] in Hseen.
    pose proof Hseen as (Hst & Htr & Hval & _). destruct (with_expired_ok r now Hst Htr Hval Hnow) as [Htr' Hval'].
    eapply commit_preserves; [exact Hi|exact Hc| |].
    + apply (foreign_updates _ _ [_]); [done|]. intros w ->%list_elem_of_singleton _. exists (with_expired r now). do 3 (split; [done|]). right. by exists v, r.
    + intros w [->|Hw]%elem_of_cons En; [discriminate En|]. by destruct (Hfo w Hw).
  - eapply consume_commit; try eassumption. exact (proj1 (Forall_forall _ _) (ci_flight _ Hi) _ Hin).
  - eapply commit_preserves; [exact Hi|exact Hc| |]; intros w Hw En; by destruct (Hfo w Hw).
Qed.

Definition fresh_world (s : ts_state) : world := {| cw_store := s; cw_flight := []; cw_log := [] |}.

Definition no_actions (s : ts_state) : Prop := ∀ t k, ts_find s t GATEWAY_CONFIRMATION_NAMESPACE k = None.

Lemma confirm_reachable s w : ts_inv s → no_actions s → rtc confirm_step (fresh_world s) w → confirm_inv w.
Proof.
  intros Hs Hn Hrun.
  assert (confirm_inv (fresh_world s)) as Hi.
  { split; cbn; [done| |constructor..]. intros t k rec E. rewrite Hn in E. discriminate. }
  revert Hi. induction Hrun as [|w1 w2 w3 Hst _ IH]; [done|]. intros Hi. by eapply IH, confirm_step_inv.
Qed.

(** C17: a confirmation is consumed at most once. However issues, validations, expiries,
    consumptions and the transactions of other components interleave, and however late
    or often a validation is used, at most one consumption of a tenant's record commits;
    the record then stays consumed by that invocation, and the approval is in the audit
    namespace. *)
Theorem confirmation_consumed_once s w :
  ts_inv s → no_actions s → rtc confirm_step (fresh_world s) w →
  NoDup (map (λ c, (co_tenant c, co_key c)) (cw_log w)) ∧
  ∀ c, c ∈ cw_log w → consumed_in (cw_store w) c ∧ audited (cw_store w) c.
Proof.
  intros Hs Hn Hrun. destruct (confirm_reachable _ _ Hs Hn Hrun) as [_ _ _ Hlog Honce].
  split; [done|]. by apply Forall_forall.
Qed.

(** A consumed token is refused ever after: whatever proof addresses the record, at
    whatever time, the answer is a rejection that stages nothing, and it is [replayed]
    when the proof reads the record. *)
Theorem consumed_token_replayed s w c proof now res ws :
  ts_inv s → no_actions s → rtc confirm_step (fresh_world s) w →
  c ∈ cw_log w → proof_key proof = co_key c →
  validatePendingAction (ts_find (cw_store w) (co_tenant c)) proof now = Ok (res, ws) →
  ws = [] ∧
  ((∃ reason id, res = rejected reason id None) ∨
   let consumed := with_consumed (co_action c) (co_invocation c) (co_at c) in
   res = rejected replayed (Some (cf_confirmationId consumed)) (Some consumed)).
Proof.
  intros Hs Hn Hrun Hc Hk Hv. destruct (confirm_reachable _ _ Hs Hn Hrun) as [_ _ _ Hlog _].
  destruct (proj1 (Forall_forall _ _) Hlog c Hc) as [(rec & Hf & Hval & _ & Hvd) _].
  apply validate_cases in Hv as [(parts & stored & r & (_ & _ & _ & _ & Hr & Hd & _) & Hdec)|[-> Hrej]]; [|by eauto].
  rewrite Hk, Hf in Hr. injection Hr as <-. rewrite Hval in Hd. apply decode_value in Hd as [_ ->].
  unfold decide_action in Hdec. rewrite (bool_decide_eq_true_2 (cf_state _ = _)) in Hdec by reflexivity.
  injection Hdec as <- <-. split; [done|]. right. reflexivity.
Qed.
End store.

(** Decoding inverts encoding: a record reads back as itself exactly when it has the
    form of the schema and its state agrees with its end. *)
Theorem action_roundtrip r r' :
  decodePendingAction (action_value r) = Ok r' ↔
  (conforms pendingActionSchema (action_value r) = true ∧ violates_state r = false) ∧ r' = r.
Proof. rewrite decode_value. unfold action_valid. rewrite <- action_conforms, safeParse_conforms. tauto. Qed.
End authority.

(** ** Witnesses *)

Section witness.
Import Sha256.

#[local] Instance demo_zod : Zod := conforms.
#[local] Instance demo_zod_ok : ZodOk demo_zod.
Proof. by intros schema v. Qed.
#[local] Existing Instance ProtocolStoreFacts.demo_float.
#[local] Instance demo_float_ok : Float64Ok ProtocolStoreFacts.demo_float.
Proof. by split. Qed.

Definition demo_binding : GatewayPendingActionBinding := {|
  pb_tenantId := js "acme"; pb_principalKey := js "acme/ada"; pb_userId := js "ada"; pb_gatewaySessionId := js "gs-1";
  pb_confirmationSessionId := js "mcp-1"; pb_oauthClientId := Some (js "client"); pb_rsid := js "rsid-1";
  pb_toolName := js "set_parameters"; pb_toolVersion := js "1"; pb_commitArgsDigest := sha256_text (js "args");
  pb_mutationScope := document_scope (js "doc-1"); pb_documentIdentity := live_document (js "doc-1") |}.

Definition demo_preview : jstr := js "018bcfe5-6800-7bab-abab-abababababab".
Definition demo_commit : jstr := js "018bcfe5-6801-7bab-abab-abababababab".

Definition demo_issue_input : GatewayPendingActionIssueInput := {|
  ii_binding := demo_binding; ii_scope := demo_scope; ii_originatingPreviewInvocationId := demo_preview;
  ii_previewDigest := sha256_text (js "preview"); ii_previewRef := js "ref" |}.

Definition demo_secret : jstr := replicate 43 97.

Definition demo_prepared : result js_error (GatewayConfirmationStoreFailure + Issue) :=
  issue_prepare (λ _, Ok demo_preview) demo_issue_input (JInt 1000) demo_secret.

Definition demo_issue : Issue := match demo_prepared with Ok (inr i) => i | _ => Build_Issue [] (action_of VNull) [] (demo_write VNull expect_any) end.

Definition demo_proof : GatewayConfirmationProof := {|
  cp_confirmToken := is_token demo_issue; cp_originatingPreviewInvocationId := demo_preview; cp_commitInvocationId := demo_commit;
  cp_binding := demo_binding; cp_scope := demo_scope |}.

(** The store before the issue, after it and after the consumption. *)
Definition commit_writes (st : Store) (ws : list StoreWrite) : Store :=
  (finish_transact st (foldl (tx_stage (s_limits st)) (new_tx (js "acme")) ws) (Some tt) (JInt 9)).1.

Definition demo_cs0 : @ts_state preproduction_store := demo_store1.
Definition demo_cs1 : @ts_state preproduction_store := Eval vm_compute in commit_writes demo_cs0 [is_write demo_issue].
Definition demo_key : jstr := Eval vm_compute in sw_key (is_write demo_issue).
Definition demo_action : GatewayPendingActionRecord := Eval vm_compute in is_action demo_issue.

Definition demo_staged_writes : list StoreWrite := Eval vm_compute in
  match stageConsumption demo_action 1 demo_key demo_commit (JInt 2000) with Ok (_, ws) => ws | Throw _ => [] end.
Definition demo_cs2 : @ts_state preproduction_store := Eval vm_compute in commit_writes demo_cs1 demo_staged_writes.

Definition demo_consumption : consumption := {|
  co_tenant := js "acme"; co_key := demo_key; co_action := demo_action; co_invocation := demo_commit; co_at := JInt 2000 |}.

Lemma demo_prepared_ok :
  issue_prepare (λ _, Ok demo_preview) demo_issue_input (JInt 1000) demo_secret = Ok (inr demo_issue).
Proof. vm_compute. reflexivity. Qed.

Lemma demo_commit1 : ts_commit demo_cs0 (is_tenantId demo_issue) [is_write demo_issue] demo_cs1.
Proof. exists (JInt 9), tt. split; vm_compute; reflexivity. Qed.

Lemma demo_commit2 : ts_commit demo_cs1 (js "acme") (demo_staged_writes ++ []) demo_cs2.
Proof. exists (JInt 9), tt. split; vm_compute; reflexivity. Qed.

Lemma demo_tree : json_tree (action_value (is_action demo_issue)) = true.
Proof. vm_compute. reflexivity. Qed.

Lemma demo_cs0_inv : ts_inv demo_cs0.
Proof.
  split; [|vm_compute; discriminate].
  assert (world_inv (demo_world demo_store0 [])) as Hi by (apply (create_inv demo_options); vm_compute; reflexivity).
  exact (proj1 (store_step_inv no_collation _ _ Hi (step_open no_collation demo_store0 []))).
Qed.

Lemma demo_validates :
  validatePendingAction (ts_find demo_cs1 (js "acme")) demo_proof (JInt 1500) = Ok (validated demo_action 1 demo_key, []).
Proof. vm_compute. reflexivity. Qed.

Definition demo_world_after : world := {|
  cw_store := demo_cs2; cw_flight := [confirming (js "acme") demo_action 1 demo_key]; cw_log := [demo_consumption] |}.

Lemma demo_confirm_run : rtc confirm_step (fresh_world demo_cs0) demo_world_after.
Proof.
  eapply rtc_l; [exact (step_issue demo_cs0 demo_cs1 [] [] (λ _, Ok demo_preview) demo_issue_input (JInt 1000) demo_secret demo_issue
                          demo_prepared_ok demo_tree demo_commit1)|].
  eapply rtc_l; [exact (step_validate demo_cs1 [] [] (js "acme") demo_proof (JInt 1500) demo_action 1 demo_key demo_validates)|].
  eapply rtc_l; [|apply rtc_refl].
  eapply (step_consume demo_cs1 demo_cs2 _ [] (js "acme") demo_action 1 demo_key demo_commit (JInt 2000)
            (with_consumed demo_action demo_commit (JInt 2000)) demo_staged_writes []); [apply list_elem_of_here|vm_compute; reflexivity| |exact demo_commit2].
  intros w Hw. by apply not_elem_of_nil in Hw.
Qed.

Lemma demo_no_actions : no_actions demo_cs0.
Proof. intros t k. reflexivity. Qed.

Lemma confirmation_consumed_once_witness : consumed_in demo_cs2 demo_consumption ∧ audited demo_cs2 demo_consumption.
Proof.
  destruct (confirmation_consumed_once demo_cs0 demo_world_after demo_cs0_inv demo_no_actions demo_confirm_run) as [_ Hall].
  apply Hall. apply list_elem_of_here.
Defined.

Lemma consumed_token_replayed_witness :
  ∃ res ws, validatePendingAction (ts_find demo_cs2 (js "acme")) demo_proof (JInt 3000) = Ok (res, ws) ∧ ws = [].
Proof.
  destruct (validatePendingAction (ts_find demo_cs2 (js "acme")) demo_proof (JInt 3000)) as [[res ws]|e] eqn:E;
    [|exfalso; revert E; vm_compute; discriminate].
  exists res, ws. split; [reflexivity|].
  refine (proj1 (consumed_token_replayed demo_cs0 demo_world_after demo_consumption demo_proof (JInt 3000) res ws
                   demo_cs0_inv demo_no_actions demo_confirm_run _ _ E)); [apply list_elem_of_here|vm_compute; reflexivity].
Defined.

Lemma demo_distinguish : digests_distinguish demo_binding demo_binding.
Proof.
  assert (bounded_text 512 (js "doc-1")) as Hb by (split; [vm_compute; split; discriminate|vm_compute; reflexivity]).
  split; [split; [vm_compute; reflexivity|]; split; [vm_compute; reflexivity|]; by intros _|].
  split; [exact Hb|]. split; [exact Hb|]. split; [vm_compute; reflexivity|]. split; [vm_compute; reflexivity|]. by intros _.
Qed.

Lemma issued_token_exact_witness :
  scope_speaks demo_scope (js "acme/ada") (js "mcp-1").
Proof.
  destruct (issued_token_exact (λ _, Ok demo_preview) demo_issue_input 1000 demo_secret demo_issue demo_cs0 demo_cs1 demo_proof (JInt 1500)
              demo_prepared_ok ltac:(vm_compute; split; discriminate) demo_tree demo_cs0_inv demo_commit1 eq_refl demo_distinguish) as [Hto _].
  destruct Hto as (Hs & _); [vm_compute; reflexivity|exact Hs].
Defined.
End witness.
End ConfirmationFacts.
