(* ===== verification/BatchDispatch.v ===== *)
(** Atomic batches of authorised invocations: packages/gateway/src/batchDispatch.ts.

    Every step of a batch went through the dispatch of its own tool; the batch is
    checked again against the registry and against its first step.  The strict parse of
    a tool's arguments is zod's and a parameter: it returns the data it accepts. *)

From S2P Require Import Prelude JsString JsValue JsMap Canonical JsonText Sha256 ProtocolStore Identifiers InvocationContext Registry Confirmation.

Module BatchDispatch.
Import Canonical JsonText Identifiers InvocationContext Registry Confirmation.

Definition GATEWAY_ATOMIC_BATCH_MAX_STEPS : Z := 64.

Inductive GatewayAtomicBatchAuthorizationErrorCode :=
| invalid_batch_id | invalid_step_count | duplicate_invocation_id | registry_mismatch | invalid_arguments
| executor_not_batchable | policy_not_batchable | context_mismatch | params_digest_mismatch | batch_has_no_mutation.

Record GatewayAtomicBatchAuthorizationError := { be_code : GatewayAtomicBatchAuthorizationErrorCode; be_message : jstr }.

(** [GatewayExecutorRequest] and the batch of dispatch.ts. *)
Record GatewayExecutorRequest := {
  er_toolName : jstr; er_toolVersion : jstr; er_executorMethod : jstr; er_policyClass : GatewayPolicyClass;
  er_mutationScopePolicy : GatewayMutationScopePolicy; er_args : jsval; er_context : GatewayInvocationContext }.

Record GatewayAtomicBatchExecutorRequest := { ab_batchId : jstr; ab_steps : list GatewayExecutorRequest }.

Definition fail_if (cond : bool) (code : GatewayAtomicBatchAuthorizationErrorCode) (message : jstr)
  : result GatewayAtomicBatchAuthorizationError unit :=
  throw_if cond {| be_code := code; be_message := message |}.

#[export] Instance GatewayExecutorBinding_eq_dec : EqDecision GatewayExecutorBinding.
Proof. solve_decision. Defined.
#[export] Instance GatewayRole_eq_dec : EqDecision GatewayRole.
Proof. solve_decision. Defined.

Definition sameDocument (left right : GatewayDocumentIdentity) : bool :=
  json_stringify (document_value left) === json_stringify (document_value right).

Section batch.
Context `{Hasher} {ZodType : Type} (get : jstr → option (GatewayToolRecord ZodType)).
Context (strictParse : list (jstr * option ZodType) → jsval → option jsval).

Definition row_mismatch (record : option (GatewayToolRecord ZodType)) (request : GatewayExecutorRequest) : bool :=
  match record with
  | None => true
  | Some r =>
      (tr_version r !== er_toolVersion request) || (tr_executorMethod r !== er_executorMethod request) ||
      (tr_executor r !== ic_executor (er_context request)) || (tr_policyClass r !== er_policyClass request) ||
      (tr_mutationScopePolicy r !== er_mutationScopePolicy request) ||
      (ic_toolName (er_context request) !== er_toolName request) ||
      (ic_toolVersion (er_context request) !== er_toolVersion request) ||
      (ic_policyClass (er_context request) !== er_policyClass request) ||
      (ic_mutationScopePolicy (er_context request) !== er_mutationScopePolicy request)
  end.

Definition policy_unbatchable (policyClass : GatewayPolicyClass) (c : GatewayInvocationContext) : bool :=
  match policyClass with
  | class_gated => true
  | class_confirm => (ic_policyDecision c !== decided_confirmed) || is_null (ic_confirmationId c)
  | class_auto => (ic_policyDecision c !== decided_auto) || negb (is_null (ic_confirmationId c))
  end.

Definition crosses (c first : GatewayInvocationContext) : bool :=
  (ic_tenantId c !== ic_tenantId first) || (ic_userId c !== ic_userId first) || (ic_role c !== ic_role first) ||
  (ic_principalKey c !== ic_principalKey first) || (ic_gatewaySessionId c !== ic_gatewaySessionId first) ||
  (ic_oauthClientId c !== ic_oauthClientId first) || (ic_mcpSessionId c !== ic_mcpSessionId first) ||
  (ic_rsid c !== ic_rsid first) || negb (sameDocument (ic_documentIdentity c) (ic_documentIdentity first)).

Definition expected_scope (policy : GatewayMutationScopePolicy) (scope : option GatewayMutationScope) : bool :=
  match policy with
  | policy_none => is_null scope
  | policy_session => match scope with Some session_scope => true | _ => false end
  | policy_document => match scope with Some (document_scope _) => true | _ => false end
  end.

Definition step_text (index : Z) (text : string) : jstr := js "batch step " ++ dec index ++ js text.

(** The callback of [steps.map], after the test for repeated invocation ids. *)
Definition authorize_step (first : GatewayInvocationContext) (index : Z) (request : GatewayExecutorRequest)
  : result GatewayAtomicBatchAuthorizationError unit :=
  let c := er_context request in
  match get (er_toolName request) with
  | None => fail_if true registry_mismatch (step_text index " is not an exact registry row")
  | Some record =>
      fail_if (row_mismatch (Some record) request) registry_mismatch (step_text index " is not an exact registry row") ;;
      match strictParse (tr_inputSchema record) (er_args request) with
      | None => fail_if true invalid_arguments (step_text index " arguments do not match the registry schema")
      | Some data =>
          fail_if (tr_executor record !== executor_bridge) executor_not_batchable (step_text index " is not Bridge-bound") ;;
          fail_if (policy_unbatchable (tr_policyClass record) c) policy_not_batchable
            (step_text index " lacks an exact server-authored policy decision") ;;
          fail_if (crosses c first) context_mismatch (step_text index " crosses an actor/session/rsid/document boundary") ;;
          fail_if ((ic_mutating c !== (tr_mutationScopePolicy record !== policy_none)) ||
                   negb (expected_scope (tr_mutationScopePolicy record) (ic_mutationScope c)))
            context_mismatch (step_text index " mutation effect disagrees with the registry") ;;
          match makeParamsDigest data with
          | Throw _ => fail_if true params_digest_mismatch (step_text index " arguments cannot be canonically digested")
          | Ok paramsDigest =>
              fail_if (paramsDigest !== ic_paramsDigest c) params_digest_mismatch
                (step_text index " params do not match its authoritative digest")
          end
      end
  end.

(** [steps.map]: the ids seen so far and the count of mutations are threaded through. *)
Fixpoint authorize_steps (first : GatewayInvocationContext) (invocationIds : list jstr) (mutationCount index : Z)
    (steps : list GatewayExecutorRequest) : result GatewayAtomicBatchAuthorizationError Z :=
  match steps with
  | [] => Ok mutationCount
  | request :: steps =>
      let id := ic_invocationId (er_context request) in
      fail_if (bool_decide (id ∈ invocationIds)) duplicate_invocation_id (step_text index " repeats an invocation id") ;;
      authorize_step first index request ;;
      authorize_steps first (id :: invocationIds)
        (if ic_mutating (er_context request) then mutationCount + 1 else mutationCount) (index + 1) steps
  end.

Definition authorizeGatewayAtomicBatch (batchId : jstr) (steps : list GatewayExecutorRequest)
  : result GatewayAtomicBatchAuthorizationError GatewayAtomicBatchExecutorRequest :=
  fail_if (negb (isGatewayUuidV7 batchId)) invalid_batch_id (js "atomic batch id must be UUIDv7") ;;
  let n := Z.of_nat (length steps) in
  match steps with
  | [] => fail_if true invalid_step_count (js "atomic batch requires 1-" ++ dec GATEWAY_ATOMIC_BATCH_MAX_STEPS ++ js " steps") ;;
          Ok {| ab_batchId := batchId; ab_steps := steps |}
  | first :: _ =>
      fail_if (GATEWAY_ATOMIC_BATCH_MAX_STEPS <? n) invalid_step_count
        (js "atomic batch requires 1-" ++ dec GATEWAY_ATOMIC_BATCH_MAX_STEPS ++ js " steps") ;;
      mutationCount ← authorize_steps (er_context first) [] 0 0 steps;
      fail_if (mutationCount =? 0) batch_has_no_mutation (js "atomic batch must contain a mutation") ;;
      Ok {| ab_batchId := batchId; ab_steps := steps |}
  end.

End batch.
End BatchDispatch.

(** * Facts *)

Module BatchDispatchFacts.
Import Canonical CanonicalFacts JsonText JsonTextFacts Identifiers InvocationContext InvocationContextFacts Registry Confirmation
  BatchDispatch.

Lemma fail_if_ok cond code msg u : fail_if cond code msg = Ok u ↔ cond = false.
Proof. apply throw_if_ok. Qed.

(** A context whose document can be printed and read back. *)
Definition printable (c : GatewayInvocationContext) : Prop := json_tree (document_value (ic_documentIdentity c)) = true.

Lemma document_value_exact a b : document_value a = document_value b → a = b.
Proof. destruct a, b; cbn; intros E; try discriminate E; injection E; intros; by subst. Qed.

Lemma sameDocument_eq `{Float64} `{!Float64Ok H} a b :
  json_tree (document_value a) = true → json_tree (document_value b) = true → sameDocument a b = true ↔ a = b.
Proof.
  intros Ha Hb. unfold sameDocument. rewrite bool_decide_eq_true. split; [|by intros ->]. intros E.
  pose proof (proj2 (stringify_parses _ Ha)) as Pa. rewrite E, (proj2 (stringify_parses _ Hb)) in Pa.
  injection Pa as Pa. by apply document_value_exact.
Qed.

Section batch.
Context `{Hasher} `{Float64} `{!Float64Ok H0} {ZodType : Type} (get : jstr → option (GatewayToolRecord ZodType)).
Context (strictParse : list (jstr * option ZodType) → jsval → option jsval).

(** Two contexts of one actor, session, route and document. *)
Record same_authority (c first : GatewayInvocationContext) : Prop := {
  sa_tenant : ic_tenantId c = ic_tenantId first; sa_user : ic_userId c = ic_userId first; sa_role : ic_role c = ic_role first;
  sa_principal : ic_principalKey c = ic_principalKey first; sa_gateway : ic_gatewaySessionId c = ic_gatewaySessionId first;
  sa_client : ic_oauthClientId c = ic_oauthClientId first; sa_session : ic_mcpSessionId c = ic_mcpSessionId first;
  sa_rsid : ic_rsid c = ic_rsid first; sa_document : ic_documentIdentity c = ic_documentIdentity first }.

(** The policy was decided by the server: automatically, or by a confirmation. *)
Definition policy_decided (cls : GatewayPolicyClass) (c : GatewayInvocationContext) : Prop :=
  (cls = class_auto ∧ ic_policyDecision c = decided_auto ∧ ic_confirmationId c = None) ∨
  (cls = class_confirm ∧ ic_policyDecision c = decided_confirmed ∧ is_Some (ic_confirmationId c)).

(** The effect is the one the registry declares. *)
Definition effect_declared (policy : GatewayMutationScopePolicy) (c : GatewayInvocationContext) : Prop :=
  match policy with
  | policy_none => ic_mutating c = false ∧ ic_mutationScope c = None
  | policy_session => ic_mutating c = true ∧ ic_mutationScope c = Some session_scope
  | policy_document => ic_mutating c = true ∧ ∃ d, ic_mutationScope c = Some (document_scope d)
  end.

(** A step that is an exact, decided, bridge-bound row of the registry. *)
Record step_authorised (first : GatewayInvocationContext) (s : GatewayExecutorRequest) : Prop := {
  au_row : ∃ record data, get (er_toolName s) = Some record ∧
    tr_version record = er_toolVersion s ∧ tr_executorMethod record = er_executorMethod s ∧
    tr_executor record = executor_bridge ∧ tr_policyClass record = er_policyClass s ∧
    tr_mutationScopePolicy record = er_mutationScopePolicy s ∧
    strictParse (tr_inputSchema record) (er_args s) = Some data ∧ makeParamsDigest data = Ok (ic_paramsDigest (er_context s));
  au_context : ic_executor (er_context s) = executor_bridge ∧ ic_toolName (er_context s) = er_toolName s ∧
    ic_toolVersion (er_context s) = er_toolVersion s ∧ ic_policyClass (er_context s) = er_policyClass s ∧
    ic_mutationScopePolicy (er_context s) = er_mutationScopePolicy s;
  au_policy : policy_decided (er_policyClass s) (er_context s);
  au_same : same_authority (er_context s) first;
  au_effect : effect_declared (er_mutationScopePolicy s) (er_context s) }.

Lemma crosses_false c first : printable c → printable first → crosses c first = false ↔ same_authority c first.
Proof.
  intros Hc Hf. unfold crosses. rewrite !orb_false_iff, !negb_false_iff, !bool_decide_eq_true, (sameDocument_eq _ _ Hc Hf).
  split; [intros ((((((((? & ?) & ?) & ?) & ?) & ?) & ?) & ?) & ?); by split|intros []; tauto].
Qed.

Lemma policy_unbatchable_false cls c : policy_unbatchable cls c = false ↔ policy_decided cls c.
Proof.
  unfold policy_decided. destruct cls; cbn; [| |split; [done|naive_solver]];
    rewrite orb_false_iff, negb_false_iff, bool_decide_eq_true, ?negb_false_iff, ?is_null_true, ?is_null_false; naive_solver.
Qed.

Lemma effect_false policy c :
  (ic_mutating c !== (policy !== policy_none)) || negb (expected_scope policy (ic_mutationScope c)) = false ↔ effect_declared policy c.
Proof.
  rewrite orb_false_iff, !negb_false_iff, bool_decide_eq_true. destruct policy; cbn;
    destruct (ic_mutationScope c) as [[]|], (ic_mutating c); cbn; naive_solver.
Qed.

Lemma authorize_step_ok first index s u : printable (er_context s) → printable first →
  authorize_step get strictParse first index s = Ok u ↔ step_authorised first s.
Proof.
  intros Hc Hf. unfold authorize_step. split.
  - destruct (get (er_toolName s)) as [record|] eqn:Eg; [|done]. rewrite seq_ok, is_ok_unit, fail_if_ok. intros [Hrow E].
    cbn [row_mismatch] in Hrow. rewrite !orb_false_iff, !negb_false_iff, !bool_decide_eq_true in Hrow.
    destruct Hrow as ((((((((Hv & Hm) & Hx) & Hp) & Hs) & Hn) & Hcv) & Hcp) & Hcs).
    destruct (strictParse _ _) as [data|] eqn:Ep; [|done].
    rewrite !seq_ok, !is_ok_unit, !fail_if_ok, negb_false_iff, bool_decide_eq_true in E.
    destruct E as (Hb & Hpol & Hcr & Heff & E). apply policy_unbatchable_false in Hpol. apply crosses_false in Hcr; [|done..].
    apply effect_false in Heff. destruct (makeParamsDigest data) as [d|] eqn:Ed; [|done].
    rewrite fail_if_ok, negb_false_iff, bool_decide_eq_true in E. subst d.
    split; [exists record, data; by split_and!|split_and!; congruence|by rewrite <- Hp|done|by rewrite <- Hs].
  - intros [(record & data & -> & Hv & Hm & Hx & Hp & Hs & Ep & Ed) (Hcx & Hn & Hcv & Hcp & Hcs) Hpol Hsame Heff].
    rewrite seq_ok, is_ok_unit, fail_if_ok. cbn [row_mismatch].
    rewrite !orb_false_iff, !negb_false_iff, !bool_decide_eq_true. rewrite Ep, !seq_ok, !is_ok_unit, !fail_if_ok, Ed, fail_if_ok.
    rewrite (proj2 (policy_unbatchable_false _ _)), (proj2 (crosses_false _ _ Hc Hf)), (proj2 (effect_false _ _)) by (rewrite ?Hp, ?Hs; done).
    rewrite !negb_false_iff, !bool_decide_eq_true, Hx. by repeat split.
Qed.

Lemma authorize_steps_ok first ids count index steps n :
  printable first → Forall (λ s, printable (er_context s)) steps →
  authorize_steps get strictParse first ids count index steps = Ok n ↔
  (NoDup (map (λ s, ic_invocationId (er_context s)) steps) ∧ (∀ s, s ∈ steps → ic_invocationId (er_context s) ∉ ids) ∧
   Forall (step_authorised first) steps) ∧
  n = count + Z.of_nat (length (List.filter (λ s, ic_mutating (er_context s)) steps)).
Proof.
  intros Hf Hp. revert ids count index. induction Hp as [|s steps Hs _ IH]; intros ids count index; cbn [authorize_steps map List.filter length].
  { split; [intros [= ->]|intros [_ ->]; f_equal; lia]. split; [|lia]. split_and!; [constructor|by intros s ?%not_elem_of_nil|constructor]. }
  rewrite !seq_ok, !is_ok_unit, fail_if_ok, bool_decide_eq_false, authorize_step_ok, IH, NoDup_cons, Forall_cons by done.
  assert ((if ic_mutating (er_context s) then count + 1 else count) +
            Z.of_nat (length (List.filter (λ s, ic_mutating (er_context s)) steps)) =
          count + Z.of_nat (length (if ic_mutating (er_context s) then s :: List.filter (λ s, ic_mutating (er_context s)) steps
                                    else List.filter (λ s, ic_mutating (er_context s)) steps))) as ->
    by (destruct (ic_mutating (er_context s)); cbn [length]; lia).
  split.
  - intros (Hi & Ha & (Hnd & Hni & Hall) & ->). split; [|done]. split_and!; try done.
    + intros (s' & E & Hs')%list_elem_of_fmap. apply (Hni s' Hs'). rewrite E. by left.
    + intros s' [->|Hs']%elem_of_cons; [done|]. intros Hin. apply (Hni s' Hs'). by right.
  - intros ([[Hi Hnd] [Hni [Ha Hall]]] & ->). split_and!; try done; [by apply Hni; left|].
    intros s' Hs' [E|Hin]%elem_of_cons; [|by apply (Hni s'); [right|]]. apply Hi. rewrite <- E. apply list_elem_of_fmap. by exists s'.
Qed.

Lemma atomic_batch_exact batchId steps batch :
  Forall (λ s, printable (er_context s)) steps →
  authorizeGatewayAtomicBatch get strictParse batchId steps = Ok batch ↔
  isGatewayUuidV7 batchId = true ∧ 1 <= Z.of_nat (length steps) <= GATEWAY_ATOMIC_BATCH_MAX_STEPS ∧
  NoDup (map (λ s, ic_invocationId (er_context s)) steps) ∧
  (∀ first, head steps = Some first → Forall (step_authorised (er_context first)) steps) ∧
  (∃ s, s ∈ steps ∧ ic_mutating (er_context s) = true) ∧
  batch = {| ab_batchId := batchId; ab_steps := steps |}.
Proof.
  intros Hp. unfold authorizeGatewayAtomicBatch. rewrite seq_ok, is_ok_unit, fail_if_ok, negb_false_iff.
  destruct steps as [|first rest]; [cbn; split; [by intros [_ ?]|intros (_ & ? & _); lia]|].
  rewrite seq_ok, is_ok_unit, fail_if_ok, Z.ltb_ge, bind_ok.
  set (steps := first :: rest) in *. pose proof (proj1 (proj1 (Forall_cons _ _ _) Hp)) as Hf.
  assert (∀ n, n = 0 + Z.of_nat (length (List.filter (λ s, ic_mutating (er_context s)) steps)) → (n =? 0) = false ↔
            ∃ s, s ∈ steps ∧ ic_mutating (er_context s) = true) as Hcount.
  { intros n ->. rewrite Z.eqb_neq. split.
    - intros Hn. destruct (List.filter _ steps) as [|s l] eqn:E; [cbn in Hn; lia|]. exists s.
      apply (elem_of_filter_bool (λ s, ic_mutating (er_context s)) steps s). rewrite E. by left.
    - intros (s & Hs). apply (elem_of_filter_bool (λ s, ic_mutating (er_context s)) steps s) in Hs.
      destruct (List.filter _ steps); [by apply not_elem_of_nil in Hs|cbn; lia]. }
  split.
  - intros (Hid & Hl & n & Hn & E). apply authorize_steps_ok in Hn as [(Hnd & _ & Hall) Hn]; [|done..].
    apply seq_ok in E as [E%is_ok_unit E']. rewrite fail_if_ok, (Hcount n Hn) in E. injection E' as <-.
    split; [done|]. split; [unfold steps; cbn [length]; unfold steps in Hl; cbn [length] in Hl; lia|]. split; [done|]. split; [by intros ? [= <-]|done].
  - intros (Hid & Hl & Hnd & Hall & Hm & ->). split; [done|]. split; [lia|]. eexists. split.
    { apply authorize_steps_ok; [done..|]. split; [|reflexivity]. split; [done|]. split; [|by apply Hall].
      intros s _. apply not_elem_of_nil. }
    apply seq_ok. split; [|done]. apply is_ok_unit. rewrite fail_if_ok. by apply Hcount.
Qed.

Lemma step_authorised_first c c' s : step_authorised c s → same_authority (er_context s) c' → step_authorised c' s.
Proof. intros [] ?. by split. Qed.

Lemma same_authority_trans a b c : same_authority a b → same_authority c b → same_authority a c.
Proof. intros [] []. split; congruence. Qed.

(** An atomic batch is authorised exactly when it has one to sixty-four steps with
    distinct invocation ids, every step is an exact bridge-bound row of the registry with
    a decided policy, its declared effect and the digest of its arguments, any two steps
    are of one actor, session, route and document, and at least one step mutates; the
    batch is then these steps. *)
Theorem atomic_batch_authorised batchId steps batch :
  Forall (λ s, printable (er_context s)) steps →
  authorizeGatewayAtomicBatch get strictParse batchId steps = Ok batch ↔
  isGatewayUuidV7 batchId = true ∧ 1 <= Z.of_nat (length steps) <= GATEWAY_ATOMIC_BATCH_MAX_STEPS ∧
  NoDup (map (λ s, ic_invocationId (er_context s)) steps) ∧
  (∀ s, s ∈ steps → step_authorised (er_context s) s) ∧
  (∀ s1 s2, s1 ∈ steps → s2 ∈ steps → same_authority (er_context s1) (er_context s2)) ∧
  (∃ s, s ∈ steps ∧ ic_mutating (er_context s) = true) ∧
  batch = {| ab_batchId := batchId; ab_steps := steps |}.
Proof.
  intros Hp. rewrite (atomic_batch_exact _ _ _ Hp). split.
  - intros (Hid & Hl & Hnd & Hall & Hm). destruct steps as [|first rest]; [cbn in Hl; lia|].
    specialize (Hall first eq_refl). rewrite Forall_forall in Hall. do 3 (split; [done|]). split; [|split; [|done]].
    + intros s Hs. eapply step_authorised_first; [by apply Hall|]. by split.
    + intros s1 s2 H1%Hall H2%Hall. eapply same_authority_trans; by eapply au_same.
  - intros (Hid & Hl & Hnd & Hall & Hsame & Hm). do 3 (split; [done|]). split; [|done].
    intros first Hf. assert (first ∈ steps) by (destruct steps; [done|]; injection Hf as ->; by left).
    apply Forall_forall. intros s Hs. eapply step_authorised_first; [by apply Hall|by apply Hsame].
Qed.

(** ** From contexts to batches *)

(** A request dispatch made for a row of the registry: its context was created for this
    actor, route and ingress, its arguments are what the row's schema returns, and its
    policy was decided automatically or confirmed. *)
Record dispatched (auth : AuthContext) (route : GatewayInvocationRoute) (session : jstr) (scope : EffectiveMcpRequestScopeV1)
    (input : InvocationInput) (s : GatewayExecutorRequest) : Prop := {
  di_context : createGatewayInvocationContext auth route session scope input = Ok (er_context s);
  di_row : ∃ record, get (er_toolName s) = Some record ∧ tr_executor record = executor_bridge ∧
    tr_version record = er_toolVersion s ∧ tr_executorMethod record = er_executorMethod s ∧
    tr_policyClass record = er_policyClass s ∧ tr_mutationScopePolicy record = er_mutationScopePolicy s ∧
    strictParse (tr_inputSchema record) (er_args s) = Some (er_args s);
  di_input : in_toolName input = er_toolName s ∧ in_toolVersion input = er_toolVersion s ∧ in_policyClass input = er_policyClass s ∧
    in_mutationScopePolicy input = er_mutationScopePolicy s ∧ in_executor input = executor_bridge ∧ in_args input = er_args s;
  di_decided : decision_of input = decided_auto ∨ decision_of input = decided_confirmed }.

Lemma dispatched_same auth route session scope i1 i2 s1 s2 :
  dispatched auth route session scope i1 s1 → dispatched auth route session scope i2 s2 →
  same_authority (er_context s1) (er_context s2).
Proof.
  intros [H1 _ _ _] [H2 _ _ _]. apply create_ok in H1 as (_ & _ & _ & _ & c1 & d1 & E1 & _ & ->), H2 as (_ & _ & _ & _ & c2 & d2 & E2 & _ & ->).
  rewrite E1 in E2. injection E2 as <-. by split.
Qed.

Lemma dispatched_policy auth route session scope input s :
  dispatched auth route session scope input s → policy_decided (er_policyClass s) (er_context s).
Proof.
  intros [Hc _ (_ & _ & <- & _) Hd]. apply create_ok in Hc as (_ & _ & Hdec & Hids & c & d & _ & _ & ->). unfold policy_decided. cbn.
  destruct Hd as [Hd|Hd]; rewrite Hd in Hdec, Hids |- *; inversion Hdec; [left|right].
  - destruct Hids as [[? _]|(_ & -> & _)]; done.
  - destruct Hids as [(_ & ? & ? & -> & _)|[? _]]; [|done]. split_and!; [done..|by eexists].
Qed.

Lemma dispatched_effect auth route session scope input s :
  dispatched auth route session scope input s → effect_declared (er_mutationScopePolicy s) (er_context s).
Proof.
  intros [Hc _ (_ & _ & _ & <- & _) _]. apply create_ok in Hc as (Ha & _ & _ & _ & c & d & _ & _ & ->). unfold effect_declared. cbn.
  pose proof (az_live _ _ _ _ _ _ Ha) as Hl. destruct (in_mutationScopePolicy input); cbn; [done| |done].
  destruct (Hl eq_refl) as [id ->]. split; [done|by eexists].
Qed.

Lemma dispatched_step auth route session scope input s first i0 :
  dispatched auth route session scope i0 first → dispatched auth route session scope input s → step_authorised (er_context first) s.
Proof.
  intros Hf Hs. split; [..|by eapply dispatched_policy|by eapply dispatched_same|by eapply dispatched_effect].
  - destruct Hs as [Hc (record & Hg & Hx & Hv & Hm & Hp & Hsp & Hpa) (_ & _ & _ & _ & _ & Ea) _].
    apply create_ok in Hc as (_ & _ & _ & _ & c & d & _ & Hdig & ->). exists record, (er_args s). rewrite Ea in Hdig. by split_and!.
  - destruct Hs as [Hc _ (E1 & E2 & E3 & E4 & E5 & _) _]. apply create_ok in Hc as (_ & _ & _ & _ & c & d & _ & _ & ->). by split_and!.
Qed.

(** What dispatch authorised step by step passes as an atomic batch: requests whose
    contexts were created for one actor, route and ingress, whose rows, arguments and
    decisions are the registry's, with distinct invocation ids and one mutating tool
    among them, are accepted as they are. *)
Theorem dispatched_steps_batch auth route session scope batchId inputs steps :
  Forall2 (dispatched auth route session scope) inputs steps →
  isGatewayUuidV7 batchId = true → 1 <= Z.of_nat (length steps) <= GATEWAY_ATOMIC_BATCH_MAX_STEPS →
  NoDup (map in_invocationId inputs) → json_tree (document_value (ro_documentIdentity route)) = true →
  (∃ s, s ∈ steps ∧ er_mutationScopePolicy s ≠ policy_none) →
  authorizeGatewayAtomicBatch get strictParse batchId steps = Ok {| ab_batchId := batchId; ab_steps := steps |}.
Proof.
  intros Hall Hid Hl Hnd Hdoc (s & Hs & Hm).
  assert (∀ s, s ∈ steps → ∃ i, dispatched auth route session scope i s) as Hdis.
  { intros s' Hs'. apply list_elem_of_lookup in Hs' as [k Hk]. destruct (Forall2_lookup_r _ _ _ _ _ Hall Hk) as (i & _ & Hi). eauto. }
  apply atomic_batch_exact.
  - apply Forall_forall. intros s' (i & [Hc _ _ _])%Hdis. apply create_ok in Hc as (_ & _ & _ & _ & c & d & _ & _ & ->). exact Hdoc.
  - split; [done|]. split; [done|]. split; [|split; [|split; [|done]]].
    + assert (map (λ s, ic_invocationId (er_context s)) steps = map in_invocationId inputs) as ->; [|done].
      clear -Hall. induction Hall as [|i s inputs steps [Hc _ _ _] _ IH]; [done|]. cbn. f_equal; [|done].
      by apply create_ok in Hc as (_ & _ & _ & _ & c & d & _ & _ & ->).
    + intros first Hf. apply Forall_forall. intros s' (i & Hi)%Hdis.
      assert (first ∈ steps) as (i0 & Hi0)%Hdis by (destruct steps; [done|]; injection Hf as ->; by left).
      by eapply dispatched_step.
    + exists s. split; [done|]. destruct (Hdis s Hs) as [i Hi%dispatched_effect]. unfold effect_declared in Hi.
      destruct (er_mutationScopePolicy s); [done|by destruct Hi..].
Qed.
End batch.

(** ** Witnesses *)

Section witness.
Import Sha256.
#[local] Existing Instance ProtocolStoreFacts.demo_float.
#[local] Instance demo_batch_float_ok : Float64Ok ProtocolStoreFacts.demo_float.
Proof. by split. Qed.

Definition demo_row : GatewayToolRecord unit := {|
  tr_object := 0; tr_name := js "core.set"; tr_summary := js "Set."; tr_namespace := js "core"; tr_version := js "1.0.0";
  tr_policyClass := class_auto; tr_mutationScopePolicy := policy_document; tr_executor := executor_bridge;
  tr_executorMethod := js "set"; tr_plainSchema := true; tr_inputSchema := []; tr_inputJsonSchema := VNull |}.

Definition demo_get (name : jstr) : option (GatewayToolRecord unit) := if name === js "core.set" then Some demo_row else None.
Definition demo_parse (fields : list (jstr * option unit)) (v : jsval) : option jsval := Some v.

Definition demo_step_input (id : jstr) : InvocationInput := {|
  in_invocationId := id; in_toolName := js "core.set"; in_toolVersion := js "1.0.0"; in_policyClass := class_auto;
  in_policyDecision := None; in_confirmationId := None; in_originatingPreviewInvocationId := None;
  in_mutationScopePolicy := policy_document; in_executor := executor_bridge; in_args := obj []; in_startedAtMs := 50 |}.

Definition demo_empty_digest : jstr := Eval vm_compute in
  match makeParamsDigest (obj []) with Ok d => d | Throw _ => [] end.

Definition demo_request (id : jstr) : GatewayExecutorRequest := {|
  er_toolName := js "core.set"; er_toolVersion := js "1.0.0"; er_executorMethod := js "set"; er_policyClass := class_auto;
  er_mutationScopePolicy := policy_document; er_args := obj [];
  er_context := context_of demo_auth demo_route (js "mcp-1") demo_scope (demo_step_input id) (js "client") demo_empty_digest |}.

Definition demo_batch_id : jstr := js "018bcfe5-6800-7bab-abab-abababababab".

Lemma demo_dispatched id : bounded_text 512 id →
  dispatched demo_get demo_parse demo_auth demo_route (js "mcp-1") demo_scope (demo_step_input id) (demo_request id).
Proof.
  intros Hid. split.
  - apply create_ok.
    destruct (proj1 (create_ok demo_auth demo_route (js "mcp-1") demo_scope (demo_step_input (js "x"))
                       (context_of demo_auth demo_route (js "mcp-1") demo_scope (demo_step_input (js "x")) (js "client") demo_empty_digest)))
      as (Ha & _ & Hd & Hi & _); [vm_compute; reflexivity|].
    split; [exact Ha|]. split; [exact Hid|]. split; [exact Hd|]. split; [exact Hi|].
    exists (js "client"), demo_empty_digest. split; [reflexivity|]. split; [vm_compute; reflexivity|reflexivity].
  - exists demo_row. by split_and!.
  - by split_and!.
  - by left.
Qed.

Lemma demo_id_text : bounded_text 512 (js "a") ∧ bounded_text 512 (js "b").
Proof. split; (split; [vm_compute; split; discriminate|vm_compute; reflexivity]). Qed.

Lemma dispatched_steps_batch_witness :
  authorizeGatewayAtomicBatch demo_get demo_parse demo_batch_id [demo_request (js "a"); demo_request (js "b")] =
    Ok {| ab_batchId := demo_batch_id; ab_steps := [demo_request (js "a"); demo_request (js "b")] |}.
Proof.
  apply (dispatched_steps_batch demo_get demo_parse demo_auth demo_route (js "mcp-1") demo_scope demo_batch_id
           [demo_step_input (js "a"); demo_step_input (js "b")]).
  - constructor; [apply demo_dispatched, demo_id_text|]. constructor; [apply demo_dispatched, demo_id_text|constructor].
  - vm_compute. reflexivity.
  - vm_compute. split; discriminate.
  - refine (bool_decide_unpack _ _). vm_compute. exact I.
  - vm_compute. reflexivity.
  - exists (demo_request (js "a")). split; [apply list_elem_of_here|discriminate].
Defined.

Lemma atomic_batch_authorised_witness :
  same_authority (er_context (demo_request (js "a"))) (er_context (demo_request (js "b"))).
Proof.
  destruct (proj1 (atomic_batch_authorised demo_get demo_parse demo_batch_id [demo_request (js "a"); demo_request (js "b")]
             {| ab_batchId := demo_batch_id; ab_steps := [demo_request (js "a"); demo_request (js "b")] |}
             ltac:(repeat constructor))) as (_ & _ & _ & _ & Hsame & _); [vm_compute; reflexivity|].
  apply Hsame; repeat (first [apply list_elem_of_here | apply list_elem_of_further]).
Defined.
End witness.
End BatchDispatchFacts.
