(* ===== verification/Projection.v ===== *)
(** What a confirmed tool runs in each phase: packages/gateway/src/confirmation.ts.

    Arguments are the members of a JSON object.  [structuredClone] of a JSON value is
    the value.  What [String] makes of a value that is not a string may run the
    value's own code and is a parameter. *)

From S2P Require Import Prelude JsString JsValue JsMap Canonical Sha256 JsonText InvocationContext Registry.

Module Projection.
Import Canonical JsonText JsMap InvocationContext Registry.

Definition GATEWAY_CONFIRM_TOKEN_FIELD : jstr := js "confirm_token".
Definition GATEWAY_PREVIEW_INVOCATION_FIELD : jstr := js "originating_preview_invocation_id".
Definition TOKEN_MAX_LENGTH : Z := 512.
Definition INVOCATION_ID_MAX_LENGTH : Z := 512.

Definition COMMIT_MODE_METHODS : list jstr :=
  [js "delete_review_view"; js "set_element_parameter"; js "set_schedule_cells"; js "set_schedule_cells_by_text"; js "execute_batch"].

Definition RAW_CODE_SAFE_PREVIEW_FIELDS : list jstr :=
  [js "target"; js "host"; js "port"; js "taskName"; js "taskId"; js "parentTaskName"; js "parentTaskId"; js "code";
   js "timeoutMs"; js "parseJsonResult"].

Record GatewayConfirmationControl := { cc_confirmToken : jstr; cc_originatingPreviewInvocationId : jstr }.

Inductive GatewayConfirmationControlError := confirmation_fields_incomplete | confirmation_fields_not_allowed.

(** The members of a [GatewayJsonObject]. *)
Abbreviation args := (list (jstr * jsval)).

Inductive PreviewRefusal :=
| direct_commit_without_confirmation | confirmation_preview_strategy_unavailable | confirmation_preview_parameters_unsupported.

Inductive GatewayConfirmationPreviewProjection :=
| preview_ok (previewArgs : args) (previewExecutorMethod : jstr) (commitArgs : args) (commitArgsDigest : jstr)
| preview_refused (reason : PreviewRefusal).

(** The only reason for a refusal is [confirmation_commit_mode_required]. *)
Inductive GatewayConfirmationCommitProjection :=
| commit_ok (commitArgs : args) (commitArgsDigest : jstr)
| commit_mode_required.

(** An update to [undefined] deletes the member. *)
Definition jsonObjectWith (value updates : args) : args :=
  foldl (λ next u, if is_undefined u.2 then mdel next u.1 else mset next u.1 u.2) value updates.

(** [parsedArgs.key] *)
Definition member (value : args) (key : jstr) : jsval := nullish (mget value key) VUndefined.

Definition is_true (value : jsval) : bool := match value with VBool b => b | _ => false end.

(** A parameter of raw code that a preview may carry. *)
Definition plain_parameter (value : jsval) : bool := match value with VStr _ | VNum _ | VBool _ => true | _ => false end.

Definition supported_parameters (value : jsval) : bool :=
  match value with VArr items => negb (existsb (λ item, negb (plain_parameter item)) items) | _ => false end.

Section projection.
Context `{Hasher} {ZodType : Type}.
Implicit Types (tool : GatewayToolRecord ZodType) (parsedArgs : args).

Definition digestArgs (value : args) : result js_error jstr := makeParamsDigest (obj value).

Definition usesCommitMode tool : bool := bool_decide (tr_executorMethod tool ∈ COMMIT_MODE_METHODS).

Definition usesModeFlag tool : bool := (tr_executorMethod tool !== js "execute_batch") && usesCommitMode tool.

(** The fields of raw code that may appear in its preview. *)
Definition previewBase parsedArgs : args :=
  foldl (λ base km, if bool_decide (km.1 ∈ RAW_CODE_SAFE_PREVIEW_FIELDS) then mset base km.1 km.2 else base) [] parsedArgs.

(** The preview of [send_code_to_revit]. *)
Definition raw_code_preview parsedArgs : result js_error GatewayConfirmationPreviewProjection :=
  let parameters := member parsedArgs (js "parameters") in
  if negb (is_undefined parameters) && negb (supported_parameters parameters)
  then Ok (preview_refused confirmation_preview_parameters_unsupported) else
  let base := if is_undefined parameters then previewBase parsedArgs
              else mset (previewBase parsedArgs) (js "parameters") parameters in
  let previewArgs := jsonObjectWith base [(js "intent", VStr (js "writePreview")); (js "transactionMode", VStr (js "none"))] in
  digest ← digestArgs parsedArgs;
  Ok (preview_ok previewArgs (js "send_code_to_revit_safe") parsedArgs digest).

(** The read-only probe that stands for a preview. *)
Definition probe_preview (commitArgs : args) : result js_error GatewayConfirmationPreviewProjection :=
  digest ← digestArgs commitArgs; Ok (preview_ok [] (js "get_ui_state") commitArgs digest).

(** The members a phase sets for itself: the mode, and for a deletion its flag. *)
Definition phase_updates tool (mode : jstr) (confirmDelete : bool) : args :=
  (js "mode", VStr mode) ::
  (if tr_executorMethod tool === js "delete_review_view" then [(js "confirmDelete", VBool confirmDelete)] else []).

Definition buildConfirmationPreviewProjection tool parsedArgs : result js_error GatewayConfirmationPreviewProjection :=
  if usesModeFlag tool && is_str (member parsedArgs (js "mode")) (js "commit")
  then Ok (preview_refused direct_commit_without_confirmation)
  else if (tr_name tool === js "conformance.fixture.mutation_probe_origin") ||
          (tr_name tool === js "conformance.fixture.mutation_probe_next")
  then probe_preview []
  else if tr_executorMethod tool === js "send_code_to_revit"
  then if tr_name tool === js "conformance.fixture.c28_mutation" then probe_preview parsedArgs else raw_code_preview parsedArgs
  else if tr_executorMethod tool === js "execute_batch"
  then probe_preview parsedArgs
  else if negb (usesCommitMode tool)
  then Ok (preview_refused confirmation_preview_strategy_unavailable)
  else
    let previewArgs := jsonObjectWith parsedArgs (phase_updates tool (js "dryRun") false) in
    let commitArgs := jsonObjectWith parsedArgs (phase_updates tool (js "commit") true) in
    digest ← digestArgs commitArgs;
    Ok (preview_ok previewArgs (tr_executorMethod tool) commitArgs digest).

Definition buildConfirmationCommitProjection tool parsedArgs : result js_error GatewayConfirmationCommitProjection :=
  if usesModeFlag tool &&
     (negb (is_str (member parsedArgs (js "mode")) (js "commit")) ||
      ((tr_executorMethod tool === js "delete_review_view") && negb (is_true (member parsedArgs (js "confirmDelete")))))
  then Ok commit_mode_required
  else digest ← digestArgs parsedArgs; Ok (commit_ok parsedArgs digest).

(** ** The confirmation fields of a tool's external schema *)

Definition confirmationDependentRequired : jsval :=
  obj [(GATEWAY_CONFIRM_TOKEN_FIELD, VArr [VStr GATEWAY_PREVIEW_INVOCATION_FIELD]);
       (GATEWAY_PREVIEW_INVOCATION_FIELD, VArr [VStr GATEWAY_CONFIRM_TOKEN_FIELD])].

Definition isRecord (value : jsval) : bool := match value with VObj _ _ => true | _ => false end.

(** [{ ...value }] of an object. *)
Definition spread (value : jsval) : args := match value with VObj _ members => members | _ => [] end.

Definition control_field (description : string) (maxLength : Z) : jsval :=
  obj [(js "description", VStr (js description)); (js "maxLength", VNum (JInt maxLength)); (js "minLength", VNum (JInt 1));
       (js "type", VStr (js "string"))].

Definition gatewayExternalToolInputJsonSchema tool : jsval :=
  if tr_policyClass tool !== class_confirm then tr_inputJsonSchema tool else
  let properties := property (tr_inputJsonSchema tool) "properties" in
  let properties := if isRecord properties then spread properties else [] in
  let properties := mset (mset properties
    GATEWAY_CONFIRM_TOKEN_FIELD
      (control_field "Gateway-issued single-use confirmation token. Supply only when re-invoking this exact previewed action." TOKEN_MAX_LENGTH))
    GATEWAY_PREVIEW_INVOCATION_FIELD
      (control_field "Immutable invocation id returned by the originating Gateway preview." INVOCATION_ID_MAX_LENGTH) in
  obj (mset (mset (spread (tr_inputJsonSchema tool)) (js "properties") (obj properties))
         (js "dependentRequired") confirmationDependentRequired).

(** ** Splitting the control fields from the arguments *)

Context (toText : jsval → jstr).

(** [String(value)] *)
Definition String_ (value : jsval) : jstr := match value with VStr s => s | _ => toText value end.

Definition hasOwn (value : args) (key : jstr) : bool := negb (is_null (mget value key)).

Definition splitGatewayConfirmationArguments tool (value : args)
  : result GatewayConfirmationControlError (args * option GatewayConfirmationControl) :=
  let hasToken := hasOwn value GATEWAY_CONFIRM_TOKEN_FIELD in
  let hasPreview := hasOwn value GATEWAY_PREVIEW_INVOCATION_FIELD in
  throw_if (xorb hasToken hasPreview) confirmation_fields_incomplete ;;
  throw_if ((hasToken || hasPreview) && (tr_policyClass tool !== class_confirm)) confirmation_fields_not_allowed ;;
  let args := mdel (mdel value GATEWAY_CONFIRM_TOKEN_FIELD) GATEWAY_PREVIEW_INVOCATION_FIELD in
  if negb hasToken then Ok (args, None) else
  Ok (args, Some {| cc_confirmToken := String_ (member value GATEWAY_CONFIRM_TOKEN_FIELD);
                    cc_originatingPreviewInvocationId := String_ (member value GATEWAY_PREVIEW_INVOCATION_FIELD) |}).

End projection.
End Projection.

(** * Facts *)

Module ProjectionFacts.
Import Canonical CanonicalFacts JsonText JsMap InvocationContext InvocationContextFacts Registry RegistryFacts Projection.

Section projection.
Context `{Hasher} {ZodType : Type}.
Implicit Types (tool : GatewayToolRecord ZodType) (a : args).

(** ** Members *)

Lemma member_mset a k v k' : member (mset a k v) k' = if k === k' then v else member a k'.
Proof. unfold member. rewrite mget_mset. by case_bool_decide. Qed.

Lemma member_cons a k v k' : member ((k, v) :: a) k' = if k === k' then v else member a k'.
Proof. unfold member. cbn [mget]. by case_bool_decide. Qed.

Lemma with_cons a k v us :
  jsonObjectWith a ((k, v) :: us) = jsonObjectWith (if is_undefined v then mdel a k else mset a k v) us.
Proof. done. Qed.

Lemma elem_keys {A} k v (m : list (jstr * A)) k' :
  bool_decide (k' ∈ keys ((k, v) :: m)) = (k === k') || bool_decide (k' ∈ keys m).
Proof. rewrite <- bool_decide_or. apply bool_decide_ext. unfold keys. cbn [map fst]. rewrite elem_of_cons. naive_solver. Qed.

Lemma elem_no_keys k : bool_decide (k ∈ keys ([] : args)) = false.
Proof. apply bool_decide_eq_false_2, not_elem_of_nil. Qed.

Lemma member_with a us k : Forall (λ u, is_undefined u.2 = false) us → NoDup (keys us) →
  member (jsonObjectWith a us) k = if bool_decide (k ∈ keys us) then member us k else member a k.
Proof.
  intros Hu. revert a. induction Hu as [|[k' v] us Hv Hu IH]; intros a Hnd; [done|].
  apply NoDup_cons in Hnd as [Hk Hnd]. cbn [snd] in Hv. rewrite with_cons, Hv, IH by done.
  rewrite member_mset, member_cons, elem_keys. destruct (decide (k' = k)) as [->|Hne].
  - by rewrite (bool_decide_eq_false_2 (k ∈ keys us)), !bool_decide_eq_true_2.
  - by rewrite !(bool_decide_eq_false_2 (k' = k)).
Qed.

Lemma member_phase tool a mode flag k : member (jsonObjectWith a (phase_updates tool mode flag)) k =
  if k === js "mode" then VStr mode
  else if (tr_executorMethod tool === js "delete_review_view") && (k === js "confirmDelete") then VBool flag
  else member a k.
Proof.
  rewrite member_with; unfold phase_updates; [|by case_bool_decide; repeat constructor
    |case_bool_decide; apply (bool_decide_unpack _); vm_compute; exact I].
  rewrite (bool_decide_ext (k = js "mode") (js "mode" = k)), (bool_decide_ext (k = js "confirmDelete") (js "confirmDelete" = k)) by (split; congruence).
  destruct (bool_decide (tr_executorMethod tool = _)); rewrite ?elem_keys, elem_no_keys, ?member_cons; cbn [andb orb];
    by repeat destruct (bool_decide (_ = k)).
Qed.

(** ** Previews *)

Definition base_step (base : args) (km : jstr * jsval) : args :=
  if bool_decide (km.1 ∈ RAW_CODE_SAFE_PREVIEW_FIELDS) then mset base km.1 km.2 else base.

Lemma base_member base a k : NoDup (keys a) →
  mget (foldl base_step base a) k =
  if bool_decide (k ∈ RAW_CODE_SAFE_PREVIEW_FIELDS) && bool_decide (k ∈ keys a) then mget a k else mget base k.
Proof.
  revert base. induction a as [|[k' v] a IH]; intros base Hnd.
  { by rewrite elem_no_keys, andb_false_r. }
  apply NoDup_cons in Hnd as [Hk Hnd]. cbn [foldl]. rewrite IH, elem_keys by done. unfold base_step. cbn [fst snd mget].
  destruct (decide (k' = k)) as [->|Hne].
  - rewrite (bool_decide_eq_false_2 (k ∈ keys a)), andb_false_r, (bool_decide_eq_true_2 (k = k)), andb_true_r by done.
    destruct (bool_decide (k ∈ RAW_CODE_SAFE_PREVIEW_FIELDS)); [|done]. by rewrite mget_mset, bool_decide_eq_true_2.
  - rewrite (bool_decide_eq_false_2 (k' = k)) by done. cbn [orb]. case_match; [done|].
    destruct (bool_decide (k' ∈ _)); [|done]. by rewrite mget_mset, bool_decide_eq_false_2.
Qed.

Lemma preview_base_get a k : NoDup (keys a) →
  mget (previewBase a) k = if bool_decide (k ∈ RAW_CODE_SAFE_PREVIEW_FIELDS) then mget a k else None.
Proof.
  intros Hnd. change (previewBase a) with (foldl base_step [] a). rewrite (base_member [] a k Hnd). case_bool_decide; [|done]. cbn.
  case_bool_decide as Hk; [done|]. by apply mget_none in Hk as ->.
Qed.

(** What a preview may send: the read-only probe without arguments; the safe twin of
    raw code, told to preview and to open no transaction, with the fields allowed
    there and nothing else of the call; or a dry run of the tool itself, which differs
    from the call in the mode and the deletion flag only. *)
Inductive read_only tool a : args → jstr → Prop :=
| read_probe : read_only tool a [] (js "get_ui_state")
| read_safe_code p :
    tr_executorMethod tool = js "send_code_to_revit" →
    (∀ k, member p k =
      if k === js "transactionMode" then VStr (js "none")
      else if k === js "intent" then VStr (js "writePreview")
      else if bool_decide (k ∈ js "parameters" :: RAW_CODE_SAFE_PREVIEW_FIELDS) then member a k else VUndefined) →
    read_only tool a p (js "send_code_to_revit_safe")
| read_dry_run p :
    usesModeFlag tool = true →
    (∀ k, member p k =
      if k === js "mode" then VStr (js "dryRun")
      else if (tr_executorMethod tool === js "delete_review_view") && (k === js "confirmDelete") then VBool false
      else member a k) →
    read_only tool a p (tr_executorMethod tool).

Lemma undefined_eq v : is_undefined v = true → v = VUndefined.
Proof. by destruct v. Qed.

Lemma raw_member a k : NoDup (keys a) →
  let parameters := member a (js "parameters") in
  let base := if is_undefined parameters then previewBase a else mset (previewBase a) (js "parameters") parameters in
  member (jsonObjectWith base [(js "intent", VStr (js "writePreview")); (js "transactionMode", VStr (js "none"))]) k =
    if k === js "transactionMode" then VStr (js "none")
    else if k === js "intent" then VStr (js "writePreview")
    else if bool_decide (k ∈ js "parameters" :: RAW_CODE_SAFE_PREVIEW_FIELDS) then member a k else VUndefined.
Proof.
  intros Hnd parameters base. unfold jsonObjectWith. cbn [foldl is_undefined fst snd]. rewrite !member_mset.
  rewrite (bool_decide_ext (k = js "transactionMode") (js "transactionMode" = k)) by (split; congruence).
  rewrite (bool_decide_ext (k = js "intent") (js "intent" = k)) by (split; congruence).
  destruct (bool_decide (js "transactionMode" = k)); [done|]. destruct (bool_decide (js "intent" = k)); [done|].
  assert (member (previewBase a) k = if bool_decide (k ∈ RAW_CODE_SAFE_PREVIEW_FIELDS) then member a k else VUndefined) as Hbase.
  { unfold member. rewrite preview_base_get by done. by case_bool_decide. }
  assert (bool_decide (k ∈ js "parameters" :: RAW_CODE_SAFE_PREVIEW_FIELDS) =
          (js "parameters" === k) || bool_decide (k ∈ RAW_CODE_SAFE_PREVIEW_FIELDS)) as ->.
  { rewrite <- bool_decide_or. apply bool_decide_ext. rewrite elem_of_cons. naive_solver. }
  assert (member base k = if js "parameters" === k then parameters else member (previewBase a) k) as ->.
  { subst base. destruct (is_undefined parameters) eqn:Hu; [|apply member_mset].
    destruct (decide (js "parameters" = k)) as [Hk|Hk]; [|by rewrite (bool_decide_eq_false_2 _ Hk)].
    rewrite Hbase, <- Hk, (bool_decide_eq_false_2 (js "parameters" ∈ _)) by (apply (bool_decide_unpack _); vm_compute; exact I).
    by rewrite bool_decide_eq_true_2, (undefined_eq _ Hu). }
  rewrite Hbase. destruct (decide (js "parameters" = k)) as [<-|Hk]; [by rewrite !(bool_decide_eq_true_2 (js "parameters" = _))|].
  by rewrite !(bool_decide_eq_false_2 _ Hk).
Qed.

Lemma mode_flag_commit tool : usesModeFlag tool = true ↔
  usesCommitMode tool = true ∧ tr_executorMethod tool ≠ js "execute_batch".
Proof. unfold usesModeFlag. rewrite andb_true_iff, negb_true_iff, bool_decide_eq_false. tauto. Qed.

Definition mutation_probe tool : bool :=
  (tr_name tool === js "conformance.fixture.mutation_probe_origin") || (tr_name tool === js "conformance.fixture.mutation_probe_next").

(** The commit a preview announces: the call, or the call with the commit flags. *)
Definition announced tool a : args :=
  if mutation_probe tool then []
  else if usesModeFlag tool then jsonObjectWith a (phase_updates tool (js "commit") true)
  else a.

Lemma preview_cases tool a p m c d : NoDup (keys a) →
  buildConfirmationPreviewProjection tool a = Ok (preview_ok p m c d) →
  read_only tool a p m ∧ c = announced tool a ∧ digestArgs c = Ok d ∧
  (usesModeFlag tool = true → is_str (member a (js "mode")) (js "commit") = false).
Proof.
  intros Hnd. unfold buildConfirmationPreviewProjection, probe_preview, announced, mutation_probe.
  destruct (usesModeFlag tool && _) eqn:Hmode; [done|].
  assert (usesModeFlag tool = true → is_str (member a (js "mode")) (js "commit") = false) as Hcommit.
  { intros E. by rewrite E in Hmode. }
  destruct (_ || _) eqn:Hprobe. { rewrite bind_ok. intros (d' & Hd & [= <- <- <- <-]). split; [constructor|done]. }
  destruct (decide (tr_executorMethod tool = js "send_code_to_revit")) as [Hm|Hm].
  { rewrite (bool_decide_eq_true_2 _ Hm). assert (usesModeFlag tool = false) as ->.
    { unfold usesModeFlag, usesCommitMode. rewrite Hm. vm_compute. reflexivity. }
    destruct (bool_decide (tr_name tool = js "conformance.fixture.c28_mutation")); [rewrite bind_ok; intros (d' & Hd & [= <- <- <- <-]); split; [constructor|done]|].
    unfold raw_code_preview. cbv zeta. destruct (negb (is_undefined _) && _); [done|]. rewrite bind_ok. intros (d' & Hd & [= <- <- <- <-]).
    split; [|done]. constructor; [done|]. intros k. by apply raw_member. }
  rewrite (bool_decide_eq_false_2 _ Hm).
  destruct (decide (tr_executorMethod tool = js "execute_batch")) as [Hb|Hb].
  { rewrite (bool_decide_eq_true_2 _ Hb). assert (usesModeFlag tool = false) as ->.
    { unfold usesModeFlag. by rewrite (bool_decide_eq_true_2 _ Hb). }
    rewrite bind_ok. intros (d' & Hd & [= <- <- <- <-]). split; [constructor|done]. }
  rewrite (bool_decide_eq_false_2 _ Hb). destruct (usesCommitMode tool) eqn:Hu; cbn [negb]; [|discriminate].
  assert (usesModeFlag tool = true) as Hf by by apply mode_flag_commit. rewrite Hf.
  rewrite bind_ok. intros (d0 & Hd & [= <- <- <- <-]). split; [|split; [reflexivity|split; [exact Hd|intros _; by apply Hcommit]]].
  constructor; [done|]. intros k. apply member_phase.
Qed.

(** C21: no preview commits. Whatever the arguments of the call, and whatever phase
    flags the caller put there, what a preview sends to the add-in is the read-only
    probe, the safe twin of raw code, or a dry run of the tool; and a direct commit
    never gets a preview. *)
Theorem preview_never_commits tool a p m c d : NoDup (keys a) →
  buildConfirmationPreviewProjection tool a = Ok (preview_ok p m c d) →
  read_only tool a p m ∧ (usesModeFlag tool = true → is_str (member a (js "mode")) (js "commit") = false).
Proof. intros Hnd Hp. destruct (preview_cases _ _ _ _ _ _ Hnd Hp) as (Hr & _ & _ & Hc). done. Qed.

(** The confirmed call runs what was previewed. The arguments a preview announces
    pass the commit check unchanged, with the digest the preview bound (the two
    conformance probes, which announce no arguments, apart); and a call that passes the
    commit check under that digest has those arguments, up to the order of members. *)
Theorem commit_runs_preview tool a p m c d : NoDup (keys a) →
  buildConfirmationPreviewProjection tool a = Ok (preview_ok p m c d) →
  (mutation_probe tool = false → buildConfirmationCommitProjection tool c = Ok (commit_ok c d)) ∧
  ∀ a' c', buildConfirmationCommitProjection tool a' = Ok (commit_ok c' d) →
    wire_value (obj c) = true → wire_value (obj a') = true → collision_free (obj a') (obj c) →
    c' = a' ∧ normalize (obj a') = normalize (obj c).
Proof.
  intros Hnd (_ & Hc & Hd & _)%preview_cases; [|done]. unfold buildConfirmationCommitProjection. split.
  - intros Hp. unfold announced in Hc. rewrite Hp in Hc. rewrite Hd. destruct (usesModeFlag tool) eqn:Hf; [|done].
    rewrite Hc, !member_phase. cbn [is_true].
    by destruct (bool_decide (tr_executorMethod tool = js "delete_review_view")).
  - intros a' c'. destruct (usesModeFlag tool && _); [discriminate|]. rewrite bind_ok. intros (d' & Hd' & [= <- <-]) Hw Hw' Hcf.
    split; [done|]. apply makeJsonDigest_inj; [done..|]. unfold digestArgs, makeParamsDigest in Hd, Hd'. congruence.
Qed.

(** ** The control fields *)

Context (toText : jsval → jstr).

Definition control_field_name (k : jstr) : bool :=
  (GATEWAY_CONFIRM_TOKEN_FIELD === k) || (GATEWAY_PREVIEW_INVOCATION_FIELD === k).

Lemma without_control a k : NoDup (keys a) →
  mget (mdel (mdel a GATEWAY_CONFIRM_TOKEN_FIELD) GATEWAY_PREVIEW_INVOCATION_FIELD) k =
  if control_field_name k then None else mget a k.
Proof.
  intros Hnd. unfold control_field_name. rewrite !mget_mdel by (try apply nodup_mdel; done).
  by destruct (bool_decide (_ = k)), (bool_decide (_ = k)).
Qed.

Lemma has_own a k : hasOwn a k = true ↔ is_Some (mget a k).
Proof. unfold hasOwn. by rewrite negb_true_iff, is_null_false. Qed.

(** The control fields travel together, only for tools that need confirmation, and
    never reach the tool. A call is split exactly when it has both fields or neither
    and, if it has them, the tool is confirmed; the tool then gets every other member
    and no control field, and the control is present exactly when the fields were. *)
Theorem control_fields_split tool a : NoDup (keys a) →
  match splitGatewayConfirmationArguments toText tool a with
  | Ok (rest, control) =>
      (∀ k, mget rest k = if control_field_name k then None else mget a k) ∧
      match control with
      | None => mget a GATEWAY_CONFIRM_TOKEN_FIELD = None ∧ mget a GATEWAY_PREVIEW_INVOCATION_FIELD = None
      | Some c => tr_policyClass tool = class_confirm ∧ ∃ token preview,
          mget a GATEWAY_CONFIRM_TOKEN_FIELD = Some token ∧ mget a GATEWAY_PREVIEW_INVOCATION_FIELD = Some preview ∧
          c = {| cc_confirmToken := String_ toText token; cc_originatingPreviewInvocationId := String_ toText preview |}
      end
  | Throw confirmation_fields_incomplete =>
      is_Some (mget a GATEWAY_CONFIRM_TOKEN_FIELD) ↔ mget a GATEWAY_PREVIEW_INVOCATION_FIELD = None
  | Throw confirmation_fields_not_allowed =>
      is_Some (mget a GATEWAY_CONFIRM_TOKEN_FIELD) ∧ is_Some (mget a GATEWAY_PREVIEW_INVOCATION_FIELD) ∧
      tr_policyClass tool ≠ class_confirm
  end.
Proof.
  intros Hnd. pose proof (without_control a) as Hrest. unfold splitGatewayConfirmationArguments, hasOwn, member. cbv zeta.
  destruct (mget a GATEWAY_CONFIRM_TOKEN_FIELD) as [t|] eqn:Et, (mget a GATEWAY_PREVIEW_INVOCATION_FIELD) as [q|] eqn:Eq;
    cbn [negb is_null xorb throw_if orb andb mbind result_bind nullish default].
  - destruct (decide (tr_policyClass tool = class_confirm)) as [Hc|Hc];
      [rewrite (bool_decide_eq_true_2 _ Hc)|rewrite (bool_decide_eq_false_2 _ Hc)]; cbn; eauto 10.
  - split; [done|by eexists].
  - split; [by intros [? [=]]|done].
  - eauto.
Qed.

(** A call with the two fields added splits into the arguments and the control. *)
Theorem control_fields_roundtrip tool a token preview : NoDup (keys a) → tr_policyClass tool = class_confirm →
  mget a GATEWAY_CONFIRM_TOKEN_FIELD = None → mget a GATEWAY_PREVIEW_INVOCATION_FIELD = None →
  splitGatewayConfirmationArguments toText tool
    (mset (mset a GATEWAY_CONFIRM_TOKEN_FIELD (VStr token)) GATEWAY_PREVIEW_INVOCATION_FIELD (VStr preview)) =
  Ok (a, Some {| cc_confirmToken := token; cc_originatingPreviewInvocationId := preview |}).
Proof.
  intros Hnd Hc Et Eq. unfold splitGatewayConfirmationArguments, hasOwn, member.
  rewrite !mget_mset, Et, Eq, (bool_decide_eq_true_2 _ Hc). cbv zeta.
  change (GATEWAY_PREVIEW_INVOCATION_FIELD === GATEWAY_CONFIRM_TOKEN_FIELD) with false.
  change (GATEWAY_PREVIEW_INVOCATION_FIELD === GATEWAY_PREVIEW_INVOCATION_FIELD) with true.
  change (GATEWAY_CONFIRM_TOKEN_FIELD === GATEWAY_CONFIRM_TOKEN_FIELD) with true.
  cbn [negb is_null xorb throw_if orb andb mbind result_bind nullish default from_option String_].
  rewrite (mset_new a _ _ Et). rewrite mset_new; cycle 1.
  { rewrite <- (mset_new a _ _ Et), mget_mset, Eq. reflexivity. }
  rewrite <- app_assoc. cbn [app]. rewrite mdel_around by by apply mget_none.
  rewrite mdel_around by by apply mget_none. by rewrite app_nil_r.
Qed.
End projection.

(** ** Witnesses *)

Section witness.
Import Sha256.

Definition demo_tool : GatewayToolRecord unit := {|
  tr_object := 0; tr_name := js "core.delete"; tr_summary := js "Delete."; tr_namespace := js "core"; tr_version := js "1.0.0";
  tr_policyClass := class_confirm; tr_mutationScopePolicy := policy_document; tr_executor := executor_bridge;
  tr_executorMethod := js "delete_review_view"; tr_plainSchema := true; tr_inputSchema := []; tr_inputJsonSchema := VNull |}.

(** The caller asks for a deletion right away. *)
Definition demo_args : args := [(js "view", VStr (js "v1")); (js "confirmDelete", VBool true)].

Definition demo_preview_args : args := [(js "view", VStr (js "v1")); (js "confirmDelete", VBool false); (js "mode", VStr (js "dryRun"))].
Definition demo_commit_args : args := [(js "view", VStr (js "v1")); (js "confirmDelete", VBool true); (js "mode", VStr (js "commit"))].

Definition demo_digest : jstr := Eval vm_compute in match digestArgs demo_commit_args with Ok d => d | Throw _ => [] end.

Lemma preview_never_commits_witness :
  buildConfirmationPreviewProjection demo_tool demo_args =
    Ok (preview_ok demo_preview_args (js "delete_review_view") demo_commit_args demo_digest) ∧
  read_only demo_tool demo_args demo_preview_args (js "delete_review_view").
Proof.
  split; [vm_compute; reflexivity|].
  apply (preview_never_commits demo_tool demo_args demo_preview_args (js "delete_review_view") demo_commit_args demo_digest).
  - refine (bool_decide_unpack _ _). vm_compute. exact I.
  - vm_compute. reflexivity.
Defined.

Lemma commit_runs_preview_witness :
  buildConfirmationCommitProjection demo_tool demo_commit_args = Ok (commit_ok demo_commit_args demo_digest).
Proof.
  apply (commit_runs_preview demo_tool demo_args demo_preview_args (js "delete_review_view") demo_commit_args demo_digest).
  - refine (bool_decide_unpack _ _). vm_compute. exact I.
  - vm_compute. reflexivity.
  - vm_compute. reflexivity.
Defined.

Lemma control_fields_split_witness :
  splitGatewayConfirmationArguments (λ _, []) demo_tool [(js "confirm_token", VStr (js "t"))] =
    Throw confirmation_fields_incomplete ∧
  mget [(js "confirm_token", VStr (js "t"))] GATEWAY_PREVIEW_INVOCATION_FIELD = None.
Proof.
  split; [vm_compute; reflexivity|].
  apply (control_fields_split (λ _, []) demo_tool [(js "confirm_token", VStr (js "t"))]
           ltac:(refine (bool_decide_unpack _ _); vm_compute; exact I)).
  by eexists.
Defined.
End witness.
End ProjectionFacts.
