(* ===== verification/Discovery.v ===== *)
(** Discovery of tools with a budget for their schemas: packages/gateway/src/modeADiscovery.ts.

    A session searches the tools of its view and activates their schemas; the schemas
    that are active and not pinned fit a budget of bytes, and the least recently used
    give way.  [String.prototype.normalize] and [toLowerCase] are tables of Unicode and
    a parameter.  The clock counts in the integers. *)

From S2P Require Import Prelude JsString JsValue JsMap Canonical Sha256 JsonText InvocationContext Registry Projection.

Module Discovery.
Import Canonical JsonText JsMap InvocationContext Registry Projection.

Definition DEFAULT_SEARCH_LIMIT : Z := 20.
Definition MAX_SEARCH_LIMIT : Z := 100.

Section discovery.
Context {ZodType : Type} (normalizeSearchText : jstr → jstr).
Abbreviation record := (GatewayToolRecord ZodType).

Record SearchCorpus := {
  sc_record : record; sc_name : jstr; sc_summary : jstr; sc_argumentNames : list jstr; sc_argumentDescriptions : list jstr }.

Record ActiveSchema := { as_record : record; as_bytes : Z; as_lastUsed : Z }.

Record ModeASearchResult := { sr_name : jstr; sr_summary : jstr; sr_score : Z }.

Record ModeASchemaResult := { sm_name : jstr; sm_inputSchema : jsval }.

Record ModeAActivationResult := {
  ar_schemas : list ModeASchemaResult; ar_activatedNames : list jstr; ar_evictedNames : list jstr;
  ar_activeSchemaBytes : Z; ar_callableSetChanged : bool }.

Inductive discovery_error :=
| ModeAToolUnavailableError
| ModeASchemaBudgetError
| discovery_range (message : jstr).

(** ** The text of a tool *)

(** The names and descriptions [visit] adds, in order; a repeated one changes nothing
    in the set it is added to.  The members of [properties] are met by name. *)
Definition collected : Type := list jstr * list jstr.
Definition both (a b : collected) : collected := (a.1 ++ b.1, a.2 ++ b.2).
Definition all_of (cs : list collected) : collected := foldr both ([], []) cs.

Fixpoint visit (value : jsval) : collected :=
  match value with
  | VArr items => all_of (map visit items)
  | VObj _ members =>
      let visited := map (λ km, (km.1, (visit km.2,
        match km.2 with VObj _ properties => map (λ p, (p.1, visit p.2)) properties | _ => [] end))) members in
      let described := match property value "description" with VStr s => [normalizeSearchText s] | _ => [] end in
      let properties := match mget visited (js "properties") with Some (_, ps) => ps | None => [] end in
      both ([], described)
        (both (all_of (map (λ p, both ([normalizeSearchText p.1], []) p.2) (sort_by key_leb properties)))
              (all_of (map (λ km, km.2.1)
                 (List.filter (λ km, (km.1 !== js "properties") && (km.1 !== js "description")) (sort_by key_leb visited)))))
  | _ => ([], [])
  end.

Definition collectArguments (schema : jsval) : list jstr * list jstr :=
  let found := visit schema in (sort_by str_leb (unique found.1), sort_by str_leb (unique found.2)).

Definition newCorpus (r : record) : SearchCorpus :=
  let args := collectArguments (tr_inputJsonSchema r) in
  {| sc_record := r; sc_name := normalizeSearchText (tr_name r); sc_summary := normalizeSearchText (tr_summary r);
     sc_argumentNames := args.1; sc_argumentDescriptions := args.2 |}.

(** ** Scores *)

(** [value.includes(term)] *)
Fixpoint includes (term value : jstr) : bool :=
  starts_with term value || match value with [] => false | _ :: value => includes term value end.

Record Weights := { w_exact : Z; w_prefix : Z; w_contains : Z }.

Definition fieldScore (term value : jstr) (weights : Weights) : Z :=
  if value === term then w_exact weights
  else if starts_with term value then w_prefix weights
  else if includes term value then w_contains weights else 0.

Definition scoreTerm (term : jstr) (corpus : SearchCorpus) : Z :=
  let score := fieldScore term (sc_name corpus) {| w_exact := 1000; w_prefix := 700; w_contains := 500 |} in
  let score := Z.max score (fieldScore term (sc_summary corpus) {| w_exact := 400; w_prefix := 300; w_contains := 220 |}) in
  let score := foldl (λ score name,
    Z.max score (fieldScore term name {| w_exact := 600; w_prefix := 450; w_contains := 320 |})) score (sc_argumentNames corpus) in
  foldl (λ score description,
    Z.max score (fieldScore term description {| w_exact := 260; w_prefix := 200; w_contains := 140 |})) score
    (sc_argumentDescriptions corpus).

Definition schemaBytes (r : record) : Z :=
  Z.of_nat (length (utf8_encode (json_stringify (gatewayExternalToolInputJsonSchema r)))).

(** ** Sessions *)

Record ModeADiscoverySession := {
  ds_view : GatewayRegistryView ZodType; ds_corpora : list SearchCorpus; ds_visibleNames : list jstr;
  ds_pinnedNames : list jstr; ds_schemaBudgetBytes : Z; ds_active : list (jstr * ActiveSchema); ds_clock : Z }.

Definition newDiscoverySession (view : GatewayRegistryView ZodType) (pinnedNames : list jstr) (schemaBudgetBytes : jsnum)
  : result discovery_error ModeADiscoverySession :=
  throw_if (negb (isSafeInteger schemaBudgetBytes) || (num_Z schemaBudgetBytes <? 0))
    (discovery_range (js "schemaBudgetBytes must be a non-negative safe integer")) ;;
  let records := sort_by name_leb (vw_records view) in
  let visibleNames := map tr_name records in
  Ok {| ds_view := view; ds_corpora := map newCorpus records; ds_visibleNames := visibleNames;
        ds_pinnedNames := sort_by str_leb (List.filter (λ name, bool_decide (name ∈ visibleNames)) (unique pinnedNames));
        ds_schemaBudgetBytes := num_Z schemaBudgetBytes; ds_active := []; ds_clock := 0 |}.

(** ** Search *)

(** The class [[\s._-]]. *)
Definition is_separator (c : Z) : bool := js_whitespace c || (c =? 46) || (c =? 95) || (c =? 45).

(** Split at every separator: splitting at runs of them drops empty parts only. *)
Fixpoint split_terms (s : jstr) : list jstr :=
  match s with
  | [] => [[]]
  | c :: s =>
      if is_separator c then [] :: split_terms s
      else match split_terms s with w :: ws => (c :: w) :: ws | [] => [[c]] end
  end.

Definition search_terms (query : jstr) : list jstr :=
  unique (List.filter (λ term, negb (length term =? 0)%nat) (split_terms (normalizeSearchText query))).

(** The sum of the scores, nothing when a term has none. *)
Fixpoint sum_scores (score : Z) (terms : list jstr) (corpus : SearchCorpus) : option Z :=
  match terms with
  | [] => Some score
  | term :: terms =>
      let termScore := scoreTerm term corpus in
      if termScore =? 0 then None else sum_scores (score + termScore) terms corpus
  end.

Definition search_hit (terms : list jstr) (corpus : SearchCorpus) : option ModeASearchResult :=
  score ← sum_scores 0 terms corpus;
  Some {| sr_name := tr_name (sc_record corpus); sr_summary := tr_summary (sc_record corpus); sr_score := score |}.

(** [right.score - left.score || compareNames(left.name, right.name)] *)
Definition rank_leb (l r : ModeASearchResult) : bool :=
  if sr_score r - sr_score l =? 0 then str_leb (sr_name l) (sr_name r) else sr_score r - sr_score l <=? 0.

Definition search (s : ModeADiscoverySession) (query : jstr) (limit : jsnum) : result discovery_error (list ModeASearchResult) :=
  throw_if (negb (isSafeInteger limit) || (num_Z limit <? 1) || (MAX_SEARCH_LIMIT <? num_Z limit))
    (discovery_range (js "limit must be an integer from 1 through " ++ dec MAX_SEARCH_LIMIT)) ;;
  let terms := search_terms query in
  if (length terms =? 0)%nat then Ok [] else
  Ok (take (Z.to_nat (num_Z limit)) (sort_by rank_leb (omap (search_hit terms) (ds_corpora s)))).

(** ** Activation *)

Definition requireVisible (s : ModeADiscoverySession) (name : jstr) : result discovery_error record :=
  match view_require (ds_view s) name with Ok r => Ok r | Throw _ => Throw ModeAToolUnavailableError end.

Definition activeNames (s : ModeADiscoverySession) : list jstr := sort_by str_leb (keys (ds_active s)).

Definition callableNames (s : ModeADiscoverySession) : list jstr :=
  sort_by str_leb (unique (ds_pinnedNames s ++ keys (ds_active s))).

Definition total_bytes (active : list ActiveSchema) : Z := foldl (λ total a, total + as_bytes a) 0 active.

Definition activeSchemaBytes (s : ModeADiscoverySession) : Z := total_bytes (map snd (ds_active s)).

(** [left.lastUsed - right.lastUsed || compareNames(leftName, rightName)] *)
Definition lru_leb (l r : jstr * ActiveSchema) : bool :=
  let age := as_lastUsed l.2 - as_lastUsed r.2 in if age =? 0 then str_leb l.1 r.1 else age <=? 0.

(** The loop over the candidates: what stays, its bytes, and the evicted names. *)
Fixpoint evict (budget : Z) (candidates : list (jstr * ActiveSchema)) (working : list (jstr * ActiveSchema)) (activeBytes : Z)
    (evictedNames : list jstr) : list (jstr * ActiveSchema) * Z * list jstr :=
  match candidates with
  | [] => (working, activeBytes, evictedNames)
  | (name, active) :: candidates =>
      if activeBytes <=? budget then (working, activeBytes, evictedNames)
      else evict budget candidates (mdel working name) (activeBytes - as_bytes active) (evictedNames ++ [name])
  end.

Definition with_active (s : ModeADiscoverySession) (active : list (jstr * ActiveSchema)) (clock : Z) : ModeADiscoverySession := {|
  ds_view := ds_view s; ds_corpora := ds_corpora s; ds_visibleNames := ds_visibleNames s; ds_pinnedNames := ds_pinnedNames s;
  ds_schemaBudgetBytes := ds_schemaBudgetBytes s; ds_active := active; ds_clock := clock |}.

Definition activate (s : ModeADiscoverySession) (names : list jstr)
  : result discovery_error (ModeADiscoverySession * ModeAActivationResult) :=
  let requestedNames := sort_by str_leb (unique names) in
  records ← map_result (requireVisible s) requestedNames;
  let requestedBudgetRecords := List.filter (λ r, negb (bool_decide (tr_name r ∈ ds_pinnedNames s))) records in
  let requestedBytes := foldl (λ total r, total + schemaBytes r) 0 requestedBudgetRecords in
  throw_if (ds_schemaBudgetBytes s <? requestedBytes) ModeASchemaBudgetError ;;
  let beforeNames := activeNames s in
  let requestedBudgetNames := map tr_name requestedBudgetRecords in
  let nextClock := if (0 <? length requestedBudgetRecords)%nat then ds_clock s + 1 else ds_clock s in
  let working := foldl (λ w r, mset w (tr_name r) {| as_record := r; as_bytes := schemaBytes r; as_lastUsed := nextClock |})
                   (ds_active s) requestedBudgetRecords in
  let candidates := sort_by lru_leb (List.filter (λ e, negb (bool_decide (e.1 ∈ requestedBudgetNames))) working) in
  let '(working, activeBytes, evictedNames) := evict (ds_schemaBudgetBytes s) candidates working (total_bytes (map snd working)) [] in
  let s' := with_active s working nextClock in
  let activatedNames := List.filter (λ name, negb (bool_decide (name ∈ beforeNames))) (activeNames s') in
  Ok (s', {| ar_schemas := map (λ r, {| sm_name := tr_name r; sm_inputSchema := gatewayExternalToolInputJsonSchema r |}) records;
             ar_activatedNames := activatedNames; ar_evictedNames := sort_by str_leb evictedNames;
             ar_activeSchemaBytes := activeBytes;
             ar_callableSetChanged := (0 <? length activatedNames)%nat || (0 <? length evictedNames)%nat |}).

(** ** Calls *)

Definition isCallable (s : ModeADiscoverySession) (name : jstr) : bool :=
  bool_decide (name ∈ ds_visibleNames s) &&
  (bool_decide (name ∈ ds_pinnedNames s) || negb (is_null (mget (ds_active s) name))).

Definition requireCallable (s : ModeADiscoverySession) (name : jstr) : result discovery_error (ModeADiscoverySession * record) :=
  throw_if (negb (isCallable s name)) ModeAToolUnavailableError ;;
  r ← requireVisible s name;
  match mget (ds_active s) name with
  | None => Ok (s, r)
  | Some active =>
      let clock := ds_clock s + 1 in
      Ok (with_active s (mset (ds_active s) name
            {| as_record := as_record active; as_bytes := as_bytes active; as_lastUsed := clock |}) clock, r)
  end.

End discovery.
Arguments SearchCorpus : clear implicits.
Arguments ActiveSchema : clear implicits.
Arguments ModeADiscoverySession : clear implicits.
End Discovery.

(** * Facts *)

Module DiscoveryFacts.
Import Canonical CanonicalFacts JsonText JsMap InvocationContext InvocationContextFacts Registry RegistryFacts Projection ProjectionFacts Discovery.

Section discovery.
Context {ZodType : Type} (normalizeSearchText : jstr → jstr).
Abbreviation record := (GatewayToolRecord ZodType).
Abbreviation entries := (list (jstr * ActiveSchema ZodType)).
Implicit Types (s : ModeADiscoverySession ZodType) (r : record) (rs : list record) (m : entries) (e : jstr * ActiveSchema ZodType).

(** ** Sums of bytes *)

Definition total m : Z := foldr (λ e n, as_bytes e.2 + n) 0 m.
Definition demand rs : Z := foldr (λ r n, schemaBytes r + n) 0 rs.

Lemma foldl_plus {A} (f : A → Z) (z : Z) (l : list A) : foldl (λ n a, n + f a) z l = z + foldr (λ a n, f a + n) 0 l.
Proof. revert z. induction l as [|a l IH]; intros z; cbn; [lia|]. rewrite IH. lia. Qed.

Lemma total_bytes_total m : total_bytes (map snd m) = total m.
Proof.
  unfold total_bytes. rewrite (foldl_plus as_bytes 0 (map snd m)), Z.add_0_l.
  induction m as [|e m IH]; cbn; [done|]. by rewrite IH.
Qed.

Lemma demand_foldl rs : foldl (λ n r, n + schemaBytes r) 0 rs = demand rs.
Proof. by rewrite foldl_plus, Z.add_0_l. Qed.

#[local] Instance total_proper : Proper ((≡ₚ) ==> (=)) total.
Proof. intros m m'. unfold total, demand. induction 1; cbn in *; lia. Qed.

#[local] Instance demand_proper : Proper ((≡ₚ) ==> (=)) demand.
Proof. intros m m'. unfold total, demand. induction 1; cbn in *; lia. Qed.

Lemma total_cons e m : total (e :: m) = as_bytes e.2 + total m.
Proof. done. Qed.

Lemma total_app m m' : total (m ++ m') = total m + total m'.
Proof. unfold total. induction m as [|e m IH]; cbn in *; [done|]. lia. Qed.

Lemma schema_bytes_nonneg r : 0 <= schemaBytes r.
Proof. unfold schemaBytes. lia. Qed.

(** ** Entries *)

Lemma filter_split {A} (p : A → bool) (l : list A) : l ≡ₚ List.filter p l ++ List.filter (λ x, negb (p x)) l.
Proof.
  induction l as [|x l IH]; [done|]. cbn. destruct (p x); cbn; [by f_equiv|].
  rewrite <- Permutation_middle. by f_equiv.
Qed.

Lemma NoDup_filter_bool {A} (p : A → bool) (l : list A) : NoDup l → NoDup (List.filter p l).
Proof. rewrite !NoDup_ListNoDup. apply List.NoDup_filter. Qed.

Lemma mdel_perm m k v : NoDup (keys m) → mget m k = Some v → m ≡ₚ (k, v) :: mdel m k.
Proof.
  intros Hnd (l1 & l2 & -> & Hk)%mget_split. rewrite mdel_around by done. symmetry. apply Permutation_middle.
Qed.

(** The order of the candidates: by last use, then by name. *)
Lemma lru_leb_total e1 e2 : lru_leb e1 e2 = true ∨ lru_leb e2 e1 = true.
Proof.
  unfold lru_leb. destruct (Z.eqb_spec (as_lastUsed e1.2 - as_lastUsed e2.2) 0), (Z.eqb_spec (as_lastUsed e2.2 - as_lastUsed e1.2) 0);
    try lia. apply str_leb_total.
Qed.

Lemma lru_leb_spec e1 e2 : lru_leb e1 e2 = true ↔
  as_lastUsed e1.2 < as_lastUsed e2.2 ∨ as_lastUsed e1.2 = as_lastUsed e2.2 ∧ str_leb e1.1 e2.1 = true.
Proof.
  unfold lru_leb. destruct (Z.eqb_spec (as_lastUsed e1.2 - as_lastUsed e2.2) 0).
  - split; [right; split; [lia|done]|]. intros [?|[_ ?]]; [lia|done].
  - rewrite Z.leb_le. split; [lia|]. intros [?|[? _]]; lia.
Qed.

Lemma lru_leb_trans e1 e2 e3 : lru_leb e1 e2 = true → lru_leb e2 e3 = true → lru_leb e1 e3 = true.
Proof.
  rewrite !lru_leb_spec. intros [?|[? H1]] [?|[? H2]]; [left; lia..|]. right. split; [lia|]. by eapply str_leb_trans.
Qed.

(** ** Eviction *)

(** The loop evicts a prefix of the candidates, no longer than needed, and long enough
    unless it runs out of them. *)
Lemma evict_spec budget cands m n ev : NoDup (keys m) → NoDup (keys cands) → (∀ e, e ∈ cands → e ∈ m) →
  ∃ out rest, cands = out ++ rest ∧
    (∃ m', evict budget cands m n ev = (m', n - total out, ev ++ keys out) ∧ m ≡ₚ out ++ m' ∧ NoDup (keys m') ∧
           (∀ k, mget m' k = if bool_decide (k ∈ keys out) then None else mget m k)) ∧
    (rest = [] ∨ n - total out <= budget) ∧
    (∀ out1 e out2, out = out1 ++ e :: out2 → budget < n - total out1).
Proof.
  revert m n ev. induction cands as [|[k v] cands IH]; intros m n ev Hm Hc Hin; cbn [evict].
  { exists [], []. split; [done|]. split; [|split; [by left|by intros []]].
    exists m. split; [cbn; rewrite app_nil_r; do 2 f_equal; lia|]. by split_and!. }
  apply NoDup_cons in Hc as [Hk Hc]. destruct (Z.leb_spec n budget) as [Hle|Hgt].
  { exists [], ((k, v) :: cands). split; [done|]. split; [|split; [right; cbn; lia|by intros []]].
    exists m. split; [cbn; rewrite app_nil_r; do 2 f_equal; lia|]. by split_and!. }
  assert (mget m k = Some v) as Hv by (apply elem_mget; [done|apply Hin; by left]).
  destruct (IH (mdel m k) (n - as_bytes v) (ev ++ [k])) as (out & rest & -> & (m' & Ee & Hp & Hnd & Hg) & Hend & Hneed).
  - by apply nodup_mdel.
  - done.
  - intros [k' v'] He. apply mget_elem. rewrite mget_mdel by done. rewrite bool_decide_eq_false_2.
    + apply elem_mget; [done|]. apply Hin. by right.
    + intros <-. apply Hk. apply list_elem_of_fmap. by exists (k, v').
  - exists ((k, v) :: out), rest. split; [done|]. split; [|split].
    + exists m'. split; [rewrite Ee, total_cons, <- app_assoc; cbn [keys map fst snd app]; do 2 f_equal; lia|]. split; [|split; [done|]].
      * rewrite (mdel_perm m k v) by done. cbn. by f_equiv.
      * intros k'. rewrite Hg, elem_keys, mget_mdel by done. by destruct (bool_decide (k = k')), (bool_decide (k' ∈ keys out)).
    + destruct Hend as [?|Hend]; [by left|right]. rewrite total_cons. cbn [snd]. lia.
    + intros [|e1 out1] e out2 E; cbn in E; injection E as E1 E2; [cbn; lia|]. subst. specialize (Hneed _ _ _ eq_refl). rewrite total_cons. cbn [snd]. lia.
Qed.

(** ** The invariant of a session *)

Abbreviation view_of s n := (view_get (ds_view s) n).

Record session_ok s : Prop := {
  so_named : vw_byName (ds_view s) = named (vw_records (ds_view s));
  so_names : NoDup (map tr_name (vw_records (ds_view s)));
  so_visible : ∀ n, n ∈ ds_visibleNames s ↔ is_Some (view_of s n);
  so_corpora : ds_corpora s = map (newCorpus normalizeSearchText) (sort_by name_leb (vw_records (ds_view s)));
  so_pinned : ∀ n, n ∈ ds_pinnedNames s → is_Some (view_of s n);
  so_keys : NoDup (keys (ds_active s));
  so_entries : ∀ k a, mget (ds_active s) k = Some a →
    view_of s k = Some (as_record a) ∧ k ∉ ds_pinnedNames s ∧ as_bytes a = schemaBytes (as_record a) ∧ as_lastUsed a <= ds_clock s;
  so_budget : total (ds_active s) <= ds_schemaBudgetBytes s }.

Lemma require_visible_ok s n r : requireVisible s n = Ok r ↔ view_of s n = Some r.
Proof. unfold requireVisible, view_require. destruct (view_get (ds_view s) n); naive_solver. Qed.

Lemma view_name s n r : session_ok s → view_of s n = Some r → tr_name r = n.
Proof. intros [En Hnd _ _ _ _ _ _]. unfold view_get. rewrite En. by intros [_ ?]%named_get. Qed.

(** ** Requests *)

(** The records a request is billed for: those of the distinct names that are not pinned. *)
Definition billed s (names : list jstr) : list record :=
  omap (view_get (ds_view s)) (List.filter (λ n, negb (bool_decide (n ∈ ds_pinnedNames s))) (sort_by str_leb (unique names))).

Lemma visible_all s ns rs : session_ok s → map_result (requireVisible s) ns = Ok rs ↔
  Forall2 (λ n r, view_of s n = Some r) ns rs.
Proof.
  intros _. rewrite map_result_ok. split; intros E; (eapply Forall2_impl; [exact E|]); intros n r; by rewrite require_visible_ok.
Qed.

Lemma visible_billed s ns rs : session_ok s → Forall2 (λ n r, view_of s n = Some r) ns rs →
  map tr_name rs = ns ∧
  List.filter (λ r, negb (bool_decide (tr_name r ∈ ds_pinnedNames s))) rs =
  omap (view_get (ds_view s)) (List.filter (λ n, negb (bool_decide (n ∈ ds_pinnedNames s))) ns).
Proof.
  intros Hok Hf. induction Hf as [|n r ns rs Hr _ [IH1 IH2]]; [done|]. cbn. rewrite IH1, (view_name s n r Hok Hr).
  split; [done|]. destruct (negb _); [|done]. cbn. by rewrite Hr, IH2.
Qed.

Lemma billed_elem s names r : session_ok s →
  r ∈ billed s names ↔ tr_name r ∈ names ∧ tr_name r ∉ ds_pinnedNames s ∧ view_of s (tr_name r) = Some r.
Proof.
  intros Hok. unfold billed. rewrite list_elem_of_omap. setoid_rewrite elem_of_filter_bool.
  setoid_rewrite negb_true_iff. setoid_rewrite bool_decide_eq_false. setoid_rewrite sort_by_elem. setoid_rewrite unique_elem. split.
  - intros (n & [Hn Hp] & Hr). by rewrite (view_name s n r Hok Hr).
  - intros (Hn & Hp & Hr). by exists (tr_name r).
Qed.

Lemma billed_names s names : session_ok s → NoDup (map tr_name (billed s names)).
Proof.
  intros Hok. unfold billed. set (ns := List.filter _ _).
  assert (NoDup ns) as Hnd by (apply NoDup_filter_bool; rewrite sort_by_perm; apply unique_nodup).
  clearbody ns. induction Hnd as [|n ns Hn _ IH]; cbn; [constructor|].
  destruct (view_get (ds_view s) n) as [r|] eqn:Hr; cbn; [|done]. constructor; [|done].
  rewrite (view_name s n r Hok Hr). intros (r' & E & (n' & Hn' & Hr')%list_elem_of_omap)%list_elem_of_fmap.
  rewrite (view_name s n' r' Hok Hr') in E. by subst.
Qed.

(** ** The working map *)

Definition entry_of (clock : Z) r : ActiveSchema ZodType := {| as_record := r; as_bytes := schemaBytes r; as_lastUsed := clock |}.

Lemma working_get clock m rs k : NoDup (map tr_name rs) →
  mget (foldl (λ w r, mset w (tr_name r) (entry_of clock r)) m rs) k =
  match mget (named rs) k with Some r => Some (entry_of clock r) | None => mget m k end.
Proof.
  revert m. induction rs as [|r rs IH]; intros m Hnd; cbn; [done|]. apply NoDup_cons in Hnd as [Hr Hnd].
  rewrite IH, mget_mset by done. case_bool_decide as E; [|done]. subst.
  destruct (mget (named rs) (tr_name r)) as [r'|] eqn:E; [|done]. exfalso. apply Hr. apply mget_keys in E. by rewrite named_names in E.
Qed.

Lemma working_nodup clock m rs : NoDup (keys m) →
  NoDup (keys (foldl (λ w r, mset w (tr_name r) (entry_of clock r)) m rs)).
Proof. revert m. induction rs as [|r rs IH]; intros m Hnd; cbn; [done|]. apply IH. by apply nodup_mset. Qed.

Lemma elem_iff_get m k a : NoDup (keys m) → (k, a) ∈ m ↔ mget m k = Some a.
Proof. intros Hnd. split; [by apply elem_mget|apply mget_elem]. Qed.

Lemma nodup_keys_nodup m : NoDup (keys m) → NoDup m.
Proof. apply NoDup_fmap_1. Qed.

(** The requested part of the working map costs what the request does. *)
Lemma working_total clock m rs : NoDup (keys m) → NoDup (map tr_name rs) →
  let w := foldl (λ w r, mset w (tr_name r) (entry_of clock r)) m rs in
  total w = demand rs + total (List.filter (λ e, negb (bool_decide (e.1 ∈ map tr_name rs))) w).
Proof.
  intros Hm Hrs w. pose proof (working_nodup clock m rs Hm) as Hw. fold w in Hw.
  rewrite (filter_split (λ e, bool_decide (e.1 ∈ map tr_name rs)) w) at 1. rewrite total_app. f_equal.
  assert (List.filter (λ e, bool_decide (e.1 ∈ map tr_name rs)) w ≡ₚ map (λ r, (tr_name r, entry_of clock r)) rs) as ->.
  { apply NoDup_Permutation.
    - apply NoDup_filter_bool. by apply nodup_keys_nodup.
    - apply (NoDup_fmap_1 fst). rewrite <- list_fmap_compose. exact Hrs.
    - intros [k a]. rewrite elem_of_filter_bool, bool_decide_eq_true, elem_iff_get by done. unfold w. rewrite working_get by done.
      rewrite (list_elem_of_fmap (λ r, (tr_name r, entry_of clock r))). split.
      + intros [Hg Hk]. cbn in Hk. destruct (mget (named rs) k) as [r|] eqn:Er.
        * apply named_get in Er as [Hr <-]; [|done]. injection Hg as <-. by exists r.
        * apply mget_none in Er. by rewrite named_names in Er.
      + intros (r & [= -> ->] & Hr). rewrite (proj2 (named_get rs _ r Hrs) (conj Hr eq_refl)). split; [done|].
        apply list_elem_of_fmap. by exists r. }
  clear. induction rs as [|r rs IH]; [done|]. cbn [map]. rewrite total_cons, IH. done.
Qed.

(** ** Activation *)

(** Names another session can call. *)
Definition active s (n : jstr) : Prop := is_Some (mget (ds_active s) n).

Lemma active_keys s n : n ∈ keys (ds_active s) ↔ active s n.
Proof.
  unfold active. split.
  - intros Hn. destruct (mget (ds_active s) n) eqn:E; [by eexists|]. by apply mget_none in E.
  - intros [a E]. by eapply mget_keys.
Qed.

(** What an activation does: the entries of the request are new, the others are kept
    or evicted, the evicted are the least recently used of the others and no more than
    the budget asks for. *)
Record activated s (names : list jstr) s' (res : ModeAActivationResult) : Prop := {
  av_frame : s' = with_active s (ds_active s') (ds_clock s');
  av_clock : ds_clock s <= ds_clock s';
  av_keys : NoDup (keys (ds_active s'));
  av_requested : ∀ r, r ∈ billed s names → mget (ds_active s') (tr_name r) = Some (entry_of (ds_clock s') r);
  av_others : ∀ k, k ∉ map tr_name (billed s names) →
    mget (ds_active s') k = if bool_decide (k ∈ ar_evictedNames res) then None else mget (ds_active s) k;
  av_evicted : ∀ k, k ∈ ar_evictedNames res → active s k ∧ k ∉ map tr_name (billed s names);
  av_lru : ∀ k a k' a', k ∈ ar_evictedNames res → mget (ds_active s) k = Some a →
    k' ∉ map tr_name (billed s names) → mget (ds_active s') k' = Some a' → lru_leb (k, a) (k', a') = true;
  av_needed : ∀ k a, k ∈ ar_evictedNames res → mget (ds_active s) k = Some a →
    (∀ k' a', k' ∈ ar_evictedNames res → mget (ds_active s) k' = Some a' → lru_leb (k', a') (k, a) = true) →
    ds_schemaBudgetBytes s < activeSchemaBytes s' + as_bytes a;
  av_bytes : ar_activeSchemaBytes res = activeSchemaBytes s';
  av_budget : total (ds_active s') <= ds_schemaBudgetBytes s;
  av_activated : ∀ n, n ∈ ar_activatedNames res ↔ active s' n ∧ ¬ active s n;
  av_changed : ar_callableSetChanged res = true ↔ ar_activatedNames res ≠ [] ∨ ar_evictedNames res ≠ [] }.

Lemma lru_antisym m e1 e2 : NoDup (keys m) → e1 ∈ m → e2 ∈ m → lru_leb e1 e2 = true → lru_leb e2 e1 = true → e1 = e2.
Proof.
  destruct e1 as [k1 a1], e2 as [k2 a2]. intros Hnd H1 H2. rewrite !lru_leb_spec. cbn.
  intros [?|[? L1]] [?|[? L2]]; try lia. assert (k1 = k2) as -> by by apply str_leb_antisym.
  apply elem_iff_get in H1, H2; [|done..]. congruence.
Qed.

Lemma length_pos {A} (l : list A) : (0 <? length l)%nat = true ↔ l ≠ [].
Proof. by destruct l. Qed.

Lemma sort_nil {A} (leb : A → A → bool) l : sort_by leb l = [] ↔ l = [].
Proof.
  split; [|by intros ->]. intros E. apply Permutation_nil. rewrite <- E. apply sort_by_perm.
Qed.

(** The result of the eviction loop on a working map. *)
Lemma evicted_working budget m rs clock :
  NoDup (keys m) → NoDup (map tr_name rs) → demand rs <= budget → 
  let w := foldl (λ w r, mset w (tr_name r) (entry_of clock r)) m rs in
  let other := λ k, negb (bool_decide (k ∈ map tr_name rs)) in
  let cands := sort_by lru_leb (List.filter (λ e, other e.1) w) in
  ∃ m' out, evict budget cands w (total w) [] = (m', total m', keys out) ∧ NoDup (keys m') ∧ total m' <= budget ∧
    (∀ k, mget m' k = if bool_decide (k ∈ keys out) then None else mget w k) ∧
    (∀ k a, (k, a) ∈ out → mget m k = Some a ∧ other k = true) ∧
    (∀ e k a, e ∈ out → other k = true → mget m' k = Some a → lru_leb e (k, a) = true) ∧
    (∀ e, e ∈ out → (∀ e', e' ∈ out → lru_leb e' e = true) → budget < total m' + as_bytes e.2).
Proof.
  intros Hm Hrs Hd w other cands. pose proof (working_nodup clock m rs Hm) as Hw. fold w in Hw.
  assert (∀ e, e ∈ cands ↔ e ∈ w ∧ other e.1 = true) as Hcand.
  { intros e. unfold cands. by rewrite sort_by_elem, elem_of_filter_bool. }
  assert (NoDup (keys cands)) as Hck.
  { unfold cands, keys. rewrite sort_by_perm. apply filter_nodup_map. exact Hw. }
  assert (StronglySorted (λ a b, lru_leb a b = true) cands) as Hsort.
  { apply sort_by_sorted; [apply lru_leb_total|apply lru_leb_trans]. }
  destruct (evict_spec budget cands w (total w) [] Hw Hck) as (out & rest & Ec & (m' & Ee & Hp & Hnd & Hg) & Hend & Hneed).
  { intros e He. by apply Hcand. }
  assert (total w = total out + total m') as Ht by (rewrite Hp at 1; apply total_app).
  exists m', out. split; [rewrite Ee; do 2 f_equal; lia|]. split; [done|]. split; [|split; [done|split; [|split]]].
  - destruct Hend as [->|Hend]; [|lia]. rewrite app_nil_r in Ec.
    assert (total w = demand rs + total out) as Hwt.
    { etransitivity; [exact (working_total clock m rs Hm Hrs)|]. fold w. f_equal. rewrite <- Ec. unfold cands. by rewrite sort_by_perm. }
    lia.
  - intros k a Hout. destruct (proj1 (Hcand (k, a))) as [Hin Ho]; [rewrite Ec, elem_of_app; by left|]. cbn in Ho. split; [|done].
    apply elem_iff_get in Hin; [|done]. unfold w in Hin. rewrite working_get in Hin by done.
    destruct (mget (named rs) k) as [r|] eqn:Er; [|done]. unfold other in Ho. apply negb_true_iff, bool_decide_eq_false in Ho.
    apply mget_keys in Er. by rewrite named_names in Er.
  - intros e k a He Ho Hk. rewrite Hg in Hk. destruct (bool_decide (k ∈ keys out)) eqn:Hko; [done|]. apply bool_decide_eq_false in Hko.
    rewrite Ec in Hsort. apply (StronglySorted_app_1_elem_of (λ a b, lru_leb a b = true) out rest); [exact Hsort|done|].
    assert ((k, a) ∈ out ++ rest) as [Hin|]%elem_of_app; [|exfalso|done].
    + rewrite <- Ec. apply Hcand. split; [by apply mget_elem|done].
    + apply Hko. apply list_elem_of_fmap. by exists (k, a).
  - intros e He Hlast. destruct (exists_last (l := out)) as (out1 & x & ->); [intros ->; by apply not_elem_of_nil in He|].
    assert (e = x) as ->.
    { assert (x ∈ out1 ++ [x]) as Hx by (apply elem_of_app; right; by apply list_elem_of_singleton).
      assert (∀ y, y ∈ out1 ++ [x] → y ∈ w) as Hin by (intros y Hy; apply Hcand; rewrite Ec; apply elem_of_app; by left).
      pose proof (Hin e He) as Hew. pose proof (Hin x Hx) as Hxw.
      apply elem_of_app in He as [He|He%list_elem_of_singleton]; [|done].
      apply (lru_antisym w); [done..| |by apply Hlast].
      rewrite Ec, <- app_assoc in Hsort. apply (StronglySorted_app_1_elem_of (λ a b, lru_leb a b = true) out1 ([x] ++ rest)); [exact Hsort|done|].
      apply elem_of_app. left. by apply list_elem_of_singleton. }
    specialize (Hneed out1 x [] eq_refl). rewrite total_app, total_cons in Ht. cbn in Ht. lia.
Qed.

(** The conditions of an activation. *)
Definition affordable s (names : list jstr) : Prop :=
  (∀ n, n ∈ names → is_Some (view_of s n)) ∧ demand (billed s names) <= ds_schemaBudgetBytes s.

Lemma records_exist s ns : (∀ n, n ∈ ns → is_Some (view_of s n)) → ∃ rs, Forall2 (λ n r, view_of s n = Some r) ns rs.
Proof.
  induction ns as [|n ns IH]; intros Hv; [by exists []|]. destruct (Hv n) as [r Hr]; [by left|].
  destruct IH as [rs Hrs]; [intros n' Hn'; apply Hv; by right|]. exists (r :: rs). by constructor.
Qed.

(** An activation in terms of the request and the loop. *)
Lemma activate_unfold s names rs : session_ok s →
  Forall2 (λ n r, view_of s n = Some r) (sort_by str_leb (unique names)) rs →
  activate s names =
  if ds_schemaBudgetBytes s <? demand (billed s names) then Throw ModeASchemaBudgetError else
  let b := billed s names in
  let clock := if (0 <? length b)%nat then ds_clock s + 1 else ds_clock s in
  let w := foldl (λ w r, mset w (tr_name r) (entry_of clock r)) (ds_active s) b in
  let cands := sort_by lru_leb (List.filter (λ e, negb (bool_decide (e.1 ∈ map tr_name b))) w) in
  let '(m, bytes, evicted) := evict (ds_schemaBudgetBytes s) cands w (total w) [] in
  let s' := with_active s m clock in
  let fresh := List.filter (λ n, negb (bool_decide (n ∈ activeNames s))) (activeNames s') in
  Ok (s', {| ar_schemas := map (λ r, {| sm_name := tr_name r; sm_inputSchema := gatewayExternalToolInputJsonSchema r |}) rs;
             ar_activatedNames := fresh; ar_evictedNames := sort_by str_leb evicted; ar_activeSchemaBytes := bytes;
             ar_callableSetChanged := (0 <? length fresh)%nat || (0 <? length evicted)%nat |}).
Proof.
  intros Hok Hrs. unfold activate. rewrite (proj2 (visible_all s _ rs Hok) Hrs). cbn [mbind result_bind].
  destruct (visible_billed s _ rs Hok Hrs) as [_ ->]. fold (billed s names). rewrite demand_foldl. unfold throw_if.
  destruct (_ <? _); [done|]. cbn [mbind result_bind]. cbv zeta. rewrite total_bytes_total. done.
Qed.

Lemma activate_ok s names : session_ok s → affordable s names → ∃ s' res, activate s names = Ok (s', res) ∧ activated s names s' res.
Proof.
  intros Hok [Hv Hd]. destruct (records_exist s (sort_by str_leb (unique names))) as [rs Hrs].
  { intros n Hn. apply Hv. by rewrite sort_by_elem, unique_elem in Hn. }
  rewrite (activate_unfold s names rs Hok Hrs). cbv zeta. rewrite (proj2 (Z.ltb_ge _ _) Hd).
  set (clock := if (0 <? length (billed s names))%nat then ds_clock s + 1 else ds_clock s). pose proof (billed_names s names Hok) as Hb. pose proof (so_keys s Hok) as Hm.
  destruct (evicted_working (ds_schemaBudgetBytes s) (ds_active s) (billed s names) clock Hm Hb Hd)
    as (m & out & -> & Hnd & Hbudget & Hg & Hout & Hlru & Hneed).
  assert (∀ k, k ∈ sort_by str_leb (keys out) → ∃ a, (k, a) ∈ out) as Hev.
  { intros k Hk. rewrite sort_by_elem in Hk. apply list_elem_of_fmap in Hk as ([k' a] & -> & Hk). eauto. }
  assert (∀ k a, k ∈ sort_by str_leb (keys out) → mget (ds_active s) k = Some a → (k, a) ∈ out) as Hev'.
  { intros k a Hk Ha. destruct (Hev k Hk) as [a' Ha']. destruct (Hout _ _ Ha') as [E _]. by simplify_eq. }
  eexists _, _. split; [reflexivity|]. split; cbn [ds_active ds_clock with_active ar_evictedNames ar_activeSchemaBytes ar_activatedNames ar_callableSetChanged].
  - done.
  - unfold clock. case_match; lia.
  - done.
  - intros r Hr. rewrite Hg, working_get, (proj2 (named_get _ _ r Hb) (conj Hr eq_refl)) by done. rewrite bool_decide_eq_false_2; [done|].
    intros ([k a] & Ek & He)%list_elem_of_fmap. destruct (Hout k a He) as [_ Ho]. cbn in Ek. subst k.
    apply negb_true_iff, bool_decide_eq_false in Ho. apply Ho. apply list_elem_of_fmap. by exists r.
  - intros k Hk. rewrite Hg, working_get by done. rewrite (bool_decide_ext (k ∈ sort_by str_leb (keys out)) (k ∈ keys out)) by apply sort_by_elem.
    by rewrite <- named_names, <- mget_none in Hk; rewrite Hk.
  - intros k Hk. destruct (Hev k Hk) as [a Ha]. destruct (Hout k a Ha) as [E Ho]. split; [by eexists|].
    by apply negb_true_iff, bool_decide_eq_false in Ho.
  - intros k a k' a' Hk Ha Hk' Ha'. apply Hlru; [by apply Hev'|by apply negb_true_iff, bool_decide_eq_false|done].
  - intros k a Hk Ha Hmax. unfold activeSchemaBytes. rewrite total_bytes_total. apply (Hneed (k, a)); [by apply Hev'|].
    intros [k' a'] He'. apply Hmax; [|by apply Hout]. rewrite sort_by_elem. apply list_elem_of_fmap. by exists (k', a').
  - unfold activeSchemaBytes. by rewrite total_bytes_total.
  - done.
  - intros n. rewrite elem_of_filter_bool, negb_true_iff, bool_decide_eq_false. unfold activeNames. rewrite !sort_by_elem, !active_keys. done.
  - rewrite orb_true_iff, !length_pos, sort_nil. done.
Qed.

Lemma activate_only s names s' res : session_ok s → activate s names = Ok (s', res) → affordable s names.
Proof.
  intros Hok H. assert (∀ n, n ∈ names → is_Some (view_of s n)) as Hv.
  { intros n Hn. pose proof H as H'. unfold activate in H'. apply bind_ok in H' as (rs & Hrs & _).
    apply (visible_all s _ rs Hok) in Hrs. assert (n ∈ sort_by str_leb (unique names)) as Hn' by by rewrite sort_by_elem, unique_elem.
    apply list_elem_of_lookup in Hn' as [i Hi]. destruct (Forall2_lookup_l _ _ _ _ _ Hrs Hi) as (r & _ & Hr). by eexists. }
  split; [done|]. destruct (records_exist s (sort_by str_leb (unique names))) as [rs Hrs].
  { intros n Hn. apply Hv. by rewrite sort_by_elem, unique_elem in Hn. }
  rewrite (activate_unfold s names rs Hok Hrs) in H. destruct (Z.ltb_spec (ds_schemaBudgetBytes s) (demand (billed s names))); [done|lia].
Qed.

(** ** Every operation keeps the invariant *)

(** Project a session that was updated. *)
Ltac session_cbn :=
  cbn [with_active ds_view ds_visibleNames ds_corpora ds_pinnedNames ds_active ds_clock ds_schemaBudgetBytes].

Lemma new_session_ok view pinned budget s :
  vw_byName view = named (vw_records view) → NoDup (map tr_name (vw_records view)) →
  newDiscoverySession normalizeSearchText view pinned budget = Ok s →
  session_ok s ∧ ds_view s = view ∧ ds_schemaBudgetBytes s = num_Z budget ∧ ds_active s = [] ∧
  ∀ n, n ∈ ds_pinnedNames s ↔ n ∈ pinned ∧ is_Some (view_get view n).
Proof.
  intros En Hnd H. unfold newDiscoverySession in H. ok_inv H. cbn [ds_view ds_schemaBudgetBytes ds_active ds_pinnedNames].
  assert (∀ n, n ∈ map tr_name (sort_by name_leb (vw_records view)) ↔ is_Some (view_get view n)) as Hvis.
  { intros n. rewrite sorted_names. unfold view_get. rewrite En, <- named_names. destruct (mget (named (vw_records view)) n) eqn:E.
    - apply mget_keys in E. split; [by eexists|done].
    - apply mget_none in E. split; [done|by intros [? [=]]]. }
  assert (∀ n, n ∈ sort_by str_leb (List.filter (λ name, bool_decide (name ∈ map tr_name (sort_by name_leb (vw_records view)))) (unique pinned))
      ↔ n ∈ pinned ∧ is_Some (view_get view n)) as Hpin.
  { intros n. by rewrite sort_by_elem, elem_of_filter_bool, unique_elem, bool_decide_eq_true, Hvis. }
  split; [|done]. split; cbn; try done.
  - intros n Hn. by apply Hpin.
  - constructor.
Qed.

Lemma activated_ok s names s' res : session_ok s → activated s names s' res → session_ok s'.
Proof.
  intros Hok Hav. pose proof Hok as [En Hnd Hvis Hcor Hpin Hk He Hb]. pose proof (av_frame _ _ _ _ Hav) as Ef.
  pose proof (av_keys _ _ _ _ Hav). pose proof (av_budget _ _ _ _ Hav).
  split; rewrite Ef; session_cbn; try done.
  intros k a Ha. destruct (decide (k ∈ map tr_name (billed s names))) as [Hin|Hout].
  - apply list_elem_of_fmap in Hin as (r & -> & Hr). rewrite (av_requested _ _ _ _ Hav r Hr) in Ha. injection Ha as <-. cbn.
    apply billed_elem in Hr as (_ & Hp & Hr); [|done]. split_and!; done || lia.
  - rewrite (av_others _ _ _ _ Hav k Hout) in Ha. destruct (bool_decide _); [done|]. destruct (He k a Ha) as (? & ? & ? & ?).
    pose proof (av_clock _ _ _ _ Hav). split_and!; done || lia.
Qed.

Lemma callable_iff s n : session_ok s → isCallable s n = true ↔ n ∈ ds_pinnedNames s ∨ active s n.
Proof.
  intros [_ _ Hvis _ Hpin _ He _]. unfold isCallable, active.
  rewrite andb_true_iff, orb_true_iff, !bool_decide_eq_true, negb_true_iff, is_null_false, Hvis. split; [naive_solver|].
  intros [Hn|[a Ha]]; [split; [by apply Hpin|by left]|]. split; [|right; by eexists]. destruct (He n a Ha) as [-> _]. by eexists.
Qed.

Lemma callable_names_elem s n : n ∈ callableNames s ↔ n ∈ ds_pinnedNames s ∨ active s n.
Proof. unfold callableNames. by rewrite sort_by_elem, unique_elem, elem_of_app, active_keys. Qed.

(** A call touches the time of use only. *)
Lemma call_spec s n : session_ok s →
  ((∃ s' r, requireCallable s n = Ok (s', r)) ↔ isCallable s n = true) ∧
  ∀ s' r, requireCallable s n = Ok (s', r) → view_of s n = Some r ∧ session_ok s' ∧ ds_view s' = ds_view s ∧
    ds_pinnedNames s' = ds_pinnedNames s ∧ ds_schemaBudgetBytes s' = ds_schemaBudgetBytes s ∧
    (∀ k, active s' k ↔ active s k) ∧ activeSchemaBytes s' = activeSchemaBytes s.
Proof.
  intros Hok. pose proof Hok as [En Hnd Hvis Hcor Hpin Hk He Hb]. unfold requireCallable.
  destruct (isCallable s n) eqn:Hc; cbn [negb throw_if mbind result_bind]; [|split; [split; [by intros (? & ? & ?)|done]|done]].
  assert (∃ r, view_of s n = Some r) as [r Hr].
  { unfold isCallable in Hc. apply andb_true_iff in Hc as [Hc _]. by apply bool_decide_eq_true, Hvis in Hc. }
  rewrite (proj2 (require_visible_ok s n r) Hr). cbn [mbind result_bind].
  destruct (mget (ds_active s) n) as [a|] eqn:Ha; (split; [split; [done|by eexists _, _]|]); intros s' r' [= <- <-]; [|by split_and!].
  set (a' := {| as_record := _ |}). destruct (He n a Ha) as (Hv & Hnp & Hby & Hl).
  apply mget_split in Ha as Hs. destruct Hs as (l1 & l2 & Es & Hn1).
  assert (total (mset (ds_active s) n a') = total (ds_active s)) as Ht.
  { rewrite Es, mset_around, !total_app, !total_cons by done. done. }
  split; [done|]. split; [|split_and!; try done].
  - split; session_cbn; try done; [by apply nodup_mset| |by rewrite Ht].
    intros k b Hkb. rewrite mget_mset in Hkb. case_bool_decide as E; [|destruct (He k b Hkb) as (? & ? & ? & ?); split_and!; done || lia].
    injection Hkb as <-. subst. cbn. split_and!; done || lia.
  - intros k. unfold active. cbn. rewrite mget_mset. case_bool_decide as E; [|done]. subst. rewrite Ha. by split; eexists.
  - unfold activeSchemaBytes. rewrite !total_bytes_total. exact Ht.
Qed.

(** The states of a session on a view. *)
Inductive session_reach (view : GatewayRegistryView ZodType) (pinned : list jstr) (budget : jsnum) : ModeADiscoverySession ZodType → Prop :=
| reach_new s : newDiscoverySession normalizeSearchText view pinned budget = Ok s → session_reach view pinned budget s
| reach_activate s names s' res :
    session_reach view pinned budget s → activate s names = Ok (s', res) → session_reach view pinned budget s'
| reach_call s n s' r :
    session_reach view pinned budget s → requireCallable s n = Ok (s', r) → session_reach view pinned budget s'.

Lemma activate_inv s names s' res : session_ok s → activate s names = Ok (s', res) → activated s names s' res.
Proof.
  intros Hok H. destruct (activate_ok s names Hok (activate_only _ _ _ _ Hok H)) as (s1 & r1 & E & Hav). rewrite H in E. by injection E as <- <-.
Qed.

Lemma reach_ok view pinned budget s :
  vw_byName view = named (vw_records view) → NoDup (map tr_name (vw_records view)) → session_reach view pinned budget s →
  session_ok s ∧ ds_view s = view ∧ ds_schemaBudgetBytes s = num_Z budget ∧
  ∀ n, n ∈ ds_pinnedNames s ↔ n ∈ pinned ∧ is_Some (view_get view n).
Proof.
  intros En Hnd Hr. induction Hr as [s Hs|s names s' res _ (Hok & Ev & Eb & Hp) H|s n s' r _ (Hok & Ev & Eb & Hp) H].
  - by destruct (new_session_ok _ _ _ _ En Hnd Hs) as (? & ? & ? & _ & ?).
  - pose proof (activate_inv _ _ _ _ Hok H) as Hav. split; [by eapply activated_ok|]. rewrite (av_frame _ _ _ _ Hav). done.
  - destruct (call_spec s n Hok) as [_ Hc]. destruct (Hc _ _ H) as (_ & Hok' & -> & -> & -> & _). done.
Qed.

(** ** Search *)

Lemma includes_spec t v : includes t v = true ↔ ∃ a b, v = a ++ t ++ b.
Proof.
  induction v as [|c v IH]; cbn [includes]; rewrite orb_true_iff, starts_with_true.
  - split; [intros [[b E]|?]; [by exists [], b|done]|]. intros (a & b & E). destruct a; [|done]. left. by exists b.
  - rewrite IH. split.
    + intros [[b E]|(a & b & ->)]; [by exists [], b|by exists (c :: a), b].
    + intros (a & b & E). destruct a as [|x a]; [left; by exists b|]. injection E as _ E. right. by exists a, b.
Qed.

Lemma field_score t v w : 0 < w_exact w → 0 < w_prefix w → 0 < w_contains w →
  0 <= fieldScore t v w ∧ (fieldScore t v w ≠ 0 ↔ includes t v = true).
Proof.
  intros He Hp Hc. unfold fieldScore. destruct (decide (v = t)) as [->|Hne].
  { rewrite bool_decide_eq_true_2 by done. split; [lia|]. split; [|lia]. intros _. apply includes_spec. exists [], []. by rewrite app_nil_r. }
  rewrite bool_decide_eq_false_2 by done. destruct (starts_with t v) eqn:Es.
  { split; [lia|]. split; [|lia]. intros _. apply starts_with_true in Es as [b ->]. apply includes_spec. by exists [], b. }
  destruct (includes t v); split; lia || done.
Qed.

Lemma fold_max {A} (f : A → Z) (z : Z) (l : list A) : (∀ a, 0 <= f a) → 0 <= z →
  0 <= foldl (λ n a, Z.max n (f a)) z l ∧ (foldl (λ n a, Z.max n (f a)) z l ≠ 0 ↔ z ≠ 0 ∨ ∃ a, a ∈ l ∧ f a ≠ 0).
Proof.
  intros Hf. revert z. induction l as [|a l IH]; intros z Hz; cbn.
  { split; [done|]. split; [by left|]. intros [?|(a & ?%not_elem_of_nil & _)]; done. }
  destruct (IH (Z.max z (f a))) as [H0 H1]; [specialize (Hf a); lia|]. split; [done|]. rewrite H1. split.
  - intros [Hm|(b & Hb & Hn)]; [|right; exists b; split; [by right|done]].
    destruct (decide (z = 0)) as [->|?]; [|by left]. right. exists a. split; [by left|]. specialize (Hf a). lia.
  - intros [Hz'|(b & [->|Hb]%elem_of_cons & Hn)]; [left; specialize (Hf a); lia|left; pose proof (Hf a); lia|right; eauto].
Qed.

(** A term occurs in the name, the summary, an argument or its description. *)
Definition matches (t : jstr) (c : SearchCorpus ZodType) : Prop :=
  includes t (sc_name c) = true ∨ includes t (sc_summary c) = true ∨
  (∃ n, n ∈ sc_argumentNames c ∧ includes t n = true) ∨ ∃ d, d ∈ sc_argumentDescriptions c ∧ includes t d = true.

Lemma score_term t c : 0 <= scoreTerm t c ∧ (scoreTerm t c ≠ 0 ↔ matches t c).
Proof.
  unfold scoreTerm, matches. cbv zeta.
  destruct (field_score t (sc_name c) {| w_exact := 1000; w_prefix := 700; w_contains := 500 |}) as [N0 N1]; [done..|].
  destruct (field_score t (sc_summary c) {| w_exact := 400; w_prefix := 300; w_contains := 220 |}) as [S0 S1]; [done..|].
  set (wn := {| w_exact := 600 |}). set (wd := {| w_exact := 260 |}).
  assert (∀ n, 0 <= fieldScore t n wn ∧ (fieldScore t n wn ≠ 0 ↔ includes t n = true)) as Hn by (intros n; by apply field_score).
  assert (∀ n, 0 <= fieldScore t n wd ∧ (fieldScore t n wd ≠ 0 ↔ includes t n = true)) as Hd by (intros n; by apply field_score).
  destruct (fold_max (λ n, fieldScore t n wn) (Z.max (fieldScore t (sc_name c) {| w_exact := 1000; w_prefix := 700; w_contains := 500 |})
    (fieldScore t (sc_summary c) {| w_exact := 400; w_prefix := 300; w_contains := 220 |})) (sc_argumentNames c)) as [A0 A1];
    [intros; apply Hn|lia|].
  destruct (fold_max (λ n, fieldScore t n wd) _ (sc_argumentDescriptions c) (λ n, proj1 (Hd n)) A0) as [B0 B1]. split; [exact B0|].
  rewrite B1, A1, <- N1, <- S1. 
  assert (∀ (w : Weights) (l : list jstr), (∀ n, 0 <= fieldScore t n w ∧ (fieldScore t n w ≠ 0 ↔ includes t n = true)) →
    (∃ n, n ∈ l ∧ includes t n = true) ↔ ∃ n, n ∈ l ∧ fieldScore t n w ≠ 0) as Hex.
  { intros w l Hw. split; intros (n & Hin & E); exists n; (split; [done|]); by apply (Hw n). }
  rewrite (Hex wn _ Hn), (Hex wd _ Hd).
  assert (∀ x y : Z, 0 <= x → 0 <= y → Z.max x y ≠ 0 ↔ x ≠ 0 ∨ y ≠ 0) as Hmax by lia. rewrite Hmax by done. clear. split; [intros [[[?|?]|?]|?]|intros [?|[?|[?|?]]]]; auto.
Qed.

Lemma sum_scores_spec z ts c : (∃ n, sum_scores z ts c = Some n) ↔ ∀ t, t ∈ ts → matches t c.
Proof.
  revert z. induction ts as [|t ts IH]; intros z; cbn; [split; [by intros _ t ?%not_elem_of_nil|by eexists]|].
  destruct (score_term t c) as [_ Hs]. destruct (Z.eqb_spec (scoreTerm t c) 0) as [E|E].
  - split; [by intros [? [=]]|]. intros Hall. exfalso. apply (proj2 Hs); [apply Hall; by left|done].
  - rewrite IH. split.
    + intros Hall t' [->|Ht]%elem_of_cons; [by apply Hs|by apply Hall].
    + intros Hall t' Ht. apply Hall. by right.
Qed.

Lemma rank_spec h h' : rank_leb h h' = true ↔ sr_score h' < sr_score h ∨ sr_score h' = sr_score h ∧ str_leb (sr_name h) (sr_name h') = true.
Proof.
  unfold rank_leb. destruct (Z.eqb_spec (sr_score h' - sr_score h) 0).
  - split; [right; split; [lia|done]|]. intros [?|[_ ?]]; [lia|done].
  - rewrite Z.leb_le. split; [lia|]. intros [?|[? _]]; lia.
Qed.

Lemma rank_sorted l : StronglySorted (λ a b, rank_leb a b = true) (sort_by rank_leb l).
Proof.
  apply sort_by_sorted.
  - intros a b. rewrite !rank_spec. destruct (str_leb_total (sr_name a) (sr_name b)); destruct (Z.lt_total (sr_score a) (sr_score b)) as [?|[?|?]]; eauto.
  - intros a b c. rewrite !rank_spec. intros [?|[? H1]] [?|[? H2]]; [left; lia..|]. right. split; [lia|]. by eapply str_leb_trans.
Qed.

(** The text of a tool that a search sees. *)
Abbreviation corpus r := (newCorpus normalizeSearchText r).


(** ** What a session promises *)

Lemma callable_names_eq s s' : (∀ n, n ∈ callableNames s ↔ n ∈ callableNames s') → callableNames s = callableNames s'.
Proof.
  intros Hsame. apply (sorted_perm_unique (λ a b, str_leb a b = true)).
  - intros a b _ _. apply str_leb_antisym.
  - apply sort_by_sorted; [apply str_leb_total|apply str_leb_trans].
  - apply sort_by_sorted; [apply str_leb_total|apply str_leb_trans].
  - apply NoDup_Permutation; [unfold callableNames; rewrite sort_by_perm; apply unique_nodup..|]. exact Hsame.
Qed.

Section promises.
Context (toJSONSchema : list (jstr * ZodType) → jsval) (address : Z) (tools : list record) (g : GatewayToolRegistry ZodType).
Context (visible pinned : list jstr) (view : GatewayRegistryView ZodType) (budget : jsnum).
Hypothesis Hregistry : newToolRegistry toJSONSchema address tools = Ok g.
Hypothesis Hview : registry_view g visible = Ok view.

Lemma reach_session s : session_reach view pinned budget s →
  session_ok s ∧ ds_view s = view ∧ ds_schemaBudgetBytes s = num_Z budget ∧
  ∀ n, n ∈ ds_pinnedNames s ↔ n ∈ pinned ∧ is_Some (view_get view n).
Proof. destruct (registry_view_named _ _ _ _ _ _ Hregistry Hview) as (En & Hnd & _). by apply reach_ok. Qed.

(** Whatever a session activates and calls, the active schemas fit the budget, the
    tools it can call are those of the list it announces, each of them is a tool of
    its view that a call resolves to the registry's record, and a pinned tool of the
    view is always among them. *)
Theorem schema_budget_kept s : session_reach view pinned budget s →
  activeSchemaBytes s <= num_Z budget ∧
  (∀ n, isCallable s n = true ↔ n ∈ callableNames s) ∧
  (∀ n, isCallable s n = true → n ∈ visible ∧ ∃ s' r, requireCallable s n = Ok (s', r) ∧ registry_get g n = Some r) ∧
  (∀ n, n ∈ pinned → n ∈ visible → isCallable s n = true).
Proof.
  intros Hr. destruct (reach_session s Hr) as (Hok & Ev & Eb & Hp).
  destruct (registry_view_exact _ _ _ _ visible Hregistry) as [[Hall _] Hget]. specialize (Hget view Hview) as [Hget _].
  split; [unfold activeSchemaBytes; rewrite total_bytes_total, <- Eb; apply Hok|]. split; [|split].
  - intros n. by rewrite callable_iff, callable_names_elem.
  - intros n Hn. destruct (call_spec s n Hok) as [[_ Hc] Hspec]. destruct (Hc Hn) as (s' & r & E).
    destruct (Hspec _ _ E) as [Hv _]. rewrite Ev, Hget in Hv. destruct (bool_decide (n ∈ visible)) eqn:Hi; [|done].
    apply bool_decide_eq_true in Hi. eauto.
  - intros n Hn Hi. apply callable_iff; [done|]. left. apply Hp. split; [done|].
    rewrite Hget, bool_decide_eq_true_2 by done. apply Hall; [by eexists|done].
Qed.

(** C23: an activation succeeds exactly when every requested tool is visible and the
    schemas of those that are not pinned fit the budget on their own; then all of them
    can be called, the evicted schemas are the least recently used of the others, no
    more of them than the budget asks for, and every other schema stays as it was. *)
Theorem activation_exact s names : session_reach view pinned budget s →
  ((∃ s' res, activate s names = Ok (s', res)) ↔ affordable s names) ∧
  ∀ s' res, activate s names = Ok (s', res) → activated s names s' res ∧ ∀ n, n ∈ names → isCallable s' n = true.
Proof.
  intros Hr. destruct (reach_session s Hr) as (Hok & _). split; [split|].
  - intros (s' & res & H). by eapply activate_only.
  - intros Ha. destruct (activate_ok s names Hok Ha) as (s' & res & E & _). eauto.
  - intros s' res H. pose proof (activate_inv _ _ _ _ Hok H) as Hav. split; [done|]. intros n Hn.
    pose proof (activated_ok _ _ _ _ Hok Hav) as Hok'. apply callable_iff; [done|].
    destruct (activate_only _ _ _ _ Hok H) as [Hvis _]. destruct (Hvis n Hn) as [r Hr'].
    rewrite (av_frame _ _ _ _ Hav). session_cbn. destruct (decide (n ∈ ds_pinnedNames s)) as [Hp|Hp]; [by left|right].
    pose proof (view_name s n r Hok Hr') as <-. eexists. apply (av_requested _ _ _ _ Hav). by apply billed_elem.
Qed.

(** An activation reports a change exactly when the list of callable tools is a
    different one afterwards. *)
Theorem callable_change_reported s names s' res : session_reach view pinned budget s →
  activate s names = Ok (s', res) → ar_callableSetChanged res = true ↔ callableNames s' ≠ callableNames s.
Proof.
  intros Hr H. destruct (reach_session s Hr) as (Hok & _). pose proof (activate_inv _ _ _ _ Hok H) as Hav.
  pose proof (activated_ok _ _ _ _ Hok Hav) as Hok'. rewrite (av_changed _ _ _ _ Hav).
  assert (ds_pinnedNames s' = ds_pinnedNames s) as Ep by by rewrite (av_frame _ _ _ _ Hav).
  assert (∀ n, active s' n → n ∉ ds_pinnedNames s) as Hnp'.
  { intros n [a Ha]. rewrite <- Ep. by destruct (so_entries _ Hok' _ _ Ha) as (_ & ? & _). }
  assert (∀ n, active s n → n ∉ ds_pinnedNames s) as Hnp.
  { intros n [a Ha]. by destruct (so_entries _ Hok _ _ Ha) as (_ & ? & _). }
  split.
  - intros Hch E. assert (∀ n, active s' n ↔ active s n) as Hsame.
    { intros n. split; intros Hn; [pose proof (Hnp' n Hn)|pose proof (Hnp n Hn)];
        [assert (n ∈ callableNames s) as Hc by (rewrite <- E, callable_names_elem; by right)
        |assert (n ∈ callableNames s') as Hc by (rewrite E, callable_names_elem; by right)];
        rewrite callable_names_elem, ?Ep in Hc; by destruct Hc. }
    destruct Hch as [Hne|Hne].
    + destruct (ar_activatedNames res) as [|n l] eqn:El; [done|].
      destruct (proj1 (av_activated _ _ _ _ Hav n)) as [Hn' Hn]; [rewrite El; by left|]. by apply Hn, Hsame.
    + destruct (ar_evictedNames res) as [|k l] eqn:El; [done|]. assert (k ∈ ar_evictedNames res) as Hk by (rewrite El; by left).
      destruct (av_evicted _ _ _ _ Hav k Hk) as [Hn Hb]. apply Hsame in Hn as [a Ha].
      by rewrite (av_others _ _ _ _ Hav k Hb), bool_decide_eq_true_2 in Ha.
  - intros Hne. destruct (ar_activatedNames res) as [|n l] eqn:El; [|by left]. destruct (ar_evictedNames res) as [|k l] eqn:El'; [|by right].
    exfalso. apply Hne, callable_names_eq. intros n. rewrite !callable_names_elem, Ep.
    assert (active s' n ↔ active s n) as Hsame; [|by rewrite Hsame]. split.
    + intros Hn. destruct (mget (ds_active s) n) as [a|] eqn:Ea; [by eexists|]. exfalso.
      apply (not_elem_of_nil n). rewrite <- El. apply (av_activated _ _ _ _ Hav). split; [done|]. unfold active. rewrite Ea. by intros [? [=]].
    + intros Hn. destruct (decide (n ∈ map tr_name (billed s names))) as [Hb|Hb].
      * apply list_elem_of_fmap in Hb as (r & -> & Hb). eexists. by apply (av_requested _ _ _ _ Hav).
      * unfold active. rewrite (av_others _ _ _ _ Hav n Hb), El'. rewrite bool_decide_eq_false_2 by apply not_elem_of_nil. done.
Qed.

(** A search returns the best of the tools every term of the query occurs in. Each
    hit is a tool of the view with all terms in its texts, the hits are ordered by
    score and name and at most [limit], and a tool that has all terms is left out only
    when [limit] hits rank before it. *)
Theorem search_ranked s query limit hits : session_reach view pinned budget s → search normalizeSearchText s query limit = Ok hits →
  1 <= num_Z limit <= MAX_SEARCH_LIMIT ∧ Z.of_nat (length hits) <= num_Z limit ∧
  StronglySorted (λ a b, rank_leb a b = true) hits ∧
  (∀ h, h ∈ hits → ∃ r, view_of s (sr_name h) = Some r ∧ search_hit (search_terms normalizeSearchText query) (corpus r) = Some h ∧
    ∀ t, t ∈ search_terms normalizeSearchText query → matches t (corpus r)) ∧
  (∀ n r, view_of s n = Some r → search_terms normalizeSearchText query ≠ [] →
    (∀ t, t ∈ search_terms normalizeSearchText query → matches t (corpus r)) →
    ∃ h, search_hit (search_terms normalizeSearchText query) (corpus r) = Some h ∧ sr_name h = n ∧
      (h ∈ hits ∨ Z.of_nat (length hits) = num_Z limit ∧ ∀ h', h' ∈ hits → rank_leb h' h = true)).
Proof.
  intros Hr H. destruct (reach_session s Hr) as (Hok & _). clear Hr. unfold search in H. apply seq_ok in H as [Hg H].
  apply is_ok_unit, throw_if_ok, orb_false_iff in Hg as [Hl Hu]. apply orb_false_iff in Hl as [_ Hl]. apply Z.ltb_ge in Hl, Hu.
  set (ts := search_terms normalizeSearchText query) in *. split; [lia|].
  destruct (Nat.eqb_spec (length ts) 0) as [E0|E0].
  { apply length_zero_iff_nil in E0. injection H as <-. split; [cbn; lia|]. split; [constructor|]. split; [by intros h ?%not_elem_of_nil|].
    intros n r _ Hne. by rewrite E0 in Hne. }
  injection H as <-. set (all := omap (search_hit ts) (ds_corpora s)). pose proof (rank_sorted all) as Hsort.
  assert (∀ h, h ∈ sort_by rank_leb all ↔ ∃ r, view_of s (sr_name h) = Some r ∧ search_hit ts (corpus r) = Some h) as Hall.
  { intros h. rewrite sort_by_elem. unfold all. rewrite list_elem_of_omap, (so_corpora s Hok).
    setoid_rewrite (list_elem_of_fmap (newCorpus normalizeSearchText)). unfold view_get. rewrite (so_named s Hok).
    assert (∀ r, search_hit ts (corpus r) = Some h → sr_name h = tr_name r) as Hname.
    { intros r E. unfold search_hit in E. apply bind_Some in E as (n & _ & E). by injection E as <-. }
    split.
    - intros (c & (r & -> & Hr) & E). exists r. split; [|done]. rewrite (Hname r E). apply named_get; [apply Hok|].
      by rewrite sort_by_elem in Hr.
    - intros (r & Hr & E). apply named_get in Hr as [Hr _]; [|apply Hok]. exists (corpus r). split; [|done]. exists r.
      by rewrite sort_by_elem. }
  rewrite <- (take_drop (Z.to_nat (num_Z limit)) (sort_by rank_leb all)) in Hsort.
  split; [rewrite length_take; lia|]. split; [by eapply StronglySorted_app_1_l|]. split.
  - intros h Hh. assert (h ∈ sort_by rank_leb all) as Hh' by (rewrite <- (take_drop (Z.to_nat (num_Z limit)) (sort_by rank_leb all)); apply elem_of_app; by left).
    apply Hall in Hh' as (r & Hr & E). exists r. split; [done|]. split; [done|].
    apply (sum_scores_spec 0). unfold search_hit in E. apply bind_Some in E as (n & E & _). by eexists.
  - intros n r Hr _ Hm. destruct (proj2 (sum_scores_spec 0 ts (corpus r)) Hm) as [z Ez].
    assert (search_hit ts (corpus r) = Some {| sr_name := tr_name r; sr_summary := tr_summary r; sr_score := z |}) as Eh
      by (unfold search_hit; by rewrite Ez).
    eexists. split; [exact Eh|]. cbn [sr_name]. rewrite (view_name s n r Hok Hr). split; [done|].
    set (h := {| sr_name := n |}) in *. assert (h ∈ sort_by rank_leb all) as Hh.
    { apply Hall. exists r. cbn. split; [done|]. rewrite Eh. unfold h. by rewrite (view_name s n r Hok Hr). }
    rewrite <- (take_drop (Z.to_nat (num_Z limit)) (sort_by rank_leb all)) in Hh. apply elem_of_app in Hh as [Hh|Hh]; [by left|right].
    split.
    + rewrite length_take. assert (drop (Z.to_nat (num_Z limit)) (sort_by rank_leb all) ≠ []) as Hne by (intros E; rewrite E in Hh; by apply not_elem_of_nil in Hh).
      destruct (decide (Z.to_nat (num_Z limit) <= length (sort_by rank_leb all))%nat); [lia|].
      exfalso. apply Hne, drop_ge. lia.
    + intros h' Hh'. by apply (StronglySorted_app_1_elem_of (λ a b, rank_leb a b = true) _ _ h' h Hsort).
Qed.
End promises.
End discovery.

(** ** Witnesses *)

(** Two tools, a budget for one of them. *)
Section witness.

Abbreviation demo_schema := (λ _ : list (jstr * unit), empty_schema).
Definition demo_names : list jstr := [js "core.ping"; js "core.ui.state"].
Definition demo_empty_view : GatewayRegistryView unit := {| vw_records := []; vw_byName := []; vw_index := []; vw_indexBytes := [] |}.

Definition demo_registry : GatewayToolRegistry unit := Eval vm_compute in
  match newToolRegistry demo_schema 10 RegistryFacts.demo_tools with
  | Ok g => g | Throw _ => {| rg_records := []; rg_byName := []; rg_fullView := demo_empty_view |} end.

Definition demo_view : GatewayRegistryView unit := Eval vm_compute in
  match registry_view demo_registry demo_names with Ok v => v | Throw _ => demo_empty_view end.

Definition demo_new : ModeADiscoverySession unit := Eval vm_compute in
  match newDiscoverySession id demo_view [] (JInt 200) with
  | Ok s => s
  | Throw _ => {| ds_view := demo_empty_view; ds_corpora := []; ds_visibleNames := []; ds_pinnedNames := []; ds_schemaBudgetBytes := 0;
                  ds_active := []; ds_clock := 0 |} end.

Definition after_activate (s : ModeADiscoverySession unit) (names : list jstr) : ModeADiscoverySession unit :=
  match activate s names with Ok (s', _) => s' | Throw _ => s end.

Definition demo_first : ModeADiscoverySession unit := Eval vm_compute in after_activate demo_new [js "core.ping"].
Definition demo_second : ModeADiscoverySession unit := Eval vm_compute in after_activate demo_first [js "core.ui.state"].

Lemma demo_registry_ok : newToolRegistry demo_schema 10 RegistryFacts.demo_tools = Ok demo_registry.
Proof. vm_compute. reflexivity. Qed.
Lemma demo_view_ok : registry_view demo_registry demo_names = Ok demo_view.
Proof. vm_compute. reflexivity. Qed.

Lemma demo_new_reach : session_reach id demo_view [] (JInt 200) demo_new.
Proof. apply reach_new. vm_compute. reflexivity. Qed.

Lemma demo_first_reach : session_reach id demo_view [] (JInt 200) demo_first.
Proof.
  destruct (activate demo_new [js "core.ping"]) as [[s' res]|e] eqn:E; [|exfalso; revert E; vm_compute; discriminate].
  apply (reach_activate id demo_view [] (JInt 200) demo_new [js "core.ping"] _ res); [exact demo_new_reach|].
  rewrite E. do 2 f_equal. revert E. vm_compute. by intros [= <- _].
Qed.

Lemma schema_budget_kept_witness : activeSchemaBytes demo_first = 119 ∧ isCallable demo_first (js "core.ui.state") = false ∧
  activeSchemaBytes demo_first <= 200.
Proof.
  split; [vm_compute; reflexivity|]. split; [vm_compute; reflexivity|].
  apply (schema_budget_kept id demo_schema 10 RegistryFacts.demo_tools demo_registry demo_names [] demo_view (JInt 200)
           demo_registry_ok demo_view_ok demo_first demo_first_reach).
Defined.

Lemma activation_exact_witness :
  isCallable demo_second (js "core.ui.state") = true ∧ isCallable demo_second (js "core.ping") = false.
Proof.
  destruct (activation_exact id demo_schema 10 RegistryFacts.demo_tools demo_registry demo_names [] demo_view (JInt 200)
              demo_registry_ok demo_view_ok demo_first [js "core.ui.state"] demo_first_reach) as [_ Hact].
  destruct (activate demo_first [js "core.ui.state"]) as [[s' res]|e] eqn:E; [|exfalso; revert E; vm_compute; discriminate].
  destruct (Hact s' res eq_refl) as [_ Hall].
  assert (s' = demo_second) as -> by (revert E; vm_compute; by intros [= <- _]).
  split; [apply Hall; by apply list_elem_of_singleton|vm_compute; reflexivity].
Defined.

Lemma callable_change_reported_witness :
  ∃ s' res, activate demo_first [js "core.ui.state"] = Ok (s', res) ∧ ar_evictedNames res = [js "core.ping"] ∧
    callableNames s' ≠ callableNames demo_first.
Proof.
  destruct (activate demo_first [js "core.ui.state"]) as [[s' res]|e] eqn:E; [|exfalso; revert E; vm_compute; discriminate].
  exists s', res. split; [done|]. split; [revert E; vm_compute; by intros [= _ <-]|].
  apply (callable_change_reported id demo_schema 10 RegistryFacts.demo_tools demo_registry demo_names [] demo_view (JInt 200)
           demo_registry_ok demo_view_ok demo_first [js "core.ui.state"] s' res demo_first_reach E).
  revert E. vm_compute. by intros [= _ <-].
Defined.

Lemma search_ranked_witness :
  ∃ hits, search id demo_new (js "core ui") (JInt 20) = Ok hits ∧ map sr_name hits = [js "core.ui.state"] ∧
    StronglySorted (λ a b, rank_leb a b = true) hits.
Proof.
  destruct (search id demo_new (js "core ui") (JInt 20)) as [hits|e] eqn:E; [|exfalso; revert E; vm_compute; discriminate].
  exists hits. split; [done|]. split; [revert E; vm_compute; by intros [= <-]|].
  apply (search_ranked id demo_schema 10 RegistryFacts.demo_tools demo_registry demo_names [] demo_view (JInt 200)
           demo_registry_ok demo_view_ok demo_new (js "core ui") (JInt 20) hits demo_new_reach E).
Defined.
End witness.
End DiscoveryFacts.
