(* ===== verification/Serving.v ===== *)
(** The owner of the stores a gateway serves from: packages/gateway/src/gatewayServingOwnership.ts.

    The raw protocol store is the one of [ProtocolStore]; its startup coordinator hands
    out the lease.  An [async] method is cut at its [await]s: every part is one
    function, which returns [None] while the promise it waits for is pending.  The raw
    coordinator's callers are numbered as in [Startup]; the promise a call waits for
    before it gives the lease back has the number of the call. *)

From stdpp Require Import relations.
From S2P Require Import Prelude JsString JsValue JsMap Canonical Sha256 ProtocolStore.

Module Serving.
Import Canonical ProtocolStore.

Inductive GatewayServingProfileKind :=
| production_private | preproduction_private | production_conformance | bundled_test | refuse_dispatch.

#[export] Instance GatewayServingProfileKind_eq_dec : EqDecision GatewayServingProfileKind.
Proof. solve_decision. Defined.

Inductive ServingState := unowned | acquiring | startup_exclusive | owned_running | draining | lost | released.

#[export] Instance ServingState_eq_dec : EqDecision ServingState.
Proof. solve_decision. Defined.

(** Where [#performOpen] waits: for the raw store, or for the lease of its call. *)
Inductive OpenTask := opening_store | racing (call : Z) (acquired : option (Z * Z)).

(** Where [#performClose] waits: for the drain (settled or not), for an owner task, for
    the raw store; or it has returned. *)
Inductive CloseTask := draining_io (settled : bool) | awaiting_owner (call : option Z) | closing_store | close_returned.

(** The owner.  [sv_calls] are the calls of the coordinator that are its own and
    [sv_released] those of them whose promise is resolved. *)
Record GatewayServingOwnership := {
  sv_profileKind : GatewayServingProfileKind; sv_backend : bool; sv_startup : Startup; sv_rawOpened : bool;
  sv_lease : option (Z * Z); sv_state : ServingState; sv_openTask : option OpenTask; sv_closeTask : option CloseTask;
  sv_ownerTask : option Z; sv_releaseOwner : option Z; sv_calls : list Z; sv_released : list Z; sv_activeIo : Z }.

Definition newServingOwnership (startup : Startup) (profile : GatewayServingProfileKind) (backend : bool) : GatewayServingOwnership := {|
  sv_profileKind := profile; sv_backend := backend; sv_startup := startup; sv_rawOpened := false; sv_lease := None;
  sv_state := unowned; sv_openTask := None; sv_closeTask := None; sv_ownerTask := None; sv_releaseOwner := None;
  sv_calls := []; sv_released := []; sv_activeIo := 0 |}.

(** Updates of one field. *)
Definition set_state (s : GatewayServingOwnership) (state : ServingState) : GatewayServingOwnership := {|
  sv_profileKind := sv_profileKind s; sv_backend := sv_backend s; sv_startup := sv_startup s; sv_rawOpened := sv_rawOpened s;
  sv_lease := sv_lease s; sv_state := state; sv_openTask := sv_openTask s; sv_closeTask := sv_closeTask s;
  sv_ownerTask := sv_ownerTask s; sv_releaseOwner := sv_releaseOwner s; sv_calls := sv_calls s; sv_released := sv_released s; sv_activeIo := sv_activeIo s |}.

Definition set_tasks (s : GatewayServingOwnership) (o : option OpenTask) (c : option CloseTask) : GatewayServingOwnership := {|
  sv_profileKind := sv_profileKind s; sv_backend := sv_backend s; sv_startup := sv_startup s; sv_rawOpened := sv_rawOpened s;
  sv_lease := sv_lease s; sv_state := sv_state s; sv_openTask := o; sv_closeTask := c;
  sv_ownerTask := sv_ownerTask s; sv_releaseOwner := sv_releaseOwner s; sv_calls := sv_calls s; sv_released := sv_released s; sv_activeIo := sv_activeIo s |}.

Definition set_startup (s : GatewayServingOwnership) (startup : Startup) : GatewayServingOwnership := {|
  sv_profileKind := sv_profileKind s; sv_backend := sv_backend s; sv_startup := startup; sv_rawOpened := sv_rawOpened s;
  sv_lease := sv_lease s; sv_state := sv_state s; sv_openTask := sv_openTask s; sv_closeTask := sv_closeTask s;
  sv_ownerTask := sv_ownerTask s; sv_releaseOwner := sv_releaseOwner s; sv_calls := sv_calls s; sv_released := sv_released s; sv_activeIo := sv_activeIo s |}.

Definition set_raw (s : GatewayServingOwnership) (rawOpened : bool) (lease : option (Z * Z)) : GatewayServingOwnership := {|
  sv_profileKind := sv_profileKind s; sv_backend := sv_backend s; sv_startup := sv_startup s; sv_rawOpened := rawOpened;
  sv_lease := lease; sv_state := sv_state s; sv_openTask := sv_openTask s; sv_closeTask := sv_closeTask s;
  sv_ownerTask := sv_ownerTask s; sv_releaseOwner := sv_releaseOwner s; sv_calls := sv_calls s; sv_released := sv_released s; sv_activeIo := sv_activeIo s |}.

Definition set_owner (s : GatewayServingOwnership) (owner release : option Z) (released : list Z) (activeIo : Z) : GatewayServingOwnership := {|
  sv_profileKind := sv_profileKind s; sv_backend := sv_backend s; sv_startup := sv_startup s; sv_rawOpened := sv_rawOpened s;
  sv_lease := sv_lease s; sv_state := sv_state s; sv_openTask := sv_openTask s; sv_closeTask := sv_closeTask s;
  sv_ownerTask := owner; sv_releaseOwner := release; sv_calls := sv_calls s; sv_released := released; sv_activeIo := activeIo |}.

Definition set_calls (s : GatewayServingOwnership) (calls : list Z) : GatewayServingOwnership := {|
  sv_profileKind := sv_profileKind s; sv_backend := sv_backend s; sv_startup := sv_startup s; sv_rawOpened := sv_rawOpened s;
  sv_lease := sv_lease s; sv_state := sv_state s; sv_openTask := sv_openTask s; sv_closeTask := sv_closeTask s;
  sv_ownerTask := sv_ownerTask s; sv_releaseOwner := sv_releaseOwner s; sv_calls := calls; sv_released := sv_released s; sv_activeIo := sv_activeIo s |}.

(** ** The lease *)

Definition serving (state : ServingState) : bool := (state === startup_exclusive) || (state === owned_running).

Definition currentLease (s : GatewayServingOwnership) : option (Z * Z) :=
  match sv_lease s with
  | None => None
  | Some lease => if negb (isCurrent (sv_startup s) lease) || negb (serving (sv_state s)) then None else Some lease
  end.

Definition ownerEpoch (s : GatewayServingOwnership) : Z := match sv_lease s with Some lease => lease.2 | None => 0 end.

(** ** Opening *)

(** [open()] and [#performOpen] up to the raw store. *)
Definition open_call (s : GatewayServingOwnership) : GatewayServingOwnership :=
  if serving (sv_state s) then s else
  if negb (is_null (sv_openTask s)) then s else
  let closeTask := if sv_state s === released then None else sv_closeTask s in
  if (sv_profileKind s !== refuse_dispatch) && negb (sv_backend s)
  then set_state (set_tasks s None closeTask) lost
  else set_raw (set_state (set_tasks s (Some opening_store) closeTask) acquiring) true (sv_lease s).

(** The raw store has answered: [#performOpen] calls [runExclusive]. *)
Definition open_stored (s : GatewayServingOwnership) (ok : bool) : option GatewayServingOwnership :=
  match sv_openTask s with
  | Some opening_store =>
      if negb ok then Some (set_state (set_tasks s None (sv_closeTask s)) released) else
      let startup := run_enter (sv_startup s) in
      let call := su_tail startup in
      Some (set_owner (set_tasks (set_startup (set_calls s (call :: sv_calls s)) startup) (Some (racing call None)) (sv_closeTask s))
              (Some call) (Some call) (sv_released s) (sv_activeIo s))
  | _ => None
  end.

(** The coordinator gives the lease to a call of ours: the callback runs to its [await]. *)
Definition owner_acquire (s : GatewayServingOwnership) (call : Z) : option GatewayServingOwnership :=
  match run_resume (sv_startup s) (call, call - 1) with
  | None => None
  | Some startup =>
      let lease := (call, su_epoch startup) in
      let openTask := match sv_openTask s with
                      | Some (racing n None) => if n =? call then Some (racing n (Some lease)) else sv_openTask s
                      | o => o
                      end in
      Some (set_raw (set_state (set_tasks (set_startup s startup) openTask (sv_closeTask s)) startup_exclusive) (sv_rawOpened s) (Some lease))
  end.

(** The race is won by the lease. *)
Definition open_finish (s : GatewayServingOwnership) : option GatewayServingOwnership :=
  match sv_openTask s with
  | Some (racing _ (Some lease)) =>
      Some (set_state (set_tasks s None (sv_closeTask s)) (if isCurrent (sv_startup s) lease then owned_running else lost))
  | _ => None
  end.

(** The callback returns once its promise is resolved; the coordinator takes the lease back. *)
Definition owner_leave (s : GatewayServingOwnership) (lease : Z * Z) : option GatewayServingOwnership :=
  if bool_decide (lease.1 ∈ sv_released s)
  then startup ← run_leave (sv_startup s) lease; Some (set_startup s startup)
  else None.

(** ** Closing *)

(** [close()] and [#performClose] up to the drain. *)
Definition close_call (s : GatewayServingOwnership) : GatewayServingOwnership :=
  match sv_closeTask s with
  | Some _ => s
  | None =>
      if (sv_state s === released) || (sv_state s === unowned) then set_tasks s (sv_openTask s) (Some close_returned) else
      set_tasks (set_state s (if is_null (currentLease s) then lost else draining))
        (sv_openTask s) (Some (draining_io (sv_activeIo s =? 0)))
  end.

(** [this.#releaseOwner?.()] and the wait for the owner. *)
Definition close_release (s : GatewayServingOwnership) : option GatewayServingOwnership :=
  match sv_closeTask s with
  | Some (draining_io true) =>
      let released := match sv_releaseOwner s with Some call => call :: sv_released s | None => sv_released s end in
      Some (set_tasks (set_owner s (sv_ownerTask s) (sv_releaseOwner s) released (sv_activeIo s)) (sv_openTask s)
              (Some (awaiting_owner (sv_ownerTask s))))
  | _ => None
  end.

(** The owner task has settled: the lease is forgotten and the raw store closed. *)
Definition close_owner (s : GatewayServingOwnership) : option GatewayServingOwnership :=
  match sv_closeTask s with
  | Some (awaiting_owner call) =>
      if match call with Some n => bool_decide (n ∈ su_resolved (sv_startup s)) | None => true end
      then Some (set_tasks (set_raw s false None) (sv_openTask s) (Some closing_store))
      else None
  | _ => None
  end.

Definition close_finish (s : GatewayServingOwnership) : option GatewayServingOwnership :=
  match sv_closeTask s with
  | Some closing_store => Some (set_tasks (set_state s released) (sv_openTask s) (Some close_returned))
  | _ => None
  end.

(** ** Input and output *)

(** [#withIo] and [#withObjectIo] up to the backend: both tests of the lease run
    without a pause between them. *)
Definition io_begin (s : GatewayServingOwnership) : option GatewayServingOwnership :=
  if is_null (currentLease s) then None
  else Some (set_owner s (sv_ownerTask s) (sv_releaseOwner s) (sv_released s) (sv_activeIo s + 1)).

(** The [finally]: the last operation settles the drain. *)
Definition io_end (s : GatewayServingOwnership) : GatewayServingOwnership :=
  let s := set_owner s (sv_ownerTask s) (sv_releaseOwner s) (sv_released s) (sv_activeIo s - 1) in
  if sv_activeIo s =? 0 then
    match sv_closeTask s with Some (draining_io _) => set_tasks s (sv_openTask s) (Some (draining_io true)) | _ => s end
  else s.

(** ** The coordinator it lends out *)

Definition storeFailure {T} (message : string) : StoreOutcome T := store_refused unavailable (js message).

(** [runExclusive] on the owner's lease; [s'] is the owner when the work has returned. *)
Definition lent_runExclusive {T} (s s' : GatewayServingOwnership) (work : StoreOutcome T) : StoreOutcome T :=
  match currentLease s with
  | None => storeFailure "Gateway serving owner is unavailable"
  | Some lease =>
      if isCurrent (sv_startup s') lease then work else storeFailure "Gateway serving owner was lost during startup work"
  end.

(** ** Durability *)

Definition GATEWAY_PRIVATE_OBJECT_MAX_BYTES : Z := 48 * 1024 * 1024.

Record SessionDurabilityProfileV1 := {
  dp_private : bool; dp_maxParamsBytes : Z; dp_maxOutboundWireBytes : Z; dp_maxResultBytes : Z; dp_maxPartialBytes : Z;
  dp_inlineSlotBytes : Z; dp_privateObjectDomainDigest : option jstr; dp_privateObjectMaxBytes : option Z;
  dp_resourceCarrierReady : bool }.

Definition REFUSE_DISPATCH_DURABILITY_PROFILE : SessionDurabilityProfileV1 := {|
  dp_private := false; dp_maxParamsBytes := 1; dp_maxOutboundWireBytes := 0; dp_maxResultBytes := 1; dp_maxPartialBytes := 1;
  dp_inlineSlotBytes := 65536; dp_privateObjectDomainDigest := None; dp_privateObjectMaxBytes := None;
  dp_resourceCarrierReady := false |}.

Definition durabilityProfile (s : GatewayServingOwnership) (domainDigest : jstr) : SessionDurabilityProfileV1 :=
  let privateReady := (sv_profileKind s !== refuse_dispatch) && sv_backend s && negb (is_null (currentLease s)) in
  if negb privateReady then REFUSE_DISPATCH_DURABILITY_PROFILE else {|
    dp_private := true; dp_maxParamsBytes := 4 * 1024 * 1024; dp_maxOutboundWireBytes := GATEWAY_PRIVATE_OBJECT_MAX_BYTES;
    dp_maxResultBytes := 32 * 1024 * 1024;
    dp_maxPartialBytes := match sv_profileKind s with
                          | production_conformance => 1024 * 1024
                          | preproduction_private => 1
                          | _ => 64 * 1024
                          end;
    dp_inlineSlotBytes := 65536; dp_privateObjectDomainDigest := Some domainDigest;
    dp_privateObjectMaxBytes := Some GATEWAY_PRIVATE_OBJECT_MAX_BYTES;
    dp_resourceCarrierReady := sv_profileKind s === production_conformance |}.

(** ** Private objects *)

Inductive GatewayPrivateObjectPurpose := pending_envelope | outbound_envelope | terminal_payload | migration_source_snapshot.

Record GatewayPrivateObjectBinding := {
  ob_tenantId : jstr; ob_rsid : jstr; ob_purpose : GatewayPrivateObjectPurpose; ob_storageKey : jstr; ob_byteLength : Z;
  ob_digest : jstr; ob_contentType : jstr }.

(** A ticket is an object: the set of tickets holds its address. *)
Record GatewayPrivateObjectIntentTicket := {
  ti_object : Z; ti_binding : GatewayPrivateObjectBinding; ti_intentNamespace : jstr; ti_intentKey : jstr; ti_intentVersion : Z }.

(** [GatewayPortResult] of the object store; a refusal carries its message. *)
Inductive PortResult (T : Type) := port_ok (value : T) | port_refused (message : jstr).
Arguments port_ok {T} value.
Arguments port_refused {T} message.

Definition objectFailure {T} (message : string) : PortResult T := port_refused (js message).

Section objects.
Context `{Hasher}.

(** The raw backend; what it answers is up to it. *)
Context (putOwned : GatewayPrivateObjectBinding → list Z → PortResult jstr).
Context (getOwnedOptional : GatewayPrivateObjectBinding → PortResult (option (list Z * jstr))).
Context (deleteOwned : GatewayPrivateObjectBinding → PortResult bool).

Definition digestBytes (bytes : list Z) : jstr := js "sha256:" ++ sha256_hex bytes.

(** A new ticket at a new address, and the set with it. *)
Definition mintPrivateObjectIntent (s : GatewayServingOwnership) (tickets : list Z) (address : Z)
    (input : GatewayPrivateObjectIntentTicket) : result js_error (list Z * GatewayPrivateObjectIntentTicket) :=
  let binding := ti_binding input in
  throw_if (is_null (currentLease s) || (ob_byteLength binding <? 0) || (GATEWAY_PRIVATE_OBJECT_MAX_BYTES <? ob_byteLength binding) ||
            (ti_intentVersion input <? 1) || negb (sha256_pattern (ob_digest binding)))
    (JsError PlainError (js "private object intent is unavailable")) ;;
  Ok (address :: tickets, {| ti_object := address; ti_binding := binding; ti_intentNamespace := ti_intentNamespace input;
                             ti_intentKey := ti_intentKey input; ti_intentVersion := ti_intentVersion input |}).

Definition validTicket (tickets : list Z) (ticket : GatewayPrivateObjectIntentTicket) : bool :=
  bool_decide (ti_object ticket ∈ tickets) && (ob_byteLength (ti_binding ticket) <=? GATEWAY_PRIVATE_OBJECT_MAX_BYTES).

(** [#withObjectIo] around a backend call. *)
Definition withObjectIo {T} (s : GatewayServingOwnership) (work : PortResult T) : PortResult T :=
  match io_begin s with None => objectFailure "Gateway serving owner is unavailable" | Some _ => work end.

Definition object_put (s : GatewayServingOwnership) (tickets : list Z) (ticket : GatewayPrivateObjectIntentTicket) (bytes : list Z)
  : PortResult jstr :=
  let length := Z.of_nat (length bytes) in
  if negb (validTicket tickets ticket) || (GATEWAY_PRIVATE_OBJECT_MAX_BYTES <? length) ||
     (length !== ob_byteLength (ti_binding ticket)) || (digestBytes bytes !== ob_digest (ti_binding ticket))
  then objectFailure "private object intent or bytes are invalid"
  else withObjectIo s (putOwned (ti_binding ticket) bytes).

(** The bytes and content type of a readback against the binding. *)
Definition readback_differs (binding : GatewayPrivateObjectBinding) (object : list Z * jstr) : bool :=
  (Z.of_nat (length object.1) !== ob_byteLength binding) || (object.2 !== ob_contentType binding) ||
  (digestBytes object.1 !== ob_digest binding).

Definition object_get (s : GatewayServingOwnership) (binding : GatewayPrivateObjectBinding) : PortResult (list Z * jstr) :=
  match withObjectIo s (getOwnedOptional binding) with
  | port_refused message => port_refused message
  | port_ok None => objectFailure "private object is unavailable"
  | port_ok (Some object) =>
      if readback_differs binding object then objectFailure "private object readback does not match its durable descriptor"
      else port_ok object
  end.

Definition object_getOptional (s : GatewayServingOwnership) (binding : GatewayPrivateObjectBinding) : PortResult (option (list Z * jstr)) :=
  match withObjectIo s (getOwnedOptional binding) with
  | port_ok (Some object) =>
      if readback_differs binding object then objectFailure "private object readback does not match its durable descriptor"
      else port_ok (Some object)
  | result => result
  end.

(** The answer says whether the object was there. *)
Definition object_delete (s : GatewayServingOwnership) (tickets : list Z) (ticket : GatewayPrivateObjectIntentTicket) : PortResult bool :=
  if validTicket tickets ticket then withObjectIo s (deleteOwned (ti_binding ticket))
  else objectFailure "private object deletion intent is invalid".

(** The limit of an inventory is checked before the backend is asked. *)
Definition object_scanOwned (scanOwned : PortResult (list GatewayPrivateObjectBinding)) (s : GatewayServingOwnership) (limit : jsnum)
  : PortResult (list GatewayPrivateObjectBinding) :=
  if negb (isSafeInteger limit) || (num_Z limit <? 1) || (64 <? num_Z limit)
  then objectFailure "private object inventory limit is invalid"
  else withObjectIo s scanOwned.

End objects.

End Serving.

(** * Facts *)

Module ServingFacts.
Import ProtocolStore ProtocolStoreFacts Serving.
Implicit Types (s : GatewayServingOwnership) (st : Startup) (l : Z * Z).

(** ** The coordinator *)

Lemma current_single st l : startup_inv st → isCurrent st l = true → su_leases st = [l].
Proof.
  intros (m & _ & _ & Hq). unfold isCurrent. rewrite bool_decide_eq_true.
  destruct Hq as [[-> _]|(_ & -> & _)]; [by intros ?%not_elem_of_nil|by intros ->%list_elem_of_singleton].
Qed.

(** A waiting call goes on only when nobody holds the lease. *)
Lemma resume_spec st c st' : startup_inv st → run_resume st c = Some st' →
  su_leases st = [] ∧ su_leases st' = [(c.1, su_epoch st')] ∧ su_resolved st' = su_resolved st ∧ su_tail st' = su_tail st ∧
  ∀ c', c' ≠ c → c' ∈ su_waiting st → c' ∈ su_waiting st'.
Proof.
  intros (m & Hr & Hm & Hq) E. unfold run_resume in E. destruct (_ && _) eqn:Ec; [|done]. injection E as <-.
  apply andb_true_iff in Ec as [Hw%bool_decide_eq_true Hp%bool_decide_eq_true]. apply Hr in Hp. cbn.
  destruct Hq as [[El _]|(Hlt & _ & Eq)].
  - rewrite El. split_and!; try done. intros c' Hne Hc'. apply elem_of_filter_bool. split; [done|].
    by apply negb_true_iff, bool_decide_eq_false.
  - rewrite Eq in Hw. apply queue_elem in Hw as [Hc1 Hc2]. lia.
Qed.

Lemma leave_spec st l st' : startup_inv st → run_leave st l = Some st' →
  su_leases st = [l] ∧ su_leases st' = [] ∧ su_resolved st' = l.1 :: su_resolved st ∧ su_tail st' = su_tail st ∧ su_waiting st' = su_waiting st.
Proof.
  intros Hi E. unfold run_leave in E. destruct (bool_decide (l ∈ su_leases st)) eqn:Ec; [|done]. injection E as <-. cbn.
  pose proof (current_single st l Hi Ec) as ->. by rewrite filter_leases.
Qed.

Lemma waiting_bounds st c : startup_inv st → c ∈ su_waiting st → c.1 <= su_tail st ∧ c.1 ∉ su_resolved st.
Proof.
  intros (m & Hr & Hm & Hq) Hc. rewrite Hr. destruct Hq as [[_ Eq]|(_ & _ & Eq)]; rewrite Eq in Hc; apply queue_elem in Hc; lia.
Qed.

Lemma lease_bounds st l : startup_inv st → isCurrent st l = true → l.1 <= su_tail st ∧ l.1 ∉ su_resolved st ∧ (∀ c, c ∈ su_waiting st → l.1 < c.1).
Proof.
  intros Hi Hc. pose proof (current_single st l Hi Hc) as El. destruct Hi as (m & Hr & Hm & Hq). rewrite Hr.
  destruct Hq as [[El' _]|(Hlt & El' & Eq)]; rewrite El in El'; [done|]. injection El' as ->. cbn. split_and!; try lia.
  intros c Hw. rewrite Eq in Hw. apply queue_elem in Hw. lia.
Qed.

(** ** The gateway among other callers of its coordinator *)

Definition close_idle s : Prop := sv_closeTask s = None ∨ sv_closeTask s = Some close_returned.

(** What a step does that the order of [open] and [close] depends on. *)
Inductive serving_event := opens | closes | goes_on.

(** The steps of a gateway and of the other callers of its coordinator, who come and
    go.  Anyone may call [open] and [close] at any time. *)
Inductive serving_step : serving_event → GatewayServingOwnership → GatewayServingOwnership → Prop :=
| step_open s : serving_step opens s (open_call s)
| step_open_stored s ok s' : open_stored s ok = Some s' → serving_step goes_on s s'
| step_acquire s n s' : sv_openTask s = Some (racing n None) → owner_acquire s n = Some s' → serving_step goes_on s s'
| step_open_finish s s' : open_finish s = Some s' → serving_step goes_on s s'
| step_leave s l s' : l.1 ∈ sv_calls s → owner_leave s l = Some s' → serving_step goes_on s s'
| step_close s : serving_step closes s (close_call s)
| step_close_release s s' : close_release s = Some s' → serving_step goes_on s s'
| step_close_owner s s' : close_owner s = Some s' → serving_step goes_on s s'
| step_close_finish s s' : close_finish s = Some s' → serving_step goes_on s s'
| step_io_begin s s' : io_begin s = Some s' → serving_step goes_on s s'
| step_io_end s : 0 < sv_activeIo s → serving_step goes_on s (io_end s)
| step_other_enter s : serving_step goes_on s (set_startup s (run_enter (sv_startup s)))
| step_other_resume s c st : c.1 ∉ sv_calls s → run_resume (sv_startup s) c = Some st → serving_step goes_on s (set_startup s st)
| step_other_leave s l st : l.1 ∉ sv_calls s → run_leave (sv_startup s) l = Some st → serving_step goes_on s (set_startup s st).

(** [open] is called while no [close] is under way, and the other way round. *)
Definition in_turn (e : serving_event) s : Prop :=
  match e with opens => close_idle s | closes => sv_openTask s = None | goes_on => True end.

Definition any_step s s' : Prop := ∃ e, serving_step e s s'.

(** The steps of the histories in which the calls of [open] and [close] do not overlap. *)
Definition orderly_step s s' : Prop := ∃ e, serving_step e s s' ∧ in_turn e s.

Lemma orderly s s' : serving_step goes_on s s' → orderly_step s s'.
Proof. by exists goes_on. Qed.

(** Where the call that owns the lease stands. *)
Definition owner_settled s (n : Z) : Prop :=
  n ∈ su_resolved (sv_startup s) ∨ (∃ l, sv_lease s = Some l ∧ l.1 = n ∧ isCurrent (sv_startup s) l = true).

Definition holds_lease s : Prop :=
  ∃ l, sv_lease s = Some l ∧ isCurrent (sv_startup s) l = true ∧ l.1 ∉ sv_released s.

Definition open_inv s : Prop :=
  match sv_openTask s with
  | None => sv_state s ≠ startup_exclusive ∧ sv_state s ≠ acquiring ∧ ∀ n, sv_ownerTask s = Some n → owner_settled s n
  | Some o => close_idle s ∧
      match o with
      | opening_store => sv_state s = acquiring ∧ ∀ n, sv_ownerTask s = Some n → owner_settled s n
      | racing n None => sv_state s = acquiring ∧ sv_ownerTask s = Some n ∧ n ∉ sv_released s ∧ (n, n - 1) ∈ su_waiting (sv_startup s)
      | racing n (Some l) => sv_state s = startup_exclusive ∧ sv_lease s = Some l
      end
  end.

Definition winding_down (state : ServingState) : Prop := state = draining ∨ state = lost.

Definition close_inv s : Prop :=
  match sv_closeTask s with
  | None | Some close_returned => serving (sv_state s) = true ∨ sv_lease s = None ∧ sv_activeIo s = 0
  | Some (draining_io settled) => winding_down (sv_state s) ∧ (settled = true ↔ sv_activeIo s = 0)
  | Some (awaiting_owner c) => winding_down (sv_state s) ∧ sv_activeIo s = 0 ∧ c = sv_ownerTask s ∧ ∀ n, c = Some n → n ∈ sv_released s
  | Some closing_store => winding_down (sv_state s) ∧ sv_activeIo s = 0 ∧ sv_lease s = None
  end.

Record serving_inv s : Prop := {
  vi_startup : startup_inv (sv_startup s);
  vi_release : sv_releaseOwner s = sv_ownerTask s;
  vi_released : ∀ n, n ∈ sv_released s → n <= su_tail (sv_startup s) ∧ ∀ m, sv_ownerTask s = Some m → n <= m;
  vi_calls : (∀ n, sv_ownerTask s = Some n → n ∈ sv_calls s) ∧
    ∀ n, n ∈ sv_released s → n ∈ su_resolved (sv_startup s) ∨ sv_ownerTask s = Some n;
  vi_lease : ∀ l, sv_lease s = Some l → sv_ownerTask s = Some l.1;
  vi_io : 0 <= sv_activeIo s;
  vi_held : serving (sv_state s) = true ∨ 0 < sv_activeIo s → holds_lease s;
  vi_open : open_inv s;
  vi_close : close_inv s }.

Lemma new_serving_inv st profile backend : startup_inv st → serving_inv (newServingOwnership st profile backend).
Proof.
  intros Hi. split; cbn; try done.
  - by intros n ?%not_elem_of_nil.
  - split; [done|]. by intros n ?%not_elem_of_nil.
  - intros [?|?]; [done|lia].
  - by right.
Qed.

(** ** The invariant *)

(** See the fields of an updated owner. *)
Ltac sv_cbn :=
  cbn [set_state set_tasks set_startup set_raw set_owner set_calls sv_profileKind sv_backend sv_startup sv_rawOpened sv_lease sv_state sv_openTask
       sv_closeTask sv_ownerTask sv_releaseOwner sv_calls sv_released sv_activeIo] in *.

Lemma winding_not_serving state : winding_down state → serving state = false.
Proof. by intros [->| ->]. Qed.

Lemma idle_close s : close_idle s → close_inv s → serving (sv_state s) = false → sv_lease s = None ∧ sv_activeIo s = 0.
Proof. unfold close_inv. intros [->| ->] [?|?] ?; congruence || done. Qed.

Lemma close_inv_idle s : close_idle s → serving (sv_state s) = true ∨ sv_lease s = None ∧ sv_activeIo s = 0 → close_inv s.
Proof. unfold close_inv. by intros [->| ->]. Qed.

Lemma serving_exclusive state : serving state = true ↔ state = startup_exclusive ∨ state = owned_running.
Proof. unfold serving. by rewrite orb_true_iff, !bool_decide_eq_true. Qed.

Lemma open_call_inv s : close_idle s → serving_inv s → serving_inv (open_call s).
Proof.
  intros Hidle Hinv. unfold open_call. destruct (serving (sv_state s)) eqn:Hs; [done|].
  destruct (sv_openTask s) eqn:Ho; [done|]. cbn [negb is_null].
  pose proof Hinv as [Hst Hre Hrd Hca Hl Hio Hh Hop Hcl]. destruct (idle_close s Hidle Hcl Hs) as [El Ea].
  unfold open_inv in Hop. rewrite Ho in Hop. destruct Hop as (_ & _ & Hset).
  assert (∀ x, close_idle (set_tasks s x (if bool_decide (sv_state s = released) then None else sv_closeTask s))) as Hid.
  { intros x. unfold close_idle. sv_cbn. destruct (bool_decide _); [by left|exact Hidle]. }
  destruct (_ && _); (split; sv_cbn; [done..| | |]).
  - intros [?|?]; [done|lia].
  - unfold open_inv. sv_cbn. done.
  - apply close_inv_idle; [exact (Hid None)|by right].
  - intros [?|?]; [done|lia].
  - unfold open_inv. sv_cbn. split; [exact (Hid (Some opening_store))|done].
  - apply close_inv_idle; [exact (Hid (Some opening_store))|by right].
Qed.

Lemma open_stored_inv s ok s' : open_stored s ok = Some s' → serving_inv s → serving_inv s'.
Proof.
  intros E Hinv. unfold open_stored in E. destruct (sv_openTask s) as [[|]|] eqn:Ho; try done.
  pose proof Hinv as [Hst Hre Hrd Hca Hl Hio Hh Hop Hcl]. unfold open_inv in Hop. rewrite Ho in Hop. destruct Hop as (Hidle & Es & Hset).
  destruct (idle_close s Hidle Hcl) as [El Ea]; [by rewrite Es|].
  destruct ok; injection E as <-; (split; sv_cbn; [try done..| | |]).
  - eapply startup_step_inv; [done|constructor].
  - intros n Hn. destruct (Hrd n Hn) as [Ht _]. cbn. split; [lia|]. intros m [= <-]. lia.
  - destruct Hca as [Hc1 Hc2]. split; [intros m [= <-]; by left|]. intros n Hn. left. cbn. destruct (Hc2 n Hn) as [?|En]; [done|].
    destruct (Hset n En) as [?|(l & Ll & _)]; [done|congruence].
  - intros l E. by rewrite El in E.
  - intros [?|?]; [by rewrite Es in *|lia].
  - unfold open_inv. sv_cbn. split; [exact Hidle|]. split; [done|]. split; [done|]. cbn. split.
    + intros Hn. destruct (Hrd _ Hn) as [Ht _]. lia.
    + apply elem_of_app. right. apply list_elem_of_singleton. f_equal; lia.
  - apply close_inv_idle; [exact Hidle|by right].
  - intros [?|?]; [done|lia].
  - unfold open_inv. sv_cbn. done.
  - apply close_inv_idle; [exact Hidle|by right].
Qed.

Lemma acquire_inv s n a s' : sv_openTask s = Some (racing n a) → owner_acquire s n = Some s' → serving_inv s → serving_inv s'.
Proof.
  intros Ho E Hinv. pose proof Hinv as [Hst Hre Hrd Hca Hl Hio Hh Hop Hcl]. unfold open_inv in Hop. rewrite Ho in Hop.
  unfold owner_acquire in E. destruct (run_resume (sv_startup s) (n, n - 1)) as [st|] eqn:Er; [|done]. injection E as <-.
  destruct (resume_spec _ _ _ Hst Er) as (El & El' & Err & Et & Hw). destruct Hop as (Hidle & Hop). destruct a as [l|].
  { destruct Hop as [Es Ls]. destruct Hh as (l' & Ll & Hc & _); [left; by rewrite Es|]. apply (current_single _ _ Hst) in Hc. congruence. }
  destruct Hop as (Es & Eo & Hn & Hwn). rewrite Ho, Z.eqb_refl. destruct (idle_close s Hidle Hcl) as [Els Ea]; [by rewrite Es|].
  assert (isCurrent st (n, su_epoch st) = true) as Hc by (unfold isCurrent; rewrite El'; apply bool_decide_eq_true; by left).
  split; sv_cbn; try done.
  - eapply startup_step_inv; [exact Hst|by econstructor].
  - intros k Hk. rewrite Et. by apply Hrd.
  - by rewrite Err.
  - by intros l [= <-].
  - intros _. eexists. sv_cbn. done.
  - apply close_inv_idle; [exact Hidle|by left].
Qed.

Lemma open_finish_inv s s' : open_finish s = Some s' → serving_inv s → serving_inv s'.
Proof.
  intros E Hinv. pose proof Hinv as [Hst Hre Hrd Hca Hl Hio Hh Hop Hcl]. unfold open_finish in E. unfold open_inv in Hop.
  destruct (sv_openTask s) as [[|n [l|]]|] eqn:Ho; try done. destruct Hop as (Hidle & Es & Ls).
  destruct Hh as (l' & Ll & Hc & Hn); [left; by rewrite Es|]. rewrite Ls in Ll. injection Ll as <-. rewrite Hc in E. injection E as <-.
  split; sv_cbn; try done.
  - intros _. exists l. done.
  - unfold open_inv. sv_cbn. split; [done|]. split; [done|]. intros k Hk. right. exists l. sv_cbn. rewrite (Hl l Ls) in Hk. by injection Hk.
  - apply close_inv_idle; [exact Hidle|by left].
Qed.

(** What stays settled when the coordinator moves on without us. *)
Lemma settled_mono s s' n : sv_lease s' = sv_lease s → su_resolved (sv_startup s) ⊆ su_resolved (sv_startup s') →
  (∀ l, sv_lease s = Some l → isCurrent (sv_startup s) l = true → isCurrent (sv_startup s') l = true ∨ l.1 ∈ su_resolved (sv_startup s')) →
  owner_settled s n → owner_settled s' n.
Proof.
  intros El Hr Hc [Hn|(l & Ll & <- & Hl)]; [left; by apply Hr|].
  destruct (Hc l Ll Hl) as [?|?]; [right; exists l; by rewrite El|by left].
Qed.

(** The owner's own call gives the lease back. *)
Lemma leave_inv s l s' : owner_leave s l = Some s' → serving_inv s → serving_inv s'.
Proof.
  intros E Hinv. pose proof Hinv as [Hst Hre Hrd Hca Hl Hio Hh Hop Hcl]. unfold owner_leave in E.
  destruct (bool_decide (l.1 ∈ sv_released s)) eqn:Hrel; [|done]. apply bool_decide_eq_true in Hrel.
  apply bind_Some in E as (st & E & E'). injection E' as <-. destruct (leave_spec _ _ _ Hst E) as (El & El' & Err & Et & Ew).
  assert (isCurrent (sv_startup s) l = true) as Hc by (unfold isCurrent; rewrite El; apply bool_decide_eq_true; by left).
  assert (sv_ownerTask s = Some l.1) as Eo.
  { destruct (proj2 Hca l.1 Hrel) as [Hr|?]; [|done]. by destruct (lease_bounds _ _ Hst Hc) as (_ & [] & _). }
  assert (¬ holds_lease s) as Hno.
  { intros (l' & Ll & Hc' & Hn). apply Hn. pose proof (Hl l' Ll) as E'. rewrite Eo in E'. injection E' as E'. by rewrite <- E'. }
  assert (∀ n, owner_settled s n → owner_settled (set_startup s st) n) as Hset.
  { intros n. apply settled_mono; [done|sv_cbn; rewrite Err; set_solver|]. intros l' Ll Hc'. right. sv_cbn. rewrite Err.
    pose proof (current_single _ _ Hst Hc') as E'. rewrite El in E'. injection E' as ->. by left. }
  split; sv_cbn; try done.
  - eapply startup_step_inv; [exact Hst|by econstructor].
  - intros n Hn. rewrite Et. by apply Hrd.
  - rewrite Err. set_solver.
  - intros Hx. exfalso. by apply Hno, Hh.
  - unfold open_inv in Hop |- *. sv_cbn. rewrite Ew. destruct (sv_openTask s) as [[|n [l'|]]|]; naive_solver.
Qed.

(** Other callers of the coordinator. *)
Lemma other_inv s st : startup_step (sv_startup s) st →
  (∀ l, sv_lease s = Some l → isCurrent (sv_startup s) l = true → isCurrent st l = true) →
  su_resolved (sv_startup s) ⊆ su_resolved st → su_tail (sv_startup s) <= su_tail st →
  (∀ n, sv_ownerTask s = Some n → (n, n - 1) ∈ su_waiting (sv_startup s) → (n, n - 1) ∈ su_waiting st) →
  serving_inv s → serving_inv (set_startup s st).
Proof.
  intros Hstep Hkeep Hres Htail Hwait Hinv. pose proof Hinv as [Hst Hre Hrd Hca Hl Hio Hh Hop Hcl].
  assert (∀ n, owner_settled s n → owner_settled (set_startup s st) n) as Hset.
  { intros n. apply settled_mono; [done..|]. intros l Ll Hc. left. by apply Hkeep. }
  split; sv_cbn; try done.
  - by eapply startup_step_inv.
  - intros n Hn. destruct (Hrd n Hn). split; [lia|done].
  - set_solver.
  - intros Hx. destruct (Hh Hx) as (l & Ll & Hc & Hn). exists l. sv_cbn. eauto.
  - unfold open_inv in Hop |- *. sv_cbn. destruct (sv_openTask s) as [[|n [l'|]]|]; naive_solver.
Qed.

(** ** Closing *)

Lemma current_lease_some s l : currentLease s = Some l ↔
  sv_lease s = Some l ∧ isCurrent (sv_startup s) l = true ∧ serving (sv_state s) = true.
Proof.
  unfold currentLease. destruct (sv_lease s) as [l'|]; [|naive_solver].
  destruct (isCurrent (sv_startup s) l') eqn:Hc, (serving (sv_state s)); cbn; naive_solver congruence.
Qed.

Lemma current_lease_null s : serving_inv s → is_null (currentLease s) = negb (serving (sv_state s)).
Proof.
  intros Hinv. destruct (serving (sv_state s)) eqn:Hs.
  - destruct (vi_held s Hinv (or_introl Hs)) as (l & Ll & Hc & _). by rewrite (proj2 (current_lease_some s l)).
  - apply is_null_true. destruct (currentLease s) eqn:E; [|done]. apply current_lease_some in E as (_ & _ & ?). congruence.
Qed.

Lemma close_call_inv s : sv_openTask s = None → serving_inv s → serving_inv (close_call s).
Proof.
  intros Ho Hinv. pose proof Hinv as [Hst Hre Hrd Hca Hl Hio Hh Hop Hcl]. unfold close_call.
  destruct (sv_closeTask s) eqn:Hc; [done|]. unfold open_inv in Hop. rewrite Ho in Hop. destruct Hop as (Hne & Hna & Hset).
  assert (close_idle s) as Hidle by by left.
  destruct (_ || _) eqn:Hs.
  - assert (serving (sv_state s) = false) as Hns by (apply orb_true_iff in Hs as [E|E]; apply bool_decide_eq_true in E as ->; done).
    destruct (idle_close s Hidle Hcl Hns) as [El Ea]. split; sv_cbn; try done.
    + unfold open_inv. sv_cbn. rewrite Ho. done.
    + unfold close_inv. sv_cbn. by right.
  - rewrite current_lease_null by done. split; sv_cbn; try done.
    + intros [Hx|Hx]; [by destruct (negb _)|]. destruct (Hh (or_intror Hx)) as (l & ?). by exists l.
    + unfold open_inv. sv_cbn. rewrite Ho. by destruct (negb _).
    + unfold close_inv. sv_cbn. rewrite Z.eqb_eq. split; [|done]. destruct (negb _); [by right|by left].
Qed.

Lemma close_release_inv s s' : close_release s = Some s' → serving_inv s → serving_inv s'.
Proof.
  intros E Hinv. pose proof Hinv as [Hst Hre Hrd Hca Hl Hio Hh Hop Hcl]. unfold close_release in E. unfold close_inv in Hcl.
  destruct (sv_closeTask s) as [[[]| | |]|] eqn:Hc; try done. injection E as <-. destruct Hcl as [Hw [Ha _]]. specialize (Ha eq_refl).
  pose proof (winding_not_serving _ Hw) as Hs.
  assert (sv_openTask s = None) as Ho.
  { unfold open_inv in Hop. destruct (sv_openTask s); [|done]. destruct Hop as [[E|E] _]; by rewrite Hc in E. }
  unfold open_inv in Hop. rewrite Ho in Hop. destruct Hop as (Hne & Hna & Hset). rewrite Hre.
  split; sv_cbn; try done.
  - intros n Hn. destruct (sv_ownerTask s) as [m|] eqn:Eo; [|by apply Hrd]. split.
    + apply elem_of_cons in Hn as [->|Hn]; [|exact (proj1 (Hrd n Hn))]. destruct (Hset m eq_refl) as [Hr|(l & Ll & <- & Hcl)].
      * destruct Hst as (k & Hk & Hm & _). apply Hk in Hr. lia.
      * by apply (lease_bounds _ _ Hst Hcl).
    + intros m' [= <-]. apply elem_of_cons in Hn as [->|Hn]; [lia|exact (proj2 (Hrd n Hn) m eq_refl)].
  - split; [apply Hca|]. intros n Hn. destruct (sv_ownerTask s) as [m|]; [|by apply Hca].
    apply elem_of_cons in Hn as [->|Hn]; [by right|by apply Hca].
  - intros [?|?]; [congruence|lia].
  - unfold open_inv. sv_cbn. rewrite Ho. done.
  - unfold close_inv. sv_cbn. split_and!; try done. intros n ->. by left.
Qed.

Lemma close_owner_inv s s' : close_owner s = Some s' → serving_inv s → serving_inv s'.
Proof.
  intros E Hinv. pose proof Hinv as [Hst Hre Hrd Hca Hl Hio Hh Hop Hcl]. unfold close_owner in E. unfold close_inv in Hcl.
  destruct (sv_closeTask s) as [[|c| |]|] eqn:Hc; try done. destruct Hcl as (Hw & Ha & -> & Hrel). pose proof (winding_not_serving _ Hw) as Hs.
  destruct (match sv_ownerTask s with Some n => _ | None => _ end) eqn:Er; [|done]. injection E as <-.
  assert (sv_openTask s = None) as Ho.
  { unfold open_inv in Hop. destruct (sv_openTask s); [|done]. destruct Hop as [[E|E] _]; by rewrite Hc in E. }
  unfold open_inv in Hop. rewrite Ho in Hop. destruct Hop as (Hne & Hna & Hset). split; sv_cbn; try done.
  - intros [?|?]; [congruence|lia].
  - unfold open_inv. sv_cbn. rewrite Ho. split_and!; try done. intros n En. rewrite En in Er. left. by apply bool_decide_eq_true in Er.
Qed.

Lemma close_finish_inv s s' : close_finish s = Some s' → serving_inv s → serving_inv s'.
Proof.
  intros E Hinv. pose proof Hinv as [Hst Hre Hrd Hca Hl Hio Hh Hop Hcl]. unfold close_finish in E. unfold close_inv in Hcl.
  destruct (sv_closeTask s) as [[| | |]|] eqn:Hc; try done. injection E as <-. destruct Hcl as (_ & Ha & El).
  assert (sv_openTask s = None) as Ho.
  { unfold open_inv in Hop. destruct (sv_openTask s); [|done]. destruct Hop as [[E|E] _]; by rewrite Hc in E. }
  unfold open_inv in Hop. rewrite Ho in Hop. destruct Hop as (Hne & Hna & Hset). split; sv_cbn; try done.
  - intros [?|?]; [done|lia].
  - unfold open_inv. sv_cbn. rewrite Ho. done.
  - unfold close_inv. sv_cbn. by right.
Qed.

(** ** Input and output *)

Lemma io_begin_some s s' : io_begin s = Some s' ↔
  (∃ l, currentLease s = Some l) ∧ s' = set_owner s (sv_ownerTask s) (sv_releaseOwner s) (sv_released s) (sv_activeIo s + 1).
Proof. unfold io_begin. destruct (currentLease s); cbn; naive_solver. Qed.

Lemma io_begin_inv s s' : io_begin s = Some s' → serving_inv s → serving_inv s'.
Proof.
  intros [(l & Hl) ->]%io_begin_some Hinv. apply current_lease_some in Hl as (Ll & Hc & Hs).
  pose proof Hinv as [Hst Hre Hrd Hca Hle Hio Hh Hop Hcl]. split; sv_cbn; try done; [lia|by intros _; apply Hh; left|].
  unfold close_inv in Hcl |- *. sv_cbn. destruct (sv_closeTask s) as [[]|]; (by left) || (destruct Hcl as [Hw%winding_not_serving _]; congruence).
Qed.

Lemma io_end_inv s : 0 < sv_activeIo s → serving_inv s → serving_inv (io_end s).
Proof.
  intros Ha Hinv. pose proof Hinv as [Hst Hre Hrd Hca Hle Hio Hh Hop Hcl].
  destruct (Hh (or_intror Ha)) as (l & Ll & Hc & Hn).
  assert (sv_openTask s ≠ None → close_idle s) as Hopen by (unfold open_inv in Hop; destruct (sv_openTask s); naive_solver).
  unfold io_end. sv_cbn. destruct (Z.eqb_spec (sv_activeIo s - 1) 0) as [E|E].
  - destruct (sv_closeTask s) as [[b| | |]|] eqn:Ec; (split; sv_cbn; try done; [lia|intros _; by exists l|..]).
    + unfold open_inv in Hop |- *. sv_cbn. destruct (sv_openTask s); [|done]. destruct Hopen as [?|?]; [done|congruence..].
    + unfold close_inv in Hcl |- *. rewrite Ec in Hcl. sv_cbn. split; [apply Hcl|done].
    + unfold close_inv in Hcl |- *. rewrite Ec in Hcl. sv_cbn. rewrite Ec. destruct Hcl as (? & ? & _). lia.
    + unfold close_inv in Hcl |- *. rewrite Ec in Hcl. sv_cbn. rewrite Ec. destruct Hcl as (? & ? & _). lia.
    + unfold close_inv in Hcl |- *. rewrite Ec in Hcl. sv_cbn. rewrite Ec. left. destruct Hcl as [?|[? _]]; [done|congruence].
    + unfold close_inv in Hcl |- *. rewrite Ec in Hcl. sv_cbn. rewrite Ec. left. destruct Hcl as [?|[? _]]; [done|congruence].
  - split; sv_cbn; try done; [lia|intros _; by exists l|]. unfold close_inv in Hcl |- *. sv_cbn.
    destruct (sv_closeTask s) as [[b| | |]|]; try (destruct Hcl as (? & ? & _); lia).
    + destruct Hcl as [Hs Hb]. split; [done|]. rewrite Hb. lia.
    + left. destruct Hcl as [?|[? _]]; [done|congruence].
    + left. destruct Hcl as [?|[? _]]; [done|congruence].
Qed.

Lemma other_resume_inv s c st : c.1 ∉ sv_calls s → run_resume (sv_startup s) c = Some st → serving_inv s → serving_inv (set_startup s st).
Proof.
  intros Hne E Hinv. destruct (resume_spec _ _ _ (vi_startup s Hinv) E) as (El & _ & Er & Et & Hw).
  apply other_inv; [by econstructor| |by rewrite Er|lia| |done].
  - intros l _ Hc. by rewrite (current_single _ _ (vi_startup s Hinv) Hc) in El.
  - intros n En Hn. apply Hw; [|done]. intros <-. by apply Hne, (vi_calls s Hinv).
Qed.

Lemma other_leave_inv s l st : l.1 ∉ sv_calls s → run_leave (sv_startup s) l = Some st → serving_inv s → serving_inv (set_startup s st).
Proof.
  intros Hne E Hinv. destruct (leave_spec _ _ _ (vi_startup s Hinv) E) as (El & _ & Er & Et & Ew).
  apply other_inv; [by econstructor| |rewrite Er; set_solver|lia|by rewrite Ew|done].
  intros l' Ll Hc. pose proof (current_single _ _ (vi_startup s Hinv) Hc) as E'. rewrite El in E'. injection E' as ->.
  destruct Hne. by apply (vi_calls s Hinv), (vi_lease s Hinv).
Qed.

Lemma serving_step_inv s s' : orderly_step s s' → serving_inv s → serving_inv s'.
Proof.
  intros (e & Hstep & Hturn). destruct Hstep; eauto using open_call_inv, open_stored_inv, acquire_inv, open_finish_inv, leave_inv, close_call_inv, close_release_inv,
    close_owner_inv, close_finish_inv, io_begin_inv, io_end_inv, other_resume_inv, other_leave_inv.
  apply other_inv; cbn; [constructor|done|done|lia|]. intros n _ Hn. apply elem_of_app. by left.
Qed.

Lemma serving_run_inv s s' : rtc orderly_step s s' → serving_inv s → serving_inv s'.
Proof. induction 1; eauto using serving_step_inv. Qed.

(** ** What the owner promises *)

Lemma new_startup_inv : startup_inv new_startup.
Proof. exists 0. cbn. split; [|split; [lia|by left]]. intros p. rewrite list_elem_of_singleton. lia. Qed.

Lemma startup_run_inv st st' : rtc startup_step st st' → startup_inv st → startup_inv st'.
Proof. induction 1; eauto using startup_step_inv. Qed.

(** A gateway on a coordinator that others have used before, after some steps, with
    [open] and [close] in turn. *)
Definition served profile backend s : Prop :=
  ∃ st, rtc startup_step new_startup st ∧ rtc orderly_step (newServingOwnership st profile backend) s.

Lemma served_inv profile backend s : served profile backend s → serving_inv s.
Proof.
  intros (st & Hst & Hs). eapply serving_run_inv; [exact Hs|]. apply new_serving_inv. eapply startup_run_inv; [exact Hst|]. apply new_startup_inv.
Qed.


Lemma drain_completes k s b : sv_closeTask s = Some (draining_io b) → (b = true ↔ sv_activeIo s = 0) → sv_activeIo s = Z.of_nat k →
  ∃ s', rtc orderly_step s s' ∧ sv_closeTask s' = Some (draining_io true) ∧ sv_activeIo s' = 0 ∧ sv_lease s' = sv_lease s ∧
    sv_startup s' = sv_startup s ∧ sv_releaseOwner s' = sv_releaseOwner s ∧ sv_ownerTask s' = sv_ownerTask s.
Proof.
  revert s b. induction k as [|k IH]; intros s b Hc Hb Ha.
  { exists s. assert (b = true) as -> by (apply Hb; lia). split; [apply rtc_refl|]. done. }
  destruct (IH (io_end s) (sv_activeIo s - 1 =? 0)) as (s' & Hr & H1 & H2 & H3 & H4 & H5 & H6).
  - unfold io_end. sv_cbn. rewrite Hc. destruct (Z.eqb_spec (sv_activeIo s - 1) 0) as [E|E]; sv_cbn; [done|]. rewrite Hc.
    do 2 f_equal. destruct b; [|done]. assert (sv_activeIo s = 0) by by apply Hb. lia.
  - unfold io_end. sv_cbn. rewrite Hc. destruct (Z.eqb_spec (sv_activeIo s - 1) 0) as [E|E]; sv_cbn; [done|]. split; [done|lia].
  - unfold io_end. sv_cbn. rewrite Hc. destruct (Z.eqb_spec (sv_activeIo s - 1) 0) as [E|E]; sv_cbn; lia.
  - exists s'. split; [eapply rtc_l; [apply orderly, step_io_end; lia|exact Hr]|]. split; [done|]. split; [done|].
    rewrite H3, H4, H5, H6. unfold io_end. sv_cbn. rewrite Hc. by destruct (_ =? 0).
Qed.

(** A close completes. When a gateway that serves and has not been closed since it
    was opened is closed, it reaches the released state as its operations end, with the
    lease given back to the coordinator, whatever operations were under way. *)
Theorem close_completes profile backend s : served profile backend s →
  serving (sv_state s) = true → sv_openTask s = None → sv_closeTask s = None →
  ∃ s', rtc orderly_step s s' ∧ sv_state s' = released ∧ sv_closeTask s' = Some close_returned ∧ sv_activeIo s' = 0 ∧
    su_leases (sv_startup s') = [].
Proof.
  intros Hinv%served_inv Hs Ho Hc. destruct (vi_held s Hinv (or_introl Hs)) as (l & Ll & Hcur & _).
  pose proof (close_call_inv s Ho Hinv) as Hinv1.
  assert (close_call s = set_tasks (set_state s draining) None (Some (draining_io (sv_activeIo s =? 0)))) as E1.
  { unfold close_call. rewrite Hc, current_lease_null, Hs, Ho by done.
    by destruct (sv_state s). }
  assert (orderly_step s (set_tasks (set_state s draining) None (Some (draining_io (sv_activeIo s =? 0))))) as Hstep
    by (exists closes; split; [rewrite <- E1; by constructor|done]).
  rewrite E1 in Hinv1. set (s1 := set_tasks _ _ _) in *.
  destruct (drain_completes (Z.to_nat (sv_activeIo s1)) s1 (sv_activeIo s =? 0)) as (s2 & Hr & Hc2 & Ha2 & El2 & Es2 & Er2 & Eo2).
  { done. } { apply Z.eqb_eq. } { pose proof (vi_io s1 Hinv1). lia. }
  assert (sv_lease s2 = Some l) as Ll2 by by rewrite El2. assert (sv_ownerTask s2 = Some l.1) as Ho2.
  { rewrite Eo2. by apply (vi_lease s Hinv). }
  assert (sv_releaseOwner s2 = Some l.1) as Hr2 by (rewrite Er2; change (sv_releaseOwner s1) with (sv_releaseOwner s); rewrite (vi_release s Hinv); by apply (vi_lease s Hinv)).
  destruct (run_leave (sv_startup s2) l) as [st|] eqn:El.
  2:{ exfalso. unfold run_leave in El. rewrite Es2 in El. change (sv_startup s1) with (sv_startup s) in El. unfold isCurrent in Hcur. by rewrite Hcur in El. }
  assert (serving_inv s2) as Hinv2 by (by eapply serving_run_inv).
  assert (startup_inv (sv_startup s2)) as Hi2 by (rewrite Es2; apply Hinv).
  destruct (leave_spec _ _ _ Hi2 El) as (_ & Hfree & Hres & _).
  set (s3 := set_tasks (set_owner s2 (Some l.1) (Some l.1) (l.1 :: sv_released s2) 0) (sv_openTask s2) (Some (awaiting_owner (Some l.1)))).
  assert (close_release s2 = Some s3) as H3 by (unfold close_release; by rewrite Hc2, Hr2, Ho2, Ha2).
  assert (owner_leave s3 l = Some (set_startup s3 st)) as H4.
  { unfold owner_leave. rewrite bool_decide_eq_true_2 by by left. change (sv_startup s3) with (sv_startup s2). by rewrite El. }
  set (s5 := set_tasks (set_raw (set_startup s3 st) false None) (sv_openTask s3) (Some closing_store)).
  assert (close_owner (set_startup s3 st) = Some s5) as H5.
  { unfold close_owner, s3. sv_cbn. rewrite (bool_decide_eq_true_2 (l.1 ∈ su_resolved st)); [done|]. rewrite Hres. by left. }
  eexists. split; [|split; [|split; [|split]]].
  - eapply rtc_l; [exact Hstep|]. etrans; [exact Hr|]. eapply rtc_l; [by apply orderly, step_close_release|].
    eapply rtc_l; [apply orderly; apply (step_leave s3 l); [by apply (vi_calls s2 Hinv2)|done]|]. eapply rtc_l; [by apply orderly, step_close_owner|]. eapply rtc_l; [|apply rtc_refl]. by apply orderly, step_close_finish.
  - done.
  - done.
  - done.
  - exact Hfree.
Qed.

(** ** Closing too early *)

(** A gateway that serves under its lease while [close] already has an answer. *)
Definition stuck_open s : Prop :=
  sv_state s = owned_running ∧ sv_openTask s = None ∧ sv_closeTask s = Some close_returned ∧
  ∃ l, sv_lease s = Some l ∧ sv_ownerTask s = Some l.1 ∧ startup_inv (sv_startup s) ∧ isCurrent (sv_startup s) l = true ∧
    l.1 ∈ sv_calls s ∧ l.1 ∉ sv_released s.

Lemma stuck_step s s' : stuck_open s → any_step s s' → stuck_open s'.
Proof.
  intros (Es & Ho & Hc & l & Ll & Eo & Hst & Hcur & Hin & Hn) [e Hstep].
  assert (su_leases (sv_startup s) = [l]) as El by by apply current_single.
  assert (stuck_open s) as Hstuck by (split_and!; eauto 10).
  destruct Hstep as [s|s ok s' E|s n s' E _|s s' E|s l' s' _ E|s|s s' E|s s' E|s s' E|s s' E|s|s|s c st Hne E|s l' st Hne E].
  - unfold open_call. by rewrite Es.
  - unfold open_stored in E. by rewrite Ho in E.
  - by rewrite Ho in E.
  - unfold open_finish in E. by rewrite Ho in E.
  - unfold owner_leave in E. destruct (bool_decide _) eqn:Hr; [|done]. apply bool_decide_eq_true in Hr.
    apply bind_Some in E as (st & E & _). destruct (leave_spec _ _ _ Hst E) as (El' & _). rewrite El in El'. by injection El' as ->.
  - unfold close_call. by rewrite Hc.
  - unfold close_release in E. by rewrite Hc in E.
  - unfold close_owner in E. by rewrite Hc in E.
  - unfold close_finish in E. by rewrite Hc in E.
  - apply io_begin_some in E as [_ ->]. split_and!; try done. by exists l.
  - unfold io_end. sv_cbn. rewrite Hc. destruct (_ =? 0); (split_and!; try done; by exists l).
  - split_and!; try done. exists l. sv_cbn. split_and!; try done. eapply startup_step_inv; [done|constructor].
  - destruct (resume_spec _ _ _ Hst E) as (El' & _). by rewrite El in El'.
  - destruct (leave_spec _ _ _ Hst E) as (El' & _). rewrite El in El'. injection El' as ->. by destruct Hne.
Qed.

Lemma stuck_forever s s' : stuck_open s → rtc any_step s s' →
  close_call s' = s' ∧ ∃ l, su_leases (sv_startup s') = [l] ∧ sv_ownerTask s' = Some l.1.
Proof.
  intros Hs Hr. assert (stuck_open s') as (Es & Ho & Hc & l & Ll & Eo & Hst & Hcur & _) by (induction Hr; eauto using stuck_step).
  split; [unfold close_call; by rewrite Hc|]. exists l. split; [by apply current_single|done].
Qed.

(** The calls in turn, each to its end; [acquire] is the lease of the first in the queue. *)
Definition open_completely s : option GatewayServingOwnership :=
  s ← open_stored (open_call s) true;
  s ← owner_acquire s (su_tail (sv_startup s));
  open_finish s.

(** Closing a gateway before it was ever opened disables closing it: once it is
    opened, every later [close] returns at once without doing anything, and the lease is
    never given back, whatever happens. *)
Theorem early_close_sticks : ∃ s,
  open_completely (close_call (newServingOwnership new_startup preproduction_private true)) = Some s ∧
  ∀ s', rtc any_step s s' → close_call s' = s' ∧ ∃ l, su_leases (sv_startup s') = [l] ∧ sv_ownerTask s' = Some l.1.
Proof.
  eexists. split; [vm_compute; reflexivity|]. intros s'. apply stuck_forever. split_and!; try done. eexists. split; [done|]. cbn.
  split; [done|]. split; [|split; [done|split; [by left|apply not_elem_of_nil]]]. exists 0. cbn. split; [|split; [lia|right]].
  - intros p. rewrite list_elem_of_singleton. lia.
  - split; [lia|done].
Qed.

(** A close that overtakes an open leaves the gateway serving. When [close] is called
    while the raw store is being opened, it returns and closes the raw store, the open
    then succeeds, and the lease is never given back. *)
Theorem overtaken_open_sticks : ∃ s,
  (let s := open_call (newServingOwnership new_startup preproduction_private true) in
   s ← close_release (close_call s); s ← close_owner s; s ← close_finish s;
   s ← open_stored s true; s ← owner_acquire s (su_tail (sv_startup s)); open_finish s) = Some s ∧
  sv_state s = owned_running ∧ sv_rawOpened s = false ∧
  ∀ s', rtc any_step s s' → close_call s' = s' ∧ ∃ l, su_leases (sv_startup s') = [l] ∧ sv_ownerTask s' = Some l.1.
Proof.
  eexists. split; [vm_compute; reflexivity|]. split; [done|]. split; [done|]. intros s'. apply stuck_forever. split_and!; try done. eexists. split; [done|]. cbn.
  split; [done|]. split; [|split; [done|split; [by left|apply not_elem_of_nil]]]. exists 0. cbn. split; [|split; [lia|right]].
  - intros p. rewrite list_elem_of_singleton. lia.
  - split; [lia|done].
Qed.

(** ** Private objects *)

Section objects.
Import Canonical.
Context `{Hasher}.
Context (putOwned : GatewayPrivateObjectBinding → list Z → PortResult jstr).
Context (getOwnedOptional : GatewayPrivateObjectBinding → PortResult (option (list Z * jstr))).

(** What a write of an object says about its bytes and its ticket. *)
Lemma put_checked s tickets ticket bytes key : object_put putOwned s tickets ticket bytes = port_ok key →
  ti_object ticket ∈ tickets ∧ Z.of_nat (length bytes) = ob_byteLength (ti_binding ticket) ∧
  digestBytes bytes = ob_digest (ti_binding ticket) ∧ (∃ l, currentLease s = Some l) ∧ putOwned (ti_binding ticket) bytes = port_ok key.
Proof.
  unfold object_put. destruct (_ || _) eqn:E; [done|]. rewrite !orb_false_iff, !negb_false_iff in E.
  destruct E as [[[E1 _] E2%bool_decide_eq_true] E3%bool_decide_eq_true].
  apply andb_true_iff in E1 as [E1%bool_decide_eq_true _]. unfold withObjectIo. destruct (io_begin s) as [s'|] eqn:Eb; [|done].
  apply io_begin_some in Eb as [Hl _]. done.
Qed.

Lemma get_checked s binding object : object_get getOwnedOptional s binding = port_ok object →
  Z.of_nat (length object.1) = ob_byteLength binding ∧ object.2 = ob_contentType binding ∧ digestBytes object.1 = ob_digest binding ∧
  (∃ l, currentLease s = Some l) ∧ getOwnedOptional binding = port_ok (Some object).
Proof.
  unfold object_get, withObjectIo. destruct (io_begin s) as [s'|] eqn:Eb; [|done]. apply io_begin_some in Eb as [Hl _].
  destruct (getOwnedOptional binding) as [[o|]|] eqn:Eg; try done. destruct (readback_differs binding o) eqn:E; [done|].
  intros [= ->]. unfold readback_differs in E. rewrite !orb_false_iff, !negb_false_iff, !bool_decide_eq_true in E. naive_solver.
Qed.

(** What is read back is what was written. When a write of an object under a ticket
    and a later read of its binding both succeed, and the hash does not collide on the
    two byte strings, the read returns the bytes that were written, with the content
    type of the binding, whatever the backend did; and both ran under the lease. *)
Theorem private_object_roundtrip s tickets ticket bytes key s' object :
  object_put putOwned s tickets ticket bytes = port_ok key →
  object_get getOwnedOptional s' (ti_binding ticket) = port_ok object →
  (sha256_hex bytes = sha256_hex object.1 → bytes = object.1) →
  object = (bytes, ob_contentType (ti_binding ticket)) ∧ is_Some (currentLease s) ∧ is_Some (currentLease s').
Proof.
  intros (_ & _ & Hd & [l Hl] & _)%put_checked (_ & Hct & Hd' & [l' Hl'] & _)%get_checked Hcol.
  destruct object as [bytes' ct]. cbn in *. split; [|by split; eexists]. unfold digestBytes in Hd, Hd'. rewrite <- Hd' in Hd.
  injection Hd as Hd. by rewrite Hct, (Hcol Hd).
Qed.
End objects.

(** ** Witnesses *)

Section witness.
Import Sha256.

Definition demo_owner : GatewayServingOwnership := newServingOwnership new_startup preproduction_private true.

Definition demo_serving : GatewayServingOwnership := Eval vm_compute in default demo_owner (open_completely demo_owner).
Definition demo_busy : GatewayServingOwnership := Eval vm_compute in default demo_owner (io_begin demo_serving).

Lemma demo_served : served preproduction_private true demo_busy.
Proof.
  exists new_startup. split; [apply rtc_refl|].
  eapply rtc_l; [exists opens; split; [apply step_open|by left]|]. eapply rtc_l; [by apply orderly, (step_open_stored _ true)|].
  eapply rtc_l; [apply orderly; by eapply (step_acquire _ 1)|]. eapply rtc_l; [by apply orderly, step_open_finish|].
  eapply rtc_l; [by apply orderly, step_io_begin|]. apply rtc_refl.
Qed.


Lemma close_completes_witness : ∃ s', rtc orderly_step demo_busy s' ∧ sv_state s' = released ∧ su_leases (sv_startup s') = [].
Proof.
  destruct (close_completes preproduction_private true demo_busy demo_served) as (s' & Hr & Hs & _ & _ & Hl); [reflexivity..|].
  exists s'. split; [exact Hr|]. split; [exact Hs|exact Hl].
Defined.

Definition demo_object_binding : GatewayPrivateObjectBinding := {|
  ob_tenantId := js "t"; ob_rsid := js "r"; ob_purpose := terminal_payload; ob_storageKey := js "k"; ob_byteLength := 2;
  ob_digest := digestBytes [1; 2]; ob_contentType := js "application/json" |}.

Definition demo_ticket : GatewayPrivateObjectIntentTicket := {|
  ti_object := 7; ti_binding := demo_object_binding; ti_intentNamespace := js "n"; ti_intentKey := js "k"; ti_intentVersion := 1 |}.

Lemma private_object_roundtrip_witness :
  object_get (λ b, port_ok (Some ([1; 2], js "application/json"))) demo_serving demo_object_binding =
    port_ok ([1; 2], js "application/json") ∧ is_Some (currentLease demo_serving).
Proof.
  split; [vm_compute; reflexivity|].
  apply (private_object_roundtrip (λ b _, port_ok (ob_storageKey b)) (λ b, port_ok (Some ([1; 2], js "application/json")))
           demo_serving [7] demo_ticket [1; 2] (js "k") demo_serving ([1; 2], js "application/json")).
  - vm_compute. reflexivity.
  - vm_compute. reflexivity.
  - done.
Defined.
End witness.
End ServingFacts.
