(* ===== verification/Effects.v ===== *)
(** Asynchronous code as programs: a program either ends, with a value or an
    exception, or makes one call of its environment and continues with the answer.

    Every call of another object that the code awaits is such a call, so what the
    environment answers, throws included, is quantified over and never assumed.
    [run] executes a program against an environment and records the calls; [wp] is
    the program logic in which statements about all runs are proved. *)

From S2P Require Import Prelude.

Section effects.
Context {call : Type} {answer : call → Type}.

(** ** Programs *)

Inductive prog (E R : Type) : Type :=
| Done (r : result E R)
| Call (c : call) (k : answer c → prog E R).
#[global] Arguments Done {E R} r.
#[global] Arguments Call {E R} c k.

(** The continuation sees whether the program returned or threw. *)
Fixpoint after {E E' A B} (p : prog E A) (k : result E A → prog E' B) : prog E' B :=
  match p with
  | Done r => k r
  | Call c f => Call c (λ a, after (f a) k)
  end.

#[global] Instance prog_ret {E} : MRet (prog E) := λ A a, Done (Ok a).

#[global] Instance prog_bind {E} : MBind (prog E) := λ A B k p,
  after p (λ r, match r with Ok a => k a | Throw e => Done (Throw e) end).

(** [try { body } catch (error) { handler }] *)
Definition try_with {E E' A} (body : prog E A) (handler : E → prog E' A) : prog E' A :=
  after body (λ r, match r with Ok a => mret a | Throw e => handler e end).

(** [try { body } finally { cleanup }]: an exception of the cleanup replaces the
    outcome of the body. *)
Definition try_finally {E A} (body : prog E A) (cleanup : prog E unit) : prog E A :=
  after body (λ r, after cleanup (λ u, match u with Ok _ => Done r | Throw e => Done (Throw e) end)).

(** ** Runs *)

Inductive event := Event (c : call) (a : answer c).

(** An environment answers a call knowing everything that happened, latest first. *)
Definition environment := list event → ∀ c, answer c.

(** The calls made, latest first, and the outcome. *)
Fixpoint run {E R} (w : environment) (p : prog E R) (h : list event) : list event * result E R :=
  match p with
  | Done r => (h, r)
  | Call c k => let a := w h c in run w (k a) (Event c a :: h)
  end.

(** ** The program logic *)

(** Every run of [p] after [h] makes only calls that [allowed] accepts, and ends in [Q]. *)
Fixpoint wp {E R} (allowed : list event → call → Prop) (p : prog E R) (h : list event)
    (Q : list event → result E R → Prop) : Prop :=
  match p with
  | Done r => Q h r
  | Call c k => allowed h c ∧ ∀ a, wp allowed (k a) (Event c a :: h) Q
  end.

(** Each call of a history was allowed when it was made. *)
Fixpoint all_allowed (allowed : list event → call → Prop) (h0 h : list event) : Prop :=
  h = h0 ∨ match h with Event c _ :: h' => allowed h' c ∧ all_allowed allowed h0 h' | [] => False end.

Context (allowed : list event → call → Prop).

Lemma wp_mono {E R} (p : prog E R) h (Q Q' : list event → result E R → Prop) :
  wp allowed p h Q → (∀ h' r, Q h' r → Q' h' r) → wp allowed p h Q'.
Proof. revert h. induction p as [r|c k IH]; cbn; [eauto|]. intros h [? H] ?. split; eauto. Qed.

Lemma wp_after {E E' A B} (p : prog E A) (k : result E A → prog E' B) h Q :
  wp allowed (after p k) h Q ↔ wp allowed p h (λ h' r, wp allowed (k r) h' Q).
Proof.
  revert h. induction p as [r|c f IH]; cbn; intros h; [done|].
  split; intros [? H]; (split; [done|]); intros a; by apply IH.
Qed.

Lemma wp_bind {E A B} (p : prog E A) (k : A → prog E B) h Q :
  wp allowed p h (λ h' r, match r with Ok a => wp allowed (k a) h' Q | Throw e => Q h' (Throw e) end) →
  wp allowed (p ≫= k) h Q.
Proof. intros H. apply wp_after. eapply wp_mono; [exact H|]. by intros h' [a|e]. Qed.

Lemma wp_try_with {E E' A} (p : prog E A) (handler : E → prog E' A) h Q :
  wp allowed p h (λ h' r, match r with Ok a => Q h' (Ok a) | Throw e => wp allowed (handler e) h' Q end) →
  wp allowed (try_with p handler) h Q.
Proof. intros H. apply wp_after. eapply wp_mono; [exact H|]. by intros h' [a|e]. Qed.

Lemma wp_try_finally {E A} (p : prog E A) (cleanup : prog E unit) h Q :
  wp allowed p h (λ h' r, wp allowed cleanup h' (λ h'' u,
    Q h'' (match u with Ok _ => r | Throw e => Throw e end))) →
  wp allowed (try_finally p cleanup) h Q.
Proof.
  intros H. apply wp_after. eapply wp_mono; [exact H|]. cbn. intros h' r Hc.
  apply wp_after. eapply wp_mono; [exact Hc|]. by intros h'' [[]|e].
Qed.

Lemma wp_done {E R} (r : result E R) h (Q : list event → result E R → Prop) : Q h r → wp allowed (Done r) h Q.
Proof. done. Qed.

Lemma wp_call {E R} c (k : answer c → prog E R) h Q :
  allowed h c → (∀ a, wp allowed (k a) (Event c a :: h) Q) → wp allowed (Call c k) h Q.
Proof. done. Qed.

(** Adequacy: what the logic proves holds of every run. *)
Lemma wp_run {E R} (p : prog E R) w h0 h Q :
  wp allowed p h Q → all_allowed allowed h0 h →
  Q (run w p h).1 (run w p h).2 ∧ all_allowed allowed h0 (run w p h).1.
Proof.
  revert h. induction p as [r|c k IH]; cbn; intros h; [done|].
  intros [Hc H] Hh. apply IH; [apply H|]. right; cbn. split; done.
Qed.

Lemma all_allowed_split h c a h1 h2 :
  all_allowed allowed [] h → h = h1 ++ Event c a :: h2 → allowed h2 c.
Proof.
  revert h. induction h1 as [|e h1 IH]; intros h H ->; cbn in H.
  - by destruct H as [?|[? _]].
  - destruct H as [?|H]; [done|]. destruct e. destruct H as [_ H]. by eapply IH.
Qed.

(** The runs of a program from the empty history, at once for every environment. *)
Lemma wp_trace {E R} (p : prog E R) w Q :
  wp allowed p [] Q →
  Q (run w p []).1 (run w p []).2 ∧
  ∀ h1 c a h2, (run w p []).1 = h1 ++ Event c a :: h2 → allowed h2 c.
Proof.
  intros H. destruct (wp_run p w [] [] Q H) as [HQ Ha]; [by left|]. split; [done|].
  intros h1 c a h2. by apply all_allowed_split.
Qed.

(** What happened before stays. *)
Lemma wp_grows {E R} (p : prog E R) h Q :
  wp allowed p h Q → wp allowed p h (λ h' r, Q h' r ∧ ∃ l, h' = l ++ h).
Proof.
  revert h. induction p as [r|c k IH]; cbn; intros h.
  - intros HQ. split; [done|]. by exists [].
  - intros [Hc Hk]. split; [done|]. intros a. eapply wp_mono; [apply IH, Hk|]. intros h' r [HQ (l & ->)]. split; [done|].
    exists (l ++ [Event c a]). by rewrite <- app_assoc.
Qed.

Lemma wp_allow {E R} (allowed' : list event → call → Prop) (p : prog E R) h Q :
  (∀ h c, allowed h c → allowed' h c) → wp allowed p h Q → wp allowed' p h Q.
Proof. intros Ha. revert h. induction p as [r|c k IH]; cbn; intros h; [done|]. intros [Hc Hk]. auto. Qed.

End effects.

Arguments prog call answer E R : clear implicits.
Arguments event call answer : clear implicits.
Arguments environment call answer : clear implicits.
(** The same program with its exceptions replaced. *)
Definition map_error {call answer E E' A} (f : E → E') (p : prog call answer E A) : prog call answer E' A :=
  after p (λ r, Done match r with Ok a => Ok a | Throw e => Throw (f e) end).

Arguments wp {call answer E R} allowed p h Q : simpl never.
