(* ===== verification/DispatchData.v ===== *)
(** The data of a dispatch: packages/gateway/src/dispatch.ts.

    The thrown values the dispatcher tells apart, the outcomes it returns, the pure
    functions that make outcomes of executor results and of durable evidence, and the
    calls of its collaborators with their possible answers.  A record of another
    component keeps the fields the dispatcher reads. *)

From S2P Require Import Prelude JsString JsValue JsMap Canonical JsonText Sha256 Journal MutationHold.
From S2P Require Import ProtocolStore Identifiers InvocationContext Registry Confirmation BatchDispatch.
From S2P Require Import Projection Effects.

Module DispatchData.
Import Canonical Identifiers InvocationContext Registry Confirmation BatchDispatch Projection.
#[local] Existing Instance Journal.KnownTerminalJournalState_eq_dec.

(** ** Thrown values *)

(** [thrown_error] covers the errors of invocationContext.ts and the plain ones;
    [thrown_abort] is a [DOMException] whose code is [ABORT_ERR]; [thrown_value] is a
    value that is not an [Error], with its [String]. *)
Inductive thrown :=
| thrown_error (e : context_error)
| thrown_rbp (code message : jstr)
| thrown_abort (message : jstr)
| thrown_value (text : jstr).

Definition thrown_text (e : thrown) : jstr :=
  match e with
  | thrown_error e => Confirmation.error_message e
  | thrown_rbp _ message | thrown_abort message => message
  | thrown_value text => text
  end.

(** [replace(/[\r\n]+/gu, " ")] *)
Fixpoint collapse_breaks (after_break : bool) (s : jstr) : jstr :=
  match s with
  | [] => []
  | c :: s =>
      if (c =? 13) || (c =? 10) then (if after_break then [] else [32]) ++ collapse_breaks true s
      else c :: collapse_breaks false s
  end.

Definition single_line (s : jstr) : jstr := take 600 (collapse_breaks false s).

Definition errorMessage (e : thrown) : jstr := single_line (thrown_text e).

Definition of_context {A} (r : result context_error A) : result thrown A :=
  match r with Ok a => Ok a | Throw e => Throw (thrown_error e) end.
Definition of_js {A} (r : result js_error A) : result thrown A := of_context (rethrow r).

(** ** Names *)

Definition context_code_name (c : GatewayInvocationContextErrorCode) : jstr :=
  match c with
  | document_scope_mismatch => js "document_scope_mismatch"
  | expired_auth_context => js "expired_auth_context"
  | invalid_auth_context => js "invalid_auth_context"
  | invalid_document_identity => js "invalid_document_identity"
  | mcp_session_binding_mismatch => js "mcp_session_binding_mismatch"
  | invalid_invocation_route => js "invalid_invocation_route"
  | mutation_scope_policy_unsupported => js "mutation_scope_policy_unsupported"
  | session_binding_mismatch => js "session_binding_mismatch"
  | tenant_binding_mismatch => js "tenant_binding_mismatch"
  end.

(** [error instanceof GatewayInvocationContextError ? error.code : fallback] *)
Definition detail_of (e : thrown) (fallback : option jstr) : option jstr :=
  match e with
  | thrown_error (GatewayInvocationContextError code _) => Some (context_code_name code)
  | _ => fallback
  end.

Definition role_name (r : GatewayRole) : jstr :=
  match r with role_user => js "user" | role_tenant_admin => js "tenant_admin" | role_vendor_admin => js "vendor_admin" end.
Definition decision_name (d : PolicyDecision) : jstr :=
  match d with
  | decided_auto => js "auto" | decided_preview => js "preview" | decided_confirmed => js "confirmed"
  | decided_gated_approved => js "gated_approved" | decided_denied => js "denied"
  end.
Definition policy_name (p : GatewayMutationScopePolicy) : jstr :=
  match p with policy_none => js "none" | policy_document => js "document" | policy_session => js "session" end.
Definition preview_refusal_name (r : PreviewRefusal) : jstr :=
  match r with
  | direct_commit_without_confirmation => js "direct_commit_without_confirmation"
  | confirmation_preview_strategy_unavailable => js "confirmation_preview_strategy_unavailable"
  | confirmation_preview_parameters_unsupported => js "confirmation_preview_parameters_unsupported"
  end.
Definition store_code_name (c : ProtocolStore.StoreErrorCode) : jstr :=
  match c with
  | ProtocolStore.conflict => js "conflict"
  | ProtocolStore.tenant_isolation_violation => js "tenant_isolation_violation"
  | ProtocolStore.durability_uncertain => js "durability_uncertain"
  | ProtocolStore.invalid_record => js "invalid_record"
  | ProtocolStore.not_implemented => js "not_implemented"
  | ProtocolStore.unavailable => js "unavailable"
  end.
Definition refusal_name (r : GatewayConfirmationRefusalReason) : jstr :=
  match r with
  | malformed_token => js "malformed_token" | not_found => js "not_found" | replayed => js "replayed"
  | confirmation_expired => js "expired" | foreign_tenant => js "foreign_tenant" | foreign_actor => js "foreign_actor"
  | foreign_session => js "foreign_session" | route_mismatch => js "route_mismatch" | tool_mismatch => js "tool_mismatch"
  | tool_version_mismatch => js "tool_version_mismatch" | args_mismatch => js "args_mismatch"
  | scope_mismatch => js "scope_mismatch" | document_mismatch => js "document_mismatch"
  | preview_mismatch => js "preview_mismatch"
  end.
(** The policy names of the protocol's journal. *)
Definition journal_class_name (c : Journal.PolicyClass) : jstr :=
  match c with Journal.class_auto => js "auto" | Journal.class_confirm => js "confirm" | Journal.class_gated => js "gated" end.
Definition journal_decision_name (d : Journal.PolicyDecision) : jstr :=
  match d with
  | Journal.decision_auto => js "auto" | Journal.decision_confirmed => js "confirmed"
  | Journal.decision_gated_approved => js "gated_approved"
  end.
Definition terminal_name (s : Journal.KnownTerminalJournalState) : jstr :=
  match s with
  | Journal.completed => js "completed" | Journal.failed => js "failed" | Journal.guarded => js "guarded"
  | Journal.cancelled => js "cancelled"
  end.

(** ** [Date.prototype.toISOString] *)

Definition pad (n : nat) (z : Z) : jstr := replicate (n - length (dec z)) 48 ++ dec z.

(** Year, month and day of a count of days since 1970-01-01. *)
Definition civil (days : Z) : Z * Z * Z :=
  let z := days + 719468 in
  let era := z / 146097 in
  let doe := z mod 146097 in
  let yoe := (doe - doe / 1460 + doe / 36524 - doe / 146096) / 365 in
  let doy := doe - (365 * yoe + yoe / 4 - yoe / 100) in
  let mp := (5 * doy + 2) / 153 in
  let month := if mp <? 10 then mp + 3 else mp - 9 in
  (yoe + era * 400 + (if month <=? 2 then 1 else 0), month, doy - (153 * mp + 2) / 5 + 1).

Definition year_text (year : Z) : jstr :=
  if (0 <=? year) && (year <=? 9999) then pad 4 year
  else (if year <? 0 then js "-" else js "+") ++ pad 6 (Z.abs year).

Definition toISOString (ms : Z) : result js_error jstr :=
  if 8640000000000000 <? Z.abs ms then throw RangeError "Invalid time value" else
  let '(year, month, day) := civil (ms / 86400000) in
  let t := ms mod 86400000 in
  Ok (year_text year ++ js "-" ++ pad 2 month ++ js "-" ++ pad 2 day ++ js "T" ++ pad 2 (t / 3600000) ++ js ":" ++
      pad 2 (t / 60000 mod 60) ++ js ":" ++ pad 2 (t / 1000 mod 60) ++ js "." ++ pad 3 (t mod 1000) ++ js "Z").

Example toISOString_known :
  map toISOString [0; 951782400000; 1709251199999; -1; 253402300800000] =
  map (λ s, Ok (js s)) ["1970-01-01T00:00:00.000Z"; "2000-02-29T00:00:00.000Z"; "2024-02-29T23:59:59.999Z";
                        "1969-12-31T23:59:59.999Z"; "+010000-01-01T00:00:00.000Z"].
Proof. vm_compute. reflexivity. Qed.

(** ** Outcomes *)

Inductive DispatchErrorCode :=
| tool_not_found | invalid_arguments | policy_enforcement_unavailable | executor_unavailable | executor_failed
| invalid_executor_result | invalid_invocation_context | confirmation_denied | confirmation_unavailable
| recovery_blocked | recovery_protocol_fault | recovery_unavailable | audit_unavailable | dispatch_unavailable.

Definition error_code_name (c : DispatchErrorCode) : jstr :=
  match c with
  | tool_not_found => js "tool_not_found" | invalid_arguments => js "invalid_arguments"
  | policy_enforcement_unavailable => js "policy_enforcement_unavailable"
  | executor_unavailable => js "executor_unavailable" | executor_failed => js "executor_failed"
  | invalid_executor_result => js "invalid_executor_result"
  | invalid_invocation_context => js "invalid_invocation_context"
  | confirmation_denied => js "confirmation_denied" | confirmation_unavailable => js "confirmation_unavailable"
  | recovery_blocked => js "recovery_blocked" | recovery_protocol_fault => js "recovery_protocol_fault"
  | recovery_unavailable => js "recovery_unavailable" | audit_unavailable => js "audit_unavailable"
  | dispatch_unavailable => js "dispatch_unavailable"
  end.

Inductive DispatchUnavailablePhase :=
  phase_window_acquire | phase_executor | phase_result_normalize | phase_window_release | phase_audit_finish.
Inductive DispatchUnavailableClass := class_gateway_rbp_fault | class_abort | class_error | class_unknown.

(** The members of the fixed [dispatch_unavailable] shape. *)
Record DispatchDiagnostic := {
  dg_phase : DispatchUnavailablePhase; dg_class : DispatchUnavailableClass; dg_upstreamCode : option jstr }.

Record DispatchError := {
  de_code : DispatchErrorCode; de_diagnostic : option DispatchDiagnostic; de_message : option jstr;
  de_executorCode : option jstr; de_detailCode : option jstr }.

Record ConfirmationTicket := {
  ct_confirmToken : jstr; ct_confirmationId : jstr; ct_originatingPreviewInvocationId : jstr; ct_previewDigest : jstr;
  ct_previewRef : jstr; ct_commitArgsDigest : jstr; ct_expiresAtMs : jsnum }.

(** What an outcome has besides its tool and request: the first four are [ok]. *)
Inductive DispatchBody :=
| omitted_payload (toolVersion originInvocationId expectedResultDigest : jstr)
| completed (toolVersion : jstr) (executor : GatewayExecutorBinding) (value : jsval)
| guarded (toolVersion : jstr) (executor : GatewayExecutorBinding) (guardedReason : jsval) (value : jsval)
| confirmation_required (toolVersion : jstr) (executor : GatewayExecutorBinding) (value : jsval) (ticket : ConfirmationTicket)
| failed (error : DispatchError) (executorReached : option bool) (value : option jsval).

(** [go_auditError] is present when [auditDelivery] is ["unavailable"]. *)
Record GatewayDispatchOutcome := {
  go_toolName : jstr; go_requestId : jstr; go_body : DispatchBody; go_auditError : option (jstr * jstr) }.

Definition outcome_of (toolName requestId : jstr) (body : DispatchBody) : GatewayDispatchOutcome := {|
  go_toolName := toolName; go_requestId := requestId; go_body := body; go_auditError := None |}.

Definition error_of (code : DispatchErrorCode) (detailCode : option jstr) (message : jstr) : DispatchError := {|
  de_code := code; de_diagnostic := None; de_message := Some message; de_executorCode := None; de_detailCode := detailCode |}.

Definition body_ok (b : DispatchBody) : bool := match b with failed _ _ _ => false | _ => true end.

Definition body_state (b : DispatchBody) : jstr :=
  match b with
  | omitted_payload _ _ _ => js "omitted_payload" | completed _ _ _ => js "completed" | guarded _ _ _ _ => js "guarded"
  | confirmation_required _ _ _ _ => js "confirmation_required" | failed _ _ _ => js "failed"
  end.

(** [outcome.result] *)
Definition body_value (b : DispatchBody) : jsval :=
  match b with
  | omitted_payload _ _ _ => VNull
  | completed _ _ v | guarded _ _ _ v | confirmation_required _ _ v _ => v
  | failed _ _ v => nullish v VUndefined
  end.

(** ** JSON *)

(** Values are trees: no object is met below itself. *)
Fixpoint isJsonValue (value : jsval) : bool :=
  match value with
  | VNull | VStr _ | VBool _ => true
  | VNum n => isFinite n
  | VUndefined | VOther _ => false
  | VArr items => forallb isJsonValue items
  | VObj shape members => plain_prototype shape && forallb (λ km, (1 <=? length km.1)%nat && isJsonValue km.2) members
  end.

Definition isJsonObject (value : jsval) : bool := match value with VObj _ _ => isJsonValue value | _ => false end.

(** ** Outcomes of executors *)

Definition RAW_CODE_STATIC_PREVIEW_REASON : jstr := js "safe_wrapper_rejected_write_looking_code".

Definition write_patterns (value : jsval) : bool :=
  match value with
  | VArr items =>
      (1 <=? length items)%nat && forallb (λ item, match item with VStr s => (1 <=? length s)%nat | _ => false end) items
  | _ => false
  end.

Definition isAuthorizableRawCodePreview (outcome : GatewayDispatchOutcome) : bool :=
  let result := body_value (go_body outcome) in
  if negb (body_ok (go_body outcome)) || negb (isJsonObject result) then false else
  match go_body outcome with
  | completed _ _ _ =>
      is_true (property result "success") && is_false (property result "guarded") &&
      is_str (property result "state") (js "completed") &&
      is_str (property result "action") (js "send_code_to_revit_safe") &&
      is_str (property result "intent") (js "writePreview") && hasOwn (spread result) (js "response")
  | guarded _ _ guardedReason _ =>
      is_str guardedReason RAW_CODE_STATIC_PREVIEW_REASON &&
      is_false (property result "success") && is_true (property result "guarded") &&
      is_str (property result "state") (js "guarded") &&
      is_str (property result "action") (js "send_code_to_revit_safe_preflight") &&
      is_str (property result "reason") RAW_CODE_STATIC_PREVIEW_REASON &&
      is_str (property result "safetyReason") RAW_CODE_STATIC_PREVIEW_REASON &&
      write_patterns (property result "writePatterns")
  | _ => false
  end.

Definition GATEWAY_RBP_FAULT_CODES : list jstr := [js "auth"; js "protocol"; js "unsupported"; js "unavailable"].

Definition dispatchUnavailableDiagnostic (error : thrown) : DispatchUnavailableClass * option jstr :=
  match error with
  | thrown_rbp code _ =>
      (class_gateway_rbp_fault, if bool_decide (code ∈ GATEWAY_RBP_FAULT_CODES) then Some code else None)
  | thrown_abort _ => (class_abort, None)
  | thrown_error _ => (class_error, None)
  | thrown_value _ => (class_unknown, None)
  end.

Definition dispatchUnavailableOutcome (toolName requestId : jstr) (executorReached : bool) (phase : DispatchUnavailablePhase)
    (error : thrown) : GatewayDispatchOutcome :=
  let diagnostic := dispatchUnavailableDiagnostic error in
  outcome_of toolName requestId (failed
    {| de_code := dispatch_unavailable;
       de_diagnostic := Some {| dg_phase := phase; dg_class := diagnostic.1; dg_upstreamCode := diagnostic.2 |};
       de_message := None; de_executorCode := None; de_detailCode := None |} (Some executorReached) None).

Definition invalidExecutorResult (toolName requestId : jstr) (message : string) : GatewayDispatchOutcome :=
  outcome_of toolName requestId (failed (error_of invalid_executor_result None (js message)) None None).

Definition nonempty_str (v : jsval) : bool := match v with VStr s => (1 <=? length s)%nat | _ => false end.

Definition executor_failure (executorCode message : jstr) : DispatchError := {|
  de_code := executor_failed; de_diagnostic := None; de_message := Some message; de_executorCode := Some executorCode;
  de_detailCode := None |}.

Section outcomes.
Context {ZodType : Type}.
Implicit Types tool : GatewayToolRecord ZodType.

Definition isAuthorizableConfirmationPreview tool (outcome : GatewayDispatchOutcome) : bool :=
  if negb (body_ok (go_body outcome)) then false else
  if tr_executorMethod tool === js "send_code_to_revit" then isAuthorizableRawCodePreview outcome
  else match go_body outcome with completed _ _ _ => true | _ => false end.

Definition normalizeExecutorOutcome tool (requestId : jstr) (executorOutcome : result thrown jsval) : GatewayDispatchOutcome :=
  let invalid := invalidExecutorResult (tr_name tool) requestId in
  match executorOutcome with
  | Throw executorError =>
      outcome_of (tr_name tool) requestId (failed (error_of executor_failed None (errorMessage executorError)) None None)
  | Ok outcome =>
      if negb (isJsonObject outcome) then invalid "executor returned a non-object outcome" else
      let state := property outcome "state" in
      if is_str state (js "failed") then
        let failure := property outcome "error" in
        if negb (isJsonObject failure) || negb (nonempty_str (property failure "code")) ||
           negb (nonempty_str (property failure "message"))
        then invalid "executor returned an invalid failure outcome"
        else outcome_of (tr_name tool) requestId
               (failed (executor_failure (take 120 (str_of (property failure "code")))
                          (single_line (str_of (property failure "message")))) None None)
      else if is_str state (js "omitted_payload") then
        let origin := property outcome "originInvocationId" in
        let digest := property outcome "expectedResultDigest" in
        match tr_executor tool, origin, digest with
        | executor_bridge, VStr origin, VStr digest =>
            if isGatewayUuidV7 origin && sha256_pattern digest
            then outcome_of (tr_name tool) requestId (omitted_payload (tr_version tool) origin digest)
            else invalid "executor returned an invalid omitted-payload outcome"
        | _, _, _ => invalid "executor returned an invalid omitted-payload outcome"
        end
      else if negb (is_str state (js "completed")) && negb (is_str state (js "guarded"))
      then invalid "executor returned an unknown outcome state" else
      let value := property outcome "result" in
      if negb (isJsonValue value) then invalid "executor returned a non-JSON result" else
      if is_str state (js "guarded") then
        match property outcome "reason" with
        | VStr reason =>
            if (length reason <? 1)%nat || (600 <? length reason)%nat
            then invalid "executor returned an invalid guarded outcome"
            else outcome_of (tr_name tool) requestId (guarded (tr_version tool) (tr_executor tool) (VStr reason) value)
        | _ => invalid "executor returned an invalid guarded outcome"
        end
      else outcome_of (tr_name tool) requestId (completed (tr_version tool) (tr_executor tool) value)
  end.

(** ** Outcomes from durable evidence *)

Record GatewayDurableBatchTerminal := { bt_result : jsval; bt_resultDigest : jstr }.

Context `{Hasher}.

(** [batch.steps.find((step) => step.status === "guarded")] *)
Definition guarded_step (batch : jsval) : result js_error (option jsval) :=
  match property batch "steps" with
  | VArr steps => Ok (find_first (λ step, is_str (property step "status") (js "guarded")) steps)
  | _ => throw TypeError "Cannot read properties of undefined (reading 'find')"
  end.

Definition terminal_fault tool (requestId reason : jstr) : GatewayDispatchOutcome :=
  outcome_of (tr_name tool) requestId
    (failed (error_of recovery_protocol_fault (Some reason) (js "durable terminal evidence rejected: " ++ reason)) None None).

Definition batch_outcome tool (requestId : jstr) (terminal : GatewayDurableBatchTerminal)
  : result js_error GatewayDispatchOutcome :=
  let batch := bt_result terminal in
  let status := property batch "status" in
  digest ← makeParamsDigest batch;
  if bt_resultDigest terminal !== digest then Ok (terminal_fault tool requestId (js "terminal_batch_digest_mismatch")) else
  if is_str status (js "completed") then
    Ok (outcome_of (tr_name tool) requestId (completed (tr_version tool) (tr_executor tool) batch))
  else if is_str status (js "guarded") then
    step ← guarded_step batch;
    match step with
    | None => Ok (terminal_fault tool requestId (js "guarded_batch_reason_missing"))
    | Some step =>
        Ok (outcome_of (tr_name tool) requestId
              (guarded (tr_version tool) (tr_executor tool) (property step "guarded_reason") batch))
    end
  else if is_str status (js "failed") || is_str status (js "cancelled") then
    Ok (outcome_of (tr_name tool) requestId
          (failed (executor_failure (str_of status) (js "durable Bridge batch recorded " ++ str_of status)) None (Some batch)))
  else Ok (terminal_fault tool requestId (js "terminal_batch_indeterminate")).

(** [terminal.payload === undefined] *)
Definition payload_missing (t : Journal.TerminalJournalOutcome) : bool :=
  match Journal.to_payload t with None | Some VUndefined => true | Some _ => false end.

Definition journal_outcome tool (requestId : jstr) (terminal : Journal.TerminalJournalOutcome) : GatewayDispatchOutcome :=
  let status := Journal.to_status terminal in
  let payload := nullish (Journal.to_payload terminal) VUndefined in
  if ((status === Journal.completed) || (status === Journal.guarded)) &&
     (negb (Journal.to_payloadRetained terminal) || payload_missing terminal)
  then outcome_of (tr_name tool) requestId
         (failed (executor_failure (js "payload_omitted") (js "durable Bridge outcome omitted the inline result payload")) None None)
  else match status with
  | Journal.completed => outcome_of (tr_name tool) requestId (completed (tr_version tool) (tr_executor tool) payload)
  | Journal.guarded =>
      match Journal.to_guardedReason terminal with
      | None => terminal_fault tool requestId (js "guarded_reason_missing")
      | Some reason => outcome_of (tr_name tool) requestId (guarded (tr_version tool) (tr_executor tool) (VStr reason) payload)
      end
  | Journal.failed | Journal.cancelled =>
      outcome_of (tr_name tool) requestId
        (failed (executor_failure (terminal_name status) (js "durable Bridge journal recorded " ++ terminal_name status)) None None)
  end.

Definition outcomeFromDurableTerminal tool (requestId : jstr) (journalRecords : list Journal.InvocationJournalRecord)
    (batchTerminal : option GatewayDurableBatchTerminal) : result js_error GatewayDispatchOutcome :=
  match batchTerminal with
  | Some terminal => batch_outcome tool requestId terminal
  | None =>
      match journalRecords with
      | [journal] =>
          match Journal.jr_terminalOutcome journal with
          | Some terminal =>
              if negb (Journal.journalRecordIsIntact journal)
              then Ok (terminal_fault tool requestId (js "terminal_journal_invalid"))
              else Ok (journal_outcome tool requestId terminal)
          | None => Ok (terminal_fault tool requestId (js "terminal_journal_invalid"))
          end
      | _ => Ok (terminal_fault tool requestId (js "terminal_journal_invalid"))
      end
  end.

(** ** The prepared dispatch against the context it was prepared for *)

Record GatewayExpectedMutationDispatch := {
  em_rsid : jstr; em_correlationId : jstr; em_bindings : list Journal.InvocationJournalBinding;
  em_recoveryClearances : list Journal.RecoveryClearance }.

Definition policy_binding_mismatch (binding : Journal.InvocationJournalBinding) (context : GatewayInvocationContext) tool : bool :=
  (Journal.jb_rsid binding !== ic_rsid context) ||
  (journal_class_name (Journal.pb_class (Journal.jb_policy binding)) !== class_name (tr_policyClass tool)) ||
  (journal_decision_name (Journal.pb_decision (Journal.jb_policy binding)) !== decision_name (ic_policyDecision context)) ||
  (Journal.pb_confirmation_id (Journal.jb_policy binding) !== ic_confirmationId context) ||
  negb (is_null (Journal.jb_verification binding)) ||
  (1 <=? length (nullish (Journal.jb_recoveryClearances binding) []))%nat.

(** The loop over the bindings; [mutatingCount] counts the mutating ones. *)
Fixpoint binding_errors (context : GatewayInvocationContext) tool (mutatingCount : nat)
    (bindings : list Journal.InvocationJournalBinding) : result js_error (option jstr) :=
  match bindings with
  | [] => Ok (if (0 <? mutatingCount)%nat then None else Some (js "prepared_dispatch_has_no_mutation"))
  | binding :: bindings =>
      if policy_binding_mismatch binding context tool then Ok (Some (js "prepared_dispatch_policy_binding_mismatch")) else
      if Journal.jb_mutating binding then
        match ic_mutationScope context with
        | None => Ok (Some (js "prepared_dispatch_scope_binding_mismatch"))
        | Some scope =>
            bound ← makeParamsDigest (Journal.normalizeScope (Journal.jb_mutationScope binding));
            own ← makeParamsDigest (scope_value scope);
            if bound !== own then Ok (Some (js "prepared_dispatch_scope_binding_mismatch"))
            else binding_errors context tool (S mutatingCount) bindings
        end
      else if negb (is_null (Journal.jb_mutationScope binding)) then Ok (Some (js "prepared_dispatch_read_scope_mismatch"))
      else binding_errors context tool mutatingCount bindings
  end.

Definition preparedMutationAuthorityError (expected : GatewayExpectedMutationDispatch) (context : GatewayInvocationContext) tool
  : result js_error (option jstr) :=
  if (em_rsid expected !== ic_rsid context) || (em_correlationId expected !== ic_invocationId context) ||
     (length (em_bindings expected) <? 1)%nat || negb (length (em_recoveryClearances expected) =? 0)%nat
  then Ok (Some (js "prepared_dispatch_outer_binding_mismatch"))
  else binding_errors context tool 0 (em_bindings expected).

End outcomes.
(** ** What the dispatcher asks of its collaborators *)

Record WindowRequest := { wr_tenantId : jstr; wr_rsid : jstr; wr_attemptId : jstr }.

Inductive GatewayRecoveryWindowAcquireResult :=
| window_acquired | window_already_acquired
| window_blocked (activeAttemptId : jstr)
| window_protocol_fault (reason : jstr)
| window_unavailable (code : ProtocolStore.StoreErrorCode) (message : jstr).

(** What a release answers is not looked at. *)
Inductive GatewayRecoveryWindowReleaseResult :=
| window_released | window_already_released | window_dispatch_pending
| release_protocol_fault (reason : jstr)
| release_unavailable (code : ProtocolStore.StoreErrorCode) (message : jstr).

Inductive GatewayRecoveryPreflightResult :=
| preflight_clear
| preflight_blocked (reason : jstr) (holdIds : list jstr)
| preflight_protocol_fault (reason : jstr)
| preflight_unavailable (code : ProtocolStore.StoreErrorCode) (message : jstr).

(** The result of an executor's [buildMutationDispatch]. *)
Record Draft := {
  dr_sessionBindingId : jstr; dr_connectionId : jstr; dr_envelope : jsval; dr_expected : GatewayExpectedMutationDispatch }.

Record GatewayRecoveryPendingDispatch := {
  pd_envelope : jsval; pd_envelopeDigest : jstr; pd_sessionBindingId : jstr; pd_preparedConnectionId : jstr;
  pd_recoveryHoldIds : list jstr; pd_recoveryClearances : list Journal.RecoveryClearance }.

Record PrepareRequest := {
  pq_tenantId : jstr; pq_attemptId : jstr; pq_draft : Draft; pq_confirmationProof : option GatewayConfirmationProof }.

Inductive GatewayRecoveryPrepareResult :=
| prepared (dispatch : GatewayRecoveryPendingDispatch)
| already_prepared (dispatch : GatewayRecoveryPendingDispatch)
| prepare_replay_terminal
| prepare_blocked (reason : jstr) (holdIds : list jstr)
| confirmation_rejected (reason : GatewayConfirmationRefusalReason) (confirmationId : option jstr)
    (pendingAction : option GatewayPendingActionRecord)
| prepare_protocol_fault (reason : jstr)
| prepare_unavailable (code : ProtocolStore.StoreErrorCode) (message : jstr).

(** Its kind, as the code compares it. *)
Definition prepare_kind (r : GatewayRecoveryPrepareResult) : jstr :=
  match r with
  | prepared _ => js "prepared" | already_prepared _ => js "already_prepared" | prepare_replay_terminal => js "replay_terminal"
  | prepare_blocked _ _ => js "blocked" | confirmation_rejected _ _ _ => js "confirmation_rejected"
  | prepare_protocol_fault _ => js "protocol_fault" | prepare_unavailable _ _ => js "unavailable"
  end.

Record ReconcileRequest := { rr_tenantId : jstr; rr_rsid : jstr; rr_envelopeDigest : jstr }.

Inductive GatewayRecoveryReconcileResult :=
| reconcile_pending | reconcile_accepted
| indeterminate_recorded (installedHoldIds : list jstr)
| verification_evidence_ready
| terminal_recorded (clearedHoldIds : list jstr) (terminalJournalRecords : list Journal.InvocationJournalRecord)
    (terminalBatch : option GatewayDurableBatchTerminal)
| reconcile_rejected (reason : jstr)
| reconcile_protocol_fault (reason : jstr)
| reconcile_unavailable (code : ProtocolStore.StoreErrorCode) (message : jstr).

Definition reconcile_kind (r : GatewayRecoveryReconcileResult) : jstr :=
  match r with
  | reconcile_pending => js "pending" | reconcile_accepted => js "accepted"
  | indeterminate_recorded _ => js "indeterminate_recorded" | verification_evidence_ready => js "verification_evidence_ready"
  | terminal_recorded _ _ _ => js "terminal_recorded" | reconcile_rejected _ => js "rejected"
  | reconcile_protocol_fault _ => js "protocol_fault" | reconcile_unavailable _ _ => js "unavailable"
  end.

Inductive GatewayRecoveryEvidenceResult :=
| evidence_recorded (hold : MutationHold.MutationHold)
| inconclusive_recorded (hold : MutationHold.MutationHold)
| evidence_rejected (reason : jstr)
| evidence_protocol_fault (reason : jstr)
| evidence_unavailable (code : ProtocolStore.StoreErrorCode) (message : jstr).

Definition evidence_kind (r : GatewayRecoveryEvidenceResult) : jstr :=
  match r with
  | evidence_recorded _ => js "recorded" | inconclusive_recorded _ => js "inconclusive_recorded"
  | evidence_rejected _ => js "rejected" | evidence_protocol_fault _ => js "protocol_fault"
  | evidence_unavailable _ _ => js "unavailable"
  end.

(** A [plan] is handed on as it is. *)
Inductive GatewayRecoveryPlanResult :=
| planned (plan : jsval) | already_planned (plan : jsval)
| plan_blocked (holdIds : list jstr)
| plan_rejected (reason : jstr)
| plan_protocol_fault (reason : jstr)
| plan_unavailable (code : ProtocolStore.StoreErrorCode) (message : jstr).

Definition plan_kind (r : GatewayRecoveryPlanResult) : jstr :=
  match r with
  | planned _ => js "planned" | already_planned _ => js "already_planned" | plan_blocked _ => js "blocked"
  | plan_rejected _ => js "rejected" | plan_protocol_fault _ => js "protocol_fault" | plan_unavailable _ _ => js "unavailable"
  end.

(** The verification a probe prepares, and the proof that its plan was recorded. *)
Record VerificationDraft := {
  vd_holdId : jstr; vd_sessionBindingId : jstr; vd_connectionId : jstr; vd_envelope : jsval;
  vd_rsid : jstr; vd_invocationId : jstr; vd_binding : Journal.InvocationJournalBinding }.

Record PlanProof := { pp_journalRecord : Journal.InvocationJournalRecord; pp_holdId : jstr; pp_resolutionId : jstr }.

(** ** Events *)

Definition REVAGENT_EVENT_SCHEMA : jstr := js "revagent.event.v2".

Record EventSource := { so_component : jstr; so_version : jstr; so_instance : jstr }.

(** [ev_scope] is the member that is not enumerable. *)
Record GatewayEventEnvelope := {
  ev_schema : jstr; ev_event_id : jstr; ev_event_type : jstr; ev_occurred_at : jstr; ev_recorded_at : jstr;
  ev_tenant_id : jstr; ev_source : EventSource; ev_user_id : jstr; ev_session_id : jstr; ev_seq : Z; ev_payload : jsval;
  ev_scope : option EffectiveMcpRequestScopeV1 }.

Inductive GatewayPortResult := port_ok | port_refused (port code message : jstr).

(** ** Calls and their answers *)

(** A tail of a queue is a promise; [None] is the resolved promise of an empty queue. *)
Inductive call :=
| c_clock
| c_newAttemptId (timestampMs : Z)
| c_newInvocationId (timestampMs : Z)
| c_newEventId (timestampMs : Z)
| c_nextSequence
| c_enterTail (rsid : jstr)
| c_awaitTail (prior : option Z)
| c_leaveTail (rsid : jstr) (tail : Z)
| c_resolveRoute (auth : AuthContext) (scope : EffectiveMcpRequestScopeV1)
| c_beforeExecute (context : GatewayInvocationContext)
| c_acquireInvocationWindow (request : WindowRequest)
| c_releaseInvocationWindow (request : WindowRequest)
| c_preflightMutation (tenantId rsid : jstr) (mutationScopes : list GatewayMutationScope)
| c_prepareMutationDispatch (request : PrepareRequest)
| c_prepareVerificationDispatch (tenantId attemptId : jstr) (verification : VerificationDraft)
| c_reconcilePendingDispatch (request : ReconcileRequest)
| c_recordVerificationEvidence (request : ReconcileRequest)
| c_planRecoveryClearances (tenantId rsid : jstr) (scope : Journal.MutationScope) (holdId : jstr)
| c_execute (binding : GatewayExecutorBinding) (request : GatewayExecutorRequest)
| c_previewConfirmation (binding : GatewayExecutorBinding) (request : GatewayExecutorRequest)
| c_buildMutationDispatch (binding : GatewayExecutorBinding) (request : GatewayExecutorRequest)
| c_executePreparedMutation (binding : GatewayExecutorBinding) (request : GatewayExecutorRequest)
    (dispatch : GatewayRecoveryPendingDispatch)
| c_createPendingAction (input : GatewayPendingActionIssueInput)
| c_emit (event : GatewayEventEnvelope)
| c_recordOrigin (context : GatewayInvocationContext) (draft : Draft)
| c_prepareNext (context : GatewayInvocationContext) (draft : Draft)
| c_revalidateOriginPending (context : GatewayInvocationContext) (attemptId sessionBindingId connectionId envelopeDigest : jstr)
| c_prepareVerification (context : GatewayInvocationContext) (draft : Draft) (binding : Journal.InvocationJournalBinding)
| c_recordVerificationPrepared (context : GatewayInvocationContext) (holdId sessionBindingId connectionId envelopeDigest : jstr)
| c_recordPlan (context : GatewayInvocationContext) (hold : MutationHold.MutationHold) (plan : jsval)
| c_now
| c_delay (milliseconds : Z).

Definition answer (c : call) : Type :=
  match c with
  | c_clock | c_now => result thrown Z
  | c_newAttemptId _ | c_newInvocationId _ | c_newEventId _ => result thrown jstr
  | c_nextSequence => Z
  | c_enterTail _ => option Z * Z
  | c_awaitTail _ | c_leaveTail _ _ => unit
  | c_resolveRoute _ _ => result thrown GatewayInvocationRoute
  | c_beforeExecute _ => result thrown bool
  | c_acquireInvocationWindow _ => result thrown GatewayRecoveryWindowAcquireResult
  | c_releaseInvocationWindow _ => result thrown GatewayRecoveryWindowReleaseResult
  | c_preflightMutation _ _ _ => result thrown GatewayRecoveryPreflightResult
  | c_prepareMutationDispatch _ | c_prepareVerificationDispatch _ _ _ => result thrown GatewayRecoveryPrepareResult
  | c_reconcilePendingDispatch _ => result thrown GatewayRecoveryReconcileResult
  | c_recordVerificationEvidence _ => result thrown GatewayRecoveryEvidenceResult
  | c_planRecoveryClearances _ _ _ _ => result thrown GatewayRecoveryPlanResult
  | c_execute _ _ | c_previewConfirmation _ _ | c_executePreparedMutation _ _ _ => result thrown jsval
  | c_buildMutationDispatch _ _ => result thrown Draft
  | c_createPendingAction _ => result thrown GatewayPendingActionIssueResult
  | c_emit _ => result thrown GatewayPortResult
  | c_recordOrigin _ _ | c_revalidateOriginPending _ _ _ _ _ | c_recordVerificationPrepared _ _ _ _ _ => result thrown bool
  | c_prepareNext _ _ => result thrown (option Draft)
  | c_prepareVerification _ _ _ => result thrown (option VerificationDraft)
  | c_recordPlan _ _ _ => result thrown (option PlanProof)
  | c_delay _ => result thrown unit
  end.

Abbreviation program := (prog call answer thrown).

(** A call that may throw, one that cannot, and a computation without calls. *)
Notation await c := (@Call call answer thrown _ c Done) (only parsing).
Notation sync c := (@Call call answer thrown _ c (λ a, Done (Ok a))) (only parsing).
Definition lift {A} (r : result thrown A) : program A := Done r.

(** ** The dispatcher *)

(** Which of its optional methods an executor has. *)
Record GatewayExecutor := {
  ex_previewConfirmation : bool; ex_buildMutationDispatch : bool; ex_executePreparedMutation : bool }.

(** The constructor's map of executors. *)
Fixpoint executors_by_binding (byBinding : list (GatewayExecutorBinding * GatewayExecutor))
    (executors : list (GatewayExecutorBinding * GatewayExecutor))
  : result js_error (list (GatewayExecutorBinding * GatewayExecutor)) :=
  match executors with
  | [] => Ok byBinding
  | executor :: executors =>
      throw_if (negb (is_null (JsMap.mget byBinding executor.1)))
        (JsError TypeError (js "duplicate Gateway executor binding: " ++ executor_name executor.1)) ;;
      executors_by_binding (JsMap.mset byBinding executor.1 executor.2) executors
  end.

Record GatewayDispatcher {ZodType : Type} := {
  di_registry : jstr → option (GatewayToolRecord ZodType);
  di_executors : list (GatewayExecutorBinding * GatewayExecutor);
  di_eventSource : EventSource;
  di_confirmationAuthority : bool;      (** it was configured *)
  di_mutationProbeVerification : bool;
  di_verificationMethods : bool }.      (** the three optional methods of the recovery authority *)
Arguments GatewayDispatcher : clear implicits.

(** [rq_beforeExecute]: the hook is present. *)
Record GatewayDispatchRequest := {
  rq_toolName : jstr; rq_args : jsval; rq_auth : AuthContext; rq_mcpSessionId : jstr; rq_scope : EffectiveMcpRequestScopeV1;
  rq_invocationIdOverride : option jstr; rq_beforeExecute : bool; rq_confirmationSessionId : option jstr;
  rq_confirmation : option GatewayConfirmationControl }.

Record DispatchAuditIdentity := {
  ai_principalKey : jstr; ai_tenantId : jstr; ai_userId : jstr; ai_role : GatewayRole; ai_sessionId : jstr;
  ai_mcpSessionId : option jstr; ai_oauthClientId : option jstr }.

Definition snapshotAuditIdentity (auth : AuthContext) : DispatchAuditIdentity := {|
  ai_principalKey := au_principalKey auth; ai_tenantId := ac_tenantId (au_actor auth); ai_userId := ac_userId (au_actor auth);
  ai_role := ac_role (au_actor auth); ai_sessionId := as_sessionId (au_session auth);
  ai_mcpSessionId := as_mcpSessionId (au_session auth); ai_oauthClientId := as_oauthClientId (au_session auth) |}.

Record ConfirmationAudit := {
  ca_decision : PolicyDecision; ca_confirmationId : option jstr; ca_originatingPreviewInvocationId : option jstr;
  ca_previewDigest : option jstr; ca_previewRef : option jstr; ca_commitArgsDigest : option jstr; ca_reason : option jstr }.

Record DispatchAuditInput {ZodType : Type} := {
  da_auth : DispatchAuditIdentity; da_route : option GatewayInvocationRoute; da_mcpSessionId : jstr; da_toolName : jstr;
  da_invocationId : option jstr; da_attemptId : jstr; da_startedAtMs : Z; da_tool : option (GatewayToolRecord ZodType);
  da_context : option GatewayInvocationContext; da_authority : option GatewayInvocationAuthority;
  da_paramsDigest : option jstr; da_recoveryHoldIds : list jstr; da_recoveryResolutionIds : list jstr;
  da_executorReached : bool; da_confirmation : option ConfirmationAudit }.
Arguments DispatchAuditInput : clear implicits.

End DispatchData.
