(* ===== verification/Dispatch.v ===== *)
(** The dispatch of one tool call: packages/gateway/src/dispatch.ts.

    A dispatch is a program in the sense of [Effects]: it calls the clock, the id
    generators, the route resolver, the recovery authority, the confirmation
    authority, the executors, the mutation-probe workflow and the event sink, and any
    of those calls may throw.  The dispatcher's own shared state, the tails of the
    per-route queues and the event counter, is reached through calls too, which do
    not throw.

    The strict parse of a tool's arguments is zod's and a parameter.  The snapshots
    the code takes of its inputs are the inputs, values here being immutable;
    [runWithGatewayInvocationContext] runs its callback, whose request names the
    context.  Where the code returns a promise out of a [try] without awaiting it, the
    [finally] starts before the promise settles: the calls come in the order of the
    program, and what the promise rejects with escapes the [catch]. *)

From S2P Require Import Prelude JsString JsValue JsMap Canonical Sha256 Journal MutationHold ProtocolStore.
From S2P Require Import Identifiers InvocationContext Registry Confirmation BatchDispatch Projection Effects.
From S2P Require Import DispatchData.

Module Dispatch.
Import Canonical Identifiers InvocationContext Registry Confirmation BatchDispatch Projection DispatchData.

Section dispatcher.
Context `{Hasher} {ZodType : Type}.
(** [z.object(inputSchema).strict().safeParse(args)]: [None] when it does not succeed. *)
Context (safeParse : list (jstr * option ZodType) → jsval → result thrown (option jsval)).
Context (this : GatewayDispatcher ZodType).
Implicit Types (tool : GatewayToolRecord ZodType) (input : GatewayDispatchRequest).

(** ** Auditing *)

Definition strings (xs : list jstr) : jsval := VArr (map VStr xs).
Definition opt_bool (o : option bool) : jsval := match o with Some b => VBool b | None => VNull end.

(** [a ?? b] where both may be missing. *)
Definition or_else {A} (a b : option A) : option A := match a with Some _ => a | None => b end.

Definition documentIdentityPayload (context : option GatewayInvocationContext) (authority : option GatewayInvocationAuthority) : jsval :=
  match or_else (ic_documentIdentity <$> context) (ga_documentIdentity <$> authority) with
  | Some identity => document_value identity
  | None => VNull
  end.

Definition mutationScopePayload (context : option GatewayInvocationContext) (authority : option GatewayInvocationAuthority) : jsval :=
  match or_else (context ≫= ic_mutationScope) (authority ≫= ga_mutationScope) with
  | Some scope => scope_value scope
  | None => VNull
  end.

Definition audit_payload (outcome : GatewayDispatchOutcome) (i : DispatchAuditInput ZodType) (completedAtMs : Z) : jsval :=
  let context := da_context i in
  let confirmation := da_confirmation i in
  let tool := da_tool i in
  let authority := da_authority i in
  obj [
  (js "dispatch_attempt_id", VStr (da_attemptId i));
  (js "invocation_id", opt_str (da_invocationId i));
  (js "idempotency_key", opt_str (ic_idempotencyKey <$> context));
  (js "principal_key", VStr (nullish (ic_principalKey <$> context) (ai_principalKey (da_auth i))));
  (js "actor_role", VStr (role_name (nullish (ic_role <$> context) (ai_role (da_auth i)))));
  (js "gateway_session_id", VStr (nullish (ic_gatewaySessionId <$> context) (ai_sessionId (da_auth i))));
  (js "oauth_client_id", opt_str (or_else (ic_oauthClientId <$> context) (ai_oauthClientId (da_auth i))));
  (js "mcp_session_id", VStr (nullish (ic_mcpSessionId <$> context) (da_mcpSessionId i)));
  (js "rsid", opt_str (or_else (ic_rsid <$> context) (ro_rsid <$> da_route i)));
  (js "tool_name", VStr (da_toolName i));
  (js "tool_version", opt_str (or_else (ic_toolVersion <$> context) (tr_version <$> tool)));
  (js "policy_class", opt_str (class_name <$> or_else (ic_policyClass <$> context) (tr_policyClass <$> tool)));
  (js "policy_decision", opt_str (decision_name <$> or_else (ic_policyDecision <$> context) (ca_decision <$> confirmation)));
  (js "confirmation_id", opt_str (or_else (context ≫= ic_confirmationId) (confirmation ≫= ca_confirmationId)));
  (js "originating_preview_invocation_id",
     opt_str (or_else (context ≫= ic_originatingPreviewInvocationId) (confirmation ≫= ca_originatingPreviewInvocationId)));
  (js "preview_digest", opt_str (confirmation ≫= ca_previewDigest));
  (js "preview_ref", opt_str (confirmation ≫= ca_previewRef));
  (js "commit_args_digest", opt_str (confirmation ≫= ca_commitArgsDigest));
  (js "confirmation_reason", opt_str (confirmation ≫= ca_reason));
  (js "mutation_scope_policy",
     opt_str (policy_name <$> or_else (ic_mutationScopePolicy <$> context)
                (or_else (ga_mutationScopePolicy <$> authority) (tr_mutationScopePolicy <$> tool))));
  (js "mutating", opt_bool (or_else (ic_mutating <$> context) (ga_mutating <$> authority)));
  (js "executor", opt_str (executor_name <$> or_else (ic_executor <$> context) (tr_executor <$> tool)));
  (js "document_identity", documentIdentityPayload context authority);
  (js "params_digest", opt_str (or_else (ic_paramsDigest <$> context) (da_paramsDigest i)));
  (js "mutation_scope", mutationScopePayload context authority);
  (js "recovery_hold_ids", strings (da_recoveryHoldIds i));
  (js "recovery_resolution_ids", strings (da_recoveryResolutionIds i));
  (js "outcome", VStr (body_state (go_body outcome)));
  (js "outcome_error_code", match go_body outcome with failed e _ _ => VStr (error_code_name (de_code e)) | _ => VNull end);
  (js "executor_reached", VBool (da_executorReached i));
  (js "started_at_ms", VNum (JInt (da_startedAtMs i)));
  (js "completed_at_ms", VNum (JInt completedAtMs));
  (js "duration_ms", VNum (JInt (Z.max 0 (completedAtMs - da_startedAtMs i))))].

(** [context?.mutating === true && executorReached] *)
Definition mutation_reached (i : DispatchAuditInput ZodType) : bool :=
  match da_context i with Some c => ic_mutating c | None => false end && da_executorReached i.

(** The outcome when the event was not delivered: one that may stand for an executed
    mutation keeps its result, any other fails. *)
Definition undelivered (outcome : GatewayDispatchOutcome) (i : DispatchAuditInput ZodType) (detailCode message : jstr)
  : GatewayDispatchOutcome :=
  if mutation_reached i
  then {| go_toolName := go_toolName outcome; go_requestId := go_requestId outcome; go_body := go_body outcome;
          go_auditError := Some (detailCode, message) |}
  else outcome_of (da_toolName i) (go_requestId outcome)
         (failed (error_of audit_unavailable (Some detailCode) message) (Some (da_executorReached i)) None).

(** The outcome once the sink has answered. *)
Definition delivered (outcome : GatewayDispatchOutcome) (i : DispatchAuditInput ZodType) (emitted : result thrown GatewayPortResult)
  : GatewayDispatchOutcome :=
  match emitted with
  | Ok port_ok => outcome
  | Ok (port_refused port code message) => undelivered outcome i (port ++ js ":" ++ code) (single_line message)
  | Throw e => undelivered outcome i (js "event_sink:emit_exception") (errorMessage e)
  end.

Definition invocation_event (event_id occurredAt : jstr) (seq : Z) (outcome : GatewayDispatchOutcome)
    (i : DispatchAuditInput ZodType) (completedAtMs : Z) : GatewayEventEnvelope := {|
  ev_schema := REVAGENT_EVENT_SCHEMA; ev_event_id := event_id; ev_event_type := js "tool.invocation";
  ev_occurred_at := occurredAt; ev_recorded_at := occurredAt;
  ev_tenant_id := nullish (ic_tenantId <$> da_context i) (ai_tenantId (da_auth i));
  ev_source := di_eventSource this;
  ev_user_id := nullish (ic_userId <$> da_context i) (ai_userId (da_auth i));
  ev_session_id := nullish (ic_gatewaySessionId <$> da_context i) (ai_sessionId (da_auth i));
  ev_seq := seq; ev_payload := audit_payload outcome i completedAtMs;
  ev_scope := or_else (ic_scope <$> da_context i) (ro_scope <$> da_route i) |}.

Definition finish (outcome : GatewayDispatchOutcome) (i : DispatchAuditInput ZodType) : program GatewayDispatchOutcome :=
  completedAtMs ← await c_clock;
  seq ← sync c_nextSequence;
  occurredAt ← lift (of_js (toISOString completedAtMs));
  event_id ← await (c_newEventId completedAtMs);
  @Call call answer thrown _ (c_emit (invocation_event event_id occurredAt seq outcome i completedAtMs)) (λ emitted,
    mret (delivered outcome i emitted)).

Inductive confirmation_status := status_requested | status_approved | status_denied | status_expired.

Definition status_name (s : confirmation_status) : jstr :=
  match s with
  | status_requested => js "requested" | status_approved => js "approved" | status_denied => js "denied"
  | status_expired => js "expired"
  end.

Record ConfirmationEventInput := {
  ce_auth : DispatchAuditIdentity; ce_confirmationSessionId : jstr; ce_scope : option EffectiveMcpRequestScopeV1;
  ce_status : confirmation_status; ce_tool : GatewayToolRecord ZodType; ce_confirmationId : option jstr;
  ce_originatingPreviewInvocationId : option jstr; ce_commitInvocationId : option jstr; ce_commitArgsDigest : option jstr;
  ce_previewDigest : option jstr; ce_previewRef : option jstr; ce_reason : option jstr }.

Definition confirmation_payload (i : ConfirmationEventInput) (recordedAtMs : Z) : jsval := obj [
  (js "invocation_id", opt_str (or_else (ce_commitInvocationId i) (ce_originatingPreviewInvocationId i)));
  (js "state", VStr (status_name (ce_status i)));
  (js "confirmation_id", opt_str (ce_confirmationId i));
  (js "originating_preview_invocation_id", opt_str (ce_originatingPreviewInvocationId i));
  (js "commit_invocation_id", opt_str (ce_commitInvocationId i));
  (js "principal_key", VStr (ai_principalKey (ce_auth i)));
  (js "actor_role", VStr (role_name (ai_role (ce_auth i))));
  (js "gateway_session_id", VStr (ai_sessionId (ce_auth i)));
  (js "mcp_session_id", VStr (ce_confirmationSessionId i));
  (js "confirmation_session_id", VStr (ce_confirmationSessionId i));
  (js "oauth_client_id", opt_str (ai_oauthClientId (ce_auth i)));
  (js "tool_name", VStr (tr_name (ce_tool i)));
  (js "tool_version", VStr (tr_version (ce_tool i)));
  (js "commit_args_digest", opt_str (ce_commitArgsDigest i));
  (js "preview_digest", opt_str (ce_previewDigest i));
  (js "preview_ref", opt_str (ce_previewRef i));
  (js "reason", opt_str (ce_reason i));
  (js "recorded_at_ms", VNum (JInt recordedAtMs))].

Definition confirmation_event (event_id recordedAt : jstr) (seq : Z) (i : ConfirmationEventInput) (recordedAtMs : Z)
  : GatewayEventEnvelope := {|
  ev_schema := REVAGENT_EVENT_SCHEMA; ev_event_id := event_id; ev_event_type := js "tool.confirmation";
  ev_occurred_at := recordedAt; ev_recorded_at := recordedAt; ev_tenant_id := ai_tenantId (ce_auth i);
  ev_source := di_eventSource this; ev_user_id := ai_userId (ce_auth i); ev_session_id := ai_sessionId (ce_auth i);
  ev_seq := seq; ev_payload := confirmation_payload i recordedAtMs; ev_scope := ce_scope i |}.

(** [None] when the event was recorded, else the detail code and the message. *)
Definition emission_failure (emitted : result thrown GatewayPortResult) : option (jstr * jstr) :=
  match emitted with
  | Ok port_ok => None
  | Ok (port_refused port code message) => Some (port ++ js ":" ++ code, single_line message)
  | Throw e => Some (js "event_sink:emit_exception", errorMessage e)
  end.

Definition emitConfirmationEvent (i : ConfirmationEventInput) : program (option (jstr * jstr)) :=
  recordedAtMs ← await c_clock;
  seq ← sync c_nextSequence;
  recordedAt ← lift (of_js (toISOString recordedAtMs));
  event_id ← await (c_newEventId recordedAtMs);
  @Call call answer thrown _ (c_emit (confirmation_event event_id recordedAt seq i recordedAtMs)) (λ emitted,
    mret (emission_failure emitted)).

(** ** The queue of a route *)

Definition serialize {E T} (rsid : jstr) (operation : prog call answer E T) : prog call answer E T :=
  @Call call answer E _ (c_enterTail rsid) (λ tails,
  @Call call answer E _ (c_awaitTail tails.1) (λ _,
  try_finally operation (@Call call answer E _ (c_leaveTail rsid tails.2) (λ u, Done (Ok u))))).

(** ** The retry of a probe's reconciliation *)

Definition MUTATION_PROBE_ORIGIN_RECONCILE_ATTEMPTS : nat := 24.
Definition MUTATION_PROBE_ORIGIN_RECONCILE_DEADLINE_MS : Z := 5000.
Definition MUTATION_PROBE_ORIGIN_RECONCILE_DELAY_MS : Z := 100.

Definition isMutationProbeOriginEvidenceRace (result : GatewayRecoveryReconcileResult) : bool :=
  match result with
  | reconcile_protocol_fault reason => reason === js "bridge_evidence_dispatch_evidence_mismatch"
  | _ => false
  end.

(** The [for] loop, with the attempts that are left. *)
Fixpoint retry_loop (attempts : nat) (deadline : Z) (reconcile : program GatewayRecoveryReconcileResult)
    (revalidateCurrentOwner : program bool) (result : GatewayRecoveryReconcileResult) : program GatewayRecoveryReconcileResult :=
  match attempts with
  | O => mret result
  | S attempts =>
      before ← await c_now;
      if deadline <=? before then mret result else
      await (c_delay MUTATION_PROBE_ORIGIN_RECONCILE_DELAY_MS) ;;
      now ← await c_now;
      if deadline <? now then mret result else
      current ← revalidateCurrentOwner;
      if negb current then mret result else
      result ← reconcile;
      if negb (isMutationProbeOriginEvidenceRace result) then mret result
      else retry_loop attempts deadline reconcile revalidateCurrentOwner result
  end.

Definition retryMutationProbeOriginReconcile (initial : GatewayRecoveryReconcileResult)
    (reconcile : program GatewayRecoveryReconcileResult) (revalidateCurrentOwner : program bool)
  : program GatewayRecoveryReconcileResult :=
  if negb (isMutationProbeOriginEvidenceRace initial) then mret initial else
  now ← await c_now;
  retry_loop MUTATION_PROBE_ORIGIN_RECONCILE_ATTEMPTS (now + MUTATION_PROBE_ORIGIN_RECONCILE_DEADLINE_MS)
    reconcile revalidateCurrentOwner initial.

(** ** The steps the three ways of dispatching share *)

Inductive parsed := parse_incomplete | parse_mismatch | parse_data (data : jsval).

Definition parse_args tool (args : jsval) : parsed :=
  match safeParse (tr_inputSchema tool) args with
  | Throw _ => parse_incomplete
  | Ok None => parse_mismatch
  | Ok (Some data) => if isJsonObject data then parse_data data else parse_mismatch
  end.

Inductive resolved :=
| route_failed (error : thrown)
| authority_failed (route : GatewayInvocationRoute) (error : thrown)
| authorised (route : GatewayInvocationRoute) (authority : GatewayInvocationAuthority).

Definition resolve_authority input tool (startedAtMs : Z) : program resolved :=
  @Call call answer thrown _ (c_resolveRoute (rq_auth input) (rq_scope input)) (λ r, mret
    match r with
    | Throw e => route_failed e
    | Ok route =>
        match deriveGatewayInvocationAuthority (rq_auth input) route (rq_mcpSessionId input) (rq_scope input)
                (tr_mutationScopePolicy tool) startedAtMs with
        | Throw e => authority_failed route (thrown_error e)
        | Ok authority => authorised route authority
        end
    end).

(** The variables [finishFailure] closes over. *)
Record Flow := {
  fw_startedAtMs : Z; fw_attemptId : jstr; fw_route : option GatewayInvocationRoute;
  fw_authority : option GatewayInvocationAuthority; fw_paramsDigest : option jstr }.

Record Failure := {
  fl_code : DispatchErrorCode; fl_message : jstr; fl_detailCode : option jstr; fl_executorReached : bool;
  fl_invocationId : option jstr; fl_context : option GatewayInvocationContext; fl_recoveryHoldIds : list jstr;
  fl_recoveryResolutionIds : list jstr; fl_confirmation : option ConfirmationAudit }.

Definition failure (code : DispatchErrorCode) (detailCode : option jstr) (message : jstr) : Failure := {|
  fl_code := code; fl_message := message; fl_detailCode := detailCode; fl_executorReached := false;
  fl_invocationId := None; fl_context := None; fl_recoveryHoldIds := []; fl_recoveryResolutionIds := [];
  fl_confirmation := None |}.

Definition with_confirmation (c : option ConfirmationAudit) (f : Failure) : Failure := {|
  fl_code := fl_code f; fl_message := fl_message f; fl_detailCode := fl_detailCode f;
  fl_executorReached := fl_executorReached f; fl_invocationId := fl_invocationId f; fl_context := fl_context f;
  fl_recoveryHoldIds := fl_recoveryHoldIds f; fl_recoveryResolutionIds := fl_recoveryResolutionIds f; fl_confirmation := c |}.

Definition at_invocation (invocationId : jstr) (context : option GatewayInvocationContext) (executorReached : bool) (f : Failure)
  : Failure := {|
  fl_code := fl_code f; fl_message := fl_message f; fl_detailCode := fl_detailCode f; fl_executorReached := executorReached;
  fl_invocationId := Some invocationId; fl_context := context; fl_recoveryHoldIds := fl_recoveryHoldIds f;
  fl_recoveryResolutionIds := fl_recoveryResolutionIds f; fl_confirmation := fl_confirmation f |}.

Definition with_recovery (holdIds resolutionIds : list jstr) (f : Failure) : Failure := {|
  fl_code := fl_code f; fl_message := fl_message f; fl_detailCode := fl_detailCode f;
  fl_executorReached := fl_executorReached f; fl_invocationId := fl_invocationId f; fl_context := fl_context f;
  fl_recoveryHoldIds := holdIds; fl_recoveryResolutionIds := resolutionIds; fl_confirmation := fl_confirmation f |}.

(** The local function of that name, which the confirmation preview and the mutation
    each declare with the same body. *)
Definition finishFailure input tool (flow : Flow) (f : Failure) : program GatewayDispatchOutcome :=
  finish
    (outcome_of (rq_toolName input) (nullish (fl_invocationId f) (fw_attemptId flow))
       (failed (error_of (fl_code f) (fl_detailCode f) (fl_message f)) (Some (fl_executorReached f)) None))
    {| da_auth := snapshotAuditIdentity (rq_auth input); da_route := fw_route flow; da_mcpSessionId := rq_mcpSessionId input;
       da_toolName := rq_toolName input; da_invocationId := fl_invocationId f; da_attemptId := fw_attemptId flow;
       da_startedAtMs := fw_startedAtMs flow; da_tool := Some tool; da_context := fl_context f;
       da_authority := fw_authority flow; da_paramsDigest := fw_paramsDigest flow;
       da_recoveryHoldIds := fl_recoveryHoldIds f; da_recoveryResolutionIds := fl_recoveryResolutionIds f;
       da_executorReached := fl_executorReached f; da_confirmation := fl_confirmation f |}.

Definition denied (confirmationId originatingPreviewInvocationId commitArgsDigest : option jstr) (reason : jstr)
  : ConfirmationAudit := {|
  ca_decision := decided_denied; ca_confirmationId := confirmationId;
  ca_originatingPreviewInvocationId := originatingPreviewInvocationId; ca_previewDigest := None; ca_previewRef := None;
  ca_commitArgsDigest := commitArgsDigest; ca_reason := Some reason |}.

Definition confirmation_session input : jstr :=
  confirmationSessionIdFor (rq_auth input) (nullish (rq_confirmationSessionId input) (rq_mcpSessionId input)).

(** The event of a denial that names no preview. *)
Definition denial input tool (confirmationId originatingPreviewInvocationId commitInvocationId commitArgsDigest : option jstr)
    (reason : jstr) : ConfirmationEventInput := {|
  ce_auth := snapshotAuditIdentity (rq_auth input); ce_confirmationSessionId := confirmation_session input; ce_scope := None;
  ce_status := status_denied; ce_tool := tool; ce_confirmationId := confirmationId;
  ce_originatingPreviewInvocationId := originatingPreviewInvocationId; ce_commitInvocationId := commitInvocationId;
  ce_commitArgsDigest := commitArgsDigest; ce_previewDigest := None; ce_previewRef := None; ce_reason := Some reason |}.

Definition window_request input (rsid attemptId : jstr) : WindowRequest := {|
  wr_tenantId := ac_tenantId (au_actor (rq_auth input)); wr_rsid := rsid; wr_attemptId := attemptId |}.

(** Why a window was not acquired. *)
Definition window_failure (window : GatewayRecoveryWindowAcquireResult) : option (DispatchErrorCode * jstr * jstr) :=
  match window with
  | window_acquired | window_already_acquired => None
  | window_blocked active =>
      Some (recovery_blocked, js "dispatch_window_active",
            js "another invocation owns the durable rsid window: " ++ active)
  | window_protocol_fault reason =>
      Some (recovery_protocol_fault, reason, js "durable invocation window rejected: " ++ reason)
  | window_unavailable code message => Some (recovery_unavailable, store_code_name code, message)
  end.

(** The queued part of a preview or a mutation: [body] runs in the window. *)
Definition in_window input tool (flow : Flow) (route : GatewayInvocationRoute) (body : program GatewayDispatchOutcome)
  : program GatewayDispatchOutcome :=
  serialize (ro_rsid route) (
    let request := window_request input (ro_rsid route) (fw_attemptId flow) in
    window ← await (c_acquireInvocationWindow request);
    match window_failure window with
    | Some (code, detailCode, message) => finishFailure input tool flow (failure code (Some detailCode) message)
    | None => try_finally body (await (c_releaseInvocationWindow request) ;; mret tt)
    end).

Definition executor_of tool : option GatewayExecutor := JsMap.mget (di_executors this) (tr_executor tool).

(** ** The preview of a tool that needs confirmation *)

Definition invocation_input tool (invocationId : jstr) (policyClass : GatewayPolicyClass) (policyDecision : option PolicyDecision)
    (confirmationId originatingPreviewInvocationId : option jstr) (policy : GatewayMutationScopePolicy) (args : jsval)
    (startedAtMs : Z) : InvocationInput := {|
  in_invocationId := invocationId; in_toolName := tr_name tool; in_toolVersion := tr_version tool;
  in_policyClass := policyClass; in_policyDecision := policyDecision; in_confirmationId := confirmationId;
  in_originatingPreviewInvocationId := originatingPreviewInvocationId; in_mutationScopePolicy := policy;
  in_executor := tr_executor tool; in_args := args; in_startedAtMs := startedAtMs |}.

Definition create_context input (route : GatewayInvocationRoute) (i : InvocationInput) : result thrown GatewayInvocationContext :=
  of_context (createGatewayInvocationContext (rq_auth input) route (rq_mcpSessionId input) (rq_scope input) i).

(** What the preview of one call carries through its steps. *)
Record Preview := {
  pv_args : args; pv_method : jstr; pv_commitArgsDigest : jstr; pv_route : GatewayInvocationRoute;
  pv_scope : GatewayMutationScope; pv_document : GatewayDocumentIdentity }.

Definition serverAuthoredReadOnlyPreview (p : Preview) : bool := pv_method p === js "get_ui_state".

Definition preview_request tool (p : Preview) (executorContext : GatewayInvocationContext) : GatewayExecutorRequest := {|
  er_toolName := tr_name tool; er_toolVersion := tr_version tool; er_executorMethod := pv_method p;
  er_policyClass := if serverAuthoredReadOnlyPreview p then class_auto else tr_policyClass tool;
  er_mutationScopePolicy := policy_none; er_args := obj (pv_args p); er_context := executorContext |}.

Definition preview_audit (confirmationId : option jstr) (invocationId : jstr) (previewDigest previewRef : option jstr)
    (p : Preview) (reason : option jstr) : ConfirmationAudit := {|
  ca_decision := decided_preview; ca_confirmationId := confirmationId;
  ca_originatingPreviewInvocationId := Some invocationId; ca_previewDigest := previewDigest; ca_previewRef := previewRef;
  ca_commitArgsDigest := Some (pv_commitArgsDigest p); ca_reason := reason |}.

Definition preview_finish input tool (flow : Flow) (outcome : GatewayDispatchOutcome) (invocationId : jstr)
    (context : GatewayInvocationContext) (confirmation : ConfirmationAudit) : program GatewayDispatchOutcome :=
  finish outcome
    {| da_auth := snapshotAuditIdentity (rq_auth input); da_route := fw_route flow; da_mcpSessionId := rq_mcpSessionId input;
       da_toolName := rq_toolName input; da_invocationId := Some invocationId; da_attemptId := fw_attemptId flow;
       da_startedAtMs := fw_startedAtMs flow; da_tool := Some tool; da_context := Some context;
       da_authority := fw_authority flow; da_paramsDigest := fw_paramsDigest flow; da_recoveryHoldIds := [];
       da_recoveryResolutionIds := []; da_executorReached := true; da_confirmation := Some confirmation |}.

Definition issue_input input tool (p : Preview) (invocationId previewDigest previewRef : jstr) : GatewayPendingActionIssueInput := {|
  ii_binding := {|
    pb_tenantId := ac_tenantId (au_actor (rq_auth input)); pb_principalKey := au_principalKey (rq_auth input);
    pb_userId := ac_userId (au_actor (rq_auth input)); pb_gatewaySessionId := as_sessionId (au_session (rq_auth input));
    pb_confirmationSessionId := confirmation_session input; pb_oauthClientId := as_oauthClientId (au_session (rq_auth input));
    pb_rsid := ro_rsid (pv_route p); pb_toolName := tr_name tool; pb_toolVersion := tr_version tool;
    pb_commitArgsDigest := pv_commitArgsDigest p; pb_mutationScope := pv_scope p; pb_documentIdentity := pv_document p |};
  ii_scope := rq_scope input; ii_originatingPreviewInvocationId := invocationId; ii_previewDigest := previewDigest;
  ii_previewRef := previewRef |}.

Definition preview_ref (rawPreview : jsval) (previewDigest : jstr) : jstr :=
  let inline := js "inline:" ++ previewDigest in
  match property rawPreview "previewRef" with
  | VStr s => if (0 <? length s)%nat && (Z.of_nat (length s) <=? 2048) then s else inline
  | _ => inline
  end.

(** From an authorizable preview to the outcome that asks for confirmation. *)
Definition request_confirmation input tool (flow : Flow) (p : Preview) (invocationId : jstr) (context : GatewayInvocationContext)
    (rawPreview : jsval) (previewOutcome : GatewayDispatchOutcome) : program GatewayDispatchOutcome :=
  let value := body_value (go_body previewOutcome) in
  previewDigest ← lift (of_js (makeParamsDigest value));
  let previewRef := preview_ref rawPreview previewDigest in
  issue ← await (c_createPendingAction (issue_input input tool p invocationId previewDigest previewRef));
  match issue with
  | issue_unavailable store =>
      finishFailure input tool flow (with_confirmation
        (Some (preview_audit None invocationId (Some previewDigest) (Some previewRef) p (Some (js "pending_action_not_durable"))))
        (at_invocation invocationId (Some context) true
          (failure confirmation_unavailable (Some (store_code_name (sf_code store))) (sf_message store))))
  | issued confirmToken pendingAction =>
      let confirmationId := cf_confirmationId pendingAction in
      requestedAudit ← emitConfirmationEvent
        {| ce_auth := snapshotAuditIdentity (rq_auth input); ce_confirmationSessionId := confirmation_session input;
           ce_scope := Some (rq_scope input); ce_status := status_requested; ce_tool := tool;
           ce_confirmationId := Some confirmationId; ce_originatingPreviewInvocationId := Some invocationId;
           ce_commitInvocationId := None; ce_commitArgsDigest := Some (pv_commitArgsDigest p);
           ce_previewDigest := Some previewDigest; ce_previewRef := Some previewRef; ce_reason := None |};
      match requestedAudit with
      | Some (detailCode, message) =>
          finishFailure input tool flow (with_confirmation
            (Some (preview_audit (Some confirmationId) invocationId (Some previewDigest) (Some previewRef) p
                     (Some (js "requested_audit_unavailable"))))
            (at_invocation invocationId (Some context) true (failure audit_unavailable (Some detailCode) message)))
      | None =>
          preview_finish input tool flow
            (outcome_of (tr_name tool) invocationId (confirmation_required (tr_version tool) (tr_executor tool) value
               {| ct_confirmToken := confirmToken; ct_confirmationId := confirmationId;
                  ct_originatingPreviewInvocationId := invocationId; ct_previewDigest := previewDigest;
                  ct_previewRef := previewRef; ct_commitArgsDigest := pv_commitArgsDigest p;
                  ct_expiresAtMs := cf_expiresAtMs pendingAction |}))
            invocationId context
            (preview_audit (Some confirmationId) invocationId (Some previewDigest) (Some previewRef) p None)
      end
  end.

(** What stands for the preview when its executor throws. *)
Definition preview_failed (e : thrown) : jsval :=
  obj [(js "state", VStr (js "failed"));
       (js "error", obj [(js "code", VStr (js "confirmation_preview_failed")); (js "message", VStr (errorMessage e))])].

Definition run_preview input tool (flow : Flow) (p : Preview) (invocationId : jstr)
    (context executorContext : GatewayInvocationContext) : program GatewayDispatchOutcome :=
  @Call call answer thrown _ (c_previewConfirmation (tr_executor tool) (preview_request tool p executorContext)) (λ r,
    let rawPreview := match r with Ok v => v | Throw e => preview_failed e end in
    let previewOutcome := normalizeExecutorOutcome tool invocationId (Ok rawPreview) in
    let previewIsAuthorizable :=
      if serverAuthoredReadOnlyPreview p
      then match go_body previewOutcome with completed _ _ _ => true | _ => false end
      else isAuthorizableConfirmationPreview tool previewOutcome in
    if negb previewIsAuthorizable
    then preview_finish input tool flow previewOutcome invocationId context
           (preview_audit None invocationId None None p (Some (js "preview_not_authorizable")))
    else request_confirmation input tool flow p invocationId context rawPreview previewOutcome).

Definition context_failure (e : thrown) : Failure := failure invalid_invocation_context (detail_of e None) (errorMessage e).

Definition preview_in_window input tool (flow : Flow) (p : Preview) : program GatewayDispatchOutcome :=
  now ← await c_clock;
  invocationId ← await (c_newInvocationId now);
  let args := obj (pv_args p) in
  match create_context input (pv_route p)
          (invocation_input tool invocationId (tr_policyClass tool) (Some decided_preview) None None policy_none args
             (fw_startedAtMs flow)) with
  | Throw e => finishFailure input tool flow (at_invocation invocationId None false (context_failure e))
  | Ok context =>
      if serverAuthoredReadOnlyPreview p then
        match create_context input (pv_route p)
                (invocation_input tool invocationId class_auto (Some decided_auto) None None policy_none args
                   (fw_startedAtMs flow)) with
        | Throw e => finishFailure input tool flow (at_invocation invocationId (Some context) false (context_failure e))
        | Ok executorContext => run_preview input tool flow p invocationId context executorContext
        end
      else run_preview input tool flow p invocationId context context
  end.

Definition dispatchConfirmationPreview input tool : program GatewayDispatchOutcome :=
  startedAtMs ← await c_clock;
  attemptId ← await (c_newAttemptId startedAtMs);
  let flow route authority paramsDigest := {|
    fw_startedAtMs := startedAtMs; fw_attemptId := attemptId; fw_route := route; fw_authority := authority;
    fw_paramsDigest := paramsDigest |} in
  let deny reason f :=
    emitConfirmationEvent (denial input tool None None None None reason) ;;
    finishFailure input tool (flow None None None) (with_confirmation (Some (denied None None None reason)) f) in
  if negb (isJsonObject (rq_args input))
  then finishFailure input tool (flow None None None)
         (failure invalid_arguments None (js "tool arguments must be a finite JSON object")) else
  match parse_args tool (rq_args input) with
  | parse_incomplete =>
      deny (js "invalid_arguments") (failure invalid_arguments None (js "registry schema validation did not complete"))
  | parse_mismatch =>
      deny (js "invalid_arguments") (failure invalid_arguments None (js "tool arguments do not match the registry schema"))
  | parse_data data =>
      projection ← lift (of_js (buildConfirmationPreviewProjection tool (spread data)));
      match projection with
      | preview_refused reason =>
          let reason := preview_refusal_name reason in
          deny reason (failure confirmation_denied (Some reason) (js "confirmation policy denied the request"))
      | preview_ok previewArgs previewExecutorMethod _ commitArgsDigest =>
          paramsDigest ← lift (of_js (makeParamsDigest (obj previewArgs)));
          resolved ← resolve_authority input tool startedAtMs;
          let refused route e :=
            finishFailure input tool (flow route None (Some paramsDigest))
              (failure invalid_invocation_context (detail_of e (Some (js "route_resolution_failed"))) (errorMessage e)) in
          match resolved with
          | route_failed e => refused None e
          | authority_failed route e => refused (Some route) e
          | authorised route authority =>
              let flow := flow (Some route) (Some authority) (Some paramsDigest) in
              let unavailable detailCode message :=
                finishFailure input tool flow (failure confirmation_unavailable (Some (js detailCode)) (js message)) in
              match ga_mutating authority, ga_mutationScope authority with
              | true, Some scope =>
                  if negb (di_confirmationAuthority this)
                  then unavailable "confirmation_authority_unavailable" "durable confirmation authority is unavailable" else
                  if negb (match executor_of tool with Some e => ex_previewConfirmation e | None => false end)
                  then unavailable "confirmation_preview_unavailable" "confirm-class tool has no safe preview executor" else
                  in_window input tool flow route
                    (preview_in_window input tool flow
                       {| pv_args := previewArgs; pv_method := previewExecutorMethod; pv_commitArgsDigest := commitArgsDigest;
                          pv_route := route; pv_scope := scope; pv_document := ga_documentIdentity authority |})
              | _, _ => unavailable "confirm_tool_has_no_mutation_scope"
                          "confirm-class tool has no authoritative mutation scope"
              end
          end
      end
  end.

(** ** A mutation *)

Definition MUTATION_PROBE_ORIGIN : jstr := js "conformance.fixture.mutation_probe_origin".
Definition MUTATION_PROBE_NEXT : jstr := js "conformance.fixture.mutation_probe_next".
Definition MUTATION_PROBE_VERIFY : jstr := js "conformance.fixture.mutation_probe_verify".

(** [confirmation], [confirmationId] and [commitArgsDigest] of a tool of class confirm. *)
Record Confirmed := { cd_control : GatewayConfirmationControl; cd_confirmationId : jstr; cd_commitArgsDigest : jstr }.

(** What a mutation carries through its steps. *)
Record Mutation := {
  mu_flow : Flow; mu_route : GatewayInvocationRoute; mu_scope : GatewayMutationScope; mu_document : GatewayDocumentIdentity;
  mu_args : jsval; mu_executor : GatewayExecutor; mu_confirmed : option Confirmed }.

Definition originating (confirmed : option Confirmed) : option jstr :=
  c ← confirmed; Some (cc_originatingPreviewInvocationId (cd_control c)).

Definition confirmed_audit (c : Confirmed) (reason : option jstr) : ConfirmationAudit := {|
  ca_decision := decided_confirmed; ca_confirmationId := Some (cd_confirmationId c);
  ca_originatingPreviewInvocationId := Some (cc_originatingPreviewInvocationId (cd_control c)); ca_previewDigest := None;
  ca_previewRef := None; ca_commitArgsDigest := Some (cd_commitArgsDigest c); ca_reason := reason |}.

Definition reconcile_request input (context : GatewayInvocationContext) (pending : GatewayRecoveryPendingDispatch)
  : ReconcileRequest := {|
  rr_tenantId := ac_tenantId (au_actor (rq_auth input)); rr_rsid := ic_rsid context;
  rr_envelopeDigest := pd_envelopeDigest pending |}.

(** The reconciliation, repeated for the probe's origin. *)
Definition reconcile_mutation input tool (m : Mutation) (context : GatewayInvocationContext)
    (pending : GatewayRecoveryPendingDispatch) : program GatewayRecoveryReconcileResult :=
  let reconcile : program GatewayRecoveryReconcileResult :=
    await (c_reconcilePendingDispatch (reconcile_request input context pending)) in
  reconciled ← reconcile;
  if tr_name tool === MUTATION_PROBE_ORIGIN
  then retryMutationProbeOriginReconcile reconciled reconcile
         (await (c_revalidateOriginPending context (fw_attemptId (mu_flow m)) (pd_sessionBindingId pending)
                   (pd_preparedConnectionId pending) (pd_envelopeDigest pending)))
  else mret reconciled.

(** The outcome of a mutation that was sent, from the durable evidence alone. *)
Definition settle input tool (m : Mutation) (invocationId : jstr) (context : GatewayInvocationContext)
    (pending : GatewayRecoveryPendingDispatch) : program GatewayDispatchOutcome :=
  let holdIds := pd_recoveryHoldIds pending in
  let resolutionIds := map Journal.rc_resolution_id (pd_recoveryClearances pending) in
  let fail code detailCode message holdIds :=
    finishFailure input tool (mu_flow m) (with_recovery holdIds resolutionIds
      (at_invocation invocationId (Some context) true (failure code (Some detailCode) message))) in
  reconciled ← reconcile_mutation input tool m context pending;
  match reconciled with
  | indeterminate_recorded installedHoldIds =>
      fail recovery_blocked (js "journal_indeterminate")
        (js "mutation outcome is indeterminate; durable recovery hold remains active") installedHoldIds
  | reconcile_protocol_fault reason =>
      fail recovery_protocol_fault reason (js "durable Bridge evidence rejected: " ++ reason) holdIds
  | reconcile_unavailable code message => fail recovery_unavailable (store_code_name code) message holdIds
  | reconcile_rejected reason =>
      fail recovery_unavailable reason (js "executor returned before terminal Bridge evidence became durable") holdIds
  | reconcile_pending | reconcile_accepted | verification_evidence_ready =>
      fail recovery_unavailable (reconcile_kind reconciled)
        (js "executor returned before terminal Bridge evidence became durable") holdIds
  | terminal_recorded clearedHoldIds journalRecords batchTerminal =>
      outcome ← lift (of_js (outcomeFromDurableTerminal tool invocationId journalRecords batchTerminal));
      finish outcome
        {| da_auth := snapshotAuditIdentity (rq_auth input); da_route := fw_route (mu_flow m);
           da_mcpSessionId := rq_mcpSessionId input; da_toolName := rq_toolName input; da_invocationId := Some invocationId;
           da_attemptId := fw_attemptId (mu_flow m); da_startedAtMs := fw_startedAtMs (mu_flow m); da_tool := Some tool;
           da_context := Some context; da_authority := fw_authority (mu_flow m); da_paramsDigest := None;
           da_recoveryHoldIds := sort_by str_leb (unique (holdIds ++ clearedHoldIds));
           da_recoveryResolutionIds := resolutionIds; da_executorReached := true;
           da_confirmation := (λ c, confirmed_audit c None) <$> mu_confirmed m |}
  end.

(** The approval of a confirmed mutation is recorded before it is sent. *)
Definition approve input tool (m : Mutation) (invocationId : jstr) : program (option (Confirmed * jstr * jstr)) :=
  match mu_confirmed m with
  | None => mret None
  | Some c =>
      approvalAudit ← emitConfirmationEvent
        {| ce_auth := snapshotAuditIdentity (rq_auth input); ce_confirmationSessionId := confirmation_session input;
           ce_scope := Some (rq_scope input); ce_status := status_approved; ce_tool := tool;
           ce_confirmationId := Some (cd_confirmationId c);
           ce_originatingPreviewInvocationId := Some (cc_originatingPreviewInvocationId (cd_control c));
           ce_commitInvocationId := Some invocationId; ce_commitArgsDigest := Some (cd_commitArgsDigest c);
           ce_previewDigest := None; ce_previewRef := None; ce_reason := None |};
      mret match approvalAudit with Some (detailCode, message) => Some (c, detailCode, message) | None => None end
  end.

Definition send_prepared input tool (m : Mutation) (invocationId : jstr) (context : GatewayInvocationContext)
    (request : GatewayExecutorRequest) (pending : GatewayRecoveryPendingDispatch) : program GatewayDispatchOutcome :=
  unaudited ← approve input tool m invocationId;
  match unaudited with
  | Some (c, detailCode, message) =>
      finishFailure input tool (mu_flow m) (with_confirmation
        (Some (confirmed_audit c (Some (js "approval_audit_unavailable"))))
        (at_invocation invocationId (Some context) false (failure audit_unavailable (Some detailCode) message)))
  | None =>
      (** whatever it returns or throws, the evidence decides *)
      @Call call answer thrown _ (c_executePreparedMutation (tr_executor tool) request pending) (λ _,
        settle input tool m invocationId context pending)
  end.

Definition confirmation_proof input tool (m : Mutation) (invocationId : jstr) (c : Confirmed) : GatewayConfirmationProof := {|
  cp_confirmToken := cc_confirmToken (cd_control c);
  cp_originatingPreviewInvocationId := cc_originatingPreviewInvocationId (cd_control c);
  cp_commitInvocationId := invocationId;
  cp_binding := {|
    pb_tenantId := ac_tenantId (au_actor (rq_auth input)); pb_principalKey := au_principalKey (rq_auth input);
    pb_userId := ac_userId (au_actor (rq_auth input)); pb_gatewaySessionId := as_sessionId (au_session (rq_auth input));
    pb_confirmationSessionId := confirmation_session input; pb_oauthClientId := as_oauthClientId (au_session (rq_auth input));
    pb_rsid := ro_rsid (mu_route m); pb_toolName := tr_name tool; pb_toolVersion := tr_version tool;
    pb_commitArgsDigest := cd_commitArgsDigest c; pb_mutationScope := mu_scope m; pb_documentIdentity := mu_document m |};
  cp_scope := rq_scope input |}.

(** Persisting the dispatch, and what a refusal means. *)
Definition prepare_and_send input tool (m : Mutation) (invocationId : jstr) (context : GatewayInvocationContext)
    (request : GatewayExecutorRequest) (draft : Draft) : program GatewayDispatchOutcome :=
  let fail code detailCode message :=
    at_invocation invocationId (Some context) false (failure code (Some detailCode) message) in
  preparation ← await (c_prepareMutationDispatch
    {| pq_tenantId := ac_tenantId (au_actor (rq_auth input)); pq_attemptId := fw_attemptId (mu_flow m); pq_draft := draft;
       pq_confirmationProof := confirmation_proof input tool m invocationId <$> mu_confirmed m |});
  match preparation with
  | prepared pending | already_prepared pending => send_prepared input tool m invocationId context request pending
  | confirmation_rejected reason confirmationId pendingAction =>
      let previewDigest := cf_previewDigest <$> pendingAction in
      let previewRef := cf_previewRef <$> pendingAction in
      let commitArgsDigest := cd_commitArgsDigest <$> mu_confirmed m in
      emitConfirmationEvent
        {| ce_auth := snapshotAuditIdentity (rq_auth input); ce_confirmationSessionId := confirmation_session input;
           ce_scope := None;
           ce_status := match reason with confirmation_expired => status_expired | _ => status_denied end;
           ce_tool := tool; ce_confirmationId := confirmationId;
           ce_originatingPreviewInvocationId := originating (mu_confirmed m); ce_commitInvocationId := Some invocationId;
           ce_commitArgsDigest := commitArgsDigest; ce_previewDigest := previewDigest; ce_previewRef := previewRef;
           ce_reason := Some (refusal_name reason) |} ;;
      finishFailure input tool (mu_flow m) (with_confirmation
        (Some {| ca_decision := decided_denied; ca_confirmationId := confirmationId;
                 ca_originatingPreviewInvocationId := originating (mu_confirmed m); ca_previewDigest := previewDigest;
                 ca_previewRef := previewRef; ca_commitArgsDigest := commitArgsDigest; ca_reason := Some (refusal_name reason) |})
        (fail confirmation_denied (refusal_name reason) (js "confirmation policy denied the request")))
  | prepare_blocked reason holdIds =>
      finishFailure input tool (mu_flow m) (with_recovery holdIds []
        (fail recovery_blocked reason (js "durable mutation prepare blocked: " ++ reason)))
  | prepare_unavailable code message =>
      finishFailure input tool (mu_flow m) (fail recovery_unavailable (store_code_name code) message)
  | prepare_protocol_fault reason =>
      finishFailure input tool (mu_flow m)
        (fail recovery_protocol_fault reason (js "durable mutation prepare rejected: " ++ reason))
  | prepare_replay_terminal =>
      finishFailure input tool (mu_flow m)
        (fail recovery_protocol_fault (js "unexpected_terminal_replay")
           (js "a fresh mutation collided with retained terminal identity"))
  end.

(** The provenance a probe's origin and its successor record first. *)
Definition admit_probe input tool (m : Mutation) (invocationId : jstr) (context : GatewayInvocationContext)
    (request : GatewayExecutorRequest) (draft : Draft) : program GatewayDispatchOutcome :=
  let fail code detailCode message :=
    finishFailure input tool (mu_flow m)
      (at_invocation invocationId (Some context) false (failure code (Some (js detailCode)) (js message))) in
  admitted ← (if tr_name tool === MUTATION_PROBE_ORIGIN
              then if di_mutationProbeVerification this then await (c_recordOrigin context draft) else mret false
              else mret true : program bool);
  if negb admitted
  then fail recovery_unavailable "mutation_probe_origin_provenance_unavailable"
         "mutation probe origin provenance was not durably admitted" else
  next ← (if tr_name tool === MUTATION_PROBE_NEXT
          then if di_mutationProbeVerification this then await (c_prepareNext context draft) else mret None
          else mret (Some draft) : program (option Draft));
  match next with
  | None => fail recovery_blocked "mutation_probe_plan_unavailable" "mutation probe next has no exact audited recovery plan"
  | Some draft => prepare_and_send input tool m invocationId context request draft
  end.

Definition mutation_request tool (args : jsval) (context : GatewayInvocationContext) : GatewayExecutorRequest := {|
  er_toolName := tr_name tool; er_toolVersion := tr_version tool; er_executorMethod := tr_executorMethod tool;
  er_policyClass := tr_policyClass tool; er_mutationScopePolicy := tr_mutationScopePolicy tool; er_args := args;
  er_context := context |}.

Definition build_and_send input tool (m : Mutation) (invocationId : jstr) (context : GatewayInvocationContext)
  : program GatewayDispatchOutcome :=
  let fail code detailCode message :=
    finishFailure input tool (mu_flow m)
      (at_invocation invocationId (Some context) false (failure code (Some detailCode) message)) in
  if negb (ex_buildMutationDispatch (mu_executor m)) || negb (ex_executePreparedMutation (mu_executor m))
  then fail recovery_unavailable (js "executor_recovery_seam_missing") (js "mutating executor has no durable prepare/send seam")
  else
  let request := mutation_request tool (mu_args m) context in
  @Call call answer thrown _ (c_buildMutationDispatch (tr_executor tool) request) (λ built,
    match built with
    | Throw e => fail recovery_unavailable (js "envelope_prepare_failed") (errorMessage e)
    | Ok draft =>
        authorityError ← lift (of_js (preparedMutationAuthorityError (dr_expected draft) context tool));
        match authorityError with
        | Some reason => fail recovery_protocol_fault reason (js "prepared Bridge dispatch rejected: " ++ reason)
        | None => admit_probe input tool m invocationId context request draft
        end
    end).

Definition mutation_in_window input tool (m : Mutation) : program GatewayDispatchOutcome :=
  let planAwareMutationProbeNext := (tr_name tool === MUTATION_PROBE_NEXT) && di_mutationProbeVerification this in
  preflight ← (if planAwareMutationProbeNext then mret preflight_clear
               else await (c_preflightMutation (ac_tenantId (au_actor (rq_auth input))) (ro_rsid (mu_route m)) [mu_scope m])
               : program GatewayRecoveryPreflightResult);
  match preflight with
  | preflight_blocked reason holdIds =>
      finishFailure input tool (mu_flow m) (with_recovery holdIds []
        (failure recovery_blocked (Some reason) (js "mutation recovery hold blocks dispatch: " ++ join (js ",") holdIds)))
  | preflight_protocol_fault reason =>
      finishFailure input tool (mu_flow m)
        (failure recovery_protocol_fault (Some reason) (js "mutation recovery preflight rejected: " ++ reason))
  | preflight_unavailable code message =>
      finishFailure input tool (mu_flow m) (failure recovery_unavailable (Some (store_code_name code)) message)
  | preflight_clear =>
      now ← await c_clock;
      invocationId ← await (c_newInvocationId now);
      match create_context input (mu_route m)
              (invocation_input tool invocationId (tr_policyClass tool)
                 (Some (if tr_policyClass tool === class_confirm then decided_confirmed else decided_auto))
                 (cd_confirmationId <$> mu_confirmed m) (originating (mu_confirmed m))
                 (tr_mutationScopePolicy tool) (mu_args m) (fw_startedAtMs (mu_flow m))) with
      | Throw e => finishFailure input tool (mu_flow m) (at_invocation invocationId None false (context_failure e))
      | Ok context => build_and_send input tool m invocationId context
      end
  end.

(** The tests between the arguments and the window. *)
Definition dispatch_authorised_mutation input tool (flow : Flow) (args : jsval) (confirmed : option Confirmed)
    (route : GatewayInvocationRoute) (authority : GatewayInvocationAuthority) : program GatewayDispatchOutcome :=
  match ga_mutating authority, ga_mutationScope authority with
  | true, Some scope =>
      match tr_policyClass tool, rq_confirmation input with
      | class_gated, Some control =>
          let reason := js "gated_in_channel_approval_forbidden" in
          let supplied := confirmationIdFromToken (cc_confirmToken control) in
          let preview := Some (cc_originatingPreviewInvocationId control) in
          emitConfirmationEvent (denial input tool supplied preview None None reason) ;;
          finishFailure input tool flow (with_confirmation (Some (denied supplied preview None reason))
            (failure policy_enforcement_unavailable (Some reason)
               (js "gated tools require an out-of-band role-checked approval authority")))
      | class_gated, None =>
          finishFailure input tool flow (failure policy_enforcement_unavailable None
            (js "gated tools require an out-of-band role-checked approval authority"))
      | class_auto, Some _ =>
          finishFailure input tool flow (failure confirmation_denied (Some (js "confirmation_fields_not_allowed"))
            (js "confirmation control is not accepted for an auto tool"))
      | _, _ =>
          match executor_of tool with
          | None =>
              finishFailure input tool flow (failure executor_unavailable None
                (js "executor binding is unavailable: " ++ executor_name (tr_executor tool)))
          | Some executor =>
              in_window input tool flow route
                (mutation_in_window input tool
                   {| mu_flow := flow; mu_route := route; mu_scope := scope; mu_document := ga_documentIdentity authority;
                      mu_args := args; mu_executor := executor; mu_confirmed := confirmed |})
          end
      end
  | _, _ =>
      finishFailure input tool flow (failure recovery_protocol_fault (Some (js "registry_effect_mismatch"))
        (js "mutating registry row produced no authoritative mutation scope"))
  end.

Definition auditInvalidConfirmationArguments input tool : program (option ConfirmationAudit) :=
  match tr_policyClass tool, rq_confirmation input with
  | class_confirm, Some control =>
      let supplied := confirmationIdFromToken (cc_confirmToken control) in
      let preview := Some (cc_originatingPreviewInvocationId control) in
      emitConfirmationEvent (denial input tool supplied preview None None (js "invalid_arguments")) ;;
      mret (Some (denied supplied preview None (js "invalid_arguments")))
  | _, _ => mret None
  end.

(** What a tool of class confirm presents: [inl] ends the dispatch with a failure and,
    where one is due, the event of the denial. *)
Definition confirm_commit input tool (args : jsval)
  : result thrown (option ConfirmationEventInput * Failure + option Confirmed) :=
  if tr_policyClass tool !== class_confirm then Ok (inr None) else
  match rq_confirmation input with
  | None =>
      Ok (inl (None, failure confirmation_denied (Some (js "confirmation_proof_missing"))
                       (js "confirmation policy denied the request")))
  | Some control =>
      let supplied := confirmationIdFromToken (cc_confirmToken control) in
      let preview := Some (cc_originatingPreviewInvocationId control) in
      projection ← of_js (buildConfirmationCommitProjection tool (spread args));
      match projection with
      | commit_mode_required =>
          let reason := js "confirmation_commit_mode_required" in
          Ok (inl (Some (denial input tool supplied preview None None reason),
                   with_confirmation (Some (denied supplied preview None reason))
                     (failure confirmation_denied (Some reason) (js "confirmation policy denied the request"))))
      | commit_ok _ digest =>
          match supplied with
          | None =>
              let reason := js "malformed_token" in
              Ok (inl (Some (denial input tool None preview None (Some digest) reason),
                       with_confirmation (Some (denied None preview (Some digest) reason))
                         (failure confirmation_denied (Some reason) (js "confirmation policy denied the request"))))
          | Some confirmationId =>
              Ok (inr (Some {| cd_control := control; cd_confirmationId := confirmationId; cd_commitArgsDigest := digest |}))
          end
      end
  end.

(** The digest of arguments that have one. *)
Definition args_digest (args : jsval) : option jstr :=
  if isJsonValue args then match makeParamsDigest args with Ok digest => Some digest | Throw _ => None end else None.

Definition dispatchMutation input tool : program GatewayDispatchOutcome :=
  startedAtMs ← await c_clock;
  attemptId ← await (c_newAttemptId startedAtMs);
  let flow route authority paramsDigest := {|
    fw_startedAtMs := startedAtMs; fw_attemptId := attemptId; fw_route := route; fw_authority := authority;
    fw_paramsDigest := paramsDigest |} in
  let invalid message :=
    confirmation ← auditInvalidConfirmationArguments input tool;
    finishFailure input tool (flow None None (args_digest (rq_args input)))
      (with_confirmation confirmation (failure invalid_arguments None (js message))) in
  if negb (isJsonObject (rq_args input)) then invalid "tool arguments must be a finite JSON object" else
  match parse_args tool (rq_args input) with
  | parse_incomplete => invalid "registry schema validation did not complete"
  | parse_mismatch => invalid "tool arguments do not match the registry schema"
  | parse_data args =>
      match makeParamsDigest args with
      | Throw _ => invalid "tool arguments cannot be canonically digested"
      | Ok paramsDigest =>
          let flow route authority := flow route authority (Some paramsDigest) in
          gate ← lift (confirm_commit input tool args);
          match gate with
          | inl (Some event, f) => emitConfirmationEvent event ;; finishFailure input tool (flow None None) f
          | inl (None, f) => finishFailure input tool (flow None None) f
          | inr confirmed =>
              resolved ← resolve_authority input tool startedAtMs;
              let refused route e :=
                finishFailure input tool (flow route None)
                  (failure invalid_invocation_context (detail_of e (Some (js "route_resolution_failed"))) (errorMessage e)) in
              match resolved with
              | route_failed e => refused None e
              | authority_failed route e => refused (Some route) e
              | authorised route authority =>
                  dispatch_authorised_mutation input tool (flow (Some route) (Some authority)) args confirmed route authority
              end
          end
      end
  end.

(** ** A read *)

(** An exception inside the read's broad [try], with [failurePhase ?? phase] and
    [executorReached] as they stand when it is caught. *)
Record interrupted := { ix_error : thrown; ix_phase : DispatchUnavailablePhase; ix_reached : bool }.

Definition during {A} (phase : DispatchUnavailablePhase) (executorReached : bool) (p : program A)
  : prog call answer interrupted A :=
  map_error (λ e, {| ix_error := e; ix_phase := phase; ix_reached := executorReached |}) p.

(** [auditBase] and the request it belongs to. *)
Record Read := {
  rd_input : GatewayDispatchRequest; rd_startedAtMs : Z; rd_attemptId : jstr; rd_invocationId : jstr;
  rd_paramsDigest : option jstr }.

Definition read_audit (r : Read) (route : option GatewayInvocationRoute) (tool : option (GatewayToolRecord ZodType))
    (context : option GatewayInvocationContext) (authority : option GatewayInvocationAuthority) (paramsDigest : option jstr)
    (holdIds resolutionIds : list jstr) (executorReached : bool) (confirmation : option ConfirmationAudit)
  : DispatchAuditInput ZodType := {|
  da_auth := snapshotAuditIdentity (rq_auth (rd_input r)); da_route := route; da_mcpSessionId := rq_mcpSessionId (rd_input r);
  da_toolName := rq_toolName (rd_input r); da_invocationId := Some (rd_invocationId r); da_attemptId := rd_attemptId r;
  da_startedAtMs := rd_startedAtMs r; da_tool := tool; da_context := context; da_authority := authority;
  da_paramsDigest := paramsDigest; da_recoveryHoldIds := holdIds; da_recoveryResolutionIds := resolutionIds;
  da_executorReached := executorReached; da_confirmation := confirmation |}.

Definition read_failed (r : Read) (executorReached : option bool) (code : DispatchErrorCode) (detailCode : option jstr)
    (message : jstr) : GatewayDispatchOutcome :=
  outcome_of (rq_toolName (rd_input r)) (rd_invocationId r) (failed (error_of code detailCode message) executorReached None).

(** A read whose context exists. *)
Record ReadCall := {
  rc_read : Read; rc_tool : GatewayToolRecord ZodType; rc_route : GatewayInvocationRoute;
  rc_authority : GatewayInvocationAuthority; rc_context : GatewayInvocationContext; rc_args : jsval;
  rc_executor : GatewayExecutor }.

Definition call_audit (q : ReadCall) (holdIds resolutionIds : list jstr) (executorReached : bool) : DispatchAuditInput ZodType :=
  read_audit (rc_read q) (Some (rc_route q)) (Some (rc_tool q)) (Some (rc_context q)) (Some (rc_authority q))
    (rd_paramsDigest (rc_read q)) holdIds resolutionIds executorReached None.

Definition tenant_of (q : ReadCall) : jstr := ac_tenantId (au_actor (rq_auth (rd_input (rc_read q)))).

(** The outcome is not awaited inside the window, so an exception of its audit is
    seen after the release. *)
Definition conclude (q : ReadCall) (executorReached : bool) (holdIds resolutionIds : list jstr) (outcome : GatewayDispatchOutcome)
  : prog call answer interrupted (GatewayDispatchOutcome * bool) :=
  outcome ← during phase_window_release executorReached (finish outcome (call_audit q holdIds resolutionIds executorReached));
  mret (outcome, executorReached).

(** From the evidence of a probe's verification to its recovery plan. *)
Definition plan_verified (q : ReadCall) (hold : MutationHold.MutationHold)
  : prog call answer interrupted (GatewayDispatchOutcome * bool) :=
  let holdId := MutationHold.mh_holdId hold in
  planning ← during phase_window_acquire true
    (await (c_planRecoveryClearances (tenant_of q) (ic_rsid (rc_context q)) (MutationHold.mh_mutationScope hold) holdId));
  match planning with
  | planned plan | already_planned plan =>
      planProof ← during phase_window_acquire true (await (c_recordPlan (rc_context q) hold plan));
      match planProof with
      | None =>
          conclude q true [holdId] []
            (read_failed (rc_read q) (Some true) recovery_unavailable (Some (js "verification_plan_provenance_failed"))
               (js "mutation probe recovery plan provenance was not durably bound"))
      | Some proof =>
          outcome ← during phase_window_acquire true
            (lift (of_js (outcomeFromDurableTerminal (rc_tool q) (rd_invocationId (rc_read q)) [pp_journalRecord proof] None)));
          conclude q true [pp_holdId proof] [pp_resolutionId proof] outcome
      end
  | _ =>
      conclude q true [holdId] []
        (read_failed (rc_read q) (Some true)
           match planning with plan_blocked _ | plan_rejected _ => recovery_blocked | _ => recovery_unavailable end
           (Some (plan_kind planning)) (js "mutation probe audited evidence did not produce an exact recovery plan"))
  end.

(** The probe's verification, from the persisted dispatch on. *)
Definition send_verification (q : ReadCall) (request : GatewayExecutorRequest) (verification : VerificationDraft)
    (pending : GatewayRecoveryPendingDispatch) : prog call answer interrupted (GatewayDispatchOutcome * bool) :=
  ownerPrepared ← during phase_window_acquire false
    (await (c_recordVerificationPrepared (rc_context q) (vd_holdId verification) (vd_sessionBindingId verification)
              (vd_connectionId verification) (pd_envelopeDigest pending)));
  if negb ownerPrepared
  then conclude q false [] []
         (read_failed (rc_read q) (Some false) recovery_unavailable (Some (js "verification_owner_commit_failed"))
            (js "mutation probe verification provenance was not durably committed")) else
  @Call call answer interrupted _ (c_executePreparedMutation (tr_executor (rc_tool q)) request pending) (λ _,
    let evidence := {| rr_tenantId := tenant_of q; rr_rsid := ic_rsid (rc_context q);
                       rr_envelopeDigest := pd_envelopeDigest pending |} in
    reconciled ← during phase_window_acquire true (await (c_reconcilePendingDispatch evidence));
    match reconciled with
    | verification_evidence_ready =>
        recorded ← during phase_window_acquire true (await (c_recordVerificationEvidence evidence));
        match recorded with
        | evidence_recorded hold => plan_verified q hold
        | _ =>
            conclude q true [] []
              (read_failed (rc_read q) (Some true) recovery_blocked (Some (evidence_kind recorded))
                 (js "verification evidence was not audited"))
        end
    | _ =>
        conclude q true [] []
          (read_failed (rc_read q) (Some true) recovery_unavailable (Some (reconcile_kind reconciled))
             (js "verification terminal was not durably reconciled"))
    end).

Definition verify_probe (q : ReadCall) : prog call answer interrupted (GatewayDispatchOutcome * bool) :=
  let refuse code detailCode message :=
    conclude q false [] [] (read_failed (rc_read q) (Some false) code (Some detailCode) (js message)) in
  if negb (di_mutationProbeVerification this) || negb (ex_buildMutationDispatch (rc_executor q)) ||
     negb (ex_executePreparedMutation (rc_executor q)) || negb (di_verificationMethods this)
  then refuse recovery_unavailable (js "verification_workflow_unavailable")
         "mutation probe verification workflow is unavailable"
  else
  let request := mutation_request (rc_tool q) (rc_args q) (rc_context q) in
  draft ← during phase_window_acquire false (await (c_buildMutationDispatch (tr_executor (rc_tool q)) request));
  verification ← match em_bindings (dr_expected draft) with
                 | [binding] => during phase_window_acquire false (await (c_prepareVerification (rc_context q) draft binding))
                 | _ => mret None
                 end;
  match verification with
  | None => refuse recovery_blocked (js "verification_owner_or_hold_missing")
              "mutation probe verification has no exact owner-bound hold"
  | Some verification =>
      preparation ← during phase_window_acquire false
        (await (c_prepareVerificationDispatch (tenant_of q) (rd_attemptId (rc_read q)) verification));
      match preparation with
      | prepared pending | already_prepared pending => send_verification q request verification pending
      | _ =>
          refuse match preparation with prepare_blocked _ _ => recovery_blocked | _ => recovery_unavailable end
            (prepare_kind preparation) "mutation probe verification prepare failed"
      end
  end.

(** The executor's own call, and the audit awaited with it. *)
Definition execute_read (q : ReadCall) : prog call answer interrupted (GatewayDispatchOutcome * bool) :=
  executorOutcome ← during phase_executor true
    (await (c_execute (tr_executor (rc_tool q)) (mutation_request (rc_tool q) (rc_args q) (rc_context q))));
  outcome ← during phase_audit_finish true
    (finish (normalizeExecutorOutcome (rc_tool q) (rd_invocationId (rc_read q)) (Ok executorOutcome)) (call_audit q [] [] true));
  mret (outcome, true).

Definition read_in_window (q : ReadCall) : prog call answer interrupted (GatewayDispatchOutcome * bool) :=
  if tr_name (rc_tool q) === MUTATION_PROBE_VERIFY then verify_probe q else
  if negb (rq_beforeExecute (rd_input (rc_read q))) then execute_read q else
  admitted ← during phase_executor false (await (c_beforeExecute (rc_context q)));
  if admitted : bool then execute_read q else
  outcome ← during phase_audit_finish false
    (finish (read_failed (rc_read q) (Some false) recovery_unavailable (Some (js "correlated_recovery_denied"))
               (js "correlated recovery is unavailable")) (call_audit q [] [] false));
  mret (outcome, false).

(** The [catch] and the [finally] around the window's body. *)
Definition release_read (request : WindowRequest) (body : prog call answer interrupted (GatewayDispatchOutcome * bool))
  : prog call answer interrupted GatewayDispatchOutcome :=
  after body (λ r, @Call call answer interrupted _ (c_releaseInvocationWindow request) (λ released, Done
    match released, r with
    | Ok _, Ok (outcome, _) => Ok outcome
    | Ok _, Throw i => Throw i
    | Throw e, Ok (_, executorReached) =>
        Throw {| ix_error := e; ix_phase := phase_window_release; ix_reached := executorReached |}
    | Throw e, Throw i => Throw {| ix_error := e; ix_phase := ix_phase i; ix_reached := ix_reached i |}
    end)).

Definition queued_read (q : ReadCall) : prog call answer interrupted GatewayDispatchOutcome :=
  let rsid := ic_rsid (rc_context q) in
  let request := window_request (rd_input (rc_read q)) rsid (rd_attemptId (rc_read q)) in
  serialize rsid (
    window ← during phase_window_acquire false (await (c_acquireInvocationWindow request));
    match window_failure window with
    | Some (code, detailCode, message) =>
        during phase_audit_finish false
          (finish (read_failed (rc_read q) None code (Some detailCode) message) (call_audit q [] [] false))
    | None => release_read request (read_in_window q)
    end).

(** The broad [try] and its [catch]. *)
Definition guarded_read (q : ReadCall) : program GatewayDispatchOutcome :=
  try_with (queued_read q) (λ i,
    if ga_mutating (rc_authority q) then Done (Throw (ix_error i))
    else mret (dispatchUnavailableOutcome (rq_toolName (rd_input (rc_read q))) (rd_invocationId (rc_read q))
                 (ix_reached i) (ix_phase i) (ix_error i))).

(** From the authority to the queue: the returns before it are not awaited, so an
    exception of their audit escapes the broad [try]. *)
Definition dispatch_authorised_read (r : Read) tool (args : jsval) (paramsDigest : jstr) (route : GatewayInvocationRoute)
    (authority : GatewayInvocationAuthority) : program GatewayDispatchOutcome :=
  match create_context (rd_input r) route
          (invocation_input tool (rd_invocationId r) (tr_policyClass tool) None None None (tr_mutationScopePolicy tool) args
             (rd_startedAtMs r)) with
  | Throw e =>
      finish (read_failed r None invalid_invocation_context (detail_of e None) (errorMessage e))
        (read_audit r (Some route) (Some tool) None (Some authority) (Some paramsDigest) [] [] false None)
  | Ok context =>
      let audit := read_audit r (Some route) (Some tool) (Some context) (Some authority) (rd_paramsDigest r) [] [] false None in
      if tr_policyClass tool !== class_auto
      then finish (read_failed r None policy_enforcement_unavailable None
                     (js "policy middleware is not available for " ++ class_name (tr_policyClass tool) ++ js " tools")) audit
      else match executor_of tool with
      | None =>
          finish (read_failed r None executor_unavailable None
                    (js "executor binding is unavailable: " ++ executor_name (tr_executor tool))) audit
      | Some executor =>
          guarded_read {| rc_read := r; rc_tool := tool; rc_route := route; rc_authority := authority; rc_context := context;
                          rc_args := args; rc_executor := executor |}
      end
  end.

(** From the arguments to the authority. *)
Definition dispatch_known_read (r : Read) tool : program GatewayDispatchOutcome :=
  let input := rd_input r in
  let invalid message :=
    finish (read_failed r None invalid_arguments None (js message))
      (read_audit r None (Some tool) None None (rd_paramsDigest r) [] [] false None) in
  if negb (isJsonObject (rq_args input)) then invalid "tool arguments must be a finite JSON object" else
  match parse_args tool (rq_args input) with
  | parse_incomplete => invalid "registry schema validation did not complete"
  | parse_mismatch => invalid "tool arguments do not match the registry schema"
  | parse_data args =>
      match makeParamsDigest args with
      | Throw _ => invalid "tool arguments cannot be canonically digested"
      | Ok paramsDigest =>
          resolved ← resolve_authority input tool (rd_startedAtMs r);
          match resolved with
          | route_failed e =>
              finish (read_failed r None invalid_invocation_context (Some (js "route_resolution_failed")) (errorMessage e))
                (read_audit r None (Some tool) None None (Some paramsDigest) [] [] false None)
          | authority_failed route e =>
              finish (read_failed r None invalid_invocation_context (detail_of e None) (errorMessage e))
                (read_audit r (Some route) (Some tool) None None (Some paramsDigest) [] [] false None)
          | authorised route authority => dispatch_authorised_read r tool args paramsDigest route authority
          end
      end
  end.

(** The answer to a request whose identity is not acceptable, before any audit. *)
Definition scope_rejected input (detailCode message : jstr) : GatewayDispatchOutcome :=
  outcome_of (rq_toolName input) (js "effective-mcp-scope-rejected")
    (failed (error_of invalid_invocation_context (Some detailCode) message) (Some false) None).

Definition dispatchRead input : program GatewayDispatchOutcome :=
  startedAtMs ← await c_clock;
  attemptId ← await (c_newAttemptId startedAtMs);
  invocationId ← match rq_invocationIdOverride input with
                 | Some id => mret id
                 | None => await (c_newInvocationId startedAtMs)
                 end;
  if match rq_invocationIdOverride input with Some id => negb (isGatewayUuidV7 id) | None => false end
  then mret (scope_rejected input (js "invalid_invocation_route") (js "Gateway-owned invocation identity is invalid"))
  else
  let r := {| rd_input := input; rd_startedAtMs := startedAtMs; rd_attemptId := attemptId; rd_invocationId := invocationId;
              rd_paramsDigest := args_digest (rq_args input) |} in
  match di_registry this (rq_toolName input) with
  | None =>
      finish (read_failed r None tool_not_found None (js "unknown Gateway tool: " ++ rq_toolName input))
        (read_audit r None None None None (rd_paramsDigest r) [] [] false None)
  | Some tool =>
      match rq_confirmation input with
      | Some control =>
          if tr_policyClass tool === class_confirm then dispatch_known_read r tool else
          let supplied := confirmationIdFromToken (cc_confirmToken control) in
          let preview := Some (cc_originatingPreviewInvocationId control) in
          let reason := js "confirmation_fields_not_allowed" in
          emitConfirmationEvent (denial input tool supplied preview (Some invocationId) None reason) ;;
          finish (read_failed r (Some false) confirmation_denied (Some reason)
                    (js "confirmation control is not accepted for this tool"))
            (read_audit r None (Some tool) None None (rd_paramsDigest r) [] [] false
               (Some (denied supplied preview None reason)))
      | None => dispatch_known_read r tool
      end
  end.

(** ** The entry point *)

Definition ingress_check input : result context_error unit :=
  assertEffectiveMcpRequestScopeV1 (rq_scope input) (rq_auth input) (rq_mcpSessionId input) ;;
  refuse_if (match rq_confirmationSessionId input with
             | Some id => id !== es_effectiveMcpSessionId (rq_scope input)
             | None => false
             end)
    mcp_session_binding_mismatch "confirmation authority must use the effective MCP request scope".

Definition dispatch input : program GatewayDispatchOutcome :=
  match ingress_check input with
  | Throw e =>
      let e := thrown_error e in
      mret (scope_rejected input (nullish (detail_of e None) (js "mcp_session_binding_mismatch")) (errorMessage e))
  | Ok _ =>
      match di_registry this (rq_toolName input) with
      | None => dispatchRead input
      | Some tool =>
          match tr_policyClass tool, rq_confirmation input with
          | class_confirm, None => dispatchConfirmationPreview input tool
          | _, _ =>
              if tr_mutationScopePolicy tool === policy_none then dispatchRead input else dispatchMutation input tool
          end
      end
  end.

End dispatcher.
End Dispatch.
