(* ===== verification/DispatchTraces.v ===== *)
(** What every run of a dispatch does: theorems about [Dispatch]. *)

From S2P Require Import Prelude JsString JsValue JsMap Canonical Sha256 Journal MutationHold ProtocolStore.
From S2P Require Import Identifiers InvocationContext Registry Confirmation BatchDispatch Projection Effects.
From S2P Require Import DispatchData Dispatch.

Module DispatchFacts.
Import Canonical Identifiers InvocationContext Registry Confirmation BatchDispatch Projection DispatchData Dispatch.

Abbreviation history := (list (event call answer)).

(** ** What a history says *)

(** The window that is open, if any. *)
Fixpoint window_of (h : history) : option WindowRequest :=
  match h with
  | [] => None
  | Event (c_acquireInvocationWindow r) (Ok window_acquired) :: _ => Some r
  | Event (c_acquireInvocationWindow r) (Ok window_already_acquired) :: _ => Some r
  | Event (c_releaseInvocationWindow _) _ :: _ => None
  | _ :: h => window_of h
  end.

(** The place in the queue of a route. *)
Inductive queue_state := idle | waiting (rsid : jstr) (prior : option Z) (tail : Z) | running (rsid : jstr) (tail : Z).

Fixpoint queue_of (h : history) : queue_state :=
  match h with
  | [] => idle
  | Event (c_enterTail rsid) (prior, tail) :: _ => waiting rsid prior tail
  | Event (c_awaitTail _) _ :: h => match queue_of h with waiting rsid _ tail => running rsid tail | q => q end
  | Event (c_leaveTail _ _) _ :: _ => idle
  | _ :: h => queue_of h
  end.

(** A mutation was handed to an executor. *)
Definition is_send (e : event call answer) : bool :=
  match e with Event (c_executePreparedMutation _ _ _) _ => true | _ => false end.
Definition sent (h : history) : bool := existsb is_send h.

(** The calls that audit. *)
Definition audits (c : call) : bool :=
  match c with c_clock | c_nextSequence | c_newEventId _ | c_emit _ => true | _ => false end.
Definition audit_event (e : event call answer) : Prop := match e with Event c _ => audits c = true end.

Lemma window_of_audits es h : Forall audit_event es → window_of (es ++ h) = window_of h.
Proof. induction 1 as [|[c a] es Hc Hes IH]; cbn; [done|]. by destruct c. Qed.

Lemma queue_of_audits es h : Forall audit_event es → queue_of (es ++ h) = queue_of h.
Proof. induction 1 as [|[c a] es Hc Hes IH]; cbn; [done|]. by destruct c. Qed.

Lemma sent_audits es h : Forall audit_event es → sent (es ++ h) = sent h.
Proof. induction 1 as [|[c a] es Hc Hes IH]; cbn; [done|]. by destruct c. Qed.

(** An event of the given type whose payload has the given field, and that was recorded. *)
Definition recorded (h : history) (type : string) (field : string) (value : jsval) : Prop :=
  ∃ ev, Event (c_emit ev) (Ok port_ok) ∈ h ∧ ev_event_type ev = js type ∧ property (ev_payload ev) field = value.

Section facts.
Context `{Hasher} {ZodType : Type}.
Context (safeParse : list (jstr * option ZodType) → jsval → result thrown (option jsval)).
Context (this : GatewayDispatcher ZodType) (input : GatewayDispatchRequest).
Implicit Types tool : GatewayToolRecord ZodType.

Definition the_tool tool : Prop := di_registry this (rq_toolName input) = Some tool.
Definition tenant : jstr := ac_tenantId (au_actor (rq_auth input)).

(** ** What may be called when *)

(** The executor may be contacted for [r]: the queue of its route has been awaited and
    the route's window is held. *)
Definition contact (h : history) (r : GatewayExecutorRequest) (permitted : GatewayToolRecord ZodType → WindowRequest → Prop) : Prop :=
  ∃ tool w tail,
    the_tool tool ∧ er_toolName r = tr_name tool ∧ window_of h = Some w ∧ queue_of h = running (wr_rsid w) tail ∧
    wr_tenantId w = tenant ∧ ic_rsid (er_context r) = wr_rsid w ∧ permitted tool w.

(** The policy under which a mutation may be built and sent: never a gated tool, and a
    tool of class confirm only with a confirmation. *)
Definition mutation_permitted tool : Prop :=
  tr_mutationScopePolicy tool ≠ policy_none ∧
  (tr_policyClass tool = class_auto ∧ rq_confirmation input = None ∨
   tr_policyClass tool = class_confirm ∧ is_Some (rq_confirmation input)).

Definition probe_verification tool : Prop :=
  tr_policyClass tool = class_auto ∧ tr_mutationScopePolicy tool = policy_none ∧ tr_name tool = MUTATION_PROBE_VERIFY.

(** The dispatch of [request] as [pending] was persisted. *)
Definition was_prepared (h : history) (q : PrepareRequest) (pending : GatewayRecoveryPendingDispatch) : Prop :=
  Event (c_prepareMutationDispatch q) (Ok (prepared pending)) ∈ h ∨
  Event (c_prepareMutationDispatch q) (Ok (already_prepared pending)) ∈ h.

(** The draft came from the executor and agrees with the context. *)
Definition draft_checked (h : history) tool (b : GatewayExecutorBinding) (r : GatewayExecutorRequest) (draft : Draft) : Prop :=
  Event (c_buildMutationDispatch b r) (Ok draft) ∈ h ∧
  preparedMutationAuthorityError (dr_expected draft) (er_context r) tool = Ok None.

(** The confirmation a mutation was prepared with. *)
Definition confirmed_by_user (h : history) (r : GatewayExecutorRequest) (q : PrepareRequest) : Prop :=
  ∃ control proof,
    rq_confirmation input = Some control ∧ pq_confirmationProof q = Some proof ∧
    cp_confirmToken proof = cc_confirmToken control ∧
    cp_originatingPreviewInvocationId proof = cc_originatingPreviewInvocationId control ∧
    cp_commitInvocationId proof = ic_invocationId (er_context r) ∧
    makeParamsDigest (er_args r) = Ok (pb_commitArgsDigest (cp_binding proof)) ∧
    recorded h "tool.confirmation" "state" (VStr (js "approved")).

Definition send_conditions (h : history) tool (w : WindowRequest) (b : GatewayExecutorBinding) (r : GatewayExecutorRequest)
    (pending : GatewayRecoveryPendingDispatch) : Prop :=
  sent h = false ∧
  (probe_verification tool ∧
     (∃ verification, Event (c_prepareVerificationDispatch tenant (wr_attemptId w) verification) (Ok (prepared pending)) ∈ h ∨
                      Event (c_prepareVerificationDispatch tenant (wr_attemptId w) verification) (Ok (already_prepared pending)) ∈ h)
   ∨ mutation_permitted tool ∧
     ∃ q, was_prepared h q pending ∧ pq_tenantId q = tenant ∧ pq_attemptId q = wr_attemptId w ∧
          (tr_name tool ≠ MUTATION_PROBE_NEXT → draft_checked h tool b r (pq_draft q)) ∧
          (tr_policyClass tool = class_confirm → confirmed_by_user h r q)).

(** A pending action is created for the preview the user is shown. *)
Definition issue_conditions (h : history) tool (i : GatewayPendingActionIssueInput) : Prop :=
  sent h = false ∧ tr_policyClass tool = class_confirm ∧ rq_confirmation input = None ∧
  ∃ b r v,
    Event (c_previewConfirmation b r) (Ok v) ∈ h ∧
    er_mutationScopePolicy r = policy_none ∧ ic_mutating (er_context r) = false ∧
    ic_invocationId (er_context r) = ii_originatingPreviewInvocationId i ∧
    let shown := go_body (normalizeExecutorOutcome tool (ii_originatingPreviewInvocationId i) (Ok v)) in
    body_ok shown = true ∧ makeParamsDigest (body_value shown) = Ok (ii_previewDigest i) ∧
    ∃ data args method commit,
      safeParse (tr_inputSchema tool) (rq_args input) = Ok (Some data) ∧
      buildConfirmationPreviewProjection tool (spread data) = Ok (preview_ok args method commit (pb_commitArgsDigest (ii_binding i))) ∧
      er_args r = obj args ∧ er_executorMethod r = method.

(** The dispatch whose evidence is asked for was handed to its executor. *)
Definition evidence_asked (h : history) (rr : ReconcileRequest) : Prop :=
  ∃ b r pending a,
    Event (c_executePreparedMutation b r pending) a ∈ h ∧ rr_tenantId rr = tenant ∧ rr_rsid rr = ic_rsid (er_context r) ∧
    rr_envelopeDigest rr = pd_envelopeDigest pending.

Definition allowed (h : history) (c : call) : Prop :=
  match c with
  | c_enterTail _ => queue_of h = idle ∧ window_of h = None
  | c_awaitTail prior => ∃ rsid tail, queue_of h = waiting rsid prior tail
  | c_leaveTail rsid tail => queue_of h = running rsid tail ∧ window_of h = None
  | c_acquireInvocationWindow r => window_of h = None ∧ ∃ tail, queue_of h = running (wr_rsid r) tail
  | c_releaseInvocationWindow r => window_of h = Some r
  | c_execute _ r =>
      contact h r (λ tool _, tr_policyClass tool = class_auto ∧ tr_mutationScopePolicy tool = policy_none)
  | c_previewConfirmation _ r =>
      contact h r (λ tool _, tr_policyClass tool = class_confirm ∧ rq_confirmation input = None ∧
                             er_mutationScopePolicy r = policy_none ∧ ic_mutating (er_context r) = false)
  | c_buildMutationDispatch _ r => contact h r (λ tool _, mutation_permitted tool ∨ probe_verification tool)
  | c_executePreparedMutation b r pending => contact h r (λ tool w, send_conditions h tool w b r pending)
  | c_reconcilePendingDispatch rr => evidence_asked h rr
  | c_createPendingAction i => ∃ tool, the_tool tool ∧ issue_conditions h tool i
  | c_recordPlan _ _ _ => ∃ tool, the_tool tool ∧ probe_verification tool
  | _ => True
  end.

(** ** What an answer means *)

(** Where the body of a successful answer comes from. *)
Definition evidence (h : history) tool (requestId : jstr) (body : DispatchBody) : Prop :=
  (∃ b r v, Event (c_execute b r) (Ok v) ∈ h ∧ body = go_body (normalizeExecutorOutcome tool requestId (Ok v))) ∨
  (∃ b r v, Event (c_previewConfirmation b r) (Ok v) ∈ h ∧ body = go_body (normalizeExecutorOutcome tool requestId (Ok v))) ∨
  (∃ q cleared records batch o,
     Event (c_reconcilePendingDispatch q) (Ok (terminal_recorded cleared records batch)) ∈ h ∧
     outcomeFromDurableTerminal tool requestId records batch = Ok o ∧ body = go_body o) ∨
  (∃ context hold plan proof o,
     Event (c_recordPlan context hold plan) (Ok (Some proof)) ∈ h ∧
     outcomeFromDurableTerminal tool requestId [pp_journalRecord proof] None = Ok o ∧ body = go_body o).

Definition ticket_evidence (h : history) (value : jsval) (t : ConfirmationTicket) : Prop :=
  ∃ i action b r v tool,
    Event (c_createPendingAction i) (Ok (issued (ct_confirmToken t) action)) ∈ h ∧
    Event (c_previewConfirmation b r) (Ok v) ∈ h ∧ the_tool tool ∧
    value = body_value (go_body (normalizeExecutorOutcome tool (ct_originatingPreviewInvocationId t) (Ok v))) ∧
    makeParamsDigest value = Ok (ct_previewDigest t) ∧
    ct_previewDigest t = ii_previewDigest i ∧ ct_previewRef t = ii_previewRef i ∧
    ct_commitArgsDigest t = pb_commitArgsDigest (ii_binding i) ∧
    ct_originatingPreviewInvocationId t = ii_originatingPreviewInvocationId i ∧
    ct_confirmationId t = cf_confirmationId action ∧ ct_expiresAtMs t = cf_expiresAtMs action ∧
    recorded h "tool.confirmation" "state" (VStr (js "requested")).

Definition justified (h : history) (o : GatewayDispatchOutcome) : Prop :=
  match go_body o with
  | failed _ _ _ => True
  | confirmation_required _ _ value ticket => ticket_evidence h value ticket
  | body => ∃ tool, the_tool tool ∧ evidence h tool (go_requestId o) body
  end.

(** A success was recorded, unless it carries the mark of a mutation whose record is
    missing. *)
Definition audited (h : history) (o : GatewayDispatchOutcome) : Prop :=
  body_ok (go_body o) = true →
  match go_auditError o with
  | None => recorded h "tool.invocation" "outcome" (VStr (body_state (go_body o)))
  | Some _ => sent h = true
  end.

Definition answered (h : history) (o : GatewayDispatchOutcome) : Prop := justified h o ∧ audited h o.

Definition dispatch_post (h : history) (r : result thrown GatewayDispatchOutcome) : Prop :=
  queue_of h = idle ∧ window_of h = None ∧ ∀ o, r = Ok o → answered h o.

(** ** Monotonicity *)

Lemma recorded_sub h h' type field value : h ⊆ h' → recorded h type field value → recorded h' type field value.
Proof. intros Hs (ev & Hin & ?). exists ev. split; [by apply Hs|done]. Qed.

Lemma sent_sub h h' : h ⊆ h' → sent h = true → sent h' = true.
Proof. unfold sent. rewrite !existsb_true. intros Hs (e & Hin & ?). exists e. split; [by apply Hs|done]. Qed.

Lemma evidence_asked_sub h h' rr : h ⊆ h' → evidence_asked h rr → evidence_asked h' rr.
Proof. intros Hs (b & r & pending & a & Hin & ?). exists b, r, pending, a. split; [by apply Hs|done]. Qed.

Lemma evidence_sub h h' tool requestId body : h ⊆ h' → evidence h tool requestId body → evidence h' tool requestId body.
Proof.
  intros Hs [(b & r & v & Hin & ?)|[(b & r & v & Hin & ?)|[(q & cl & rs & bt & o & Hin & ?)|(c & hd & p & pr & o & Hin & ?)]]];
    apply Hs in Hin.
  - left; eauto 6.
  - right; left; eauto 6.
  - do 2 right; left; eauto 10.
  - do 3 right; eauto 10.
Qed.

Lemma justified_sub h h' o : h ⊆ h' → justified h o → justified h' o.
Proof.
  intros Hs Hj. unfold justified in *. destruct (go_body o) as [| | |? ? value ticket|]; try done;
    try (destruct Hj as (tool & ? & ?); exists tool; split; [done|by eapply evidence_sub]).
  destruct Hj as (i & action & b & r & v & tool & Hin & Hin' & ? & ? & ? & ? & ? & ? & ? & ? & ? & ?).
  exists i, action, b, r, v, tool. repeat split; try done; [by apply Hs|by apply Hs|by eapply recorded_sub].
Qed.

Lemma answered_sub h h' o : h ⊆ h' → answered h o → answered h' o.
Proof.
  intros Hs [Hj Ha]. split; [by eapply justified_sub|].
  unfold audited in *. destruct (go_auditError o); [|by eauto using recorded_sub]. intros Hok. by eapply sent_sub, Ha.
Qed.

Lemma answered_failed h o : body_ok (go_body o) = false → answered h o.
Proof. intros Hf. unfold answered, justified, audited. rewrite Hf. by destruct (go_body o). Qed.

(** ** Auditing *)

Lemma delivered_failed o (i : DispatchAuditInput ZodType) a :
  body_ok (go_body o) = false → body_ok (go_body (delivered o i a)) = false.
Proof. intros Ho. destruct a as [[|p c m]|e]; cbn; [done|..]; unfold undelivered; by case_match. Qed.

(** Rules about the calls of a dispatch never forbid its audit. *)
Class AuditsAllowed (al : history → call → Prop) : Prop := audits_allowed h c : audits c = true → al h c.
#[local] Instance allowed_audits : AuditsAllowed allowed.
Proof. intros h c. by destruct c. Qed.
#[local] Instance anything_audits : AuditsAllowed (λ _ _, True).
Proof. done. Qed.

Lemma wp_finish al `{AuditsAllowed al} o (i : DispatchAuditInput ZodType) h (Q : history → result thrown GatewayDispatchOutcome → Prop) :
  (∀ es e, Forall audit_event es → Q (es ++ h) (Throw e)) →
  (∀ es ev a, Forall audit_event es → ev_event_type ev = js "tool.invocation" →
     property (ev_payload ev) "outcome" = VStr (body_state (go_body o)) →
     Q (Event (c_emit ev) a :: es ++ h) (Ok (delivered o i a))) →
  wp al (finish this o i) h Q.
Proof.
  intros Ht Hd. unfold finish.
  apply wp_bind, wp_call; [by apply audits_allowed|]. intros [ms|e]; apply wp_done; cbv beta iota; [|apply (Ht [_]); by repeat constructor].
  apply wp_bind, wp_call; [by apply audits_allowed|]. intros seq; apply wp_done; cbv beta iota.
  apply wp_bind, wp_done. destruct (toISOString ms) as [at_|e]; cbv beta iota delta [of_js of_context rethrow]; [|apply (Ht [_; _]); by repeat constructor].
  apply wp_bind, wp_call; [by apply audits_allowed|]. intros [id|e]; apply wp_done; cbv beta iota; [|apply (Ht [_; _; _]); by repeat constructor].
  apply wp_call; [by apply audits_allowed|]. intros a. apply wp_done.
  apply (Hd [_; _; _]); [by repeat constructor|done|done].
Qed.

(** A dispatch that ends in failure leaves queue and window as they were. *)
Lemma wp_failing o (i : DispatchAuditInput ZodType) h (Q : history → result thrown GatewayDispatchOutcome → Prop) :
  body_ok (go_body o) = false →
  (∀ es r, Forall audit_event es → (∀ o', r = Ok o' → body_ok (go_body o') = false) → Q (es ++ h) r) →
  wp allowed (finish this o i) h Q.
Proof.
  intros Ho HQ. apply (wp_finish allowed); [intros; by apply HQ|]. intros es ev a Hes _ _.
  apply (HQ (_ :: es)); [by constructor|]. intros o' [= <-]. by apply delivered_failed.
Qed.

Lemma wp_emit al `{AuditsAllowed al} (i : ConfirmationEventInput) h (Q : history → result thrown (option (jstr * jstr)) → Prop) :
  (∀ es e, Forall audit_event es → Q (es ++ h) (Throw e)) →
  (∀ es ev a, Forall audit_event es → ev_event_type ev = js "tool.confirmation" →
     property (ev_payload ev) "state" = VStr (status_name (ce_status i)) →
     Q (Event (c_emit ev) a :: es ++ h) (Ok (emission_failure a))) →
  wp al (emitConfirmationEvent this i) h Q.
Proof.
  intros Ht Hd. unfold emitConfirmationEvent.
  apply wp_bind, wp_call; [by apply audits_allowed|]. intros [ms|e]; apply wp_done; cbv beta iota; [|apply (Ht [_]); by repeat constructor].
  apply wp_bind, wp_call; [by apply audits_allowed|]. intros seq; apply wp_done; cbv beta iota.
  apply wp_bind, wp_done. destruct (toISOString ms) as [at_|e]; cbv beta iota delta [of_js of_context rethrow]; [|apply (Ht [_; _]); by repeat constructor].
  apply wp_bind, wp_call; [by apply audits_allowed|]. intros [id|e]; apply wp_done; cbv beta iota; [|apply (Ht [_; _; _]); by repeat constructor].
  apply wp_call; [by apply audits_allowed|]. intros a. apply wp_done.
  apply (Hd [_; _; _]); [by repeat constructor|done|done].
Qed.

Lemma emission_recorded a : emission_failure a = None → a = Ok port_ok.
Proof. by destruct a as [[]|]. Qed.

(** ** In the queue and in the window *)

(** The state between the events of a dispatch. *)
Definition placed (h : history) (q : queue_state) (w : option WindowRequest) : Prop := queue_of h = q ∧ window_of h = w.

Lemma placed_audits es h q w : Forall audit_event es → placed h q w → placed (es ++ h) q w.
Proof. intros Hes [<- <-]. split; [by apply queue_of_audits|by apply window_of_audits]. Qed.

(** What a part of a dispatch guarantees that starts and ends in the same place. *)
Definition kept (q : queue_state) (w : option WindowRequest) (h : history) (r : result thrown GatewayDispatchOutcome) : Prop :=
  placed h q w ∧ ∀ o, r = Ok o → answered h o.

(** A dispatch that ends with a result that is accounted for. *)
Lemma wp_finish_kept o (i : DispatchAuditInput ZodType) h q w :
  placed h q w → justified h o → go_auditError o = None → (mutation_reached i = true → sent h = true) →
  wp allowed (finish this o i) h (kept q w).
Proof.
  intros Hp Hj Hn Hs. apply (wp_finish allowed); [intros es e Hes; split; [by apply placed_audits|done]|].
  intros es ev a Hes Hty Hout. split; [apply (placed_audits (_ :: es)); [by constructor|done]|]. intros o' [= <-].
  assert (h ⊆ Event (c_emit ev) a :: es ++ h) as Hsub by set_solver.
  assert (∀ d m, answered (Event (c_emit ev) a :: es ++ h) (undelivered o i d m)) as Hu.
  { intros d m. unfold undelivered. case_match eqn:Em; [|by apply answered_failed].
    split; [by eapply (justified_sub h _ {| go_auditError := Some (d, m) |})|]. intros _. by eapply sent_sub, Hs. }
  destruct a as [[|p c m]|e]; [|apply Hu..]. split; [by eapply justified_sub|].
  intros Hok. cbn. rewrite Hn. exists ev. split; [by left|done].
Qed.

Lemma wp_failing_kept o (i : DispatchAuditInput ZodType) h q w :
  placed h q w → body_ok (go_body o) = false → wp allowed (finish this o i) h (kept q w).
Proof.
  intros Hp Ho. apply wp_failing; [done|]. intros es r Hes Hr.
  split; [by apply placed_audits|]. intros o' ->. by apply answered_failed, Hr.
Qed.

Lemma wp_finishFailure tool flow f h q w :
  placed h q w → wp allowed (finishFailure this input tool flow f) h (kept q w).
Proof. intros Hp. by apply wp_failing_kept. Qed.

Lemma kept_throw q w h e : placed h q w → kept q w h (Throw e).
Proof. by split. Qed.

(** An event about which the failure follows. *)
Lemma wp_emit_then {A} (i : ConfirmationEventInput) h q w (k : option (jstr * jstr) → program A)
    (Q : history → result thrown A → Prop) :
  placed h q w →
  (∀ h' e, h ⊆ h' → placed h' q w → Q h' (Throw e)) →
  (∀ h' a, h ⊆ h' → placed h' q w → sent h' = sent h →
     (a = None → recorded h' "tool.confirmation" "state" (VStr (status_name (ce_status i)))) → wp allowed (k a) h' Q) →
  wp allowed (emitConfirmationEvent this i ≫= k) h Q.
Proof.
  intros Hp Ht Hk. apply wp_bind, (wp_emit allowed).
  - intros es e Hes. apply Ht; [set_solver|by apply placed_audits].
  - intros es ev a Hes Hty Hst. apply Hk.
    + set_solver.
    + apply (placed_audits (_ :: es)); [by constructor|done].
    + apply (sent_audits (_ :: es)). by constructor.
    + intros Ha%emission_recorded. subst a. exists ev. split; [by left|done].
Qed.

Lemma wp_serialize {E T} rsid (operation : prog call answer E T) h (Q : history → result E T → Prop) :
  placed h idle None →
  (∀ h' tail, h ⊆ h' → sent h' = sent h → placed h' (running rsid tail) None →
     wp allowed operation h' (λ h'' r, placed h'' (running rsid tail) None ∧ ∀ e, Q (Event (c_leaveTail rsid tail) e :: h'') r)) →
  wp allowed (serialize rsid operation) h Q.
Proof.
  intros [Hq Hw] Hop. unfold serialize.
  apply wp_call; [by split|]. intros [prior tail].
  apply wp_call; [exists rsid, tail; by cbn|]. intros [].
  apply wp_try_finally. eapply wp_mono.
  - apply (Hop _ tail); [set_solver|done|]. split; [done|cbn; exact Hw].
  - intros h'' r [Hp HQ]. apply wp_call; [exact Hp|]. intros u. apply wp_done, HQ.
Qed.

Lemma window_failure_none w r h : window_failure w = None → window_of (Event (c_acquireInvocationWindow r) (Ok w) :: h) = Some r.
Proof. by destruct w. Qed.

Lemma window_failure_some w f r h :
  window_failure w = Some f → window_of (Event (c_acquireInvocationWindow r) (Ok w) :: h) = window_of h.
Proof. by destruct w. Qed.

Lemma wp_in_window tool flow route body h :
  placed h idle None →
  (∀ h' tail, sent h' = sent h →
     placed h' (running (ro_rsid route) tail) (Some (window_request input (ro_rsid route) (fw_attemptId flow))) →
     wp allowed body h' (kept (running (ro_rsid route) tail) (Some (window_request input (ro_rsid route) (fw_attemptId flow))))) →
  wp allowed (in_window this input tool flow route body) h (kept idle None).
Proof.
  intros Hp Hbody. unfold in_window. apply wp_serialize; [done|]. intros h1 tail Hsub Hs [Hq Hw].
  eapply (wp_mono _ _ _ (kept (running (ro_rsid route) tail) None)).
  2:{ intros h2 r [Hp2 Ha]. split; [done|]. intros u. split; [split; [done|exact (proj2 Hp2)]|].
      intros o Ho. eapply answered_sub; [|by apply Ha]. set_solver. }
  apply wp_bind, wp_call; [split; [done|by exists tail]|].
  intros [window|e]; apply wp_done; cbv beta iota; [|by apply kept_throw].
  destruct (window_failure window) as [[[code detail] message]|] eqn:Ef.
  - apply wp_finishFailure. split; [done|]. by rewrite (window_failure_some _ _ _ _ Ef).
  - apply wp_try_finally. eapply wp_mono.
    + apply Hbody; [done|]. split; [done|by apply window_failure_none].
    + intros h2 r [[Hq2 Hw2] Ha]. apply wp_bind, wp_call; [exact Hw2|].
      assert (∀ u (a : answer (c_releaseInvocationWindow u)) r', (∀ o, r' = Ok o → r = Ok o) →
        kept (running (ro_rsid route) tail) None (Event (c_releaseInvocationWindow u) a :: h2) r') as Hk.
      { intros u a r' Hr. split; [by split|]. intros o Ho. eapply answered_sub; [|by apply Ha, Hr]. set_solver. }
      intros [released|e]; apply wp_done; cbv beta iota; [apply wp_done|]; by apply Hk.
Qed.

(** ** Contexts *)

Lemma derive_none auth route session scope started authority :
  deriveGatewayInvocationAuthority auth route session scope policy_none started = Ok authority → ga_mutating authority = false.
Proof. unfold deriveGatewayInvocationAuthority. intros Hd. by ok_inv Hd. Qed.

Lemma create_context_ok route i context :
  create_context input route i = Ok context →
  ic_rsid context = ro_rsid route ∧ ic_invocationId context = in_invocationId i ∧
  makeParamsDigest (in_args i) = Ok (ic_paramsDigest context) ∧
  (in_mutationScopePolicy i = policy_none → ic_mutating context = false).
Proof.
  unfold create_context, of_context. destruct (createGatewayInvocationContext _ _ _ _ _) as [c|] eqn:Ec; [|done]. intros [= <-].
  unfold createGatewayInvocationContext in Ec. ok_inv Ec.
  destruct (as_oauthClientId _) as [client|]; [|done]. ok_inv Ec.
  unfold rethrow, canonicalParamsDigest in Hok0. destruct (makeParamsDigest _) as [digest|]; [|done]. injection Hok0 as ->.
  repeat split. cbn. intros Hn. rewrite Hn in Hok1. by eapply derive_none.
Qed.

(** ** The preview *)

Definition previewable tool : Prop := the_tool tool ∧ tr_policyClass tool = class_confirm ∧ rq_confirmation input = None.

(** The preview's arguments and digest are those of the projection. *)
Definition projected tool (p : Preview) : Prop :=
  ∃ data commit, safeParse (tr_inputSchema tool) (rq_args input) = Ok (Some data) ∧
    buildConfirmationPreviewProjection tool (spread data) = Ok (preview_ok (pv_args p) (pv_method p) commit (pv_commitArgsDigest p)).

Lemma authorizable_ok tool o : isAuthorizableConfirmationPreview tool o = true → body_ok (go_body o) = true.
Proof. unfold isAuthorizableConfirmationPreview. by destruct (body_ok _). Qed.

Lemma preview_failed_failed tool id e : body_ok (go_body (normalizeExecutorOutcome tool id (Ok (preview_failed e)))) = false.
Proof.
  assert (is_str (property (preview_failed e) "state") (js "failed") = true) as Hst by reflexivity.
  unfold normalizeExecutorOutcome. rewrite Hst. destruct (isJsonObject (preview_failed e)); [|done]. cbv beta iota zeta delta [negb].
  by destruct (_ || _ || _).
Qed.

Lemma normalize_auditError tool id r : go_auditError (normalizeExecutorOutcome tool id r) = None.
Proof. unfold normalizeExecutorOutcome, invalidExecutorResult. repeat case_match; done. Qed.

Lemma normalize_request tool id r : go_requestId (normalizeExecutorOutcome tool id r) = id.
Proof. unfold normalizeExecutorOutcome, invalidExecutorResult. repeat case_match; done. Qed.

Lemma normalize_no_ticket tool id r ver ex value ticket :
  go_body (normalizeExecutorOutcome tool id r) ≠ confirmation_required ver ex value ticket.
Proof. unfold normalizeExecutorOutcome, invalidExecutorResult. repeat case_match; done. Qed.

Lemma justified_normalize h tool id v :
  the_tool tool → evidence h tool id (go_body (normalizeExecutorOutcome tool id (Ok v))) →
  justified h (normalizeExecutorOutcome tool id (Ok v)).
Proof.
  intros Ht He. unfold justified. rewrite normalize_request.
  destruct (go_body _) as [| | |? ? value ticket|] eqn:Eb; try (by exists tool); [|done].
  by apply normalize_no_ticket in Eb.
Qed.

Section preview.
Context tool (flow : Flow) (p : Preview) (invocationId : jstr) (context : GatewayInvocationContext) (tail : Z).
Context (Htool : previewable tool) (Hproj : projected tool p) (Hctx : ic_mutating context = false).
Let w := window_request input (ro_rsid (pv_route p)) (fw_attemptId flow).
Let q := running (ro_rsid (pv_route p)) tail.

Lemma wp_preview_finish o confirmation h :
  placed h q (Some w) → justified h o → go_auditError o = None →
  wp allowed (preview_finish this input tool flow o invocationId context confirmation) h (kept q (Some w)).
Proof. intros. apply wp_finish_kept; try done. unfold mutation_reached; cbn. by rewrite Hctx. Qed.

Lemma wp_request_confirmation b r v h :
  placed h q (Some w) → sent h = false → Event (c_previewConfirmation b r) (Ok v) ∈ h →
  er_mutationScopePolicy r = policy_none → ic_mutating (er_context r) = false → ic_invocationId (er_context r) = invocationId →
  er_args r = obj (pv_args p) → er_executorMethod r = pv_method p →
  body_ok (go_body (normalizeExecutorOutcome tool invocationId (Ok v))) = true →
  wp allowed (request_confirmation this input tool flow p invocationId context v (normalizeExecutorOutcome tool invocationId (Ok v)))
    h (kept q (Some w)).
Proof.
  intros Hp Hs Hin Hnone Hmut Hid Hargs Hmethod Hok. unfold request_confirmation.
  set (value := body_value _). apply wp_bind, wp_done. destruct (makeParamsDigest value) as [digest|e] eqn:Ed;
    cbv beta iota delta [of_js of_context rethrow]; [|by apply kept_throw].
  set (ref := preview_ref v digest). set (i := issue_input input tool p invocationId digest ref).
  destruct Htool as (Ht & Hclass & Hnoconf). destruct Hproj as (data & commit & Hparse & Hbuild).
  apply wp_bind, wp_call.
  { exists tool. split; [done|]. do 3 (split; [done|]). exists b, r, v. repeat (split; [done|]).
    exists data, (pv_args p), (pv_method p), commit. done. }
  intros [[token action|store]|e]; apply wp_done; cbv beta iota.
  - apply (wp_emit_then _ _ q (Some w)); [exact Hp|intros; by apply kept_throw|].
    intros h' a Hsub Hp' _ Hrec. destruct a as [[detail message]|]; [by apply wp_finishFailure|].
    apply wp_preview_finish; [done| |done]. cbn. exists i, action, b, r, v, tool.
    split; [apply Hsub; by left|]. split; [apply Hsub; by right|]. repeat (split; [done|]). by apply Hrec.
  - by apply wp_finishFailure.
  - by apply kept_throw.
Qed.

Lemma wp_run_preview executorContext h :
  placed h q (Some w) → sent h = false →
  ic_rsid executorContext = ro_rsid (pv_route p) → ic_invocationId executorContext = invocationId →
  ic_mutating executorContext = false →
  wp allowed (run_preview this input tool flow p invocationId context executorContext) h (kept q (Some w)).
Proof.
  intros Hp Hs Hrsid Hid Hmut. unfold run_preview.
  apply wp_call. { exists tool, w, tail. destruct Htool as (? & ? & ?), Hp as [? ?]. by repeat split. }
  intros [v|e].
  - case_match eqn:Ea.
    + apply wp_preview_finish; [done| |apply normalize_auditError]. apply justified_normalize; [apply Htool|].
      right; left. eexists _, _, v. split; [by left|done].
    + apply (wp_request_confirmation (tr_executor tool) (preview_request tool p executorContext)); try done; [by left|].
      apply negb_false_iff in Ea. destruct (serverAuthoredReadOnlyPreview p); [|by eapply authorizable_ok].
      by destruct (go_body _).
  - assert (Hf := preview_failed_failed tool invocationId e).
    case_match eqn:Ea; [by apply wp_failing_kept|]. apply negb_false_iff in Ea. exfalso.
    destruct (serverAuthoredReadOnlyPreview p); [by destruct (go_body _)|]. apply authorizable_ok in Ea. congruence.
Qed.

End preview.

Lemma wp_preview_in_window tool flow p tail h :
  previewable tool → projected tool p → sent h = false →
  let q := running (ro_rsid (pv_route p)) tail in
  let w := Some (window_request input (ro_rsid (pv_route p)) (fw_attemptId flow)) in
  placed h q w → wp allowed (preview_in_window this input tool flow p) h (kept q w).
Proof.
  intros Ht Hproj Hs q w Hp. unfold preview_in_window.
  apply wp_bind, wp_call; [done|]. intros [now|e]; apply wp_done; cbv beta iota; [|by apply kept_throw].
  apply wp_bind, wp_call; [done|]. intros [id|e]; apply wp_done; cbv beta iota; [|by apply kept_throw].
  destruct (create_context _ _ _) as [context|e] eqn:Ec; [|by apply wp_finishFailure].
  apply create_context_ok in Ec as (Hr & Hid & _ & Hm). specialize (Hm eq_refl).
  destruct (serverAuthoredReadOnlyPreview p); [|by apply wp_run_preview].
  destruct (create_context _ _ _) as [context'|e] eqn:Ec'; [|by apply wp_finishFailure].
  apply create_context_ok in Ec' as (Hr' & Hid' & _ & Hm'). specialize (Hm' eq_refl). by apply wp_run_preview.
Qed.

Lemma parse_args_data tool args data :
  parse_args safeParse tool args = parse_data data → safeParse (tr_inputSchema tool) args = Ok (Some data) ∧ isJsonObject data = true.
Proof. unfold parse_args. repeat case_match; naive_solver. Qed.

Lemma wp_dispatchConfirmationPreview tool h :
  previewable tool → sent h = false → placed h idle None →
  wp allowed (dispatchConfirmationPreview safeParse this input tool) h (kept idle None).
Proof.
  intros Ht Hs Hp. unfold dispatchConfirmationPreview.
  apply wp_bind, wp_call; [done|]. intros [started|e]; apply wp_done; cbv beta iota; [|by apply kept_throw].
  apply wp_bind, wp_call; [done|]. intros [attempt|e]; apply wp_done; cbv beta iota; [|by apply kept_throw].
  destruct (isJsonObject (rq_args input)); [|by apply wp_finishFailure]. cbv beta iota delta [negb].
  set (h2 := Event (c_newAttemptId _) _ :: _).
  assert (placed h2 idle None) as Hp2 by exact Hp. assert (sent h2 = false) as Hs2 by exact Hs. clearbody h2. clear Hp Hs h.
  assert (∀ reason flow f, wp allowed (emitConfirmationEvent this (denial input tool None None None None reason) ;;
            finishFailure this input tool flow f) h2 (kept idle None)) as Hdeny.
  { intros. apply (wp_emit_then _ _ idle None); [done|intros; by apply kept_throw|]. intros. by apply wp_finishFailure. }
  destruct (parse_args _ _ _) as [| |data] eqn:Eparse; [by apply Hdeny..|].
  apply parse_args_data in Eparse as [Hparse _].
  apply wp_bind, wp_done. destruct (buildConfirmationPreviewProjection _ _) as [[args method commit digest|reason]|e] eqn:Eb;
    cbv beta iota delta [of_js of_context rethrow]; [|by apply Hdeny|by apply kept_throw].
  apply wp_bind, wp_done. destruct (makeParamsDigest (obj args)) as [params|e];
    cbv beta iota delta [of_js of_context rethrow]; [|by apply kept_throw].
  unfold resolve_authority. apply wp_bind, wp_call; [done|]. intros a. apply wp_done. cbv beta iota.
  destruct a as [route|e]; [|by apply wp_finishFailure].
  destruct (deriveGatewayInvocationAuthority _ _ _ _ _ _) as [authority|e]; [|by apply wp_finishFailure].
  destruct (ga_mutating authority), (ga_mutationScope authority) as [scope|]; try by apply wp_finishFailure.
  destruct (di_confirmationAuthority this); [|by apply wp_finishFailure]. cbv beta iota delta [negb].
  case_match; [by apply wp_finishFailure|].
  apply wp_in_window; [done|]. intros h' tail Hs' Hp'.
  apply wp_preview_in_window; [done| |by rewrite Hs'|done]. by exists data, commit.
Qed.

(** ** The mutation *)

(** [h'] continues [h] without moving in the queue, the window or the sends. *)
Definition continues (q : queue_state) (w : option WindowRequest) (h h' : history) : Prop :=
  h ⊆ h' ∧ placed h' q w ∧ sent h' = sent h.

Definition reconciled_to (rr : ReconcileRequest) (h : history) (r : result thrown GatewayRecoveryReconcileResult) : Prop :=
  ∀ x, r = Ok x → Event (c_reconcilePendingDispatch rr) (Ok x) ∈ h.

Lemma wp_retry_loop q w rr context attempt binding connection digest attempts deadline h0 h initial :
  continues q w h0 h → evidence_asked h0 rr → Event (c_reconcilePendingDispatch rr) (Ok initial) ∈ h →
  wp allowed (retry_loop attempts deadline (Call (c_reconcilePendingDispatch rr) Done)
    (Call (c_revalidateOriginPending context attempt binding connection digest) Done) initial) h
    (λ h' r, continues q w h0 h' ∧ reconciled_to rr h' r).
Proof.
  intros Hc Hasked. revert h initial Hc.
  induction attempts as [|attempts IH]; intros h initial (Hsub & Hp & Hs) Hin; cbn [retry_loop].
  { apply wp_done. split; [done|]. by intros x [= <-]. }
  assert (∀ h' r, h ⊆ h' → placed h' q w → sent h' = sent h → (∀ x, r = Ok x → x = initial) →
    continues q w h0 h' ∧ reconciled_to rr h' r) as Hend.
  { intros h' r Hsub' Hp' Hs' Hr. split; [split; [by etrans|by rewrite Hs']|]. intros x ->. rewrite (Hr x eq_refl). by apply Hsub'. }
  apply wp_bind, wp_call; [done|]. intros [before|e]; apply wp_done; cbv beta iota; [|apply Hend; [set_solver|done..]].
  case_match; [apply wp_done, Hend; [set_solver|done|done|by intros x [= <-]]|].
  apply wp_bind, wp_call; [done|]. intros [u|e]; apply wp_done; cbv beta iota; [|apply Hend; [set_solver|done..]].
  apply wp_bind, wp_call; [done|]. intros [now|e]; apply wp_done; cbv beta iota; [|apply Hend; [set_solver|done..]].
  case_match; [apply wp_done, Hend; [set_solver|done|done|by intros x [= <-]]|].
  apply wp_bind, wp_call; [done|]. intros [current|e]; apply wp_done; cbv beta iota; [|apply Hend; [set_solver|done..]].
  case_match; [apply wp_done, Hend; [set_solver|done|done|by intros x [= <-]]|].
  apply wp_bind, wp_call; [eapply evidence_asked_sub; [|exact Hasked]; set_solver|].
  intros [x|e]; apply wp_done; cbv beta iota; [|apply Hend; [set_solver|done..]].
  case_match.
  - apply wp_done. split; [split; [set_solver|done]|]. intros y [= <-]. by left.
  - apply IH; [split; [set_solver|done]|by left].
Qed.

Lemma wp_reconcile_mutation tool m context pending q w h :
  placed h q w → evidence_asked h (reconcile_request input context pending) →
  wp allowed (reconcile_mutation input tool m context pending) h
    (λ h' r, continues q w h h' ∧ reconciled_to (reconcile_request input context pending) h' r).
Proof.
  intros Hp Hasked. unfold reconcile_mutation.
  apply wp_bind, wp_call; [done|]. intros [x|e]; apply wp_done; cbv beta iota; [|by split; [split; [set_solver|done]|]].
  assert (∀ h', Event (c_reconcilePendingDispatch (reconcile_request input context pending)) (Ok x) :: h ⊆ h' →
    placed h' q w → sent h' = sent h → continues q w h h' ∧ reconciled_to (reconcile_request input context pending) h' (Ok x)) as Hend.
  { intros h' Hsub Hp' Hs'. split; [split; [set_solver|done]|]. intros y [= <-]. apply Hsub. by left. }
  case_match; [|by apply wp_done, Hend].
  unfold retryMutationProbeOriginReconcile. case_match; [by apply wp_done, Hend|].
  apply wp_bind, wp_call; [done|]. intros [now|e]; apply wp_done; cbv beta iota.
  - apply wp_retry_loop; [split; [set_solver|done]|done|]. right. by left.
  - split; [split; [set_solver|done]|done].
Qed.

(** An outcome of evidence: of this request, and no ticket. *)
Definition plain_outcome (id : jstr) (o : GatewayDispatchOutcome) : Prop :=
  go_requestId o = id ∧ go_auditError o = None ∧ ∀ ver ex value ticket, go_body o ≠ confirmation_required ver ex value ticket.

Lemma terminal_plain tool id records batch o : outcomeFromDurableTerminal tool id records batch = Ok o → plain_outcome id o.
Proof.
  unfold outcomeFromDurableTerminal. destruct batch as [terminal|].
  - unfold batch_outcome. intros Ho. ok_inv Ho.
    repeat (case_match; [by injection Ho as <-|]).
    case_match; [ok_inv Ho; case_match; by injection Ho as <-|]. case_match; by injection Ho as <-.
  - unfold journal_outcome, terminal_fault. destruct records as [|journal [|]]; [by intros [= <-]| |by intros [= <-]].
    destruct (Journal.jr_terminalOutcome journal); [|by intros [= <-]]. case_match; intros [= <-]; [done|].
    case_match; [done|]. case_match; try done. by case_match.
Qed.

Lemma justified_evidence h tool o :
  the_tool tool → plain_outcome (go_requestId o) o → evidence h tool (go_requestId o) (go_body o) → justified h o.
Proof.
  intros Ht (_ & _ & Hn) He. unfold justified.
  destruct (go_body o) eqn:Eb; try (by exists tool); [by destruct (Hn _ _ _ _ eq_refl)|done].
Qed.

Section mutation.
Context tool (m : Mutation) (tail : Z).
Let w := window_request input (ro_rsid (mu_route m)) (fw_attemptId (mu_flow m)).
Let q := running (ro_rsid (mu_route m)) tail.
Context (Htool : the_tool tool) (Hpermitted : mutation_permitted tool).
(** The confirmation a tool of class confirm arrived with. *)
Context (Hconfirmed : tr_policyClass tool = class_confirm → ∃ c, mu_confirmed m = Some c ∧
  rq_confirmation input = Some (cd_control c) ∧ makeParamsDigest (mu_args m) = Ok (cd_commitArgsDigest c)).
Context (invocationId : jstr) (context : GatewayInvocationContext).
Context (Hrsid : ic_rsid context = ro_rsid (mu_route m)) (Hid : ic_invocationId context = invocationId).
Let request := mutation_request tool (mu_args m) context.

Lemma wp_settle pending h :
  placed h q (Some w) → sent h = true → evidence_asked h (reconcile_request input context pending) →
  wp allowed (settle this input tool m invocationId context pending) h (kept q (Some w)).
Proof.
  intros Hp Hs Hasked. unfold settle. apply wp_bind. eapply wp_mono; [by apply wp_reconcile_mutation|].
  cbv beta. intros h' [x|e] [(Hsub & Hp' & Hs') Hx]; [|by apply kept_throw].
  specialize (Hx x eq_refl). destruct x as [| | | |cleared records batch| | |]; try by apply wp_finishFailure.
  apply wp_bind, wp_done. destruct (outcomeFromDurableTerminal _ _ _ _) as [o|e] eqn:Eo;
    cbv beta iota delta [of_js of_context rethrow]; [|by apply kept_throw].
  pose proof (terminal_plain _ _ _ _ _ Eo) as (Er & En & Hn).
  apply wp_finish_kept; [done| |done|intros _; by rewrite Hs'].
  apply (justified_evidence _ tool); [done|by rewrite Er|].
  do 2 right; left. rewrite Er. by exists (reconcile_request input context pending), cleared, records, batch, o.
Qed.

(** The request under which the dispatch is prepared. *)
Definition prepare_request draft : PrepareRequest := {|
  pq_tenantId := ac_tenantId (au_actor (rq_auth input)); pq_attemptId := fw_attemptId (mu_flow m); pq_draft := draft;
  pq_confirmationProof := confirmation_proof input tool m invocationId <$> mu_confirmed m |}.

Lemma send_allowed draft pending h :
  placed h q (Some w) → sent h = false → was_prepared h (prepare_request draft) pending →
  (tr_name tool ≠ MUTATION_PROBE_NEXT → draft_checked h tool (tr_executor tool) request draft) →
  (tr_policyClass tool = class_confirm → recorded h "tool.confirmation" "state" (VStr (js "approved"))) →
  allowed h (c_executePreparedMutation (tr_executor tool) request pending).
Proof.
  intros [Hq Hw] Hs Hprep Hdraft Happr. exists tool, w, tail. repeat (split; [done|]).
  right. split; [done|]. exists (prepare_request draft). repeat (split; [done|]).
  intros Hc. destruct (Hconfirmed Hc) as (c & Ec & Ei & Ed).
  exists (cd_control c), (confirmation_proof input tool m invocationId c). cbn. rewrite Ec. repeat (split; [done|]). by apply Happr.
Qed.

Lemma wp_send_prepared draft pending h :
  placed h q (Some w) → sent h = false → was_prepared h (prepare_request draft) pending →
  (tr_name tool ≠ MUTATION_PROBE_NEXT → draft_checked h tool (tr_executor tool) request draft) →
  wp allowed (send_prepared this input tool m invocationId context request pending) h (kept q (Some w)).
Proof.
  intros Hp Hs Hprep Hdraft. unfold send_prepared.
  assert (∀ h', h ⊆ h' → placed h' q (Some w) → sent h' = false →
    (tr_policyClass tool = class_confirm → recorded h' "tool.confirmation" "state" (VStr (js "approved"))) →
    wp allowed (Call (c_executePreparedMutation (tr_executor tool) request pending)
      (λ _, settle this input tool m invocationId context pending)) h' (kept q (Some w))) as Hsend.
  { intros h' Hsub Hp' Hs' Happr. apply wp_call; [|intros a; apply wp_settle; [done|done|]; exists (tr_executor tool), request, pending, a; by split; [left|]].
    apply (send_allowed draft); try done; [by destruct Hprep; [left|right]; apply Hsub|].
    intros Hne. destruct (Hdraft Hne) as [Hin ?]. split; [by apply Hsub|done]. }
  apply wp_bind. unfold approve. destruct (mu_confirmed m) as [c|] eqn:Ec.
  - apply (wp_emit_then _ _ q (Some w)); [done|intros; by apply kept_throw|].
    intros h' a Hsub Hp' Hs' Hrec. apply wp_done. destruct a as [[detail message]|]; cbv beta iota; [by apply wp_finishFailure|].
    apply Hsend; [done|done|by rewrite Hs'|]. intros _. by apply Hrec.
  - apply wp_done. cbv beta iota. apply Hsend; [done..|]. intros Hc. destruct (Hconfirmed Hc) as (c & ? & _). congruence.
Qed.

Lemma wp_prepare_and_send draft h :
  placed h q (Some w) → sent h = false →
  (tr_name tool ≠ MUTATION_PROBE_NEXT → draft_checked h tool (tr_executor tool) request draft) →
  wp allowed (prepare_and_send this input tool m invocationId context request draft) h (kept q (Some w)).
Proof.
  intros Hp Hs Hdraft. unfold prepare_and_send. apply wp_bind, wp_call; [done|].
  intros [[pending|pending| | | | |]|e]; apply wp_done; cbv beta iota; try by apply wp_finishFailure.
  1,2: apply (wp_send_prepared draft); [done|done|first [left; by left|right; by left]|];
    intros Hne; destruct (Hdraft Hne) as [Hin ?]; (split; [by right|done]).
  - apply (wp_emit_then _ _ q (Some w)); [done|intros; by apply kept_throw|]. intros. by apply wp_finishFailure.
  - by apply kept_throw.
Qed.

Lemma wp_admit_probe draft h :
  placed h q (Some w) → sent h = false → draft_checked h tool (tr_executor tool) request draft →
  wp allowed (admit_probe this input tool m invocationId context request draft) h (kept q (Some w)).
Proof.
  intros Hp Hs Hdraft. unfold admit_probe. apply wp_bind.
  eapply (wp_mono _ _ _ (λ h' _, placed h' q (Some w) ∧ sent h' = false ∧ draft_checked h' tool (tr_executor tool) request draft)).
  { case_match; [case_match|]; try by apply wp_done.
    apply wp_call; [done|]. intros a. apply wp_done. repeat (split; [done|]).
    destruct Hdraft as [Hin ?]. split; [by right|done]. }
  intros h' [admitted|e] (Hp' & Hs' & Hdraft'); [|by apply kept_throw].
  destruct admitted; [|by apply wp_finishFailure]. apply wp_bind.
  case_match eqn:En; [case_match|]; try (apply wp_done; cbv beta iota).
  - apply wp_call; [done|]. intros [[draft'|]|e]; apply wp_done; cbv beta iota; [|by apply wp_finishFailure|by apply kept_throw].
    apply wp_prepare_and_send; [done..|]. bsimp. by intros [].
  - by apply wp_finishFailure.
  - by apply wp_prepare_and_send.
Qed.

Lemma wp_build_and_send h :
  placed h q (Some w) → sent h = false →
  wp allowed (build_and_send this input tool m invocationId context) h (kept q (Some w)).
Proof.
  intros Hp Hs. unfold build_and_send. case_match; [by apply wp_finishFailure|].
  apply wp_call. { exists tool, w, tail. destruct Hp. repeat (split; [done|]). by left. }
  intros [draft|e]; [|by apply wp_finishFailure].
  apply wp_bind, wp_done. destruct (preparedMutationAuthorityError _ _ _) as [[reason|]|e] eqn:Ea;
    cbv beta iota delta [of_js of_context rethrow]; [by apply wp_finishFailure| |by apply kept_throw].
  apply wp_admit_probe; [done..|]. split; [by left|done].
Qed.

End mutation.

Lemma digest_spread args digest :
  isJsonObject args = true → makeParamsDigest args = Ok digest → makeParamsDigest (obj (spread args)) = Ok digest.
Proof.
  destruct args as [| | | | | |shape members|]; try done. intros _. unfold makeParamsDigest, makeJsonDigest.
  intros Hd. apply bind_ok in Hd as (text & Ht & Hd). apply bind_ok. exists text. split; [|done].
  cbn [spread obj canonicalizeJson] in *. unfold reject_if in *.
  apply bind_ok in Ht as (? & _ & Ht). apply bind_ok in Ht as (? & _ & Ht). by apply bind_ok in Ht as (? & _ & Ht).
Qed.

Lemma confirm_commit_inr tool args digest confirmed :
  isJsonObject args = true → makeParamsDigest args = Ok digest → confirm_commit input tool args = Ok (inr confirmed) →
  tr_policyClass tool = class_confirm → ∃ c, confirmed = Some c ∧
    rq_confirmation input = Some (cd_control c) ∧ makeParamsDigest args = Ok (cd_commitArgsDigest c).
Proof.
  intros Hobj Hdigest Hc Hclass. unfold confirm_commit in Hc. rewrite Hclass in Hc. cbn in Hc.
  destruct (rq_confirmation input) as [control|]; [|done].
  apply bind_ok in Hc as (projection & Hp & Hc). destruct projection as [commit d|]; [|done].
  destruct (confirmationIdFromToken _) as [id|]; [|done]. injection Hc as <-. eexists; split; [done|]. split; [done|]. cbn.
  unfold of_js, of_context, rethrow, buildConfirmationCommitProjection in Hp. case_match eqn:Eb; [|done].
  injection Hp as ->. case_match eqn:Eb'; [|done]. injection Eb as ->.
  case_match; [done|]. apply bind_ok in Eb' as (d' & Hd' & [= <- <-]).
  unfold digestArgs in Hd'. rewrite (digest_spread _ _ Hobj Hdigest) in Hd'. congruence.
Qed.

Lemma wp_mutation_in_window tool m tail h :
  the_tool tool → mutation_permitted tool →
  (tr_policyClass tool = class_confirm → ∃ c, mu_confirmed m = Some c ∧
     rq_confirmation input = Some (cd_control c) ∧ makeParamsDigest (mu_args m) = Ok (cd_commitArgsDigest c)) →
  sent h = false →
  let q := running (ro_rsid (mu_route m)) tail in
  let w := Some (window_request input (ro_rsid (mu_route m)) (fw_attemptId (mu_flow m))) in
  placed h q w → wp allowed (mutation_in_window this input tool m) h (kept q w).
Proof.
  intros Ht Hperm Hconf Hs q w Hp. unfold mutation_in_window. apply wp_bind.
  eapply (wp_mono _ _ _ (λ h' _, placed h' q w ∧ sent h' = false)).
  { case_match; [by apply wp_done|]. apply wp_call; [done|]. intros a. by apply wp_done. }
  intros h' [preflight|e] (Hp' & Hs'); [|by apply kept_throw].
  destruct preflight; try by apply wp_finishFailure.
  apply wp_bind, wp_call; [done|]. intros [now|e]; apply wp_done; cbv beta iota; [|by apply kept_throw].
  apply wp_bind, wp_call; [done|]. intros [id|e]; apply wp_done; cbv beta iota; [|by apply kept_throw].
  destruct (create_context _ _ _) as [context|e] eqn:Ec; [|by apply wp_finishFailure].
  apply create_context_ok in Ec as (Hr & Hid & _). by apply wp_build_and_send.
Qed.

Lemma wp_dispatch_authorised_mutation tool flow args confirmed route authority h :
  the_tool tool → tr_mutationScopePolicy tool ≠ policy_none →
  (tr_policyClass tool = class_confirm → ∃ c, confirmed = Some c ∧
     rq_confirmation input = Some (cd_control c) ∧ makeParamsDigest args = Ok (cd_commitArgsDigest c)) →
  sent h = false → placed h idle None →
  wp allowed (dispatch_authorised_mutation this input tool flow args confirmed route authority) h (kept idle None).
Proof.
  intros Ht Hpolicy Hconf Hs Hp. unfold dispatch_authorised_mutation.
  destruct (ga_mutating authority), (ga_mutationScope authority) as [scope|]; try by apply wp_finishFailure.
  assert (mutation_permitted tool → wp allowed
    (match executor_of this tool with
     | None => finishFailure this input tool flow (failure executor_unavailable None
                 (js "executor binding is unavailable: " ++ executor_name (tr_executor tool)))
     | Some executor =>
         in_window this input tool flow route (mutation_in_window this input tool
           {| mu_flow := flow; mu_route := route; mu_scope := scope; mu_document := ga_documentIdentity authority;
              mu_args := args; mu_executor := executor; mu_confirmed := confirmed |})
     end) h (kept idle None)) as Hrun.
  { intros Hperm. destruct (executor_of this tool) as [executor|]; [|by apply wp_finishFailure].
    apply wp_in_window; [done|]. intros h' tail Hs' Hp'. apply wp_mutation_in_window; try done. by rewrite Hs'. }
  destruct (tr_policyClass tool) eqn:Ec, (rq_confirmation input) as [control|] eqn:Ei; try by apply wp_finishFailure.
  - apply Hrun. split; [done|]. by left.
  - apply Hrun. split; [done|]. right. by split.
  - destruct (Hconf eq_refl) as (? & _ & ? & _). congruence.
  - apply (wp_emit_then _ _ idle None); [done|intros; by apply kept_throw|]. intros. by apply wp_finishFailure.
Qed.

Lemma wp_dispatchMutation tool h :
  the_tool tool → tr_mutationScopePolicy tool ≠ policy_none → sent h = false → placed h idle None →
  wp allowed (dispatchMutation safeParse this input tool) h (kept idle None).
Proof.
  intros Ht Hpolicy Hs Hp. unfold dispatchMutation.
  apply wp_bind, wp_call; [done|]. intros [started|e]; apply wp_done; cbv beta iota; [|by apply kept_throw].
  apply wp_bind, wp_call; [done|]. intros [attempt|e]; apply wp_done; cbv beta iota; [|by apply kept_throw].
  set (h2 := Event (c_newAttemptId _) _ :: _).
  assert (placed h2 idle None) as Hp2 by exact Hp. assert (sent h2 = false) as Hs2 by exact Hs. clearbody h2. clear Hp Hs h.
  assert (∀ flow (f : option ConfirmationAudit → Failure), wp allowed (confirmation ← auditInvalidConfirmationArguments this input tool;
            finishFailure this input tool flow (f confirmation)) h2 (kept idle None)) as Hinvalid.
  { intros. apply wp_bind. eapply (wp_mono _ _ _ (λ h' _, placed h' idle None)).
    - unfold auditInvalidConfirmationArguments. repeat case_match; try by apply wp_done.
      apply (wp_emit_then _ _ idle None); [done|done|]. intros. by apply wp_done.
    - intros h' [a|e] Hp'; [by apply wp_finishFailure|by apply kept_throw]. }
  destruct (isJsonObject (rq_args input)); cbv beta iota delta [negb]; [|by apply (Hinvalid _ (λ c, with_confirmation c _))].
  destruct (parse_args _ _ _) as [| |args] eqn:Eparse; try by apply (Hinvalid _ (λ c, with_confirmation c _)).
  apply parse_args_data in Eparse as [_ Hobj].
  destruct (makeParamsDigest args) as [digest|e] eqn:Ed; [|by apply (Hinvalid _ (λ c, with_confirmation c _))].
  apply wp_bind, wp_done. destruct (confirm_commit input tool args) as [[[[event|] f]|confirmed]|e] eqn:Econf; cbv beta iota.
  - apply (wp_emit_then _ _ idle None); [done|intros; by apply kept_throw|]. intros. by apply wp_finishFailure.
  - by apply wp_finishFailure.
  - unfold resolve_authority. apply wp_bind, wp_call; [done|]. intros a. apply wp_done. cbv beta iota.
    destruct a as [route|e]; [|by apply wp_finishFailure].
    destruct (deriveGatewayInvocationAuthority _ _ _ _ _ _) as [authority|e]; [|by apply wp_finishFailure].
    apply wp_dispatch_authorised_mutation; try done. by eapply confirm_commit_inr.
  - by apply kept_throw.
Qed.

(** ** The read *)

Definition kept_read (q : queue_state) (w : option WindowRequest) (h : history)
    (r : result interrupted (GatewayDispatchOutcome * bool)) : Prop :=
  placed h q w ∧ ∀ o reached, r = Ok (o, reached) → answered h o.

Lemma kept_read_throw q w h e : placed h q w → kept_read q w h (Throw e).
Proof. by split. Qed.

Lemma wp_during {A} phase reached (p : program A) h (Q : history → result interrupted A → Prop) :
  wp allowed p h (λ h' r, Q h' match r with
    | Ok a => Ok a | Throw e => Throw {| ix_error := e; ix_phase := phase; ix_reached := reached |} end) →
  wp allowed (during phase reached p) h Q.
Proof. intros Hp. apply wp_after. eapply wp_mono; [exact Hp|]. intros h' r HQ. by apply wp_done. Qed.

Section read.
Context (c : @ReadCall ZodType) (tail : Z).
Context (Hinput : rd_input (rc_read c) = input) (Htool : the_tool (rc_tool c)).
Context (Hclass : tr_policyClass (rc_tool c) = class_auto) (Hpolicy : tr_mutationScopePolicy (rc_tool c) = policy_none).
Context (Hmut : ic_mutating (rc_context c) = false).
Let w := window_request input (ic_rsid (rc_context c)) (rd_attemptId (rc_read c)).
Let q := running (ic_rsid (rc_context c)) tail.
Let request := mutation_request (rc_tool c) (rc_args c) (rc_context c).

(** An audit in the window, and the return of its outcome. *)
Lemma wp_audited_read phase reached holds resolutions o h :
  placed h q (Some w) → justified h o → go_auditError o = None →
  wp allowed (outcome ← during phase reached (finish this o (call_audit c holds resolutions reached)); mret (outcome, reached))
    h (kept_read q (Some w)).
Proof.
  intros Hp Hj Hn. apply wp_bind, wp_during. eapply wp_mono.
  - apply wp_finish_kept; [exact Hp|done|done|]. unfold mutation_reached. cbn. by rewrite Hmut.
  - intros h' [o'|e] [Hp' Ha]; cbv beta iota; [apply wp_done|by apply kept_read_throw].
    split; [done|]. intros o'' reached' [= <- <-]. by apply Ha.
Qed.

Lemma wp_conclude_failed reached holds resolutions flag code detail message h :
  placed h q (Some w) →
  wp allowed (conclude this c reached holds resolutions (read_failed (rc_read c) flag code detail message)) h (kept_read q (Some w)).
Proof. intros Hp. by apply wp_audited_read. Qed.

Lemma contact_own (permitted : GatewayToolRecord ZodType → WindowRequest → Prop) h :
  placed h q (Some w) → permitted (rc_tool c) w → contact h request permitted.
Proof. intros [Hq Hw] Hperm. by exists (rc_tool c), w, tail. Qed.

Lemma wp_execute_read h : placed h q (Some w) → wp allowed (execute_read this c) h (kept_read q (Some w)).
Proof.
  intros Hp. unfold execute_read. apply wp_bind, wp_during, wp_call; [by apply contact_own|].
  intros [v|e]; apply wp_done; cbv beta iota; [|by apply kept_read_throw].
  apply wp_audited_read; [done| |apply normalize_auditError].
  apply justified_normalize; [done|]. left. eexists _, _, v. split; [by left|done].
Qed.

Lemma wp_plan_verified hold h :
  placed h q (Some w) → tr_name (rc_tool c) = MUTATION_PROBE_VERIFY → wp allowed (plan_verified this c hold) h (kept_read q (Some w)).
Proof.
  intros Hp Hname. unfold plan_verified. apply wp_bind, wp_during, wp_call; [done|].
  intros [planning|e]; apply wp_done; cbv beta iota; [|by apply kept_read_throw].
  destruct planning as [plan|plan| | | |]; try by apply wp_conclude_failed.
  all: apply wp_bind, wp_during, wp_call; [by exists (rc_tool c)|]; intros [[proof|]|e]; apply wp_done; cbv beta iota;
    [|by apply wp_conclude_failed|by apply kept_read_throw];
    apply wp_bind, wp_during, wp_done;
    destruct (outcomeFromDurableTerminal _ _ _ _) as [o|e] eqn:Eo; cbv beta iota delta [of_js of_context rethrow];
    [|by apply kept_read_throw];
    pose proof (terminal_plain _ _ _ _ _ Eo) as (Er & En & Hn);
    apply wp_audited_read; [done| |done];
    apply (justified_evidence _ (rc_tool c)); [done|by rewrite Er|];
    do 3 right; rewrite Er; eexists _, _, _, proof, o; (split; [by left|done]).
Qed.

Lemma wp_send_verification verification pending h :
  placed h q (Some w) → sent h = false →
  (Event (c_prepareVerificationDispatch tenant (rd_attemptId (rc_read c)) verification) (Ok (prepared pending)) ∈ h ∨
   Event (c_prepareVerificationDispatch tenant (rd_attemptId (rc_read c)) verification) (Ok (already_prepared pending)) ∈ h) →
  tr_name (rc_tool c) = MUTATION_PROBE_VERIFY →
  wp allowed (send_verification this c request verification pending) h (kept_read q (Some w)).
Proof.
  intros Hp Hs Hprep Hname. unfold send_verification. apply wp_bind, wp_during, wp_call; [done|].
  intros [owner|e]; apply wp_done; cbv beta iota; [|by apply kept_read_throw].
  case_match; [by apply wp_conclude_failed|].
  apply wp_call.
  { apply contact_own; [done|]. split; [done|]. left. split; [done|]. exists verification.
    destruct Hprep; [left|right]; by right. }
  intros a. apply wp_bind, wp_during, wp_call.
  { eexists _, _, pending, a. split; [by left|]. split; [|done]. cbn. unfold tenant_of. by rewrite Hinput. }
  intros [reconciled|e]; apply wp_done; cbv beta iota; [|by apply kept_read_throw].
  destruct reconciled; try by apply wp_conclude_failed.
  apply wp_bind, wp_during, wp_call; [done|].
  intros [recorded|e]; apply wp_done; cbv beta iota; [|by apply kept_read_throw].
  destruct recorded; try by apply wp_conclude_failed. by apply wp_plan_verified.
Qed.

Lemma wp_verify_probe h :
  placed h q (Some w) → sent h = false → tr_name (rc_tool c) = MUTATION_PROBE_VERIFY →
  wp allowed (verify_probe this c) h (kept_read q (Some w)).
Proof.
  intros Hp Hs Hname. unfold verify_probe. case_match; [by apply wp_conclude_failed|].
  apply wp_bind, wp_during, wp_call; [apply contact_own; [done|by right]|].
  intros [draft|e]; apply wp_done; cbv beta iota; [|by apply kept_read_throw].
  apply wp_bind. eapply (wp_mono _ _ _ (λ h' _, placed h' q (Some w) ∧ sent h' = false)).
  { repeat case_match; try by apply wp_done. apply wp_during, wp_call; [done|]. intros a. by apply wp_done. }
  intros h' [[verification|]|e] (Hp' & Hs'); [|by apply wp_conclude_failed|by apply kept_read_throw].
  apply wp_bind, wp_during, wp_call; [done|].
  intros [preparation|e]; apply wp_done; cbv beta iota; [|by apply kept_read_throw].
  destruct preparation; try (by apply wp_conclude_failed);
    apply wp_send_verification; try done; unfold tenant_of; rewrite Hinput; [left|right]; by left.
Qed.

Lemma wp_read_in_window h :
  placed h q (Some w) → sent h = false → wp allowed (read_in_window this c) h (kept_read q (Some w)).
Proof.
  intros Hp Hs. unfold read_in_window. case_match; [bsimp; by apply wp_verify_probe|].
  case_match; [by apply wp_execute_read|]. apply wp_bind, wp_during, wp_call; [done|].
  intros [[]|e]; apply wp_done; cbv beta iota; [by apply wp_execute_read| |by apply kept_read_throw].
  by apply wp_audited_read.
Qed.

End read.

Lemma wp_guarded_read c h :
  rd_input (rc_read c) = input → the_tool (rc_tool c) → tr_policyClass (rc_tool c) = class_auto →
  tr_mutationScopePolicy (rc_tool c) = policy_none → ic_mutating (rc_context c) = false →
  sent h = false → placed h idle None → wp allowed (guarded_read this c) h (kept idle None).
Proof.
  intros Hinput Htool Hclass Hpolicy Hmut Hs Hp. unfold guarded_read. apply wp_try_with.
  eapply (wp_mono _ _ _ (λ h' r, placed h' idle None ∧ ∀ o, r = Ok o → answered h' o)).
  2:{ intros h' [o|i] [Hp' Ha]; [split; [done|]; intros o' [= <-]; by apply Ha|]. case_match; apply wp_done; [by apply kept_throw|].
      split; [done|]. intros o [= <-]. by apply answered_failed. }
  unfold queued_read. rewrite Hinput. apply wp_serialize; [done|]. intros h1 tail Hsub Hs1 [Hq Hw].
  set (rsid := ic_rsid (rc_context c)) in *.
  eapply (wp_mono _ _ _ (λ h' r, placed h' (running rsid tail) None ∧ ∀ o, r = Ok o → answered h' o)).
  2:{ intros h2 r [Hp2 Ha]. split; [done|]. intros u. split; [split; [done|exact (proj2 Hp2)]|].
      intros o Ho. eapply answered_sub; [|by apply Ha]. set_solver. }
  apply wp_bind, wp_during, wp_call; [split; [done|by exists tail]|].
  intros [window|e]; apply wp_done; cbv beta iota; [|by split].
  destruct (window_failure window) as [[[code detail] message]|] eqn:Ef.
  - apply wp_during. eapply wp_mono.
    + apply (wp_failing_kept _ _ _ (running rsid tail) None); [|done]. split; [done|]. by rewrite (window_failure_some _ _ _ _ Ef).
    + intros h2 [o|e] [Hp2 Ha]; split; try done. intros o' [= <-]. by apply Ha.
  - unfold release_read. apply wp_after. eapply wp_mono.
    + apply (wp_read_in_window c tail); try done; [split; [done|by apply window_failure_none]|exact (eq_trans Hs1 Hs)].
    + cbv beta. intros h2 r [[Hq2 Hw2] Ha]. apply wp_call; [exact Hw2|]. intros released. apply wp_done.
      split; [by split|]. intros o Ho. destruct released, r as [[o' reached]|]; try done.
      injection Ho as <-. eapply answered_sub; [|by eapply Ha]. set_solver.
Qed.

Lemma wp_dispatch_known_read r tool h :
  rd_input r = input → the_tool tool → tr_mutationScopePolicy tool = policy_none → sent h = false → placed h idle None →
  wp allowed (dispatch_known_read safeParse this r tool) h (kept idle None).
Proof.
  intros Hinput Htool Hpolicy Hs Hp. unfold dispatch_known_read. rewrite Hinput.
  case_match; [by apply wp_failing_kept|]. case_match; try by apply wp_failing_kept.
  case_match; [|by apply wp_failing_kept].
  unfold resolve_authority. apply wp_bind, wp_call; [done|]. intros [route|e]; apply wp_done; cbv beta iota; [|by apply wp_failing_kept].
  destruct (deriveGatewayInvocationAuthority _ _ _ _ _ _) as [authority|e] eqn:Ea; [|by apply wp_failing_kept].
  unfold dispatch_authorised_read. rewrite Hinput. destruct (create_context _ _ _) as [context|e] eqn:Ec; [|by apply wp_failing_kept].
  case_match eqn:Eclass; [by apply wp_failing_kept|]. bsimp.
  destruct (executor_of this tool) as [executor|]; [|by apply wp_failing_kept].
  apply create_context_ok in Ec as (_ & _ & _ & Hm). apply wp_guarded_read; try done. by apply Hm.
Qed.

Lemma wp_dispatchRead h :
  (∀ tool, the_tool tool → tr_mutationScopePolicy tool = policy_none) → sent h = false → placed h idle None →
  wp allowed (dispatchRead safeParse this input) h (kept idle None).
Proof.
  intros Hpolicy Hs Hp. unfold dispatchRead.
  apply wp_bind, wp_call; [done|]. intros [started|e]; apply wp_done; cbv beta iota; [|by apply kept_throw].
  apply wp_bind, wp_call; [done|]. intros [attempt|e]; apply wp_done; cbv beta iota; [|by apply kept_throw].
  apply wp_bind. eapply (wp_mono _ _ _ (λ h' _, placed h' idle None ∧ sent h' = false)).
  { case_match; [by apply wp_done|]. apply wp_call; [done|]. intros a. by apply wp_done. }
  intros h' [id|e] (Hp' & Hs'); [|by apply kept_throw].
  lazymatch goal with |- wp _ (if ?b then _ else _) _ _ => destruct b end;
    [apply wp_done; split; [done|]; intros o [= <-]; by apply answered_failed|].
  destruct (di_registry this (rq_toolName input)) as [tool|] eqn:Et; [|by apply wp_failing_kept].
  destruct (rq_confirmation input); [|by apply wp_dispatch_known_read; eauto].
  destruct (tr_policyClass tool === class_confirm); [by apply wp_dispatch_known_read; eauto|].
  apply (wp_emit_then _ _ idle None); [done|intros; by apply kept_throw|]. intros. by apply wp_failing_kept.
Qed.

(** ** Every dispatch *)

Lemma wp_dispatch : wp allowed (dispatch safeParse this input) [] dispatch_post.
Proof.
  eapply (wp_mono _ _ _ (kept idle None)); [|by intros h r [[? ?] ?]].
  unfold dispatch. case_match; [|apply wp_done; split; [done|]; intros o [= <-]; by apply answered_failed].
  destruct (di_registry this (rq_toolName input)) as [tool|] eqn:Et; [|apply wp_dispatchRead; try done; unfold the_tool; congruence].
  assert (wp allowed (if tr_mutationScopePolicy tool === policy_none then dispatchRead safeParse this input
                      else dispatchMutation safeParse this input tool) [] (kept idle None)) as Hrun.
  { case_match; bsimp; [|by apply wp_dispatchMutation]. apply wp_dispatchRead; try done. unfold the_tool. congruence. }
  destruct (tr_policyClass tool) eqn:Ec, (rq_confirmation input) eqn:Ei; try exact Hrun.
  by apply wp_dispatchConfirmationPreview.
Qed.

(** ** Reads always answer *)

Lemma wp_anything {E A} (p : prog call answer E A) h : wp (λ _ _, True) p h (λ _ _, True).
Proof. revert h. induction p as [r|c k IH]; intros h; [by apply wp_done|]. apply wp_call; [done|]. intros a. apply IH. Qed.

Definition is_enter (e : event call answer) : bool := match e with Event (c_enterTail _) _ => true | _ => false end.
Definition entered (h : history) : bool := existsb is_enter h.

Lemma entered_audits es h : Forall audit_event es → entered (es ++ h) = entered h.
Proof. induction 1 as [|[c a] es Hc Hes IH]; cbn; [done|]. by destruct c. Qed.

(** An exception only leaves a dispatch that has not queued. *)
Definition early_throw {A} (h : history) (r : result thrown A) : Prop := ∀ e, r = Throw e → entered h = false.

Lemma early_ok {A} h (a : A) : early_throw h (Ok a).
Proof. by intros e. Qed.

Lemma wp_finish_early o (i : DispatchAuditInput ZodType) h :
  entered h = false → wp (λ _ _, True) (finish this o i) h early_throw.
Proof.
  intros Hh. apply (wp_finish (λ _ _, True)); [|intros; apply early_ok].
  intros es e Hes _ _. by rewrite entered_audits.
Qed.

Lemma wp_guarded_read_answers (c : @ReadCall ZodType) h :
  ga_mutating (rc_authority c) = false → wp (λ _ _, True) (guarded_read this c) h early_throw.
Proof.
  intros Hm. unfold guarded_read. apply wp_try_with. eapply wp_mono; [apply wp_anything|].
  intros h' [o|i] _; [by apply early_ok|]. rewrite Hm. apply wp_done, early_ok.
Qed.

Lemma wp_known_read_answers r tool h :
  tr_mutationScopePolicy tool = policy_none → entered h = false →
  wp (λ _ _, True) (dispatch_known_read safeParse this r tool) h early_throw.
Proof.
  intros Hpolicy Hh. unfold dispatch_known_read.
  repeat (case_match; try by apply wp_finish_early).
  unfold resolve_authority. apply wp_bind, wp_call; [done|]. intros [route|e]; apply wp_done; cbv beta iota; [|by apply wp_finish_early].
  destruct (deriveGatewayInvocationAuthority _ _ _ _ _ _) as [authority|e] eqn:Ea; [|by apply wp_finish_early].
  unfold dispatch_authorised_read. repeat (case_match; try by apply wp_finish_early).
  apply wp_guarded_read_answers. rewrite Hpolicy in Ea. by eapply derive_none.
Qed.

Lemma wp_read_answers :
  (∀ tool, the_tool tool → tr_mutationScopePolicy tool = policy_none) →
  wp (λ _ _, True) (dispatchRead safeParse this input) [] early_throw.
Proof.
  intros Hpolicy. unfold dispatchRead.
  apply wp_bind, wp_call; [done|]. intros [started|e]; apply wp_done; cbv beta iota; [|by intros ? _].
  apply wp_bind, wp_call; [done|]. intros [attempt|e]; apply wp_done; cbv beta iota; [|by intros ? _].
  apply wp_bind. eapply (wp_mono _ _ _ (λ h' _, entered h' = false)).
  { case_match; [by apply wp_done|]. apply wp_call; [done|]. intros a. by apply wp_done. }
  intros h' [id|e] Hh; [|by intros ? _].
  lazymatch goal with |- wp _ (if ?b then _ else _) _ _ => destruct b end; [apply wp_done, early_ok|].
  destruct (di_registry this (rq_toolName input)) as [tool|] eqn:Et; [|by apply wp_finish_early].
  destruct (rq_confirmation input); [|by apply wp_known_read_answers; eauto].
  destruct (tr_policyClass tool === class_confirm); [by apply wp_known_read_answers; eauto|].
  apply wp_bind, (wp_emit (λ _ _, True)).
  - intros es e Hes ? _. by rewrite entered_audits.
  - intros es ev a Hes _ _. apply wp_finish_early.
    rewrite <- Hh. apply (entered_audits (_ :: es)). by constructor.
Qed.

(** ** The theorems *)

Abbreviation trace w := (run w (dispatch safeParse this input) []).1.
Abbreviation verdict w := (run w (dispatch safeParse this input) []).2.

Lemma dispatch_allowed w later c a earlier : trace w = later ++ Event c a :: earlier → allowed earlier c.
Proof. apply (wp_trace _ _ w _ wp_dispatch). Qed.

Lemma dispatch_allowed_in w c a : Event c a ∈ trace w → ∃ earlier, earlier ⊆ trace w ∧ allowed earlier c.
Proof.
  intros (later & earlier & Ht)%list_elem_of_split. exists earlier. split; [rewrite Ht; set_solver|by eapply dispatch_allowed].
Qed.

Lemma dispatch_ends w : dispatch_post (trace w) (verdict w).
Proof. apply (wp_trace _ _ w _ wp_dispatch). Qed.

(** The request of a call that reaches an executor. *)
Definition contact_request (c : call) : option GatewayExecutorRequest :=
  match c with
  | c_execute _ r | c_previewConfirmation _ r | c_buildMutationDispatch _ r | c_executePreparedMutation _ r _ => Some r
  | _ => None
  end.

(** The tools and requests for which an executor may be reached in this way. *)
Definition contact_policy (c : call) tool : Prop :=
  tr_policyClass tool ≠ class_gated ∧
  match c with
  | c_execute _ _ => tr_policyClass tool = class_auto ∧ tr_mutationScopePolicy tool = policy_none
  | c_previewConfirmation _ r =>
      tr_policyClass tool = class_confirm ∧ rq_confirmation input = None ∧ er_mutationScopePolicy r = policy_none ∧
      ic_mutating (er_context r) = false
  | _ => mutation_permitted tool ∨ probe_verification tool
  end.

Lemma mutation_not_gated tool : mutation_permitted tool ∨ probe_verification tool → tr_policyClass tool ≠ class_gated.
Proof. intros [[_ [[-> _]|[-> _]]]|[-> _]]; done. Qed.

Lemma contact_weaken h r (P P' : GatewayToolRecord ZodType → WindowRequest → Prop) :
  contact h r P → (∀ tool w, P tool w → P' tool w) → contact h r P'.
Proof. intros (tool & w & tail & ? & ? & ? & ? & ? & ? & HP) HPP. exists tool, w, tail. eauto 10. Qed.

(** An executor is reached only while the dispatch holds the durable window of the
    request's own route and is at the head of that route's queue; a gated tool reaches
    none, a read only for a tool of class auto without mutation scope, a preview only for
    an unconfirmed tool of class confirm and with a read-only request, a mutation only
    for an auto tool or a confirmed one.  Whatever the environment answers or throws,
    the dispatch ends outside the queue and with the window released. *)
Theorem executors_reached_in_window (w : environment call answer) later c a earlier r :
  trace w = later ++ Event c a :: earlier → contact_request c = Some r →
  contact earlier r (λ tool _, contact_policy c tool) ∧ queue_of (trace w) = idle ∧ window_of (trace w) = None.
Proof.
  intros Ht Hr. split; [|destruct (dispatch_ends w) as (? & ? & _); done].
  apply dispatch_allowed in Ht. destruct c; try done; injection Hr as ->; cbn in Ht; (eapply contact_weaken; [exact Ht|]);
    cbn; intros tool w'.
  - intros [Hc ?]. split; [congruence|done].
  - intros [Hc ?]. split; [congruence|done].
  - intros Hm. split; [by apply mutation_not_gated|done].
  - intros (_ & Hm). assert (mutation_permitted tool ∨ probe_verification tool) as Hp by tauto.
    split; [by apply mutation_not_gated|done].
Qed.

(** C18: a mutation is handed to its executor at most once per dispatch, and only as the
    recovery authority persisted it for this tenant and attempt; what was persisted is
    the executor's own draft, checked against the invocation's context; and for a tool
    of class confirm it was persisted with the token the caller presented, bound to the
    digest of the arguments that are executed, and the approval was recorded first. *)
Theorem mutation_sent_as_prepared (w : environment call answer) later b r pending a earlier :
  trace w = later ++ Event (c_executePreparedMutation b r pending) a :: earlier →
  contact earlier r (λ tool win, send_conditions earlier tool win b r pending) ∧
  sent earlier = false ∧ sent later = false.
Proof.
  intros Ht. pose proof (dispatch_allowed _ _ _ _ _ Ht) as Hc. cbn in Hc. split; [done|].
  destruct Hc as (tool & win & tail & _ & _ & _ & _ & _ & _ & Hs & _). split; [done|].
  apply not_true_iff_false. intros Hl. unfold sent in Hl. apply existsb_true in Hl as (e & Hin & He).
  destruct e as [c' a']. destruct c'; try done. apply list_elem_of_split in Hin as (l1 & l2 & ->).
  rewrite <- app_assoc in Ht. cbn in Ht. apply dispatch_allowed in Ht. cbn in Ht.
  destruct Ht as (tool' & win' & tail' & _ & _ & _ & _ & _ & _ & Hs' & _).
  unfold sent in Hs'. rewrite existsb_app in Hs'. cbn in Hs'. by rewrite orb_true_r in Hs'.
Qed.

(** What durable evidence says a mutation returned. *)
Definition durable_result (records : list Journal.InvocationJournalRecord) (batch : option GatewayDurableBatchTerminal)
    (value : jsval) : Prop :=
  match batch with
  | Some b => value = bt_result b ∧ makeParamsDigest (bt_result b) = Ok (bt_resultDigest b)
  | None => ∃ journal terminal, records = [journal] ∧ Journal.journalRecordIsIntact journal = true ∧
      Journal.jr_terminalOutcome journal = Some terminal ∧ Journal.to_payload terminal = Some value ∧
      (Journal.to_status terminal = Journal.completed ∨ Journal.to_status terminal = Journal.guarded)
  end.

Lemma terminal_success tool id records batch o :
  outcomeFromDurableTerminal tool id records batch = Ok o → body_ok (go_body o) = true →
  durable_result records batch (body_value (go_body o)).
Proof.
  unfold outcomeFromDurableTerminal. destruct batch as [terminal|].
  - unfold batch_outcome. intros Ho Hok. ok_inv Ho.
    case_match; [by injection Ho as <-|]. bsimp. subst.
    case_match; [by injection Ho as <-|].
    case_match; [ok_inv Ho; case_match; by injection Ho as <-|]. case_match; by injection Ho as <-.
  - destruct records as [|journal [|]]; [by intros [= <-]| |by intros [= <-]].
    destruct (Journal.jr_terminalOutcome journal) as [terminal|] eqn:Et; [|by intros [= <-]].
    case_match eqn:Ei; [by intros [= <-]|]. apply negb_false_iff in Ei. intros [= <-] Hok. exists journal, terminal.
    repeat (split; [done|]). unfold journal_outcome in *. case_match eqn:Ep; [done|].
    destruct (Journal.to_status terminal); cbn in *; try done; unfold payload_missing in Ep;
      destruct (Journal.to_payloadRetained terminal), (Journal.to_payload terminal) as [v|];
      try done; (split; [|by auto]); [by destruct v|].
    destruct (Journal.to_guardedReason terminal); [|done]. by destruct v.
Qed.

(** C19: a mutation is reported as done only on durable evidence: there is a terminal
    record, reconciled for the very envelope that was handed to the executor, whose
    payload is the reported value (an intact journal record, or a batch result whose
    digest is its own).  What the executor itself answered plays no part. *)
Theorem mutation_success_durable (w : environment call answer) tool o :
  the_tool tool → tr_mutationScopePolicy tool ≠ policy_none →
  (tr_policyClass tool = class_confirm → is_Some (rq_confirmation input)) →
  verdict w = Ok o → body_ok (go_body o) = true →
  ∃ b r pending a q cleared records batch,
    Event (c_executePreparedMutation b r pending) a ∈ trace w ∧
    Event (c_reconcilePendingDispatch q) (Ok (terminal_recorded cleared records batch)) ∈ trace w ∧
    rr_envelopeDigest q = pd_envelopeDigest pending ∧ rr_rsid q = ic_rsid (er_context r) ∧
    durable_result records batch (body_value (go_body o)).
Proof.
  intros Ht Hpolicy Hconf Ho Hok. destruct (dispatch_ends w) as (_ & _ & Ha). destruct (Ha o Ho) as [Hj _].
  assert (∀ tool', the_tool tool' → tool' = tool) as Heq by (unfold the_tool in *; congruence).
  unfold justified in Hj.
  assert (evidence (trace w) tool (go_requestId o) (go_body o)) as He.
  { destruct (go_body o) eqn:Eb; try (destruct Hj as (tool' & ->%Heq & Hj); exact Hj); [|done].
    destruct Hj as (i & action & b & r & v & tool' & Hin & Hin' & _).
    apply dispatch_allowed_in in Hin' as (h & _ & tool'' & ? & ? & ->%Heq & _ & _ & _ & _ & _ & Hc & Hn & _).
    rewrite Hn in Hconf. by destruct (Hconf Hc). }
  destruct He as [(b & r & v & Hin & _)|[(b & r & v & Hin & _)|[(q & cl & rs & bt & o' & Hin & Eo & Eb)|(c & hd & p & pr & o' & Hin & _)]]].
  - apply dispatch_allowed_in in Hin as (h & _ & tool'' & ? & ? & ->%Heq & _ & _ & _ & _ & _ & _ & Hn). done.
  - apply dispatch_allowed_in in Hin as (h & _ & tool'' & ? & ? & ->%Heq & _ & _ & _ & _ & _ & Hc & Hn & _).
    rewrite Hn in Hconf. by destruct (Hconf Hc).
  - pose proof (dispatch_allowed_in _ _ _ Hin) as (h & Hsub & b & r & pending & a & Hsend & _ & Hrsid & Hd).
    exists b, r, pending, a, q, cl, rs, bt. split; [by apply Hsub|]. repeat (split; [done|]).
    rewrite Eb. eapply terminal_success; [done|congruence].
  - apply dispatch_allowed_in in Hin as (h & _ & tool'' & ->%Heq & _ & Hn & _). done.
Qed.

(** A request for confirmation shows the result of a preview that ran with the
    read-only request of the projection, and its ticket is the pending action that was
    created for that result and for the digest of the arguments the commit will execute;
    the request was recorded, and nothing was sent. *)
Theorem confirmation_ticket_exact (w : environment call answer) o version executor value ticket :
  verdict w = Ok o → go_body o = confirmation_required version executor value ticket →
  ticket_evidence (trace w) value ticket ∧ sent (trace w) = false ∧
  ∃ tool i action h,
    the_tool tool ∧ Event (c_createPendingAction i) (Ok (issued (ct_confirmToken ticket) action)) ∈ trace w ∧
    h ⊆ trace w ∧ issue_conditions h tool i ∧ ct_commitArgsDigest ticket = pb_commitArgsDigest (ii_binding i) ∧
    ct_previewDigest ticket = ii_previewDigest i.
Proof.
  intros Ho Hb. destruct (dispatch_ends w) as (_ & _ & Ha). destruct (Ha o Ho) as [Hj _].
  unfold justified in Hj. rewrite Hb in Hj. split; [done|].
  destruct Hj as (i & action & b & r & v & tool & Hin & _ & Ht & _ & _ & Hp & _ & Hc & _).
  pose proof (dispatch_allowed_in _ _ _ Hin) as (h & Hsub & tool' & Ht' & Hi).
  assert (tool' = tool) as -> by (unfold the_tool in *; congruence). split; [|eauto 12].
  apply not_true_iff_false. intros Hs. unfold sent in Hs. apply existsb_true in Hs as ([c a] & Hin' & He). destruct c; try done.
  apply dispatch_allowed_in in Hin' as (h' & _ & tool' & ? & ? & Ht2 & _ & _ & _ & _ & _ & _ & Hm).
  assert (tool' = tool) as -> by (unfold the_tool in *; congruence). destruct Hi as (_ & Hclass & Hnone & _).
  destruct Hm as [[[? _] _]|[[_ [[? _]|[_ [? ?]]]] _]]; congruence.
Qed.

(** No success is reported unrecorded: the event of the invocation, with this
    outcome, was delivered; the one exception is a mutation already handed to its
    executor, and its outcome carries the audit error. *)
Theorem success_is_audited (w : environment call answer) o :
  verdict w = Ok o → body_ok (go_body o) = true →
  match go_auditError o with
  | None => recorded (trace w) "tool.invocation" "outcome" (VStr (body_state (go_body o)))
  | Some _ => sent (trace w) = true
  end.
Proof. intros Ho Hok. destruct (dispatch_ends w) as (_ & _ & Ha). destruct (Ha o Ho) as [_ Haud]. by apply Haud. Qed.

Lemma queue_entered h : queue_of h ≠ idle → entered h = true.
Proof. induction h as [|[c a] h IH]; cbn; [done|]. destruct c; cbn; try done. by destruct (queue_of h); auto. Qed.

(** A read that throws has not reached an executor: once its route is authorised
    and it has queued, every exception (of the queue's window, the executor, the
    normalisation, the release or the audit) becomes the fixed [dispatch_unavailable]
    answer. *)
Theorem read_throws_early (w : environment call answer) e :
  (∀ tool, the_tool tool → tr_mutationScopePolicy tool = policy_none ∧
     (tr_policyClass tool = class_confirm → is_Some (rq_confirmation input))) →
  verdict w = Throw e →
  entered (trace w) = false ∧ ∀ c a, Event c a ∈ trace w → contact_request c = None.
Proof.
  intros Hpolicy Hv.
  assert (entered (trace w) = false) as He.
  { revert Hv. unfold dispatch. case_match; [|done].
    assert (∀ e, (run w (dispatchRead safeParse this input) []).2 = Throw e →
      entered (run w (dispatchRead safeParse this input) []).1 = false) as Hr.
    { eapply (wp_trace _ _ w (λ h r, ∀ e, r = Throw e → entered h = false)).
      apply wp_read_answers. intros tool Ht. by apply Hpolicy. }
    destruct (di_registry this (rq_toolName input)) as [tool|] eqn:Et; [|apply Hr].
    destruct (Hpolicy tool Et) as [-> Hc]. rewrite bool_decide_true by done.
    destruct (tr_policyClass tool), (rq_confirmation input) eqn:Ei; try apply Hr. by destruct (Hc eq_refl). }
  split; [done|]. intros c a Hin. destruct (contact_request c) as [r|] eqn:Ec; [|done]. exfalso.
  assert (∃ h, h ⊆ trace w ∧ ∃ P, contact h r P) as (h & Hsub & P & tool & win & tail & _ & _ & _ & Hq & _).
  { apply dispatch_allowed_in in Hin as (h & Hsub & Hal). exists h. split; [done|].
    destruct c; try done; injection Ec as ->; by eexists. }
  assert (entered h = true) as Hh by (apply queue_entered; congruence).
  unfold entered in He, Hh. apply existsb_true in Hh as (x & Hx & Hx'). rewrite existsb_false in He.
  rewrite He in Hx'; [done|by apply Hsub].
Qed.

(** Arguments that the projection cannot digest (a lone surrogate, say) are not
    answered: the first call of a tool that needs confirmation then throws, and no event
    was emitted for it, where the other two paths answer [invalid_arguments]. *)
Theorem undigestable_preview_escapes (w : environment call answer) tool data e :
  the_tool tool → tr_policyClass tool = class_confirm → rq_confirmation input = None →
  ingress_check input = Ok tt → isJsonObject (rq_args input) = true →
  parse_args safeParse tool (rq_args input) = parse_data data →
  buildConfirmationPreviewProjection tool (spread data) = Throw e →
  (∃ e', verdict w = Throw e') ∧ ∀ c a, Event c a ∈ trace w → c = c_clock ∨ ∃ now, c = c_newAttemptId now.
Proof.
  intros Ht Hc Hn Hi Hj Hp Hb. unfold verdict, trace, dispatch. unfold the_tool in Ht. rewrite Hi, Ht, Hc, Hn.
  unfold dispatchConfirmationPreview. rewrite Hj, Hp, Hb. cbn.
  destruct (w [] c_clock) as [now|e1]; cbn; [|set_solver].
  destruct (w _ (c_newAttemptId now)) as [id|e2]; cbn; set_solver.
Qed.

End facts.

(** ** Witnesses *)

Section witness.
Import Sha256.

Definition demo_row (name : string) (policyClass : GatewayPolicyClass) (policy : GatewayMutationScopePolicy) (method : string)
  : GatewayToolRecord unit := {|
  tr_object := 0; tr_name := js name; tr_summary := js "A tool."; tr_namespace := js "core"; tr_version := js "1.0.0";
  tr_policyClass := policyClass; tr_mutationScopePolicy := policy; tr_executor := executor_bridge;
  tr_executorMethod := js method; tr_plainSchema := true; tr_inputSchema := []; tr_inputJsonSchema := VNull |}.

Definition demo_read : GatewayToolRecord unit := demo_row "core.read" class_auto policy_none "get_ui_state".
Definition demo_edit : GatewayToolRecord unit := demo_row "core.edit" class_confirm policy_document "set_element_parameter".

Definition demo_dispatcher : GatewayDispatcher unit := {|
  di_registry := λ name, find_first (λ tool, tr_name tool === name) [demo_read; demo_edit];
  di_executors := [(executor_bridge,
    {| ex_previewConfirmation := true; ex_buildMutationDispatch := true; ex_executePreparedMutation := true |})];
  di_eventSource := {| so_component := js "gateway"; so_version := js "1"; so_instance := js "a" |};
  di_confirmationAuthority := true; di_mutationProbeVerification := false; di_verificationMethods := false |}.

Definition demo_parse (fields : list (jstr * option unit)) (v : jsval) : result thrown (option jsval) := Ok (Some v).

Definition demo_call (tool : GatewayToolRecord unit) (args : jsval) (confirmation : option GatewayConfirmationControl)
  : GatewayDispatchRequest := {|
  rq_toolName := tr_name tool; rq_args := args; rq_auth := InvocationContextFacts.demo_auth; rq_mcpSessionId := js "mcp-1";
  rq_scope := InvocationContextFacts.demo_scope; rq_invocationIdOverride := None; rq_beforeExecute := false;
  rq_confirmationSessionId := None; rq_confirmation := confirmation |}.

Definition demo_commit_args : jsval := obj [(js "value", VNum (JInt 3)); (js "mode", VStr (js "commit"))].
Definition demo_token : jstr := Eval vm_compute in Confirmation.is_token ConfirmationFacts.demo_issue.
Definition demo_control : GatewayConfirmationControl := {|
  cc_confirmToken := demo_token; cc_originatingPreviewInvocationId := ConfirmationFacts.demo_preview |}.

Definition demo_reading : GatewayDispatchRequest := demo_call demo_read (obj []) None.
Definition demo_asking : GatewayDispatchRequest := demo_call demo_edit (obj [(js "value", VNum (JInt 3))]) None.
Definition demo_committing : GatewayDispatchRequest := demo_call demo_edit demo_commit_args (Some demo_control).

(** The payload of the journal that proves the mutation. *)
Definition demo_payload : jsval := obj [(js "changed", VNum (JInt 1))].

Definition demo_digest (v : jsval) : jstr := match makeParamsDigest v with Ok d => d | Throw _ => [] end.

Definition demo_terminal : Journal.TerminalJournalOutcome := {|
  Journal.to_status := Journal.completed; Journal.to_resultDigest := Some (demo_digest demo_payload);
  Journal.to_guardedReason := None; Journal.to_payloadRetained := true; Journal.to_payload := Some demo_payload |}.

Definition demo_journal : Journal.InvocationJournalRecord := Eval vm_compute in
  JournalFacts.get (JournalFacts.demo_executing true) (Journal.recordJournalTerminal (JournalFacts.demo_executing true) demo_terminal).

Definition demo_draft (r : GatewayExecutorRequest) : Draft := {|
  dr_sessionBindingId := js "sb"; dr_connectionId := js "cx"; dr_envelope := VNull;
  dr_expected := {|
    em_rsid := ic_rsid (er_context r); em_correlationId := ic_invocationId (er_context r);
    em_bindings := [{| Journal.jb_rsid := ic_rsid (er_context r); Journal.jb_invocationId := ic_invocationId (er_context r);
      Journal.jb_method := er_executorMethod r; Journal.jb_mutating := true;
      Journal.jb_mutationScope := Some (Journal.scope_document (js "doc-1"));
      Journal.jb_paramsDigest := ic_paramsDigest (er_context r);
      Journal.jb_policy := {| Journal.pb_class := Journal.class_confirm; Journal.pb_decision := Journal.decision_confirmed;
                              Journal.pb_confirmation_id := ic_confirmationId (er_context r) |};
      Journal.jb_verification := None; Journal.jb_recoveryClearances := None; Journal.jb_batchId := None;
      Journal.jb_batchIndex := None; Journal.jb_batchDigest := None |}];
    em_recoveryClearances := [] |} |}.

Definition demo_pending : GatewayRecoveryPendingDispatch := {|
  pd_envelope := VNull; pd_envelopeDigest := js "sha256:e"; pd_sessionBindingId := js "sb"; pd_preparedConnectionId := js "cx";
  pd_recoveryHoldIds := []; pd_recoveryClearances := [] |}.

Definition demo_completion (v : jsval) : jsval := obj [(js "state", VStr (js "completed")); (js "result", v)].

(** Every collaborator does its part, except that the socket of a mutation closes and
    that the event sink may be down. *)
Definition demo_world (sink : result thrown GatewayPortResult) : environment call answer := λ _ c,
  match c with
  | c_clock | c_now => Ok 50
  | c_newAttemptId _ => Ok (js "attempt-1")
  | c_newInvocationId _ => Ok ConfirmationFacts.demo_commit
  | c_newEventId _ => Ok (js "event-1")
  | c_nextSequence => 1
  | c_enterTail _ => (None, 0)
  | c_awaitTail _ | c_leaveTail _ _ => tt
  | c_resolveRoute _ _ => Ok InvocationContextFacts.demo_route
  | c_beforeExecute _ => Ok true
  | c_acquireInvocationWindow _ => Ok window_acquired
  | c_releaseInvocationWindow _ => Ok window_released
  | c_preflightMutation _ _ _ => Ok preflight_clear
  | c_prepareMutationDispatch _ => Ok (prepared demo_pending)
  | c_prepareVerificationDispatch _ _ _ => Ok prepare_replay_terminal
  | c_reconcilePendingDispatch _ => Ok (terminal_recorded [] [demo_journal] None)
  | c_recordVerificationEvidence _ => Ok (evidence_rejected [])
  | c_planRecoveryClearances _ _ _ _ => Ok (plan_rejected [])
  | c_execute _ _ | c_previewConfirmation _ _ => Ok (demo_completion (VStr (js "seen")))
  | c_executePreparedMutation _ _ _ => Throw (thrown_value (js "socket closed"))
  | c_buildMutationDispatch _ r => Ok (demo_draft r)
  | c_createPendingAction _ => Ok (issued demo_token ConfirmationFacts.demo_action)
  | c_emit _ => sink
  | c_recordOrigin _ _ | c_revalidateOriginPending _ _ _ _ _ | c_recordVerificationPrepared _ _ _ _ _ => Ok true
  | c_prepareNext _ _ => Ok None
  | c_prepareVerification _ _ _ => Ok None
  | c_recordPlan _ _ _ => Ok None
  | c_delay _ => Ok tt
  end.

Definition demo_run (input : GatewayDispatchRequest) : history * result thrown GatewayDispatchOutcome :=
  run (demo_world (Ok port_ok)) (dispatch demo_parse demo_dispatcher input) [].

(** The calls a read makes, latest first, and where the executor is among them. *)
Definition demo_read_trace : history := Eval vm_compute in (demo_run demo_reading).1.

Lemma executors_reached_in_window_witness : ∃ later c a earlier r,
  (demo_run demo_reading).1 = later ++ Event c a :: earlier ∧ contact_request c = Some r ∧
  contact demo_dispatcher demo_reading earlier r (λ tool _, contact_policy demo_reading c tool).
Proof.
  unfold demo_run.
  assert ((run (demo_world (Ok port_ok)) (dispatch demo_parse demo_dispatcher demo_reading) []).1 = demo_read_trace) as Ht
    by (vm_compute; reflexivity).
  eexists (take 6 demo_read_trace), (c_execute _ _), _, (drop 7 demo_read_trace), _.
  split; [rewrite Ht; reflexivity|]. split; [reflexivity|].
  eapply (executors_reached_in_window demo_parse demo_dispatcher demo_reading (demo_world (Ok port_ok)) (take 6 demo_read_trace)).
  - etransitivity; [exact Ht|reflexivity].
  - reflexivity.
Defined.

Definition demo_commit_trace : history := Eval vm_compute in (demo_run demo_committing).1.

Lemma mutation_sent_as_prepared_witness : ∃ later b r pending a earlier,
  (demo_run demo_committing).1 = later ++ Event (c_executePreparedMutation b r pending) a :: earlier ∧
  contact demo_dispatcher demo_committing earlier r
    (λ tool win, send_conditions demo_committing earlier tool win b r pending) ∧
  sent earlier = false ∧ sent later = false.
Proof.
  unfold demo_run.
  assert ((run (demo_world (Ok port_ok)) (dispatch demo_parse demo_dispatcher demo_committing) []).1 = demo_commit_trace) as Ht
    by (vm_compute; reflexivity).
  eexists (take 7 demo_commit_trace), _, _, _, _, (drop 8 demo_commit_trace).
  split; [rewrite Ht; reflexivity|].
  eapply (mutation_sent_as_prepared demo_parse demo_dispatcher demo_committing (demo_world (Ok port_ok)) (take 7 demo_commit_trace)).
  etransitivity; [exact Ht|reflexivity].
Defined.

(** The outcome of a run that answers. *)
Definition demo_answer (r : result thrown GatewayDispatchOutcome) : GatewayDispatchOutcome :=
  match r with Ok o => o | Throw _ => outcome_of [] [] (failed (error_of tool_not_found None []) None None) end.

Lemma mutation_success_durable_witness : ∃ q cleared records batch,
  Event (c_reconcilePendingDispatch q) (Ok (terminal_recorded cleared records batch)) ∈ (demo_run demo_committing).1 ∧
  durable_result records batch demo_payload.
Proof.
  destruct (mutation_success_durable demo_parse demo_dispatcher demo_committing (demo_world (Ok port_ok)) demo_edit
              (demo_answer (demo_run demo_committing).2))
    as (b & r & pending & a & q & cleared & records & batch & _ & Hin & _ & _ & Hd).
  - vm_compute. reflexivity.
  - discriminate.
  - intros _. exists demo_control. reflexivity.
  - vm_compute. reflexivity.
  - vm_compute. reflexivity.
  - exists q, cleared, records, batch. split; [exact Hin|].
    replace demo_payload with (body_value (go_body (demo_answer (demo_run demo_committing).2))) by (vm_compute; reflexivity).
    exact Hd.
Defined.

Lemma confirmation_ticket_exact_witness : ∃ version executor value ticket,
  go_body (demo_answer (demo_run demo_asking).2) = confirmation_required version executor value ticket ∧
  ticket_evidence demo_dispatcher demo_asking (demo_run demo_asking).1 value ticket ∧ sent (demo_run demo_asking).1 = false.
Proof.
  destruct (go_body (demo_answer (demo_run demo_asking).2)) as [| | |version executor value ticket|] eqn:Eb;
    try (exfalso; revert Eb; vm_compute; discriminate).
  exists version, executor, value, ticket. split; [reflexivity|].
  destruct (confirmation_ticket_exact demo_parse demo_dispatcher demo_asking (demo_world (Ok port_ok))
              (demo_answer (demo_run demo_asking).2) version executor value ticket) as (He & Hs & _);
    [vm_compute; reflexivity|exact Eb|]. split; [exact He|exact Hs].
Defined.

(** The sink is down while a mutation is dispatched whose approval it had recorded. *)
Definition demo_failing_sink : environment call answer := λ h c,
  match c as c' return answer c' with
  | c_emit ev => if ev_event_type ev === js "tool.confirmation" then Ok port_ok else Throw (thrown_value (js "sink down"))
  | c' => demo_world (Ok port_ok) h c'
  end.

Lemma success_is_audited_witness :
  let r := run demo_failing_sink (dispatch demo_parse demo_dispatcher demo_committing) [] in
  go_auditError (demo_answer r.2) = Some (js "event_sink:emit_exception", js "sink down") ∧ sent r.1 = true.
Proof.
  intros r. assert (go_auditError (demo_answer r.2) = Some (js "event_sink:emit_exception", js "sink down")) as Ha
    by (vm_compute; reflexivity).
  split; [exact Ha|].
  pose proof (success_is_audited demo_parse demo_dispatcher demo_committing demo_failing_sink (demo_answer r.2)) as Hs.
  rewrite Ha in Hs. apply Hs; vm_compute; reflexivity.
Defined.

Definition demo_stopped_clock : environment call answer := λ h c,
  match c as c' return answer c' with c_clock => Throw (thrown_value (js "no clock")) | c' => demo_world (Ok port_ok) h c' end.

Lemma read_throws_early_witness :
  entered (run demo_stopped_clock (dispatch demo_parse demo_dispatcher demo_reading) []).1 = false.
Proof.
  apply (read_throws_early demo_parse demo_dispatcher demo_reading demo_stopped_clock (thrown_value (js "no clock"))).
  - intros tool Ht. assert (tool = demo_read) as -> by (injection Ht as <-; reflexivity). by split.
  - vm_compute. reflexivity.
Defined.

Definition demo_surrogate : GatewayDispatchRequest :=
  demo_call demo_edit (obj [(js "value", VStr [0xd800])]) None.

Definition demo_escape : js_error := Eval vm_compute in
  match buildConfirmationPreviewProjection demo_edit (spread (rq_args demo_surrogate)) with Throw e => e | Ok _ => JsError TypeError [] end.

Lemma undigestable_preview_escapes_witness :
  ∃ e, (run (demo_world (Ok port_ok)) (dispatch demo_parse demo_dispatcher demo_surrogate) []).2 = Throw e.
Proof.
  apply (undigestable_preview_escapes demo_parse demo_dispatcher demo_surrogate (demo_world (Ok port_ok)) demo_edit
           (rq_args demo_surrogate) demo_escape); vm_compute; reflexivity.
Defined.

End witness.
End DispatchFacts.
