(* ===== verification/DispatchQueue.v ===== *)
(** Concurrent dispatches of one dispatcher: the queues of the routes
    ([#serialize] and [#rsidTails] of packages/gateway/src/dispatch.ts).

    A dispatcher serves any number of dispatches at once; between two awaits of one of
    them any of the others may run.  The shared state is the map of tails, the promises
    that have been resolved and the event counter.  A step lets one dispatch make its
    next call: a call of the shared state is answered by it, and [await prior] waits
    until the promise is resolved; any other call is answered in any way at all.

    [queue_inv] is the invariant of the queues, over the places of the dispatches
    alone; the steps of the system preserve it because each dispatch uses the queue as
    [allowed] says. *)

From stdpp Require Import gmap relations.
From S2P Require Import Prelude JsString JsValue Canonical Sha256 InvocationContext Registry Projection.
From S2P Require Import Effects DispatchData Dispatch DispatchTraces.

Module DispatchQueue.
Import Canonical InvocationContext Registry Projection DispatchData Dispatch DispatchFacts.

(** ** The shared state *)

Record Shared := { sh_rsidTails : gmap jstr Z; sh_resolved : gset Z; sh_nextPromise : Z; sh_eventSequence : Z }.

Definition initial : Shared := {| sh_rsidTails := ∅; sh_resolved := ∅; sh_nextPromise := 0; sh_eventSequence := 0 |}.

Definition is_resolved (s : Shared) (prior : option Z) : bool :=
  match prior with None => true | Some p => bool_decide (p ∈ sh_resolved s) end.

(** The first part of [#serialize]: the prior tail, and a new promise in its place. *)
Definition enter_tail (s : Shared) (rsid : jstr) : (option Z * Z) * Shared :=
  ((sh_rsidTails s !! rsid, sh_nextPromise s),
   {| sh_rsidTails := <[rsid := sh_nextPromise s]> (sh_rsidTails s); sh_resolved := sh_resolved s;
      sh_nextPromise := sh_nextPromise s + 1; sh_eventSequence := sh_eventSequence s |}).

(** Its [finally]: the promise is resolved, and forgotten if no one has queued behind it. *)
Definition leave_tail (s : Shared) (rsid : jstr) (tail : Z) : Shared :=
  {| sh_rsidTails := if sh_rsidTails s !! rsid === Some tail then delete rsid (sh_rsidTails s) else sh_rsidTails s;
     sh_resolved := {[tail]} ∪ sh_resolved s; sh_nextPromise := sh_nextPromise s; sh_eventSequence := sh_eventSequence s |}.

Definition next_sequence (s : Shared) : Z * Shared :=
  (sh_eventSequence s + 1,
   {| sh_rsidTails := sh_rsidTails s; sh_resolved := sh_resolved s; sh_nextPromise := sh_nextPromise s;
      sh_eventSequence := sh_eventSequence s + 1 |}).

(** The calls the dispatcher answers itself. *)
Definition internal (c : call) : bool :=
  match c with c_nextSequence | c_enterTail _ | c_awaitTail _ | c_leaveTail _ _ => true | _ => false end.

(** Its answer, or [None] while the call has to wait. *)
Definition serve (s : Shared) (c : call) : option (answer c * Shared) :=
  match c with
  | c_nextSequence => Some (next_sequence s)
  | c_enterTail rsid => Some (enter_tail s rsid)
  | c_awaitTail prior => if is_resolved s prior then Some (tt, s) else None
  | c_leaveTail rsid tail => Some (tt, leave_tail s rsid tail)
  | _ => None
  end.

(** ** The invariant of the queues *)

Definition held (q : queue_state) : option (jstr * Z) :=
  match q with idle => None | waiting rsid _ tail | running rsid tail => Some (rsid, tail) end.

(** [pos] is the place of each dispatch. *)
Record queue_inv (s : Shared) (pos : nat → queue_state) : Prop := {
  qi_numbered : 0 <= sh_nextPromise s;
  qi_fresh i rsid tail : held (pos i) = Some (rsid, tail) → 0 <= tail < sh_nextPromise s ∧ tail ∉ sh_resolved s;
  qi_resolved t : t ∈ sh_resolved s → t < sh_nextPromise s;
  qi_unique i j rsid rsid' tail : held (pos i) = Some (rsid, tail) → held (pos j) = Some (rsid', tail) → i = j;
  (** the map names the youngest place of a route *)
  qi_last i rsid tail : held (pos i) = Some (rsid, tail) → ∃ t, sh_rsidTails s !! rsid = Some t ∧ tail <= t;
  qi_owner rsid t : sh_rsidTails s !! rsid = Some t → ∃ j, held (pos j) = Some (rsid, t);
  (** what a dispatch waits for is resolved or belongs to an older place of its route *)
  qi_prior j rsid p tail : pos j = waiting rsid (Some p) tail →
    p < tail ∧ (p ∈ sh_resolved s ∨ ∃ i, held (pos i) = Some (rsid, p));
  (** only the oldest place of a route can run *)
  qi_order i j rsid ti tj : held (pos i) = Some (rsid, ti) → held (pos j) = Some (rsid, tj) → ti < tj →
    ∃ p, pos j = waiting rsid (Some p) tj ∧ ti <= p ∧ p ∉ sh_resolved s }.

Definition move (pos : nat → queue_state) (i : nat) (q : queue_state) : nat → queue_state :=
  λ j, if decide (j = i) then q else pos j.

Lemma move_eq pos i q : move pos i q i = q.
Proof. unfold move. by rewrite decide_True. Qed.
Lemma move_ne pos i q j : j ≠ i → move pos i q j = pos j.
Proof. intros. unfold move. by rewrite decide_False. Qed.

(** Case split on the place that moved. *)
Ltac at_place i :=
  repeat match goal with
  | H : context [move ?pos i ?q ?j] |- _ =>
      destruct (decide (j = i)) as [->|?]; [rewrite move_eq in H|rewrite (move_ne pos i q j) in H by done]
  | |- context [move ?pos i ?q ?j] =>
      destruct (decide (j = i)) as [->|?]; [rewrite move_eq|rewrite (move_ne pos i q j) by done]
  end; cbn in *; simplify_eq.

Lemma queue_inv_enter s pos i rsid :
  queue_inv s pos → pos i = idle →
  queue_inv (enter_tail s rsid).2 (move pos i (waiting rsid (sh_rsidTails s !! rsid) (sh_nextPromise s))).
Proof.
  intros HI Hi. pose proof HI as [Hz Hf Hr Hu Hl Ho Hp Hord].
  assert (∀ j, held (pos j) ≠ None → j ≠ i) as Hni by (intros j Hj ->; by rewrite Hi in Hj).
  assert (∀ j rsid' t, held (pos j) = Some (rsid', t) →
    held (move pos i (waiting rsid (sh_rsidTails s !! rsid) (sh_nextPromise s)) j) = Some (rsid', t)) as Hkeep.
  { intros j rsid' t Hj. rewrite move_ne; [done|]. apply Hni. by rewrite Hj. }
  constructor; cbn.
  - lia.
  - intros j rsid' tail Hj. at_place i; [split; [lia|]; intros ?%Hr; lia|]. apply Hf in Hj. split; [lia|apply Hj].
  - intros t ?%Hr. lia.
  - intros j k rsid' rsid'' tail Hj Hk. at_place i; try done; [..|by eapply Hu];
    match goal with H : held (pos _) = Some _ |- _ => apply Hf in H; lia end.
  - intros j rsid' tail Hj. destruct (decide (rsid' = rsid)) as [->|Hne].
    + exists (sh_nextPromise s). rewrite lookup_insert_eq. split; [done|]. at_place i; [lia|]. apply Hf in Hj. lia.
    + rewrite lookup_insert_ne by done. at_place i. by apply Hl in Hj.
  - intros rsid' t. destruct (decide (rsid' = rsid)) as [->|Hne].
    + rewrite lookup_insert_eq. intros [= <-]. exists i. by rewrite move_eq.
    + rewrite lookup_insert_ne by done. intros (j & Hj)%Ho. exists j. by apply Hkeep.
  - intros j rsid' p tail Hj. at_place i.
    + match goal with Ht : _ !! _ = Some p |- _ => apply Ho in Ht as (k & Hk) end.
      split; [apply Hf in Hk as [? _]; lia|]. right. exists k. by apply Hkeep.
    + apply Hp in Hj as [? [?|(k & Hk)]]; (split; [done|]); [by left|right]. exists k. by apply Hkeep.
  - intros j k rsid' tj tk Hj Hk Hlt. destruct (decide (k = i)) as [->|Hki].
    + rewrite move_eq in Hk |- *. cbn in Hk. simplify_eq. at_place i; [lia|].
      pose proof (Hl _ _ _ Hj) as (t & Ht & Hle). exists t. split; [by rewrite Ht|]. split; [done|].
      apply Ho in Ht as (k & Hk). by apply Hf in Hk as [_ ?].
    + rewrite move_ne in Hk |- * by done. at_place i; [apply Hf in Hk; lia|]. by eapply Hord.
Qed.

Lemma queue_inv_await s pos i rsid prior tail :
  queue_inv s pos → pos i = waiting rsid prior tail → is_resolved s prior = true →
  queue_inv s (move pos i (running rsid tail)).
Proof.
  intros HI Hi Hres. pose proof HI as [Hz Hf Hr Hu Hl Ho Hp Hord].
  assert (∀ j, held (move pos i (running rsid tail) j) = held (pos j)) as Hh by (intros j; at_place i; by rewrite ?Hi).
  assert (∀ j q, move pos i (running rsid tail) j = q → q = running rsid tail ∨ pos j = q) as Hm by (intros j q <-; at_place i; auto).
  constructor; try setoid_rewrite Hh; try done.
  - intros j rsid' p t [?|Hj]%Hm; [done|]. by eapply Hp.
  - intros j k rsid' tj tk Hj Hk Hlt. destruct (Hord _ _ _ _ _ Hj Hk Hlt) as (p & Ek & Hle & Hnr).
    exists p. split; [|done]. at_place i; [|done]. rewrite Hi in Ek. simplify_eq. cbn in Hres. bsimp. by destruct (Hnr Hres).
Qed.

Lemma queue_inv_leave s pos i rsid tail :
  queue_inv s pos → pos i = running rsid tail → queue_inv (leave_tail s rsid tail) (move pos i idle).
Proof.
  intros HI Hi. pose proof HI as [Hz Hf Hr Hu Hl Ho Hp Hord].
  assert (held (pos i) = Some (rsid, tail)) as Hheld by (by rewrite Hi).
  (** no place of the route is older than the one that runs *)
  assert (∀ j t, held (pos j) = Some (rsid, t) → tail <= t) as Hold.
  { intros j t Hj. destruct (Z.le_gt_cases tail t); [done|]. destruct (Hord _ _ _ _ _ Hj Hheld) as (p & Hw & _); [lia|congruence]. }
  assert (∀ j rsid' t, held (move pos i idle j) = Some (rsid', t) → held (pos j) = Some (rsid', t) ∧ j ≠ i ∧ t ≠ tail) as Hh.
  { intros j rsid' t Hj. at_place i. split; [done|]. split; [done|]. intros ->. eapply n, Hu; eauto. }
  assert (∀ j rsid' t, held (pos j) = Some (rsid', t) → t ≠ tail → held (move pos i idle j) = Some (rsid', t)) as Hh'.
  { intros j rsid' t Hj Ht. rewrite move_ne; [done|]. intros ->. congruence. }
  constructor; cbn.
  - done.
  - intros j rsid' t (Hj & _ & Ht)%Hh. apply Hf in Hj as [? ?]. split; [done|]. set_solver.
  - intros t [->%elem_of_singleton|?%Hr]%elem_of_union; [|done]. apply Hf in Hheld as [? _]. lia.
  - intros j k rsid' rsid'' t (Hj & _ & _)%Hh (Hk & _ & _)%Hh. by eapply Hu.
  - intros j rsid' t (Hj & Hne & Ht)%Hh. destruct (Hl _ _ _ Hj) as (t' & Ht' & Hle). exists t'. split; [|done].
    case_bool_decide as Hb; [|done]. destruct (decide (rsid' = rsid)) as [->|?]; [|by rewrite lookup_delete_ne].
    pose proof (Hold _ _ Hj). rewrite Ht' in Hb. injection Hb as ->. lia.
  - intros rsid' t Ht. assert (sh_rsidTails s !! rsid' = Some t ∧ t ≠ tail) as [Hs Hne].
    { case_bool_decide as Hb.
      - apply lookup_delete_Some in Ht as [Hne Ht]. split; [done|]. intros ->.
        apply Ho in Ht as (j & Hj). pose proof (Hu _ _ _ _ _ Hj Hheld) as ->. rewrite Hi in Hj. cbn in Hj. congruence.
      - split; [done|]. intros ->. apply Ho in Ht as Ht'. destruct Ht' as (j & Hj).
        pose proof (Hu _ _ _ _ _ Hj Hheld) as ->. rewrite Hi in Hj. cbn in Hj. congruence. }
    apply Ho in Hs as (j & Hj). exists j. by apply Hh'.
  - intros j rsid' p t Hj. at_place i. apply Hp in Hj as [? Hp']. split; [done|].
    destruct (decide (p = tail)) as [->|Hne]; [left; set_solver|].
    destruct Hp' as [?|(k & Hk)]; [left; set_solver|right]. exists k. by apply Hh'.
  - intros j k rsid' tj tk (Hj & Hjn & _)%Hh (Hk & Hkn & _)%Hh Hlt. destruct (Hord _ _ _ _ _ Hj Hk Hlt) as (p & Ek & Hle & Hnr).
    exists p. split; [by rewrite move_ne|]. split; [done|]. intros [->%elem_of_singleton|?]%elem_of_union; [|done].
    pose proof (Hp _ _ _ _ Ek) as [_ [?|(l & Hlk)]]; [done|].
    pose proof (Hu _ _ _ _ _ Hlk Hheld) as ->. rewrite Hheld in Hlk. injection Hlk as <-.
    pose proof (Hold _ _ Hj). assert (tj = tail) as -> by lia. by pose proof (Hu _ _ _ _ _ Hj Hheld).
Qed.

Lemma queue_inv_ext s pos pos' : queue_inv s pos → (∀ i, pos i = pos' i) → queue_inv s pos'.
Proof. intros [Hz Hf Hr Hu Hl Ho Hp Hord] E. constructor; try setoid_rewrite <- E; done. Qed.

(** ** The system *)

Section system.
Context `{Hasher} {ZodType : Type}.
Context (safeParse : list (jstr * option ZodType) → jsval → result thrown (option jsval)).
Context (this : GatewayDispatcher ZodType).

(** A dispatch in progress: what is left of it, and what it did. *)
Abbreviation thread := (program GatewayDispatchOutcome * history)%type.

Record System := { sy_shared : Shared; sy_threads : list thread }.

Definition started : System := {| sy_shared := initial; sy_threads := [] |}.

(** Thread [i] makes its next call. *)
Inductive advances : System → System → Prop :=
| advance_own i c k h a s s' ts :
    ts !! i = Some (Call c k, h) → serve s c = Some (a, s') →
    advances {| sy_shared := s; sy_threads := ts |} {| sy_shared := s'; sy_threads := <[i := (k a, Event c a :: h)]> ts |}
| advance_other i c k h a s ts :
    ts !! i = Some (Call c k, h) → internal c = false →
    advances {| sy_shared := s; sy_threads := ts |} {| sy_shared := s; sy_threads := <[i := (k a, Event c a :: h)]> ts |}.

Inductive system_step : System → System → Prop :=
| system_start input s ts :
    system_step {| sy_shared := s; sy_threads := ts |}
                {| sy_shared := s; sy_threads := ts ++ [(dispatch safeParse this input, [])] |}
| system_advance Σ Σ' : advances Σ Σ' → system_step Σ Σ'.

Definition reachable (Σ : System) : Prop := rtc system_step started Σ.

(** ** What is true of every thread *)

Definition thread_ok (t : thread) : Prop :=
  ∃ input, wp (allowed safeParse this input) t.1 t.2 (dispatch_post this input) ∧
           all_allowed (allowed safeParse this input) [] t.2.

Lemma thread_ok_call c k h a : thread_ok (Call c k, h) → thread_ok (k a, Event c a :: h).
Proof. intros (input & [Hc Hw] & Ha). exists input. split; [apply Hw|]. right. by split. Qed.

Lemma thread_allowed c k h : thread_ok (Call c k, h) → ∃ input, allowed safeParse this input h c.
Proof. intros (input & [Hc _] & _). eauto. Qed.

(** A window is open only at the head of its route's queue. *)
Lemma window_in_queue input h w :
  all_allowed (allowed safeParse this input) [] h → window_of h = Some w → ∃ tail, queue_of h = running (wr_rsid w) tail.
Proof.
  induction h as [|[c a] h IH]; [done|]. intros [?|[Hc Ha]]; [done|]. specialize (IH Ha).
  destruct c; try exact IH; cbn.
  - destruct a as [prior tail]. cbn in Hc. destruct Hc as [_ ->]. done.
  - destruct Hc as (rsid & tail & Hq). rewrite Hq in IH |- *. intros Hw. by destruct (IH Hw).
  - cbn in Hc. destruct Hc as [_ ->]. done.
  - destruct Hc as [Hn (tail & Hq)]. destruct a as [[| | | |]|]; intros Hw; try congruence; injection Hw as <-; eauto.
  - done.
Qed.

Definition place (ts : list thread) (i : nat) : queue_state := match ts !! i with Some (_, h) => queue_of h | None => idle end.

Lemma place_insert ts i t t' j : ts !! i = Some t → place (<[i := t']> ts) j = move (place ts) i (queue_of t'.2) j.
Proof.
  intros Hi. unfold place, move. case_decide as E.
  - subst j. rewrite list_lookup_insert_eq by (by eapply lookup_lt_Some). by destruct t'.
  - by rewrite list_lookup_insert_ne.
Qed.

Lemma place_snoc ts p j : place (ts ++ [(p, [])]) j = place ts j.
Proof.
  unfold place. destruct (decide (j < length ts)%nat) as [Hj|Hj]; [by rewrite lookup_app_l|].
  rewrite lookup_app_r by lia. rewrite (lookup_ge_None_2 ts) by lia.
  destruct (j - length ts)%nat as [|n]; [done|]. by destruct n.
Qed.

Lemma queue_of_external c a h : internal c = false → queue_of (Event c a :: h) = queue_of h.
Proof. by destruct c. Qed.

(** ** The invariant of the system *)

Definition system_inv (Σ : System) : Prop :=
  Forall thread_ok (sy_threads Σ) ∧ queue_inv (sy_shared Σ) (place (sy_threads Σ)).

Lemma queue_inv_same s pos i : queue_inv s pos → queue_inv s (move pos i (pos i)).
Proof. intros HI. eapply queue_inv_ext; [exact HI|]. intros j. unfold move. case_decide; by subst. Qed.

Lemma queue_inv_sequence s pos : queue_inv s pos → queue_inv (next_sequence s).2 pos.
Proof. intros [Hz Hf Hr Hu Hl Ho Hp Hord]. by constructor. Qed.

(** The shared state's answer moves the thread as the queue's rules say. *)
Lemma queue_inv_serve s s' ts i c k h a :
  ts !! i = Some (Call c k, h) → thread_ok (Call c k, h) → serve s c = Some (a, s') →
  queue_inv s (place ts) → queue_inv s' (move (place ts) i (queue_of (Event c a :: h))).
Proof.
  intros Hi (input & Hc)%thread_allowed Hs HI.
  assert (place ts i = queue_of h) as Hpl by (unfold place; by rewrite Hi).
  destruct c; try done; cbn in Hs, Hc.
  - injection Hs as <- <-. cbn. rewrite <- Hpl. apply queue_inv_same, (queue_inv_sequence s), HI.
  - injection Hs as <- <-. apply (queue_inv_enter s); [done|]. rewrite Hpl. apply Hc.
  - destruct Hc as (rsid & tail & Hq). case_match eqn:Er; [|done]. injection Hs as <- <-. cbn. rewrite Hq.
    eapply queue_inv_await; [done|by rewrite Hpl|done].
  - injection Hs as <- <-. cbn. destruct Hc as [Hq _]. apply queue_inv_leave; [done|]. by rewrite Hpl.
Qed.

Lemma system_inv_step Σ Σ' : system_step Σ Σ' → system_inv Σ → system_inv Σ'.
Proof.
  intros [input s ts|? ? [i c k h a s s' ts Hi Hs|i c k h a s ts Hi Hc]] [Hts HI]; cbn in *.
  - split; cbn.
    + apply Forall_app. split; [done|]. apply Forall_singleton. exists input. split; [apply wp_dispatch|by left].
    + eapply queue_inv_ext; [exact HI|]. intros j. by rewrite place_snoc.
  - assert (thread_ok (Call c k, h)) as Hok by (by eapply Forall_lookup_1 in Hts).
    split; cbn; [apply Forall_insert; [done|by apply thread_ok_call]|].
    eapply queue_inv_ext; [by eapply queue_inv_serve|]. intros j. by erewrite place_insert.
  - assert (thread_ok (Call c k, h)) as Hok by (by eapply Forall_lookup_1 in Hts).
    split; cbn; [apply Forall_insert; [done|by apply thread_ok_call]|].
    eapply queue_inv_ext; [apply (queue_inv_same s (place ts) i), HI|]. intros j. erewrite place_insert by done.
    cbn [snd]. rewrite queue_of_external by done. unfold move. case_decide; [|done]. unfold place. by rewrite Hi.
Qed.

Lemma system_reachable_inv Σ : reachable Σ → system_inv Σ.
Proof.
  unfold reachable. intros Hr. assert (system_inv started) as H0.
  { split; [constructor|]. unfold place. constructor; cbn; try done; set_solver. }
  revert H0. induction Hr as [|Σ1 Σ2 Σ3 Hs _ IH]; [done|]. intros H0. by apply IH, (system_inv_step Σ1).
Qed.

(** C20: dispatches of one route never overlap: whatever dispatches run at once and
    however their calls interleave, two of them never hold the window of the same
    route; and a route serves its dispatches in the order in which they queued: while
    an older one is in the queue, a younger one still waits. *)
Theorem one_dispatch_per_route Σ i j pi pj hi hj :
  reachable Σ → sy_threads Σ !! i = Some (pi, hi) → sy_threads Σ !! j = Some (pj, hj) →
  (∀ wi wj, window_of hi = Some wi → window_of hj = Some wj → wr_rsid wi = wr_rsid wj → i = j) ∧
  (∀ rsid ti tj, held (queue_of hi) = Some (rsid, ti) → held (queue_of hj) = Some (rsid, tj) → ti < tj →
     ∃ prior, queue_of hj = waiting rsid prior tj).
Proof.
  intros [Hts HI]%system_reachable_inv Hi Hj.
  assert (place (sy_threads Σ) i = queue_of hi) as Ei by (unfold place; by rewrite Hi).
  assert (place (sy_threads Σ) j = queue_of hj) as Ej by (unfold place; by rewrite Hj).
  split.
  - intros wi wj Hwi Hwj Hr.
    pose proof (Forall_lookup_1 _ _ _ _ Hts Hi) as (ini & _ & Hai). pose proof (Forall_lookup_1 _ _ _ _ Hts Hj) as (inj & _ & Haj).
    cbn [snd] in Hai, Haj.
    destruct (window_in_queue _ _ _ Hai Hwi) as (ti & Hqi), (window_in_queue _ _ _ Haj Hwj) as (tj & Hqj).
    rewrite <- Ei in Hqi. rewrite <- Ej in Hqj. rewrite <- Hr in Hqj.
    destruct (Z.lt_trichotomy ti tj) as [Hlt|[<-|Hlt]].
    + destruct (qi_order _ _ HI i j (wr_rsid wi) ti tj) as (p & ? & _); [by rewrite Hqi|by rewrite Hqj|done|congruence].
    + eapply (qi_unique _ _ HI); [by rewrite Hqi|by rewrite Hqj].
    + destruct (qi_order _ _ HI j i (wr_rsid wi) tj ti) as (p & ? & _); [by rewrite Hqj|by rewrite Hqi|done|congruence].
  - intros rsid ti tj. rewrite <- Ei, <- Ej. intros H1 H2 H3.
    destruct (qi_order _ _ HI _ _ _ _ _ H1 H2 H3) as (p & ? & _). by exists (Some p).
Qed.

(** ** Progress *)

Lemma answer_exists c : internal c = false → answer c.
Proof. destruct c; intros Hc; try discriminate Hc; exact (Throw (thrown_value [])). Qed.

(** A thread whose next call need not wait. *)
Lemma advances_unless_waiting s ts i c k h :
  ts !! i = Some (Call c k, h) → (∀ prior, c = c_awaitTail prior → is_resolved s prior = true) →
  ∃ Σ', advances {| sy_shared := s; sy_threads := ts |} Σ'.
Proof.
  intros Hi Hw. destruct (internal c) eqn:Ec; [|eexists; by apply (advance_other i c k h (answer_exists c Ec))].
  destruct (serve s c) as [[a s']|] eqn:Es; [eexists; by eapply advance_own|].
  destruct c; try done. cbn in Es. by rewrite (Hw _ eq_refl) in Es.
Qed.

(** The dispatch a waiting one waits for has a place, an older one, and is not over. *)
Lemma held_not_done s ts i rsid tail :
  Forall thread_ok ts → queue_inv s (place ts) → held (place ts i) = Some (rsid, tail) →
  ∃ c k h, ts !! i = Some (Call c k, h) ∧ queue_of h = place ts i.
Proof.
  intros Hts HI Hh. unfold place in Hh |- *. destruct (ts !! i) as [[p h]|] eqn:Ei; [|done].
  pose proof (Forall_lookup_1 _ _ _ _ Hts Ei) as (input & Hw & _). destruct p as [r|c k]; [|eauto].
  destruct Hw as (Hq & _). cbn in Hq. by rewrite Hq in Hh.
Qed.

Lemma holder_advances s ts n : ∀ i rsid tail,
  Forall thread_ok ts → queue_inv s (place ts) → held (place ts i) = Some (rsid, tail) → tail < Z.of_nat n →
  ∃ Σ', advances {| sy_shared := s; sy_threads := ts |} Σ'.
Proof.
  induction n as [|n IH]; intros i rsid tail Hts HI Hh Hlt; [apply (qi_fresh _ _ HI) in Hh; lia|].
  destruct (held_not_done _ _ _ _ _ Hts HI Hh) as (c & k & h & Hi & Hq).
  destruct (thread_allowed c k h) as (input & Hal); [by eapply Forall_lookup_1 in Hts|].
  destruct c as [| | | | | |prior| | | | | | | | | | | | | | | | | | | | | | | | |]; try (by eapply advances_unless_waiting).
  destruct Hal as (r & t & Hw). destruct (is_resolved s prior) eqn:Er.
  { eapply advances_unless_waiting; [done|]. by intros prior' [= <-]. }
  destruct prior as [p|]; [|done]. rewrite Hw in Hq. cbn in Er. bsimp.
  destruct (qi_prior _ _ HI i r p t) as [Hpt [?|(j & Hj)]]; [by symmetry|done|].
  assert (t = tail) as -> by (rewrite <- Hq in Hh; cbn in Hh; congruence).
  eapply (IH j); [done|done|exact Hj|lia].
Qed.

Definition finished (t : thread) : bool := match t.1 with Done _ => true | Call _ _ => false end.

Lemma system_advances Σ :
  system_inv Σ → ¬ Forall (λ t, finished t = true) (sy_threads Σ) → ∃ Σ', advances Σ Σ'.
Proof.
  destruct Σ as [s ts]. intros [Hts HI] Hn; cbn in *.
  apply not_Forall_Exists in Hn; [|intros; apply _]. apply Exists_exists in Hn as ([p h] & (i & Hi)%list_elem_of_lookup & Hp).
  destruct p as [r|c k]; [by destruct Hp|].
  destruct (thread_allowed c k h) as (input & Hal); [by eapply Forall_lookup_1 in Hts|].
  destruct c as [| | | | | |prior| | | | | | | | | | | | | | | | | | | | | | | | |]; try (by eapply advances_unless_waiting).
  destruct Hal as (r & t & Hw).
  assert (held (place ts i) = Some (r, t)) as Hh by (unfold place; by rewrite Hi, Hw).
  eapply (holder_advances s ts (Z.to_nat (t + 1)) i r t); [done..|]. apply (qi_fresh _ _ HI) in Hh. lia.
Qed.

(** ** Termination *)

(** What an advance makes of a thread, and of the threads. *)
Definition continued (t' t : thread) : Prop :=
  match t.1 with Done _ => False | Call c k => ∃ a, t' = (k a, Event c a :: t.2) end.

Definition one_continued (ts' ts : list thread) : Prop :=
  ∃ i t t', ts !! i = Some t ∧ ts' = <[i := t']> ts ∧ continued t' t.

Lemma continued_wf t : Acc continued t.
Proof.
  destruct t as [p h]. revert h. induction p as [r|c k IH]; intros h; constructor; intros t Ht; cbn in Ht; [done|].
  destruct Ht as (a & ->). apply IH.
Qed.

Lemma one_continued_cons t ts : Acc continued t → Acc one_continued ts → Acc one_continued (t :: ts).
Proof.
  intros Ht. revert ts. induction Ht as [t _ IHt]. intros ts Hts. induction Hts as [ts Hts IHts].
  constructor. intros ts' ([|i] & u & u' & Hi & -> & Hc); cbn in *.
  - injection Hi as <-. apply IHt; [done|by constructor].
  - apply IHts. by exists i, u, u'.
Qed.

Lemma one_continued_wf ts : Acc one_continued ts.
Proof.
  induction ts as [|t ts IH]; [|by apply one_continued_cons; [apply continued_wf|]].
  constructor. by intros ts' (i & t & t' & Hi & _).
Qed.

Lemma advances_continued Σ Σ' : advances Σ Σ' → one_continued (sy_threads Σ') (sy_threads Σ).
Proof. intros [i c k h a s s' ts Hi _|i c k h a s ts Hi _]; cbn; eexists i, _, _; (split; [done|]); (split; [done|]); by exists a. Qed.

Lemma advances_wf Σ : Acc (λ Σ2 Σ1, advances Σ1 Σ2) Σ.
Proof.
  remember (sy_threads Σ) as ts eqn:E. revert Σ E. induction (one_continued_wf ts) as [ts _ IH]. intros Σ ->.
  constructor. intros Σ' Ha. by eapply IH; [apply advances_continued|].
Qed.

Lemma advances_reachable Σ Σ' : reachable Σ → rtc advances Σ Σ' → reachable Σ'.
Proof. intros Hr Ha. unfold reachable. etrans; [exact Hr|]. eapply rtc_subrel; [|exact Ha]. apply system_advance. Qed.

(** C34: dispatches complete: once no new ones arrive, every interleaving of their calls
    comes to an end, whatever the collaborators answer or throw; and it can only stop
    when every dispatch has finished: no dispatch is left waiting in a queue. *)
Theorem dispatches_complete Σ :
  reachable Σ →
  Acc (λ Σ2 Σ1, advances Σ1 Σ2) Σ ∧
  ∀ Σ', rtc advances Σ Σ' → ¬ (∃ Σ'', advances Σ' Σ'') → Forall (λ t, finished t = true) (sy_threads Σ').
Proof.
  intros Hr. split; [apply advances_wf|]. intros Σ' Ha Hstuck.
  destruct (decide (Forall (λ t, finished t = true) (sy_threads Σ'))) as [Hf|Hf]; [done|].
  destruct Hstuck. apply system_advances; [|done]. by eapply system_reachable_inv, advances_reachable.
Qed.

End system.

(** ** A schedule, executed *)

Section schedule.
Context `{Hasher} {ZodType : Type}.
Context (safeParse : list (jstr * option ZodType) → jsval → result thrown (option jsval)).
Context (this : GatewayDispatcher ZodType).

(** Thread [i] makes its next call, if it has one that need not wait. *)
Definition schedule_one (w : environment call answer) (Σ : System) (i : nat) : System :=
  match sy_threads Σ !! i with
  | Some (Call c k, h) =>
      if internal c then
        match serve (sy_shared Σ) c with
        | Some (a, s) => {| sy_shared := s; sy_threads := <[i := (k a, Event c a :: h)]> (sy_threads Σ) |}
        | None => Σ
        end
      else {| sy_shared := sy_shared Σ; sy_threads := <[i := (k (w h c), Event c (w h c) :: h)]> (sy_threads Σ) |}
  | _ => Σ
  end.

Definition launch (Σ : System) (input : GatewayDispatchRequest) : System :=
  {| sy_shared := sy_shared Σ; sy_threads := sy_threads Σ ++ [(dispatch safeParse this input, [])] |}.

Definition play (w : environment call answer) (inputs : list GatewayDispatchRequest) (turns : list nat) : System :=
  foldl (schedule_one w) (foldl launch started inputs) turns.

Lemma schedule_one_reachable w Σ i : reachable safeParse this Σ → reachable safeParse this (schedule_one w Σ i).
Proof.
  intros Hr. unfold schedule_one. destruct Σ as [s ts]; cbn.
  destruct (ts !! i) as [[[r|c k] h]|] eqn:Ei; [done| |done].
  destruct (internal c) eqn:Ec; [destruct (serve s c) as [[a s']|] eqn:Es; [|done]|];
    eapply rtc_r; try exact Hr; apply system_advance; [by eapply advance_own|by eapply advance_other].
Qed.

Lemma schedule_reachable w inputs turns : reachable safeParse this (play w inputs turns).
Proof.
  unfold play. assert (reachable safeParse this (foldl launch started inputs)) as H0.
  { assert (reachable safeParse this started) as Hs by apply rtc_refl. revert Hs. generalize started.
    induction inputs as [|input inputs IH]; intros Σ Hs; [done|]. cbn. apply IH. eapply rtc_r; [exact Hs|].
    destruct Σ. apply system_start. }
  revert H0. generalize (foldl launch started inputs). induction turns as [|i turns IH]; intros Σ Hs; [done|].
  cbn. by apply IH, schedule_one_reachable.
Qed.

End schedule.

(** ** Witnesses *)

Section witness.
Import Sha256.

(** Two reads of one route: the second has queued behind the first. *)
Definition demo_system : System :=
  play demo_parse demo_dispatcher (demo_world (Ok port_ok)) [demo_reading; demo_reading]
    [0; 0; 0; 0; 0; 1; 1; 1; 0; 1; 1; 0; 1; 1]%nat.

Definition history_at (Σ : System) (i : nat) : history := match sy_threads Σ !! i with Some (_, h) => h | None => [] end.

Lemma one_dispatch_per_route_witness :
  window_of (history_at demo_system 0) = Some (window_request demo_reading (js "rsid-1") (js "attempt-1")) ∧
  ∃ prior, queue_of (history_at demo_system 1) = waiting (js "rsid-1") prior 1.
Proof.
  split; [vm_compute; reflexivity|].
  assert (length (sy_threads demo_system) = 2%nat) as Hl by (vm_compute; reflexivity).
  destruct (lookup_lt_is_Some_2 (sy_threads demo_system) 0) as [[p0 h0] E0]; [rewrite Hl; lia|].
  destruct (lookup_lt_is_Some_2 (sy_threads demo_system) 1) as [[p1 h1] E1]; [rewrite Hl; lia|].
  assert (h0 = history_at demo_system 0) as H0 by (unfold history_at; by rewrite E0).
  assert (h1 = history_at demo_system 1) as H1 by (unfold history_at; by rewrite E1).
  rewrite <- H1.
  eapply (one_dispatch_per_route demo_parse demo_dispatcher demo_system 0 1 p0 p1 h0 h1
            (schedule_reachable demo_parse demo_dispatcher _ _ _) E0 E1).
  - rewrite H0. vm_compute. reflexivity.
  - rewrite H1. vm_compute. reflexivity.
  - reflexivity.
Defined.

Lemma dispatches_complete_witness :
  Acc (λ Σ2 Σ1, advances Σ1 Σ2) demo_system ∧ map finished (sy_threads demo_system) = [false; false] ∧
  let Σ := play demo_parse demo_dispatcher (demo_world (Ok port_ok)) [demo_reading; demo_reading]
             (replicate 20 0 ++ replicate 20 1)%nat in
  Forall (λ t, finished t = true) (sy_threads Σ).
Proof.
  split; [apply (dispatches_complete demo_parse demo_dispatcher demo_system), schedule_reachable|].
  split; [vm_compute; reflexivity|]. cbv zeta.
  apply Forall_forall. intros t Ht. revert t Ht. apply forallb_true. vm_compute. reflexivity.
Defined.

End witness.
End DispatchQueue.
