(* ===== verification/RecoveryData.v ===== *)
(** The record of the recovery authority: packages/gateway/src/recoveryAuthority.ts.

    For every Revit session the gateway keeps one durable record: the invocation that
    owns the session's window, the ledger of holds on uncertain mutations, the dispatch
    that has been prepared and not yet settled, and the history of those that were.
    This file holds the data, and the functions that derive and check it.

    A record is kept as a value of its type: the shape checks of [decodeRecord] hold by
    typing and what is left of the zod schemas are the bounds and patterns.  An envelope
    is a JSON value; Ajv's verdict on it, with what it found in it, is a parameter. *)

From S2P Require Import Prelude JsString JsValue JsMap Canonical Sha256 Sequence Journal MutationHold Envelope.
From S2P Require Import ProtocolStore Identifiers InvocationContext Confirmation Effects.

Module RecoveryData.
Import Canonical Identifiers.
Import Journal MutationHold Envelope.

(** ** Envelopes of a dispatch *)

Record InvokePayload := {
  iv_invocation_id : jstr; iv_method : jstr; iv_params : jsval; iv_mutating : bool; iv_mutation_scope : option MutationScope;
  iv_policy : JournalPolicyBinding; iv_verification : option Verification; iv_recovery_clearances : list WireClearance }.

(** A step, with the policy and the scope the envelope's checks read as texts. *)
Record DispatchStep := { ds_step : BatchStep; ds_policy : JournalPolicyBinding; ds_mutation_scope : option MutationScope }.

Inductive DispatchPayload :=
| payload_invoke (payload : InvokePayload)
| payload_batch (batch_id : jstr) (atomic : bool) (timeout_ms : jsnum) (clearances : list WireClearance)
    (steps : list DispatchStep) (batch_digest : jstr).

(** [en_body] is the payload as JSON. *)
Record DispatchEnvelope := {
  en_id : jstr; en_ts : jsval; en_rsid : jstr; en_seq : jsnum; en_ack : option jsnum; en_body : jsval;
  en_payload : DispatchPayload }.

Definition envelope_type (e : DispatchEnvelope) : jstr :=
  match en_payload e with payload_invoke _ => js "invoke" | payload_batch _ _ _ _ _ _ => js "invoke_batch" end.

Definition is_batch (e : DispatchEnvelope) : bool :=
  match en_payload e with payload_invoke _ => false | payload_batch _ _ _ _ _ _ => true end.

(** The parts the semantic checks of the protocol read. *)
Definition rbp_envelope (e : DispatchEnvelope) : RbpEnvelope :=
  match en_payload e with
  | payload_invoke p => invoke_envelope (iv_recovery_clearances p)
  | payload_batch batch_id atomic timeout_ms clearances steps batch_digest =>
      invoke_batch_envelope {|
        ib_batch_id := batch_id; ib_atomic := atomic; ib_timeout_ms := timeout_ms; ib_recovery_clearances := clearances;
        ib_steps := map ds_step steps; ib_batch_digest := batch_digest |}
  end.

(** A batch result as its carrier is read: [bc_reasons] are the guarded reasons. *)
Record BatchCarrier := { bc_batch_id : jstr; bc_result : BatchResult; bc_reasons : list (option jstr) }.

(** ** Data *)

Record GatewayRecoveryMutationEntry := {
  me_invocationId : jstr; me_idempotencyKey : jstr; me_mutationScope : MutationScope; me_journalBindingDigest : jstr }.

Record GatewayRecoveryResolutionPlanItem := {
  pi_holdId : jstr; pi_resolutionId : jstr; pi_auditId : jstr; pi_basis : EvidenceBasis;
  pi_verificationInvocationId : option jstr; pi_evidenceDigest : jstr; pi_decision : HoldResolutionDecision;
  pi_journalBindingDigest : jstr; pi_journalOutcomeDigest : jstr }.

Record GatewayRecoveryResolutionPlan := {
  pl_planId : jstr; pl_planIdentity : jstr; pl_rsid : jstr; pl_mutationScopes : list MutationScope;
  pl_items : list GatewayRecoveryResolutionPlanItem; pl_clearances : list RecoveryClearance; pl_createdAtMs : jsnum }.

Record GatewayRecoveryEvidenceCandidate := {
  ec_rsid : jstr; ec_holdId : jstr; ec_mutationScope : MutationScope; ec_basis : EvidenceBasis;
  ec_verificationInvocationId : option jstr; ec_originIdempotencyKey : option jstr; ec_evidenceDigest : jstr;
  ec_journalRecord : InvocationJournalRecord }.

Inductive GatewayRecoveryEvidenceDecision :=
| decided (conclusion : HoldEvidenceConclusion) (authorityReference : jstr) (decisionVersion decidedAtMs : jsnum)
| decision_rejected (reason : jstr)
| decision_unavailable (message : jstr).

Record GatewayRecoveryEvidenceDecisionAudit := {
  da_auditId : jstr; da_holdId : jstr; da_basis : EvidenceBasis; da_verificationInvocationId : option jstr;
  da_originIdempotencyKey : option jstr; da_evidenceDigest : jstr; da_conclusion : HoldEvidenceConclusion;
  da_journalBindingDigest : jstr; da_journalOutcomeDigest : jstr; da_terminalKind : TerminalKind;
  da_terminalStatus : KnownTerminalJournalState; da_authorityReference : jstr; da_decisionVersion : jsnum;
  da_decidedAtMs : jsnum }.

(** [source] and [intent] have one value each; [ar_intent]: the field is present. *)
Record GatewayBridgeCumulativeAckReceipt := {
  ar_receiptVersion : option jsnum; ar_tenantId : option jstr; ar_rsid : jstr; ar_sessionBindingId : jstr;
  ar_acceptedConnectionId : jstr; ar_authorizedSessionVersion : jsnum; ar_invocationId : option jstr;
  ar_correlationId : option jstr; ar_proofDigest : option jstr; ar_routeSnapshotDigest : option jstr;
  ar_egressEpoch : option jsnum; ar_leaseTicket : option jsnum; ar_intent : bool; ar_gatewaySequence : jsnum;
  ar_cumulativeAck : jsnum; ar_envelopeDigest : jstr; ar_durableSequenceVersion : jsnum; ar_acceptedAtMs : jsnum }.

Record GatewayExpectedInvocationBinding := { xb_idempotencyKey : jstr; xb_bindingDigest : jstr }.

Record GatewayExpectedDispatchBinding := {
  xd_rsid : jstr; xd_sessionBindingId : jstr; xd_gatewaySequence : jsnum; xd_envelopeDigest : jstr;
  xd_invocationBindings : list GatewayExpectedInvocationBinding }.

Record GatewayExpectedDispatchTarget := {
  xt_binding : GatewayExpectedDispatchBinding; xt_connectionId : jstr; xt_batchAtomic : bool }.

Record GatewayExpectedMutationDispatch := {
  em_rsid : jstr; em_correlationId : jstr; em_bindings : list InvocationJournalBinding;
  em_recoveryClearances : list RecoveryClearance }.

Record GatewayExpectedVerificationDispatch := { ev_rsid : jstr; ev_invocationId : jstr; ev_binding : InvocationJournalBinding }.

Inductive evidence_kind := known_terminal | indeterminate_outcome | late_terminal_outcome.

#[export] Instance evidence_kind_eq_dec : EqDecision evidence_kind.
Proof. solve_decision. Defined.

(** [result] as JSON. *)
Record GatewayDurableBatchTerminal := { bt_result : jsval; bt_resultDigest : jstr }.

Record GatewayVerifiedBridgeJournalEvidence := {
  je_kind : evidence_kind; je_rsid : jstr; je_sessionBindingId : jstr; je_envelopeDigest : jstr;
  je_journalRecords : list InvocationJournalRecord; je_batchTerminal : option GatewayDurableBatchTerminal;
  je_durableJournalVersion : jsnum; je_recordedAtMs : jsnum }.

(** [schema], [leaseVersion], [transportStarted] and [cumulativeAck] have one value each. *)
Record GatewayBridgeNoSendReceipt := {
  ns_tenantId : jstr; ns_rsid : jstr; ns_effectiveMcpSessionId : jstr; ns_principalKey : jstr; ns_effectiveScopeDigest : jstr;
  ns_sessionBindingId : jstr; ns_acceptedConnectionId : jstr; ns_durableSessionVersion : jsnum; ns_invocationId : jstr;
  ns_correlationId : jstr; ns_envelopeDigest : jstr; ns_gatewaySequence : jsnum; ns_durableSequenceVersion : jsnum;
  ns_egressEpoch : jsnum; ns_leaseTicket : jsnum; ns_leaseHolderInstanceId : jstr; ns_proofDigest : jstr;
  ns_routeSnapshotDigest : jstr; ns_intentDigest : jstr; ns_authorityDigest : jstr; ns_recordedAtMs : jsnum }.

Record GatewayDurableDispatchObservation := {
  ob_acceptance : option GatewayBridgeCumulativeAckReceipt; ob_journal : option GatewayVerifiedBridgeJournalEvidence;
  ob_noSend : option GatewayBridgeNoSendReceipt }.

Inductive GatewayBridgeEvidenceLookup :=
| lookup_found (observation : GatewayDurableDispatchObservation)
| not_durable_yet
| lookup_protocol_fault (reason : jstr)
| lookup_unavailable (code : ProtocolStore.StoreErrorCode) (message : jstr).

Inductive GatewayBridgeResumeAuthorization :=
| authorized (sessionVersion : jsnum)
| not_authorized (reason : jstr)
| authorization_unavailable (message : jstr).

Record GatewayRecoveryJournalAttestation := {
  ja_kind : evidence_kind; ja_evidenceEnvelopeDigest : jstr; ja_durableJournalVersion : jsnum; ja_recordedAtMs : jsnum;
  ja_batchResultDigest : option jstr }.

Inductive pending_kind := pending_mutation | pending_verification.

#[export] Instance pending_kind_eq_dec : EqDecision pending_kind.
Proof. solve_decision. Defined.

(** [requiredSessionCapabilities] is ["batch_atomic"] or nothing. *)
Record GatewayRecoveryPendingDispatch := {
  pd_kind : pending_kind; pd_envelope : jsval; pd_envelopeDigest : jstr; pd_gatewaySequence : jsnum;
  pd_sessionBindingId : jstr; pd_preparedConnectionId : jstr; pd_authorizedSessionVersion : jsnum; pd_batchAtomic : bool;
  pd_mutationEntries : list GatewayRecoveryMutationEntry; pd_journalRecords : list InvocationJournalRecord;
  pd_journalAttestation : option GatewayRecoveryJournalAttestation; pd_batchTerminal : option GatewayDurableBatchTerminal;
  pd_recoveryHoldIds : list jstr; pd_recoveryClearances : list WireClearance; pd_verificationHoldId : option jstr;
  pd_originRedelivery : bool; pd_bridgeAcceptance : option GatewayBridgeCumulativeAckReceipt; pd_preparedAtMs : jsnum }.

Inductive history_status := history_terminal | history_indeterminate.

#[export] Instance history_status_eq_dec : EqDecision history_status.
Proof. solve_decision. Defined.

Record GatewayRecoveryDispatchHistory := {
  hi_status : history_status; hi_envelope : jsval; hi_envelopeDigest : jstr; hi_sessionBindingId : jstr;
  hi_authorizedSessionVersion : jsnum; hi_batchAtomic : bool; hi_mutationEntries : list GatewayRecoveryMutationEntry;
  hi_journalRecords : list InvocationJournalRecord; hi_batchTerminal : option GatewayDurableBatchTerminal;
  hi_journalAttestation : GatewayRecoveryJournalAttestation; hi_holdIds : list jstr;
  hi_bridgeAcceptance : option GatewayBridgeCumulativeAckReceipt; hi_recordedAtMs : jsnum }.

Record GatewayRecoveryInvocationWindow := { iw_attemptId : jstr; iw_acquiredAtMs : jsnum }.

Record GatewayRecoveryRecord := {
  rr_rsid : jstr; rr_invocationWindow : option GatewayRecoveryInvocationWindow;
  rr_evidenceDecisions : list GatewayRecoveryEvidenceDecisionAudit; rr_ledger : MutationHoldLedger;
  rr_resolutionPlan : option GatewayRecoveryResolutionPlan; rr_pendingDispatch : option GatewayRecoveryPendingDispatch;
  rr_dispatchHistory : list GatewayRecoveryDispatchHistory }.

Definition GATEWAY_RECOVERY_NAMESPACE : jstr := js "gateway.recovery-authority/v1".
Definition GATEWAY_RECOVERY_CONTRACT_VERSION : jstr := js "revagent.gateway-recovery/v1".

(** ** JSON, as [sameValue] compares it *)

Definition basis_value (b : EvidenceBasis) : jsval := VStr (basis_text b).
Definition opt_value {A} (f : A → jsval) (o : option A) : jsval := match o with Some a => f a | None => VNull end.
(** An optional member that is absent. *)
Definition opt_member {A} (f : A → jsval) (k : string) (o : option A) : list (jstr * jsval) :=
  match o with Some a => [(js k, f a)] | None => [] end.

Definition conclusion_text (c : HoldEvidenceConclusion) : jstr :=
  match c with
  | conclusive_evidence d => resolution_text d | inconclusive_evidence_of => js "inconclusive"
  | failed_evidence => js "failed" | omitted_evidence => js "omitted" | ambiguous_evidence => js "ambiguous"
  end.

Definition terminal_kind_text (k : TerminalKind) : jstr :=
  match k with kind_terminal => js "terminal" | kind_late_terminal => js "late_terminal" end.

Definition attempt_value (e : HoldEvidenceAttempt) : jsval := obj [
  (js "basis", basis_value (ea_basis e)); (js "verificationInvocationId", opt_str (ea_verificationInvocationId e));
  (js "originIdempotencyKey", opt_str (ea_originIdempotencyKey e)); (js "evidenceDigest", VStr (ea_evidenceDigest e));
  (js "conclusion", VStr (conclusion_text (ea_conclusion e)));
  (js "journalBindingDigest", VStr (ea_journalBindingDigest e)); (js "journalOutcomeDigest", VStr (ea_journalOutcomeDigest e));
  (js "terminalKind", VStr (terminal_kind_text (ea_terminalKind e)));
  (js "terminalStatus", VStr (Journal.status_text (ea_terminalStatus e)))].

Definition scopes_value (scopes : list MutationScope) : jsval := VArr (map normalizedScope scopes).

Definition entry_value (e : GatewayRecoveryMutationEntry) : jsval := obj [
  (js "invocationId", VStr (me_invocationId e)); (js "idempotencyKey", VStr (me_idempotencyKey e));
  (js "mutationScope", normalizedScope (me_mutationScope e)); (js "journalBindingDigest", VStr (me_journalBindingDigest e))].

Definition clearances_value (cs : list RecoveryClearance) : jsval := VArr (map normalizeClearance cs).
Definition wire_clearances_value (cs : list WireClearance) : jsval := VArr (map wc_value cs).

Definition policy_value (p : JournalPolicyBinding) : jsval := obj [
  (js "class", VStr (class_text (pb_class p))); (js "decision", VStr (policy_decision_text (pb_decision p)));
  (js "confirmation_id", opt_str (pb_confirmation_id p))].

Definition verification_value (v : Verification) : jsval := obj [
  (js "hold_id", VStr (vf_hold_id v)); (js "mutation_scope", normalizedScope (vf_mutation_scope v));
  (js "purpose", VStr (vf_purpose v))].

Definition binding_value (b : InvocationJournalBinding) : jsval := obj ([
  (js "rsid", VStr (jb_rsid b)); (js "invocationId", VStr (jb_invocationId b)); (js "method", VStr (jb_method b));
  (js "mutating", VBool (jb_mutating b)); (js "mutationScope", normalizeScope (jb_mutationScope b));
  (js "paramsDigest", VStr (jb_paramsDigest b)); (js "policy", policy_value (jb_policy b));
  (js "verification", opt_value verification_value (jb_verification b))] ++
  opt_member clearances_value "recoveryClearances" (jb_recoveryClearances b) ++
  opt_member VStr "batchId" (jb_batchId b) ++ opt_member VNum "batchIndex" (jb_batchIndex b) ++
  opt_member VStr "batchDigest" (jb_batchDigest b)).

Definition outcome_value (o : TerminalJournalOutcome) : jsval := obj (
  [(js "status", VStr (Journal.status_text (to_status o)))] ++ opt_member VStr "resultDigest" (to_resultDigest o) ++
  opt_member VStr "guardedReason" (to_guardedReason o) ++ [(js "payloadRetained", VBool (to_payloadRetained o))] ++
  opt_member id "payload" (to_payload o)).

Definition journal_value (r : InvocationJournalRecord) : jsval := obj [
  (js "binding", binding_value (jr_binding r)); (js "bindingDigest", VStr (jr_bindingDigest r));
  (js "state", VStr (state_text (jr_state r))); (js "dispatchMayHaveStarted", VBool (jr_dispatchMayHaveStarted r));
  (js "readRecoveryConsumed", VBool (jr_readRecoveryConsumed r)); (js "abandoned", VBool (jr_abandoned r));
  (js "terminalOutcome", opt_value outcome_value (jr_terminalOutcome r));
  (js "terminalOutcomeDigest", opt_str (jr_terminalOutcomeDigest r));
  (js "lateTerminalOutcome", opt_value outcome_value (jr_lateTerminalOutcome r));
  (js "lateTerminalOutcomeDigest", opt_str (jr_lateTerminalOutcomeDigest r));
  (js "verificationHoldId", opt_str (jr_verificationHoldId r))].

Definition batch_terminal_value (t : GatewayDurableBatchTerminal) : jsval := obj [
  (js "result", bt_result t); (js "resultDigest", VStr (bt_resultDigest t))].

Definition evidence_kind_text (k : evidence_kind) : jstr :=
  match k with
  | known_terminal => js "known_terminal" | indeterminate_outcome => js "indeterminate"
  | late_terminal_outcome => js "late_terminal"
  end.

(** [journalEvidenceContent] *)
Definition journalEvidenceContent (e : GatewayVerifiedBridgeJournalEvidence) : list (jstr * jsval) := [
  (js "kind", VStr (evidence_kind_text (je_kind e))); (js "rsid", VStr (je_rsid e));
  (js "sessionBindingId", VStr (je_sessionBindingId e)); (js "envelopeDigest", VStr (je_envelopeDigest e));
  (js "journalRecords", VArr (map journal_value (je_journalRecords e)));
  (js "batchTerminal", opt_value batch_terminal_value (je_batchTerminal e))].

Definition journal_evidence_value (e : GatewayVerifiedBridgeJournalEvidence) : jsval := obj (journalEvidenceContent e ++ [
  (js "durableJournalVersion", VNum (je_durableJournalVersion e)); (js "recordedAtMs", VNum (je_recordedAtMs e))]).

Definition receipt_value (r : GatewayBridgeCumulativeAckReceipt) : jsval := obj (
  [(js "source", VStr (js "durable_rbp_sequence"))] ++ opt_member VNum "receiptVersion" (ar_receiptVersion r) ++
  opt_member VStr "tenantId" (ar_tenantId r) ++
  [(js "rsid", VStr (ar_rsid r)); (js "sessionBindingId", VStr (ar_sessionBindingId r));
   (js "acceptedConnectionId", VStr (ar_acceptedConnectionId r));
   (js "authorizedSessionVersion", VNum (ar_authorizedSessionVersion r))] ++
  opt_member VStr "invocationId" (ar_invocationId r) ++ opt_member VStr "correlationId" (ar_correlationId r) ++
  opt_member VStr "proofDigest" (ar_proofDigest r) ++ opt_member VStr "routeSnapshotDigest" (ar_routeSnapshotDigest r) ++
  opt_member VNum "egressEpoch" (ar_egressEpoch r) ++ opt_member VNum "leaseTicket" (ar_leaseTicket r) ++
  (if ar_intent r then [(js "intent", VStr (js "dispatch"))] else []) ++
  [(js "gatewaySequence", VNum (ar_gatewaySequence r)); (js "cumulativeAck", VNum (ar_cumulativeAck r));
   (js "envelopeDigest", VStr (ar_envelopeDigest r)); (js "durableSequenceVersion", VNum (ar_durableSequenceVersion r));
   (js "acceptedAtMs", VNum (ar_acceptedAtMs r))]).

Definition attestation_value (a : GatewayRecoveryJournalAttestation) : jsval := obj [
  (js "kind", VStr (evidence_kind_text (ja_kind a))); (js "evidenceEnvelopeDigest", VStr (ja_evidenceEnvelopeDigest a));
  (js "durableJournalVersion", VNum (ja_durableJournalVersion a)); (js "recordedAtMs", VNum (ja_recordedAtMs a));
  (js "batchResultDigest", opt_str (ja_batchResultDigest a))].

Definition capabilities_value (batchAtomic : bool) : jsval := VArr (if batchAtomic then [VStr (js "batch_atomic")] else []).

Definition pending_value (p : GatewayRecoveryPendingDispatch) : jsval := obj [
  (js "kind", VStr (match pd_kind p with pending_mutation => js "mutation" | pending_verification => js "verification" end));
  (js "envelope", pd_envelope p); (js "envelopeDigest", VStr (pd_envelopeDigest p));
  (js "gatewaySequence", VNum (pd_gatewaySequence p)); (js "sessionBindingId", VStr (pd_sessionBindingId p));
  (js "preparedConnectionId", VStr (pd_preparedConnectionId p));
  (js "authorizedSessionVersion", VNum (pd_authorizedSessionVersion p));
  (js "requiredSessionCapabilities", capabilities_value (pd_batchAtomic p));
  (js "mutationEntries", VArr (map entry_value (pd_mutationEntries p)));
  (js "journalRecords", VArr (map journal_value (pd_journalRecords p)));
  (js "journalAttestation", opt_value attestation_value (pd_journalAttestation p));
  (js "batchTerminal", opt_value batch_terminal_value (pd_batchTerminal p));
  (js "recoveryHoldIds", VArr (map VStr (pd_recoveryHoldIds p)));
  (js "recoveryClearances", wire_clearances_value (pd_recoveryClearances p));
  (js "verificationHoldId", opt_str (pd_verificationHoldId p)); (js "originRedelivery", VBool (pd_originRedelivery p));
  (js "bridgeAcceptance", opt_value receipt_value (pd_bridgeAcceptance p)); (js "preparedAtMs", VNum (pd_preparedAtMs p))].

Definition sameValue (left right : jsval) : result js_error bool :=
  l ← canonicalizeJson left;
  r ← canonicalizeJson right;
  Ok (l === r).

Definition sortedUnique (values : list jstr) : list jstr := sort_by str_leb (unique values).

(** ** Assertions *)

Definition assertBoundedString (value : jstr) (name : string) (maximum : Z) : result js_error unit :=
  reject_if ((length value <? 1)%nat || (maximum <? Z.of_nat (length value)) || (trim value !== value)) TypeError
    (String.append name " must be a non-empty trimmed string").

Definition assertSafePositiveInteger (value : jsnum) (name : string) : result js_error unit :=
  reject_if (negb (isSafeInteger value) || (num_Z value <? 1)) TypeError (String.append name " must be a positive safe integer").

Definition assertSafeNonNegativeInteger (value : jsnum) (name : string) : result js_error unit :=
  reject_if (negb (isSafeInteger value) || (num_Z value <? 0)) TypeError (String.append name " must be a non-negative safe integer").

(** The loop, with the index and the value before it. *)
Fixpoint sorted_unique_from (name : string) (index : nat) (previous : option jstr) (values : list jstr) : result js_error unit :=
  match values with
  | [] => Ok tt
  | value :: values =>
      throw_if ((length value <? 1)%nat || (4096 <? Z.of_nat (length value)) || (trim value !== value))
        (JsError TypeError (js name ++ js "[" ++ dec (Z.of_nat index) ++ js "] must be a non-empty trimmed string")) ;;
      reject_if (match previous with Some p => str_leb value p | None => false end) TypeError
        (String.append name " must contain unique ascending values") ;;
      sorted_unique_from name (S index) (Some value) values
  end.

Definition assertSortedUnique (values : list jstr) (name : string) : result js_error unit := sorted_unique_from name 0 None values.

(** What [mutationScopeSchema] asks of a scope. *)
Definition scope_schema (s : MutationScope) : bool :=
  match s with scope_session => true | scope_document d => (1 <=? length d)%nat && (Z.of_nat (length d) <=? 4096) end.

(** The map of scopes by key. *)
Fixpoint scopes_by_key (byKey : list (jstr * MutationScope)) (scopes : list MutationScope)
  : result js_error (list (jstr * MutationScope)) :=
  match scopes with
  | [] => Ok byKey
  | scope :: scopes =>
      reject_if (negb (scope_schema scope)) TypeError "mutation scope is not canonical" ;;
      key ← mutationScopeKey scope;
      scopes_by_key (JsMap.mset byKey key scope) scopes
  end.

Definition normalizeScopes (scopes : list MutationScope) : result js_error (list MutationScope) :=
  reject_if (length scopes =? 0)%nat TypeError "at least one mutation scope is required" ;;
  byKey ← scopes_by_key [] scopes;
  Ok (map snd (sort_by (λ l r, str_leb l.1 r.1) byKey)).

(** ** What an envelope says *)

Record DerivedEnvelope := {
  dv_value : jsval; dv_envelope : DispatchEnvelope; dv_digest : jstr; dv_correlationId : jstr;
  dv_mutationEntries : list GatewayRecoveryMutationEntry; dv_bindings : list InvocationJournalBinding;
  dv_clearances : list WireClearance; dv_verificationHoldId : option jstr }.

Definition idempotency_key (b : InvocationJournalBinding) : jstr := jb_rsid b ++ js "/" ++ jb_invocationId b.

Definition step_binding (rsid batch_id batch_digest : jstr) (clearances : list RecoveryClearance) (index : nat) (s : DispatchStep)
  : InvocationJournalBinding := {|
  jb_rsid := rsid; jb_invocationId := bst_invocation_id (ds_step s); jb_method := bst_method (ds_step s);
  jb_mutating := bst_mutating (ds_step s); jb_mutationScope := ds_mutation_scope s;
  jb_paramsDigest := bst_params_digest (ds_step s); jb_policy := ds_policy s; jb_verification := None;
  jb_recoveryClearances := Some clearances; jb_batchId := Some batch_id; jb_batchIndex := Some (JInt (Z.of_nat index));
  jb_batchDigest := Some batch_digest |}.

Section derive.
Context `{Hasher}.

(** The entry of a mutating binding; by the schema it has a scope. *)
Definition binding_entries (b : InvocationJournalBinding) : result js_error (list GatewayRecoveryMutationEntry) :=
  match jb_mutating b, jb_mutationScope b with
  | true, Some scope =>
      digest ← makeJournalBindingDigest b;
      Ok [{| me_invocationId := jb_invocationId b; me_idempotencyKey := idempotency_key b; me_mutationScope := scope;
             me_journalBindingDigest := digest |}]
  | _, _ => Ok []
  end.

(** Ajv's verdict on a value that may be an [invoke] or [invoke_batch] envelope, and on
    one that may carry a batch result. *)
Context (readEnvelope : jsval → option DispatchEnvelope) (readBatch : jsval → option BatchCarrier).

Definition validateSchema (value : jsval) : list ErrorObject + RbpEnvelope :=
  match readEnvelope value with Some e => inr (rbp_envelope e) | None => inl [] end.

Definition valid_envelope (value : jsval) : result js_error (option DispatchEnvelope) :=
  valid ← (validateRbpEnvelope validateSchema [] value).2;
  Ok (if (valid : bool) then readEnvelope value else None).

Definition snapshot_of (e : DispatchEnvelope) : Sequence.DataEnvelopeSnapshot := {|
  Sequence.de_v := JInt 1; Sequence.de_type := envelope_type e; Sequence.de_id := en_id e; Sequence.de_rsid := en_rsid e;
  Sequence.de_seq := en_seq e; Sequence.de_ack := None; Sequence.de_ts := None; Sequence.de_payload := en_body e |}.

Definition derived_bindings (e : DispatchEnvelope) : result js_error (list InvocationJournalBinding) :=
  match en_payload e with
  | payload_invoke p =>
      paramsDigest ← makeParamsDigest (iv_params p);
      Ok [{| jb_rsid := en_rsid e; jb_invocationId := iv_invocation_id p; jb_method := iv_method p;
             jb_mutating := iv_mutating p; jb_mutationScope := iv_mutation_scope p; jb_paramsDigest := paramsDigest;
             jb_policy := iv_policy p; jb_verification := iv_verification p;
             jb_recoveryClearances := Some (map wc_clearance (iv_recovery_clearances p)); jb_batchId := None;
             jb_batchIndex := None; jb_batchDigest := None |}]
  | payload_batch batch_id _ _ clearances steps batch_digest =>
      Ok (imap (step_binding (en_rsid e) batch_id batch_digest (map wc_clearance clearances)) steps)
  end.

Definition deriveEnvelope (value : jsval) (expectedRsid : option jstr) : result js_error DerivedEnvelope :=
  read ← valid_envelope value;
  match read with
  | None => throw TypeError "dispatch envelope is not a valid invoke or invoke_batch RBP envelope"
  | Some envelope =>
      reject_if (match expectedRsid with Some rsid => en_rsid envelope !== rsid | None => false end) TypeError
        "dispatch envelope rsid does not match recovery authority scope" ;;
      assertSafePositiveInteger (en_seq envelope) "gateway sequence" ;;
      digest ← Sequence.dataEnvelopeImmutableDigest (snapshot_of envelope);
      bindings ← derived_bindings envelope;
      entries ← map_result binding_entries bindings;
      Ok {| dv_value := value; dv_envelope := envelope; dv_digest := digest;
            dv_correlationId := match en_payload envelope with
                                | payload_invoke p => iv_invocation_id p
                                | payload_batch batch_id _ _ _ _ _ => batch_id
                                end;
            dv_mutationEntries := concat entries; dv_bindings := bindings;
            dv_clearances := match en_payload envelope with
                             | payload_invoke p => iv_recovery_clearances p
                             | payload_batch _ _ _ clearances _ _ => clearances
                             end;
            dv_verificationHoldId := match en_payload envelope with
                                     | payload_invoke p => vf_hold_id <$> iv_verification p
                                     | payload_batch _ _ _ _ _ _ => None
                                     end |}
  end.

(** ** Identities that are retained *)

Inductive RetainedIdentityClassification :=
| identity_new
| exact_pending (pending : GatewayRecoveryPendingDispatch)
| exact_terminal (history : GatewayRecoveryDispatchHistory)
| exact_indeterminate (history : GatewayRecoveryDispatchHistory)
| idempotency_binding_mismatch
| batch_binding_mismatch.

(** The keys of [bindingIndex]; the digests are computed with them and may throw. *)
Definition bindingIndex (derived : DerivedEnvelope) : result js_error (list jstr) :=
  map_result makeJournalBindingDigest (dv_bindings derived) ;;
  Ok (map idempotency_key (dv_bindings derived)).

Fixpoint classify_candidates (rsid : jstr) (derived : DerivedEnvelope) (incoming : list jstr) (retained : list jsval)
  : result js_error RetainedIdentityClassification :=
  match retained with
  | [] => Ok identity_new
  | candidate :: retained =>
      retainedDerived ← deriveEnvelope candidate (Some rsid);
      if is_batch (dv_envelope derived) && is_batch (dv_envelope retainedDerived) &&
         (dv_correlationId derived === dv_correlationId retainedDerived)
      then Ok batch_binding_mismatch else
      retainedKeys ← bindingIndex retainedDerived;
      if existsb (λ key, bool_decide (key ∈ retainedKeys)) incoming then Ok idempotency_binding_mismatch
      else classify_candidates rsid derived incoming retained
  end.

Definition retained_envelopes (record : GatewayRecoveryRecord) : list jsval :=
  match rr_pendingDispatch record with Some p => [pd_envelope p] | None => [] end ++ map hi_envelope (rr_dispatchHistory record).

Definition classifyRetainedIdentity (record : GatewayRecoveryRecord) (derived : DerivedEnvelope)
  : result js_error RetainedIdentityClassification :=
  let rest :=
    match find_first (λ history, hi_envelopeDigest history === dv_digest derived) (rr_dispatchHistory record) with
    | Some history =>
        Ok (match hi_status history with
            | history_terminal => exact_terminal history
            | history_indeterminate => exact_indeterminate history
            end)
    | None =>
        incoming ← bindingIndex derived;
        classify_candidates (rr_rsid record) derived incoming (retained_envelopes record)
    end in
  match rr_pendingDispatch record with
  | Some pending => if pd_envelopeDigest pending === dv_digest derived then Ok (exact_pending pending) else rest
  | None => rest
  end.

(** ** Journals *)

Definition journal_bound (record : InvocationJournalRecord) (binding : InvocationJournalBinding) : result js_error unit :=
  reject_if (negb (journalRecordIsIntact record)) TypeError
    "journal record is not intact and bound to the exact dispatch envelope" ;;
  digest ← makeJournalBindingDigest binding;
  reject_if (jr_bindingDigest record !== digest) TypeError
    "journal record is not intact and bound to the exact dispatch envelope".

Definition assertJournalBindings (records : list InvocationJournalRecord) (bindings : list InvocationJournalBinding)
  : result js_error unit :=
  reject_if (negb (length records =? length bindings)%nat) TypeError
    "journal record count does not match the exact dispatch envelope" ;;
  map_result (λ rb, journal_bound rb.1 rb.2) (zip records bindings) ;; Ok tt.

Definition createJournalRecords (bindings : list InvocationJournalBinding) : result js_error (list InvocationJournalRecord) :=
  map_result createReceivedJournalRecord bindings.

(** ** The ledger *)

(** The same test as [resolutionMatchesSelectedEvidence] of mutationHold.ts. *)
Definition evidenceMatchesResolution (hold : MutationHold) : bool := resolutionMatchesSelectedEvidence hold.

(** What [mutationHoldLedgerSchema] asks beyond the types. *)
Definition attempt_schema (e : HoldEvidenceAttempt) : bool :=
  negb (ea_verificationInvocationId e === Some []) && negb (ea_originIdempotencyKey e === Some []) &&
  sha256_pattern (ea_evidenceDigest e) && sha256_pattern (ea_journalBindingDigest e) && sha256_pattern (ea_journalOutcomeDigest e).

Definition resolution_schema (r : HoldResolution) : bool :=
  isGatewayUuidV7 (hr_resolutionId r) && negb (hr_verificationInvocationId r === Some []) &&
  sha256_pattern (hr_evidenceDigest r) && isGatewayUuidV7 (hr_auditId r) && sha256_pattern (hr_authorizedDispatchIdentity r) &&
  sha256_pattern (hr_journalBindingDigest r) && sha256_pattern (hr_journalOutcomeDigest r).

(** [/^vh:[0-9a-f]{64}$/] *)
Definition holdIdPattern (s : jstr) : bool :=
  match s with
  | 118 :: 104 :: 58 :: hex => sha256_pattern (js "sha256:" ++ hex)
  | _ => false
  end.

Definition opt_ok {A} (f : A → bool) (o : option A) : bool := match o with Some a => f a | None => true end.

Definition hold_schema (h : MutationHold) : bool :=
  (1 <=? length (mh_rsid h))%nat && (Z.of_nat (length (mh_rsid h)) <=? 512) && scope_schema (mh_mutationScope h) &&
  (1 <=? length (mh_scopeKey h))%nat && holdIdPattern (mh_holdId h) && (1 <=? length (mh_originIdempotencyKeys h))%nat &&
  forallb (λ k, (1 <=? length k)%nat) (mh_originIdempotencyKeys h) && forallb attempt_schema (mh_evidenceAttempts h) &&
  opt_ok attempt_schema (mh_selectedEvidence h) && opt_ok resolution_schema (mh_resolution h) &&
  opt_ok sha256_pattern (mh_clearedBy h).

Fixpoint some_same (selected : jsval) (attempts : list jsval) : result js_error bool :=
  match attempts with
  | [] => Ok false
  | attempt :: attempts => same ← sameValue attempt selected; if (same : bool) then Ok true else some_same selected attempts
  end.

Definition hold_integrity (hold : MutationHold) : result js_error unit :=
  reject_if (negb (all_distinct (mh_originIdempotencyKeys hold))) TypeError "recovery hold contains duplicate origin keys" ;;
  scopeKey ← mutationScopeKey (mh_mutationScope hold);
  reject_if (mh_scopeKey hold !== scopeKey) TypeError "recovery hold identity is not canonical" ;;
  holdId ← makeMutationHoldId (mh_rsid hold) (mh_mutationScope hold) (mh_originIdempotencyKeys hold);
  reject_if (mh_holdId hold !== holdId) TypeError "recovery hold identity is not canonical" ;;
  match mh_selectedEvidence hold with
  | None => Ok tt
  | Some selected =>
      retained ← some_same (attempt_value selected) (map attempt_value (mh_evidenceAttempts hold));
      reject_if (negb retained) TypeError "selected recovery evidence is not retained"
  end ;;
  match mh_state hold with
  | hold_active =>
      reject_if (negb (is_null (mh_selectedEvidence hold)) || negb (is_null (mh_resolution hold)) || negb (is_null (mh_clearedBy hold)))
        TypeError "active recovery hold contains resolution state"
  | hold_evidence_recorded =>
      reject_if (is_null (mh_selectedEvidence hold) || negb (is_null (mh_resolution hold)) || negb (is_null (mh_clearedBy hold)))
        TypeError "evidence_recorded hold has an invalid state shape"
  | hold_resolved_pending_bridge =>
      reject_if (negb (evidenceMatchesResolution hold)) TypeError "recovery hold resolution is not evidence-bound" ;;
      reject_if (negb (is_null (mh_clearedBy hold))) TypeError "pending recovery hold is already cleared"
  | hold_cleared =>
      reject_if (negb (evidenceMatchesResolution hold)) TypeError "recovery hold resolution is not evidence-bound" ;;
      reject_if (is_null (mh_clearedBy hold) || (mh_clearedBy hold !== (hr_authorizedDispatchIdentity <$> mh_resolution hold)))
        TypeError "cleared recovery hold is not dispatch-bound"
  end.

(** The loop; ids that ascend are distinct, so [seen] adds nothing. *)
Fixpoint assertLedgerIntegrity_from (rsid previousHoldId : jstr) (ledger : MutationHoldLedger) : result js_error unit :=
  match ledger with
  | [] => Ok tt
  | hold :: ledger =>
      reject_if (mh_rsid hold !== rsid) TypeError "recovery ledger contains a foreign rsid" ;;
      reject_if (str_leb (mh_holdId hold) previousHoldId) TypeError "recovery ledger hold ids must be unique and sorted" ;;
      hold_integrity hold ;;
      assertLedgerIntegrity_from rsid (mh_holdId hold) ledger
  end.

Definition assertLedgerIntegrity (ledger : MutationHoldLedger) (rsid : jstr) : result js_error unit :=
  assertLedgerIntegrity_from rsid [] ledger.

(** ** Plans *)

Definition planMaterial (rsid : jstr) (mutationScopes : list MutationScope) (items : list GatewayRecoveryResolutionPlanItem) : jsval :=
  obj [(js "rsid", VStr rsid); (js "mutation_scopes", scopes_value mutationScopes);
       (js "items", VArr (map (λ item, obj [
         (js "basis", basis_value (pi_basis item)); (js "decision", VStr (resolution_text (pi_decision item)));
         (js "evidence_digest", VStr (pi_evidenceDigest item)); (js "hold_id", VStr (pi_holdId item));
         (js "verification_invocation_id", opt_str (pi_verificationInvocationId item))]) items))].

Definition planIdentity (rsid : jstr) (mutationScopes : list MutationScope) (items : list GatewayRecoveryResolutionPlanItem)
  : result js_error jstr := makeParamsDigest (planMaterial rsid mutationScopes items).

(** The evidence a hold selected is that of the item; so is the audited decision. *)
Definition item_matches_evidence (item : GatewayRecoveryResolutionPlanItem) (e : HoldEvidenceAttempt) : bool :=
  (ea_basis e === pi_basis item) && (ea_verificationInvocationId e === pi_verificationInvocationId item) &&
  (ea_evidenceDigest e === pi_evidenceDigest item) && (ea_conclusion e === conclusive_evidence (pi_decision item)) &&
  (ea_journalBindingDigest e === pi_journalBindingDigest item) && (ea_journalOutcomeDigest e === pi_journalOutcomeDigest item).

Definition item_matches_audit (item : GatewayRecoveryResolutionPlanItem) (e : HoldEvidenceAttempt)
    (audit : GatewayRecoveryEvidenceDecisionAudit) : bool :=
  (da_holdId audit === pi_holdId item) && (da_basis audit === pi_basis item) &&
  (da_verificationInvocationId audit === pi_verificationInvocationId item) &&
  (da_evidenceDigest audit === pi_evidenceDigest item) && (da_conclusion audit === conclusive_evidence (pi_decision item)) &&
  (da_journalBindingDigest audit === pi_journalBindingDigest item) &&
  (da_journalOutcomeDigest audit === pi_journalOutcomeDigest item) && (da_terminalKind audit === ea_terminalKind e) &&
  (da_terminalStatus audit === ea_terminalStatus e).

Definition item_matches_clearance (item : GatewayRecoveryResolutionPlanItem) (c : RecoveryClearance) : bool :=
  (rc_hold_id c === pi_holdId item) && (rc_resolution_id c === pi_resolutionId item) && (rc_audit_id c === pi_auditId item) &&
  (rc_basis c === pi_basis item) && (rc_verification_invocation_id c === pi_verificationInvocationId item) &&
  (rc_evidence_digest c === pi_evidenceDigest item) && (rc_decision c === pi_decision item).

Definition plan_item_integrity (ledger : MutationHoldLedger) (evidenceDecisions : list GatewayRecoveryEvidenceDecisionAudit)
    (item : GatewayRecoveryResolutionPlanItem) (clearance : RecoveryClearance) : result js_error unit :=
  let unbound := throw TypeError "recovery resolution plan is not bound to selected evidence" in
  match find_first (λ hold, mh_holdId hold === pi_holdId item) ledger,
        find_first (λ audit, da_auditId audit === pi_auditId item) evidenceDecisions with
  | Some hold, Some audit =>
      match mh_selectedEvidence hold with
      | Some evidence =>
          if (mh_state hold === hold_evidence_recorded) && isGatewayUuidV7 (pi_resolutionId item) &&
             isGatewayUuidV7 (pi_auditId item) && item_matches_evidence item evidence &&
             item_matches_audit item evidence audit && item_matches_clearance item clearance
          then key ← mutationScopeKey (rc_mutation_scope clearance); if key === mh_scopeKey hold then Ok tt else unbound
          else unbound
      | None => unbound
      end
  | _, _ => unbound
  end.

Definition assertPlanIntegrity (plan : GatewayRecoveryResolutionPlan) (ledger : MutationHoldLedger) (rsid : jstr)
    (evidenceDecisions : list GatewayRecoveryEvidenceDecisionAudit) : result js_error unit :=
  reject_if ((pl_rsid plan !== rsid) || negb (isGatewayUuidV7 (pl_planId plan))) TypeError
    "recovery resolution plan identity is invalid" ;;
  assertSafeNonNegativeInteger (pl_createdAtMs plan) "resolution plan timestamp" ;;
  scopes ← normalizeScopes (pl_mutationScopes plan);
  canonical ← sameValue (scopes_value scopes) (scopes_value (pl_mutationScopes plan));
  reject_if (negb canonical) TypeError "recovery resolution plan scopes are not canonical" ;;
  let itemIds := map pi_holdId (pl_items plan) in
  assertSortedUnique itemIds "resolution plan hold ids" ;;
  identity ← planIdentity rsid (pl_mutationScopes plan) (pl_items plan);
  reject_if (pl_planIdentity plan !== identity) TypeError "recovery resolution plan digest is invalid" ;;
  reject_if (map rc_hold_id (pl_clearances plan) !== itemIds) TypeError
    "recovery resolution plan clearances are not every-and-only" ;;
  map_result (λ ic, plan_item_integrity ledger evidenceDecisions ic.1 ic.2) (zip (pl_items plan) (pl_clearances plan)) ;; Ok tt.

(** ** Receipts and expectations *)

Definition count_present (fields : list bool) : nat := length (List.filter id fields).

Definition receipt_fields (r : GatewayBridgeCumulativeAckReceipt) : list bool :=
  [negb (is_null (ar_invocationId r)); negb (is_null (ar_correlationId r)); negb (is_null (ar_proofDigest r));
   negb (is_null (ar_routeSnapshotDigest r)); negb (is_null (ar_egressEpoch r)); negb (is_null (ar_leaseTicket r)); ar_intent r].

(** What a receipt has to say of the dispatch it accepts. *)
Record Accepted := {
  ap_rsid : jstr; ap_correlationId : jstr; ap_sessionBindingId : jstr; ap_connectionId : jstr; ap_sessionVersion : jsnum;
  ap_gatewaySequence : jsnum; ap_envelopeDigest : jstr }.

Definition receipt_binds (receipt : GatewayBridgeCumulativeAckReceipt) (p : Accepted) (tenantId : option jstr) : bool :=
  (ar_receiptVersion receipt === Some (JInt 1)) &&
  match tenantId with Some t => ar_tenantId receipt === Some t | None => true end &&
  (ar_rsid receipt === ap_rsid p) && (ar_sessionBindingId receipt === ap_sessionBindingId p) &&
  (ar_acceptedConnectionId receipt === ap_connectionId p) && (ar_authorizedSessionVersion receipt === ap_sessionVersion p) &&
  (ar_gatewaySequence receipt === ap_gatewaySequence p) && (ar_envelopeDigest receipt === ap_envelopeDigest p) &&
  isSafeInteger (ar_cumulativeAck receipt) && negb (num_Z (ar_cumulativeAck receipt) <? num_Z (ap_gatewaySequence p)) &&
  (ar_durableSequenceVersion receipt === ap_sessionVersion p) &&
  isSafeInteger (ar_acceptedAtMs receipt) && negb (num_Z (ar_acceptedAtMs receipt) <? 0).

Definition full_receipt (receipt : GatewayBridgeCumulativeAckReceipt) (p : Accepted) : result js_error unit :=
  reject_if ((ar_invocationId receipt !== Some (ap_correlationId p)) || (ar_correlationId receipt !== Some (ap_correlationId p)) ||
             negb (ar_intent receipt)) TypeError "Bridge cumulative ACK full receipt identity is invalid" ;;
  assertBoundedString (nullish (ar_invocationId receipt) []) "accepted invocationId" 4096 ;;
  assertBoundedString (nullish (ar_correlationId receipt) []) "accepted correlationId" 4096 ;;
  reject_if (negb (match ar_proofDigest receipt with Some d => sha256_pattern d | None => false end) ||
             negb (match ar_routeSnapshotDigest receipt with Some d => sha256_pattern d | None => false end)) TypeError
    "accepted dispatch receipt proof is invalid" ;;
  match ar_egressEpoch receipt, ar_leaseTicket receipt with
  | Some egressEpoch, Some leaseTicket =>
      assertSafeNonNegativeInteger egressEpoch "accepted egressEpoch" ;;
      assertSafePositiveInteger leaseTicket "accepted leaseTicket"
  | _, _ => throw TypeError "accepted dispatch receipt fence is missing"
  end.

Definition assertReceiptIntegrity (receipt : GatewayBridgeCumulativeAckReceipt) (p : Accepted) (tenantId : option jstr)
  : result js_error unit :=
  let present := count_present (receipt_fields receipt) in
  let fullReceipt := (present =? length (receipt_fields receipt))%nat in
  let reconstructedReceipt := (present =? 0)%nat in
  reject_if (negb (receipt_binds receipt p tenantId) || (negb fullReceipt && negb reconstructedReceipt)) TypeError
    "Bridge cumulative ACK is not bound to the pending dispatch" ;;
  match ar_tenantId receipt with
  | None => throw TypeError "accepted tenantId is missing"
  | Some t => assertBoundedString t "accepted tenantId" 512
  end ;;
  assertBoundedString (ar_acceptedConnectionId receipt) "acceptedConnectionId" 4096 ;;
  assertSafePositiveInteger (ar_authorizedSessionVersion receipt) "accepted authorizedSessionVersion" ;;
  assertSafePositiveInteger (ar_gatewaySequence receipt) "gatewaySequence" ;;
  assertSafeNonNegativeInteger (ar_cumulativeAck receipt) "cumulativeAck" ;;
  assertSafePositiveInteger (ar_durableSequenceVersion receipt) "durableSequenceVersion" ;;
  assertSafeNonNegativeInteger (ar_acceptedAtMs receipt) "acceptedAtMs" ;;
  if reconstructedReceipt then Ok tt else full_receipt receipt p.

Definition expectedDerivedDispatchBinding (derived : DerivedEnvelope) (sessionBindingId : jstr)
  : result js_error GatewayExpectedDispatchBinding :=
  bindings ← map_result (λ b, digest ← makeJournalBindingDigest b;
    Ok {| xb_idempotencyKey := idempotency_key b; xb_bindingDigest := digest |}) (dv_bindings derived);
  Ok {| xd_rsid := en_rsid (dv_envelope derived); xd_sessionBindingId := sessionBindingId;
        xd_gatewaySequence := en_seq (dv_envelope derived); xd_envelopeDigest := dv_digest derived;
        xd_invocationBindings := bindings |}.

Definition expectedDispatchBinding (pending : GatewayRecoveryPendingDispatch) : result js_error GatewayExpectedDispatchBinding :=
  derived ← deriveEnvelope (pd_envelope pending) None;
  expectedDerivedDispatchBinding derived (pd_sessionBindingId pending).

Definition requiredSessionCapabilities (derived : DerivedEnvelope) : bool :=
  match en_payload (dv_envelope derived) with payload_batch _ atomic _ _ _ _ => atomic | payload_invoke _ => false end.

Definition expectedDispatchTarget (derived : DerivedEnvelope) (sessionBindingId connectionId : jstr)
  : result js_error GatewayExpectedDispatchTarget :=
  binding ← expectedDerivedDispatchBinding derived sessionBindingId;
  Ok {| xt_binding := binding; xt_connectionId := connectionId; xt_batchAtomic := requiredSessionCapabilities derived |}.

(** ** Batch terminals *)

Definition batchTerminalDigest (carrier : jsval) : result js_error jstr := makeParamsDigest carrier.

(** The result envelope the carrier would have come in. *)
Definition carrier_envelope (e : DispatchEnvelope) (carrier : jsval) : jsval := obj (
  [(js "v", VNum (JInt 1)); (js "type", VStr (js "result")); (js "id", VStr (en_id e)); (js "ts", en_ts e);
   (js "rsid", VStr (en_rsid e)); (js "seq", VNum (en_seq e))] ++ opt_member VNum "ack" (en_ack e) ++ [(js "payload", carrier)]).

Definition valid_carrier (value : jsval) : result js_error (option BatchCarrier) :=
  match readBatch value with
  | None => Ok None
  | Some carrier =>
      valid ← (validateRbpEnvelope (λ _ : unit, inr (result_envelope (batch_result (bc_result carrier)))) [] tt).2;
      Ok (if (valid : bool) then Some carrier else None)
  end.

Definition carrier_step (evidenceKind : evidence_kind) (index : nat) (step : BatchStepResult) (reason : option jstr)
    (expectedId : jstr) (journal : InvocationJournalRecord) : result js_error unit :=
  reject_if ((bsr_index step !== Z.of_nat index) || (bsr_invocation_id step !== expectedId)) TypeError
    "durable batch terminal step identity mismatch" ;;
  match bsr_status step with
  | step_indeterminate =>
      reject_if (jr_state journal !== indeterminate) TypeError "indeterminate batch step lacks an indeterminate journal"
  | step_not_started =>
      reject_if (negb ((jr_state journal === received) && negb (jr_dispatchMayHaveStarted journal)) &&
                 ((to_status <$> jr_terminalOutcome journal) !== Some cancelled)) TypeError
        "not-started batch step has a contradictory journal"
  | step_known status =>
      let terminal :=
        match evidenceKind, jr_lateTerminalOutcome journal with
        | late_terminal_outcome, Some late => Some late
        | _, _ => jr_terminalOutcome journal
        end in
      match terminal with
      | None => throw TypeError "terminal batch step disagrees with its journal"
      | Some terminal =>
          reject_if (to_status terminal !== status) TypeError "terminal batch step disagrees with its journal" ;;
          reject_if ((status === guarded) && (to_guardedReason terminal !== reason)) TypeError
            "guarded batch step reason disagrees with its journal" ;;
          reject_if (match bsr_result_digest step with Some d => to_resultDigest terminal !== Some d | None => false end) TypeError
            "batch step result digest disagrees with its journal"
      end
  end.

(** The loop over the steps: their reasons, the ids they should have and their journals. *)
Fixpoint carrier_steps (kind : evidence_kind) (index : nat) (steps : list BatchStepResult) (reasons : list (option jstr))
    (ids : list jstr) (journals : list InvocationJournalRecord) : result js_error unit :=
  match steps, ids, journals with
  | step :: steps, id :: ids, journal :: journals =>
      carrier_step kind index step (match reasons with r :: _ => r | [] => None end) id journal ;;
      carrier_steps kind (S index) steps (drop 1 reasons) ids journals
  | _, _, _ => Ok tt
  end.

Definition assertBatchTerminalIntegrity (envelope : DispatchEnvelope) (journalRecords : list InvocationJournalRecord)
    (evidenceKind : evidence_kind) (batchTerminal : option GatewayDurableBatchTerminal) : result js_error unit :=
  match en_payload envelope, batchTerminal with
  | payload_invoke _, None => Ok tt
  | payload_invoke _, Some _ => throw TypeError "ordinary invocation evidence carries a batch terminal"
  | payload_batch _ _ _ _ _ _, None =>
      if evidenceKind === indeterminate_outcome then Ok tt
      else throw TypeError "terminal batch evidence omitted its Section 11.1 carrier"
  | payload_batch batch_id atomic _ _ steps _, Some terminal =>
      digest ← batchTerminalDigest (bt_result terminal);
      reject_if (bt_resultDigest terminal !== digest) TypeError "durable batch terminal digest mismatch" ;;
      carried ← valid_carrier (carrier_envelope envelope (bt_result terminal));
      match carried with
      | None => throw TypeError "durable batch terminal is not a valid RBP result carrier"
      | Some carrier =>
          let outcome := bc_result carrier in
          reject_if ((bc_batch_id carrier !== batch_id) || (br_atomic outcome !== atomic) ||
                     negb (length (br_steps outcome) =? length steps)%nat ||
                     negb (length (br_steps outcome) =? length journalRecords)%nat) TypeError
            "durable batch terminal is not bound to the exact batch" ;;
          reject_if ((evidenceKind === indeterminate_outcome) !== (br_status outcome === step_indeterminate)) TypeError
            "durable batch terminal disagrees with its evidence kind" ;;
          carrier_steps evidenceKind 0 (br_steps outcome) (bc_reasons carrier)
            (map (λ s, bst_invocation_id (ds_step s)) steps) journalRecords
      end
  end.

(** ** Evidence *)

Definition is_terminal (r : InvocationJournalRecord) : bool := match jr_state r with known _ => true | _ => false end.

Definition assertJournalEvidenceIntegrity (evidence : GatewayVerifiedBridgeJournalEvidence) (pending : GatewayRecoveryPendingDispatch)
  : result js_error unit :=
  expected ← expectedDispatchBinding pending;
  reject_if ((je_rsid evidence !== xd_rsid expected) || (je_sessionBindingId evidence !== xd_sessionBindingId expected) ||
             (je_envelopeDigest evidence !== xd_envelopeDigest expected)) TypeError
    "durable Bridge journal evidence is not dispatch-bound" ;;
  assertSafePositiveInteger (je_durableJournalVersion evidence) "durableJournalVersion" ;;
  assertSafeNonNegativeInteger (je_recordedAtMs evidence) "journal evidence recordedAtMs" ;;
  derived ← deriveEnvelope (pd_envelope pending) None;
  assertJournalBindings (je_journalRecords evidence) (dv_bindings derived) ;;
  assertBatchTerminalIntegrity (dv_envelope derived) (je_journalRecords evidence) (je_kind evidence) (je_batchTerminal evidence) ;;
  reject_if (negb (is_batch (dv_envelope derived)) && (je_kind evidence === known_terminal) &&
             existsb (λ j, negb (is_terminal j)) (je_journalRecords evidence)) TypeError
    "known-terminal Bridge evidence contains a non-terminal journal" ;;
  reject_if ((je_kind evidence === indeterminate_outcome) &&
             negb (existsb (λ j, jr_state j === indeterminate) (je_journalRecords evidence))) TypeError
    "indeterminate Bridge evidence contains no indeterminate journal" ;;
  reject_if ((je_kind evidence === late_terminal_outcome) &&
             negb (existsb (λ j, (jr_state j === indeterminate) && negb (is_null (jr_lateTerminalOutcome j)) &&
                                 negb (is_null (jr_lateTerminalOutcomeDigest j))) (je_journalRecords evidence))) TypeError
    "late-terminal Bridge evidence contains no attested late outcome".

Definition accepted_pending (pending : GatewayRecoveryPendingDispatch) (derived : DerivedEnvelope) : Accepted := {|
  ap_rsid := en_rsid (dv_envelope derived); ap_correlationId := dv_correlationId derived;
  ap_sessionBindingId := pd_sessionBindingId pending; ap_connectionId := pd_preparedConnectionId pending;
  ap_sessionVersion := pd_authorizedSessionVersion pending; ap_gatewaySequence := pd_gatewaySequence pending;
  ap_envelopeDigest := pd_envelopeDigest pending |}.

Definition no_send_binds (n : GatewayBridgeNoSendReceipt) (p : Accepted) (tenantId : jstr) : bool :=
  (ns_tenantId n === tenantId) && (ns_rsid n === ap_rsid p) && (ns_invocationId n === ap_correlationId p) &&
  (ns_correlationId n === ap_correlationId p) && (ns_envelopeDigest n === ap_envelopeDigest p) &&
  (ns_sessionBindingId n === ap_sessionBindingId p) && (ns_acceptedConnectionId n === ap_connectionId p) &&
  (ns_durableSessionVersion n === ap_sessionVersion p) && (ns_gatewaySequence n === ap_gatewaySequence p) &&
  (ns_durableSequenceVersion n === ap_sessionVersion p) && isSafeInteger (ns_leaseTicket n) &&
  (1 <=? num_Z (ns_leaseTicket n)) && isSafeInteger (ns_egressEpoch n) && (0 <=? num_Z (ns_egressEpoch n)) &&
  negb (ns_leaseHolderInstanceId n === []) && negb (ns_effectiveMcpSessionId n === []) && negb (ns_principalKey n === []) &&
  sha256_pattern (ns_effectiveScopeDigest n) && sha256_pattern (ns_proofDigest n) &&
  sha256_pattern (ns_routeSnapshotDigest n) && sha256_pattern (ns_intentDigest n) && sha256_pattern (ns_authorityDigest n) &&
  isSafeInteger (ns_recordedAtMs n) && (0 <=? num_Z (ns_recordedAtMs n)).

Definition assertObservationIntegrity (observation : GatewayDurableDispatchObservation) (pending : GatewayRecoveryPendingDispatch)
    (tenantId : jstr) : result js_error unit :=
  match ob_acceptance observation with
  | Some receipt =>
      derived ← deriveEnvelope (pd_envelope pending) None;
      assertReceiptIntegrity receipt (accepted_pending pending derived) (Some tenantId)
  | None => Ok tt
  end ;;
  match ob_journal observation with
  | Some evidence => assertJournalEvidenceIntegrity evidence pending
  | None => Ok tt
  end ;;
  match ob_noSend observation with
  | None => Ok tt
  | Some noSend =>
      derived ← deriveEnvelope (pd_envelope pending) None;
      reject_if (negb (no_send_binds noSend (accepted_pending pending derived) tenantId) ||
                 negb (is_null (ob_acceptance observation)) ||
                 ((je_kind <$> ob_journal observation) !== Some known_terminal)) TypeError
        "no-send receipt is not bound to the exact pending dispatch"
  end.

Definition journalAttestation (evidence : GatewayVerifiedBridgeJournalEvidence) : GatewayRecoveryJournalAttestation := {|
  ja_kind := je_kind evidence; ja_evidenceEnvelopeDigest := je_envelopeDigest evidence;
  ja_durableJournalVersion := je_durableJournalVersion evidence; ja_recordedAtMs := je_recordedAtMs evidence;
  ja_batchResultDigest := bt_resultDigest <$> je_batchTerminal evidence |}.

Definition sharesApplicationBinding (history : GatewayRecoveryDispatchHistory) (pending : GatewayRecoveryPendingDispatch) : bool :=
  existsb (λ p, existsb (λ h, (me_idempotencyKey h === me_idempotencyKey p) &&
                              (me_journalBindingDigest h === me_journalBindingDigest p)) (hi_mutationEntries history))
    (pd_mutationEntries pending).

(** The evidence an attestation stands for; [rsid] is that of its envelope. *)
Definition attested_evidence (rsid sessionBindingId : jstr) (records : list InvocationJournalRecord)
    (batchTerminal : option GatewayDurableBatchTerminal) (a : GatewayRecoveryJournalAttestation)
  : GatewayVerifiedBridgeJournalEvidence := {|
  je_kind := ja_kind a; je_rsid := rsid; je_sessionBindingId := sessionBindingId;
  je_envelopeDigest := ja_evidenceEnvelopeDigest a; je_journalRecords := records; je_batchTerminal := batchTerminal;
  je_durableJournalVersion := ja_durableJournalVersion a; je_recordedAtMs := ja_recordedAtMs a |}.

Definition journalEvidenceMatchesHistory (evidence : GatewayVerifiedBridgeJournalEvidence) (history : GatewayRecoveryDispatchHistory)
    (rsid : jstr) : result js_error bool :=
  sameValue (journal_evidence_value evidence)
    (journal_evidence_value (attested_evidence rsid (hi_sessionBindingId history) (hi_journalRecords history)
       (hi_batchTerminal history) (hi_journalAttestation history))).

Definition journalEvidenceFromPending (pending : GatewayRecoveryPendingDispatch) (rsid : jstr)
  : option GatewayVerifiedBridgeJournalEvidence :=
  attested_evidence rsid (pd_sessionBindingId pending) (pd_journalRecords pending) (pd_batchTerminal pending)
    <$> pd_journalAttestation pending.

Definition pendingJournalAttestationFault (pending : GatewayRecoveryPendingDispatch) (rsid : jstr)
    (evidence : GatewayVerifiedBridgeJournalEvidence) : result js_error (option jstr) :=
  match journalEvidenceFromPending pending rsid with
  | None => Ok None
  | Some retained =>
      if num_Z (je_durableJournalVersion evidence) <? num_Z (je_durableJournalVersion retained)
      then Ok (Some (js "pending_journal_attestation_version_regression")) else
      if je_durableJournalVersion evidence === je_durableJournalVersion retained then
        same ← sameValue (journal_evidence_value evidence) (journal_evidence_value retained);
        Ok (if (same : bool) then None else Some (js "pending_journal_attestation_equal_version_mismatch")) else
      if num_Z (je_recordedAtMs evidence) <? num_Z (je_recordedAtMs retained)
      then Ok (Some (js "pending_journal_attestation_timestamp_regression")) else
      if (je_kind retained === indeterminate_outcome) && (je_kind evidence === late_terminal_outcome) then Ok None else
      same ← sameValue (obj (journalEvidenceContent evidence)) (obj (journalEvidenceContent retained));
      Ok (if (same : bool) then None else Some (js "pending_journal_attestation_content_mismatch"))
  end.

Fixpoint equal_version_fault (rsid : jstr) (evidence : GatewayVerifiedBridgeJournalEvidence)
    (histories : list GatewayRecoveryDispatchHistory) : result js_error bool :=
  match histories with
  | [] => Ok false
  | history :: histories =>
      differs ← (if je_durableJournalVersion evidence === ja_durableJournalVersion (hi_journalAttestation history)
                 then same ← journalEvidenceMatchesHistory evidence history rsid; Ok (negb same)
                 else Ok false);
      if (differs : bool) then Ok true else equal_version_fault rsid evidence histories
  end.

Definition retainedJournalAttestationFault (histories : list GatewayRecoveryDispatchHistory) (pending : GatewayRecoveryPendingDispatch)
    (rsid : jstr) (evidence : GatewayVerifiedBridgeJournalEvidence) : result js_error (option jstr) :=
  let matching := List.filter (λ history, sharesApplicationBinding history pending) histories in
  if existsb (λ history, num_Z (je_durableJournalVersion evidence) <?
                         num_Z (ja_durableJournalVersion (hi_journalAttestation history))) matching
  then Ok (Some (js "journal_attestation_version_regression")) else
  differs ← equal_version_fault rsid evidence matching;
  Ok (if (differs : bool) then Some (js "journal_attestation_equal_version_mismatch") else
      if (je_kind evidence === known_terminal) && existsb (λ history, hi_status history === history_indeterminate) matching
      then Some (js "indeterminate_journal_reclassification") else None).

(** ** Pending dispatches and histories *)

Definition pending_envelope_bound (pending : GatewayRecoveryPendingDispatch) (derived : DerivedEnvelope) : result js_error bool :=
  if (pd_envelopeDigest pending !== dv_digest derived) || (pd_gatewaySequence pending !== en_seq (dv_envelope derived))
  then Ok false else
  entries ← sameValue (VArr (map entry_value (pd_mutationEntries pending))) (VArr (map entry_value (dv_mutationEntries derived)));
  if negb entries then Ok false else
  sameValue (wire_clearances_value (pd_recoveryClearances pending)) (wire_clearances_value (dv_clearances derived)).

Definition pending_attested (pending : GatewayRecoveryPendingDispatch) (rsid : jstr) : result js_error unit :=
  match pd_journalAttestation pending with
  | None => reject_if (negb (is_null (pd_batchTerminal pending))) TypeError "pending batch terminal lacks a journal attestation"
  | Some attestation =>
      assertJournalEvidenceIntegrity
        (attested_evidence rsid (pd_sessionBindingId pending) (pd_journalRecords pending) (pd_batchTerminal pending) attestation)
        pending ;;
      reject_if (ja_batchResultDigest attestation !== (bt_resultDigest <$> pd_batchTerminal pending)) TypeError
        "pending batch terminal is not attested"
  end.

Definition pending_kind_fits (pending : GatewayRecoveryPendingDispatch) (derived : DerivedEnvelope) : result js_error unit :=
  match pd_kind pending with
  | pending_mutation =>
      reject_if ((length (dv_mutationEntries derived) =? 0)%nat || negb (is_null (dv_verificationHoldId derived))) TypeError
        "pending mutation dispatch has no exact mutation entries" ;;
      reject_if (negb (is_null (pd_verificationHoldId pending))) TypeError
        "pending mutation cannot carry verification correlation"
  | pending_verification =>
      reject_if (is_batch (dv_envelope derived) || negb (length (dv_mutationEntries derived) =? 0)%nat ||
                 is_null (dv_verificationHoldId derived) || (pd_verificationHoldId pending !== dv_verificationHoldId derived) ||
                 negb (length (pd_recoveryHoldIds pending) =? 0)%nat || pd_originRedelivery pending) TypeError
        "pending verification dispatch is not an exact correlated read"
  end.

Definition assertPendingIntegrity (pending : GatewayRecoveryPendingDispatch) (rsid : jstr) : result js_error unit :=
  derived ← deriveEnvelope (pd_envelope pending) (Some rsid);
  bound ← pending_envelope_bound pending derived;
  reject_if (negb bound) TypeError "pending recovery dispatch is not bound to its exact envelope" ;;
  assertBoundedString (pd_sessionBindingId pending) "sessionBindingId" 4096 ;;
  assertBoundedString (pd_preparedConnectionId pending) "preparedConnectionId" 4096 ;;
  assertSafePositiveInteger (pd_authorizedSessionVersion pending) "authorizedSessionVersion" ;;
  assertSafeNonNegativeInteger (pd_preparedAtMs pending) "preparedAtMs" ;;
  reject_if (pd_batchAtomic pending !== requiredSessionCapabilities derived) TypeError
    "pending recovery dispatch has stale session capability authority" ;;
  assertJournalBindings (pd_journalRecords pending) (dv_bindings derived) ;;
  pending_attested pending rsid ;;
  assertSortedUnique (pd_recoveryHoldIds pending) "pending recovery hold ids" ;;
  reject_if (negb (pd_originRedelivery pending) &&
             (map (λ c, rc_hold_id (wc_clearance c)) (pd_recoveryClearances pending) !== pd_recoveryHoldIds pending)) TypeError
    "pending recovery clearances are not every-and-only" ;;
  pending_kind_fits pending derived ;;
  match pd_bridgeAcceptance pending with
  | Some receipt => assertReceiptIntegrity receipt (accepted_pending pending derived) None
  | None => Ok tt
  end.

(** The dispatch a retained receipt accepted. *)
Definition accepted_history (history : GatewayRecoveryDispatchHistory) (derived : DerivedEnvelope)
    (receipt : GatewayBridgeCumulativeAckReceipt) : Accepted := {|
  ap_rsid := en_rsid (dv_envelope derived); ap_correlationId := dv_correlationId derived;
  ap_sessionBindingId := hi_sessionBindingId history; ap_connectionId := ar_acceptedConnectionId receipt;
  ap_sessionVersion := hi_authorizedSessionVersion history; ap_gatewaySequence := en_seq (dv_envelope derived);
  ap_envelopeDigest := hi_envelopeDigest history |}.

Definition history_envelope_bound (history : GatewayRecoveryDispatchHistory) (derived : DerivedEnvelope) : result js_error bool :=
  if hi_envelopeDigest history !== dv_digest derived then Ok false else
  sameValue (VArr (map entry_value (hi_mutationEntries history))) (VArr (map entry_value (dv_mutationEntries derived))).

Definition assertHistoryIntegrity (history : GatewayRecoveryDispatchHistory) (rsid : jstr) (tenantId : option jstr)
  : result js_error unit :=
  let attestation := hi_journalAttestation history in
  derived ← deriveEnvelope (hi_envelope history) (Some rsid);
  bound ← history_envelope_bound history derived;
  reject_if (negb bound) TypeError "recovery history is not bound to its exact envelope" ;;
  assertBoundedString (hi_sessionBindingId history) "history sessionBindingId" 4096 ;;
  assertSafePositiveInteger (hi_authorizedSessionVersion history) "history authorizedSessionVersion" ;;
  assertSafeNonNegativeInteger (hi_recordedAtMs history) "history recordedAtMs" ;;
  reject_if (hi_batchAtomic history !== requiredSessionCapabilities derived) TypeError
    "recovery history has stale session capability authority" ;;
  assertSortedUnique (hi_holdIds history) "history hold ids" ;;
  assertJournalBindings (hi_journalRecords history) (dv_bindings derived) ;;
  assertBatchTerminalIntegrity (dv_envelope derived) (hi_journalRecords history) (ja_kind attestation) (hi_batchTerminal history) ;;
  reject_if (ja_batchResultDigest attestation !== (bt_resultDigest <$> hi_batchTerminal history)) TypeError
    "recovery history batch terminal is not attested" ;;
  reject_if (negb (sha256_pattern (ja_evidenceEnvelopeDigest attestation)) ||
             ((ja_evidenceEnvelopeDigest attestation !== hi_envelopeDigest history) &&
              (ja_kind attestation !== late_terminal_outcome))) TypeError
    "recovery history journal attestation is not transport-bound" ;;
  assertSafePositiveInteger (ja_durableJournalVersion attestation) "history durableJournalVersion" ;;
  assertSafeNonNegativeInteger (ja_recordedAtMs attestation) "history journal recordedAtMs" ;;
  reject_if (negb (is_batch (dv_envelope derived)) && (hi_status history === history_terminal) &&
             existsb (λ j, negb (is_terminal j)) (hi_journalRecords history)) TypeError
    "terminal recovery history contains a non-terminal journal" ;;
  reject_if ((hi_status history === history_indeterminate) &&
             negb (existsb (λ j, jr_state j === indeterminate) (hi_journalRecords history))) TypeError
    "indeterminate recovery history contains no indeterminate journal" ;;
  match hi_bridgeAcceptance history with
  | Some receipt => assertReceiptIntegrity receipt (accepted_history history derived receipt) tenantId
  | None => Ok tt
  end.

(** ** The record *)

(** What [evidenceDecisionAuditSchema] asks beyond the types. *)
Definition decision_schema (d : GatewayRecoveryEvidenceDecisionAudit) : bool :=
  isGatewayUuidV7 (da_auditId d) && holdIdPattern (da_holdId d) && negb (da_verificationInvocationId d === Some []) &&
  negb (da_originIdempotencyKey d === Some []) && sha256_pattern (da_evidenceDigest d) &&
  sha256_pattern (da_journalBindingDigest d) && sha256_pattern (da_journalOutcomeDigest d) &&
  (1 <=? length (da_authorityReference d))%nat && (Z.of_nat (length (da_authorityReference d)) <=? 512) &&
  isSafeInteger (da_decisionVersion d) && (1 <=? num_Z (da_decisionVersion d)) &&
  isSafeInteger (da_decidedAtMs d) && (0 <=? num_Z (da_decidedAtMs d)).

Definition window_integrity (window : GatewayRecoveryInvocationWindow) : result js_error unit :=
  assertBoundedString (iw_attemptId window) "invocation window attemptId" 512 ;;
  reject_if (negb (isGatewayUuidV7 (iw_attemptId window))) TypeError "persisted invocation window attemptId must be UUIDv7" ;;
  assertSafeNonNegativeInteger (iw_acquiredAtMs window) "invocation window acquiredAtMs".

Fixpoint histories_integrity (rsid : jstr) (tenantId : option jstr) (seen : list jstr)
    (histories : list GatewayRecoveryDispatchHistory) : result js_error unit :=
  match histories with
  | [] => Ok tt
  | history :: histories =>
      assertHistoryIntegrity history rsid tenantId ;;
      reject_if (bool_decide (hi_envelopeDigest history ∈ seen)) TypeError
        "persisted recovery history repeats an envelope digest" ;;
      histories_integrity rsid tenantId (hi_envelopeDigest history :: seen) histories
  end.

Definition decodeRecord (candidate : GatewayRecoveryRecord) (rsid : jstr) (tenantId : option jstr)
  : result js_error GatewayRecoveryRecord :=
  reject_if (rr_rsid candidate !== rsid) TypeError "persisted recovery record has an invalid contract shape" ;;
  match rr_invocationWindow candidate with Some window => window_integrity window | None => Ok tt end ;;
  reject_if (negb (forallb hold_schema (rr_ledger candidate))) TypeError
    "persisted recovery ledger does not match the frozen schema" ;;
  assertLedgerIntegrity (rr_ledger candidate) rsid ;;
  reject_if (negb (forallb decision_schema (rr_evidenceDecisions candidate))) TypeError
    "persisted recovery evidence decisions do not match the contract" ;;
  reject_if (negb (all_distinct (map da_auditId (rr_evidenceDecisions candidate)))) TypeError
    "persisted recovery evidence decisions repeat an audit id" ;;
  match rr_resolutionPlan candidate with
  | Some plan => assertPlanIntegrity plan (rr_ledger candidate) rsid (rr_evidenceDecisions candidate)
  | None => Ok tt
  end ;;
  match rr_pendingDispatch candidate with
  | Some pending =>
      reject_if (is_null (rr_invocationWindow candidate)) TypeError "pending recovery dispatch requires an invocation window" ;;
      assertPendingIntegrity pending rsid
  | None => Ok tt
  end ;;
  histories_integrity rsid tenantId [] (rr_dispatchHistory candidate) ;;
  Ok candidate.

Definition emptyRecord (rsid : jstr) : GatewayRecoveryRecord := {|
  rr_rsid := rsid; rr_invocationWindow := None; rr_evidenceDecisions := []; rr_ledger := createMutationHoldLedger;
  rr_resolutionPlan := None; rr_pendingDispatch := None; rr_dispatchHistory := [] |}.

(** A stored record, its tenant and its version. *)
Record StoredRecovery := { sv_value : GatewayRecoveryRecord; sv_tenantId : jstr; sv_version : Z }.

Definition loadRecord (stored : option StoredRecovery) (rsid : jstr) : result js_error GatewayRecoveryRecord :=
  match stored with
  | None => Ok (emptyRecord rsid)
  | Some stored => decodeRecord (sv_value stored) rsid (Some (sv_tenantId stored))
  end.

Definition historyWith (current : list GatewayRecoveryDispatchHistory) (next : GatewayRecoveryDispatchHistory)
  : list GatewayRecoveryDispatchHistory :=
  List.filter (λ entry, hi_envelopeDigest entry !== hi_envelopeDigest next) current ++ [next].

Definition makePending (kind : pending_kind) (derived : DerivedEnvelope) (sessionBindingId connectionId : jstr)
    (authorizedSessionVersion : jsnum) (recoveryHoldIds : list jstr) (verificationHoldId : option jstr)
    (originRedelivery : bool) (journalRecords : option (list InvocationJournalRecord)) (preparedAtMs : jsnum)
  : result js_error GatewayRecoveryPendingDispatch :=
  assertBoundedString sessionBindingId "sessionBindingId" 4096 ;;
  assertBoundedString connectionId "connectionId" 4096 ;;
  records ← match journalRecords with Some records => Ok records | None => createJournalRecords (dv_bindings derived) end;
  let pending := {|
    pd_kind := kind; pd_envelope := dv_value derived; pd_envelopeDigest := dv_digest derived;
    pd_gatewaySequence := en_seq (dv_envelope derived); pd_sessionBindingId := sessionBindingId;
    pd_preparedConnectionId := connectionId; pd_authorizedSessionVersion := authorizedSessionVersion;
    pd_batchAtomic := requiredSessionCapabilities derived; pd_mutationEntries := dv_mutationEntries derived;
    pd_journalRecords := records; pd_journalAttestation := None; pd_batchTerminal := None;
    pd_recoveryHoldIds := recoveryHoldIds; pd_recoveryClearances := dv_clearances derived;
    pd_verificationHoldId := verificationHoldId; pd_originRedelivery := originRedelivery; pd_bridgeAcceptance := None;
    pd_preparedAtMs := preparedAtMs |} in
  assertPendingIntegrity pending (en_rsid (dv_envelope derived)) ;;
  Ok pending.

Definition invocationWindowFault (record : GatewayRecoveryRecord) (attemptId : jstr) : option jstr :=
  match rr_invocationWindow record with
  | None => Some (js "invocation_window_not_acquired")
  | Some window => if iw_attemptId window === attemptId then None else Some (js "invocation_window_attempt_mismatch")
  end.

End derive.
End RecoveryData.
