(* ===== verification/Recovery.v ===== *)
(** The recovery authority: packages/gateway/src/recoveryAuthority.ts.

    Each operation checks its input and then runs one transaction on the record of its
    session: it reads the record, decides, calls the ports that attest what the bridge
    durably knows, and stages the record that is to replace the one it read, on the
    condition that it is still there.  A transaction body is a program in the sense of
    [Effects] over the calls of the clock, the identifiers and the ports, whose answers
    are arbitrary; it is given the record it reads and returns its reply with what it
    staged.  An exception is kept as its message. *)

From S2P Require Import Prelude JsString JsValue JsMap Canonical Sha256 Sequence Journal MutationHold Envelope.
From S2P Require Import ProtocolStore Identifiers InvocationContext Confirmation Effects RecoveryData.

Module Recovery.
Import Canonical Identifiers.
Import Journal MutationHold Envelope RecoveryData.

(** ** Replies *)

(** The results of the operations; [protocol_fault] and [unavailable] are common to all
    of them. *)
Inductive Reply :=
| window_acquired | window_already_acquired | window_blocked (activeAttemptId : jstr)
| window_released | window_already_released | window_dispatch_pending
| preflight_clear
| blocked (reason : jstr) (holdIds : list jstr)
| planned (plan : GatewayRecoveryResolutionPlan) | already_planned (plan : GatewayRecoveryResolutionPlan)
| plan_blocked (holdIds : list jstr)
| rejected (reason : jstr)
| prepared (dispatch : GatewayRecoveryPendingDispatch) | already_prepared (dispatch : GatewayRecoveryPendingDispatch)
| replay_terminal (history : GatewayRecoveryDispatchHistory)
| confirmation_rejected (reason : Confirmation.GatewayConfirmationRefusalReason) (confirmationId : option jstr)
    (pendingAction : option Confirmation.GatewayPendingActionRecord)
| resume_blocked (reason : jstr) | retransmit (dispatch : GatewayRecoveryPendingDispatch) | already_accepted | nothing_pending
| reconcile_pending | reconcile_accepted (clearedHoldIds : list jstr)
| indeterminate_recorded (installedHoldIds clearedHoldIds : list jstr)
| verification_evidence_ready (clearedHoldIds : list jstr)
| terminal_recorded (clearedHoldIds : list jstr) (terminalJournalRecords : list InvocationJournalRecord)
    (terminalBatch : option GatewayDurableBatchTerminal)
| evidence_recorded (hold : MutationHold) | inconclusive_recorded (hold : MutationHold)
| snapshot_of_record (record : GatewayRecoveryRecord)
| protocol_fault (reason : jstr) (installedHoldIds : option (list jstr))
| unavailable (code : ProtocolStore.StoreErrorCode) (message : jstr).

Definition protocolFault (reason : string) : Reply := protocol_fault (js reason) None.

(** What a transaction staged: the record, and the writes of the confirmation authority. *)
Record Staged := { st_record : option GatewayRecoveryRecord; st_confirmation : list ProtocolStore.StoreWrite }.

Definition no_writes : Staged := {| st_record := None; st_confirmation := [] |}.
Definition stageRecord (value : GatewayRecoveryRecord) : Staged := {| st_record := Some value; st_confirmation := [] |}.

(** ** Calls *)

(** What a transaction reads: the record of its session, and what the confirmation
    authority asks for. *)
Record Snapshot := {
  sn_recovery : option StoredRecovery; sn_read : jstr → jstr → option ProtocolStore.StoredRecord }.

(** [stageRecord]: the record, as JSON, in place of what was read. *)
Definition record_write (read : Snapshot) (next : GatewayRecoveryRecord) (value : jsval) : ProtocolStore.StoreWrite := {|
  ProtocolStore.sw_namespace := GATEWAY_RECOVERY_NAMESPACE; ProtocolStore.sw_key := rr_rsid next;
  ProtocolStore.sw_value := Some value;
  ProtocolStore.sw_expect :=
    match sn_recovery read with
    | None => ProtocolStore.expect_absent
    | Some stored => ProtocolStore.expect_version (JInt (sv_version stored))
    end |}.

Record GatewayRecoveryStoreFailure := { sf_code : ProtocolStore.StoreErrorCode; sf_message : jstr }.

(** [r_open] begins a transaction and reads; [r_commit] offers what was staged, on the
    condition that what was read is still there, and is answered with the failure. *)
Inductive call :=
| r_open (tenantId rsid : jstr)
| r_commit (tenantId rsid : jstr) (read : Snapshot) (staged : Staged)
| r_clock
| r_newId (timestampMs : jsnum)
| r_inspectDispatch (expected : GatewayExpectedDispatchBinding)
| r_authorizeTarget (resume : bool) (expected : GatewayExpectedDispatchTarget)
| r_decideEvidence (candidate : GatewayRecoveryEvidenceCandidate).

Definition answer (c : call) : Type :=
  match c with
  | r_open _ _ => result js_error (GatewayRecoveryStoreFailure + Snapshot)
  | r_commit _ _ _ _ => result js_error (option GatewayRecoveryStoreFailure)
  | r_clock => result js_error jsnum
  | r_newId _ => result js_error jstr
  | r_inspectDispatch _ => result js_error GatewayBridgeEvidenceLookup
  | r_authorizeTarget _ _ => result js_error GatewayBridgeResumeAuthorization
  | r_decideEvidence _ => result js_error GatewayRecoveryEvidenceDecision
  end.

Abbreviation program := (prog call answer js_error).

Notation await c := (@Call call answer js_error _ c Done) (only parsing).
Definition lift {A} (r : result js_error A) : program A := Done r.

Definition replies (r : Reply) : program (Reply * Staged) := mret (r, no_writes).
Definition faults (reason : string) : program (Reply * Staged) := replies (protocolFault reason).

(** ** Updates: [{ ...record, ... }] *)

Definition with_window (r : GatewayRecoveryRecord) (w : option GatewayRecoveryInvocationWindow) : GatewayRecoveryRecord := {|
  rr_rsid := rr_rsid r; rr_invocationWindow := w; rr_evidenceDecisions := rr_evidenceDecisions r; rr_ledger := rr_ledger r;
  rr_resolutionPlan := rr_resolutionPlan r; rr_pendingDispatch := rr_pendingDispatch r;
  rr_dispatchHistory := rr_dispatchHistory r |}.

Definition with_plan (r : GatewayRecoveryRecord) (plan : option GatewayRecoveryResolutionPlan) : GatewayRecoveryRecord := {|
  rr_rsid := rr_rsid r; rr_invocationWindow := rr_invocationWindow r; rr_evidenceDecisions := rr_evidenceDecisions r;
  rr_ledger := rr_ledger r; rr_resolutionPlan := plan; rr_pendingDispatch := rr_pendingDispatch r;
  rr_dispatchHistory := rr_dispatchHistory r |}.

Definition with_pending (r : GatewayRecoveryRecord) (ledger : MutationHoldLedger)
    (pending : option GatewayRecoveryPendingDispatch) : GatewayRecoveryRecord := {|
  rr_rsid := rr_rsid r; rr_invocationWindow := rr_invocationWindow r; rr_evidenceDecisions := rr_evidenceDecisions r;
  rr_ledger := ledger; rr_resolutionPlan := rr_resolutionPlan r; rr_pendingDispatch := pending;
  rr_dispatchHistory := rr_dispatchHistory r |}.

Definition with_histories (r : GatewayRecoveryRecord) (ledger : MutationHoldLedger)
    (pending : option GatewayRecoveryPendingDispatch) (histories : list GatewayRecoveryDispatchHistory) : GatewayRecoveryRecord := {|
  rr_rsid := rr_rsid r; rr_invocationWindow := rr_invocationWindow r; rr_evidenceDecisions := rr_evidenceDecisions r;
  rr_ledger := ledger; rr_resolutionPlan := rr_resolutionPlan r; rr_pendingDispatch := pending;
  rr_dispatchHistory := histories |}.

Definition with_decision (r : GatewayRecoveryRecord) (audit : GatewayRecoveryEvidenceDecisionAudit) : GatewayRecoveryRecord := {|
  rr_rsid := rr_rsid r; rr_invocationWindow := rr_invocationWindow r;
  rr_evidenceDecisions := rr_evidenceDecisions r ++ [audit]; rr_ledger := rr_ledger r;
  rr_resolutionPlan := rr_resolutionPlan r; rr_pendingDispatch := rr_pendingDispatch r;
  rr_dispatchHistory := rr_dispatchHistory r |}.

Definition redirect (p : GatewayRecoveryPendingDispatch) (connectionId : jstr) (sessionVersion : jsnum)
  : GatewayRecoveryPendingDispatch := {|
  pd_kind := pd_kind p; pd_envelope := pd_envelope p; pd_envelopeDigest := pd_envelopeDigest p;
  pd_gatewaySequence := pd_gatewaySequence p; pd_sessionBindingId := pd_sessionBindingId p;
  pd_preparedConnectionId := connectionId; pd_authorizedSessionVersion := sessionVersion; pd_batchAtomic := pd_batchAtomic p;
  pd_mutationEntries := pd_mutationEntries p; pd_journalRecords := pd_journalRecords p;
  pd_journalAttestation := pd_journalAttestation p; pd_batchTerminal := pd_batchTerminal p;
  pd_recoveryHoldIds := pd_recoveryHoldIds p; pd_recoveryClearances := pd_recoveryClearances p;
  pd_verificationHoldId := pd_verificationHoldId p; pd_originRedelivery := pd_originRedelivery p;
  pd_bridgeAcceptance := pd_bridgeAcceptance p; pd_preparedAtMs := pd_preparedAtMs p |}.

(** The pending dispatch once the acceptance and the evidence are taken over. *)
Definition with_observation (p : GatewayRecoveryPendingDispatch) (acceptance : option GatewayBridgeCumulativeAckReceipt)
    (evidence : option GatewayVerifiedBridgeJournalEvidence) : GatewayRecoveryPendingDispatch := {|
  pd_kind := pd_kind p; pd_envelope := pd_envelope p; pd_envelopeDigest := pd_envelopeDigest p;
  pd_gatewaySequence := pd_gatewaySequence p; pd_sessionBindingId := pd_sessionBindingId p;
  pd_preparedConnectionId := pd_preparedConnectionId p; pd_authorizedSessionVersion := pd_authorizedSessionVersion p;
  pd_batchAtomic := pd_batchAtomic p; pd_mutationEntries := pd_mutationEntries p;
  pd_journalRecords := match evidence with Some e => je_journalRecords e | None => pd_journalRecords p end;
  pd_journalAttestation := match evidence with Some e => Some (journalAttestation e) | None => pd_journalAttestation p end;
  pd_batchTerminal := match evidence with Some e => je_batchTerminal e | None => pd_batchTerminal p end;
  pd_recoveryHoldIds := pd_recoveryHoldIds p; pd_recoveryClearances := pd_recoveryClearances p;
  pd_verificationHoldId := pd_verificationHoldId p; pd_originRedelivery := pd_originRedelivery p;
  pd_bridgeAcceptance := acceptance; pd_preparedAtMs := pd_preparedAtMs p |}.

(** The history of a settled dispatch. *)
Definition settled (status : history_status) (p : GatewayRecoveryPendingDispatch) (evidence : GatewayVerifiedBridgeJournalEvidence)
    (batchTerminal : option GatewayDurableBatchTerminal) (holdIds : list jstr)
    (acceptance : option GatewayBridgeCumulativeAckReceipt) (recordedAtMs : jsnum) : GatewayRecoveryDispatchHistory := {|
  hi_status := status; hi_envelope := pd_envelope p; hi_envelopeDigest := pd_envelopeDigest p;
  hi_sessionBindingId := pd_sessionBindingId p; hi_authorizedSessionVersion := pd_authorizedSessionVersion p;
  hi_batchAtomic := pd_batchAtomic p; hi_mutationEntries := pd_mutationEntries p;
  hi_journalRecords := je_journalRecords evidence; hi_batchTerminal := batchTerminal;
  hi_journalAttestation := journalAttestation evidence; hi_holdIds := holdIds; hi_bridgeAcceptance := acceptance;
  hi_recordedAtMs := recordedAtMs |}.

Definition with_late_evidence (h : GatewayRecoveryDispatchHistory) (evidence : GatewayVerifiedBridgeJournalEvidence)
    (acceptance : option GatewayBridgeCumulativeAckReceipt) (recordedAtMs : jsnum) : GatewayRecoveryDispatchHistory := {|
  hi_status := hi_status h; hi_envelope := hi_envelope h; hi_envelopeDigest := hi_envelopeDigest h;
  hi_sessionBindingId := hi_sessionBindingId h; hi_authorizedSessionVersion := hi_authorizedSessionVersion h;
  hi_batchAtomic := hi_batchAtomic h; hi_mutationEntries := hi_mutationEntries h;
  hi_journalRecords := je_journalRecords evidence; hi_batchTerminal := je_batchTerminal evidence;
  hi_journalAttestation := journalAttestation evidence; hi_holdIds := hi_holdIds h; hi_bridgeAcceptance := acceptance;
  hi_recordedAtMs := recordedAtMs |}.

Definition with_journals (h : GatewayRecoveryDispatchHistory) (records : list InvocationJournalRecord) (recordedAtMs : jsnum)
  : GatewayRecoveryDispatchHistory := {|
  hi_status := hi_status h; hi_envelope := hi_envelope h; hi_envelopeDigest := hi_envelopeDigest h;
  hi_sessionBindingId := hi_sessionBindingId h; hi_authorizedSessionVersion := hi_authorizedSessionVersion h;
  hi_batchAtomic := hi_batchAtomic h; hi_mutationEntries := hi_mutationEntries h; hi_journalRecords := records;
  hi_batchTerminal := hi_batchTerminal h; hi_journalAttestation := hi_journalAttestation h; hi_holdIds := hi_holdIds h;
  hi_bridgeAcceptance := hi_bridgeAcceptance h; hi_recordedAtMs := recordedAtMs |}.

Section authority.
Context `{Hasher, !JsonText.Float64, !Zod}.
Context (readEnvelope : jsval → option DispatchEnvelope) (readBatch : jsval → option BatchCarrier).

Abbreviation body := (Snapshot → program (Reply * Staged)).

Definition load (stored : Snapshot) (rsid : jstr) : program GatewayRecoveryRecord :=
  lift (loadRecord readEnvelope readBatch (sn_recovery stored) rsid).

(** [#transact]: a failure of the store and an exception are both [unavailable]. *)
Definition store_failure (f : GatewayRecoveryStoreFailure) : Reply := unavailable (sf_code f) (sf_message f).

Definition transact (tenantId rsid : jstr) (operation : body) : program Reply :=
  try_with
    (opened ← await (r_open tenantId rsid);
     match opened with
     | inl failure => mret (store_failure failure)
     | inr snapshot =>
         outcome ← operation snapshot;
         failure ← await (r_commit tenantId rsid snapshot outcome.2);
         mret (match failure with Some failure => store_failure failure | None => outcome.1 end)
     end)
    (λ e, mret (unavailable ProtocolStore.unavailable (err_message e))).

(** The reply that [#transactInvocationWindow] tries again. *)
Definition is_conflict (r : Reply) : bool :=
  match r with unavailable ProtocolStore.conflict _ => true | _ => false end.

Fixpoint attempts (more : nat) (attempt : program Reply) : program Reply :=
  result ← attempt;
  match more with
  | O => mret result
  | S more => if is_conflict result then attempts more attempt else mret result
  end.

Definition transactInvocationWindow (tenantId rsid : jstr) (operation : body) : program Reply :=
  attempts 2 (transact tenantId rsid operation).

Definition invalid_input : program Reply := mret (protocolFault "invalid_input").

(** The checks of an input, in a [try] that answers [invalid_input]. *)
Definition checked {A} (checks : result js_error A) (k : A → program Reply) : program Reply :=
  match checks with Ok a => k a | Throw _ => invalid_input end.

Definition check_attempt (attemptId : jstr) : result js_error unit :=
  assertBoundedString attemptId "attemptId" 512 ;;
  reject_if (negb (isGatewayUuidV7 attemptId)) TypeError "attemptId must be UUIDv7".

Definition check_scope (tenantId rsid : jstr) : result js_error unit :=
  assertBoundedString tenantId "tenantId" 512 ;; assertBoundedString rsid "rsid" 512.

Definition mintId : program jstr :=
  now ← await r_clock;
  id ← await (r_newId now);
  if negb (isGatewayUuidV7 id) then lift (throw TypeError "Gateway recovery authority must mint UUIDv7 identifiers") else mret id.

(** ** Invocation windows *)

Definition acquire_window (rsid attemptId : jstr) (acquiredAtMs : jsnum) : body := λ stored,
  record ← load stored rsid;
  match rr_invocationWindow record with
  | Some active =>
      replies (if iw_attemptId active === attemptId then window_already_acquired else window_blocked (iw_attemptId active))
  | None =>
      if negb (is_null (rr_pendingDispatch record)) then faults "pending_dispatch_without_invocation_window" else
      mret (window_acquired, stageRecord (with_window record (Some {| iw_attemptId := attemptId; iw_acquiredAtMs := acquiredAtMs |})))
  end.

(** The clock is read among the checks, and its exception is theirs. *)
Definition acquireInvocationWindow (tenantId rsid attemptId : jstr) : program Reply :=
  checked (check_scope tenantId rsid ;; check_attempt attemptId) (λ _, Call r_clock (λ clock,
  checked (now ← clock; assertSafeNonNegativeInteger now "invocation window acquiredAtMs" ;; Ok now) (λ acquiredAtMs,
  transactInvocationWindow tenantId rsid (acquire_window rsid attemptId acquiredAtMs)))).

Definition release_window (rsid attemptId : jstr) : body := λ stored,
  record ← load stored rsid;
  match rr_invocationWindow record with
  | None =>
      if is_null (rr_pendingDispatch record) then replies window_already_released
      else faults "pending_dispatch_without_invocation_window"
  | Some active =>
      if iw_attemptId active !== attemptId then faults "invocation_window_attempt_mismatch" else
      if negb (is_null (rr_pendingDispatch record)) then replies window_dispatch_pending else
      mret (window_released, stageRecord (with_window record None))
  end.

Definition releaseInvocationWindow (tenantId rsid attemptId : jstr) : program Reply :=
  checked (check_scope tenantId rsid ;; check_attempt attemptId) (λ _,
  transactInvocationWindow tenantId rsid (release_window rsid attemptId)).

(** ** The ports *)

Definition checked_authorization (a : GatewayBridgeResumeAuthorization) : GatewayBridgeResumeAuthorization :=
  match a with
  | authorized sessionVersion =>
      match assertSafePositiveInteger sessionVersion "authorized Bridge session version" with
      | Ok _ => a
      | Throw _ => not_authorized (js "invalid_session_version")
      end
  | not_authorized reason =>
      match assertBoundedString reason "dispatch authorization reason" 256 with
      | Ok _ => a
      | Throw _ => not_authorized (js "invalid_authorization_reason")
      end
  | authorization_unavailable _ => a
  end.

Definition authorizeDispatchTarget (derived : DerivedEnvelope) (sessionBindingId connectionId : jstr) (resume : bool)
  : program GatewayBridgeResumeAuthorization :=
  authorization ← try_with
    (target ← lift (expectedDispatchTarget derived sessionBindingId connectionId);
     await (r_authorizeTarget resume target))
    (λ e, mret (authorization_unavailable (err_message e)));
  mret (checked_authorization authorization).

Inductive AuditedDecision :=
| decision_audited (audit : GatewayRecoveryEvidenceDecisionAudit)
| decision_refused (reason : jstr)
| decision_unanswered (message : jstr).

(** The audit of a decision, in its [try]. *)
Definition audit_decision (candidate : GatewayRecoveryEvidenceCandidate) (conclusion : HoldEvidenceConclusion)
    (authorityReference : jstr) (decisionVersion decidedAtMs : jsnum) : program AuditedDecision :=
  let journal := ec_journalRecord candidate in
  let of_read := ec_basis candidate === verification_read in
  let terminalOutcome := if of_read then jr_terminalOutcome journal else jr_lateTerminalOutcome journal in
  let outcomeDigest := if of_read then jr_terminalOutcomeDigest journal else jr_lateTerminalOutcomeDigest journal in
  lift (assertBoundedString authorityReference "evidence decision authorityReference" 512 ;;
        assertSafePositiveInteger decisionVersion "evidence decision version" ;;
        assertSafeNonNegativeInteger decidedAtMs "evidence decision timestamp") ;;
  match terminalOutcome, outcomeDigest with
  | Some terminal, Some journalOutcomeDigest =>
      if of_read && (to_status terminal !== completed) && match conclusion with conclusive_evidence _ => true | _ => false end
      then mret (decision_refused (js "verification_terminal_not_successful")) else
      auditId ← mintId;
      let audit := {|
        da_auditId := auditId; da_holdId := ec_holdId candidate; da_basis := ec_basis candidate;
        da_verificationInvocationId := ec_verificationInvocationId candidate;
        da_originIdempotencyKey := ec_originIdempotencyKey candidate; da_evidenceDigest := ec_evidenceDigest candidate;
        da_conclusion := conclusion; da_journalBindingDigest := jr_bindingDigest journal;
        da_journalOutcomeDigest := journalOutcomeDigest;
        da_terminalKind := if of_read then kind_terminal else kind_late_terminal; da_terminalStatus := to_status terminal;
        da_authorityReference := authorityReference; da_decisionVersion := decisionVersion; da_decidedAtMs := decidedAtMs |} in
      if decision_schema audit then mret (decision_audited audit)
      else lift (throw TypeError "invalid evidence decision audit")
  | _, _ => lift (throw TypeError "invalid audited evidence decision")
  end.

Definition authorizeEvidenceDecision (candidate : GatewayRecoveryEvidenceCandidate) : program AuditedDecision :=
  Call (r_decideEvidence candidate) (λ decision,
    match decision with
    | Throw e => mret (decision_unanswered (err_message e))
    | Ok (decision_unavailable message) => mret (decision_unanswered message)
    | Ok (decision_rejected reason) => mret (decision_refused reason)
    | Ok (decided conclusion authorityReference decisionVersion decidedAtMs) =>
        try_with (audit_decision candidate conclusion authorityReference decisionVersion decidedAtMs)
          (λ _, mret (decision_refused (js "invalid_evidence_decision")))
    end).

(** ** Preflight and plans *)

Definition preflight_mutation (rsid : jstr) (scopes : list MutationScope) : body := λ stored,
  record ← load stored rsid;
  match rr_pendingDispatch record with
  | Some pending => replies (blocked (js "dispatch_in_flight") (pd_recoveryHoldIds pending))
  | None =>
      let conflicts := conflictingMutationHolds (rr_ledger record) rsid scopes in
      replies (if (length conflicts =? 0)%nat then preflight_clear else blocked (js "mutation_hold") (map mh_holdId conflicts))
  end.

Definition preflightMutation (tenantId rsid : jstr) (mutationScopes : list MutationScope) : program Reply :=
  checked (check_scope tenantId rsid ;; normalizeScopes mutationScopes) (λ scopes, transact tenantId rsid (preflight_mutation rsid scopes)).

Record PlanDecision := { pn_holdId : jstr; pn_decision : HoldResolutionDecision }.

Definition audit_of_evidence (decisions : list GatewayRecoveryEvidenceDecisionAudit) (hold : MutationHold) (e : HoldEvidenceAttempt)
  : option GatewayRecoveryEvidenceDecisionAudit :=
  find_first (λ candidate,
    (da_holdId candidate === mh_holdId hold) && (da_basis candidate === ea_basis e) &&
    (da_verificationInvocationId candidate === ea_verificationInvocationId e) &&
    (da_evidenceDigest candidate === ea_evidenceDigest e) && (da_conclusion candidate === ea_conclusion e) &&
    (da_journalBindingDigest candidate === ea_journalBindingDigest e) &&
    (da_journalOutcomeDigest candidate === ea_journalOutcomeDigest e)) decisions.

(** The item of a hold, whose resolution has no id yet. *)
Definition draft_item (decisions : list GatewayRecoveryEvidenceDecisionAudit) (hold : MutationHold) (decision : PlanDecision)
  : option GatewayRecoveryResolutionPlanItem :=
  evidence ← mh_selectedEvidence hold;
  audit ← audit_of_evidence decisions hold evidence;
  if (mh_state hold !== hold_evidence_recorded) || (ea_conclusion evidence !== conclusive_evidence (pn_decision decision)) then None
  else Some {|
    pi_holdId := mh_holdId hold; pi_resolutionId := []; pi_auditId := da_auditId audit; pi_basis := ea_basis evidence;
    pi_verificationInvocationId := ea_verificationInvocationId evidence; pi_evidenceDigest := ea_evidenceDigest evidence;
    pi_decision := pn_decision decision; pi_journalBindingDigest := ea_journalBindingDigest evidence;
    pi_journalOutcomeDigest := ea_journalOutcomeDigest evidence |}.

Definition with_resolution_id (item : GatewayRecoveryResolutionPlanItem) (resolutionId : jstr)
  : GatewayRecoveryResolutionPlanItem := {|
  pi_holdId := pi_holdId item; pi_resolutionId := resolutionId; pi_auditId := pi_auditId item; pi_basis := pi_basis item;
  pi_verificationInvocationId := pi_verificationInvocationId item; pi_evidenceDigest := pi_evidenceDigest item;
  pi_decision := pi_decision item; pi_journalBindingDigest := pi_journalBindingDigest item;
  pi_journalOutcomeDigest := pi_journalOutcomeDigest item |}.

Fixpoint mint_items (drafts : list GatewayRecoveryResolutionPlanItem) : program (list GatewayRecoveryResolutionPlanItem) :=
  match drafts with
  | [] => mret []
  | draft :: drafts =>
      resolutionId ← mintId;
      items ← mint_items drafts;
      mret (with_resolution_id draft resolutionId :: items)
  end.

Definition item_clearance (item : GatewayRecoveryResolutionPlanItem) (hold : MutationHold) : RecoveryClearance := {|
  rc_hold_id := pi_holdId item; rc_mutation_scope := mh_mutationScope hold; rc_resolution_id := pi_resolutionId item;
  rc_basis := pi_basis item; rc_verification_invocation_id := pi_verificationInvocationId item;
  rc_evidence_digest := pi_evidenceDigest item; rc_decision := pi_decision item; rc_audit_id := pi_auditId item |}.

(** The plan, in its [try]. *)
Definition mint_plan (record : GatewayRecoveryRecord) (rsid : jstr) (scopes : list MutationScope) (identity : jstr)
    (conflicts : list MutationHold) (drafts : list GatewayRecoveryResolutionPlanItem) : program GatewayRecoveryResolutionPlan :=
  items ← mint_items drafts;
  planId ← mintId;
  createdAtMs ← await r_clock;
  let plan := {|
    pl_planId := planId; pl_planIdentity := identity; pl_rsid := rsid; pl_mutationScopes := scopes; pl_items := items;
    pl_clearances := zip_with item_clearance items conflicts; pl_createdAtMs := createdAtMs |} in
  lift (assertPlanIntegrity plan (rr_ledger record) rsid (rr_evidenceDecisions record)) ;;
  mret plan.

Definition plan_clearances (rsid : jstr) (decisions : list PlanDecision) (scopes : list MutationScope) : body := λ stored,
  record ← load stored rsid;
  if negb (is_null (rr_pendingDispatch record)) then replies (rejected (js "dispatch_in_flight")) else
  let conflicts := conflictingMutationHolds (rr_ledger record) rsid scopes in
  if (length conflicts =? 0)%nat then replies (rejected (js "no_conflicting_holds")) else
  let conflictIds := map mh_holdId conflicts in
  if conflictIds !== map pn_holdId decisions then replies (plan_blocked conflictIds) else
  match mapM (λ hd, draft_item (rr_evidenceDecisions record) hd.1 hd.2) (zip conflicts decisions) with
  | None => replies (rejected (js "evidence_not_conclusive"))
  | Some drafts =>
      identity ← lift (planIdentity rsid scopes drafts);
      match rr_resolutionPlan record with
      | Some plan =>
          replies (if pl_planIdentity plan === identity then already_planned plan
                   else rejected (js "different_resolution_plan_pending"))
      | None =>
          minted ← try_with (plan ← mint_plan record rsid scopes identity conflicts drafts; mret (Some plan)) (λ _, mret None);
          match minted with
          | None => replies (rejected (js "identifier_mint_failed"))
          | Some plan => mret (planned plan, stageRecord (with_plan record (Some plan)))
          end
      end
  end.

Definition planRecoveryClearances (tenantId rsid : jstr) (mutationScopes : list MutationScope) (decisions : list PlanDecision)
  : program Reply :=
  checked (check_scope tenantId rsid ;; scopes ← normalizeScopes mutationScopes;
           assertSortedUnique (map pn_holdId decisions) "resolution decision hold ids" ;; Ok scopes)
    (λ scopes, transact tenantId rsid (plan_clearances rsid decisions scopes)).

(** ** Preparing a mutation *)

Record PrepareMutation := {
  pm_tenantId : jstr; pm_attemptId : jstr; pm_sessionBindingId : jstr; pm_connectionId : jstr; pm_envelope : jsval;
  pm_expected : GatewayExpectedMutationDispatch; pm_confirmationProof : option Confirmation.GatewayConfirmationProof }.

Fixpoint some_digest_differs (bindings expected : list InvocationJournalBinding) : result js_error bool :=
  match bindings, expected with
  | b :: bindings, e :: expected =>
      d ← makeJournalBindingDigest b;
      d' ← makeJournalBindingDigest e;
      if d !== d' then Ok true else some_digest_differs bindings expected
  | _, _ => Ok false
  end.

(** The envelope is the one the server authored. *)
Definition authored (expected : GatewayExpectedMutationDispatch) (derived : DerivedEnvelope) : result js_error bool :=
  if (em_rsid expected !== en_rsid (dv_envelope derived)) || (em_correlationId expected !== dv_correlationId derived)
  then Ok false else
  clearances ← sameValue (clearances_value (em_recoveryClearances expected)) (wire_clearances_value (dv_clearances derived));
  if negb clearances || negb (length (em_bindings expected) =? length (dv_bindings derived))%nat then Ok false else
  differs ← some_digest_differs (em_bindings expected) (dv_bindings derived);
  Ok (negb differs).

(** The confirmation a confirmed mutation names, [None] when its policy asks for none. *)
Definition confirmed_policy (derived : DerivedEnvelope) (proof : option Confirmation.GatewayConfirmationProof)
  : result js_error (option jstr) :=
  let confirmedBindings := List.filter (λ b, match pb_class (jb_policy b) with class_confirm => true | _ => false end)
    (dv_bindings derived) in
  match confirmedBindings with
  | [] => reject_if (negb (is_null proof)) TypeError "non-confirm mutation cannot carry a confirmation proof" ;; Ok None
  | first :: _ =>
      let ids := unique (map (λ b, pb_confirmation_id (jb_policy b)) confirmedBindings) in
      reject_if (negb (length confirmedBindings =? length (dv_bindings derived))%nat || negb (length ids =? 1)%nat ||
                 existsb (λ b, match pb_decision (jb_policy b) with decision_confirmed => false | _ => true end ||
                               is_null (pb_confirmation_id (jb_policy b))) confirmedBindings) TypeError
        "confirmed mutation policy is inconsistent" ;;
      let confirmedPolicyId := pb_confirmation_id (jb_policy first) in
      reject_if (match proof with
                 | None => true
                 | Some proof =>
                     (Confirmation.cp_commitInvocationId proof !== dv_correlationId derived) ||
                     (Confirmation.confirmationIdFromToken (Confirmation.cp_confirmToken proof) !== confirmedPolicyId)
                 end) TypeError "confirmed mutation is missing its exact confirmation proof" ;;
      Ok confirmedPolicyId
  end.

Definition prepare_mutation_check (confirmationAuthority : bool) (input : PrepareMutation)
  : result js_error (DerivedEnvelope * option jstr) :=
  assertBoundedString (pm_tenantId input) "tenantId" 512 ;;
  check_attempt (pm_attemptId input) ;;
  assertBoundedString (pm_sessionBindingId input) "sessionBindingId" 512 ;;
  assertBoundedString (pm_connectionId input) "connectionId" 512 ;;
  derived ← deriveEnvelope readEnvelope (pm_envelope input) None;
  reject_if ((length (dv_mutationEntries derived) =? 0)%nat || negb (is_null (dv_verificationHoldId derived))) TypeError
    "mutation dispatch must contain a mutating invocation" ;;
  assertBoundedString (em_rsid (pm_expected input)) "expected rsid" 512 ;;
  assertBoundedString (em_correlationId (pm_expected input)) "expected correlationId" 512 ;;
  exact ← authored (pm_expected input) derived;
  reject_if (negb exact) TypeError "mutation envelope is not bound to server-authored dispatch authority" ;;
  policyId ← (if confirmationAuthority then confirmed_policy derived (pm_confirmationProof input) else Ok None);
  Ok (derived, policyId).

(** The replies for an identity that is already retained, [None] when it is new. *)
Definition retained_reply (retained : RetainedIdentityClassification) (sessionBindingId connectionId : jstr) : option Reply :=
  match retained with
  | identity_new => None
  | exact_pending pending =>
      Some (if (pd_sessionBindingId pending === sessionBindingId) && (pd_preparedConnectionId pending === connectionId)
            then already_prepared pending else protocolFault "pending_redelivery_requires_retained_path")
  | exact_terminal history => Some (replay_terminal history)
  | exact_indeterminate _ => Some (protocolFault "origin_redelivery_requires_retained_path")
  | idempotency_binding_mismatch => Some (protocolFault "idempotency_binding_mismatch")
  | batch_binding_mismatch => Some (protocolFault "batch_binding_mismatch")
  end.

Definition resolve_reason (r : ResolveRejection) : jstr :=
  match r with
  | resolve_foreign_hold => js "foreign_hold" | resolve_invalid_state => js "invalid_state"
  | evidence_mismatch => js "evidence_mismatch" | inconclusive_evidence => js "inconclusive_evidence"
  end.

Definition authorize_reason (r : AuthorizeFault) : jstr :=
  match r with
  | foreign_clearance => js "foreign_clearance" | missing_clearance => js "missing_clearance"
  | unsorted_clearances => js "unsorted_clearances" | clearance_mismatch => js "clearance_mismatch"
  | clearance_not_ready => js "clearance_not_ready"
  end.

(** The plan's resolutions, applied for this dispatch: the ledger or the reply. *)
Fixpoint resolve_items (rsid digest : jstr) (ledger : MutationHoldLedger) (items : list GatewayRecoveryResolutionPlanItem)
  : result js_error (Reply + MutationHoldLedger) :=
  match items with
  | [] => Ok (inr ledger)
  | item :: items =>
      resolved ← resolveMutationHold ledger {|
        ri_rsid := rsid; ri_holdId := pi_holdId item; ri_basis := pi_basis item;
        ri_verificationInvocationId := pi_verificationInvocationId item; ri_evidenceDigest := pi_evidenceDigest item;
        ri_decision := pi_decision item; ri_resolutionId := pi_resolutionId item; ri_auditId := pi_auditId item;
        ri_authorizedDispatchIdentity := digest |};
      match resolved with
      | resolve_rejected _ reason => Ok (inl (protocol_fault (js "hold_resolution_" ++ resolve_reason reason) None))
      | hold_resolved ledger _ => resolve_items rsid digest ledger items
      end
  end.

(** The ledger and the holds a mutation goes past, or the reply that stops it. *)
Definition pass_holds (record : GatewayRecoveryRecord) (derived : DerivedEnvelope)
  : result js_error (Reply + MutationHoldLedger * list jstr) :=
  let scopes := map me_mutationScope (dv_mutationEntries derived) in
  let conflicts := conflictingMutationHolds (rr_ledger record) (rr_rsid record) scopes in
  if (length conflicts =? 0)%nat then
    Ok (if negb (length (dv_clearances derived) =? 0)%nat then inl (protocolFault "foreign_clearance") else inr (rr_ledger record, []))
  else
  if (length (dv_clearances derived) =? 0)%nat then Ok (inl (blocked (js "mutation_hold") (map mh_holdId conflicts))) else
  match rr_resolutionPlan record with
  | None => Ok (inl (protocolFault "resolution_plan_mismatch"))
  | Some plan =>
      normalized ← normalizeScopes scopes;
      sameScopes ← sameValue (scopes_value (pl_mutationScopes plan)) (scopes_value normalized);
      sameClearances ←
        (if (sameScopes : bool) then sameValue (clearances_value (pl_clearances plan)) (wire_clearances_value (dv_clearances derived))
         else Ok false);
      if negb sameClearances then Ok (inl (protocolFault "resolution_plan_mismatch")) else
      resolved ← resolve_items (rr_rsid record) (dv_digest derived) (rr_ledger record) (pl_items plan);
      match resolved with
      | inl reply => Ok (inl reply)
      | inr ledger =>
          authorization ← authorizeMutationDispatch ledger {|
            ai_rsid := rr_rsid record; ai_mutationScopes := scopes;
            ai_recoveryClearances := map wc_clearance (dv_clearances derived); ai_dispatchIdentity := dv_digest derived |};
          Ok (match authorization with
              | mutation_blocked _ holds => inl (blocked (js "mutation_hold") (map mh_holdId holds))
              | authorize_fault _ reason => inl (protocol_fault (authorize_reason reason) None)
              (** the cleared ledger is discarded: only the bridge's acceptance clears *)
              | mutation_allowed _ clearedHoldIds => inr (ledger, clearedHoldIds)
              end)
      end
  end.

Definition with_prepared (r : GatewayRecoveryRecord) (ledger : MutationHoldLedger) (keepPlan : bool)
    (pending : GatewayRecoveryPendingDispatch) : GatewayRecoveryRecord :=
  with_plan (with_pending r ledger (Some pending)) (if keepPlan then rr_resolutionPlan r else None).

(** What an unauthorised target replies. *)
Definition target_reply (a : GatewayBridgeResumeAuthorization) (holdIds : list jstr) : jsnum + Reply :=
  match a with
  | authorized sessionVersion => inl sessionVersion
  | not_authorized reason => inr (blocked (js "dispatch_target_" ++ reason) holdIds)
  | authorization_unavailable message => inr (unavailable ProtocolStore.unavailable message)
  end.


(** The confirmation of the input, checked by the confirmation authority if there is one. *)
Definition confirmation_validation (confirmationAuthority : bool) (input : PrepareMutation) (confirmationAtMs : jsnum) (stored : Snapshot)
  : result js_error (option Confirmation.GatewayConfirmationValidationResult * list ProtocolStore.StoreWrite) :=
  match pm_confirmationProof input with
  | Some proof =>
      if confirmationAuthority then
        outcome ← Confirmation.validatePendingAction (sn_read stored) proof confirmationAtMs;
        Ok (Some outcome.1, outcome.2)
      else Ok (None, [])
  | None => Ok (None, [])
  end.

(** The writes that consume the confirmation, or the reply that stops the dispatch. *)
Definition consume_confirmation (validation : option Confirmation.GatewayConfirmationValidationResult) (confirmedPolicyId : option jstr)
    (derived : DerivedEnvelope) (confirmationAtMs : jsnum) : result js_error (Reply + list ProtocolStore.StoreWrite) :=
  match validation with
  | Some (Confirmation.validated action storedVersion key) =>
      if is_null confirmedPolicyId || (Some (Confirmation.cf_confirmationId action) !== confirmedPolicyId)
      then Ok (inl (protocolFault "confirmation_policy_binding_mismatch")) else
      consumed ← Confirmation.stageConsumption action storedVersion key (dv_correlationId derived) confirmationAtMs;
      Ok (inr consumed.2)
  | _ => Ok (inr [])
  end.

(** The dispatch once the confirmation stands. *)
Definition prepare_mutation (input : PrepareMutation) (derived : DerivedEnvelope) (confirmedPolicyId : option jstr)
    (validation : option Confirmation.GatewayConfirmationValidationResult) (confirmationAtMs : jsnum) : body := λ stored,
  record ← load stored (en_rsid (dv_envelope derived));
  match invocationWindowFault record (pm_attemptId input) with
  | Some fault => replies (protocol_fault fault None)
  | None =>
  retained ← lift (classifyRetainedIdentity readEnvelope record derived);
  match retained_reply retained (pm_sessionBindingId input) (pm_connectionId input) with
  | Some reply => replies reply
  | None =>
  match rr_pendingDispatch record with
  | Some pending => replies (blocked (js "dispatch_in_flight") (pd_recoveryHoldIds pending))
  | None =>
  passed ← lift (pass_holds record derived);
  match passed with
  | inl reply => replies reply
  | inr (ledger, recoveryHoldIds) =>
  authorization ← authorizeDispatchTarget derived (pm_sessionBindingId input) (pm_connectionId input) false;
  match target_reply authorization recoveryHoldIds with
  | inr reply => replies reply
  | inl sessionVersion =>
  preparedAtMs ← await r_clock;
  pending ← lift (makePending readEnvelope readBatch pending_mutation derived (pm_sessionBindingId input) (pm_connectionId input)
                    sessionVersion recoveryHoldIds None false None preparedAtMs);
  consumed ← lift (consume_confirmation validation confirmedPolicyId derived confirmationAtMs);
  match consumed with
  | inl reply => replies reply
  | inr writes =>
  let keepPlan := (length (conflictingMutationHolds (rr_ledger record) (rr_rsid record)
                             (map me_mutationScope (dv_mutationEntries derived))) =? 0)%nat in
  mret (prepared pending, {| st_record := Some (with_prepared record ledger keepPlan pending); st_confirmation := writes |})
  end end end end end end.

(** What was staged before a step, with what the step stages. *)
Definition after_writes (writes : list ProtocolStore.StoreWrite) (outcome : Reply * Staged) : Reply * Staged :=
  (outcome.1, {| st_record := st_record outcome.2; st_confirmation := writes ++ st_confirmation outcome.2 |}).

Definition prepare_confirmed (confirmationAuthority : bool) (input : PrepareMutation) (derived : DerivedEnvelope) (confirmedPolicyId : option jstr) (confirmationAtMs : jsnum) : body := λ stored,
  validation ← lift (confirmation_validation confirmationAuthority input confirmationAtMs stored);
  outcome ←
    (if negb (is_null (pm_confirmationProof input)) && negb confirmationAuthority
     then replies (unavailable ProtocolStore.not_implemented (js "durable confirmation authority is not configured")) else
     match validation.1 with
     | Some (Confirmation.rejected reason confirmationId pendingAction) =>
         replies (confirmation_rejected reason confirmationId pendingAction)
     | _ => prepare_mutation input derived confirmedPolicyId validation.1 confirmationAtMs stored
     end);
  mret (after_writes validation.2 outcome).

Definition prepareMutationDispatch (confirmationAuthority : bool) (input : PrepareMutation) : program Reply :=
  checked (prepare_mutation_check confirmationAuthority input) (λ checks,
  let derived := checks.1 in
  confirmationAtMs ← await r_clock;
  transact (pm_tenantId input) (en_rsid (dv_envelope derived)) (prepare_confirmed confirmationAuthority input derived checks.2 confirmationAtMs)).

(** ** Resuming *)

Definition check_target (sessionBindingId connectionId : jstr) : result js_error unit :=
  assertBoundedString sessionBindingId "sessionBindingId" 512 ;; assertBoundedString connectionId "connectionId" 512.

Definition resume_pending (rsid sessionBindingId connectionId : jstr) : body := λ stored,
  record ← load stored rsid;
  match rr_pendingDispatch record with
  | None => replies nothing_pending
  | Some pending =>
  if pd_sessionBindingId pending !== sessionBindingId then faults "session_binding_mismatch" else
  derived ← lift (deriveEnvelope readEnvelope (pd_envelope pending) (Some rsid));
  authorization ← authorizeDispatchTarget derived (pd_sessionBindingId pending) connectionId true;
  match authorization with
  | authorization_unavailable message => replies (unavailable ProtocolStore.unavailable message)
  | not_authorized reason => replies (resume_blocked (js "resume_target_" ++ reason))
  | authorized sessionVersion =>
  if num_Z sessionVersion <? num_Z (pd_authorizedSessionVersion pending)
  then replies (resume_blocked (js "resume_session_version_regression")) else
  if negb (is_null (pd_bridgeAcceptance pending)) then replies already_accepted else
  let dispatch := redirect pending connectionId sessionVersion in
  mret (retransmit dispatch, stageRecord (with_pending record (rr_ledger record) (Some dispatch)))
  end end.

Definition resumePendingDispatch (tenantId rsid sessionBindingId connectionId : jstr) : program Reply :=
  checked (check_scope tenantId rsid ;; check_target sessionBindingId connectionId) (λ _, transact tenantId rsid (resume_pending rsid sessionBindingId connectionId)).

(** ** Redelivering an origin *)

Record OriginRedelivery := {
  or_tenantId : jstr; or_attemptId : jstr; or_rsid : jstr; or_idempotencyKey : jstr; or_sessionBindingId : jstr;
  or_connectionId : jstr; or_envelope : jsval; or_expected : GatewayExpectedMutationDispatch }.

Definition origin_redelivery_check (input : OriginRedelivery) : result js_error DerivedEnvelope :=
  assertBoundedString (or_tenantId input) "tenantId" 512 ;;
  check_attempt (or_attemptId input) ;;
  assertBoundedString (or_rsid input) "rsid" 512 ;;
  assertBoundedString (or_idempotencyKey input) "idempotencyKey" 1024 ;;
  check_target (or_sessionBindingId input) (or_connectionId input) ;;
  reject_if (negb (starts_with (or_rsid input ++ js "/") (or_idempotencyKey input))) TypeError "origin key has the wrong rsid" ;;
  redelivery ← deriveEnvelope readEnvelope (or_envelope input) (Some (or_rsid input));
  exact ← (if (length (dv_mutationEntries redelivery) =? 0)%nat || negb (is_null (dv_verificationHoldId redelivery)) then Ok false
           else authored (or_expected input) redelivery);
  reject_if (negb exact) TypeError "origin redelivery is not server-authorized" ;;
  Ok redelivery.

(** A new frame of the same payload. *)
Definition redelivers (redelivery origin : DerivedEnvelope) : result js_error bool :=
  if (envelope_type (dv_envelope redelivery) !== envelope_type (dv_envelope origin)) ||
     (en_id (dv_envelope redelivery) === en_id (dv_envelope origin)) ||
     (num_Z (en_seq (dv_envelope redelivery)) <=? num_Z (en_seq (dv_envelope origin))) ||
     (dv_digest redelivery === dv_digest origin)
  then Ok false else
  payload ← sameValue (en_body (dv_envelope redelivery)) (en_body (dv_envelope origin));
  if negb payload then Ok false else
  sameValue (VArr (map binding_value (dv_bindings redelivery))) (VArr (map binding_value (dv_bindings origin))).

Definition origin_history (record : GatewayRecoveryRecord) (idempotencyKey : jstr) : option GatewayRecoveryDispatchHistory :=
  find_first (λ candidate, (hi_status candidate === history_indeterminate) &&
    existsb (λ entry, me_idempotencyKey entry === idempotencyKey) (hi_mutationEntries candidate)) (rev (rr_dispatchHistory record)).

(** The holds in the way are those of the origin itself. *)
Definition exact_origin (record : GatewayRecoveryRecord) (rsid : jstr) (history : GatewayRecoveryDispatchHistory)
    (conflicts : list MutationHold) : bool :=
  negb (length conflicts =? 0)%nat && (map mh_holdId conflicts === hi_holdIds history) &&
  forallb (λ hold, forallb (λ originKey,
    match find_first (λ entry, me_idempotencyKey entry === originKey) (hi_mutationEntries history) with
    | Some originEntry =>
        mutationScopesConflict (me_mutationScope originEntry) (mh_mutationScope hold) &&
        isOriginRedeliveryExempt (rr_ledger record) rsid originKey
    | None => false
    end) (mh_originIdempotencyKeys hold)) conflicts.

Definition redeliver_origin (input : OriginRedelivery) (redelivery : DerivedEnvelope) : body := λ stored,
  record ← load stored (or_rsid input);
  match invocationWindowFault record (or_attemptId input) with
  | Some fault => replies (protocol_fault fault None)
  | None =>
  match origin_history record (or_idempotencyKey input) with
  | None => faults "origin_not_retained"
  | Some history =>
  origin ← lift (deriveEnvelope readEnvelope (hi_envelope history) (Some (or_rsid input)));
  same ← lift (redelivers redelivery origin);
  if negb same then faults "origin_redelivery_binding_mismatch" else
  if hi_sessionBindingId history !== or_sessionBindingId input then faults "session_binding_mismatch" else
  match rr_pendingDispatch record with
  | Some pending =>
      replies (if (pd_envelopeDigest pending === dv_digest redelivery) && (pd_sessionBindingId pending === or_sessionBindingId input) &&
                  (pd_preparedConnectionId pending === or_connectionId input)
               then already_prepared pending else blocked (js "dispatch_in_flight") (pd_recoveryHoldIds pending))
  | None =>
  authorization ← authorizeDispatchTarget redelivery (hi_sessionBindingId history) (or_connectionId input) false;
  match target_reply authorization (hi_holdIds history) with
  | inr reply => replies reply
  | inl sessionVersion =>
  let conflicts := conflictingMutationHolds (rr_ledger record) (or_rsid input) (map me_mutationScope (dv_mutationEntries redelivery)) in
  if negb (exact_origin record (or_rsid input) history conflicts)
  then replies (blocked (js "origin_binding_mismatch") (map mh_holdId conflicts)) else
  preparedAtMs ← await r_clock;
  pending ← lift (makePending readEnvelope readBatch pending_mutation redelivery (or_sessionBindingId input) (or_connectionId input)
                    sessionVersion (hi_holdIds history) None true (Some (hi_journalRecords history)) preparedAtMs);
  mret (prepared pending, stageRecord (with_pending record (rr_ledger record) (Some pending)))
  end end end end.

Definition prepareOriginRedelivery (input : OriginRedelivery) : program Reply :=
  checked (origin_redelivery_check input) (λ redelivery, transact (or_tenantId input) (or_rsid input) (redeliver_origin input redelivery)).

(** ** Preparing a verification *)

Record PrepareVerification := {
  pv_tenantId : jstr; pv_attemptId : jstr; pv_sessionBindingId : jstr; pv_connectionId : jstr; pv_envelope : jsval;
  pv_expected : GatewayExpectedVerificationDispatch }.

(** The envelope's own verification, which a correlated read has. *)
Definition verification_of (e : DispatchEnvelope) : option Verification :=
  match en_payload e with payload_invoke p => iv_verification p | payload_batch _ _ _ _ _ _ => None end.

Definition prepare_verification_check (input : PrepareVerification) : result js_error DerivedEnvelope :=
  assertBoundedString (pv_tenantId input) "tenantId" 512 ;;
  check_attempt (pv_attemptId input) ;;
  check_target (pv_sessionBindingId input) (pv_connectionId input) ;;
  derived ← deriveEnvelope readEnvelope (pv_envelope input) None;
  reject_if (is_batch (dv_envelope derived) || negb (length (dv_mutationEntries derived) =? 0)%nat ||
             is_null (dv_verificationHoldId derived) || negb (length (dv_clearances derived) =? 0)%nat) TypeError
    "verification dispatch must be one correlated read" ;;
  differs ←
    match dv_bindings derived with
    | [binding] =>
        if (ev_rsid (pv_expected input) !== en_rsid (dv_envelope derived)) ||
           (ev_invocationId (pv_expected input) !== dv_correlationId derived) then Ok true
        else some_digest_differs [ev_binding (pv_expected input)] [binding]
    | _ => Ok true
    end;
  reject_if differs TypeError "verification envelope is not bound to server-authored dispatch authority" ;;
  Ok derived.

Fixpoint verified_hold (rsid : jstr) (verification : Verification) (ledger : MutationHoldLedger) : result js_error (option MutationHold) :=
  match ledger with
  | [] => Ok None
  | candidate :: ledger =>
      found ← (if (mh_holdId candidate === vf_hold_id verification) && (mh_rsid candidate === rsid)
               then key ← mutationScopeKey (vf_mutation_scope verification); Ok (mh_scopeKey candidate === key) else Ok false);
      if (found : bool) then Ok (Some candidate) else verified_hold rsid verification ledger
  end.

Definition prepare_verification (input : PrepareVerification) (derived : DerivedEnvelope) (verification : Verification) : body := λ stored,
  let holdId := vf_hold_id verification in
  record ← load stored (en_rsid (dv_envelope derived));
  match invocationWindowFault record (pv_attemptId input) with
  | Some fault => replies (protocol_fault fault None)
  | None =>
  retained ← lift (classifyRetainedIdentity readEnvelope record derived);
  match retained_reply retained (pv_sessionBindingId input) (pv_connectionId input) with
  | Some reply => replies reply
  | None =>
  match rr_pendingDispatch record with
  | Some pending => replies (blocked (js "dispatch_in_flight") (pd_recoveryHoldIds pending))
  | None =>
  if negb (is_null (rr_resolutionPlan record)) then faults "resolution_plan_pending" else
  hold ← lift (verified_hold (rr_rsid record) verification (rr_ledger record));
  if match hold with Some hold => takes_no_evidence hold | None => true end
  then replies (blocked (js "verification_hold_invalid") [holdId]) else
  authorization ← authorizeDispatchTarget derived (pv_sessionBindingId input) (pv_connectionId input) false;
  match target_reply authorization [holdId] with
  | inr reply => replies reply
  | inl sessionVersion =>
  preparedAtMs ← await r_clock;
  pending ← lift (makePending readEnvelope readBatch pending_verification derived (pv_sessionBindingId input) (pv_connectionId input)
                    sessionVersion [] (Some holdId) false None preparedAtMs);
  mret (prepared pending, stageRecord (with_pending record (rr_ledger record) (Some pending)))
  end end end end.

Definition prepareVerificationDispatch (input : PrepareVerification) : program Reply :=
  checked (prepare_verification_check input) (λ derived,
  match verification_of (dv_envelope derived) with
  | None => invalid_input
  | Some verification =>
  transact (pv_tenantId input) (en_rsid (dv_envelope derived)) (prepare_verification input derived verification)
  end).

(** ** Reconciling *)

Definition check_digest (tenantId rsid envelopeDigest : jstr) : result js_error unit :=
  check_scope tenantId rsid ;; reject_if (negb (sha256_pattern envelopeDigest)) TypeError "invalid digest".

(** Nothing is pending: the history of the dispatch answers. *)
Definition reconcile_settled (record : GatewayRecoveryRecord) (rsid envelopeDigest : jstr) : result js_error Reply :=
  match find_first (λ candidate, hi_envelopeDigest candidate === envelopeDigest) (rr_dispatchHistory record) with
  | None => Ok (rejected (js "pending_dispatch_mismatch"))
  | Some history =>
      acceptedClearanceIds ←
        match hi_bridgeAcceptance history with
        | None => Ok []
        | Some _ =>
            derived ← deriveEnvelope readEnvelope (hi_envelope history) (Some rsid);
            Ok (map (λ c, rc_hold_id (wc_clearance c)) (dv_clearances derived))
        end;
      Ok (match hi_status history with
          | history_terminal => terminal_recorded acceptedClearanceIds (hi_journalRecords history) (hi_batchTerminal history)
          | history_indeterminate => indeterminate_recorded (hi_holdIds history) acceptedClearanceIds
          end)
  end.

(** What the bridge durably knows of the pending dispatch, or the reply. *)
Definition inspect_dispatch (tenantId : jstr) (pending : GatewayRecoveryPendingDispatch)
  : program (Reply + GatewayDurableDispatchObservation) :=
  lookup ← try_with
    (expected ← lift (expectedDispatchBinding readEnvelope pending);
     await (r_inspectDispatch expected))
    (λ e, mret (lookup_unavailable ProtocolStore.unavailable (err_message e)));
  mret match lookup with
       | not_durable_yet => inl reconcile_pending
       | lookup_protocol_fault reason => inl (protocol_fault (js "bridge_evidence_" ++ reason) None)
       | lookup_unavailable code message => inl (unavailable code message)
       | lookup_found observation =>
           match assertObservationIntegrity readEnvelope readBatch observation pending tenantId with
           | Throw _ => inl (protocolFault "bridge_evidence_binding_mismatch")
           | Ok _ => inr observation
           end
       end.

(** The fault of the evidence against what is retained. *)
Definition attestation_fault (record : GatewayRecoveryRecord) (pending : GatewayRecoveryPendingDispatch) (rsid : jstr)
    (evidence : option GatewayVerifiedBridgeJournalEvidence) : result js_error (option jstr) :=
  match evidence with
  | None => Ok None
  | Some evidence =>
      fault ← retainedJournalAttestationFault (rr_dispatchHistory record) pending rsid evidence;
      match fault with
      | Some fault => Ok (Some fault)
      | None => pendingJournalAttestationFault pending rsid evidence
      end
  end.

Definition acceptance_differs (pending : GatewayRecoveryPendingDispatch) (observed : option GatewayBridgeCumulativeAckReceipt)
  : result js_error bool :=
  match pd_bridgeAcceptance pending, observed with
  | Some retained, Some observed => same ← sameValue (receipt_value retained) (receipt_value observed); Ok (negb same)
  | _, _ => Ok false
  end.

Definition either {A} (a b : option A) : option A := match a with Some _ => a | None => b end.

(** The acceptance clears the holds the dispatch went past: the ledger and their ids. *)
Definition clear_accepted (record : GatewayRecoveryRecord) (pending : GatewayRecoveryPendingDispatch)
    (acceptance : option GatewayBridgeCumulativeAckReceipt) : result js_error (Reply + MutationHoldLedger * list jstr) :=
  if negb (is_null acceptance) && negb (length (pd_recoveryHoldIds pending) =? 0)%nat && negb (pd_originRedelivery pending) then
    authorization ← authorizeMutationDispatch (rr_ledger record) {|
      ai_rsid := rr_rsid record; ai_mutationScopes := map me_mutationScope (pd_mutationEntries pending);
      ai_recoveryClearances := map wc_clearance (pd_recoveryClearances pending);
      ai_dispatchIdentity := pd_envelopeDigest pending |};
    Ok (match authorization with
        | mutation_allowed ledger clearedHoldIds =>
            if clearedHoldIds === pd_recoveryHoldIds pending then inr (ledger, clearedHoldIds)
            else inl (protocolFault "stale_bridge_acceptance_authorization")
        | authorize_fault _ reason => inl (protocol_fault (authorize_reason reason) None)
        | mutation_blocked _ _ => inl (protocolFault "stale_bridge_acceptance_authorization")
        end)
  else Ok (inr (rr_ledger record, [])).

(** A reconciliation that has its evidence: the ledger is the one the acceptance left. *)
Record Reconciled := {
  rn_rsid : jstr; rn_record : GatewayRecoveryRecord; rn_pending : GatewayRecoveryPendingDispatch; rn_ledger : MutationHoldLedger;
  rn_cleared : list jstr; rn_acceptance : option GatewayBridgeCumulativeAckReceipt;
  rn_evidence : GatewayVerifiedBridgeJournalEvidence }.

Definition rn_accepted (n : Reconciled) : GatewayRecoveryPendingDispatch :=
  with_observation (rn_pending n) (rn_acceptance n) (Some (rn_evidence n)).

(** The dispatch ends with a history. *)
Definition record_history (n : Reconciled) (ledger : MutationHoldLedger) (pending : option GatewayRecoveryPendingDispatch)
    (status : history_status) (batchTerminal : option GatewayDurableBatchTerminal) (holdIds : list jstr)
    (acceptance : option GatewayBridgeCumulativeAckReceipt) (reply : Reply) : program (Reply * Staged) :=
  recordedAtMs ← await r_clock;
  let history := settled status (rn_pending n) (rn_evidence n) batchTerminal holdIds acceptance recordedAtMs in
  lift (assertHistoryIntegrity readEnvelope readBatch history (rn_rsid n) None) ;;
  mret (reply, stageRecord (with_histories (rn_record n) ledger pending (historyWith (rr_dispatchHistory (rn_record n)) history))).

Definition reconcile_no_send (n : Reconciled) : program (Reply * Staged) :=
  if pd_originRedelivery (rn_pending n) then faults "origin_redelivery_no_send_not_authoritative" else
  record_history n (rn_ledger n) None history_terminal None (pd_recoveryHoldIds (rn_pending n)) None
    (terminal_recorded [] (je_journalRecords (rn_evidence n)) None).

Definition reconcile_terminal (n : Reconciled) : program (Reply * Staged) :=
  match rn_acceptance n with
  | None =>
      same ← lift (sameValue (pending_value (rn_accepted n)) (pending_value (rn_pending n)));
      if (same : bool) then replies reconcile_pending else
      mret (reconcile_pending, stageRecord (with_pending (rn_record n) (rn_ledger n) (Some (rn_accepted n))))
  | Some _ =>
      record_history n (rn_ledger n) None history_terminal (je_batchTerminal (rn_evidence n)) (pd_recoveryHoldIds (rn_pending n))
        (rn_acceptance n)
        (terminal_recorded (rn_cleared n) (je_journalRecords (rn_evidence n)) (je_batchTerminal (rn_evidence n)))
  end.

(** The history a late outcome belongs to: for a redelivery, the latest of its origin. *)
Definition late_origin (pending : GatewayRecoveryPendingDispatch) (histories : list GatewayRecoveryDispatchHistory) : option nat :=
  if pd_originRedelivery pending then
    reverseHistoryIndex ← find_index (λ candidate,
      (hi_status candidate === history_indeterminate) && (hi_holdIds candidate === pd_recoveryHoldIds pending) &&
      forallb (λ entry, existsb (λ origin, (me_idempotencyKey origin === me_idempotencyKey entry) &&
                                           (me_journalBindingDigest origin === me_journalBindingDigest entry))
                          (hi_mutationEntries candidate)) (pd_mutationEntries pending)) (rev histories);
    Some (length histories - 1 - reverseHistoryIndex)%nat
  else find_index (λ candidate, hi_envelopeDigest candidate === pd_envelopeDigest pending) histories.

Definition reconcile_late (n : Reconciled) : program (Reply * Staged) :=
  let histories := rr_dispatchHistory (rn_record n) in
  match (index ← late_origin (rn_pending n) histories; history ← histories !! index;
         if hi_status history === history_indeterminate then Some (index, history) else None) with
  | None => faults "late_terminal_origin_not_retained"
  | Some (index, history) =>
      recordedAtMs ← await r_clock;
      let updatedHistory := with_late_evidence history (rn_evidence n)
        (if pd_originRedelivery (rn_pending n) then hi_bridgeAcceptance history
         else either (rn_acceptance n) (hi_bridgeAcceptance history)) recordedAtMs in
      lift (assertHistoryIntegrity readEnvelope readBatch updatedHistory (rn_rsid n) None) ;;
      mret (indeterminate_recorded (hi_holdIds history) (rn_cleared n),
            stageRecord (with_histories (rn_record n) (rn_ledger n)
              (if is_null (rn_acceptance n) then Some (rn_accepted n) else None) (<[index := updatedHistory]> histories)))
  end.

(** [journalsByDigest.get(digest)]: of journals with one digest the last is kept. *)
Definition journal_by_digest (records : list InvocationJournalRecord) (digest : jstr) : option InvocationJournalRecord :=
  find_first (λ journal, jr_bindingDigest journal === digest) (rev records).

Definition is_indeterminate (journal : option InvocationJournalRecord) : bool :=
  match journal with Some j => jr_state j === indeterminate | None => false end.

Definition uncertain_mutation (entry : GatewayRecoveryMutationEntry) : UncertainMutation := {|
  um_originIdempotencyKey := me_idempotencyKey entry; um_mutationScope := me_mutationScope entry |}.

(** The entries whose effect is unknown: of an atomic batch, all. *)
Definition uncertain_entries (atomicBatch : bool) (evidence : GatewayVerifiedBridgeJournalEvidence)
    (entries : list GatewayRecoveryMutationEntry) : list GatewayRecoveryMutationEntry :=
  if atomicBatch then entries else
  List.filter (λ entry, is_indeterminate (journal_by_digest (je_journalRecords evidence) (me_journalBindingDigest entry))) entries.

(** The holds on the uncertain entries: those there are, or new ones. *)
Definition hold_uncertain (n : Reconciled) (uncertain : list UncertainMutation) : result js_error (Reply + MutationHoldLedger * list jstr) :=
  let ledger := rn_ledger n in
  let pending := rn_pending n in
  let retainsPreAckResolution := negb (length (pd_recoveryHoldIds pending) =? 0)%nat && is_null (rn_acceptance n) in
  if pd_originRedelivery pending then
    Ok (inr (ledger, sortedUnique (map mh_holdId (conflictingMutationHolds ledger (rn_rsid n) (map um_mutationScope uncertain)))))
  else if retainsPreAckResolution then Ok (inr (ledger, pd_recoveryHoldIds pending))
  else
    installed ← installMutationHolds ledger (rn_rsid n) uncertain;
    Ok (match installed with
        | install_blocked _ conflictingHolds =>
            if forallb (λ entry, isOriginRedeliveryExempt ledger (rn_rsid n) (um_originIdempotencyKey entry)) uncertain
            then inr (ledger, sortedUnique (map mh_holdId conflictingHolds))
            else inl (protocolFault "indeterminate_conflicts_with_existing_hold")
        | holds_installed ledger holds | holds_already_present ledger holds =>
            inr (ledger, sort_by str_leb (map mh_holdId holds))
        end).

(** A journal that names another hold than the ledger has for its entry. *)
Definition misreported (rsid : jstr) (ledger : MutationHoldLedger) (evidence : GatewayVerifiedBridgeJournalEvidence)
    (entry : GatewayRecoveryMutationEntry) : bool :=
  let journal := journal_by_digest (je_journalRecords evidence) (me_journalBindingDigest entry) in
  match find_first (λ hold, (mh_rsid hold === rsid) && bool_decide (me_idempotencyKey entry ∈ mh_originIdempotencyKeys hold) &&
                            mutationScopesConflict (mh_mutationScope hold) (me_mutationScope entry)) ledger with
  | None => true
  | Some expected => (journal ≫= jr_verificationHoldId) !== Some (mh_holdId expected)
  end.

Definition reconcile_indeterminate (n : Reconciled) : program (Reply * Staged) :=
  let pending := rn_pending n in
  derived ← lift (deriveEnvelope readEnvelope (pd_envelope pending) (Some (rn_rsid n)));
  let atomicBatch := requiredSessionCapabilities derived in
  let entries := uncertain_entries atomicBatch (rn_evidence n) (pd_mutationEntries pending) in
  if (length entries =? 0)%nat then faults "indeterminate_mutation_missing" else
  held ← lift (hold_uncertain n (map uncertain_mutation entries));
  match held with
  | inl reply => replies reply
  | inr (ledger, installedHoldIds) =>
      let unknownMember := atomicBatch && existsb (λ entry,
        negb (is_indeterminate (journal_by_digest (je_journalRecords (rn_evidence n)) (me_journalBindingDigest entry))))
        (pd_mutationEntries pending) in
      let reportedMismatch := unknownMember || existsb (misreported (rn_rsid n) ledger (rn_evidence n)) entries in
      record_history n ledger (if is_null (rn_acceptance n) then Some (rn_accepted n) else None) history_indeterminate
        (je_batchTerminal (rn_evidence n)) installedHoldIds (rn_acceptance n)
        (if reportedMismatch
         then protocol_fault (js (if atomicBatch then "atomic_indeterminate_member_mismatch" else "reported_hold_id_mismatch"))
                (Some installedHoldIds)
         else indeterminate_recorded installedHoldIds (rn_cleared n))
  end.

Definition reconcile_verification (n : Reconciled) : program (Reply * Staged) :=
  if je_kind (rn_evidence n) !== known_terminal then faults "verification_evidence_not_terminal" else
  mret (verification_evidence_ready (rn_cleared n), stageRecord (with_pending (rn_record n) (rn_ledger n) (Some (rn_accepted n)))).

(** What the evidence says is recorded. *)
Definition reconcile_evidence (n : Reconciled) (noSend : option GatewayBridgeNoSendReceipt) : program (Reply * Staged) :=
  if negb (is_null noSend) then reconcile_no_send n else
  if pd_originRedelivery (rn_pending n) && (je_kind (rn_evidence n) === known_terminal)
  then faults "origin_redelivery_terminal_must_be_late" else
  match pd_kind (rn_pending n) with
  | pending_verification => reconcile_verification n
  | pending_mutation =>
      match je_kind (rn_evidence n) with
      | known_terminal => reconcile_terminal n
      | late_terminal_outcome => reconcile_late n
      | indeterminate_outcome => reconcile_indeterminate n
      end
  end.

(** No evidence yet: an acceptance that is new is kept. *)
Definition reconcile_accepted_only (record : GatewayRecoveryRecord) (pending : GatewayRecoveryPendingDispatch)
    (ledger : MutationHoldLedger) (cleared : list jstr) (acceptance : option GatewayBridgeCumulativeAckReceipt) : Reply * Staged :=
  (match acceptance with None => reconcile_pending | Some _ => reconcile_accepted cleared end,
   if negb (is_null acceptance) && is_null (pd_bridgeAcceptance pending)
   then stageRecord (with_pending record ledger (Some (with_observation pending acceptance None))) else no_writes).

Definition reconcile_pending_dispatch (tenantId rsid envelopeDigest : jstr) : body := λ stored,
  record ← load stored rsid;
  match rr_pendingDispatch record with
  | None => reply ← lift (reconcile_settled record rsid envelopeDigest); replies reply
  | Some pending =>
  if pd_envelopeDigest pending !== envelopeDigest then replies (rejected (js "pending_dispatch_mismatch")) else
  inspected ← inspect_dispatch tenantId pending;
  match inspected with
  | inl reply => replies reply
  | inr observation =>
  fault ← lift (attestation_fault record pending rsid (ob_journal observation));
  match fault with
  | Some fault => replies (protocol_fault fault None)
  | None =>
  differs ← lift (acceptance_differs pending (ob_acceptance observation));
  if (differs : bool) then faults "different_bridge_acceptance" else
  let acceptance := either (ob_acceptance observation) (pd_bridgeAcceptance pending) in
  cleared ← lift (clear_accepted record pending acceptance);
  match cleared with
  | inl reply => replies reply
  | inr (ledger, clearedHoldIds) =>
  match either (ob_journal observation) (journalEvidenceFromPending pending rsid) with
  | None => mret (reconcile_accepted_only record pending ledger clearedHoldIds acceptance)
  | Some evidence =>
      reconcile_evidence {|
        rn_rsid := rsid; rn_record := record; rn_pending := pending; rn_ledger := ledger; rn_cleared := clearedHoldIds;
        rn_acceptance := acceptance; rn_evidence := evidence |} (ob_noSend observation)
  end end end end end.

Definition reconcilePendingDispatch (tenantId rsid envelopeDigest : jstr) : program Reply :=
  checked (check_digest tenantId rsid envelopeDigest) (λ _, transact tenantId rsid (reconcile_pending_dispatch tenantId rsid envelopeDigest)).

(** ** Evidence *)

Definition evidence_reason (r : EvidenceRejection) : jstr :=
  match r with
  | foreign_hold => js "foreign_hold" | scope_mismatch => js "scope_mismatch" | origin_mismatch => js "origin_mismatch"
  | evidence_invalid_state => js "invalid_state" | journal_binding_mismatch => js "journal_binding_mismatch"
  | evidence_journal_integrity => js "journal_integrity_mismatch" | journal_state_mismatch => js "journal_state_mismatch"
  | evidence_digest_mismatch => js "evidence_digest_mismatch"
  end.

(** The ledger and the reply of a protocol evidence function, or the rejection. *)
Definition evidence_reply (r : RecordHoldEvidenceResult) : Reply + MutationHoldLedger * Reply :=
  match r with
  | MutationHold.evidence_rejected _ reason => inl (rejected (evidence_reason reason))
  | MutationHold.evidence_recorded ledger hold => inr (ledger, evidence_recorded hold)
  | MutationHold.inconclusive_recorded ledger hold => inr (ledger, inconclusive_recorded hold)
  end.

Definition with_evidence (r : GatewayRecoveryRecord) (ledger : MutationHoldLedger) (audit : GatewayRecoveryEvidenceDecisionAudit)
    (pending : option GatewayRecoveryPendingDispatch) (histories : list GatewayRecoveryDispatchHistory) : GatewayRecoveryRecord :=
  with_histories (with_decision r audit) ledger pending histories.

(** The pending verification that the bridge accepted and ended: its hold, its payload,
    its acceptance, its journal and their attestation, or the reply. *)
Definition accepted_verification (record : GatewayRecoveryRecord) (envelopeDigest : jstr)
  : jstr + GatewayRecoveryPendingDispatch * jstr * InvokePayload * GatewayBridgeCumulativeAckReceipt *
           InvocationJournalRecord * GatewayRecoveryJournalAttestation :=
  let not_found := inl (js "accepted_verification_not_found") in
  match rr_pendingDispatch record with
  | None => not_found
  | Some pending =>
  match pd_verificationHoldId pending, readEnvelope (pd_envelope pending) with
  | Some holdId, Some {| en_payload := payload_invoke payload |} =>
      if (pd_kind pending !== pending_verification) || (pd_envelopeDigest pending !== envelopeDigest) then not_found else
      match pd_bridgeAcceptance pending, pd_journalAttestation pending, pd_journalRecords pending with
      | Some acceptance, Some attestation, [journal] =>
          if ja_kind attestation !== known_terminal then inl (js "verification_evidence_not_durable")
          else inr (pending, holdId, payload, acceptance, journal, attestation)
      | _, _, _ => inl (js "verification_evidence_not_durable")
      end
  | _, _ => not_found
  end
  end.

(** The history of a verification whose evidence is recorded. *)
Definition verification_history (pending : GatewayRecoveryPendingDispatch) (holdId : jstr) (journal : InvocationJournalRecord)
    (evidence : GatewayVerifiedBridgeJournalEvidence) (acceptance : GatewayBridgeCumulativeAckReceipt) (recordedAtMs : jsnum)
  : GatewayRecoveryDispatchHistory := {|
  hi_status := history_terminal; hi_envelope := pd_envelope pending; hi_envelopeDigest := pd_envelopeDigest pending;
  hi_sessionBindingId := pd_sessionBindingId pending; hi_authorizedSessionVersion := pd_authorizedSessionVersion pending;
  hi_batchAtomic := pd_batchAtomic pending; hi_mutationEntries := []; hi_journalRecords := [journal]; hi_batchTerminal := None;
  hi_journalAttestation := journalAttestation evidence; hi_holdIds := [holdId]; hi_bridgeAcceptance := Some acceptance;
  hi_recordedAtMs := recordedAtMs |}.

Definition record_verification (rsid envelopeDigest : jstr) : body := λ stored,
  record ← load stored rsid;
  match accepted_verification record envelopeDigest with
  | inl reason => replies (rejected reason)
  | inr (pending, holdId, payload, acceptance, journal, attestation) =>
  let evidence := attested_evidence rsid (pd_sessionBindingId pending) (pd_journalRecords pending) (pd_batchTerminal pending) attestation in
  derived ← lift (deriveEnvelope readEnvelope (pd_envelope pending) (Some rsid));
  if negb (is_ok (assertJournalBindings [journal] (dv_bindings derived)))
  then replies (rejected (js "journal_binding_mismatch")) else
  match jr_terminalOutcome journal ≫= to_resultDigest with
  | None => replies (rejected (js "journal_result_digest_missing"))
  | Some evidenceDigest =>
  match iv_verification payload with
  | None => lift (throw TypeError "Cannot read properties of null")
  | Some verification =>
  decision ← authorizeEvidenceDecision {|
    ec_rsid := rsid; ec_holdId := holdId; ec_mutationScope := vf_mutation_scope verification; ec_basis := verification_read;
    ec_verificationInvocationId := Some (iv_invocation_id payload); ec_originIdempotencyKey := None;
    ec_evidenceDigest := evidenceDigest; ec_journalRecord := journal |};
  match decision with
  | decision_unanswered message => replies (unavailable ProtocolStore.unavailable message)
  | decision_refused reason => replies (rejected reason)
  | decision_audited audit =>
  recorded ← lift (MutationHold.recordVerificationEvidence (rr_ledger record) {|
    ve_rsid := rsid; ve_holdId := holdId; ve_mutationScope := vf_mutation_scope verification;
    ve_verificationInvocationId := iv_invocation_id payload; ve_evidenceDigest := evidenceDigest;
    ve_conclusion := da_conclusion audit; ve_journalRecord := journal |});
  match evidence_reply recorded with
  | inl reply => replies reply
  | inr (ledger, reply) =>
  recordedAtMs ← await r_clock;
  let history := verification_history pending holdId journal evidence acceptance recordedAtMs in
  mret (reply, stageRecord (with_evidence record ledger audit None (historyWith (rr_dispatchHistory record) history)))
  end end end end end.

Definition recordVerificationEvidence (tenantId rsid envelopeDigest : jstr) : program Reply :=
  checked (check_digest tenantId rsid envelopeDigest) (λ _, transact tenantId rsid (record_verification rsid envelopeDigest)).

(** The journal of a late origin: the binding with the key, and the first journal with its digest. *)
Definition late_journal (rsid originIdempotencyKey : jstr) (history : GatewayRecoveryDispatchHistory)
  : result js_error (option InvocationJournalRecord) :=
  derived ← deriveEnvelope readEnvelope (hi_envelope history) (Some rsid);
  match find_first (λ binding, idempotency_key binding === originIdempotencyKey) (dv_bindings derived) with
  | None => Ok None
  | Some expectedBinding =>
      digest ← (match hi_journalRecords history with [] => Ok [] | _ => makeJournalBindingDigest expectedBinding end);
      Ok (match find_first (λ journal, jr_bindingDigest journal === digest) (hi_journalRecords history) with
          | Some journal =>
              if journalRecordIsIntact journal && negb (is_null (jr_lateTerminalOutcome journal ≫= to_resultDigest))
              then Some journal else None
          | None => None
          end)
  end.

Definition retains_origin (holdId originIdempotencyKey : jstr) (history : GatewayRecoveryDispatchHistory) : bool :=
  (hi_status history === history_indeterminate) && bool_decide (holdId ∈ hi_holdIds history) &&
  existsb (λ entry, me_idempotencyKey entry === originIdempotencyKey) (hi_mutationEntries history).

(** The loop from the latest history: [histories] are those before the ones that were tried. *)
Fixpoint select_late (rsid holdId originIdempotencyKey : jstr) (retainedOrigin : bool)
    (indexed : list (nat * GatewayRecoveryDispatchHistory))
  : result js_error (bool * option (nat * GatewayRecoveryDispatchHistory * InvocationJournalRecord)) :=
  match indexed with
  | [] => Ok (retainedOrigin, None)
  | (index, history) :: indexed =>
      if negb (retains_origin holdId originIdempotencyKey history)
      then select_late rsid holdId originIdempotencyKey retainedOrigin indexed else
      if ja_kind (hi_journalAttestation history) !== late_terminal_outcome
      then select_late rsid holdId originIdempotencyKey true indexed else
      journal ← late_journal rsid originIdempotencyKey history;
      match journal with
      | Some journal => Ok (true, Some (index, history, journal))
      | None => select_late rsid holdId originIdempotencyKey true indexed
      end
  end.

Definition is_conclusive (c : HoldEvidenceConclusion) : bool := match c with conclusive_evidence _ => true | _ => false end.

Definition replace_journal (journal : InvocationJournalRecord) (records : list InvocationJournalRecord) : list InvocationJournalRecord :=
  map (λ j, if jr_bindingDigest j === jr_bindingDigest journal then journal else j) records.

Definition record_late (rsid holdId originIdempotencyKey : jstr) : body := λ stored,
  record ← load stored rsid;
  if negb (is_null (rr_resolutionPlan record)) then replies (rejected (js "resolution_plan_pending")) else
  selected ← lift (select_late rsid holdId originIdempotencyKey false (rev (imap pair (rr_dispatchHistory record))));
  match selected with
  | (retainedOrigin, None) =>
      replies (rejected (js (if (retainedOrigin : bool) then "late_terminal_digest_missing" else "origin_dispatch_not_retained")))
  | (_, Some (index, history, journal)) =>
  match jr_lateTerminalOutcome journal ≫= to_resultDigest with
  | None => replies (rejected (js "late_terminal_digest_missing"))
  | Some evidenceDigest =>
  match findExactHold (rr_ledger record) rsid holdId with
  | None => replies (rejected (js "hold_not_found"))
  | Some hold =>
  decision ← authorizeEvidenceDecision {|
    ec_rsid := rsid; ec_holdId := holdId; ec_mutationScope := mh_mutationScope hold; ec_basis := late_terminal;
    ec_verificationInvocationId := None; ec_originIdempotencyKey := Some originIdempotencyKey;
    ec_evidenceDigest := evidenceDigest; ec_journalRecord := journal |};
  match decision with
  | decision_unanswered message => replies (unavailable ProtocolStore.unavailable message)
  | decision_refused reason => replies (rejected reason)
  | decision_audited audit =>
  if is_conclusive (da_conclusion audit) && negb (length (mh_originIdempotencyKeys hold) =? 1)%nat
  then replies (rejected (js "late_terminal_requires_single_origin_hold")) else
  recorded ← lift (MutationHold.recordLateTerminalEvidence (rr_ledger record) {|
    le_rsid := rsid; le_holdId := holdId; le_originIdempotencyKey := originIdempotencyKey;
    le_evidenceDigest := evidenceDigest; le_conclusion := da_conclusion audit; le_journalRecord := journal |});
  match evidence_reply recorded with
  | inl reply => replies reply
  | inr (ledger, reply) =>
  recordedAtMs ← await r_clock;
  let updatedHistory := with_journals history (replace_journal journal (hi_journalRecords history)) recordedAtMs in
  mret (reply, stageRecord (with_evidence record ledger audit (rr_pendingDispatch record)
                              (<[index := updatedHistory]> (rr_dispatchHistory record))))
  end end end end end.

Definition recordLateTerminalEvidence (tenantId rsid holdId originIdempotencyKey : jstr) : program Reply :=
  checked (check_scope tenantId rsid ;; assertBoundedString holdId "holdId" 128 ;;
           assertBoundedString originIdempotencyKey "originIdempotencyKey" 1024) (λ _, transact tenantId rsid (record_late rsid holdId originIdempotencyKey)).

Definition snapshot (tenantId rsid : jstr) : program Reply :=
  transact tenantId rsid (λ stored, record ← load stored rsid; replies (snapshot_of_record record)).
End authority.
End Recovery.
