(* ===== verification/RecoveryMachine.v ===== *)
(** The recovery authority as a machine on the record of a session, and the proof that
    its operations are steps of that machine.

    [permitted] says which changes of a record the authority allows, in terms of the
    window, the holds, the pending dispatch and the histories; it does not mention how an
    operation is carried out.  For every operation of [Recovery] the record that a
    transaction stages follows from the record it read by a permitted change. *)

From S2P Require Import Prelude JsString JsValue JsMap Canonical Sha256 Sequence Journal MutationHold Envelope.
From S2P Require Import ProtocolStore Identifiers InvocationContext Confirmation Effects RecoveryData Recovery.

Module RecoveryMachine.
Import Canonical Identifiers.
Import Journal MutationHold MutationHoldFacts Envelope RecoveryData Recovery.

(** ** What changes *)

(** Which call changes the record, with the attempt that makes it where it has one. *)
Inductive act :=
| acquires (attemptId : jstr) | releases (attemptId : jstr) | plans | prepares (attemptId : jstr)
| redelivers_origin (attemptId : jstr) | verifies (attemptId : jstr) | retransmits | reconciles | evidences.

(** The dispatches a record has ever admitted, by digest. *)
Definition digests (r : GatewayRecoveryRecord) : list jstr :=
  match rr_pendingDispatch r with Some p => [pd_envelopeDigest p] | None => [] end ++ map hi_envelopeDigest (rr_dispatchHistory r).

(** Every hold stays as it is or makes the move [R]. *)
Definition ledger_moves (R : MutationHold → MutationHold → Prop) (l l' : MutationHoldLedger) : Prop :=
  Forall2 (λ h h', h' = h ∨ R h h') l l'.

Definition resolved_for (digest : jstr) (h : MutationHold) : Prop :=
  mh_state h = hold_resolved_pending_bridge ∧ resolutionMatchesSelectedEvidence h = true ∧
  hr_authorizedDispatchIdentity <$> mh_resolution h = Some digest.

(** A hold with conclusive evidence is resolved, for one dispatch. *)
Definition resolves (digest : jstr) (h h' : MutationHold) : Prop :=
  mh_state h = hold_evidence_recorded ∧ resolved_for digest h' ∧ ∃ res, h' = with_resolution h res.

(** A hold resolved for a dispatch is cleared by it. *)
Definition clears (digest : jstr) (h h' : MutationHold) : Prop :=
  mh_state h = hold_resolved_pending_bridge ∧ resolutionMatchesSelectedEvidence h = true ∧
  hr_authorizedDispatchIdentity <$> mh_resolution h = Some digest ∧ h' = clear_hold digest h.

(** A hold that is not resolved takes evidence, and is not resolved by it. *)
Definition gains_evidence (h h' : MutationHold) : Prop :=
  takes_no_evidence h = false ∧ takes_no_evidence h' = false ∧ keeps_identity h h'.

(** New holds are active. *)
Definition installs (rsid : jstr) (l l' : MutationHoldLedger) : Prop :=
  ∃ new, l' ≡ₚ l ++ new ∧ Forall (λ h, mh_state h = hold_active ∧ mh_rsid h = rsid) new.

(** The same dispatch, with more known of it. *)
Definition same_dispatch (p p' : GatewayRecoveryPendingDispatch) : Prop :=
  pd_kind p' = pd_kind p ∧ pd_envelope p' = pd_envelope p ∧ pd_envelopeDigest p' = pd_envelopeDigest p ∧
  pd_mutationEntries p' = pd_mutationEntries p ∧ pd_recoveryHoldIds p' = pd_recoveryHoldIds p ∧
  pd_originRedelivery p' = pd_originRedelivery p.

(** The pending dispatch after a step: settled, or the same. *)
Definition settles (p : GatewayRecoveryPendingDispatch) (next : option GatewayRecoveryPendingDispatch) : Prop :=
  match next with None => True | Some p' => same_dispatch p p' end.

(** What the acceptance does to the ledger: it clears the holds the dispatch was
    prepared past, unless the dispatch is the origin of the holds. *)
Definition accepts (p : GatewayRecoveryPendingDispatch) (acceptance : option GatewayBridgeCumulativeAckReceipt)
    (l l' : MutationHoldLedger) : Prop :=
  l' = l ∨ (is_Some acceptance ∧ pd_originRedelivery p = false ∧ ledger_moves (clears (pd_envelopeDigest p)) l l').

(** A hold that is not cleared stands on the scope, or keeps the origin itself. *)
Definition covered (rsid : jstr) (l : MutationHoldLedger) (key : jstr) (scope : MutationScope) : Prop :=
  ∃ h, h ∈ l ∧ isUncleared h = true ∧ mh_rsid h = rsid ∧
       ((∃ s, mutationScopeKey s = Ok (mh_scopeKey h) ∧ mutationScopesConflict s scope = true) ∨ key ∈ mh_originIdempotencyKeys h).

Definition owned_by (r : GatewayRecoveryRecord) (attemptId : jstr) : Prop :=
  iw_attemptId <$> rr_invocationWindow r = Some attemptId.

Section machine.
Context `{Hasher} {F64 : JsonText.Float64} {ZD : Zod}.
Context (readEnvelope : jsval → option DispatchEnvelope) (readBatch : jsval → option BatchCarrier).

Definition keys_of (rsid : jstr) (envelope : jsval) : list jstr :=
  match deriveEnvelope readEnvelope envelope (Some rsid) with Ok d => map idempotency_key (dv_bindings d) | Throw _ => [] end.

(** No invocation of the dispatch is one of a dispatch that is retained. *)
Definition fresh (r : GatewayRecoveryRecord) (p : GatewayRecoveryPendingDispatch) : Prop :=
  pd_envelopeDigest p ∉ digests r ∧
  ∀ envelope key, envelope ∈ retained_envelopes r → key ∈ keys_of (rr_rsid r) envelope → key ∉ keys_of (rr_rsid r) (pd_envelope p).

(** Every hold in the way of the dispatch is resolved for it and named by it. *)
Definition past_holds (rsid : jstr) (l : MutationHoldLedger) (p : GatewayRecoveryPendingDispatch) : Prop :=
  ∀ h, h ∈ conflictingMutationHolds l rsid (map me_mutationScope (pd_mutationEntries p)) →
       resolved_for (pd_envelopeDigest p) h ∧ mh_holdId h ∈ pd_recoveryHoldIds p.

(** The entries of a dispatch that its evidence leaves open. *)
Definition open_entries (p : GatewayRecoveryPendingDispatch) (h : GatewayRecoveryDispatchHistory) : list GatewayRecoveryMutationEntry :=
  if pd_batchAtomic p then pd_mutationEntries p else
  List.filter (λ e, is_indeterminate (journal_by_digest (hi_journalRecords h) (me_journalBindingDigest e))) (pd_mutationEntries p).

Inductive permitted : act → GatewayRecoveryRecord → GatewayRecoveryRecord → Prop :=
| p_acquire w r :
    rr_invocationWindow r = None → rr_pendingDispatch r = None →
    permitted (acquires (iw_attemptId w)) r (with_window r (Some w))
| p_release w r :
    rr_invocationWindow r = Some w → rr_pendingDispatch r = None →
    permitted (releases (iw_attemptId w)) r (with_window r None)
| p_plan plan r :
    rr_pendingDispatch r = None → rr_resolutionPlan r = None →
    assertPlanIntegrity plan (rr_ledger r) (rr_rsid r) (rr_evidenceDecisions r) = Ok tt →
    permitted plans r (with_plan r (Some plan))
| p_prepare attemptId p l keepPlan r :
    owned_by r attemptId → rr_pendingDispatch r = None → fresh r p →
    pd_kind p = pending_mutation → pd_originRedelivery p = false → pd_bridgeAcceptance p = None →
    ledger_moves (resolves (pd_envelopeDigest p)) (rr_ledger r) l → past_holds (rr_rsid r) l p →
    permitted (prepares attemptId) r (with_prepared r l keepPlan p)
| p_redeliver attemptId p history r :
    owned_by r attemptId → rr_pendingDispatch r = None →
    history ∈ rr_dispatchHistory r → hi_status history = history_indeterminate → hi_envelopeDigest history ≠ pd_envelopeDigest p →
    pd_kind p = pending_mutation → pd_originRedelivery p = true → pd_bridgeAcceptance p = None →
    pd_recoveryHoldIds p = map mh_holdId (conflictingMutationHolds (rr_ledger r) (rr_rsid r) (map me_mutationScope (pd_mutationEntries p))) →
    hi_holdIds history = pd_recoveryHoldIds p → pd_recoveryHoldIds p ≠ [] →
    permitted (redelivers_origin attemptId) r (with_pending r (rr_ledger r) (Some p))
| p_verify attemptId p hold r :
    owned_by r attemptId → rr_pendingDispatch r = None → rr_resolutionPlan r = None → fresh r p →
    pd_kind p = pending_verification → pd_originRedelivery p = false → pd_recoveryHoldIds p = [] → pd_mutationEntries p = [] →
    hold ∈ rr_ledger r → takes_no_evidence hold = false → pd_verificationHoldId p = Some (mh_holdId hold) →
    permitted (verifies attemptId) r (with_pending r (rr_ledger r) (Some p))
| p_retransmit p connectionId sessionVersion r :
    rr_pendingDispatch r = Some p → pd_bridgeAcceptance p = None →
    num_Z (pd_authorizedSessionVersion p) <= num_Z sessionVersion →
    permitted retransmits r (with_pending r (rr_ledger r) (Some (redirect p connectionId sessionVersion)))
| p_observe p p' l r :
    rr_pendingDispatch r = Some p → same_dispatch p p' → accepts p (pd_bridgeAcceptance p') (rr_ledger r) l →
    permitted reconciles r (with_pending r l (Some p'))
| p_terminal p history acceptance l r :
    rr_pendingDispatch r = Some p → hi_envelopeDigest history = pd_envelopeDigest p → hi_status history = history_terminal →
    accepts p acceptance (rr_ledger r) l →
    permitted reconciles r (with_histories r l None (historyWith (rr_dispatchHistory r) history))
| p_indeterminate p history next l l' r :
    rr_pendingDispatch r = Some p → hi_envelopeDigest history = pd_envelopeDigest p → hi_status history = history_indeterminate →
    settles p next → accepts p (hi_bridgeAcceptance history) (rr_ledger r) l → installs (rr_rsid r) l l' →
    (** a dispatch that is over leaves a hold on whatever it left open *)
    (next = None → pd_originRedelivery p = false →
     Forall (λ e, scope_wire (me_mutationScope e)) (open_entries p history) →
     ∀ e, e ∈ open_entries p history → covered (rr_rsid r) l' (me_idempotencyKey e) (me_mutationScope e)) →
    permitted reconciles r (with_histories r l' next (historyWith (rr_dispatchHistory r) history))
| p_late p i history history' next acceptance l r :
    rr_pendingDispatch r = Some p → rr_dispatchHistory r !! i = Some history →
    hi_status history = history_indeterminate → hi_status history' = history_indeterminate →
    hi_envelopeDigest history' = hi_envelopeDigest history → hi_holdIds history' = hi_holdIds history →
    hi_mutationEntries history' = hi_mutationEntries history →
    (pd_originRedelivery p = false → hi_envelopeDigest history = pd_envelopeDigest p) →
    settles p next → accepts p acceptance (rr_ledger r) l →
    permitted reconciles r (with_histories r l next (<[i := history']> (rr_dispatchHistory r)))
| p_verified p history audit l r :
    rr_pendingDispatch r = Some p → pd_kind p = pending_verification → is_Some (pd_bridgeAcceptance p) →
    hi_envelopeDigest history = pd_envelopeDigest p → hi_status history = history_terminal →
    ledger_moves gains_evidence (rr_ledger r) l →
    permitted evidences r (with_evidence r l audit None (historyWith (rr_dispatchHistory r) history))
| p_late_evidence i history history' audit l r :
    rr_resolutionPlan r = None → rr_dispatchHistory r !! i = Some history →
    hi_envelopeDigest history' = hi_envelopeDigest history → hi_status history' = hi_status history →
    hi_mutationEntries history' = hi_mutationEntries history →
    ledger_moves gains_evidence (rr_ledger r) l →
    permitted evidences r (with_evidence r l audit (rr_pendingDispatch r) (<[i := history']> (rr_dispatchHistory r))).

(** ** Reading a record *)

Definition current (stored : option StoredRecovery) (rsid : jstr) : GatewayRecoveryRecord :=
  match stored with Some s => sv_value s | None => emptyRecord rsid end.

Lemma sorted_ledger rsid previous l :
  assertLedgerIntegrity_from rsid previous l = Ok tt →
  Forall (λ h, mh_rsid h = rsid ∧ str_ltb previous (mh_holdId h) = true) l ∧ NoDup (map mh_holdId l).
Proof.
  revert previous. induction l as [|h l IH]; intros previous Hl; cbn [assertLedgerIntegrity_from] in Hl; [repeat constructor|].
  apply bind_ok in Hl as ([] & Hrs%reject_if_ok & Hl). apply bind_ok in Hl as ([] & Hlt%reject_if_ok & Hl).
  apply bind_ok in Hl as ([] & _ & Hl). apply IH in Hl as [Hall Hnd]. bsimp.
  assert (str_ltb previous (mh_holdId h) = true) as Hp by (unfold str_leb in Hlt; by bsimp).
  split.
  - constructor; [done|]. eapply Forall_impl; [exact Hall|]. intros h' [? ?]. split; [done|]. by eapply str_ltb_trans.
  - cbn [map]. constructor; [|done]. intros Hin. apply list_elem_of_fmap in Hin as (h' & E & Hh').
    rewrite Forall_forall in Hall. destruct (Hall h' Hh') as [_ Hlt']. rewrite E in Hlt'. by rewrite str_ltb_irrefl in Hlt'.
Qed.

(** A record that was read is the one that is stored, and it is in order. *)
Record readable (rsid : jstr) (r : GatewayRecoveryRecord) : Prop := {
  rd_rsid : rr_rsid r = rsid;
  rd_ids : NoDup (map mh_holdId (rr_ledger r));
  rd_holds : Forall (λ h, mh_rsid h = rsid) (rr_ledger r);
  rd_window p : rr_pendingDispatch r = Some p → is_Some (rr_invocationWindow r);
  rd_pending p : rr_pendingDispatch r = Some p → assertPendingIntegrity readEnvelope readBatch p rsid = Ok tt;
  rd_history h : h ∈ rr_dispatchHistory r →
    ∃ d, deriveEnvelope readEnvelope (hi_envelope h) (Some rsid) = Ok d ∧ hi_envelopeDigest h = dv_digest d }.

Lemma history_bound rsid tenantId seen histories h :
  histories_integrity readEnvelope readBatch rsid tenantId seen histories = Ok tt → h ∈ histories →
  ∃ d, deriveEnvelope readEnvelope (hi_envelope h) (Some rsid) = Ok d ∧ hi_envelopeDigest h = dv_digest d.
Proof.
  revert seen. induction histories as [|history histories IH]; intros seen Hi Hin; [by inversion Hin|].
  cbn [histories_integrity] in Hi. apply bind_ok in Hi as ([] & Hone & Hi). apply bind_ok in Hi as ([] & _ & Hi).
  apply elem_of_cons in Hin as [->|Hin]; [|by eapply IH].
  unfold assertHistoryIntegrity in Hone. cbv zeta in Hone. apply bind_ok in Hone as (d & Hd & Hone).
  apply bind_ok in Hone as (bound & Hb & Hone). apply bind_ok in Hone as ([] & Hbound%reject_if_ok & _).
  exists d. split; [done|]. bsimp. subst. unfold history_envelope_bound in Hb. split_if; [done|]. by bsimp.
Qed.

Lemma load_readable stored rsid r :
  loadRecord readEnvelope readBatch stored rsid = Ok r → r = current stored rsid ∧ readable rsid r.
Proof.
  unfold loadRecord. destruct stored as [s|]; [|intros [= <-]; split; [done|]; constructor; try constructor; try done; intros h Hh; by inversion Hh].
  unfold decodeRecord. intros Hd. apply bind_ok in Hd as ([] & Hrs%reject_if_ok & Hd).
  apply bind_ok in Hd as ([] & _ & Hd). apply bind_ok in Hd as ([] & _ & Hd). apply bind_ok in Hd as ([] & Hl & Hd).
  do 3 (apply bind_ok in Hd as ([] & _ & Hd)). apply bind_ok in Hd as ([] & Hp & Hd). apply bind_ok in Hd as ([] & Hh & Hd).
  bsimp. split; [done|]. apply sorted_ledger in Hl as [Hrsid Hnd]. constructor; [done|done|by eapply Forall_impl; [exact Hrsid|intros h [? _]]| | |intros h; by eapply history_bound];
    intros p Ep; rewrite Ep in Hp; apply bind_ok in Hp as ([] & Hw%reject_if_ok & Hp); [|done].
  by apply is_null_false.
Qed.

(** ** Bodies of transactions *)

Definition is_store_call (c : call) : bool := match c with r_open _ _ | r_commit _ _ _ _ => true | _ => false end.

(** The ports are called, the store is not. *)
Definition off_store (h : list (event call answer)) (c : call) : Prop := is_store_call c = false.

Definition quiet {A} (p : program A) : Prop := ∀ h, wp off_store p h (λ _ _, True).

(** The other writes of a transaction leave the records of the authority alone. *)
Definition elsewhere (ws : list ProtocolStore.StoreWrite) : Prop :=
  Forall (λ w, ProtocolStore.sw_namespace w ≠ GATEWAY_RECOVERY_NAMESPACE) ws.

(** What a body stages satisfies [P], whatever the ports answer. *)
Definition stages (P : Reply → GatewayRecoveryRecord → Prop) (r : result js_error (Reply * Staged)) : Prop :=
  match r with
  | Ok (reply, staged) => elsewhere (st_confirmation staged) ∧ ∀ next, st_record staged = Some next → P reply next
  | Throw _ => True
  end.

Definition body_stages (b : program (Reply * Staged)) (P : Reply → GatewayRecoveryRecord → Prop) : Prop :=
  ∀ h, wp off_store b h (λ _, stages P).

Lemma quiet_done {A} (r : result js_error A) : quiet (Done r).
Proof. done. Qed.
Lemma quiet_bind {A B} (p : program A) (k : A → program B) : quiet p → (∀ a, quiet (k a)) → quiet (p ≫= k).
Proof. intros Hp Hk h. apply wp_bind. eapply wp_mono; [apply Hp|]. intros h' [a|e] _; [apply Hk|done]. Qed.
Lemma quiet_try {A} (p : program A) (f : js_error → program A) : quiet p → (∀ e, quiet (f e)) → quiet (try_with p f).
Proof. intros Hp Hf h. apply wp_try_with. eapply wp_mono; [apply Hp|]. intros h' [a|e] _; [done|apply Hf]. Qed.
Lemma quiet_call {A} c (k : answer c → program A) : is_store_call c = false → (∀ a, quiet (k a)) → quiet (Call c k).
Proof. intros Hc Hk h. apply wp_call; [done|]. intros a. apply Hk. Qed.

Lemma stages_bind {A} (p : program A) (k : A → program (Reply * Staged)) P :
  quiet p → (∀ a, body_stages (k a) P) → body_stages (p ≫= k) P.
Proof. intros Hp Hk h. apply wp_bind. eapply wp_mono; [apply Hp|]. intros h' [a|e] _; [apply Hk|done]. Qed.

Lemma stages_lift {A} (m : result js_error A) (k : A → program (Reply * Staged)) P :
  (∀ a, m = Ok a → body_stages (k a) P) → body_stages (lift m ≫= k) P.
Proof. intros Hk h. destruct m as [a|e]; [by apply Hk|done]. Qed.

Lemma stages_mono b (P Q : Reply → GatewayRecoveryRecord → Prop) :
  body_stages b P → (∀ reply next, P reply next → Q reply next) → body_stages b Q.
Proof. intros Hb HPQ h. eapply wp_mono; [apply Hb|]. intros h' [[reply staged]|e]; [|done]. intros [Hw HP]. split; eauto. Qed.

Lemma stages_replies reply P : body_stages (replies reply) P.
Proof. intros h. split; [constructor|done]. Qed.
Lemma stages_return reply staged P :
  elsewhere (st_confirmation staged) → (∀ next, st_record staged = Some next → P reply next) → body_stages (mret (reply, staged)) P.
Proof. intros Hw HP h. done. Qed.
Lemma stages_record reply next P : P reply next → body_stages (mret (reply, stageRecord next)) P.
Proof. intros HP. apply stages_return; [constructor|]. by intros next' [= <-]. Qed.

(** Every call of a program is of a port. *)
Ltac quiet_steps :=
  repeat (cbv zeta; lazymatch goal with
  | |- quiet (Done _) => apply quiet_done
  | |- quiet (mret _) => apply quiet_done
  | |- quiet (lift _) => apply quiet_done
  | |- quiet (_ ≫= _) => apply quiet_bind; [|intros ?]
  | |- quiet (try_with _ _) => apply quiet_try; [|intros ?]
  | |- quiet (Call _ _) => apply quiet_call; [reflexivity|intros ?]
  | |- quiet (if ?b then _ else _) => destruct b
  | |- quiet (match ?x with _ => _ end) => destruct x
  | |- quiet _ => solve [auto with rbp]
  end).

Lemma mintId_quiet : quiet mintId.
Proof. unfold mintId. quiet_steps. Qed.
#[local] Hint Resolve mintId_quiet : rbp.

Lemma authorize_target_quiet derived sessionBindingId connectionId resume :
  quiet (authorizeDispatchTarget derived sessionBindingId connectionId resume).
Proof. unfold authorizeDispatchTarget. quiet_steps. Qed.

Lemma decide_evidence_quiet candidate : quiet (authorizeEvidenceDecision candidate).
Proof. unfold authorizeEvidenceDecision, audit_decision. quiet_steps. Qed.

Lemma mint_items_quiet drafts : quiet (mint_items drafts).
Proof. induction drafts as [|draft drafts IH]; cbn [mint_items]; quiet_steps. Qed.
#[local] Hint Resolve mint_items_quiet : rbp.

Lemma mint_plan_quiet record rsid scopes identity conflicts drafts : quiet (mint_plan record rsid scopes identity conflicts drafts).
Proof. unfold mint_plan. quiet_steps. Qed.

Lemma inspect_quiet tenantId pending : quiet (inspect_dispatch readEnvelope readBatch tenantId pending).
Proof. unfold inspect_dispatch. quiet_steps. Qed.

#[local] Hint Resolve authorize_target_quiet decide_evidence_quiet mint_plan_quiet inspect_quiet : rbp.

(** Follow a body to what it stages, remembering every test and every pure result. *)
Ltac body_step :=
  lazymatch goal with
  | |- body_stages (replies _) _ => apply stages_replies
  | |- body_stages (faults _) _ => apply stages_replies
  | |- body_stages (lift _ ≫= _) _ =>
      let a := fresh "a" in let Ha := fresh "Ha" in apply stages_lift; intros a Ha
  | |- body_stages (load _ _ _ _ ≫= _) _ =>
      let a := fresh "record" in let Ha := fresh "Hload" in apply stages_lift; intros a Ha
  | |- body_stages (_ ≫= _) _ => apply stages_bind; [quiet_steps|intros ?]
  | |- body_stages (if ?b then _ else _) _ => let E := fresh "Hb" in destruct b eqn:E
  | |- body_stages (match ?x with _ => _ end) _ => let E := fresh "Hm" in destruct x eqn:E
  end.

(** ** Moves of a ledger *)

Lemma moves_refl R l : ledger_moves R l l.
Proof. apply Forall2_same_length_lookup_2; [done|]. intros i h h' E E'. left. congruence. Qed.

(** A move of the one hold with an id. *)
Lemma update_moves R l h h' :
  NoDup (map mh_holdId l) → h ∈ l → mh_holdId h' = mh_holdId h → R h h' → ledger_moves R l (updateHold l h').
Proof.
  intros Hnd Hin Hid HR. unfold ledger_moves, updateHold. apply Forall2_fmap_r, Forall_Forall2_diag, Forall_forall.
  intros x Hx. cbn. case_bool_decide as E; [|by left]. right. by rewrite (same_id l x h) by (done || congruence).
Qed.

Lemma moves_ids R l l' : (∀ h h', R h h' → mh_holdId h' = mh_holdId h) → ledger_moves R l l' → map mh_holdId l' = map mh_holdId l.
Proof. intros HR. induction 1 as [|h h' l l' Hh _ IH]; cbn; [done|]. f_equal; [|done]. destruct Hh as [->|?%HR]; done. Qed.

Lemma resolves_trans digest l1 l2 l3 :
  ledger_moves (resolves digest) l1 l2 → ledger_moves (resolves digest) l2 l3 → ledger_moves (resolves digest) l1 l3.
Proof.
  intros H12. revert l3. induction H12 as [|h1 h2 l1 l2 H1 _ IH]; intros l3 H23; inversion_clear H23 as [|? h3 ? l3' H2 Hl]; constructor; [|by apply IH].
  destruct H1 as [->|H1]; [done|]. destruct H2 as [->|H2]; [by right|].
  destruct H1 as (_ & (E & _) & _), H2 as (E' & _). congruence.
Qed.

(** ** What the checks establish *)

Lemma owned_window record attemptId : invocationWindowFault record attemptId = None → owned_by record attemptId.
Proof.
  unfold invocationWindowFault, owned_by. destruct (rr_invocationWindow record) as [w|]; [|done].
  case_bool_decide as E; [|done]. intros _. cbn. by rewrite E.
Qed.

Lemma binding_index_keys derived keys : bindingIndex derived = Ok keys → keys = map idempotency_key (dv_bindings derived).
Proof. unfold bindingIndex. intros Hk. ok_inv Hk. done. Qed.

Lemma classify_candidates_new rsid derived incoming retained :
  classify_candidates readEnvelope rsid derived incoming retained = Ok identity_new →
  ∀ envelope key, envelope ∈ retained → key ∈ keys_of rsid envelope → key ∉ incoming.
Proof.
  induction retained as [|candidate retained IH]; intros Hc envelope key Hin Hkey; [by inversion Hin|].
  cbn [classify_candidates] in Hc. apply bind_ok in Hc as (d & Hd & Hc). split_if; [done|].
  apply bind_ok in Hc as (keys & Hkeys & Hc). destruct (existsb _ _) eqn:Ex in Hc; [done|].
  apply elem_of_cons in Hin as [->|Hin]; [|by eapply IH].
  unfold keys_of in Hkey. rewrite Hd in Hkey. apply binding_index_keys in Hkeys as ->.
  intros Hi. rewrite existsb_false in Ex. specialize (Ex _ Hi). by bsimp.
Qed.

(** An identity that is new: its digest and its keys are not retained. *)
Lemma classify_new record derived :
  classifyRetainedIdentity readEnvelope record derived = Ok identity_new →
  dv_digest derived ∉ digests record ∧
  ∀ envelope key, envelope ∈ retained_envelopes record → key ∈ keys_of (rr_rsid record) envelope →
    key ∉ map idempotency_key (dv_bindings derived).
Proof.
  unfold classifyRetainedIdentity. intros Hc.
  assert (∀ p, rr_pendingDispatch record = Some p → pd_envelopeDigest p ≠ dv_digest derived) as Hp.
  { intros p Ep E. rewrite Ep in Hc. rewrite bool_decide_true in Hc by done. done. }
  assert (match find_first (λ history, hi_envelopeDigest history === dv_digest derived) (rr_dispatchHistory record) with
          | Some _ => False
          | None => ∃ incoming, bindingIndex derived = Ok incoming ∧
              classify_candidates readEnvelope (rr_rsid record) derived incoming (retained_envelopes record) = Ok identity_new
          end) as Hrest.
  { destruct (rr_pendingDispatch record) as [p|] eqn:Ep; [rewrite bool_decide_false in Hc by by apply Hp|];
    (destruct (find_first _ _) as [hi|]; [by destruct (hi_status hi)|]); by apply bind_ok in Hc. }
  destruct (find_first _ _) eqn:Ef; [done|]. destruct Hrest as (incoming & Hi & Hn). split.
  - unfold digests. rewrite elem_of_app. intros [Hin|Hin].
    + destruct (rr_pendingDispatch record) as [p|]; [|by inversion Hin]. apply list_elem_of_singleton in Hin. by eapply Hp.
    + apply list_elem_of_fmap in Hin as (hi & E & Hin). rewrite find_first_none in Ef. specialize (Ef hi Hin). by bsimp.
  - apply binding_index_keys in Hi. subst incoming. exact (classify_candidates_new _ _ _ _ Hn).
Qed.

Lemma retained_new retained sessionBindingId connectionId :
  retained_reply retained sessionBindingId connectionId = None → retained = identity_new.
Proof. by destruct retained. Qed.

(** ** Passing the holds *)

Lemma resolve_one l input l' h :
  NoDup (map mh_holdId l) → resolveMutationHold l input = Ok (hold_resolved l' h) →
  ledger_moves (resolves (ri_authorizedDispatchIdentity input)) l l'.
Proof.
  intros Hnd Hr. apply resolve_cases in Hr as [[? ?]|(x & res & Hf & Hst & Hm & Ha & _ & _ & E)]; [done|].
  injection E as -> ->. apply find_exact_spec in Hf as (Hin & _ & _). eapply update_moves; [done|done|done|].
  split; [done|]. split; [|by exists res]. split; [done|]. split; [done|]. cbn. by rewrite Ha.
Qed.

Lemma resolves_ids digest h h' : resolves digest h h' → mh_holdId h' = mh_holdId h.
Proof. by intros (_ & _ & res & ->). Qed.

Lemma resolve_items_moves rsid digest l items l' :
  NoDup (map mh_holdId l) → resolve_items rsid digest l items = Ok (inr l') → ledger_moves (resolves digest) l l'.
Proof.
  revert l. induction items as [|item items IH]; intros l Hnd Hr; cbn [resolve_items] in Hr.
  { injection Hr as <-. apply moves_refl. }
  apply bind_ok in Hr as (r & Hone & Hr). destruct r as [l1 h|l1 reason]; [|done].
  assert (ledger_moves (resolves digest) l l1) as H1 by exact (resolve_one _ _ _ _ Hnd Hone).
  eapply resolves_trans; [exact H1|]. apply IH; [|done]. by rewrite (moves_ids _ _ _ (resolves_ids digest) H1).
Qed.

Lemma cleared_for_matches digest h c : cleared_for digest h c → resolutionMatchesSelectedEvidence h = true.
Proof.
  intros [_ Hc]. unfold clearanceMatches in Hc. destruct (mh_resolution h); [|done]. destruct (negb _) eqn:E; [done|]. by bsimp.
Qed.

(** An authorised dispatch: every hold in its way is resolved for it, and named. *)
Lemma allowed_resolved l input l' ids h :
  authorizeMutationDispatch l input = Ok (mutation_allowed l' ids) →
  h ∈ conflictingMutationHolds l (ai_rsid input) (ai_mutationScopes input) →
  resolved_for (ai_dispatchIdentity input) h ∧ mh_holdId h ∈ ids.
Proof.
  intros Ha Hh. apply authorize_cases in Ha as (_ & _ & _ & _ & [(E & _)|(_ & Hst & Hm & -> & _)]).
  { rewrite E in Hh. by inversion Hh. }
  split; [|by apply unique_elem, list_elem_of_fmap; eauto].
  apply list_elem_of_lookup in Hh as (i & Hi). destruct (Forall2_lookup_l _ _ _ _ _ Hm Hi) as (c & _ & Hc).
  rewrite Forall_forall in Hst. split; [by eapply Hst, list_elem_of_lookup_2|].
  split; [by eapply cleared_for_matches|]. by destruct Hc.
Qed.

Lemma pass_holds_spec record derived l ids :
  NoDup (map mh_holdId (rr_ledger record)) → pass_holds record derived = Ok (inr (l, ids)) →
  ledger_moves (resolves (dv_digest derived)) (rr_ledger record) l ∧
  ∀ h, h ∈ conflictingMutationHolds l (rr_rsid record) (map me_mutationScope (dv_mutationEntries derived)) →
       resolved_for (dv_digest derived) h ∧ mh_holdId h ∈ ids.
Proof.
  intros Hnd Hp. unfold pass_holds in Hp. cbv zeta in Hp.
  destruct (length (conflictingMutationHolds _ _ _) =? 0)%nat eqn:Ec in Hp.
  { apply length_zero in Ec. destruct (negb _) in Hp; [done|]. injection Hp as <- <-. split; [apply moves_refl|].
    intros h Hh. rewrite Ec in Hh. by inversion Hh. }
  destruct (length (dv_clearances derived) =? 0)%nat; [done|].
  destruct (rr_resolutionPlan record) as [plan|]; [|done].
  apply bind_ok in Hp as (normalized & _ & Hp). apply bind_ok in Hp as (sameScopes & _ & Hp).
  apply bind_ok in Hp as (sameClearances & _ & Hp). destruct (negb sameClearances); [done|].
  apply bind_ok in Hp as (resolved & Hres & Hp). destruct resolved as [reply|l1]; [done|].
  apply bind_ok in Hp as (authorization & Ha & Hp). destruct authorization as [l2 cleared|l2 hs|l2 reason]; [|done..].
  injection Hp as <- <-. split; [by eapply resolve_items_moves|]. intros h Hh. by apply (allowed_resolved _ _ _ _ h) in Ha.
Qed.

(** ** Accepting, holding and learning *)

Lemma clear_all_moves l digest cs cls :
  NoDup (map mh_holdId l) → cs ⊆ l → Forall (λ h, mh_state h = hold_resolved_pending_bridge) cs →
  Forall2 (cleared_for digest) cs cls → ledger_moves (clears digest) l (clear_all digest (unique (map mh_holdId cs)) l).
Proof.
  intros Hnd Hsub Hst Hm. unfold ledger_moves, clear_all. apply Forall2_fmap_r, Forall_Forall2_diag, Forall_forall.
  intros x Hx. cbn. case_bool_decide as Hid; [|by left]. right.
  apply unique_elem, list_elem_of_fmap in Hid as (h & Eid & Hh). assert (x = h) as -> by (eapply same_id; eauto).
  apply list_elem_of_lookup in Hh as (i & Hi). destruct (Forall2_lookup_l _ _ _ _ _ Hm Hi) as (c & _ & Hc).
  rewrite Forall_forall in Hst. split; [by eapply Hst, list_elem_of_lookup_2|].
  split; [by eapply cleared_for_matches|]. split; [by destruct Hc|done].
Qed.

Lemma clear_accepted_spec record pending acceptance l ids :
  NoDup (map mh_holdId (rr_ledger record)) → clear_accepted record pending acceptance = Ok (inr (l, ids)) →
  accepts pending acceptance (rr_ledger record) l.
Proof.
  intros Hnd Hc. unfold clear_accepted in Hc. destruct (_ && _) eqn:Eb in Hc; [|injection Hc as <- <-; by left].
  bsimp. apply bind_ok in Hc as (authorization & Ha & Hc). destruct authorization as [l2 cleared|l2 hs|l2 reason]; [|done..].
  case_bool_decide; [|done]. injection Hc as <- <-.
  apply authorize_cases in Ha as (_ & _ & _ & _ & [(_ & -> & _)|(_ & Hst & Hm & -> & ->)]); [by left|right].
  split; [by apply is_null_false|]. split; [done|]. eapply clear_all_moves; [done|apply conflicting_subset|done|exact Hm].
Qed.

Lemma add_evidence_moves l h e :
  NoDup (map mh_holdId l) → h ∈ l → takes_no_evidence h = false → ledger_moves gains_evidence l (evidence_ledger (add_evidence l h e)).
Proof.
  intros Hnd Hin Ht. unfold add_evidence. cbv zeta. match goal with |- context [updateHold l ?x] => set (h' := x) end.
  match goal with |- context [if ?c then MutationHold.evidence_recorded _ _ else _] => set (c' := c) end.
  assert (evidence_ledger (if c' then MutationHold.evidence_recorded (updateHold l h') h'
                           else MutationHold.inconclusive_recorded (updateHold l h') h') = updateHold l h') as -> by by destruct c'.
  apply (update_moves _ _ h); [done|done|done|]. split; [done|]. split.
  - unfold takes_no_evidence. cbn. fold c'. destruct c'; [done|]. exact Ht.
  - repeat split. intros _. unfold takes_no_evidence in Ht. unfold isUncleared. bsimp. by rewrite bool_decide_false.
Qed.

Lemma evidence_reply_ledger r l reply : evidence_reply r = inr (l, reply) → l = evidence_ledger r.
Proof. by destruct r; intros [= <- <-]. Qed.

Lemma verification_moves l input r l' reply :
  NoDup (map mh_holdId l) → MutationHold.recordVerificationEvidence l input = Ok r → evidence_reply r = inr (l', reply) →
  ledger_moves gains_evidence l l'.
Proof.
  intros Hnd Hr He. apply evidence_reply_ledger in He as ->.
  apply verification_cases in Hr as [[? ->]|(h & e & Hf & Ht & _ & _ & _ & _ & ->)]; [apply moves_refl|].
  apply find_exact_spec in Hf as (? & _). by apply add_evidence_moves.
Qed.

Lemma late_moves l input r l' reply :
  NoDup (map mh_holdId l) → MutationHold.recordLateTerminalEvidence l input = Ok r → evidence_reply r = inr (l', reply) →
  ledger_moves gains_evidence l l'.
Proof.
  intros Hnd Hr He. apply evidence_reply_ledger in He as ->.
  apply late_cases in Hr as [[? ->]|(h & e & Hf & Ht & _ & _ & _ & _ & ->)]; [apply moves_refl|].
  apply find_exact_spec in Hf as (? & _). by apply add_evidence_moves.
Qed.

(** ** The bodies are steps of the machine *)

(** The record that was read was in order, and the next one follows from it. *)
Definition steps (stored : Snapshot) (rsid : jstr) (x : act) (next : GatewayRecoveryRecord) : Prop :=
  readable rsid (current (sn_recovery stored) rsid) ∧ permitted x (current (sn_recovery stored) rsid) next.

Lemma derive_again value rsid d :
  deriveEnvelope readEnvelope value None = Ok d → en_rsid (dv_envelope d) = rsid →
  deriveEnvelope readEnvelope value (Some rsid) = Ok d.
Proof.
  unfold deriveEnvelope. intros Hd Hr. apply bind_ok in Hd as (read & Hread & Hd). rewrite Hread. cbn [mbind result_bind].
  destruct read as [e|]; [|done]. pose proof Hd as Hd'. cbn [mbind result_bind] in Hd'.
  apply bind_ok in Hd as ([] & _ & Hd). repeat (apply bind_ok in Hd as (? & _ & Hd)). injection Hd as <-. cbn in Hr. subst.
  rewrite bool_decide_true by done. exact Hd'.
Qed.

Lemma derive_value value rsid d : deriveEnvelope readEnvelope value rsid = Ok d → dv_value d = value.
Proof.
  unfold deriveEnvelope. intros Hd. apply bind_ok in Hd as (read & _ & Hd). destruct read as [e|]; [|done].
  apply bind_ok in Hd as (? & _ & Hd). repeat (apply bind_ok in Hd as (? & _ & Hd)). by injection Hd as <-.
Qed.

Lemma derive_rsid value rsid d : deriveEnvelope readEnvelope value (Some rsid) = Ok d → en_rsid (dv_envelope d) = rsid.
Proof.
  unfold deriveEnvelope. intros Hd. apply bind_ok in Hd as (read & _ & Hd). destruct read as [e|]; [|done].
  apply bind_ok in Hd as ([] & Hr%reject_if_ok & Hd). repeat (apply bind_ok in Hd as (? & _ & Hd)). injection Hd as <-.
  cbn. by bsimp.
Qed.

(** The pending dispatch that is made. *)
Lemma make_pending_spec kind derived sessionBindingId connectionId version holdIds hold redelivery records preparedAtMs p :
  makePending readEnvelope readBatch kind derived sessionBindingId connectionId version holdIds hold redelivery records preparedAtMs = Ok p →
  pd_kind p = kind ∧ pd_envelope p = dv_value derived ∧ pd_envelopeDigest p = dv_digest derived ∧
  pd_mutationEntries p = dv_mutationEntries derived ∧ pd_recoveryHoldIds p = holdIds ∧ pd_verificationHoldId p = hold ∧
  pd_originRedelivery p = redelivery ∧ pd_bridgeAcceptance p = None ∧
  assertPendingIntegrity readEnvelope readBatch p (en_rsid (dv_envelope derived)) = Ok tt.
Proof.
  unfold makePending. intros Hp. apply bind_ok in Hp as ([] & _ & Hp). apply bind_ok in Hp as ([] & _ & Hp).
  apply bind_ok in Hp as (rs & _ & Hp). apply bind_ok in Hp as ([] & Hi & Hp). injection Hp as <-. by repeat split.
Qed.

Lemma fresh_pending record derived p rsid :
  classifyRetainedIdentity readEnvelope record derived = Ok identity_new → rr_rsid record = rsid →
  deriveEnvelope readEnvelope (pd_envelope p) (Some rsid) = Ok derived → pd_envelopeDigest p = dv_digest derived → fresh record p.
Proof.
  intros Hc Hr Hd Hdg. apply classify_new in Hc as [Hn Hk]. split; [by rewrite Hdg|].
  intros envelope key Hin Hkey. unfold keys_of at 1. rewrite Hr, Hd. by eapply Hk.
Qed.

(** After a [load]: the record is the stored one. *)
Ltac loaded H := apply load_readable in H as [-> H].

(** Finish at a staged record. *)
Ltac staged := apply stages_record.

(** The confirmation authority writes its own records. *)
Lemma confirmation_elsewhere authority input atMs stored validation :
  confirmation_validation authority input atMs stored = Ok validation → elsewhere validation.2.
Proof.
  unfold confirmation_validation. destruct (pm_confirmationProof input) as [proof|]; [|intros [= <-]; constructor].
  destruct authority; [|intros [= <-]; constructor]. intros Hv. apply bind_ok in Hv as ([v ws] & Hv & [= <-]). cbn [snd].
  unfold Confirmation.validatePendingAction in Hv.
  repeat (ok_inv Hv; case_match; try (injection Hv as <- <-; constructor)).
  all: ok_inv Hv; repeat case_match; simplify_eq; repeat constructor; done.
Qed.

Lemma consumption_elsewhere validation policyId derived atMs ws :
  consume_confirmation validation policyId derived atMs = Ok (inr ws) → elsewhere ws.
Proof.
  unfold consume_confirmation. destruct validation as [[action version key|]|]; [|intros [= <-]; constructor..].
  destruct (_ || _); [done|]. intros Hc. apply bind_ok in Hc as ([consumed ws'] & Hs & [= <-]). cbn [snd].
  unfold Confirmation.stageConsumption in Hs. ok_inv Hs. simplify_eq. by repeat constructor.
Qed.

Lemma prepare_mutation_stages input derived policyId validation atMs stored :
  deriveEnvelope readEnvelope (pm_envelope input) None = Ok derived →
  let rsid := en_rsid (dv_envelope derived) in
  body_stages (prepare_mutation readEnvelope readBatch input derived policyId validation atMs stored)
    (λ reply next, (∃ p, reply = prepared p ∧ rr_pendingDispatch next = Some p) ∧ steps stored rsid (prepares (pm_attemptId input)) next).
Proof.
  intros Hd rsid. unfold prepare_mutation. repeat body_step. apply stages_return; [by eapply consumption_elsewhere|]. intros next [= <-].
  match goal with H : makePending _ _ _ _ _ _ _ _ _ _ _ _ = Ok ?p |- _ =>
    apply make_pending_spec in H as (Hk & Hv & Hdg & Hen & Hid & _ & Ho & Hacc & _) end.
  loaded Hload. split; [by eexists|]. split; [done|].
  pose proof (derive_value _ _ _ Hd) as Hval. rewrite Hval in Hv.
  match goal with H : retained_reply _ _ _ = None |- _ => apply retained_new in H as -> end.
  match goal with H : pass_holds _ _ = Ok _ |- _ => apply pass_holds_spec in H as [Hmoves Hpast]; [|apply Hload] end.
  apply p_prepare; try done.
  - by apply owned_window.
  - eapply fresh_pending; [done|apply Hload| |done]. rewrite Hv. by apply derive_again.
  - by rewrite Hdg.
  - unfold past_holds. by rewrite Hdg, Hen, Hid.
Qed.

Lemma prepare_check_derived authority input checks :
  prepare_mutation_check readEnvelope authority input = Ok checks → deriveEnvelope readEnvelope (pm_envelope input) None = Ok checks.1.
Proof.
  unfold prepare_mutation_check. intros Hc. do 4 (apply bind_ok in Hc as (? & _ & Hc)).
  apply bind_ok in Hc as (derived & Hd & Hc). repeat (apply bind_ok in Hc as (? & _ & Hc)). by injection Hc as <-.
Qed.

Lemma prepare_confirmed_stages authority input derived policyId atMs stored :
  deriveEnvelope readEnvelope (pm_envelope input) None = Ok derived →
  body_stages (prepare_confirmed readEnvelope readBatch authority input derived policyId atMs stored)
    (λ _, steps stored (en_rsid (dv_envelope derived)) (prepares (pm_attemptId input))).
Proof.
  intros Hd h. apply wp_bind. destruct (confirmation_validation _ _ _ _) as [validation|e] eqn:Hv; [|done]. apply wp_bind.
  assert (∀ b, body_stages b (λ reply next, (∃ p, reply = prepared p ∧ rr_pendingDispatch next = Some p) ∧
      steps stored (en_rsid (dv_envelope derived)) (prepares (pm_attemptId input)) next) →
    wp off_store b h (λ h' r, match r with
      | Ok a => wp off_store (mret (after_writes validation.2 a)) h'
          (λ _, stages (λ _, steps stored (en_rsid (dv_envelope derived)) (prepares (pm_attemptId input))))
      | Throw e => stages (λ _, steps stored (en_rsid (dv_envelope derived)) (prepares (pm_attemptId input))) (Throw e)
      end)) as Hmono.
  { intros b Hb. eapply wp_mono; [apply Hb|]. intros h' [[reply staged]|e]; [|done]. intros [Hw Hs].
    split; [apply Forall_app; split; [by eapply confirmation_elsewhere|done]|]. intros next Hn. by apply Hs. }
  apply Hmono. destruct (_ && _); [apply stages_replies|].
  destruct validation.1 as [[]|]; first [apply stages_replies|by apply prepare_mutation_stages].
Qed.

Lemma acquire_stages rsid attemptId acquiredAtMs stored :
  body_stages (acquire_window readEnvelope readBatch rsid attemptId acquiredAtMs stored) (λ _, steps stored rsid (acquires attemptId)).
Proof.
  unfold acquire_window. repeat body_step. staged. loaded Hload. split; [done|]. bsimp.
  apply (p_acquire {| iw_attemptId := attemptId; iw_acquiredAtMs := acquiredAtMs |}); [done|]. by destruct (rr_pendingDispatch _).
Qed.

Lemma release_stages rsid attemptId stored :
  body_stages (release_window readEnvelope readBatch rsid attemptId stored) (λ _, steps stored rsid (releases attemptId)).
Proof.
  unfold release_window. repeat body_step. staged. loaded Hload. split; [done|]. bsimp. subst.
  apply p_release; [done|]. by destruct (rr_pendingDispatch _).
Qed.

Lemma preflight_stages rsid scopes stored P : body_stages (preflight_mutation readEnvelope readBatch rsid scopes stored) P.
Proof. unfold preflight_mutation. repeat body_step. Qed.

Lemma minted_plan record rsid scopes identity conflicts drafts :
  ∀ h, wp off_store (mint_plan record rsid scopes identity conflicts drafts) h
    (λ _ r, ∀ plan, r = Ok plan → assertPlanIntegrity plan (rr_ledger record) rsid (rr_evidenceDecisions record) = Ok tt).
Proof.
  intros h. unfold mint_plan. apply wp_bind. eapply wp_mono; [apply mint_items_quiet|]. intros h1 [items|e] _; [|done].
  apply wp_bind. eapply wp_mono; [apply mintId_quiet|]. intros h2 [planId|e] _; [|done]. apply wp_bind, wp_call; [done|].
  intros [createdAtMs|e]; [|done]. cbv zeta. apply wp_bind.
  match goal with |- context [assertPlanIntegrity ?p ?l ?r ?d] => destruct (assertPlanIntegrity p l r d) as [[]|e] eqn:E end; [|done].
  intros plan [= <-]. exact E.
Qed.

Lemma plan_stages rsid decisions scopes stored :
  body_stages (plan_clearances readEnvelope readBatch rsid decisions scopes stored) (λ _, steps stored rsid plans).
Proof.
  unfold plan_clearances. do 7 body_step; [body_step..|]. intros h. apply wp_bind, wp_try_with, wp_bind.
  eapply wp_mono; [apply minted_plan|]. intros h' [plan|e] Hplan; [|by split; [constructor|]].
  split; [constructor|]. intros next [= <-]. loaded Hload. split; [done|]. apply p_plan; [by destruct (rr_pendingDispatch _); bsimp|done|].
  rewrite (rd_rsid _ _ Hload). by apply Hplan.
Qed.

Lemma resume_stages rsid sessionBindingId connectionId stored :
  body_stages (resume_pending readEnvelope readBatch rsid sessionBindingId connectionId stored) (λ _, steps stored rsid retransmits).
Proof.
  unfold resume_pending. repeat body_step. staged. loaded Hload. split; [done|]. bsimp. apply p_retransmit; [done| |lia].
  by destruct (pd_bridgeAcceptance _).
Qed.

Lemma origin_check_derived input redelivery :
  origin_redelivery_check readEnvelope input = Ok redelivery →
  deriveEnvelope readEnvelope (or_envelope input) (Some (or_rsid input)) = Ok redelivery.
Proof.
  unfold origin_redelivery_check. intros Hc. do 6 (apply bind_ok in Hc as (? & _ & Hc)).
  apply bind_ok in Hc as (derived & Hd & Hc). repeat (apply bind_ok in Hc as (? & _ & Hc)). by injection Hc as <-.
Qed.

(** A redelivery is another dispatch than its origin. *)
Lemma redelivers_other redelivery origin : redelivers redelivery origin = Ok true → dv_digest redelivery ≠ dv_digest origin.
Proof. unfold redelivers. intros Hr. split_if; [done|]. by bsimp. Qed.

Lemma redelivery_stages input redelivery stored :
  deriveEnvelope readEnvelope (or_envelope input) (Some (or_rsid input)) = Ok redelivery →
  body_stages (redeliver_origin readEnvelope readBatch input redelivery stored)
    (λ _, steps stored (or_rsid input) (redelivers_origin (or_attemptId input))).
Proof.
  intros Hd. unfold redeliver_origin. cbv zeta. repeat body_step. staged.
  match goal with H : makePending _ _ _ _ _ _ _ _ _ _ _ _ = Ok ?p |- _ =>
    apply make_pending_spec in H as (Hk & Hv & Hdg & Hen & Hid & _ & Ho & Hacc & _) end.
  loaded Hload. split; [done|]. bsimp. subst.
  match goal with H : origin_history _ _ = Some ?hi |- _ => apply find_first_some in H as [Hin Hst]; rename hi into history end.
  match goal with H : exact_origin _ _ _ _ = true |- _ => unfold exact_origin in H; bsimp end.
  match goal with H : deriveEnvelope _ (hi_envelope history) _ = Ok ?d |- _ => rename d into origin; rename H into Horigin end.
  apply (p_redeliver (or_attemptId input) _ history); try done.
  - by apply owned_window.
  - apply list_elem_of_In, in_rev. by apply list_elem_of_In in Hin.
  - rewrite Hdg. assert (history ∈ rr_dispatchHistory (current (sn_recovery stored) (or_rsid input))) as Hh.
    { apply list_elem_of_In, in_rev. by apply list_elem_of_In in Hin. }
    apply (rd_history _ _ Hload) in Hh as (d & Hd' & ->). intros E. rewrite Horigin in Hd'. injection Hd' as <-.
    match goal with H : redelivers _ _ = Ok _ |- _ => apply redelivers_other in H end. congruence.
  - rewrite Hid, (rd_rsid _ _ Hload), Hen. done.
  - rewrite Hid. intros E.
    match goal with H : map mh_holdId ?cs = hi_holdIds history |- _ => rewrite E in H; by destruct cs end.
Qed.

(** ** Verifications *)

Lemma verification_check_derived input derived :
  prepare_verification_check readEnvelope input = Ok derived →
  deriveEnvelope readEnvelope (pv_envelope input) None = Ok derived ∧ dv_mutationEntries derived = [].
Proof.
  unfold prepare_verification_check. intros Hc. do 3 (apply bind_ok in Hc as (? & _ & Hc)).
  apply bind_ok in Hc as (d & Hd & Hc). apply bind_ok in Hc as ([] & Hread%reject_if_ok & Hc).
  repeat (apply bind_ok in Hc as (? & _ & Hc)). injection Hc as <-. split; [done|]. bsimp. by apply length_zero.
Qed.

Lemma verified_hold_in rsid verification l h :
  verified_hold rsid verification l = Ok (Some h) → h ∈ l ∧ mh_holdId h = vf_hold_id verification.
Proof.
  induction l as [|x l IH]; intros Hv; [done|]. cbn [verified_hold] in Hv. apply bind_ok in Hv as (found & Hf & Hv).
  destruct found; [|destruct (IH Hv); split; [by right|done]]. injection Hv as <-. split; [by left|].
  split_if; [|done]. by bsimp.
Qed.

Lemma verification_stages input derived verification stored :
  deriveEnvelope readEnvelope (pv_envelope input) None = Ok derived → dv_mutationEntries derived = [] →
  body_stages (prepare_verification readEnvelope readBatch input derived verification stored)
    (λ _, steps stored (en_rsid (dv_envelope derived)) (verifies (pv_attemptId input))).
Proof.
  intros Hd Hread. unfold prepare_verification. cbv zeta. repeat body_step; subst; try done; staged.
  match goal with H : makePending _ _ _ _ _ _ _ _ _ _ _ _ = Ok ?p |- _ =>
    apply make_pending_spec in H as (Hk & Hv & Hdg & Hen & Hid & Hhold & Ho & Hacc & _) end.
  loaded Hload. split; [done|]. bsimp. rewrite (derive_value _ _ _ Hd) in Hv.
  match goal with H : retained_reply _ _ _ = None |- _ => apply retained_new in H as -> end.
  match goal with H : verified_hold _ _ _ = Ok ?found |- _ => destruct found as [hold|]; [|done]; apply verified_hold_in in H as [Hin Ehold] end.
  apply (p_verify (pv_attemptId input) _ hold); try done.
  - by apply owned_window.
  - by destruct (rr_resolutionPlan _).
  - eapply fresh_pending; [done|apply Hload| |done]. rewrite Hv. by apply derive_again.
  - by rewrite Hen.
  - by rewrite Hhold, Ehold.
Qed.

(** ** Reconciliation *)

Lemma clears_kept digest h h' : clears digest h h' → mh_holdId h' = mh_holdId h ∧ mh_rsid h' = mh_rsid h.
Proof. by intros (_ & _ & _ & ->). Qed.

Lemma accepts_rsid p acceptance l l' rsid :
  accepts p acceptance l l' → Forall (λ h, mh_rsid h = rsid) l → Forall (λ h, mh_rsid h = rsid) l'.
Proof.
  intros [->|(_ & _ & Hm)] Hl; [done|]. induction Hm as [|h h' l l' Hh _ IH]; [done|]. inversion_clear Hl.
  constructor; [|by apply IH]. destruct Hh as [->|[_ ->]%clears_kept]; done.
Qed.

Lemma hold_uncertain_spec n unc l' ids :
  hold_uncertain n unc = Ok (inr (l', ids)) → Forall (λ h, mh_rsid h = rn_rsid n) (rn_ledger n) →
  installs (rn_rsid n) (rn_ledger n) l' ∧
  (is_Some (rn_acceptance n) → pd_originRedelivery (rn_pending n) = false →
   Forall (λ u, scope_wire (um_mutationScope u)) unc →
   ∀ u, u ∈ unc → covered (rn_rsid n) l' (um_originIdempotencyKey u) (um_mutationScope u)).
Proof.
  intros Hh Hrs. assert (installs (rn_rsid n) (rn_ledger n) (rn_ledger n)) as Hsame.
  { exists []. split; [by rewrite app_nil_r|constructor]. }
  unfold hold_uncertain in Hh. cbv zeta in Hh.
  destruct (pd_originRedelivery (rn_pending n)); [by injection Hh as <- <-|].
  destruct (negb _ && is_null (rn_acceptance n)) eqn:Epre.
  { injection Hh as <- <-. split; [done|]. bsimp. destruct (rn_acceptance n); [done|]. by intros []%is_Some_None. }
  apply bind_ok in Hh as (r & Hr & Hh). apply install_cases in Hr as (cs & Hcs & Hc).
  apply candidates_spec in Hcs as (Hok & _ & Hcov). rewrite Forall_forall in Hok, Hrs.
  destruct r as [l1 holds|l1 holds|l1 conflicts].
  - destruct Hc as (-> & -> & _). injection Hh as <- <-. split.
    + exists cs. split; [apply sort_by_perm|]. apply Forall_forall. intros c Hcc. by destruct (Hok c Hcc) as (_ & ? & ?).
    + intros _ _ Hw u Hu. destruct (Hcov Hw u Hu) as (c & Hcc & Ho & Hconf). destruct (Hok c Hcc) as (Hc & Hcr & Hst).
      exists c. split; [apply sort_by_elem, elem_of_app; by right|]. split; [unfold isUncleared; by rewrite Hst|].
      split; [done|]. by right.
  - destruct Hc as [-> Hall]. injection Hh as <- <-. split; [done|]. intros _ _ Hw u Hu.
    destruct (Hcov Hw u Hu) as (c & Hcc & Ho & Hconf). rewrite Forall_forall in Hall.
    destruct (Hall c Hcc) as (h & Hin & Hun & _ & Hk). exists h. split; [done|]. split; [done|]. split; [by apply Hrs|]. left.
    exists (mh_mutationScope c). split; [|done]. rewrite Hk. destruct (Hok c Hcc) as (Hc & _). apply Hc.
  - destruct Hc as [-> _]. destruct (forallb _ unc) eqn:Ex; [|done]. injection Hh as <- <-. split; [done|].
    intros _ _ _ u Hu. rewrite forallb_true in Ex. specialize (Ex u Hu). apply existsb_true in Ex as (h & Hin & Hx). bsimp.
    exists h. split; [done|]. split; [done|]. split; [done|]. by right.
Qed.

Lemma observed_same p acceptance evidence : same_dispatch p (with_observation p acceptance evidence).
Proof. by repeat split. Qed.
#[local] Hint Resolve observed_same : rbp.

(** The invariant of the steps of a reconciliation. *)
Record reconciling (n : Reconciled) : Prop := {
  rc_readable : readable (rn_rsid n) (rn_record n);
  rc_pending : rr_pendingDispatch (rn_record n) = Some (rn_pending n);
  rc_accepts : accepts (rn_pending n) (rn_acceptance n) (rr_ledger (rn_record n)) (rn_ledger n) }.

Abbreviation reconciled n := (λ _ : Reply, permitted reconciles (rn_record n)).

Lemma history_stages n l pending status batchTerminal holdIds acceptance reply P :
  (∀ recordedAtMs, P reply (with_histories (rn_record n) l pending (historyWith (rr_dispatchHistory (rn_record n))
     (settled status (rn_pending n) (rn_evidence n) batchTerminal holdIds acceptance recordedAtMs)))) →
  body_stages (record_history readEnvelope readBatch n l pending status batchTerminal holdIds acceptance reply) P.
Proof. intros HP. unfold record_history. cbv zeta. repeat body_step. staged. apply HP. Qed.

Lemma terminal_stages n : reconciling n → body_stages (reconcile_terminal readEnvelope readBatch n) (reconciled n).
Proof.
  intros [Hr Hp Ha]. unfold reconcile_terminal. destruct (rn_acceptance n) as [receipt|] eqn:E.
  - apply history_stages. intros at_ms. by eapply p_terminal.
  - repeat body_step. staged. eapply p_observe; [done|apply observed_same|]. rewrite <- E in Ha. exact Ha.
Qed.

Lemma no_send_stages n : reconciling n → body_stages (reconcile_no_send readEnvelope readBatch n) (reconciled n).
Proof.
  intros [Hr Hp Ha]. unfold reconcile_no_send. body_step; [body_step|]. apply history_stages. intros at_ms. by eapply p_terminal.
Qed.

Lemma reconcile_verification_stages n : reconciling n → body_stages (reconcile_verification n) (reconciled n).
Proof. intros [Hr Hp Ha]. unfold reconcile_verification. repeat body_step. staged. eapply p_observe; [done|apply observed_same|exact Ha]. Qed.

Lemma settles_accepted n : settles (rn_pending n) (if is_null (rn_acceptance n) then Some (rn_accepted n) else None).
Proof. destruct (is_null _); [apply observed_same|done]. Qed.

Lemma late_stages n : reconciling n → body_stages (reconcile_late readEnvelope readBatch n) (reconciled n).
Proof.
  intros [Hr Hp Ha]. unfold reconcile_late. cbv zeta. body_step; [|body_step]. destruct p as [i history].
  apply bind_Some in Hm as (i' & Hlate & Hm). apply bind_Some in Hm as (history' & Hi & Hm). destruct (bool_decide _) eqn:Est in Hm; [|done]. injection Hm as -> ->.
  repeat body_step. staged. bsimp. eapply p_late; try done; [|apply settles_accepted].
  intros Ho. unfold late_origin in Hlate. rewrite Ho in Hlate. apply find_index_some in Hlate as [(x & Hx & E) _]. bsimp. congruence.
Qed.

(** The pending dispatch says whether it is an atomic batch. *)
Lemma pending_atomic p rsid derived :
  assertPendingIntegrity readEnvelope readBatch p rsid = Ok tt → deriveEnvelope readEnvelope (pd_envelope p) (Some rsid) = Ok derived →
  pd_batchAtomic p = requiredSessionCapabilities derived.
Proof.
  unfold assertPendingIntegrity. intros Hp Hd. rewrite Hd in Hp. cbn [mbind result_bind] in Hp.
  do 6 (apply bind_ok in Hp as (? & _ & Hp)). apply bind_ok in Hp as ([] & Hb%reject_if_ok & _). by bsimp.
Qed.

Lemma indeterminate_stages n : reconciling n → body_stages (reconcile_indeterminate readEnvelope readBatch n) (reconciled n).
Proof.
  intros [Hr Hp Ha]. unfold reconcile_indeterminate. cbv zeta. repeat body_step. destruct p as [l' ids].
  apply history_stages. intros at_ms.
  match goal with H : deriveEnvelope _ _ _ = Ok ?d |- _ => rename d into derived; rename H into Hd end.
  match goal with H : hold_uncertain _ _ = Ok _ |- _ => rename H into Hh end. subst.
  apply hold_uncertain_spec in Hh as [Hinst Hcov]; [|by eapply accepts_rsid; [exact Ha|apply Hr]].
  pose proof (rd_rsid _ _ Hr) as Er. eapply p_indeterminate; try done; [apply settles_accepted|by rewrite Er|].
  intros Hnext Ho Hw e He. rewrite Er. pose proof (pending_atomic _ _ _ (rd_pending _ _ Hr _ Hp) Hd) as Eatomic.
  unfold open_entries in Hw, He. rewrite Eatomic in Hw, He. cbn [hi_journalRecords settled] in Hw, He.
  refine (Hcov _ Ho _ (uncertain_mutation e) _); [|apply Forall_fmap; exact Hw|by apply list_elem_of_fmap_2].
  by destruct (rn_acceptance n).
Qed.

Lemma evidence_stages n noSend : reconciling n → body_stages (reconcile_evidence readEnvelope readBatch n noSend) (reconciled n).
Proof.
  intros Hn. unfold reconcile_evidence. repeat body_step;
    auto using no_send_stages, reconcile_verification_stages, terminal_stages, late_stages, indeterminate_stages.
Qed.

Lemma reconcile_stages tenantId rsid envelopeDigest stored :
  body_stages (reconcile_pending_dispatch readEnvelope readBatch tenantId rsid envelopeDigest stored) (λ _, steps stored rsid reconciles).
Proof.
  unfold reconcile_pending_dispatch. cbv zeta. repeat body_step; loaded Hload;
    match goal with H : clear_accepted _ _ _ = Ok _ |- _ => subst; apply clear_accepted_spec in H as Hclear; [|apply Hload] end.
  - eapply stages_mono; [apply evidence_stages; by constructor|]. done.
  - unfold reconcile_accepted_only. destruct (_ && _); [|by apply stages_return; [constructor|]]. apply stages_record.
    split; [done|]. by eapply p_observe; [done|apply observed_same|].
Qed.

(** ** Evidence *)

Lemma record_verification_stages rsid envelopeDigest stored :
  body_stages (record_verification readEnvelope readBatch rsid envelopeDigest stored) (λ _, steps stored rsid evidences).
Proof.
  unfold record_verification. cbv zeta. repeat body_step; subst; try done. staged. loaded Hload. split; [done|].
  match goal with H : accepted_verification _ _ _ = inr _ |- _ => unfold accepted_verification in H; rename H into Hacc end.
  destruct (rr_pendingDispatch _) as [pending|] eqn:Ep; [|done]. destruct (pd_verificationHoldId pending); [|done].
  destruct (readEnvelope _) as [[? ? ? ? ? ? []]|]; try done. destruct (_ || _) eqn:Ek in Hacc; [done|].
  destruct (pd_bridgeAcceptance pending) as [receipt|] eqn:Er; [|done]. destruct (pd_journalAttestation pending); [|done].
  destruct (pd_journalRecords pending) as [|? []]; try done. destruct (negb _) in Hacc; [done|]. injection Hacc as <- _ _ _ _ _.
  bsimp. eapply p_verified; try done. eapply verification_moves; [apply Hload|done|done].
Qed.

Lemma imap_pair_lookup {A} (xs : list A) i x : (i, x) ∈ imap pair xs → xs !! i = Some x.
Proof. intros (j & Hj)%list_elem_of_lookup. rewrite list_lookup_imap in Hj. apply fmap_Some in Hj as (y & Hy & [= -> ->]). done. Qed.

Lemma select_late_in rsid holdId originIdempotencyKey retained indexed found i history journal :
  select_late readEnvelope rsid holdId originIdempotencyKey retained indexed = Ok (found, Some (i, history, journal)) →
  (i, history) ∈ indexed.
Proof.
  revert retained. induction indexed as [|[j x] indexed IH]; intros retained Hs; [done|]. cbn [select_late] in Hs.
  destruct (negb (retains_origin _ _ _)); [right; by eapply IH|]. destruct (negb _); [right; by eapply IH|].
  apply bind_ok in Hs as ([journal'|] & _ & Hs); [|right; by eapply IH]. injection Hs as _ -> -> _. by left.
Qed.

Lemma record_late_stages rsid holdId originIdempotencyKey stored :
  body_stages (record_late readEnvelope readBatch rsid holdId originIdempotencyKey stored) (λ _, steps stored rsid evidences).
Proof.
  unfold record_late. cbv zeta. repeat body_step; subst; try done. staged. loaded Hload. split; [done|].
  match goal with H : select_late _ _ _ _ _ _ = Ok _ |- _ => apply select_late_in in H as Hin end.
  apply list_elem_of_In, in_rev, list_elem_of_In, imap_pair_lookup in Hin. bsimp.
  eapply p_late_evidence; try done; [by destruct (rr_resolutionPlan _)|]. eapply late_moves; [apply Hload|done|done].
Qed.

(** ** The operations are steps of the machine *)

Inductive Operation :=
| op_acquire (tenantId rsid attemptId : jstr)
| op_release (tenantId rsid attemptId : jstr)
| op_preflight (tenantId rsid : jstr) (mutationScopes : list MutationScope)
| op_plan (tenantId rsid : jstr) (mutationScopes : list MutationScope) (decisions : list PlanDecision)
| op_prepare (confirmationAuthority : bool) (input : PrepareMutation)
| op_resume (tenantId rsid sessionBindingId connectionId : jstr)
| op_redeliver (input : OriginRedelivery)
| op_verify (input : PrepareVerification)
| op_reconcile (tenantId rsid envelopeDigest : jstr)
| op_verification_evidence (tenantId rsid envelopeDigest : jstr)
| op_late_evidence (tenantId rsid holdId originIdempotencyKey : jstr)
| op_snapshot (tenantId rsid : jstr).

Definition perform (op : Operation) : program Reply :=
  match op with
  | op_acquire t r a => acquireInvocationWindow readEnvelope readBatch t r a
  | op_release t r a => releaseInvocationWindow readEnvelope readBatch t r a
  | op_preflight t r scopes => preflightMutation readEnvelope readBatch t r scopes
  | op_plan t r scopes decisions => planRecoveryClearances readEnvelope readBatch t r scopes decisions
  | op_prepare authority input => prepareMutationDispatch readEnvelope readBatch authority input
  | op_resume t r s c => resumePendingDispatch readEnvelope readBatch t r s c
  | op_redeliver input => prepareOriginRedelivery readEnvelope readBatch input
  | op_verify input => prepareVerificationDispatch readEnvelope readBatch input
  | op_reconcile t r d => reconcilePendingDispatch readEnvelope readBatch t r d
  | op_verification_evidence t r d => recordVerificationEvidence readEnvelope readBatch t r d
  | op_late_evidence t r h k => recordLateTerminalEvidence readEnvelope readBatch t r h k
  | op_snapshot t r => snapshot readEnvelope readBatch t r
  end.

(** What an operation may do to a record; [None]: nothing. *)
Definition act_of (op : Operation) : option act :=
  match op with
  | op_acquire _ _ a => Some (acquires a)
  | op_release _ _ a => Some (releases a)
  | op_plan _ _ _ _ => Some plans
  | op_prepare _ input => Some (prepares (pm_attemptId input))
  | op_resume _ _ _ _ => Some retransmits
  | op_redeliver input => Some (redelivers_origin (or_attemptId input))
  | op_verify input => Some (verifies (pv_attemptId input))
  | op_reconcile _ _ _ => Some reconciles
  | op_verification_evidence _ _ _ | op_late_evidence _ _ _ _ => Some evidences
  | op_preflight _ _ _ | op_snapshot _ _ => None
  end.

(** The session an operation is for. *)
Definition is_for (op : Operation) (tenantId rsid : jstr) : Prop :=
  match op with
  | op_acquire t r _ | op_release t r _ | op_preflight t r _ | op_plan t r _ _ | op_resume t r _ _ | op_reconcile t r _
  | op_verification_evidence t r _ | op_late_evidence t r _ _ | op_snapshot t r => t = tenantId ∧ r = rsid
  | op_prepare _ input => pm_tenantId input = tenantId ∧ en_rsid <$> readEnvelope (pm_envelope input) = Some rsid
  | op_redeliver input => or_tenantId input = tenantId ∧ or_rsid input = rsid
  | op_verify input => pv_tenantId input = tenantId ∧ en_rsid <$> readEnvelope (pv_envelope input) = Some rsid
  end.

Lemma derive_read value rsid d : deriveEnvelope readEnvelope value rsid = Ok d → readEnvelope value = Some (dv_envelope d).
Proof.
  unfold deriveEnvelope, valid_envelope. intros Hd. apply bind_ok in Hd as (read & Hread & Hd). apply bind_ok in Hread as (valid & _ & Hread).
  destruct valid; injection Hread as <-; [|done]. destruct (readEnvelope value) as [e|]; [|done].
  repeat (apply bind_ok in Hd as (? & _ & Hd)). by injection Hd as <-.
Qed.

(** The transactions a history has opened, with what they read. *)
Definition opened (e : event call answer) : list (jstr * jstr * Snapshot) :=
  let 'Event c a := e in
  match c return answer c → _ with
  | r_open tenantId rsid => λ a, match a with Ok (inr read) => [(tenantId, rsid, read)] | _ => [] end
  | _ => λ _, []
  end a.

(** What is committed was read by an open transaction and follows from what was read. *)
Definition proper (op : Operation) (h : list (event call answer)) (c : call) : Prop :=
  match c with
  | r_commit tenantId rsid read staged =>
      (tenantId, rsid, read) ∈ h ≫= opened ∧ elsewhere (st_confirmation staged) ∧ is_for op tenantId rsid ∧
      ∀ next, st_record staged = Some next → ∃ y, act_of op = Some y ∧ steps read rsid y next
  | _ => True
  end.

Definition answers (r : result js_error Reply) : Prop := ∃ reply, r = Ok reply.

Lemma transact_proper op tenantId rsid b h :
  is_for op tenantId rsid →
  (∀ stored, body_stages (b stored) (λ _ next, ∃ y, act_of op = Some y ∧ steps stored rsid y next)) →
  wp (proper op) (transact tenantId rsid b) h (λ _, answers).
Proof.
  intros Hfor Hb. unfold transact. apply wp_try_with, wp_bind, wp_call; [done|]. intros [[failure|snapshot]|e]; [by eexists|..|by eexists].
  cbn. apply wp_bind.
  eapply wp_mono; [apply wp_grows, (wp_allow off_store), Hb; by intros h' []|].
  intros h' [[reply staged]|e] [Hs (l & ->)]; [|by eexists]. split.
  { destruct Hs. split; [|done]. rewrite bind_app. apply elem_of_app. right. by left. }
  intros [failure|e]; by eexists.
Qed.

Lemma attempts_proper op n p :
  (∀ h, wp (proper op) p h (λ _, answers)) → ∀ h, wp (proper op) (attempts n p) h (λ _, answers).
Proof.
  intros Hp. induction n as [|n IH]; intros h; cbn [attempts]; apply wp_bind; (eapply wp_mono; [apply Hp|]);
    intros h' r (reply & ->); [by eexists|]. destruct (is_conflict reply); [apply IH|by eexists].
Qed.

Lemma checked_proper {A} op (checks : result js_error A) k h :
  (∀ a, checks = Ok a → wp (proper op) (k a) h (λ _, answers)) → wp (proper op) (checked checks k) h (λ _, answers).
Proof. intros Hk. destruct checks as [a|e]; [by apply Hk|]. by eexists. Qed.

Lemma one_act (x : act) P b : body_stages b (λ _, P x) → body_stages b (λ _ next, ∃ y, Some x = Some y ∧ P y next).
Proof. intros Hb. eapply stages_mono; [apply Hb|]. cbn. eauto. Qed.

(** Each operation but [prepareMutationDispatch] answers, and commits only what follows. *)
Lemma perform_proper op h :
  match op with op_prepare _ _ => False | _ => True end → wp (proper op) (perform op) h (λ _, answers).
Proof.
  destruct op; intros Hop; try done; cbn [perform].
  - apply checked_proper. intros _ _. apply wp_call; [done|]. intros clock. apply checked_proper. intros at_ms _.
    apply attempts_proper. intros h'. apply transact_proper; [done|]. intros stored. apply one_act, acquire_stages.
  - apply checked_proper. intros _ _. apply attempts_proper. intros h'. apply transact_proper; [done|]. intros stored.
    apply one_act, release_stages.
  - apply checked_proper. intros scopes _. apply transact_proper; [done|]. intros stored. apply preflight_stages.
  - apply checked_proper. intros scopes _. apply transact_proper; [done|]. intros stored. apply one_act, plan_stages.
  - apply checked_proper. intros _ _. apply transact_proper; [done|]. intros stored. apply one_act, resume_stages.
  - apply checked_proper. intros redelivery Hr. apply transact_proper; [done|]. intros stored.
    apply one_act, redelivery_stages, origin_check_derived, Hr.
  - apply checked_proper. intros derived [Hd Hread]%verification_check_derived. destruct (verification_of _); [|by eexists].
    apply transact_proper; [cbn; by rewrite (derive_read _ _ _ Hd)|]. intros stored. by apply one_act, verification_stages.
  - apply checked_proper. intros _ _. apply transact_proper; [done|]. intros stored. apply one_act, reconcile_stages.
  - apply checked_proper. intros _ _. apply transact_proper; [done|]. intros stored. apply one_act, record_verification_stages.
  - apply checked_proper. intros _ _. apply transact_proper; [done|]. intros stored. apply one_act, record_late_stages.
  - apply transact_proper; [done|]. intros stored. unfold body_stages. intros h'. unfold load, lift. destruct (loadRecord _ _ _ _); [by split; [constructor|]|done].
Qed.

(** [prepareMutationDispatch] answers too, unless its first reading of the clock throws. *)
Lemma prepare_proper authority input h :
  wp (proper (op_prepare authority input)) (prepareMutationDispatch readEnvelope readBatch authority input) h
    (λ h' r, answers r ∨ ∃ e, r = Throw e ∧ Event r_clock (Throw e) ∈ h').
Proof.
  unfold prepareMutationDispatch, checked. destruct (prepare_mutation_check _ _ _) as [checks|e] eqn:Hc; [|left; by eexists].
  apply prepare_check_derived in Hc. cbv zeta. apply wp_bind, wp_call; [done|]. intros [at_ms|e]; apply wp_done.
  - eapply wp_mono; [apply transact_proper; [cbn; by rewrite (derive_read _ _ _ Hc)|]; intros stored; apply one_act; by apply prepare_confirmed_stages|]. intros h' r Hr. by left.
  - right. exists e. split; [done|]. by left.
Qed.

Lemma perform_commits op h : wp (proper op) (perform op) h (λ _ _, True).
Proof.
  destruct op; try (eapply wp_mono; [apply perform_proper; exact I|done]). eapply wp_mono; [apply prepare_proper|done].
Qed.

(** ** What the machine keeps *)

Definition dispatches (y : act) (attemptId : jstr) : Prop :=
  y = prepares attemptId ∨ y = redelivers_origin attemptId ∨ y = verifies attemptId.

(** A window is given up only by the attempt that has it, with nothing pending. *)
Lemma permitted_window y r r' w :
  permitted y r r' → rr_invocationWindow r = Some w →
  rr_invocationWindow r' = Some w ∨ (y = releases (iw_attemptId w) ∧ rr_pendingDispatch r = None).
Proof.
  intros Hp Hw. destruct Hp; try (by left); [congruence|]. right. split; [|done]. congruence.
Qed.

(** A dispatch becomes pending only for the attempt that has the window. *)
Lemma permitted_dispatch y r r' p :
  permitted y r r' → rr_pendingDispatch r = None → rr_pendingDispatch r' = Some p →
  ∃ a, dispatches y a ∧ owned_by r a.
Proof.
  intros Hp Hn Hs. destruct Hp; cbn in Hs; try congruence; eexists; (split; [|done]); unfold dispatches; auto.
Qed.

Lemma owned_is_some r a : owned_by r a → is_Some (rr_invocationWindow r).
Proof. unfold owned_by. by destruct (rr_invocationWindow r). Qed.

Lemma permitted_pending_window y r r' :
  permitted y r r' → (∀ p, rr_pendingDispatch r = Some p → is_Some (rr_invocationWindow r)) →
  ∀ p, rr_pendingDispatch r' = Some p → is_Some (rr_invocationWindow r').
Proof.
  intros Hp Hinv p Hs. destruct Hp; cbn in *; eauto; try congruence; by eapply owned_is_some.
Qed.

Lemma history_with_digests current next d :
  d ∈ map hi_envelopeDigest (historyWith current next) ↔ d ∈ map hi_envelopeDigest current ∨ d = hi_envelopeDigest next.
Proof.
  unfold historyWith. rewrite map_app, elem_of_app. cbn [map]. rewrite list_elem_of_singleton. split.
  - intros [Hin|?]; [|by right]. left. apply list_elem_of_fmap in Hin as (h & -> & Hin). apply elem_of_filter_bool in Hin as [Hin _].
    by apply list_elem_of_fmap_2.
  - intros [Hin|?]; [|by right]. apply list_elem_of_fmap in Hin as (h & -> & Hin).
    destruct (decide (hi_envelopeDigest h = hi_envelopeDigest next)) as [|Hne]; [by right|left].
    apply list_elem_of_fmap_2, elem_of_filter_bool. split; [done|]. by rewrite bool_decide_false.
Qed.

Lemma insert_digests i histories history history' :
  histories !! i = Some history → hi_envelopeDigest history' = hi_envelopeDigest history →
  map hi_envelopeDigest (<[i := history']> histories) = map hi_envelopeDigest histories.
Proof.
  intros Hi E. rewrite (list_fmap_insert hi_envelopeDigest), E. apply list_insert_id. by rewrite list_lookup_fmap, Hi.
Qed.

(** What was admitted is never forgotten. *)
Lemma permitted_histories y r r' d :
  permitted y r r' → d ∈ map hi_envelopeDigest (rr_dispatchHistory r) → d ∈ map hi_envelopeDigest (rr_dispatchHistory r').
Proof.
  intros Hp Hd. destruct Hp; cbn; try done; try (apply history_with_digests; by left); by erewrite insert_digests by eauto.
Qed.

(** The dispatches that were admitted as new. *)
Definition admitted (r : GatewayRecoveryRecord) : list jstr :=
  match rr_pendingDispatch r with
  | Some p => if pd_originRedelivery p then [] else [pd_envelopeDigest p]
  | None => []
  end ++ map hi_envelopeDigest (rr_dispatchHistory r).

Lemma admitted_digests r d : d ∈ admitted r → d ∈ digests r.
Proof.
  unfold admitted, digests. rewrite !elem_of_app. intros [Hd|Hd]; [left|by right].
  destruct (rr_pendingDispatch r) as [p|]; [|done]. destruct (pd_originRedelivery p); [by apply elem_of_nil in Hd|done].
Qed.

Lemma permitted_admitted y r r' d : permitted y r r' → d ∈ admitted r → d ∈ admitted r'.
Proof.
  intros Hp Hd. unfold admitted in *. rewrite elem_of_app in *. destruct Hd as [Hd|Hd]; [|right; by eapply permitted_histories].
  destruct (rr_pendingDispatch r) as [p|] eqn:Ep; [|by apply elem_of_nil in Hd]. destruct (pd_originRedelivery p) eqn:Eo; [by apply elem_of_nil in Hd|].
  apply list_elem_of_singleton in Hd as ->.
  destruct Hp as [| | | | | |p' connectionId v r Hp'|p' p'' l r Hp' Hsame|p' hi acc l r Hp' Hdg|p' hi next l l' r Hp' Hdg _ Hset
    |p' i hi hi' next acc l r Hp' Hi _ _ Hd _ _ Hdg Hset|p' hi audit l r Hp' _ _ Hdg|i hi hi' audit l r]; cbn in *; rewrite ?Ep in *; simplify_eq.
  - left. rewrite Eo. by left.
  - left. destruct Hsame as (_ & _ & E & _ & _ & ->). rewrite Eo, E. by left.
  - right. apply history_with_digests. by right.
  - right. apply history_with_digests. by right.
  - right. erewrite insert_digests by done. rewrite <- Hdg by done. apply list_elem_of_fmap_2. by eapply list_elem_of_lookup_2.
  - right. apply history_with_digests. by right.
  - left. rewrite Eo. by left.
Qed.

(** A dispatch that becomes pending is new, or the redelivery of an origin. *)
Lemma permitted_fresh y r r' p :
  permitted y r r' → rr_pendingDispatch r = None → rr_pendingDispatch r' = Some p → pd_originRedelivery p = false → fresh r p.
Proof. intros Hp Hn Hs Ho. destruct Hp; cbn in Hs; simplify_eq; try done; congruence. Qed.

Lemma permitted_past_holds y r r' p :
  permitted y r r' → rr_pendingDispatch r = None → rr_pendingDispatch r' = Some p → pd_originRedelivery p = false →
  past_holds (rr_rsid r) (rr_ledger r') p ∧ ledger_moves (resolves (pd_envelopeDigest p)) (rr_ledger r) (rr_ledger r').
Proof.
  intros Hp Hn Hs Ho. destruct Hp; cbn in *; simplify_eq; try congruence; try done. split; [|apply moves_refl].
  match goal with E : pd_mutationEntries p = [] |- _ => intros h Hh; rewrite E in Hh end.
  apply conflicting_elem in Hh as (_ & _ & _ & s & Hin & _). by apply elem_of_nil in Hin.
Qed.

(** ** The fate of a hold *)

(** A hold stays as it is, takes evidence, is resolved for the dispatch that becomes
    pending, or is cleared by the pending dispatch it was resolved for. *)
Inductive fate (y : act) (r r' : GatewayRecoveryRecord) (h : MutationHold) : MutationHold → Prop :=
| fate_same : fate y r r' h h
| fate_evidence h' : y = evidences → gains_evidence h h' → fate y r r' h h'
| fate_resolved p h' :
    rr_pendingDispatch r = None → rr_pendingDispatch r' = Some p → resolves (pd_envelopeDigest p) h h' → fate y r r' h h'
| fate_cleared p h' :
    y = reconciles → rr_pendingDispatch r = Some p → pd_originRedelivery p = false → clears (pd_envelopeDigest p) h h' →
    fate y r r' h h'.

Lemma moves_in R l l' h : ledger_moves R l l' → h ∈ l → ∃ h', h' ∈ l' ∧ (h' = h ∨ R h h').
Proof.
  intros Hm (i & Hi)%list_elem_of_lookup. destruct (Forall2_lookup_l _ _ _ _ _ Hm Hi) as (h' & Hi' & HR).
  exists h'. split; [by eapply list_elem_of_lookup_2|done].
Qed.

Lemma accepts_in y r r' p acceptance l h :
  accepts p acceptance (rr_ledger r) l → h ∈ rr_ledger r → y = reconciles → rr_pendingDispatch r = Some p →
  ∃ h', h' ∈ l ∧ fate y r r' h h'.
Proof.
  intros [->|(_ & Ho & Hm)] Hin Hy Hp; [exists h; split; [done|constructor]|].
  destruct (moves_in _ _ _ _ Hm Hin) as (h' & Hin' & [->|Hc]); [exists h; split; [done|constructor]|].
  exists h'. split; [done|]. by eapply fate_cleared.
Qed.

Lemma permitted_fate y r r' h : permitted y r r' → h ∈ rr_ledger r → ∃ h', h' ∈ rr_ledger r' ∧ fate y r r' h h'.
Proof.
  intros Hp Hin. destruct Hp; cbn [rr_ledger with_window with_plan with_pending with_histories with_prepared with_evidence with_decision];
    try (exists h; split; [done|constructor]); try (by eapply accepts_in).
  - match goal with H : ledger_moves _ _ _ |- _ => destruct (moves_in _ _ _ _ H Hin) as (h' & Hin' & [->|Hc]) end;
      [exists h; split; [done|constructor]|]. exists h'. split; [done|]. by eapply fate_resolved.
  - match goal with H : accepts _ _ _ _ |- _ => eapply accepts_in in H as (h' & Hin' & Hf); [|done..] end.
    match goal with H : installs _ _ _ |- _ => destruct H as (new & Hperm & _) end.
    exists h'. split; [rewrite Hperm; apply elem_of_app; by left|exact Hf].
  - match goal with H : ledger_moves _ _ _ |- _ => destruct (moves_in _ _ _ _ H Hin) as (h' & Hin' & [->|Hc]) end;
      [exists h; split; [done|constructor]|]. exists h'. split; [done|]. by apply fate_evidence.
  - match goal with H : ledger_moves _ _ _ |- _ => destruct (moves_in _ _ _ _ H Hin) as (h' & Hin' & [->|Hc]) end;
      [exists h; split; [done|constructor]|]. exists h'. split; [done|]. by apply fate_evidence.
Qed.

(** ** Stranded holds *)

(** A hold that is resolved for a dispatch that is over. *)
Definition stranded (r : GatewayRecoveryRecord) (digest : jstr) (h : MutationHold) : Prop :=
  h ∈ rr_ledger r ∧ resolved_for digest h ∧ digest ∈ map hi_envelopeDigest (rr_dispatchHistory r) ∧
  ∀ p, rr_pendingDispatch r = Some p → pd_envelopeDigest p = digest → pd_originRedelivery p = true.

(** While a dispatch is pending no other one is. *)
Lemma permitted_same_dispatch y r r' p p' :
  permitted y r r' → rr_pendingDispatch r = Some p → rr_pendingDispatch r' = Some p' → same_dispatch p p'.
Proof.
  intros Hp Hs Hs'. destruct Hp as [| | | | | |p0 connectionId v r Hp0|p0 p0' l r Hp0 Hsame|p0 hi acc l r Hp0|p0 hi next l l' r Hp0 _ _ Hset
    |p0 i hi hi' next acc l r Hp0 _ _ _ _ _ _ _ Hset|p0 hi audit l r Hp0|i hi hi' audit l r]; cbn in Hs'; try congruence;
    try (assert (p0 = p) as -> by congruence); try done.
  all: try (by injection Hs' as <-). all: try (by subst next). all: by replace p' with p by congruence.
Qed.

Lemma pending_of_digest y r r' digest :
  permitted y r r' → digest ∈ digests r →
  (∀ p, rr_pendingDispatch r = Some p → pd_envelopeDigest p = digest → pd_originRedelivery p = true) →
  ∀ p, rr_pendingDispatch r' = Some p → pd_envelopeDigest p = digest → pd_originRedelivery p = true.
Proof.
  intros Hp Hd Hold p Hs Hdg. destruct (rr_pendingDispatch r) as [p0|] eqn:Ep.
  - destruct (permitted_same_dispatch _ _ _ _ _ Hp Ep Hs) as (_ & _ & E & _ & _ & ->). apply Hold; congruence.
  - destruct (pd_originRedelivery p) eqn:Eo; [done|]. destruct (permitted_fresh _ _ _ _ Hp Ep Hs Eo) as [[] _]. by rewrite Hdg.
Qed.

(** A stranded hold stays as it is. *)
Lemma stranded_step y r r' digest h : permitted y r r' → stranded r digest h → stranded r' digest h.
Proof.
  intros Hp (Hin & Hres & Hd & Hpend). assert (digest ∈ digests r) as Hd' by (apply elem_of_app; by right). split.
  - destruct (permitted_fate _ _ _ _ Hp Hin) as (h' & Hin' & Hf). destruct Hf as [|h' _ (Ht & _)|p h' _ _ (Hst & _)|p h' _ Ep Ho (_ & _ & Hid & _)].
    + done.
    + unfold takes_no_evidence in Ht. destruct Hres as (Hst & _). rewrite Hst in Ht. done.
    + destruct Hres as (Hst' & _). congruence.
    + destruct Hres as (_ & _ & Hid'). rewrite Hid' in Hid. injection Hid as ->. rewrite (Hpend p Ep eq_refl) in Ho. done.
  - split; [done|]. split; [by eapply permitted_histories|]. by eapply pending_of_digest.
Qed.

(** A dispatch that would conflict with a stranded hold is never prepared. *)
Lemma stranded_blocks y r r' digest h p :
  permitted y r r' → stranded r digest h → rr_pendingDispatch r = None → rr_pendingDispatch r' = Some p → pd_originRedelivery p = false →
  h ∉ conflictingMutationHolds (rr_ledger r') (rr_rsid r) (map me_mutationScope (pd_mutationEntries p)).
Proof.
  intros Hp (Hin & Hres & Hd & _) Hn Hs Ho Hc. destruct (permitted_past_holds _ _ _ _ Hp Hn Hs Ho) as [Hpast _].
  destruct (Hpast h Hc) as [(_ & _ & Hid) _]. destruct Hres as (_ & _ & Hid'). rewrite Hid in Hid'. injection Hid' as <-.
  destruct (permitted_fresh _ _ _ _ Hp Hn Hs Ho) as [[] _]. apply elem_of_app. by right.
Qed.
End machine.
End RecoveryMachine.
