(* ===== verification/RecoverySystem.v ===== *)
(** Concurrent clients of the recovery authority, over a transactional store.

    Any number of operations run at once, of one gateway or of several that share the
    store; between two calls of one of them any of the others may run.  The store is any
    that keeps the promises of [TransactionalStore]; what it answers when it does not
    commit, and whether a commit whose answer is lost took place, is left open, and so is
    everything the ports answer.

    [recovery_refines] is the refinement: whatever the interleaving, the record of a
    session changes only by a permitted step of [RecoveryMachine] taken by the operation
    that commits.  The other theorems are what the machine promises, for the system. *)

From stdpp Require Import relations.
From S2P Require Import Prelude JsString JsValue JsMap Canonical Sha256 JsonText Sequence Journal MutationHold Envelope.
From S2P Require Import ProtocolStore Identifiers InvocationContext Confirmation Effects RecoveryData Recovery RecoveryMachine.

Module RecoverySystem.
Import Canonical Identifiers.
Import Journal MutationHold MutationHoldFacts Envelope RecoveryData Recovery RecoveryMachine.
Import ProtocolStore(TransactionalStore, ts_state, ts_inv, ts_find, ts_commit, TransactionalStoreOk, StoreWrite, sw_namespace,
  sw_key, sw_value, sw_expect, sr_value, sr_version, sr_tenantId).

Section system.
Context `{Hasher} {F64 : JsonText.Float64} {ZD : Zod}.
Context (readEnvelope : jsval → option DispatchEnvelope) (readBatch : jsval → option BatchCarrier).
Context {ST : TransactionalStore} {STOk : TransactionalStoreOk ST}.
(** The record a stored value stands for, if it has the shape of one. *)
Context (decode : jsval → option GatewayRecoveryRecord).

(** ** The system *)

(** An operation in progress: what is left of it, and what it did. *)
Abbreviation thread := (Operation * program Reply * list (event call answer))%type.

Record System := { sy_store : ts_state; sy_threads : list thread }.

Definition started (s : ts_state) : System := {| sy_store := s; sy_threads := [] |}.

Definition reads (s : ts_state) (tenantId rsid : jstr) (found : option StoredRecovery) : Prop :=
  match ts_find s tenantId GATEWAY_RECOVERY_NAMESPACE rsid with
  | None => found = None
  | Some record => ∃ value, decode (sr_value record) = Some value ∧
      found = Some {| sv_value := value; sv_tenantId := sr_tenantId record; sv_version := sr_version record |}
  end.

(** The writes of a transaction; the record is written as some JSON that stands for it. *)
Definition writes (read : Snapshot) (staged : Staged) (ws : list StoreWrite) : Prop :=
  match st_record staged with
  | None => ws = st_confirmation staged
  | Some next => ∃ value, decode value = Some next ∧ JsonTextFacts.json_tree value = true ∧
      ws = st_confirmation staged ++ [record_write read next value]
  end.

Definition commits (s : ts_state) (tenantId : jstr) (read : Snapshot) (staged : Staged) (s' : ts_state) : Prop :=
  ∃ ws, writes read staged ws ∧ ts_commit s tenantId ws s'.

(** The answer of a call: the store answers its own, a port answers in any way at all. *)
Definition served (s : ts_state) (c : call) (a : answer c) (s' : ts_state) : Prop :=
  match c return answer c → Prop with
  | r_open tenantId rsid => λ a, s' = s ∧
      ∀ read, a = Ok (inr read) → reads s tenantId rsid (sn_recovery read) ∧ sn_read read = ts_find s tenantId
  | r_commit tenantId rsid read staged => λ a, (s' = s ∧ a ≠ Ok None) ∨ commits s tenantId read staged s'
  | _ => λ _, s' = s
  end a.

(** An operation begins, or makes its next call, or someone else uses the store: other
    namespaces of it.  The gateway's sessions keep to that with one exception, which is
    not in this relation: retiring the source of a migration deletes its recovery record
    (bridgeSession.ts 14528-14534). *)
Inductive advances : System → System → Prop :=
| advance_start op s ts :
    advances {| sy_store := s; sy_threads := ts |}
             {| sy_store := s; sy_threads := ts ++ [(op, perform readEnvelope readBatch op, [])] |}
| advance_call i op c k h a s s' ts :
    ts !! i = Some (op, Call c k, h) → served s c a s' →
    advances {| sy_store := s; sy_threads := ts |} {| sy_store := s'; sy_threads := <[i := (op, k a, Event c a :: h)]> ts |}
| advance_other tenantId ws s s' ts :
    ts_commit s tenantId ws s' → elsewhere ws →
    advances {| sy_store := s; sy_threads := ts |} {| sy_store := s'; sy_threads := ts |}.

(** The record of a session. *)
Definition record_at (sys : System) (tenantId rsid : jstr) : GatewayRecoveryRecord :=
  match ts_find (sy_store sys) tenantId GATEWAY_RECOVERY_NAMESPACE rsid with
  | None => emptyRecord rsid
  | Some record => default (emptyRecord rsid) (decode (sr_value record))
  end.

Definition running (sys : System) (op : Operation) : Prop := ∃ i p h, sy_threads sys !! i = Some (op, p, h).

(** ** Records do not change under a transaction unnoticed *)

(** What was read is older than the store, or it is still there. *)
Definition aged (s : ts_state) (tenantId rsid : jstr) (found : option StoredRecovery) : Prop :=
  match found with
  | None => True
  | Some stored => ∃ record, ts_find s tenantId GATEWAY_RECOVERY_NAMESPACE rsid = Some record ∧
      sv_version stored <= sr_version record ∧
      (sv_version stored = sr_version record → decode (sr_value record) = Some (sv_value stored))
  end.

Record thread_inv (s : ts_state) (th : thread) : Prop := {
  ti_proper : wp (proper readEnvelope readBatch th.1.1) th.1.2 th.2 (λ _ _, True);
  ti_aged tenantId rsid read : (tenantId, rsid, read) ∈ th.2 ≫= opened → aged s tenantId rsid (sn_recovery read) }.

Record system_inv (sys : System) : Prop := {
  si_store : ts_inv (sy_store sys);
  si_threads : Forall (thread_inv (sy_store sys)) (sy_threads sys) }.

(** A write of the record: it found what was read, and put a new version in its place. *)
Lemma commit_record s t read staged s' rsid next :
  ts_inv s → commits s t read staged s' → st_record staged = Some next → rr_rsid next = rsid →
  aged s t rsid (sn_recovery read) →
  match ts_find s t GATEWAY_RECOVERY_NAMESPACE rsid with
  | None => current (sn_recovery read) rsid = emptyRecord rsid
  | Some record => decode (sr_value record) = Some (current (sn_recovery read) rsid)
  end ∧
  ∃ record', ts_find s' t GATEWAY_RECOVERY_NAMESPACE rsid = Some record' ∧ decode (sr_value record') = Some next ∧
    ∀ record, ts_find s t GATEWAY_RECOVERY_NAMESPACE rsid = Some record → sr_version record < sr_version record'.
Proof.
  intros Hs (ws & Hw & Hc) Hst Hr Hage. unfold writes in Hw. rewrite Hst in Hw. destruct Hw as (v & Hv & Hj & ->).
  set (w := record_write read next v) in *. assert (w ∈ st_confirmation staged ++ [w]) as Hin by (apply elem_of_app; right; by left).
  pose proof (ProtocolStore.ts_commit_expect _ _ _ _ _ Hs Hc Hin) as He. pose proof (ProtocolStore.ts_commit_write _ _ _ _ _ Hs Hc Hin) as Hwr.
  cbn in He, Hwr. rewrite Hr in He, Hwr. destruct Hwr as (r' & Hf' & Hver & Hval). split.
  - destruct (sn_recovery read) as [stored|]; cbn in He |- *; [|by rewrite He].
    destruct He as (r & Hf & [= Ever]). destruct Hage as (r2 & Hf2 & _ & Hsame). rewrite Hf in Hf2 |- *. injection Hf2 as <-.
    by apply Hsame.
  - exists r'. split; [done|]. split; [by rewrite Hval|]. intros r Hf. rewrite Hf in Hver. cbn in Hver. lia.
Qed.

(** A transaction that wrote no record of the authority changes none. *)
Lemma elsewhere_frame s t ws s' t' rsid :
  ts_inv s → ts_commit s t ws s' → elsewhere ws →
  ts_find s' t' GATEWAY_RECOVERY_NAMESPACE rsid = ts_find s t' GATEWAY_RECOVERY_NAMESPACE rsid.
Proof.
  intros Hs Hc Hw. eapply ProtocolStore.ts_commit_frame; [done|done|]. right. intros w Hin E. unfold elsewhere in Hw. rewrite Forall_forall in Hw.
  specialize (Hw w Hin). congruence.
Qed.

Lemma permitted_rsid y r r' : permitted readEnvelope y r r' → rr_rsid r' = rr_rsid r.
Proof. by destruct 1. Qed.

(** A commit that follows from what was read is a permitted step. *)
Lemma commit_step s t rsid read staged s' op t' rsid' :
  ts_inv s → commits s t read staged s' → aged s t rsid (sn_recovery read) → elsewhere (st_confirmation staged) →
  is_for readEnvelope op t rsid →
  (∀ next, st_record staged = Some next → ∃ y, act_of op = Some y ∧ steps readEnvelope readBatch read rsid y next) →
  let now s := record_at (started s) t' rsid' in
  (now s' = now s ∧ ts_find s' t' GATEWAY_RECOVERY_NAMESPACE rsid' = ts_find s t' GATEWAY_RECOVERY_NAMESPACE rsid') ∨
  (∃ y, act_of op = Some y ∧ is_for readEnvelope op t' rsid' ∧ readable readEnvelope readBatch rsid' (now s) ∧ permitted readEnvelope y (now s) (now s') ∧
   ∃ record', ts_find s' t' GATEWAY_RECOVERY_NAMESPACE rsid' = Some record' ∧
     ∀ record, ts_find s t' GATEWAY_RECOVERY_NAMESPACE rsid' = Some record → sr_version record < sr_version record').
Proof.
  intros Hs Hc Hage Hw Hfor Hstep now. unfold now, record_at, started; cbn [sy_store].
  destruct (st_record staged) as [next|] eqn:Est.
  - destruct (Hstep next eq_refl) as (y & Hy & Hread & Hp). pose proof (permitted_rsid _ _ _ Hp) as Er. rewrite (rd_rsid _ _ _ _ Hread) in Er.
    destruct (decide ((t', rsid') = (t, rsid))) as [[= -> ->]|Hne].
    + destruct (commit_record _ _ _ _ _ _ _ Hs Hc Est Er Hage) as (Hold & r' & Hf' & Hd' & Hver). right. exists y. split; [done|].
      rewrite Hf'. cbn. rewrite Hd'. cbn.
      assert (match ts_find s t GATEWAY_RECOVERY_NAMESPACE rsid with
              | Some record => default (emptyRecord rsid) (decode (sr_value record)) | None => emptyRecord rsid end
              = current (sn_recovery read) rsid) as ->.
      { destruct (ts_find s t _ rsid) as [r|]; [by rewrite Hold|done]. }
      split; [done|]. split; [done|]. split; [done|]. by exists r'.
    + left. destruct Hc as (ws & Hws & Hc). unfold writes in Hws. rewrite Est in Hws. destruct Hws as (v & _ & _ & ->).
      assert (ts_find s' t' GATEWAY_RECOVERY_NAMESPACE rsid' = ts_find s t' GATEWAY_RECOVERY_NAMESPACE rsid') as ->; [|done].
      eapply ProtocolStore.ts_commit_frame; [done|done|]. destruct (decide (t' = t)) as [->|?]; [right|by left].
      intros w [Hin|Hin%list_elem_of_singleton]%elem_of_app E.
      * unfold elsewhere in Hw. rewrite Forall_forall in Hw. specialize (Hw w Hin). congruence.
      * subst w. cbn in E. congruence.
  - left. destruct Hc as (ws & Hws & Hc). unfold writes in Hws. rewrite Est in Hws. subst ws.
    by rewrite (elsewhere_frame _ _ _ _ t' rsid' Hs Hc Hw).
Qed.

Lemma aged_step s s' t rsid found :
  aged s t rsid found →
  ts_find s' t GATEWAY_RECOVERY_NAMESPACE rsid = ts_find s t GATEWAY_RECOVERY_NAMESPACE rsid ∨
  (∃ record', ts_find s' t GATEWAY_RECOVERY_NAMESPACE rsid = Some record' ∧
     ∀ record, ts_find s t GATEWAY_RECOVERY_NAMESPACE rsid = Some record → sr_version record < sr_version record') →
  aged s' t rsid found.
Proof.
  destruct found as [stored|]; [|done]. intros (r & Hf & Hle & Hsame) [E|(r' & Hf' & Hlt)]; [exists r; by rewrite E|].
  exists r'. specialize (Hlt r Hf). split; [done|]. split; [lia|]. intros ?. lia.
Qed.

Lemma reads_aged s t rsid found : reads s t rsid found → aged s t rsid found.
Proof.
  unfold reads, aged. destruct (ts_find s t _ rsid) as [r|]; [|by intros ->]. intros (v & Hd & ->). exists r. cbn. split; [done|].
  split; [lia|done].
Qed.

(** What one step does to the record of a session. *)
Definition record_step (sys sys' : System) (tenantId rsid : jstr) : Prop :=
  record_at sys' tenantId rsid = record_at sys tenantId rsid ∨
  ∃ op y, running sys op ∧ is_for readEnvelope op tenantId rsid ∧ act_of op = Some y ∧ readable readEnvelope readBatch rsid (record_at sys tenantId rsid) ∧
    permitted readEnvelope y (record_at sys tenantId rsid) (record_at sys' tenantId rsid).

Lemma advance_inv sys sys' :
  system_inv sys → advances sys sys' → system_inv sys' ∧ ∀ t rsid, record_step sys sys' t rsid.
Proof.
  intros [Hs Hth] Hadv. destruct Hadv as [op s ts|i op c k h a s s' ts Hi Hserved|t ws s s' ts Hc Hw]; cbn in *.
  - split; [|by left]. split; [done|]. cbn. apply Forall_app. split; [done|]. constructor; [|done]. split; cbn; [|by intros ??? ?%elem_of_nil].
    apply perform_commits.
  - pose proof (Forall_lookup_1 _ _ _ _ Hth Hi) as [[Hallow Hk] Hage]. cbn in Hk, Hage.
    assert (ts_inv s' ∧ (∀ t rsid found, aged s t rsid found → aged s' t rsid found) ∧
      (∀ t rsid read, (t, rsid, read) ∈ opened (Event c a) → aged s' t rsid (sn_recovery read)) ∧
      ∀ t rsid, record_step {| sy_store := s; sy_threads := ts |}
        {| sy_store := s'; sy_threads := <[i:=(op, k a, Event c a :: h)]> ts |} t rsid) as (Hs' & Hold & Hnew & Hrec).
    { destruct c as [t rsid|t rsid read staged| | | | |]; cbn in Hserved;
        try (subst s'; split; [done|]; split; [done|]; split; [by intros ??? ?%elem_of_nil|by left]).
      - destruct Hserved as [-> Hread]. split; [done|]. split; [done|]. split; [|by left]. intros t' rsid' read' Hin. cbn in Hin.
        destruct a as [[|read]|]; try by apply elem_of_nil in Hin. apply list_elem_of_singleton in Hin. injection Hin as -> -> ->.
        by apply reads_aged, Hread.
      - destruct Hserved as [[-> _]|Hc]; [split; [done|]; split; [done|]; split; [by intros ??? ?%elem_of_nil|by left]|].
        destruct Hallow as (Hopen & Hw & Hfor & Hstep). pose proof Hc as (ws & _ & Hc').
        assert (∀ t' rsid', _) as Hcs by (intros t' rsid'; exact (commit_step s t rsid read staged s' op t' rsid' Hs Hc
          (Hage _ _ _ Hopen) Hw Hfor Hstep)).
        split; [by eapply ProtocolStore.ts_commit_inv|]. split; [|split; [by intros ??? ?%elem_of_nil|]].
        + intros t' rsid' found Ha. eapply aged_step; [done|]. destruct (Hcs t' rsid') as [[_ ?]|(_ & _ & _ & _ & _ & ?)]; [by left|by right].
        + intros t' rsid'. destruct (Hcs t' rsid') as [[E _]|(y & Hy & Hf & Hr & Hp & _)]; [by left|right]. exists op, y. by split; [exists i; eauto|]. }
    split; [|done]. split; [done|]. cbn. apply Forall_insert.
    + eapply Forall_impl; [exact Hth|]. intros th [Hp Ha]. split; [done|]. eauto.
    + split; [apply Hk|]. cbn [snd fst]. intros t rsid read. rewrite bind_cons. intros [Hin|Hin]%elem_of_app; eauto.
  - assert (∀ t' rsid', ts_find s' t' GATEWAY_RECOVERY_NAMESPACE rsid' = ts_find s t' GATEWAY_RECOVERY_NAMESPACE rsid') as Hf.
    { intros t' rsid'. by eapply elsewhere_frame. }
    split; [split; cbn|].
    + by eapply ProtocolStore.ts_commit_inv.
    + eapply Forall_impl; [exact Hth|]. intros th [Hp Ha]. split; [done|]. intros t' rsid' read Hin. eapply aged_step; [by apply Ha|]. by left.
    + intros t' rsid'. left. unfold record_at. cbn. by rewrite Hf.
Qed.

(** ** Reachable systems *)

(** The store starts without records of the authority. *)
Definition reachable (sys : System) : Prop :=
  ∃ s, ts_inv s ∧ (∀ t rsid, ts_find s t GATEWAY_RECOVERY_NAMESPACE rsid = None) ∧ rtc advances (started s) sys.

Lemma advances_inv sys sys' : system_inv sys → rtc advances sys sys' → system_inv sys'.
Proof. intros Hi Hr. induction Hr as [|x y z Hxy _ IH]; [done|]. by apply IH, (advance_inv x y). Qed.

Lemma recovery_reachable_inv sys : reachable sys → system_inv sys.
Proof. intros (s & Hs & _ & Hr). eapply advances_inv; [|exact Hr]. by split. Qed.

Lemma reachable_step sys sys' : reachable sys → advances sys sys' → reachable sys'.
Proof. intros (s & Hs & He & Hr) Ha. exists s. split; [done|]. split; [done|]. by eapply rtc_r. Qed.

Lemma step_record sys sys' t rsid : reachable sys → advances sys sys' → record_step sys sys' t rsid.
Proof. intros Hr%recovery_reachable_inv Ha. by apply advance_inv. Qed.

(** What permitted steps keep, the system keeps. *)
Lemma rtc_keeps (P : GatewayRecoveryRecord → Prop) sys sys' t rsid :
  (∀ y r r', permitted readEnvelope y r r' → P r → P r') →
  reachable sys → rtc advances sys sys' → P (record_at sys t rsid) → P (record_at sys' t rsid).
Proof.
  intros HP Hr Hs. induction Hs as [|x y z Hxy _ IH]; [done|]. intros HPx. apply IH; [by eapply reachable_step|].
  destruct (step_record x y t rsid Hr Hxy) as [->|(op & a & _ & _ & _ & _ & Hp)]; [done|]. by eapply HP.
Qed.

Lemma reachable_owner sys t rsid p :
  reachable sys → rr_pendingDispatch (record_at sys t rsid) = Some p → is_Some (rr_invocationWindow (record_at sys t rsid)).
Proof.
  intros (s & Hs & He & Hr) Hp. revert p Hp.
  refine (rtc_keeps (λ r, ∀ p, rr_pendingDispatch r = Some p → is_Some (rr_invocationWindow r)) (started s) sys t rsid _ _ Hr _).
  - intros y r r' Hp. by apply (permitted_pending_window readEnvelope y).
  - exists s. split; [done|]. split; [done|constructor].
  - unfold record_at. cbn. rewrite He. done.
Qed.

(** ** What the authority promises *)

(** C4: whatever the interleaving, the record of a session changes only by a step the
    machine permits, taken by a running operation of that session, from a record that
    was in order. *)
Theorem recovery_refines sys sys' t rsid :
  reachable sys → advances sys sys' →
  record_at sys' t rsid = record_at sys t rsid ∨
  ∃ op y, running sys op ∧ is_for readEnvelope op t rsid ∧ act_of op = Some y ∧
    readable readEnvelope readBatch rsid (record_at sys t rsid) ∧
    permitted readEnvelope y (record_at sys t rsid) (record_at sys' t rsid).
Proof. apply step_record. Qed.

(** C5: the window of a session is exclusive. A pending dispatch has a window; a window
    is given up only by a release of the attempt that has it, with nothing pending; and a
    dispatch becomes pending only through an operation of that attempt. *)
Theorem window_exclusive sys t rsid :
  reachable sys →
  (∀ p, rr_pendingDispatch (record_at sys t rsid) = Some p → is_Some (rr_invocationWindow (record_at sys t rsid))) ∧
  ∀ sys', advances sys sys' →
    (∀ w, rr_invocationWindow (record_at sys t rsid) = Some w →
       rr_invocationWindow (record_at sys' t rsid) = Some w ∨
       running sys (op_release t rsid (iw_attemptId w)) ∧ rr_pendingDispatch (record_at sys t rsid) = None) ∧
    (∀ p, rr_pendingDispatch (record_at sys t rsid) = None → rr_pendingDispatch (record_at sys' t rsid) = Some p →
       ∃ op y w, running sys op ∧ is_for readEnvelope op t rsid ∧ act_of op = Some y ∧
         rr_invocationWindow (record_at sys t rsid) = Some w ∧ dispatches y (iw_attemptId w)).
Proof.
  intros Hr. split; [intros p; by apply reachable_owner|]. intros sys' Ha.
  destruct (step_record _ _ t rsid Hr Ha) as [E|(op & y & Hrun & Hfor & Hy & Hread & Hp)].
  { rewrite E. split; [by left|]. intros p -> [=]. }
  split.
  - intros w Hw. destruct (permitted_window _ _ _ _ _ Hp Hw) as [?|[-> Hn]]; [by left|right]. split; [|done].
    destruct op; try done. injection Hy as ->. destruct Hfor as [-> ->]. done.
  - intros p Hn Hs. destruct (permitted_dispatch _ _ _ _ _ Hp Hn Hs) as (a & Hd & Hown). exists op, y. unfold owned_by in Hown.
    destruct (rr_invocationWindow (record_at sys t rsid)) as [w|]; [|done]. injection Hown as <-. by exists w.
Qed.

(** C6: a dispatch is admitted once. A dispatch that becomes pending, other than the
    redelivery of an origin, is none the record retains: neither its envelope nor any of
    its invocations; and no dispatch with its digest is ever admitted again. *)
Theorem dispatched_once sys sys' t rsid p :
  reachable sys → advances sys sys' →
  rr_pendingDispatch (record_at sys t rsid) = None → rr_pendingDispatch (record_at sys' t rsid) = Some p →
  pd_originRedelivery p = false →
  fresh readEnvelope (record_at sys t rsid) p ∧
  ∀ later later' p', rtc advances sys' later → advances later later' →
    rr_pendingDispatch (record_at later t rsid) = None → rr_pendingDispatch (record_at later' t rsid) = Some p' →
    pd_originRedelivery p' = false → pd_envelopeDigest p' ≠ pd_envelopeDigest p.
Proof.
  intros Hr Ha Hn Hs Ho. destruct (step_record _ _ t rsid Hr Ha) as [E|(op & y & _ & _ & _ & _ & Hp)]; [congruence|].
  split; [by eapply permitted_fresh|]. intros later later' p' Hrtc Ha' Hn' Hs' Ho' E.
  assert (reachable sys') as Hr' by by eapply reachable_step.
  assert (reachable later) as Hl. { destruct Hr' as (s & ? & ? & ?). exists s. split; [done|]. split; [done|]. by etrans. }
  destruct (step_record _ _ t rsid Hl Ha') as [E'|(op' & y' & _ & _ & _ & _ & Hp')]; [congruence|].
  destruct (permitted_fresh _ _ _ _ _ Hp' Hn' Hs' Ho') as [[] _]. rewrite E. apply admitted_digests.
  refine (rtc_keeps (λ r, pd_envelopeDigest p ∈ admitted r) sys' later t rsid _ Hr' Hrtc _).
  - intros y0 r r'. apply permitted_admitted.
  - unfold admitted. rewrite Hs, Ho. by left.
Qed.

(** C7: a mutation goes past a hold only with its resolution. When a dispatch becomes
    pending, other than the redelivery of an origin, every uncleared hold its scopes
    conflict with is resolved for exactly this dispatch, from conclusive evidence, and is
    one of the holds the dispatch names; and the step has resolved holds for nothing
    else. *)
Theorem prepared_past_holds sys sys' t rsid p :
  reachable sys → advances sys sys' →
  rr_pendingDispatch (record_at sys t rsid) = None → rr_pendingDispatch (record_at sys' t rsid) = Some p →
  pd_originRedelivery p = false →
  (∀ h, h ∈ conflictingMutationHolds (rr_ledger (record_at sys' t rsid)) rsid (map me_mutationScope (pd_mutationEntries p)) →
     resolved_for (pd_envelopeDigest p) h ∧ mh_holdId h ∈ pd_recoveryHoldIds p) ∧
  ledger_moves (resolves (pd_envelopeDigest p)) (rr_ledger (record_at sys t rsid)) (rr_ledger (record_at sys' t rsid)).
Proof.
  intros Hr Ha Hn Hs Ho. destruct (step_record _ _ t rsid Hr Ha) as [E|(op & y & _ & _ & _ & Hread & Hp)]; [congruence|].
  destruct (permitted_past_holds _ _ _ _ _ Hp Hn Hs Ho) as [Hpast Hm]. split; [|done]. by rewrite (rd_rsid _ _ _ _ Hread) in Hpast.
Qed.

(** C8: a hold never disappears, and is cleared only by acceptance. In every step each
    hold stays in the ledger under its id; one that is cleared was resolved, from its
    evidence, for the dispatch that was pending, and the step is a reconciliation. *)
Theorem hold_cleared_by_its_dispatch sys sys' t rsid h :
  reachable sys → advances sys sys' → h ∈ rr_ledger (record_at sys t rsid) →
  ∃ h', h' ∈ rr_ledger (record_at sys' t rsid) ∧ mh_holdId h' = mh_holdId h ∧ mh_mutationScope h' = mh_mutationScope h ∧
    (isUncleared h = true → isUncleared h' = false →
     ∃ p op, rr_pendingDispatch (record_at sys t rsid) = Some p ∧ pd_originRedelivery p = false ∧
       resolved_for (pd_envelopeDigest p) h ∧ mh_clearedBy h' = Some (pd_envelopeDigest p) ∧
       running sys op ∧ is_for readEnvelope op t rsid ∧ act_of op = Some reconciles).
Proof.
  intros Hr Ha Hin. destruct (step_record _ _ t rsid Hr Ha) as [E|(op & y & Hrun & Hfor & Hy & _ & Hp)].
  { rewrite E. exists h. split; [done|]. split; [done|]. split; [done|]. congruence. }
  destruct (permitted_fate _ _ _ _ _ Hp Hin) as (h' & Hin' & Hf). exists h'. split; [done|].
  destruct Hf as [|h' _ (_ & Ht & Hk)|p h' _ _ (_ & (Hst & _) & res & E)|p h' Hy' Ep Ho (Hst & Hm & Hid & ->)].
  - split; [done|]. split; [done|]. congruence.
  - destruct Hk as (-> & _ & -> & _). split; [done|]. split; [done|]. intros _ Hu. unfold isUncleared, takes_no_evidence in *. bsimp. done.
  - subst h'. split; [done|]. split; [done|]. intros _ Hu. unfold isUncleared in Hu. rewrite Hst in Hu. done.
  - split; [done|]. split; [done|]. intros _ _. exists p, op. subst y. done.
Qed.

(** ** What the reconciliations leave behind *)

(** C9: an outcome that stays open is held. When the bridge accepted a mutation, other
    than the redelivery of an origin (which keeps the holds as they were), whose scopes
    are well-formed strings of 16-bit code units, and its journal says that it does not
    know the outcome, the record that is staged has nothing pending, and for every entry
    left open (of an atomic batch, every entry) there is an uncleared hold of the session
    on its scope or for its very invocation. *)
Theorem open_outcome_held n :
  reconciling readEnvelope readBatch n → is_Some (rn_acceptance n) → pd_originRedelivery (rn_pending n) = false →
  Forall (λ e, scope_wire (me_mutationScope e)) (pd_mutationEntries (rn_pending n)) →
  body_stages (reconcile_indeterminate readEnvelope readBatch n) (λ _ next,
    rr_pendingDispatch next = None ∧
    ∀ e, e ∈ uncertain_entries (pd_batchAtomic (rn_pending n)) (rn_evidence n) (pd_mutationEntries (rn_pending n)) →
      covered (rn_rsid n) (rr_ledger next) (me_idempotencyKey e) (me_mutationScope e)).
Proof.
  intros [Hr Hp Ha] Hacc Ho Hw. unfold reconcile_indeterminate. cbv zeta. apply stages_lift. intros derived Hd.
  pose proof (pending_atomic _ _ _ _ _ (rd_pending _ _ _ _ Hr _ Hp) Hd) as ->. destruct (_ =? 0)%nat; [apply stages_replies|].
  apply stages_lift. intros [reply|[l' ids]] Hh; [apply stages_replies|]. apply history_stages. intros recordedAtMs.
  apply hold_uncertain_spec in Hh as [_ Hcov]; [|by eapply accepts_rsid; [exact Ha|apply Hr]].
  split; [by destruct (rn_acceptance n); [|destruct Hacc]|]. intros e He.
  refine (Hcov Hacc Ho _ (uncertain_mutation e) _); [|by apply list_elem_of_fmap_2].
  apply Forall_fmap, Forall_forall. intros e' He'. rewrite Forall_forall in Hw. apply Hw. unfold uncertain_entries in He'.
  destruct (requiredSessionCapabilities derived); [done|]. by apply elem_of_filter_bool in He' as [? _].
Qed.

Abbreviation step r r' := (∃ y, permitted readEnvelope y r r').

Lemma stranded_later r later digest h : stranded r digest h → rtc (λ r r', step r r') r later → stranded later digest h.
Proof. intros Hs Hl. induction Hl as [|x y z (a & Hxy) _ IH]; [done|]. apply IH. by eapply stranded_step. Qed.

(** C38: a dispatch that was never sent strands the holds it was prepared past. When a
    reconciliation closes such a dispatch with a no-send receipt, a hold that was resolved
    for it stays in the ledger, uncleared and unchanged, whatever steps follow: no
    evidence and no resolution is taken for it any more, and no dispatch that conflicts
    with it, other than the redelivery of an origin, is prepared again. *)
Theorem no_send_strands_holds n h :
  reconciling readEnvelope readBatch n → rn_acceptance n = None →
  h ∈ rr_ledger (rn_record n) → resolved_for (pd_envelopeDigest (rn_pending n)) h →
  body_stages (reconcile_no_send readEnvelope readBatch n) (λ _ next,
    rr_pendingDispatch next = None ∧
    ∀ later, rtc (λ r r', step r r') next later →
      h ∈ rr_ledger later ∧ isUncleared h = true ∧
      ∀ later' p, step later later' → rr_pendingDispatch later = None → rr_pendingDispatch later' = Some p →
        pd_originRedelivery p = false →
        h ∉ conflictingMutationHolds (rr_ledger later') (rr_rsid later) (map me_mutationScope (pd_mutationEntries p))).
Proof.
  intros [Hr Hp Ha] Hacc Hin Hres. unfold reconcile_no_send. destruct (pd_originRedelivery _); [apply stages_replies|].
  apply history_stages. intros recordedAtMs. split; [done|]. intros later Hl. set (digest := pd_envelopeDigest (rn_pending n)) in *.
  assert (stranded later digest h) as Hs.
  { assert (rn_ledger n = rr_ledger (rn_record n)) as El. { destruct Ha as [?|(Hx & _)]; [done|]. rewrite Hacc in Hx. by destruct Hx. }
    eapply stranded_later; [|exact Hl]. split; [cbn; by rewrite El|]. split; [done|]. split; [|done].
    apply history_with_digests. by right. }
  split; [apply Hs|]. split; [destruct Hres as (Hst & _); unfold isUncleared; by rewrite Hst|].
  intros later' p (y & Hy) Hn Hsome Ho. by eapply stranded_blocks.
Qed.

(** A late outcome drops the holds of a dispatch that was prepared past holds. When
    such a dispatch first had an unknown outcome and the bridge's acceptance arrives only
    together with the late outcome, the record that is staged has nothing pending and no
    uncleared hold conflicts with any of its mutations, although no decision on its
    outcome was ever recorded. *)
Theorem late_outcome_unheld n ids :
  reconciling readEnvelope readBatch n → is_Some (rn_acceptance n) → pd_originRedelivery (rn_pending n) = false →
  pd_recoveryHoldIds (rn_pending n) ≠ [] →
  clear_accepted (rn_record n) (rn_pending n) (rn_acceptance n) = Ok (inr (rn_ledger n, ids)) →
  body_stages (reconcile_late readEnvelope readBatch n) (λ _ next,
    rr_pendingDispatch next = None ∧
    conflictingMutationHolds (rr_ledger next) (rr_rsid next) (map me_mutationScope (pd_mutationEntries (rn_pending n))) = []).
Proof.
  intros [Hr Hp Ha] Hacc Ho Hids Hc. unfold reconcile_late. cbv zeta.
  destruct (_ ≫= _) as [[i history]|]; [|apply stages_replies]. apply stages_bind; [by apply quiet_call|]. intros recordedAtMs.
  apply stages_lift. intros [] _. apply stages_record. cbn. split; [by destruct (rn_acceptance n); [|destruct Hacc]|].
  unfold clear_accepted in Hc. destruct (rn_acceptance n); [|by destruct Hacc]. rewrite Ho in Hc. cbn in Hc.
  replace (length (pd_recoveryHoldIds (rn_pending n)) =? 0)%nat with false in Hc by by destruct (pd_recoveryHoldIds _).
  cbn in Hc. apply bind_ok in Hc as (authorization & Hauth & Hc). destruct authorization as [l cleared|l hs|l reason]; try done.
  case_bool_decide; [|done]. injection Hc as <- <-.
  apply authorize_cases in Hauth as (_ & _ & _ & _ & [(Hcs & -> & _)|(_ & _ & _ & -> & ->)]); [exact Hcs|].
  apply clear_all_conflicts.
Qed.

(** ** Answers *)

Definition opens (h : list (event call answer)) : nat :=
  length (List.filter (λ e, let 'Event c _ := e in match c with r_open _ _ => true | _ => false end) h).

(** C35: every operation answers. However the store and the ports behave, exceptions
    included, an operation ends with a reply; only [prepareMutationDispatch] can throw,
    and then its reading of the clock threw before the transaction. *)
Theorem recovery_answers (env : environment call answer) op :
  let '(h, r) := run env (perform readEnvelope readBatch op) [] in
  (∃ reply, r = Ok reply) ∨
  ∃ authority input e, op = op_prepare authority input ∧ r = Throw e ∧ Event r_clock (Throw e) ∈ h.
Proof.
  destruct (run env _ []) as [h r] eqn:E.
  assert (∀ Q, wp (proper readEnvelope readBatch op) (perform readEnvelope readBatch op) [] Q → Q h r) as Hrun.
  { intros Q Hw. apply (wp_run _ _ env [] []) in Hw as [HQ _]; [|by left]. by rewrite E in HQ. }
  destruct op as [| | | |authority input| | | | | | |];
    try (left; apply (Hrun (λ _, answers)); apply perform_proper; exact I).
  destruct (Hrun _ (prepare_proper readEnvelope readBatch authority input [])) as [?|(e & ? & ?)]; [by left|right]. by exists authority, input, e.
Qed.

(** How often an operation may open a transaction. *)
Definition may_open (op : Operation) : nat := match op with op_acquire _ _ _ | op_release _ _ _ => 3 | _ => 1 end.

Definition anything (h : list (event call answer)) (c : call) : Prop := True.

Definition opening {A} (p : program A) (n : nat) : Prop := ∀ h, wp anything p h (λ h' _, opens h' ≤ opens h + n)%nat.

Lemma opens_off_store {A} (p : program A) h Q : wp off_store p h Q → wp anything p h (λ h' _, opens h' ≤ opens h)%nat.
Proof.
  revert h. induction p as [r|c k IH]; intros h Hw; [by apply wp_done|]. destruct Hw as [Hc Hk]. split; [done|]. intros a.
  eapply wp_mono; [apply IH, Hk|]. intros h' r Hle. etrans; [exact Hle|]. destruct c; done.
Qed.

Lemma opening_transact tenantId rsid b P : (∀ stored, body_stages (b stored) (P stored)) → opening (transact tenantId rsid b) 1.
Proof.
  intros Hb h. unfold transact. apply wp_try_with, wp_bind, wp_call; [done|].
  assert (∀ a, opens (Event (r_open tenantId rsid) a :: h) = opens h + 1)%nat as E by (intros a; unfold opens; cbn; lia).
  intros [[failure|snapshot]|e]; cbn; [apply Nat.eq_le_incl, E| |apply Nat.eq_le_incl, E].
  apply wp_bind. eapply wp_mono; [by eapply opens_off_store, Hb|]. intros h' [outcome|e] Hle; rewrite E in Hle; [|done].
  split; [done|]. intros [failure|e]; exact Hle.
Qed.

Lemma opening_attempts p n : opening p 1 → opening (attempts n p) (S n).
Proof.
  intros Hp. induction n as [|n IH]; intros h; cbn [attempts]; apply wp_bind; (eapply wp_mono; [apply Hp|]); intros h' [reply|e] Hle; try first [apply wp_done; lia|cbn; lia].
  destruct (is_conflict reply); [|apply wp_done; lia]. eapply wp_mono; [apply IH|]. cbn. intros. lia.
Qed.

Lemma opening_checked {A} (checks : result js_error A) k n :
  (∀ a, checks = Ok a → opening (k a) n) → opening (checked checks k) n.
Proof. intros Hk. destruct checks as [a|e]; [by apply Hk|]. intros h. apply wp_done. lia. Qed.

Lemma opening_clock {A} (k : result js_error jsnum → program A) n : (∀ a, opening (k a) n) → opening (Call r_clock k) n.
Proof. intros Hk h. apply wp_call; [done|]. intros a. eapply wp_mono; [apply Hk|]. cbn. done. Qed.

Lemma perform_opens op : opening (perform readEnvelope readBatch op) (may_open op).
Proof.
  destruct op; cbn [perform may_open].
  - apply opening_checked. intros _ _. apply opening_clock. intros clock. apply opening_checked. intros at_ms _.
    apply opening_attempts. eapply opening_transact. intros stored. apply acquire_stages.
  - apply opening_checked. intros _ _. apply opening_attempts. eapply opening_transact. intros stored. apply release_stages.
  - apply opening_checked. intros scopes _. eapply (opening_transact _ _ _ (λ _ _ _, True)). intros stored. apply preflight_stages.
  - apply opening_checked. intros scopes _. eapply opening_transact. intros stored. apply plan_stages.
  - apply opening_checked. intros checks Hc%prepare_check_derived. apply opening_clock. intros [at_ms|e]; [|intros h; apply wp_done; lia].
    eapply opening_transact. intros stored. by apply prepare_confirmed_stages.
  - apply opening_checked. intros _ _. eapply opening_transact. intros stored. apply resume_stages.
  - apply opening_checked. intros redelivery Hr. eapply opening_transact. intros stored. apply redelivery_stages, origin_check_derived, Hr.
  - apply opening_checked. intros derived [Hd Hread]%verification_check_derived. destruct (verification_of _); [|intros h; apply wp_done; lia].
    eapply opening_transact. intros stored. by apply verification_stages.
  - apply opening_checked. intros _ _. eapply opening_transact. intros stored. apply reconcile_stages.
  - apply opening_checked. intros _ _. eapply opening_transact. intros stored. apply record_verification_stages.
  - apply opening_checked. intros _ _. eapply opening_transact. intros stored. apply record_late_stages.
  - eapply (opening_transact _ _ _ (λ _ _ _, True)). intros stored. unfold body_stages. intros h'. unfold load, lift.
    destruct (loadRecord _ _ _ _); [by split; [constructor|]|done].
Qed.

(** An operation opens one transaction; the two on the window try a conflict again,
    three times in all. *)
Theorem transactions_bounded (env : environment call answer) op :
  (opens (run env (perform readEnvelope readBatch op) []).1 ≤ may_open op)%nat.
Proof.
  pose proof (perform_opens op []) as Hw. by apply (wp_run _ _ env [] []) in Hw as [HQ _]; [|by left].
Qed.
End system.
End RecoverySystem.
