(* ===== verification/RecoveryScenario.v ===== *)
(** A session of the recovery authority, evaluated.

    A mutation is prepared, its outcome stays unknown and is held; a verification reads
    the document, its evidence is recorded and decided, the holds are planned away, a
    second mutation goes past them, and the bridge accepts it.  Every operation runs on
    the pre-production store, so the run shows at each of its steps that the hypotheses
    of the theorems of [RecoverySystem] can be met; three further reconciliations are
    the ones of its last theorems. *)

From stdpp Require Import relations.
From S2P Require Import Prelude JsString JsValue JsMap Canonical Sha256 JsonText Sequence Journal MutationHold Envelope.
From S2P Require Import ProtocolStore Identifiers InvocationContext Confirmation Effects RecoveryData Recovery RecoveryMachine RecoverySystem.

Module RecoveryScenario.
Import Canonical Identifiers Sha256.
Import Journal MutationHold MutationHoldFacts Envelope RecoveryData Recovery RecoveryMachine RecoverySystem.
Import ProtocolStore(ts_state, ts_inv, ts_find, ts_commit, Store, StoreWrite, StoredRecord).

(** ** Running an operation up to its commit *)

Definition Offer : Type := jstr * jstr * Snapshot * Staged.

Definition offer_of (c : call) : option Offer :=
  match c with r_commit tenantId rsid read staged => Some (tenantId, rsid, read, staged) | _ => None end.

(** What a program first offers to commit. *)
Fixpoint offered (env : environment call answer) (p : program Reply) (h : list (event call answer)) : option Offer :=
  match p with
  | Done _ => None
  | Call c k => match offer_of c with Some offer => Some offer | None => offered env (k (env h c)) (Event c (env h c) :: h) end
  end.

Section performs.
Context `{Hasher} {F64 : JsonText.Float64} {ZD : Zod}.
Context (readEnvelope : jsval → option DispatchEnvelope) (readBatch : jsval → option BatchCarrier).
Context {ST : ProtocolStore.TransactionalStore}.
Context (decode : jsval → option GatewayRecoveryRecord).

(** The environment gives answers the store may give without changing. *)
Definition answers_for (env : environment call answer) (s : ts_state) : Prop := ∀ h c, served decode s c (env h c) s.

Lemma offered_advances env s op p h pre offer :
  answers_for env s → offered env p h = Some offer →
  ∃ k h', rtc (advances readEnvelope readBatch decode) {| sy_store := s; sy_threads := pre ++ [(op, p, h)] |}
    {| sy_store := s; sy_threads := pre ++ [(op, Call (r_commit offer.1.1.1 offer.1.1.2 offer.1.2 offer.2) k, h')] |}.
Proof.
  intros He. revert h. induction p as [r|c k IH]; intros h Ho; [done|]. cbn in Ho. destruct (offer_of c) as [o|] eqn:Ec.
  - injection Ho as ->. destruct c; try done. injection Ec as <-. exists k, h. apply rtc_refl.
  - destruct (IH _ _ Ho) as (k' & h' & Hr). exists k', h'. eapply rtc_l; [|exact Hr].
    replace (pre ++ [(op, k (env h c), Event c (env h c) :: h)])
      with (<[length pre := (op, k (env h c), Event c (env h c) :: h)]> (pre ++ [(op, Call c k, h)])).
    + apply advance_call; [|apply He]. by apply list_lookup_middle.
    + rewrite insert_app_r_alt by done. by rewrite Nat.sub_diag.
Qed.

(** An operation begins, runs and commits. *)
Lemma performs env op (sys : System) offer s' :
  answers_for env (sy_store sys) → offered env (perform readEnvelope readBatch op) [] = Some offer →
  commits decode (sy_store sys) offer.1.1.1 offer.1.2 offer.2 s' →
  ∃ mid sys', rtc (advances readEnvelope readBatch decode) sys mid ∧ sy_store mid = sy_store sys ∧ running mid op ∧
    advances readEnvelope readBatch decode mid sys' ∧ sy_store sys' = s'.
Proof.
  destruct sys as [s ts]. cbn. intros He Ho Hc. destruct (offered_advances env s op _ [] ts offer He Ho) as (k & h & Hr).
  eexists {| sy_store := s; sy_threads := _ |}, {| sy_store := s'; sy_threads := _ |}.
  split; [eapply rtc_l; [apply advance_start|exact Hr]|]. split; [done|].
  assert ((ts ++ [(op, Call (r_commit offer.1.1.1 offer.1.1.2 offer.1.2 offer.2) k, h)]) !! length ts =
          Some (op, Call (r_commit offer.1.1.1 offer.1.1.2 offer.1.2 offer.2) k, h)) as Hi by by apply list_lookup_middle.
  split; [by eexists _, _, _|]. split; [|done].
  eapply (advance_call _ _ _ (length ts) op _ k h (Ok None)); [exact Hi|]. by right.
Qed.
End performs.

(** ** The session *)

(** A checksum in place of SHA-256: none of the theorems here asks more of the hash than
    that it is a function, and the run computes some hundred of them. *)
Definition checksum (bytes : list Z) : jstr :=
  let sum := foldl (λ acc b, Z.land (acc * 263 + b + 1) (Z.ones 64)) 7 bytes in
  map (λ i, hex_digit (Z.land (Z.shiftr sum (4 * (i mod 16))) 15)) (seqZ 0 64).
#[local] Instance scenario_hash : Hasher := checksum.

#[local] Instance scenario_zod : Zod := conforms.
#[local] Existing Instance ProtocolStoreFacts.demo_float.
#[local] Instance scenario_float_ok : JsonText.Float64Ok ProtocolStoreFacts.demo_float.
Proof. by split. Qed.

#[local] Existing Instance ProtocolStoreFacts.preproduction_store_ok.

Definition tenant : jstr := js "acme".
Definition session : jstr := js "rs-a".
Definition attempt : jstr := js "0190a0b0-0000-7000-8000-000000000001".
Definition document : MutationScope := scope_document (js "doc-1").
Definition automatic : JournalPolicyBinding := {| pb_class := class_auto; pb_decision := decision_auto; pb_confirmation_id := None |}.

Definition ok_or {A} (d : A) (r : result js_error A) : A := match r with Ok a => a | Throw _ => d end.

(** An envelope of one invocation, and the JSON it is stored as. *)
Definition invocation (id : jstr) (seq : Z) (mutating : bool) (verification : option Verification) (clearances : list WireClearance)
  : DispatchEnvelope := {|
  en_id := id; en_ts := VStr (js "2026-01-01T00:00:00.000Z"); en_rsid := session; en_seq := JInt seq; en_ack := None;
  en_body := obj [(js "invocation_id", VStr id)];
  en_payload := payload_invoke {|
    iv_invocation_id := id; iv_method := js "set_parameters"; iv_params := obj []; iv_mutating := mutating;
    iv_mutation_scope := if mutating then Some document else None; iv_policy := automatic; iv_verification := verification;
    iv_recovery_clearances := clearances |} |}.

Definition envelope_value (id : jstr) : jsval := obj [(js "id", VStr id)].

Definition first_id : jstr := js "0190a0b0-0000-7000-8000-00000000000a".
Definition read_id : jstr := js "0190a0b0-0000-7000-8000-00000000000b".
Definition second_id : jstr := js "0190a0b0-0000-7000-8000-00000000000c".

(** Ajv's verdict: the envelopes of the session are valid. *)
Definition reads_one_of (envelopes : list DispatchEnvelope) (value : jsval) : option DispatchEnvelope :=
  match value with
  | VObj _ [(_, VStr id)] => find_first (λ e, en_id e === id) envelopes
  | _ => None
  end.
Definition no_batch (value : jsval) : option BatchCarrier := None.

Definition no_derived : DerivedEnvelope := {|
  dv_value := VNull; dv_envelope := invocation [] 0 false None []; dv_digest := []; dv_correlationId := []; dv_mutationEntries := [];
  dv_bindings := []; dv_clearances := []; dv_verificationHoldId := None |}.
Definition derived_of (e : DispatchEnvelope) : DerivedEnvelope :=
  ok_or no_derived (deriveEnvelope (reads_one_of [e]) (envelope_value (en_id e)) (Some session)).

(** What the ports and the clock answer; [observed] is what the bridge knows. *)
Definition answering (stored : option StoredRecovery) (find : jstr → jstr → option StoredRecord)
    (observed : GatewayDurableDispatchObservation) : environment call answer := λ h c,
  match c with
  | r_open tenantId rsid =>
      if (tenantId === tenant) && (rsid === session) then Ok (inr {| sn_recovery := stored; sn_read := find |})
      else throw PlainError "unknown session"
  | r_commit _ _ _ _ => throw PlainError "not committed"
  | r_clock => Ok (JInt 1000)
  | r_newId _ => Ok (js "0190a0b0-0000-7000-8000-0000000001" ++ [48 + Z.of_nat (length h / 10); 48 + Z.of_nat (length h mod 10)])
  | r_inspectDispatch _ => Ok (lookup_found observed)
  | r_authorizeTarget _ _ => Ok (authorized (JInt 3))
  | r_decideEvidence _ => Ok (decided (conclusive_evidence non_execution_proven) (js "operator") (JInt 1) (JInt 1000))
  end.

Definition nothing_observed : GatewayDurableDispatchObservation := {| ob_acceptance := None; ob_journal := None; ob_noSend := None |}.

Definition stored_at (version : Z) (r : GatewayRecoveryRecord) : StoredRecovery :=
  {| sv_value := r; sv_tenantId := tenant; sv_version := version |}.

(** The record an operation stages when it reads this one. *)
Definition staged_next (envelopes : list DispatchEnvelope) (op : Operation) (stored : option StoredRecovery)
    (observed : GatewayDurableDispatchObservation) : GatewayRecoveryRecord :=
  default (emptyRecord session)
    (offer ← offered (answering stored (λ _ _, None) observed) (perform (reads_one_of envelopes) no_batch op) []; st_record offer.2).

(** ** The operations and what they stage *)

Definition acquire : Operation := op_acquire tenant session attempt.
Definition record1 : GatewayRecoveryRecord := Eval vm_compute in staged_next [] acquire None nothing_observed.

Definition first : DispatchEnvelope := invocation first_id 1 true None [].
Definition first_derived : DerivedEnvelope := Eval vm_compute in derived_of first.

Definition prepares (derived : DerivedEnvelope) : Operation := op_prepare false {|
  pm_tenantId := tenant; pm_attemptId := attempt; pm_sessionBindingId := js "binding"; pm_connectionId := js "connection";
  pm_envelope := dv_value derived; pm_confirmationProof := None;
  pm_expected := {| em_rsid := session; em_correlationId := dv_correlationId derived; em_bindings := dv_bindings derived;
                    em_recoveryClearances := map wc_clearance (dv_clearances derived) |} |}.

Definition record2 : GatewayRecoveryRecord := Eval vm_compute in
  staged_next [first] (prepares first_derived) (Some (stored_at 1 record1)) nothing_observed.

(** The bridge's receipt for a dispatch, and its journal of it. *)
Definition acceptance (derived : DerivedEnvelope) : GatewayBridgeCumulativeAckReceipt := {|
  ar_receiptVersion := Some (JInt 1); ar_tenantId := Some tenant; ar_rsid := session; ar_sessionBindingId := js "binding";
  ar_acceptedConnectionId := js "connection"; ar_authorizedSessionVersion := JInt 3; ar_invocationId := None;
  ar_correlationId := None; ar_proofDigest := None; ar_routeSnapshotDigest := None; ar_egressEpoch := None; ar_leaseTicket := None;
  ar_intent := false; ar_gatewaySequence := en_seq (dv_envelope derived); ar_cumulativeAck := en_seq (dv_envelope derived);
  ar_envelopeDigest := dv_digest derived; ar_durableSequenceVersion := JInt 3; ar_acceptedAtMs := JInt 900 |}.

Definition journals (derived : DerivedEnvelope) (kind : evidence_kind) (version : Z)
    (mark : InvocationJournalRecord → result js_error InvocationJournalRecord) : GatewayVerifiedBridgeJournalEvidence := {|
  je_kind := kind; je_rsid := session; je_sessionBindingId := js "binding"; je_envelopeDigest := dv_digest derived;
  je_journalRecords := ok_or [] (records ← createJournalRecords (dv_bindings derived); map_result mark records);
  je_batchTerminal := None; je_durableJournalVersion := JInt version; je_recordedAtMs := JInt (900 + version) |}.

Definition done_outcome : TerminalJournalOutcome := {|
  to_status := completed; to_resultDigest := Some (ok_or [] (makeParamsDigest VNull)); to_guardedReason := None;
  to_payloadRetained := false; to_payload := None |}.

Definition ends (r : InvocationJournalRecord) : result js_error InvocationJournalRecord := recordJournalTerminal r done_outcome.
Definition loses (holdId : jstr) (r : InvocationJournalRecord) : result js_error InvocationJournalRecord :=
  markJournalIndeterminate r (Some holdId).

Definition observing (acceptance : option GatewayBridgeCumulativeAckReceipt) (journal : GatewayVerifiedBridgeJournalEvidence)
  : GatewayDurableDispatchObservation := {| ob_acceptance := acceptance; ob_journal := Some journal; ob_noSend := None |}.

(** The outcome of the first mutation is unknown. *)
Definition first_hold : jstr := Eval vm_compute in ok_or [] (makeMutationHoldId session document [session ++ js "/" ++ first_id]).
Definition first_lost : GatewayDurableDispatchObservation := Eval vm_compute in
  observing (Some (acceptance first_derived)) (journals first_derived indeterminate_outcome 1 (loses first_hold)).
Definition reconciles_first : Operation := op_reconcile tenant session (dv_digest first_derived).
Definition record3 : GatewayRecoveryRecord := Eval vm_compute in
  staged_next [first] reconciles_first (Some (stored_at 2 record2)) first_lost.

(** A read verifies the document. *)
Definition reading : DispatchEnvelope := invocation read_id 2 false
  (Some {| vf_hold_id := first_hold; vf_mutation_scope := document; vf_purpose := js "resolve_indeterminate" |}) [].
Definition read_derived : DerivedEnvelope := Eval vm_compute in derived_of reading.
Definition no_binding : InvocationJournalBinding := {|
  jb_rsid := []; jb_invocationId := []; jb_method := []; jb_mutating := false; jb_mutationScope := None; jb_paramsDigest := [];
  jb_policy := automatic; jb_verification := None; jb_recoveryClearances := None; jb_batchId := None; jb_batchIndex := None;
  jb_batchDigest := None |}.
Definition verifies : Operation := op_verify {|
  pv_tenantId := tenant; pv_attemptId := attempt; pv_sessionBindingId := js "binding"; pv_connectionId := js "connection";
  pv_envelope := dv_value read_derived;
  pv_expected := {| ev_rsid := session; ev_invocationId := read_id; ev_binding := List.hd no_binding (dv_bindings read_derived) |} |}.
Definition record4 : GatewayRecoveryRecord := Eval vm_compute in
  staged_next [first; reading] verifies (Some (stored_at 3 record3)) nothing_observed.

Definition read_ended : GatewayDurableDispatchObservation := Eval vm_compute in
  observing (Some (acceptance read_derived)) (journals read_derived known_terminal 2 ends).
Definition reconciles_read : Operation := op_reconcile tenant session (dv_digest read_derived).
Definition record5 : GatewayRecoveryRecord := Eval vm_compute in
  staged_next [first; reading] reconciles_read (Some (stored_at 4 record4)) read_ended.

(** Its evidence is decided, and the hold is planned away. *)
Definition decides : Operation := op_verification_evidence tenant session (dv_digest read_derived).
Definition record6 : GatewayRecoveryRecord := Eval vm_compute in
  staged_next [first; reading] decides (Some (stored_at 5 record5)) nothing_observed.
Definition plans : Operation := op_plan tenant session [document] [{| pn_holdId := first_hold; pn_decision := non_execution_proven |}].
Definition record7 : GatewayRecoveryRecord := Eval vm_compute in
  staged_next [first; reading] plans (Some (stored_at 6 record6)) nothing_observed.

(** The second mutation goes past the hold, and the bridge accepts and ends it. *)
Definition planned_clearances : list RecoveryClearance := Eval vm_compute in
  match rr_resolutionPlan record7 with Some plan => pl_clearances plan | None => [] end.
Definition second : DispatchEnvelope := Eval vm_compute in
  invocation second_id 3 true None (map (λ c, {| wc_clearance := c; wc_value := normalizeClearance c |}) planned_clearances).
Definition second_derived : DerivedEnvelope := Eval vm_compute in derived_of second.

Definition envelopes : list DispatchEnvelope := [first; reading; second].
Definition record8 : GatewayRecoveryRecord := Eval vm_compute in
  staged_next envelopes (prepares second_derived) (Some (stored_at 7 record7)) nothing_observed.

Definition second_ended : GatewayDurableDispatchObservation := Eval vm_compute in
  observing (Some (acceptance second_derived)) (journals second_derived known_terminal 3 ends).
Definition reconciles_second : Operation := op_reconcile tenant session (dv_digest second_derived).
Definition record9 : GatewayRecoveryRecord := Eval vm_compute in
  staged_next envelopes reconciles_second (Some (stored_at 8 record8)) second_ended.

(** ** The run on the pre-production store *)

Abbreviation Script := (list (Operation * GatewayDurableDispatchObservation * GatewayRecoveryRecord)).

Definition script : Script :=
  [(acquire, nothing_observed, record1); (prepares first_derived, nothing_observed, record2); (reconciles_first, first_lost, record3);
   (verifies, nothing_observed, record4); (reconciles_read, read_ended, record5); (decides, nothing_observed, record6);
   (plans, nothing_observed, record7); (prepares second_derived, nothing_observed, record8);
   (reconciles_second, second_ended, record9)].

Definition no_step : Operation * GatewayDurableDispatchObservation * GatewayRecoveryRecord :=
  (acquire, nothing_observed, emptyRecord session).
Definition step_of (n : nat) : Operation * GatewayDurableDispatchObservation * GatewayRecoveryRecord := nth n script no_step.
Definition op_of (n : nat) : Operation := (step_of n).1.1.

(** The record after [n] operations, and as it is read. *)
Definition record_of (n : nat) : GatewayRecoveryRecord := match n with O => emptyRecord session | S n => (step_of n).2 end.
Definition stored_of (n : nat) : option StoredRecovery := match n with O => None | S m => Some (stored_at (Z.of_nat n) (record_of n)) end.

(** A record is stored as a number that stands for it. *)
Definition decode (value : jsval) : option GatewayRecoveryRecord :=
  match value with VNum (JInt n) => if bool_decide (1 <= n) then Some (record_of (Z.to_nat n)) else None | _ => None end.

Definition snapshot_at (n : nat) (find : jstr → jstr → option StoredRecord) : Snapshot := {| sn_recovery := stored_of n; sn_read := find |}.
Definition scenario_write (n : nat) : StoreWrite :=
  record_write (snapshot_at n (λ _ _, None)) (record_of (S n)) (VNum (JInt (Z.of_nat (S n)))).
Definition put (s : Store) (w : StoreWrite) : Store :=
  (ProtocolStore.finish_transact s (ProtocolStore.tx_stage (ProtocolStore.s_limits s) (ProtocolStoreFacts.new_tx tenant) w) (Some tt) (JInt 9)).1.
Fixpoint store_at (n : nat) : Store :=
  match n with O => ConfirmationFacts.demo_cs0 | S n => put (store_at n) (scenario_write n) end.

Abbreviation parse := (reads_one_of envelopes).
Abbreviation advancing := (advances parse no_batch (ST := ProtocolStoreFacts.preproduction_store) decode).
Abbreviation reached := (reachable parse no_batch (ST := ProtocolStoreFacts.preproduction_store) decode).

Lemma map_agrees {A B} (f g : A → B) l a : map f l = map g l → a ∈ l → f a = g a.
Proof. induction l as [|b l IH]; [by intros _ ?%elem_of_nil|]. cbn. intros [= E El] [->|Ha]%elem_of_cons; auto. Qed.

Definition moments : list nat := [0; 1; 2; 3; 4; 5; 6; 7; 8]%nat.

(** Every operation of the script stages the record that follows. *)
Lemma script_offers n find :
  n ∈ moments →
  offered (answering (stored_of n) find (step_of n).1.2) (perform parse no_batch (op_of n)) [] =
  Some (tenant, session, snapshot_at n find, stageRecord (record_of (S n))).
Proof.
  apply (map_agrees (λ n, offered (answering (stored_of n) find (step_of n).1.2) (perform parse no_batch (op_of n)) [])
           (λ n, Some (tenant, session, snapshot_at n find, stageRecord (record_of (S n))))).
  vm_compute. reflexivity.
Qed.

Lemma script_finds n :
  n ∈ moments ++ [9%nat] →
  ProtocolStoreFacts.find_record (store_at n) tenant GATEWAY_RECOVERY_NAMESPACE session =
  match n with
  | O => None
  | S _ => Some {|
      ProtocolStore.sr_tenantId := tenant; ProtocolStore.sr_namespace := GATEWAY_RECOVERY_NAMESPACE; ProtocolStore.sr_key := session;
      ProtocolStore.sr_value := VNum (JInt (Z.of_nat n)); ProtocolStore.sr_version := Z.of_nat n; ProtocolStore.sr_updatedAtMs := 9 |}
  end.
Proof. revert n. refine (λ n, map_agrees (λ n, _) (λ n, _) (moments ++ [9%nat]) n _). vm_compute. reflexivity. Qed.

Lemma script_commits n :
  n ∈ moments →
  ProtocolStore.finish_transact (store_at n)
    (ProtocolStore.tx_stage (ProtocolStore.s_limits (store_at n)) (ProtocolStoreFacts.new_tx tenant) (scenario_write n)) (Some tt) (JInt 9) =
  (store_at (S n), ProtocolStore.store_ok tt).
Proof. revert n. refine (λ n, map_agrees (λ n, _) (λ n, (_, _)) moments n _). vm_compute. reflexivity. Qed.

Lemma token_tree n : n ∈ moments → JsonTextFacts.json_tree (VNum (JInt (Z.of_nat (S n)))) = true.
Proof. revert n. refine (λ n, map_agrees (λ n, _) (λ n, true) moments n _). vm_compute. reflexivity. Qed.

Lemma tenant_bounded n : n ∈ moments → ProtocolStoreFacts.bounded (ProtocolStore.s_limits (store_at n)) tenant.
Proof. revert n. refine (λ n, map_agrees (λ n, _) (λ n, true) moments n _). vm_compute. reflexivity. Qed.

Lemma record_stored (sys : System (ST := ProtocolStoreFacts.preproduction_store)) n :
  n ∈ moments ++ [9%nat] → sy_store sys = store_at n → record_at decode sys tenant session = record_of n.
Proof.
  intros Hn Es. unfold record_at. cbn. rewrite Es, (script_finds n Hn). destruct n as [|n]; [done|].
  cbn [ProtocolStore.sr_value decode]. rewrite bool_decide_eq_true_2 by lia. by rewrite Nat2Z.id.
Qed.

Lemma script_answers n :
  n ∈ moments →
  answers_for (ST := ProtocolStoreFacts.preproduction_store) decode
    (answering (stored_of n) (ProtocolStoreFacts.find_record (store_at n) tenant) (step_of n).1.2) (store_at n).
Proof.
  intros Hn h c. destruct c as [t rsid| | | | | |]; cbn [served]; try done; [|by left].
  split; [done|]. intros read. cbn [answering]. repeat case_bool_decide; try done. subst. intros [= <-]. split; [|done].
  unfold reads. cbn [ts_find ProtocolStoreFacts.preproduction_store sn_recovery].
  rewrite (script_finds n) by (apply elem_of_app; by left). destruct n as [|n]; [done|]. exists (record_of (S n)). split; [|done].
  cbn [ProtocolStore.sr_value decode]. rewrite bool_decide_eq_true_2 by lia. by rewrite Nat2Z.id.
Qed.

Lemma script_advances n sys :
  n ∈ moments → reached sys → sy_store sys = store_at n →
  ∃ mid sys', reached mid ∧ sy_store mid = store_at n ∧ running mid (op_of n) ∧ advancing mid sys' ∧ sy_store sys' = store_at (S n).
Proof.
  intros Hn (s & Hs & He & Hr) Es.
  destruct (performs (ST := ProtocolStoreFacts.preproduction_store) parse no_batch decode
    (answering (stored_of n) (ProtocolStoreFacts.find_record (store_at n) tenant) (step_of n).1.2) (op_of n) sys
    (tenant, session, snapshot_at n (ProtocolStoreFacts.find_record (store_at n) tenant), stageRecord (record_of (S n))) (store_at (S n)))
    as (mid & sys' & Hmid & Em & Hrun & Ha & Es').
  - rewrite Es. by apply script_answers.
  - by apply script_offers.
  - rewrite Es. exists [scenario_write n]. split.
    + exists (VNum (JInt (Z.of_nat (S n)))). split; [|split; [by apply token_tree|reflexivity]]. cbn [decode]. rewrite bool_decide_eq_true_2 by lia. by rewrite Nat2Z.id.
    + exists (JInt 9), tt. split; [by apply tenant_bounded|exact (script_commits n Hn)].
  - exists mid, sys'. split; [|by rewrite Em]. exists s. split; [done|]. split; [done|]. by etrans.
Qed.

(** The script can be played up to any of its operations. *)
Lemma script_reaches n : n ∈ moments → ∃ sys, reached sys ∧ sy_store sys = store_at n.
Proof.
  assert (∀ m, (m ≤ 8)%nat → m ∈ moments) as Hin by (intros m Hm; unfold moments; rewrite !elem_of_cons; lia).
  intros Hn. assert (n ≤ 8)%nat as Hle by (revert Hn; unfold moments; rewrite !elem_of_cons, elem_of_nil; lia). clear Hn. revert Hle.
  induction n as [|n IH]; intros Hle.
  - exists (started (ST := ProtocolStoreFacts.preproduction_store) (store_at 0)). split; [|done]. exists (store_at 0).
    split; [exact ConfirmationFacts.demo_cs0_inv|]. split; [done|apply rtc_refl].
  - destruct IH as (sys & Hr & Es); [lia|]. destruct (script_advances n sys) as (mid & sys' & Hmid & _ & _ & Ha & Es'); [apply Hin; lia|done|done|].
    exists sys'. split; [by eapply reachable_step|done].
Qed.

(** The [n]th operation of the script commits. *)
Lemma script_step n :
  n ∈ moments →
  ∃ sys sys', reached sys ∧ advancing sys sys' ∧ running sys (op_of n) ∧ record_at decode sys tenant session = record_of n ∧
    record_at decode sys' tenant session = record_of (S n).
Proof.
  intros Hn. destruct (script_reaches n Hn) as (sys & Hr & Es). destruct (script_advances n sys Hn Hr Es) as (mid & sys' & ? & Em & ? & ? & Es').
  exists mid, sys'. split; [done|]. split; [done|]. split; [done|]. split; apply record_stored; try done.
  - apply elem_of_app. by left.
  - revert Hn. unfold moments. cbn [app]. rewrite !elem_of_cons. rewrite elem_of_nil. lia.
Qed.

(** ** The theorems at the steps of the run *)



Ltac moment := apply (bool_decide_unpack _); vm_compute; exact I.

(** The first mutation is prepared: a step of the machine. *)
Lemma recovery_refines_witness :
  ∃ op y, act_of op = Some y ∧ readable parse no_batch session record1 ∧ permitted parse y record1 record2.
Proof.
  destruct (script_step 1) as (sys & sys' & Hr & Ha & _ & E & E'); [moment|].
  destruct (recovery_refines parse no_batch decode sys sys' tenant session Hr Ha) as [Es|(op & y & _ & _ & Hy & Hread & Hp)].
  - rewrite E, E' in Es. discriminate (f_equal rr_pendingDispatch Es).
  - rewrite E in Hread. rewrite E, E' in Hp. exists op, y. split; [exact Hy|]. split; [exact Hread|exact Hp].
Defined.

Lemma window_exclusive_witness :
  ∃ op y w, act_of op = Some y ∧ rr_invocationWindow record1 = Some w ∧ dispatches y (iw_attemptId w).
Proof.
  destruct (script_step 1) as (sys & sys' & Hr & Ha & _ & E & E'); [moment|].
  destruct (window_exclusive parse no_batch decode sys tenant session Hr) as [_ Hall].
  destruct (Hall sys' Ha) as [_ Hd]. rewrite E, E' in Hd.
  destruct (Hd _ eq_refl eq_refl) as (op & y & w & _ & _ & Hy & Hw & Hdisp). exists op, y, w. split; [exact Hy|]. split; [exact Hw|exact Hdisp].
Defined.

Lemma dispatched_once_witness : ∃ p, rr_pendingDispatch record2 = Some p ∧ fresh parse record1 p.
Proof.
  destruct (script_step 1) as (sys & sys' & Hr & Ha & _ & E & E'); [moment|]. eexists. split; [reflexivity|].
  assert (rr_pendingDispatch (record_at decode sys tenant session) = None) as Hn by (rewrite E; reflexivity).
  assert (rr_pendingDispatch (record_at decode sys' tenant session) = rr_pendingDispatch record2) as Hs by (rewrite E'; reflexivity).
  destruct (dispatched_once parse no_batch decode sys sys' tenant session _ Hr Ha Hn Hs eq_refl) as [Hf _].
  rewrite E in Hf. exact Hf.
Defined.

(** The second mutation is prepared past the hold of the first. *)
Lemma prepared_past_holds_witness :
  ∃ p h, rr_pendingDispatch record8 = Some p ∧ h ∈ rr_ledger record8 ∧
    resolved_for (pd_envelopeDigest p) h ∧ mh_holdId h ∈ pd_recoveryHoldIds p.
Proof.
  destruct (script_step 7) as (sys & sys' & Hr & Ha & _ & E & E'); [moment|].
  assert (rr_pendingDispatch (record_at decode sys tenant session) = None) as Hn by (rewrite E; reflexivity).
  assert (rr_pendingDispatch (record_at decode sys' tenant session) = rr_pendingDispatch record8) as Hs by (rewrite E'; reflexivity).
  destruct (prepared_past_holds parse no_batch decode sys sys' tenant session _ Hr Ha Hn Hs eq_refl) as [Hpast _].
  eexists _, _. split; [reflexivity|]. split; [apply list_elem_of_here|]. apply Hpast. rewrite E'. apply list_elem_of_here.
Defined.

(** Its acceptance clears the hold. *)
Lemma hold_cleared_by_its_dispatch_witness :
  ∃ h h' p, h ∈ rr_ledger record8 ∧ h' ∈ rr_ledger record9 ∧ mh_holdId h' = mh_holdId h ∧
    rr_pendingDispatch record8 = Some p ∧ mh_clearedBy h' = Some (pd_envelopeDigest p).
Proof.
  destruct (script_step 8) as (sys & sys' & Hr & Ha & _ & E & E'); [moment|].
  assert (∃ h, h ∈ rr_ledger record8 ∧ isUncleared h = true) as (h & Hh & Hu) by (eexists; split; [apply list_elem_of_here|reflexivity]).
  assert (h ∈ rr_ledger (record_at decode sys tenant session)) as Hin by (rewrite E; exact Hh).
  destruct (hold_cleared_by_its_dispatch parse no_batch decode sys sys' tenant session h Hr Ha Hin) as (h' & Hh' & Eid & _ & Hc).
  rewrite E' in Hh'. assert (isUncleared h' = false) as Hu'.
  { assert (forallb (λ h, negb (isUncleared h)) (rr_ledger record9) = true) as Hall by reflexivity.
    rewrite forallb_forall in Hall. apply negb_true_iff, Hall, list_elem_of_In, Hh'. }
  destruct (Hc Hu Hu') as (p & op & Hp & _ & _ & Hcl & _). rewrite E in Hp. exists h, h', p.
  split; [exact Hh|]. split; [exact Hh'|]. split; [exact Eid|]. split; [exact Hp|exact Hcl].
Defined.

(** ** The reconciliations *)

Lemma body_run {P} (env : environment call answer) (b : program (Reply * Staged)) reply next :
  body_stages b P → (run env b []).2 = Ok (reply, stageRecord next) → P reply next.
Proof.
  intros Hb Er. destruct (wp_run _ _ env [] [] _ (Hb [])) as [HQ _]; [by left|]. rewrite Er in HQ. by apply HQ.
Qed.

Definition clockwork : environment call answer := answering None (λ _ _, None) nothing_observed.

Definition no_pending : GatewayRecoveryPendingDispatch := {|
  pd_kind := pending_mutation; pd_envelope := VNull; pd_envelopeDigest := []; pd_gatewaySequence := JInt 0; pd_sessionBindingId := [];
  pd_preparedConnectionId := []; pd_authorizedSessionVersion := JInt 0; pd_batchAtomic := false; pd_mutationEntries := [];
  pd_journalRecords := []; pd_journalAttestation := None; pd_batchTerminal := None; pd_recoveryHoldIds := [];
  pd_recoveryClearances := []; pd_verificationHoldId := None; pd_originRedelivery := false; pd_bridgeAcceptance := None;
  pd_preparedAtMs := JInt 0 |}.

(** What the reconciliation of the pending dispatch works on. *)
Definition reconciled_with (record : GatewayRecoveryRecord) (cleared : MutationHoldLedger * list jstr)
    (acceptance : option GatewayBridgeCumulativeAckReceipt) (evidence : GatewayVerifiedBridgeJournalEvidence) : Reconciled := {|
  rn_rsid := session; rn_record := record; rn_pending := default no_pending (rr_pendingDispatch record); rn_ledger := cleared.1;
  rn_cleared := cleared.2; rn_acceptance := acceptance; rn_evidence := evidence |}.

Lemma record_readable version r : loadRecord parse no_batch (Some (stored_at version r)) session = Ok r → readable parse no_batch session r.
Proof. intros Hl. apply (load_readable parse no_batch _ _ _ Hl). Qed.

(** The outcome of the first mutation is unknown, and held. *)
Definition lost_first : Reconciled := Eval vm_compute in
  reconciled_with record2 (rr_ledger record2, []) (Some (acceptance first_derived))
    (journals first_derived indeterminate_outcome 1 (loses first_hold)).

Lemma lost_first_reconciling : reconciling parse no_batch lost_first.
Proof. split; [apply (record_readable 2); vm_compute; reflexivity|reflexivity|by left]. Qed.

Lemma open_outcome_held_witness :
  rr_pendingDispatch record3 = None ∧ covered session (rr_ledger record3) (session ++ js "/" ++ first_id) document.
Proof.
  assert (Forall (λ e, scope_wire (me_mutationScope e)) (pd_mutationEntries (rn_pending lost_first))) as Hw by (constructor; [reflexivity|constructor]).
  pose proof (body_run clockwork _ (indeterminate_recorded [first_hold] []) record3
    (open_outcome_held parse no_batch lost_first lost_first_reconciling (mk_is_Some _ _ eq_refl) eq_refl Hw)) as Hrun.
  destruct Hrun as [Hp Hall]; [vm_compute; reflexivity|]. split; [exact Hp|]. refine (Hall _ (list_elem_of_here _ _)).
Defined.

(** The bridge never sent the second mutation: the hold of the first stays, for ever. *)
Definition not_sent : GatewayVerifiedBridgeJournalEvidence := Eval vm_compute in
  journals second_derived known_terminal 3 (λ r, recordJournalTerminal r
    {| to_status := cancelled; to_resultDigest := None; to_guardedReason := None; to_payloadRetained := true; to_payload := Some VNull |}).

Definition any_digest : jstr := Eval vm_compute in ok_or [] (makeParamsDigest VNull).

Definition no_send_receipt : GatewayBridgeNoSendReceipt := {|
  ns_tenantId := tenant; ns_rsid := session; ns_effectiveMcpSessionId := js "mcp"; ns_principalKey := js "acme/ada";
  ns_effectiveScopeDigest := any_digest; ns_sessionBindingId := js "binding"; ns_acceptedConnectionId := js "connection";
  ns_durableSessionVersion := JInt 3; ns_invocationId := second_id; ns_correlationId := second_id;
  ns_envelopeDigest := dv_digest second_derived; ns_gatewaySequence := JInt 3; ns_durableSequenceVersion := JInt 3;
  ns_egressEpoch := JInt 1; ns_leaseTicket := JInt 1; ns_leaseHolderInstanceId := js "gateway-1"; ns_proofDigest := any_digest;
  ns_routeSnapshotDigest := any_digest; ns_intentDigest := any_digest; ns_authorityDigest := any_digest; ns_recordedAtMs := JInt 900 |}.

Definition unsent : Reconciled := Eval vm_compute in reconciled_with record8 (rr_ledger record8, []) None not_sent.

Definition record_unsent : GatewayRecoveryRecord := Eval vm_compute in
  staged_next envelopes reconciles_second (Some (stored_at 8 record8))
    {| ob_acceptance := None; ob_journal := Some not_sent; ob_noSend := Some no_send_receipt |}.

Lemma unsent_reconciling : reconciling parse no_batch unsent.
Proof. split; [apply (record_readable 8); vm_compute; reflexivity|reflexivity|by left]. Qed.

Lemma no_send_strands_holds_witness :
  ∃ h, h ∈ rr_ledger record8 ∧ rr_pendingDispatch record_unsent = None ∧
    ∀ later, rtc (λ r r', ∃ y, permitted parse y r r') record_unsent later → h ∈ rr_ledger later ∧ isUncleared h = true.
Proof.
  assert (∃ h, h ∈ rr_ledger (rn_record unsent) ∧ resolved_for (pd_envelopeDigest (rn_pending unsent)) h) as (h & Hin & Hres).
  { eexists. split; [apply list_elem_of_here|]. split; [reflexivity|]. split; [vm_compute; reflexivity|reflexivity]. }
  pose proof (body_run clockwork _ (terminal_recorded [] (je_journalRecords not_sent) None) record_unsent
    (no_send_strands_holds parse no_batch unsent h unsent_reconciling eq_refl Hin Hres)) as Hrun.
  destruct Hrun as [Hp Hall]; [vm_compute; reflexivity|]. exists h. split; [exact Hin|]. split; [exact Hp|].
  intros later Hl. destruct (Hall later Hl) as (Hh & Hu & _). split; [exact Hh|exact Hu].
Defined.

(** The second mutation is lost before it is acknowledged; then its acceptance arrives
    together with its outcome, and nothing holds it. *)
Definition second_hold : jstr := Eval vm_compute in ok_or [] (makeMutationHoldId session document [session ++ js "/" ++ second_id]).
Definition record_lost : GatewayRecoveryRecord := Eval vm_compute in
  staged_next envelopes reconciles_second (Some (stored_at 8 record8))
    (observing None (journals second_derived indeterminate_outcome 3 (loses second_hold))).

Definition second_late : GatewayVerifiedBridgeJournalEvidence := Eval vm_compute in
  journals second_derived late_terminal_outcome 4 (λ r, lost ← loses second_hold r; ends lost).

Definition cleared_second : MutationHoldLedger * list jstr := Eval vm_compute in
  match clear_accepted record_lost (default no_pending (rr_pendingDispatch record_lost)) (Some (acceptance second_derived)) with
  | Ok (inr cleared) => cleared
  | _ => ([], [])
  end.
Definition late_second : Reconciled := Eval vm_compute in
  reconciled_with record_lost cleared_second (Some (acceptance second_derived)) second_late.
Definition record_after_late : GatewayRecoveryRecord := Eval vm_compute in
  staged_next envelopes reconciles_second (Some (stored_at 9 record_lost)) (observing (Some (acceptance second_derived)) second_late).

Lemma late_second_clears :
  clear_accepted (rn_record late_second) (rn_pending late_second) (rn_acceptance late_second) = Ok (inr (rn_ledger late_second, [first_hold])).
Proof. vm_compute. reflexivity. Qed.

Lemma late_second_reconciling : reconciling parse no_batch late_second.
Proof.
  assert (readable parse no_batch session (rn_record late_second)) as Hr by (apply (record_readable 9); vm_compute; reflexivity).
  split; [exact Hr|reflexivity|]. eapply clear_accepted_spec; [apply Hr|exact late_second_clears].
Qed.

Lemma late_outcome_unheld_witness :
  rr_pendingDispatch record_after_late = None ∧ map hi_status (rr_dispatchHistory record_after_late) = [history_indeterminate; history_terminal; history_indeterminate] ∧
  conflictingMutationHolds (rr_ledger record_after_late) session [document] = [].
Proof.
  pose proof (body_run clockwork _ (indeterminate_recorded [first_hold] [first_hold]) record_after_late
    (late_outcome_unheld parse no_batch late_second [first_hold] late_second_reconciling (mk_is_Some _ _ eq_refl) eq_refl
       ltac:(discriminate) late_second_clears)) as Hrun.
  destruct Hrun as [Hp Hall]; [vm_compute; reflexivity|]. split; [exact Hp|]. split; [reflexivity|exact Hall].
Defined.
End RecoveryScenario.
