(* ===== verification/HistoryTree.v ===== *)
(** The history of a session as a tree of pages: packages/gateway/src/sessionHistoryStore.ts.

    The entries of a history are sorted, cut into leaves of at most 64 entries, and the
    leaves are joined by branches of at most 32 references until one root is left; every
    page is a record of the protocol store under a key that contains the hash of its
    place in the tree, and every reference carries the digest of its page.  Reading
    follows the references and checks them.

    [read] is the read of a transaction, [localeCompare] the platform's collation.  A
    value of the store is read at its type, as the code's casts do.  Nothing in the code
    bounds how deep references lead, so reading has fuel; a tree built by
    [buildSessionHistoryPagePlan] is read with four. *)

From S2P Require Import Prelude JsString JsValue JsMap Canonical JsonText ProtocolStore.

Module HistoryTree.
Import Canonical JsonText JsMap.
Import ProtocolStore(StoredRecord, sr_namespace, sr_tenantId, sr_key, sr_value, sr_version, StoreWrite, Build_StoreWrite,
  sw_namespace, sw_key, sw_value, sw_expect, expect_absent, expect_version, byteLength).

Definition GATEWAY_SESSION_HISTORY_PAGE_NAMESPACE : jstr := js "gateway.session-history-page/v1".
Definition SESSION_HISTORY_PAGE_MAX_BYTES : Z := 512 * 1024.
Definition SESSION_HISTORY_LEAF_MAX_ENTRIES : nat := 64.
Definition SESSION_HISTORY_BRANCH_MAX_REFS : nat := 32.
Definition SESSION_HISTORY_MAX_HEIGHT : Z := 4.

(** ** Data *)

Inductive SessionTreeKind := aliases | evidence | pending | receipts | outbox | conflicts | indices.

#[export] Instance SessionTreeKind_eq_dec : EqDecision SessionTreeKind.
Proof. solve_decision. Defined.

Definition tree_kind_text (k : SessionTreeKind) : jstr :=
  match k with
  | aliases => js "aliases" | evidence => js "evidence" | pending => js "pending" | receipts => js "receipts"
  | outbox => js "outbox" | conflicts => js "conflicts" | indices => js "indices"
  end.

Record SessionHistoryEntry := { he_key : jstr; he_value : jsval }.

Record SessionHistoryEntryProof := { ep_key : jstr; ep_value : jsval; ep_digest : jstr }.

Record SessionHistoryPageRef := {
  rf_namespace : jstr; rf_key : jstr; rf_version : Z; rf_digest : jstr; rf_firstKey : jstr; rf_lastKey : jstr; rf_count : Z;
  rf_height : Z }.

Inductive PageBody :=
| page_entries (entries : list SessionHistoryEntryProof)
| page_children (children : list SessionHistoryPageRef).

(** [schema] and [generation] have one value each. *)
Record SessionHistoryPage := {
  pg_tenantId : jstr; pg_rsid : jstr; pg_treeKind : jstr; pg_pageId : jstr; pg_height : Z; pg_body : PageBody }.

Record SessionHistoryTreeRef := { tr_treeKind : SessionTreeKind; tr_root : option SessionHistoryPageRef; tr_entryCount : Z }.

Record PlannedPage := { pp_key : jstr; pp_value : SessionHistoryPage; pp_digest : jstr }.

Record SessionHistoryPagePlan := { pn_tree : SessionHistoryTreeRef; pn_pages : list PlannedPage }.

(** ** JSON *)

Definition int (z : Z) : jsval := VNum (JInt z).

Definition proof_value (e : SessionHistoryEntryProof) : jsval :=
  obj [(js "key", VStr (ep_key e)); (js "value", ep_value e); (js "digest", VStr (ep_digest e))].

Definition ref_value (r : SessionHistoryPageRef) : jsval :=
  obj [(js "namespace", VStr (rf_namespace r)); (js "key", VStr (rf_key r)); (js "version", int (rf_version r));
       (js "digest", VStr (rf_digest r)); (js "firstKey", VStr (rf_firstKey r)); (js "lastKey", VStr (rf_lastKey r));
       (js "count", int (rf_count r)); (js "height", int (rf_height r))].

Definition page_value (p : SessionHistoryPage) : jsval :=
  obj [(js "schema", VStr GATEWAY_SESSION_HISTORY_PAGE_NAMESPACE); (js "generation", int 1);
       (js "tenantId", VStr (pg_tenantId p)); (js "rsid", VStr (pg_rsid p)); (js "treeKind", VStr (pg_treeKind p));
       (js "pageId", VStr (pg_pageId p)); (js "height", int (pg_height p));
       match pg_body p with
       | page_entries entries => (js "entries", VArr (map proof_value entries))
       | page_children children => (js "children", VArr (map ref_value children))
       end].

Definition member (v : jsval) (k : string) : jsval :=
  match v with VObj _ ms => nullish (mget ms (js k)) VUndefined | _ => VUndefined end.
Definition has_member (v : jsval) (k : string) : bool :=
  match v with VObj _ ms => negb (is_null (mget ms (js k))) | _ => false end.
Definition str_of (v : jsval) : jstr := match v with VStr s => s | _ => [] end.
Definition int_of (v : jsval) : Z := match v with VNum n => num_Z n | _ => 0 end.

(** [v === s] and [v === z] *)
Definition is_str (v : jsval) (s : jstr) : bool := match v with VStr s' => s' === s | _ => false end.
Definition is_int (v : jsval) (z : Z) : bool := match v with VNum (JInt z') => z' =? z | _ => false end.

Definition proof_of (v : jsval) : SessionHistoryEntryProof := {|
  ep_key := str_of (member v "key"); ep_value := member v "value"; ep_digest := str_of (member v "digest") |}.

Definition ref_of (v : jsval) : SessionHistoryPageRef := {|
  rf_namespace := str_of (member v "namespace"); rf_key := str_of (member v "key"); rf_version := int_of (member v "version");
  rf_digest := str_of (member v "digest"); rf_firstKey := str_of (member v "firstKey"); rf_lastKey := str_of (member v "lastKey");
  rf_count := int_of (member v "count"); rf_height := int_of (member v "height") |}.

(** ["entries" in page]; [None]: what is to be iterated is no array. *)
Definition body_of (v : jsval) : option PageBody :=
  if has_member v "entries"
  then match member v "entries" with VArr items => Some (page_entries (map proof_of items)) | _ => None end
  else match member v "children" with VArr items => Some (page_children (map ref_of items)) | _ => None end.

Definition page_of (v : jsval) (body : PageBody) : SessionHistoryPage := {|
  pg_tenantId := str_of (member v "tenantId"); pg_rsid := str_of (member v "rsid"); pg_treeKind := str_of (member v "treeKind");
  pg_pageId := str_of (member v "pageId"); pg_height := int_of (member v "height"); pg_body := body |}.

(** ** The entries of a lane, as packages/gateway/src/bridgeSession.ts numbers them *)

Definition padStart (n : nat) (s : jstr) : jstr := replicate (n - length s) 48 ++ s.

Definition lane_key (index : nat) : jstr := padStart 12 (dec (Z.of_nat index)).

Definition orderedLaneEntries (values : list jsval) : list SessionHistoryEntry :=
  imap (λ index value, {| he_key := lane_key index; he_value := value |}) values.

Section tree.
Context `{Hasher}.
Context (localeCompare : jstr → jstr → Z).

(** ** Digests and pages *)

Definition sessionRecordValueBytes (value : jsval) : Z := byteLength (json_stringify value).

Definition sessionCanonicalDigest (value : jsval) : result js_error jstr := makeJsonDigest value.

Definition boundedToken (value : jstr) : bool :=
  negb (length value =? 0)%nat && (byteLength value <=? 512).

Record PageIdInput := {
  id_tenantId : jstr; id_rsid : jstr; id_treeKind : jstr; id_height : Z; id_ordinal : Z; id_firstKey : jstr; id_lastKey : jstr }.

Definition pageId (input : PageIdInput) : jstr :=
  js "p-" ++ sha256_hex (utf8_encode (js "revagent/gateway/session-history-page-id/v1" ++ [0]) ++
    utf8_encode (json_stringify (obj [
      (js "tenantId", VStr (id_tenantId input)); (js "rsid", VStr (id_rsid input)); (js "treeKind", VStr (id_treeKind input));
      (js "height", int (id_height input)); (js "ordinal", int (id_ordinal input)); (js "firstKey", VStr (id_firstKey input));
      (js "lastKey", VStr (id_lastKey input))]))).

(** The first and the last key of a page, and what it counts; [None]: it is empty. *)
Definition page_span (body : PageBody) : option (jstr * jstr * Z) :=
  match body with
  | page_entries entries =>
      first ← head entries; final ← last entries; Some (ep_key first, ep_key final, Z.of_nat (length entries))
  | page_children children =>
      first ← head children; final ← last children;
      Some (rf_firstKey first, rf_lastKey final, foldl (λ sum child, sum + rf_count child) 0 children)
  end.

Definition pageRef (key : jstr) (value : SessionHistoryPage) : result js_error SessionHistoryPageRef :=
  match page_span (pg_body value) with
  | None => Throw (JsError PlainError (js "history page is empty"))
  | Some (firstKey, lastKey, count) =>
      digest ← sessionCanonicalDigest (page_value value);
      Ok {| rf_namespace := GATEWAY_SESSION_HISTORY_PAGE_NAMESPACE; rf_key := key; rf_version := 1; rf_digest := digest;
            rf_firstKey := firstKey; rf_lastKey := lastKey; rf_count := count; rf_height := pg_height value |}
  end.

(** ** Building *)

Record PlanInput := { bi_tenantId : jstr; bi_rsid : jstr; bi_treeKind : SessionTreeKind; bi_entries : list SessionHistoryEntry }.

(** [slice(offset, offset + size)] for the offsets 0, size, 2 size, ... *)
Fixpoint slices {A} (fuel size : nat) (xs : list A) : list (list A) :=
  match fuel, xs with
  | S fuel, _ :: _ => take size xs :: slices fuel size (drop size xs)
  | _, _ => []
  end.

Definition chunks {A} (size : nat) (xs : list A) : list (list A) := slices (length xs) size xs.

(** A page with its place in the tree, and the reference to it. *)
Definition plan_page (input : PlanInput) (height ordinal : Z) (body : PageBody) (exceeds : string)
    : result js_error (PlannedPage * SessionHistoryPageRef) :=
  let span := nullish (page_span body) ([], [], 0) in
  let id := pageId {|
    id_tenantId := bi_tenantId input; id_rsid := bi_rsid input; id_treeKind := tree_kind_text (bi_treeKind input);
    id_height := height; id_ordinal := ordinal; id_firstKey := span.1.1; id_lastKey := span.1.2 |} in
  let value := {|
    pg_tenantId := bi_tenantId input; pg_rsid := bi_rsid input; pg_treeKind := tree_kind_text (bi_treeKind input);
    pg_pageId := id; pg_height := height; pg_body := body |} in
  reject_if (SESSION_HISTORY_PAGE_MAX_BYTES <? sessionRecordValueBytes (page_value value)) PlainError exceeds ;;
  let key := bi_rsid input ++ js "/" ++ tree_kind_text (bi_treeKind input) ++ js "/" ++ id in
  ref ← pageRef key value;
  Ok ({| pp_key := key; pp_value := value; pp_digest := rf_digest ref |}, ref).

Definition plan_leaf (input : PlanInput) (ordinal : Z) (slice : list SessionHistoryEntry)
    : result js_error (PlannedPage * SessionHistoryPageRef) :=
  proofs ← map_result (λ entry, digest ← sessionCanonicalDigest (he_value entry);
             Ok {| ep_key := he_key entry; ep_value := he_value entry; ep_digest := digest |}) slice;
  plan_page input 1 ordinal (page_entries proofs) "session history leaf exceeds its encoded cap".

Definition plan_branch (input : PlanInput) (height ordinal : Z) (children : list SessionHistoryPageRef)
    : result js_error (PlannedPage * SessionHistoryPageRef) :=
  plan_page input height ordinal (page_children children) "session history branch exceeds its encoded cap".

(** One level of the tree, its pages numbered from [ordinal]. *)
Fixpoint plan_level {A} (plan : Z → list A → result js_error (PlannedPage * SessionHistoryPageRef)) (ordinal : Z)
    (slices : list (list A)) : result js_error (list (PlannedPage * SessionHistoryPageRef)) :=
  match slices with
  | [] => Ok []
  | slice :: slices => page ← plan ordinal slice; pages ← plan_level plan (ordinal + 1) slices; Ok (page :: pages)
  end.

Definition too_high : js_error := JsError PlainError (js "session history tree exceeds its height cap").

(** [while (level.length > 1)]: the pages made, and the root. *)
Fixpoint plan_branches (fuel : nat) (input : PlanInput) (height : Z) (level : list SessionHistoryPageRef)
    : result js_error (list PlannedPage * option SessionHistoryPageRef) :=
  if negb (1 <? Z.of_nat (length level)) then Ok ([], head level) else
  throw_if (SESSION_HISTORY_MAX_HEIGHT <? height) too_high ;;
  match fuel with
  | O => Throw too_high
  | S fuel =>
      made ← plan_level (plan_branch input height) 0 (chunks SESSION_HISTORY_BRANCH_MAX_REFS level);
      rest ← plan_branches fuel input (height + 1) (map snd made);
      Ok (map fst made ++ rest.1, rest.2)
  end.

Fixpoint has_duplicate (sorted : list SessionHistoryEntry) : bool :=
  match sorted with
  | a :: (b :: _) as rest => (he_key a === he_key b) || has_duplicate rest
  | _ => false
  end.

Definition sort_entries (entries : list SessionHistoryEntry) : list SessionHistoryEntry :=
  sort_by (λ left right, localeCompare (he_key left) (he_key right) <=? 0) entries.

Definition buildSessionHistoryPagePlan (input : PlanInput) : result js_error SessionHistoryPagePlan :=
  reject_if (negb (boundedToken (bi_tenantId input)) || negb (boundedToken (bi_rsid input))) PlainError
    "session history identity is invalid" ;;
  let sorted := sort_entries (bi_entries input) in
  reject_if (existsb (λ entry, negb (boundedToken (he_key entry))) sorted || has_duplicate sorted) PlainError
    "session history keys are invalid or duplicated" ;;
  if (length sorted =? 0)%nat
  then Ok {| pn_tree := {| tr_treeKind := bi_treeKind input; tr_root := None; tr_entryCount := 0 |}; pn_pages := [] |} else
  leaves ← plan_level (plan_leaf input) 0 (chunks SESSION_HISTORY_LEAF_MAX_ENTRIES sorted);
  rest ← plan_branches (Z.to_nat SESSION_HISTORY_MAX_HEIGHT) input 2 (map snd leaves);
  Ok {| pn_tree := {| tr_treeKind := bi_treeKind input; tr_root := rest.2; tr_entryCount := Z.of_nat (length sorted) |};
        pn_pages := map fst leaves ++ rest.1 |}.

(** ** Reading *)

Definition page_stale : js_error := JsError PlainError (js "session history page proof is stale or malformed").

(** [value.pageId.length]: [None] when it is not a number. *)
Definition js_length (v : jsval) : result js_error (option Z) :=
  match v with
  | VStr s => Ok (Some (Z.of_nat (length s)))
  | VArr items => Ok (Some (Z.of_nat (length items)))
  | VUndefined | VNull => Throw (JsError TypeError (js "Cannot read properties of undefined"))
  | VObj _ _ => Ok match member v "length" with VNum (JInt z) => Some z | _ => None end
  | _ => Ok None
  end.

Definition parsePage (stored : StoredRecord) (expected : SessionHistoryPageRef) (tenantId rsid treeKind : jstr)
    : result js_error jsval :=
  let value := sr_value stored in
  throw_if ((sr_namespace stored !== rf_namespace expected) || (sr_key stored !== rf_key expected) ||
            (sr_tenantId stored !== tenantId) || (sr_version stored !== rf_version expected) ||
            negb (is_str (member value "schema") GATEWAY_SESSION_HISTORY_PAGE_NAMESPACE) ||
            negb (is_int (member value "generation") 1) || negb (is_str (member value "tenantId") tenantId) ||
            negb (is_str (member value "rsid") rsid) || negb (is_str (member value "treeKind") treeKind)) page_stale ;;
  len ← js_length (member value "pageId");
  throw_if (len === Some 0) page_stale ;;
  digest ← sessionCanonicalDigest value;
  throw_if ((digest !== rf_digest expected) || (SESSION_HISTORY_PAGE_MAX_BYTES <? sessionRecordValueBytes value)) page_stale ;;
  Ok value.

Definition not_iterable : js_error := JsError TypeError (js "page is not iterable").

Inductive halt := thrown (e : js_error) | out_of_fuel.

Definition lifted {A} (r : result js_error A) : result halt A := match r with Ok a => Ok a | Throw e => Throw (thrown e) end.

Context (read : jstr → jstr → option StoredRecord).

(** The page a reference leads to: [None] when it is not there. *)
Definition load_page (tenantId rsid : jstr) (kind : SessionTreeKind) (ref : SessionHistoryPageRef) : result js_error (option PageBody) :=
  match read (rf_namespace ref) (rf_key ref) with
  | None => Ok None
  | Some stored =>
      value ← parsePage stored ref tenantId rsid (tree_kind_text kind);
      match body_of value with Some body => Ok (Some body) | None => Throw not_iterable end
  end.

Definition check_entry (entry : SessionHistoryEntryProof) : result js_error SessionHistoryEntry :=
  digest ← sessionCanonicalDigest (ep_value entry);
  reject_if (digest !== ep_digest entry) PlainError "session history entry digest is invalid" ;;
  Ok {| he_key := ep_key entry; he_value := ep_value entry |}.

Fixpoint visit (fuel : nat) (tenantId rsid : jstr) (kind : SessionTreeKind) (ref : SessionHistoryPageRef)
    : result halt (list SessionHistoryEntry) :=
  match fuel with
  | O => Throw out_of_fuel
  | S fuel =>
      page ← lifted (load_page tenantId rsid kind ref);
      match page with
      | None => Throw (thrown (JsError PlainError (js "session history page is missing")))
      | Some (page_entries entries) => lifted (map_result check_entry entries)
      | Some (page_children children) => below ← map_result (visit fuel tenantId rsid kind) children; Ok (concat below)
      end
  end.

(** [output.some((entry, index) => index > 0 && output[index - 1].key >= entry.key)] *)
Fixpoint out_of_order (output : list SessionHistoryEntry) : bool :=
  match output with
  | a :: (b :: _) as rest => str_leb (he_key b) (he_key a) || out_of_order rest
  | _ => false
  end.

Definition unordered : js_error := JsError PlainError (js "session history tree cardinality or order is invalid").

Definition readTree (fuel : nat) (tenantId rsid : jstr) (tree : SessionHistoryTreeRef) : result halt (list SessionHistoryEntry) :=
  match tr_root tree with
  | None => Ok []
  | Some root =>
      output ← visit fuel tenantId rsid (tr_treeKind tree) root;
      throw_if ((Z.of_nat (length output) !== tr_entryCount tree) || out_of_order output) (thrown unordered) ;;
      Ok output
  end.

(** ** The pages of a session *)

Record Captured := { cp_leaves : list SessionHistoryPageRef; cp_branches : list SessionHistoryPageRef }.

Definition captured_of (captured : list Captured) : Captured := {|
  cp_leaves := concat (map cp_leaves captured); cp_branches := concat (map cp_branches captured) |}.

Fixpoint capture (fuel : nat) (tenantId rsid : jstr) (kind : SessionTreeKind) (ref : SessionHistoryPageRef) : result halt Captured :=
  match fuel with
  | O => Throw out_of_fuel
  | S fuel =>
      page ← lifted (load_page tenantId rsid kind ref);
      match page with
      | None =>
          if rf_height ref =? 1 then Ok {| cp_leaves := [ref]; cp_branches := [] |}
          else Throw (thrown (JsError PlainError (js "captured branch disappeared before final branch batch")))
      | Some (page_entries _) => Ok {| cp_leaves := [ref]; cp_branches := [] |}
      | Some (page_children children) =>
          below ← map_result (capture fuel tenantId rsid kind) children;
          Ok {| cp_leaves := cp_leaves (captured_of below); cp_branches := cp_branches (captured_of below) ++ [ref] |}
      end
  end.

Definition sort_roots (roots : list SessionHistoryTreeRef) : list SessionHistoryTreeRef :=
  sort_by (λ left right, localeCompare (tree_kind_text (tr_treeKind left)) (tree_kind_text (tr_treeKind right)) <=? 0) roots.

Definition capturedPages (fuel : nat) (tenantId rsid : jstr) (roots : list SessionHistoryTreeRef) : result halt Captured :=
  trees ← map_result (λ tree, match tr_root tree with
                              | Some root => capture fuel tenantId rsid (tr_treeKind tree) root
                              | None => Ok {| cp_leaves := []; cp_branches := [] |}
                              end) (sort_roots roots);
  Ok (captured_of trees).

Definition listCapturedPageRefs (fuel : nat) (tenantId rsid : jstr) (roots : list SessionHistoryTreeRef)
    : result halt (list SessionHistoryPageRef) :=
  captured ← capturedPages fuel tenantId rsid roots; Ok (cp_leaves captured ++ cp_branches captured).

(** The writes of [stageNew] and of the migration for one page. *)
Definition page_write (page : PlannedPage) : StoreWrite := {|
  sw_namespace := GATEWAY_SESSION_HISTORY_PAGE_NAMESPACE; sw_key := pp_key page; sw_value := Some (page_value (pp_value page));
  sw_expect := expect_absent |}.

End tree.
End HistoryTree.

Module HistoryTreeFacts.
Import Canonical CanonicalFacts JsonText JsonTextFacts HistoryTree.
Import ProtocolStore(StoredRecord, sr_namespace, sr_tenantId, sr_key, sr_value, sr_version).

(** ** Cutting *)

Section chunks.
Context {A : Type}.
Implicit Types (xs : list A) (size : nat).

Lemma slices_spec fuel size xs : (length xs <= fuel)%nat → (0 < size)%nat →
  concat (slices fuel size xs) = xs ∧ Forall (λ s, s ≠ [] ∧ (length s <= size)%nat) (slices fuel size xs).
Proof.
  revert xs. induction fuel as [|fuel IH]; intros [|x xs] Hlen Hs; cbn in *; try done; [lia|].
  destruct (IH (drop size (x :: xs))) as [Hc Hf]; [rewrite length_drop; cbn; lia|done|]. split.
  - by rewrite Hc, take_drop.
  - constructor; [|done]. destruct size; [lia|]. split; [done|]. rewrite length_take. lia.
Qed.

Lemma slices_count fuel size xs k : (length xs <= fuel)%nat → (0 < size)%nat →
  (length (slices fuel size xs) <= k)%nat → (length xs <= k * size)%nat.
Proof.
  revert xs k. induction fuel as [|fuel IH]; intros [|x xs] k Hlen Hs Hk; cbn in *; try lia.
  destruct k as [|k]; [lia|]. specialize (IH (drop size (x :: xs)) k). rewrite length_drop in IH. cbn in *. lia.
Qed.

Lemma chunks_spec size xs : (0 < size)%nat →
  concat (chunks size xs) = xs ∧ Forall (λ s, s ≠ [] ∧ (length s <= size)%nat) (chunks size xs).
Proof. intros Hs. by apply slices_spec. Qed.

Lemma chunks_count size xs k : (0 < size)%nat → (length (chunks size xs) <= k)%nat → (length xs <= k * size)%nat.
Proof. intros Hs. by apply slices_count. Qed.

Lemma chunks_nonempty size xs : xs ≠ [] → chunks size xs ≠ [].
Proof. by destruct xs. Qed.

End chunks.

(** ** JSON round trips *)

Lemma proof_of_value e : proof_of (proof_value e) = e.
Proof. by destruct e. Qed.

Lemma ref_of_value r : ref_of (ref_value r) = r.
Proof. by destruct r. Qed.

Lemma map_id_by {A B} (f : A → B) (g : B → A) xs : (∀ x, g (f x) = x) → map g (map f xs) = xs.
Proof. intros Hgf. rewrite map_map. induction xs; cbn; congruence. Qed.

Lemma body_of_value p : body_of (page_value p) = Some (pg_body p).
Proof.
  destruct p as [t r k i h [entries|children]].
  - change (Some (page_entries (map proof_of (map proof_value entries))) = Some (page_entries entries)).
    by rewrite (map_id_by proof_value proof_of) by apply proof_of_value.
  - change (Some (page_children (map ref_of (map ref_value children))) = Some (page_children children)).
    by rewrite (map_id_by ref_value ref_of) by apply ref_of_value.
Qed.

Section facts.
Context `{Hasher}.

(** ** Trees *)

(** The tree of a session: the pages it may use, its tenant, session and kind. *)
Record Forest := { fo_pages : list PlannedPage; fo_tenantId : jstr; fo_rsid : jstr; fo_kind : SessionTreeKind }.

(** A reference to a page of the forest with the given body. *)
Record refers (f : Forest) (ref : SessionHistoryPageRef) (height : Z) (body : PageBody) (page : PlannedPage) : Prop := {
  re_page : page ∈ fo_pages f;
  re_ref : pageRef (pp_key page) (pp_value page) = Ok ref;
  re_tenant : pg_tenantId (pp_value page) = fo_tenantId f;
  re_rsid : pg_rsid (pp_value page) = fo_rsid f;
  re_kind : pg_treeKind (pp_value page) = tree_kind_text (fo_kind f);
  re_id : pg_pageId (pp_value page) ≠ [];
  re_height : pg_height (pp_value page) = height;
  re_bytes : sessionRecordValueBytes (page_value (pp_value page)) <= SESSION_HISTORY_PAGE_MAX_BYTES;
  re_body : pg_body (pp_value page) = body }.

(** The entries with their digests. *)
Definition proves (e : SessionHistoryEntry) (p : SessionHistoryEntryProof) : Prop :=
  ep_key p = he_key e ∧ ep_value p = he_value e ∧ sessionCanonicalDigest (he_value e) = Ok (ep_digest p).

(** What a reference stands for: the entries below it, and the pages. *)
Record Subtree := { su_entries : list SessionHistoryEntry; su_captured : Captured }.

Definition leaf_subtree (ref : SessionHistoryPageRef) (es : list SessionHistoryEntry) : Subtree := {|
  su_entries := es; su_captured := {| cp_leaves := [ref]; cp_branches := [] |} |}.

Definition branch_subtree (ref : SessionHistoryPageRef) (subs : list Subtree) : Subtree := {|
  su_entries := concat (map su_entries subs);
  su_captured := let below := captured_of (map su_captured subs) in
                 {| cp_leaves := cp_leaves below; cp_branches := cp_branches below ++ [ref] |} |}.

(** [ref] is the root of a well-formed tree of height [n]. *)
Fixpoint tree_at (n : nat) (f : Forest) (ref : SessionHistoryPageRef) (sub : Subtree) : Prop :=
  match n with
  | O => False
  | S O => ∃ page proofs es, refers f ref 1 (page_entries proofs) page ∧ Forall2 proves es proofs ∧
      es ≠ [] ∧ (length es <= SESSION_HISTORY_LEAF_MAX_ENTRIES)%nat ∧ sub = leaf_subtree ref es
  | S n => ∃ page children subs, refers f ref (Z.of_nat (S n)) (page_children children) page ∧ Forall2 (tree_at n f) children subs ∧
      children ≠ [] ∧ (length children <= SESSION_HISTORY_BRANCH_MAX_REFS)%nat ∧ sub = branch_subtree ref subs
  end.

Lemma refers_mono f f' ref h body page :
  fo_pages f ⊆ fo_pages f' → fo_tenantId f' = fo_tenantId f → fo_rsid f' = fo_rsid f → fo_kind f' = fo_kind f →
  refers f ref h body page → refers f' ref h body page.
Proof. intros Hp Ht Hr Hk []. split; rewrite ?Ht, ?Hr, ?Hk; auto. Qed.

Lemma tree_mono n f f' ref sub :
  fo_pages f ⊆ fo_pages f' → fo_tenantId f' = fo_tenantId f → fo_rsid f' = fo_rsid f → fo_kind f' = fo_kind f →
  tree_at n f ref sub → tree_at n f' ref sub.
Proof.
  intros Hp Ht Hr Hk. revert ref sub. induction n as [|[|n] IH]; intros ref sub; [done|..].
  - intros (page & proofs & es & Href & ?). exists page, proofs, es. split; [by eapply refers_mono|done].
  - intros (page & children & subs & Href & Hc & ?). exists page, children, subs. split; [by eapply refers_mono|].
    split; [|done]. eapply Forall2_impl; [exact Hc|]. apply IH.
Qed.

Lemma refers_fields f ref h body page : refers f ref h body page →
  rf_namespace ref = GATEWAY_SESSION_HISTORY_PAGE_NAMESPACE ∧ rf_key ref = pp_key page ∧ rf_version ref = 1 ∧ rf_height ref = h ∧
  sessionCanonicalDigest (page_value (pp_value page)) = Ok (rf_digest ref).
Proof.
  intros [_ Href _ _ _ _ Hh _ _]. unfold pageRef in Href. destruct (page_span _) as [[[a b] c]|]; [|done]. ok_inv Href. done.
Qed.

(** ** Reading a tree that is stored *)

Section stored.
Context (f : Forest) (read : jstr → jstr → option StoredRecord).

(** Every page of the forest is in the store, as it was staged. *)
Definition stored_page (page : PlannedPage) (r : StoredRecord) : Prop :=
  sr_namespace r = GATEWAY_SESSION_HISTORY_PAGE_NAMESPACE ∧ sr_key r = pp_key page ∧ sr_tenantId r = fo_tenantId f ∧
  sr_version r = 1 ∧ sr_value r = page_value (pp_value page).

Lemma parse_stored ref h body page r : refers f ref h body page → stored_page page r →
  parsePage r ref (fo_tenantId f) (fo_rsid f) (tree_kind_text (fo_kind f)) = Ok (page_value (pp_value page)).
Proof.
  intros Href (En & Ek & Et & Ev & Eval). destruct (refers_fields _ _ _ _ _ Href) as (Rn & Rk & Rv & _ & Rd).
  destruct Href as [_ _ Ht Hr Hk Hid _ Hb _]. set (v := page_value (pp_value page)) in *.
  assert (member v "schema" = VStr GATEWAY_SESSION_HISTORY_PAGE_NAMESPACE ∧ member v "generation" = int 1 ∧
    member v "tenantId" = VStr (fo_tenantId f) ∧ member v "rsid" = VStr (fo_rsid f) ∧
    member v "treeKind" = VStr (tree_kind_text (fo_kind f)) ∧ member v "pageId" = VStr (pg_pageId (pp_value page))) as (M1&M2&M3&M4&M5&M6).
  { rewrite <- Ht, <- Hr, <- Hk. done. }
  unfold parsePage. rewrite En, Ek, Et, Ev, Eval, Rn, Rk, Rv, M1, M2, M3, M4, M5, M6. unfold is_str, is_int, int.
  repeat rewrite (bool_decide_eq_true_2 (?[x] = ?x)) by done. cbn [negb orb Z.eqb Pos.eqb throw_if mbind result_bind js_length].
  rewrite bool_decide_eq_false_2 by (destruct (pg_pageId _); [done|intros [= E]; cbn in E; lia]). cbn [throw_if mbind result_bind].
  rewrite Rd. cbn [mbind result_bind]. rewrite bool_decide_eq_true_2 by done. cbn [negb orb]. by rewrite (proj2 (Z.ltb_ge _ _) Hb).
Qed.

Lemma load_stored ref h body page : refers f ref h body page →
  (∃ r, read (rf_namespace ref) (rf_key ref) = Some r ∧ stored_page page r) →
  load_page read (fo_tenantId f) (fo_rsid f) (fo_kind f) ref = Ok (Some body).
Proof.
  intros Href (r & Hr & Hs). unfold load_page. rewrite Hr, (parse_stored _ _ _ _ _ Href Hs). cbn [mbind result_bind].
  by rewrite body_of_value, (re_body _ _ _ _ _ Href).
Qed.

Lemma check_proofs es proofs : Forall2 proves es proofs → map_result check_entry proofs = Ok es.
Proof.
  intros Hp. apply map_result_ok. induction Hp as [|[k v] p es ps (Hk & Hv & Hd)]; constructor; [|done].
  unfold check_entry. cbn [he_key he_value] in *. rewrite Hv, Hd. cbn [mbind result_bind].
  rewrite bool_decide_eq_true_2 by done. cbn. by rewrite Hk.
Qed.

Hypothesis all_stored : ∀ page, page ∈ fo_pages f → ∃ r, read GATEWAY_SESSION_HISTORY_PAGE_NAMESPACE (pp_key page) = Some r ∧ stored_page page r.

Lemma load_forest ref h body page : refers f ref h body page →
  load_page read (fo_tenantId f) (fo_rsid f) (fo_kind f) ref = Ok (Some body).
Proof.
  intros Href. eapply load_stored; [done|]. destruct (refers_fields _ _ _ _ _ Href) as (-> & -> & _). apply all_stored, Href.
Qed.

Lemma visit_tree n fuel ref sub : (n <= fuel)%nat → tree_at n f ref sub →
  visit read fuel (fo_tenantId f) (fo_rsid f) (fo_kind f) ref = Ok (su_entries sub).
Proof.
  revert fuel ref sub. induction n as [|[|n] IH]; intros [|fuel] ref sub Hn; cbn [tree_at]; try done; try lia.
  - intros (page & proofs & es & Href & Hp & _ & _ & ->). cbn [visit]. rewrite (load_forest _ _ _ _ Href). cbn.
    by rewrite (check_proofs _ _ Hp).
  - intros (page & children & subs & Href & Hc & _ & _ & ->). cbn [visit]. rewrite (load_forest _ _ _ _ Href). cbn.
    rewrite (proj2 (map_result_ok _ children (map su_entries subs))); [done|].
    apply Forall2_fmap_r. eapply Forall2_impl; [exact Hc|]. intros c s Hcs. apply IH; [lia|done].
Qed.

Lemma capture_tree n fuel ref sub : (n <= fuel)%nat → tree_at n f ref sub →
  capture read fuel (fo_tenantId f) (fo_rsid f) (fo_kind f) ref = Ok (su_captured sub).
Proof.
  revert fuel ref sub. induction n as [|[|n] IH]; intros [|fuel] ref sub Hn; cbn [tree_at]; try done; try lia.
  - intros (page & proofs & es & Href & Hp & _ & _ & ->). cbn [capture]. by rewrite (load_forest _ _ _ _ Href).
  - intros (page & children & subs & Href & Hc & _ & _ & ->). cbn [capture]. rewrite (load_forest _ _ _ _ Href). cbn.
    rewrite (proj2 (map_result_ok _ children (map su_captured subs))); [done|].
    apply Forall2_fmap_r. eapply Forall2_impl; [exact Hc|]. intros c s Hcs. apply IH; [lia|done].
Qed.

End stored.

(** ** What is built *)

(** The references below, itself included. *)
Definition sub_refs (sub : Subtree) : list SessionHistoryPageRef := cp_leaves (su_captured sub) ++ cp_branches (su_captured sub).
Definition all_refs (subs : list Subtree) : list SessionHistoryPageRef := concat (map sub_refs subs).

Lemma all_refs_captured subs :
  cp_leaves (captured_of (map su_captured subs)) ++ cp_branches (captured_of (map su_captured subs)) ≡ₚ all_refs subs.
Proof.
  unfold captured_of, all_refs. cbn. induction subs as [|s subs IH]; cbn; [done|]. rewrite <- IH. unfold sub_refs. solve_Permutation.
Qed.

Lemma sub_refs_branch ref subs : sub_refs (branch_subtree ref subs) ≡ₚ ref :: all_refs subs.
Proof. rewrite <- all_refs_captured. unfold sub_refs. cbn. solve_Permutation. Qed.

Lemma Forall2_concat_l {A B} (P : A → B → Prop) (xss : list (list A)) ys :
  Forall2 P (concat xss) ys → ∃ yss, ys = concat yss ∧ Forall2 (Forall2 P) xss yss.
Proof.
  revert ys. induction xss as [|xs xss IH]; intros ys; cbn.
  - intros ->%Forall2_nil_inv_l. by exists [].
  - intros (ys1 & ys2 & H1 & (yss & -> & H2)%IH & ->)%Forall2_app_inv_l. exists (ys1 :: yss). split; [done|by constructor].
Qed.

Lemma plan_level_ok {A} (plan : Z → list A → result js_error (PlannedPage * SessionHistoryPageRef)) ordinal slices pages :
  plan_level plan ordinal slices = Ok pages → Forall2 (λ s p, ∃ o, plan o s = Ok p) slices pages.
Proof.
  revert ordinal pages. induction slices as [|s slices IH]; intros ordinal pages Hp; cbn in Hp; ok_inv Hp; constructor; [eauto|by eapply IH].
Qed.

Lemma plan_page_ok input height ordinal body exceeds page ref f :
  plan_page input height ordinal body exceeds = Ok (page, ref) →
  page ∈ fo_pages f → fo_tenantId f = bi_tenantId input → fo_rsid f = bi_rsid input → fo_kind f = bi_treeKind input →
  refers f ref height body page.
Proof.
  unfold plan_page. intros Hp Hin Ht Hr Hk. ok_inv Hp.
  split; cbn; rewrite ?Ht, ?Hr, ?Hk; done.
Qed.

Definition forest_of (input : PlanInput) (pages : list PlannedPage) : Forest := {|
  fo_pages := pages; fo_tenantId := bi_tenantId input; fo_rsid := bi_rsid input; fo_kind := bi_treeKind input |}.

(** A level of the tree: its references stand for [es], and together for every page. *)
Definition level_inv (n : nat) (f : Forest) (level : list SessionHistoryPageRef) (es : list SessionHistoryEntry) : Prop :=
  level ≠ [] ∧ ∃ subs, Forall2 (tree_at n f) level subs ∧ concat (map su_entries subs) = es ∧
    map rf_key (all_refs subs) ≡ₚ map pp_key (fo_pages f).

Lemma plan_leaf_ok input o s page ref f : plan_leaf input o s = Ok (page, ref) → s ≠ [] → (length s <= SESSION_HISTORY_LEAF_MAX_ENTRIES)%nat →
  page ∈ fo_pages f → fo_tenantId f = bi_tenantId input → fo_rsid f = bi_rsid input → fo_kind f = bi_treeKind input →
  tree_at 1 f ref (leaf_subtree ref s).
Proof.
  unfold plan_leaf. intros Hp Hne Hlen Hin Ht Hr Hk. ok_inv Hp. exists page, a, s. split; [by eapply plan_page_ok|].
  split; [|done]. apply map_result_ok in Hok. eapply Forall2_impl; [exact Hok|]. intros e q Hq. cbv beta in Hq. ok_inv Hq. done.
Qed.

Lemma plan_page_key input height ordinal body exceeds page ref :
  plan_page input height ordinal body exceeds = Ok (page, ref) → rf_key ref = pp_key page.
Proof. unfold plan_page. intros Hp. ok_inv Hp. unfold pageRef in Hok0. destruct (page_span _) as [[[? ?] ?]|]; [|done]. by ok_inv Hok0. Qed.

Lemma leaves_level input sorted leaves : sorted ≠ [] →
  plan_level (plan_leaf input) 0 (chunks SESSION_HISTORY_LEAF_MAX_ENTRIES sorted) = Ok leaves →
  level_inv 1 (forest_of input (map fst leaves)) (map snd leaves) sorted.
Proof.
  intros Hne Hp%plan_level_ok. destruct (chunks_spec SESSION_HISTORY_LEAF_MAX_ENTRIES sorted) as [Hc Hf]; [unfold SESSION_HISTORY_LEAF_MAX_ENTRIES; lia|].
  pose proof (chunks_nonempty SESSION_HISTORY_LEAF_MAX_ENTRIES sorted Hne) as Hcne.
  set (cs := chunks _ sorted) in *. clearbody cs. split; [by destruct Hp|].
  exists (zip_with (λ pr s, leaf_subtree pr.2 s) leaves cs). subst sorted. clear Hne Hcne.
  assert (∀ f, map fst leaves ⊆ fo_pages f → fo_tenantId f = bi_tenantId input → fo_rsid f = bi_rsid input → fo_kind f = bi_treeKind input →
    Forall2 (tree_at 1 f) (map snd leaves) (zip_with (λ pr s, leaf_subtree pr.2 s) leaves cs) ∧
    concat (map su_entries (zip_with (λ pr s, leaf_subtree pr.2 s) leaves cs)) = concat cs ∧
    map rf_key (all_refs (zip_with (λ pr s, leaf_subtree pr.2 s) leaves cs)) = map pp_key (map fst leaves)) as Hgo.
  { intros f Hin Ht Hr Hk. induction Hp as [|s [page ref] cs leaves [o Ho] Hp IH]; [done|].
    inversion_clear Hf as [|?? [Hs Hl] Hf']. destruct IH as (IH1 & IH2 & IH3); [done|set_solver|]. cbn.
    unfold plan_leaf in Ho. pose proof Ho as Ho'. ok_inv Ho'. apply plan_page_key in Ho'. split; [|split].
    - constructor; [|done]. eapply plan_leaf_ok; [exact Ho|..]; try done. apply Hin. cbn. set_solver.
    - by rewrite IH2.
    - unfold all_refs in IH3. by rewrite Ho', IH3. }
  destruct (Hgo (forest_of input (map fst leaves))) as (H1 & H2 & H3); [done..|]. split; [done|]. split; [done|]. by rewrite H3.
Qed.

(** The branches over a level, one for each cut of it. *)
Lemma branches_over input n f level subs made cs yss :
  (1 <= n)%nat → Forall2 (λ s p, ∃ o, plan_branch input (Z.of_nat (S n)) o s = Ok p) cs made →
  Forall (λ s, s ≠ [] ∧ (length s <= SESSION_HISTORY_BRANCH_MAX_REFS)%nat) cs → level = concat cs → subs = concat yss →
  Forall2 (Forall2 (tree_at n f)) cs yss → map fst made ⊆ fo_pages f →
  fo_tenantId f = bi_tenantId input → fo_rsid f = bi_rsid input → fo_kind f = bi_treeKind input →
  let subs' := zip_with (λ pr ys, branch_subtree pr.2 ys) made yss in
  Forall2 (tree_at (S n) f) (map snd made) subs' ∧ concat (map su_entries subs') = concat (map su_entries subs) ∧
  all_refs subs' ≡ₚ all_refs subs ++ map snd made ∧ map rf_key (map snd made) = map pp_key (map fst made).
Proof.
  intros Hn Hp Hf -> -> Ht Hin E1 E2 E3. cbv zeta. revert yss Ht. induction Hp as [|s [page ref] cs made [o Ho] Hp IH]; intros yss Ht.
  { by inversion_clear Ht. }
  inversion_clear Ht as [|? ys ? yss' Hys Hyss]. inversion_clear Hf as [|?? [Hs Hl] Hf'].
  destruct (IH Hf') with (yss := yss') as (IH1 & IH2 & IH3 & IH4); [set_solver|done|].
  cbn [zip_with map concat fst snd]. pose proof (plan_page_key _ _ _ _ _ _ _ Ho) as Hkey. split; [|split; [|split]].
  - constructor; [|done]. destruct n as [|n]; [lia|]. exists page, s, ys. split; [|done].
    eapply plan_page_ok; [exact Ho|..]; try done. apply Hin. cbn. set_solver.
  - cbn [branch_subtree su_entries]. by rewrite IH2, map_app, concat_app.
  - unfold all_refs in *. cbn [map concat]. rewrite sub_refs_branch, IH3, map_app, concat_app. unfold all_refs. solve_Permutation.
  - by rewrite Hkey, IH4.
Qed.

Lemma head_single {A} (xs : list A) : xs ≠ [] → ¬ 1 < Z.of_nat (length xs) → ∃ x, xs = [x].
Proof. destruct xs as [|x [|y xs]]; cbn; [done|eauto|lia]. Qed.

Lemma plan_branches_ok fuel input n pages level es made root :
  (1 <= n <= 4)%nat → level_inv n (forest_of input pages) level es →
  plan_branches fuel input (Z.of_nat (S n)) level = Ok (made, root) →
  ∃ N ref sub, root = Some ref ∧ (n <= N <= 4)%nat ∧ tree_at N (forest_of input (pages ++ made)) ref sub ∧ su_entries sub = es ∧
    map rf_key (sub_refs sub) ≡ₚ map pp_key (pages ++ made).
Proof.
  revert n pages level made root. induction fuel as [|fuel IH]; intros n pages level made root Hn (Hne & subs & Hsubs & Hes & Hperm) Hp;
    cbn [plan_branches] in Hp; (split_if;
      [apply negb_true_iff, Z.ltb_ge in Hif; destruct (head_single level Hne) as [ref ->]; [lia|]; injection Hp as <- <-; rewrite app_nil_r;
       apply Forall2_cons_inv_l in Hsubs as (sub & subs' & Hsub & ->%Forall2_nil_inv_l & ->); cbn in Hes, Hperm; rewrite app_nil_r in Hes;
       unfold all_refs in Hperm; cbn in Hperm; rewrite app_nil_r in Hperm; exists n, ref, sub; by repeat split; try lia|]).
  { by ok_inv Hp. }
  ok_inv Hp. unfold SESSION_HISTORY_MAX_HEIGHT in *. destruct a0 as [made' root']. cbn in *. clear Hif.
  destruct (chunks_spec SESSION_HISTORY_BRANCH_MAX_REFS level) as [Hc Hf]; [unfold SESSION_HISTORY_BRANCH_MAX_REFS; lia|].
  pose proof (chunks_nonempty SESSION_HISTORY_BRANCH_MAX_REFS level Hne) as Hcne. apply plan_level_ok in Hok0.
  set (cs := chunks _ level) in *. clearbody cs. subst level. set (f' := forest_of input (pages ++ map fst a)).
  assert (Forall2 (tree_at n f') (concat cs) subs) as Hsubs'.
  { eapply Forall2_impl; [exact Hsubs|]. intros x y. apply tree_mono; cbn; set_solver. }
  destruct (Forall2_concat_l _ _ _ Hsubs') as (yss & -> & Hyss).
  destruct (branches_over input n f' _ _ a cs yss ltac:(lia) Hok0 Hf eq_refl eq_refl Hyss) as (B1 & B2 & B3 & B4); [cbn; set_solver|done..|].
  destruct (IH (S n) (pages ++ map fst a) (map snd a) made' root') as (N & ref & sub & -> & HN & Ht & He & Hr); [lia| |by replace (Z.of_nat (S (S n))) with (Z.of_nat (S n) + 1) by lia|].
  - split; [by destruct Hok0|]. eexists. split; [exact B1|]. split; [by rewrite B2|].
    rewrite B3, !map_app, Hperm. cbn. by rewrite map_app, B4.
  - exists N, ref, sub. rewrite app_assoc. split; [done|]. split; [lia|]. done.
Qed.

(** What a plan is. *)
Lemma plan_tree localeCompare input plan :
  buildSessionHistoryPagePlan localeCompare input = Ok plan →
  let sorted := sort_entries localeCompare (bi_entries input) in
  tr_treeKind (pn_tree plan) = bi_treeKind input ∧ tr_entryCount (pn_tree plan) = Z.of_nat (length sorted) ∧
  match tr_root (pn_tree plan) with
  | None => sorted = [] ∧ pn_pages plan = []
  | Some ref => ∃ n sub, (n <= 4)%nat ∧ tree_at n (forest_of input (pn_pages plan)) ref sub ∧ su_entries sub = sorted ∧
      map rf_key (sub_refs sub) ≡ₚ map pp_key (pn_pages plan)
  end.
Proof.
  unfold buildSessionHistoryPagePlan. cbv zeta. intros Hp. ok_inv Hp. split_if.
  - bsimp. apply Nat.eqb_eq, nil_length_inv in Hif as ->. done.
  - apply Nat.eqb_neq in Hif. apply bind_ok in Hp as (leaves & Hl & Hp). apply bind_ok in Hp as ([made root] & Hb & [= <-]).
    cbn. apply leaves_level in Hl; [|by intros E; rewrite E in Hif].
    destruct (plan_branches_ok _ _ 1 _ _ _ _ _ ltac:(lia) Hl Hb) as (N & ref & sub & -> & HN & Ht & He & Hr).
    split; [done|]. split; [done|]. exists N, sub. split; [lia|]. done.
Qed.

(** ** The pages as JSON *)

Context `{!HasherOk H}.

(** The strings of a session and its entries are JSON. *)
Record input_ok (input : PlanInput) : Prop := {
  io_tenant : units_ok (bi_tenantId input) = true;
  io_rsid : units_ok (bi_rsid input) = true;
  io_entries : ∀ e, e ∈ bi_entries input → units_ok (he_key e) = true ∧ json_tree (he_value e) = true }.

(** A reference is JSON and counts at most [bound] entries. *)
Definition ref_ok (bound : Z) (r : SessionHistoryPageRef) : Prop := json_tree (ref_value r) = true ∧ 0 <= rf_count r <= bound.

Definition body_ok (bound : Z) (body : PageBody) : Prop :=
  match body with
  | page_entries entries => Forall (λ e, json_tree (proof_value e) = true) entries ∧ Z.of_nat (length entries) <= bound
  | page_children children => Forall (ref_ok (bound / 32)) children ∧ (length children <= 32)%nat
  end.

Lemma units_ok_app a b : units_ok (a ++ b) = units_ok a && units_ok b.
Proof. apply forallb_app. Qed.

Lemma units_ok_ascii s : is_ascii s = true → units_ok s = true.
Proof. unfold is_ascii, units_ok. rewrite !forallb_true. intros Ha u Hu. specialize (Ha u Hu). bsimp. apply andb_true_iff; split; [apply Z.leb_le|apply Z.ltb_lt]; lia. Qed.

Lemma units_ok_hex bs : units_ok (sha256_hex bs) = true.
Proof.
  destruct (sha256_hex_shape bs) as [_ Hh]. unfold units_ok. rewrite forallb_true in *. intros u Hu. specialize (Hh u Hu).
  unfold is_lower_hex, is_digit in Hh. apply andb_true_iff; rewrite Z.leb_le, Z.ltb_lt.
  apply orb_true_iff in Hh as [Hh|Hh]; bsimp; lia.
Qed.

Lemma units_ok_digest v d : sessionCanonicalDigest v = Ok d → units_ok d = true.
Proof. unfold sessionCanonicalDigest, makeJsonDigest, digest_of. intros Hd. apply bind_ok in Hd as (c & _ & [= <-]). cbn. apply units_ok_hex. Qed.

Lemma sum_counts bound children : Forall (ref_ok bound) children → 0 <= bound →
  0 <= foldl (λ sum child, sum + rf_count child) 0 children <= bound * Z.of_nat (length children).
Proof.
  intros Hc Hb. assert (∀ acc, 0 <= acc → acc <= foldl (λ sum child, sum + rf_count child) acc children <= acc + bound * Z.of_nat (length children)) as Hgo;
    [|by apply (Hgo 0)].
  induction Hc as [|c cs [_ Hc] Hcs IH]; intros acc Hacc; cbn -[Z.of_nat]; [cbn; lia|]. specialize (IH (acc + rf_count c) ltac:(lia)).
  rewrite Nat2Z.inj_succ. lia.
Qed.

(** The span of a page lies within its keys. *)
Lemma span_ok bound body a b c : body_ok bound body → 0 <= bound → page_span body = Some (a, b, c) →
  units_ok a = true ∧ units_ok b = true ∧ 0 <= c <= bound.
Proof.
  intros Hb H0. destruct body as [entries|children]; cbn; destruct Hb as [Hf Hl].
  - destruct (head entries) as [x|] eqn:E1; cbn; [|done]. destruct (last entries) as [y|] eqn:E2; cbn; [|done]. intros [= <- <- <-].
    rewrite Forall_forall in Hf. apply head_Some_elem_of in E1. apply last_Some_elem_of in E2. apply Hf in E1, E2. cbn in E1, E2. bsimp.
    repeat split; try done; lia.
  - destruct (head children) as [x|] eqn:E1; cbn; [|done]. destruct (last children) as [y|] eqn:E2; cbn; [|done]. intros [= <- <- <-].
    assert (0 <= bound / 32) as H1 by (apply Z.div_pos; lia).
    pose proof (sum_counts _ _ Hf H1) as Hs. pose proof (Z.mul_div_le bound 32 ltac:(lia)).
    rewrite Forall_forall in Hf. apply head_Some_elem_of in E1. apply last_Some_elem_of in E2. apply Hf in E1 as [E1 _], E2 as [E2 _].
    cbn in E1, E2. bsimp. repeat split; try done; [lia|]. nia.
Qed.

Lemma json_obj ms : Forall (λ m, json_tree m.2 = true) ms → forallb (λ m, units_ok m.1) ms && bool_decide (NoDup (map fst ms)) = true →
  json_tree (obj ms) = true.
Proof.
  intros Hv Hk. bsimp. cbn. rewrite bool_decide_eq_true_2, andb_true_r by done. rewrite Forall_forall in Hv. rewrite forallb_true in *.
  intros m Hm. apply andb_true_iff. auto.
Qed.

Lemma json_int z : 0 <= z <= 2 ^ 32 → json_tree (int z) = true.
Proof. intros Hz. cbn. unfold MAX_SAFE_INTEGER. apply andb_true_iff. rewrite !Z.leb_le. lia. Qed.

Definition MAX_ENTRIES : Z := 64 * 32 ^ 3.

Lemma units_ok_kind k : units_ok (tree_kind_text k) = true.
Proof. by destruct k. Qed.

Lemma plan_page_json input h o body exceeds page ref bound :
  plan_page input h o body exceeds = Ok (page, ref) → input_ok input → 0 <= h <= 4 → 0 <= bound <= MAX_ENTRIES → body_ok bound body →
  json_tree (page_value (pp_value page)) = true ∧ ref_ok bound ref.
Proof.
  unfold plan_page, MAX_ENTRIES. intros Hp [Ht Hr _] Hh Hbound Hb. ok_inv Hp. unfold pageRef in Hok0. cbn [pg_body pg_height] in Hok0.
  destruct (page_span body) as [[[a b] c]|] eqn:Es; [|done]. destruct (span_ok _ _ _ _ _ Hb ltac:(lia) Es) as (Ha & Hb' & Hc).
  apply bind_ok in Hok0 as (d & Hd & [= <-]). set (id := pageId _).
  assert (units_ok id = true) as Hid by (unfold id, pageId; rewrite units_ok_app, units_ok_hex; done).
  pose proof (units_ok_kind (bi_treeKind input)) as Hk. split.
  - destruct body as [entries|children]; (apply json_obj; [|vm_compute; reflexivity]); destruct Hb as [Hf _];
      repeat (apply Forall_cons; split); try apply Forall_nil; try done; try (apply (json_int h); lia);
      apply forallb_true; intros v (x & -> & Hx)%list_elem_of_fmap; rewrite Forall_forall in Hf; by apply Hf.
  - split; [|cbn; lia]. apply json_obj; [|vm_compute; reflexivity].
    repeat (apply Forall_cons; split); try apply Forall_nil; try done; try (apply (json_int h); lia); try (apply (json_int c); lia).
    + change (units_ok (bi_rsid input ++ js "/" ++ tree_kind_text (bi_treeKind input) ++ js "/" ++ id) = true).
      by rewrite !units_ok_app, Hr, Hk, Hid.
    + by eapply units_ok_digest.
Qed.

Lemma elem_chunk {A} size (xs s : list A) x : (0 < size)%nat → s ∈ chunks size xs → x ∈ s → x ∈ xs.
Proof.
  intros Hs Hin Hx. rewrite <- (proj1 (chunks_spec size xs Hs)). apply list_elem_of_In, in_concat. exists s. by rewrite <- !list_elem_of_In.
Qed.

Definition page_json (bound : Z) (pr : PlannedPage * SessionHistoryPageRef) : Prop :=
  json_tree (page_value (pp_value pr.1)) = true ∧ ref_ok bound pr.2.

Lemma level_json {A} (plan : Z → list A → result js_error (PlannedPage * SessionHistoryPageRef)) (P : list A → Prop) bound slices pages :
  plan_level plan 0 slices = Ok pages → Forall P slices → (∀ o s p, P s → plan o s = Ok p → page_json bound p) → Forall (page_json bound) pages.
Proof.
  intros Hp%plan_level_ok HP Hok. induction Hp as [|s p ss ps [o Ho] Hp IH]; [done|]. inversion_clear HP. constructor; eauto.
Qed.

Lemma leaf_json input o s p : input_ok input → (∀ e, e ∈ s → e ∈ bi_entries input) → (length s <= 64)%nat →
  plan_leaf input o s = Ok p → page_json 64 p.
Proof.
  intros Hin Hs Hl Hp. unfold plan_leaf in Hp. apply bind_ok in Hp as (proofs & Hm%map_result_ok & Hp). destruct p as [page ref].
  apply (plan_page_json _ _ _ _ _ _ _ 64) in Hp; try done; unfold MAX_ENTRIES; try lia. split; [|rewrite <- (Forall2_length _ _ _ Hm); lia].
  clear Hp Hl. induction Hm as [|e q s proofs Hq Hm IH]; [done|]. constructor; [|apply IH; set_solver].
  destruct (io_entries _ Hin e) as [Hk Hv]; [apply Hs; set_solver|]. cbv beta in Hq. apply bind_ok in Hq as (d & Hd & [= <-]).
  apply json_obj; [|vm_compute; reflexivity]. repeat (apply Forall_cons; split); try apply Forall_nil; try done. by apply (units_ok_digest (he_value e)).
Qed.

Lemma branches_json fuel input n level made root : input_ok input → (1 <= n <= 4)%nat →
  Forall (ref_ok (64 * 32 ^ (Z.of_nat n - 1))) level → plan_branches fuel input (Z.of_nat (S n)) level = Ok (made, root) →
  Forall (λ p, json_tree (page_value (pp_value p)) = true) made.
Proof.
  intros Hin. revert n level made root. induction fuel as [|fuel IH]; intros n level made root Hn Hl Hp; cbn [plan_branches] in Hp;
    (split_if; [injection Hp as <- _; by constructor|]); apply bind_ok in Hp as (? & Hh%throw_if_ok & Hp); [done|].
  apply Z.ltb_ge in Hh. unfold SESSION_HISTORY_MAX_HEIGHT in Hh.
  apply bind_ok in Hp as (pages & Hpl & Hp). apply bind_ok in Hp as ([made' root'] & Hrest & [= <- <-]).
  destruct (chunks_spec SESSION_HISTORY_BRANCH_MAX_REFS level) as [_ Hf]; [unfold SESSION_HISTORY_BRANCH_MAX_REFS; lia|].
  set (bound := 64 * 32 ^ (Z.of_nat (S n) - 1)). assert (bound / 32 = 64 * 32 ^ (Z.of_nat n - 1)) as Hb.
  { unfold bound. replace (Z.of_nat (S n) - 1) with (Z.of_nat n - 1 + 1) by lia. rewrite Z.pow_add_r, Z.mul_assoc by lia. by apply Z.div_mul. }
  assert (0 <= bound <= MAX_ENTRIES) as Hbb.
  { unfold bound, MAX_ENTRIES. split; [lia|]. apply Z.mul_le_mono_nonneg_l; [lia|]. apply Z.pow_le_mono_r; lia. }
  assert (Forall (page_json bound) pages) as Hj.
  { apply (level_json _ (λ s, Forall (ref_ok (bound / 32)) s ∧ (length s <= 32)%nat) _ _ _ Hpl).
    - rewrite Forall_forall in *. intros s Hs. split; [|by apply Hf]. rewrite Hb. apply Forall_forall. intros r Hr.
      apply (proj1 (Forall_forall _ _) Hl). eapply elem_chunk; [|done..]. unfold SESSION_HISTORY_BRANCH_MAX_REFS; lia.
    - intros o s [page ref] Hs Ho. eapply plan_page_json; [exact Ho|done|lia|done|exact Hs]. }
  apply Forall_app. split; [rewrite Forall_fmap; eapply Forall_impl; [exact Hj|]; by intros ? []|].
  destruct (decide (n = 4%nat)) as [->|Hne]; [cbn in Hh; lia|]. eapply (IH (S n)); [lia| |by replace (Z.of_nat (S (S n))) with (Z.of_nat (S n) + 1) by lia].
  rewrite Forall_fmap. eapply Forall_impl; [exact Hj|]. by intros ? [].
Qed.

Lemma plan_json localeCompare input plan : input_ok input → buildSessionHistoryPagePlan localeCompare input = Ok plan →
  Forall (λ p, json_tree (page_value (pp_value p)) = true) (pn_pages plan).
Proof.
  intros Hin Hp. unfold buildSessionHistoryPagePlan in Hp. do 2 (apply bind_ok in Hp as (? & _ & Hp)). split_if; [by injection Hp as <-|].
  apply bind_ok in Hp as (leaves & Hl & Hp). apply bind_ok in Hp as ([made root] & Hb & [= <-]). cbn. set (sorted := sort_entries _ _) in *.
  destruct (chunks_spec SESSION_HISTORY_LEAF_MAX_ENTRIES sorted) as [_ Hf]; [unfold SESSION_HISTORY_LEAF_MAX_ENTRIES; lia|].
  assert (Forall (page_json 64) leaves) as Hj.
  { apply (level_json _ (λ s, (∀ e, e ∈ s → e ∈ bi_entries input) ∧ (length s <= 64)%nat) _ _ _ Hl).
    - rewrite Forall_forall in *. intros s Hs. split; [|by apply Hf]. intros e He.
      apply (sort_by_elem (λ left right, localeCompare (he_key left) (he_key right) <=? 0)). fold (sort_entries localeCompare (bi_entries input)).
      eapply elem_chunk; [|done..]. unfold SESSION_HISTORY_LEAF_MAX_ENTRIES; lia.
    - intros o s p [Hs Hlen] Ho. by eapply leaf_json. }
  apply Forall_app. split; [rewrite Forall_fmap; eapply Forall_impl; [exact Hj|]; by intros ? []|].
  eapply (branches_json _ _ 1); [done|lia| |exact Hb]. rewrite Forall_fmap. eapply Forall_impl; [exact Hj|]. by intros ? [].
Qed.

(** ** Sizes *)

Lemma tree_size n f ref sub : tree_at n f ref sub → Z.of_nat (length (su_entries sub)) <= 64 * 32 ^ (Z.of_nat n - 1).
Proof.
  revert ref sub. induction n as [|[|n] IH]; intros ref sub; cbn [tree_at]; [done|..].
  - intros (page & proofs & es & _ & _ & _ & Hl & ->). cbn. unfold SESSION_HISTORY_LEAF_MAX_ENTRIES in Hl. lia.
  - intros (page & children & subs & _ & Hc & _ & Hl & ->). cbn [su_entries branch_subtree].
    assert (Z.of_nat (length (concat (map su_entries subs))) <= 64 * 32 ^ (Z.of_nat (S n) - 1) * Z.of_nat (length children)) as Hs.
    { clear Hl. induction Hc as [|c s cs ss Hcs Hc IHc]; cbn -[Z.of_nat Z.mul Z.sub]; [lia|]. rewrite length_app, Nat2Z.inj_add.
      apply IH in Hcs. rewrite Nat2Z.inj_succ. cbn -[Z.of_nat Z.mul Z.sub] in *. lia. }
    replace (Z.of_nat (S (S n)) - 1) with (Z.of_nat (S n) - 1 + 1) by lia. rewrite Z.pow_add_r by lia.
    unfold SESSION_HISTORY_BRANCH_MAX_REFS in Hl. assert (0 < 32 ^ (Z.of_nat (S n) - 1)) by (apply Z.pow_pos_nonneg; lia). nia.
Qed.

(** ** Order *)

Lemma digits_fold n s : foldl (λ n d, 10 * n + (d - 48)) n s = n * 10 ^ Z.of_nat (length s) + digits_value s.
Proof.
  unfold digits_value. revert n. induction s as [|d s IH]; intros n; cbn [foldl length]; [lia|].
  rewrite IH, (IH (10 * 0 + (d - 48))), Nat2Z.inj_succ, Z.pow_succ_r by lia. lia.
Qed.

Lemma digits_bound s : forallb is_digit s = true → 0 <= digits_value s < 10 ^ Z.of_nat (length s).
Proof.
  induction s as [|d s IH]; cbn [forallb length]; [done|]. intros Hs. bsimp. unfold digits_value. cbn [foldl]. rewrite digits_fold.
  unfold is_digit in *. bsimp. rewrite Nat2Z.inj_succ, Z.pow_succ_r by lia. specialize (IH ltac:(done)). nia.
Qed.

Lemma digits_ltb a b : length a = length b → forallb is_digit a = true → forallb is_digit b = true →
  digits_value a < digits_value b → str_ltb a b = true.
Proof.
  revert b. induction a as [|x a IH]; intros [|y b] Hl Ha Hb Hlt; cbn in Hl; try done. cbn [forallb] in Ha, Hb. bsimp. cbn [str_ltb].
  unfold digits_value in Hlt. cbn [foldl] in Hlt. rewrite !digits_fold in Hlt. injection Hl as Hl.
  pose proof (digits_bound a ltac:(done)). pose proof (digits_bound b ltac:(done)). rewrite Hl in *.
  destruct (x <? y) eqn:E; [done|]. bsimp. destruct (decide (x = y)) as [->|Hne]; [|exfalso; nia].
  rewrite Z.eqb_refl || rewrite Z.ltb_irrefl. apply IH; try done. lia.
Qed.

Lemma lane_key_digits i : Z.of_nat i < 10 ^ 12 →
  length (lane_key i) = 12%nat ∧ forallb is_digit (lane_key i) = true ∧ digits_value (lane_key i) = Z.of_nat i.
Proof.
  intros Hi. assert (length (dec (Z.of_nat i)) <= 12)%nat as Hl.
  { apply (dec_length _ 11). split; [lia|exact Hi]. }
  assert (forallb is_digit (dec (Z.of_nat i)) = true ∧ digits_value (dec (Z.of_nat i)) = Z.of_nat i) as [Hd Hv].
  { destruct (Z.of_nat i) as [|p|p] eqn:E; [done| |lia]. destruct (dec_plain p) as (d & ds & Hds & Hdd & Hdv & _). by rewrite Hds in *. }
  unfold lane_key, padStart. rewrite length_app, length_replicate, forallb_app, Hd, andb_true_r. split; [lia|]. split.
  - generalize (12 - length (dec (Z.of_nat i)))%nat. intros k. by induction k.
  - unfold digits_value. rewrite foldl_app. fold (digits_value (dec (Z.of_nat i))).
    assert (∀ k, foldl (λ n d, 10 * n + (d - 48)) 0 (replicate k 48) = 0) as Hz by (intros k; induction k; done).
    by rewrite Hz.
Qed.

Lemma lane_key_ltb i j : (i < j)%nat → Z.of_nat j < 10 ^ 12 → str_ltb (lane_key i) (lane_key j) = true.
Proof.
  intros Hij Hj. destruct (lane_key_digits i) as (Li & Di & Vi); [lia|]. destruct (lane_key_digits j) as (Lj & Dj & Vj); [lia|].
  apply digits_ltb; [congruence|done..|lia].
Qed.

Lemma out_of_order_false es : out_of_order es = false ↔ Sorted (λ a b, str_ltb (he_key a) (he_key b) = true) es.
Proof.
  induction es as [|a [|b es] IH]; [split; [constructor|done]|split; [repeat constructor|done]|].
  change (str_leb (he_key b) (he_key a) || out_of_order (b :: es) = false ↔ Sorted (λ a b, str_ltb (he_key a) (he_key b) = true) (a :: b :: es)).
  rewrite orb_false_iff, IH. unfold str_leb. rewrite negb_false_iff. split.
  - intros [? ?]. constructor; [done|]. by constructor.
  - intros Hs. inversion_clear Hs as [|?? Hs' Hh]. inversion_clear Hh. done.
Qed.

Lemma StronglySorted_mono {A} (R R' : A → A → Prop) xs : (∀ a b, R a b → R' a b) → StronglySorted R xs → StronglySorted R' xs.
Proof. intros HR. induction 1; constructor; [done|]. eapply Forall_impl; eauto. Qed.

(** What is asked of the collation: strings of as many digits are ordered as numbers. *)
Definition orders_digits (localeCompare : jstr → jstr → Z) : Prop :=
  ∀ a b, length a = length b → forallb is_digit a = true → forallb is_digit b = true → str_leb a b = true → localeCompare a b <= 0.

Lemma lane_entries_sorted k values : Z.of_nat (k + length values) <= 10 ^ 12 →
  StronglySorted (λ a b, ∃ i j, he_key a = lane_key i ∧ he_key b = lane_key j ∧ (i < j)%nat ∧ Z.of_nat j < 10 ^ 12)
    (imap (λ i v, {| he_key := lane_key (k + i); he_value := v |}) values).
Proof.
  revert k. induction values as [|v values IH]; intros k Hk; cbn [imap]; [constructor|]. cbn [length] in Hk. constructor.
  - erewrite imap_ext; [apply (IH (S k)); lia|]. intros i x _. cbn. by replace (k + S i)%nat with (S (k + i)) by lia.
  - rewrite Forall_forall. intros e (i & x & -> & Hx)%elem_of_lookup_imap. cbn. apply lookup_lt_Some in Hx.
    exists (k + 0)%nat, (k + S i)%nat. repeat split; lia.
Qed.

Lemma lane_sorted localeCompare values : orders_digits localeCompare → Z.of_nat (length values) <= 10 ^ 12 →
  sort_entries localeCompare (orderedLaneEntries values) = orderedLaneEntries values ∧ out_of_order (orderedLaneEntries values) = false.
Proof.
  intros Hd Hl. pose proof (lane_entries_sorted 0 values Hl) as Hs. split.
  - apply sort_by_sorted_id. eapply StronglySorted_mono; [|exact Hs]. intros a b (i & j & -> & -> & Hij & Hj).
    destruct (lane_key_digits i) as (Li & Di & _); [lia|]. destruct (lane_key_digits j) as (Lj & Dj & _); [lia|].
    apply Z.leb_le, Hd; [congruence|done..|]. by apply str_ltb_leb, lane_key_ltb.
  - apply out_of_order_false, StronglySorted_Sorted. eapply StronglySorted_mono; [|exact Hs].
    intros a b (i & j & -> & -> & Hij & Hj). by apply lane_key_ltb.
Qed.

Section store.
Context {ST : ProtocolStore.TransactionalStore} {STOk : ProtocolStore.TransactionalStoreOk ST}.
Import ProtocolStore(ts_inv, ts_commit, ts_find, ts_commit_inv, ts_commit_write, ts_commit_expect, ts_find_names).

(** The pages a committed transaction has staged are in the store. *)
Lemma committed_pages input pages s ws s' : ts_inv s → ts_commit s (bi_tenantId input) ws s' →
  (∀ p, p ∈ pages → page_write p ∈ ws) → Forall (λ p, json_tree (page_value (pp_value p)) = true) pages →
  ∀ p, p ∈ pages → ∃ r, ts_find s' (bi_tenantId input) GATEWAY_SESSION_HISTORY_PAGE_NAMESPACE (pp_key p) = Some r ∧
    stored_page (forest_of input pages) p r.
Proof.
  intros Hinv Hc Hws Hj p Hp. rewrite Forall_forall in Hj. pose proof (ts_commit_write _ _ _ _ (page_write p) Hinv Hc (Hws p Hp)) as Hw.
  pose proof (ts_commit_expect _ _ _ _ (page_write p) Hinv Hc (Hws p Hp)) as He. cbn in Hw, He. destruct Hw as (r & Hr & Hv & Hval).
  exists r. split; [done|]. destruct (ts_find_names _ _ _ _ _ (ts_commit_inv _ _ _ _ Hinv Hc) Hr) as (Et & En & Ek).
  rewrite He in Hv. unfold stored_page. rewrite Et, En, Ek, Hv, (Hval (Hj p Hp)). done.
Qed.

(** Once the pages of a plan are committed, reading its tree gives the entries the plan
    was built from, in the order the plan sorted them, when their keys ascend in that
    order as the reader compares them; else it throws. *)
Lemma history_reads_back localeCompare input plan s ws s' fuel :
  input_ok input → buildSessionHistoryPagePlan localeCompare input = Ok plan →
  ts_inv s → ts_commit s (bi_tenantId input) ws s' → (∀ p, p ∈ pn_pages plan → page_write p ∈ ws) → (4 <= fuel)%nat →
  let sorted := sort_entries localeCompare (bi_entries input) in
  readTree (ts_find s' (bi_tenantId input)) fuel (bi_tenantId input) (bi_rsid input) (pn_tree plan) =
    if out_of_order sorted then Throw (thrown unordered) else Ok sorted.
Proof.
  intros Hin Hp Hinv Hc Hws Hfuel. pose proof (plan_json _ _ _ Hin Hp) as Hj.
  pose proof (committed_pages _ _ _ _ _ Hinv Hc Hws Hj) as Hst. destruct (plan_tree _ _ _ Hp) as (Hk & Hn & Ht). cbv zeta in *.
  set (sorted := sort_entries _ _) in *. unfold readTree. destruct (tr_root _) as [ref|]; [|by destruct Ht as [-> _]].
  destruct Ht as (n & sub & Hle & Ht & He & _). rewrite Hk.
  pose proof (visit_tree (forest_of input (pn_pages plan)) _ Hst n fuel ref sub ltac:(lia) Ht) as Hv. cbn [forest_of fo_tenantId fo_rsid fo_kind] in Hv.
  rewrite Hv. cbn [mbind result_bind].
  rewrite He, Hn, bool_decide_eq_true_2 by done. cbn [negb orb]. by destruct (out_of_order sorted).
Qed.

(** The inventory of a history is complete: once the pages of a plan are committed,
    the pages its tree captures are those of the plan, each as often as it was planned. *)
Theorem history_captured localeCompare input plan s ws s' fuel :
  input_ok input → buildSessionHistoryPagePlan localeCompare input = Ok plan →
  ts_inv s → ts_commit s (bi_tenantId input) ws s' → (∀ p, p ∈ pn_pages plan → page_write p ∈ ws) → (4 <= fuel)%nat →
  ∃ refs, listCapturedPageRefs localeCompare (ts_find s' (bi_tenantId input)) fuel (bi_tenantId input) (bi_rsid input) [pn_tree plan] = Ok refs ∧
    map rf_key refs ≡ₚ map pp_key (pn_pages plan).
Proof.
  intros Hin Hp Hinv Hc Hws Hfuel. pose proof (plan_json _ _ _ Hin Hp) as Hj.
  pose proof (committed_pages _ _ _ _ _ Hinv Hc Hws Hj) as Hst. destruct (plan_tree _ _ _ Hp) as (Hk & Hn & Ht). cbv zeta in *.
  unfold listCapturedPageRefs, capturedPages. cbn [sort_roots sort_by insert_by map_result]. destruct (tr_root _) as [ref|].
  - destruct Ht as (n & sub & Hle & Ht & _ & Hr). rewrite Hk.
    pose proof (capture_tree (forest_of input (pn_pages plan)) _ Hst n fuel ref sub ltac:(lia) Ht) as Hv.
    cbn [forest_of fo_tenantId fo_rsid fo_kind] in Hv. rewrite Hv. cbn.
    eexists. split; [done|]. by rewrite !app_nil_r.
  - destruct Ht as [_ ->]. by exists [].
Qed.

(** C12: A lane reads back: once the pages planned for the values of a lane (JSON whose
    numbers are safe integers, as the entries of a history are) are committed, reading
    the lane's tree gives the values, all of them and in their order. *)
Theorem lane_reads_back localeCompare input values plan s ws s' fuel :
  input_ok input → bi_entries input = orderedLaneEntries values → orders_digits localeCompare →
  buildSessionHistoryPagePlan localeCompare input = Ok plan →
  ts_inv s → ts_commit s (bi_tenantId input) ws s' → (∀ p, p ∈ pn_pages plan → page_write p ∈ ws) → (4 <= fuel)%nat →
  readTree (ts_find s' (bi_tenantId input)) fuel (bi_tenantId input) (bi_rsid input) (pn_tree plan) = Ok (orderedLaneEntries values).
Proof.
  intros Hin He Hd Hp Hinv Hc Hws Hfuel. rewrite (history_reads_back _ _ _ _ _ _ _ Hin Hp Hinv Hc Hws Hfuel), He.
  destruct (lane_sorted localeCompare values Hd) as [-> ->]; [|done].
  destruct (plan_tree _ _ _ Hp) as (_ & _ & Ht). cbv zeta in Ht.
  assert (length (sort_entries localeCompare (bi_entries input)) = length values) as Hlen.
  { unfold sort_entries. rewrite (Permutation_length (sort_by_perm _ _)), He. unfold orderedLaneEntries. by rewrite length_imap. }
  rewrite <- Hlen. destruct (tr_root _) as [ref|]; [|destruct Ht as [-> _]; done].
  destruct Ht as (n & sub & Hn & Ht & <- & _). apply tree_size in Ht. etrans; [exact Ht|].
  transitivity (64 * 32 ^ 3); [|done]. apply Z.mul_le_mono_nonneg_l; [lia|]. apply Z.pow_le_mono_r; lia.
Qed.

(** The builder and the reader order keys differently: the tree of two entries whose
    keys the collation orders one way and code units the other (as ["a"] and ["B"]) is
    built and committed, and can never be read. *)
Theorem collated_history_unreadable localeCompare input e1 e2 plan s ws s' fuel :
  input_ok input → bi_entries input = [e1; e2] → localeCompare (he_key e1) (he_key e2) <= 0 → str_ltb (he_key e2) (he_key e1) = true →
  buildSessionHistoryPagePlan localeCompare input = Ok plan →
  ts_inv s → ts_commit s (bi_tenantId input) ws s' → (∀ p, p ∈ pn_pages plan → page_write p ∈ ws) → (4 <= fuel)%nat →
  readTree (ts_find s' (bi_tenantId input)) fuel (bi_tenantId input) (bi_rsid input) (pn_tree plan) = Throw (thrown unordered).
Proof.
  intros Hin He Hle Hlt Hp Hinv Hc Hws Hfuel. rewrite (history_reads_back _ _ _ _ _ _ _ Hin Hp Hinv Hc Hws Hfuel), He.
  unfold sort_entries. cbn [sort_by insert_by]. rewrite (proj2 (Z.leb_le _ _) Hle).
  change (out_of_order [e1; e2]) with (str_leb (he_key e2) (he_key e1) || false). by rewrite (str_ltb_leb _ _ Hlt).
Qed.

End store.
End facts.
End HistoryTreeFacts.
