(* ===== verification/Retention.v ===== *)
(** Retiring the history of a session: packages/gateway/src/sessionRetention.ts, and the
    root of a session in packages/gateway/src/sessionHistoryStore.ts.

    The root of a session and its cutover marker are two records that are written
    together; the marker carries the digest of the root.  When a session may be retired,
    its root takes up a retention closure: the trees and private objects to delete, the
    authority frozen at that moment, and the claim of the process that deletes.  Batches
    delete the objects, then the leaves, then the branches; a last step retires the root.

    [read] is the read of a transaction; an operation gives its outcome with the writes
    it staged.  The answers of the private object store are inputs.  [binding],
    [lifecycle] and the other parts of a root that these operations only copy or compare
    are JSON values; the root is read at its type, as the code's casts do. *)

From stdpp Require Import relations.
From S2P Require Import Prelude JsString JsValue JsMap Canonical JsonText ProtocolStore HistoryTree.

Module Retention.
Import Canonical JsonText JsMap HistoryTree.
Import ProtocolStore(StoredRecord, sr_namespace, sr_tenantId, sr_key, sr_value, sr_version, StoreWrite, Build_StoreWrite, StoreExpectation,
  expect_absent, expect_version).

Definition GATEWAY_RBP_SESSION_V3_NAMESPACE : jstr := js "gateway.rbp-session/v3".
Definition GATEWAY_RBP_SESSION_CUTOVER_V3_NAMESPACE : jstr := js "gateway.rbp-session-cutover/v3".
Definition GATEWAY_SESSION_BLOB_INTENT_NAMESPACE : jstr := js "gateway.session-blob-intent/v1".
Definition SESSION_ROOT_MAX_BYTES : Z := 64 * 1024.
Definition SESSION_MARKER_MAX_BYTES : Z := 16 * 1024.
Definition SESSION_MAINTENANCE_MAX_WRITES : Z := 64.
Definition DEFAULT_SESSION_RETENTION_MS : Z := 14 * 24 * 60 * 60 * 1000.
Definition MINIMUM_SESSION_RETENTION_MS : Z := 7 * 24 * 60 * 60 * 1000.

(** ** Data *)

Record SessionRetentionDependencyRef := {
  dr_role : jstr; dr_namespace : jstr; dr_key : jstr; dr_version : Z; dr_digest : jstr; dr_state : jstr }.

(** [namespace] has one value; [binding] as JSON. *)
Record SessionRetentionObjectIntentRef := {
  oi_key : jstr; oi_version : Z; oi_digest : jstr; oi_ownerIdentity : jstr; oi_ownerEpoch : Z; oi_binding : jsval }.

(** The members that have one value each are left out. *)
Record SessionRetentionFrozenAuthority := {
  fa_sessionBindingId : jstr; fa_sessionBindingVersion : Z; fa_lifecyclePhase : jstr; fa_dispatchAllowed : bool; fa_resumable : bool;
  fa_resumeExpiresAtMs : Z; fa_retirementAnchorMs : Z; fa_lastObservedNowMs : Z }.

Inductive ClosureState := claimed | deleting | proving_empty | completed.

#[export] Instance ClosureState_eq_dec : EqDecision ClosureState.
Proof. solve_decision. Defined.

Record SessionRetentionOwner := { ow_identity : jstr; ow_epoch : Z }.

Record RetentionClaim := { cl_owner : SessionRetentionOwner; cl_token : jstr; cl_generation : Z; cl_expiresAtMs : Z }.

Record RetentionCursor := {
  rc_lane : jstr; rc_treeKind : option jstr; rc_path : list (jstr * Z); rc_leafEntryIndex : Z; rc_blobSlotIndex : Z;
  rc_lastProcessedKey : option jstr; rc_objectInventoryAfterKey : option jstr }.

Record RetentionCounts := {
  ct_plannedEntries : Z; ct_plannedRecords : Z; ct_plannedObjects : Z; ct_processedEntries : Z; ct_deletedRecords : Z;
  ct_deletedObjects : Z; ct_positiveAbsences : Z }.

Record SessionRetentionClosureV1 := {
  sc_closureId : jstr; sc_planDigest : jstr; sc_state : ClosureState; sc_eligibilityCutoffMs : Z; sc_roots : list SessionHistoryTreeRef;
  sc_objectIntents : list SessionRetentionObjectIntentRef; sc_dependencyClosureDigest : jstr;
  sc_unregisterRef : option SessionRetentionDependencyRef; sc_dependencyRefs : list SessionRetentionDependencyRef;
  sc_frozenAuthority : SessionRetentionFrozenAuthority; sc_creator : SessionRetentionOwner; sc_claim : RetentionClaim;
  sc_cursor : RetentionCursor; sc_counts : RetentionCounts; sc_completionDigest : option jstr }.

(** [schema] and [generation] have one value each; the parts only copied are JSON. *)
Record DurableRbpSessionV3 := {
  rt_rootVersion : Z; rt_tenantId : jstr; rt_rsid : jstr; rt_identity : jsval; rt_binding : jsval; rt_lifecycle : jsval;
  rt_sequenceHead : jsval; rt_migrationProof : jsval; rt_durabilityProfile : jsval; rt_trees : list SessionHistoryTreeRef;
  rt_singletonRefs : list SessionHistoryPageRef; rt_antiDowngradeRefs : list SessionHistoryPageRef;
  rt_retentionClosure : option SessionRetentionClosureV1; rt_retiredAuthorityDigest : option jstr; rt_completionDigest : option jstr }.

(** ** JSON *)

Definition opt_json {A} (f : A → jsval) (o : option A) : jsval := match o with Some a => f a | None => VNull end.
Definition of_opt_json {A} (f : jsval → A) (v : jsval) : option A := match v with VNull | VUndefined => None | _ => Some (f v) end.
Definition bool_of (v : jsval) : bool := match v with VBool b => b | _ => false end.
Definition list_of {A} (f : jsval → A) (v : jsval) : list A := match v with VArr items => map f items | _ => [] end.

Definition tree_value (t : SessionHistoryTreeRef) : jsval := obj [
  (js "treeKind", VStr (tree_kind_text (tr_treeKind t))); (js "root", opt_json ref_value (tr_root t)); (js "entryCount", int (tr_entryCount t))].

Definition kind_of (s : jstr) : SessionTreeKind :=
  nullish (find_first (λ k, tree_kind_text k === s) [aliases; evidence; pending; receipts; outbox; conflicts; indices]) indices.

Definition tree_of (v : jsval) : SessionHistoryTreeRef := {|
  tr_treeKind := kind_of (str_of (member v "treeKind")); tr_root := of_opt_json ref_of (member v "root");
  tr_entryCount := int_of (member v "entryCount") |}.

Definition dependency_value (d : SessionRetentionDependencyRef) : jsval := obj [
  (js "role", VStr (dr_role d)); (js "namespace", VStr (dr_namespace d)); (js "key", VStr (dr_key d)); (js "version", int (dr_version d));
  (js "digest", VStr (dr_digest d)); (js "state", VStr (dr_state d))].

Definition dependency_of (v : jsval) : SessionRetentionDependencyRef := {|
  dr_role := str_of (member v "role"); dr_namespace := str_of (member v "namespace"); dr_key := str_of (member v "key");
  dr_version := int_of (member v "version"); dr_digest := str_of (member v "digest"); dr_state := str_of (member v "state") |}.

Definition object_value (o : SessionRetentionObjectIntentRef) : jsval := obj [
  (js "namespace", VStr GATEWAY_SESSION_BLOB_INTENT_NAMESPACE); (js "key", VStr (oi_key o)); (js "version", int (oi_version o));
  (js "digest", VStr (oi_digest o)); (js "ownerIdentity", VStr (oi_ownerIdentity o)); (js "ownerEpoch", int (oi_ownerEpoch o));
  (js "binding", oi_binding o)].

Definition object_of (v : jsval) : SessionRetentionObjectIntentRef := {|
  oi_key := str_of (member v "key"); oi_version := int_of (member v "version"); oi_digest := str_of (member v "digest");
  oi_ownerIdentity := str_of (member v "ownerIdentity"); oi_ownerEpoch := int_of (member v "ownerEpoch");
  oi_binding := member v "binding" |}.

Definition authority_value (a : SessionRetentionFrozenAuthority) : jsval := obj [
  (js "sessionBindingId", VStr (fa_sessionBindingId a)); (js "sessionBindingVersion", int (fa_sessionBindingVersion a));
  (js "lifecyclePhase", VStr (fa_lifecyclePhase a)); (js "dispatchAllowed", VBool (fa_dispatchAllowed a));
  (js "resumable", VBool (fa_resumable a)); (js "resumeExpiresAtMs", int (fa_resumeExpiresAtMs a));
  (js "retirementAnchorMs", int (fa_retirementAnchorMs a)); (js "lastObservedNowMs", int (fa_lastObservedNowMs a));
  (js "producerState", VStr (js "settled")); (js "pendingDispatch", VBool false); (js "unfinishedBatch", VBool false);
  (js "activeEgressLease", VBool false); (js "unresolvedHold", VBool false); (js "c39Dependency", VBool false);
  (js "migrationDependency", VBool false); (js "indicesComplete", VBool true); (js "dependencyInventoryComplete", VBool true)].

Definition authority_of (v : jsval) : SessionRetentionFrozenAuthority := {|
  fa_sessionBindingId := str_of (member v "sessionBindingId"); fa_sessionBindingVersion := int_of (member v "sessionBindingVersion");
  fa_lifecyclePhase := str_of (member v "lifecyclePhase"); fa_dispatchAllowed := bool_of (member v "dispatchAllowed");
  fa_resumable := bool_of (member v "resumable"); fa_resumeExpiresAtMs := int_of (member v "resumeExpiresAtMs");
  fa_retirementAnchorMs := int_of (member v "retirementAnchorMs"); fa_lastObservedNowMs := int_of (member v "lastObservedNowMs") |}.

Definition state_text (s : ClosureState) : jstr :=
  match s with claimed => js "claimed" | deleting => js "deleting" | proving_empty => js "proving_empty" | completed => js "complete" end.

Definition state_of (s : jstr) : ClosureState :=
  nullish (find_first (λ st, state_text st === s) [claimed; deleting; proving_empty]) completed.

Definition owner_value (o : SessionRetentionOwner) : jsval := obj [
  (js "ownerIdentity", VStr (ow_identity o)); (js "ownerEpoch", int (ow_epoch o))].

Definition owner_of (v : jsval) : SessionRetentionOwner := {|
  ow_identity := str_of (member v "ownerIdentity"); ow_epoch := int_of (member v "ownerEpoch") |}.

Definition claim_value (c : RetentionClaim) : jsval := obj [
  (js "ownerIdentity", VStr (ow_identity (cl_owner c))); (js "ownerEpoch", int (ow_epoch (cl_owner c))); (js "token", VStr (cl_token c));
  (js "generation", int (cl_generation c)); (js "expiresAtMs", int (cl_expiresAtMs c))].

Definition claim_of (v : jsval) : RetentionClaim := {|
  cl_owner := owner_of v; cl_token := str_of (member v "token"); cl_generation := int_of (member v "generation");
  cl_expiresAtMs := int_of (member v "expiresAtMs") |}.

Definition cursor_value (c : RetentionCursor) : jsval := obj [
  (js "lane", VStr (rc_lane c)); (js "treeKind", opt_json VStr (rc_treeKind c));
  (js "path", VArr (map (λ p, obj [(js "pageId", VStr p.1); (js "childIndex", int p.2)]) (rc_path c)));
  (js "leafEntryIndex", int (rc_leafEntryIndex c)); (js "blobSlotIndex", int (rc_blobSlotIndex c));
  (js "lastProcessedKey", opt_json VStr (rc_lastProcessedKey c)); (js "objectInventoryAfterKey", opt_json VStr (rc_objectInventoryAfterKey c))].

Definition cursor_of (v : jsval) : RetentionCursor := {|
  rc_lane := str_of (member v "lane"); rc_treeKind := of_opt_json str_of (member v "treeKind");
  rc_path := list_of (λ p, (str_of (member p "pageId"), int_of (member p "childIndex"))) (member v "path");
  rc_leafEntryIndex := int_of (member v "leafEntryIndex"); rc_blobSlotIndex := int_of (member v "blobSlotIndex");
  rc_lastProcessedKey := of_opt_json str_of (member v "lastProcessedKey");
  rc_objectInventoryAfterKey := of_opt_json str_of (member v "objectInventoryAfterKey") |}.

Definition counts_members (c : RetentionCounts) : list (jstr * jsval) := [
  (js "plannedEntries", int (ct_plannedEntries c)); (js "plannedRecords", int (ct_plannedRecords c));
  (js "plannedObjects", int (ct_plannedObjects c)); (js "processedEntries", int (ct_processedEntries c));
  (js "deletedRecords", int (ct_deletedRecords c)); (js "deletedObjects", int (ct_deletedObjects c));
  (js "positiveAbsences", int (ct_positiveAbsences c))].

Definition counts_of (v : jsval) : RetentionCounts := {|
  ct_plannedEntries := int_of (member v "plannedEntries"); ct_plannedRecords := int_of (member v "plannedRecords");
  ct_plannedObjects := int_of (member v "plannedObjects"); ct_processedEntries := int_of (member v "processedEntries");
  ct_deletedRecords := int_of (member v "deletedRecords"); ct_deletedObjects := int_of (member v "deletedObjects");
  ct_positiveAbsences := int_of (member v "positiveAbsences") |}.

Definition closure_value (c : SessionRetentionClosureV1) : jsval := obj [
  (js "schema", VStr (js "revagent.gateway.session-gc-closure/v1")); (js "closureId", VStr (sc_closureId c));
  (js "planDigest", VStr (sc_planDigest c)); (js "state", VStr (state_text (sc_state c)));
  (js "eligibilityCutoffMs", int (sc_eligibilityCutoffMs c)); (js "roots", VArr (map tree_value (sc_roots c)));
  (js "objectIntents", VArr (map object_value (sc_objectIntents c))); (js "dependencyClosureDigest", VStr (sc_dependencyClosureDigest c));
  (js "unregisterRef", opt_json dependency_value (sc_unregisterRef c)); (js "dependencyRefs", VArr (map dependency_value (sc_dependencyRefs c)));
  (js "frozenAuthority", authority_value (sc_frozenAuthority c)); (js "creator", owner_value (sc_creator c));
  (js "claim", claim_value (sc_claim c)); (js "cursor", cursor_value (sc_cursor c)); (js "counts", obj (counts_members (sc_counts c)));
  (js "completionDigest", opt_json VStr (sc_completionDigest c))].

Definition closure_of (v : jsval) : SessionRetentionClosureV1 := {|
  sc_closureId := str_of (member v "closureId"); sc_planDigest := str_of (member v "planDigest");
  sc_state := state_of (str_of (member v "state")); sc_eligibilityCutoffMs := int_of (member v "eligibilityCutoffMs");
  sc_roots := list_of tree_of (member v "roots"); sc_objectIntents := list_of object_of (member v "objectIntents");
  sc_dependencyClosureDigest := str_of (member v "dependencyClosureDigest");
  sc_unregisterRef := of_opt_json dependency_of (member v "unregisterRef"); sc_dependencyRefs := list_of dependency_of (member v "dependencyRefs");
  sc_frozenAuthority := authority_of (member v "frozenAuthority"); sc_creator := owner_of (member v "creator");
  sc_claim := claim_of (member v "claim"); sc_cursor := cursor_of (member v "cursor"); sc_counts := counts_of (member v "counts");
  sc_completionDigest := of_opt_json str_of (member v "completionDigest") |}.

Definition root_value (r : DurableRbpSessionV3) : jsval := obj [
  (js "schema", VStr GATEWAY_RBP_SESSION_V3_NAMESPACE); (js "generation", int 3); (js "rootVersion", int (rt_rootVersion r));
  (js "tenantId", VStr (rt_tenantId r)); (js "rsid", VStr (rt_rsid r)); (js "identity", rt_identity r); (js "binding", rt_binding r);
  (js "lifecycle", rt_lifecycle r); (js "sequenceHead", rt_sequenceHead r); (js "migrationProof", rt_migrationProof r);
  (js "durabilityProfile", rt_durabilityProfile r); (js "trees", VArr (map tree_value (rt_trees r)));
  (js "singletonRefs", VArr (map ref_value (rt_singletonRefs r))); (js "antiDowngradeRefs", VArr (map ref_value (rt_antiDowngradeRefs r)));
  (js "retentionClosure", opt_json closure_value (rt_retentionClosure r));
  (js "retiredAuthorityDigest", opt_json VStr (rt_retiredAuthorityDigest r)); (js "completionDigest", opt_json VStr (rt_completionDigest r))].

Definition root_of (v : jsval) : DurableRbpSessionV3 := {|
  rt_rootVersion := int_of (member v "rootVersion"); rt_tenantId := str_of (member v "tenantId"); rt_rsid := str_of (member v "rsid");
  rt_identity := member v "identity"; rt_binding := member v "binding"; rt_lifecycle := member v "lifecycle";
  rt_sequenceHead := member v "sequenceHead"; rt_migrationProof := member v "migrationProof";
  rt_durabilityProfile := member v "durabilityProfile"; rt_trees := list_of tree_of (member v "trees");
  rt_singletonRefs := list_of ref_of (member v "singletonRefs"); rt_antiDowngradeRefs := list_of ref_of (member v "antiDowngradeRefs");
  rt_retentionClosure := of_opt_json closure_of (member v "retentionClosure");
  rt_retiredAuthorityDigest := of_opt_json str_of (member v "retiredAuthorityDigest");
  rt_completionDigest := of_opt_json str_of (member v "completionDigest") |}.

(** ** Who may be retired: sessionRetention.ts *)

Inductive SessionRetentionPinReason :=
| not_terminal | still_resumable | retention_not_elapsed | clock_rollback | producer_not_settled | pending_dispatch | unfinished_batch
| active_egress_lease | unresolved_hold | c39_dependency | migration_dependency | missing_or_malformed_index
| dependency_inventory_incomplete.

Inductive ProducerState := settled | active | unknown_state.

#[export] Instance ProducerState_eq_dec : EqDecision ProducerState.
Proof. solve_decision. Defined.

Record SessionRetentionCandidate := {
  ca_tenantId : jstr; ca_rsid : jstr; ca_sessionBindingId : jstr; ca_sessionBindingVersion : Z; ca_lifecyclePhase : jstr;
  ca_dispatchAllowed : bool; ca_resumable : bool; ca_resumeExpiresAtMs : jsnum; ca_retirementAnchorMs : jsnum;
  ca_lastObservedNowMs : jsnum; ca_producerState : ProducerState; ca_pendingDispatch : bool; ca_unfinishedBatch : bool;
  ca_activeEgressLease : bool; ca_unresolvedHold : bool; ca_c39Dependency : bool; ca_migrationDependency : bool;
  ca_indicesComplete : bool; ca_dependencyInventoryComplete : bool; ca_unregisterRef : option SessionRetentionDependencyRef;
  ca_dependencyRefs : list SessionRetentionDependencyRef; ca_treeRoots : list SessionHistoryTreeRef;
  ca_privateObjects : list SessionRetentionObjectIntentRef; ca_plannedEntries : Z; ca_plannedRecords : Z; ca_plannedObjects : Z }.

Record EligibleDecision := { ed_eligibilityCutoffMs : Z; ed_retentionAnchorMs : Z; ed_dependencyClosureDigest : jstr }.

Inductive SessionRetentionDecision :=
| retained (reasons : list SessionRetentionPinReason)
| eligible (decision : EligibleDecision).

Record EvaluateInput := { ev_nowMs : jsnum; ev_retentionMs : option jsnum; ev_eligibilityCutoffMs : option jsnum }.

Section retention.
Context `{Hasher}.
Context (localeCompare : jstr → jstr → Z).

Definition retentionDigest (value : jsval) : result js_error jstr := makeJsonDigest value.

(** [left.localeCompare(right) || ...] *)
Definition dependency_leb (left right : SessionRetentionDependencyRef) : bool :=
  let role := localeCompare (dr_role left) (dr_role right) in
  let namespace := localeCompare (dr_namespace left) (dr_namespace right) in
  (if negb (role =? 0) then role else if negb (namespace =? 0) then namespace else localeCompare (dr_key left) (dr_key right)) <=? 0.

Definition dependency_id (value : SessionRetentionDependencyRef) : jstr := dr_role value ++ [0] ++ dr_namespace value ++ [0] ++ dr_key value.

Fixpoint distinct_dependencies (seen : list (jstr * SessionRetentionDependencyRef)) (values : list SessionRetentionDependencyRef)
    : result js_error (list (jstr * SessionRetentionDependencyRef)) :=
  match values with
  | [] => Ok seen
  | value :: values =>
      let id := dependency_id value in
      reject_if match mget seen id with
                | Some prior => json_stringify (dependency_value prior) !== json_stringify (dependency_value value)
                | None => false
                end PlainError "retention dependency inventory disagrees on a duplicate" ;;
      distinct_dependencies (mset seen id value) values
  end.

Definition orderedDependencies (values : list SessionRetentionDependencyRef) : result js_error (list SessionRetentionDependencyRef) :=
  seen ← distinct_dependencies [] (sort_by dependency_leb values); Ok (map snd seen).

Definition terminal_phase (phase : jstr) : bool :=
  (phase === js "terminal_retained") || (phase === js "unregistered") || (phase === js "retired").

Definition pinned (condition : bool) (reason : SessionRetentionPinReason) : list SessionRetentionPinReason :=
  if condition then [reason] else [].

Definition pin_reasons (candidate : SessionRetentionCandidate) (nowMs retentionMs : Z) : list SessionRetentionPinReason :=
  let resumeExpiresAtMs := num_Z (ca_resumeExpiresAtMs candidate) in
  let retentionAnchorMs := Z.max (num_Z (ca_retirementAnchorMs candidate)) resumeExpiresAtMs in
  pinned (negb (terminal_phase (ca_lifecyclePhase candidate))) not_terminal ++
  pinned (ca_dispatchAllowed candidate || ca_resumable candidate || (nowMs <=? resumeExpiresAtMs)) still_resumable ++
  pinned (num_gtb (ca_lastObservedNowMs candidate) nowMs) clock_rollback ++
  pinned (nowMs <? retentionAnchorMs + retentionMs) retention_not_elapsed ++
  pinned (ca_producerState candidate !== settled) producer_not_settled ++
  pinned (ca_pendingDispatch candidate) pending_dispatch ++
  pinned (ca_unfinishedBatch candidate) unfinished_batch ++
  pinned (ca_activeEgressLease candidate) active_egress_lease ++
  pinned (ca_unresolvedHold candidate) unresolved_hold ++
  pinned (ca_c39Dependency candidate) c39_dependency ++
  pinned (ca_migrationDependency candidate) migration_dependency ++
  pinned (negb (ca_indicesComplete candidate)) missing_or_malformed_index ++
  pinned (negb (ca_dependencyInventoryComplete candidate)) dependency_inventory_incomplete.

Definition evaluateSessionRetention (candidate : SessionRetentionCandidate) (input : EvaluateInput) : result js_error SessionRetentionDecision :=
  let retentionMs := nullish (ev_retentionMs input) (JInt DEFAULT_SESSION_RETENTION_MS) in
  reject_if (negb (isSafeInteger retentionMs) || (num_Z retentionMs <? MINIMUM_SESSION_RETENTION_MS)) PlainError
    "session retention duration is below the seven-day floor" ;;
  reject_if (negb (isSafeInteger (ev_nowMs input)) || (num_Z (ev_nowMs input) <? 0) ||
             negb (isSafeInteger (ca_resumeExpiresAtMs candidate)) || negb (isSafeInteger (ca_retirementAnchorMs candidate))) PlainError
    "session retention clock input is invalid" ;;
  let nowMs := num_Z (ev_nowMs input) in
  let cutoff := nullish (ev_eligibilityCutoffMs input) (ev_nowMs input) in
  reject_if (negb (isSafeInteger cutoff) || (num_Z cutoff <? 0) || (nowMs <? num_Z cutoff)) PlainError
    "session retention eligibility cutoff is invalid" ;;
  let reasons := pin_reasons candidate nowMs (num_Z retentionMs) in
  if (0 <? length reasons)%nat then Ok (retained reasons) else
  let retentionAnchorMs := Z.max (num_Z (ca_retirementAnchorMs candidate)) (num_Z (ca_resumeExpiresAtMs candidate)) in
  dependencies ← orderedDependencies (ca_dependencyRefs candidate);
  digest ← retentionDigest (obj [
    (js "domain", VStr (js "revagent/gateway/session-gc-dependencies/v1")); (js "tenantId", VStr (ca_tenantId candidate));
    (js "rsid", VStr (ca_rsid candidate)); (js "eligibilityCutoffMs", VNum cutoff); (js "retentionAnchorMs", int retentionAnchorMs);
    (js "sessionLifecyclePhase", VStr (ca_lifecyclePhase candidate)); (js "dispatchAllowed", VBool (ca_dispatchAllowed candidate));
    (js "resumeExpiresAtMs", VNum (ca_resumeExpiresAtMs candidate)); (js "producerState", VStr (js "settled"));
    (js "unregisterRef", opt_json dependency_value (ca_unregisterRef candidate));
    (js "orderedDependencyRefs", VArr (map dependency_value dependencies))]);
  Ok (eligible {| ed_eligibilityCutoffMs := num_Z cutoff; ed_retentionAnchorMs := retentionAnchorMs; ed_dependencyClosureDigest := digest |}).

(** ** The closure *)

(** [ci_closureId] and [ci_claimToken] are the given identifiers or fresh ones. *)
Record ClosureInput := {
  ci_candidate : SessionRetentionCandidate; ci_decision : EligibleDecision; ci_owner : SessionRetentionOwner; ci_preClaimRootRef : jsval;
  ci_preClaimMarkerRef : jsval; ci_closureId : jstr; ci_claimToken : jstr; ci_claimExpiresAtMs : Z }.

Fixpoint duplicated_object (objects : list SessionRetentionObjectIntentRef) : bool :=
  match objects with
  | a :: (b :: _) as rest => (oi_key b === oi_key a) || duplicated_object rest
  | _ => false
  end.

Definition createSessionRetentionClosure (input : ClosureInput) : result js_error SessionRetentionClosureV1 :=
  let candidate := ci_candidate input in
  let orderedTreeRoots := sort_roots localeCompare (ca_treeRoots candidate) in
  let orderedPrivateObjects := sort_by (λ left right, localeCompare (oi_key left) (oi_key right) <=? 0) (ca_privateObjects candidate) in
  reject_if (duplicated_object orderedPrivateObjects) PlainError "retention private object inventory is duplicated" ;;
  planDigest ← retentionDigest (obj [
    (js "domain", VStr (js "revagent/gateway/session-gc-plan/v1")); (js "tenantId", VStr (ca_tenantId candidate));
    (js "rsid", VStr (ca_rsid candidate)); (js "closureId", VStr (ci_closureId input));
    (js "eligibilityCutoffMs", int (ed_eligibilityCutoffMs (ci_decision input)));
    (js "sessionBindingId", VStr (ca_sessionBindingId candidate)); (js "sessionBindingVersion", int (ca_sessionBindingVersion candidate));
    (js "resumeExpiresAtMs", VNum (ca_resumeExpiresAtMs candidate)); (js "preClaimRootRef", ci_preClaimRootRef input);
    (js "preClaimMarkerRef", ci_preClaimMarkerRef input); (js "orderedTreeRoots", VArr (map tree_value orderedTreeRoots));
    (js "dependencyClosureDigest", VStr (ed_dependencyClosureDigest (ci_decision input)));
    (js "plannedEntries", int (ca_plannedEntries candidate)); (js "plannedRecords", int (ca_plannedRecords candidate));
    (js "plannedObjects", int (ca_plannedObjects candidate))]);
  dependencies ← orderedDependencies (ca_dependencyRefs candidate);
  Ok {| sc_closureId := ci_closureId input; sc_planDigest := planDigest; sc_state := claimed;
        sc_eligibilityCutoffMs := ed_eligibilityCutoffMs (ci_decision input); sc_roots := orderedTreeRoots;
        sc_objectIntents := orderedPrivateObjects; sc_dependencyClosureDigest := ed_dependencyClosureDigest (ci_decision input);
        sc_unregisterRef := ca_unregisterRef candidate; sc_dependencyRefs := dependencies;
        sc_frozenAuthority := {|
          fa_sessionBindingId := ca_sessionBindingId candidate; fa_sessionBindingVersion := ca_sessionBindingVersion candidate;
          fa_lifecyclePhase := ca_lifecyclePhase candidate; fa_dispatchAllowed := ca_dispatchAllowed candidate;
          fa_resumable := ca_resumable candidate; fa_resumeExpiresAtMs := num_Z (ca_resumeExpiresAtMs candidate);
          fa_retirementAnchorMs := num_Z (ca_retirementAnchorMs candidate); fa_lastObservedNowMs := num_Z (ca_lastObservedNowMs candidate) |};
        sc_creator := ci_owner input;
        sc_claim := {| cl_owner := ci_owner input; cl_token := ci_claimToken input; cl_generation := 1;
                       cl_expiresAtMs := ci_claimExpiresAtMs input |};
        sc_cursor := {| rc_lane := js "private_pending_bytes"; rc_treeKind := None; rc_path := []; rc_leafEntryIndex := 0;
                        rc_blobSlotIndex := 0; rc_lastProcessedKey := None; rc_objectInventoryAfterKey := None |};
        sc_counts := {| ct_plannedEntries := ca_plannedEntries candidate; ct_plannedRecords := ca_plannedRecords candidate;
                        ct_plannedObjects := ca_plannedObjects candidate; ct_processedEntries := 0; ct_deletedRecords := 0;
                        ct_deletedObjects := 0; ct_positiveAbsences := 0 |};
        sc_completionDigest := None |}.

(** Updates of a closure. *)
Definition with_claim (c : SessionRetentionClosureV1) (claim : RetentionClaim) : SessionRetentionClosureV1 := {|
  sc_closureId := sc_closureId c; sc_planDigest := sc_planDigest c; sc_state := sc_state c; sc_eligibilityCutoffMs := sc_eligibilityCutoffMs c;
  sc_roots := sc_roots c; sc_objectIntents := sc_objectIntents c; sc_dependencyClosureDigest := sc_dependencyClosureDigest c;
  sc_unregisterRef := sc_unregisterRef c; sc_dependencyRefs := sc_dependencyRefs c; sc_frozenAuthority := sc_frozenAuthority c;
  sc_creator := sc_creator c; sc_claim := claim; sc_cursor := sc_cursor c; sc_counts := sc_counts c; sc_completionDigest := sc_completionDigest c |}.

Definition with_progress (c : SessionRetentionClosureV1) (state : ClosureState) (cursor : RetentionCursor) (counts : RetentionCounts)
    : SessionRetentionClosureV1 := {|
  sc_closureId := sc_closureId c; sc_planDigest := sc_planDigest c; sc_state := state; sc_eligibilityCutoffMs := sc_eligibilityCutoffMs c;
  sc_roots := sc_roots c; sc_objectIntents := sc_objectIntents c; sc_dependencyClosureDigest := sc_dependencyClosureDigest c;
  sc_unregisterRef := sc_unregisterRef c; sc_dependencyRefs := sc_dependencyRefs c; sc_frozenAuthority := sc_frozenAuthority c;
  sc_creator := sc_creator c; sc_claim := sc_claim c; sc_cursor := cursor; sc_counts := counts; sc_completionDigest := sc_completionDigest c |}.

(** [tk_token]: the given token or a fresh one. *)
Record TakeOverInput := {
  tk_owner : SessionRetentionOwner; tk_nowMs : Z; tk_oldOwnerInactive : bool; tk_claimExpiresAtMs : Z; tk_token : jstr }.

Definition takeOverSessionRetentionClaim (closure : SessionRetentionClosureV1) (input : TakeOverInput) : result js_error SessionRetentionClosureV1 :=
  reject_if (sc_state closure === completed) PlainError "completed retention cannot be reclaimed" ;;
  let claim := sc_claim closure in
  reject_if (negb (tk_oldOwnerInactive input) || (tk_nowMs input <? cl_expiresAtMs claim) ||
             (ow_epoch (tk_owner input) <=? ow_epoch (cl_owner claim))) PlainError "retention claim takeover is not authorized" ;;
  Ok (with_claim closure {| cl_owner := tk_owner input; cl_token := tk_token input; cl_generation := cl_generation claim + 1;
                            cl_expiresAtMs := tk_claimExpiresAtMs input |}).

(** ** The receipt of a retired session *)

Record SessionClosureCompletion := {
  co_completedAtMs : Z; co_retiredAuthorityDigest : jstr; co_completionDigest : jstr; co_closureReceipt : jsval; co_retiredBinding : jsval;
  co_retiredLifecycle : jsval; co_retiredSequenceHead : jsval }.

Definition members_of (v : jsval) : list (jstr * jsval) := match v with VObj _ ms => ms | _ => [] end.

(** [{ ...v, ...overrides }] *)
Definition overriding (v : jsval) (overrides : list (jstr * jsval)) : jsval :=
  obj (foldl (λ ms o, mset ms o.1 o.2) (members_of v) overrides).

(** [v.k] *)
Definition read_member (v : jsval) (k : string) : result js_error jsval :=
  match v with
  | VNull | VUndefined => Throw (JsError TypeError (js "Cannot read properties of null"))
  | _ => Ok (member v k)
  end.

(** [v ?? d] *)
Definition or_else (v d : jsval) : jsval := match v with VNull | VUndefined => d | _ => v end.

Definition counts_exhausted (counts : RetentionCounts) : bool :=
  (ct_plannedEntries counts === ct_processedEntries counts) && (ct_plannedRecords counts === ct_deletedRecords counts) &&
  (ct_plannedObjects counts === ct_deletedObjects counts).

Definition completeSessionRetention (root : DurableRbpSessionV3) (closure : SessionRetentionClosureV1) (dependencyClosureDigest : jstr)
    (completedAtMs : Z) (migrationProof antiDowngradeRefs : jsval) : result js_error SessionClosureCompletion :=
  let counts := sc_counts closure in
  reject_if (negb (counts_exhausted counts)) PlainError "retention closure counters are not exhausted" ;;
  let closureReceipt := obj ([
    (js "planDigest", VStr (sc_planDigest closure)); (js "dependencyClosureDigest", VStr dependencyClosureDigest)] ++
    counts_members counts ++ [(js "completedAtMs", int completedAtMs)]) in
  let retiredBinding := overriding (rt_binding root) [
    (js "connectionId", VNull); (js "binding", VNull); (js "resumeTokenDigest", VNull); (js "grantedCapabilities", VArr [])] in
  resumeExpiresAtMs ← read_member (rt_binding root) "resumeExpiresAtMs";
  let retiredLifecycle := obj [
    (js "phase", VStr (js "retired")); (js "dispatchAllowed", VBool false); (js "resumable", VBool false);
    (js "resumeExpiresAtMs", or_else resumeExpiresAtMs (int 0)); (js "retiredAtMs", int completedAtMs)] in
  sequence ← read_member (rt_sequenceHead root) "sequence";
  let currentSequence := or_else sequence (rt_sequenceHead root) in
  let retiredSequenceHead := obj [
    (js "nextTxSeq", or_else (member currentSequence "nextTxSeq") VNull); (js "highestTxSeq", or_else (member currentSequence "highestTxSeq") (int 0));
    (js "lastRxSeq", or_else (member currentSequence "lastRxSeq") (int 0)); (js "lastPeerAck", or_else (member currentSequence "lastPeerAck") (int 0))] in
  retiredAuthorityDigest ← retentionDigest (obj [
    (js "domain", VStr (js "revagent/gateway/session-gc-retired-authority/v1")); (js "schema", VStr GATEWAY_RBP_SESSION_V3_NAMESPACE);
    (js "generation", int 3); (js "rootVersion", int (rt_rootVersion root + 1)); (js "tenantId", VStr (rt_tenantId root));
    (js "rsid", VStr (rt_rsid root)); (js "identity", rt_identity root); (js "binding", retiredBinding);
    (js "retiredLifecycle", retiredLifecycle); (js "sequenceHead", retiredSequenceHead); (js "migrationProof", migrationProof);
    (js "antiDowngradeRefs", antiDowngradeRefs);
    (js "servingRefs", obj [(js "pending", VNull); (js "egress", VNull); (js "conflictIndex", VNull); (js "evidenceIndex", VNull);
                            (js "receiptIndex", VNull); (js "outboxIndex", VNull)]);
    (js "closureReceipt", closureReceipt)]);
  completionDigest ← retentionDigest (obj ([
    (js "domain", VStr (js "revagent/gateway/session-gc-completion/v1")); (js "planDigest", VStr (sc_planDigest closure))] ++
    counts_members counts ++ [(js "completedAtMs", int completedAtMs); (js "retiredAuthorityDigest", VStr retiredAuthorityDigest)]));
  Ok {| co_completedAtMs := completedAtMs; co_retiredAuthorityDigest := retiredAuthorityDigest; co_completionDigest := completionDigest;
        co_closureReceipt := closureReceipt; co_retiredBinding := retiredBinding; co_retiredLifecycle := retiredLifecycle;
        co_retiredSequenceHead := retiredSequenceHead |}.

(** ** The root and its marker: sessionHistoryStore.ts *)

Definition truthy (v : jsval) : bool :=
  match v with
  | VUndefined | VNull | VBool false => false
  | VStr s => negb (length s =? 0)%nat
  | VNum n => match n with JInt 0 | JNaN => false | _ => true end
  | _ => true
  end.

(** [a === b]; two objects read from the store are never the same. *)
Definition strict_eq (a b : jsval) : bool :=
  match a, b with
  | VStr s, VStr t => s === t
  | VNum m, VNum n => (m === n) && (m !== JNaN)
  | VBool x, VBool y => Bool.eqb x y
  | VNull, VNull | VUndefined, VUndefined => true
  | _, _ => false
  end.

Definition isRecord (v : jsval) : bool := match v with VObj _ _ => true | _ => false end.

Definition failed {A} (message : string) : result halt A := Throw (thrown (JsError PlainError (js message))).
Definition fail_if (condition : bool) (message : string) : result halt unit := if condition then failed message else Ok tt.

(** A root as it was read, with its marker. *)
Record Authoritative := { au_root : StoredRecord; au_value : DurableRbpSessionV3; au_marker : StoredRecord }.

Context (read : jstr → jstr → option StoredRecord).

Definition readAuthoritative (tenantId rsid : jstr) : result halt (option Authoritative) :=
  match read GATEWAY_RBP_SESSION_CUTOVER_V3_NAMESPACE rsid with
  | None => Ok None
  | Some marker =>
      match read GATEWAY_RBP_SESSION_V3_NAMESPACE rsid with
      | None => failed "v3 session marker has no root"
      | Some root =>
          let value := sr_value root in
          let cutover := sr_value marker in
          fail_if (negb (truthy value) || negb (is_str (member value "schema") GATEWAY_RBP_SESSION_V3_NAMESPACE) ||
                   negb (is_int (member value "generation") 3) || negb (is_str (member value "tenantId") tenantId) ||
                   negb (is_str (member value "rsid") rsid) || negb (truthy cutover) ||
                   negb (is_str (member cutover "schema") GATEWAY_RBP_SESSION_CUTOVER_V3_NAMESPACE) ||
                   negb (is_int (member cutover "generation") 3) || negb (is_str (member cutover "tenantId") tenantId) ||
                   negb (is_str (member cutover "rsid") rsid) ||
                   negb (strict_eq (member cutover "rootVersion") (member value "rootVersion")))
            "v3 root/marker proof is malformed or stale" ;;
          rootDigest ← lifted (sessionCanonicalDigest value);
          treesDigest ← lifted (sessionCanonicalDigest (member value "trees"));
          fail_if (negb (is_str (member cutover "rootDigest") rootDigest) || negb (is_str (member cutover "treesDigest") treesDigest) ||
                   (SESSION_ROOT_MAX_BYTES <? sessionRecordValueBytes value) ||
                   (SESSION_MARKER_MAX_BYTES <? sessionRecordValueBytes cutover))
            "v3 root/marker proof is malformed or stale" ;;
          Ok (Some {| au_root := root; au_value := root_of value; au_marker := marker |})
      end
  end.

Definition marker_value (root : DurableRbpSessionV3) (rootDigest treesDigest : jstr) (migratedAtMs : Z) : jsval := obj [
  (js "schema", VStr GATEWAY_RBP_SESSION_CUTOVER_V3_NAMESPACE); (js "generation", int 3); (js "tenantId", VStr (rt_tenantId root));
  (js "rsid", VStr (rt_rsid root)); (js "rootVersion", int (rt_rootVersion root)); (js "rootDigest", VStr rootDigest);
  (js "treesDigest", VStr treesDigest); (js "migratedAtMs", int migratedAtMs)].

(** The root and the marker that goes with it. *)
Definition stage_root (next : DurableRbpSessionV3) (root_expect marker_expect : StoreExpectation) (updatedAtMs : Z) : result halt (list StoreWrite) :=
  fail_if (SESSION_ROOT_MAX_BYTES <? sessionRecordValueBytes (root_value next)) "v3 root exceeds its encoded cap" ;;
  rootDigest ← lifted (sessionCanonicalDigest (root_value next));
  treesDigest ← lifted (sessionCanonicalDigest (VArr (map tree_value (rt_trees next))));
  Ok [Build_StoreWrite GATEWAY_RBP_SESSION_V3_NAMESPACE (rt_rsid next) (Some (root_value next)) root_expect;
      Build_StoreWrite GATEWAY_RBP_SESSION_CUTOVER_V3_NAMESPACE (rt_rsid next)
        (Some (marker_value next rootDigest treesDigest updatedAtMs)) marker_expect].

Definition stageNew (root : DurableRbpSessionV3) (pagePlans : list SessionHistoryPagePlan) (migratedAtMs : Z) : result halt (list StoreWrite) :=
  let pages := concat (map pn_pages pagePlans) in
  fail_if (128 <? Z.of_nat (length pages) + 2) "initial v3 write requires bounded migration" ;;
  writes ← stage_root root expect_absent expect_absent migratedAtMs;
  Ok (map page_write pages ++ writes).

Definition stageRootMarker (current : Authoritative) (next : DurableRbpSessionV3) (updatedAtMs : Z) : result halt (list StoreWrite) :=
  stage_root next (expect_version (JInt (sr_version (au_root current)))) (expect_version (JInt (sr_version (au_marker current)))) updatedAtMs.

(** [{ ...current.value, rootVersion: current.value.rootVersion + 1, retentionClosure }] *)
Definition with_closure (root : DurableRbpSessionV3) (closure : SessionRetentionClosureV1) : DurableRbpSessionV3 := {|
  rt_rootVersion := rt_rootVersion root + 1; rt_tenantId := rt_tenantId root; rt_rsid := rt_rsid root; rt_identity := rt_identity root;
  rt_binding := rt_binding root; rt_lifecycle := rt_lifecycle root; rt_sequenceHead := rt_sequenceHead root;
  rt_migrationProof := rt_migrationProof root; rt_durabilityProfile := rt_durabilityProfile root; rt_trees := rt_trees root;
  rt_singletonRefs := rt_singletonRefs root; rt_antiDowngradeRefs := rt_antiDowngradeRefs root; rt_retentionClosure := Some closure;
  rt_retiredAuthorityDigest := rt_retiredAuthorityDigest root; rt_completionDigest := rt_completionDigest root |}.

Definition claimRetention (tenantId rsid : jstr) (closure : SessionRetentionClosureV1) (updatedAtMs : Z)
    : result halt (DurableRbpSessionV3 * list StoreWrite) :=
  found ← readAuthoritative tenantId rsid;
  match found with
  | None => failed "v3 retention claim is not available"
  | Some current =>
      fail_if (negb (is_null (rt_retentionClosure (au_value current))) || negb (is_null (rt_retiredAuthorityDigest (au_value current))))
        "v3 retention claim is not available" ;;
      fail_if (json_stringify (VArr (map tree_value (sort_roots localeCompare (rt_trees (au_value current))))) !==
               json_stringify (VArr (map tree_value (sc_roots closure)))) "v3 retention claim roots changed before CAS" ;;
      let next := with_closure (au_value current) closure in
      writes ← stageRootMarker current next updatedAtMs;
      Ok (next, writes)
  end.

Definition updateRetentionClaim (tenantId rsid : jstr) (closure : SessionRetentionClosureV1) (updatedAtMs : Z)
    : result halt (DurableRbpSessionV3 * list StoreWrite) :=
  found ← readAuthoritative tenantId rsid;
  match found with
  | Some current =>
      match rt_retentionClosure (au_value current) with
      | Some prior =>
          fail_if ((sc_state prior === completed) || (sc_planDigest prior !== sc_planDigest closure) ||
                   (json_stringify (owner_value (sc_creator prior)) !== json_stringify (owner_value (sc_creator closure))) ||
                   (cl_generation (sc_claim closure) !== cl_generation (sc_claim prior) + 1))
            "v3 retention claim takeover changed its immutable plan" ;;
          let next := with_closure (au_value current) closure in
          writes ← stageRootMarker current next updatedAtMs;
          Ok (next, writes)
      | None => failed "v3 retention claim takeover changed its immutable plan"
      end
  | None => failed "v3 retention claim takeover changed its immutable plan"
  end.

(** ** Deleting *)

(** The answers of the private objects to one batch: the ticket is minted or not, the
    delete answers [ok], and the read after it finds ([Some true]) or misses the object. *)
Record PrivateObjects := { po_mint : result js_error unit; po_delete : result js_error bool; po_getOptional : result js_error (option bool) }.

Record BatchInput := {
  bt_tenantId : jstr; bt_rsid : jstr; bt_claimToken : jstr; bt_owner : SessionRetentionOwner; bt_updatedAtMs : Z; bt_maxOperations : jsnum;
  bt_objects : option PrivateObjects }.

(** [bt_object]: the private object that was deleted. *)
Record BatchResult := {
  br_root : DurableRbpSessionV3; br_deletedRecords : Z; br_processedEntries : Z; br_pagesExhausted : bool; br_operations : Z;
  br_writes : list StoreWrite; br_object : option jsval }.

(** [sessionLifecycle], when the lifecycle has one, else the lifecycle itself. *)
Definition session_lifecycle (lifecycle : jsval) : jsval :=
  if isRecord (member lifecycle "sessionLifecycle") then member lifecycle "sessionLifecycle" else lifecycle.

Definition root_matches_frozen (root : DurableRbpSessionV3) (frozen : SessionRetentionFrozenAuthority) : bool :=
  let binding := rt_binding root in
  let lifecycle := rt_lifecycle root in
  let sessionLifecycle := session_lifecycle lifecycle in
  isRecord binding && isRecord lifecycle &&
  is_str (member binding "sessionBindingId") (fa_sessionBindingId frozen) && is_int (member binding "sessionVersion") (fa_sessionBindingVersion frozen) &&
  is_int (member binding "resumeExpiresAtMs") (fa_resumeExpiresAtMs frozen) &&
  is_str (member sessionLifecycle "phase") (fa_lifecyclePhase frozen) &&
  strict_eq (member sessionLifecycle "dispatchAllowed") (VBool (fa_dispatchAllowed frozen)) &&
  strict_eq (member sessionLifecycle "resumeAllowed") (VBool (fa_resumable frozen)) &&
  is_int (member lifecycle "updatedAtMs") (fa_retirementAnchorMs frozen).

Definition verifyDependency (ref : SessionRetentionDependencyRef) (label : string) : result halt unit :=
  match read (dr_namespace ref) (dr_key ref) with
  | None => failed ("retention captured " +:+ label +:+ " changed or disappeared")
  | Some stored =>
      fail_if (sr_version stored !== dr_version ref) ("retention captured " +:+ label +:+ " changed or disappeared") ;;
      digest ← lifted (sessionCanonicalDigest (sr_value stored));
      fail_if (digest !== dr_digest ref) ("retention captured " +:+ label +:+ " changed or disappeared")
  end.

Definition verify_dependencies (closure : SessionRetentionClosureV1) : result halt unit :=
  match sc_unregisterRef closure with Some ref => verifyDependency ref "unregister dependency" | None => Ok tt end ;;
  map_result (λ ref, verifyDependency ref "dependency") (sc_dependencyRefs closure) ;;
  Ok tt.

Definition write_null (namespace key : jstr) (version : Z) : StoreWrite :=
  Build_StoreWrite namespace key None (expect_version (JInt version)).

(** The intent of a private object under its deletion claim. *)
Definition claimed_intent (intent : jsval) (claim : RetentionClaim) : jsval :=
  overriding intent [(js "state", VStr (js "deleting"));
    (js "deletionClaim", obj [(js "id", VStr (cl_token claim)); (js "version", int (cl_generation claim))])].

Definition set_lane (c : RetentionCursor) (lane : jstr) (blobSlotIndex : Z) (lastProcessedKey : option jstr) : RetentionCursor := {|
  rc_lane := lane; rc_treeKind := rc_treeKind c; rc_path := rc_path c; rc_leafEntryIndex := rc_leafEntryIndex c;
  rc_blobSlotIndex := blobSlotIndex; rc_lastProcessedKey := lastProcessedKey; rc_objectInventoryAfterKey := rc_objectInventoryAfterKey c |}.

Definition add_counts (c : RetentionCounts) (entries records objects absences : Z) : RetentionCounts := {|
  ct_plannedEntries := ct_plannedEntries c; ct_plannedRecords := ct_plannedRecords c; ct_plannedObjects := ct_plannedObjects c;
  ct_processedEntries := ct_processedEntries c + entries; ct_deletedRecords := ct_deletedRecords c + records;
  ct_deletedObjects := ct_deletedObjects c + objects; ct_positiveAbsences := ct_positiveAbsences c + absences |}.

(** A private object that is active is put under the claim; one under the claim is deleted. *)
Definition object_batch (input : BatchInput) (current : Authoritative) (closure : SessionRetentionClosureV1)
    (ref : SessionRetentionObjectIntentRef) : result halt BatchResult :=
  match bt_objects input with
  | None => failed "retention private object owner is unavailable"
  | Some port =>
      match read GATEWAY_SESSION_BLOB_INTENT_NAMESPACE (oi_key ref) with
      | None => failed "retention private intent disappeared"
      | Some stored =>
          let intent := sr_value stored in
          fail_if (negb (isRecord intent)) "retention private intent disappeared" ;;
          fail_if (negb (is_str (member intent "schema") GATEWAY_SESSION_BLOB_INTENT_NAMESPACE) ||
                   negb (is_str (member intent "tenantId") (bt_tenantId input)) || negb (is_str (member intent "rsid") (bt_rsid input)) ||
                   (json_stringify (member intent "binding") !== json_stringify (oi_binding ref)))
            "retention private intent identity changed" ;;
          if is_str (member intent "state") (js "active") then
            digest ← lifted (sessionCanonicalDigest intent);
            fail_if ((sr_version stored !== oi_version ref) || (digest !== oi_digest ref) ||
                     negb (is_str (member intent "ownerIdentity") (oi_ownerIdentity ref)) ||
                     negb (is_int (member intent "ownerEpoch") (oi_ownerEpoch ref)) || negb (strict_eq (member intent "deletionClaim") VNull))
              "retention private intent proof changed" ;;
            let cursor := sc_cursor closure in
            let nextClosure := with_progress closure deleting
              (set_lane cursor (js "private_object_delete") (rc_blobSlotIndex cursor) (rc_lastProcessedKey cursor)) (sc_counts closure) in
            let next := with_closure (au_value current) nextClosure in
            writes ← stageRootMarker current next (bt_updatedAtMs input);
            Ok {| br_root := next; br_deletedRecords := 0; br_processedEntries := 0; br_pagesExhausted := false; br_operations := 3;
                  br_writes := Build_StoreWrite GATEWAY_SESSION_BLOB_INTENT_NAMESPACE (oi_key ref)
                                 (Some (claimed_intent intent (sc_claim closure))) (expect_version (JInt (sr_version stored))) :: writes;
                  br_object := None |}
          else
            fail_if (negb (is_str (member intent "state") (js "deleting")) ||
                     negb (is_str (member (member intent "deletionClaim") "id") (cl_token (sc_claim closure))) ||
                     negb (is_int (member (member intent "deletionClaim") "version") (cl_generation (sc_claim closure))))
              "retention private deletion claim changed" ;;
            lifted (po_mint port) ;;
            deleted ← lifted (po_delete port);
            fail_if (negb deleted) "retention private delete is unavailable" ;;
            absent ← lifted (po_getOptional port);
            fail_if (absent !== Some false) "retention private positive absence is unavailable" ;;
            let cursor := sc_cursor closure in
            let nextClosure := with_progress closure deleting
              (set_lane cursor (js "private_pending_bytes") (rc_blobSlotIndex cursor + 1) (Some (oi_key ref)))
              (add_counts (sc_counts closure) 0 1 1 1) in
            let next := with_closure (au_value current) nextClosure in
            writes ← stageRootMarker current next (bt_updatedAtMs input);
            Ok {| br_root := next; br_deletedRecords := 1; br_processedEntries := 0; br_pagesExhausted := false; br_operations := 3;
                  br_writes := write_null GATEWAY_SESSION_BLOB_INTENT_NAMESPACE (oi_key ref) (sr_version stored) :: writes;
                  br_object := Some (member intent "binding") |}
      end
  end.

(** The leaves that are gone, and those that are still there. *)
Definition missing_leaves (refs : list SessionHistoryPageRef) : list SessionHistoryPageRef :=
  List.filter (λ ref, is_null (read (rf_namespace ref) (rf_key ref))) refs.
Definition present_leaves (refs : list SessionHistoryPageRef) : list (SessionHistoryPageRef * StoredRecord) :=
  omap (λ ref, (ref,.) <$> read (rf_namespace ref) (rf_key ref)) refs.

(** [if (stored.version !== ref.version || digest !== ref.digest) throw ...; tx.stage(null)] *)
Definition delete_page (message : string) (item : SessionHistoryPageRef * StoredRecord) : result halt StoreWrite :=
  fail_if (sr_version item.2 !== rf_version item.1) message ;;
  digest ← lifted (sessionCanonicalDigest (sr_value item.2));
  fail_if (digest !== rf_digest item.1) message ;;
  Ok (write_null (rf_namespace item.1) (rf_key item.1) (sr_version item.2)).

Definition delete_branch (ref : SessionHistoryPageRef) : result halt StoreWrite :=
  match read (rf_namespace ref) (rf_key ref) with
  | None => failed "captured branch changed during retention"
  | Some stored => delete_page "captured branch changed during retention" (ref, stored)
  end.

Definition sum_counts_of (refs : list SessionHistoryPageRef) : Z := foldl (λ sum ref, sum + rf_count ref) 0 refs.

(** The key a batch ends with. *)
Definition last_key (refs : list SessionHistoryPageRef) (before : option jstr) : option jstr :=
  match last refs with Some ref => Some (rf_key ref) | None => before end.

Definition page_batch (fuel : nat) (input : BatchInput) (current : Authoritative) (closure : SessionRetentionClosureV1) : result halt BatchResult :=
  captured ← capturedPages localeCompare read fuel (bt_tenantId input) (bt_rsid input) (sc_roots closure);
  let missing := missing_leaves (cp_leaves captured) in
  let present := present_leaves (cp_leaves captured) in
  let counts := sc_counts closure in
  let deletedPageRecords := ct_deletedRecords counts - ct_deletedObjects counts in
  fail_if ((deletedPageRecords <? 0) || (Z.of_nat (length missing) !== deletedPageRecords) ||
           (sum_counts_of missing !== ct_processedEntries counts))
    "captured leaf absence is outside the durable completed prefix" ;;
  let maxOperations := num_Z (bt_maxOperations input) in
  let leafBatch := take (Z.to_nat (maxOperations - 2)) present in
  leaves ← map_result (delete_page "captured leaf changed during retention") leafBatch;
  let leavesExhausted := (length present =? length leafBatch)%nat in
  fail_if (leavesExhausted && (maxOperations - 2 - Z.of_nat (length leaves) <? Z.of_nat (length (cp_branches captured))))
    "captured branch final batch exceeds the maintenance budget" ;;
  let batch := if leavesExhausted then cp_branches captured else [] in
  branches ← map_result delete_branch batch;
  let processedEntries := sum_counts_of (map fst leafBatch) in
  let deletedRecords := Z.of_nat (length leaves) + Z.of_nat (length branches) in
  let cursor := sc_cursor closure in
  let nextClosure := with_progress closure (if leavesExhausted then proving_empty else deleting)
    (set_lane cursor (rc_lane cursor) (rc_blobSlotIndex cursor) (last_key (map fst leafBatch ++ batch) (rc_lastProcessedKey cursor)))
    (add_counts counts processedEntries deletedRecords 0 0) in
  let next := with_closure (au_value current) nextClosure in
  writes ← stageRootMarker current next (bt_updatedAtMs input);
  Ok {| br_root := next; br_deletedRecords := deletedRecords; br_processedEntries := processedEntries; br_pagesExhausted := leavesExhausted;
        br_operations := deletedRecords + 2; br_writes := leaves ++ branches ++ writes; br_object := None |}.

Definition holds_claim (closure : SessionRetentionClosureV1) (token : jstr) (owner : SessionRetentionOwner) : bool :=
  let claim := sc_claim closure in
  (cl_token claim === token) && (ow_identity (cl_owner claim) === ow_identity owner) && (ow_epoch (cl_owner claim) === ow_epoch owner).

Definition deleteRetentionPageBatch (fuel : nat) (input : BatchInput) : result halt BatchResult :=
  found ← readAuthoritative (bt_tenantId input) (bt_rsid input);
  match found with
  | None => failed "v3 retention page claim is stale"
  | Some current =>
      match rt_retentionClosure (au_value current) with
      | None => failed "v3 retention page claim is stale"
      | Some closure =>
          fail_if ((sc_state closure === completed) || negb (holds_claim closure (bt_claimToken input) (bt_owner input)))
            "v3 retention page claim is stale" ;;
          fail_if (negb (isSafeInteger (bt_maxOperations input)) || (num_Z (bt_maxOperations input) <? 3) ||
                   (SESSION_MAINTENANCE_MAX_WRITES <? num_Z (bt_maxOperations input))) "v3 retention operation budget is invalid" ;;
          fail_if (negb (root_matches_frozen (au_value current) (sc_frozenAuthority closure)))
            "retention frozen root authority changed before deletion" ;;
          verify_dependencies closure ;;
          let index := rc_blobSlotIndex (sc_cursor closure) in
          if index <? Z.of_nat (length (sc_objectIntents closure)) then
            match (if index <? 0 then None else sc_objectIntents closure !! Z.to_nat index) with
            | Some ref => object_batch input current closure ref
            | None => Throw (thrown (JsError TypeError (js "Cannot read properties of undefined")))
            end
          else page_batch fuel input current closure
      end
  end.

(** ** Retiring *)

Record FinalizeInput := {
  fi_tenantId : jstr; fi_rsid : jstr; fi_claimToken : jstr; fi_completion : SessionClosureCompletion; fi_dependencyClosureDigest : jstr }.

Definition complete_closure (c : SessionRetentionClosureV1) (completionDigest : jstr) : SessionRetentionClosureV1 := {|
  sc_closureId := sc_closureId c; sc_planDigest := sc_planDigest c; sc_state := completed; sc_eligibilityCutoffMs := sc_eligibilityCutoffMs c;
  sc_roots := []; sc_objectIntents := []; sc_dependencyClosureDigest := sc_dependencyClosureDigest c;
  sc_unregisterRef := sc_unregisterRef c; sc_dependencyRefs := sc_dependencyRefs c; sc_frozenAuthority := sc_frozenAuthority c;
  sc_creator := sc_creator c; sc_claim := sc_claim c;
  sc_cursor := {| rc_lane := js "complete"; rc_treeKind := None; rc_path := []; rc_leafEntryIndex := 0;
                  rc_blobSlotIndex := ct_plannedObjects (sc_counts c); rc_lastProcessedKey := None; rc_objectInventoryAfterKey := None |};
  sc_counts := sc_counts c; sc_completionDigest := Some completionDigest |}.

Definition retired_root (root : DurableRbpSessionV3) (closure : SessionRetentionClosureV1) (completion : SessionClosureCompletion) : DurableRbpSessionV3 := {|
  rt_rootVersion := rt_rootVersion root + 1; rt_tenantId := rt_tenantId root; rt_rsid := rt_rsid root; rt_identity := rt_identity root;
  rt_binding := co_retiredBinding completion; rt_lifecycle := co_retiredLifecycle completion;
  rt_sequenceHead := overriding (co_retiredSequenceHead completion) [(js "closureReceipt", co_closureReceipt completion)];
  rt_migrationProof := rt_migrationProof root; rt_durabilityProfile := rt_durabilityProfile root;
  rt_trees := map (λ tree, {| tr_treeKind := tr_treeKind tree; tr_root := None; tr_entryCount := 0 |}) (rt_trees root);
  rt_singletonRefs := []; rt_antiDowngradeRefs := rt_antiDowngradeRefs root;
  rt_retentionClosure := Some (complete_closure closure (co_completionDigest completion));
  rt_retiredAuthorityDigest := Some (co_retiredAuthorityDigest completion); rt_completionDigest := Some (co_completionDigest completion) |}.

Definition final_proof (closure : SessionRetentionClosureV1) (input : FinalizeInput) : bool :=
  (sc_state closure === proving_empty) && (cl_token (sc_claim closure) === fi_claimToken input) &&
  (sc_dependencyClosureDigest closure === fi_dependencyClosureDigest input) && counts_exhausted (sc_counts closure) &&
  (ct_positiveAbsences (sc_counts closure) === ct_plannedObjects (sc_counts closure)).

Definition finalizeRetiredRoot (input : FinalizeInput) : result halt (DurableRbpSessionV3 * list StoreWrite) :=
  found ← readAuthoritative (fi_tenantId input) (fi_rsid input);
  match found with
  | Some current =>
      match rt_retentionClosure (au_value current) with
      | Some closure =>
          fail_if (negb (final_proof closure input)) "v3 retention final proof is incomplete" ;;
          let next := retired_root (au_value current) closure (fi_completion input) in
          writes ← stageRootMarker current next (co_completedAtMs (fi_completion input));
          Ok (next, writes)
      | None => failed "v3 retention final proof is incomplete"
      end
  | None => failed "v3 retention final proof is incomplete"
  end.
End retention.
End Retention.

Module RetentionFacts.
Import Canonical CanonicalFacts JsonText JsonTextFacts JsMap HistoryTree HistoryTreeFacts Retention.
Import ProtocolStore(StoredRecord, sr_namespace, sr_tenantId, sr_key, sr_value, sr_version, StoreWrite, sw_namespace, sw_key, sw_value,
  sw_expect, meets, expect_absent, expect_version).

(** ** Reading what was written *)

Lemma tree_of_value t : tree_of (tree_value t) = t.
Proof. destruct t as [[] [[]|] n]; reflexivity. Qed.

Lemma dependency_of_value d : dependency_of (dependency_value d) = d.
Proof. by destruct d. Qed.

Lemma object_of_value o : object_of (object_value o) = o.
Proof. by destruct o. Qed.

Lemma list_of_map {A} (f : A → jsval) (g : jsval → A) xs : (∀ x, g (f x) = x) → list_of g (VArr (map f xs)) = xs.
Proof. apply map_id_by. Qed.

Lemma cursor_of_value c : cursor_of (cursor_value c) = c.
Proof.
  destruct c as [l k p i b o a]. unfold cursor_of, cursor_value. f_equal; [by destruct k| |by destruct o|by destruct a].
  apply (list_of_map (λ p, obj [(js "pageId", VStr p.1); (js "childIndex", int p.2)])). by intros [].
Qed.

Lemma closure_of_value c : closure_of (closure_value c) = c.
Proof.
  destruct c as [id pd st cut rs os dd un ds fa cr cl cu co cd]. unfold closure_of, closure_value. f_equal.
  - by destruct st.
  - apply (list_of_map tree_value), tree_of_value.
  - apply (list_of_map object_value), object_of_value.
  - by destruct un as [[]|].
  - apply (list_of_map dependency_value), dependency_of_value.
  - by destruct fa.
  - by destruct cr.
  - by destruct cl as [[] ? ? ?].
  - apply cursor_of_value.
  - by destruct co.
  - by destruct cd.
Qed.

Lemma root_of_value r : root_of (root_value r) = r.
Proof.
  destruct r as [rv t rs i b l sh mp dp ts ss ads rc ra cd]. unfold root_of, root_value. f_equal.
  - apply (list_of_map tree_value), tree_of_value.
  - apply (list_of_map ref_value), ref_of_value.
  - apply (list_of_map ref_value), ref_of_value.
  - destruct rc as [c|]; [|done]. change (Some (closure_of (closure_value c)) = Some c). by rewrite closure_of_value.
  - by destruct ra.
  - by destruct cd.
Qed.

Lemma json_member ms i k v : json_tree (obj ms) = true → ms !! i = Some (k, v) → json_tree v = true.
Proof.
  intros Hj Hi. cbn in Hj. apply andb_true_iff in Hj as [Hj _]. rewrite forallb_true in Hj.
  apply list_elem_of_lookup_2, Hj in Hi. by apply andb_true_iff in Hi as [_ ?].
Qed.

Lemma failing_ok c m u : fail_if c m = Ok u → c = false.
Proof. by destruct c. Qed.

Lemma lifted_ok {A} (r : result js_error A) a : lifted r = Ok a → r = Ok a.
Proof. by destruct r; cbn; intros [=]; subst. Qed.

(** Peel the calls of an operation known to return. *)
Ltac op_inv H :=
  repeat match type of H with
  | (fail_if _ _ ≫= _) = Ok _ => let Hf := fresh "Hf" in apply bind_ok in H as (? & Hf%failing_ok & H)
  | (lifted _ ≫= _) = Ok _ => let a := fresh "a" in let Ha := fresh "Ha" in apply bind_ok in H as (a & Ha%lifted_ok & H)
  | (_ ≫= _) = Ok _ => let a := fresh "a" in let Ha := fresh "Ha" in apply bind_ok in H as (a & Ha & H)
  end.

Section facts.
Context `{Hash : Hasher} {HashOk : HasherOk Hash}.
Context (localeCompare : jstr → jstr → Z).
Context {ST : ProtocolStore.TransactionalStore} {STOk : ProtocolStore.TransactionalStoreOk ST}.
Import ProtocolStore(ts_inv, ts_commit, ts_find, ts_commit_inv, ts_commit_write, ts_commit_expect, ts_commit_frame, ts_find_names).

(** The writes of a root. *)
Lemma stage_root_writes next re me t ws : stage_root next re me t = Ok ws → ∃ rootDigest treesDigest,
  sessionCanonicalDigest (root_value next) = Ok rootDigest ∧ sessionCanonicalDigest (VArr (map tree_value (rt_trees next))) = Ok treesDigest ∧
  sessionRecordValueBytes (root_value next) <= SESSION_ROOT_MAX_BYTES ∧
  ws = [ProtocolStore.Build_StoreWrite GATEWAY_RBP_SESSION_V3_NAMESPACE (rt_rsid next) (Some (root_value next)) re;
        ProtocolStore.Build_StoreWrite GATEWAY_RBP_SESSION_CUTOVER_V3_NAMESPACE (rt_rsid next)
          (Some (marker_value next rootDigest treesDigest t)) me].
Proof.
  unfold stage_root. intros Hs. op_inv Hs. injection Hs as <-. apply Z.ltb_ge in Hf. eauto 10.
Qed.

Lemma marker_json next a b t : json_tree (root_value next) = true → json_tree (int t) = true → units_ok a = true → units_ok b = true →
  json_tree (marker_value next a b t) = true.
Proof.
  intros Hj Ht Ha Hb. pose proof (λ i k v, json_member _ i k v Hj) as Hm.
  apply json_obj; [|vm_compute; reflexivity].
  repeat (apply Forall_cons; split); try apply Forall_nil; try done;
    [apply (Hm 3%nat (js "tenantId")); reflexivity|apply (Hm 4%nat (js "rsid")); reflexivity|apply (Hm 2%nat (js "rootVersion")); reflexivity].
Qed.

Lemma is_str_refl s : is_str (VStr s) s = true.
Proof. cbn. by rewrite bool_decide_eq_true_2. Qed.

(** C13: A root reads back: once the writes of a root (whose numbers are safe integers)
    and its marker are committed, the root that is read for the session is the one that
    was staged. *)
Theorem root_reads_back next re me updatedAtMs ws s all s' :
  stage_root next re me updatedAtMs = Ok ws → json_tree (root_value next) = true → json_tree (int updatedAtMs) = true →
  (∀ w, w ∈ ws → sessionRecordValueBytes (nullish (sw_value w) VNull) <= SESSION_MARKER_MAX_BYTES ∨ sw_namespace w = GATEWAY_RBP_SESSION_V3_NAMESPACE) →
  ts_inv s → ts_commit s (rt_tenantId next) all s' → (∀ w, w ∈ ws → w ∈ all) →
  ∃ current, readAuthoritative (ts_find s' (rt_tenantId next)) (rt_tenantId next) (rt_rsid next) = Ok (Some current) ∧ au_value current = next.
Proof.
  intros Hs Hj Ht Hcap Hinv Hc Hall. destruct (stage_root_writes _ _ _ _ _ Hs) as (rd & td & Hrd & Htd & Hb & ->).
  pose proof (marker_json next rd td updatedAtMs Hj Ht (units_ok_digest _ _ Hrd) (units_ok_digest _ _ Htd)) as Hmj.
  pose proof (ts_commit_write _ _ _ _ _ Hinv Hc (Hall _ (list_elem_of_here _ _))) as Hr.
  pose proof (ts_commit_write _ _ _ _ _ Hinv Hc (Hall _ (list_elem_of_further _ _ _ (list_elem_of_here _ _)))) as Hm.
  cbn [sw_value sw_namespace sw_key] in Hr, Hm. destruct Hr as (r & Hr & _ & Hrv), Hm as (m & Hm & _ & Hmv).
  specialize (Hrv Hj). specialize (Hmv Hmj).
  destruct (Hcap _ (list_elem_of_further _ _ _ (list_elem_of_here _ _))) as [Hmb|Hmb]; [|vm_compute in Hmb; done]. cbn [sw_value nullish default] in Hmb.
  exists {| au_root := r; au_value := root_of (root_value next); au_marker := m |}. split; [|cbn; apply root_of_value].
  unfold readAuthoritative. rewrite Hm, Hr, Hrv, Hmv. set (v := root_value next) in *. set (c := marker_value next rd td updatedAtMs) in *.
  assert (truthy v = true ∧ truthy c = true ∧ is_int (member v "generation") 3 = true ∧ is_int (member c "generation") 3 = true) as (-> & -> & -> & ->) by done.
  rewrite (is_str_refl GATEWAY_RBP_SESSION_V3_NAMESPACE : is_str (member v "schema") _ = true),
    (is_str_refl GATEWAY_RBP_SESSION_CUTOVER_V3_NAMESPACE : is_str (member c "schema") _ = true),
    (is_str_refl (rt_tenantId next) : is_str (member v "tenantId") _ = true), (is_str_refl (rt_tenantId next) : is_str (member c "tenantId") _ = true),
    (is_str_refl (rt_rsid next) : is_str (member v "rsid") _ = true), (is_str_refl (rt_rsid next) : is_str (member c "rsid") _ = true).
  assert (strict_eq (member c "rootVersion") (member v "rootVersion") = true) as ->.
  { change (((JInt (rt_rootVersion next) === JInt (rt_rootVersion next)) && (JInt (rt_rootVersion next) !== JNaN)) = true).
    by rewrite bool_decide_eq_true_2, bool_decide_eq_false_2. }
  cbn [negb orb fail_if mbind result_bind]. rewrite Hrd. cbn [lifted mbind result_bind].
  rewrite (Htd : sessionCanonicalDigest (member v "trees") = Ok td). cbn [lifted mbind result_bind].
  rewrite (is_str_refl rd : is_str (member c "rootDigest") _ = true), (is_str_refl td : is_str (member c "treesDigest") _ = true).
  change (sessionRecordValueBytes c <= SESSION_MARKER_MAX_BYTES) in Hmb.
  rewrite (proj2 (Z.ltb_ge _ _) Hb), (proj2 (Z.ltb_ge _ _) Hmb). done.
Qed.

(** ** When a session may be retired *)

Lemma pinned_nil c r : pinned c r = [] → c = false.
Proof. by destruct c. Qed.

(** C14: A session is retired only when it is due: an eligible session is in a terminal
    phase, can neither dispatch nor be resumed, has nothing pending and no open
    dependency, its clock did not go back, and at least seven days have passed since it
    was retired and since its resumption expired. *)
Theorem eligible_only_when_due candidate input d :
  evaluateSessionRetention localeCompare candidate input = Ok (eligible d) →
  let now := num_Z (ev_nowMs input) in
  terminal_phase (ca_lifecyclePhase candidate) = true ∧
  ca_dispatchAllowed candidate = false ∧ ca_resumable candidate = false ∧
  num_Z (ca_resumeExpiresAtMs candidate) + MINIMUM_SESSION_RETENTION_MS <= now ∧
  num_Z (ca_retirementAnchorMs candidate) + MINIMUM_SESSION_RETENTION_MS <= now ∧
  num_gtb (ca_lastObservedNowMs candidate) now = false ∧
  ca_producerState candidate = settled ∧ ca_pendingDispatch candidate = false ∧ ca_unfinishedBatch candidate = false ∧
  ca_activeEgressLease candidate = false ∧ ca_unresolvedHold candidate = false ∧ ca_c39Dependency candidate = false ∧
  ca_migrationDependency candidate = false ∧ ca_indicesComplete candidate = true ∧ ca_dependencyInventoryComplete candidate = true ∧
  ed_eligibilityCutoffMs d <= now.
Proof.
  unfold evaluateSessionRetention. intros He. cbv zeta in *. do 3 (apply bind_ok in He as (? & ?%reject_if_ok & He)). split_if; [done|].
  apply Nat.ltb_ge in Hif. apply Nat.le_0_r, nil_length_inv in Hif. unfold pin_reasons in Hif.
  repeat match goal with H : _ ++ _ = [] |- _ => apply app_nil in H as [?%pinned_nil H] end.
  apply pinned_nil in Hif. op_inv He. injection He as <-. cbn [ed_eligibilityCutoffMs]. bsimp.
  repeat match goal with H : (_ <? _) = false |- _ => apply Z.ltb_ge in H end. repeat split; try done; lia.
Qed.

(** ** Batches *)

Lemma read_authoritative_rsid read t rsid current : readAuthoritative read t rsid = Ok (Some current) → rt_rsid (au_value current) = rsid.
Proof.
  unfold readAuthoritative. destruct (read _ rsid) as [m|]; [|done]. destruct (read GATEWAY_RBP_SESSION_V3_NAMESPACE rsid) as [r|]; [|done].
  intros Hr. op_inv Hr. injection Hr as <-. cbn. bsimp.
  match goal with H : is_str (member (sr_value r) "rsid") rsid = true |- _ => unfold is_str in H; destruct (member (sr_value r) "rsid"); try done end.
  by bsimp.
Qed.

Lemma delete_page_ok m item w : delete_page m item = Ok w → w = write_null (rf_namespace item.1) (rf_key item.1) (sr_version item.2).
Proof. unfold delete_page. intros Hd. op_inv Hd. by injection Hd as <-. Qed.

Lemma delete_branch_ok read ref w : delete_branch read ref = Ok w → ∃ r, read (rf_namespace ref) (rf_key ref) = Some r ∧
  w = write_null (rf_namespace ref) (rf_key ref) (sr_version r).
Proof. unfold delete_branch. destruct (read _ _) as [r|]; [|done]. intros ->%delete_page_ok. eauto. Qed.

Lemma present_missing read refs : (length (missing_leaves read refs) + length (present_leaves read refs))%nat = length refs ∧
  sum_counts_of (missing_leaves read refs) + sum_counts_of (map fst (present_leaves read refs)) = sum_counts_of refs.
Proof.
  assert (∀ acc l, foldl (λ sum ref, sum + rf_count ref) acc l = acc + sum_counts_of l) as Hf.
  { intros acc l. unfold sum_counts_of. revert acc. induction l as [|x l IH]; intros acc; cbn; [lia|]. rewrite IH, (IH (0 + rf_count x)). lia. }
  induction refs as [|ref refs [IH1 IH2]]; cbn; [done|]. unfold present_leaves, missing_leaves in *. cbn.
  destruct (read _ _) as [r|]; cbn; unfold sum_counts_of in *; cbn [foldl]; rewrite ?(Hf (0 + _)); unfold sum_counts_of; lia.
Qed.

(** What a batch of pages is. *)
Lemma page_batch_ok read fuel input current closure out : page_batch localeCompare read fuel input current closure = Ok out →
  ∃ captured, capturedPages localeCompare read fuel (bt_tenantId input) (bt_rsid input) (sc_roots closure) = Ok captured ∧
  let present := present_leaves read (cp_leaves captured) in
  let counts := sc_counts closure in
  let batch := take (Z.to_nat (num_Z (bt_maxOperations input) - 2)) present in
  let branches := if br_pagesExhausted out then cp_branches captured else [] in
  br_pagesExhausted out = (length present =? length batch)%nat ∧
  Z.of_nat (length (missing_leaves read (cp_leaves captured))) = ct_deletedRecords counts - ct_deletedObjects counts ∧
  sum_counts_of (missing_leaves read (cp_leaves captured)) = ct_processedEntries counts ∧
  (br_pagesExhausted out = true → Z.of_nat (length batch) + Z.of_nat (length branches) <= num_Z (bt_maxOperations input) - 2) ∧
  (∀ ref, ref ∈ branches → is_Some (read (rf_namespace ref) (rf_key ref))) ∧
  ∃ bs ws, Forall2 (λ ref w, ∃ r, read (rf_namespace ref) (rf_key ref) = Some r ∧ w = write_null (rf_namespace ref) (rf_key ref) (sr_version r)) branches bs ∧
    stageRootMarker current (br_root out) (bt_updatedAtMs input) = Ok ws ∧
    br_writes out = map (λ item, write_null (rf_namespace item.1) (rf_key item.1) (sr_version item.2)) batch ++ bs ++ ws ∧
    br_operations out = Z.of_nat (length batch) + Z.of_nat (length branches) + 2 ∧
    br_root out = with_closure (au_value current) (with_progress closure (if br_pagesExhausted out then proving_empty else deleting)
      (set_lane (sc_cursor closure) (rc_lane (sc_cursor closure)) (rc_blobSlotIndex (sc_cursor closure))
         (last_key (map fst batch ++ branches) (rc_lastProcessedKey (sc_cursor closure))))
      (add_counts counts (sum_counts_of (map fst batch)) (Z.of_nat (length batch) + Z.of_nat (length branches)) 0 0)).
Proof.
  unfold page_batch. intros Hb. apply bind_ok in Hb as (captured & Hcap & Hb). exists captured. split; [done|].
  cbv zeta in *. set (present := present_leaves _ _) in *. set (batch := take _ present) in *.
  op_inv Hb. injection Hb as <-. cbn [br_pagesExhausted br_writes br_operations br_root]. bsimp.
  set (exhausted := (length present =? length batch)%nat) in *. set (branches := if exhausted then _ else _) in *.
  apply map_result_ok in Ha, Ha0. rewrite <- !(Forall2_length _ _ _ Ha), <- !(Forall2_length _ _ _ Ha0) in *.
  assert (Forall2 (λ ref w, ∃ r, read (rf_namespace ref) (rf_key ref) = Some r ∧ w = write_null (rf_namespace ref) (rf_key ref) (sr_version r)) branches a0) as Hbs.
  { eapply Forall2_impl; [exact Ha0|]. apply delete_branch_ok. }
  split; [done|]. split; [done|]. split; [done|]. split; [|split].
  - intros E. unfold branches in *. rewrite E in *. cbn in Hf0. apply Z.ltb_ge in Hf0. lia.
  - intros ref [i Hi]%list_elem_of_lookup_1. destruct (Forall2_lookup_l _ _ _ _ _ Hbs Hi) as (w & _ & r & -> & _). eauto.
  - exists a0, a1. split; [done|]. split; [done|]. split; [|split; [lia|done]]. f_equal. clear -Ha.
    induction Ha as [|item w l ws Hw Hl IH]; cbn; [done|]. by rewrite (delete_page_ok _ _ _ Hw), IH.
Qed.

(** The closure a batch works on, and what it does to it. *)
Lemma batch_cases read fuel input out : deleteRetentionPageBatch localeCompare read fuel input = Ok out →
  ∃ current closure, readAuthoritative read (bt_tenantId input) (bt_rsid input) = Ok (Some current) ∧
    rt_retentionClosure (au_value current) = Some closure ∧ sc_state closure ≠ completed ∧
    holds_claim closure (bt_claimToken input) (bt_owner input) = true ∧
    3 <= num_Z (bt_maxOperations input) <= SESSION_MAINTENANCE_MAX_WRITES ∧
    root_matches_frozen (au_value current) (sc_frozenAuthority closure) = true ∧
    ((∃ ref, sc_objectIntents closure !! Z.to_nat (rc_blobSlotIndex (sc_cursor closure)) = Some ref ∧
        object_batch read input current closure ref = Ok out) ∨
     (Z.of_nat (length (sc_objectIntents closure)) <= rc_blobSlotIndex (sc_cursor closure) ∧
        page_batch localeCompare read fuel input current closure = Ok out)).
Proof.
  unfold deleteRetentionPageBatch. intros Hd. apply bind_ok in Hd as ([current|] & Hr & Hd); [|done].
  destruct (rt_retentionClosure (au_value current)) as [closure|] eqn:Ec; [|done]. op_inv Hd.
  exists current, closure. bsimp. do 6 (split; [done|]). split_if; bsimp.
  - left. destruct (rc_blobSlotIndex (sc_cursor closure) <? 0); [done|].
    destruct (sc_objectIntents closure !! Z.to_nat (rc_blobSlotIndex (sc_cursor closure))) as [ref|] eqn:E; [|done]. by exists ref.
  - right. by split.
Qed.

(** Every write of a page batch replaces a record that is there. *)
Lemma write_present s t ws s' w n k : ts_inv s → ts_commit s t ws s' → w ∈ ws → (n, k) = (sw_namespace w, sw_key w) →
  (∃ v, sw_expect w = expect_version v) → ts_find s t n k ≠ None.
Proof.
  intros Hinv Hc Hw [= -> ->] (v & Ev) Hn. pose proof (ts_commit_expect _ _ _ _ _ Hinv Hc Hw) as He. rewrite Ev in He.
  destruct He as (r & Hr & _). congruence.
Qed.

Lemma stage_expects current next t ws : stageRootMarker current next t = Ok ws → ∀ w, w ∈ ws → ∃ v, sw_expect w = expect_version v.
Proof.
  intros Hs w Hw. apply stage_root_writes in Hs as (? & ? & _ & _ & _ & ->).
  apply elem_of_cons in Hw as [->|Hw]; [by eexists|]. apply list_elem_of_singleton in Hw as ->. by eexists.
Qed.

(** C10: A batch that reports the pages exhausted leaves none: once it is committed, no
    page that the closure's trees capture is in the store, and the closure has counted
    them all, so that a closure planned from the same inventory meets the final proof. *)
Theorem exhausted_batch_empties fuel input s out s' :
  deleteRetentionPageBatch localeCompare (ts_find s (bt_tenantId input)) fuel input = Ok out → br_pagesExhausted out = true →
  ts_inv s → ts_commit s (bt_tenantId input) (br_writes out) s' →
  ∃ current closure closure' captured,
    readAuthoritative (ts_find s (bt_tenantId input)) (bt_tenantId input) (bt_rsid input) = Ok (Some current) ∧
    rt_retentionClosure (au_value current) = Some closure ∧
    rt_retentionClosure (br_root out) = Some closure' ∧ sc_state closure' = proving_empty ∧ sc_roots closure' = sc_roots closure ∧
    capturedPages localeCompare (ts_find s (bt_tenantId input)) fuel (bt_tenantId input) (bt_rsid input) (sc_roots closure) = Ok captured ∧
    (∀ ref, ref ∈ cp_leaves captured ++ cp_branches captured → ts_find s' (bt_tenantId input) (rf_namespace ref) (rf_key ref) = None) ∧
    ct_deletedRecords (sc_counts closure') - ct_deletedObjects (sc_counts closure') =
      Z.of_nat (length (cp_leaves captured ++ cp_branches captured)) ∧
    ct_processedEntries (sc_counts closure') = sum_counts_of (cp_leaves captured).
Proof.
  intros Hd He Hinv Hc. destruct (batch_cases _ _ _ _ Hd) as (current & closure & Hcur & Hcl & _ & _ & _ & _ & [(ref & _ & Ho)|[_ Hp]]).
  { exfalso. unfold object_batch in Ho. destruct (bt_objects input); [|done]. destruct (ts_find _ _ _ _); [|done]. op_inv Ho.
    split_if; op_inv Ho; injection Ho as <-; done. }
  destruct (page_batch_ok _ _ _ _ _ _ Hp) as (captured & Hcap & Hb). cbv zeta in Hb. rewrite He in Hb.
  set (read := ts_find s (bt_tenantId input)) in *. set (present := present_leaves read (cp_leaves captured)) in *.
  destruct Hb as (Hex & Hm & Hms & _ & _ & bs & ws & Hbs & Hst & Hws & _ & Hroot).
  assert (take (Z.to_nat (num_Z (bt_maxOperations input) - 2)) present = present) as Htake.
  { symmetry in Hex. apply Nat.eqb_eq in Hex. rewrite length_take in Hex. apply take_ge. lia. }
  rewrite Htake in Hws, Hroot. exists current, closure. eexists. exists captured. do 2 (split; [done|]). rewrite Hroot.
  cbn [with_closure rt_retentionClosure]. split; [done|]. cbn [with_progress sc_state sc_roots sc_counts add_counts ct_deletedRecords ct_deletedObjects ct_processedEntries].
  split; [done|]. split; [done|]. split; [done|].
  destruct (present_missing read (cp_leaves captured)) as [Hlen Hsum]. fold present in Hlen, Hsum. split; [|rewrite length_app; lia].
  assert (∀ ref r, ref ∈ cp_leaves captured → read (rf_namespace ref) (rf_key ref) = Some r →
    write_null (rf_namespace ref) (rf_key ref) (sr_version r) ∈ br_writes out) as Hleaf.
  { intros ref r Hin Hr. rewrite Hws. apply elem_of_app; left. apply list_elem_of_fmap. exists (ref, r). split; [done|].
    apply list_elem_of_omap. exists ref. split; [done|]. by rewrite Hr. }
  assert (∀ ref, ref ∈ cp_branches captured → ∃ r, write_null (rf_namespace ref) (rf_key ref) (sr_version r) ∈ br_writes out) as Hbranch.
  { intros ref [i Hi]%list_elem_of_lookup_1. destruct (Forall2_lookup_l _ _ _ _ _ Hbs Hi) as (w & Hw & r & _ & ->). exists r. rewrite Hws.
    apply elem_of_app; right; apply elem_of_app; left. by eapply list_elem_of_lookup_2. }
  intros ref [Hin|Hin]%elem_of_app.
  - destruct (read (rf_namespace ref) (rf_key ref)) as [r|] eqn:Er; [exact (ts_commit_write _ _ _ _ _ Hinv Hc (Hleaf ref r Hin Er))|].
    unfold read in Er. rewrite <- Er. apply (ts_commit_frame _ _ _ _ _ _ _ Hinv Hc). right. intros w Hw E.
    refine (write_present _ _ _ _ _ _ _ Hinv Hc Hw E _ Er). rewrite Hws in Hw.
    apply elem_of_app in Hw as [(x & -> & _)%list_elem_of_fmap|[[i Hi]%list_elem_of_lookup_1|Hw]%elem_of_app]; [by eexists| |by eapply stage_expects].
    destruct (Forall2_lookup_r _ _ _ _ _ Hbs Hi) as (x & _ & r & _ & ->). by eexists.
  - destruct (Hbranch ref Hin) as [r Hr]. exact (ts_commit_write _ _ _ _ _ Hinv Hc Hr).
Qed.

(** The records a batch may touch: the root of the session and its marker, a page its
    trees capture, the intent at its cursor. *)
Definition in_closure (fuel : nat) (read : jstr → jstr → option StoredRecord) (input : BatchInput) (closure : SessionRetentionClosureV1)
    (w : StoreWrite) : Prop :=
  ((sw_namespace w = GATEWAY_RBP_SESSION_V3_NAMESPACE ∨ sw_namespace w = GATEWAY_RBP_SESSION_CUTOVER_V3_NAMESPACE) ∧ sw_key w = bt_rsid input) ∨
  (∃ captured ref, capturedPages localeCompare read fuel (bt_tenantId input) (bt_rsid input) (sc_roots closure) = Ok captured ∧
     ref ∈ cp_leaves captured ++ cp_branches captured ∧ sw_namespace w = rf_namespace ref ∧ sw_key w = rf_key ref ∧ sw_value w = None) ∨
  (∃ ref, ref ∈ sc_objectIntents closure ∧ sw_namespace w = GATEWAY_SESSION_BLOB_INTENT_NAMESPACE ∧ sw_key w = oi_key ref).

Lemma stage_in_closure fuel read input closure current closure' t ws :
  readAuthoritative read (bt_tenantId input) (bt_rsid input) = Ok (Some current) →
  stageRootMarker current (with_closure (au_value current) closure') t = Ok ws →
  length ws = 2%nat ∧ ∀ w, w ∈ ws → in_closure fuel read input closure w.
Proof.
  intros Hr%read_authoritative_rsid Hs. apply stage_root_writes in Hs as (? & ? & _ & _ & _ & ->). split; [done|]. intros w Hw. left.
  cbn [with_closure rt_rsid] in Hw. rewrite Hr in Hw.
  apply elem_of_cons in Hw as [->|Hw]; [|apply list_elem_of_singleton in Hw as ->]; cbn; auto.
Qed.

Lemma object_batch_ok fuel read input current closure ref out :
  readAuthoritative read (bt_tenantId input) (bt_rsid input) = Ok (Some current) → object_batch read input current closure ref = Ok out →
  ref ∈ sc_objectIntents closure →
  br_operations out = 3 ∧ length (br_writes out) = 3%nat ∧ ∀ w, w ∈ br_writes out → in_closure fuel read input closure w.
Proof.
  intros Hr Ho Href. unfold object_batch in Ho. destruct (bt_objects input); [|done].
  destruct (read GATEWAY_SESSION_BLOB_INTENT_NAMESPACE _) as [stored|]; [|done]. op_inv Ho. split_if; op_inv Ho; injection Ho as <-; cbn;
    match goal with Hs : stageRootMarker _ _ _ = Ok _ |- _ => destruct (stage_in_closure fuel read input closure _ _ _ _ Hr Hs) as [Hl Hin] end;
    rewrite Hl; repeat split; try lia; intros w [->|Hw]%elem_of_cons; try (by apply Hin); right; right; exists ref; done.
Qed.

(** As many writes as operations, within the budget. *)
Lemma batch_operations read fuel input out : deleteRetentionPageBatch localeCompare read fuel input = Ok out →
  Z.of_nat (length (br_writes out)) = br_operations out ∧ 2 <= br_operations out <= num_Z (bt_maxOperations input) ∧
  num_Z (bt_maxOperations input) <= 64.
Proof.
  intros Hd. destruct (batch_cases _ _ _ _ Hd) as (current & closure & Hr & _ & _ & _ & Hmax & _ & Hcase).
  unfold SESSION_MAINTENANCE_MAX_WRITES in Hmax. destruct Hcase as [(ref & Href%list_elem_of_lookup_2 & Ho)|[_ Hp]].
  - destruct (object_batch_ok fuel _ _ _ _ _ _ Hr Ho Href) as (-> & -> & _). lia.
  - destruct (page_batch_ok _ _ _ _ _ _ Hp) as (captured & _ & _ & _ & _ & Hbud & _ & bs & ws & Hbs & Hst & Hws & Hops & Hroot).
    apply stage_root_writes in Hst as (? & ? & _ & _ & _ & Ews).
    set (present := present_leaves read (cp_leaves captured)) in *. set (batch := take _ present) in *.
    rewrite Hws, !length_app, length_map, Ews, <- (Forall2_length _ _ _ Hbs), Hops. split; [cbn; lia|]. split; [|lia]. split; [lia|].
    destruct (br_pagesExhausted out); [specialize (Hbud eq_refl); lia|]. cbn. unfold batch. rewrite length_take. lia.
Qed.

(** C11: A batch keeps to its budget and to its closure: it stages as many writes as the
    operations it reports, at most its budget of at most 64, each to the session's root or
    marker, to a page that the closure's trees capture (which is deleted), or to the intent
    of one of the closure's private objects; and it does so only under the claim it was
    given. *)
Theorem batch_within_closure read fuel input out :
  deleteRetentionPageBatch localeCompare read fuel input = Ok out →
  ∃ current closure, readAuthoritative read (bt_tenantId input) (bt_rsid input) = Ok (Some current) ∧
    rt_retentionClosure (au_value current) = Some closure ∧ holds_claim closure (bt_claimToken input) (bt_owner input) = true ∧
    Z.of_nat (length (br_writes out)) = br_operations out ∧ br_operations out <= num_Z (bt_maxOperations input) <= 64 ∧
    ∀ w, w ∈ br_writes out → in_closure fuel read input closure w.
Proof.
  intros Hd. destruct (batch_cases _ _ _ _ Hd) as (current & closure & Hr & Hcl & _ & Hclaim & _ & _ & Hcase).
  destruct (batch_operations _ _ _ _ Hd) as (Hl & Ho & Hm). exists current, closure. do 4 (split; [done|]). split; [lia|].
  destruct Hcase as [(ref & Href%list_elem_of_lookup_2 & Hob)|[_ Hp]].
  - by destruct (object_batch_ok fuel _ _ _ _ _ _ Hr Hob Href) as (_ & _ & ?).
  - destruct (page_batch_ok _ _ _ _ _ _ Hp) as (captured & Hcap & _ & _ & _ & _ & _ & bs & ws & Hbs & Hst & Hws & _ & Hroot).
    rewrite Hroot in Hst. destruct (stage_in_closure fuel read input closure _ _ _ _ Hr Hst) as [_ Hin].
    set (present := present_leaves read (cp_leaves captured)) in *. rewrite Hws.
    intros w [(x & -> & Hx)%list_elem_of_fmap|[[i Hi]%list_elem_of_lookup_1|Hw]%elem_of_app]%elem_of_app; [..|by apply Hin].
    + right; left. exists captured, x.1. split; [done|]. split; [|done]. apply elem_of_app; left.
      assert (x ∈ present) as Hxp by (rewrite <- (take_drop (Z.to_nat (num_Z (bt_maxOperations input) - 2)) present); by apply elem_of_app; left).
      apply list_elem_of_omap in Hxp as (ref & Hin' & Eref). destruct (read _ _); [|done]. by injection Eref as <-.
    + right; left. destruct (Forall2_lookup_r _ _ _ _ _ Hbs Hi) as (ref & Href & r & _ & ->). exists captured, ref. split; [done|].
      split; [|done]. apply list_elem_of_lookup_2 in Href. apply elem_of_app; right. by destruct (br_pagesExhausted out); [|apply not_elem_of_nil in Href].
Qed.

(** A history can be too large to be retired: when the leaves that are left fit the
    budget of a batch but the branches do not fit beside them, the batch throws; nothing
    is written, so every later batch with that budget throws as well. *)
Theorem branches_exceed_budget read fuel input current closure captured :
  readAuthoritative read (bt_tenantId input) (bt_rsid input) = Ok (Some current) → rt_retentionClosure (au_value current) = Some closure →
  Z.of_nat (length (sc_objectIntents closure)) <= rc_blobSlotIndex (sc_cursor closure) →
  capturedPages localeCompare read fuel (bt_tenantId input) (bt_rsid input) (sc_roots closure) = Ok captured →
  let present := Z.of_nat (length (present_leaves read (cp_leaves captured))) in
  let budget := num_Z (bt_maxOperations input) - 2 in
  present <= budget < present + Z.of_nat (length (cp_branches captured)) →
  ∀ out, deleteRetentionPageBatch localeCompare read fuel input ≠ Ok out.
Proof.
  intros Hr Hcl Hidx Hcap. cbv zeta. intros Hbud out Hd.
  destruct (batch_cases _ _ _ _ Hd) as (current' & closure' & Hr' & Hcl' & _ & _ & _ & _ & Hcase).
  rewrite Hr in Hr'. injection Hr' as <-. rewrite Hcl in Hcl'. injection Hcl' as <-.
  destruct Hcase as [(ref & Href%lookup_lt_Some & _)|[_ Hp]]; [lia|].
  destruct (page_batch_ok _ _ _ _ _ _ Hp) as (captured' & Hcap' & Hex & _ & _ & Hb & _). rewrite Hcap in Hcap'. injection Hcap' as <-.
  rewrite take_ge in Hex, Hb by lia. rewrite Nat.eqb_refl in Hex. rewrite Hex in Hb. specialize (Hb eq_refl). lia.
Qed.

(** ** Claims *)

(** One process takes the claim over from another, once or more often. *)
Definition taken_over : SessionRetentionClosureV1 → SessionRetentionClosureV1 → Prop :=
  tc (λ c c', ∃ input, takeOverSessionRetentionClaim c input = Ok c').

Lemma take_over_grows c c' : taken_over c c' → cl_generation (sc_claim c) < cl_generation (sc_claim c') ∧
  ow_epoch (cl_owner (sc_claim c)) < ow_epoch (cl_owner (sc_claim c')) ∧ sc_cursor c' = sc_cursor c ∧ sc_objectIntents c' = sc_objectIntents c.
Proof.
  assert (∀ c c' input, takeOverSessionRetentionClaim c input = Ok c' → cl_generation (sc_claim c) < cl_generation (sc_claim c') ∧
    ow_epoch (cl_owner (sc_claim c)) < ow_epoch (cl_owner (sc_claim c')) ∧ sc_cursor c' = sc_cursor c ∧ sc_objectIntents c' = sc_objectIntents c) as H1.
  { intros a b input Hi. unfold takeOverSessionRetentionClaim in Hi. ok_inv Hi. cbn. repeat split; lia. }
  induction 1 as [a b [input Hi]|a b c [input Hi] _ IH]; [by eapply H1|]. destruct (H1 _ _ _ Hi) as (? & ? & E1 & E2).
  destruct IH as (? & ? & -> & ->). repeat split; try done; lia.
Qed.

(** C40: A takeover strands a private object: when the claim on a retention is taken
    over while the intent of an object is under the old claim's deletion, no batch ever
    deletes anything again, whoever runs it and however often the claim changes hands. *)
Theorem takeover_strands_object read fuel input current closure closure' ref stored :
  taken_over closure closure' →
  readAuthoritative read (bt_tenantId input) (bt_rsid input) = Ok (Some current) → rt_retentionClosure (au_value current) = Some closure' →
  sc_objectIntents closure !! Z.to_nat (rc_blobSlotIndex (sc_cursor closure)) = Some ref → 0 <= rc_blobSlotIndex (sc_cursor closure) →
  read GATEWAY_SESSION_BLOB_INTENT_NAMESPACE (oi_key ref) = Some stored → is_str (member (sr_value stored) "state") (js "deleting") = true →
  is_int (member (member (sr_value stored) "deletionClaim") "version") (cl_generation (sc_claim closure)) = true →
  ∀ out, deleteRetentionPageBatch localeCompare read fuel input ≠ Ok out.
Proof.
  intros Ht Hr Hcl Href Hidx Hst Hstate Hver out Hd. destruct (take_over_grows _ _ Ht) as (Hg & _ & Ecur & Eobj).
  destruct (batch_cases _ _ _ _ Hd) as (current' & closure'' & Hr' & Hcl' & _ & _ & _ & _ & Hcase).
  rewrite Hr in Hr'. injection Hr' as <-. rewrite Hcl in Hcl'. injection Hcl' as <-. rewrite Ecur, Eobj in Hcase.
  destruct Hcase as [(ref' & Href' & Ho)|[Hle _]]; [|apply lookup_lt_Some in Href; lia].
  rewrite Href in Href'. injection Href' as <-. unfold object_batch in Ho. destruct (bt_objects input); [|done]. rewrite Hst in Ho. op_inv Ho.
  assert (is_str (member (sr_value stored) "state") (js "active") = false) as Hna.
  { destruct (member (sr_value stored) "state"); try done. cbn in Hstate |- *. bsimp. subst. by vm_compute. }
  rewrite Hna in Ho. op_inv Ho. apply orb_false_iff in Hf1 as [_ Hf1]. apply negb_false_iff in Hf1.
  unfold is_int in *. destruct (member (member _ "deletionClaim") "version") as [| | |[]| | | |]; try done. bsimp. lia.
Qed.

(** C15: A retired session stays retired: once its closure is complete, no claim, takeover,
    batch or second retirement of it succeeds. *)
Theorem retired_stays_retired read t rsid current closure :
  readAuthoritative read t rsid = Ok (Some current) → rt_retentionClosure (au_value current) = Some closure → sc_state closure = completed →
  (∀ c now out, claimRetention localeCompare read t rsid c now ≠ Ok out) ∧
  (∀ c now out, updateRetentionClaim read t rsid c now ≠ Ok out) ∧
  (∀ fuel input out, bt_tenantId input = t → bt_rsid input = rsid → deleteRetentionPageBatch localeCompare read fuel input ≠ Ok out) ∧
  (∀ input out, fi_tenantId input = t → fi_rsid input = rsid → finalizeRetiredRoot read input ≠ Ok out) ∧
  (∀ input c, takeOverSessionRetentionClaim closure input ≠ Ok c).
Proof.
  intros Hr Hcl Hst. repeat split.
  - intros c now out Ho. unfold claimRetention in Ho. rewrite Hr in Ho. cbn in Ho. by rewrite Hcl in Ho.
  - intros c now out Ho. unfold updateRetentionClaim in Ho. rewrite Hr in Ho. cbn in Ho. rewrite Hcl, Hst in Ho. done.
  - intros fuel input out <- <- (current' & closure' & Hr' & Hcl' & Hne & _)%batch_cases. congruence.
  - intros input out <- <- Ho. unfold finalizeRetiredRoot in Ho. rewrite Hr in Ho. cbn in Ho. rewrite Hcl in Ho. unfold final_proof in Ho.
    by rewrite Hst in Ho.
  - intros input c Ho. unfold takeOverSessionRetentionClaim in Ho. by rewrite Hst in Ho.
Qed.

End facts.
End RetentionFacts.
