(* ===== verification/Maintenance.v ===== *)
(** The maintenance of a gateway: packages/gateway/src/gatewayMaintenance.ts, and the
    step it drives, [runMaintenanceStep] of packages/gateway/src/bridgeSession.ts.

    The coordinator runs bounded passes over five lanes.  Its [async] methods are cut at
    their [await]s: a pass is suspended at a step, or it has returned and its promise is
    to be settled; a call of [stop] is suspended at the pass.  The step is a program
    whose calls are the owner, the clock, the inventory of the store and the transaction
    that maintains one session. *)

From stdpp Require Import relations.
From S2P Require Import Prelude JsString JsValue ProtocolStore Effects Retention.

Module Maintenance.
Import ProtocolStore.
Import Retention(SessionRetentionOwner, Build_SessionRetentionOwner, ow_identity, ow_epoch, GATEWAY_RBP_SESSION_CUTOVER_V3_NAMESPACE).

(** ** Data *)

Definition GATEWAY_MAINTENANCE_MAX_OPERATIONS : Z := 64.
Definition GATEWAY_MAINTENANCE_COOPERATIVE_BUDGET_MS : Z := 250.

Inductive GatewayMaintenanceLane :=
| session_retention | session_migration_cleanup | resource_receipts | recovery_carriers | protected_key_inventory.

#[export] Instance GatewayMaintenanceLane_eq_dec : EqDecision GatewayMaintenanceLane.
Proof. solve_decision. Defined.

Definition ORDERED_LANES : list GatewayMaintenanceLane :=
  [session_retention; session_migration_cleanup; resource_receipts; recovery_carriers; protected_key_inventory].

Record GatewayMaintenanceCursor := { cu_lane : GatewayMaintenanceLane; cu_tenantAfter : option jstr; cu_keyAfter : option jstr }.

Record GatewayMaintenanceStepResult := {
  sp_operations : jsnum; sp_cursor : GatewayMaintenanceCursor; sp_progressed : bool; sp_retryNeeded : bool }.

Record StepInput := { si_cursor : GatewayMaintenanceCursor; si_remainingOperations : Z; si_deadlineMs : Z }.

Inductive StoppedReason := complete | operation_budget | cooperative_budget | owner_lost | retry_needed.

#[export] Instance StoppedReason_eq_dec : EqDecision StoppedReason.
Proof. solve_decision. Defined.

Record GatewayMaintenancePassResult := {
  pr_operations : Z; pr_elapsedMs : Z; pr_cursor : GatewayMaintenanceCursor; pr_stoppedReason : StoppedReason }.

Definition nextLane (lane : GatewayMaintenanceLane) : GatewayMaintenanceLane :=
  let index := nullish (Z.of_nat <$> find_index (λ l, l === lane) ORDERED_LANES) (-1) in
  default lane (ORDERED_LANES !! Z.to_nat ((index + 1) mod Z.of_nat (length ORDERED_LANES))).

Definition lane_start (lane : GatewayMaintenanceLane) : GatewayMaintenanceCursor := {|
  cu_lane := lane; cu_tenantAfter := None; cu_keyAfter := None |}.

Definition initialCursor : GatewayMaintenanceCursor := lane_start session_retention.

(** ** A pass *)

(** The variables of [#runPass]. *)
Record Pass := {
  ps_startedAtMs : Z; ps_deadlineMs : Z; ps_operations : Z; ps_cursor : GatewayMaintenanceCursor;
  ps_stoppedReason : StoppedReason; ps_lanesWithoutProgress : Z }.

Inductive CoordinatorState := stopped | starting | running | stopping.

#[export] Instance CoordinatorState_eq_dec : EqDecision CoordinatorState.
Proof. solve_decision. Defined.

(** What the segment of a pass reads: the owner, and the clock at the head of the loop
    and at the end of the pass. *)
Record Readings := { rd_isCurrent : bool; rd_now : Z; rd_end : Z }.

Definition new_pass (cursor : GatewayMaintenanceCursor) (startedAtMs : Z) : Pass := {|
  ps_startedAtMs := startedAtMs; ps_deadlineMs := startedAtMs + GATEWAY_MAINTENANCE_COOPERATIVE_BUDGET_MS;
  ps_operations := 0; ps_cursor := cursor; ps_stoppedReason := complete; ps_lanesWithoutProgress := 0 |}.

Definition stop_for (p : Pass) (reason : StoppedReason) : Pass := {|
  ps_startedAtMs := ps_startedAtMs p; ps_deadlineMs := ps_deadlineMs p; ps_operations := ps_operations p;
  ps_cursor := ps_cursor p; ps_stoppedReason := reason; ps_lanesWithoutProgress := ps_lanesWithoutProgress p |}.

(** The head of the loop: the step to await, or the pass as the loop leaves it. *)
Definition loop_head (state : CoordinatorState) (rd : Readings) (p : Pass) : StepInput + Pass :=
  if negb (ps_operations p <? GATEWAY_MAINTENANCE_MAX_OPERATIONS) then inr p else
  if negb (rd_isCurrent rd) || (state !== running) then inr (stop_for p owner_lost) else
  if ps_deadlineMs p <=? rd_now rd then inr (stop_for p cooperative_budget) else
  inl {| si_cursor := ps_cursor p; si_remainingOperations := GATEWAY_MAINTENANCE_MAX_OPERATIONS - ps_operations p;
         si_deadlineMs := ps_deadlineMs p |}.

Inductive FailureClass := failure_invalid_record | failure_unknown.

Definition errorClass (e : js_error) : FailureClass :=
  match err_class e with TypeError => failure_invalid_record | _ => failure_unknown end.

(** The [catch]: a step that throws counts as one that asks to be retried. *)
Definition step_result (cursor : GatewayMaintenanceCursor) (outcome : result js_error GatewayMaintenanceStepResult)
    : GatewayMaintenanceStepResult :=
  match outcome with
  | Ok r => r
  | Throw _ => {| sp_operations := JInt 0; sp_cursor := lane_start (nextLane (cu_lane cursor)); sp_progressed := false;
                  sp_retryNeeded := true |}
  end.

(** The rest of the loop's body: the pass, and whether the loop is left. *)
Definition absorb (p : Pass) (r : GatewayMaintenanceStepResult) : result js_error (Pass * bool) :=
  throw_if (negb (isSafeInteger (sp_operations r)) || (num_Z (sp_operations r) <? 0) ||
            (GATEWAY_MAINTENANCE_MAX_OPERATIONS - ps_operations p <? num_Z (sp_operations r)))
    (JsError PlainError (js "Gateway maintenance step escaped its operation budget")) ;;
  let operations := ps_operations p + num_Z (sp_operations r) in
  let idle := if sp_retryNeeded r then ps_lanesWithoutProgress p + 1
              else if sp_progressed r then 0 else ps_lanesWithoutProgress p + 1 in
  let cursor := if sp_retryNeeded r then lane_start (nextLane (cu_lane (sp_cursor r)))
                else if sp_progressed r then sp_cursor r else lane_start (nextLane (cu_lane (sp_cursor r))) in
  let reason := if sp_retryNeeded r then retry_needed else ps_stoppedReason p in
  let next reason := {|
    ps_startedAtMs := ps_startedAtMs p; ps_deadlineMs := ps_deadlineMs p; ps_operations := operations; ps_cursor := cursor;
    ps_stoppedReason := reason; ps_lanesWithoutProgress := idle |} in
  if operations =? GATEWAY_MAINTENANCE_MAX_OPERATIONS then Ok (next operation_budget, true) else
  if Z.of_nat (length ORDERED_LANES) <=? idle
  then Ok (next (if reason !== retry_needed then complete else reason), true)
  else Ok (next reason, false).

Definition pass_result (p : Pass) (rd : Readings) : GatewayMaintenancePassResult := {|
  pr_operations := ps_operations p; pr_elapsedMs := Z.max 0 (rd_end rd - ps_startedAtMs p); pr_cursor := ps_cursor p;
  pr_stoppedReason := ps_stoppedReason p |}.

(** ** The coordinator *)

Inductive PassTask :=
| awaiting_step (p : Pass) (input : StepInput)
| returned (r : GatewayMaintenancePassResult)
| rejected (e : js_error).

(** A call of [stop]: its pass is not settled, or it may resume. *)
Inductive StopTask := stop_on_pass | stop_ready.

(** [co_rearm]: the pass of the timer is to schedule the next one. *)
Record Coordinator := {
  co_state : CoordinatorState; co_cursor : GatewayMaintenanceCursor; co_pass : option PassTask; co_timer : bool;
  co_rearm : bool; co_stops : list StopTask; co_observed : list (GatewayMaintenanceLane * FailureClass) }.

Definition newCoordinator : Coordinator := {|
  co_state := stopped; co_cursor := initialCursor; co_pass := None; co_timer := false; co_rearm := false; co_stops := [];
  co_observed := [] |}.

Definition set_co (co : Coordinator) (state : CoordinatorState) (timer rearm : bool) (stops : list StopTask) : Coordinator := {|
  co_state := state; co_cursor := co_cursor co; co_pass := co_pass co; co_timer := timer; co_rearm := rearm;
  co_stops := stops; co_observed := co_observed co |}.

Definition set_pass (co : Coordinator) (cursor : GatewayMaintenanceCursor) (pass : option PassTask)
    (observed : list (GatewayMaintenanceLane * FailureClass)) : Coordinator := {|
  co_state := co_state co; co_cursor := cursor; co_pass := pass; co_timer := co_timer co; co_rearm := co_rearm co;
  co_stops := co_stops co; co_observed := observed |}.

Definition schedule (co : Coordinator) : Coordinator :=
  if (co_state co !== running) || co_timer co then co else set_co co (co_state co) true (co_rearm co) (co_stops co).

Definition start (co : Coordinator) (isCurrent : bool) : result js_error Coordinator :=
  if (co_state co === running) || (co_state co === starting) then Ok co else
  throw_if (negb isCurrent) (JsError PlainError (js "Gateway maintenance owner is unavailable")) ;;
  Ok (schedule (set_co co running (co_timer co) (co_rearm co) (co_stops co))).

(** The pass goes on to its next [await], or to its end. *)
Definition turn (state : CoordinatorState) (rd : Readings) (p : Pass) : PassTask :=
  match loop_head state rd p with
  | inl input => awaiting_step p input
  | inr p => returned (pass_result p rd)
  end.

(** [runNow]: [None] when the promise of the pass in flight is returned. *)
Definition runNow (co : Coordinator) (startedAtMs : Z) (rd : Readings) : Coordinator * option GatewayMaintenancePassResult :=
  if co_state co !== running
  then (co, Some {| pr_operations := 0; pr_elapsedMs := 0; pr_cursor := co_cursor co; pr_stoppedReason := owner_lost |}) else
  match co_pass co with
  | Some _ => (co, None)
  | None => (set_pass co (co_cursor co) (Some (turn (co_state co) rd (new_pass (co_cursor co) startedAtMs))) (co_observed co), None)
  end.

(** The step of the pass has an outcome. *)
Definition pass_answer (co : Coordinator) (outcome : result js_error GatewayMaintenanceStepResult) (rd : Readings) : option Coordinator :=
  match co_pass co with
  | Some (awaiting_step p input) =>
      let observed := match outcome with
                      | Ok _ => co_observed co
                      | Throw e => co_observed co ++ [(cu_lane (ps_cursor p), errorClass e)]
                      end in
      Some match absorb p (step_result (ps_cursor p) outcome) with
           | Throw e => set_pass co (co_cursor co) (Some (rejected e)) observed
           | Ok (p, true) => set_pass co (ps_cursor p) (Some (returned (pass_result p rd))) observed
           | Ok (p, false) => set_pass co (ps_cursor p) (Some (turn (co_state co) rd p)) observed
           end
  | _ => None
  end.

(** [.finally(() => { this.#pass = null; })], and those who wait for the promise: a
    [stop] whose pass is rejected throws. *)
Definition pass_settle (co : Coordinator) : option Coordinator :=
  let settled stops :=
    let co := set_pass co (co_cursor co) None (co_observed co) in
    if co_rearm co then schedule (set_co co (co_state co) (co_timer co) false stops)
    else set_co co (co_state co) (co_timer co) false stops in
  match co_pass co with
  | Some (returned _) => Some (settled (map (λ _, stop_ready) (co_stops co)))
  | Some (rejected _) => Some (settled (List.filter (λ s, match s with stop_ready => true | stop_on_pass => false end) (co_stops co)))
  | _ => None
  end.

(** The timer fires: the next one is set when the pass is over. *)
Definition timer_fires (co : Coordinator) (startedAtMs : Z) (rd : Readings) : option Coordinator :=
  if negb (co_timer co) then None else
  let co := set_co co (co_state co) false (co_rearm co) (co_stops co) in
  match runNow co startedAtMs rd with
  | (co, Some _) => Some (schedule co)
  | (co, None) => Some (set_co co (co_state co) (co_timer co) true (co_stops co))
  end.

(** [stop] up to its [await]; [None]: it returns at once. *)
Definition stop (co : Coordinator) : option Coordinator :=
  if co_state co === stopped then None else
  Some (set_co co stopping false (co_rearm co)
          (co_stops co ++ [match co_pass co with Some _ => stop_on_pass | None => stop_ready end])).

(** A [stop] whose pass is settled resumes. *)
Definition stop_resume (co : Coordinator) : option Coordinator :=
  match find_index (λ s, match s with stop_ready => true | stop_on_pass => false end) (co_stops co) with
  | Some i => Some (set_co co stopped (co_timer co) (co_rearm co) (list_delete i (co_stops co)))
  | None => None
  end.

(** ** The step *)

(** What the transaction on one session reports. *)
Record Processed := { pc_operations : Z; pc_progressed : bool; pc_retryNeeded : bool }.

Inductive call :=
| m_owner
| m_clock
| m_tenants (limit : Z)
| m_keys (tenantId namespace : jstr) (limit : Z)
| m_transact (tenantId rsid : jstr) (owner : SessionRetentionOwner) (nowMs remainingOperations : Z).

Definition answer (c : call) : Type :=
  match c with
  | m_owner => option SessionRetentionOwner
  | m_clock => Z
  | m_tenants _ => result js_error (StoreOutcome (list jstr))
  | m_keys _ _ _ => result js_error (StoreOutcome (list jstr))
  | m_transact _ _ _ _ _ => result js_error (StoreOutcome Processed)
  end.

Notation program := (prog call answer js_error).

Definition step_of (operations : Z) (cursor : GatewayMaintenanceCursor) (progressed retryNeeded : bool) : GatewayMaintenanceStepResult := {|
  sp_operations := JInt operations; sp_cursor := cursor; sp_progressed := progressed; sp_retryNeeded := retryNeeded |}.

(** [if (!outcome.ok) throw new Error(outcome.message);] *)
Definition ok_or_throw {A} (outcome : result js_error (StoreOutcome A)) : result js_error A :=
  match outcome with
  | Ok (store_ok a) => Ok a
  | Ok (store_refused _ message) => Throw (JsError PlainError message)
  | Throw e => Throw e
  end.

Definition after_key (after : option jstr) (value : jstr) : bool := match after with None => true | Some k => str_ltb k value end.
Definition from_tenant (after : option jstr) (value : jstr) : bool := match after with None => true | Some t => str_leb t value end.

(** [tenants[tenants.indexOf(tenantId) + 1] ?? null] *)
Definition tenant_after (tenants : list jstr) (tenantId : jstr) : option jstr :=
  tenants !! nullish (S <$> find_index (λ t, t === tenantId) tenants) 0%nat.

Definition cursor_at (cursor : GatewayMaintenanceCursor) (tenantAfter keyAfter : option jstr) : GatewayMaintenanceCursor := {|
  cu_lane := cu_lane cursor; cu_tenantAfter := tenantAfter; cu_keyAfter := keyAfter |}.

Definition maintain_session (input : StepInput) (owner : SessionRetentionOwner) (tenantId rsid : jstr) : program GatewayMaintenanceStepResult :=
  Call m_clock (λ nowMs,
  Call (m_transact tenantId rsid owner nowMs (si_remainingOperations input)) (λ processed,
  Done match processed with
       | Throw e => Throw e
       | Ok (store_refused _ _) => Ok (step_of 0 (cursor_at (si_cursor input) (Some tenantId) (Some rsid)) false true)
       | Ok (store_ok p) =>
           Ok (step_of (Z.min (pc_operations p) (si_remainingOperations input))
                 (cursor_at (si_cursor input) (Some tenantId) (Some rsid)) (pc_progressed p) (pc_retryNeeded p))
       end)).

Definition runMaintenanceStep (input : StepInput) : program GatewayMaintenanceStepResult :=
  let cursor := si_cursor input in
  if cu_lane cursor !== session_retention then mret (step_of 0 cursor false false) else
  Call m_owner (λ owner,
  match owner with
  | None => mret (step_of 0 cursor false true)
  | Some owner =>
      Call m_clock (λ now,
      if si_deadlineMs input <=? now then mret (step_of 0 cursor false true) else
      Call (m_tenants 1024) (λ tenants,
      tenants ← (Done (ok_or_throw tenants) : program _);
      match find_first (from_tenant (cu_tenantAfter cursor)) tenants with
      | None => mret (step_of 0 (cursor_at cursor None None) false false)
      | Some tenantId =>
          Call (m_keys tenantId GATEWAY_RBP_SESSION_CUTOVER_V3_NAMESPACE 1024) (λ keys,
          keys ← (Done (ok_or_throw keys) : program _);
          match find_first (after_key (cu_keyAfter cursor)) keys with
          | None => mret (step_of 0 (cursor_at cursor (tenant_after tenants tenantId) None) false false)
          | Some rsid => maintain_session input owner tenantId rsid
          end)
      end))
  end).

(** ** Runs of a coordinator *)

Definition outcome : Type := result js_error GatewayMaintenanceStepResult.

(** A segment of the coordinator; the steps it drives answer what they like. *)
Inductive advances : Coordinator → list (StepInput * outcome) → Coordinator → Prop :=
| adv_start co isCurrent co' : start co isCurrent = Ok co' → advances co [] co'
| adv_run_now co t rd : advances co [] (runNow co t rd).1
| adv_answer co p input o rd co' :
    co_pass co = Some (awaiting_step p input) → pass_answer co o rd = Some co' → advances co [(input, o)] co'
| adv_settle co co' : pass_settle co = Some co' → advances co [] co'
| adv_timer co t rd co' : timer_fires co t rd = Some co' → advances co [] co'
| adv_stop co co' : stop co = Some co' → advances co [] co'
| adv_resume co co' : stop_resume co = Some co' → advances co [] co'.

(** From a new coordinator, with the steps that were answered, oldest first. *)
Inductive runs : list (StepInput * outcome) → Coordinator → Prop :=
| runs_new : runs [] newCoordinator
| runs_step h co l co' : runs h co → advances co l co' → runs (h ++ l) co'.

End Maintenance.

Module MaintenanceFacts.
Import ProtocolStore Maintenance.
Import Retention(SessionRetentionOwner, Build_SessionRetentionOwner, ow_identity, ow_epoch, GATEWAY_RBP_SESSION_CUTOVER_V3_NAMESPACE).

(** ** What every state of a coordinator satisfies *)

(** A pass within its budgets, with the step it awaits. *)
Record in_budget (p : Pass) (input : StepInput) : Prop := {
  ib_cursor : si_cursor input = ps_cursor p;
  ib_remaining : si_remainingOperations input = GATEWAY_MAINTENANCE_MAX_OPERATIONS - ps_operations p;
  ib_operations : 0 <= ps_operations p < GATEWAY_MAINTENANCE_MAX_OPERATIONS;
  ib_idle : 0 <= ps_lanesWithoutProgress p < Z.of_nat (length ORDERED_LANES) }.

(** [P] holds of where the coordinator goes on. *)
Record pass_inv (P : GatewayMaintenanceCursor → Prop) (co : Coordinator) : Prop := {
  pi_cursor : P (co_cursor co);
  pi_pass : ∀ p input, co_pass co = Some (awaiting_step p input) → in_budget p input ∧ P (ps_cursor p);
  pi_result : ∀ r, co_pass co = Some (returned r) → 0 <= pr_operations r <= GATEWAY_MAINTENANCE_MAX_OPERATIONS }.

Lemma turn_inv state rd p :
  0 <= ps_operations p <= GATEWAY_MAINTENANCE_MAX_OPERATIONS → 0 <= ps_lanesWithoutProgress p < Z.of_nat (length ORDERED_LANES) →
  match turn state rd p with
  | awaiting_step p' input => p' = p ∧ in_budget p input
  | returned r => pr_operations r = ps_operations p
  | rejected _ => False
  end.
Proof. intros Ho Hi. unfold turn, loop_head. repeat split_if; try done. bsimp. split; [done|]. split; cbn; try done. lia. Qed.

(** The cursor a step leaves. *)
Definition next_cursor (cursor : GatewayMaintenanceCursor) (o : outcome) : GatewayMaintenanceCursor :=
  let r := step_result cursor o in
  if sp_retryNeeded r then lane_start (nextLane (cu_lane (sp_cursor r)))
  else if sp_progressed r then sp_cursor r else lane_start (nextLane (cu_lane (sp_cursor r))).

(** What remains of a pass: its operations, and the lanes it may still find idle. *)
Definition pass_measure (p : Pass) : Z :=
  (GATEWAY_MAINTENANCE_MAX_OPERATIONS - ps_operations p) * 5 + (5 - ps_lanesWithoutProgress p).

Lemma absorb_inv p input o p' b : in_budget p input → absorb p (step_result (ps_cursor p) o) = Ok (p', b) →
  ps_cursor p' = next_cursor (si_cursor input) o ∧ 0 <= ps_operations p' <= GATEWAY_MAINTENANCE_MAX_OPERATIONS ∧
  (b = false → 0 <= ps_lanesWithoutProgress p' < Z.of_nat (length ORDERED_LANES) ∧ ps_operations p' < GATEWAY_MAINTENANCE_MAX_OPERATIONS) ∧
  ps_operations p <= ps_operations p'.
Proof.
  intros [Hc _ Ho Hi] H. unfold absorb, next_cursor in *. rewrite Hc. ok_inv H.
  repeat (split_if; cbn in *); bsimp; cbn in *; repeat split; intros; bsimp; try done; lia.
Qed.

Lemma schedule_same co : co_cursor (schedule co) = co_cursor co ∧ co_pass (schedule co) = co_pass co.
Proof. unfold schedule. by split_if. Qed.

Lemma settle_same co co' : pass_settle co = Some co' → co_cursor co' = co_cursor co ∧ co_pass co' = None.
Proof.
  unfold pass_settle. destruct (co_pass co) as [[]|]; try done; intros [= <-]; split_if; try done;
    match goal with |- context [schedule ?c] => by destruct (schedule_same c) as [-> ->] end.
Qed.

Lemma pass_inv_same P co co' : co_cursor co' = co_cursor co → co_pass co' = co_pass co → pass_inv P co → pass_inv P co'.
Proof. intros Hc Hp [H1 H2 H3]. split; rewrite ?Hc, ?Hp; done. Qed.

Lemma pass_inv_turn P co rd p observed :
  P (ps_cursor p) → 0 <= ps_operations p <= GATEWAY_MAINTENANCE_MAX_OPERATIONS →
  0 <= ps_lanesWithoutProgress p < Z.of_nat (length ORDERED_LANES) →
  pass_inv P (set_pass co (ps_cursor p) (Some (turn (co_state co) rd p)) observed).
Proof.
  intros HP Ho Hi. pose proof (turn_inv (co_state co) rd p Ho Hi) as H.
  split; cbn; [done|..]; intros * [= E]; rewrite E in H; [by destruct H as [-> ?]|lia].
Qed.

Lemma pass_inv_run_now P co t rd : pass_inv P co → pass_inv P (runNow co t rd).1.
Proof.
  intros HP. unfold runNow. split_if; [exact HP|]. destruct (co_pass co) eqn:E; [exact HP|]. destruct HP as [H1 _ _].
  by apply (pass_inv_turn P co rd (new_pass (co_cursor co) t) (co_observed co)).
Qed.

Lemma pass_inv_answer P co p input o rd co' :
  pass_inv P co → co_pass co = Some (awaiting_step p input) → pass_answer co o rd = Some co' →
  (∃ e, co_pass co' = Some (rejected e) ∧ co_cursor co' = co_cursor co) ∨
  P (next_cursor (si_cursor input) o) → pass_inv P co'.
Proof.
  intros [H1 H2 H3] Hpass H HP. destruct (H2 _ _ Hpass) as [Hb _]. unfold pass_answer in H. rewrite Hpass in H. injection H as <-.
  destruct (absorb p _) as [[p' b]|e] eqn:E; [|split; cbn; done].
  destruct (absorb_inv _ _ _ _ _ Hb E) as (Hcur & Ho & Hi & _).
  assert (P (ps_cursor p')) as HP'.
  { rewrite Hcur. destruct HP as [(e & He & _)|HP]; [|done]. destruct b; cbn in He; [done|]. injection He as He.
    pose proof (turn_inv (co_state co) rd p' Ho (proj1 (Hi eq_refl))) as Ht. by rewrite He in Ht. }
  destruct b; [|by apply pass_inv_turn; [..|apply Hi]].
  split; cbn; try done. by intros r [= <-].
Qed.

(** Every segment keeps the cursors in [P] when the steps it answers do. *)
Lemma pass_inv_kept P co l co' :
  (∀ input o, (input, o) ∈ l → P (si_cursor input) → P (next_cursor (si_cursor input) o)) →
  advances co l co' → pass_inv P co → pass_inv P co'.
Proof.
  intros Hl Hadv HP. destruct Hadv as [co b co' H|co t rd|co p input o rd co' Hpass H|co co' H|co t rd co' H|co co' H|co co' H].
  - unfold start in H. split_if; [by bsimp|]. ok_inv H. destruct (schedule_same (set_co co running (co_timer co) (co_rearm co) (co_stops co))).
    by apply (pass_inv_same P co).
  - by apply pass_inv_run_now.
  - eapply pass_inv_answer; [done..|]. right. apply Hl; [set_solver|]. destruct HP as [_ HP _].
    by destruct (HP _ _ Hpass) as [[-> _ _ _] ?].
  - destruct HP as [H1 _ _]. apply settle_same in H as [Hc Hp]. split; rewrite ?Hc, ?Hp; done.
  - unfold timer_fires in H. split_if; [done|]. set (co0 := set_co co (co_state co) false (co_rearm co) (co_stops co)) in *.
    assert (pass_inv P co0) as H0 by by apply (pass_inv_same P co). pose proof (pass_inv_run_now P co0 t rd H0) as H1.
    destruct (runNow co0 t rd) as [c [r|]]; injection H as <-; cbn in H1.
    + destruct (schedule_same c). by apply (pass_inv_same P c).
    + by apply (pass_inv_same P c).
  - unfold stop in H. split_if; [done|]. injection H as <-. by apply (pass_inv_same P co).
  - unfold stop_resume in H. destruct (find_index _ _); [|done]. injection H as <-. by apply (pass_inv_same P co).
Qed.

(** So the steps of a run all start in [P]. *)
Lemma runs_inv P h co :
  P initialCursor → (∀ input o, (input, o) ∈ h → P (si_cursor input) → P (next_cursor (si_cursor input) o)) →
  runs h co → pass_inv P co ∧ ∀ input o, (input, o) ∈ h → P (si_cursor input).
Proof.
  intros Hinit. induction 2 as [|h co l co' Hr IH Hadv]; [split; [by split|set_solver]|].
  destruct IH as [IHc IHh]; [set_solver|]. split.
  - eapply pass_inv_kept; [|done..]. set_solver.
  - intros input o [?|Hin]%elem_of_app; [by eapply IHh|]. destruct Hadv as [| |co p input' o' rd co' Hpass _| | | |]; try set_solver.
    apply list_elem_of_singleton in Hin as [= -> ->]. destruct IHc as [_ Hp _]. by destruct (Hp _ _ Hpass) as [[-> _ _ _] ?].
Qed.

(** ** Lanes *)

(** A step of session retention throws; the others answer, each with a cursor of its lane. *)
Definition retention_throws (input : StepInput) (o : outcome) : Prop :=
  if cu_lane (si_cursor input) === session_retention then ∃ e, o = Throw e
  else ∃ r, o = Ok r ∧ cu_lane (sp_cursor r) = cu_lane (si_cursor input).

(** A lane whose steps throw starves the lane after it: while the steps of session
    retention throw and those of the other lanes answer, no pass ever takes a step of the
    migration clean-up, the lane after it. *)
Theorem throwing_lane_starves_next h co :
  runs h co → (∀ input o, (input, o) ∈ h → retention_throws input o) →
  ∀ input o, (input, o) ∈ h → cu_lane (si_cursor input) ≠ session_migration_cleanup.
Proof.
  intros Hr Hthrow.
  apply (runs_inv (λ c, cu_lane c ≠ session_migration_cleanup) h co); [done| |done].
  intros input o Hin Hne. specialize (Hthrow _ _ Hin). unfold retention_throws in Hthrow. unfold next_cursor. case_bool_decide as E.
  - destruct Hthrow as [e ->]. cbn. by rewrite E.
  - destruct Hthrow as (r & -> & Hl). cbn. repeat split_if; cbn; rewrite Hl; try done; by destruct (cu_lane (si_cursor input)).
Qed.

(** The [n]-th lane of the round. *)
Definition lane_at (n : nat) : GatewayMaintenanceLane := default session_retention (ORDERED_LANES !! (n `mod` 5)%nat).

Lemma lane_at_next n : nextLane (lane_at n) = lane_at (S n).
Proof.
  assert (∀ k, (k < 5)%nat → nextLane (default session_retention (ORDERED_LANES !! k)) =
            default session_retention (ORDERED_LANES !! (S k `mod` 5)%nat)) as Hk.
  { intros k Hk. do 5 (destruct k as [|k]; [by vm_compute|]). lia. }
  unfold lane_at. rewrite Hk by (apply Nat.mod_upper_bound; lia). do 2 f_equal.
  by rewrite <- (Nat.add_1_r (n `mod` 5)), <- (Nat.add_1_r n), Nat.Div0.add_mod_idemp_l.
Qed.

(** A step that neither throws nor goes on in its lane. *)
Definition yields (input : StepInput) (o : outcome) : Prop :=
  ∃ r, o = Ok r ∧ cu_lane (sp_cursor r) = cu_lane (si_cursor input) ∧ sp_operations r = JInt 0 ∧
    (sp_retryNeeded r = true ∨ sp_progressed r = false).

Lemma yields_next input o : yields input o → next_cursor (si_cursor input) o = lane_start (nextLane (cu_lane (si_cursor input))).
Proof. intros (r & -> & Hl & _ & [H|H]); unfold next_cursor; cbn; rewrite H, ?Hl; [done|]. by destruct (sp_retryNeeded r). Qed.

Lemma absorb_zero p r : sp_operations r = JInt 0 → ps_operations p <= GATEWAY_MAINTENANCE_MAX_OPERATIONS → is_ok (absorb p r) = true.
Proof.
  intros Hz Ho. unfold absorb. rewrite Hz. cbn [num_Z].
  assert (GATEWAY_MAINTENANCE_MAX_OPERATIONS - ps_operations p <? 0 = false) as -> by (apply Z.ltb_ge; lia).
  change (throw_if _ _) with (Ok (E := js_error) tt). cbn -[Z.of_nat]. by repeat split_if.
Qed.

Lemma answer_cursor co p input o rd co' :
  pass_inv (λ _, True) co → co_pass co = Some (awaiting_step p input) → yields input o → pass_answer co o rd = Some co' →
  pass_inv (λ c, c = lane_start (nextLane (cu_lane (si_cursor input)))) co'.
Proof.
  intros [_ H2 _] Hpass Hy H. destruct (H2 _ _ Hpass) as [Hb _]. pose proof (yields_next _ _ Hy) as Hn.
  unfold pass_answer in H. rewrite Hpass in H. injection H as <-.
  destruct (absorb p _) as [[p' b]|e] eqn:E.
  - destruct (absorb_inv _ _ _ _ _ Hb E) as (Hcur & Ho & Hi & _). rewrite Hn in Hcur.
    destruct b; [|by apply pass_inv_turn; [..|apply Hi]]. split; cbn; try done. by intros r [= <-].
  - destruct Hy as (r & -> & _ & Hz & _). destruct Hb as [_ _ Ho _]. cbn in E. pose proof (absorb_zero p r Hz ltac:(lia)) as H.
    by rewrite E in H.
Qed.

(** The lanes take turns: as long as the steps neither throw nor progress, the
    steps of the passes go round the five lanes in order. *)
Theorem lanes_take_turns h co :
  runs h co → (∀ input o, (input, o) ∈ h → yields input o) →
  map (λ s, cu_lane (si_cursor s.1)) h = map lane_at (seq 0 (length h)) ∧ co_cursor co = lane_start (lane_at (length h)).
Proof.
  intros Hr Hy. cut (map (λ s, cu_lane (si_cursor s.1)) h = map lane_at (seq 0 (length h)) ∧ pass_inv (λ c, c = lane_start (lane_at (length h))) co).
  { by intros [? [? _ _]]. }
  revert Hy. induction Hr as [|h co l co' Hr IH Hadv]; intros Hy; [by split; [|split]|].
  destruct IH as [IHm IHc]; [set_solver|]. destruct l as [|s l].
  { rewrite app_nil_r. split; [done|]. eapply pass_inv_kept; [|done..]. by intros ?? ?%not_elem_of_nil. }
  assert (∃ p input o rd, s = (input, o) ∧ l = [] ∧ co_pass co = Some (awaiting_step p input) ∧ pass_answer co o rd = Some co')
    as (p & input & o & rd & -> & -> & Hpass & H) by (inversion Hadv; subst; eauto 12).
  destruct IHc as [Hc Hp Hres]. destruct (Hp _ _ Hpass) as [[Hi _ _ _] Hl]. assert (yields input o) as Hyo by (apply Hy, elem_of_app; right; by apply list_elem_of_singleton).
  rewrite length_app, map_app, IHm. cbn. rewrite Nat.add_1_r, seq_S, map_app. cbn. rewrite Hi, Hl. split; [done|].
  apply answer_cursor with (p := p) (input := input) in H; [|split; [done|naive_solver|done]|done..]. rewrite Hi, Hl in H. cbn in H. by rewrite lane_at_next in H.
Qed.

(** ** Passes end *)

(** A step that reports progress reports an operation. *)
Definition progress_counts (o : outcome) : Prop :=
  ∀ r, o = Ok r → sp_retryNeeded r = false → sp_progressed r = true → 1 <= num_Z (sp_operations r).

(** The pass in flight with its steps answered one after the other. *)
Fixpoint answers (co : Coordinator) (l : list (outcome * Readings)) : Coordinator :=
  match l with [] => co | (o, rd) :: l => default co ((λ co, answers co l) <$> pass_answer co o rd) end.

Definition awaits_step (co : Coordinator) : Prop := ∃ p input, co_pass co = Some (awaiting_step p input).

Lemma absorb_decreases p input o p' : in_budget p input → progress_counts o →
  absorb p (step_result (ps_cursor p) o) = Ok (p', false) → 0 <= pass_measure p' < pass_measure p.
Proof.
  intros Hb Hc H. destruct (absorb_inv _ _ _ _ _ Hb H) as (_ & Ho & Hi & _). destruct Hb as [_ _ Hop Hid].
  destruct (Hi eq_refl) as [Hi' Ho']. unfold pass_measure in *. unfold absorb in H. ok_inv H.
  repeat (split_if; cbn in *); bsimp; cbn in *; try lia; destruct o as [r|e]; cbn in *; try done;
    specialize (Hc r eq_refl ltac:(done) ltac:(done)); lia.
Qed.

(** C36: A pass ends: when progress is counted as an operation, at most 325 answers
    (five lanes for each of the 64 operations and five more) bring every pass to its end,
    within its budget of 64 operations. *)
Theorem pass_ends h co l :
  runs h co → Forall (λ s, progress_counts s.1) l → (325 <= length l)%nat →
  ¬ awaits_step (answers co l) ∧
  ∀ r, co_pass (answers co l) = Some (returned r) → 0 <= pr_operations r <= GATEWAY_MAINTENANCE_MAX_OPERATIONS.
Proof.
  intros Hr Hl Hlen. destruct (runs_inv (λ _, True) h co) as [Hinv _]; [done..|]. clear Hr h.
  assert (∀ p input, co_pass co = Some (awaiting_step p input) → pass_measure p <= Z.of_nat (length l)) as Hm.
  { intros p input Hp. destruct Hinv as [_ H _]. destruct (H _ _ Hp) as [[_ _ Ho Hi] _]. unfold pass_measure, GATEWAY_MAINTENANCE_MAX_OPERATIONS. lia. }
  clear Hlen. revert co Hinv Hm. induction Hl as [|[o rd] l Ho Hl IH]; intros co Hinv Hm; cbn.
  - destruct Hinv as [_ Hp Hres]. split; [|done]. intros (p & input & Hpass). destruct (Hp _ _ Hpass) as [[_ _ Hop Hid] _].
    specialize (Hm _ _ Hpass). unfold pass_measure in Hm. cbn in Hm, Hid, Hop. lia.
  - destruct (pass_answer co o rd) as [co'|] eqn:E; cbn.
    2:{ destruct Hinv as [_ _ Hres]. split; [|done]. intros (p & input & Hpass). unfold pass_answer in E. by rewrite Hpass in E. }
    unfold pass_answer in E. destruct (co_pass co) as [[p input|r|e]|] eqn:Hpass; try done.
    pose proof (pass_inv_answer (λ _, True) co p input o rd co' Hinv Hpass) as Hinv'. unfold pass_answer in Hinv'. rewrite Hpass in Hinv'.
    specialize (Hinv' E (or_intror I)). apply IH; [done|]. intros p' input' Hp'.
    destruct Hinv as [_ Hp _]. destruct (Hp _ _ Hpass) as [Hb _]. injection E as <-.
    specialize (Hm _ _ eq_refl). cbn in Hm.
    destruct (absorb p _) as [[q b]|e] eqn:Ea; [|done]. destruct b; [done|]. cbn in Hp'. injection Hp' as Hp'.
    destruct (absorb_inv _ _ _ _ _ Hb Ea) as (_ & Hoq & Hiq & _).
    pose proof (turn_inv (co_state co) rd q Hoq (proj1 (Hiq eq_refl))) as Ht. rewrite Hp' in Ht. destruct Ht as [-> _].
    pose proof (absorb_decreases _ _ _ _ Hb Ho Ea). lia.
Qed.

(** ** The sessions that are maintained *)

(** The steps are those of the session repository, each in some environment of [W]. *)
Definition repository_steps (W : environment call answer → Prop) (s : StepInput * outcome) (calls : list (event call answer)) : Prop :=
  ∃ w, W w ∧ run w (runMaintenanceStep s.1) [] = (calls, s.2).

(** A transaction on a session of a tenant. *)
Definition transacts (tenantId rsid : jstr) (e : event call answer) : Prop :=
  ∃ o now n a, e = Event (m_transact tenantId rsid o now n) a.

(** The first tenant of the inventory is always [t]. *)
Definition first_tenant (t : jstr) (w : environment call answer) : Prop :=
  ∀ h n, ∃ ts, w h (m_tenants n) = Ok (store_ok (t :: ts)).

(** Also, its first session is always [k], whose transactions report no progress. *)
Record idle_session (t k : jstr) (w : environment call answer) : Prop := {
  is_tenant : first_tenant t w;
  is_session : ∀ h namespace n, ∃ ks, w h (m_keys t namespace n) = Ok (store_ok (k :: ks));
  is_idle : ∀ h o now n p, w h (m_transact t k o now n) = Ok (store_ok p) → pc_progressed p = false ∨ pc_retryNeeded p = true }.

(** A step that makes no transaction. *)
Ltac idle Hcons Hnil := left; split; [repeat (apply Hcons; [by intros ?? (?&?&?&?&?)|]); exact Hnil|].

(** The outcomes of a step, by what the environment answers. *)
Lemma step_cases w input calls o :
  run w (runMaintenanceStep input) [] = (calls, o) →
  (∀ e, e ∈ calls → ∀ t k, ¬ transacts t k e) ∧
    ((∃ e, o = Throw e) ∨ ∃ r, o = Ok r ∧ sp_progressed r = false ∧ cu_lane (sp_cursor r) = cu_lane (si_cursor input) ∧ sp_operations r = JInt 0) ∨
  ∃ h1 h2 h3 h4 tenants keys t k owner now,
    cu_lane (si_cursor input) = session_retention ∧
    w h1 (m_tenants 1024) = Ok (store_ok tenants) ∧ find_first (from_tenant (cu_tenantAfter (si_cursor input))) tenants = Some t ∧
    w h2 (m_keys t GATEWAY_RBP_SESSION_CUTOVER_V3_NAMESPACE 1024) = Ok (store_ok keys) ∧
    find_first (after_key (cu_keyAfter (si_cursor input))) keys = Some k ∧
    let a := w h3 (m_transact t k owner now (si_remainingOperations input)) in
    calls = Event (m_transact t k owner now (si_remainingOperations input)) a :: h4 ∧
    (∀ e, e ∈ h4 → ∀ t k, ¬ transacts t k e) ∧
    match a with
    | Throw e => o = Throw e
    | Ok (store_refused _ _) => o = Ok (step_of 0 (cursor_at (si_cursor input) (Some t) (Some k)) false true)
    | Ok (store_ok p) => o = Ok (step_of (Z.min (pc_operations p) (si_remainingOperations input))
                               (cursor_at (si_cursor input) (Some t) (Some k)) (pc_progressed p) (pc_retryNeeded p))
    end.
Proof.
  assert (∀ e l, (∀ t k, ¬ transacts t k e) → (∀ e, e ∈ l → ∀ t k, ¬ transacts t k e) → ∀ e', e' ∈ e :: l → ∀ t k, ¬ transacts t k e') as Hcons.
  { intros e l He Hl e' [->|?]%elem_of_cons; eauto. }
  assert (∀ e, e ∈ [] → ∀ t k, ¬ transacts t k e) as Hnil by by intros e ?%not_elem_of_nil.
  unfold runMaintenanceStep. case_bool_decide as Hlane; cbn -[run]; [|intros [= <- <-]; idle Hcons Hnil; right; eauto 8].
  cbn. destruct (w _ m_owner) as [owner|]; cbn; [|intros [= <- <-]; idle Hcons Hnil; right; eauto 8].
  split_if; [intros [= <- <-]; idle Hcons Hnil; right; eauto 8|]. cbn.
  set (h1 := [_; _]). destruct (w h1 (m_tenants 1024)) as [[tenants|]|] eqn:Ht; cbn; try (intros [= <- <-]; idle Hcons Hnil; left; eauto; fail).
  destruct (find_first (from_tenant _) tenants) as [t|] eqn:Hft; cbn; [|intros [= <- <-]; idle Hcons Hnil; right; eauto 8].
  set (h2 := Event (m_tenants 1024) _ :: h1). destruct (w h2 (m_keys t _ 1024)) as [[keys|]|] eqn:Hk; cbn;
    try (intros [= <- <-]; idle Hcons Hnil; left; eauto; fail).
  destruct (find_first (after_key _) keys) as [k|] eqn:Hfk; cbn; [|intros [= <- <-]; idle Hcons Hnil; right; eauto 8].
  intros [= <- <-]. right. do 4 eexists. exists tenants, keys, t, k. do 2 eexists. do 6 (split; [eassumption || done|]).
  split; [repeat (apply Hcons; [by intros ?? (?&?&?&?&?)|]); exact Hnil|].
  cbn. by match goal with |- match ?x with _ => _ end => destruct x as [[]|] end.
Qed.

Lemma idle_next cursor o :
  ((∃ e, o = Throw e) ∨ ∃ r, o = Ok r ∧ (sp_progressed r = false ∨ sp_retryNeeded r = true)) →
  ∃ lane, next_cursor cursor o = lane_start lane.
Proof.
  intros [[e ->]|(r & -> & H)]; unfold next_cursor; cbn; [eauto|]. destruct H as [->| ->]; [destruct (sp_retryNeeded r)|]; eauto.
Qed.

(** A property of cursors that every step keeps, and what it says of the step's calls. *)
Lemma repository_runs (P : GatewayMaintenanceCursor → Prop) (Q : event call answer → Prop) W h co calls :
  (∀ lane, P (lane_start lane)) →
  (∀ s l, repository_steps W s l → P (si_cursor s.1) → P (next_cursor (si_cursor s.1) s.2) ∧ ∀ e, e ∈ l → Q e) →
  runs h co → Forall2 (repository_steps W) h calls → ∀ l e, l ∈ calls → e ∈ l → Q e.
Proof.
  intros Hstart Hstep Hr Hcalls. destruct (runs_inv P h co) as [_ HP]; [apply Hstart| |done|].
  - intros input o [i Hi]%list_elem_of_lookup_1 Hinp. destruct (Forall2_lookup_l _ _ _ _ _ Hcalls Hi) as (l & _ & Hs).
    by apply (Hstep _ _ Hs).
  - intros l e [i Hi]%list_elem_of_lookup_1 He. destruct (Forall2_lookup_r _ _ _ _ _ Hcalls Hi) as ([input o] & Hin & Hs).
    eapply (Hstep _ _ Hs); [|done]. cbn. eapply HP. by eapply list_elem_of_lookup_2.
Qed.

(** Only one tenant is maintained: as long as the inventory of tenants starts with
    [t], no transaction of any pass is on a session of another tenant, however many
    passes are run and whatever the sessions of [t] need. *)
Theorem later_tenants_unmaintained t h co calls :
  runs h co → Forall2 (repository_steps (first_tenant t)) h calls →
  ∀ l e t' k, l ∈ calls → e ∈ l → transacts t' k e → t' = t.
Proof.
  intros Hr Hcalls l e t' k Hl He. revert t' k.
  apply (repository_runs (λ c, cu_tenantAfter c = None ∨ cu_tenantAfter c = Some t) (λ e, ∀ t' k, transacts t' k e → t' = t)
           (first_tenant t) h co calls) with (l := l); [by left| |done..].
  clear. intros [input o] l (w & Hw & Hrun) HP. cbn in *.
  destruct (step_cases _ _ _ _ Hrun) as [[Hno Ho]|(h1&h2&h3&h4&tenants&keys&t0&k0&owner&now&Hlane&Ht&Hft&Hk&Hfk&Hc&Hno&Ho)].
  - split; [|intros e He t' k H; by destruct (Hno _ He t' k)]. destruct (idle_next (si_cursor input) o) as [lane ->]; [naive_solver|by left].
  - assert (t0 = t) as ->.
    { destruct (Hw h1 1024) as [ts Hts]. rewrite Ht in Hts. injection Hts as ->. cbn in Hft.
      assert (from_tenant (cu_tenantAfter (si_cursor input)) t = true) as E.
      { destruct HP as [-> | ->]; cbn; [done|]. unfold str_leb. by rewrite str_ltb_irrefl. }
      rewrite E in Hft. by injection Hft. }
    rewrite Hc. split.
    + destruct (w h3 _) as [[p|]|] eqn:Ew; rewrite Ho; unfold next_cursor; cbn; [|by left..]. repeat split_if; cbn; auto.
    + intros e [->|He]%elem_of_cons t' k; [by intros (?&?&?&?&[=])|]. intros H. by destruct (Hno _ He t' k).
Qed.

(** A session that makes no progress ends the lane: as long as the first session of the
    first tenant is [k] and its transactions report no progress, no transaction of any
    pass is on another session. *)
Lemma idle_session_ends_retention t k h co calls :
  runs h co → Forall2 (repository_steps (idle_session t k)) h calls →
  ∀ l e t' k', l ∈ calls → e ∈ l → transacts t' k' e → t' = t ∧ k' = k.
Proof.
  intros Hr Hcalls l e t' k' Hl He. revert t' k'.
  apply (repository_runs (λ c, ∃ lane, c = lane_start lane) (λ e, ∀ t' k', transacts t' k' e → t' = t ∧ k' = k)
           (idle_session t k) h co calls) with (l := l); [eauto| |done..].
  clear. intros [input o] l (w & [Hw1 Hw2 Hw3] & Hrun) [lane HP]. cbn in *.
  destruct (step_cases _ _ _ _ Hrun) as [[Hno Ho]|(h1&h2&h3&h4&tenants&keys&t0&k0&owner&now&Hlane&Ht&Hft&Hk&Hfk&Hc&Hno&Ho)].
  - split; [|intros e He t' k' H; by destruct (Hno _ He t' k')]. apply idle_next; naive_solver.
  - rewrite HP in Hft, Hfk. destruct (Hw1 h1 1024) as [ts Hts]. rewrite Ht in Hts. injection Hts as ->. injection Hft as <-.
    destruct (Hw2 h2 GATEWAY_RBP_SESSION_CUTOVER_V3_NAMESPACE 1024) as [ks Hks]. rewrite Hk in Hks. injection Hks as ->. injection Hfk as <-.
    rewrite Hc. split.
    + apply idle_next. destruct (w h3 _) as [[p|]|] eqn:Ew; [|naive_solver..]. right. eexists. split; [exact Ho|]. by eapply Hw3.
    + intros e [->|He]%elem_of_cons t' k'; [by intros (?&?&?&?&[=])|]. intros H. by destruct (Hno _ He t' k').
Qed.

(** ** A coordinator at work *)

(** The next [n] steps of the pass in flight, each run in [w]. *)
Fixpoint drive (w : environment call answer) (rd : Readings) (n : nat) (co : Coordinator)
    : list (StepInput * outcome) * list (list (event call answer)) * Coordinator :=
  match n, co_pass co with
  | S n, Some (awaiting_step _ input) =>
      let done := run w (runMaintenanceStep input) [] in
      match pass_answer co done.2 rd with
      | Some co' => let '(l, calls, last) := drive w rd n co' in ((input, done.2) :: l, done.1 :: calls, last)
      | None => ([], [], co)
      end
  | _, _ => ([], [], co)
  end.

Lemma drive_runs w rd n co h : runs h co →
  runs (h ++ (drive w rd n co).1.1) (drive w rd n co).2 ∧ Forall2 (repository_steps (eq w)) (drive w rd n co).1.1 (drive w rd n co).1.2.
Proof.
  revert co h. induction n as [|n IH]; intros co h Hr; cbn; [by rewrite app_nil_r|].
  destruct (co_pass co) as [[p input|r|e]|] eqn:E; cbn; try (by rewrite app_nil_r).
  destruct (pass_answer co _ rd) as [co'|] eqn:Ea; cbn; [|by rewrite app_nil_r].
  destruct (IH co' (h ++ [(input, (run w (runMaintenanceStep input) []).2)])) as [IH1 IH2].
  { eapply runs_step; [done|]. by eapply adv_answer. }
  destruct (drive w rd n co') as [[l calls] last]; cbn in *. rewrite <- app_assoc in IH1. split; [done|].
  constructor; [|done]. exists w. split; [done|]. by destruct (run w _ []).
Qed.

Definition quiet : Readings := {| rd_isCurrent := true; rd_now := 0; rd_end := 0 |}.

(** A coordinator that was started, with a pass in flight. *)
Definition at_work : Coordinator :=
  (runNow (schedule (set_co newCoordinator running false false [])) 0 quiet).1.

Lemma at_work_runs : runs [] at_work.
Proof.
  apply (runs_step [] (schedule (set_co newCoordinator running false false [])) []); [|apply adv_run_now].
  apply (runs_step [] newCoordinator []); [constructor|]. by apply (adv_start _ true).
Qed.

(** Two tenants with two sessions each, of which none makes progress; [fails]: the
    inventory of tenants is not available. *)
Definition two_tenants (fails : bool) : environment call answer := λ _ c,
  match c as c return answer c with
  | m_owner => Some {| ow_identity := js "owner"; ow_epoch := 1 |}
  | m_clock => 0
  | m_tenants _ => if fails then Ok (store_refused unavailable (js "down")) else Ok (store_ok [js "a"; js "b"])
  | m_keys _ _ _ => Ok (store_ok [js "k"; js "l"])
  | m_transact _ _ _ _ _ => Ok (store_ok {| pc_operations := 0; pc_progressed := false; pc_retryNeeded := false |})
  end.

(** The five steps of a pass. *)
Definition five_steps (fails : bool) := drive (two_tenants fails) quiet 5 at_work.

Lemma all_steps (P : StepInput → outcome → Prop) h : Forall (λ s, P s.1 s.2) h → ∀ input o, (input, o) ∈ h → P input o.
Proof. intros H input o Hin. rewrite Forall_forall in H. exact (H _ Hin). Qed.

Lemma throwing_lane_starves_next_witness :
  runs (five_steps true).1.1 (five_steps true).2 ∧
  map (λ s, cu_lane (si_cursor s.1)) (five_steps true).1.1 =
    [session_retention; resource_receipts; recovery_carriers; protected_key_inventory; session_retention] ∧
  ∀ input o, (input, o) ∈ (five_steps true).1.1 → cu_lane (si_cursor input) ≠ session_migration_cleanup.
Proof.
  destruct (drive_runs (two_tenants true) quiet 5 at_work [] at_work_runs) as [Hr _].
  split; [exact Hr|]. split; [vm_compute; reflexivity|].
  apply (throwing_lane_starves_next _ _ Hr), all_steps. vm_compute. repeat constructor; eauto.
Defined.

Lemma lanes_take_turns_witness :
  map (λ s, cu_lane (si_cursor s.1)) (five_steps false).1.1 = ORDERED_LANES ∧ co_cursor (five_steps false).2 = initialCursor.
Proof.
  destruct (drive_runs (two_tenants false) quiet 5 at_work [] at_work_runs) as [Hr _].
  apply (lanes_take_turns _ _ Hr), all_steps. vm_compute. repeat constructor; eexists; repeat split; auto.
Defined.

(** A step that reports one operation. *)
Definition one_operation : outcome := Ok (step_of 1 initialCursor true false).

Lemma pass_ends_witness :
  awaits_step at_work ∧ ∃ r, co_pass (answers at_work (replicate 325 (one_operation, quiet))) = Some (returned r) ∧ 0 <= pr_operations r <= 64.
Proof.
  split; [vm_compute; eauto|]. eexists. split; [vm_compute; reflexivity|].
  apply (pass_ends [] at_work (replicate 325 (one_operation, quiet)) at_work_runs); [|rewrite length_replicate; lia|vm_compute; reflexivity].
  apply Forall_replicate. intros r [= <-] _ _. done.
Defined.

Lemma later_tenants_unmaintained_witness :
  ∀ l e t' k, l ∈ (five_steps false).1.2 → e ∈ l → transacts t' k e → t' = js "a".
Proof.
  destruct (drive_runs (two_tenants false) quiet 5 at_work [] at_work_runs) as [Hr Hc].
  apply (later_tenants_unmaintained (js "a") _ _ _ Hr). eapply Forall2_impl; [exact Hc|].
  intros s l (w & <- & H). eexists. split; [|exact H]. by eexists.
Defined.

End MaintenanceFacts.
