(* ===== verification/RetentionStep.v ===== *)
(** The maintenance of one session: the transaction of [runMaintenanceStep] in
    packages/gateway/src/bridgeSession.ts, on the operations of [Retention].

    [read] and [list] are the reads of the transaction.  [loadSession] stands for the
    repository's reading of a whole session ([#loadV3], [parseStoredSession] and the
    fence and index of the record), with the facts the step takes from it. *)

From S2P Require Import Prelude JsString JsValue JsMap Canonical JsonText ProtocolStore Discovery Effects HistoryTree Retention Maintenance.

Module RetentionStep.
Import Canonical JsonText HistoryTree Retention.
Import Discovery(includes).
Import Maintenance(Processed, Build_Processed, pc_operations, pc_progressed, pc_retryNeeded).
Import ProtocolStore(StoredRecord, sr_namespace, sr_tenantId, sr_key, sr_value, sr_version, StoreWrite).

Definition GATEWAY_MUTATION_HOLD_NAMESPACE : jstr := js "gateway.mutation-hold/v1".
Definition GATEWAY_MUTATION_CONFLICT_NAMESPACE : jstr := js "gateway.mutation-conflict/v1".
Definition GATEWAY_SESSION_MIGRATION_V3_NAMESPACE : jstr := js "gateway.rbp-session-migration/v3".
Definition GATEWAY_RBP_SESSION_MIGRATION_NAMESPACE : jstr := js "gateway.rbp-session-migration/v1".
Definition GATEWAY_RBP_UNREGISTER_NAMESPACE : jstr := js "gateway.rbp-unregister/v1".

Definition dependency_namespaces : list jstr := [
  GATEWAY_MUTATION_HOLD_NAMESPACE; GATEWAY_MUTATION_CONFLICT_NAMESPACE; js "gateway.mutation-resolution/v1"; js "gateway.hold-cutover/v1";
  js "gateway.resource-receipt/v1"; js "gateway.recovery-carrier/v1"; js "gateway.recovery-chunk/v1"; js "gateway.recovery-completion/v1";
  js "gateway.omitted-payload-recovery/v1"; js "gateway.omitted-payload-recovery-invocation/v1"; js "gateway.protected-object-intent/v1";
  js "gateway.recovery-authority/v1"; GATEWAY_SESSION_MIGRATION_V3_NAMESPACE; GATEWAY_RBP_SESSION_MIGRATION_NAMESPACE].

(** The states of a dependency that do not keep a session. *)
Definition safeDependencyStates : list jstr := [
  js "cleared"; js "complete"; js "deleted"; js "closed"; js "retired"; js "source_retired"; js "normalized_authoritative"; js "deny_pinned"].

(** What the step takes from the record of a session; [sf_pending]: the number of
    journal records of the dispatch that is pending. *)
Record SessionFacts := {
  sf_sessionBindingId : jstr; sf_sessionVersion : Z; sf_phase : jstr; sf_dispatchAllowed : bool; sf_resumeAllowed : bool;
  sf_resumeExpiresAtMs : jsnum; sf_updatedAtMs : jsnum; sf_pending : option Z; sf_fenceOpen : bool; sf_leaseHeld : bool;
  sf_indexComplete : bool }.

(** What the step asks of other objects: the owners that may be absent, the answers of
    the private objects, the scan of what is left ([None]: refused), and fresh identifiers. *)
Record StepPort := {
  sp_serving : bool; sp_objects : option PrivateObjects; sp_scanOwned : option Z; sp_closureId : jstr; sp_token : jstr }.

Section step.
Context `{Hasher}.
Context (localeCompare : jstr → jstr → Z) (read : jstr → jstr → option StoredRecord) (list_rows : jstr → list StoredRecord).
Context (loadSession : Authoritative → result halt SessionFacts).

(** ** The inventory of dependencies *)

(** [None]: the row is not the session's; [Some None]: it is malformed. *)
Definition dependency_row (tenantId rsid namespace : jstr) (row : StoredRecord) : result js_error (option (option SessionRetentionDependencyRef)) :=
  if (sr_key row !== rsid) && negb (starts_with (rsid ++ js "/") (sr_key row)) && negb (includes rsid (json_stringify (sr_value row)))
  then Ok None else
  if (sr_tenantId row !== tenantId) || (sr_version row <? 1) || negb (isSafeInteger (JInt (sr_version row))) || negb (isRecord (sr_value row))
  then Ok (Some None) else
  let rawState := match member (sr_value row) "state" with
                  | VStr s => Some s
                  | _ => if (namespace === GATEWAY_MUTATION_CONFLICT_NAMESPACE) && strict_eq (member (sr_value row) "active") (VBool false)
                         then Some (js "cleared")
                         else if (namespace === GATEWAY_MUTATION_CONFLICT_NAMESPACE) && strict_eq (member (sr_value row) "active") (VBool true)
                         then Some (js "active") else None
                  end in
  let state := if namespace === GATEWAY_RBP_SESSION_MIGRATION_NAMESPACE then js "deny_pinned" else nullish rawState (js "unknown") in
  digest ← sessionCanonicalDigest (sr_value row);
  Ok (Some (Some {| dr_role := namespace; dr_namespace := namespace; dr_key := sr_key row; dr_version := sr_version row; dr_digest := digest;
                    dr_state := state |})).

Fixpoint repeated_ref (refs : list SessionRetentionDependencyRef) : bool :=
  match refs with
  | a :: (b :: _) as rest =>
      ((dr_role b === dr_role a) && (dr_namespace b === dr_namespace a) && (dr_key b === dr_key a)) || repeated_ref rest
  | _ => false
  end.

(** The references, in order, and whether the inventory is valid. *)
Definition retentionDependencyInventory (tenantId rsid : jstr) : result js_error (list SessionRetentionDependencyRef * bool) :=
  rows ← map_result (λ namespace, map_result (dependency_row tenantId rsid namespace) (list_rows namespace)) dependency_namespaces;
  let found := omap id (concat rows) in
  let refs := sort_by (dependency_leb localeCompare) (omap id found) in
  Ok (refs, forallb (λ o, negb (is_null o)) found && negb (repeated_ref refs)).

Definition retentionUnregisterRef (stored : option StoredRecord) (tenantId rsid : jstr) : result js_error (option SessionRetentionDependencyRef) :=
  match stored with
  | None => Ok None
  | Some stored =>
      let value := sr_value stored in
      if negb (isRecord value) || negb (is_str (member value "schema") GATEWAY_RBP_UNREGISTER_NAMESPACE) ||
         negb (is_str (member value "tenantId") tenantId) || negb (is_str (member value "rsid") rsid) || (sr_key stored !== rsid) ||
         (sr_version stored <? 1)
      then Ok None else
      digest ← sessionCanonicalDigest value;
      Ok (Some {| dr_role := js "unregister"; dr_namespace := sr_namespace stored; dr_key := sr_key stored; dr_version := sr_version stored;
                  dr_digest := digest; dr_state := js "complete" |})
  end.

(** ** The private objects of a session *)

Definition is_string (v : jsval) : bool := match v with VStr _ => true | _ => false end.

(** [None]: not the session's; [Some None]: not fit to be retired. *)
Definition object_row (tenantId rsid : jstr) (row : StoredRecord) : result js_error (option (option SessionRetentionObjectIntentRef)) :=
  let value := sr_value row in
  if negb (isRecord value) || negb (is_str (member value "rsid") rsid) then Ok None else
  let binding := member value "binding" in
  if negb (is_str (member value "schema") GATEWAY_SESSION_BLOB_INTENT_NAMESPACE) || negb (is_str (member value "tenantId") tenantId) ||
     negb (is_str (member value "state") (js "active")) || negb (is_string (member value "ownerIdentity")) ||
     negb (match member value "ownerEpoch" with VNum n => isSafeInteger n && (0 <? num_Z n) | _ => false end) || negb (isRecord binding) ||
     negb (is_str (member binding "tenantId") tenantId) || negb (is_str (member binding "rsid") rsid)
  then Ok (Some None) else
  digest ← sessionCanonicalDigest value;
  Ok (Some (Some {| oi_key := sr_key row; oi_version := sr_version row; oi_digest := digest; oi_ownerIdentity := str_of (member value "ownerIdentity");
                    oi_ownerEpoch := int_of (member value "ownerEpoch"); oi_binding := binding |})).

Definition private_inventory (tenantId rsid : jstr) : result js_error (list SessionRetentionObjectIntentRef * bool) :=
  rows ← map_result (object_row tenantId rsid) (list_rows GATEWAY_SESSION_BLOB_INTENT_NAMESPACE);
  let found := omap id rows in
  Ok (sort_by (λ left right, localeCompare (oi_key left) (oi_key right) <=? 0) (omap id found), forallb (λ o, negb (is_null o)) found).

(** ** The candidate *)

Definition is_safe_state (d : SessionRetentionDependencyRef) : bool := bool_decide (dr_state d ∈ safeDependencyStates).

Definition retention_candidate (tenantId rsid : jstr) (current : Authoritative) (facts : SessionFacts) (pageRefs : list SessionHistoryPageRef)
    (tombstone : option StoredRecord) (unregisterRef : option SessionRetentionDependencyRef)
    (dependencies : list SessionRetentionDependencyRef * bool) (objects : list SessionRetentionObjectIntentRef * bool) : SessionRetentionCandidate :=
  let activeDependencies := List.filter (λ d, negb (is_safe_state d)) dependencies.1 in
  {| ca_tenantId := tenantId; ca_rsid := rsid; ca_sessionBindingId := sf_sessionBindingId facts; ca_sessionBindingVersion := sf_sessionVersion facts;
     ca_lifecyclePhase := sf_phase facts; ca_dispatchAllowed := sf_dispatchAllowed facts; ca_resumable := sf_resumeAllowed facts;
     ca_resumeExpiresAtMs := sf_resumeExpiresAtMs facts; ca_retirementAnchorMs := sf_updatedAtMs facts; ca_lastObservedNowMs := sf_updatedAtMs facts;
     ca_producerState := if is_null (sf_pending facts) && objects.2 then settled else if is_null (sf_pending facts) then unknown_state else active;
     ca_pendingDispatch := negb (is_null (sf_pending facts)); ca_unfinishedBatch := 1 <? nullish (sf_pending facts) 0;
     ca_activeEgressLease := negb (sf_fenceOpen facts) || sf_leaseHeld facts;
     ca_unresolvedHold := existsb (λ d, (dr_namespace d === GATEWAY_MUTATION_HOLD_NAMESPACE) || (dr_namespace d === GATEWAY_MUTATION_CONFLICT_NAMESPACE)) activeDependencies;
     ca_c39Dependency := existsb (λ d, includes (js "recovery") (dr_namespace d) || includes (js "protected") (dr_namespace d)) activeDependencies;
     ca_migrationDependency := existsb (λ d, (dr_namespace d === GATEWAY_SESSION_MIGRATION_V3_NAMESPACE) || (dr_namespace d === GATEWAY_RBP_SESSION_MIGRATION_NAMESPACE)) activeDependencies;
     ca_indicesComplete := sf_indexComplete facts;
     ca_dependencyInventoryComplete := objects.2 && dependencies.2 && (is_null tombstone || negb (is_null unregisterRef));
     ca_unregisterRef := unregisterRef; ca_dependencyRefs := dependencies.1; ca_treeRoots := rt_trees (au_value current);
     ca_privateObjects := objects.1; ca_plannedEntries := foldl (λ sum tree, sum + tr_entryCount tree) 0 (rt_trees (au_value current));
     ca_plannedRecords := Z.of_nat (length pageRefs) + Z.of_nat (length objects.1); ca_plannedObjects := Z.of_nat (length objects.1) |}.

(** The candidate a closure froze. *)
Definition frozen_candidate (tenantId rsid : jstr) (closure : SessionRetentionClosureV1) (unregisterRef : option SessionRetentionDependencyRef)
    (dependencies : list SessionRetentionDependencyRef * bool) : SessionRetentionCandidate :=
  let frozen := sc_frozenAuthority closure in
  {| ca_tenantId := tenantId; ca_rsid := rsid; ca_sessionBindingId := fa_sessionBindingId frozen; ca_sessionBindingVersion := fa_sessionBindingVersion frozen;
     ca_lifecyclePhase := fa_lifecyclePhase frozen; ca_dispatchAllowed := fa_dispatchAllowed frozen; ca_resumable := fa_resumable frozen;
     ca_resumeExpiresAtMs := JInt (fa_resumeExpiresAtMs frozen); ca_retirementAnchorMs := JInt (fa_retirementAnchorMs frozen);
     ca_lastObservedNowMs := JInt (fa_lastObservedNowMs frozen); ca_producerState := settled; ca_pendingDispatch := false; ca_unfinishedBatch := false;
     ca_activeEgressLease := false; ca_unresolvedHold := false; ca_c39Dependency := false; ca_migrationDependency := false;
     ca_indicesComplete := true; ca_dependencyInventoryComplete := dependencies.2; ca_unregisterRef := unregisterRef;
     ca_dependencyRefs := dependencies.1; ca_treeRoots := sc_roots closure; ca_privateObjects := sc_objectIntents closure;
     ca_plannedEntries := ct_plannedEntries (sc_counts closure); ca_plannedRecords := ct_plannedRecords (sc_counts closure);
     ca_plannedObjects := ct_plannedObjects (sc_counts closure) |}.

(** ** The transaction *)

Definition outcome_of (operations : Z) (progressed retryNeeded : bool) (writes : list StoreWrite) : result halt (Processed * list StoreWrite) :=
  Ok ({| pc_operations := operations; pc_progressed := progressed; pc_retryNeeded := retryNeeded |}, writes).

Definition record_ref (stored : StoredRecord) : result halt jsval :=
  digest ← lifted (sessionCanonicalDigest (sr_value stored));
  Ok (obj [(js "namespace", VStr (sr_namespace stored)); (js "key", VStr (sr_key stored)); (js "version", int (sr_version stored));
           (js "digest", VStr digest)]).

Definition deps_value (refs : list SessionRetentionDependencyRef) : jsval := VArr (map dependency_value refs).

(** No closure yet: the session is evaluated and claimed. *)
Definition claim_step (fuel : nat) (tenantId rsid : jstr) (owner : SessionRetentionOwner) (nowMs : Z) (port : StepPort) (current : Authoritative)
    : result halt (Processed * list StoreWrite) :=
  facts ← loadSession current;
  pageRefs ← listCapturedPageRefs localeCompare read fuel tenantId rsid (rt_trees (au_value current));
  let tombstone := read GATEWAY_RBP_UNREGISTER_NAMESPACE rsid in
  dependencies ← lifted (retentionDependencyInventory tenantId rsid);
  objects ← lifted (private_inventory tenantId rsid);
  unregisterRef ← lifted (retentionUnregisterRef tombstone tenantId rsid);
  let candidate := retention_candidate tenantId rsid current facts pageRefs tombstone unregisterRef dependencies objects in
  decision ← lifted (evaluateSessionRetention localeCompare candidate
    {| ev_nowMs := JInt nowMs; ev_retentionMs := Some (JInt DEFAULT_SESSION_RETENTION_MS); ev_eligibilityCutoffMs := None |});
  match decision with
  | retained _ => outcome_of 0 false false []
  | eligible decision =>
      rootRef ← record_ref (au_root current);
      markerRef ← record_ref (au_marker current);
      claim ← lifted (createSessionRetentionClosure localeCompare {|
        ci_candidate := candidate; ci_decision := decision; ci_owner := owner; ci_preClaimRootRef := rootRef; ci_preClaimMarkerRef := markerRef;
        ci_closureId := sp_closureId port; ci_claimToken := sp_token port; ci_claimExpiresAtMs := nowMs + 30000 |});
      claimed ← claimRetention localeCompare read tenantId rsid claim nowMs;
      outcome_of 2 true false claimed.2
  end.

(** Another process has the claim. *)
Definition takeover_step (tenantId rsid : jstr) (owner : SessionRetentionOwner) (nowMs : Z) (port : StepPort) (closure : SessionRetentionClosureV1)
    : result halt (Processed * list StoreWrite) :=
  if nowMs <? cl_expiresAtMs (sc_claim closure) then outcome_of 0 false true [] else
  taken ← lifted (takeOverSessionRetentionClaim closure {|
    tk_owner := owner; tk_nowMs := nowMs; tk_oldOwnerInactive := true; tk_claimExpiresAtMs := nowMs + 30000; tk_token := sp_token port |});
  updated ← updateRetentionClaim read tenantId rsid taken nowMs;
  outcome_of 2 true false updated.2.

Definition deleting_step (fuel : nat) (tenantId rsid : jstr) (owner : SessionRetentionOwner) (nowMs remainingOperations : Z) (port : StepPort)
    (closure : SessionRetentionClosureV1) : result halt (Processed * list StoreWrite) :=
  if remainingOperations <? 3 then outcome_of 0 false false [] else
  if negb (sp_serving port) || is_null (sp_objects port) then outcome_of 0 false true [] else
  deleted ← deleteRetentionPageBatch localeCompare read fuel {|
    bt_tenantId := tenantId; bt_rsid := rsid; bt_claimToken := cl_token (sc_claim closure); bt_owner := owner; bt_updatedAtMs := nowMs;
    bt_maxOperations := JInt remainingOperations; bt_objects := sp_objects port |};
  outcome_of (br_operations deleted) true false (br_writes deleted).

(** The closure says that nothing is left: it is checked once more, and the root retired. *)
Definition proving_step (tenantId rsid : jstr) (nowMs : Z) (port : StepPort) (current : Authoritative) (closure : SessionRetentionClosureV1)
    : result halt (Processed * list StoreWrite) :=
  if existsb (λ row, starts_with (rsid ++ js "/") (sr_key row)) (list_rows GATEWAY_SESSION_HISTORY_PAGE_NAMESPACE) then outcome_of 0 false true [] else
  if existsb (λ row, isRecord (sr_value row) && is_str (member (sr_value row) "rsid") rsid) (list_rows GATEWAY_SESSION_BLOB_INTENT_NAMESPACE)
  then outcome_of 0 false true [] else
  if is_null (sp_objects port) || (sp_scanOwned port !== Some 0) then outcome_of 0 false true [] else
  dependencies ← lifted (retentionDependencyInventory tenantId rsid);
  let tombstone := read GATEWAY_RBP_UNREGISTER_NAMESPACE rsid in
  unregisterRef ← lifted (retentionUnregisterRef tombstone tenantId rsid);
  if negb dependencies.2 || negb (root_matches_frozen (au_value current) (sc_frozenAuthority closure)) ||
     (negb (is_null tombstone) && is_null unregisterRef) ||
     (json_stringify (opt_json dependency_value unregisterRef) !== json_stringify (opt_json dependency_value (sc_unregisterRef closure))) ||
     (json_stringify (deps_value dependencies.1) !== json_stringify (deps_value (sc_dependencyRefs closure)))
  then outcome_of 0 false true [] else
  decision ← lifted (evaluateSessionRetention localeCompare (frozen_candidate tenantId rsid closure unregisterRef dependencies)
    {| ev_nowMs := JInt nowMs; ev_retentionMs := Some (JInt DEFAULT_SESSION_RETENTION_MS);
       ev_eligibilityCutoffMs := Some (JInt (sc_eligibilityCutoffMs closure)) |});
  match decision with
  | retained _ => outcome_of 0 false true []
  | eligible decision =>
      if ed_dependencyClosureDigest decision !== sc_dependencyClosureDigest closure then outcome_of 0 false true [] else
      completion ← lifted (completeSessionRetention (au_value current) closure (ed_dependencyClosureDigest decision) nowMs
        (rt_migrationProof (au_value current)) (VArr (map ref_value (rt_antiDowngradeRefs (au_value current)))));
      retired ← finalizeRetiredRoot read {|
        fi_tenantId := tenantId; fi_rsid := rsid; fi_claimToken := cl_token (sc_claim closure); fi_completion := completion;
        fi_dependencyClosureDigest := ed_dependencyClosureDigest decision |};
      outcome_of 2 true false retired.2
  end.

Definition maintain_transaction (fuel : nat) (tenantId rsid : jstr) (owner : SessionRetentionOwner) (nowMs remainingOperations : Z) (port : StepPort)
    : result halt (Processed * list StoreWrite) :=
  found ← readAuthoritative read tenantId rsid;
  match found with
  | None => outcome_of 0 false true []
  | Some current =>
      match rt_retentionClosure (au_value current) with
      | None => claim_step fuel tenantId rsid owner nowMs port current
      | Some closure =>
          if (ow_identity (cl_owner (sc_claim closure)) !== ow_identity owner) || (ow_epoch (cl_owner (sc_claim closure)) !== ow_epoch owner)
          then takeover_step tenantId rsid owner nowMs port closure else
          match sc_state closure with
          | claimed | deleting => deleting_step fuel tenantId rsid owner nowMs remainingOperations port closure
          | proving_empty => proving_step tenantId rsid nowMs port current closure
          | completed => outcome_of 0 false false []
          end
      end
  end.

End step.
End RetentionStep.

Module RetentionStepFacts.
Import Canonical JsonText HistoryTree Retention RetentionFacts Maintenance MaintenanceFacts RetentionStep.
Import ProtocolStore(StoredRecord, StoreWrite, StoreOutcome, store_ok, store_refused).

(** A session that has nothing to maintain: it is retired, or not in a terminal phase. *)
Definition resting (loadSession : Authoritative → result halt SessionFacts) (read : jstr → jstr → option StoredRecord) `{Hasher} (t k : jstr) : Prop :=
  ∃ current, readAuthoritative read t k = Ok (Some current) ∧
    match rt_retentionClosure (au_value current) with
    | Some closure => sc_state closure = completed
    | None => ∃ facts, loadSession current = Ok facts ∧ terminal_phase (sf_phase facts) = false
    end.

Lemma live_is_retained `{Hasher} localeCompare candidate input d :
  terminal_phase (ca_lifecyclePhase candidate) = false → evaluateSessionRetention localeCompare candidate input = Ok d → ∃ reasons, d = retained reasons.
Proof.
  intros Ht He. unfold evaluateSessionRetention in He. do 3 (apply bind_ok in He as (? & _ & He)). unfold pin_reasons in He. rewrite Ht in He.
  cbn in He. injection He as <-. eauto.
Qed.

Section facts.
Context `{Hash : Hasher} (localeCompare : jstr → jstr → Z).

Lemma resting_idle read rows load fuel t k owner now n port p ws :
  resting load read t k → maintain_transaction localeCompare read rows load fuel t k owner now n port = Ok (p, ws) →
  pc_progressed p = false.
Proof.
  intros (current & Hr & Hc) Ho. unfold maintain_transaction in Ho. rewrite Hr in Ho. cbn [mbind result_bind] in Ho.
  destruct (rt_retentionClosure (au_value current)) as [closure|].
  - rewrite Hc in Ho. split_if; [|by injection Ho as <- <-]. unfold takeover_step, takeOverSessionRetentionClaim in Ho. rewrite Hc in Ho.
    split_if; [by injection Ho as <- <-|done].
  - destruct Hc as (facts & Hl & Hphase). unfold claim_step in Ho. rewrite Hl in Ho. cbn [mbind result_bind] in Ho. op_inv Ho.
    match goal with H : evaluateSessionRetention _ _ _ = Ok _ |- _ => apply live_is_retained in H as (reasons & ->); [|exact Hphase] end.
    by injection Ho as <- <-.
Qed.

(** What the repository answers to a transaction: refused, or its outcome. *)
Definition answered (r : result halt (Processed * list StoreWrite)) (a : result js_error (StoreOutcome Processed)) : Prop :=
  match a with Ok (store_ok p) => ∃ ws, r = Ok (p, ws) | _ => True end.

(** The first session of the first tenant is [k], and it rests whenever it is read. *)
Record resting_first (t k : jstr) (w : environment call answer) : Prop := {
  rf_tenant : first_tenant t w;
  rf_session : ∀ h namespace n, ∃ ks, w h (m_keys t namespace n) = Ok (store_ok (k :: ks));
  rf_rests : ∀ h owner now n, ∃ read rows load fuel port, resting load read t k ∧
    answered (maintain_transaction localeCompare read rows load fuel t k owner now n port) (w h (m_transact t k owner now n)) }.

(** C39: One resting session ends retention for all: while the first session of the first
    tenant is live or already retired, the maintenance of the gateway never opens a
    transaction on any other session, so none of them is ever retired. *)
Theorem resting_session_ends_retention t k h co calls :
  runs h co → Forall2 (repository_steps (resting_first t k)) h calls →
  ∀ l e t' k', l ∈ calls → e ∈ l → transacts t' k' e → t' = t ∧ k' = k.
Proof.
  intros Hr Hc. apply (idle_session_ends_retention t k h co calls Hr). eapply Forall2_impl; [exact Hc|].
  intros s l (w & [H1 H2 H3] & Hrun). exists w. split; [|done]. split; [done|done|].
  intros hh o now n p Hp. left. destruct (H3 hh o now n) as (read & rows & load & fuel & port & Hrest & Ha).
  rewrite Hp in Ha. destruct Ha as [ws Ha]. by eapply resting_idle.
Qed.

(** C16: The step accounts for its writes: a transaction that returns has staged as many
    writes as the operations it reports; it reports progress exactly when it staged any,
    and then at least two; more than two only within what the pass had left. *)
Theorem step_accounts_for_writes read rows load fuel t k owner now n port p ws :
  maintain_transaction localeCompare read rows load fuel t k owner now n port = Ok (p, ws) →
  pc_operations p = Z.of_nat (length ws) ∧ (pc_progressed p = true ↔ ws ≠ []) ∧ (pc_progressed p = true → 2 <= pc_operations p) ∧
  (pc_progressed p = true → pc_retryNeeded p = false) ∧ (pc_operations p <= 2 ∨ pc_operations p <= n).
Proof.
  assert (∀ b q, outcome_of 0 false b [] = Ok q → q = (p, ws) → pc_operations p = Z.of_nat (length ws) ∧ (pc_progressed p = true ↔ ws ≠ []) ∧
    (pc_progressed p = true → 2 <= pc_operations p) ∧ (pc_progressed p = true → pc_retryNeeded p = false) ∧ (pc_operations p <= 2 ∨ pc_operations p <= n)) as Hidle.
  { intros b q [= <-] [= <- <-]. cbn. repeat split; try done; lia. }
  assert (∀ l m q, length l = Z.to_nat m → 2 <= m → (m <= 2 ∨ m <= n) → outcome_of m true false l = Ok q → q = (p, ws) →
    pc_operations p = Z.of_nat (length ws) ∧ (pc_progressed p = true ↔ ws ≠ []) ∧
    (pc_progressed p = true → 2 <= pc_operations p) ∧ (pc_progressed p = true → pc_retryNeeded p = false) ∧ (pc_operations p <= 2 ∨ pc_operations p <= n)) as Hbusy.
  { intros l m q Hl Hm Hn [= <-] [= <- <-]. cbn. rewrite Hl. repeat split; try done; try lia. intros _ ->. cbn in Hl. lia. }
  assert (∀ current next now l, stageRootMarker current next now = Ok l → length l = 2%nat) as Htwo.
  { intros current next nw l Hs. by apply stage_root_writes in Hs as (? & ? & _ & _ & _ & ->). }
  intros Ho. unfold maintain_transaction in Ho. apply bind_ok in Ho as ([current|] & Hr & Ho); [|by eapply Hidle].
  destruct (rt_retentionClosure (au_value current)) as [closure|] eqn:Ec.
  - split_if.
    + unfold takeover_step in Ho. split_if; [by eapply Hidle|]. op_inv Ho. eapply (Hbusy _ 2); [|lia|lia|exact Ho|done].
      unfold updateRetentionClaim in Ha0. rewrite Hr in Ha0. cbn [mbind result_bind] in Ha0. rewrite Ec in Ha0. op_inv Ha0. injection Ha0 as <-. cbn. by eapply Htwo.
    + destruct (sc_state closure) eqn:Es.
      1,2: unfold deleting_step in Ho; repeat (split_if; [by eapply Hidle|]); op_inv Ho;
        destruct (batch_operations _ _ _ _ _ Ha) as (Hl & Hb & _); cbn in Hb; eapply (Hbusy (br_writes a) (br_operations a)); [lia|lia|lia|exact Ho|done].
      * unfold proving_step in Ho. repeat (split_if; [by eapply Hidle|]). do 2 (apply bind_ok in Ho as (? & _ & Ho)). split_if; [by eapply Hidle|].
        apply bind_ok in Ho as ([reasons|decision] & _ & Ho); [by eapply Hidle|]. split_if; [by eapply Hidle|]. op_inv Ho.
        eapply (Hbusy _ 2); [|lia|lia|exact Ho|done]. unfold finalizeRetiredRoot in Ha0. cbn [fi_tenantId fi_rsid] in Ha0. rewrite Hr in Ha0.
        cbn [mbind result_bind] in Ha0. rewrite Ec in Ha0. op_inv Ha0. injection Ha0 as <-. cbn. by eapply Htwo.
      * by eapply Hidle.
  - unfold claim_step in Ho. do 5 (apply bind_ok in Ho as (? & _ & Ho)). apply bind_ok in Ho as ([reasons|decision] & _ & Ho); [by eapply Hidle|].
    op_inv Ho. eapply (Hbusy _ 2); [|lia|lia|exact Ho|done]. 
    match goal with Hc : claimRetention _ _ _ _ _ _ = Ok _ |- _ => unfold claimRetention in Hc; rewrite Hr in Hc; cbn [mbind result_bind] in Hc; op_inv Hc; injection Hc as <- end.
    cbn. by eapply Htwo.
Qed.

End facts.
End RetentionStepFacts.
