(* ===== verification/RetentionScenario.v ===== *)
(** A session retired on the pre-production store: its history of sixty-five receipts (two
    leaves under a branch) and one private object are planned, committed, claimed, deleted
    and retired.  The witnesses of [HistoryTree], [Retention] and [RetentionStep] are moments
    of this run. *)

From stdpp Require Import relations.
From S2P Require Import Prelude JsString JsValue JsMap Canonical JsonText ProtocolStore Effects HistoryTree Retention Maintenance RetentionStep.

Module RetentionScenario.
Import Canonical CanonicalFacts JsonText JsonTextFacts HistoryTree HistoryTreeFacts Retention RetentionFacts Maintenance MaintenanceFacts RetentionStep RetentionStepFacts.
Import ProtocolStore(Store, Limits, StoredRecord, StoreWrite, s_limits, finish_transact, tx_stage, store_ok, ts_inv, ts_commit, ts_find, ts_commit_inv).
Import ProtocolStoreFacts(new_tx, find_record, commits, bounded, preproduction_store, preproduction_store_ok).

(** A checksum in place of SHA-256: the theorems ask no more of the hash than its shape. *)
Definition checksum (bytes : list Z) : jstr :=
  let sum := foldl (λ acc b, Z.land (acc * 263 + b + 1) (Z.ones 64)) 7 bytes in
  map (λ i, hex_digit (Z.land (Z.shiftr sum (4 * (i mod 16))) 15)) (seqZ 0 64).
#[local] Instance scenario_hash : Hasher := checksum.

#[local] Existing Instance ProtocolStoreFacts.demo_float.
#[local] Instance scenario_float_ok : JsonText.Float64Ok ProtocolStoreFacts.demo_float.
Proof. by split. Qed.
#[local] Existing Instance preproduction_store_ok.

Lemma hex_digit_hex d : 0 <= d < 16 → is_lower_hex (hex_digit d) = true.
Proof.
  intros Hd. unfold hex_digit, is_lower_hex, is_digit. destruct (d <? 10) eqn:E; bsimp; apply orb_true_iff; [left|right];
    apply andb_true_iff; rewrite !Z.leb_le; lia.
Qed.

#[local] Instance scenario_hash_ok : HasherOk scenario_hash.
Proof.
  intros bs. unfold sha256_hex, scenario_hash, checksum. split; [by rewrite length_map, length_seqZ|].
  rewrite forallb_true. intros c (i & -> & _)%list_elem_of_fmap. apply hex_digit_hex.
  change 15 with (Z.ones 4). rewrite Z.land_ones by lia. apply Z.mod_pos_bound. lia.
Qed.

(** A collation that orders strings by their code units. *)
Definition by_units (a b : jstr) : Z := if a === b then 0 else if str_ltb a b then -1 else 1.

Definition tenant : jstr := js "acme".
Definition session : jstr := js "rs-a".

Definition receipts_of (n : nat) : list jsval := map (λ i, int (Z.of_nat i)) (seq 0 n).
Definition lane_input : PlanInput := {|
  bi_tenantId := tenant; bi_rsid := session; bi_treeKind := receipts; bi_entries := orderedLaneEntries (receipts_of 65) |}.

Definition ok_or {E A} (d : A) (r : result E A) : A := match r with Ok a => a | Throw _ => d end.

Definition no_plan : SessionHistoryPagePlan := {|
  pn_tree := {| tr_treeKind := receipts; tr_root := None; tr_entryCount := 0 |}; pn_pages := [] |}.
Definition plan : SessionHistoryPagePlan := Eval vm_compute in ok_or no_plan (buildSessionHistoryPagePlan by_units lane_input).

(** ** The store *)

Definition options : ProtocolStore.PreProductionProtocolStoreOptions :=
  ProtocolStore.Build_PreProductionProtocolStoreOptions None None None None None None.

Definition closed_store : Store := {|
  ProtocolStore.s_limits := ProtocolStore.PRE_PRODUCTION_RUNTIME_DEFAULT_LIMITS; ProtocolStore.s_tenants := []; ProtocolStore.s_opened := false;
  ProtocolStore.s_activeTransactions := 0; ProtocolStore.s_nextVersion := 0; ProtocolStore.s_recordCount := 0; ProtocolStore.s_totalValueBytes := 0 |}.

Definition commit_writes (st : Store) (ws : list StoreWrite) : Store :=
  (finish_transact st (foldl (tx_stage (s_limits st)) (new_tx tenant) ws) (Some tt) (JInt 9)).1.

(** The store before anything was written. *)
Definition st0 : Store := (ProtocolStore.open_store closed_store).1.

Lemma st0_inv : ts_inv (TransactionalStore := preproduction_store) st0.
Proof.
  split; [|vm_compute; discriminate].
  assert (ProtocolStoreFacts.world_inv (ProtocolStoreFacts.demo_world closed_store [])) as Hi
    by (apply (ProtocolStoreFacts.create_inv options); vm_compute; reflexivity).
  exact (proj1 (ProtocolStoreFacts.store_step_inv ProtocolStoreFacts.no_collation _ _ Hi
    (ProtocolStoreFacts.step_open ProtocolStoreFacts.no_collation closed_store []))).
Qed.

Definition reading (st : Store) : jstr → jstr → option StoredRecord := find_record st tenant.
Definition listing (st : Store) (namespace : jstr) : list StoredRecord :=
  map ProtocolStore.publicRecord (ProtocolStore.listFor by_units (ProtocolStore.s_tenants st) tenant namespace).

(** ** The session *)

Definition object_key : jstr := js "rs-a/outbound/1".
Definition object_binding : jsval := obj [(js "tenantId", VStr tenant); (js "rsid", VStr session); (js "storageKey", VStr (js "k"))].
Definition object_intent : jsval := obj [
  (js "schema", VStr GATEWAY_SESSION_BLOB_INTENT_NAMESPACE); (js "state", VStr (js "active")); (js "tenantId", VStr tenant);
  (js "rsid", VStr session); (js "purpose", VStr (js "outbound")); (js "ownerIdentity", VStr (js "gw")); (js "ownerEpoch", int 1);
  (js "binding", object_binding); (js "deletionClaim", VNull)].

Definition root0 : DurableRbpSessionV3 := {|
  rt_rootVersion := 1; rt_tenantId := tenant; rt_rsid := session; rt_identity := obj [];
  rt_binding := obj [(js "sessionBindingId", VStr (js "sb")); (js "sessionVersion", int 1); (js "resumeExpiresAtMs", int 0)];
  rt_lifecycle := obj [(js "phase", VStr (js "unregistered")); (js "dispatchAllowed", VBool false); (js "resumeAllowed", VBool false);
                       (js "updatedAtMs", int 0)];
  rt_sequenceHead := obj [(js "lastRxSeq", int 65)]; rt_migrationProof := obj []; rt_durabilityProfile := obj []; rt_trees := [pn_tree plan];
  rt_singletonRefs := []; rt_antiDowngradeRefs := []; rt_retentionClosure := None; rt_retiredAuthorityDigest := None; rt_completionDigest := None |}.

Definition writes0 : list StoreWrite := Eval vm_compute in
  ProtocolStore.Build_StoreWrite GATEWAY_SESSION_BLOB_INTENT_NAMESPACE object_key (Some object_intent) ProtocolStore.expect_absent ::
  ok_or [] (stageNew root0 [plan] 0).
Definition st1 : Store := Eval vm_compute in commit_writes st0 writes0.

Lemma commit0 : ts_commit (TransactionalStore := preproduction_store) st0 tenant writes0 st1.
Proof. exists (JInt 9), tt. split; vm_compute; reflexivity. Qed.

Lemma st1_inv : ts_inv (TransactionalStore := preproduction_store) st1.
Proof. exact (ts_commit_inv _ _ _ _ st0_inv commit0). Qed.

(** ** The steps *)

Definition owner (epoch : Z) : SessionRetentionOwner := {| ow_identity := js "gw"; ow_epoch := epoch |}.
Definition due : Z := 15 * 24 * 60 * 60 * 1000.

Definition facts : SessionFacts := {|
  sf_sessionBindingId := js "sb"; sf_sessionVersion := 1; sf_phase := js "unregistered"; sf_dispatchAllowed := false; sf_resumeAllowed := false;
  sf_resumeExpiresAtMs := JInt 0; sf_updatedAtMs := JInt 0; sf_pending := None; sf_fenceOpen := true; sf_leaseHeld := false;
  sf_indexComplete := true |}.

Definition port : StepPort := {|
  sp_serving := true; sp_objects := Some {| po_mint := Ok tt; po_delete := Ok true; po_getOptional := Ok (Some false) |};
  sp_scanOwned := Some 0; sp_closureId := js "closure"; sp_token := js "token" |}.

(** The session's maintenance in one store, by an owner, with all of a pass's budget. *)
Definition step_in (st : Store) (epoch now : Z) : result halt (Processed * list StoreWrite) :=
  maintain_transaction by_units (reading st) (listing st) (λ _, Ok facts) 4 tenant session (owner epoch) now 64 port.
Definition writes_in (st : Store) (epoch now : Z) : list StoreWrite := match step_in st epoch now with Ok (_, ws) => ws | Throw _ => [] end.

(** Claimed; the object under its deletion; the object gone; the pages gone; retired. *)
Definition writes1 : list StoreWrite := Eval vm_compute in writes_in st1 1 due.
Definition st2 : Store := Eval vm_compute in commit_writes st1 writes1.
Definition writes2 : list StoreWrite := Eval vm_compute in writes_in st2 1 due.
Definition st3 : Store := Eval vm_compute in commit_writes st2 writes2.
Definition writes3 : list StoreWrite := Eval vm_compute in writes_in st3 1 due.
Definition st4 : Store := Eval vm_compute in commit_writes st3 writes3.
Definition writes4 : list StoreWrite := Eval vm_compute in writes_in st4 1 due.
Definition st5 : Store := Eval vm_compute in commit_writes st4 writes4.
Definition writes5 : list StoreWrite := Eval vm_compute in writes_in st5 1 due.
Definition st6 : Store := Eval vm_compute in commit_writes st5 writes5.
(** After [st3] another process takes over. *)
Definition writes3' : list StoreWrite := Eval vm_compute in writes_in st3 2 (due + 30000).
Definition st4' : Store := Eval vm_compute in commit_writes st3 writes3'.

Lemma commit4 : ts_commit (TransactionalStore := preproduction_store) st4 tenant writes4 st5.
Proof. exists (JInt 9), tt. split; vm_compute; reflexivity. Qed.

Lemma st4_inv : ts_inv (TransactionalStore := preproduction_store) st4.
Proof.
  assert (∀ st ws st', ts_inv (TransactionalStore := preproduction_store) st → commits st tenant ws st' →
    ts_inv (TransactionalStore := preproduction_store) st') as Hstep by (intros st ws st'; exact (ts_commit_inv st tenant ws st')).
  apply (Hstep st3 writes3); [apply (Hstep st2 writes2); [apply (Hstep st1 writes1); [exact st1_inv|]|]|];
    exists (JInt 9), tt; split; vm_compute; reflexivity.
Qed.

(** The root as it is read, and its closure. *)
Definition no_record : StoredRecord := ProtocolStore.Build_StoredRecord [] [] [] VNull 0 0.
Definition current_in (st : Store) : Authoritative :=
  match readAuthoritative (reading st) tenant session with
  | Ok (Some current) => current
  | _ => {| au_root := no_record; au_value := root0; au_marker := no_record |}
  end.
Definition closure_in (st : Store) : SessionRetentionClosureV1 :=
  nullish (rt_retentionClosure (au_value (current_in st))) (closure_of VNull).

(** ** Witnesses *)

Lemma lane_input_ok : input_ok lane_input.
Proof.
  split; [vm_compute; reflexivity..|]. intros e He. assert (forallb (λ e, units_ok (he_key e) && json_tree (he_value e)) (bi_entries lane_input) = true) as Hall
    by (vm_compute; reflexivity).
  rewrite forallb_true in Hall. specialize (Hall e He). by apply andb_true_iff in Hall.
Qed.

Lemma plan_built : buildSessionHistoryPagePlan by_units lane_input = Ok plan.
Proof. vm_compute. reflexivity. Qed.

Lemma plan_staged p : p ∈ pn_pages plan → page_write p ∈ writes0.
Proof.
  intros Hp. assert (∃ pre post, writes0 = pre ++ map page_write (pn_pages plan) ++ post) as (pre & post & ->)
    by (exists (take 1 writes0), (drop 4 writes0); vm_compute; reflexivity).
  apply elem_of_app; right; apply elem_of_app; left. apply list_elem_of_fmap. eauto.
Qed.

Lemma by_units_digits : orders_digits by_units.
Proof.
  intros a b _ _ _ Hle. unfold by_units. case_bool_decide; [lia|]. destruct (str_ltb a b) eqn:E; [lia|].
  exfalso. unfold str_leb in Hle. apply negb_true_iff in Hle. destruct (str_ltb_cases a b) as [|[|]]; congruence.
Qed.

Lemma lane_reads_back_witness :
  length (pn_pages plan) = 3%nat ∧ readTree (ts_find (TransactionalStore := preproduction_store) st1 tenant) 4 tenant session (pn_tree plan) =
    Ok (orderedLaneEntries (receipts_of 65)).
Proof.
  split; [vm_compute; reflexivity|].
  apply (lane_reads_back (ST := preproduction_store) by_units lane_input (receipts_of 65) plan st0 writes0 st1 4 lane_input_ok eq_refl by_units_digits plan_built
           st0_inv commit0 plan_staged). lia.
Defined.

Lemma history_captured_witness :
  ∃ refs, listCapturedPageRefs by_units (ts_find (TransactionalStore := preproduction_store) st1 tenant) 4 tenant session [pn_tree plan] = Ok refs ∧
    map rf_key refs ≡ₚ map pp_key (pn_pages plan).
Proof.
  apply (history_captured (ST := preproduction_store) by_units lane_input plan st0 writes0 st1 4 lane_input_ok plan_built st0_inv commit0 plan_staged). lia.
Defined.

(** Two keys that a collation of words orders as the alphabet does. *)
Definition word_input : PlanInput := {|
  bi_tenantId := tenant; bi_rsid := session; bi_treeKind := aliases;
  bi_entries := [{| he_key := js "a"; he_value := int 1 |}; {| he_key := js "B"; he_value := int 2 |}] |}.
Definition alphabetic (a b : jstr) : Z :=
  let lower := map (λ u, if is_upper u then u + 32 else u) in by_units (lower a) (lower b).
Definition word_plan : SessionHistoryPagePlan := Eval vm_compute in ok_or no_plan (buildSessionHistoryPagePlan alphabetic word_input).
Definition word_store : Store := Eval vm_compute in commit_writes st0 (map page_write (pn_pages word_plan)).

Lemma collated_history_unreadable_witness :
  readTree (ts_find (TransactionalStore := preproduction_store) word_store tenant) 4 tenant session (pn_tree word_plan) = Throw (thrown unordered).
Proof.
  apply (collated_history_unreadable (ST := preproduction_store) alphabetic word_input {| he_key := js "a"; he_value := int 1 |} {| he_key := js "B"; he_value := int 2 |}
           word_plan st0 (map page_write (pn_pages word_plan)) word_store 4).
  - split; [vm_compute; reflexivity..|]. intros e [->|He]%elem_of_cons; [|apply list_elem_of_singleton in He as ->]; split; vm_compute; reflexivity.
  - reflexivity.
  - vm_compute; discriminate.
  - vm_compute; reflexivity.
  - vm_compute; reflexivity.
  - exact st0_inv.
  - exists (JInt 9), tt. split; vm_compute; reflexivity.
  - intros p Hp. apply list_elem_of_fmap. eauto.
  - lia.
Defined.

Lemma root_reads_back_witness :
  ∃ current, readAuthoritative (ts_find (TransactionalStore := preproduction_store) st1 tenant) tenant session = Ok (Some current) ∧ au_value current = root0.
Proof.
  apply (root_reads_back (ST := preproduction_store) root0 ProtocolStore.expect_absent ProtocolStore.expect_absent 0 (drop 4 writes0) st0 writes0 st1).
  - vm_compute; reflexivity.
  - vm_compute; reflexivity.
  - vm_compute; reflexivity.
  - intros w Hw. assert (forallb (λ w, (sessionRecordValueBytes (nullish (ProtocolStore.sw_value w) VNull) <=? SESSION_MARKER_MAX_BYTES)) (drop 4 writes0) = true)
      as Hall by (vm_compute; reflexivity). rewrite forallb_true in Hall. left. by apply Z.leb_le, Hall.
  - exact st0_inv.
  - exact commit0.
  - intros w Hw. rewrite <- (take_drop 4 writes0). apply elem_of_app. by right.
Defined.

Definition due_candidate : SessionRetentionCandidate :=
  retention_candidate tenant session (current_in st1) facts [] None None ([], true) ([], true).
Definition due_input : EvaluateInput := {| ev_nowMs := JInt due; ev_retentionMs := None; ev_eligibilityCutoffMs := None |}.

Lemma eligible_only_when_due_witness :
  ∃ d, evaluateSessionRetention by_units due_candidate due_input = Ok (eligible d) ∧ num_Z (ca_resumeExpiresAtMs due_candidate) + MINIMUM_SESSION_RETENTION_MS <= due.
Proof.
  eexists. split; [vm_compute; reflexivity|]. eapply (eligible_only_when_due by_units due_candidate due_input). vm_compute; reflexivity.
Defined.

(** The batch of the pages. *)
Definition batch_input (st : Store) (max : Z) : BatchInput := {|
  bt_tenantId := tenant; bt_rsid := session; bt_claimToken := js "token"; bt_owner := owner 1; bt_updatedAtMs := due; bt_maxOperations := JInt max;
  bt_objects := sp_objects port |}.
Definition no_batch : BatchResult := {|
  br_root := root0; br_deletedRecords := 0; br_processedEntries := 0; br_pagesExhausted := false; br_operations := 0; br_writes := []; br_object := None |}.
Definition last_batch : BatchResult := Eval vm_compute in ok_or no_batch (deleteRetentionPageBatch by_units (reading st4) 4 (batch_input st4 64)).

Lemma exhausted_batch_empties_witness :
  ∃ current closure closure' captured,
    readAuthoritative (ts_find (TransactionalStore := preproduction_store) st4 tenant) tenant session = Ok (Some current) ∧
    rt_retentionClosure (au_value current) = Some closure ∧ rt_retentionClosure (br_root last_batch) = Some closure' ∧ sc_state closure' = proving_empty ∧
    sc_roots closure' = sc_roots closure ∧
    capturedPages by_units (ts_find (TransactionalStore := preproduction_store) st4 tenant) 4 tenant session (sc_roots closure) = Ok captured ∧
    (∀ ref, ref ∈ cp_leaves captured ++ cp_branches captured → ts_find (TransactionalStore := preproduction_store) st5 tenant (rf_namespace ref) (rf_key ref) = None) ∧
    ct_deletedRecords (sc_counts closure') - ct_deletedObjects (sc_counts closure') = Z.of_nat (length (cp_leaves captured ++ cp_branches captured)) ∧
    ct_processedEntries (sc_counts closure') = sum_counts_of (cp_leaves captured).
Proof.
  apply (exhausted_batch_empties by_units (ST := preproduction_store) 4 (batch_input st4 64) st4 last_batch st5).
  - vm_compute; reflexivity.
  - vm_compute; reflexivity.
  - exact st4_inv.
  - exact commit4.
Defined.

Lemma batch_within_closure_witness :
  ∃ current closure, readAuthoritative (reading st4) tenant session = Ok (Some current) ∧ rt_retentionClosure (au_value current) = Some closure ∧
    holds_claim closure (js "token") (owner 1) = true ∧ Z.of_nat (length (br_writes last_batch)) = br_operations last_batch ∧
    br_operations last_batch <= 64 <= 64 ∧ ∀ w, w ∈ br_writes last_batch → in_closure by_units 4 (reading st4) (batch_input st4 64) closure w.
Proof. apply (batch_within_closure by_units (reading st4) 4 (batch_input st4 64) last_batch). vm_compute; reflexivity. Defined.

(** Two leaves fit a budget of four writes, but not with the branch above them. *)
Lemma branches_exceed_budget_witness : length (sc_roots (closure_in st4)) = 1%nat ∧ ∀ out, deleteRetentionPageBatch by_units (reading st4) 4 (batch_input st4 4) ≠ Ok out.
Proof.
  split; [vm_compute; reflexivity|]. eapply (branches_exceed_budget by_units (reading st4) 4 (batch_input st4 4) (current_in st4) (closure_in st4)).
  - vm_compute; reflexivity.
  - vm_compute; reflexivity.
  - vm_compute; discriminate.
  - vm_compute; reflexivity.
  - vm_compute. split; [discriminate|reflexivity].
Defined.

Lemma takeover_strands_object_witness : cl_generation (sc_claim (closure_in st4')) = 2 ∧ ∀ out, deleteRetentionPageBatch by_units (reading st4') 4
  {| bt_tenantId := tenant; bt_rsid := session; bt_claimToken := js "token"; bt_owner := owner 2; bt_updatedAtMs := due; bt_maxOperations := JInt 64;
     bt_objects := sp_objects port |} ≠ Ok out.
Proof.
  split; [vm_compute; reflexivity|]. eapply (takeover_strands_object by_units (reading st4') 4 _ (current_in st4') (closure_in st3) (closure_in st4')).
  - apply tc_once. exists {| tk_owner := owner 2; tk_nowMs := due + 30000; tk_oldOwnerInactive := true; tk_claimExpiresAtMs := due + 60000; tk_token := js "token" |}.
    vm_compute; reflexivity.
  - vm_compute; reflexivity.
  - vm_compute; reflexivity.
  - vm_compute; reflexivity.
  - vm_compute; discriminate.
  - vm_compute; reflexivity.
  - vm_compute; reflexivity.
  - vm_compute; reflexivity.
Defined.

Lemma retired_stays_retired_witness : is_Some (rt_completionDigest (au_value (current_in st6))) ∧
  ∀ fuel input out, bt_tenantId input = tenant → bt_rsid input = session → deleteRetentionPageBatch by_units (reading st6) fuel input ≠ Ok out.
Proof.
  split; [by eexists; vm_compute|]. apply (retired_stays_retired by_units (reading st6) tenant session (current_in st6) (closure_in st6)); vm_compute; reflexivity.
Defined.

Lemma step_accounts_for_writes_witness : ∃ p, step_in st4 1 due = Ok (p, writes4) ∧ pc_operations p = 5.
Proof.
  eexists. split; [vm_compute; reflexivity|].
  assert (5 = Z.of_nat (length writes4)) as -> by (vm_compute; reflexivity).
  eapply (step_accounts_for_writes by_units (reading st4) (listing st4) (λ _, Ok facts) 4 tenant session (owner 1) due 64 port). vm_compute; reflexivity.
Defined.

(** A gateway whose first session is retired, and that has others. *)
Definition retired_first : environment call answer := λ _ c,
  match c as c return answer c with
  | m_owner => Some (owner 1)
  | m_clock => 0
  | m_tenants _ => Ok (store_ok [tenant; js "other"])
  | m_keys _ _ _ => Ok (store_ok [session; js "rs-b"])
  | m_transact t k o now n =>
      match maintain_transaction by_units (reading st6) (listing st6) (λ _, Ok facts) 4 t k o now n port with
      | Ok (p, _) => Ok (store_ok p)
      | Throw _ => Ok (ProtocolStore.store_refused ProtocolStore.unavailable [])
      end
  end.

Lemma resting_session_ends_retention_witness :
  ∃ l e, l ∈ (drive retired_first quiet 5 at_work).1.2 ∧ e ∈ l ∧ transacts tenant session e ∧
  ∀ l e t' k', l ∈ (drive retired_first quiet 5 at_work).1.2 → e ∈ l → transacts t' k' e → t' = tenant ∧ k' = session.
Proof.
  destruct (drive_runs retired_first quiet 5 at_work [] at_work_runs) as [Hr Hc].
  do 2 eexists. split; [apply (list_elem_of_lookup_2 _ 0%nat); vm_compute; reflexivity|].
  split; [left|]. split; [by do 4 eexists|].
  apply (resting_session_ends_retention by_units tenant session _ _ _ Hr). eapply Forall2_impl; [exact Hc|].
  intros s l (w & <- & H). eexists. split; [|exact H]. split; [by eexists|by eexists|].
  intros hh o now n. exists (reading st6), (listing st6), (λ _, Ok facts), 4%nat, port. split.
  - exists (current_in st6). split; vm_compute; reflexivity.
  - cbn [retired_first answered]. destruct (maintain_transaction _ _ _ _ _ _ _ _ _ _ _) as [[p ws]|]; cbn; eauto.
Defined.

End RetentionScenario.
